(* ===== verification/_CoqProject ===== *)
-Q . S2P
Prelude.v
JsString.v
Address.v
Cidr.v
Partition.v
CidrMatch.v
AfterCommit.v
Bytes.v
DnsWire.v
ProbeRun.v
DhcpProbe.v
Duid.v
Leases.v
ConfigValue.v
Radvd.v
Daemons.v
StackSwitch.v
StackSwitchFacts.v
StackSwitchServing.v
StackSwitchRadvd.v
StackSwitchOutcome.v
StackSwitchBoot.v
StackSwitchLeases.v
LeaseSync.v
ScanCoverage.v
Dhcp6Probe.v
DhcpCatalog.v
DhcpDefaults.v
ScopeOptions.v
DhcpPools.v
Subnets.v
Ranges.v
TransformationPlan.v
NetworkTree.v
RangeMoves.v
UpstreamPool.v
DnsNames.v
ReverseZones.v
ZoneFiles.v
UrlGuard.v
OutboundStream.v
Blocklist.v
FilterPolicy.v
Exemptions.v
DnsAnswers.v
DnsProxy.v
DnsProxyFacts.v
DnsProxyTcp.v
IpLifecycle.v
IpRows.v
IpService.v
PoolSegments.v
ZoneDiff.v
Totp.v
Accounts.v
Sessions.v
SignIn.v
SignInFacts.v
SignInTrace.v
