(* ===== verification/Prelude.v ===== *)
(** * CIDRella: a verification development

    CIDRella (src/) manages IP addresses, DNS and DHCP: an Express server
    (src/server/src) over SQLite that configures Kea or dnsmasq for DHCP and
    PowerDNS for DNS, and a Vue client. This library models the parts of the
    server where a wrong answer is a wrong network, and proves what those
    parts promise to each other. It is a shallow embedding: a function of the
    source is a Gallina function of the same name, a table is a list or a
    finite map, an event handler is a step of a machine.

    ** How to read it

    - A function that can throw returns a [result] ([Ok] or [Err], this file);
      routes that answer with a status return it as the error.
    - An address is an unsigned integer held in [Z] with its width, 32 or 128.
      The source uses BigInt there, so no operation wraps; where the source
      goes through 32 bit integers ([>>>], [<<]) the width is written out.
    - A string is a [String.string] of the bytes the source sees. [trim],
      [split], [toLowerCase], [parseInt], [Number] and the regular expressions
      of the source are written out in [JsString] for ASCII.
    - A row of a table is a record with the columns the modelled code reads or
      writes; a row id is a [Z] handed out in increasing order.
    - Sockets, timers, processes and the event loop are events given to a
      step function; a theorem over all event lists covers every interleaving.

    ** The files and the code they model

    Foundations
    - [Prelude]: results, the bind notations, list, option and bit lemmas.
    - [JsString]: the string functions of the language; JavaScript objects
      used as maps, which keep insertion order ([js_get], [js_set]).
    - [Bytes]: byte buffers and big-endian integers.

    Addresses and networks
    - [Address]: utils/address.js. Parsing, printing, RFC 5952 compression,
      canonical form and sort key.
    - [Cidr]: utils/cidr.js. Parsing of networks, containment, overlap,
      division, subtraction, merging, supernets, limits on the work done.
    - [CidrMatch]: utils/cidr-match.js and models/geoip-ip-allowlist.js. The
      GeoIP allowlist, its matcher and its boot pass.
    - [ReverseZones]: utils/reverse-zones.js. From networks to in-addr.arpa
      and ip6.arpa zones and back.
    - [Partition]: what a division or a merge of networks promises, stated once
      over [Cidr] for the files below.
    - [Subnets]: the row of a network, its gateway rules and the statements
      that change rows (services/subnet-topology.js).
    - [TransformationPlan]: services/network-transformation-plan.js with the
      gateway rules of services/subnet-topology.js. What a division or a merge
      of networks will do, and whether a plan is still current.
    - [NetworkTree]: the tree of networks under every operation that writes it
      (routes/subnets.js, services/subnet-topology.js): a step relation, and
      the invariant that the table is a forest of nested, disjoint networks.
    - [Ranges]: models/range.js, routes/ranges.js and the range events of
      models/ip-events.js. The labels laid over the addresses of a network,
      the requests that edit them and the history they leave.
    - [RangeMoves]: what a division and a merge do to the rows of [Ranges]
      (services/subnet-topology.js).

    DHCP
    - [DhcpCatalog], [DhcpDefaults], [ScopeOptions]: utils/dhcp-options.js,
      models/dhcp-option.js, models/dhcp-scope.js and the backend's view of a
      scope. The layers an option can come from and which one decides.
    - [DhcpPools], [PoolSegments]: pools of a network and the segments left
      around reserved addresses.
    - [Duid], [DhcpProbe], [Dhcp6Probe], [ProbeRun]: the search for rogue DHCP
      servers: packets, verdict and the run with its timers.

    DNS
    - [DnsNames], [ZoneDiff]: record names and the changes sent to PowerDNS.
    - [ZoneFiles]: backends/shared/dns-zone-model.js and the zone writers of
      backends/dnsmasq/dnsmasq.js. Which records are served, the files dnsmasq
      is given of them, and when it must be told.
    - [DnsWire]: framing of messages on a stream.
    - [UpstreamPool]: utils/upstream-pool.js. Encrypted upstream connections.
    - [Blocklist]: utils/blocklist.js, models/blocklist-store.js. A feed, its
      download, the staging table and its application in chunks; a refresh
      gives every state of the table a lookup can meet on the way.
    - [Exemptions]: models/filtering-exemption.js. The hosts that are not
      filtered, kept by device or by address.
    - [FilterPolicy]: the verdicts of utils/dns-proxy.js on a query and on its
      answer, what they read and the counters; the pause of
      routes/blocklists.js.
    - [DnsAnswers]: the answers the proxy makes itself and the cause of a
      failed one (utils/dns-proxy.js, utils/dns-ede.js).
    - [DnsProxy]: utils/dns-proxy.js over UDP as a machine: queries, their
      internal ids and timers, the answers of the backend, the second question
      to the forwarder, start and stop. [DnsProxyFacts]: its theorems.
    - [DnsProxyTcp]: the same over TCP, the relay and the client connections.

    Address lifecycle
    - [IpLifecycle], [IpRows], [IpService]: models/ip-lifecycle.js,
      models/ip-address.js and services/ip-lifecycle-service.js. Who may claim
      an address, and the DNS hold.

    Boundaries with the outside
    - [AfterCommit]: utils/after-commit.js with the generation counters of
      models/configuration-generation.js.
    - [ConfigValue]: utils/config-value-validation.js and utils/lease-time.js.
    - [ScanCoverage]: utils/scan-coverage.js, the selection of
      utils/scan-scheduler.js, the address list of utils/scanner.js and
      bulkMarkStale of models/ip-address.js.
    - [UrlGuard], [OutboundStream]: utils/url-guard.js. Which addresses an
      outbound request may reach, and how much of a reply is read.

    The daemons and the stack
    - [Leases]: the lease file of dnsmasq (backends/dnsmasq) and a lease on its
      way to and from the control API of Kea (backends/kea/leases.js).
    - [LeaseSync]: services/dhcp-lease-sync.js. When a sync runs.
    - [Radvd]: backends/radvd/render.js. The text radvd is given.
    - [Daemons]: the world a switch acts on - daemons, their files, the
      settings and the variables of the process - and the operations of
      backends/ and services/backend-apply.js it uses. A program is a function
      on worlds that returns, throws or dies; [env] decides every outcome and
      what the daemons do in between.
    - [StackSwitch]: services/stack-switch.js on those operations.
    - [StackSwitchFacts], [StackSwitchServing], [StackSwitchOutcome],
      [StackSwitchBoot], [StackSwitchLeases], [StackSwitchRadvd]: rules for
      such programs, and the theorems, one subject a file.

    Signing in
    - [Totp]: auth/totp.js. Base32, six digit codes and backup codes.
    - [Accounts]: auth/roles.js, auth/require-perm.js, auth/password-policy.js.
      The role table with its gates, and the rule for new passwords.
    - [Sessions]: models/session.js, models/user.js, models/backup-code.js and
      auth/tokens.js. The four tables and every statement that writes them.
    - [SignIn]: auth/middleware.js, auth/routes.js, routes/users.js and
      reset-password.js as one machine: a request runs from the gate to its
      first await, what follows is a pending continuation with the values it
      captured, and any order of arrivals and resumptions is a run.
    - [SignInFacts], [SignInTrace]: its theorems, on one state and on runs.

    The files are in dependency order in _CoqProject. [Cidr] rests on
    [Address]; [ScopeOptions] and [DhcpPools] on [Cidr] and [DhcpDefaults];
    [RangeMoves] on [Ranges] and [NetworkTree]; [IpService] on [IpRows] and
    [IpLifecycle]; [UrlGuard] and [ScanCoverage] on [Cidr]; [ZoneFiles] on
    [ConfigValue], [DnsNames] and [ReverseZones];
    [FilterPolicy] on [Blocklist] and [CidrMatch], [DnsProxy] on
    [FilterPolicy] and [DnsAnswers]; [Daemons] on [Leases]
    and [Radvd]; [SignIn] on
    [Totp], [Accounts] and [Sessions]; both
    probes run on the machine of [ProbeRun], each through an instance.

    ** What the theorems show

    Each property carries its number in its doc comment.
    - Addresses: what is printed reads back, two texts are the same address
      exactly when they have the same canonical form, and the sort key orders
      as the numbers do.
    - Networks: a parsed network is a block; containment, overlap, division,
      subtraction and merging are what they say on sets of addresses, and
      every loop stays within its limit.
    - The tree of networks: over every sequence of requests it stays a forest;
      a division replaces a leaf by a partition of it, a merge does the
      reverse, consolidation changes no leaf, and the database never rejects
      what a route has accepted. The plans shown beforehand are sound.
    - Network range types: an address carries one label at most whatever is
      requested; a request changes the addresses it names and no others; the
      events recorded by range edits and by the removal of networks replay to
      the labels there are now (divisions, merges and edits of the types record
      none); a division and a merge lose no label, and undo each other.
    - State machines ([AfterCommit], [ProbeRun], [UpstreamPool],
      [OutboundStream]): invariants over all reachable states, a query or a
      download settles once, a hook that was asked for runs.
    - DHCP: which layer an option comes from, that what was saved is what is
      served (a DHCPv4 lease time given as an option is refused with an
      exception), that pools stay inside the network and off reserved addresses.
    - Safety at the boundary: the zone files of dnsmasq have the directives of
      the served records and no record adds one; a fetch does not connect to
      the ranges the URL guard lists, which are not all that are not public.
    - Signing in: no session without the password of its account; one that
      ended, or whose account was changed, is never let in again; a code and a
      backup code are good once; an administrator is always left; a token works
      for its day; base32 and the check of a code are exact. Three examples show
      what the awaits let through.
    - The stack: for every behaviour of the daemons and every point where the
      program may die, dnsmasq and Kea do not answer DHCP at once unless a
      daemon refused to stop; a switch is recorded whole or not at all, and one
      that failed has put the source back or says that it could not; boot
      after a crash serves one of the two stacks with everything naming it; a
      finished switch to Kea has carried over the final lease file, and
      reports the leases refused. One theorem shows a defect: with a DHCPv6
      network to advertise the switch to Kea cannot succeed.
    - Leases: a lease file reads back as the leases it was written from, as far
      as they have names that are words and the identity of their family; a
      lease Kea accepts is the lease it was. A held sync stays away, two never
      run at once, and every change is followed by a sync.
    - Scanning: the sweep marks offline exactly the silent rows that no
      scheduled scan will probe, for rows at the hosts of their network.
    - DNS: the diff sent to PowerDNS leaves it with the desired zones; every
      reverse zone of a network covers exactly its addresses.
    - The DNS proxy: over every order of queries, answers, timers and stops, no
      query is answered twice; while the proxy is not stopped each is answered
      or waiting, and all are answered once every timer has fired; ids do not run out below the limit on
      pending queries; UDP and TCP send a client the same answer when the backend and
      the forwarder answer them alike. The examples
      show where the two differ in what they count, and what a restart does to
      the cap on connections.
    - Filtering: a name is blocked exactly when a suffix of it is listed in an
      enabled category and nothing exempts it, an answer exactly when one of
      its addresses lies in a blocking country; no state of the table on the
      way of a refresh lacks a domain that the old list and the feed share,
      and afterwards the feed decides; turning filtering on or off for a host
      changes the hosts its key covers.

    ** Parameters and hypotheses

    Code outside src/ is an argument of the definitions that use it. [UrlGuard]
    takes net.isIP, the URL parser and dns.lookup; the record
    [node_behaviour] states the documented facts used of them, and a concrete
    instance shows that they can hold. [OutboundStream] takes the inflater.
    [DnsProxy] takes the codec of dns-packet, with the facts used of it named
    ([codec_ok], [encodes]) and a toy codec that has them; the country of an
    address and the delivery of datagrams are in [Env] and the events.
    [TransformationPlan] takes the digest of a plan. [SignIn] takes what
    jsonwebtoken, bcryptjs and node:crypto compute through the class [Crypto];
    what it relies on of them is named ([signing], [digest], [unforged]), and
    [toy_crypto] is an instance that has it. [Daemons] takes [env], the answers of
    processes, files and APIs and what happens between them, with no
    hypothesis except in [leases_come_along] (Kea changes no lease of its own),
    and [stored], what Kea keeps of a lease it is given; [kea_keeps] states the
    documented fact used of that, and [some_kea] has it. SQLite is not a
    parameter: a statement is the list operation it names.

    ** Fuel and bounds

    Recursion follows the data wherever it can. The loops of utils/cidr.js
    that count on addresses run on fuel: the difference of prefix lengths, at
    most the width of the address, or the limit the source itself puts on the
    number of results. [Cidr] proves that these always give a result. The
    drain loop of [AfterCommit] and the resends of [UpstreamPool] decrease a
    measure, and their theorems state that they end. Consolidation and the
    search below a row run on as many rounds as the table has rows; each round
    deletes a row, or reaches a level that is not empty, so more fuel changes
    nothing ([NetworkTree]).

    ** Not modelled

    - The web client: it presents what the server decides.
    - Processes, files and sockets of the host (backup, updates, probes):
      their inputs and outputs appear as events or parameters. Of the backends,
      what a switch of the stack uses is in [Daemons], with the supervisors
      systemd and s6 as one: a daemon is up or not, held down or not, and what
      a command to them does is an answer of [env]. The rendering of their
      configuration (but for radvd and the zones of dnsmasq), the zone writes to PowerDNS, the lease
      files Kea leaves ([stored_leases]) and the report of features are not
      modelled. The links to advertise are the same through a switch.
    - Of signing in: the rate limiters (a refused request changes nothing),
      preferences and the read-only routes, and columns only people read (names
      of tokens, addresses and browsers of sessions). The gate and a handler up
      to its first await are one step; the limiters between them wait on memory
      only. Nothing modelled changes the signing secret, so the copy that
      auth/middleware.js keeps of it is not either.
    - The address rows, DHCP state and DNS zones that a division or a merge
      moves along with the network; [RangeMoves] has its ranges, without the
      rows of DHCP pools.
    - The pruning of old events, and the audit log of the routes.
    - DuckDB queries (analytics).
    - Strings outside ASCII: [toLowerCase] and [trim] on other characters.
    - Times of rows ([datetime('now')]), except where an order depends on them.
    - Of the DNS proxy: binding to the addresses and its retries, the health
      monitor with the bypass, the GeoIP database with its cache, the points
      on the map, the sockets to an encrypted forwarder (what [UpstreamPool]
      does is), and where the query log and the counters go. Of the feeds: the
      schedule, and the guard that refuses a refresh while another runs.
    - The claims on addresses of static DNS records and of DHCP reservations
      and leases; the rows a lease sync and a reservation write; the upkeep of
      PTR records: they would be the next to model. *)

From Stdlib Require Export ZArith Lia Ascii String.
From stdpp Require Export base tactics list list_numbers numbers strings sorting gmap.
From Stdlib Require Import Zdiv Zbitwise.

Abbreviation length := Datatypes.length.

#[global] Open Scope string_scope.
#[global] Open Scope list_scope.
#[global] Open Scope Z_scope.

(** ** Values or thrown errors

    A JavaScript function that can [throw] is a function to [result E A]:
    [Ok a] is a normal return, [Err e] the thrown error. *)
Inductive result (E A : Type) : Type :=
| Ok (a : A)
| Err (e : E).
Arguments Ok {E A} a.
Arguments Err {E A} e.

#[export] Instance result_ret E : MRet (result E) := fun A a => Ok a.
#[export] Instance result_bind E : MBind (result E) :=
  fun A B f m => match m with Ok a => f a | Err e => Err e end.

#[export] Instance result_fmap E : FMap (result E) :=
  fun A B f m => match m with Ok a => Ok (f a) | Err e => Err e end.

(** [try { Some m } catch { None }] *)
Definition try_ok {E A} (m : result E A) : option A :=
  match m with Ok a => Some a | Err _ => None end.

Definition is_ok {E A} (m : result E A) : bool :=
  match m with Ok _ => true | Err _ => false end.

(** [array.map] with a callback that can throw: the first error wins. *)
Fixpoint map_result {E A B} (f : A -> result E B) (l : list A) : result E (list B) :=
  match l with
  | [] => Ok []
  | a :: l' => match f a with
               | Err e => Err e
               | Ok b => match map_result f l' with
                         | Err e => Err e
                         | Ok bs => Ok (b :: bs)
                         end
               end
  end.

Lemma map_result_ok {E A B} (f : A -> result E B) (g : A -> B) l :
  Forall (fun a => f a = Ok (g a)) l -> map_result f l = Ok (map g l).
Proof. induction 1 as [|a l Ha Hl IH]; simpl; [done|]. by rewrite Ha, IH. Qed.

Lemma map_result_inv {E A B} (f : A -> result E B) l bs :
  map_result f l = Ok bs -> Forall2 (fun a b => f a = Ok b) l bs.
Proof.
  revert bs. induction l as [|a l IH]; intros bs H; simpl in H.
  - by simplify_eq.
  - destruct (f a) eqn:Ha; [|done]. destruct (map_result f l); [|done].
    simplify_eq. constructor; auto.
Qed.

Lemma map_result_total {E A B} (f : A -> result E B) l :
  (forall a, a ∈ l -> exists b, f a = Ok b) -> exists bs, map_result f l = Ok bs.
Proof.
  induction l as [|a l IH]; intros H; simpl; [by eexists|]. destruct (H a) as [b ->]; [apply elem_of_cons; by left|].
  destruct IH as [bs ->]; [|by eexists]. intros x Hx. apply H. apply elem_of_cons. by right.
Qed.

Lemma map_result_app {E A B} (f : A -> result E B) l k bs cs :
  map_result f l = Ok bs -> map_result f k = Ok cs -> map_result f (l ++ k) = Ok (bs ++ cs).
Proof.
  revert bs. induction l as [|x l IH]; intros bs; simpl; [by intros [= <-] ->|].
  destruct (f x) as [b|]; [|done]. destruct (map_result f l) as [bs'|]; [|done].
  intros [= <-] Hk. by rewrite (IH bs' eq_refl Hk).
Qed.

Lemma map_result_map {E A B C} (f : B -> result E C) (h : A -> B) (g : A -> C) l :
  (forall x, x ∈ l -> f (h x) = Ok (g x)) -> map_result f (map h l) = Ok (map g l).
Proof.
  induction l as [|x l IH]; intros H; simpl; [done|].
  rewrite H by constructor. rewrite IH; [done|]. intros; apply H; by constructor.
Qed.

(** ** Automation *)

Create HintDb cidrella discriminated.

(** Turn the boolean tests of the code into the propositions they decide. *)
Ltac reflect_bools :=
  repeat match goal with
  | H : negb _ = true |- _ => apply negb_true_iff in H
  | H : negb _ = false |- _ => apply negb_false_iff in H
  | H : _ && _ = true |- _ => apply andb_true_iff in H; destruct H
  | H : _ || _ = false |- _ => apply orb_false_iff in H; destruct H
  | H : (_ <? _) = true |- _ => apply Z.ltb_lt in H
  | H : (_ <? _) = false |- _ => apply Z.ltb_ge in H
  | H : (_ <=? _) = true |- _ => apply Z.leb_le in H
  | H : (_ <=? _) = false |- _ => apply Z.leb_gt in H
  | H : (_ =? _) = true |- _ => apply Z.eqb_eq in H
  | H : (_ =? _) = false |- _ => apply Z.eqb_neq in H
  | H : (_ =? _)%nat = true |- _ => apply Nat.eqb_eq in H
  | H : (_ =? _)%nat = false |- _ => apply Nat.eqb_neq in H
  | H : (_ <=? _)%nat = true |- _ => apply Nat.leb_le in H
  | H : (_ <=? _)%nat = false |- _ => apply Nat.leb_gt in H
  | H : (_ <? _)%nat = true |- _ => apply Nat.ltb_lt in H
  | H : (_ <? _)%nat = false |- _ => apply Nat.ltb_ge in H
  end.

(** Follow a run that is known to return: split every test of it and drop the
    branches that throw. *)
Ltac run_inv H :=
  repeat match type of H with
  | context [match ?x with _ => _ end] =>
      let E := fresh "E" in destruct x eqn:E; try discriminate H
  end.

(** ** Runs of a transition relation *)

Section Runs.
Context {S L : Type} (step : S -> L -> S -> Prop).

(** [runs s ls s']: the labelled steps [ls] lead from [s] to [s']. *)
Inductive runs : S -> list L -> S -> Prop :=
| runs_nil s : runs s [] s
| runs_cons s l s' ls s'' : step s l s' -> runs s' ls s'' -> runs s (l :: ls) s''.

Lemma runs_invariant (I : S -> Prop) :
  (forall s l s', I s -> step s l s' -> I s') ->
  forall s ls s', runs s ls s' -> I s -> I s'.
Proof. intros Hstep s ls s' Hr. induction Hr; eauto. Qed.

Lemma runs_app s ls s' ls' s'' : runs s ls s' -> runs s' ls' s'' -> runs s (ls ++ ls') s''.
Proof. induction 1; simpl; [done|]. econstructor; eauto. Qed.
End Runs.

(** ** Integers seen as bit fields *)

Lemma pow2_pos n : 0 <= n -> 0 < 2 ^ n.
Proof. intros. apply Z.pow_pos_nonneg; lia. Qed.
#[export] Hint Resolve pow2_pos : cidrella.

Lemma testbit_small n v i : 0 <= n -> 0 <= v < 2 ^ n -> n <= i -> Z.testbit v i = false.
Proof.
  intros Hn Hv Hi. rewrite <- (Z.mod_small v (2 ^ n)) by lia.
  apply Z.mod_pow2_bits_high; lia.
Qed.

Lemma land_ones_mod v n : 0 <= n -> Z.land v (2 ^ n - 1) = v mod 2 ^ n.
Proof. intros. rewrite <- Z.land_ones by lia. by rewrite Z.ones_equiv. Qed.

Lemma shiftl_pow v n : 0 <= n -> Z.shiftl v n = v * 2 ^ n.
Proof. intros. by rewrite Z.shiftl_mul_pow2. Qed.

(** [1n << n] *)
Lemma shiftl_one n : 0 <= n -> Z.shiftl 1 n = 2 ^ n.
Proof. intros. rewrite shiftl_pow; lia. Qed.

(** Ones in the bits [h .. n-1] and zeros below, the shape of a network mask. *)
Lemma high_mask_eq n h :
  0 <= h <= n -> Z.land (Z.shiftl (2 ^ n - 1) h) (2 ^ n - 1) = 2 ^ n - 2 ^ h.
Proof.
  intros. rewrite land_ones_mod by lia. rewrite shiftl_pow by lia.
  replace (2 ^ n) with (2 ^ h * 2 ^ (n - h)) at 2 by (rewrite <- Z.pow_add_r by lia; f_equal; lia).
  rewrite (Z.mul_comm _ (2 ^ h)), Z.mul_mod_distr_l by (pose proof (pow2_pos h); pose proof (pow2_pos (n - h)); lia).
  pose proof (pow2_pos h). pose proof (pow2_pos (n - h)).
  replace (2 ^ n - 1) with (2 ^ (n - h) - 1 + (2 ^ h - 1) * 2 ^ (n - h)).
  2:{ rewrite Z.mul_sub_distr_r, <- Z.pow_add_r by lia. replace (h + (n - h)) with n by lia. lia. }
  rewrite Z_mod_plus_full, Z.mod_small by lia.
  rewrite Z.mul_sub_distr_l, <- Z.pow_add_r by lia. replace (h + (n - h)) with n by lia. lia.
Qed.

Lemma testbit_pow2_minus_pow2 n h i :
  0 <= h <= n -> 0 <= i -> Z.testbit (2 ^ n - 2 ^ h) i = (h <=? i) && (i <? n).
Proof.
  intros Hh Hi. rewrite <- high_mask_eq, Z.land_spec by lia.
  replace (2 ^ n - 1) with (Z.ones n) by (rewrite Z.ones_equiv; lia).
  rewrite Z.shiftl_spec by lia. rewrite (Z.testbit_ones_nonneg n i) by lia.
  destruct (Z.leb_spec h i).
  - rewrite Z.testbit_ones_nonneg by lia.
    destruct (Z.ltb_spec (i - h) n), (Z.ltb_spec i n); simpl; lia || done.
  - rewrite Z.testbit_neg_r by lia. done.
Qed.

(** Masking a bounded value clears its low [h] bits. *)
Lemma land_high_mask n h v :
  0 <= h <= n -> 0 <= v < 2 ^ n -> Z.land v (2 ^ n - 2 ^ h) = v - v mod 2 ^ h.
Proof.
  intros Hh Hv.
  replace (v - v mod 2 ^ h) with (v / 2 ^ h * 2 ^ h)
    by (pose proof (Z_div_mod_eq_full v (2 ^ h)); lia).
  apply Z.bits_inj'; intros i Hi. rewrite Z.land_spec, testbit_pow2_minus_pow2 by lia.
  destruct (Z.leb_spec h i).
  - rewrite Z.mul_pow2_bits by lia. rewrite Z.div_pow2_bits by lia.
    replace (i - h + h) with i by lia.
    destruct (Z.ltb_spec i n); simpl; [by rewrite andb_true_r|].
    by rewrite (testbit_small n v i) by lia.
  - rewrite Z.mul_pow2_bits_low by lia. simpl. by rewrite andb_false_r.
Qed.

(** [all ^ mask] is the host part. *)
Lemma lxor_high_mask n h :
  0 <= h <= n -> Z.lxor (2 ^ n - 1) (2 ^ n - 2 ^ h) = 2 ^ h - 1.
Proof.
  intros Hh. apply Z.bits_inj'; intros i Hi. rewrite Z.lxor_spec, testbit_pow2_minus_pow2 by lia.
  replace (2 ^ n - 1) with (Z.ones n) by (rewrite Z.ones_equiv; lia).
  replace (2 ^ h - 1) with (Z.ones h) by (rewrite Z.ones_equiv; lia).
  rewrite !Z.testbit_ones_nonneg by lia.
  destruct (Z.leb_spec h i), (Z.ltb_spec i n), (Z.ltb_spec i h); simpl; lia || done.
Qed.

(** Or-ing the host part into an aligned network is an addition. *)
Lemma lor_aligned h a b :
  0 <= h -> a mod 2 ^ h = 0 -> 0 <= b < 2 ^ h -> Z.lor a b = a + b.
Proof.
  intros Hh Ha Hb.
  assert (Z.land a b = 0) as Hd.
  { apply Z.bits_inj'; intros i Hi. rewrite Z.land_spec, Z.bits_0.
    destruct (Z.ltb_spec i h).
    - rewrite <- (Z.mod_pow2_bits_low a h i) by lia. rewrite Ha, Z.bits_0. done.
    - rewrite (testbit_small h b i) by lia. apply andb_false_r. }
  rewrite <- Z.lxor_lor by done. symmetry. by apply Z.add_nocarry_lxor.
Qed.

Lemma lor_shiftl_add a b h : 0 <= h -> 0 <= b < 2 ^ h -> Z.lor (Z.shiftl a h) b = a * 2 ^ h + b.
Proof.
  intros Hh Hb. rewrite Z.shiftl_mul_pow2 by done. apply lor_aligned with h; [done| |done]. apply Z_mod_mult.
Qed.

Lemma mod_pow2_divide a h k : 0 <= h <= k -> a mod 2 ^ k = 0 -> a mod 2 ^ h = 0.
Proof.
  intros Hh Ha. apply Z.mod_divide; [pose proof (pow2_pos h); lia|].
  apply Z.mod_divide in Ha; [|pose proof (pow2_pos k); lia].
  etransitivity; [|exact Ha]. exists (2 ^ (k - h)).
  rewrite <- Z.pow_add_r by lia. f_equal; lia.
Qed.

Lemma aligned_sub v h : 0 <= h -> (v - v mod 2 ^ h) mod 2 ^ h = 0.
Proof. intros. rewrite Zminus_mod_idemp_r, Z.sub_diag. apply Z.mod_0_l. pose proof (pow2_pos h); lia. Qed.

Lemma aligned_add a b h : 0 <= h -> a mod 2 ^ h = 0 -> b mod 2 ^ h = 0 -> (a + b) mod 2 ^ h = 0.
Proof.
  intros Hh Ha Hb. rewrite Zplus_mod, Ha, Hb. apply Z.mod_0_l. pose proof (pow2_pos h); lia.
Qed.

(** Two aligned values that differ are a block apart. *)
Lemma aligned_gap a b h :
  0 <= h -> a mod 2 ^ h = 0 -> b mod 2 ^ h = 0 -> a < b -> a + 2 ^ h <= b.
Proof.
  intros Hh Ha Hb Hlt. pose proof (pow2_pos h Hh).
  apply Z.mod_divide in Ha as [x ->]; [|lia]. apply Z.mod_divide in Hb as [y ->]; [|lia].
  assert (x < y) by (apply (Z.mul_lt_mono_pos_r (2 ^ h)); lia).
  pose proof (Z.mul_le_mono_nonneg_r (x + 1) y (2 ^ h)). lia.
Qed.

(** ** Lists *)

Lemma last_snoc_default {A} (l : list A) x d : List.last (l ++ [x]) d = x.
Proof. induction l as [|y [|z l] IH]; simpl in *; auto. Qed.

Lemma forallb_Forall {A} (p : A -> bool) l : forallb p l = true <-> Forall (fun x => p x = true) l.
Proof. rewrite forallb_forall, List.Forall_forall. done. Qed.

Lemma filter_map_nodup {A B} (f : A -> B) (p : A -> bool) l : NoDup (map f l) -> NoDup (map f (List.filter p l)).
Proof.
  induction l as [|a l IH]; cbn; [done|]. intros [Ha Hn]%NoDup_cons. destruct (p a); cbn; [|by apply IH]. constructor; [|by apply IH].
  intros (x & Hx & Hf)%list_elem_of_In%in_map_iff. apply List.filter_In in Hf as [Hf _]. apply Ha. apply list_elem_of_In, in_map_iff. by exists x.
Qed.

Lemma nodup_map_inj {A B} (f : A -> B) l x y : NoDup (map f l) -> x ∈ l -> y ∈ l -> f x = f y -> x = y.
Proof.
  assert (forall z l, z ∈ l -> f z ∈ map f l) as Hm by (intros z m Hz; by apply list_elem_of_In, in_map, list_elem_of_In).
  induction l as [|z l IH]; intros Hn Hx Hy He; [by apply elem_of_nil in Hx|]. cbn in Hn. apply NoDup_cons in Hn as [Hz Hn].
  apply elem_of_cons in Hx as [->|Hx]; apply elem_of_cons in Hy as [->|Hy]; [done| | |by apply IH].
  - destruct Hz. rewrite He. by apply Hm.
  - destruct Hz. rewrite <- He. by apply Hm.
Qed.

Lemma nodup_map_on {A B} (f : A -> B) l : NoDup l -> (forall x y, x ∈ l -> y ∈ l -> f x = f y -> x = y) -> NoDup (map f l).
Proof.
  induction l as [|x l IH]; intros Hn Hf; cbn [map]; [constructor|]. apply NoDup_cons in Hn as [Hx Hn]. constructor.
  - intros (y & He & Hy)%list_elem_of_In%in_map_iff. apply list_elem_of_In in Hy. destruct Hx.
    rewrite <- (Hf y x); [done|by right|by left|done].
  - apply IH; [done|]. intros a b Ha Hb. apply Hf; by right.
Qed.

Lemma Forall2_maps {A B C} (R : B -> C -> Prop) (f : A -> B) (g : A -> C) l :
  (forall x, x ∈ l -> R (f x) (g x)) -> Forall2 R (map f l) (map g l).
Proof.
  induction l as [|x l IH]; intros H; constructor; [apply H; by left|]. apply IH. intros y Hy. apply H. by right.
Qed.

(** ** Stable sorting, [Array.prototype.sort] with a comparator *)

Section Sort.
Context {A : Type} (key : A -> Z).

(** Insert before the first element with a larger key: equal keys keep
    their order. *)
Fixpoint insert_by (x : A) (l : list A) : list A :=
  match l with
  | [] => [x]
  | y :: l' => if key x <? key y then x :: l else y :: insert_by x l'
  end.

Definition sort_by (l : list A) : list A := fold_left (fun acc x => insert_by x acc) l [].

Lemma insert_by_perm x l : insert_by x l ≡ₚ x :: l.
Proof.
  induction l as [|y l IH]; simpl; [done|]. case_match; [done|].
  rewrite IH. by constructor.
Qed.

Lemma sort_by_aux l acc : fold_left (fun acc x => insert_by x acc) l acc ≡ₚ l ++ acc.
Proof.
  revert acc. induction l as [|x l IH]; intros acc; simpl; [done|].
  rewrite IH, insert_by_perm. by rewrite Permutation_middle.
Qed.

Lemma sort_by_perm l : sort_by l ≡ₚ l.
Proof. unfold sort_by. by rewrite sort_by_aux, app_nil_r. Qed.

Definition sorted_by : list A -> Prop := StronglySorted (fun x y => key x <= key y).

Lemma insert_by_sorted x l : sorted_by l -> sorted_by (insert_by x l).
Proof.
  induction 1 as [|y l Hl IH Hy]; simpl; [by repeat constructor|].
  destruct (Z.ltb_spec (key x) (key y)) as [Hlt|Hge].
  - constructor; [by constructor|]. constructor; [lia|].
    eapply Forall_impl; [exact Hy|]. simpl. intros; lia.
  - constructor; [done|]. rewrite insert_by_perm. constructor; [lia|done].
Qed.

Lemma sort_by_sorted l : sorted_by (sort_by l).
Proof.
  unfold sort_by. assert (sorted_by []) as H by constructor. revert H.
  generalize (@nil A). induction l as [|x l IH]; intros acc H; simpl; [done|].
  apply IH. by apply insert_by_sorted.
Qed.

Lemma elem_of_sort_by x l : x ∈ sort_by l <-> x ∈ l.
Proof. by rewrite sort_by_perm. Qed.
End Sort.

Lemma sorted_by_before {A} (key : A -> Z) acc x l :
  sorted_by key (acc ++ x :: l) -> Forall (fun y => key y <= key x) acc.
Proof.
  induction acc as [|y acc IH]; intros Hs; constructor; inversion Hs as [|? ? Hs' Hy]; subst; auto.
  apply Forall_app in Hy as [_ Hy]. by inversion Hy.
Qed.

Lemma insert_by_last {A} (key : A -> Z) x l :
  Forall (fun y => key y <= key x) l -> insert_by key x l = l ++ [x].
Proof.
  induction 1 as [|y l Hy Hl IH]; simpl; [done|]. destruct (Z.ltb_spec (key x) (key y)); [lia|].
  by rewrite IH.
Qed.

(** A sorted list is left as it is. *)
Lemma sort_by_id {A} (key : A -> Z) l : sorted_by key l -> sort_by key l = l.
Proof.
  enough (forall acc, sorted_by key (acc ++ l) -> fold_left (fun acc x => insert_by key x acc) l acc = acc ++ l) as H.
  { apply (H []). }
  induction l as [|x l IH]; intros acc Hs; simpl; [by rewrite app_nil_r|].
  rewrite insert_by_last by (by eapply sorted_by_before).
  rewrite IH; by rewrite <- app_assoc.
Qed.

(** The bit trick [(t & (t - 1)) === 0]. *)
Lemma land_pred_pow2 t : 0 < t -> (Z.land t (t - 1) = 0 <-> t = 2 ^ Z.log2 t).
Proof.
  intros Ht. pose proof (Z.log2_spec t Ht) as [Hlo Hhi]. pose proof (Z.log2_nonneg t) as Hk.
  set (k := Z.log2 t) in *. rewrite Z.pow_succ_r in Hhi by lia. split; intros H.
  - destruct (Z.eq_dec t (2 ^ k)) as [|Hne]; [done|]. exfalso.
    assert (forall x, 2 ^ k <= x < 2 * 2 ^ k -> Z.testbit x k = true) as Hbit.
    { intros x Hx. rewrite Z.testbit_true by lia. replace (x / 2 ^ k) with 1; [done|].
      apply Z.div_unique with (x - 2 ^ k); lia. }
    assert (Z.testbit (Z.land t (t - 1)) k = true) as Hb.
    { rewrite Z.land_spec, !Hbit by lia. done. }
    rewrite H, Z.bits_0 in Hb. done.
  - rewrite H. rewrite land_ones_mod by done. apply Z_mod_same_full.
Qed.

(** [array.find] with a callback that can throw. *)
Fixpoint find_result {E A} (f : A -> result E bool) (l : list A) : result E (option A) :=
  match l with
  | [] => Ok None
  | a :: l' => match f a with
               | Err e => Err e
               | Ok keep => if (keep : bool) then Ok (Some a) else find_result f l'
               end
  end.

Lemma find_result_none {E A} (f : A -> result E bool) l x : find_result f l = Ok None -> x ∈ l -> f x = Ok false.
Proof.
  induction l as [|y l IH]; simpl; intros H Hx; [by apply elem_of_nil in Hx|]. destruct (f y) as [[|]|] eqn:Hy; [done| |done].
  apply elem_of_cons in Hx as [->|Hx]; [done|]. by apply IH.
Qed.

Lemma find_result_total {E A} (f : A -> result E bool) l :
  (forall x, x ∈ l -> exists b, f x = Ok b) -> exists r, find_result f l = Ok r.
Proof.
  induction l as [|y l IH]; simpl; intros H; [by eexists|]. destruct (H y ltac:(by left)) as [b ->]. destruct b; [by eexists|].
  apply IH. intros x Hx. apply H. by right.
Qed.

(** A loop whose body can throw. *)
Fixpoint fold_result {E A B} (f : B -> A -> result E B) (l : list A) (acc : B) : result E B :=
  match l with
  | [] => Ok acc
  | a :: l' => match f acc a with Err e => Err e | Ok acc' => fold_result f l' acc' end
  end.

Lemma fold_result_ok {E A B} (f : B -> A -> result E B) (g : B -> A -> B) l acc :
  (forall b a, a ∈ l -> f b a = Ok (g b a)) -> fold_result f l acc = Ok (fold_left g l acc).
Proof.
  revert acc. induction l as [|a l IH]; intros acc H; simpl; [done|].
  rewrite H by (apply elem_of_cons; by left). apply IH. intros b x Hx. apply H. apply elem_of_cons. by right.
Qed.

Lemma fold_result_total {E A B} (f : B -> A -> result E B) l acc :
  (forall b a, a ∈ l -> exists b', f b a = Ok b') -> exists b', fold_result f l acc = Ok b'.
Proof.
  revert acc. induction l as [|a l IH]; intros acc H; simpl; [eauto|].
  destruct (H acc a) as [b' ->]; [apply elem_of_cons; by left|]. apply IH. intros b x Hx. apply H. apply elem_of_cons. by right.
Qed.

(** ** Association lists *)

Fixpoint assoc {A} (k : Z) (l : list (Z * A)) : option A :=
  match l with
  | [] => None
  | (j, v) :: l' => if k =? j then Some v else assoc k l'
  end.

Lemma assoc_None {A} k (l : list (Z * A)) : k ∉ map fst l -> assoc k l = None.
Proof.
  induction l as [|[j v] l IH]; cbn [assoc map fst]; [done|]. intros [Hne Hk]%not_elem_of_cons.
  apply Z.eqb_neq in Hne. rewrite Hne. auto.
Qed.

Lemma assoc_elem {A} k (l : list (Z * A)) v : NoDup (map fst l) -> (k, v) ∈ l -> assoc k l = Some v.
Proof.
  induction l as [|[j w] l IH]; cbn [assoc map fst]; [by intros _ ?%not_elem_of_nil|].
  intros [Hj Hnd]%NoDup_cons [[= -> ->]|Hl]%elem_of_cons; [by rewrite Z.eqb_refl|].
  destruct (Z.eqb_spec k j) as [->|]; [|auto]. destruct Hj. apply list_elem_of_In, in_map_iff.
  exists (j, v). split; [done|by apply list_elem_of_In].
Qed.

Lemma fold_left_ext_list {A B} (f g : A -> B -> A) l a :
  (forall a b, f a b = g a b) -> fold_left f l a = fold_left g l a.
Proof. intros H. revert a. induction l as [|b l IH]; intros a; cbn [fold_left]; [done|]. by rewrite H, IH. Qed.

(** [[...new Set(l)]]: the first of equal elements stays. *)
Definition js_uniq {A} `{EqDecision A} (l : list A) : list A :=
  fold_left (fun acc x => if decide (x ∈ acc) then acc else acc ++ [x]) l [].

Section Uniq.
Context {A : Type} `{EqDecision A}.

Let step (acc : list A) (x : A) : list A := if decide (x ∈ acc) then acc else acc ++ [x].

Lemma uniq_fold l acc :
  NoDup acc -> NoDup (fold_left step l acc) /\ (forall x, x ∈ fold_left step l acc <-> x ∈ acc \/ x ∈ l) /\
  (exists rest, fold_left step l acc = acc ++ rest).
Proof.
  revert acc. induction l as [|y l IH]; intros acc Ha; cbn [fold_left].
  - split; [done|]. split; [intros x; rewrite elem_of_nil; tauto|]. exists []. by rewrite app_nil_r.
  - unfold step at 2 4 6. destruct (decide (y ∈ acc)) as [Hy|Hy].
    + destruct (IH acc Ha) as (Hn & Hx & Hr). split; [done|]. split; [|done]. intros x. rewrite Hx, elem_of_cons. naive_solver.
    + destruct (IH (acc ++ [y])) as (Hn & Hx & rest & Hr).
      { apply NoDup_app. split; [done|]. split; [|apply NoDup_singleton]. by intros x Hxa ->%list_elem_of_singleton. }
      split; [done|]. split; [|exists (y :: rest); by rewrite Hr, <- app_assoc]. intros x. rewrite Hx, elem_of_app, list_elem_of_singleton, elem_of_cons. tauto.
Qed.

Lemma js_uniq_NoDup (l : list A) : NoDup (js_uniq l).
Proof. apply (uniq_fold l []). constructor. Qed.

Lemma elem_of_js_uniq (l : list A) x : x ∈ js_uniq l <-> x ∈ l.
Proof.
  destruct (uniq_fold l [] ltac:(constructor)) as (_ & Hx & _). change (fold_left step l []) with (js_uniq l) in Hx.
  rewrite (Hx x), elem_of_nil. tauto.
Qed.

(** At most one distinct element: all are equal. *)
Lemma js_uniq_one (l : list A) : (length (js_uniq l) < 2)%nat <-> forall x y, x ∈ l -> y ∈ l -> x = y.
Proof.
  pose proof (js_uniq_NoDup l) as Hn. split.
  - intros Hlen x y. rewrite <- (elem_of_js_uniq l x), <- (elem_of_js_uniq l y). destruct (js_uniq l) as [|a [|b u]]; [by intros ?%elem_of_nil| |simpl in Hlen; lia].
    by intros ->%list_elem_of_singleton ->%list_elem_of_singleton.
  - intros Hall. destruct (js_uniq l) as [|a [|b u]] eqn:E; [simpl; lia..|]. exfalso.
    apply NoDup_cons in Hn as [Hab _]. apply Hab. assert (a = b) as ->; [|by left].
    apply Hall; apply elem_of_js_uniq; rewrite E; [by left|right; by left].
Qed.

Lemma js_uniq_head (l : list A) : head (js_uniq l) = head l.
Proof.
  destruct l as [|x l]; [done|]. unfold js_uniq. cbn [fold_left]. rewrite decide_False by (by intros ?%elem_of_nil).
  destruct (uniq_fold l ([] ++ [x])) as (_ & _ & rest & Hr); [apply NoDup_singleton|].
  change (head (fold_left step l ([] ++ [x])) = Some x). by rewrite Hr.
Qed.
End Uniq.

Lemma omap_none {A B} (f : A -> option B) l : omap f l = [] <-> forall x, x ∈ l -> f x = None.
Proof.
  induction l as [|a l IH]; cbn; [split; [by intros _ x ?%elem_of_nil|done]|]. destruct (f a) eqn:E.
  - split; [done|]. intros H. specialize (H a ltac:(by left)). congruence.
  - rewrite IH. split; intros H x; [intros [->|Hx]%elem_of_cons; auto|]. intros Hx. apply H. by right.
Qed.

(** A filter that drops an element is shorter. *)
Lemma filter_shorter {A} (p : A -> bool) l x : In x l -> p x = false -> (length (List.filter p l) < length l)%nat.
Proof.
  intros Hx Hp. induction l as [|a l IH]; [done|]. cbn [List.filter]. pose proof (List.filter_length_le p l). destruct Hx as [->|Hx].
  - rewrite Hp. simpl. lia.
  - specialize (IH Hx). destruct (p a); simpl; lia.
Qed.
