(* ===== verification/JsString.v ===== *)
(** * JavaScript strings and their numbers

    The string operations of the language the sources use, on strings whose
    code units are one byte (U+0000 to U+00FF): [split] on one character,
    [join], [trim], [indexOf], [padStart], the decimal and hexadecimal
    spellings of a non-negative integer, and reading them back. *)

From S2P Require Import Prelude.

#[global] Arguments String.append !_ _ / : simpl nomatch.

(** ** Characters *)

Definition code (c : ascii) : Z := Z.of_N (N_of_ascii c).

Definition in_range (lo hi : Z) (c : ascii) : bool := (lo <=? code c) && (code c <=? hi).

(** [\d] *)
Definition is_digit : ascii -> bool := in_range 48 57.
(** [[a-z]], [[A-Z]] *)
Definition is_lower : ascii -> bool := in_range 97 122.
Definition is_upper : ascii -> bool := in_range 65 90.
Definition is_alnum (c : ascii) : bool := is_digit c || is_lower c || is_upper c.
(** [[0-9a-fA-F]] *)
Definition is_hex (c : ascii) : bool := is_digit c || in_range 97 102 c || in_range 65 70 c.
(** What [trim] removes, and [\s] matches, below U+0100. *)
Definition is_space (c : ascii) : bool :=
  in_range 9 13 c || (code c =? 32) || (code c =? 160).

(** Decide the range tests of a goal and its hypotheses. *)
Ltac split_leb :=
  repeat match goal with
  | |- context [?a <=? ?b] => destruct (Z.leb_spec a b)
  | H : context [?a <=? ?b] |- _ => destruct (Z.leb_spec a b)
  end.

(** The value of a digit in bases up to 16. *)
Definition digit_value (c : ascii) : Z :=
  if is_digit c then code c - 48
  else if is_lower c then code c - 87
  else code c - 55.

(** ** Strings as character lists *)

Fixpoint all_chars (p : ascii -> bool) (s : string) : bool :=
  match s with
  | EmptyString => true
  | String c s' => p c && all_chars p s'
  end.

Fixpoint some_char (p : ascii -> bool) (s : string) : bool :=
  match s with
  | EmptyString => false
  | String c s' => p c || some_char p s'
  end.

Definition js_length (s : string) : Z := Z.of_nat (String.length s).

(** [s.includes(c)] for a one-character string. *)
Definition has_char (c : ascii) (s : string) : bool := some_char (Ascii.eqb c) s.

Fixpoint map_string (f : ascii -> ascii) (s : string) : string :=
  match s with
  | EmptyString => ""
  | String c s' => String (f c) (map_string f s')
  end.

Fixpoint filter_string (p : ascii -> bool) (s : string) : string :=
  match s with
  | EmptyString => ""
  | String c s' => if p c then String c (filter_string p s') else filter_string p s'
  end.

(** [toLowerCase] and [toUpperCase] on the ASCII letters. *)
Definition lower_char (c : ascii) : ascii :=
  if is_upper c then ascii_of_N (N_of_ascii c + 32) else c.
Definition upper_char (c : ascii) : ascii :=
  if is_lower c then ascii_of_N (N_of_ascii c - 32) else c.
Definition to_lower : string -> string := map_string lower_char.
Definition to_upper : string -> string := map_string upper_char.

Fixpoint drop_while (p : ascii -> bool) (s : string) : string :=
  match s with
  | EmptyString => ""
  | String c s' => if p c then drop_while p s' else s
  end.

Fixpoint drop_while_end (p : ascii -> bool) (s : string) : string :=
  match s with
  | EmptyString => ""
  | String c s' =>
      match drop_while_end p s' with
      | EmptyString => if p c then "" else String c ""
      | r => String c r
      end
  end.

Definition trim (s : string) : string := drop_while_end is_space (drop_while is_space s).

(** [s.startsWith(p)] *)
Fixpoint starts_with (p s : string) : bool :=
  match p, s with
  | EmptyString, _ => true
  | String a p', String b s' => Ascii.eqb a b && starts_with p' s'
  | _, _ => false
  end.

(** [s.indexOf(p)]: [None] for -1. *)
Fixpoint index_of (p s : string) : option nat :=
  if starts_with p s then Some O
  else match s with
       | EmptyString => None
       | String _ s' => S <$> index_of p s'
       end.

(** [s.lastIndexOf(p)] *)
Fixpoint last_index_of (p s : string) : option nat :=
  match s with
  | EmptyString => if starts_with p "" then Some O else None
  | String _ s' =>
      match last_index_of p s' with
      | Some i => Some (S i)
      | None => if starts_with p s then Some O else None
      end
  end.

(** [s.slice(n)] and [s.slice(0, n)] for [0 <= n]. *)
Fixpoint drop_string (n : nat) (s : string) : string :=
  match n, s with
  | O, _ => s
  | S n', String _ s' => drop_string n' s'
  | _, EmptyString => ""
  end.
Fixpoint take_string (n : nat) (s : string) : string :=
  match n, s with
  | S n', String c s' => String c (take_string n' s')
  | _, _ => ""
  end.

(** [s.split(c)] for a one-character separator: never empty. *)
Fixpoint split_char (c : ascii) (s : string) : list string :=
  match s with
  | EmptyString => [""]
  | String a s' =>
      match split_char c s' with
      | w :: ws => if Ascii.eqb c a then "" :: w :: ws else String a w :: ws
      | [] => []
      end
  end.

(** [l.join(sep)] *)
Fixpoint join (sep : string) (l : list string) : string :=
  match l with
  | [] => ""
  | [w] => w
  | w :: l' => w +:+ sep +:+ join sep l'
  end.

(** [str.split('')] *)
Fixpoint chars (s : string) : list string :=
  match s with
  | EmptyString => []
  | String c s' => String c "" :: chars s'
  end.

Fixpoint repeat_char (c : ascii) (n : nat) : string :=
  match n with O => "" | S n' => String c (repeat_char c n') end.

(** [s.padStart(n, c)] *)
Definition pad_start (n : nat) (c : ascii) (s : string) : string :=
  repeat_char c (n - String.length s) +:+ s.

(** ** Numbers as text *)

Definition digit_char (d : Z) : ascii :=
  ascii_of_N (Z.to_N (if d <? 10 then 48 + d else 87 + d)).

(** The digits of [n] in base [b], most significant first, before [acc]. *)
Fixpoint to_base_aux (fuel : nat) (b n : Z) (acc : string) : string :=
  match fuel with
  | O => acc
  | S fuel' =>
      let acc' := String (digit_char (n mod b)) acc in
      if n <? b then acc' else to_base_aux fuel' b (n / b) acc'
  end.

(** [n.toString(b)]: [log2 n + 1] digits are enough in any base. *)
Definition to_base (b n : Z) : string :=
  if n <? 0 then String "-" (to_base_aux (S (Z.to_nat (Z.log2 (- n)))) b (- n) "")
  else to_base_aux (S (Z.to_nat (Z.log2 n))) b n "".

Definition dec : Z -> string := to_base 10.
Definition hex : Z -> string := to_base 16.

(** [parseInt(s, b)] of a string that is all digits of base [b]. *)
Fixpoint from_base_aux (b : Z) (s : string) (acc : Z) : Z :=
  match s with
  | EmptyString => acc
  | String c s' => from_base_aux b s' (acc * b + digit_value c)
  end.
Definition from_base (b : Z) (s : string) : Z := from_base_aux b s 0.

(** [/^\d+$/.test(s)] *)
Definition all_digits1 (s : string) : bool := negb (String.eqb s "") && all_chars is_digit s.

(** ** Lemmas: appending and character classes *)

Lemma app_nil_r_str s : s +:+ "" = s.
Proof. induction s; simpl; congruence. Qed.

Lemma app_assoc_str s t u : s +:+ (t +:+ u) = (s +:+ t) +:+ u.
Proof. induction s; simpl; congruence. Qed.

Lemma length_app_str s t : String.length (s +:+ t) = (String.length s + String.length t)%nat.
Proof. induction s; simpl; lia. Qed.

Lemma all_chars_app p s t : all_chars p (s +:+ t) = all_chars p s && all_chars p t.
Proof. induction s; simpl; [done|]. by rewrite IHs, andb_assoc. Qed.

Lemma all_chars_impl (p q : ascii -> bool) s :
  (forall c, p c = true -> q c = true) -> all_chars p s = true -> all_chars q s = true.
Proof. induction s; simpl; [done|]. intros Hpq [??]%andb_true_iff. rewrite Hpq by done. auto. Qed.

Lemma some_char_app p s t : some_char p (s +:+ t) = some_char p s || some_char p t.
Proof. induction s; simpl; [done|]. by rewrite IHs, orb_assoc. Qed.

Lemma some_char_false p s : some_char p s = false <-> all_chars (fun c => negb (p c)) s = true.
Proof.
  induction s as [|c s IH]; simpl; [done|].
  rewrite orb_false_iff, andb_true_iff, negb_true_iff, IH. done.
Qed.

(** A class that leaves out [c] has no [c]. *)
Lemma has_char_class c p s : p c = false -> all_chars p s = true -> has_char c s = false.
Proof.
  intros Hc Hs. apply some_char_false. revert Hs. apply all_chars_impl. intros a Ha.
  apply negb_true_iff, Ascii.eqb_neq. congruence.
Qed.

Lemma take_string_app s t : take_string (String.length s) (s +:+ t) = s.
Proof. induction s; simpl; [by destruct t|congruence]. Qed.

Lemma drop_string_app s t : drop_string (String.length s) (s +:+ t) = t.
Proof. induction s; simpl; [by destruct t|done]. Qed.

Lemma drop_string_add n m s : drop_string (n + m) s = drop_string m (drop_string n s).
Proof. revert s. induction n; destruct s; simpl; auto. by destruct m. Qed.

Lemma take_drop_string n s : take_string n s +:+ drop_string n s = s.
Proof. revert s. induction n; destruct s; simpl; congruence. Qed.

Lemma length_repeat_char c n : String.length (repeat_char c n) = n.
Proof. induction n; simpl; congruence. Qed.

(** ** Lemmas: [trim] *)

Lemma drop_while_none p s : all_chars (fun c => negb (p c)) s = true -> drop_while p s = s.
Proof. destruct s; simpl; [done|]. intros [?%negb_true_iff _]%andb_true_iff. by case_match. Qed.

Lemma drop_while_end_none p s :
  all_chars (fun c => negb (p c)) s = true -> drop_while_end p s = s.
Proof.
  induction s as [|c s IH]; simpl; [done|].
  intros [Hc%negb_true_iff Hs]%andb_true_iff. rewrite IH, Hc by done. by destruct s.
Qed.

Lemma trim_no_space s : all_chars (fun c => negb (is_space c)) s = true -> trim s = s.
Proof. intros. unfold trim. by rewrite drop_while_none, drop_while_end_none. Qed.

Lemma to_lower_id s : all_chars (fun c => negb (is_upper c)) s = true -> to_lower s = s.
Proof.
  unfold to_lower, lower_char. induction s as [|c s IH]; simpl; [done|]. intros [Hc Hs]%andb_true_iff.
  apply negb_true_iff in Hc. by rewrite Hc, IH.
Qed.

Lemma drop_while_all (q : ascii -> bool) p s : all_chars q s = true -> all_chars q (drop_while p s) = true.
Proof. induction s as [|c s IH]; cbn; [done|]. intros H. destruct (p c); [|done]. apply andb_true_iff in H as [_ H]. auto. Qed.

Lemma drop_while_end_all (q : ascii -> bool) p s : all_chars q s = true -> all_chars q (drop_while_end p s) = true.
Proof.
  induction s as [|c s IH]; cbn; [done|]. intros [Hc Hs]%andb_true_iff. specialize (IH Hs).
  destruct (drop_while_end p s); [destruct (p c); cbn; [done|by rewrite Hc]|]. cbn in *. by rewrite Hc.
Qed.

Lemma drop_while_end_idem p s : drop_while_end p (drop_while_end p s) = drop_while_end p s.
Proof.
  induction s as [|c s IH]; cbn; [done|]. destruct (drop_while_end p s) as [|d t] eqn:E.
  - destruct (p c) eqn:Hc; cbn; [done|by rewrite Hc].
  - cbn in *. by rewrite IH.
Qed.

Lemma trim_idem s : trim (trim s) = trim s.
Proof.
  unfold trim. enough (drop_while is_space (drop_while_end is_space (drop_while is_space s)) =
    drop_while_end is_space (drop_while is_space s)) as -> by apply drop_while_end_idem.
  induction s as [|c s IH]; [done|]. cbn. destruct (is_space c) eqn:Hc; [done|]. cbn [drop_while_end].
  destruct (drop_while_end is_space s) as [|d t]; rewrite ?Hc; cbn [drop_while]; by rewrite Hc.
Qed.

(** ** Lemmas: [split] and [join] *)

Lemma split_char_nonempty c s : split_char c s <> [].
Proof. induction s; simpl; [done|]. destruct (split_char c s); [done|]. by case_match. Qed.

Lemma split_char_none c s : has_char c s = false -> split_char c s = [s].
Proof.
  unfold has_char. induction s as [|a s IH]; simpl; [done|].
  intros [Ha Hs]%orb_false_iff. rewrite IH by done. by rewrite Ha.
Qed.

Lemma split_char_app c w s :
  has_char c w = false -> split_char c (w +:+ String c s) = w :: split_char c s.
Proof.
  unfold has_char. induction w as [|a w IH]; simpl.
  - destruct (split_char c s) eqn:E; [by destruct (split_char_nonempty c s)|].
    by rewrite Ascii.eqb_refl.
  - intros [Ha Hw]%orb_false_iff. rewrite IH by done. by rewrite Ha.
Qed.

Lemma split_char_join c l :
  l <> [] -> Forall (fun w => has_char c w = false) l -> split_char c (join (String c "") l) = l.
Proof.
  intros Hne Hl. induction Hl as [|w l Hw Hl IH]; [done|].
  destruct l as [|v l]; simpl.
  - by apply split_char_none.
  - rewrite split_char_app by done. f_equal. by apply IH.
Qed.

Lemma split_pieces_clean c s : Forall (fun w => has_char c w = false) (split_char c s).
Proof.
  induction s as [|a s IH]; simpl; [by repeat constructor|].
  destruct (split_char c s) as [|w ws]; [by repeat constructor|]. destruct (Ascii.eqb_spec c a) as [->|Hne].
  - by constructor.
  - inversion IH. constructor; [|done]. unfold has_char in *. simpl. apply Ascii.eqb_neq in Hne. by rewrite Hne.
Qed.

Lemma join_split_char c s : join (String c "") (split_char c s) = s.
Proof.
  induction s as [|a s IH]; simpl; [done|].
  destruct (split_char c s) as [|w ws] eqn:E; [by destruct (split_char_nonempty c s)|].
  destruct (Ascii.eqb_spec c a) as [->|]; simpl in *.
  - by rewrite <- IH.
  - destruct ws; simpl in *; by rewrite <- IH.
Qed.

Lemma all_chars_join p sep l :
  all_chars p sep = true -> Forall (fun w => all_chars p w = true) l -> all_chars p (join sep l) = true.
Proof.
  intros Hsep Hl. induction Hl as [|w l Hw Hl IH]; [done|].
  destruct l; [done|]. simpl join. rewrite !all_chars_app, Hw, Hsep. simpl. exact IH.
Qed.

(** ** Lemmas: the ["::"] of an IPv6 literal *)

Definition ends_with_char (c : ascii) (s : string) : bool :=
  match last_index_of (String c "") s with
  | Some i => (S i =? String.length s)%nat
  | None => false
  end.

Definition starts_with_char (c : ascii) (s : string) : bool := starts_with (String c "") s.

(** [joined c s]: words without [c], none empty, separated by single [c]'s. *)
Inductive joined (c : ascii) : string -> Prop :=
| joined_word w : w <> "" -> has_char c w = false -> joined c w
| joined_more w s : w <> "" -> has_char c w = false -> joined c s -> joined c (w +:+ String c s).

Lemma joined_join c l :
  l <> [] -> Forall (fun w => w <> "" /\ has_char c w = false) l -> joined c (join (String c "") l).
Proof.
  intros Hne Hl. induction Hl as [|w l [Hw Hc] Hl IH]; [done|].
  destruct l as [|v l]; simpl; [by constructor|]. constructor; [done..|]. by apply IH.
Qed.

Lemma joined_head c s : joined c s -> exists a s', s = String a s' /\ a <> c.
Proof.
  assert (forall w, w <> "" -> has_char c w = false -> exists a s', w = String a s' /\ a <> c) as Hw.
  { intros [|a w] Hw Hc; [done|]. exists a, w. split; [done|].
    unfold has_char in Hc. simpl in Hc. apply orb_false_iff in Hc as [?%Ascii.eqb_neq _]. congruence. }
  destruct 1 as [w ??|w s ???]; [by apply Hw|].
  destruct (Hw w) as (a & w' & -> & Ha); [done..|]. eexists _, _. by split.
Qed.

Lemma index_of_skip (c : ascii) w s :
  has_char c w = false ->
  index_of (String c (String c "")) (w +:+ s) = Nat.add (String.length w) <$> index_of (String c (String c "")) s.
Proof.
  unfold has_char. induction w as [|a w IH]; simpl.
  - by destruct (index_of _ s).
  - intros [Ha Hw]%orb_false_iff. rewrite Ha. simpl. rewrite IH by done.
    by destruct (index_of _ s).
Qed.

Lemma last_index_of_skip p w s i :
  last_index_of p s = Some i -> last_index_of p (w +:+ s) = Some (String.length w + i)%nat.
Proof. intros Hi. induction w; simpl; [done|]. by rewrite IHw. Qed.

Lemma last_index_of_None p s : p <> "" -> last_index_of p s = None <-> index_of p s = None.
Proof.
  intros Hp. destruct p as [|b p]; [done|]. clear Hp. induction s as [|a s IH]; simpl; [done|].
  destruct (last_index_of _ s), (index_of _ s), (_ && _); simpl; split; intros; try done;
    try (exfalso; destruct IH as [IH1 IH2]; naive_solver).
Qed.

Lemma joined_no_double c s : joined c s -> index_of (String c (String c "")) s = None.
Proof.
  induction 1 as [w Hw Hc|w s Hw Hc Hs IH].
  - rewrite <- (app_nil_r_str w), index_of_skip by done. done.
  - rewrite index_of_skip by done. simpl.
    destruct (joined_head c s Hs) as (a & s' & -> & Ha). rewrite Ascii.eqb_refl.
    rewrite (proj2 (Ascii.eqb_neq c a)) by done. simpl andb. cbv iota.
    by rewrite IH.
Qed.

(** In [H::T] the pair of colons is where [H] ends, and it is the only one. *)
Lemma double_index (c : ascii) h t :
  (h = "" \/ joined c h) -> (t = "" \/ joined c t) ->
  let dd := String c (String c "") in
  index_of dd (h +:+ dd +:+ t) = Some (String.length h) /\
  last_index_of dd (h +:+ dd +:+ t) = Some (String.length h).
Proof.
  intros Hh Ht dd. subst dd. split.
  - destruct Hh as [->|Hh].
    { simpl. rewrite Ascii.eqb_refl. by destruct t. }
    induction Hh as [w Hw Hc|w s Hw Hc Hs IH].
    + rewrite index_of_skip by done. simpl. rewrite Ascii.eqb_refl. simpl.
      f_equal. lia.
    + rewrite <- app_assoc_str, index_of_skip by done. simpl.
      destruct (joined_head c s Hs) as (a & s' & -> & Ha). simpl. rewrite Ascii.eqb_refl.
      rewrite (proj2 (Ascii.eqb_neq c a)) by done. simpl in IH.
      rewrite (proj2 (Ascii.eqb_neq c a)) in IH by done. simpl in *. rewrite IH. simpl.
      f_equal. rewrite length_app_str. simpl. lia.
  - replace (String.length h) with (String.length h + 0)%nat by lia.
    apply last_index_of_skip. simpl.
    assert (last_index_of (String c (String c "")) t = None) as Hn.
    { apply last_index_of_None; [done|]. destruct Ht as [->|Ht]; [done|]. by apply joined_no_double. }
    rewrite Hn. rewrite Ascii.eqb_refl. simpl.
    destruct Ht as [->|Ht]; [done|].
    destruct (joined_head c t Ht) as (a & t' & -> & Ha).
    by rewrite (proj2 (Ascii.eqb_neq c a)).
Qed.

(** ** Lemmas: spelling integers *)

(** The sixteen digits, by cases. *)
Lemma digit_cases (P : Z -> Prop) :
  P 0 -> P 1 -> P 2 -> P 3 -> P 4 -> P 5 -> P 6 -> P 7 -> P 8 -> P 9 ->
  P 10 -> P 11 -> P 12 -> P 13 -> P 14 -> P 15 -> forall d, 0 <= d < 16 -> P d.
Proof.
  intros. assert (d = 0 \/ d = 1 \/ d = 2 \/ d = 3 \/ d = 4 \/ d = 5 \/ d = 6 \/ d = 7 \/ d = 8 \/
    d = 9 \/ d = 10 \/ d = 11 \/ d = 12 \/ d = 13 \/ d = 14 \/ d = 15) as Hd by lia.
  repeat (destruct Hd as [->|Hd]; [done|]). by subst.
Qed.

Lemma digit_value_char d : 0 <= d < 16 -> digit_value (digit_char d) = d.
Proof. revert d. by apply digit_cases. Qed.

Lemma digit_char_code d : 0 <= d < 16 -> code (digit_char d) = if d <? 10 then 48 + d else 87 + d.
Proof. revert d. by apply digit_cases. Qed.

Lemma is_hex_digit_char d : 0 <= d < 16 -> is_hex (digit_char d) = true.
Proof. revert d. by apply digit_cases. Qed.

Lemma is_digit_digit_char d : 0 <= d < 10 -> is_digit (digit_char d) = true.
Proof.
  intros. unfold is_digit, in_range. rewrite digit_char_code by lia.
  destruct (Z.ltb_spec d 10); [|lia]. apply andb_true_iff. rewrite !Z.leb_le. lia.
Qed.

Lemma digit_char_inj d e : 0 <= d < 16 -> 0 <= e < 16 -> digit_char d = digit_char e -> d = e.
Proof. intros ?? H. rewrite <- (digit_value_char d), <- (digit_value_char e) by done. by rewrite H. Qed.

Lemma is_digit_hex c : is_digit c = true -> is_hex c = true.
Proof. unfold is_hex. by intros ->. Qed.

(** Enough fuel for the digit loop. *)
Lemma log2_fuel n : 0 <= n -> n < 2 ^ Z.of_nat (S (Z.to_nat (Z.log2 n))).
Proof.
  intros. pose proof (Z.log2_nonneg n). replace (Z.of_nat _) with (Z.succ (Z.log2 n)) by lia.
  destruct (Z.eq_dec n 0) as [->|]; [done|]. apply Z.log2_spec. lia.
Qed.

Lemma div_fuel b n f : 2 <= b -> 0 <= n < 2 ^ Z.of_nat (S f) -> 0 <= n / b < 2 ^ Z.of_nat f.
Proof.
  intros Hb Hn. rewrite Nat2Z.inj_succ, Z.pow_succ_r in Hn by lia.
  split; [apply Z.div_pos; lia|].
  apply Z.div_lt_upper_bound; [lia|]. pose proof (pow2_pos (Z.of_nat f)). nia.
Qed.

Section ToBase.
Context (b : Z) (Hb : 2 <= b <= 16).

Lemma from_to_base_aux f n acc :
  0 <= n < 2 ^ Z.of_nat f ->
  from_base_aux b (to_base_aux f b n acc) 0 = from_base_aux b acc n.
Proof.
  revert n acc. induction f as [|f IH]; intros n acc Hn.
  { simpl in *. by replace n with 0 by lia. }
  pose proof (Z.mod_pos_bound n b) as Hm.
  cbn [to_base_aux]. destruct (Z.ltb_spec n b).
  - cbn [from_base_aux]. rewrite digit_value_char by lia. f_equal. rewrite Z.mod_small; lia.
  - rewrite IH by (apply div_fuel; lia). cbn [from_base_aux].
    rewrite digit_value_char by lia. f_equal. rewrite (Z_div_mod_eq_full n b) at 3. lia.
Qed.

Lemma from_to_base n : 0 <= n -> from_base b (to_base b n) = n.
Proof.
  intros Hn. unfold from_base, to_base. destruct (Z.ltb_spec n 0); [lia|].
  rewrite from_to_base_aux; [done|]. split; [done|]. by apply log2_fuel.
Qed.

Lemma to_base_inj n m : 0 <= n -> 0 <= m -> to_base b n = to_base b m -> n = m.
Proof. intros. rewrite <- (from_to_base n), <- (from_to_base m) by done. congruence. Qed.

Lemma all_chars_to_base_aux p f n acc :
  (forall d, 0 <= d < b -> p (digit_char d) = true) ->
  all_chars p acc = true -> all_chars p (to_base_aux f b n acc) = true.
Proof.
  intros Hp. revert n acc. induction f as [|f IH]; intros n acc Hacc; [done|]. cbn [to_base_aux].
  assert (all_chars p (String (digit_char (n mod b)) acc) = true).
  { simpl. rewrite Hacc, Hp; [done|]. apply Z.mod_pos_bound. lia. }
  case_match; auto.
Qed.

Lemma all_chars_to_base p n :
  0 <= n -> (forall d, 0 <= d < b -> p (digit_char d) = true) -> all_chars p (to_base b n) = true.
Proof.
  intros. unfold to_base. destruct (Z.ltb_spec n 0); [lia|]. by apply all_chars_to_base_aux.
Qed.

Lemma length_to_base_aux f n k acc :
  0 <= n < b ^ Z.of_nat k -> (0 < k)%nat ->
  (String.length acc <= String.length (to_base_aux f b n acc) <= k + String.length acc)%nat.
Proof.
  revert n k acc. induction f as [|f IH]; intros n k acc Hn Hk; [simpl; lia|].
  cbn [to_base_aux]. destruct (Z.ltb_spec n b); [simpl; lia|].
  destruct k as [|[|k]]; [lia|simpl in Hn; lia|].
  specialize (IH (n / b) (S k) (String (digit_char (n mod b)) acc)). simpl String.length in IH.
  assert (0 <= n / b < b ^ Z.of_nat (S k)).
  { split; [apply Z.div_pos; lia|]. apply Z.div_lt_upper_bound; [lia|].
    rewrite <- Z.pow_succ_r by lia. rewrite <- Nat2Z.inj_succ. lia. }
  lia.
Qed.

Lemma length_to_base n k :
  0 <= n < b ^ Z.of_nat k -> (0 < k)%nat -> (1 <= String.length (to_base b n) <= k)%nat.
Proof.
  intros Hn Hk. unfold to_base. destruct (Z.ltb_spec n 0); [lia|].
  cbn [to_base_aux]. destruct (Z.ltb_spec n b).
  { simpl. lia. }
  destruct k as [|[|k]]; [lia|simpl in Hn; lia|].
  pose proof (length_to_base_aux (Z.to_nat (Z.log2 n)) (n / b) (S k) (String (digit_char (n mod b)) "")) as HL.
  simpl String.length in HL.
  assert (0 <= n / b < b ^ Z.of_nat (S k)).
  { split; [apply Z.div_pos; lia|]. apply Z.div_lt_upper_bound; [lia|].
    rewrite <- Z.pow_succ_r by lia. rewrite <- Nat2Z.inj_succ. lia. }
  lia.
Qed.

Lemma to_base_nonempty n : 0 <= n -> to_base b n <> "".
Proof.
  intros Hn. assert (0 <= n < b ^ Z.of_nat (S (Z.to_nat n))) as Hk.
  { split; [done|]. replace (Z.of_nat (S (Z.to_nat n))) with (Z.succ n) by lia.
    pose proof (Z.pow_gt_lin_r b n). rewrite Z.pow_succ_r by lia. nia. }
  intros He. pose proof (length_to_base n _ Hk) as HL. rewrite He in HL. simpl in HL. lia.
Qed.
End ToBase.

Lemma to_base_0 b : 1 <= b -> to_base b 0 = "0".
Proof. intros. unfold to_base. simpl. destruct (Z.ltb_spec 0 b); [done|lia]. Qed.

Lemma dec_digits n : 0 <= n -> all_chars is_digit (dec n) = true.
Proof. intros. apply all_chars_to_base; [lia|done|]. intros. by apply is_digit_digit_char. Qed.

Lemma hex_digits n : 0 <= n -> all_chars is_hex (hex n) = true.
Proof. intros. apply all_chars_to_base; [lia|done|]. intros. by apply is_hex_digit_char. Qed.

Lemma from_dec n : 0 <= n -> from_base 10 (dec n) = n.
Proof. apply from_to_base. lia. Qed.

Lemma from_hex n : 0 <= n -> from_base 16 (hex n) = n.
Proof. apply from_to_base. lia. Qed.

Lemma dec_inj n m : 0 <= n -> 0 <= m -> dec n = dec m -> n = m.
Proof. apply to_base_inj. lia. Qed.

Lemma hex_inj n m : 0 <= n -> 0 <= m -> hex n = hex m -> n = m.
Proof. apply to_base_inj. lia. Qed.

Lemma dec_nonempty n : 0 <= n -> dec n <> "".
Proof. apply to_base_nonempty. lia. Qed.

Lemma hex_nonempty n : 0 <= n -> hex n <> "".
Proof. apply to_base_nonempty. lia. Qed.

Lemma hex_zero n : 0 <= n -> String.eqb (hex n) "0" = (n =? 0).
Proof.
  intros Hn. destruct (Z.eqb_spec n 0) as [->|Hz]; [done|]. apply String.eqb_neq. intros He.
  apply Hz. apply (hex_inj n 0); [lia..|]. by rewrite He.
Qed.

#[export] Hint Resolve dec_digits hex_digits dec_nonempty hex_nonempty : cidrella.

Lemma from_base_aux_bounds b s acc :
  2 <= b -> 0 <= acc -> all_chars (fun c => (0 <=? digit_value c) && (digit_value c <? b)) s = true ->
  acc * b ^ js_length s <= from_base_aux b s acc < (acc + 1) * b ^ js_length s.
Proof.
  intros Hb. revert acc. unfold js_length. induction s as [|c s IH]; intros acc Hacc Hs; simpl String.length.
  { simpl. lia. }
  simpl in Hs. apply andb_true_iff in Hs as [Hc Hs]. reflect_bools. cbn [from_base_aux].
  specialize (IH (acc * b + digit_value c)). rewrite Nat2Z.inj_succ, Z.pow_succ_r by lia.
  assert (0 < b ^ Z.of_nat (String.length s)) as HP by (apply Z.pow_pos_nonneg; lia).
  set (P := b ^ Z.of_nat (String.length s)) in *. set (d := digit_value c) in *.
  assert (0 <= d * P) by (apply Z.mul_nonneg_nonneg; lia).
  assert (0 <= (b - d - 1) * P) by (apply Z.mul_nonneg_nonneg; lia).
  assert (0 <= acc * b) by (apply Z.mul_nonneg_nonneg; lia).
  destruct IH as [IH1 IH2]; [lia|done|]. lia.
Qed.

Lemma is_digit_value c : is_digit c = true -> 0 <= digit_value c < 10.
Proof. unfold digit_value. intros Hc. rewrite Hc. unfold is_digit, in_range in Hc. reflect_bools. lia. Qed.

Lemma is_hex_value c : is_hex c = true -> 0 <= digit_value c < 16.
Proof.
  unfold digit_value, is_hex, is_digit, is_lower, in_range. intros Hc. split_leb; simpl in *; lia || done.
Qed.

(** A string of [k] hexadecimal digits is below [16 ^ k]. *)
Lemma from_hex_bounds s : all_chars is_hex s = true -> 0 <= from_base 16 s < 16 ^ js_length s.
Proof.
  intros Hs. pose proof (from_base_aux_bounds 16 s 0) as H. unfold from_base.
  rewrite Z.mul_0_l, Z.add_0_l, Z.mul_1_l in H. apply H; [lia..|].
  revert Hs. apply all_chars_impl. intros c Hc%is_hex_value.
  rewrite andb_true_iff, Z.leb_le, Z.ltb_lt. lia.
Qed.

Lemma from_dec_bounds s : all_chars is_digit s = true -> 0 <= from_base 10 s < 10 ^ js_length s.
Proof.
  intros Hs. pose proof (from_base_aux_bounds 10 s 0) as H. unfold from_base.
  rewrite Z.mul_0_l, Z.add_0_l, Z.mul_1_l in H. apply H; [lia..|].
  revert Hs. apply all_chars_impl. intros c Hc%is_digit_value.
  rewrite andb_true_iff, Z.leb_le, Z.ltb_lt. lia.
Qed.

(** ** Lemmas: [indexOf] of one character *)

Lemma index_of_char_None c s : has_char c s = false -> index_of (String c "") s = None.
Proof.
  unfold has_char. induction s as [|a s IH]; simpl; [done|].
  intros [Ha Hs]%orb_false_iff. rewrite Ha. simpl. by rewrite IH.
Qed.

Lemma index_of_char_app c w s :
  has_char c w = false -> index_of (String c "") (w +:+ String c s) = Some (String.length w).
Proof.
  unfold has_char. induction w as [|a w IH]; simpl.
  - rewrite Ascii.eqb_refl. by destruct s.
  - intros [Ha Hw]%orb_false_iff. rewrite Ha. simpl. by rewrite IH.
Qed.

Lemma has_char_app c s t : has_char c (s +:+ t) = has_char c s || has_char c t.
Proof. apply some_char_app. Qed.

Lemma has_char_join_false c sep l :
  has_char c sep = false -> Forall (fun w => has_char c w = false) l -> has_char c (join sep l) = false.
Proof.
  intros Hs Hl. induction Hl as [|w l Hw Hl IH]; [done|]. destruct l; [done|].
  simpl join. by rewrite !has_char_app, Hw, Hs.
Qed.

Lemma has_char_join_sep c w v l : has_char c (join (String c "") (w :: v :: l)) = true.
Proof.
  simpl join. rewrite has_char_app. simpl. unfold has_char at 2. simpl.
  rewrite Ascii.eqb_refl. by rewrite orb_true_r.
Qed.

Lemma length_take_string n s : (n <= String.length s)%nat -> String.length (take_string n s) = n.
Proof. revert s. induction n; intros [|a s]; simpl; intros; [lia..|]. f_equal. apply IHn. lia. Qed.

(** ** Lemmas: byte order of fixed-width hexadecimal *)

Lemma from_base_aux_acc b s acc : from_base_aux b s acc = acc * b ^ js_length s + from_base_aux b s 0.
Proof.
  unfold js_length. revert acc. induction s as [|c s IH]; intros acc; cbn [from_base_aux String.length].
  { rewrite Z.pow_0_r. lia. }
  rewrite (IH (acc * b + _)), (IH (0 * b + _)), Nat2Z.inj_succ, Z.pow_succ_r by lia. ring.
Qed.

Lemma from_base_app b s t : from_base b (s +:+ t) = from_base b s * b ^ js_length t + from_base b t.
Proof.
  unfold from_base. enough (forall acc, from_base_aux b (s +:+ t) acc = from_base_aux b t (from_base_aux b s acc)) as H.
  { rewrite H. by rewrite from_base_aux_acc. }
  induction s as [|c s IH]; intros acc; [done|]. cbn [append from_base_aux]. by rewrite IH.
Qed.

Lemma from_base_zeros b n s : from_base b (repeat_char "0" n +:+ s) = from_base b s.
Proof.
  rewrite from_base_app. replace (from_base b (repeat_char "0" n)) with 0; [lia|].
  unfold from_base. induction n as [|n IH]; [done|]. cbn [repeat_char from_base_aux].
  by change (digit_value "0") with 0.
Qed.

Lemma from_pad_start b n s : from_base b (pad_start n "0" s) = from_base b s.
Proof. apply from_base_zeros. Qed.

Lemma length_pad_start n c s : (String.length s <= n)%nat -> String.length (pad_start n c s) = n.
Proof. intros. unfold pad_start. rewrite length_app_str, length_repeat_char. lia. Qed.

Lemma all_chars_repeat p c n : p c = true -> all_chars p (repeat_char c n) = true.
Proof. intros Hc. induction n; simpl; [done|]. by rewrite Hc. Qed.

Lemma all_chars_pad_start p n c s : p c = true -> all_chars p s = true -> all_chars p (pad_start n c s) = true.
Proof. intros. unfold pad_start. rewrite all_chars_app, all_chars_repeat; auto. Qed.

(** The characters [toString(16)] writes: byte order is digit order on them. *)
Definition is_hex_lower (c : ascii) : bool := is_digit c || in_range 97 102 c.

Lemma hex_lower_digits n : 0 <= n -> all_chars is_hex_lower (hex n) = true.
Proof.
  intros. apply all_chars_to_base; [lia|done|]. intros d Hd. revert d Hd. by apply digit_cases.
Qed.

Lemma code_inj c d : code c = code d -> c = d.
Proof.
  unfold code. intros H%N2Z.inj. rewrite <- (ascii_N_embedding c), <- (ascii_N_embedding d). congruence.
Qed.

Lemma hex_lower_code c :
  is_hex_lower c = true -> code c = if digit_value c <? 10 then 48 + digit_value c else 87 + digit_value c.
Proof.
  unfold is_hex_lower, digit_value, is_digit, is_lower, in_range. intros Hc.
  split_leb; simpl in *; try done; destruct (Z.ltb_spec (code c - 48) 10); try lia;
    destruct (Z.ltb_spec (code c - 87) 10); lia.
Qed.

Lemma ascii_compare_hex c d :
  is_hex_lower c = true -> is_hex_lower d = true ->
  Ascii.compare c d = (digit_value c ?= digit_value d).
Proof.
  intros Hc Hd. unfold Ascii.compare. rewrite <- N2Z.inj_compare. fold (code c) (code d).
  rewrite (hex_lower_code c), (hex_lower_code d) by done.
  destruct (Z.ltb_spec (digit_value c) 10), (Z.ltb_spec (digit_value d) 10);
    destruct (Z.compare_spec (digit_value c) (digit_value d)); simplify_eq;
    (apply Z.compare_eq_iff || apply Z.compare_lt_iff || apply Z.compare_gt_iff); lia.
Qed.

Lemma hex_lower_is_hex c : is_hex_lower c = true -> is_hex c = true.
Proof. unfold is_hex_lower, is_hex. destruct (is_digit c); simpl; [done|]. by intros ->. Qed.

Lemma compare_hex s t :
  all_chars is_hex_lower s = true -> all_chars is_hex_lower t = true ->
  String.length s = String.length t ->
  String.compare s t = (from_base 16 s ?= from_base 16 t).
Proof.
  revert t. induction s as [|c s IH]; intros [|d t] Hs Ht Hlen; try discriminate Hlen; [done|].
  simpl in Hs, Ht. apply andb_true_iff in Hs as [Hc Hs], Ht as [Hd Ht]. injection Hlen as Hlen.
  cbn [String.compare]. rewrite ascii_compare_hex, IH by done.
  unfold from_base. cbn [from_base_aux]. rewrite (from_base_aux_acc 16 s (0 * 16 + _)), (from_base_aux_acc 16 t (0 * 16 + _)).
  assert (all_chars is_hex s = true /\ all_chars is_hex t = true) as [Hs' Ht']
    by (split; (eapply all_chars_impl; [apply hex_lower_is_hex|done])).
  pose proof (from_hex_bounds s Hs'). pose proof (from_hex_bounds t Ht').
  unfold from_base, js_length in *. rewrite Hlen in *. set (P := 16 ^ Z.of_nat (String.length t)) in *.
  pose proof (is_hex_value c ltac:(by apply hex_lower_is_hex)).
  pose proof (is_hex_value d ltac:(by apply hex_lower_is_hex)).
  destruct (Z.compare_spec (digit_value c) (digit_value d)) as [->|Hlt|Hlt].
  - symmetry. destruct (Z.compare_spec (from_base_aux 16 s 0) (from_base_aux 16 t 0)) as [->|?|?].
    + by rewrite Z.compare_refl.
    + apply Z.compare_lt_iff. lia.
    + apply Z.compare_gt_iff. lia.
  - symmetry. apply Z.compare_lt_iff. assert ((digit_value c + 1) * P <= digit_value d * P) by (apply Z.mul_le_mono_nonneg_r; lia). lia.
  - symmetry. apply Z.compare_gt_iff. assert ((digit_value d + 1) * P <= digit_value c * P) by (apply Z.mul_le_mono_nonneg_r; lia). lia.
Qed.

Lemma compare_pad_hex n a b :
  0 <= a < 16 ^ Z.of_nat n -> 0 <= b < 16 ^ Z.of_nat n -> (0 < n)%nat ->
  String.compare (pad_start n "0" (hex a)) (pad_start n "0" (hex b)) = (a ?= b).
Proof.
  intros Ha Hb Hn.
  pose proof (length_to_base 16 ltac:(lia) a n Ha Hn). pose proof (length_to_base 16 ltac:(lia) b n Hb Hn).
  rewrite compare_hex.
  - rewrite !from_pad_start, !from_hex by lia. done.
  - apply all_chars_pad_start; [done|]. apply hex_lower_digits. lia.
  - apply all_chars_pad_start; [done|]. apply hex_lower_digits. lia.
  - rewrite !length_pad_start by (unfold hex; lia). done.
Qed.

(** ** Lemmas: [lastIndexOf] of one character *)

Lemma last_index_of_char_app c s t :
  has_char c t = false -> last_index_of (String c "") (s +:+ String c t) = Some (String.length s).
Proof.
  intros Ht. replace (String.length s) with (String.length s + 0)%nat by lia.
  apply last_index_of_skip. cbn [last_index_of].
  assert (last_index_of (String c "") t = None) as ->.
  { apply last_index_of_None; [done|]. by apply index_of_char_None. }
  cbn [starts_with]. rewrite Ascii.eqb_refl. by destruct t.
Qed.

Lemma string_nonempty_length s : s <> "" -> (1 <= String.length s)%nat.
Proof. destruct s; simpl; [done|lia]. Qed.

Lemma all_digits1_dec n : 0 <= n -> all_digits1 (dec n) = true.
Proof.
  intros. unfold all_digits1. rewrite dec_digits by done. rewrite andb_true_r, negb_true_iff.
  apply String.eqb_neq. by apply dec_nonempty.
Qed.

(** ** Lemmas: binary length *)

Lemma length_to_base2_aux f n acc :
  0 < n < 2 ^ Z.of_nat f ->
  Z.of_nat (String.length (to_base_aux f 2 n acc)) = Z.log2 n + 1 + Z.of_nat (String.length acc).
Proof.
  revert n acc. induction f as [|f IH]; intros n acc Hn; [simpl in Hn; lia|].
  cbn [to_base_aux]. destruct (Z.ltb_spec n 2).
  - replace n with 1 by lia. simpl. lia.
  - rewrite IH.
    + cbn [String.length]. replace (n / 2) with (Z.shiftr n 1) by (rewrite Z.shiftr_div_pow2 by lia; done).
      rewrite Z.log2_shiftr by lia. assert (1 <= Z.log2 n); [|lia].
      change 1 with (Z.log2 2). apply Z.log2_le_mono. lia.
    + pose proof (div_fuel 2 n f ltac:(lia) ltac:(lia)). split; [|lia]. apply Z.div_str_pos. lia.
Qed.

(** [n.toString(2).length] is the bit length. *)
Lemma js_length_to_base2 n : 0 < n -> js_length (to_base 2 n) = Z.log2 n + 1.
Proof.
  intros Hn. unfold js_length, to_base. destruct (Z.ltb_spec n 0); [lia|].
  rewrite length_to_base2_aux; [simpl; lia|]. split; [done|]. apply log2_fuel. lia.
Qed.

(** ** Objects and Maps: association lists in the order of insertion *)

Fixpoint js_get {A} (k : string) (m : list (string * A)) : option A :=
  match m with [] => None | (k', a) :: m' => if String.eqb k k' then Some a else js_get k m' end.

(** [map.set]: a key that is there keeps its place. *)
Fixpoint js_set {A} (k : string) (a : A) (m : list (string * A)) : list (string * A) :=
  match m with
  | [] => [(k, a)]
  | (k', a') :: m' => if String.eqb k k' then (k', a) :: m' else (k', a') :: js_set k a m'
  end.

Definition js_map {A} (l : list (string * A)) : list (string * A) := fold_left (fun m p => js_set p.1 p.2 m) l [].

(** *** Lemmas *)

Lemma js_get_set {A} k k' (a : A) m : js_get k (js_set k' a m) = if String.eqb k k' then Some a else js_get k m.
Proof.
  induction m as [|[k2 b] m IH]; cbn.
  - by destruct (String.eqb k k').
  - destruct (String.eqb_spec k' k2) as [->|Hne]; cbn; [by destruct (String.eqb k k2)|]. rewrite IH.
    destruct (String.eqb_spec k k2) as [->|]; [|done]. by destruct (String.eqb_spec k2 k'); [congruence|].
Qed.

Definition keys {A} (m : list (string * A)) : list string := map fst m.

Lemma js_get_elem {A} k (a : A) m : NoDup (keys m) -> js_get k m = Some a <-> (k, a) ∈ m.
Proof.
  induction m as [|[k' a'] m IH]; cbn; intros Hn; [split; [done|by intros ?%elem_of_nil]|].
  inversion Hn as [|? ? Hk Hn']; subst. rewrite elem_of_cons. destruct (String.eqb_spec k k') as [->|Hne].
  - split; [by intros [= ->]; left|]. intros [[= ->]|Hin]; [done|]. exfalso. apply Hk.
    apply list_elem_of_In, in_map_iff. exists (k', a). split; [done|]. by apply list_elem_of_In.
  - rewrite IH by done. split; [by right|]. by intros [[= -> ->]|].
Qed.

Lemma js_get_none {A} k (m : list (string * A)) : js_get k m = None <-> k ∉ keys m.
Proof.
  induction m as [|[k' a'] m IH]; cbn; [split; [by intros _ ?%elem_of_nil|done]|]. rewrite not_elem_of_cons, <- IH.
  destruct (String.eqb_spec k k'); intuition congruence.
Qed.

Lemma js_set_keys {A} k (a : A) m : keys (js_set k a m) = if js_get k m then keys m else keys m ++ [k].
Proof. unfold keys. induction m as [|[k' a'] m IH]; cbn; [done|]. destruct (String.eqb_spec k k'); cbn; [done|]. rewrite IH. by destruct (js_get k m). Qed.

Lemma js_set_forall {A} (P : string * A -> Prop) k a m : P (k, a) -> Forall P m -> Forall P (js_set k a m).
Proof.
  intros Hp. induction 1 as [|[k' a'] m Hx Hm IH]; cbn; [by repeat constructor|].
  destruct (String.eqb_spec k k') as [->|]; constructor; auto.
Qed.

Lemma js_map_keys {A} (l : list (string * A)) : NoDup (keys (js_map l)).
Proof.
  unfold js_map. assert (NoDup (keys (@nil (string * A)))) as H by constructor. revert H. generalize (@nil (string * A)).
  induction l as [|[k a] l IH]; intros m Hm; [done|]. cbn. apply IH. rewrite js_set_keys. destruct (js_get k m) eqn:E; [done|].
  apply NoDup_app. split; [done|]. split; [|apply NoDup_singleton]. intros x Hx ->%list_elem_of_singleton. by apply js_get_none in E.
Qed.

Lemma js_map_forall {A} (P : string * A -> Prop) l : Forall P l -> Forall P (js_map l).
Proof.
  unfold js_map. assert (Forall P (@nil (string * A))) as H by constructor. revert H. generalize (@nil (string * A)).
  induction l as [|[k a] l IH]; intros m Hm Hl; [done|]. inversion Hl; subst. cbn. apply IH; [|done]. by apply js_set_forall.
Qed.

Lemma js_set_NoDup {A} k (a : A) m : NoDup (map fst m) -> NoDup (map fst (js_set k a m)).
Proof.
  change (NoDup (keys m) -> NoDup (keys (js_set k a m))). intros Hm. rewrite js_set_keys. destruct (js_get k m) eqn:E; [done|].
  apply NoDup_app. split; [done|]. split; [|apply NoDup_singleton]. intros x Hx ->%list_elem_of_singleton. by apply js_get_none in E.
Qed.

(** A key of a Map built from entries is the key of an entry. *)
Lemma js_map_none {A} k (l : list (string * A)) : js_get k (js_map l) = None <-> k ∉ keys l.
Proof.
  unfold js_map. rewrite <- (rev_involutive l). rewrite <- fold_left_rev_right, rev_involutive.
  induction (rev l) as [|p r IH]; cbn; [split; [by intros _ ?%elem_of_nil|done]|].
  rewrite js_get_set. unfold keys in *. rewrite map_app, elem_of_app. cbn. rewrite list_elem_of_singleton.
  destruct (String.eqb_spec k p.1) as [->|Hne]; [split; [done|intros H; destruct H; by right]|]. rewrite IH. naive_solver.
Qed.

(** ** Replacing *)

Fixpoint replace_from (p r : string) (skip : nat) (s : string) : string :=
  match s with
  | "" => ""
  | String c s' =>
      match skip with
      | S k => replace_from p r k s'
      | O => if starts_with p s then r +:+ replace_from p r (String.length p - 1) s'
             else String c (replace_from p r 0 s')
      end
  end.

(** [s.replace(/p/g, r)] for a literal pattern [p] and a replacement without
    a dollar sign. *)
Definition replace_all (p r s : string) : string := replace_from p r 0 s.

(** ** Numbers *)

(** A sign in front of digits. *)
Definition signed (s : string) : Z * string :=
  if starts_with "-" s then (-1, drop_string 1 s)
  else if starts_with "+" s then (1, drop_string 1 s) else (1, s).

(** [Number(s)] for a string without a point, exactly, as numerator and
    denominator; [None] is [NaN] or an infinity. *)
Definition js_number (s : string) : option (Z * Z) :=
  let t := trim s in
  let u := drop_string 2 t in
  let radix := fun p => negb (String.eqb u "") && all_chars p u in
  if String.eqb t "" then Some (0, 1)
  else if starts_with "0x" (to_lower t) then if radix is_hex then Some (from_base 16 u, 1) else None
  else if starts_with "0o" (to_lower t) then if radix (in_range 48 55) then Some (from_base 8 u, 1) else None
  else if starts_with "0b" (to_lower t) then if radix (in_range 48 49) then Some (from_base 2 u, 1) else None
  else
    let '(sign, body) := signed t in
    match index_of "e" (to_lower body) with
    | None => if all_digits1 body then Some (sign * from_base 10 body, 1) else None
    | Some i =>
        let mantissa := take_string i body in
        let '(esign, exponent) := signed (drop_string (S i) body) in
        if all_digits1 mantissa && all_digits1 exponent then
          let power := 10 ^ from_base 10 exponent in
          if esign =? 1 then Some (sign * from_base 10 mantissa * power, 1)
          else Some (sign * from_base 10 mantissa, power)
        else None
    end.

Example number_forms :
  map js_number ["42"; " 7 "; ""; "0x1F"; "1e2"; "5e-1"; "-3"; "1a"; "0b102"] =
  [Some (42, 1); Some (7, 1); Some (0, 1); Some (31, 1); Some (100, 1); Some (5, 10); Some (-3, 1); None; None].
Proof. vm_compute. reflexivity. Qed.

Lemma digits_radix (p : string) c s :
  is_digit c = false -> p = String "0" (String c "") -> all_chars is_digit s = true -> starts_with p s = false.
Proof.
  intros Hc -> Hs. destruct s as [|a [|b s]]; [done| |]; cbn [starts_with].
  - by rewrite andb_false_r.
  - cbn [all_chars] in Hs. apply andb_true_iff in Hs as [_ Hs]. apply andb_true_iff in Hs as [Hb _].
    destruct (Ascii.eqb_spec c b) as [->|]; [congruence|]. by rewrite andb_false_r.
Qed.

Lemma digits_first c s : is_digit c = false -> all_chars is_digit s = true -> starts_with (String c "") s = false.
Proof.
  intros Hc Hs. destruct s as [|a s]; [done|]. cbn [all_chars starts_with] in *. apply andb_true_iff in Hs as [Ha _].
  destruct (Ascii.eqb_spec c a) as [->|]; [congruence|done].
Qed.

Lemma digits_no_upper s : all_chars is_digit s = true -> all_chars (fun c => negb (is_upper c)) s = true.
Proof.
  apply all_chars_impl. intros c. unfold is_digit, is_upper, in_range. intros Hc. apply negb_true_iff, andb_false_iff.
  apply andb_true_iff in Hc as [_ Hc%Z.leb_le]. left. apply Z.leb_gt. lia.
Qed.

Lemma digits_trim s : all_chars is_digit s = true -> trim s = s.
Proof.
  intros Hs. apply trim_no_space. eapply all_chars_impl; [|exact Hs]. intros c. unfold is_digit, is_space, in_range. intros Hc.
  reflect_bools. apply negb_true_iff. destruct (Z.eqb_spec (code c) 32), (Z.eqb_spec (code c) 160); try lia.
  all: destruct (Z.leb_spec 9 (code c)), (Z.leb_spec (code c) 13); try lia; try reflexivity.
Qed.

Lemma js_number_dec n : 0 <= n -> js_number (dec n) = Some (n, 1).
Proof.
  intros Hn. pose proof (dec_digits n Hn) as Hd. unfold js_number. rewrite digits_trim by done.
  rewrite (to_lower_id (dec n)) by (by apply digits_no_upper).
  destruct (String.eqb_spec (dec n) "") as [He|_]; [by apply dec_nonempty in He|].
  rewrite !(digits_radix _ _ (dec n) (eq_refl : is_digit "x" = false) eq_refl Hd),
    (digits_radix _ _ (dec n) (eq_refl : is_digit "o" = false) eq_refl Hd),
    (digits_radix _ _ (dec n) (eq_refl : is_digit "b" = false) eq_refl Hd).
  unfold signed. rewrite (digits_first "-") by done. rewrite (digits_first "+") by done.
  rewrite to_lower_id by (by apply digits_no_upper). rewrite index_of_char_None by (by eapply has_char_class; [|exact Hd]).
  unfold all_digits1. rewrite Hd. destruct (String.eqb_spec (dec n) "") as [He|_]; [by apply dec_nonempty in He|].
  rewrite from_dec by done. cbn [negb andb]. by rewrite Z.mul_1_l.
Qed.
