(* ===== verification/Address.v ===== *)
(** * The address core: [server/src/utils/address.js]

    Strings to numbers and back for both families: dotted quads, IPv6
    literals with [::] and an embedded quad, zone ids, the folding of
    IPv4-mapped addresses, the RFC 5952 rendering and the sort key. *)

From S2P Require Import Prelude JsString.

(** ** Definitions *)

Definition IPV4_BITS : Z := 32.
Definition IPV6_BITS : Z := 128.

(** [V4_OCTET_RE = /^\d{1,3}$/] *)
Definition V4_OCTET_RE (s : string) : bool :=
  (1 <=? js_length s) && (js_length s <=? 3) && all_chars is_digit s.

(** [V6_GROUP_RE = /^[0-9a-fA-F]{1,4}$/] *)
Definition V6_GROUP_RE (s : string) : bool :=
  (1 <=? js_length s) && (js_length s <=? 4) && all_chars is_hex s.

(** The loop of [parseV4] over the octets. *)
Fixpoint parseV4_loop (octets : list string) (v : Z) : option Z :=
  match octets with
  | [] => Some v
  | octet :: rest =>
      if negb (V4_OCTET_RE octet) then None
      else let n := from_base 10 octet in
           if 255 <? n then None
           else parseV4_loop rest (Z.shiftl v 8 + n)
  end.

Definition parseV4 (str : string) : option Z :=
  let octets := split_char "." str in
  if negb (length octets =? 4)%nat then None
  else parseV4_loop octets 0.

(** The last loop of [parseV6] over the eight (or six) hextets. *)
Fixpoint parseV6_loop (parts : list string) (v : Z) : option Z :=
  match parts with
  | [] => Some v
  | part :: rest =>
      if negb (V6_GROUP_RE part) then None
      else parseV6_loop rest (Z.shiftl v 16 + from_base 16 part)
  end.

(** The trailing dotted quad of [parseV6]: the parts left and its value. *)
Definition parseV6_trailing (parts tailParts : list string) (hasDoubleColon embeddedV4 : bool)
    : option (list string * option Z) :=
  match last parts with
  | Some lastPart =>
      if has_char "." lastPart then
        if negb embeddedV4 then None
        else if hasDoubleColon && (length tailParts =? 0)%nat then None
        else match parseV4 lastPart with
             | None => None
             | Some v4 => Some (take (length parts - 1) parts, Some v4)
             end
      else Some (parts, None)
  | None => Some (parts, None)
  end.

Definition parseV6 (str : string) (embeddedV4 : bool) : option Z :=
  let first := index_of "::" str in
  if negb (bool_decide (first = last_index_of "::" str)) then None
  else
    let hasDoubleColon := match first with Some _ => true | None => false end in
    (* [str.split('::')]: the pair of colons is unique here *)
    let head := match first with Some i => take_string i str | None => str end in
    let tail := match first with Some i => drop_string (i + 2) str | None => "" end in
    let headParts := if String.eqb head "" then [] else split_char ":" head in
    let tailParts := if String.eqb tail "" then [] else split_char ":" tail in
    let parts := if hasDoubleColon then headParts ++ tailParts else headParts in
    match parseV6_trailing parts tailParts hasDoubleColon embeddedV4 with
    | None => None
    | Some (parts, trailing) =>
        let groupCount := match trailing with None => 8 | Some _ => 6 end in
        let fill := groupCount - Z.of_nat (length parts) in
        if hasDoubleColon && (fill <? 1) then None
        else
          let parts :=
            if hasDoubleColon
            then take (length headParts) parts ++ replicate (Z.to_nat fill) "0"
                   ++ drop (length headParts) parts
            else parts in
          if negb (Z.of_nat (length parts) =? groupCount) then None
          else match parseV6_loop parts 0 with
               | None => None
               | Some v => match trailing with
                           | Some t => Some (Z.shiftl v 32 + t)
                           | None => Some v
                           end
               end
    end.

Definition V4_MAPPED_PREFIX : Z := Z.shiftl 65535 32.
Definition V4_MAPPED_LAST : Z := V4_MAPPED_PREFIX + 4294967295.
Definition V4_MAPPED_MASK : Z := Z.shiftl 1 128 - Z.shiftl 1 32.

(** What [parseIp] returns when it is not [null]. *)
Record ParsedIp := mkParsedIp { value : Z; bits : Z; zone : option string }.

(** The options of [parseIp]; the source defaults every one to [true]. *)
Record ParseOptions := mkParseOptions { zoneId : bool; mapV4 : bool; embeddedV4 : bool }.
Definition default_options : ParseOptions := mkParseOptions true true true.
(** [{ zoneId: false }], what all CIDR arithmetic passes. *)
Definition no_zone : ParseOptions := mkParseOptions false true true.

(** The address half of [parseIp], after the zone id is cut off. *)
Definition parseIp_address (opts : ParseOptions) (s : string) (z : option string) : option ParsedIp :=
  if has_char ":" s then
    match parseV6 s (embeddedV4 opts || mapV4 opts) with
    | None => None
    | Some v =>
        if mapV4 opts && (Z.land v V4_MAPPED_MASK =? V4_MAPPED_PREFIX)
        then Some (mkParsedIp (Z.land v 4294967295) IPV4_BITS z)
        else Some (mkParsedIp v IPV6_BITS z)
    end
  else
    match z with
    | Some _ => None
    | None => match parseV4 s with
              | None => None
              | Some v => Some (mkParsedIp v IPV4_BITS None)
              end
    end.

Definition parseIp (opts : ParseOptions) (str : string) : option ParsedIp :=
  let s := trim str in
  if String.eqb s "" then None
  else match index_of "%" s with
       | None => parseIp_address opts s None
       | Some pct =>
           if negb (zoneId opts) then None
           else let z := drop_string (pct + 1) s in
                if String.eqb z "" then None
                else parseIp_address opts (take_string pct s) (Some z)
       end.

Definition family_of_bits (b : Z) : Z := if b =? IPV4_BITS then 4 else 6.

Definition addressFamily (str : string) : option Z :=
  match parseIp default_options str with
  | None => None
  | Some parsed => Some (family_of_bits (bits parsed))
  end.

Definition isValidIp (str : string) : bool :=
  match parseIp default_options str with Some _ => true | None => false end.

Definition isValidIpv6 (str : string) : bool :=
  match parseIp default_options str with Some p => bits p =? IPV6_BITS | None => false end.

(** The octets and the hextets [formatIp] reads off a number. *)
Definition octets_of (v : Z) : list string :=
  map (fun shift => dec (Z.land (Z.shiftr v shift) 255)) [24; 16; 8; 0].
Definition hextets_of (v : Z) : list string :=
  map (fun shift => hex (Z.land (Z.shiftr v shift) 65535)) [112; 96; 80; 64; 48; 32; 16; 0].

Definition is_zero_group (groups : list string) (i : nat) : bool :=
  match groups !! i with Some g => String.eqb g "0" | None => false end.

(** [while (j < 8 && groups[j] === '0') j++] *)
Fixpoint run_end (fuel : nat) (groups : list string) (j : nat) : nat :=
  match fuel with
  | O => j
  | S fuel' => if (j <? 8)%nat && is_zero_group groups j then run_end fuel' groups (S j) else j
  end.

(** The search of [formatIp] for the longest run of zero groups: its start
    (initially -1) and its length. *)
Fixpoint best_run (fuel : nat) (groups : list string) (i : nat) (bestStart : Z) (bestLen : nat)
    : Z * nat :=
  match fuel with
  | O => (bestStart, bestLen)
  | S fuel' =>
      if negb (i <? 8)%nat then (bestStart, bestLen)
      else if negb (is_zero_group groups i) then best_run fuel' groups (S i) bestStart bestLen
      else
        let j := run_end 8 groups i in
        if (bestLen <? j - i)%nat then best_run fuel' groups j (Z.of_nat i) (j - i)
        else best_run fuel' groups j bestStart bestLen
  end.

(** Zero-compress eight groups: the end of [formatIp]. *)
Definition compress (groups : list string) : string :=
  let '(bestStart, bestLen) := best_run 9 groups 0 (-1) 0 in
  if (2 <=? bestLen)%nat then
    let start := Z.to_nat bestStart in
    let head := join ":" (take start groups) in
    let tail := join ":" (drop (start + bestLen) groups) in
    head +:+ "::" +:+ tail
  else join ":" groups.

Definition formatIp (v : Z) (b : Z) : string :=
  if b =? IPV4_BITS then join "." (octets_of v) else compress (hextets_of v).

Definition canonicalizeIp (str : string) : option string :=
  match parseIp default_options str with
  | None => None
  | Some parsed => Some (formatIp (value parsed) (bits parsed))
  end.

Definition sortKey (str : string) : option string :=
  match parseIp default_options str with
  | None => None
  | Some parsed =>
      let family := if bits parsed =? IPV4_BITS then "4" else "6" in
      Some (family +:+ pad_start 32 "0" (hex (value parsed)))
  end.

Example canonicalize_mixed : canonicalizeIp "2001:DB8::0:0:1%eth0" = Some "2001:db8::1".
Proof. vm_compute. reflexivity. Qed.
Example canonicalize_mapped : canonicalizeIp " ::ffff:10.0.0.1 " = Some "10.0.0.1".
Proof. vm_compute. reflexivity. Qed.
Example canonicalize_tie : canonicalizeIp "1:0:0:2:0:0:3:4" = Some "1::2:0:0:3:4".
Proof. vm_compute. reflexivity. Qed.
Example no_quad_before_colons : canonicalizeIp "1.2.3.4::" = None.
Proof. vm_compute. reflexivity. Qed.
Example full_colons : canonicalizeIp "1::2:3:4:5:6:7:8" = None.
Proof. vm_compute. reflexivity. Qed.

(** ** Octets and hextets *)

Lemma land_shiftr_bounds v s w :
  0 <= s -> 0 <= w -> 0 <= Z.land (Z.shiftr v s) (2 ^ w - 1) < 2 ^ w.
Proof.
  intros. rewrite land_ones_mod by lia. apply Z.mod_pos_bound. auto with cidrella.
Qed.

Lemma octet_bounds v s : 0 <= s -> 0 <= Z.land (Z.shiftr v s) 255 < 256.
Proof. intros. apply (land_shiftr_bounds v s 8); lia. Qed.

Lemma hextet_bounds v s : 0 <= s -> 0 <= Z.land (Z.shiftr v s) 65535 < 65536.
Proof. intros. apply (land_shiftr_bounds v s 16); lia. Qed.
#[export] Hint Resolve octet_bounds hextet_bounds : cidrella.

(** Shifting one more field in: [m] is the field's mask, [t] where it ends. *)
Lemma chunk_step v s w m t :
  0 <= s -> 0 <= w -> m = 2 ^ w - 1 -> t = s + w ->
  Z.shiftl (Z.shiftr v t) w + Z.land (Z.shiftr v s) m = Z.shiftr v s.
Proof.
  intros ?? -> ->. rewrite land_ones_mod, shiftl_pow by lia.
  rewrite <- Z.shiftr_shiftr, (Z.shiftr_div_pow2 (Z.shiftr v s) w) by lia.
  pose proof (Z_div_mod_eq_full (Z.shiftr v s) (2 ^ w)). lia.
Qed.

Lemma chunk_first v s w m :
  0 <= s -> 0 <= w -> m = 2 ^ w - 1 -> 0 <= v < 2 ^ (s + w) ->
  Z.shiftl 0 w + Z.land (Z.shiftr v s) m = Z.shiftr v s.
Proof.
  intros Hs Hw Hm Hv. pose proof (chunk_step v s w m _ Hs Hw Hm eq_refl) as H.
  rewrite (Z.shiftr_div_pow2 v (s + w)), Z.div_small in H by lia. exact H.
Qed.

Definition octet_word (w : string) : Prop := V4_OCTET_RE w = true /\ from_base 10 w < 256.
Definition hextet_word (w : string) : Prop := V6_GROUP_RE w = true.

Lemma octet_word_dec n : 0 <= n < 256 -> octet_word (dec n).
Proof.
  intros Hn. split; [|rewrite from_dec; lia].
  unfold V4_OCTET_RE, js_length. pose proof (length_to_base 10 ltac:(lia) n 3 ltac:(lia) ltac:(lia)) as HL.
  unfold dec. rewrite !andb_true_iff, !Z.leb_le. split; [lia|]. apply dec_digits. lia.
Qed.

Lemma hextet_word_hex n : 0 <= n < 65536 -> hextet_word (hex n).
Proof.
  intros Hn. unfold hextet_word, V6_GROUP_RE, js_length.
  pose proof (length_to_base 16 ltac:(lia) n 4 ltac:(lia) ltac:(lia)) as HL.
  unfold hex. rewrite !andb_true_iff, !Z.leb_le. split; [lia|]. apply hex_digits. lia.
Qed.
#[export] Hint Resolve octet_word_dec hextet_word_hex : cidrella.

Lemma octets_of_words v : Forall octet_word (octets_of v).
Proof. unfold octets_of. repeat constructor; apply octet_word_dec, octet_bounds; lia. Qed.

Lemma hextets_of_words v : Forall hextet_word (hextets_of v).
Proof. unfold hextets_of. repeat constructor; apply hextet_word_hex, hextet_bounds; lia. Qed.

(** A hextet word is not empty and has none of the separators. *)
Lemma hextet_word_clean w c :
  hextet_word w -> is_hex c = false -> w <> "" /\ has_char c w = false.
Proof.
  unfold hextet_word, V6_GROUP_RE. rewrite !andb_true_iff, !Z.leb_le. intros [[? ?] Hx] Hc.
  split; [|by eapply has_char_class].
  intros ->. unfold js_length in *. simpl in *. lia.
Qed.

Lemma octet_word_clean w c :
  octet_word w -> is_digit c = false -> w <> "" /\ has_char c w = false.
Proof.
  unfold octet_word, V4_OCTET_RE. rewrite !andb_true_iff, !Z.leb_le. intros [[[? ?] Hx] _] Hc.
  split; [|by eapply has_char_class].
  intros ->. unfold js_length in *. simpl in *. lia.
Qed.

(** ** Dotted quads *)

Lemma parseV4_loop_octets v :
  0 <= v < 2 ^ 32 -> parseV4_loop (octets_of v) 0 = Some v.
Proof.
  intros Hv. unfold octets_of. cbn [map parseV4_loop].
  assert (forall s, 0 <= s -> V4_OCTET_RE (dec (Z.land (Z.shiftr v s) 255)) = true /\
            (255 <? from_base 10 (dec (Z.land (Z.shiftr v s) 255))) = false) as Ho.
  { intros s Hs. destruct (octet_word_dec _ (octet_bounds v s Hs)) as [? ?].
    split; [done|]. apply Z.ltb_ge. lia. }
  assert (0 <= 24 /\ 0 <= 16 /\ 0 <= 8 /\ 0 <= 0) as (H24 & H16 & H8 & H0) by lia.
  destruct (Ho 24 H24) as [-> ->], (Ho 16 H16) as [-> ->], (Ho 8 H8) as [-> ->], (Ho 0 H0) as [-> ->].
  cbn [negb].
  rewrite !from_dec by (apply octet_bounds; lia).
  f_equal. rewrite (chunk_first v 24 8 255) by lia.
  rewrite (chunk_step v 16 8 255 24), (chunk_step v 8 8 255 16), (chunk_step v 0 8 255 8) by lia.
  apply Z.shiftr_0_r.
Qed.

Lemma parseV4_format v : 0 <= v < 2 ^ 32 -> parseV4 (join "." (octets_of v)) = Some v.
Proof.
  intros Hv. unfold parseV4. rewrite split_char_join; [|done|].
  - by apply parseV4_loop_octets.
  - eapply Forall_impl; [apply octets_of_words|]. intros w Hw.
    by destruct (octet_word_clean w "." Hw eq_refl).
Qed.

Lemma parseV4_loop_bounds octets v r n :
  0 <= v < 2 ^ n -> 0 <= n -> parseV4_loop octets v = Some r ->
  0 <= r < 2 ^ (n + 8 * Z.of_nat (length octets)).
Proof.
  revert v n. induction octets as [|o rest IH]; intros v n Hv Hn H; cbn [parseV4_loop] in H.
  { simplify_eq. cbn [length]. by rewrite Z.mul_0_r, Z.add_0_r. }
  run_inv H. reflect_bools. apply (IH _ (n + 8)) in H.
  - cbn [length]. replace (n + 8 * Z.of_nat (S (length rest))) with (n + 8 + 8 * Z.of_nat (length rest)) by lia.
    done.
  - unfold V4_OCTET_RE in *. reflect_bools. pose proof (from_dec_bounds o ltac:(done)).
    rewrite shiftl_pow, Z.pow_add_r by lia. lia.
  - lia.
Qed.

Lemma parseV4_bounds s r : parseV4 s = Some r -> 0 <= r < 2 ^ 32.
Proof.
  unfold parseV4. intros H. run_inv H. reflect_bools.
  apply (parseV4_loop_bounds _ 0 _ 0) in H; [|simpl; lia..]. rewrite E in H. done.
Qed.

(** ** Hextets *)

Lemma parseV6_loop_hextets v :
  0 <= v < 2 ^ 128 -> parseV6_loop (hextets_of v) 0 = Some v.
Proof.
  intros Hv. unfold hextets_of. cbn [map].
  assert (forall s g acc, 0 <= s ->
    parseV6_loop (hex (Z.land (Z.shiftr v s) 65535) :: g) acc =
    parseV6_loop g (Z.shiftl acc 16 + Z.land (Z.shiftr v s) 65535)) as Hstep.
  { intros s g acc Hs. cbn [parseV6_loop].
    pose proof (hextet_word_hex _ (hextet_bounds v s Hs)) as Hw. unfold hextet_word in Hw.
    rewrite Hw. cbn [negb]. by rewrite from_hex by (apply hextet_bounds; lia). }
  rewrite !Hstep by lia. cbn [parseV6_loop]. f_equal.
  rewrite (chunk_first v 112 16 65535) by lia.
  rewrite (chunk_step v 96 16 65535 112), (chunk_step v 80 16 65535 96),
    (chunk_step v 64 16 65535 80), (chunk_step v 48 16 65535 64),
    (chunk_step v 32 16 65535 48), (chunk_step v 16 16 65535 32),
    (chunk_step v 0 16 65535 16) by lia.
  apply Z.shiftr_0_r.
Qed.

Lemma parseV6_loop_bounds parts v r n :
  0 <= v < 2 ^ n -> 0 <= n -> parseV6_loop parts v = Some r ->
  0 <= r < 2 ^ (n + 16 * Z.of_nat (length parts)).
Proof.
  revert v n. induction parts as [|g rest IH]; intros v n Hv Hn H; cbn [parseV6_loop] in H.
  { simplify_eq. cbn [length]. by rewrite Z.mul_0_r, Z.add_0_r. }
  run_inv H. reflect_bools. apply (IH _ (n + 16)) in H.
  - cbn [length]. replace (n + 16 * Z.of_nat (S (length rest))) with (n + 16 + 16 * Z.of_nat (length rest)) by lia.
    done.
  - unfold V6_GROUP_RE in *. reflect_bools. pose proof (from_hex_bounds g ltac:(done)).
    assert (16 ^ js_length g <= 16 ^ 4) by (apply Z.pow_le_mono_r; lia).
    rewrite shiftl_pow, Z.pow_add_r by lia. change (2 ^ 16) with 65536. lia.
  - lia.
Qed.

Lemma parseV6_trailing_bounds parts tailParts dd e rest t :
  parseV6_trailing parts tailParts dd e = Some (rest, Some t) -> 0 <= t < 2 ^ 32.
Proof.
  unfold parseV6_trailing. intros H. run_inv H; simplify_eq. by eapply parseV4_bounds.
Qed.

Lemma parseV6_bounds s e r : parseV6 s e = Some r -> 0 <= r < 2 ^ 128.
Proof.
  unfold parseV6. intros H. destruct (negb _); [done|]. cbv zeta in H.
  destruct (parseV6_trailing _ _ _ _) as [[parts trailing]|] eqn:Et; [|done].
  destruct (_ && _); [done|]. destruct (negb _) eqn:El; [done|].
  destruct (parseV6_loop _ 0) as [v|] eqn:Ev; [|done].
  apply (parseV6_loop_bounds _ 0 _ 0) in Ev; [|simpl; lia..]. rewrite Z.add_0_l in Ev.
  reflect_bools. rewrite El in Ev. destruct trailing as [t|]; simplify_eq; [|done].
  assert (0 <= t < 2 ^ 32) as Ht.
  { by eapply parseV6_trailing_bounds. }
  rewrite shiftl_pow by lia. change (2 ^ (16 * 6)) with (2 ^ 96) in Ev.
  change (2 ^ 128) with (2 ^ 96 * 2 ^ 32). nia.
Qed.

(** Words that are hextets are not a dotted quad. *)
Lemma parseV6_trailing_hextets parts tailParts dd e :
  Forall hextet_word parts -> parseV6_trailing parts tailParts dd e = Some (parts, None).
Proof.
  intros Hp. unfold parseV6_trailing. destruct (last parts) as [w|] eqn:El; [|done].
  assert (hextet_word w) as Hw.
  { rewrite Forall_forall in Hp. apply Hp. by apply last_Some_elem_of. }
  by destruct (hextet_word_clean w "." Hw eq_refl) as [_ ->].
Qed.

Definition clean_parts (l : list string) : Prop := Forall hextet_word l.

Lemma clean_joined l : clean_parts l -> join ":" l = "" /\ l = [] \/ joined ":" (join ":" l) /\ l <> [].
Proof.
  intros Hl. destruct l as [|w l]; [by left|]. right. split; [|done]. apply joined_join; [done|].
  eapply Forall_impl; [exact Hl|]. intros v Hv. by apply (hextet_word_clean v ":" Hv).
Qed.

Lemma split_clean l :
  clean_parts l -> (if String.eqb (join ":" l) "" then [] else split_char ":" (join ":" l)) = l.
Proof.
  intros Hl. destruct (clean_joined l Hl) as [[-> ->]|[Hj Hne]]; [done|].
  destruct (joined_head _ _ Hj) as (a & s & Hs & _). destruct (String.eqb_spec (join ":" l) "").
  { congruence. }
  apply split_char_join; [done|]. eapply Forall_impl; [exact Hl|]. intros w Hw.
  by destruct (hextet_word_clean w ":" Hw eq_refl).
Qed.

(** Reading back a literal with [::]: the gap is filled with zero groups. *)
Lemma parseV6_compressed h t e :
  clean_parts h -> clean_parts t -> (length h + length t < 8)%nat ->
  parseV6 (join ":" h +:+ "::" +:+ join ":" t) e =
  parseV6_loop (h ++ replicate (8 - length h - length t) "0" ++ t) 0.
Proof.
  intros Hh Ht Hlen. unfold parseV6.
  destruct (double_index ":" (join ":" h) (join ":" t)) as [H1 H2].
  { destruct (clean_joined h Hh) as [[-> _]|[? _]]; auto. }
  { destruct (clean_joined t Ht) as [[-> _]|[? _]]; auto. }
  cbv zeta in H1, H2. rewrite H1, H2. rewrite bool_decide_true by done. cbn [negb].
  rewrite take_string_app, drop_string_add, drop_string_app. cbn [drop_string append].
  rewrite !split_clean by done. rewrite parseV6_trailing_hextets by (by apply Forall_app).
  rewrite length_app. replace (8 - Z.of_nat (length h + length t)) with (Z.of_nat (8 - length h - length t)) by lia.
  destruct (Z.ltb_spec (Z.of_nat (8 - length h - length t)) 1); [lia|]. cbn [andb].
  rewrite take_app_length, drop_app_length, Nat2Z.id.
  destruct (Z.eqb_spec (Z.of_nat (length (h ++ replicate (8 - length h - length t) "0" ++ t))) 8) as [He|He].
  - cbn [negb]. by destruct (parseV6_loop _ 0).
  - rewrite !length_app, length_replicate in He. lia.
Qed.

Lemma parseV6_full g e :
  clean_parts g -> length g = 8%nat -> parseV6 (join ":" g) e = parseV6_loop g 0.
Proof.
  intros Hg Hlen. unfold parseV6.
  destruct (clean_joined g Hg) as [[_ ->]|[Hj Hne]]; [done|].
  rewrite (joined_no_double _ _ Hj). rewrite (proj2 (last_index_of_None "::" (join ":" g) ltac:(done)) (joined_no_double _ _ Hj)).
  rewrite bool_decide_true by done. cbn [negb]. rewrite split_clean by done.
  rewrite parseV6_trailing_hextets by done. cbn [andb]. rewrite Hlen. cbn [negb Z.eqb].
  simpl. by destruct (parseV6_loop g 0).
Qed.

(** ** Zero compression (RFC 5952, section 4.2) *)

(** The groups [s .. s + n - 1] are all zero. *)
Definition zero_run (groups : list string) (s n : nat) : Prop :=
  (s + n <= 8)%nat /\ forall k, (s <= k < s + n)%nat -> is_zero_group groups k = true.

(** [start], [len] describe the leftmost longest run among those that begin
    before [i], none of which reaches past [i]. *)
Definition best_before (groups : list string) (i : nat) (start : Z) (len : nat) : Prop :=
  (i <= 8)%nat /\
  (len = O \/ exists s, start = Z.of_nat s /\ zero_run groups s len /\ (s + len <= i)%nat) /\
  (forall s n, (0 < n)%nat -> zero_run groups s n -> (s < i)%nat ->
     (s + n <= i)%nat /\ (n <= len)%nat /\ (n = len -> start <= Z.of_nat s)).

Lemma run_end_spec groups fuel j :
  (8 - j <= fuel)%nat -> (j <= 8)%nat ->
  let e := run_end fuel groups j in
  (j <= e <= 8)%nat /\ (forall k, (j <= k < e)%nat -> is_zero_group groups k = true) /\
  ((e < 8)%nat -> is_zero_group groups e = false).
Proof.
  revert j. induction fuel as [|fuel IH]; intros j Hf Hj; cbn zeta; cbn [run_end].
  { split; [lia|]. split; intros; lia. }
  destruct (Nat.ltb_spec j 8); cbn [andb].
  - destruct (is_zero_group groups j) eqn:Hz.
    + destruct (IH (S j)) as (H1 & H2 & H3); [lia..|]. split; [lia|]. split; [|done].
      intros k Hk. destruct (decide (k = j)) as [->|]; [done|]. apply H2. lia.
    + split; [lia|]. split; [intros; lia|done].
  - split; [lia|]. split; intros; lia.
Qed.

Lemma best_before_skip groups i start len :
  (i < 8)%nat -> is_zero_group groups i = false ->
  best_before groups i start len -> best_before groups (S i) start len.
Proof.
  intros Hi Hz (Hi8 & Hb & Hall). split; [lia|]. split.
  - destruct Hb as [?|(s & ? & ? & ?)]; [by left|]. right. exists s. split_and!; auto.
  - intros s n Hn Hr Hs. destruct (decide (s = i)) as [->|].
    + destruct Hr as [_ Hr]. rewrite (Hr i) in Hz by lia. done.
    + destruct (Hall s n Hn Hr) as (? & ? & ?); [lia|]. split_and!; [lia|done|done].
Qed.

Lemma best_before_run groups i j start len :
  (i < j <= 8)%nat -> (forall k, (i <= k < j)%nat -> is_zero_group groups k = true) ->
  ((j < 8)%nat -> is_zero_group groups j = false) ->
  best_before groups i start len ->
  if (len <? j - i)%nat then best_before groups j (Z.of_nat i) (j - i)
  else best_before groups j start len.
Proof.
  intros Hij Hz Hend (Hi8 & Hb & Hall).
  assert (forall s n, (0 < n)%nat -> zero_run groups s n -> (s < j)%nat ->
    (s < i /\ s + n <= i)%nat \/ (i <= s /\ s + n <= j)%nat) as Hsplit.
  { intros s n Hn Hr Hs. destruct (decide (s < i)%nat).
    - left. by destruct (Hall s n Hn Hr) as (? & _).
    - right. split; [lia|]. destruct (decide (s + n <= j)%nat); [done|].
      destruct Hr as [? Hr]. assert (is_zero_group groups j = true) by (apply Hr; lia).
      rewrite Hend in * by lia. done. }
  destruct (Nat.ltb_spec len (j - i)); (split; [lia|]; split).
  - right. exists i. split; [done|]. split; [|lia]. split; [lia|]. intros k Hk. apply Hz. lia.
  - intros s n Hn Hr Hs. destruct (Hsplit s n Hn Hr Hs) as [[? ?]|[? ?]]; [|split_and!; lia].
    destruct (Hall s n Hn Hr) as (? & ? & ?); [lia|]. split_and!; lia.
  - destruct Hb as [?|(s & ? & ? & ?)]; [by left|]. right. exists s. split_and!; [done..|lia].
  - intros s n Hn Hr Hs. destruct (Hsplit s n Hn Hr Hs) as [[? ?]|[? ?]].
    + destruct (Hall s n Hn Hr) as (? & ? & ?); [lia|]. split_and!; [lia..|done].
    + split_and!; [lia..|]. intros ->. destruct Hb as [->|(s' & -> & _ & ?)]; lia.
Qed.

Lemma best_run_spec groups fuel i start len :
  (9 - i <= fuel)%nat -> best_before groups i start len ->
  let '(s, n) := best_run fuel groups i start len in best_before groups 8 s n.
Proof.
  revert i start len. induction fuel as [|fuel IH]; intros i start len Hf Hinv.
  { destruct Hinv. lia. }
  cbn [best_run]. destruct (Nat.ltb_spec i 8) as [Hi|Hi]; cbn [negb].
  2:{ by replace 8%nat with i by (destruct Hinv; lia). }
  destruct (is_zero_group groups i) eqn:Hz; cbn [negb].
  - destruct (run_end_spec groups 8 i) as (He & Hzs & Hend); [lia..|].
    set (j := run_end 8 groups i) in *.
    assert (i < j)%nat as Hij.
    { destruct (decide (i = j)) as [Heq|]; [|lia]. rewrite <- Heq in Hend. rewrite Hend in Hz by lia. done. }
    pose proof (best_before_run groups i j start len ltac:(lia) Hzs Hend Hinv) as Hb.
    destruct (len <? j - i)%nat; apply IH; auto; lia.
  - apply IH; [lia|]. by apply best_before_skip.
Qed.

Lemma best_run_start groups : best_before groups 0 (-1) 0.
Proof. split; [lia|]. split; [by left|]. intros. lia. Qed.

Lemma zero_run_replicate groups s n :
  length groups = 8%nat -> zero_run groups s n ->
  groups = take s groups ++ replicate n "0" ++ drop (s + n) groups.
Proof.
  intros Hlen [Hsn Hz]. rewrite <- (take_drop s groups) at 1. f_equal.
  rewrite <- (take_drop n (drop s groups)) at 1. rewrite drop_drop. f_equal.
  apply list_eq_same_length with n; [by rewrite length_replicate|rewrite length_take, length_drop; lia|].
  intros i x y Hi Hx Hy. rewrite lookup_take in Hx. case_decide; [|lia]. rewrite lookup_drop in Hx.
  apply lookup_replicate in Hy as [-> _]. specialize (Hz (s + i)%nat ltac:(lia)).
  unfold is_zero_group in Hz. rewrite Hx in Hz. by apply String.eqb_eq.
Qed.

(** What [compress] writes. *)
Lemma compress_cases groups :
  length groups = 8%nat ->
  compress groups = join ":" groups \/
  exists s n, (2 <= n)%nat /\ (s + n <= 8)%nat /\
    groups = take s groups ++ replicate n "0" ++ drop (s + n) groups /\
    compress groups = join ":" (take s groups) +:+ "::" +:+ join ":" (drop (s + n) groups).
Proof.
  intros Hlen. unfold compress.
  pose proof (best_run_spec groups 9 0 (-1) 0 ltac:(lia) (best_run_start groups)) as Hb.
  destruct (best_run 9 groups 0 (-1) 0) as [start len].
  destruct (Nat.leb_spec 2 len) as [H2|H2]; [|by left]. right.
  destruct Hb as (_ & [?|(s & -> & Hr & ?)] & _); [lia|].
  exists s, len. rewrite Nat2Z.id. split_and!; [done|lia| |done]. by apply zero_run_replicate.
Qed.

(** ** Round trips through text *)

Lemma clean_take n l : clean_parts l -> clean_parts (take n l).
Proof. apply Forall_take. Qed.
Lemma clean_drop n l : clean_parts l -> clean_parts (drop n l).
Proof. apply Forall_drop. Qed.

Lemma parseV6_compress groups e :
  clean_parts groups -> length groups = 8%nat -> parseV6 (compress groups) e = parseV6_loop groups 0.
Proof.
  intros Hc Hlen. destruct (compress_cases groups Hlen) as [->|(s & n & Hn & Hsn & Heq & ->)].
  - by apply parseV6_full.
  - rewrite parseV6_compressed by (auto using clean_take, clean_drop || (rewrite length_take, length_drop; lia)).
    rewrite length_take, length_drop, Hlen. rewrite Heq at 3.
    by replace (8 - s `min` 8 - (8 - (s + n)))%nat with n by lia.
Qed.

Lemma length_hextets v : length (hextets_of v) = 8%nat.
Proof. done. Qed.

(** Text that has none of the characters [parseIp] treats specially. *)
Lemma parseIp_plain opts s :
  all_chars (fun c => negb (is_space c)) s = true -> has_char "%" s = false -> s <> "" ->
  parseIp opts s = parseIp_address opts s None.
Proof.
  intros Hs Hp Hne. unfold parseIp. rewrite trim_no_space by done.
  destruct (String.eqb_spec s ""); [done|]. by rewrite index_of_char_None.
Qed.

(** The characters of a rendered address. *)
Definition address_char (c : ascii) : bool := is_hex c || Ascii.eqb c ":" || Ascii.eqb c ".".

Lemma address_char_no_space c : address_char c = true -> negb (is_space c) = true.
Proof.
  unfold address_char. intros Hc. apply negb_true_iff. apply not_true_is_false. intros Hs.
  apply orb_true_iff in Hc as [Hc|Hc%Ascii.eqb_eq]; [|by subst].
  apply orb_true_iff in Hc as [Hc|Hc%Ascii.eqb_eq]; [|by subst].
  unfold is_hex, is_digit, in_range, is_space in *.
  destruct (Z.eqb_spec (code c) 32), (Z.eqb_spec (code c) 160); unfold in_range in *; split_leb; simpl in *; lia || done.
Qed.

Lemma compress_chars groups :
  clean_parts groups -> length groups = 8%nat ->
  all_chars address_char (compress groups) = true /\ has_char ":" (compress groups) = true.
Proof.
  intros Hc Hlen.
  assert (forall l, clean_parts l -> all_chars address_char (join ":" l) = true) as Hj.
  { intros l Hl. apply all_chars_join; [done|]. eapply Forall_impl; [exact Hl|]. intros w Hw.
    unfold hextet_word, V6_GROUP_RE in Hw. reflect_bools. eapply all_chars_impl; [|done].
    intros c Hh. unfold address_char. by rewrite Hh. }
  destruct (compress_cases groups Hlen) as [->|(s & n & _ & _ & _ & ->)].
  - split; [by apply Hj|]. destruct groups as [|w [|v l]]; [done..|]. apply has_char_join_sep.
  - rewrite !all_chars_app, !Hj by auto using clean_take, clean_drop. split; [done|].
    rewrite !has_char_app. simpl. by rewrite orb_true_r.
Qed.

Lemma v4_chars v : all_chars (fun c => is_digit c || Ascii.eqb c ".") (join "." (octets_of v)) = true.
Proof.
  apply all_chars_join; [done|]. eapply Forall_impl; [apply octets_of_words|]. intros w [Hw _].
  unfold V4_OCTET_RE in Hw. reflect_bools. eapply all_chars_impl; [|done]. by intros c ->.
Qed.

(** The range that folds to IPv4. *)
Definition is_v4_mapped (v : Z) : bool := (V4_MAPPED_PREFIX <=? v) && (v <=? V4_MAPPED_LAST).

Lemma mapped_test v :
  0 <= v < 2 ^ 128 -> (Z.land v V4_MAPPED_MASK =? V4_MAPPED_PREFIX) = is_v4_mapped v.
Proof.
  intros Hv. change V4_MAPPED_MASK with (2 ^ 128 - 2 ^ 32). rewrite land_high_mask by lia.
  unfold is_v4_mapped. change V4_MAPPED_LAST with (V4_MAPPED_PREFIX + (2 ^ 32 - 1)).
  change V4_MAPPED_PREFIX with (65535 * 2 ^ 32).
  pose proof (Z_div_mod_eq_full v (2 ^ 32)). pose proof (Z.mod_pos_bound v (2 ^ 32) ltac:(lia)).
  apply eq_bool_prop_intro. rewrite andb_True, !Is_true_true, Z.eqb_eq, !Z.leb_le. lia.
Qed.

(** A number that has a spelling in the family of [bits]: [mapV4] makes an
    IPv4-mapped number the spelling of an IPv4 address. *)
Definition representable (opts : ParseOptions) (v b : Z) : Prop :=
  b = IPV4_BITS /\ 0 <= v < 2 ^ 32 \/
  b = IPV6_BITS /\ 0 <= v < 2 ^ 128 /\ (mapV4 opts = true -> is_v4_mapped v = false).

Lemma formatIp_chars v b : all_chars address_char (formatIp v b) = true.
Proof.
  unfold formatIp. destruct (b =? IPV4_BITS).
  - eapply all_chars_impl; [|apply v4_chars]. intros c Hc. unfold address_char, is_hex.
    apply orb_true_iff in Hc as [Hc|Hc]; rewrite Hc; [done|]. by rewrite orb_true_r.
  - apply compress_chars; [apply hextets_of_words|done].
Qed.

Lemma formatIp_nonempty v b : formatIp v b <> "".
Proof.
  unfold formatIp. destruct (b =? IPV4_BITS).
  - unfold octets_of. cbn [map join]. intros He. apply (f_equal String.length) in He.
    rewrite !length_app_str in He. cbn [String.length] in He. lia.
  - intros He. pose proof (compress_chars (hextets_of v)) as [_ Hc]; [apply hextets_of_words|done|].
    by rewrite He in Hc.
Qed.

Lemma formatIp_no_char c v b : address_char c = false -> has_char c (formatIp v b) = false.
Proof. intros Hc. eapply has_char_class; [exact Hc|apply formatIp_chars]. Qed.

Lemma parseIp_formatIp opts v b :
  representable opts v b -> parseIp opts (formatIp v b) = Some (mkParsedIp v b None).
Proof.
  intros Hr. rewrite parseIp_plain.
  - unfold parseIp_address, formatIp. destruct Hr as [[-> Hv]|(-> & Hv & Hm)]; simpl (_ =? _); cbv iota.
    + rewrite (has_char_class ":" _ _ eq_refl (v4_chars v)). by rewrite parseV4_format.
    + destruct (compress_chars (hextets_of v)) as [_ ->]; [apply hextets_of_words|done|].
      rewrite parseV6_compress by (apply hextets_of_words || done).
      rewrite parseV6_loop_hextets, mapped_test by done.
      destruct (mapV4 opts); [by rewrite Hm|done].
  - eapply all_chars_impl; [apply address_char_no_space|apply formatIp_chars].
  - by apply formatIp_no_char.
  - apply formatIp_nonempty.
Qed.

(** What [parseIp] accepts is in range and, with [mapV4], never mapped. *)
Lemma parseIp_representable opts s p :
  parseIp opts s = Some p -> representable opts (value p) (bits p).
Proof.
  assert (forall s z, parseIp_address opts s z = Some p -> representable opts (value p) (bits p)) as Ha.
  { intros s' z H. unfold parseIp_address in H. destruct (has_char ":" s').
    - destruct (parseV6 s' _) as [v|] eqn:Hv; [|done]. apply parseV6_bounds in Hv.
      rewrite mapped_test in H by done. destruct (mapV4 opts && is_v4_mapped v) eqn:Hm; simplify_eq; simpl.
      + left. split; [done|]. change 4294967295 with (2 ^ 32 - 1).
        rewrite land_ones_mod by lia. by apply Z.mod_pos_bound.
      + right. split; [done|]. split; [done|]. intros Ho. rewrite Ho in Hm. done.
    - destruct z; [done|]. destruct (parseV4 s') as [v|] eqn:Hv; [|done]. simplify_eq. simpl.
      left. split; [done|]. by eapply parseV4_bounds. }
  unfold parseIp. intros H. repeat case_match; simplify_eq; eauto.
Qed.

Lemma parseIp_bits opts s p : parseIp opts s = Some p -> bits p = IPV4_BITS \/ bits p = IPV6_BITS.
Proof. intros H. apply parseIp_representable in H as [[-> _]|[-> _]]; auto. Qed.

(** ** Properties *)

(** C32. Printing and reading an address is the identity: whatever number and
    family [formatIp] renders, [parseIp] reads the same number and family
    back, with no zone id, under any options that leave that family alone. *)
Theorem print_parse_roundtrip opts v b :
  representable opts v b -> parseIp opts (formatIp v b) = Some (mkParsedIp v b None).
Proof. apply parseIp_formatIp. Qed.

Lemma print_parse_roundtrip_witness :
  parseIp default_options (formatIp 42540766411282592856903984951653826561 128)
  = Some (mkParsedIp 42540766411282592856903984951653826561 128 None).
Proof.
  apply print_parse_roundtrip. right. split; [reflexivity|]. split; [lia|].
  intros _. vm_compute. reflexivity.
Defined.

Lemma formatIp_inj v b w c :
  representable default_options v b -> representable default_options w c ->
  formatIp v b = formatIp w c -> v = w /\ b = c.
Proof.
  intros Hv Hw He. apply (f_equal (parseIp default_options)) in He.
  rewrite !parseIp_formatIp in He by done. by simplify_eq.
Qed.

(** [canonicalizeIp] gives every address one spelling: two accepted
    strings have the same canonical form exactly when they name the same
    number in the same family, and a canonical form is its own. *)
Theorem canonical_form_identifies s t p q :
  parseIp default_options s = Some p -> parseIp default_options t = Some q ->
  (canonicalizeIp s = canonicalizeIp t <-> value p = value q /\ bits p = bits q) /\
  (forall c, canonicalizeIp s = Some c -> canonicalizeIp c = Some c).
Proof.
  intros Hp Hq. unfold canonicalizeIp. rewrite Hp, Hq.
  apply parseIp_representable in Hp, Hq. split.
  - split; [|by intros [-> ->]]. intros He. simplify_eq. by apply formatIp_inj.
  - intros c Hc. simplify_eq. by rewrite parseIp_formatIp.
Qed.

Lemma canonical_form_identifies_witness :
  canonicalizeIp "FE80:0::1" = canonicalizeIp "fe80::0001%eth0".
Proof.
  destruct (canonical_form_identifies "FE80:0::1" "fe80::0001%eth0"
    (mkParsedIp 338288524927261089654018896841347694593 128 None)
    (mkParsedIp 338288524927261089654018896841347694593 128 (Some "eth0"))) as [[_ H] _].
  - vm_compute. reflexivity.
  - vm_compute. reflexivity.
  - apply H. split; reflexivity.
Defined.

(** [formatIp] zero-compresses as RFC 5952 4.2 asks: the groups [::]
    stands for are a run of at least two zero groups, no run is longer, the
    runs as long start no earlier; with no such run nothing is compressed. *)
Theorem compress_leftmost_longest groups :
  length groups = 8%nat ->
  (compress groups = join ":" groups /\ forall s n, zero_run groups s n -> (n <= 1)%nat) \/
  exists s n, compress groups = join ":" (take s groups) +:+ "::" +:+ join ":" (drop (s + n) groups) /\
    zero_run groups s n /\ (2 <= n)%nat /\
    forall s' n', zero_run groups s' n' -> (n' <= n)%nat /\ (n' = n -> (s <= s')%nat).
Proof.
  intros Hlen. unfold compress.
  pose proof (best_run_spec groups 9 0 (-1) 0 ltac:(lia) (best_run_start groups)) as Hb.
  destruct (best_run 9 groups 0 (-1) 0) as [start len]. destruct Hb as (_ & Hsome & Hall).
  assert (forall s n, zero_run groups s n -> (0 < n)%nat -> (n <= len)%nat /\ (n = len -> start <= Z.of_nat s)) as Hbest.
  { intros s n Hr Hn. destruct (Hall s n Hn Hr) as (? & ? & ?); [destruct Hr; lia|done]. }
  destruct (Nat.leb_spec 2 len) as [H2|H2].
  - right. destruct Hsome as [?|(s & -> & Hr & _)]; [lia|]. exists s, len. rewrite Nat2Z.id.
    split_and!; [done..|]. intros s' n' Hr'. destruct (decide (0 < n')%nat); [|lia].
    destruct (Hbest s' n' Hr'); lia.
  - left. split; [done|]. intros s n Hr. destruct (decide (0 < n)%nat); [|lia].
    destruct (Hbest s n Hr); lia.
Qed.

Lemma compress_leftmost_longest_witness :
  compress ["1"; "0"; "0"; "2"; "0"; "0"; "0"; "3"] = "1:0:0:2::3" /\
  zero_run ["1"; "0"; "0"; "2"; "0"; "0"; "0"; "3"] 4 3.
Proof.
  split; [vm_compute; reflexivity|].
  destruct (compress_leftmost_longest ["1"; "0"; "0"; "2"; "0"; "0"; "0"; "3"] eq_refl)
    as [[H _]|(s & n & Hc & Hr & Hn & Hmax)]; [vm_compute in H; discriminate|].
  assert (zero_run ["1"; "0"; "0"; "2"; "0"; "0"; "0"; "3"] 4 3) as H43.
  { split; [lia|]. intros k Hk. assert (k = 4 \/ k = 5 \/ k = 6)%nat as [-> | [-> | ->]] by lia; reflexivity. }
  exact H43.
Defined.

(** The order [ORDER BY] is meant to give: family first, then the number. *)
Definition address_compare (p q : ParsedIp) : comparison :=
  match family_of_bits (bits p) ?= family_of_bits (bits q) with
  | Eq => value p ?= value q
  | c => c
  end.

(** Sort keys compare, byte by byte, as the addresses compare: every IPv4
    address before every IPv6 one, numerically within a family. *)
Theorem sort_key_order s t p q :
  parseIp default_options s = Some p -> parseIp default_options t = Some q ->
  exists ks kt, sortKey s = Some ks /\ sortKey t = Some kt /\
    String.length ks = 33%nat /\ String.compare ks kt = address_compare p q.
Proof.
  intros Hp Hq. unfold sortKey. rewrite Hp, Hq. eexists _, _. split_and!; [done..| |].
  - apply parseIp_representable in Hp. cbn [append]. rewrite length_app_str, length_pad_start.
    + by destruct (bits p =? IPV4_BITS).
    + pose proof (length_to_base 16 ltac:(lia) (value p) 32) as HL. unfold hex.
      destruct Hp as [[_ ?]|(_ & ? & _)]; lia.
  - assert (forall r, representable default_options (value r) (bits r) -> 0 <= value r < 16 ^ Z.of_nat 32) as Hb.
    { intros r [[_ ?]|(_ & ? & _)]; lia. }
    apply parseIp_representable in Hp as Hp', Hq as Hq'. apply parseIp_bits in Hp, Hq.
    unfold address_compare, family_of_bits.
    destruct Hp as [-> | ->], Hq as [-> | ->]; simpl; try done;
      by rewrite compare_pad_hex by (auto || lia).
Qed.

Lemma sort_key_order_witness :
  exists ks kt, sortKey "10.0.0.2" = Some ks /\ sortKey "::1" = Some kt /\
    String.length ks = 33%nat /\
    String.compare ks kt = address_compare (mkParsedIp 167772162 32 None) (mkParsedIp 1 128 None).
Proof. apply sort_key_order; vm_compute; reflexivity. Defined.
