(* ===== verification/Cidr.v ===== *)
(** * CIDR arithmetic: [server/src/utils/cidr.js]

    The family-generic layer (parse, contain, overlap, subtract, split,
    merge, bounds) and the IPv4 wrappers over it. Arguments are strings, so
    the [typeof ip !== 'string'] guards are the types; a thrown [Error] is a
    constructor of [cidr_error]. *)

From S2P Require Import Prelude JsString Address.

(** ** Errors *)

Inductive cidr_error :=
| InvalidAddress (ip : string)
| InvalidNotation (cidr : string)
| InvalidPrefixLength (prefix : Z)
| ChildNotWithinParent
| ChildPrefixNotLonger
| BadNewPrefix (newPrefix : option Z) (prefix bits : Z)
| TooManyNetworks (maxCount : Z).

(** ** Address primitives *)

Record Address := mkAddress { a_value : Z; a_bits : Z; a_family : Z }.

Definition addressToBig (ip : string) : result cidr_error Address :=
  match parseIp no_zone ip with
  | None => Err (InvalidAddress ip)
  | Some parsed => Ok (mkAddress (value parsed) (bits parsed) (family_of_bits (bits parsed)))
  end.

Definition bigToAddress (v family : Z) : string :=
  formatIp v (if family =? 6 then IPV6_BITS else IPV4_BITS).

Definition longToIp (long : Z) : string :=
  join "." (map (fun shift => dec (Z.land (Z.shiftr long shift) 255)) [24; 16; 8; 0]).

(** [ipToLong]: a part may be any numeral [Number] reads, [<<] drops its
    fraction, and [>>> 0] reads the 32 bits as unsigned. *)
Definition ipToLong (ip : string) : result cidr_error Z :=
  match map js_number (split_char "." ip) with
  | [Some a; Some b; Some c; Some d] =>
      if existsb (fun p => (fst p <? 0) || (255 * snd p <? fst p)) [a; b; c; d] then Err (InvalidAddress ip)
      else
        let int := fun p => Z.quot (fst p) (snd p) in
        Ok (Z.land (Z.lor (Z.lor (Z.lor (Z.shiftl (int a) 24) (Z.shiftl (int b) 16)) (Z.shiftl (int c) 8)) (int d)) (2 ^ 32 - 1))
  | _ => Err (InvalidAddress ip)
  end.

(** ** Parsed networks *)

Definition MAX_SAFE : Z := 2 ^ 53 - 1.
Definition safeNumber (big : Z) : option Z := if big <=? MAX_SAFE then Some big else None.

(** The fields only IPv4 results carry. *)
Record LegacyV4 := mkLegacyV4
  { broadcast : string; networkLong : Z; broadcastLong : Z; totalAddresses : Z; usableCount : Z }.

Record Network := mkNetwork
  { family : Z; nbits : Z; prefix : Z;
    network : string; cidr : string; mask : string; first : string; last : string;
    firstUsable : string; lastUsable : string;
    size : option Z; usable : option Z;
    networkBig : Z; lastBig : Z; sizeBig : Z; usableBig : Z;
    legacy : option LegacyV4 }.

#[export] Instance LegacyV4_eq_dec : EqDecision LegacyV4.
Proof. solve_decision. Defined.
#[export] Instance Network_eq_dec : EqDecision Network.
Proof. solve_decision. Defined.

(** The arithmetic of [parseNetwork], once the address and prefix are known. *)
Definition buildNetwork (value bits family prefix : Z) : Network :=
  let all := Z.shiftl 1 bits - 1 in
  let mask := if prefix =? 0 then 0 else Z.land (Z.shiftl all (bits - prefix)) all in
  let network := Z.land value mask in
  let last := Z.lor network (Z.lxor all mask) in
  let size := last - network + 1 in
  let reservesEndpoints := prefix <? bits - 1 in
  let firstUsableBig := if reservesEndpoints then network + 1 else network in
  let lastUsableBig := if reservesEndpoints && (family =? 4) then last - 1 else last in
  let usable := lastUsableBig - firstUsableBig + 1 in
  {| family := family; nbits := bits; prefix := prefix;
     network := bigToAddress network family;
     cidr := bigToAddress network family +:+ "/" +:+ dec prefix;
     mask := bigToAddress mask family;
     first := bigToAddress network family;
     last := bigToAddress last family;
     firstUsable := bigToAddress firstUsableBig family;
     lastUsable := bigToAddress lastUsableBig family;
     size := safeNumber size; usable := safeNumber usable;
     networkBig := network; lastBig := last; sizeBig := size; usableBig := usable;
     legacy := if family =? 4
               then Some {| broadcast := bigToAddress last family;
                            networkLong := network; broadcastLong := last;
                            totalAddresses := size; usableCount := usable |}
               else None |}.

Definition parseNetwork (cidr : string) : result cidr_error Network :=
  match last_index_of "/" cidr with
  | None => Err (InvalidNotation cidr)
  | Some slash =>
      if (slash <? 1)%nat || (slash =? String.length cidr - 1)%nat then Err (InvalidNotation cidr)
      else
        let prefixText := drop_string (slash + 1) cidr in
        if negb (all_digits1 prefixText) then Err (InvalidNotation cidr)
        else match addressToBig (take_string slash cidr) with
             | Err _ => Err (InvalidNotation cidr)
             | Ok address =>
                 let prefix := from_base 10 prefixText in
                 let folded := (a_family address =? 4) && has_char ":" cidr in
                 if folded && (prefix <? 96) then Err (InvalidPrefixLength prefix)
                 else
                   let prefix := if folded then prefix - 96 else prefix in
                   if (prefix <? 0) || (a_bits address <? prefix) then Err (InvalidPrefixLength prefix)
                   else Ok (buildNetwork (a_value address) (a_bits address) (a_family address) prefix)
             end
  end.

Definition isValidNetwork (cidr : string) : bool := is_ok (parseNetwork cidr).

Definition normalizeNetwork (c : string) : result cidr_error string :=
  net ← parseNetwork c; mret (cidr net).

Definition networkContains (c ip : string) : result cidr_error bool :=
  net ← parseNetwork c;
  address ← addressToBig ip;
  if negb (a_family address =? family net) then mret false
  else mret ((networkBig net <=? a_value address) && (a_value address <=? lastBig net)).

Definition networksOverlap (cidrA cidrB : string) : result cidr_error bool :=
  a ← parseNetwork cidrA;
  b ← parseNetwork cidrB;
  if negb (family a =? family b) then mret false
  else mret ((networkBig a <=? lastBig b) && (networkBig b <=? lastBig a)).

Definition isNetworkWithin (childCidr parentCidr : string) : result cidr_error bool :=
  child ← parseNetwork childCidr;
  parent ← parseNetwork parentCidr;
  if negb (family child =? family parent) then mret false
  else mret ((networkBig parent <=? networkBig child) && (lastBig child <=? lastBig parent)
             && (prefix parent <? prefix child)).

(** The text of one block, [`${bigToAddress(net, family)}/${prefix}`]. *)
Definition cidrText (net family prefix : Z) : string :=
  bigToAddress net family +:+ "/" +:+ dec prefix.

(** The loop of [subtractNetwork]: [currentNet] and [currentPrefix] walk from
    the parent down to the child. *)
Fixpoint subtract_loop (fuel : nat) (bits family childNet childPrefix currentNet currentPrefix : Z)
    : list string :=
  match fuel with
  | O => []
  | S fuel' =>
      if currentPrefix <? childPrefix then
        let nextPrefix := currentPrefix + 1 in
        let halfSize := Z.shiftl 1 (bits - nextPrefix) in
        let midpoint := currentNet + halfSize in
        if midpoint <=? childNet
        then cidrText currentNet family nextPrefix
               :: subtract_loop fuel' bits family childNet childPrefix midpoint nextPrefix
        else cidrText midpoint family nextPrefix
               :: subtract_loop fuel' bits family childNet childPrefix currentNet nextPrefix
      else []
  end.

Definition subtractNetwork (parentCidr childCidr : string) : result cidr_error (list string) :=
  parent ← parseNetwork parentCidr;
  child ← parseNetwork childCidr;
  if negb (family child =? family parent) then Err ChildNotWithinParent
  else if (networkBig child <? networkBig parent) || (lastBig parent <? lastBig child)
  then Err ChildNotWithinParent
  else if prefix child <=? prefix parent then Err ChildPrefixNotLonger
  else mret (subtract_loop (Z.to_nat (prefix child - prefix parent)) (nbits parent) (family parent)
               (networkBig child) (prefix child) (networkBig parent) (prefix parent)).

(** [splitNetwork]: [newPrefix] is [None] when it is not an integer. *)
Definition splitNetwork (c : string) (newPrefix : option Z) (maxCount : Z)
    : result cidr_error (list Network) :=
  parent ← parseNetwork c;
  match newPrefix with
  | None => Err (BadNewPrefix None (prefix parent) (nbits parent))
  | Some np =>
      if (np <=? prefix parent) || (nbits parent <? np)
      then Err (BadNewPrefix newPrefix (prefix parent) (nbits parent))
      else
        let count := Z.shiftl 1 (np - prefix parent) in
        if maxCount <? count then Err (TooManyNetworks maxCount)
        else
          let childSize := Z.shiftl 1 (nbits parent - np) in
          map_result (fun i => parseNetwork (cidrText (networkBig parent + i * childSize) (family parent) np))
            (seqZ 0 count)
  end.

(** What [mergeNetworks] returns: [{ valid: true, merged_cidr }] or
    [{ valid: false, error }]. *)
Inductive MergeResult :=
| Merged (merged_cidr : string)
| Refused (error : string).

(** The neighbour checks over the sorted networks. *)
Fixpoint merge_adjacent (prev : Network) (rest : list Network) : option string :=
  match rest with
  | [] => None
  | net :: rest' =>
      if networkBig net <=? lastBig prev then Some "Networks must not overlap"
      else if negb (networkBig net =? lastBig prev + 1) then Some "Networks must be contiguous"
      else merge_adjacent net rest'
  end.

Definition mergeNetworks (cidrs : list string) : result cidr_error MergeResult :=
  if (length cidrs <? 2)%nat then mret (Refused "Need at least 2 networks to merge")
  else
    parsed ← map_result parseNetwork cidrs;
    match parsed with
    | [] => mret (Refused "Need at least 2 networks to merge")
    | head :: _ =>
        if existsb (fun net => negb (family net =? family head)) parsed
        then mret (Refused "Networks must be the same address family")
        else
          match sort_by networkBig parsed with
          | [] => mret (Refused "Need at least 2 networks to merge")
          | first :: rest =>
              match merge_adjacent first rest with
              | Some error => mret (Refused error)
              | None =>
                  let total := fold_left (fun t net => t + sizeBig net) (first :: rest) 0 in
                  if negb (Z.land total (total - 1) =? 0)
                  then mret (Refused "Network union size must be a power of 2")
                  else
                    let exponent := js_length (to_base 2 total) - 1 in
                    let newPrefix := nbits first - exponent in
                    let lastNet := List.last (first :: rest) first in
                    if negb (networkBig first mod total =? 0)
                       || negb (lastBig lastNet =? networkBig first + total - 1)
                    then mret (Refused "Networks do not align to a valid CIDR boundary")
                    else mret (Merged (network first +:+ "/" +:+ dec newPrefix))
              end
          end
    end.

Definition isValidAddress (ip : string) : bool :=
  match parseIp no_zone ip with Some _ => true | None => false end.

Definition parsedNetworkContains (parsed : Network) (ip : string) : bool :=
  match parseIp no_zone ip with
  | None => false
  | Some address =>
      if negb (family_of_bits (bits address) =? family parsed) then false
      else (networkBig parsed <=? value address) && (value address <=? lastBig parsed)
  end.

Definition topologyAddresses (parsed : Network) : list string :=
  if nbits parsed - 1 <=? prefix parsed then []
  else match legacy parsed with
       | Some l => [network parsed; broadcast l]
       | None => [network parsed]
       end.

Definition isTopologyAddress (parsed : Network) (v : Z) : bool :=
  if nbits parsed - 1 <=? prefix parsed then false
  else (v =? networkBig parsed) || ((family parsed =? 4) && (v =? lastBig parsed)).

Definition addressAtOffset (parsed : Network) (offset : Z) : string :=
  bigToAddress (networkBig parsed + offset) (family parsed).

Definition addressRangesOverlap (startA endA startB endB : string) : result cidr_error bool :=
  a0 ← addressToBig startA;
  a1 ← addressToBig endA;
  b0 ← addressToBig startB;
  b1 ← addressToBig endB;
  if negb (a_family a0 =? a_family b0) then mret false
  else mret ((a_value a0 <=? a_value b1) && (a_value b0 <=? a_value a1)).

Definition addressInRange (ip startIp endIp : string) : result cidr_error bool :=
  addressRangesOverlap ip ip startIp endIp.

Definition RESERVED_RANGES : list (string * string) :=
  [("10.0.0.0/8", "RFC1918 Class A"); ("172.16.0.0/12", "RFC1918 Class B");
   ("192.168.0.0/16", "RFC1918 Class C"); ("100.64.0.0/10", "CGNAT (RFC6598)");
   ("169.254.0.0/16", "Link-Local (RFC3927)"); ("127.0.0.0/8", "Loopback (RFC1122)");
   ("224.0.0.0/4", "Multicast (RFC5771)"); ("240.0.0.0/4", "Reserved (RFC1112)");
   ("fc00::/7", "Unique Local (RFC4193)"); ("fe80::/10", "Link-Local (RFC4291)");
   ("::1/128", "Loopback (RFC4291)"); ("ff00::/8", "Multicast (RFC4291)");
   ("2001:db8::/32", "Documentation (RFC3849)")].

(** [{ valid: true }] or [{ valid: false, error }] *)
Inductive BoundsResult := BoundsOk | BoundsBad (error : string).

(** The loop over [RESERVED_RANGES]: the first range that overlaps decides. *)
Fixpoint bounds_loop (c : string) (parsed : Network) (ranges : list (string * string))
    : result cidr_error BoundsResult :=
  match ranges with
  | [] => mret BoundsOk
  | (rcidr, rname) :: rest =>
      res ← parseNetwork rcidr;
      if negb (family res =? family parsed) then bounds_loop c parsed rest
      else
        overlap ← networksOverlap c rcidr;
        if (overlap : bool) then
          if (networkBig res <=? networkBig parsed) && (lastBig parsed <=? lastBig res)
          then mret BoundsOk
          else mret (BoundsBad (c +:+ " extends beyond " +:+ rname +:+ " (" +:+ rcidr
                                +:+ "). Supernet must be within " +:+ rcidr +:+ "."))
        else bounds_loop c parsed rest
  end.

Definition validateNetworkBounds (c : string) : result cidr_error BoundsResult :=
  parsed ← parseNetwork c;
  if (family parsed =? 6) && (networkBig parsed <=? V4_MAPPED_LAST) && (V4_MAPPED_PREFIX <=? lastBig parsed)
  then mret (BoundsBad (c +:+ " overlaps ::ffff:0:0/96, the IPv4-mapped addresses, which CIDRella reads as IPv4. Choose an IPv6 network outside it."))
  else bounds_loop c parsed RESERVED_RANGES.

(** ** The IPv4 layer *)

Definition requireIpv4 (parsed : Network) (c : string) : result cidr_error Network :=
  if negb (family parsed =? 4) then Err (InvalidNotation c) else Ok parsed.

Definition parseCidr (c : string) : result cidr_error Network :=
  parsed ← parseNetwork c; requireIpv4 parsed c.

Definition normalizeCidr (c : string) : result cidr_error string :=
  parsed ← parseCidr c; mret (cidr parsed).

Definition validateSupernet (c : string) : result cidr_error BoundsResult :=
  _ ← parseCidr c; validateNetworkBounds c.

Definition canMergeCidrs (cidrs : list string) : result cidr_error MergeResult :=
  _ ← map_result parseCidr cidrs; mergeNetworks cidrs.

Definition calculateSubnets (c : string) (newPrefix : option Z) (maxCount : Z)
    : result cidr_error (list Network) :=
  _ ← parseCidr c; splitNetwork c newPrefix maxCount.

(** [IPV4_RE = /^(\d{1,3}\.){3}\d{1,3}$/]: four groups of one to three digits. *)
Definition IPV4_RE (ip : string) : bool :=
  let groups := split_char "." ip in
  (length groups =? 4)%nat && forallb V4_OCTET_RE groups.

Definition isValidIpv4 (ip : string) : bool :=
  if negb (IPV4_RE ip) then false
  else forallb (fun o => let n := from_base 10 o in (0 <=? n) && (n <=? 255)) (split_char "." ip).

Definition isValidCidr (c : string) : bool := is_ok (parseCidr c).

Definition isSubnetOf (childCidr parentCidr : string) : result cidr_error bool :=
  _ ← parseCidr childCidr; _ ← parseCidr parentCidr; isNetworkWithin childCidr parentCidr.

Definition cidrsOverlap (cidrA cidrB : string) : result cidr_error bool :=
  _ ← parseCidr cidrA; _ ← parseCidr cidrB; networksOverlap cidrA cidrB.

Definition subtractCidr (parentCidr childCidr : string) : result cidr_error (list string) :=
  _ ← parseCidr parentCidr; _ ← parseCidr childCidr; subtractNetwork parentCidr childCidr.

Definition isIpInSubnet (ip c : string) : result cidr_error bool :=
  _ ← parseCidr c; _ ← ipToLong ip; networkContains c ip.

(** ** Network names *)

(** [replace(/(%[1-4])\.(?=%[1-4])/g, '$1:')] *)
Fixpoint colon_groups (s : string) : string :=
  match s with
  | String "%" (String d (String "." ((String "%" (String e _)) as t))) =>
      if in_range 49 52 d && in_range 49 52 e
      then String "%" (String d (String ":" (colon_groups t)))
      else String "%" (String d (String "." (colon_groups t)))
  | String c t => String c (colon_groups t)
  | "" => ""
  end.

Definition networkNameFromTemplate (template c : string) : result cidr_error string :=
  parsed ← parseNetwork c;
  let groups :=
    if family parsed =? 4 then split_char "." (network parsed)
    else map (fun i => hex (Z.land (Z.shiftr (networkBig parsed) (112 - 16 * i)) 65535)) (seqZ 0 8) in
  let group := fun i => default "" (groups !! i) in
  let template := if family parsed =? 6 then colon_groups template else template in
  let template :=
    if (family parsed =? 6) && (64 <? prefix parsed) then replace_all "%1:%2:%3:%4" "%network" template else template in
  mret (replace_all "%bitmask" (dec (prefix parsed))
    (replace_all "%4" (group 3%nat) (replace_all "%3" (group 2%nat) (replace_all "%2" (group 1%nat)
      (replace_all "%1" (group 0%nat) (replace_all "%network" (network parsed) template)))))).

Definition applyNameTemplate (template c : string) : result cidr_error string :=
  _ ← parseCidr c; networkNameFromTemplate template c.

Example names :
  map try_ok [networkNameFromTemplate "%1.%2.%3.%4/%bitmask" "10.0.16.0/20"; networkNameFromTemplate "net %1.%2 /%bitmask" "2001:db8:5::/48";
    networkNameFromTemplate "%1.%2.%3.%4/%bitmask" "2001:db8::40/122"] =
  [Some "10.0.16.0/20"; Some "net 2001:db8 /48"; Some "2001:db8::40/122"].
Proof. vm_compute. reflexivity. Qed.

(** ** DHCPv6 modes *)

Definition DHCP_V6_MODES : list string := ["stateless"; "slaac"; "stateful"].

Definition dhcpV6ModesFor (length : Z) : list string :=
  if length =? 64 then DHCP_V6_MODES
  else if 64 <? length then ["stateful"] else [].

Definition dhcpV6ModeError (length : Z) (mode : string) : option string :=
  if length <? 64 then
    Some ("A DHCPv6 scope needs a /64 or longer prefix; divide this /" +:+ dec length
          +:+ " into /64 networks first")
  else if negb (existsb (String.eqb mode) (dhcpV6ModesFor length)) then
    Some ("DHCPv6 mode " +:+ mode +:+ " requires a /64 network (SLAAC needs 64 host bits)")
  else None.

Example split_24 : option_map (map cidr) (try_ok (splitNetwork "10.1.2.9/24" (Some 26) 65536))
  = Some ["10.1.2.0/26"; "10.1.2.64/26"; "10.1.2.128/26"; "10.1.2.192/26"].
Proof. vm_compute. reflexivity. Qed.
Example subtract_24 : subtractNetwork "10.0.0.0/24" "10.0.0.192/27"
  = Ok ["10.0.0.0/25"; "10.0.0.128/26"; "10.0.0.224/27"].
Proof. vm_compute. reflexivity. Qed.
Example merge_carved : mergeNetworks ["10.0.0.192/27"; "10.0.0.0/25"; "10.0.0.128/26"; "10.0.0.224/27"]
  = Ok (Merged "10.0.0.0/24").
Proof. vm_compute. reflexivity. Qed.
Example mapped_folds : (fun n => cidr n) <$> parseNetwork "::ffff:10.0.0.7/120" = Ok "10.0.0.0/24".
Proof. vm_compute. reflexivity. Qed.

(** ** Families and addresses *)

(** The two families and their widths. *)
Inductive fam_bits : Z -> Z -> Prop :=
| fam_v4 : fam_bits 4 32
| fam_v6 : fam_bits 6 128.
#[export] Hint Constructors fam_bits : cidrella.

(** A number with a spelling in its family, as CIDR arithmetic reads it. *)
Abbreviation spellable := (representable no_zone).

Lemma fam_bits_family b : b = IPV4_BITS \/ b = IPV6_BITS -> fam_bits (family_of_bits b) b.
Proof. intros [-> | ->]; constructor. Qed.

Lemma fam_bits_inj f b f' b' : fam_bits f b -> fam_bits f' b' -> (f = f' <-> b = b').
Proof. by do 2 inversion 1. Qed.

Lemma spellable_bounds v b : spellable v b -> 0 <= v < 2 ^ b.
Proof. intros [[-> ?]|(-> & ? & _)]; done. Qed.

Lemma addressToBig_ok ip a :
  addressToBig ip = Ok a -> fam_bits (a_family a) (a_bits a) /\ spellable (a_value a) (a_bits a).
Proof.
  unfold addressToBig. destruct (parseIp no_zone ip) as [p|] eqn:Hp; [|done]. intros [= <-]. simpl.
  split; [apply fam_bits_family; by eapply parseIp_bits|by eapply parseIp_representable].
Qed.

Lemma bigToAddress_bits f b v : fam_bits f b -> bigToAddress v f = formatIp v b.
Proof. by inversion 1. Qed.

Lemma addressToBig_text f b v :
  fam_bits f b -> spellable v b -> addressToBig (bigToAddress v f) = Ok (mkAddress v b f).
Proof.
  intros Hf Hv. unfold addressToBig. rewrite (bigToAddress_bits f b) by done.
  rewrite parseIp_formatIp by done. simpl. by inversion Hf; subst.
Qed.

(** The canonical spelling of an address that parses. *)
Lemma canonical_address ip a :
  addressToBig ip = Ok a ->
  canonicalizeIp ip = Some (bigToAddress (a_value a) (a_family a)) /\
  addressToBig (bigToAddress (a_value a) (a_family a)) = Ok a.
Proof.
  intros Ha. pose proof (addressToBig_ok _ _ Ha) as [Hf Hs].
  rewrite (addressToBig_text _ _ _ Hf Hs), (bigToAddress_bits _ _ _ Hf). split; [|by destruct a].
  unfold addressToBig, canonicalizeIp, parseIp in *. destruct (String.eqb (trim ip) ""); [done|].
  destruct (index_of "%" (trim ip)); [done|]. change (parseIp_address no_zone) with (parseIp_address default_options) in Ha.
  destruct (parseIp_address default_options (trim ip) None); [|done]. by injection Ha as <-.
Qed.

Lemma bigToAddress_inj f b v w :
  fam_bits f b -> spellable v b -> spellable w b -> bigToAddress v f = bigToAddress w f -> v = w.
Proof.
  intros Hf Hv Hw He. pose proof (addressToBig_text f b v Hf Hv) as H1.
  rewrite He, (addressToBig_text f b w Hf Hw) in H1. by simplify_eq.
Qed.

(** Four octets packed into a number. *)
Lemma pack_octets a b c d :
  0 <= b < 256 -> 0 <= c < 256 -> 0 <= d < 256 ->
  Z.lor (Z.lor (Z.lor (Z.shiftl a 24) (Z.shiftl b 16)) (Z.shiftl c 8)) d = ((a * 256 + b) * 256 + c) * 256 + d.
Proof.
  intros Hb Hc Hd.
  assert (Z.lor (Z.shiftl a 24) (Z.shiftl b 16) = Z.shiftl (a * 256 + b) 16) as ->.
  { rewrite lor_shiftl_add by (rewrite ?shiftl_pow; lia). rewrite !shiftl_pow by lia. lia. }
  assert (Z.lor (Z.shiftl (a * 256 + b) 16) (Z.shiftl c 8) = Z.shiftl ((a * 256 + b) * 256 + c) 8) as ->.
  { rewrite lor_shiftl_add by (rewrite ?shiftl_pow; lia). rewrite !shiftl_pow by lia. lia. }
  rewrite lor_shiftl_add by lia. lia.
Qed.

(** [ipToLong] reads back what [longToIp] writes. *)
Lemma octets_long v :
  0 <= v < 2 ^ 32 ->
  Z.lor (Z.lor (Z.lor (Z.shiftl (Z.land (Z.shiftr v 24) 255) 24) (Z.shiftl (Z.land (Z.shiftr v 16) 255) 16))
    (Z.shiftl (Z.land (Z.shiftr v 8) 255) 8)) (Z.land (Z.shiftr v 0) 255) = v.
Proof.
  intros Hv. rewrite pack_octets by (apply octet_bounds; lia).
  pose proof (chunk_first v 24 8 255 ltac:(lia) ltac:(lia) eq_refl ltac:(lia)) as H24.
  pose proof (chunk_step v 16 8 255 24 ltac:(lia) ltac:(lia) eq_refl eq_refl) as H16.
  pose proof (chunk_step v 8 8 255 16 ltac:(lia) ltac:(lia) eq_refl eq_refl) as H8.
  pose proof (chunk_step v 0 8 255 8 ltac:(lia) ltac:(lia) eq_refl eq_refl) as H0.
  rewrite !shiftl_pow in * by lia. rewrite Z.shiftr_0_r in *. lia.
Qed.

Lemma ipToLong_text v : 0 <= v < 2 ^ 32 -> ipToLong (bigToAddress v 4) = Ok v.
Proof.
  intros Hv. unfold ipToLong, bigToAddress, formatIp. change (if 4 =? 6 then IPV6_BITS else IPV4_BITS) with IPV4_BITS. rewrite Z.eqb_refl.
  rewrite split_char_join; [|done|].
  2:{ eapply Forall_impl; [apply octets_of_words|]. intros w [Hw _]. unfold V4_OCTET_RE in Hw. reflect_bools.
      by eapply has_char_class; [|done]. }
  unfold octets_of. cbn [map]. rewrite !js_number_dec by (apply octet_bounds; lia). cbn [existsb fst snd].
  pose proof (octet_bounds v 24). pose proof (octet_bounds v 16). pose proof (octet_bounds v 8). pose proof (octet_bounds v 0).
  repeat match goal with |- context [?a <? ?b] => destruct (Z.ltb_spec a b); [lia|] end. cbn [orb].
  rewrite !Z.quot_1_r, octets_long by done. rewrite land_ones_mod by lia. by rewrite Z.mod_small.
Qed.

Lemma v4_text_no_colon v : has_char ":" (bigToAddress v 4) = false.
Proof. apply (has_char_class ":" _ _ eq_refl (v4_chars v)). Qed.

Lemma bigToAddress_no_char c v f : address_char c = false -> has_char c (bigToAddress v f) = false.
Proof. intros. by apply formatIp_no_char. Qed.

(** ** What [parseNetwork] computes *)

Section Build.
Context (v b f p : Z) (Hv : 0 <= v < 2 ^ b) (Hp : 0 <= p <= b).

Lemma build_mask_eq :
  (if p =? 0 then 0 else Z.land (Z.shiftl (Z.shiftl 1 b - 1) (b - p)) (Z.shiftl 1 b - 1)) = 2 ^ b - 2 ^ (b - p).
Proof.
  rewrite shiftl_one by lia. destruct (Z.eqb_spec p 0) as [->|].
  - rewrite Z.sub_0_r. lia.
  - by rewrite high_mask_eq by lia.
Qed.

Lemma build_networkBig : networkBig (buildNetwork v b f p) = v - v mod 2 ^ (b - p).
Proof. unfold buildNetwork. cbn [networkBig]. rewrite build_mask_eq. by apply land_high_mask; [lia|]. Qed.

Lemma build_lastBig : lastBig (buildNetwork v b f p) = v - v mod 2 ^ (b - p) + (2 ^ (b - p) - 1).
Proof.
  pose proof build_networkBig as Hn. unfold buildNetwork in *. cbn [networkBig lastBig] in *. rewrite Hn.
  rewrite build_mask_eq, shiftl_one, lxor_high_mask by lia. apply lor_aligned with (b - p).
  - lia.
  - apply aligned_sub. lia.
  - pose proof (pow2_pos (b - p)). lia.
Qed.

Lemma build_sizeBig : sizeBig (buildNetwork v b f p) = 2 ^ (b - p).
Proof.
  pose proof build_networkBig as Hn. pose proof build_lastBig as Hl.
  unfold buildNetwork in *. cbn [networkBig lastBig sizeBig] in *. rewrite Hl, Hn. lia.
Qed.

Lemma build_aligned : networkBig (buildNetwork v b f p) mod 2 ^ (b - p) = 0.
Proof. rewrite build_networkBig. apply aligned_sub. lia. Qed.

Lemma build_bounds :
  0 <= networkBig (buildNetwork v b f p) <= v /\ v <= lastBig (buildNetwork v b f p) < 2 ^ b.
Proof.
  rewrite build_lastBig, build_networkBig.
  pose proof (pow2_pos (b - p) ltac:(lia)). pose proof (Z.mod_pos_bound v (2 ^ (b - p)) ltac:(lia)).
  pose proof (Z.mod_le v (2 ^ (b - p)) ltac:(lia) ltac:(lia)).
  assert (v - v mod 2 ^ (b - p) + 2 ^ (b - p) <= 2 ^ b); [|lia].
  apply aligned_gap; [lia|apply aligned_sub; lia| |lia].
  apply Z.mod_divide; [lia|]. exists (2 ^ p). rewrite <- Z.pow_add_r by lia. f_equal; lia.
Qed.

(** Building again from the network address changes nothing. *)
Lemma build_again : buildNetwork (networkBig (buildNetwork v b f p)) b f p = buildNetwork v b f p.
Proof.
  unfold buildNetwork. cbn [networkBig]. by rewrite <- !Z.land_assoc, Z.land_diag.
Qed.
End Build.

(** A network address never falls in the IPv4-mapped range unless the address
    it was cut from does. *)
Lemma build_spellable v b f p :
  fam_bits f b -> spellable v b -> 0 <= p <= b -> spellable (networkBig (buildNetwork v b f p)) b.
Proof.
  intros Hf Hv Hp. pose proof (spellable_bounds v b Hv) as Hb.
  pose proof (build_bounds v b f p Hb Hp) as [? ?]. pose proof (build_aligned v b f p Hb Hp) as Ha.
  pose proof (build_lastBig v b f p Hb Hp) as Hl. rewrite <- (build_networkBig v b f p) in Hl by done.
  destruct Hv as [[-> ?]|(-> & ? & Hm)]; [left; split; [done|lia]|right]. split_and!; [done|lia..|].
  intros Ho. specialize (Hm Ho). unfold is_v4_mapped in *.
  set (n := networkBig _) in *. change IPV6_BITS with 128 in *.
  apply not_true_is_false. intros [Hm1%Z.leb_le Hm2%Z.leb_le]%andb_true_iff.
  apply andb_false_iff in Hm. rewrite !Z.leb_gt in Hm.
  change V4_MAPPED_LAST with (V4_MAPPED_PREFIX + (2 ^ 32 - 1)) in *.
  destruct (Z.le_gt_cases (128 - p) 32) as [Hh|Hh].
  - (* the block sits inside the mapped range, and so does [v] *)
    pose proof (Z.pow_le_mono_r 2 (128 - p) 32 ltac:(lia) ltac:(lia)).
    assert (n + 2 ^ (128 - p) <= V4_MAPPED_PREFIX + 2 ^ 32); [|lia].
    apply aligned_gap; [lia|done| |lia].
    apply mod_pow2_divide with 32; [lia|]. reflexivity.
  - (* the range starts at an odd multiple of [2 ^ 32] *)
    apply mod_pow2_divide with (h := 33) in Ha; [|lia].
    change V4_MAPPED_PREFIX with (65535 * 2 ^ 32) in *. change (2 ^ 33) with (2 * 2 ^ 32) in *.
    apply Z.mod_divide in Ha as [k Hk]; [|lia]. lia.
Qed.

(** ** Well-formed networks *)

Record wf_network (n : Network) : Prop := {
  wf_family : fam_bits (family n) (nbits n);
  wf_prefix : 0 <= prefix n <= nbits n;
  wf_spellable : spellable (networkBig n) (nbits n);
  wf_aligned : networkBig n mod 2 ^ (nbits n - prefix n) = 0;
  wf_last : lastBig n = networkBig n + 2 ^ (nbits n - prefix n) - 1;
  wf_last_bound : lastBig n < 2 ^ nbits n;
  wf_size : sizeBig n = 2 ^ (nbits n - prefix n);
  wf_cidr : cidr n = cidrText (networkBig n) (family n) (prefix n);
  wf_build : n = buildNetwork (networkBig n) (nbits n) (family n) (prefix n)
}.

Lemma buildNetwork_wf v b f p :
  fam_bits f b -> spellable v b -> 0 <= p <= b -> wf_network (buildNetwork v b f p).
Proof.
  intros Hf Hv Hp. pose proof (spellable_bounds v b Hv) as Hb. split; try done.
  - by apply build_spellable.
  - by apply build_aligned.
  - rewrite build_lastBig, build_networkBig by done. simpl. lia.
  - by apply build_bounds.
  - by apply build_sizeBig.
  - symmetry. by apply build_again.
Qed.

Lemma parseNetwork_inv c n :
  parseNetwork c = Ok n ->
  exists v, fam_bits (family n) (nbits n) /\ spellable v (nbits n) /\ 0 <= prefix n <= nbits n /\
    n = buildNetwork v (nbits n) (family n) (prefix n).
Proof.
  unfold parseNetwork. intros H. destruct (last_index_of "/" c) as [slash|]; [|done].
  destruct (_ || _); [done|]. cbv zeta in H. destruct (negb _); [done|].
  destruct (addressToBig (take_string slash c)) as [a|] eqn:Ha; [|done].
  apply addressToBig_ok in Ha as [Hf Hv].
  destruct (_ && _); [done|]. destruct (_ || _) eqn:Hr; [done|]. injection H as <-.
  exists (a_value a). reflect_bools. split_and!; done.
Qed.

Lemma parseNetwork_wf c n : parseNetwork c = Ok n -> wf_network n.
Proof. intros (v & ? & ? & ? & ->)%parseNetwork_inv. by apply buildNetwork_wf. Qed.
#[export] Hint Resolve parseNetwork_wf buildNetwork_wf : cidrella.

(** Reading an address and a prefix length: the folding of IPv4-mapped
    spellings included. *)
Lemma parse_text text a p :
  addressToBig text = Ok a -> 0 <= p ->
  parseNetwork (text +:+ "/" +:+ dec p) =
    let folded := (a_family a =? 4) && has_char ":" text in
    if folded && (p <? 96) then Err (InvalidPrefixLength p)
    else let p := if folded then p - 96 else p in
         if (p <? 0) || (a_bits a <? p) then Err (InvalidPrefixLength p)
         else Ok (buildNetwork (a_value a) (a_bits a) (a_family a) p).
Proof.
  intros Ha Hp. unfold parseNetwork. cbn [append].
  assert (forall c, is_digit c = false -> has_char c (dec p) = false) as Hs.
  { intros c Hc. eapply has_char_class; [exact Hc|]. by apply dec_digits. }
  rewrite last_index_of_char_app by (by apply Hs).
  assert (text <> "") as Hne%string_nonempty_length by (by intros ->).
  pose proof (string_nonempty_length (dec p) (dec_nonempty p Hp)) as Hnp.
  rewrite length_app_str. cbn [String.length].
  destruct (Nat.ltb_spec (String.length text) 1); [lia|].
  destruct (Nat.eqb_spec (String.length text) (String.length text + S (String.length (dec p)) - 1)); [lia|]. cbn [orb].
  rewrite drop_string_add, drop_string_app, take_string_app. cbn [drop_string].
  rewrite all_digits1_dec by lia. cbn [negb]. rewrite Ha, from_dec by lia. rewrite has_char_app.
  change (has_char ":" (String "/" (dec p))) with (has_char ":" (dec p)). by rewrite (Hs ":"%char), orb_false_r.
Qed.

(** Reading the text of a block. *)
Lemma parse_cidrText v b f p :
  fam_bits f b -> spellable v b -> 0 <= p <= b ->
  parseNetwork (cidrText v f p) = Ok (buildNetwork v b f p).
Proof.
  intros Hf Hv Hp. unfold cidrText. rewrite (parse_text _ (mkAddress v b f)) by (by apply addressToBig_text || lia).
  cbn [a_family a_bits a_value]. replace ((f =? 4) && has_char ":" (bigToAddress v f)) with false.
  2:{ destruct Hf; [|done]. by rewrite v4_text_no_colon. }
  cbn [andb]. destruct (Z.ltb_spec p 0); [lia|]. destruct (Z.ltb_spec b p); [lia|]. done.
Qed.

Lemma wf_reparse n : wf_network n -> parseNetwork (cidr n) = Ok n.
Proof. intros []. rewrite wf_cidr0. rewrite (parse_cidrText _ (nbits n)) by done. by rewrite <- wf_build0. Qed.

(** Two well-formed networks with the same family, address and prefix. *)
Lemma wf_network_eq n m :
  wf_network n -> wf_network m -> family n = family m -> networkBig n = networkBig m ->
  prefix n = prefix m -> n = m.
Proof.
  intros Hn Hm Hf Ha Hp. rewrite (wf_build n Hn), (wf_build m Hm).
  assert (nbits n = nbits m) as ->.
  { destruct Hn as [Hfn ? ? ? ? ? ? ? ?], Hm as [Hfm ? ? ? ? ? ? ? ?]. rewrite Hf in Hfn. by apply (fam_bits_inj _ _ _ _ Hfn Hfm). }
  by rewrite Hf, Ha, Hp.
Qed.

Lemma wf_text n : wf_network n -> network n = bigToAddress (networkBig n) (family n).
Proof.
  intros Hn. etransitivity; [exact (f_equal network (wf_build n Hn))|].
  change (network ?m) with (bigToAddress (networkBig m) (family n)).
  by rewrite <- (wf_build n Hn).
Qed.

(** The IPv4 fields and the usable range, from the numbers. *)
Lemma wf_usable n : wf_network n ->
  let reserves := prefix n <? nbits n - 1 in
  let lo := if reserves then networkBig n + 1 else networkBig n in
  let hi := if reserves && (family n =? 4) then lastBig n - 1 else lastBig n in
  legacy n = (if family n =? 4 then Some (mkLegacyV4 (bigToAddress (lastBig n) (family n)) (networkBig n) (lastBig n)
                (sizeBig n) (usableBig n)) else None) /\
  firstUsable n = bigToAddress lo (family n) /\ lastUsable n = bigToAddress hi (family n).
Proof. intros Hn. cbv zeta. rewrite (wf_build n Hn). split_and!; reflexivity. Qed.

(** ** Membership *)

(** The address [v] of family [f] lies in the network. *)
Definition covers (n : Network) (f v : Z) : Prop := family n = f /\ networkBig n <= v <= lastBig n.

#[export] Instance covers_dec n f v : Decision (covers n f v).
Proof. unfold covers. apply _. Defined.

Section WfFacts.
Context (n : Network) (Hn : wf_network n).

Lemma wf_bits_nonneg : 0 <= nbits n - prefix n.
Proof. destruct Hn. lia. Qed.

Lemma wf_order : 0 <= networkBig n <= lastBig n.
Proof.
  pose proof (pow2_pos (nbits n - prefix n) wf_bits_nonneg). destruct Hn.
  pose proof (spellable_bounds _ _ wf_spellable0). lia.
Qed.

(** Inside the block means agreeing on the prefix bits. *)
Lemma wf_in_iff v :
  networkBig n <= v <= lastBig n <->
  Z.shiftr v (nbits n - prefix n) = Z.shiftr (networkBig n) (nbits n - prefix n).
Proof.
  pose proof wf_bits_nonneg as Hh. destruct Hn. rewrite wf_last0, !Z.shiftr_div_pow2 by done.
  set (h := nbits n - prefix n) in *. pose proof (pow2_pos h Hh).
  apply Z.mod_divide in wf_aligned0 as [k Hk]; [|lia]. rewrite Hk, Z.div_mul by lia.
  split; intros Hv.
  - symmetry. apply Z.div_unique with (v - k * 2 ^ h); lia.
  - pose proof (Z_div_mod_eq_full v (2 ^ h)). pose proof (Z.mod_pos_bound v (2 ^ h)). rewrite Hv in *. lia.
Qed.
End WfFacts.

(** Two blocks are nested or apart. *)
Lemma wf_laminar a b :
  wf_network a -> wf_network b -> nbits a = nbits b -> prefix a <= prefix b ->
  networkBig a <= lastBig b -> networkBig b <= lastBig a ->
  networkBig a <= networkBig b /\ lastBig b <= lastBig a.
Proof.
  intros Ha Hb Hbits Hp H1 H2. pose proof (wf_bits_nonneg a Ha). pose proof (wf_bits_nonneg b Hb).
  destruct Ha, Hb. rewrite wf_last0, wf_last1 in *. rewrite Hbits in *.
  set (ha := nbits b - prefix a) in *. set (hb := nbits b - prefix b) in *.
  pose proof (pow2_pos ha). pose proof (pow2_pos hb).
  assert ((networkBig a) mod 2 ^ hb = 0) by (apply mod_pow2_divide with ha; [lia|done]).
  assert ((networkBig a + 2 ^ ha) mod 2 ^ hb = 0).
  { apply aligned_add; [lia|done|]. apply mod_pow2_divide with ha; [lia|]. apply Z_mod_same_full. }
  split.
  - destruct (Z.le_gt_cases (networkBig a) (networkBig b)) as [|Hlt]; [done|].
    pose proof (aligned_gap (networkBig b) (networkBig a) hb). lia.
  - assert (networkBig b + 2 ^ hb <= networkBig a + 2 ^ ha); [|lia]. apply aligned_gap; [lia|done..|lia].
Qed.

(** ** Tilings: networks that follow one another without gap or overlap *)

Inductive tiles : Z -> list Network -> Z -> Prop :=
| tiles_nil lo : tiles lo [] lo
| tiles_cons n l hi :
    networkBig n <= lastBig n -> tiles (lastBig n + 1) l hi -> tiles (networkBig n) (n :: l) hi.

Lemma tiles_le lo l hi : tiles lo l hi -> lo <= hi.
Proof. induction 1; lia. Qed.

Lemma tiles_head lo n l hi : tiles lo (n :: l) hi -> networkBig n = lo.
Proof. by inversion 1. Qed.

Lemma tiles_app lo l mid l' hi : tiles lo l mid -> tiles mid l' hi -> tiles lo (l ++ l') hi.
Proof. induction 1; simpl; [done|]. intros. constructor; auto. Qed.

Lemma tiles_one n hi : networkBig n <= lastBig n -> hi = lastBig n + 1 -> tiles (networkBig n) [n] hi.
Proof. intros ? ->. constructor; [done|constructor]. Qed.

Lemma tiles_elem lo l hi n : tiles lo l hi -> n ∈ l -> lo <= networkBig n /\ networkBig n <= lastBig n < hi.
Proof.
  induction 1 as [|m l hi Hm Ht IH]; intros Hn; [by apply not_elem_of_nil in Hn|].
  pose proof (tiles_le _ _ _ Ht). apply elem_of_cons in Hn as [->|Hn]; [lia|]. apply IH in Hn. lia.
Qed.

(** Every address of the interval is in one network of the tiling, only. *)
Lemma tiles_cover lo l hi v :
  tiles lo l hi -> lo <= v < hi ->
  exists n, (n ∈ l /\ networkBig n <= v <= lastBig n) /\
    forall m, m ∈ l -> networkBig m <= v <= lastBig m -> m = n.
Proof.
  induction 1 as [|n l hi Hn Ht IH]; intros Hv; [lia|].
  destruct (Z.le_gt_cases v (lastBig n)).
  - exists n. split; [split; [apply elem_of_cons; by left|lia]|].
    intros m [->|Hm]%elem_of_cons ?; [done|]. pose proof (tiles_elem _ _ _ _ Ht Hm). lia.
  - destruct IH as (m & [Hm ?] & Huniq); [lia|]. exists m.
    split; [split; [apply elem_of_cons; by right|lia]|].
    intros k [->|Hk]%elem_of_cons ?; [lia|]. by apply Huniq.
Qed.

Lemma tiles_sorted lo l hi : tiles lo l hi -> sorted_by networkBig l.
Proof.
  induction 1 as [|n l hi Hn Ht IH]; [constructor|]. constructor; [done|].
  apply Forall_forall. intros m Hm. pose proof (tiles_elem _ _ _ _ Ht Hm). lia.
Qed.

Lemma tiles_key_inj lo l hi n m : tiles lo l hi -> n ∈ l -> m ∈ l -> networkBig n = networkBig m -> n = m.
Proof.
  intros Ht Hn Hm He. pose proof (tiles_elem _ _ _ _ Ht Hn). pose proof (tiles_elem _ _ _ _ Ht Hm).
  destruct (tiles_cover lo l hi (networkBig n) Ht) as (k & _ & Hk); [lia|].
  rewrite (Hk n Hn), (Hk m Hm) by lia. done.
Qed.

(** Sorting finds the tiling in any order of its networks. *)
Lemma sort_tiles lo l hi l' : tiles lo l hi -> l' ≡ₚ l -> sort_by networkBig l' = l.
Proof.
  intros Ht Hp. apply (StronglySorted_unique_strong (fun x y => networkBig x <= networkBig y)).
  - intros x y Hx Hy ??. apply (tiles_key_inj lo l hi); [done| |done|lia].
    by rewrite <- Hp, <- (sort_by_perm networkBig).
  - apply sort_by_sorted.
  - by eapply tiles_sorted.
  - by rewrite sort_by_perm.
Qed.

(** The sum of the sizes is the length of the interval. *)
Lemma tiles_total lo l hi t :
  tiles lo l hi -> Forall wf_network l -> fold_left (fun t net => t + sizeBig net) l t = t + (hi - lo).
Proof.
  intros Ht. revert t. induction Ht as [|n l hi Hn Ht IH]; intros t Hw; simpl; [lia|].
  apply Forall_cons in Hw as [Hwn Hw]. rewrite IH by done. destruct Hwn. lia.
Qed.

Lemma tiles_last lo n l hi d : tiles lo (n :: l) hi -> lastBig (List.last (n :: l) d) = hi - 1.
Proof.
  intros Ht. remember (n :: l) as k eqn:Hk. revert n l Hk.
  induction Ht as [|m k hi Hm Ht IH]; intros n l Hk; [done|]. destruct k as [|m' k].
  - inversion Ht; subst. simpl. lia.
  - change (List.last (m :: m' :: k) d) with (List.last (m' :: k) d). by eapply IH.
Qed.

Lemma merge_adjacent_tiles n l :
  Forall (fun m => networkBig m <= lastBig m) (n :: l) ->
  merge_adjacent n l = None -> exists hi, tiles (networkBig n) (n :: l) hi.
Proof.
  revert n. induction l as [|m l IH]; intros n Hle H; apply Forall_cons in Hle as [Hn Hle].
  - exists (lastBig n + 1). by apply tiles_one.
  - cbn [merge_adjacent] in H. run_inv H. reflect_bools.
    destruct (IH m) as [hi Ht]; [done..|]. exists hi. constructor; [done|]. by rewrite <- E0.
Qed.

Lemma tiles_merge_adjacent lo n l hi : tiles lo (n :: l) hi -> merge_adjacent n l = None.
Proof.
  revert lo n. induction l as [|m l IH]; intros lo n Ht; [done|]. inversion Ht as [|? ? ? ? Ht']; subst.
  cbn [merge_adjacent]. inversion Ht' as [|? ? ? Hm ? Hlo]; subst.
  rewrite Hlo. destruct (Z.leb_spec (lastBig n + 1) (lastBig n)); [lia|]. rewrite Z.eqb_refl. cbn [negb].
  by eapply IH.
Qed.

(** ** Merging *)

Lemma map_result_length {E A B} (f : A -> result E B) l bs : map_result f l = Ok bs -> length bs = length l.
Proof. intros H. apply map_result_inv in H. symmetry. by eapply Forall2_length. Qed.

Lemma map_result_perm_inv {E A B} (f : A -> result E B) l l' bs :
  map_result f l = Ok bs -> l ≡ₚ l' -> exists bs', map_result f l' = Ok bs' /\ bs ≡ₚ bs'.
Proof.
  intros Hl Hp. revert bs Hl. induction Hp as [|x l l' Hp IH|x y l|l l' l'' ? IH1 ? IH2]; intros bs Hl.
  - eauto.
  - simpl in *. destruct (f x); [|done]. destruct (map_result f l) eqn:E1; [|done]. simplify_eq.
    destruct (IH _ eq_refl) as (bs' & -> & ?). eexists. split; [done|]. by constructor.
  - simpl in *. destruct (f y), (f x); try done. destruct (map_result f l); [|done].
    simplify_eq. eexists. split; [done|]. constructor.
  - destruct (IH1 _ Hl) as (b1 & H1 & ?). destruct (IH2 _ H1) as (b2 & ? & ?). eexists. split; [done|].
    by etransitivity.
Qed.

Lemma existsb_family_false f l :
  Forall (fun n => family n = f) l -> existsb (fun net => negb (family net =? f)) l = false.
Proof. induction 1 as [|n l Hn Hl IH]; simpl; [done|]. by rewrite Hn, Z.eqb_refl, IH. Qed.

Lemma existsb_family_inv f l :
  existsb (fun net => negb (family net =? f)) l = false -> Forall (fun n => family n = f) l.
Proof.
  induction l as [|n l IH]; simpl; [done|]. intros [Hn Hl]%orb_false_iff. reflect_bools. constructor; auto.
Qed.

Lemma perm_Forall {A} (P : A -> Prop) l l' : l ≡ₚ l' -> Forall P l -> Forall P l'.
Proof. intros Hp H. by rewrite <- Hp. Qed.

(** Networks of one family that tile an aligned block, in any order, merge
    into it. *)
Lemma merge_complete cs nets l lo k f b :
  map_result parseNetwork cs = Ok nets -> nets ≡ₚ l -> (2 <= length l)%nat ->
  Forall (fun n => family n = f) l -> fam_bits f b -> Forall wf_network l ->
  tiles lo l (lo + 2 ^ k) -> 0 <= k -> lo mod 2 ^ k = 0 ->
  mergeNetworks cs = Ok (Merged (cidrText lo f (b - k))).
Proof.
  intros Hcs Hp Hlen Hfam Hf Hwf Ht Hk Hal. unfold mergeNetworks.
  rewrite <- (map_result_length _ _ _ Hcs), Hp. destruct (Nat.ltb_spec (length l) 2); [lia|].
  rewrite Hcs. cbn [mbind result_bind]. assert (Forall (fun n => family n = f) nets) as Hfn by (by rewrite Hp).
  destruct nets as [|head nets]; [apply Permutation_length in Hp; simpl in Hp; lia|].
  rewrite (Forall_inv Hfn), existsb_family_false by done.
  rewrite (sort_tiles _ _ _ _ Ht Hp). destruct l as [|n l]; [simpl in Hlen; lia|].
  rewrite (tiles_merge_adjacent _ _ _ _ Ht), (tiles_total _ _ _ _ Ht Hwf), (tiles_last _ _ _ _ _ Ht).
  replace (0 + (lo + 2 ^ k - lo)) with (2 ^ k) by lia. pose proof (pow2_pos k Hk).
  assert (Z.land (2 ^ k) (2 ^ k - 1) = 0) as -> by (apply land_pred_pow2; [lia|by rewrite Z.log2_pow2]).
  rewrite js_length_to_base2, Z.log2_pow2 by lia. cbn [negb Z.eqb].
  rewrite (tiles_head _ _ _ _ Ht). rewrite Hal, Z.eqb_refl. cbn [negb orb].
  replace (lo + 2 ^ k - 1 =? lo + 2 ^ k - 1) with true by (symmetry; apply Z.eqb_refl). cbn [negb].
  apply Forall_inv in Hfam as Hfn1. apply Forall_inv in Hwf as Hw1.
  unfold mret, result_ret, cidrText. replace (k + 1 - 1) with k by lia. do 2 f_equal.
  rewrite (wf_text n Hw1), (tiles_head _ _ _ _ Ht), Hfn1.
  destruct Hw1. rewrite Hfn1 in wf_family0. by rewrite (proj1 (fam_bits_inj _ _ _ _ wf_family0 Hf) eq_refl).
Qed.

Lemma map_result_wf cs nets : map_result parseNetwork cs = Ok nets -> Forall wf_network nets.
Proof.
  intros H%map_result_inv. induction H as [|c n cs nets Hc H IH]; constructor; [|done].
  by eapply parseNetwork_wf.
Qed.

Lemma tiles_NoDup lo l hi : tiles lo l hi -> NoDup l.
Proof.
  induction 1 as [|n l hi Hn Ht IH]; constructor; [|done]. intros Hin.
  pose proof (tiles_elem _ _ _ _ Ht Hin). lia.
Qed.

(** A merge that succeeds: its inputs tile the block it names. *)
Lemma merge_tiles cs m :
  mergeNetworks cs = Ok (Merged m) ->
  exists nets l lo f b p, map_result parseNetwork cs = Ok nets /\ nets ≡ₚ l /\ Forall wf_network l /\
    Forall (fun n => family n = f) l /\ fam_bits f b /\ spellable lo b /\ 0 <= p <= b /\
    lo mod 2 ^ (b - p) = 0 /\ tiles lo l (lo + 2 ^ (b - p)) /\ m = cidrText lo f p.
Proof.
  unfold mergeNetworks. intros H. destruct (length cs <? 2)%nat; [done|].
  destruct (map_result parseNetwork cs) as [nets|] eqn:Hcs; [|done]. cbn [mbind result_bind] in H.
  destruct nets as [|head nets]; [done|]. destruct (existsb _ _) eqn:Hfam; [done|].
  apply existsb_family_inv in Hfam. pose proof (sort_by_perm networkBig (head :: nets)) as Hp.
  destruct (sort_by networkBig (head :: nets)) as [|n l]; [done|].
  pose proof (map_result_wf _ _ Hcs) as Hwf. rewrite <- Hp in Hwf, Hfam.
  destruct (merge_adjacent n l) eqn:Hadj; [done|].
  destruct (merge_adjacent_tiles n l) as [hi Ht]; [|done|].
  { eapply Forall_impl; [exact Hwf|]. intros x Hx. by apply wf_order. }
  rewrite (tiles_total _ _ _ _ Ht Hwf), (tiles_last _ _ _ _ _ Ht) in H.
  pose proof (tiles_le _ _ _ Ht). pose proof (Forall_inv Hwf) as Hwn. pose proof (Forall_inv Hfam) as Hfn.
  pose proof (wf_order n Hwn) as Hon.
  assert (lastBig n < hi) as Hhi.
  { inversion Ht as [|? ? ? ? Ht']; subst. apply tiles_le in Ht'. lia. }
  replace (0 + (hi - networkBig n)) with (hi - networkBig n) in H by lia.
  assert (0 < hi - networkBig n) as Ht0 by lia.
  remember (hi - networkBig n) as t eqn:Hteq. destruct (negb _) eqn:Hpow; [done|]. reflect_bools.
  apply land_pred_pow2 in Hpow; [|lia]. cbv zeta in H. rewrite js_length_to_base2 in H by lia.
  replace (Z.log2 t + 1 - 1) with (Z.log2 t) in H by lia.
  destruct (negb _ || _) eqn:Hal in H; [done|]. injection H as H. reflect_bools.
  pose proof (Z.log2_nonneg t).
  assert (hi <= 2 ^ nbits n) as Hbound.
  { destruct (Forall_forall wf_network (n :: l)) as [Hall _]. pose proof (tiles_last _ _ _ _ n Ht) as Hlast.
    assert (List.last (n :: l) n ∈ n :: l) as Hin.
    { rewrite list_elem_of_In. destruct (exists_last (l := n :: l)) as (l' & x & ->); [done|].
      rewrite last_snoc_default. apply in_or_app. right. by left. }
    pose proof (Hall Hwf _ Hin) as Hwl. assert (nbits (List.last (n :: l) n) = nbits n) as Hbits.
    { rewrite Forall_forall in Hfam. apply (fam_bits_inj _ _ _ _ (wf_family _ Hwl) (wf_family _ Hwn)).
      rewrite (Hfam _ Hin). by rewrite Hfn. }
    pose proof (wf_last_bound _ Hwl). rewrite Hbits in *. lia. }
  assert (Z.log2 t <= nbits n) as Hlog.
  { pose proof (wf_prefix n Hwn). apply (Z.pow_le_mono_r_iff 2); [lia..|]. rewrite <- Hpow. lia. }
  exists (head :: nets), (n :: l), (networkBig n), (family head), (nbits n), (nbits n - Z.log2 t).
  replace (nbits n - (nbits n - Z.log2 t)) with (Z.log2 t) by lia. rewrite <- Hpow.
  cbv beta in Hfn. rewrite <- Hfn.
  split_and!; try (done || apply Hwn || (pose proof (wf_prefix n Hwn); lia)).
  - eapply Forall_impl; [exact Hfam|]. intros x Hx. cbv beta in Hx. congruence.
  - by replace (networkBig n + t) with hi by lia.
  - rewrite <- H. by rewrite (wf_text n) by done.
Qed.

(** ** Blocks inside a network *)

(** No address of the network reads as IPv4. *)
Definition mapped_free (n : Network) : Prop :=
  family n = 4 \/ lastBig n < V4_MAPPED_PREFIX \/ V4_MAPPED_LAST < networkBig n.

Lemma mapped_free_spellable n v :
  wf_network n -> mapped_free n -> networkBig n <= v <= lastBig n -> spellable v (nbits n).
Proof.
  intros Hn Hm Hv. pose proof (wf_order n Hn). pose proof (wf_last_bound n Hn) as Hb.
  pose proof (wf_family n Hn) as Hfam. inversion Hfam as [Hf Hbits|Hf Hbits]; rewrite <- Hbits in Hb.
  - left. split; [done|lia].
  - right. split; [done|]. split; [lia|]. intros _. unfold is_v4_mapped. destruct Hm as [?|Hm]; [lia|].
    destruct (Z.leb_spec V4_MAPPED_PREFIX v), (Z.leb_spec v V4_MAPPED_LAST); simpl; lia.
Qed.

(** An aligned block: [buildNetwork] keeps its address. *)
Lemma build_aligned_block v b f p :
  fam_bits f b -> spellable v b -> 0 <= p <= b -> v mod 2 ^ (b - p) = 0 ->
  networkBig (buildNetwork v b f p) = v /\ lastBig (buildNetwork v b f p) = v + 2 ^ (b - p) - 1.
Proof.
  intros Hf Hv Hp Ha. pose proof (spellable_bounds v b Hv).
  rewrite build_networkBig, build_lastBig, Ha by done. lia.
Qed.

Lemma build_block_tiles v b f p hi :
  fam_bits f b -> spellable v b -> 0 <= p <= b -> v mod 2 ^ (b - p) = 0 -> hi = v + 2 ^ (b - p) ->
  tiles v [buildNetwork v b f p] hi.
Proof.
  intros Hf Hv Hp Ha ->. destruct (build_aligned_block v b f p) as [Hn Hl]; [done..|].
  rewrite <- Hn at 1. pose proof (pow2_pos (b - p) ltac:(lia)). apply tiles_one; lia.
Qed.

Lemma build_block_cidr v b f p :
  fam_bits f b -> spellable v b -> 0 <= p <= b -> v mod 2 ^ (b - p) = 0 -> cidr (buildNetwork v b f p) = cidrText v f p.
Proof.
  intros Hf Hv Hp Ha. destruct (build_aligned_block v b f p) as [Hn _]; [done..|].
  rewrite (wf_cidr _ (buildNetwork_wf _ _ _ _ Hf Hv Hp)). by rewrite Hn.
Qed.

(** *** Splitting *)

Lemma seq_tiles lo b f p (n : nat) :
  fam_bits f b -> 0 <= p <= b -> lo mod 2 ^ (b - p) = 0 ->
  (forall v, lo <= v < lo + Z.of_nat n * 2 ^ (b - p) -> spellable v b) ->
  tiles lo (map (fun i => buildNetwork (lo + i * 2 ^ (b - p)) b f p) (seqZ 0 (Z.of_nat n)))
    (lo + Z.of_nat n * 2 ^ (b - p)).
Proof.
  intros Hf Hp Ha Hs. pose proof (pow2_pos (b - p) ltac:(lia)). induction n as [|n IH].
  - simpl. rewrite Z.add_0_r. constructor.
  - rewrite seqZ_S, map_app, Z.add_0_l. apply tiles_app with (lo + Z.of_nat n * 2 ^ (b - p)).
    + apply IH. intros v Hv. apply Hs. lia.
    + apply build_block_tiles; [done| |done| |lia].
      * apply Hs. lia.
      * rewrite Z_mod_plus_full. done.
Qed.

Lemma split_children c parent np maxCount children :
  parseNetwork c = Ok parent -> mapped_free parent ->
  splitNetwork c (Some np) maxCount = Ok children ->
  prefix parent < np <= nbits parent /\ 2 ^ (np - prefix parent) <= maxCount /\
  children = map (fun i => buildNetwork (networkBig parent + i * 2 ^ (nbits parent - np)) (nbits parent) (family parent) np)
    (seqZ 0 (2 ^ (np - prefix parent))) /\
  tiles (networkBig parent) children (lastBig parent + 1).
Proof.
  intros Hc Hm. unfold splitNetwork. rewrite Hc. cbn [mbind result_bind]. intros H.
  pose proof (parseNetwork_wf _ _ Hc) as Hw. pose proof (wf_prefix _ Hw).
  destruct (_ || _) eqn:Hr; [done|]. reflect_bools. cbv zeta in H.
  rewrite !shiftl_one in H by lia. destruct (Z.ltb_spec maxCount (2 ^ (np - prefix parent))); [done|].
  split; [lia|]. split; [lia|].
  pose proof (pow2_pos (np - prefix parent) ltac:(lia)). pose proof (pow2_pos (nbits parent - np) ltac:(lia)).
  assert (lastBig parent + 1 = networkBig parent + 2 ^ (np - prefix parent) * 2 ^ (nbits parent - np)) as Hlast.
  { rewrite (wf_last _ Hw), <- Z.pow_add_r by lia. replace (np - prefix parent + (nbits parent - np)) with (nbits parent - prefix parent) by lia. lia. }
  assert ((networkBig parent) mod 2 ^ (nbits parent - np) = 0) as Hal.
  { apply mod_pow2_divide with (nbits parent - prefix parent); [lia|]. by apply wf_aligned. }
  assert (forall v, networkBig parent <= v < lastBig parent + 1 -> spellable v (nbits parent)) as Hsp.
  { intros v Hv. apply mapped_free_spellable; [done..|lia]. }
  assert (children = map (fun i => buildNetwork (networkBig parent + i * 2 ^ (nbits parent - np)) (nbits parent) (family parent) np)
    (seqZ 0 (2 ^ (np - prefix parent)))) as Hch.
  { erewrite map_result_ok in H; [by injection H as <-|]. apply Forall_forall. intros i Hi.
    apply elem_of_seqZ in Hi. apply parse_cidrText; [by apply wf_family| |lia].
    apply Hsp. rewrite Hlast. pose proof (Z.mul_le_mono_nonneg_r (i + 1) (2 ^ (np - prefix parent)) (2 ^ (nbits parent - np))). lia. }
  split; [done|]. rewrite Hch, Hlast. rewrite <- (Z2Nat.id (2 ^ (np - prefix parent))) by lia.
  apply seq_tiles; [by apply wf_family|lia|done|]. rewrite Z2Nat.id by lia. intros v Hv. apply Hsp. lia.
Qed.

Lemma split_wf c np maxCount children : splitNetwork c np maxCount = Ok children -> Forall wf_network children.
Proof.
  unfold splitNetwork. destruct (parseNetwork c) as [parent|]; [|done]. cbn [mbind result_bind].
  destruct np as [np|]; [|done]. destruct (_ || _); [done|]. cbv zeta. destruct (_ <? _); [done|].
  intros H%map_result_inv. induction H; constructor; [by eapply parseNetwork_wf|done].
Qed.

Lemma map_result_reparse l : Forall wf_network l -> map_result parseNetwork (map cidr l) = Ok l.
Proof. induction 1 as [|n l Hn Hl IH]; [done|]. cbn [map map_result]. by rewrite wf_reparse, IH. Qed.

(** *** Subtracting *)

Section Subtract.
Context (b f : Z) (Hf : fam_bits f b).
Context (cn cp : Z) (Hcs : spellable cn b) (Hcp : 0 <= cp <= b) (Hca : cn mod 2 ^ (b - cp) = 0).

Abbreviation child := (buildNetwork cn b f cp).

(** The blocks the loop writes, together with the child, tile the block it
    started from. *)
Lemma subtract_loop_tiles fuel lo p :
  0 <= p <= cp -> cp - p <= Z.of_nat fuel ->
  lo mod 2 ^ (b - p) = 0 -> lo <= cn -> cn + 2 ^ (b - cp) <= lo + 2 ^ (b - p) ->
  (forall v, lo <= v < lo + 2 ^ (b - p) -> spellable v b) ->
  exists nets l, map_result parseNetwork (subtract_loop fuel b f cn cp lo p) = Ok nets /\
    Forall (fun n => family n = f) nets /\ Z.of_nat (length nets) = cp - p /\
    l ≡ₚ child :: nets /\ tiles lo l (lo + 2 ^ (b - p)) /\ map cidr nets = subtract_loop fuel b f cn cp lo p.
Proof.
  revert lo p. induction fuel as [|fuel IH]; intros lo p Hp Hfuel Hlo Hle Hhi Hsp.
  all: cbn [subtract_loop].
  - assert (p = cp) as -> by lia. exists [], [child]. assert (lo = cn) as -> by lia.
    split_and!; [done..|simpl; lia|done| |done]. by apply build_block_tiles.
  - destruct (Z.ltb_spec p cp) as [Hlt|Hge].
    2:{ assert (p = cp) as -> by lia. exists [], [child]. assert (lo = cn) as -> by lia.
        split_and!; [done..|simpl; lia|done| |done]. by apply build_block_tiles. }
    cbv zeta. rewrite shiftl_one by lia. set (h := b - (p + 1)).
    pose proof (pow2_pos h ltac:(lia)). assert (2 ^ (b - p) = 2 * 2 ^ h) as Hhalf.
    { replace (b - p) with (Z.succ h) by lia. rewrite Z.pow_succ_r by lia. done. }
    assert (lo mod 2 ^ h = 0) as Hloh by (apply mod_pow2_divide with (b - p); [lia|done]).
    assert ((lo + 2 ^ h) mod 2 ^ h = 0) as Hmidh by (apply aligned_add; [lia|done|apply Z_mod_same_full]).
    rewrite Hhalf in *.
    destruct (Z.leb_spec (lo + 2 ^ h) cn) as [Hup|Hdn].
    + destruct (IH (lo + 2 ^ h) (p + 1)) as (nets & l & Hm & Hfam & Hlen & Hperm & Ht & Hmc);
        [lia|lia|done|lia|fold h; lia|intros v Hv; apply Hsp; fold h in Hv; lia|].
      exists (buildNetwork lo b f (p + 1) :: nets), (buildNetwork lo b f (p + 1) :: l).
      cbn [map_result]. rewrite (parse_cidrText lo b) by (auto with lia). rewrite Hm.
      split_and!; [done|by constructor|simpl length; lia| | |cbn [map]; by rewrite build_block_cidr, Hmc by (auto with lia)].
      * rewrite Hperm. constructor.
      * fold h in Ht. replace (lo + 2 * 2 ^ h) with (lo + 2 ^ h + 2 ^ h) by lia.
        apply (tiles_app _ [_] (lo + 2 ^ h)); [|done]. apply build_block_tiles; auto with lia.
    + assert (cn + 2 ^ (b - cp) <= lo + 2 ^ h) as Hin.
      { apply aligned_gap; [lia|done| |lia]. apply mod_pow2_divide with h; [lia|done]. }
      destruct (IH lo (p + 1)) as (nets & l & Hm & Hfam & Hlen & Hperm & Ht & Hmc);
        [lia|lia|done|lia|fold h; lia|intros v Hv; apply Hsp; fold h in Hv; lia|].
      exists (buildNetwork (lo + 2 ^ h) b f (p + 1) :: nets), (l ++ [buildNetwork (lo + 2 ^ h) b f (p + 1)]).
      cbn [map_result]. rewrite (parse_cidrText (lo + 2 ^ h) b) by (done || lia || (apply Hsp; lia)). rewrite Hm.
      split_and!; [done|by constructor|simpl length; lia| | |cbn [map]; by rewrite build_block_cidr, Hmc by (done || lia || (apply Hsp; lia))].
      * rewrite Permutation_app_comm. simpl. rewrite Hperm. constructor.
      * fold h in Ht. apply (tiles_app _ _ (lo + 2 ^ h)); [done|].
        apply build_block_tiles; [done|apply Hsp; lia|lia|done|fold h; lia].
Qed.
End Subtract.

(** What [subtractNetwork] leaves, with the child, tiles the parent. *)
Lemma subtract_children pc cc parent child rest :
  parseNetwork pc = Ok parent -> parseNetwork cc = Ok child -> mapped_free parent ->
  subtractNetwork pc cc = Ok rest ->
  exists nets l, map_result parseNetwork rest = Ok nets /\ Forall (fun n => family n = family parent) nets /\
    Z.of_nat (length nets) = prefix child - prefix parent /\ l ≡ₚ child :: nets /\
    tiles (networkBig parent) l (lastBig parent + 1) /\ family child = family parent /\ prefix parent < prefix child /\
    map cidr nets = rest.
Proof.
  intros Hp Hc Hm Hs.
  unfold subtractNetwork in Hs. rewrite Hp, Hc in Hs. cbn [mbind result_bind] in Hs.
  destruct (Z.eqb_spec (family child) (family parent)) as [Hfam|]; cbn [negb] in Hs; [|done].
  destruct (_ || _) eqn:Hin; [done|]. destruct (Z.leb_spec (prefix child) (prefix parent)) as [|Hlt]; [done|].
  injection Hs as Hs. reflect_bools.
  pose proof (parseNetwork_wf _ _ Hp) as Hwp. pose proof (parseNetwork_wf _ _ Hc) as Hwc.
  assert (nbits child = nbits parent) as Hbits
    by (by apply (fam_bits_inj _ _ _ _ (wf_family _ Hwc) (wf_family _ Hwp))).
  pose proof (wf_prefix _ Hwp). pose proof (wf_prefix _ Hwc). pose proof (wf_last _ Hwp) as Hlp.
  pose proof (wf_last _ Hwc) as Hlc. pose proof (wf_aligned _ Hwc) as Hca. pose proof (wf_spellable _ Hwc) as Hcs.
  rewrite Hbits in *.
  destruct (subtract_loop_tiles (nbits parent) (family parent) (wf_family _ Hwp) (networkBig child) (prefix child)
    Hcs ltac:(lia) Hca (Z.to_nat (prefix child - prefix parent)) (networkBig parent) (prefix parent))
    as (nets & l & Hmap & Hnf & Hlen & Hperm & Ht & Hmc); [lia|lia|by apply wf_aligned|lia|lia| |].
  { intros v Hv. apply mapped_free_spellable; [done..|lia]. }
  rewrite <- Hfam, <- Hbits, <- (wf_build _ Hwc) in Hperm. rewrite Hs in Hmap, Hmc. exists nets, l.
  split_and!; try done. by replace (lastBig parent + 1) with (networkBig parent + 2 ^ (nbits parent - prefix parent)) by lia.
Qed.

(** ** Overlap and bounds *)

Definition overlapping (a b : Network) : Prop :=
  family a = family b /\ networkBig a <= lastBig b /\ networkBig b <= lastBig a.

Lemma networksOverlap_spec ca cb a b :
  parseNetwork ca = Ok a -> parseNetwork cb = Ok b ->
  exists r, networksOverlap ca cb = Ok r /\ (r = true <-> overlapping a b).
Proof.
  intros Ha Hb. unfold networksOverlap, overlapping. rewrite Ha, Hb. cbn [mbind result_bind].
  destruct (Z.eqb_spec (family a) (family b)); cbn [negb]; eexists; (split; [done|]).
  - rewrite andb_true_iff, !Z.leb_le. naive_solver.
  - naive_solver.
Qed.

Lemma overlapping_common a b :
  wf_network a -> wf_network b -> overlapping a b <-> exists f v, covers a f v /\ covers b f v.
Proof.
  intros Ha Hb. pose proof (wf_order a Ha). pose proof (wf_order b Hb). unfold overlapping, covers. split.
  - intros (? & ? & ?). exists (family a), (Z.max (networkBig a) (networkBig b)). split_and!; (done || lia).
  - intros (f & v & [? ?] & [? ?]). split_and!; (congruence || lia).
Qed.

Lemma covers_incl a b :
  family a = family b -> networkBig b <= networkBig a -> lastBig a <= lastBig b ->
  forall f v, covers a f v -> covers b f v.
Proof. unfold covers. intros ??? f v [? ?]. split; [congruence|lia]. Qed.

(** No two entries of the table share an address. *)
Lemma reserved_ranges_apart :
  forallb (fun r => forallb (fun s => String.eqb (fst r) (fst s) ||
    match networksOverlap (fst r) (fst s) with Ok false => true | _ => false end)
    RESERVED_RANGES) RESERVED_RANGES = true.
Proof. vm_compute. reflexivity. Qed.

Lemma reserved_apart r s a b :
  r ∈ RESERVED_RANGES -> s ∈ RESERVED_RANGES -> parseNetwork (fst r) = Ok a ->
  parseNetwork (fst s) = Ok b -> overlapping a b -> a = b.
Proof.
  intros Hr Hs Ha Hb Ho. pose proof reserved_ranges_apart as H.
  rewrite forallb_forall in H. specialize (H r (proj1 (list_elem_of_In _ _) Hr)).
  rewrite forallb_forall in H. specialize (H s (proj1 (list_elem_of_In _ _) Hs)).
  apply orb_true_iff in H as [H%String.eqb_eq|H]; [congruence|].
  destruct (networksOverlap_spec _ _ _ _ Ha Hb) as (q & Hq & Hiff). rewrite Hq in H.
  destruct q; [done|]. by apply Hiff in Ho.
Qed.

(** How the loop over the table can accept. *)
Lemma bounds_loop_ok c n ranges :
  parseNetwork c = Ok n -> bounds_loop c n ranges = Ok BoundsOk ->
  Forall (fun r => exists res, parseNetwork (fst r) = Ok res /\ ~ overlapping n res) ranges \/
  exists r res, r ∈ ranges /\ parseNetwork (fst r) = Ok res /\ family n = family res /\
    networkBig res <= networkBig n /\ lastBig n <= lastBig res.
Proof.
  intros Hc. induction ranges as [|[rc rn] ranges IH]; intros H; [by left; constructor|].
  cbn [bounds_loop] in H. destruct (parseNetwork rc) as [res|] eqn:Hr; [|done]. cbn [mbind result_bind] in H.
  assert (bounds_loop c n ranges = Ok BoundsOk -> ~ overlapping n res ->
    Forall (fun r => exists res, parseNetwork (fst r) = Ok res /\ ~ overlapping n res) ((rc, rn) :: ranges) \/
    exists r res, r ∈ (rc, rn) :: ranges /\ parseNetwork (fst r) = Ok res /\ family n = family res /\
      networkBig res <= networkBig n /\ lastBig n <= lastBig res) as Hnext.
  { intros Hl Hno. destruct (IH Hl) as [HF|(r & res' & ? & ?)].
    - left. constructor; [by exists res|done].
    - right. exists r, res'. split; [apply elem_of_cons; by right|done]. }
  destruct (Z.eqb_spec (family res) (family n)); cbn [negb] in H.
  2:{ apply Hnext; [done|]. intros [? _]. congruence. }
  destruct (networksOverlap_spec _ _ _ _ Hc Hr) as (q & Hq & Hiff). rewrite Hq in H. cbn [mbind result_bind] in H.
  destruct q.
  - destruct (_ && _) eqn:Hin; [|done]. reflect_bools. right. exists (rc, rn), res.
    split_and!; [apply elem_of_cons; by left|done..].
  - apply Hnext; [done|]. intros Ho%Hiff. done.
Qed.

(** What an accepted network avoids. *)
Lemma validated_network c n :
  validateNetworkBounds c = Ok BoundsOk -> parseNetwork c = Ok n ->
  mapped_free n /\ bounds_loop c n RESERVED_RANGES = Ok BoundsOk.
Proof.
  unfold validateNetworkBounds. intros H Hc. rewrite Hc in H. cbn [mbind result_bind] in H.
  destruct (_ && _ && _) eqn:Hm; [done|]. split; [|done]. unfold mapped_free.
  pose proof (wf_family _ (parseNetwork_wf _ _ Hc)) as Hf. inversion Hf; [by left|right].
  apply andb_false_iff in Hm as [Hm|Hm]; [|reflect_bools; lia].
  apply andb_false_iff in Hm as [Hm|Hm]; reflect_bools; lia.
Qed.

(** ** Topology addresses *)

(** [isTopologyAddress] and [topologyAddresses] reserve the same
    addresses, all of them inside the network, and they are exactly what the
    usable range leaves out (of which IPv4 also loses its broadcast). *)
Lemma topology_agree n v :
  wf_network n -> mapped_free n -> spellable v (nbits n) ->
  (isTopologyAddress n v = true <-> bigToAddress v (family n) ∈ topologyAddresses n) /\
  (isTopologyAddress n v = true -> covers n (family n) v) /\
  (exists lo hi, firstUsable n = bigToAddress lo (family n) /\ lastUsable n = bigToAddress hi (family n) /\
     (covers n (family n) v -> (lo <= v <= hi <-> isTopologyAddress n v = false))).
Proof.
  intros Hw Hm Hsv. pose proof (wf_family _ Hw) as Hf.
  pose proof (wf_order _ Hw) as Ho. pose proof (wf_text _ Hw) as Hnt.
  assert (spellable (networkBig n) (nbits n)) as Hsn by (apply wf_spellable; done).
  assert (spellable (lastBig n) (nbits n)) as Hsl by (apply mapped_free_spellable; [done..|lia]).
  pose proof (bigToAddress_inj _ _ v (networkBig n) Hf Hsv Hsn) as Hin.
  pose proof (bigToAddress_inj _ _ v (lastBig n) Hf Hsv Hsl) as Hil.
  destruct (wf_usable _ Hw) as (Hleg & Hfu & Hlu).
  unfold isTopologyAddress, topologyAddresses, covers. rewrite Hleg.
  split; [|split].
  - destruct (Z.leb_spec (nbits n - 1) (prefix n)); [split; [done|by intros ?%not_elem_of_nil]|].
    rewrite orb_true_iff, andb_true_iff, !Z.eqb_eq, Hnt.
    destruct (Z.eqb_spec (family n) 4) as [Hf4|]; cbn [broadcast]; rewrite !elem_of_cons;
      (split; [intros [He|[? He]]; [left; congruence|first [done|right; left; congruence]]|]).
    + intros [He|[He|He%not_elem_of_nil]]; [left; by apply Hin|right; split; [done|by apply Hil]|done].
    + intros [He|He%not_elem_of_nil]; [left; by apply Hin|done].
  - destruct (Z.leb_spec (nbits n - 1) (prefix n)); [done|].
    rewrite orb_true_iff, andb_true_iff, !Z.eqb_eq. intros [->|[_ ->]]; (split; [done|lia]).
  - eexists _, _. split; [exact Hfu|]. split; [exact Hlu|]. intros [_ Hv].
    destruct (Z.leb_spec (nbits n - 1) (prefix n)), (Z.ltb_spec (prefix n) (nbits n - 1)); try lia; cbn [andb].
    + split; [done|lia].
    + rewrite orb_false_iff, andb_false_iff, !Z.eqb_neq.
      destruct (Z.eqb_spec (family n) 4); lia.
Qed.

(** ** Properties *)

(** C33. What [parseNetwork] accepts is a CIDR block: it holds the address
    that was written, starts on a multiple of its size, spans
    [2 ^ (bits - prefix)] addresses inside the family, and its normalized
    text reads back as the same network. *)
Theorem parse_network_block c n :
  parseNetwork c = Ok n ->
  (exists slash a, last_index_of "/" c = Some slash /\ addressToBig (take_string slash c) = Ok a /\
     covers n (a_family a) (a_value a)) /\
  0 <= prefix n <= nbits n /\ networkBig n mod 2 ^ (nbits n - prefix n) = 0 /\
  lastBig n = networkBig n + 2 ^ (nbits n - prefix n) - 1 /\ 0 <= networkBig n /\ lastBig n < 2 ^ nbits n /\
  parseNetwork (cidr n) = Ok n /\ normalizeNetwork (cidr n) = Ok (cidr n).
Proof.
  intros Hc. pose proof (parseNetwork_wf _ _ Hc) as Hn. split.
  - unfold parseNetwork in Hc. destruct (last_index_of "/" c) as [slash|]; [|done].
    destruct (_ || _); [done|]. cbv zeta in Hc. destruct (negb _); [done|].
    destruct (addressToBig (take_string slash c)) as [a|] eqn:Ha; [|done].
    apply addressToBig_ok in Ha as Ha'. destruct Ha' as [Hf Hv]. exists slash, a.
    destruct (_ && _); [done|]. destruct (_ || _) eqn:Hr; [done|]. injection Hc as <-. reflect_bools.
    split_and!; [done..|]. split; [done|].
    destruct (build_bounds (a_value a) (a_bits a) (a_family a) _ (spellable_bounds _ _ Hv) (conj H H0)). lia.
  - pose proof (wf_order n Hn). pose proof (wf_reparse n Hn) as Hre.
    split_and!; try apply Hn; [lia|done|]. unfold normalizeNetwork. by rewrite Hre.
Qed.

Lemma parse_network_block_witness : exists n, parseNetwork "192.168.1.50/24" = Ok n /\
  normalizeNetwork (cidr n) = Ok "192.168.1.0/24".
Proof.
  eexists. split; [vm_compute; reflexivity|].
  refine (proj2 (proj2 (proj2 (proj2 (proj2 (proj2 (proj2 (parse_network_block "192.168.1.50/24" _ _)))))))).
  vm_compute. reflexivity.
Defined.

(** [networkContains] is the longest-prefix test: it answers [true]
    exactly for the addresses of the same family that agree with the network
    on its first [prefix] bits. *)
Theorem contains_iff_prefix_agrees c ip n a :
  parseNetwork c = Ok n -> addressToBig ip = Ok a ->
  exists r, networkContains c ip = Ok r /\
    (r = true <-> a_family a = family n /\
       Z.shiftr (a_value a) (nbits n - prefix n) = Z.shiftr (networkBig n) (nbits n - prefix n)).
Proof.
  intros Hc Hip. unfold networkContains. rewrite Hc, Hip. cbn [mbind result_bind].
  pose proof (wf_in_iff n (parseNetwork_wf _ _ Hc) (a_value a)) as Hin.
  destruct (Z.eqb_spec (a_family a) (family n)); cbn [negb]; eexists; (split; [done|]).
  - rewrite andb_true_iff, !Z.leb_le. naive_solver.
  - naive_solver.
Qed.

Lemma contains_iff_prefix_agrees_witness : networkContains "2001:db8::/32" "2001:db8:ffff::1" = Ok true.
Proof.
  destruct (contains_iff_prefix_agrees "2001:db8::/32" "2001:db8:ffff::1"
    (buildNetwork 42540766411282592856903984951653826560 128 6 32)
    (mkAddress 42540766490509546445348707916023070721 128 6)) as (r & Hr & Hiff).
  - vm_compute. reflexivity.
  - vm_compute. reflexivity.
  - rewrite Hr. f_equal. apply Hiff. split; vm_compute; reflexivity.
Defined.

(** Two networks overlap exactly when they share an address, and then one
    of them contains the other: CIDR blocks never straddle. *)
Theorem overlap_iff_nested ca cb a b :
  parseNetwork ca = Ok a -> parseNetwork cb = Ok b ->
  exists r, networksOverlap ca cb = Ok r /\
    (r = true <-> exists f v, covers a f v /\ covers b f v) /\
    (r = true <-> (forall f v, covers a f v -> covers b f v) \/ (forall f v, covers b f v -> covers a f v)).
Proof.
  intros Ha Hb. destruct (networksOverlap_spec _ _ _ _ Ha Hb) as (r & Hr & Hiff). exists r.
  pose proof (parseNetwork_wf _ _ Ha) as Hwa. pose proof (parseNetwork_wf _ _ Hb) as Hwb.
  split; [done|]. split; [rewrite Hiff; by apply overlapping_common|]. rewrite Hiff.
  pose proof (wf_order a Hwa). pose proof (wf_order b Hwb). split.
  - intros (Hf & H1 & H2).
    assert (nbits a = nbits b) as Hbits by (apply (fam_bits_inj _ _ _ _ (wf_family a Hwa) (wf_family b Hwb)); done).
    destruct (Z.le_ge_cases (prefix a) (prefix b)).
    + right. destruct (wf_laminar a b Hwa Hwb); [done..|]. by apply covers_incl.
    + left. destruct (wf_laminar b a Hwb Hwa); [done..|]. by apply covers_incl.
  - intros [Hi|Hi]; apply overlapping_common; [done..| |done|done|].
    + exists (family a), (networkBig a). assert (covers a (family a) (networkBig a)) by (split; [done|lia]). auto.
    + exists (family b), (networkBig b). assert (covers b (family b) (networkBig b)) by (split; [done|lia]). auto.
Qed.

Lemma overlap_iff_nested_witness : networksOverlap "10.1.0.0/16" "10.1.2.0/24" = Ok true.
Proof.
  destruct (overlap_iff_nested "10.1.0.0/16" "10.1.2.0/24"
    (buildNetwork 167837696 32 4 16) (buildNetwork 167838208 32 4 24)) as (r & Hr & _ & Hiff).
  - vm_compute. reflexivity.
  - vm_compute. reflexivity.
  - rewrite Hr. f_equal. apply Hiff. right. apply covers_incl; [reflexivity|vm_compute; discriminate..].
Defined.

(** C34. Splitting a network that passed the bounds check partitions it: there
    are [2 ^ (newPrefix - prefix)] children of the new prefix and the parent's
    family, every address of the parent lies in exactly one of them, no other
    address in any, and merging the children gives the parent back. *)
Theorem split_partition c parent np maxCount children :
  parseNetwork c = Ok parent -> validateNetworkBounds c = Ok BoundsOk ->
  splitNetwork c (Some np) maxCount = Ok children ->
  Z.of_nat (length children) = 2 ^ (np - prefix parent) /\
  (forall n, n ∈ children -> family n = family parent /\ prefix n = np) /\
  (forall f v, covers parent f v ->
     exists n, n ∈ children /\ covers n f v /\ forall m, m ∈ children -> covers m f v -> m = n) /\
  (forall n f v, n ∈ children -> covers n f v -> covers parent f v) /\
  mergeNetworks (map cidr children) = Ok (Merged (cidr parent)).
Proof.
  intros Hc Hb Hs. destruct (validated_network _ _ Hb Hc) as [Hm _].
  destruct (split_children _ _ _ _ _ Hc Hm Hs) as (Hp & _ & Hch & Ht).
  pose proof (parseNetwork_wf _ _ Hc) as Hw. pose proof (wf_family _ Hw) as Hf.
  assert (forall n, n ∈ children -> family n = family parent /\ prefix n = np) as Hall.
  { intros n. rewrite Hch. intros (i & -> & _)%list_elem_of_fmap. done. }
  assert (Z.of_nat (length children) = 2 ^ (np - prefix parent)) as Hlen.
  { rewrite Hch, length_map, length_seqZ, Z2Nat.id; [done|]. apply Z.pow_nonneg. lia. }
  split; [done|]. split; [done|]. split; [|split].
  - intros f v [Hpf Hv]. destruct (tiles_cover _ _ _ v Ht) as (n & [Hn Hin] & Hu); [lia|].
    exists n. split; [done|]. split; [split; [|done]; rewrite <- Hpf; by apply Hall|].
    intros m Hmem [_ Hmv]. by apply Hu.
  - intros n f v Hn [Hnf Hv]. destruct (tiles_elem _ _ _ _ Ht Hn).
    split; [rewrite <- Hnf; symmetry; by apply Hall|lia].
  - pose proof (split_wf _ _ _ _ Hs) as Hwc.
    rewrite (wf_cidr _ Hw). replace (prefix parent) with (nbits parent - (nbits parent - prefix parent)) at 1 by lia.
    apply merge_complete with children children; try done.
    + apply map_result_reparse. done.
    + apply Nat2Z.inj_le. rewrite Hlen. replace (np - prefix parent) with (Z.succ (np - prefix parent - 1)) by lia.
      rewrite Z.pow_succ_r by lia. pose proof (pow2_pos (np - prefix parent - 1) ltac:(lia)). lia.
    + apply Forall_forall. intros n Hn. by apply Hall.
    + rewrite (wf_last _ Hw) in Ht. by replace (networkBig parent + 2 ^ (nbits parent - prefix parent))
        with (networkBig parent + 2 ^ (nbits parent - prefix parent) - 1 + 1) by lia.
    + lia.
    + by apply wf_aligned.
Qed.

Lemma split_partition_witness : exists children,
  splitNetwork "10.1.2.0/24" (Some 26) 65536 = Ok children /\
  mergeNetworks (map cidr children) = Ok (Merged "10.1.2.0/24").
Proof.
  eexists. split; [vm_compute; reflexivity|].
  refine (proj2 (proj2 (proj2 (proj2 (split_partition "10.1.2.0/24" (buildNetwork 167838208 32 4 24) 26 65536 _ _ _ _))))).
  all: vm_compute; reflexivity.
Defined.

(** Carving a child out of a network that passed the bounds check is exact
    and reversible: [prefix child - prefix parent] blocks are left, every
    address of the parent lies in exactly one of the child and the blocks, no
    other address in any, and merging them in that order, or any other, gives
    the parent back. *)
Theorem subtract_reversible pc cc parent child rest order :
  parseNetwork pc = Ok parent -> parseNetwork cc = Ok child ->
  validateNetworkBounds pc = Ok BoundsOk -> subtractNetwork pc cc = Ok rest -> order ≡ₚ cc :: rest ->
  exists nets, map_result parseNetwork rest = Ok nets /\
    Z.of_nat (length nets) = prefix child - prefix parent /\
    (forall f v, covers parent f v ->
       exists n, n ∈ child :: nets /\ covers n f v /\ forall m, m ∈ child :: nets -> covers m f v -> m = n) /\
    (forall n f v, n ∈ child :: nets -> covers n f v -> covers parent f v) /\
    NoDup (child :: nets) /\
    mergeNetworks order = Ok (Merged (cidr parent)).
Proof.
  intros Hp Hc Hb Hs Hord. destruct (validated_network _ _ Hb Hp) as [Hm _].
  destruct (subtract_children _ _ _ _ _ Hp Hc Hm Hs) as (nets & l & Hmap & Hnf & Hlen & Hperm & Ht & Hfam & Hlt & _).
  pose proof (parseNetwork_wf _ _ Hp) as Hwp. pose proof (parseNetwork_wf _ _ Hc) as Hwc.
  pose proof (wf_prefix _ Hwp). pose proof (wf_prefix _ Hwc). pose proof (wf_last _ Hwp) as Hlp. exists nets.
  split; [done|]. split; [done|].
  assert (Forall (fun n => family n = family parent) (child :: nets)) as Hff by by constructor.
  assert (Forall wf_network (child :: nets)) as Hwf by (constructor; [done|by eapply map_result_wf]).
  rewrite Forall_forall in Hff.
  split; [|split; [|split]].
  - intros f v [Hf Hv]. destruct (tiles_cover _ _ _ v Ht) as (n & [Hn Hnv] & Hu); [lia|].
    rewrite Hperm in Hn. exists n. split; [done|]. split; [split; [rewrite <- Hf; by apply Hff|done]|].
    intros m Hmem [_ ?]. apply Hu; [by rewrite Hperm|done].
  - intros n f v Hn [Hf Hv]. split; [rewrite <- Hf; symmetry; by apply Hff|].
    rewrite <- Hperm in Hn. destruct (tiles_elem _ _ _ _ Ht Hn). lia.
  - rewrite <- Hperm. by eapply tiles_NoDup.
  - rewrite (wf_cidr _ Hwp). replace (prefix parent) with (nbits parent - (nbits parent - prefix parent)) at 1 by lia.
    assert (map_result parseNetwork (cc :: rest) = Ok (child :: nets)) as Hcm by (cbn [map_result]; by rewrite Hc, Hmap).
    destruct (map_result_perm_inv _ _ order _ Hcm) as (nets' & Hm' & Hp'); [done|].
    replace (lastBig parent + 1) with (networkBig parent + 2 ^ (nbits parent - prefix parent)) in Ht by lia.
    apply merge_complete with nets' l; try done.
    + by rewrite <- Hp', Hperm.
    + rewrite Hperm. simpl. lia.
    + apply Forall_forall. intros n Hn. rewrite Hperm in Hn. by apply Hff.
    + by apply wf_family.
    + by rewrite Hperm.
    + lia.
    + by apply wf_aligned.
Qed.

Lemma subtract_reversible_witness :
  subtractNetwork "10.0.0.0/24" "10.0.0.192/27" = Ok ["10.0.0.0/25"; "10.0.0.128/26"; "10.0.0.224/27"] /\
  mergeNetworks ["10.0.0.224/27"; "10.0.0.192/27"; "10.0.0.128/26"; "10.0.0.0/25"] = Ok (Merged "10.0.0.0/24").
Proof.
  split; [vm_compute; reflexivity|].
  destruct (subtract_reversible "10.0.0.0/24" "10.0.0.192/27" (buildNetwork 167772160 32 4 24)
    (buildNetwork 167772352 32 4 27) ["10.0.0.0/25"; "10.0.0.128/26"; "10.0.0.224/27"]
    ["10.0.0.224/27"; "10.0.0.192/27"; "10.0.0.128/26"; "10.0.0.0/25"]) as (nets & _ & _ & _ & _ & _ & H).
  1-4: vm_compute; reflexivity.
  - change ["10.0.0.224/27"; "10.0.0.192/27"; "10.0.0.128/26"; "10.0.0.0/25"]
      with (["10.0.0.224/27"] ++ ["10.0.0.192/27"; "10.0.0.128/26"; "10.0.0.0/25"]).
    rewrite Permutation_app_comm. cbn [app]. constructor.
    change ["10.0.0.128/26"; "10.0.0.0/25"; "10.0.0.224/27"] with (["10.0.0.128/26"; "10.0.0.0/25"] ++ ["10.0.0.224/27"]).
    change ["10.0.0.0/25"; "10.0.0.128/26"; "10.0.0.224/27"] with (["10.0.0.0/25"; "10.0.0.128/26"] ++ ["10.0.0.224/27"]).
    apply Permutation_app; [constructor|done].
  - rewrite H. vm_compute. reflexivity.
Defined.

(** A merge that is granted is exact: the block it names reads as a
    network that holds exactly the addresses of the inputs, each in exactly
    one input, and the inputs are of one family and distinct. *)
Theorem merge_exact cs m :
  mergeNetworks cs = Ok (Merged m) ->
  exists nets merged, map_result parseNetwork cs = Ok nets /\ parseNetwork m = Ok merged /\ cidr merged = m /\
    NoDup nets /\
    (forall f v, covers merged f v -> exists n, n ∈ nets /\ covers n f v /\
       forall n', n' ∈ nets -> covers n' f v -> n' = n) /\
    (forall n f v, n ∈ nets -> covers n f v -> covers merged f v).
Proof.
  intros (nets & l & lo & f & b & p & Hcs & Hperm & Hwf & Hfam & Hf & Hsp & Hp & Hal & Ht & ->)%merge_tiles.
  pose proof (build_aligned_block lo b f p Hf Hsp Hp Hal) as [Hn Hl].
  exists nets, (buildNetwork lo b f p). split; [done|]. split; [by apply parse_cidrText|]. rewrite Forall_forall in Hfam.
  split; [|split; [|split]].
  - rewrite (wf_cidr _ (buildNetwork_wf _ _ _ _ Hf Hsp Hp)). by rewrite Hn.
  - rewrite Hperm. by eapply tiles_NoDup.
  - intros f' v [Hf' Hv]. destruct (tiles_cover _ _ _ v Ht) as (n & [Hin Hnv] & Hu); [lia|].
    exists n. rewrite Hperm. split; [done|]. split; [split; [rewrite <- Hf'; by apply Hfam|done]|].
    intros m Hm [_ ?]. apply Hu; [by rewrite <- Hperm|done].
  - intros n f' v Hin [Hnf Hv]. rewrite Hperm in Hin. destruct (tiles_elem _ _ _ _ Ht Hin).
    split; [rewrite <- Hnf; symmetry; by apply Hfam|lia].
Qed.

Lemma merge_exact_witness : exists merged, parseNetwork "10.0.0.0/24" = Ok merged /\ cidr merged = "10.0.0.0/24".
Proof.
  destruct (merge_exact ["10.0.0.192/27"; "10.0.0.0/25"; "10.0.0.128/26"; "10.0.0.224/27"] "10.0.0.0/24")
    as (nets & merged & _ & H & H' & _); [vm_compute; reflexivity|].
  exists merged. split; [exact H|exact H'].
Defined.

(** A network the bounds check accepts never reaches an address that
    CIDRella reads as IPv4 while being IPv6, and against every well-known
    range it is either apart from it or inside it. *)
Theorem bounds_safe c n :
  parseNetwork c = Ok n -> validateNetworkBounds c = Ok BoundsOk ->
  (family n = 6 -> forall v, covers n 6 v -> is_v4_mapped v = false) /\
  (forall r, r ∈ RESERVED_RANGES -> exists res, parseNetwork (fst r) = Ok res /\
     ((forall f v, covers n f v -> ~ covers res f v) \/ (forall f v, covers n f v -> covers res f v))).
Proof.
  intros Hc Hb. destruct (validated_network _ _ Hb Hc) as [Hm Hloop]. pose proof (parseNetwork_wf _ _ Hc) as Hw.
  split.
  - intros Hf v [_ Hv]. unfold is_v4_mapped. apply andb_false_iff. rewrite !Z.leb_gt. destruct Hm as [?|Hm]; lia.
  - intros r Hr. assert (exists res, parseNetwork (fst r) = Ok res) as [res Hres].
    { assert (forallb (fun r => is_ok (parseNetwork (fst r))) RESERVED_RANGES = true) as Hall by (vm_compute; done).
      rewrite forallb_forall in Hall. specialize (Hall r (proj1 (list_elem_of_In _ _) Hr)).
      destruct (parseNetwork (fst r)) as [res|]; [by exists res|done]. }
    exists res. split; [done|]. pose proof (parseNetwork_wf _ _ Hres) as Hwr.
    destruct (bounds_loop_ok c n _ Hc Hloop) as [Hall|(s & b & Hs & Hsb & Hf & H1 & H2)].
    + left. rewrite Forall_forall in Hall. destruct (Hall r Hr) as (res' & Hres' & Hno). rewrite Hres in Hres'. injection Hres' as <-.
      intros f v Hv Hv'. apply Hno. apply (overlapping_common n res Hw Hwr). by exists f, v.
    + pose proof (parseNetwork_wf _ _ Hsb) as Hwb. destruct (decide (overlapping res b)) as [Ho|Ho].
      * right. rewrite (reserved_apart r s res b) by done. by apply covers_incl.
      * left. intros f v Hv Hv'. apply Ho. apply overlapping_common; [done..|]. exists f, v.
        split; [done|]. by apply (covers_incl n b).
Qed.

Lemma bounds_safe_witness : exists res, parseNetwork "10.0.0.0/8" = Ok res.
Proof.
  destruct (bounds_safe "10.20.0.0/16" (buildNetwork 169082880 32 4 16)) as [_ H]; [vm_compute; reflexivity..|].
  destruct (H ("10.0.0.0/8", "RFC1918 Class A")) as (res & Hr & _); [apply elem_of_cons; left; reflexivity|].
  exists res. exact Hr.
Defined.
