(* ===== verification/Partition.v ===== *)
(** * Partitions of a network

    Divisions and merges of networks produce and consume partitions: networks
    of one family that tile another. What [splitNetwork], [subtractNetwork]
    and [mergeNetworks] of [Cidr] promise is stated once here, for the files
    that plan and carry out such changes. *)

From S2P Require Import Prelude JsString Address Cidr.

(** [n] lies in [m]. *)
Definition within (n m : Network) : Prop :=
  family n = family m /\ networkBig m <= networkBig n /\ lastBig n <= lastBig m.

(** [n] is a proper part of [m]. *)
Definition inside (n m : Network) : Prop := within n m /\ prefix m < prefix n.

(** Two networks share no address. *)
Definition apart (n m : Network) : Prop := ~ overlapping n m.

Record partition (m : Network) (nets : list Network) : Prop := {
  part_wf : Forall wf_network nets;
  part_family : Forall (fun n => family n = family m) nets;
  part_many : (2 <= length nets)%nat;
  part_tiles : exists l, l ≡ₚ nets /\ tiles (networkBig m) l (lastBig m + 1) }.

#[export] Instance within_dec n m : Decision (within n m).
Proof. unfold within. apply _. Defined.

#[export] Instance within_pre : PreOrder within.
Proof. split; [intros n; unfold within; lia|intros a b c; unfold within; intuition (congruence || lia)]. Qed.

#[export] Instance apart_sym : Symmetric apart.
Proof. intros n m H (? & ? & ?). apply H. split_and!; (congruence || lia). Qed.

Lemma inside_trans a b c : inside a b -> inside b c -> inside a c.
Proof. intros [Hw Hp] [Hw' Hp']. split; [by transitivity b|lia]. Qed.

Lemma inside_within n m : inside n m -> within n m.
Proof. by intros [? _]. Qed.

Lemma within_bits n m : wf_network n -> wf_network m -> family n = family m -> nbits n = nbits m.
Proof. intros Hn Hm Hf. apply (fam_bits_inj _ _ _ _ (wf_family _ Hn) (wf_family _ Hm)). done. Qed.

Lemma within_covers n m f v : within n m -> covers n f v -> covers m f v.
Proof. intros (Hf & ? & ?). by apply covers_incl. Qed.

Lemma apart_within a b a' b' : wf_network a' -> wf_network b' -> apart a b -> within a' a -> within b' b -> apart a' b'.
Proof.
  intros Ha Hb Hab (? & ? & ?) (? & ? & ?) (? & ? & ?). pose proof (wf_order _ Ha). pose proof (wf_order _ Hb).
  apply Hab. split_and!; (congruence || lia).
Qed.

Lemma apart_covers n m f v : apart n m -> covers n f v -> ~ covers m f v.
Proof. intros Ha [? ?] [? ?]. apply Ha. split_and!; (congruence || lia). Qed.

(** A network inside another is not apart from it. *)
Lemma within_not_apart n m : wf_network n -> within n m -> ~ apart n m.
Proof. intros Hn (? & ? & ?) Ha. pose proof (wf_order _ Hn). apply Ha. split_and!; (done || lia). Qed.

Lemma within_mapped_free n m : wf_network n -> within n m -> mapped_free m -> mapped_free n.
Proof.
  intros Hn (Hf & Hlo & Hhi) [H4|[Hb|Hb]]; unfold mapped_free; rewrite Hf; [by left|right; left; lia|right; right; lia].
Qed.

(** Two networks of one family are equal when they start together and are as
    long. *)
Lemma wf_same n m : wf_network n -> wf_network m -> family n = family m -> networkBig n = networkBig m -> prefix n = prefix m -> n = m.
Proof. intros Hn Hm Hf Hnet Hp. rewrite (wf_build _ Hn), (wf_build _ Hm). by rewrite Hf, Hnet, Hp, (within_bits n m). Qed.

(** The text of a network names it. *)
Lemma cidr_inj n m : wf_network n -> wf_network m -> cidr n = cidr m -> n = m.
Proof. intros Hn Hm He. pose proof (wf_reparse _ Hn). pose proof (wf_reparse _ Hm). congruence. Qed.

(** Of two networks one of which lies in the other, the larger has the shorter
    prefix. *)
Lemma within_prefix n m : wf_network n -> wf_network m -> within n m -> prefix m <= prefix n.
Proof.
  intros Hn Hm (Hf & Hlo & Hhi). pose proof (within_bits n m Hn Hm Hf) as Hb.
  pose proof (wf_last _ Hn). pose proof (wf_last _ Hm). pose proof (wf_prefix _ Hn). pose proof (wf_prefix _ Hm). rewrite Hb in *.
  assert (2 ^ (nbits m - prefix n) <= 2 ^ (nbits m - prefix m)) as Hle by lia.
  apply Z.pow_le_mono_r_iff in Hle; lia.
Qed.

Lemma within_antisym n m : wf_network n -> wf_network m -> within n m -> within m n -> n = m.
Proof.
  intros Hn Hm H1 H2. pose proof (within_prefix _ _ Hn Hm H1). pose proof (within_prefix _ _ Hm Hn H2).
  destruct H1 as (? & ? & ?), H2 as (? & ? & ?). apply wf_same; (done || lia).
Qed.

(** Two networks are nested or apart. *)
Lemma laminar n m : wf_network n -> wf_network m -> within n m \/ within m n \/ apart n m.
Proof.
  intros Hn Hm. destruct (decide (family n = family m)) as [Hf|Hf]; [|right; right; by intros (? & _)].
  destruct (decide (networkBig n <= lastBig m)); [|right; right; by intros (_ & ? & _)].
  destruct (decide (networkBig m <= lastBig n)); [|right; right; by intros (_ & _ & ?)].
  pose proof (within_bits _ _ Hn Hm Hf) as Hb. destruct (Z.le_ge_cases (prefix n) (prefix m)).
  - right; left. destruct (wf_laminar n m); [done..|]. by split_and!.
  - left. destruct (wf_laminar m n); [done..|]. by split_and!.
Qed.

(** ** What a partition gives *)

Section PartitionFacts.
Context (m : Network) (Hm : wf_network m) (nets : list Network) (Hp : partition m nets).

Lemma partition_elem n : n ∈ nets -> wf_network n /\ family n = family m.
Proof.
  intros Hn. destruct Hp as [Hw Hf _ _]. rewrite Forall_forall in Hw, Hf. split; [by apply Hw|by apply Hf].
Qed.

Lemma partition_within n : n ∈ nets -> within n m.
Proof.
  intros Hn. destruct (partition_elem n Hn) as [_ Hf]. destruct Hp as [_ _ _ (l & Hl & Ht)]. rewrite <- Hl in Hn.
  destruct (tiles_elem _ _ _ _ Ht Hn). split_and!; [done|lia|lia].
Qed.

Lemma partition_NoDup : NoDup nets.
Proof. destruct Hp as [_ _ _ (l & <- & Ht)]. by eapply tiles_NoDup. Qed.

Lemma partition_cover f v :
  covers m f v -> exists n, n ∈ nets /\ covers n f v /\ forall n', n' ∈ nets -> covers n' f v -> n' = n.
Proof.
  intros [Hf Hv]. pose proof Hp as [_ _ _ (l & Hl & Ht)]. destruct (tiles_cover _ _ _ v Ht) as (n & [Hn Hnv] & Hu); [lia|].
  rewrite Hl in Hn. exists n. split; [done|]. split; [split; [rewrite <- Hf; by apply partition_elem|done]|].
  intros n' Hn' [_ Hv']. apply Hu; [by rewrite Hl|done].
Qed.

Lemma partition_apart n n' : n ∈ nets -> n' ∈ nets -> n <> n' -> apart n n'.
Proof.
  intros Hn Hn' Hne Ho. destruct (partition_elem n Hn) as [Hw _]. destruct (partition_elem n' Hn') as [Hw' _].
  apply overlapping_common in Ho as (f & v & Hv & Hv'); [|done..].
  destruct (partition_cover f v) as (k & _ & _ & Hu).
  - apply (within_covers n m); [by apply partition_within|done].
  - apply Hne. by rewrite (Hu n Hn Hv), (Hu n' Hn' Hv').
Qed.

(** Every part is proper. *)
Lemma partition_inside n : n ∈ nets -> inside n m.
Proof.
  intros Hn. destruct (partition_elem n Hn) as [Hw Hf]. pose proof (partition_within n Hn) as Hin. split; [done|].
  pose proof (within_prefix n m Hw Hm Hin). destruct (decide (prefix n = prefix m)) as [He|]; [|lia]. exfalso.
  assert (n = m) as ->.
  { destruct Hin as (_ & Hlo & Hhi). pose proof (wf_last _ Hw) as Hl. pose proof (wf_last _ Hm) as Hl'.
    rewrite (within_bits n m Hw Hm Hf), He in Hl. apply wf_same; (done || lia). }
  destruct (list_elem_of_split _ _ Hn) as (l1 & l2 & Hsplit). pose proof (part_many _ _ Hp) as Hmany.
  assert (exists k, k ∈ nets /\ k <> m) as (k & Hk & Hkm).
  { pose proof partition_NoDup as Hnd. rewrite Hsplit in Hnd, Hmany |- *. apply NoDup_app in Hnd as (_ & Hd & Hnd2).
    destruct l1 as [|k l1].
    - destruct l2 as [|k l2]; [simpl in Hmany; lia|]. exists k. split; [set_solver|]. intros ->. apply NoDup_cons in Hnd2. set_solver.
    - exists k. split; [set_solver|]. intros ->. apply (Hd m); set_solver. }
  apply (within_not_apart k m); [by apply partition_elem|by apply partition_within|]. by apply partition_apart.
Qed.

Lemma partition_mapped_free n : mapped_free m -> n ∈ nets -> mapped_free n.
Proof. intros Hf Hn. apply (within_mapped_free n m); [by apply partition_elem|by apply partition_within|done]. Qed.
End PartitionFacts.

(** ** Where partitions come from *)

Lemma split_partitions c m np maxCount nets :
  parseNetwork c = Ok m -> mapped_free m -> splitNetwork c (Some np) maxCount = Ok nets ->
  partition m nets /\ Z.of_nat (length nets) <= maxCount.
Proof.
  intros Hc Hf Hs. destruct (split_children _ _ _ _ _ Hc Hf Hs) as (Hp & Hmax & Hch & Ht).
  assert (Z.of_nat (length nets) = 2 ^ (np - prefix m)) as Hlen.
  { rewrite Hch, length_map, length_seqZ, Z2Nat.id; [done|]. apply Z.pow_nonneg. lia. }
  split; [|lia]. split.
  - by eapply split_wf.
  - apply Forall_forall. intros n. rewrite Hch. intros (i & -> & _)%list_elem_of_fmap. done.
  - apply Nat2Z.inj_le. rewrite Hlen. replace (np - prefix m) with (Z.succ (np - prefix m - 1)) by lia.
    rewrite Z.pow_succ_r by lia. pose proof (pow2_pos (np - prefix m - 1) ltac:(lia)). lia.
  - by exists nets.
Qed.

Lemma subtract_partitions pc cc m child rest :
  parseNetwork pc = Ok m -> parseNetwork cc = Ok child -> mapped_free m -> subtractNetwork pc cc = Ok rest ->
  exists nets, map_result parseNetwork rest = Ok nets /\ partition m (child :: nets) /\
    Z.of_nat (length nets) = prefix child - prefix m /\ map cidr nets = rest.
Proof.
  intros Hp Hc Hf Hs. destruct (subtract_children _ _ _ _ _ Hp Hc Hf Hs) as (nets & l & Hn & Hnf & Hlen & Hl & Ht & Hcf & Hlt & Hmc).
  exists nets. split; [done|]. split; [|done]. split.
  - constructor; [by eapply parseNetwork_wf|by eapply map_result_wf].
  - by constructor.
  - simpl. lia.
  - by exists l.
Qed.

Lemma merge_partitions cs c :
  mergeNetworks cs = Ok (Merged c) ->
  exists m nets, parseNetwork c = Ok m /\ cidr m = c /\ map_result parseNetwork cs = Ok nets /\ partition m nets.
Proof.
  intros H. assert (2 <= length cs)%nat as Hlen.
  { unfold mergeNetworks in H. destruct (length cs <? 2)%nat eqn:E; [done|]. by apply Nat.ltb_ge in E. }
  apply merge_tiles in H as (nets & l & lo & f & b & p & Hcs & Hperm & Hwf & Hfam & Hf & Hsp & Hp & Hal & Ht & ->).
  pose proof (build_aligned_block lo b f p Hf Hsp Hp Hal) as [Hn Hl].
  exists (buildNetwork lo b f p), nets. split; [by apply parse_cidrText|]. split.
  { rewrite (wf_cidr _ (buildNetwork_wf _ _ _ _ Hf Hsp Hp)). by rewrite Hn. }
  split; [done|]. split.
  - by rewrite Hperm.
  - by rewrite Hperm.
  - by rewrite (map_result_length _ _ _ Hcs).
  - exists l. split; [by rewrite Hperm|]. rewrite Hn, Hl. by replace (lo + 2 ^ (b - p) - 1 + 1) with (lo + 2 ^ (b - p)) by lia.
Qed.
