(* ===== verification/CidrMatch.v ===== *)
(** * The GeoIP allowlist

    [server/src/utils/cidr-match.js]: the addresses and ranges of the
    allowlist, their canonical text, and the test of an answer's address
    against them; and [server/src/models/geoip-ip-allowlist.js]: the stored
    list and the boot pass that puts it in canonical form. Parsing is stricter
    than in the CIDR layer: neither zone ids nor IPv4 inside IPv6 are read.
    The table is the list of its rows in the order of insertion. *)

From S2P Require Import Prelude JsString Address Cidr.

Definition STRICT : ParseOptions := mkParseOptions false false false.

Record Ip := mkIp { ip_v : Z; ip_bits : Z }.

Definition ipToBigInt (ip : string) : option Ip :=
  match parseIp STRICT ip with Some parsed => Some (mkIp (value parsed) (bits parsed)) | None => None end.

Record Entry := mkEntry { e_bits : Z; e_network : Z; e_mask : Z; e_prefix : Z }.

Definition parseCidrEntry (entry : string) : option Entry :=
  let segs := split_char "/" (trim entry) in
  if (2 <? length segs)%nat then None
  else match ipToBigInt (nth 0 segs "") with
  | None => None
  | Some parsed =>
      let prefix :=
        match segs with
        | [_; p] => if negb (V4_OCTET_RE p) then None
                    else let prefix := from_base 10 p in if ip_bits parsed <? prefix then None else Some prefix
        | _ => Some (ip_bits parsed)
        end in
      match prefix with
      | None => None
      | Some prefix =>
          let full := Z.shiftl 1 (ip_bits parsed) - 1 in
          let mask := Z.lxor full (Z.shiftl 1 (ip_bits parsed - prefix) - 1) in
          Some (mkEntry (ip_bits parsed) (Z.land (ip_v parsed) mask) mask prefix)
      end
  end.

Definition isValidIpOrCidr (entry : string) : bool := match parseCidrEntry entry with Some _ => true | None => false end.

Definition formatCidrEntry (e : Entry) : string := formatIp (e_network e) (e_bits e) +:+ "/" +:+ dec (e_prefix e).

Definition canonicalizeIpOrCidr (value : string) : option string :=
  match parseCidrEntry value with Some parsed => Some (formatCidrEntry parsed) | None => None end.

Definition ipMatchesEntry (ip : string) (entry : Entry) : bool :=
  match ipToBigInt ip with
  | None => false
  | Some p => if negb (ip_bits p =? e_bits entry) then false else Z.land (ip_v p) (e_mask entry) =? e_network entry
  end.

Definition ipInAny (ip : string) (parsedEntries : list Entry) : bool := existsb (ipMatchesEntry ip) parsedEntries.

Example canonical_spelling : map canonicalizeIpOrCidr ["10.5.5.5/8"; " 010.0.0.0/8 "; "2001:DB8::1"; "10.0.0.1/33"; "::ffff:1.2.3.4"; "fe80::1%eth0"]
  = [Some "10.0.0.0/8"; Some "10.0.0.0/8"; Some "2001:db8::1/128"; None; None; None].
Proof. vm_compute. reflexivity. Qed.

(** ** Lemmas *)

(** The block of an entry. *)
Definition in_entry (e : Entry) (b v : Z) : Prop :=
  e_bits e = b /\ e_network e <= v <= e_network e + 2 ^ (e_bits e - e_prefix e) - 1.

Record wf_entry (e : Entry) : Prop := {
  we_family : fam_bits (family_of_bits (e_bits e)) (e_bits e);
  we_prefix : 0 <= e_prefix e <= e_bits e;
  we_range : 0 <= e_network e < 2 ^ e_bits e;
  we_aligned : e_network e mod 2 ^ (e_bits e - e_prefix e) = 0;
  we_mask : e_mask e = 2 ^ e_bits e - 2 ^ (e_bits e - e_prefix e) }.

Lemma ipToBigInt_inv ip p : ipToBigInt ip = Some p -> fam_bits (family_of_bits (ip_bits p)) (ip_bits p) /\ 0 <= ip_v p < 2 ^ ip_bits p.
Proof.
  unfold ipToBigInt. intros H. destruct (parseIp STRICT ip) as [q|] eqn:Hq; [|done]. injection H as <-. cbn [ip_bits ip_v]. split.
  - apply fam_bits_family. by eapply parseIp_bits.
  - apply parseIp_representable in Hq as [[-> ?]|(-> & ? & _)]; done.
Qed.

Lemma lxor_host_mask n h : 0 <= h <= n -> Z.lxor (2 ^ n - 1) (2 ^ h - 1) = 2 ^ n - 2 ^ h.
Proof.
  intros Hh. rewrite <- (lxor_high_mask n h) by done. by rewrite <- Z.lxor_assoc, Z.lxor_nilpotent, Z.lxor_0_l.
Qed.

Lemma parse_entry_wf s e : parseCidrEntry s = Some e -> wf_entry e.
Proof.
  unfold parseCidrEntry. intros H. destruct (_ <? _)%nat; [done|]. destruct (ipToBigInt _) as [p|] eqn:Hp; [|done].
  apply ipToBigInt_inv in Hp as [Hf Hv]. set (prefix := match split_char "/" (trim s) with [_; _] => _ | _ => _ end) in H.
  assert (forall k, prefix = Some k -> 0 <= k <= ip_bits p) as Hk.
  { intros k Hk. unfold prefix in Hk. assert (0 <= ip_bits p) by (inversion Hf; lia).
    repeat case_match; simplify_eq; try lia. reflect_bools. unfold V4_OCTET_RE in *. reflect_bools.
    match goal with Hd : all_chars is_digit ?w = true |- _ => pose proof (from_dec_bounds w Hd) end. lia. }
  destruct prefix as [k|]; [|done]. specialize (Hk k eq_refl). injection H as <-.
  rewrite !shiftl_one, lxor_host_mask, land_high_mask by lia.
  pose proof (Z.mod_pos_bound (ip_v p) (2 ^ (ip_bits p - k)) ltac:(apply pow2_pos; lia)).
  pose proof (Z.mod_le (ip_v p) (2 ^ (ip_bits p - k)) ltac:(lia) ltac:(apply pow2_pos; lia)).
  split; cbn [e_bits e_network e_mask e_prefix]; [done|done|lia|apply aligned_sub; lia|done].
Qed.

(** The mask test is membership in the block. *)
Lemma matches_entry ip p e :
  wf_entry e -> ipToBigInt ip = Some p -> ipMatchesEntry ip e = true <-> in_entry e (ip_bits p) (ip_v p).
Proof.
  intros [Hf Hp Hr Ha Hm] Hip. pose proof (ipToBigInt_inv ip p Hip) as [_ Hv]. unfold ipMatchesEntry, in_entry. rewrite Hip.
  destruct (Z.eqb_spec (ip_bits p) (e_bits e)) as [He|He]; cbn [negb]; [|split; [done|intros [? _]; congruence]].
  rewrite Z.eqb_eq, Hm, land_high_mask by (rewrite <- ?He; lia). set (h := e_bits e - e_prefix e) in *.
  pose proof (pow2_pos h ltac:(unfold h; lia)) as Hpos. split.
  - intros <-. split; [done|]. pose proof (Z.mod_pos_bound (ip_v p) (2 ^ h) Hpos). lia.
  - intros [_ Hin]. apply Z.mod_divide in Ha as [k Hk]; [|lia]. pose proof (Z_div_mod_eq_full (ip_v p) (2 ^ h)) as Hd.
    assert (ip_v p / 2 ^ h = k) as Hq by (symmetry; apply Z.div_unique with (ip_v p - k * 2 ^ h); lia). rewrite Hq in Hd. lia.
Qed.

(** Entries with the same addresses are the same. *)
Lemma entry_ext e e' :
  wf_entry e -> wf_entry e' -> (forall v, 0 <= v < 2 ^ e_bits e -> in_entry e (e_bits e) v <-> in_entry e' (e_bits e) v) -> e_bits e = e_bits e' -> e = e'.
Proof.
  intros [Hf Hp Hr Ha Hm] [Hf' Hp' Hr' Ha' Hm'] Hin Hb. unfold in_entry in Hin. rewrite <- Hb in *.
  set (h := e_bits e - e_prefix e) in *. set (h' := e_bits e - e_prefix e') in *.
  pose proof (pow2_pos h ltac:(unfold h; lia)). pose proof (pow2_pos h' ltac:(unfold h'; lia)).
  assert (forall n k, 0 <= k <= e_bits e -> 0 <= n < 2 ^ e_bits e -> n mod 2 ^ k = 0 -> n + 2 ^ k <= 2 ^ e_bits e) as Hend.
  { intros n k Hk Hn Hal. apply aligned_gap; [lia|done| |lia]. apply Z.mod_divide; [pose proof (pow2_pos k); lia|].
    exists (2 ^ (e_bits e - k)). rewrite <- Z.pow_add_r by lia. f_equal. lia. }
  pose proof (Hend _ h ltac:(unfold h; lia) Hr Ha). pose proof (Hend _ h' ltac:(unfold h'; lia) Hr' Ha').
  assert (e_network e = e_network e') as Hn.
  { pose proof (Hin (e_network e) ltac:(lia)) as G1. pose proof (Hin (e_network e') ltac:(lia)) as G2. lia. }
  assert (2 ^ h = 2 ^ h') as Hs.
  { pose proof (Hin (e_network e + 2 ^ h - 1) ltac:(lia)) as G1. pose proof (Hin (e_network e' + 2 ^ h' - 1) ltac:(lia)) as G2. lia. }
  apply (Z.pow_inj_r 2) in Hs; [|lia..]. assert (e_prefix e = e_prefix e') as Hpre by (unfold h, h' in Hs; lia).
  destruct e, e'; cbn in *. by subst.
Qed.

(** A canonical entry is read back as it is. *)
Lemma format_parse_entry e : wf_entry e -> parseCidrEntry (formatCidrEntry e) = Some e.
Proof.
  intros [Hf Hp Hr Ha Hm]. assert (e_bits e = 32 \/ e_bits e = 128) as Hb by (inversion Hf; auto).
  unfold parseCidrEntry, formatCidrEntry.
  assert (has_char "/" (formatIp (e_network e) (e_bits e)) = false) as Hs by (by apply formatIp_no_char).
  assert (all_chars is_digit (dec (e_prefix e)) = true) as Hd by (apply dec_digits; lia).
  rewrite trim_no_space.
  2:{ rewrite !all_chars_app. rewrite (all_chars_impl _ _ _ address_char_no_space (formatIp_chars _ _)). cbn [all_chars andb].
      eapply all_chars_impl; [|exact Hd]. intros c Hc. apply address_char_no_space. unfold address_char, is_hex. by rewrite Hc. }
  rewrite (split_char_app "/" _ (dec (e_prefix e))), (split_char_none "/" (dec (e_prefix e))); [|by apply (has_char_class "/" is_digit)|done].
  cbn [length Nat.ltb Nat.leb nth]. unfold ipToBigInt. rewrite parseIp_formatIp.
  2:{ destruct Hb as [Hb|Hb]; rewrite Hb in *; [left; done|right; split; [done|]; split; [done|]; done]. }
  cbn [value bits ip_bits ip_v]. assert (V4_OCTET_RE (dec (e_prefix e)) = true) as Ho.
  { unfold V4_OCTET_RE, js_length. rewrite Hd. pose proof (length_to_base 10 ltac:(lia) (e_prefix e) 3 ltac:(lia) ltac:(lia)) as HL.
    unfold dec. rewrite !andb_true_iff, !Z.leb_le. split; [lia|done]. }
  rewrite Ho. cbn [negb]. rewrite from_dec by lia. destruct (Z.ltb_spec (e_bits e) (e_prefix e)); [lia|].
  rewrite !shiftl_one, lxor_host_mask, land_high_mask by lia. rewrite Ha, Z.sub_0_r, <- Hm. by destruct e.
Qed.

Lemma entry_prefix_text e : wf_entry e -> canonicalizeIpOrCidr (formatCidrEntry e) = Some (formatCidrEntry e).
Proof. intros He. unfold canonicalizeIpOrCidr. by rewrite format_parse_entry. Qed.

Lemma format_entry_inj e e' : wf_entry e -> wf_entry e' -> formatCidrEntry e = formatCidrEntry e' -> e = e'.
Proof. intros He He' H. apply (f_equal parseCidrEntry) in H. rewrite !format_parse_entry in H by done. by injection H. Qed.

(** ** The stored allowlist *)

(** A row of [geoip_ip_allowlist]: [value] is UNIQUE. *)
Record Row := mkRow { r_id : Z; r_value : string; r_reason : option string }.

Inductive sql_error := UniqueValue (v : string).

(** A reason that is there and not empty. *)
Definition truthy (o : option string) : bool := match o with Some s => negb (String.eqb s "") | None => false end.

Record Group := mkGroup { keeper : Row; dupes : list Row }.

Definition group_row (byCanon : list (string * Group)) (row : Row) : list (string * Group) :=
  match canonicalizeIpOrCidr (r_value row) with
  | None => byCanon
  | Some canon =>
      match js_get canon byCanon with
      | Some group => js_set canon (mkGroup (keeper group) (dupes group ++ [row])) byCanon
      | None => js_set canon (mkGroup row []) byCanon
      end
  end.

Definition byCanon (rows : list Row) : list (string * Group) := fold_left group_row rows [].

Definition remove_row (id : Z) (t : list Row) : list Row := List.filter (fun r => negb (r_id r =? id)) t.

Definition rewrite_row (value : string) (reason : option string) (id : Z) (t : list Row) : result sql_error (list Row) :=
  if existsb (fun r => negb (r_id r =? id) && String.eqb (r_value r) value) t then Err (UniqueValue value)
  else mret (map (fun r => if r_id r =? id then mkRow id value reason else r) t).

Definition inherit (reason : option string) (dupe : Row) : option string :=
  if negb (truthy reason) && truthy (r_reason dupe) then r_reason dupe else reason.

Definition collapse (t : list Row) (entry : string * Group) : result sql_error (list Row) :=
  let '(canon, g) := entry in
  let reason := fold_left inherit (dupes g) (r_reason (keeper g)) in
  let t := fold_left (fun t dupe => remove_row (r_id dupe) t) (dupes g) t in
  if negb (String.eqb canon (r_value (keeper g))) || negb (bool_decide (reason = r_reason (keeper g)))
  then rewrite_row canon reason (r_id (keeper g)) t
  else mret t.

(** The transaction: an error leaves the table as it was. *)
Definition canonicalizeExisting (t : list Row) : result sql_error (list Row) :=
  fold_result collapse (byCanon (sort_by r_id t)) t.

(** [INSERT]: [id] is the next of the table's sequence. *)
Definition addEntry (t : list Row) (id : Z) (value : string) (reason : option string) : result sql_error (list Row) :=
  if existsb (fun r => String.eqb (r_value r) value) t then Err (UniqueValue value)
  else mret (t ++ [mkRow id value (if truthy reason then reason else None)]).

Definition getByValue (t : list Row) (value : string) : option Row := List.find (fun r => String.eqb (r_value r) value) t.
Definition deleteEntry (t : list Row) (id : Z) : list Row := remove_row id t.

(** What the allowlist lets through. *)
Definition allowed (t : list Row) (ip : string) : bool := ipInAny ip (omap (fun r => parseCidrEntry (r_value r)) t).

Example heals : canonicalizeExisting
    [mkRow 1 "10.5.5.5/8" None; mkRow 2 "10.0.0.0/8" (Some "office"); mkRow 3 "bogus" None; mkRow 4 "010.0.0.0/8" (Some "old")]
  = Ok [mkRow 1 "10.0.0.0/8" (Some "office"); mkRow 3 "bogus" None].
Proof. vm_compute. reflexivity. Qed.

(** ** Lemmas: the groups *)

Definition canon_of (r : Row) : option string := canonicalizeIpOrCidr (r_value r).

(** The rows of one network, in their order. *)
Definition class (c : string) (rows : list Row) : list Row := List.filter (fun r => bool_decide (canon_of r = Some c)) rows.

Lemma elem_of_class c r rows : r ∈ class c rows <-> r ∈ rows /\ canon_of r = Some c.
Proof. unfold class. by rewrite list_elem_of_In, List.filter_In, <- list_elem_of_In, bool_decide_eq_true. Qed.

Lemma class_snoc c rows r : class c (rows ++ [r]) = class c rows ++ (if bool_decide (canon_of r = Some c) then [r] else []).
Proof. unfold class. rewrite List.filter_app. cbn. by case_bool_decide. Qed.

Definition group_of (l : list Row) : option Group := match l with [] => None | k :: d => Some (mkGroup k d) end.

(** The map holds each network's rows: the first as the keeper, the others
    after it. *)
Lemma byCanon_get c rows : js_get c (byCanon rows) = group_of (class c rows).
Proof.
  induction rows as [|r rows IH] using rev_ind; [done|]. unfold byCanon in *. rewrite fold_left_app. cbn [fold_left].
  rewrite class_snoc. unfold group_row at 1. change (canonicalizeIpOrCidr (r_value r)) with (canon_of r).
  destruct (canon_of r) as [c'|] eqn:Hc; [|rewrite bool_decide_eq_false_2 by done; by rewrite app_nil_r].
  destruct (decide (c' = c)) as [->|Hne].
  - rewrite bool_decide_eq_true_2 by done. rewrite IH. destruct (class c rows) as [|k d]; cbn [group_of app keeper dupes];
      by rewrite js_get_set, String.eqb_refl.
  - rewrite bool_decide_eq_false_2, app_nil_r by congruence.
    destruct (js_get c' (fold_left group_row rows [])); rewrite js_get_set; (destruct (String.eqb_spec c c'); [congruence|done]).
Qed.

Lemma byCanon_keys rows : NoDup (map fst (byCanon rows)).
Proof.
  induction rows as [|r rows IH] using rev_ind; [constructor|]. unfold byCanon in *. rewrite fold_left_app. cbn [fold_left]. unfold group_row at 1.
  destruct (canonicalizeIpOrCidr (r_value r)); [|done]. destruct (js_get _ _); by apply js_set_NoDup.
Qed.

(** ** Lemmas: one pass *)

Lemma row_by_id t r r' : NoDup (map r_id t) -> r ∈ t -> r' ∈ t -> r_id r = r_id r' -> r = r'.
Proof. apply (nodup_map_inj r_id). Qed.

Lemma canonical_inv v c : canonicalizeIpOrCidr v = Some c -> exists e, parseCidrEntry v = Some e /\ wf_entry e /\ c = formatCidrEntry e.
Proof.
  unfold canonicalizeIpOrCidr. intros H. destruct (parseCidrEntry v) as [e|] eqn:He; [|done]. injection H as <-. exists e. split; [done|].
  split; [by eapply parse_entry_wf|done].
Qed.

Lemma canonical_fixed v c : canonicalizeIpOrCidr v = Some c -> canonicalizeIpOrCidr c = Some c.
Proof. intros (e & _ & He & ->)%canonical_inv. by apply entry_prefix_text. Qed.

Lemma omap_some {A} (f : A -> option A) (l : list A) : (forall x, x ∈ l -> f x = Some x) -> omap f l = l.
Proof.
  induction l as [|x l IH]; intros H; [done|]. cbn [omap list_omap]. rewrite (H x) by (by left). f_equal. apply IH. intros y Hy. apply H. by right.
Qed.

Section Pass.
Context (t : list Row) (Hids : NoDup (map r_id t)).

Let rows := sort_by r_id t.

Lemma class_rows c r : r ∈ class c rows <-> r ∈ t /\ canon_of r = Some c.
Proof. unfold rows. by rewrite elem_of_class, elem_of_sort_by. Qed.

Lemma class_ids c : NoDup (map r_id (class c rows)).
Proof.
  assert (NoDup (map r_id rows)) as Hn by (unfold rows; by rewrite sort_by_perm).
  unfold class. revert Hn. generalize rows. intros l. induction l as [|x l IH]; cbn; intros Hn; [constructor|]. apply NoDup_cons in Hn as [Hx Hn].
  case_bool_decide; [|by apply IH]. cbn. constructor; [|by apply IH]. intros Hin. apply Hx.
  apply list_elem_of_In, in_map_iff in Hin as (y & <- & Hy). apply List.filter_In in Hy as [Hy _]. by apply list_elem_of_In, in_map.
Qed.

(** What a row becomes once the networks of [G] are done. *)
Definition healed (G : list string) (r : Row) : option Row :=
  match canon_of r with
  | Some c =>
      if bool_decide (c ∈ G) then
        match class c rows with
        | k :: d => if r_id r =? r_id k then Some (mkRow (r_id r) c (fold_left inherit d (r_reason k))) else None
        | [] => None
        end
      else Some r
  | None => Some r
  end.

Lemma healed_id G r r' : healed G r = Some r' -> r_id r' = r_id r.
Proof. unfold healed. intros H. repeat case_match; simplify_eq; done. Qed.

Lemma fold_remove ds (l : list Row) : fold_left (fun t d => remove_row (r_id d) t) ds l = List.filter (fun r => negb (existsb (fun d => r_id r =? r_id d) ds)) l.
Proof.
  revert l. induction ds as [|d ds IH]; intros l; cbn [fold_left existsb negb].
  - induction l as [|x l IHl]; cbn; [done|]. by rewrite <- IHl.
  - rewrite IH. unfold remove_row. induction l as [|x l IHl]; [done|]. cbn [List.filter].
    destruct (r_id x =? r_id d); cbn [negb orb]; [done|]. cbn [List.filter]. by destruct (negb _); rewrite IHl.
Qed.

(** One network of the pass, [k] its keeper and [d] the others. *)
Section One.
Context (G : list string) (c : string) (k : Row) (d : list Row) (HG : c ∉ G) (Hcls : class c rows = k :: d).

Let gone (r : Row) : bool := existsb (fun x => r_id r =? r_id x) d.
Let reason := fold_left inherit d (r_reason k).

Lemma in_network r : r ∈ k :: d <-> r ∈ t /\ canon_of r = Some c.
Proof. by rewrite <- Hcls, class_rows. Qed.

Lemma keeper_in : k ∈ t /\ canon_of k = Some c.
Proof. apply (proj1 (in_network k)). by left. Qed.

Lemma gone_iff r : r ∈ t -> gone r = true <-> r ∈ d.
Proof.
  intros Hr. unfold gone. rewrite existsb_exists. split.
  - intros (x & Hx & He%Z.eqb_eq). apply list_elem_of_In in Hx. rewrite (row_by_id t r x Hids Hr); [done| |done].
    apply (proj1 (in_network x)). by right.
  - intros Hd. exists r. split; [by apply list_elem_of_In|lia].
Qed.

Lemma keeper_stays : gone k = false.
Proof.
  apply not_true_is_false. intros Hg%gone_iff; [|apply keeper_in]. pose proof (class_ids c) as Hn. rewrite Hcls in Hn. cbn [map] in Hn.
  apply NoDup_cons in Hn as [Hk _]. apply Hk. by apply list_elem_of_In, in_map, list_elem_of_In.
Qed.

(** Rows of other networks are left alone. *)
Lemma outsider r r' : r ∈ t -> canon_of r <> Some c -> r_id r' = r_id r -> gone r' = false /\ r_id r' <> r_id k.
Proof.
  intros Hr Hc He. split.
  - apply not_true_is_false. unfold gone. rewrite He. intros Hg%gone_iff; [|done].
    destruct (proj1 (in_network r)) as [_ ?]; [by right|done].
  - rewrite He. intros Hk. pose proof keeper_in as [Hkt Hkc]. by rewrite (row_by_id t r k Hids Hr Hkt Hk) in Hc.
Qed.

Definition settle_row (r : Row) : Row := if r_id r =? r_id k then mkRow (r_id k) c reason else r.

Lemma step_row r :
  r ∈ t -> (r' ← healed G r; if negb (gone r') then Some (settle_row r') else None) = healed (G ++ [c]) r.
Proof.
  intros Hr. destruct (decide (canon_of r = Some c)) as [Hc|Hc].
  - unfold healed. rewrite Hc, bool_decide_eq_false_2, bool_decide_eq_true_2 by set_solver. cbn [mbind option_bind]. rewrite Hcls.
    destruct (gone r) eqn:Hg; cbn [negb].
    + pose proof Hg as Hd%gone_iff; [|done]. destruct (Z.eqb_spec (r_id r) (r_id k)) as [He|]; [|done].
      rewrite (row_by_id t r k Hids Hr (proj1 keeper_in) He), keeper_stays in Hg. done.
    + assert (r ∈ k :: d) as [->|Hd]%elem_of_cons by (by apply in_network).
      * unfold settle_row. by rewrite Z.eqb_refl.
      * by rewrite (proj2 (gone_iff r Hr) Hd) in Hg.
  - assert (healed (G ++ [c]) r = healed G r) as ->.
    { unfold healed. destruct (canon_of r) as [c'|]; [|done]. by rewrite (bool_decide_ext (c' ∈ G ++ [c]) (c' ∈ G)) by set_solver. }
    destruct (healed G r) as [r'|] eqn:Hh; [|done]. cbn [mbind option_bind]. apply healed_id in Hh.
    destruct (outsider r r' Hr Hc Hh) as [-> Hne]. unfold settle_row. by rewrite (proj2 (Z.eqb_neq _ _) Hne).
Qed.

(** What is left of the table when the others are removed. *)
Let left := List.filter (fun r => negb (gone r)) (omap (healed G) t).

Lemma left_settled : map settle_row left = omap (healed (G ++ [c])) t.
Proof.
  unfold left. pose proof step_row as Hs. revert Hs. clear. generalize (healed (G ++ [c])) as h'. generalize (healed G) as h. intros h h'.
  induction t as [|r l IH]; intros Hs; [done|]. specialize (IH ltac:(intros x Hx; apply Hs; by right)). pose proof (Hs r ltac:(by left)) as Hr.
  cbn [omap list_omap]. rewrite <- Hr. destruct (h r) as [r'|]; cbn [mbind option_bind]; [|done]. cbn [List.filter].
  destruct (negb (gone r')); cbn [map]; by rewrite IH.
Qed.

Lemma left_inv r' : r' ∈ left -> exists r, r ∈ t /\ healed G r = Some r' /\ gone r' = false.
Proof.
  unfold left. intros [Hin Hg]%list_elem_of_In%List.filter_In. apply list_elem_of_In, list_elem_of_omap in Hin as (r & Hr & Hh).
  exists r. split; [done|]. split; [done|]. by apply negb_true_iff.
Qed.

(** The rewrite meets no other row with the canonical text. *)
Lemma no_clash : existsb (fun r => negb (r_id r =? r_id k) && String.eqb (r_value r) c) left = false.
Proof.
  apply not_true_is_false. intros (r' & Hin & Hb)%existsb_exists. apply list_elem_of_In, left_inv in Hin as (r & Hr & Hh & Hg).
  reflect_bools. match goal with H : String.eqb _ _ = true |- _ => apply String.eqb_eq in H; rename H into Hv end.
  pose proof (healed_id G r r' Hh) as Hid. destruct (decide (canon_of r = Some c)) as [Hc|Hc].
  - unfold healed in Hh. rewrite Hc, bool_decide_eq_false_2 in Hh by done. injection Hh as <-.
    assert (r ∈ k :: d) as [->|Hd]%elem_of_cons by (by apply in_network); [done|]. by rewrite (proj2 (gone_iff r Hr) Hd) in Hg.
  - apply Hc. unfold healed in Hh. destruct (canon_of r) as [c'|] eqn:Hcr.
    + case_bool_decide.
      * repeat case_match; simplify_eq; done.
      * injection Hh as <-. unfold canon_of in Hcr. rewrite Hv in Hcr. rewrite <- Hcr.
        pose proof keeper_in as [_ Hk]. symmetry. rewrite Hcr. f_equal. apply canonical_fixed in Hk. congruence.
    + injection Hh as <-. pose proof keeper_in as [_ Hk]. apply canonical_fixed in Hk. unfold canon_of in Hcr. congruence.
Qed.

Lemma collapse_step : collapse (omap (healed G) t) (c, mkGroup k d) = Ok (omap (healed (G ++ [c])) t).
Proof.
  unfold collapse. cbn [keeper dupes]. rewrite fold_remove. fold reason.
  change (List.filter _ (omap (healed G) t)) with left. rewrite <- left_settled.
  destruct (negb (String.eqb c (r_value k)) || negb (bool_decide (reason = r_reason k))) eqn:E.
  - unfold rewrite_row. by rewrite no_clash.
  - reflect_bools. apply String.eqb_eq in H. apply bool_decide_eq_true in H0. unfold mret, result_ret. f_equal. symmetry.
    rewrite <- (map_id left) at 2. apply map_ext_in. intros r' Hin. apply list_elem_of_In, left_inv in Hin as (r & Hr & Hh & _).
    unfold settle_row. destruct (Z.eqb_spec (r_id r') (r_id k)) as [He|]; [|done].
    pose proof (healed_id G r r' Hh) as Hid. pose proof keeper_in as [Hkt Hkc].
    rewrite (row_by_id t r k Hids Hr Hkt ltac:(congruence)) in Hh. unfold healed in Hh. rewrite Hkc, bool_decide_eq_false_2 in Hh by done.
    injection Hh as <-. rewrite H0, H. by destruct k.
Qed.
End One.

(** All of them. *)
Lemma collapse_all groups G :
  NoDup (G ++ map fst groups) ->
  (forall c g, (c, g) ∈ groups -> group_of (class c rows) = Some g) ->
  fold_result collapse groups (omap (healed G) t) = Ok (omap (healed (G ++ map fst groups)) t).
Proof.
  revert G. induction groups as [|[c g] groups IH]; intros G Hn Hg; cbn [fold_result map fst]; [by rewrite app_nil_r|].
  assert (c ∉ G) as Hc. { apply NoDup_app in Hn as (_ & Hd & _). intros Hin. apply (Hd c Hin). by left. }
  pose proof (Hg c g ltac:(by left)) as Hgc. destruct (class c rows) as [|k d] eqn:Hcls; [done|]. injection Hgc as <-.
  rewrite (collapse_step G c k d Hc Hcls). replace (G ++ c :: map fst groups) with ((G ++ [c]) ++ map fst groups) by (by rewrite <- app_assoc).
  apply IH; [by rewrite <- app_assoc|]. intros c' g' Hin. apply Hg. by right.
Qed.

Definition all_networks : list string := map fst (byCanon rows).

Lemma pass_spec : canonicalizeExisting t = Ok (omap (healed all_networks) t).
Proof.
  unfold canonicalizeExisting. fold rows. replace t with (omap (healed []) t) at 1.
  - apply (collapse_all (byCanon rows) []); [apply byCanon_keys|]. intros c g Hin. rewrite <- byCanon_get.
    pose proof (byCanon_keys rows) as Hn. revert Hn Hin. generalize (byCanon rows). intros l. induction l as [|[c' g'] l IH]; cbn; intros Hn Hin; [by apply elem_of_nil in Hin|].
    apply NoDup_cons in Hn as [Hc Hn]. apply elem_of_cons in Hin as [[= -> ->]|Hin]; [by rewrite String.eqb_refl|].
    destruct (String.eqb_spec c c') as [->|]; [|by apply IH]. exfalso. apply Hc. apply list_elem_of_In, in_map_iff. exists (c', g).
    split; [done|by apply list_elem_of_In].
  - apply omap_some. intros r _. unfold healed. destruct (canon_of r); [|done]. by rewrite bool_decide_eq_false_2 by set_solver.
Qed.

Lemma networks_complete r c : r ∈ t -> canon_of r = Some c -> c ∈ all_networks /\ exists k d, class c rows = k :: d.
Proof.
  intros Hr Hc. assert (r ∈ class c rows) as Hin by (by apply class_rows). destruct (class c rows) as [|k d] eqn:Hcls; [by apply elem_of_nil in Hin|].
  split; [|by eexists _, _]. pose proof (byCanon_get c rows) as Hg. rewrite Hcls in Hg. cbn [group_of] in Hg.
  revert Hg. unfold all_networks. generalize (byCanon rows). intros l. induction l as [|[c' g'] l IH]; cbn; [done|].
  destruct (String.eqb_spec c c') as [->|]; [intros _; by left|intros Hl; right; by apply IH].
Qed.
End Pass.

Lemma class_first t c k d r :
  class c (sort_by r_id t) = k :: d -> r ∈ t -> canon_of r = Some c -> r_id k <= r_id r.
Proof.
  intros Hcls Hr Hc. assert (r ∈ class c (sort_by r_id t)) as Hin by (by rewrite elem_of_class, elem_of_sort_by).
  pose proof (sort_by_sorted r_id t) as Hs. revert Hcls Hin. generalize dependent (sort_by r_id t). intros l Hs. unfold class.
  induction Hs as [|x l Hl IH Hx]; cbn [List.filter]; [done|]. case_bool_decide; [|done]. intros [= <- <-] [->|Hin]%elem_of_cons; [lia|].
  rewrite Forall_forall in Hx. apply Hx. apply list_elem_of_In, List.filter_In in Hin as [Hin _]. by apply list_elem_of_In.
Qed.

Lemma allowed_iff t ip : allowed t ip = true <-> exists r e, r ∈ t /\ parseCidrEntry (r_value r) = Some e /\ ipMatchesEntry ip e = true.
Proof.
  unfold allowed, ipInAny. rewrite existsb_exists. split.
  - intros (e & Hin & Hm). apply list_elem_of_In, list_elem_of_omap in Hin as (r & Hr & He). eauto.
  - intros (r & e & Hr & He & Hm). exists e. split; [|done]. apply list_elem_of_In, list_elem_of_omap. eauto.
Qed.

(** A row that survives, and where each row went. *)
Lemma survivor t r' :
  NoDup (map r_id t) -> r' ∈ omap (healed t (all_networks t)) t ->
  exists r, r ∈ t /\ r_id r' = r_id r /\
    (canon_of r = None /\ r' = r \/
     exists c d, canon_of r = Some c /\ r_value r' = c /\ class c (sort_by r_id t) = r :: d /\
       r_reason r' = fold_left inherit d (r_reason r)).
Proof.
  intros Hids (r & Hr & Hh)%list_elem_of_omap. exists r. split; [done|]. split; [by eapply healed_id|].
  unfold healed in Hh. destruct (canon_of r) as [c|] eqn:Hc; [right|left; by injection Hh].
  destruct (networks_complete t r c Hr Hc) as (Hin & k & d & Hcls). rewrite bool_decide_eq_true_2, Hcls in Hh by done.
  destruct (Z.eqb_spec (r_id r) (r_id k)) as [He|]; [|done]. injection Hh as <-.
  assert (r = k) as ->. { apply (row_by_id t r k Hids Hr); [|done]. apply (class_rows t c k). rewrite Hcls. by left. }
  by exists c, d.
Qed.

Lemma represented t r c :
  NoDup (map r_id t) -> r ∈ t -> canon_of r = Some c -> exists r', r' ∈ omap (healed t (all_networks t)) t /\ r_value r' = c.
Proof.
  intros Hids Hr Hc. destruct (networks_complete t r c Hr Hc) as (Hin & k & d & Hcls).
  assert (k ∈ t /\ canon_of k = Some c) as [Hk Hkc]. { apply (class_rows t c k). rewrite Hcls. by left. }
  exists (mkRow (r_id k) c (fold_left inherit d (r_reason k))). split; [|done]. apply list_elem_of_omap. exists k. split; [done|].
  unfold healed. rewrite Hkc, bool_decide_eq_true_2, Hcls by done. by rewrite Z.eqb_refl.
Qed.

Section Healed.
Context (t : list Row) (Hids : NoDup (map r_id t)) (Hvals : NoDup (map r_value t)).

Let t' := omap (healed t (all_networks t)) t.

Lemma healed_ids : NoDup (map r_id t').
Proof.
  unfold t'. revert Hids. generalize (fun r r' (H : healed t (all_networks t) r = Some r') => healed_id t _ r r' H).
  generalize (healed t (all_networks t)) as f. clear. intros f Hf. induction t as [|r l IH]; cbn; intros Hn; [constructor|].
  apply NoDup_cons in Hn as [Hr Hn]. destruct (f r) as [r'|] eqn:Hfr; [|by apply IH]. cbn [map]. constructor; [|by apply IH].
  rewrite (Hf r r' Hfr). intros Hin. apply Hr. apply list_elem_of_In, in_map_iff in Hin as (x' & He & Hx').
  apply list_elem_of_In, list_elem_of_omap in Hx' as (x & Hx & Hfx). rewrite <- He, (Hf x x' Hfx). by apply list_elem_of_In, in_map, list_elem_of_In.
Qed.

(** No two rows name the same network. *)
Lemma healed_values : NoDup (map r_value t').
Proof.
  pose proof healed_ids as Hn. apply (NoDup_fmap_2_strong r_value); [|by apply NoDup_fmap_1 in Hn].
  intros x y Hx Hy He. apply (row_by_id t' x y healed_ids Hx Hy).
  destruct (survivor t x Hids Hx) as (rx & Hrx & Hidx & [[Hcx ->]|(cx & dx & Hcx & Hvx & Hclx & _)]);
  destruct (survivor t y Hids Hy) as (ry & Hry & Hidy & [[Hcy ->]|(cy & dy & Hcy & Hvy & Hcly & _)]).
  - f_equal. by apply (nodup_map_inj r_value t).
  - exfalso. pose proof (canonical_fixed _ _ Hcy) as Hf. unfold canon_of in Hcx. congruence.
  - exfalso. pose proof (canonical_fixed _ _ Hcx) as Hf. unfold canon_of in Hcy. congruence.
  - rewrite Hidx, Hidy. assert (cx = cy) as -> by congruence. rewrite Hclx in Hcly. by injection Hcly as -> _.
Qed.

(** Every row that parses is in canonical form. *)
Lemma healed_canonical r' : r' ∈ t' -> canon_of r' = None \/ canon_of r' = Some (r_value r').
Proof.
  intros Hr'. destruct (survivor t r' Hids Hr') as (r & _ & _ & [[Hc ->]|(c & d & Hc & Hv & _)]); [by left|right].
  unfold canon_of. rewrite Hv. by eapply canonical_fixed.
Qed.

Lemma healed_allowed ip : allowed t' ip = allowed t ip.
Proof.
  apply eq_bool_prop_intro. rewrite !Is_true_true, !allowed_iff. split.
  - intros (r' & e & Hr' & He & Hm). destruct (survivor t r' Hids Hr') as (r & Hr & _ & [[Hc ->]|(c & d & Hc & Hv & _)]); [by exists r, e|].
    destruct (canonical_inv _ _ Hc) as (e0 & He0 & Hwf & ->). rewrite Hv, format_parse_entry in He by done. injection He as <-. by exists r, e0.
  - intros (r & e & Hr & He & Hm). assert (canon_of r = Some (formatCidrEntry e)) as Hc by (unfold canon_of, canonicalizeIpOrCidr; by rewrite He).
    destruct (represented t r _ Hids Hr Hc) as (r' & Hr' & Hv). exists r', e. split; [done|]. split; [|done].
    rewrite Hv. apply format_parse_entry. by eapply parse_entry_wf.
Qed.

(** A second pass changes nothing. *)
Lemma healed_again : canonicalizeExisting t' = Ok t'.
Proof.
  rewrite (pass_spec t' healed_ids). f_equal. apply omap_some. intros r' Hr'. unfold healed. destruct (canon_of r') as [c|] eqn:Hc; [|done].
  destruct (networks_complete t' r' c Hr' Hc) as (Hin & k & d & Hcls). rewrite bool_decide_eq_true_2, Hcls by done.
  assert (forall x, x ∈ k :: d -> x ∈ t' /\ r_value x = c) as Hx.
  { intros x Hx. rewrite <- Hcls in Hx. apply class_rows in Hx as [Hxt Hxc]. split; [done|].
    destruct (healed_canonical x Hxt) as [?|?]; congruence. }
  assert (k = r' /\ d = []) as [-> ->].
  { assert (forall x, x ∈ k :: d -> x = r') as Hall.
    { intros x Hxin. destruct (Hx x Hxin) as [Hxt Hxv]. apply (nodup_map_inj r_value t'); [apply healed_values|done|done|].
      destruct (healed_canonical r' Hr') as [?|?]; congruence. }
    split; [apply Hall; by left|]. pose proof (class_ids t' healed_ids c) as Hn. rewrite Hcls in Hn. destruct d as [|x d]; [done|]. exfalso.
    cbn [map] in Hn. apply NoDup_cons in Hn as [Hn _]. apply Hn. rewrite (Hall k ltac:(by left)), (Hall x ltac:(right; by left)). by left. }
  rewrite Z.eqb_refl. cbn [fold_left]. f_equal. destruct (healed_canonical r' Hr') as [?|He]; [congruence|]. rewrite Hc in He. injection He as ->. by destruct r'.
Qed.
End Healed.

(** Every number of a family has a spelling the matcher reads. *)
Lemma spelled b v : b = 32 \/ b = 128 -> 0 <= v < 2 ^ b -> ipToBigInt (formatIp v b) = Some (mkIp v b).
Proof.
  intros Hb Hv. unfold ipToBigInt. rewrite parseIp_formatIp; [done|].
  destruct Hb as [-> | ->]; [left|right]; (split; [done|]); [done|]. split; [done|done].
Qed.

(** ** Properties *)

(** The mask test is block membership, and the canonical text of an
    entry is its network: an address matches an entry exactly when it is of
    the entry's family and in its block; and two entries have the same
    canonical text exactly when they match the same addresses, so the UNIQUE
    text of the stored allowlist is a unique network. *)
Theorem entries_match_blocks s s' e e' :
  parseCidrEntry s = Some e -> parseCidrEntry s' = Some e' ->
  (forall ip p, ipToBigInt ip = Some p -> ipMatchesEntry ip e = true <-> in_entry e (ip_bits p) (ip_v p)) /\
  (canonicalizeIpOrCidr s = canonicalizeIpOrCidr s' <-> forall ip, ipMatchesEntry ip e = ipMatchesEntry ip e').
Proof.
  intros He He'. pose proof (parse_entry_wf _ _ He) as Hwf. pose proof (parse_entry_wf _ _ He') as Hwf'.
  split; [intros ip p Hp; by apply matches_entry|]. unfold canonicalizeIpOrCidr. rewrite He, He'. split.
  - intros [= Hc]. by rewrite (format_entry_inj e e' Hwf Hwf' Hc).
  - intros Hall. assert (e_bits e = 32 \/ e_bits e = 128) as Hb by (destruct (we_family e Hwf); auto).
    assert (forall v, 0 <= v < 2 ^ e_bits e -> in_entry e (e_bits e) v <-> in_entry e' (e_bits e) v) as Hin.
    { intros v Hv. pose proof (spelled (e_bits e) v Hb Hv) as Hs. rewrite <- (matches_entry _ _ e Hwf Hs), <- (matches_entry _ _ e' Hwf' Hs). by rewrite Hall. }
    assert (e_bits e = e_bits e') as Hbits.
    { destruct (proj1 (Hin (e_network e) (we_range e Hwf))) as [? _]; [|done]. split; [done|].
      pose proof (pow2_pos (e_bits e - e_prefix e) ltac:(pose proof (we_prefix e Hwf); lia)). lia. }
    by rewrite (entry_ext e e' Hwf Hwf' Hin Hbits).
Qed.

Lemma entries_match_blocks_witness :
  exists e e', parseCidrEntry "10.5.5.5/8" = Some e /\ parseCidrEntry "10.0.0.0/8" = Some e' /\ forall ip, ipMatchesEntry ip e = ipMatchesEntry ip e'.
Proof.
  eexists _, _. split; [vm_compute; reflexivity|]. split; [vm_compute; reflexivity|].
  apply (entries_match_blocks "10.5.5.5/8" "10.0.0.0/8" _ _ ltac:(vm_compute; reflexivity) ltac:(vm_compute; reflexivity)).
  vm_compute. reflexivity.
Defined.

(** The boot pass over the stored allowlist is safe. From any table whose
    ids and texts are unique it does not fail on the UNIQUE texts; it leaves
    them unique, at most one row per network, every text that parses in
    canonical form and every other row alone; a network's row is the oldest
    of its rows, with the first reason among them that says something; the
    list lets exactly the same addresses through; and a second pass changes
    nothing. *)
Theorem allowlist_healed t :
  NoDup (map r_id t) -> NoDup (map r_value t) ->
  exists t', canonicalizeExisting t = Ok t' /\ canonicalizeExisting t' = Ok t' /\
    NoDup (map r_id t') /\ NoDup (map r_value t') /\
    (forall r', r' ∈ t' -> canon_of r' = None \/ canon_of r' = Some (r_value r')) /\
    (forall r, r ∈ t -> canon_of r = None -> r ∈ t') /\
    (forall r c, r ∈ t -> canon_of r = Some c -> exists k r', k ∈ t /\ canon_of k = Some c /\ r_id k <= r_id r /\
       r' ∈ t' /\ r_id r' = r_id k /\ r_value r' = c /\
       r_reason r' = fold_left inherit (drop 1 (class c (sort_by r_id t))) (r_reason k)) /\
    (forall ip, allowed t' ip = allowed t ip).
Proof.
  intros Hids Hvals. exists (omap (healed t (all_networks t)) t). split; [by apply pass_spec|]. split; [by apply healed_again|].
  split; [by apply healed_ids|]. split; [by apply healed_values|]. split; [intros r'; by apply healed_canonical|]. split; [|split].
  - intros r Hr Hc. apply list_elem_of_omap. exists r. split; [done|]. unfold healed. by rewrite Hc.
  - intros r c Hr Hc. destruct (networks_complete t r c Hr Hc) as (Hin & k & d & Hcls).
    assert (k ∈ t /\ canon_of k = Some c) as [Hk Hkc]. { apply (class_rows t c k). rewrite Hcls. by left. }
    exists k, (mkRow (r_id k) c (fold_left inherit d (r_reason k))). split_and!; [done|done|by eapply class_first| |done|done|by rewrite Hcls].
    apply list_elem_of_omap. exists k. split; [done|]. unfold healed. rewrite Hkc, bool_decide_eq_true_2, Hcls by done. by rewrite Z.eqb_refl.
  - intros ip. by apply healed_allowed.
Qed.

Lemma allowlist_healed_witness :
  exists t', canonicalizeExisting [mkRow 1 "10.5.5.5/8" None; mkRow 2 "10.0.0.0/8" (Some "office"); mkRow 3 "bogus" None] = Ok t' /\
    canonicalizeExisting t' = Ok t' /\ t' = [mkRow 1 "10.0.0.0/8" (Some "office"); mkRow 3 "bogus" None].
Proof.
  destruct (allowlist_healed [mkRow 1 "10.5.5.5/8" None; mkRow 2 "10.0.0.0/8" (Some "office"); mkRow 3 "bogus" None]) as (t' & Hrun & Hagain & _).
  - apply (bool_decide_eq_true_1 _). vm_compute. reflexivity.
  - apply (bool_decide_eq_true_1 _). vm_compute. reflexivity.
  - exists t'. split; [exact Hrun|]. split; [exact Hagain|].
    assert (Ok (E:=sql_error) t' = Ok [mkRow 1 "10.0.0.0/8" (Some "office"); mkRow 3 "bogus" None]) as He by (rewrite <- Hrun; vm_compute; reflexivity).
    by injection He.
Defined.
