(* ===== verification/AfterCommit.v ===== *)
(** * The after-commit hook queue: [server/src/utils/after-commit.js] and
      [server/src/models/configuration-generation.js]

    Configuration hooks are asked for by requests and background jobs and run
    later, one run of a hook at a time. The volatile part of the state is the
    single-flight flags, the hold count, the queued microtasks and the
    handlers whose Promise has not settled; the durable part is the
    [configuration_generations] table, which survives a restart. Timestamps
    are left out. The handlers belong to the backend layer: what one does is
    the label of the step that runs it (it returns, throws or returns a
    Promise, and may itself ask for hooks before that). *)

From stdpp Require Import functions.
From S2P Require Import Prelude JsString.

Inductive hook := regenerate_dns | regenerate_dhcp | regenerate_dnsmasq_conf.

#[export] Instance hook_eq_dec : EqDecision hook.
Proof. solve_decision. Defined.

Definition hook_name (h : hook) : string :=
  match h with
  | regenerate_dns => "regenerate_dns"
  | regenerate_dhcp => "regenerate_dhcp"
  | regenerate_dnsmasq_conf => "regenerate_dnsmasq_conf"
  end.

Definition HOOK_ORDER : list hook := [regenerate_dns; regenerate_dhcp; regenerate_dnsmasq_conf].

(** ** The [configuration_generations] table *)

Inductive gen_status := Pending | Applying | Applied | Failed.

Record Row := mkRow { desired : Z; applied : Z; status : gen_status; last_error : option string }.

Abbreviation Table := (hook -> option Row).

Definition enqueueGeneration (db : Table) (h : hook) : Table :=
  <[h := Some match db h with
              | None => mkRow 1 0 Pending None
              | Some r => mkRow (desired r + 1) (applied r) Pending None
              end]> db.

Definition update (db : Table) (h : hook) (f : Row -> Row) : Table := <[h := option_map f (db h)]> db.

Definition markApplying (db : Table) (h : hook) : Table :=
  update db h (fun r => mkRow (desired r) (applied r) Applying None).

Definition markApplied (db : Table) (h : hook) (generation : Z) : Table :=
  update db h (fun r => mkRow (desired r) (Z.max (applied r) generation)
                          (if generation <? desired r then Pending else Applied) None).

Definition markFailed (db : Table) (h : hook) (error : string) : Table :=
  update db h (fun r => mkRow (desired r) (applied r) Failed
                          (Some (take_string 2048 (if String.eqb error "" then "Unknown apply failure" else error)))).

(** [ORDER BY hook_name] *)
Definition listGenerations (db : Table) : list (hook * Row) :=
  omap (fun h => r ← db h; Some (h, r)) [regenerate_dhcp; regenerate_dns; regenerate_dnsmasq_conf].

(** ** The state of the process *)

Record HookState := mkHookState { running : bool; pending : bool }.

(** A call of [holdHooks]: polling until nothing runs, resolved with its
    release, or released. *)
Inductive hold_phase := Waiting | Held | Released.

#[export] Instance hold_phase_eq_dec : EqDecision hold_phase.
Proof. solve_decision. Defined.

Record State := mkState {
  hookState : hook -> HookState;
  holds : nat;
  calls : list hold_phase;       (** the calls of [holdHooks], in order *)
  tasks : list hook;             (** queued microtasks, oldest first *)
  inflight : list (hook * Z);    (** runs whose Promise is not settled, with their generation *)
  db : Table }.

Definition set_hook (s : State) (h : hook) (st : HookState) : State :=
  mkState (<[h := st]> (hookState s)) (holds s) (calls s) (tasks s) (inflight s) (db s).
Definition set_db (s : State) (d : Table) : State :=
  mkState (hookState s) (holds s) (calls s) (tasks s) (inflight s) d.
Definition set_tasks (s : State) (t : list hook) : State :=
  mkState (hookState s) (holds s) (calls s) t (inflight s) (db s).
Definition set_inflight (s : State) (i : list (hook * Z)) : State :=
  mkState (hookState s) (holds s) (calls s) (tasks s) i (db s).
Definition set_holds (s : State) (n : nat) (c : list hold_phase) : State :=
  mkState (hookState s) n c (tasks s) (inflight s) (db s).

(** [fireHook]: the microtask it queues is an entry of [tasks]. *)
Definition fireHook (s : State) (name : hook) : State :=
  let st := hookState s name in
  if running st || (0 <? holds s)%nat
  then set_hook s name (mkHookState (running st) true)
  else set_tasks (set_hook s name (mkHookState true false)) (tasks s ++ [name]).

Definition queueRegen (s : State) (name : hook) : State :=
  fireHook (set_db s (enqueueGeneration (db s) name)) name.

(** The end of a run. *)
Definition finish (s : State) (name : hook) : State :=
  let st := hookState s name in
  let s := set_hook s name (mkHookState false (pending st)) in
  if pending st then fireHook s name else s.

Inductive outcome := Returns | Throws (message : string) | Promises.

Section Handlers.
(** The hooks with a registered handler ([registerHookHandlers]). *)
Context (registered : hook -> bool).

(** The microtask of [fireHook]; [during] are the hooks the handler asks
    for while it runs. *)
Definition runHook (s : State) (name : hook) (during : list hook) (o : outcome) : State :=
  let s := set_db s (markApplying (db s) name) in
  let generation := match db s name with Some r => desired r | None => 0 end in
  if negb (registered name)
  then finish (set_db s (markFailed (db s) name ("No handler registered for " +:+ hook_name name))) name
  else
    let s := fold_left queueRegen during s in
    match o with
    | Returns => finish (set_db s (markApplied (db s) name generation)) name
    | Throws message => finish (set_db s (markFailed (db s) name message)) name
    | Promises => set_inflight s (inflight s ++ [(name, generation)])
    end.

(** The Promise of a run settles. *)
Definition settleHook (s : State) (name : hook) (generation : Z) (error : option string) : State :=
  let s := match error with
           | None => set_db s (markApplied (db s) name generation)
           | Some message => set_db s (markFailed (db s) name message)
           end in
  finish s name.

(** [res.on('finish')] of [afterCommitMiddleware], with the Set of hooks the
    request asked for. *)
Definition onResponseFinish (s : State) (statusCode : Z) (queue : list hook) : State :=
  if (400 <=? statusCode) || match queue with [] => true | _ => false end then s
  else fold_left (fun s name => if decide (name ∈ queue) then queueRegen s name else s) HOOK_ORDER s.

(** [holdHooks] up to its wait, the poll that ends the wait, and the release
    it resolves with. *)
Definition holdHooks (s : State) : State := set_holds s (S (holds s)) (calls s ++ [Waiting]).

Definition someRunning (s : State) : bool := existsb (fun h => running (hookState s h)) HOOK_ORDER.

Definition releaseHold (s : State) (i : nat) : State :=
  let s := set_holds s (pred (holds s)) (<[i := Released]> (calls s)) in
  if (0 <? holds s)%nat then s
  else fold_left (fun s name => if pending (hookState s name) then fireHook s name else s) HOOK_ORDER s.

Definition resumePendingRegeneration (s : State) : State :=
  fold_left (fun s '(h, r) =>
               if (applied r <? desired r) || match status r with Applied => false | _ => true end
               then fireHook s h else s)
    (listGenerations (db s)) s.

(** A process that starts over the table another left. *)
Definition boot (d : Table) : State :=
  resumePendingRegeneration (mkState (fun _ => mkHookState false false) 0 [] [] [] d).

(** ** Steps *)

Inductive label :=
| LFinish (statusCode : Z) (queue : list hook)
| LQueue (h : hook)
| LRun (h : hook) (during : list hook) (o : outcome)
| LSettle (h : hook) (generation : Z) (error : option string)
| LHold
| LGrant (i : nat)
| LRelease (i : nat)
| LRestart.

Definition exec (s : State) (l : label) : option State :=
  match l with
  | LFinish statusCode queue => Some (onResponseFinish s statusCode queue)
  | LQueue h => Some (queueRegen s h)
  | LRun h during o =>
      match tasks s with
      | t :: rest => if decide (t = h) then Some (runHook (set_tasks s rest) h during o) else None
      | [] => None
      end
  | LSettle h generation error =>
      match list_find (fun r => r = (h, generation)) (inflight s) with
      | Some (i, _) => Some (settleHook (set_inflight s (delete i (inflight s))) h generation error)
      | None => None
      end
  | LHold => Some (holdHooks s)
  | LGrant i =>
      match calls s !! i with
      | Some Waiting => if someRunning s then None else Some (set_holds s (holds s) (<[i := Held]> (calls s)))
      | _ => None
      end
  | LRelease i =>
      match calls s !! i with
      | Some Held => Some (releaseHold s i)
      | Some Released => Some s
      | _ => None
      end
  | LRestart => Some (boot (db s))
  end.

Definition step (s : State) (l : label) (s' : State) : Prop := exec s l = Some s'.

End Handlers.

Definition migrated : Table := fun _ => Some (mkRow 0 0 Applied None).

Fixpoint exec_all (registered : hook -> bool) (s : State) (ls : list label) : option State :=
  match ls with
  | [] => Some s
  | l :: ls' => s' ← exec registered s l; exec_all registered s' ls'
  end.

Example burst_coalesces :
  option_map (fun s => (tasks s, map (fun h => db s h) HOOK_ORDER))
    (exec_all (fun _ => true) (boot migrated)
       [LQueue regenerate_dns; LQueue regenerate_dns; LRun regenerate_dns [] Promises;
        LQueue regenerate_dns; LQueue regenerate_dns; LSettle regenerate_dns 2 None])
  = Some ([regenerate_dns], [Some (mkRow 4 2 Pending None); Some (mkRow 0 0 Applied None); Some (mkRow 0 0 Applied None)]).
Proof. vm_compute. reflexivity. Qed.

(** ** The invariant of one hook *)

(** How often a hook is queued, and how many of its runs have not settled. *)
Definition queued (s : State) (h : hook) : nat := length (filter (fun t => t = h) (tasks s)).
Definition unsettled (s : State) (h : hook) : nat := length (filter (fun r => fst r = h) (inflight s)).

Definition wanted (s : State) (h : hook) : Z := match db s h with Some r => desired r | None => 0 end.

(** Nothing is left to do for the row: it is applied, or it failed and says so. *)
Definition settled (o : option Row) : Prop :=
  match o with
  | None => True
  | Some r => status r = Failed \/ (status r = Applied /\ applied r = desired r)
  end.

Definition row_ok (o : option Row) : Prop :=
  match o with None => True | Some r => 0 <= applied r <= desired r end.

Definition b2n (b : bool) : nat := if b then 1%nat else 0%nat.

(** A hook that is not asked for again has read the last generation. *)
Definition current (s : State) (h : hook) : Prop :=
  forall g, (h, g) ∈ inflight s -> g <= wanted s h /\ (pending (hookState s h) = false -> g = wanted s h).

Record hook_inv (s : State) (h : hook) : Prop := {
  hi_single : (queued s h + unsettled s h)%nat = b2n (running (hookState s h));
  hi_pending : pending (hookState s h) = true -> running (hookState s h) = true \/ (0 < holds s)%nat;
  hi_settled : running (hookState s h) = false -> pending (hookState s h) = false -> settled (db s h);
  hi_current : current s h;
  hi_row : row_ok (db s h)
}.

(** The same for a hook just asked for: its row may be ahead of its flags. *)
Record hook_dirty (s : State) (h : hook) : Prop := {
  hd_single : (queued s h + unsettled s h)%nat = b2n (running (hookState s h));
  hd_bound : forall g, (h, g) ∈ inflight s -> g <= wanted s h;
  hd_row : row_ok (db s h)
}.

Lemma hook_inv_dirty s h : hook_inv s h -> hook_dirty s h.
Proof. intros []. split; [done| |done]. intros g Hg. by apply hi_current0. Qed.

(** What the steps of one hook leave alone in another. *)
Definition same_for (s s' : State) (h : hook) : Prop :=
  hookState s' h = hookState s h /\ holds s' = holds s /\ db s' h = db s h /\
  queued s' h = queued s h /\ filter (fun r => fst r = h) (inflight s') = filter (fun r => fst r = h) (inflight s).

Lemma same_for_refl s h : same_for s s h.
Proof. done. Qed.

Lemma same_for_trans s1 s2 s3 h : same_for s1 s2 h -> same_for s2 s3 h -> same_for s1 s3 h.
Proof. intros (? & ? & ? & ? & ?) (? & ? & ? & ? & ?). split_and!; congruence. Qed.

Lemma same_for_inflight s s' h g : same_for s s' h -> (h, g) ∈ inflight s' <-> (h, g) ∈ inflight s.
Proof.
  intros (_ & _ & _ & _ & Hf). transitivity ((h, g) ∈ filter (fun r => fst r = h) (inflight s')).
  - rewrite list_elem_of_filter. naive_solver.
  - rewrite Hf, list_elem_of_filter. naive_solver.
Qed.

Lemma same_for_inv s s' h : same_for s s' h -> hook_inv s h -> hook_inv s' h.
Proof.
  intros Hs [H1 H2 H3 H4 H5]. pose proof Hs as (E1 & E2 & E3 & E4 & E5).
  split; unfold unsettled, current, wanted in *; rewrite ?E1, ?E2, ?E3, ?E4, ?E5 in *; try done.
  intros g Hg%(same_for_inflight s s' h g Hs). by apply H4.
Qed.

Lemma length_filter_snoc (l : list hook) (h name : hook) :
  length (filter (fun t => t = h) (l ++ [name])) = (length (filter (fun t => t = h) l) + b2n (bool_decide (name = h)))%nat.
Proof.
  rewrite filter_app, length_app. f_equal.
  case_bool_decide; by rewrite ?filter_cons_True, ?filter_cons_False by done.
Qed.

Ltac hooks :=
  unfold set_hook, set_db, set_tasks, set_inflight, set_holds, enqueueGeneration, markApplying, markApplied, markFailed, update, current, wanted in *;
  cbn [hookState holds calls tasks inflight db running pending] in *;
  rewrite ?fn_lookup_insert in *; rewrite ?fn_lookup_insert_ne in * by done;
  cbn [running pending desired applied status last_error b2n] in *.

Lemma fireHook_same s name h : h <> name -> same_for s (fireHook s name) h.
Proof.
  intros Hne. unfold fireHook. destruct (_ || _).
  - unfold same_for. hooks. done.
  - unfold same_for, queued. hooks. rewrite length_filter_snoc, bool_decide_eq_false_2 by done.
    split_and!; done || (simpl; lia).
Qed.

Lemma queueRegen_same s name h : h <> name -> same_for s (queueRegen s name) h.
Proof.
  intros Hne. eapply same_for_trans; [|by apply fireHook_same]. unfold same_for. hooks. done.
Qed.

Lemma finish_same s name h : h <> name -> same_for s (finish s name) h.
Proof.
  intros Hne. unfold finish. destruct (pending (hookState s name)).
  - eapply same_for_trans; [|by apply fireHook_same]. unfold same_for. hooks. done.
  - unfold same_for. hooks. done.
Qed.

(** [fireHook] restores the invariant of a hook that was asked for. *)
Lemma fireHook_inv s h : hook_dirty s h -> hook_inv (fireHook s h) h.
Proof.
  intros [H1 H2 H3]. unfold fireHook. destruct (running (hookState s h)) eqn:Hr; cbn [orb].
  - split; unfold queued, unsettled; hooks; try done; auto.
    intros g Hg. split; [by apply H2|done].
  - destruct (Nat.ltb_spec 0 (holds s)).
    + split; unfold queued, unsettled; hooks; try done; auto. intros g Hg. split; [by apply H2|done].
    + simpl in H1. split.
      * unfold unsettled, queued in *. hooks. rewrite length_filter_snoc, bool_decide_eq_true_2 by done. simpl. lia.
      * hooks. done.
      * hooks. done.
      * hooks. intros g Hg. exfalso. assert ((h, g) ∈ filter (fun r => fst r = h) (inflight s)) as Hin
          by (rewrite list_elem_of_filter; done).
        unfold unsettled in H1. destruct (filter _ (inflight s)); [by apply not_elem_of_nil in Hin|simpl in H1; lia].
      * hooks. done.
Qed.

Lemma enqueue_row_ok o : row_ok o -> row_ok (Some match o with
    | None => mkRow 1 0 Pending None
    | Some r => mkRow (desired r + 1) (applied r) Pending None
    end).
Proof. destruct o as [r|]; simpl; lia. Qed.

Lemma queueRegen_inv s h : hook_dirty s h -> hook_inv (queueRegen s h) h.
Proof.
  intros [H1 H2 H3]. apply fireHook_inv. split; unfold queued, unsettled in *; hooks; [done| |by apply enqueue_row_ok].
  intros g Hg%H2. destruct (db s h); simpl in *; lia.
Qed.

(** A hook in the middle of its run, which read [generation]. *)
Record mid_run (generation : Z) (s : State) (h : hook) : Prop := {
  mr_queued : queued s h = 0%nat;
  mr_unsettled : unsettled s h = 0%nat;
  mr_running : running (hookState s h) = true;
  mr_bound : 0 <= generation <= wanted s h;
  mr_current : pending (hookState s h) = false -> generation = wanted s h;
  mr_row : row_ok (db s h)
}.

Lemma mid_run_same g s s' h : same_for s s' h -> mid_run g s h -> mid_run g s' h.
Proof.
  intros (E1 & E2 & E3 & E4 & E5) []. split; unfold unsettled, wanted in *; rewrite ?E1, ?E2, ?E3, ?E4, ?E5; done.
Qed.

Lemma mid_run_queueRegen g s name h : mid_run g s h -> mid_run g (queueRegen s name) h.
Proof.
  intros Hm. destruct (decide (h = name)) as [<-|Hne]; [|by eapply mid_run_same; [apply queueRegen_same|]].
  destruct Hm. unfold queueRegen, fireHook. hooks. rewrite mr_running0. cbn [orb].
  split; unfold queued, unsettled in *; hooks; try done; [|by apply enqueue_row_ok].
  destruct (db s h); simpl in *; lia.
Qed.

(** What a run leaves behind: [finish] restores the invariant, running the
    hook once more when it was asked for. *)
Lemma finish_inv s h :
  queued s h = 0%nat -> unsettled s h = 0%nat -> row_ok (db s h) ->
  (pending (hookState s h) = false -> settled (db s h)) -> hook_inv (finish s h) h.
Proof.
  intros Hq Hu Hrow Hset. unfold finish.
  assert (forall g, (h, g) ∉ inflight s) as Hno.
  { intros g Hg. assert ((h, g) ∈ filter (fun r => fst r = h) (inflight s)) as Hin by (rewrite list_elem_of_filter; done).
    unfold unsettled in Hu. destruct (filter _ (inflight s)); [by apply not_elem_of_nil in Hin|done]. }
  destruct (pending (hookState s h)).
  - apply fireHook_inv. split; unfold queued, unsettled in *; hooks; [lia| |done]. intros g Hg. by destruct (Hno g).
  - split; unfold queued, unsettled in *; hooks; try done; auto; [lia|]. intros g Hg. by destruct (Hno g).
Qed.

Lemma mark_end_row_ok o g : row_ok o -> 0 <= g <= match o with Some r => desired r | None => 0 end ->
  row_ok (option_map (fun r => mkRow (desired r) (Z.max (applied r) g) (if g <? desired r then Pending else Applied) None) o).
Proof. destruct o; simpl; lia. Qed.

Lemma mark_end_settled o g : row_ok o -> g = match o with Some r => desired r | None => 0 end ->
  settled (option_map (fun r => mkRow (desired r) (Z.max (applied r) g) (if g <? desired r then Pending else Applied) None) o).
Proof. destruct o; simpl; [|done]. intros ? ->. right. rewrite Z.ltb_irrefl. split; [done|lia]. Qed.

Lemma failed_settled o e : settled (option_map (fun r => mkRow (desired r) (applied r) Failed e) o).
Proof. destruct o; simpl; auto. Qed.

Lemma failed_row_ok o e : row_ok o -> row_ok (option_map (fun r => mkRow (desired r) (applied r) Failed e) o).
Proof. by destruct o. Qed.

#[export] Hint Resolve enqueue_row_ok mark_end_row_ok mark_end_settled failed_settled failed_row_ok : cidrella.

(** The end of a run, whatever it came to. *)
Lemma end_run_inv g s h (error : option string) :
  mid_run g s h ->
  hook_inv (finish (match error with
                    | None => set_db s (markApplied (db s) h g)
                    | Some message => set_db s (markFailed (db s) h message)
                    end) h) h.
Proof.
  intros []. destruct error; apply finish_inv; unfold queued, unsettled in *; hooks; auto with cidrella.
Qed.

Lemma end_run_same g s name (error : option string) h :
  h <> name ->
  same_for s (finish (match error with
                    | None => set_db s (markApplied (db s) name g)
                    | Some message => set_db s (markFailed (db s) name message)
                    end) name) h.
Proof.
  intros Hne. eapply same_for_trans; [|by apply finish_same]. unfold same_for. destruct error; hooks; done.
Qed.

(** Taking a settled run off the list. *)
Lemma delete_other (l : list (hook * Z)) i n h g : l !! i = Some (n, g) -> h <> n ->
  filter (fun r => fst r = h) (delete i l) = filter (fun r => fst r = h) l.
Proof.
  intros Hi Hne. rewrite <- (take_drop_middle l i (n, g) Hi) at 2. rewrite delete_take_drop.
  rewrite !filter_app, filter_cons_False by (simpl; congruence). done.
Qed.

Lemma delete_unsettled (l : list (hook * Z)) i n g : l !! i = Some (n, g) ->
  length (filter (fun r => fst r = n) l) = S (length (filter (fun r => fst r = n) (delete i l))).
Proof.
  intros Hi. rewrite <- (take_drop_middle l i (n, g) Hi) at 1. rewrite delete_take_drop.
  rewrite !filter_app, filter_cons_True, !length_app by done. simpl. lia.
Qed.

(** ** The invariant of the queue *)

Record inv (s : State) : Prop := {
  inv_hook : forall h, hook_inv s h;
  inv_holds : holds s = length (filter (fun c => c <> Released) (calls s))
}.

Definition hold_part (s : State) : nat * list hold_phase := (holds s, calls s).

Lemma fireHook_hold s name : hold_part (fireHook s name) = hold_part s.
Proof. unfold fireHook. by destruct (_ || _). Qed.

Lemma queueRegen_hold s name : hold_part (queueRegen s name) = hold_part s.
Proof. unfold queueRegen. by rewrite fireHook_hold. Qed.

Lemma finish_hold s name : hold_part (finish s name) = hold_part s.
Proof. unfold finish. destruct (pending _); [by rewrite fireHook_hold|done]. Qed.

Lemma hold_part_inv s s' :
  hold_part s' = hold_part s -> holds s = length (filter (fun c => c <> Released) (calls s)) ->
  holds s' = length (filter (fun c => c <> Released) (calls s')).
Proof. intros [= -> ->]. done. Qed.

(** An operation on one hook keeps the invariant of every other. *)
Lemma queueRegen_other s name h : hook_inv s h -> hook_inv (queueRegen s name) h.
Proof.
  intros Hi. destruct (decide (h = name)) as [<-|].
  - by apply queueRegen_inv, hook_inv_dirty.
  - eapply same_for_inv; [by apply queueRegen_same|done].
Qed.

Lemma fireHook_other s name h : hook_inv s h -> hook_inv (fireHook s name) h.
Proof.
  intros Hi. destruct (decide (h = name)) as [<-|].
  - by apply fireHook_inv, hook_inv_dirty.
  - eapply same_for_inv; [by apply fireHook_same|done].
Qed.

Lemma fold_preserves {A} (P : State -> Prop) (f : State -> A -> State) l s :
  (forall s a, P s -> P (f s a)) -> P s -> P (fold_left f l s).
Proof. intros Hf. revert s. induction l as [|a l IH]; intros s Hs; simpl; [done|]. apply IH. by apply Hf. Qed.

Section Invariant.
Context (registered : hook -> bool).

Lemma onResponseFinish_inv s code queue : inv s -> inv (onResponseFinish s code queue).
Proof.
  intros [H1 H2]. unfold onResponseFinish. destruct (_ || _); [done|]. split.
  - intros h. apply fold_preserves; [|done]. intros s' a Hs. case_decide; [by apply queueRegen_other|done].
  - revert H2. apply hold_part_inv. apply (fold_preserves (fun s' => hold_part s' = hold_part s)); [|done].
    intros s' a Hs. case_decide; [by rewrite queueRegen_hold|done].
Qed.

(** The state of a run between its start and its end. *)
Lemma run_during_inv s name rest during h :
  tasks s = name :: rest -> inv s ->
  let s0 := set_tasks s rest in
  let s1 := fold_left queueRegen during (set_db s0 (markApplying (db s0) name)) in
  hold_part s1 = hold_part s /\ (h <> name -> hook_inv s1 h) /\ mid_run (wanted s name) s1 name.
Proof.
  intros Ht [H1 _] s0 s1. split; [|split].
  - apply (fold_preserves (fun s' => hold_part s' = hold_part s)); [|done].
    intros s' a Hs. by rewrite queueRegen_hold.
  - intros Hne. apply fold_preserves; [intros; by apply queueRegen_other|]. eapply same_for_inv; [|apply (H1 h)].
    unfold same_for, queued. unfold s0. hooks. rewrite Ht, filter_cons_False by done. done.
  - apply fold_preserves; [intros; by apply mid_run_queueRegen|]. destruct (H1 name).
    assert (running (hookState s name) = true) as Hr.
    { destruct (running (hookState s name)); [done|]. unfold queued in hi_single0.
      rewrite Ht, filter_cons_True in hi_single0 by done. simpl in hi_single0. lia. }
    unfold queued, unsettled in *. rewrite Ht, filter_cons_True, Hr in hi_single0 by done. simpl in hi_single0.
    unfold s0. split; unfold queued, unsettled; hooks; try done; try lia; destruct (db s name); simpl in *; try done; lia.
Qed.

Lemma runHook_inv s name rest during o :
  tasks s = name :: rest -> inv s -> inv (runHook registered (set_tasks s rest) name during o).
Proof.
  intros Ht Hi. unfold runHook. cbv zeta. set (s0 := set_tasks s rest).
  assert (match db (set_db s0 (markApplying (db s0) name)) name with Some r => desired r | None => 0 end = wanted s name) as ->.
  { unfold s0. hooks. by destruct (db s name). }
  set (s1 := fold_left queueRegen during (set_db s0 (markApplying (db s0) name))).
  assert (forall g error s', hold_part s' = hold_part s -> (forall h, h <> name -> hook_inv s' h) -> mid_run g s' name ->
    inv (finish (match error with None => set_db s' (markApplied (db s') name g)
                 | Some m => set_db s' (markFailed (db s') name m) end) name)) as Hend.
  { intros g error s' Hh Ho Hm. split.
    - intros h. destruct (decide (h = name)) as [->|Hne]; [by apply end_run_inv|].
      eapply same_for_inv; [by apply end_run_same|by apply Ho].
    - destruct Hi as [_ Hi]. revert Hi. apply hold_part_inv. rewrite finish_hold. by destruct error. }
  destruct (registered name); cbn [negb].
  - destruct (run_during_inv s name rest during name Ht Hi) as (Hh & _ & Hm). fold s0 s1 in Hh, Hm.
    assert (forall h, h <> name -> hook_inv s1 h) as Ho
      by (intros h Hne; by apply (run_during_inv s name rest during h Ht Hi)).
    destruct o as [|m|].
    + by apply (Hend _ None).
    + by apply (Hend _ (Some m) s1 Hh Ho Hm).
    + split; [|destruct Hi as [_ Hi]; revert Hi; by apply hold_part_inv]. intros h.
      destruct (decide (h = name)) as [->|Hne].
      * destruct Hm. split; unfold queued, unsettled in *; hooks; auto.
        -- rewrite filter_app, length_app, filter_cons_True, mr_queued0, mr_unsettled0, mr_running0 by done. done.
        -- rewrite mr_running0. done.
        -- intros g [Hg|Hg%list_elem_of_singleton]%elem_of_app;
             [|injection Hg as ->; split; [lia|done]].
           assert ((name, g) ∈ filter (fun r => fst r = name) (inflight s1)) as Hin by (rewrite list_elem_of_filter; done).
           destruct (filter _ (inflight s1)); [by apply not_elem_of_nil in Hin|done].
      * apply (same_for_inv s1); [|by apply Ho]. unfold same_for. hooks.
        rewrite filter_app, filter_cons_False, filter_nil, app_nil_r by (simpl; congruence). done.
  - destruct (run_during_inv s name rest [] name Ht Hi) as (Hh & _ & Hm).
    apply (Hend (wanted s name) (Some ("No handler registered for " +:+ hook_name name))
             (set_db s0 (markApplying (db s0) name))); [exact Hh| |exact Hm].
    intros h Hne. by apply (run_during_inv s name rest [] h Ht Hi).
Qed.

Lemma settleHook_inv s name g error i r :
  list_find (fun r => r = (name, g)) (inflight s) = Some (i, r) -> inv s ->
  inv (settleHook (set_inflight s (delete i (inflight s))) name g error).
Proof.
  intros (Hi & -> & _)%list_find_Some Hinv. set (s0 := set_inflight s (delete i (inflight s))).
  pose proof (fun h => delete_other (inflight s) i name h g Hi) as Hother.
  pose proof (delete_unsettled (inflight s) i name g Hi) as Hmine. fold (unsettled s name) in Hmine.
  assert ((name, g) ∈ inflight s) as Hin by (by eapply list_elem_of_lookup_2).
  destruct Hinv as [Hh Hn]. split.
  - intros h. unfold settleHook. destruct (decide (h = name)) as [->|Hne].
    + pose proof (Hh name) as [H1 H2 H3 H4 H5]. destruct (H4 g Hin) as [Hle Hcur].
      assert (running (hookState s name) = true) as Hr by (destruct (running (hookState s name)); [done|simpl in H1; lia]).
      rewrite Hr in H1. simpl in H1.
      unfold s0. destruct error; apply finish_inv; unfold queued, unsettled in *; hooks; auto with cidrella lia.
      * destruct (db s name); simpl in *; lia.
    + eapply same_for_inv; [by apply end_run_same|]. apply (same_for_inv s); [|done].
      unfold s0, same_for. hooks. rewrite Hother by done. done.
  - revert Hn. apply hold_part_inv. unfold settleHook. rewrite finish_hold. by destruct error.
Qed.
End Invariant.

(** *** Holds *)

Definition held_count (c : list hold_phase) : nat := length (filter (fun x => x <> Released) c).

Lemma held_count_insert c i p q :
  c !! i = Some p -> p <> Released ->
  held_count c = (held_count (<[i := q]> c) + b2n (bool_decide (q = Released)))%nat.
Proof.
  intros Hi Hp. unfold held_count. rewrite <- (take_drop_middle c i p Hi) at 1.
  rewrite insert_take_drop by (by eapply lookup_lt_Some).
  rewrite !filter_app, !length_app, filter_cons_True by done.
  case_bool_decide; [rewrite filter_cons_False by naive_solver|rewrite filter_cons_True by done]; simpl; lia.
Qed.

Lemma set_holds_other s n c h : (0 < holds s -> 0 < n)%nat -> hook_inv s h -> hook_inv (set_holds s n c) h.
Proof. intros Hn []. split; unfold queued, unsettled in *; hooks; try done. naive_solver. Qed.

(** A hook whose pending flag no run is bound to clear: the state
    [releaseHold] leaves before it fires what is pending. *)
Record releasing (s : State) (h : hook) : Prop := {
  re_dirty : hook_dirty s h;
  re_settled : running (hookState s h) = false -> pending (hookState s h) = false -> settled (db s h);
  re_current : current s h
}.

Definition fire_pending (s : State) (name : hook) : State :=
  if pending (hookState s name) then fireHook s name else s.

Lemma fire_pending_keeps s name h : hook_inv s h -> hook_inv (fire_pending s name) h.
Proof. intros Hs. unfold fire_pending. destruct (pending (hookState s name)); [by apply fireHook_other|done]. Qed.

Lemma fire_pending_fires s h : releasing s h -> hook_inv (fire_pending s h) h.
Proof.
  intros [Hd Hs Hc]. unfold fire_pending. destruct (pending (hookState s h)) eqn:Hp; [by apply fireHook_inv|].
  destruct Hd. split; auto. rewrite Hp. done.
Qed.

Lemma fire_pending_skips s name h : h <> name -> releasing s h -> releasing (fire_pending s name) h.
Proof.
  intros Hne [Hd Hs Hc]. unfold fire_pending. destruct (pending (hookState s name)); [|done].
  pose proof (fireHook_same s name h Hne) as Hsame. pose proof Hsame as (E1 & E2 & E3 & E4 & E5).
  split; unfold current, wanted in *; rewrite ?E1, ?E3; [|done|].
  - destruct Hd. split; unfold unsettled, wanted in *; rewrite ?E1, ?E3, ?E4, ?E5; try done.
    intros g Hg%(same_for_inflight _ _ h g Hsame). by apply hd_bound0.
  - intros g Hg%(same_for_inflight _ _ h g Hsame). by apply Hc.
Qed.

Lemma fire_all_pending_inv s h : releasing s h -> hook_inv (fold_left fire_pending HOOK_ORDER s) h.
Proof.
  intros Hr. unfold HOOK_ORDER. cbn [fold_left]. destruct h.
  - do 2 apply fire_pending_keeps. by apply fire_pending_fires.
  - apply fire_pending_keeps, fire_pending_fires. by apply fire_pending_skips.
  - apply fire_pending_fires, fire_pending_skips; [done|]. by apply fire_pending_skips.
Qed.

Lemma releaseHold_inv s i : calls s !! i = Some Held -> inv s -> inv (releaseHold s i).
Proof.
  intros Hi [Hh Hn]. unfold releaseHold.
  set (s0 := set_holds s (pred (holds s)) (<[i := Released]> (calls s))).
  assert (holds s0 = length (filter (fun c => c <> Released) (calls s0))) as Hn0.
  { pose proof (held_count_insert (calls s) i Held Released Hi ltac:(done)) as Hc.
    rewrite bool_decide_eq_true_2 in Hc by done. unfold held_count in Hc. simpl in *. lia. }
  destruct (Nat.ltb_spec 0 (holds s0)) as [Hpos|Hz].
  - split; [|done]. intros h. apply set_holds_other; [|done]. intros _. exact Hpos.
  - split.
    + intros h. apply fire_all_pending_inv. destruct (Hh h). unfold s0. split; [|done|by hooks].
      split; unfold queued, unsettled in *; hooks; try done. intros g Hg. by apply hi_current0.
    + revert Hn0. apply hold_part_inv. apply (fold_preserves (fun s' => hold_part s' = hold_part s0)); [|done].
      intros s' a Hs. destruct (pending (hookState s' a)); [by rewrite fireHook_hold|done].
Qed.

(** *** Boot *)

Definition unclean (o : option Row) : bool :=
  match o with
  | None => false
  | Some r => (applied r <? desired r) || match status r with Applied => false | _ => true end
  end.

(** What a process that starts does: every hook with an unclean row is queued
    once, and nothing else happens. *)
Lemma boot_state d :
  (forall h, hookState (boot d) h = mkHookState (unclean (d h)) false) /\
  tasks (boot d) = List.filter (fun h => unclean (d h)) [regenerate_dhcp; regenerate_dns; regenerate_dnsmasq_conf] /\
  db (boot d) = d /\ holds (boot d) = 0%nat /\ calls (boot d) = [] /\ inflight (boot d) = [].
Proof.
  unfold boot, resumePendingRegeneration, listGenerations. cbn [omap list_omap db].
  destruct (d regenerate_dhcp) as [r1|] eqn:E1, (d regenerate_dns) as [r2|] eqn:E2, (d regenerate_dnsmasq_conf) as [r3|] eqn:E3;
    cbn [mbind option_bind fold_left List.filter]; rewrite ?E1, ?E2, ?E3; unfold unclean;
    repeat match goal with |- context [if ?b then _ else _] => destruct b eqn:? end;
    (split_and!; [intros []; rewrite ?E1, ?E2, ?E3;
      repeat match goal with H : ?x = _ |- context [?x] => rewrite H end; reflexivity | reflexivity..]).
Qed.

Lemma boot_inv d : (forall h, row_ok (d h)) -> inv (boot d).
Proof.
  intros Hd. destruct (boot_state d) as (Hh & Ht & Hdb & Hho & Hc & Hi). split; [|by rewrite Hho, Hc].
  intros h. split; unfold queued, unsettled, current, wanted; rewrite ?Ht, ?Hi, ?Hdb, ?Hh; cbn [running pending]; try done.
  - destruct h, (unclean (d regenerate_dhcp)) eqn:E1, (unclean (d regenerate_dns)) eqn:E2, (unclean (d regenerate_dnsmasq_conf)) eqn:E3;
      cbn [List.filter]; rewrite ?E1, ?E2, ?E3; done.
  - intros Hu _. specialize (Hd h). destruct (d h) as [r|]; [|done]. simpl in *. right.
    apply orb_false_iff in Hu as [Hu1%Z.ltb_ge Hu2]. destruct (status r); try done. split; [done|lia].
  - intros g []%not_elem_of_nil.
Qed.

(** ** Reachable states *)

Section Reachable.
Context (registered : hook -> bool).

Lemma holdHooks_inv s : inv s -> inv (holdHooks s).
Proof.
  intros [Hh Hn]. split.
  - intros h. apply set_holds_other; [lia|done].
  - simpl. rewrite filter_app, length_app, Hn, filter_cons_True by done. simpl. lia.
Qed.

Lemma grant_inv s i p : calls s !! i = Some p -> p <> Released -> inv s ->
  inv (set_holds s (holds s) (<[i := Held]> (calls s))).
Proof.
  intros Hi Hp [Hh Hn]. split.
  - intros h. by apply set_holds_other.
  - pose proof (held_count_insert _ _ _ Held Hi Hp) as Hc. rewrite bool_decide_eq_false_2 in Hc by done.
    unfold held_count in Hc. simpl in *. lia.
Qed.

Lemma step_inv s l s' : inv s -> step registered s l s' -> inv s'.
Proof.
  unfold step. intros Hi H. destruct l as [code q|h|h during o|h g e| |i|i|]; cbn [exec] in H.
  - injection H as <-. by apply onResponseFinish_inv.
  - injection H as <-. destruct Hi as [Hh Hn]. split; [intros h'; by apply queueRegen_other|].
    revert Hn. apply hold_part_inv, queueRegen_hold.
  - destruct (tasks s) as [|t rest] eqn:Ht; [done|]. destruct (decide (t = h)) as [->|]; [|done].
    injection H as <-. by apply runHook_inv.
  - destruct (list_find _ _) as [[i r]|] eqn:Hf; [|done]. injection H as <-. by eapply settleHook_inv.
  - injection H as <-. by apply holdHooks_inv.
  - destruct (calls s !! i) as [[]|] eqn:Hc; try done. destruct (someRunning s); [done|]. injection H as <-.
    by eapply grant_inv.
  - destruct (calls s !! i) as [[]|] eqn:Hc; try done; injection H as <-; [by apply releaseHold_inv|done].
  - injection H as <-. apply boot_inv. intros h. destruct Hi as [Hh _]. by destruct (Hh h).
Qed.

(** A state some process reaches, from any table a former one can leave. *)
Definition reachable (s : State) : Prop :=
  exists d tr, (forall h, row_ok (d h)) /\ runs (step registered) (boot d) tr s.

Lemma reachable_inv s : reachable s -> inv s.
Proof.
  intros (d & tr & Hd & Hr). eapply (runs_invariant _ inv); [|exact Hr|by apply boot_inv].
  intros; by eapply step_inv.
Qed.

Lemma exec_all_runs ls s s' : exec_all registered s ls = Some s' -> runs (step registered) s ls s'.
Proof.
  revert s. induction ls as [|l ls IH]; intros s H; cbn [exec_all] in H; [injection H as <-; constructor|].
  destruct (exec registered s l) as [s1|] eqn:He; [|done]. econstructor; [exact He|by apply IH].
Qed.

Lemma migrated_reachable ls s : exec_all registered (boot migrated) ls = Some s -> reachable s.
Proof. intros H. exists migrated, ls. split; [done|by apply exec_all_runs]. Qed.

(** *** What a hold keeps still *)

Lemma running_iff s h : inv s -> running (hookState s h) = true <-> (0 < queued s h + unsettled s h)%nat.
Proof. intros [Hh _]. destruct (Hh h). rewrite hi_single0. destruct (running _); simpl; split; (done || lia). Qed.

Lemma queued_head s h rest : tasks s = h :: rest -> (0 < queued s h)%nat.
Proof. intros Ht. unfold queued. rewrite Ht, filter_cons_True by done. simpl. lia. Qed.

Lemma unsettled_in s h g : (h, g) ∈ inflight s -> (0 < unsettled s h)%nat.
Proof.
  intros Hg. assert ((h, g) ∈ filter (fun r => fst r = h) (inflight s)) as Hin by (rewrite list_elem_of_filter; done).
  unfold unsettled. destruct (filter _ _); [by apply not_elem_of_nil in Hin|simpl; lia].
Qed.

Definition starts_or_ends (l : label) : Prop :=
  match l with LRun _ _ _ | LSettle _ _ _ => True | _ => False end.

(** Held, with nothing running. *)
Record still (i : nat) (s : State) : Prop := {
  st_inv : inv s;
  st_held : calls s !! i = Some Held;
  st_quiet : forall h, running (hookState s h) = false
}.

Lemma still_holds i s : still i s -> (0 < holds s)%nat.
Proof.
  intros [[_ Hn] Hi _]. rewrite Hn. apply list_elem_of_lookup_2 in Hi.
  assert (Held ∈ filter (fun c => c <> Released) (calls s)) as Hin by (rewrite list_elem_of_filter; done).
  destruct (filter _ _); [by apply not_elem_of_nil in Hin|simpl; lia].
Qed.

Lemma held_fireHook s name : (0 < holds s)%nat ->
  fireHook s name = set_hook s name (mkHookState (running (hookState s name)) true).
Proof. intros Hh. unfold fireHook. destruct (Nat.ltb_spec 0 (holds s)); [|lia]. by rewrite orb_true_r. Qed.

Lemma held_queueRegen s name : (0 < holds s)%nat ->
  holds (queueRegen s name) = holds s /\ calls (queueRegen s name) = calls s /\
  forall h, running (hookState (queueRegen s name) h) = running (hookState s h).
Proof.
  intros Hh. unfold queueRegen. rewrite held_fireHook by done. split_and!; [done..|].
  intros h. destruct (decide (h = name)) as [->|]; hooks; done.
Qed.

Lemma held_onResponseFinish s code q : (0 < holds s)%nat ->
  calls (onResponseFinish s code q) = calls s /\
  forall h, running (hookState (onResponseFinish s code q) h) = running (hookState s h).
Proof.
  intros Hh. unfold onResponseFinish. destruct (_ || _); [done|].
  apply (fold_preserves (fun s' => holds s' = holds s /\ calls s' = calls s /\
    forall h, running (hookState s' h) = running (hookState s h))); [|done].
  intros s' a (H1 & H2 & H3). case_decide; [|done].
  destruct (held_queueRegen s' a) as (E1 & E2 & E3); [lia|]. rewrite E1, E2. split_and!; [done..|].
  intros h. by rewrite E3.
Qed.

Lemma still_step i s l s' : l <> LRelease i -> l <> LRestart -> still i s -> step registered s l s' ->
  ~ starts_or_ends l /\ still i s'.
Proof.
  intros Hr Hres Hs Hstep. pose proof (still_holds i s Hs) as Hpos. pose proof Hs as [Hi Hheld Hq].
  pose proof (step_inv _ _ _ Hi Hstep) as Hi'. unfold step in Hstep.
  destruct l as [code q|h|h during o|h g e| |j|j|]; cbn [exec] in Hstep; try done.
  - split; [by intros []|]. injection Hstep as <-. destruct (held_onResponseFinish s code q Hpos) as (E1 & E2).
    split; [done|by rewrite E1|]. intros h. by rewrite E2.
  - split; [by intros []|]. injection Hstep as <-. destruct (held_queueRegen s h Hpos) as (_ & E2 & E3).
    split; [done|by rewrite E2|]. intros h'. by rewrite E3.
  - destruct (tasks s) as [|t rest] eqn:Ht; [done|]. pose proof (queued_head _ _ _ Ht).
    pose proof (proj2 (running_iff s t Hi) ltac:(lia)). by rewrite Hq in *.
  - destruct (list_find _ _) as [[k r]|] eqn:Hf; [|done]. apply list_find_Some in Hf as (Hf & -> & _).
    apply list_elem_of_lookup_2, unsettled_in in Hf. pose proof (proj2 (running_iff s h Hi) ltac:(lia)). by rewrite Hq in *.
  - split; [by intros []|]. injection Hstep as <-. split; [done| |done]. simpl.
    rewrite lookup_app_l by (by eapply lookup_lt_Some). done.
  - split; [by intros []|]. destruct (calls s !! j) as [[]|] eqn:Hc; try done. destruct (someRunning s); [done|].
    injection Hstep as <-. split; [done| |done]. simpl. destruct (decide (i = j)) as [->|]; [congruence|].
    by rewrite list_lookup_insert_ne.
  - split; [by intros []|]. destruct (calls s !! j) as [[]|] eqn:Hc; try done; injection Hstep as <-; [|done].
    assert (i <> j) as Hij by congruence. unfold releaseHold in *.
    set (s0 := set_holds s (pred (holds s)) (<[j := Released]> (calls s))) in *.
    assert (calls s0 !! i = Some Held) as Hi0 by (simpl; by rewrite list_lookup_insert_ne).
    assert (0 < holds s0)%nat as Hp0.
    { destruct Hi as [_ Hn]. pose proof (held_count_insert (calls s) j Held Released Hc ltac:(done)) as Hct.
      rewrite bool_decide_eq_true_2 in Hct by done.
      assert (Held ∈ filter (fun c => c <> Released) (calls s0)) as Hin
        by (rewrite list_elem_of_filter; split; [done|by eapply list_elem_of_lookup_2]).
      unfold held_count in Hct. simpl in *. destruct (filter _ (<[j := Released]> (calls s))); [by apply not_elem_of_nil in Hin|].
      simpl in *. lia. }
    destruct (Nat.ltb_spec 0 (holds s0)); [|lia]. done.
Qed.
End Reachable.

(** ** Hooks that are owed a run *)

Definition owed (s : State) (h : hook) : Prop := h ∈ tasks s \/ pending (hookState s h) = true.

Lemma fireHook_owes s h : owed (fireHook s h) h.
Proof.
  unfold fireHook, owed. destruct (_ || _); hooks; [by right|]. left. apply elem_of_app. right. by apply list_elem_of_singleton.
Qed.

Lemma fireHook_keeps_owed s name h : owed s h -> owed (fireHook s name) h.
Proof.
  destruct (decide (h = name)) as [->|Hne]; [intros _; apply fireHook_owes|].
  unfold fireHook, owed. destruct (_ || _); hooks; rewrite ?elem_of_app; naive_solver.
Qed.

Lemma queueRegen_keeps_owed s name h : owed s h -> owed (queueRegen s name) h.
Proof. intros Ho. by apply fireHook_keeps_owed. Qed.

Lemma finish_keeps_owed s name h : owed s h -> owed (finish s name) h.
Proof.
  intros Ho. unfold finish. destruct (pending (hookState s name)) eqn:Hp.
  - destruct (decide (h = name)) as [->|Hne]; [apply fireHook_owes|]. apply fireHook_keeps_owed.
    unfold owed in *. hooks. done.
  - unfold owed in *. hooks. destruct Ho as [|Ho]; [by left|]. destruct (decide (h = name)) as [->|]; [congruence|].
    hooks. by right.
Qed.

Lemma set_db_owed s d h : owed s h -> owed (set_db s d) h.
Proof. done. Qed.
#[export] Hint Resolve fireHook_owes fireHook_keeps_owed queueRegen_keeps_owed finish_keeps_owed set_db_owed : cidrella.

(** Which steps start a hook, and which ask for it. *)
Definition starts (h : hook) (l : label) : Prop :=
  match l with LRun h' _ _ => h' = h | _ => False end.

Section Owed.
Context (registered : hook -> bool).

Lemma fold_owes (f : State -> hook -> State) l s h :
  (forall s name, owed s h -> owed (f s name) h) -> (forall s, owed (f s h) h) -> h ∈ l -> owed (fold_left f l s) h.
Proof.
  intros Hk Hf. revert s. induction l as [|a l IH]; intros s [->|Hin]%elem_of_cons || intros s []%not_elem_of_nil; simpl.
  - by apply fold_preserves.
  - by apply IH.
Qed.

Lemma run_end_owed s name g o h :
  owed s h ->
  owed match o with
       | Returns => finish (set_db s (markApplied (db s) name g)) name
       | Throws m => finish (set_db s (markFailed (db s) name m)) name
       | Promises => set_inflight s (inflight s ++ [(name, g)])
       end h.
Proof. destruct o; auto with cidrella. Qed.

Lemma step_keeps_owed s l s' h :
  step registered s l s' -> l <> LRestart -> ~ starts h l -> owed s h -> owed s' h.
Proof.
  unfold step. intros H Hres Hst Ho. destruct l as [code q|n|n during o|n g e| |i|i|]; cbn [exec] in H; try done.
  - injection H as <-. unfold onResponseFinish. destruct (_ || _); [done|]. apply fold_preserves; [|done].
    intros s' a Hs. case_decide; auto with cidrella.
  - injection H as <-. auto with cidrella.
  - destruct (tasks s) as [|t rest] eqn:Ht; [done|]. destruct (decide (t = n)) as [->|]; [|done]. injection H as <-.
    assert (owed (set_tasks s rest) h) as Ho'.
    { destruct Ho as [Ho|Ho]; [left|by right]. rewrite Ht in Ho. simpl in Hst. apply elem_of_cons in Ho as [->|]; done. }
    unfold runHook. destruct (negb _); [auto with cidrella|]. apply run_end_owed.
    apply fold_preserves; auto with cidrella.
  - destruct (list_find _ _) as [[i r]|]; [|done]. injection H as <-. unfold settleHook. destruct e; auto with cidrella.
  - injection H as <-. done.
  - destruct (calls s !! i) as [[]|]; try done. destruct (someRunning s); [done|]. by injection H as <-.
  - destruct (calls s !! i) as [[]|]; try done; injection H as <-; [|done]. unfold releaseHold.
    destruct (_ <? _)%nat; [done|]. apply fold_preserves; [|done]. intros s' a Hs. destruct (pending _); auto with cidrella.
Qed.

Definition asks (l : label) (h : hook) : Prop :=
  match l with
  | LFinish code queue => code < 400 /\ h ∈ queue
  | LQueue h' => h' = h
  | LRun n during _ => registered n = true /\ h ∈ during
  | _ => False
  end.

Lemma step_asks_owes s l s' h : step registered s l s' -> asks l h -> owed s' h.
Proof.
  unfold step. intros H Ha. destruct l as [code q|n|n during o|n g e| |i|i|]; cbn [exec] in H; try done.
  - injection H as <-. destruct Ha as [Hc Hq]. unfold onResponseFinish.
    destruct (Z.leb_spec 400 code); [lia|]. cbn [orb]. destruct q as [|q0 q]; [by apply not_elem_of_nil in Hq|].
    apply fold_owes; [intros s' a Hs; case_decide; auto with cidrella|intros s'; rewrite decide_True by done; unfold queueRegen; auto with cidrella|].
    unfold HOOK_ORDER. destruct h; set_solver.
  - injection H as <-. simpl in Ha. subst. unfold queueRegen. auto with cidrella.
  - destruct (tasks s) as [|t rest] eqn:Ht; [done|]. destruct (decide (t = n)) as [->|]; [|done]. injection H as <-.
    destruct Ha as [Hreg Ha]. unfold runHook. rewrite Hreg. cbn [negb]. apply run_end_owed.
    apply fold_owes; [auto with cidrella|unfold queueRegen; auto with cidrella|done].
Qed.

(** Owed and not started is owed to the end. *)
Lemma owed_until_start s tr s' h :
  runs (step registered) s tr s' -> LRestart ∉ tr -> owed s h -> Exists (starts h) tr \/ owed s' h.
Proof.
  induction 1 as [|s l s1 tr s' Hstep Hr IH]; intros Hres Ho; [by right|].
  assert (starts h l \/ ~ starts h l) as [Hl|Hl] by (destruct l as [| |n| | | | |]; simpl; try tauto; destruct (decide (n = h)); auto).
  - left. by constructor.
  - assert (owed s1 h) as Ho1 by (eapply step_keeps_owed; [done|set_solver|done|done]).
    destruct (IH ltac:(set_solver) Ho1); [left; by constructor|by right].
Qed.
End Owed.

(** ** Draining *)

(** The work a hook still has, in steps. *)
Definition hook_work (s : State) (h : hook) : nat :=
  (2 * queued s h + unsettled s h + 2 * b2n (pending (hookState s h)))%nat.

Definition work (s : State) : nat := sum_list (map (hook_work s) HOOK_ORDER).

(** A run, or the end of one, with no new request. *)
Definition works (l : label) : Prop :=
  match l with LRun _ during _ => during = [] | LSettle _ _ _ => True | _ => False end.

Lemma work_lt s s' h :
  (forall n, n <> h -> hook_work s' n = hook_work s n) -> (hook_work s' h < hook_work s h)%nat -> (work s' < work s)%nat.
Proof.
  intros Hother Hlt. unfold work, HOOK_ORDER. simpl.
  destruct h; rewrite ?(Hother regenerate_dns), ?(Hother regenerate_dhcp), ?(Hother regenerate_dnsmasq_conf) by done; lia.
Qed.

Lemma same_for_work s s' h : same_for s s' h -> hook_work s' h = hook_work s h.
Proof. intros (E1 & E2 & E3 & E4 & E5). unfold hook_work, unsettled. by rewrite E1, E4, E5. Qed.

Lemma finish_work s h : queued s h = 0%nat -> unsettled s h = 0%nat -> holds s = 0%nat ->
  hook_work (finish s h) h = (2 * b2n (pending (hookState s h)))%nat.
Proof.
  intros Hq Hu Hh. unfold finish, fireHook. destruct (pending (hookState s h)) eqn:Hp; hooks.
  - rewrite Hh. cbn [orb Nat.ltb Nat.leb]. unfold hook_work, queued, unsettled in *. hooks.
    rewrite length_filter_snoc, bool_decide_eq_true_2 by done. simpl. lia.
  - unfold hook_work, queued, unsettled in *. hooks. simpl. lia.
Qed.

(** The end of a run uses up its work, unless the hook was asked for again. *)
Lemma finish_decreases s s1 h :
  queued s1 h = 0%nat -> unsettled s1 h = 0%nat -> holds s1 = 0%nat ->
  (forall n, n <> h -> hook_work s1 n = hook_work s n) -> (2 * b2n (pending (hookState s1 h)) < hook_work s h)%nat ->
  holds (finish s1 h) = 0%nat /\ (work (finish s1 h) < work s)%nat.
Proof.
  intros Hq Hu Hh Hother Hlt. split; [pose proof (finish_hold s1 h) as [= -> _]; done|]. apply work_lt with h.
  - intros n Hne. rewrite <- Hother by done. apply same_for_work. by apply finish_same.
  - by rewrite finish_work.
Qed.

Section Drain.
Context (registered : hook -> bool).

Lemma works_decreases s l s' :
  inv s -> holds s = 0%nat -> works l -> step registered s l s' -> holds s' = 0%nat /\ (work s' < work s)%nat.
Proof.
  intros Hi Hh Hw H. unfold step in H. destruct l as [code q|n|n during o|n g e| |i|i|]; cbn [exec] in H; try done.
  - destruct (tasks s) as [|t rest] eqn:Ht; [done|]. destruct (decide (t = n)) as [->|]; [|done].
    injection H as <-. simpl in Hw. subst during.
    destruct (run_during_inv s n rest [] n Ht Hi) as (_ & _ & Hm). cbn [fold_left] in Hm. destruct Hm.
    unfold runHook. cbn [fold_left]. set (s1 := set_db (set_tasks s rest) (markApplying (db (set_tasks s rest)) n)) in *.
    assert (forall m, m <> n -> hook_work s1 m = hook_work s m) as Hother.
    { intros m Hne. apply same_for_work. unfold same_for, queued. unfold s1. hooks.
      rewrite Ht, filter_cons_False by done. done. }
    assert (hook_work s n = 2 + 2 * b2n (pending (hookState s1 n)))%nat as Hbefore.
    { destruct Hi as [Hi _]. destruct (Hi n). pose proof (queued_head _ _ _ Ht).
      unfold hook_work. change (hookState s1 n) with (hookState s n).
      destruct (running (hookState s n)); simpl in *; lia. }
    destruct (negb _); [|destruct o]; [by apply finish_decreases; try done; hooks; rewrite Hbefore; lia..|].
    split; [done|]. apply work_lt with n.
    + intros m Hne. rewrite <- Hother by done. apply same_for_work. unfold same_for. hooks.
      rewrite filter_app, filter_cons_False, filter_nil, app_nil_r by (simpl; congruence). done.
    + rewrite Hbefore. clearbody s1. unfold hook_work, queued, unsettled in *. hooks. rewrite filter_app, length_app, filter_cons_True by done.
      simpl. lia.
  - destruct (list_find _ _) as [[i r]|] eqn:Hf; [|done]. injection H as <-.
    apply list_find_Some in Hf as (Hf & -> & _). destruct Hi as [Hi _]. destruct (Hi n).
    assert (unsettled s n = S (unsettled (set_inflight s (delete i (inflight s))) n)) as Hu.
    { unfold unsettled. simpl. by apply delete_unsettled with g. }
    assert (running (hookState s n) = true) as Hr by (destruct (running (hookState s n)); [done|simpl in *; lia]).
    rewrite Hr in hi_single0. simpl in hi_single0. unfold settleHook.
    destruct e; (apply finish_decreases; [unfold queued in *; hooks; lia|unfold unsettled in *; hooks; lia|done| |]).
    1,3: intros m Hne; apply same_for_work; unfold same_for; hooks; rewrite delete_other with (n := n) (g := g) by done; done.
    all: unfold hook_work; hooks; lia.
Qed.

Lemma works_bounded s tr s' :
  inv s -> holds s = 0%nat -> Forall works tr -> runs (step registered) s tr s' ->
  inv s' /\ holds s' = 0%nat /\ (length tr + work s' <= work s)%nat.
Proof.
  intros Hi Hh Hw Hr. induction Hr as [|s l s1 tr s' Hstep Hr IH]; [split; [done|split; [done|simpl; lia]]|].
  apply Forall_cons in Hw as [Hl Hw]. destruct (works_decreases s l s1) as [Hh1 Hlt]; [done..|].
  destruct IH as (? & ? & ?); [by eapply step_inv|done..|]. split_and!; [done..|simpl; lia].
Qed.

(** Nothing left to do: every hook is quiet. *)
Lemma stuck_quiet s h :
  inv s -> holds s = 0%nat -> (forall l s', works l -> ~ step registered s l s') ->
  running (hookState s h) = false /\ pending (hookState s h) = false /\ settled (db s h).
Proof.
  intros Hi Hh Hstuck.
  assert (tasks s = []) as Ht.
  { destruct (tasks s) as [|t rest] eqn:Ht; [done|]. exfalso. eapply (Hstuck (LRun t [] Returns)); [done|].
    unfold step. cbn [exec]. rewrite Ht, decide_True by done. done. }
  assert (inflight s = []) as Hin.
  { destruct (inflight s) as [|[n g] rest] eqn:Hin; [done|]. exfalso. eapply (Hstuck (LSettle n g None)); [done|].
    unfold step. cbn [exec]. rewrite Hin. cbn [list_find]. rewrite decide_True by done. done. }
  destruct Hi as [Hi _]. destruct (Hi h). unfold queued, unsettled in *. rewrite Ht, Hin in *. simpl in *.
  destruct (running (hookState s h)); [done|].
  destruct (pending (hookState s h)); [destruct hi_pending0; [done..|lia]|]. auto.
Qed.
End Drain.

(** ** Concrete runs *)

Definition all_registered : hook -> bool := fun _ => true.

(** The state a migrated installation is in after the steps [ls]. *)
Definition after (ls : list label) : State :=
  default (boot migrated) (exec_all all_registered (boot migrated) ls).

Lemma after_reachable ls :
  match exec_all all_registered (boot migrated) ls with Some _ => true | None => false end = true ->
  reachable all_registered (after ls).
Proof.
  unfold after. destruct (exec_all all_registered (boot migrated) ls) as [s|] eqn:He; [|done]. intros _. simpl.
  by eapply migrated_reachable.
Qed.

(** ** Properties *)

(** Single flight: a hook is queued or running at most once, its
    [running] flag says so exactly, and no run of a hook starts while another
    run of it has not settled. *)
Theorem hooks_never_overlap registered s h :
  reachable registered s ->
  (queued s h + unsettled s h <= 1)%nat /\
  (running (hookState s h) = true <-> (queued s h + unsettled s h = 1)%nat) /\
  (forall during o s', exec registered s (LRun h during o) = Some s' -> unsettled s h = 0%nat).
Proof.
  intros Hs%reachable_inv. pose proof Hs as [Hi _]. destruct (Hi h). rewrite hi_single0.
  destruct (running (hookState s h)) eqn:Hr; simpl; (split; [lia|split; [split; [done|lia] || (split; done)|]]).
  all: intros during o s' He; cbn [exec] in He; destruct (tasks s) as [|t rest] eqn:Ht; [done|];
    destruct (decide (t = h)) as [->|]; [|done]; pose proof (queued_head _ _ _ Ht); simpl in *; lia.
Qed.

Lemma hooks_never_overlap_witness :
  let s := after [LQueue regenerate_dns; LQueue regenerate_dns] in
  queued s regenerate_dns = 1%nat /\ (queued s regenerate_dns + unsettled s regenerate_dns <= 1)%nat.
Proof.
  cbv zeta. split; [vm_compute; reflexivity|].
  apply (hooks_never_overlap all_registered). apply after_reachable. vm_compute. reflexivity.
Defined.

(** A granted hold is exclusive: until its own release (or a restart),
    whatever requests, other holds and other releases happen, no hook starts
    or ends a run and none is running. *)
Theorem hold_keeps_hooks_still registered s s1 s2 i tr :
  reachable registered s -> exec registered s (LGrant i) = Some s1 ->
  runs (step registered) s1 tr s2 -> LRelease i ∉ tr -> LRestart ∉ tr ->
  Forall (fun l => ~ starts_or_ends l) tr /\ forall h, running (hookState s2 h) = false.
Proof.
  intros Hs%reachable_inv Hg Hr Hrel Hres.
  assert (still i s1) as Hst.
  { pose proof (step_inv registered s _ s1 Hs Hg) as Hi1. cbn [exec] in Hg.
    destruct (calls s !! i) as [[]|] eqn:Hc; try done. destruct (someRunning s) eqn:Hrun; [done|]. injection Hg as <-.
    split; [done|by apply list_lookup_insert_eq; eapply lookup_lt_Some|]. intros h. simpl.
    destruct (running (hookState s h)) eqn:Hh; [|done]. rewrite <- not_true_iff_false in Hrun. destruct Hrun.
    unfold someRunning. apply existsb_exists. exists h. split; [|done]. destruct h; simpl; auto. }
  clear Hg Hs. induction Hr as [|s1 l s1' tr s2 Hstep Hr IH]; [split; [done|apply Hst]|].
  destruct (still_step registered i s1 l s1') as [Hn Hst']; [set_solver..|done|done|].
  destruct (IH ltac:(set_solver) ltac:(set_solver) Hst'). by split; [constructor|].
Qed.

Lemma hold_keeps_hooks_still_witness :
  let s := after [LQueue regenerate_dns; LHold; LRun regenerate_dns [] Returns; LGrant 0;
                  LQueue regenerate_dns; LFinish 200 [regenerate_dhcp]] in
  (forall h, running (hookState s h) = false) /\ pending (hookState s regenerate_dns) = true.
Proof.
  cbv zeta. split; [|vm_compute; reflexivity].
  eapply (hold_keeps_hooks_still all_registered (after [LQueue regenerate_dns; LHold; LRun regenerate_dns [] Returns])
    (after [LQueue regenerate_dns; LHold; LRun regenerate_dns [] Returns; LGrant 0]) _ 0
    [LQueue regenerate_dns; LFinish 200 [regenerate_dhcp]]).
  - apply after_reachable. vm_compute. reflexivity.
  - vm_compute. reflexivity.
  - apply exec_all_runs. vm_compute. reflexivity.
  - set_solver.
  - set_solver.
Defined.

(** C35. Nothing asked for is forgotten: once a request that succeeded, a
    background job or a running handler asks for a hook, the hook cannot be
    quiet again (not running, not pending) before a run of it started after
    the asking, holds and failures in between included. *)
Theorem asked_hook_runs registered s l s1 tr s2 h :
  reachable registered s -> step registered s l s1 -> asks registered l h ->
  runs (step registered) s1 tr s2 -> LRestart ∉ tr ->
  running (hookState s2 h) = false -> pending (hookState s2 h) = false ->
  Exists (starts h) tr.
Proof.
  intros (d & tr0 & Hd & Hr0) Hl Ha Hr Hres Hrun Hpend.
  assert (reachable registered s2) as H2%reachable_inv.
  { exists d, (tr0 ++ l :: tr). split; [done|]. eapply runs_app; [done|]. by econstructor. }
  destruct (owed_until_start registered s1 tr s2 h) as [|Ho]; [done|done|by eapply step_asks_owes|done|].
  exfalso. destruct Ho as [Ho|Ho]; [|congruence].
  pose proof (running_iff s2 h H2) as [_ Hrun2]. rewrite Hrun2 in Hrun; [done|].
  assert (h ∈ filter (fun t => t = h) (tasks s2)) as Hin by (rewrite list_elem_of_filter; done).
  unfold queued. destruct (filter _ (tasks s2)); [by apply not_elem_of_nil in Hin|simpl; lia].
Qed.

Lemma asked_hook_runs_witness :
  Exists (starts regenerate_dns) [LSettle regenerate_dns 1 None; LRun regenerate_dns [] Returns].
Proof.
  eapply (asked_hook_runs all_registered (after [LQueue regenerate_dns; LRun regenerate_dns [] Promises])
    (LFinish 200 [regenerate_dns])
    (after [LQueue regenerate_dns; LRun regenerate_dns [] Promises; LFinish 200 [regenerate_dns]])
    _ (after [LQueue regenerate_dns; LRun regenerate_dns [] Promises; LFinish 200 [regenerate_dns];
              LSettle regenerate_dns 1 None; LRun regenerate_dns [] Returns])).
  - apply after_reachable. vm_compute. reflexivity.
  - vm_compute. reflexivity.
  - split; [lia|apply elem_of_cons; by left].
  - apply exec_all_runs. vm_compute. reflexivity.
  - set_solver.
  - vm_compute. reflexivity.
  - vm_compute. reflexivity.
Defined.

(** The table tells the truth, across restarts: a quiet hook's row is
    applied up to the last generation asked for or says that it failed, and a
    process that starts queues exactly the hooks whose row is anything but
    applied, so no generation asked for is lost with the memory of a process. *)
Theorem generations_never_lost registered s h :
  reachable registered s ->
  (running (hookState s h) = false -> pending (hookState s h) = false -> settled (db s h)) /\
  (forall r, db s h = Some r -> 0 <= applied r <= desired r) /\
  (forall s', exec registered s LRestart = Some s' ->
     db s' h = db s h /\
     (h ∈ tasks s' <-> exists r, db s h = Some r /\ (status r <> Applied \/ applied r <> desired r))).
Proof.
  intros Hs%reachable_inv. destruct Hs as [Hi _]. destruct (Hi h). split; [done|].
  assert (forall r, db s h = Some r -> 0 <= applied r <= desired r) as Hrow by (intros r Hr; rewrite Hr in hi_row0; done).
  split; [done|]. intros s' He. cbn [exec] in He. injection He as <-.
  destruct (boot_state (db s)) as (_ & Ht & -> & _). split; [done|]. rewrite Ht.
  transitivity (unclean (db s h) = true).
  - rewrite list_elem_of_In, filter_In. split; [by intros [_ ?]|]. intros Hu. split; [|done]. destruct h; simpl; auto.
  - unfold unclean. destruct (db s h) as [r|]; [|split; [done|by intros (r & ? & _)]].
    specialize (Hrow r eq_refl). rewrite orb_true_iff, Z.ltb_lt. split.
    + intros [?|?]; exists r; (split; [done|]); [right; lia|left; by destruct (status r)].
    + intros (r' & [= <-] & [?|?]); [right; by destruct (status r)|left; lia].
Qed.

Lemma generations_never_lost_witness :
  regenerate_dhcp ∈ tasks (after [LQueue regenerate_dhcp; LRun regenerate_dhcp [] (Throws "dnsmasq refused"); LRestart]).
Proof.
  eapply (generations_never_lost all_registered
    (after [LQueue regenerate_dhcp; LRun regenerate_dhcp [] (Throws "dnsmasq refused")]) regenerate_dhcp).
  - apply after_reachable. vm_compute. reflexivity.
  - vm_compute. reflexivity.
  - eexists. split; [vm_compute; reflexivity|]. left. done.
Defined.

(** The queue drains: with no hold and no new request, at most twelve
    runs and settlements can happen, however they are ordered and whatever
    they come to, and once none is possible every hook is quiet with its row
    applied or failed. *)
Theorem queue_drains registered s tr s' :
  reachable registered s -> holds s = 0%nat -> Forall works tr -> runs (step registered) s tr s' ->
  (length tr <= 12)%nat /\
  ((forall l s'', works l -> ~ step registered s' l s'') ->
   forall h, running (hookState s' h) = false /\ pending (hookState s' h) = false /\ settled (db s' h)).
Proof.
  intros Hs%reachable_inv Hh Hw Hr. destruct (works_bounded registered s tr s' Hs Hh Hw Hr) as (Hi' & Hh' & Hlen). split.
  - assert (work s <= 12)%nat; [|lia]. destruct Hs as [Hi _].
    assert (forall h, (hook_work s h <= 4)%nat) as Hb.
    { intros h. destruct (Hi h). unfold hook_work. destruct (running _), (pending _); simpl in *; lia. }
    unfold work, HOOK_ORDER. simpl. pose proof (Hb regenerate_dns). pose proof (Hb regenerate_dhcp).
    pose proof (Hb regenerate_dnsmasq_conf). lia.
  - intros Hstuck h. by eapply stuck_quiet.
Qed.

Lemma queue_drains_witness :
  settled (db (after [LFinish 200 [regenerate_dhcp; regenerate_dns]; LQueue regenerate_dns;
    LRun regenerate_dns [] Promises; LRun regenerate_dhcp [] (Throws "no scope");
    LSettle regenerate_dns 2 None; LRun regenerate_dns [] Returns]) regenerate_dhcp).
Proof.
  eapply (queue_drains all_registered (after [LFinish 200 [regenerate_dhcp; regenerate_dns]; LQueue regenerate_dns])
    [LRun regenerate_dns [] Promises; LRun regenerate_dhcp [] (Throws "no scope");
     LSettle regenerate_dns 2 None; LRun regenerate_dns [] Returns]).
  - apply after_reachable. vm_compute. reflexivity.
  - vm_compute. reflexivity.
  - repeat constructor.
  - apply exec_all_runs. vm_compute. reflexivity.
  - intros [code q|n|n during o|n g e| |i|i|] s'' Hw; try done; unfold step; vm_compute; done.
Defined.
