(* ===== verification/Bytes.v ===== *)
(** * Node Buffers

    A [Buffer] is a list of byte values. Indexing past the end is
    [undefined]; the [read...] methods throw [ERR_OUT_OF_RANGE] there, and
    [subarray] clamps. Bytes are integers; what is in range is
    [Forall byte]. *)

From S2P Require Import Prelude JsString.

Definition byte (b : Z) : Prop := 0 <= b < 256.

Abbreviation bytes := (list Z).

(** The error of a read outside the buffer. *)
Inductive range_error := OutOfRange (offset : Z).

Definition blength (b : bytes) : Z := Z.of_nat (length b).

Definition subarray (b : bytes) (start stop : Z) : bytes :=
  take (Z.to_nat (stop - start)) (drop (Z.to_nat start) b).

Definition readUInt8 (b : bytes) (off : Z) : result range_error Z :=
  match b !! Z.to_nat off with Some v => Ok v | None => Err (OutOfRange off) end.

(** Big-endian reads and writes of [n] bytes. *)
Definition be_value (l : bytes) : Z := fold_left (fun acc b => acc * 256 + b) l 0.

Definition readUIntBE (b : bytes) (off : Z) (n : nat) : result range_error Z :=
  let part := subarray b off (off + Z.of_nat n) in
  if (length part =? n)%nat then Ok (be_value part) else Err (OutOfRange off).

Definition readUInt16BE (b : bytes) (off : Z) : result range_error Z := readUIntBE b off 2.
Definition readUInt32BE (b : bytes) (off : Z) : result range_error Z := readUIntBE b off 4.
Definition readBigUInt64BE (b : bytes) (off : Z) : result range_error Z := readUIntBE b off 8.

Fixpoint be_bytes (n : nat) (v : Z) : bytes :=
  match n with O => [] | S n' => be_bytes n' (v / 256) ++ [v mod 256] end.

Definition uint8 (v : Z) : bytes := be_bytes 1 v.
Definition uint16be (v : Z) : bytes := be_bytes 2 v.
Definition uint32be (v : Z) : bytes := be_bytes 4 v.

(** [buf.writeUInt16BE(v, 0)] and the like: the bytes at [off] replaced. *)
Definition write_at (b : bytes) (off : nat) (part : bytes) : bytes :=
  take off b ++ part ++ drop (off + length part) b.

Definition alloc (n : nat) : bytes := repeat 0 n.

(** ** Lemmas *)

Lemma be_value_snoc l b : be_value (l ++ [b]) = be_value l * 256 + b.
Proof. unfold be_value. by rewrite fold_left_app. Qed.

Lemma length_be_bytes n v : length (be_bytes n v) = n.
Proof. revert v. induction n as [|n IH]; intros v; simpl; [done|]. rewrite length_app, IH. simpl. lia. Qed.

Lemma be_bytes_range n v : Forall byte (be_bytes n v).
Proof.
  revert v. induction n as [|n IH]; intros v; simpl; [constructor|]. apply Forall_app. split; [done|].
  repeat constructor; apply Z.mod_pos_bound; lia.
Qed.

Lemma be_value_bytes n v : 0 <= v < 256 ^ Z.of_nat n -> be_value (be_bytes n v) = v.
Proof.
  revert v. induction n as [|n IH]; intros v Hv; cbn [be_bytes].
  - simpl in Hv. change (256 ^ 0) with 1 in Hv. unfold be_value. simpl. lia.
  - rewrite be_value_snoc, IH; [pose proof (Z_div_mod_eq_full v 256); lia|].
    rewrite Nat2Z.inj_succ, Z.pow_succ_r in Hv by lia. split; [apply Z.div_pos; lia|apply Z.div_lt_upper_bound; lia].
Qed.

Lemma be_value_bound l : Forall byte l -> 0 <= be_value l < 256 ^ Z.of_nat (length l).
Proof.
  induction l as [|b l IH] using rev_ind; intros H; [simpl; unfold be_value; simpl; lia|].
  apply Forall_app in H as [Hl Hb]. apply Forall_inv in Hb. unfold byte in Hb. specialize (IH Hl).
  rewrite be_value_snoc, length_app. simpl. rewrite Nat2Z.inj_add, Z.pow_add_r by lia.
  change (256 ^ Z.of_nat 1) with 256. nia.
Qed.

Lemma be_bytes_value l : Forall byte l -> be_bytes (length l) (be_value l) = l.
Proof.
  induction l as [|b l IH] using rev_ind; intros H; [done|]. apply Forall_app in H as [Hl Hb].
  apply Forall_inv in Hb. unfold byte in Hb. rewrite length_app, Nat.add_comm. cbn [Nat.add length be_bytes].
  rewrite be_value_snoc, Z.add_comm, Z_mod_plus_full, Z.mod_small by lia.
  rewrite Z.div_add, Z.div_small, Z.add_0_l by lia. by rewrite IH.
Qed.

Lemma subarray_app b1 b2 b3 : subarray (b1 ++ b2 ++ b3) (blength b1) (blength b1 + blength b2) = b2.
Proof.
  unfold subarray, blength. rewrite Nat2Z.id, drop_app_length.
  replace (Z.to_nat _) with (length b2) by lia. by rewrite take_app_length.
Qed.

Lemma subarray_mid pre mid post start stop :
  start = blength pre -> stop = blength pre + blength mid -> subarray (pre ++ mid ++ post) start stop = mid.
Proof. intros -> ->. apply subarray_app. Qed.

Lemma length_subarray b start stop :
  0 <= start -> start <= stop <= blength b -> blength (subarray b start stop) = stop - start.
Proof. unfold blength, subarray. intros. rewrite length_take, length_drop. lia. Qed.

Lemma readUIntBE_mid pre mid post off n :
  off = blength pre -> length mid = n -> readUIntBE (pre ++ mid ++ post) off n = Ok (be_value mid).
Proof.
  intros -> <-. unfold readUIntBE. rewrite (subarray_mid pre mid post) by done. by rewrite Nat.eqb_refl.
Qed.

Lemma readUInt8_mid pre v post off : off = blength pre -> readUInt8 (pre ++ v :: post) off = Ok v.
Proof. intros ->. unfold readUInt8, blength. rewrite Nat2Z.id. by rewrite list_lookup_middle. Qed.

Lemma readUIntBE_ok b off n : 0 <= off -> off + Z.of_nat n <= blength b ->
  exists v, readUIntBE b off n = Ok v.
Proof.
  intros Ho Hn. unfold readUIntBE. pose proof (length_subarray b off (off + Z.of_nat n) Ho ltac:(lia)) as Hl.
  unfold blength in Hl. destruct (Nat.eqb_spec (length (subarray b off (off + Z.of_nat n))) n); [eauto|lia].
Qed.

Lemma readUInt8_ok b off : 0 <= off -> off < blength b -> exists v, readUInt8 b off = Ok v.
Proof.
  intros Ho Hn. unfold readUInt8, blength in *. destruct (lookup_lt_is_Some_2 b (Z.to_nat off)) as [v ->]; [lia|eauto].
Qed.

Lemma length_write_at b off part : (off + length part <= length b)%nat -> length (write_at b off part) = length b.
Proof. intros. unfold write_at. rewrite !length_app, length_take, length_drop. lia. Qed.
