(* ===== verification/DnsWire.v ===== *)
(** * DNS over TCP framing: [server/src/utils/dns-wire.js] *)

From S2P Require Import Prelude JsString Bytes.

(** The bytes of a frame: the length, then the payload. *)
Definition frame (payload : bytes) : bytes := uint16be (blength payload) ++ payload.

(** [writeUInt16BE] throws on a length that does not fit its two bytes. *)
Definition frameTcpMessage (payload : bytes) : result range_error bytes :=
  if blength payload <? 65536 then Ok (frame payload) else Err (OutOfRange (blength payload)).

(** The loop of [extractTcpMessages], on the buffer from [offset] on; the
    fuel is the buffer's length, since every message takes two bytes. *)
Fixpoint extract_loop (fuel : nat) (rest : bytes) : list bytes * bytes :=
  match fuel with
  | O => ([], rest)
  | S fuel' =>
      if 2 <=? blength rest then
        match readUInt16BE rest 0 with
        | Err _ => ([], rest)
        | Ok msgLen =>
            if blength rest <? 2 + msgLen then ([], rest)
            else
              let '(messages, tail) := extract_loop fuel' (drop (Z.to_nat (2 + msgLen)) rest) in
              (subarray rest 2 (2 + msgLen) :: messages, tail)
        end
      else ([], rest)
  end.

Definition extractTcpMessages (buf : bytes) : list bytes * bytes := extract_loop (length buf) buf.

(** A receiver as the proxy and the DoT connection use it: append each chunk
    to what is left, and extract. *)
Definition receive (st : list bytes * bytes) (chunk : bytes) : list bytes * bytes :=
  let '(messages, rest) := extractTcpMessages (snd st ++ chunk) in (fst st ++ messages, rest).

Example extract_two :
  extractTcpMessages (frame [1; 2; 3] ++ frame [9] ++ [0]) = ([[1; 2; 3]; [9]], [0]).
Proof. vm_compute. reflexivity. Qed.

(** ** Lemmas *)

(** What a message can be: its length fits its prefix. *)
Definition message (m : bytes) : Prop := blength m < 65536.

(** The tail left over holds no whole message. *)
Definition incomplete (rest : bytes) : Prop :=
  blength rest < 2 \/ exists n, readUInt16BE rest 0 = Ok n /\ blength rest < 2 + n.

(** [stream] is the frames of [messages], then the tail [rest]. *)
Record splits (stream : bytes) (messages : list bytes) (rest : bytes) : Prop := {
  sp_stream : stream = concat (map frame messages) ++ rest;
  sp_messages : Forall message messages;
  sp_rest : incomplete rest
}.

Lemma read_frame m rest : message m -> readUInt16BE (frame m ++ rest) 0 = Ok (blength m).
Proof.
  intros Hm. unfold readUInt16BE, frame. rewrite <- app_assoc.
  rewrite (readUIntBE_mid [] (uint16be (blength m)) (m ++ rest)) by done.
  unfold uint16be. rewrite be_value_bytes; [done|]. unfold message, blength in *. change (256 ^ Z.of_nat 2) with 65536. lia.
Qed.

Lemma length_frame m : blength (frame m) = 2 + blength m.
Proof. unfold frame, blength. rewrite length_app. unfold uint16be. rewrite length_be_bytes. lia. Qed.

Lemma extract_frame fuel m rest :
  message m -> extract_loop (S fuel) (frame m ++ rest) =
    (m :: fst (extract_loop fuel rest), snd (extract_loop fuel rest)).
Proof.
  intros Hm. cbn [extract_loop]. pose proof (length_frame m) as Hl.
  assert (blength (frame m ++ rest) = 2 + blength m + blength rest) as Hall
    by (unfold blength in *; rewrite length_app; lia).
  assert (0 <= blength rest) by (unfold blength; lia). assert (0 <= blength m) by (unfold blength; lia).
  rewrite Hall, read_frame by done.
  destruct (Z.leb_spec 2 (2 + blength m + blength rest)); [|lia].
  destruct (Z.ltb_spec (2 + blength m + blength rest) (2 + blength m)); [lia|].
  replace (drop (Z.to_nat (2 + blength m)) (frame m ++ rest)) with rest.
  2:{ rewrite <- Hl. unfold blength. by rewrite Nat2Z.id, drop_app_length. }
  assert (subarray (frame m ++ rest) 2 (2 + blength m) = m) as ->.
  { unfold frame. rewrite <- app_assoc. apply subarray_mid; unfold uint16be, blength; rewrite length_be_bytes; lia. }
  by destruct (extract_loop fuel rest).
Qed.

Lemma extract_stop fuel rest : incomplete rest -> extract_loop fuel rest = ([], rest).
Proof.
  destruct fuel as [|fuel]; [done|]. intros Hi. cbn [extract_loop].
  destruct (Z.leb_spec 2 (blength rest)); [|done]. destruct Hi as [?|(n & -> & Hn)]; [lia|].
  destruct (Z.ltb_spec (blength rest) (2 + n)); [done|lia].
Qed.

(** The loop recovers any splitting it has the fuel for. *)
Lemma extract_splits fuel stream messages rest :
  splits stream messages rest -> (length messages <= fuel)%nat -> extract_loop fuel stream = (messages, rest).
Proof.
  intros [-> Hm Hr]. revert fuel. induction Hm as [|m messages Hm1 Hm IH]; intros fuel Hf.
  - by apply extract_stop.
  - destruct fuel as [|fuel]; [simpl in Hf; lia|]. cbn [map concat]. rewrite <- app_assoc, extract_frame by done.
    rewrite IH by (simpl in Hf; lia). done.
Qed.

Lemma splits_length stream messages rest : splits stream messages rest -> (length messages <= length stream)%nat.
Proof.
  intros [-> Hm _]. rewrite length_app. induction Hm as [|m messages ? ? IH]; simpl; [lia|].
  rewrite length_app. pose proof (length_frame m). unfold blength in *. lia.
Qed.

Lemma extractTcpMessages_splits stream messages rest :
  splits stream messages rest -> extractTcpMessages stream = (messages, rest).
Proof. intros Hs. apply extract_splits; [done|by eapply splits_length]. Qed.

(** Every byte stream splits. *)
Lemma splits_exists stream : Forall byte stream -> exists messages rest, splits stream messages rest.
Proof.
  remember (length stream) as n eqn:Hn. revert stream Hn.
  induction n as [n IH] using (well_founded_induction lt_wf). intros stream -> Hb.
  destruct stream as [|b1 [|b2 buf]]; [exists [], []; split; try done; by left|exists [], [b1]; split; try done; by left|].
  assert (readUInt16BE (b1 :: b2 :: buf) 0 = Ok (be_value [b1; b2])) as Hr
    by exact (readUIntBE_mid [] [b1; b2] buf 0 2 eq_refl eq_refl).
  apply Forall_cons in Hb as [Hb1 Hb]. apply Forall_cons in Hb as [Hb2 Hb].
  assert (Forall byte [b1; b2]) as H2 by (constructor; [done|constructor; [done|constructor]]).
  pose proof (be_value_bound [b1; b2] H2) as Hbound.
  change (256 ^ Z.of_nat (length [b1; b2])) with 65536 in Hbound.
  destruct (Z.le_gt_cases (be_value [b1; b2]) (blength buf)) as [Hle|Hgt].
  2:{ exists [], (b1 :: b2 :: buf). split; [done|constructor|]. right. exists (be_value [b1; b2]). split; [done|].
      unfold blength in *. simpl length. lia. }
  set (n := be_value [b1; b2]) in *.
  destruct (IH (length (drop (Z.to_nat n) buf))) with (stream := drop (Z.to_nat n) buf) as (messages & rest & [Hs Hm Hi]);
    [rewrite length_drop; simpl; lia|done|by apply Forall_drop|].
  exists (take (Z.to_nat n) buf :: messages), rest.
  assert (blength (take (Z.to_nat n) buf) = n) as Hlen by (unfold blength in *; rewrite length_take; lia).
  split; [|constructor; [unfold message; lia|done]|done]. cbn [map concat]. rewrite <- app_assoc, <- Hs.
  unfold frame. rewrite Hlen. unfold n. change (uint16be (be_value [b1; b2])) with (be_bytes (length [b1; b2]) (be_value [b1; b2])).
  rewrite be_bytes_value by done. simpl. do 2 f_equal. by rewrite take_drop.
Qed.

(** Splitting goes on where the last splitting stopped. *)
Lemma splits_continue stream messages rest chunk messages' rest' :
  splits stream messages rest -> splits (rest ++ chunk) messages' rest' ->
  splits (stream ++ chunk) (messages ++ messages') rest'.
Proof.
  intros [-> Hm Hr] [Hs' Hm' Hr']. split; [|by apply Forall_app|done].
  by rewrite <- app_assoc, Hs', map_app, concat_app, app_assoc.
Qed.

(** ** Properties *)

(** Framing survives any segmentation: whatever chunks a stream arrives
    in, the receiver yields exactly the messages that were framed, in order,
    and keeps exactly the bytes of the unfinished one; and a frame is refused
    only when its length does not fit the prefix. *)
Theorem frames_survive_segmentation messages rest chunks :
  Forall message messages -> incomplete rest -> Forall byte (concat chunks) ->
  concat chunks = concat (map frame messages) ++ rest ->
  fold_left receive chunks ([], []) = (messages, rest) /\
  map_result frameTcpMessage messages = Ok (map frame messages).
Proof.
  intros Hm Hr Hb Hc. split.
  2:{ apply map_result_ok. eapply Forall_impl; [exact Hm|]. intros m Hlt. unfold frameTcpMessage.
      unfold message in Hlt. destruct (Z.ltb_spec (blength m) 65536); [done|lia]. }
  assert (forall stream ms r, splits stream ms r -> Forall byte stream ->
    let '(ms', r') := fold_left receive chunks (ms, r) in splits (stream ++ concat chunks) ms' r') as Hfold.
  { clear Hc. induction chunks as [|chunk chunks IH]; intros stream ms r Hs Hbs; cbn [fold_left concat].
    - by rewrite app_nil_r.
    - cbn [concat] in Hb. apply Forall_app in Hb as [Hb1 Hb2].
      assert (Forall byte (r ++ chunk)) as Hbr.
      { apply Forall_app. split; [|done]. destruct Hs as [-> _ _]. by apply Forall_app in Hbs as [_ ?]. }
      destruct (splits_exists _ Hbr) as (ms' & r' & Hs').
      unfold receive at 2. cbn [fst snd]. rewrite (extractTcpMessages_splits _ _ _ Hs').
      specialize (IH Hb2 (stream ++ chunk) (ms ++ ms') r' (splits_continue _ _ _ _ _ _ Hs Hs') ltac:(by apply Forall_app)).
      by rewrite <- app_assoc in IH. }
  specialize (Hfold [] [] [] ltac:(split; try done; by left) ltac:(constructor)).
  destruct (fold_left receive chunks ([], [])) as [ms' r'].
  apply extractTcpMessages_splits in Hfold. cbn [app] in Hfold. rewrite Hc in Hfold.
  rewrite <- Hfold. apply extractTcpMessages_splits. by split.
Qed.

Lemma frames_survive_segmentation_witness :
  fold_left receive [[0]; [3; 1; 2]; [3; 0; 1; 9; 0]] ([], []) = ([[1; 2; 3]; [9]], [0]).
Proof.
  apply (frames_survive_segmentation [[1; 2; 3]; [9]] [0]).
  - repeat constructor.
  - left. vm_compute. reflexivity.
  - repeat constructor; vm_compute; done.
  - vm_compute. reflexivity.
Defined.
