(* ===== verification/ProbeRun.v ===== *)
(** * The run of a rogue-server probe

    What [runProbe] of [server/src/utils/dhcp-probe.js] and [runProbe6] of
    [dhcpv6-probe.js] share: the module's in-progress flag with its stuck
    check, one run's settlement by whichever of its timers, errors or window
    comes first, and the collection of replies while it is open. The two
    differ in how they number their transactions, what a reply is and what
    they make of the replies, which is the interface [Protocol]; each probe's
    file gives its instance.

    The clock and the timers are Node's: time is the state's [now], timers are
    due at the time they were set for and may fire up to [late] milliseconds
    after it. *)

From S2P Require Import Prelude JsString.

(** What one protocol gives the shared run. *)
Class Protocol (Msg Ctx Replies Event : Type) := {
  (** the transaction id of interface [i] in the run numbered [seq] *)
  probe_xid : Z -> Z -> Z;
  (** the ids the run asked with, and a datagram with its source *)
  on_reply : Ctx -> gmap Z string -> Replies -> Msg -> Replies;
  no_replies : Replies;
  (** the rogue servers among the replies *)
  rogue_events : Ctx -> Replies -> list Event
}.

(** ** The module state *)

Definition PROBE_WATCHDOG_GRACE_MS : Z := 15 * 1000.
Definition PROBE_STUCK_MS : Z := 5 * 60 * 1000.

Inductive probe_outcome := OutcomeOk | OutcomeTimeout | OutcomeError | OutcomeUnsupported | OutcomeNoInterfaces.

Record Module := mkModule {
  probeInProgress : bool;
  probeStartedAt : option Z;
  probeSupported : bool;
  lastProbeAt : option Z;
  lastProbeOutcome : option probe_outcome;
  lastProbeError : option string;
  xidSeq : Z }.

Definition initial_module : Module := mkModule false None true None None None 1.

(** [probeInProgress = false; probeStartedAt = null] and the last fields. *)
Definition release_flag (m : Module) (at_ : option Z) (outcome : probe_outcome) (error : option string) : Module :=
  mkModule false None (probeSupported m) at_ (Some outcome) error (xidSeq m).

Section Probe.
Context {Msg Ctx Replies Event : Type} `{Protocol Msg Ctx Replies Event}.
Context (windowMs : Z).

(** A run past its setup: its timers, and the variables of its closure. *)
Record Run := mkRun {
  ctx : Ctx;
  ifaces : list string;
  startedAt : Z;
  boundAt : option Z;
  xidMap : gmap Z string;
  replies : Replies;
  settled : bool }.

Record State := mkState {
  now : Z;
  module : Module;
  runs_ : list Run;
  persisted : list (nat * list Event) }. (** the events each run stored, by its index *)

(** [finish]: the first caller settles the run, later ones do nothing. *)
Definition finish (s : State) (i : nat) (r : Run) (supported : bool) (outcome : probe_outcome) (error : option string) : State :=
  if settled r then s
  else
    let m := module s in
    let m := mkModule false None supported (Some (now s))
               (Some (if supported then outcome else OutcomeUnsupported)) error (xidSeq m) in
    mkState (now s) m
      (<[i := mkRun (ctx r) (ifaces r) (startedAt r) (boundAt r) (xidMap r) (replies r) true]> (runs_ s))
      (persisted s ++ [(i, rogue_events (ctx r) (replies r))]).

(** What the setup of a run comes to. *)
Inductive setup :=
| SetupThrows (message : string)
| Interfaces (c : Ctx) (ifaces : list string) (socketError : option string).

(** How a call of [runProbe] is answered. *)
Inductive answer := Skipped | Rejected (message : string) | NoInterfaces | Running (i : nat).

Definition with_flag (m : Module) (t : Z) : Module :=
  mkModule true (Some t) (probeSupported m) (lastProbeAt m) (lastProbeOutcome m) (lastProbeError m) (xidSeq m).

Definition in_progress (s : State) : bool :=
  probeInProgress (module s) &&
    (match probeStartedAt (module s) with Some t => now s - t | None => 0 end <? PROBE_STUCK_MS).

(** The flag of a run that never finished is taken back. *)
Definition reclaim (s : State) : Module :=
  let m := module s in
  if probeInProgress m then
    let heldMs := match probeStartedAt m with Some t => now s - t | None => 0 end in
    mkModule false (probeStartedAt m) (probeSupported m) (lastProbeAt m) (lastProbeOutcome m)
      (Some ("previous probe stalled for " +:+ dec ((heldMs + 500) / 1000) +:+ "s")) (xidSeq m)
  else m.

Definition set_module (s : State) (m : Module) : State := mkState (now s) m (runs_ s) (persisted s).

Definition runProbe (s : State) (su : setup) : State * answer :=
  if in_progress s then (s, Skipped)
  else
    let m := with_flag (reclaim s) (now s) in
    match su with
    | SetupThrows message =>
        (set_module s (release_flag m (lastProbeAt m) OutcomeError (Some message)), Rejected message)
    | Interfaces c [] _ => (set_module s (release_flag m (Some (now s)) OutcomeNoInterfaces None), NoInterfaces)
    | Interfaces c ifs socketError =>
        let r := mkRun c ifs (now s) None ∅ no_replies false in
        let i := length (runs_ s) in
        let s := mkState (now s) m (runs_ s ++ [r]) (persisted s) in
        match socketError with
        | Some message => (finish s i r (probeSupported m) OutcomeError (Some message), Running i)
        | None => (s, Running i)
        end
    end.

(** The socket is bound: one query per interface, each with its own id. *)
Definition onBound (s : State) (i : nat) (r : Run) : State :=
  let m := module s in
  let ids := list_to_map (reverse (imap (fun k name => (probe_xid (xidSeq m) (Z.of_nat k), name)) (ifaces r))) in
  mkState (now s)
    (mkModule (probeInProgress m) (probeStartedAt m) (probeSupported m) (lastProbeAt m) (lastProbeOutcome m)
       (lastProbeError m) (xidSeq m + 1))
    (<[i := mkRun (ctx r) (ifaces r) (startedAt r) (Some (now s)) ids (replies r) (settled r)]> (runs_ s))
    (persisted s).

Definition onMessage (s : State) (i : nat) (r : Run) (msg : Msg) : State :=
  mkState (now s) (module s)
    (<[i := mkRun (ctx r) (ifaces r) (startedAt r) (boundAt r) (xidMap r)
              (on_reply (ctx r) (xidMap r) (replies r) msg) (settled r)]> (runs_ s))
    (persisted s).

(** The socket's errors: the ones that mean the port cannot be had, and the rest. *)
Definition onError (s : State) (i : nat) (r : Run) (portLost : bool) (message : string) : State :=
  if portLost then finish s i r false OutcomeOk (Some message)
  else finish s i r (probeSupported (module s)) OutcomeError (Some message).

Definition onWatchdog (s : State) (i : nat) (r : Run) : State :=
  finish s i r (probeSupported (module s)) OutcomeTimeout (Some "probe did not complete in time").

Definition onWindow (s : State) (i : nat) (r : Run) : State := finish s i r true OutcomeOk None.

(** ** Steps *)

Inductive label :=
| LProbe (su : setup)
| LBound (i : nat)
| LMessage (i : nat) (msg : Msg)
| LError (i : nat) (portLost : bool) (message : string)
| LWindow (i : nat)
| LWatchdog (i : nat)
| LTick (ms : Z).

Definition watchdogAt (r : Run) : Z := startedAt r + windowMs + PROBE_WATCHDOG_GRACE_MS.

Context (late : Z).

(** Time passes no further than [late] past the watchdog of a run that is
    not settled: a settled run has cleared it. *)
Definition timers_allow (t : Z) (r : Run) : bool := settled r || (t <=? watchdogAt r + late).

Definition exec (s : State) (l : label) : option State :=
  let open i k := match runs_ s !! i with Some r => if settled r then None else k r | None => None end in
  match l with
  | LProbe su => Some (fst (runProbe s su))
  | LBound i => open i (fun r => match boundAt r with None => Some (onBound s i r) | Some _ => None end)
  | LMessage i msg => open i (fun r => match boundAt r with Some _ => Some (onMessage s i r msg) | None => None end)
  | LError i portLost message => open i (fun r => Some (onError s i r portLost message))
  | LWindow i =>
      open i (fun r => match boundAt r with
                       | Some t => if t + windowMs <=? now s then Some (onWindow s i r) else None
                       | None => None end)
  | LWatchdog i => open i (fun r => if watchdogAt r <=? now s then Some (onWatchdog s i r) else None)
  | LTick ms =>
      if (0 <=? ms) && forallb (timers_allow (now s + ms)) (runs_ s)
      then Some (mkState (now s + ms) (module s) (runs_ s) (persisted s)) else None
  end.

Definition step (s : State) (l : label) (s' : State) : Prop := exec s l = Some s'.

Definition start : State := mkState 0 initial_module [] [].

(** ** The invariant *)

Context (Hwindow : 0 <= windowMs) (Hlate : 0 <= late)
  (Hstuck : windowMs + PROBE_WATCHDOG_GRACE_MS + late < PROBE_STUCK_MS).

(** Every run but the one in progress is settled, and has stored its
    events once. *)
Record inv (s : State) : Prop := {
  i_flag : probeInProgress (module s) = true <-> exists i r, runs_ s !! i = Some r /\ settled r = false;
  i_last : forall i r, runs_ s !! i = Some r -> settled r = false ->
    S i = length (runs_ s) /\ probeStartedAt (module s) = Some (startedAt r) /\
    startedAt r <= now s <= watchdogAt r + late;
  i_persisted : (forall i, i ∈ map fst (persisted s) <-> exists r, runs_ s !! i = Some r /\ settled r = true)
                /\ NoDup (map fst (persisted s))
}.

Lemma start_inv : inv start.
Proof.
  split; simpl.
  - split; [done|]. intros (i & r & Hr & _). done.
  - done.
  - split; [|constructor]. intros i. split; [by intros ?%not_elem_of_nil|]. intros (r & Hr & _). done.
Qed.

Lemma in_progress_flag s : inv s -> in_progress s = probeInProgress (module s).
Proof.
  intros Hi. unfold in_progress. destruct (probeInProgress (module s)) eqn:Hf; [|done]. simpl.
  apply Hi in Hf as (i & r & Hr & Hs). destruct (i_last s Hi i r Hr Hs) as (_ & -> & Hb).
  unfold watchdogAt in Hb. apply Z.ltb_lt. lia.
Qed.

Lemma finish_eq s i r sup o e :
  runs_ s !! i = Some r -> settled r = false -> inv s ->
  inv (finish s i r sup o e) /\ now (finish s i r sup o e) = now s.
Proof.
  intros Hr Hs Hi. unfold finish. rewrite Hs. split; [|done].
  pose proof (lookup_lt_Some _ _ _ Hr) as Hlt. destruct (i_last s Hi i r Hr Hs) as (Hlast & _).
  set (r' := mkRun _ _ _ _ _ _ true).
  assert (forall j q, <[i:=r']> (runs_ s) !! j = Some q -> settled q = false -> False) as Hnone.
  { intros j q Hq Hqs. destruct (decide (i = j)) as [<-|Hne].
    - rewrite list_lookup_insert_eq in Hq by done. by simplify_eq.
    - rewrite list_lookup_insert_ne in Hq by done. destruct (i_last s Hi j q Hq Hqs). lia. }
  destruct (i_persisted s Hi) as [Hp Hnd]. split; simpl.
  - split; [done|]. intros (j & q & Hq & Hqs). by destruct (Hnone j q Hq Hqs).
  - intros j q Hq Hqs. by destruct (Hnone j q Hq Hqs).
  - rewrite map_app. simpl. split.
    + intros j. rewrite elem_of_app, list_elem_of_singleton, Hp. destruct (decide (i = j)) as [<-|Hne].
      * rewrite list_lookup_insert_eq by done. split; [intros _; eauto|by right].
      * rewrite list_lookup_insert_ne by done. naive_solver.
    + apply NoDup_app. split_and!; [done| |repeat constructor; by apply not_elem_of_nil].
      intros j Hj ->%list_elem_of_singleton. apply Hp in Hj as (q & Hq & Hqs). simplify_eq. congruence.
Qed.

Lemma update_inv s i r r' m :
  runs_ s !! i = Some r -> settled r = false -> settled r' = false -> startedAt r' = startedAt r ->
  probeInProgress m = probeInProgress (module s) -> probeStartedAt m = probeStartedAt (module s) ->
  inv s -> inv (mkState (now s) m (<[i := r']> (runs_ s)) (persisted s)).
Proof.
  intros Hr Hs Hs' Hst Hm1 Hm2 Hi. pose proof (lookup_lt_Some _ _ _ Hr) as Hlt.
  destruct (i_last s Hi i r Hr Hs) as (Hlast & Hstart & Hb). split; simpl; rewrite ?Hm1, ?Hm2.
  - rewrite (i_flag s Hi). split; intros _.
    + exists i, r'. by rewrite list_lookup_insert_eq.
    + by exists i, r.
  - intros j q Hq Hqs. rewrite length_insert. destruct (decide (i = j)) as [<-|Hne].
    + rewrite list_lookup_insert_eq in Hq by done. simplify_eq. unfold watchdogAt in *. rewrite Hst. done.
    + rewrite list_lookup_insert_ne in Hq by done. by apply (i_last s Hi).
  - destruct (i_persisted s Hi) as [Hp Hnd]. split; [|done]. intros j. rewrite Hp. destruct (decide (i = j)) as [<-|Hne].
    + rewrite list_lookup_insert_eq by done. split; intros (q & Hq & Hqs); simplify_eq; congruence.
    + by rewrite list_lookup_insert_ne.
Qed.

(** Module updates that leave the flag down. *)
Lemma idle_inv s m :
  probeInProgress (module s) = false -> probeInProgress m = false -> inv s -> inv (set_module s m).
Proof.
  intros Hf Hm Hi. assert (forall i r, runs_ s !! i = Some r -> settled r = false -> False) as Hnone.
  { intros i r Hr Hs. assert (probeInProgress (module s) = true) by (apply Hi; eauto). congruence. }
  split; simpl.
  - rewrite Hm. split; [done|]. intros (i & r & Hr & Hs). by destruct (Hnone i r Hr Hs).
  - intros i r Hr Hs. by destruct (Hnone i r Hr Hs).
  - apply Hi.
Qed.

Lemma runProbe_inv s su : inv s -> inv (fst (runProbe s su)).
Proof.
  intros Hi. unfold runProbe. rewrite (in_progress_flag s Hi).
  destruct (probeInProgress (module s)) eqn:Hf; [done|].
  assert (reclaim s = module s) as Hrec by (unfold reclaim; by rewrite Hf). rewrite Hrec.
  destruct su as [message|c ifs se]; [by apply idle_inv|]. destruct ifs as [|if0 ifs]; [by apply idle_inv|].
  set (m := with_flag (module s) (now s)). set (r := mkRun _ _ _ _ _ _ false).
  assert (inv (mkState (now s) m (runs_ s ++ [r]) (persisted s))) as Hi'.
  { assert (forall i q, runs_ s !! i = Some q -> settled q = false -> False) as Hnone.
    { intros i q Hq Hs. assert (probeInProgress (module s) = true) by (apply Hi; eauto). congruence. }
    destruct (i_persisted s Hi) as [Hp Hnd]. split; simpl.
    - split; [|done]. intros _. exists (length (runs_ s)), r. split; [|done].
      by rewrite lookup_app_r, Nat.sub_diag.
    - intros j q Hq Hqs. apply lookup_app_Some in Hq as [Hq|[Hle Hq]]; [by destruct (Hnone j q Hq Hqs)|].
      apply list_lookup_singleton_Some in Hq as [Hj <-]. rewrite length_app. simpl.
      unfold watchdogAt, PROBE_WATCHDOG_GRACE_MS. simpl. split_and!; (done || lia).
    - split; [|done]. intros j. rewrite Hp. split; intros (q & Hq & Hqs).
      + exists q. split; [by apply lookup_app_l_Some|done].
      + apply lookup_app_Some in Hq as [Hq|[_ Hq]]; [by exists q|].
        apply list_lookup_singleton_Some in Hq as [_ <-]. done. }
  destruct se as [message|]; [|done]. cbn [fst]. apply finish_eq; [|done|done]. simpl.
  by rewrite lookup_app_r, Nat.sub_diag.
Qed.

Lemma probe_step_inv s l s' : inv s -> step s l s' -> inv s'.
Proof.
  unfold step. intros Hi He. destruct l as [su|i|i msg|i pl message|i|i|ms]; cbn [exec] in He.
  - injection He as <-. by apply runProbe_inv.
  - destruct (runs_ s !! i) as [r|] eqn:Hr; [|done]. destruct (settled r) eqn:Hs; [done|].
    destruct (boundAt r); [done|]. injection He as <-. by apply update_inv with r.
  - destruct (runs_ s !! i) as [r|] eqn:Hr; [|done]. destruct (settled r) eqn:Hs; [done|].
    destruct (boundAt r); [|done]. injection He as <-. by apply update_inv with r.
  - destruct (runs_ s !! i) as [r|] eqn:Hr; [|done]. destruct (settled r) eqn:Hs; [done|].
    injection He as <-. unfold onError. destruct pl; by apply finish_eq.
  - destruct (runs_ s !! i) as [r|] eqn:Hr; [|done]. destruct (settled r) eqn:Hs; [done|].
    destruct (boundAt r); [|done]. destruct (_ <=? _); [|done]. injection He as <-. by apply finish_eq.
  - destruct (runs_ s !! i) as [r|] eqn:Hr; [|done]. destruct (settled r) eqn:Hs; [done|].
    destruct (_ <=? _); [|done]. injection He as <-. by apply finish_eq.
  - destruct (_ && _) eqn:Ht; [|done]. injection He as <-. apply andb_true_iff in Ht as [Hms%Z.leb_le Ht].
    split; simpl; [apply Hi| |apply Hi]. intros i r Hr Hs. destruct (i_last s Hi i r Hr Hs) as (? & ? & ?).
    rewrite forallb_forall in Ht. specialize (Ht r ltac:(apply list_elem_of_In; by eapply list_elem_of_lookup_2)).
    unfold timers_allow in Ht. rewrite Hs in Ht. cbn [orb] in Ht. apply Z.leb_le in Ht. split_and!; (done || lia).
Qed.

Lemma probe_reachable_inv ls s : runs step start ls s -> inv s.
Proof. intros Hr. eapply (runs_invariant _ inv); [|exact Hr|apply start_inv]. intros; by eapply probe_step_inv. Qed.
End Probe.

(** ** Properties *)

(** Probes never overlap and never get stuck, as long as a watchdog
    fires within [late] of its time and so before the stuck check looks: at
    most one run is open, the in-progress flag says exactly whether one is,
    a call made meanwhile is skipped and the flag is never taken from a live
    run; each run that ended stored its events exactly once; and an open run
    can always be ended by its watchdog, which puts the flag down. *)
Theorem probes_never_overlap {Msg Ctx Replies Event} `{Protocol Msg Ctx Replies Event} windowMs late ls (s : State) :
  0 <= windowMs -> 0 <= late -> windowMs + PROBE_WATCHDOG_GRACE_MS + late < PROBE_STUCK_MS ->
  runs (step windowMs late) start ls s ->
  (forall i j r q, runs_ s !! i = Some r -> runs_ s !! j = Some q -> settled r = false -> settled q = false -> i = j) /\
  (probeInProgress (module s) = true <-> exists i r, runs_ s !! i = Some r /\ settled r = false) /\
  (forall su, probeInProgress (module s) = true -> runProbe s su = (s, Skipped)) /\
  NoDup (map fst (persisted s)) /\
  (forall i r, runs_ s !! i = Some r -> (settled r = true <-> i ∈ map fst (persisted s))) /\
  (forall i r, runs_ s !! i = Some r -> settled r = false ->
     exists ms s', runs (step windowMs late) s [LTick ms; LWatchdog i] s' /\ probeInProgress (module s') = false).
Proof.
  intros Hw Hl Hst Hr. pose proof (probe_reachable_inv windowMs late Hw Hl Hst ls s Hr) as Hi.
  split_and!.
  - intros i j r q Hri Hrj Hs1 Hs2. destruct (i_last _ _ s Hi i r Hri Hs1) as [? _].
    destruct (i_last _ _ s Hi j q Hrj Hs2) as [? _]. lia.
  - apply Hi.
  - intros su Hf. unfold runProbe. by rewrite (in_progress_flag windowMs late Hst s Hi), Hf.
  - apply Hi.
  - intros i r Hri. destruct (i_persisted _ _ s Hi) as [Hp _]. rewrite Hp. split; [eauto|].
    intros (q & Hq & Hqs). by simplify_eq.
  - intros i r Hri Hs. destruct (i_last _ _ s Hi i r Hri Hs) as (Hlast & _ & Hb).
    set (d := Z.max 0 (watchdogAt windowMs r - now s)).
    assert (forallb (timers_allow windowMs late (now s + d)) (runs_ s) = true) as Hall.
    { apply forallb_forall. intros q [j Hj]%list_elem_of_In%list_elem_of_lookup. unfold timers_allow.
      destruct (settled q) eqn:Hq; [done|]. destruct (i_last _ _ s Hi j q Hj Hq) as (? & _ & _).
      assert (i = j) as -> by lia. simplify_eq. cbn [orb]. apply Z.leb_le. unfold d. lia. }
    exists d. eexists. split.
    + econstructor; [unfold step; cbn [exec]; rewrite Hall; destruct (Z.leb_spec 0 d); [reflexivity|unfold d in *; lia]|].
      econstructor; [|constructor]. unfold step. cbn [exec runs_ now]. rewrite Hri, Hs.
      destruct (Z.leb_spec (watchdogAt windowMs r) (now s + d)); [reflexivity|unfold d in *; lia].
    + unfold onWatchdog, finish. rewrite Hs. done.
Qed.

(** A protocol for the example: a reply is a server's name. *)
#[local] Instance echo : Protocol string unit (list string) string := {|
  probe_xid := fun seq i => seq * 65536 + i;
  on_reply := fun _ _ seen name => seen ++ [name];
  no_replies := [];
  rogue_events := fun _ seen => seen |}.

Fixpoint exec_all {Msg Ctx Replies Event} `{Protocol Msg Ctx Replies Event} (windowMs late : Z)
    (s : State) (ls : list label) : option State :=
  match ls with
  | [] => Some s
  | l :: ls' => match exec windowMs late s l with Some s' => exec_all windowMs late s' ls' | None => None end
  end.

Lemma probe_exec_all_runs {Msg Ctx Replies Event} `{Protocol Msg Ctx Replies Event} windowMs late ls (s s' : State) :
  exec_all windowMs late s ls = Some s' -> runs (step windowMs late) s ls s'.
Proof.
  revert s. induction ls as [|l ls IH]; intros s He; cbn [exec_all] in He; [injection He as <-; constructor|].
  destruct (exec windowMs late s l) as [s1|] eqn:E1; [|done]. econstructor; [exact E1|apply IH; exact He].
Qed.

Definition echo_labels : list (@label string unit) :=
  [LProbe (Interfaces tt ["eth0"] None); LTick 10; LBound 0; LMessage 0 "rogue"; LTick 4000; LWindow 0;
   LProbe (Interfaces tt ["eth0"] None)].

Lemma probes_never_overlap_witness : exists s : State,
  exec_all 4000 1000 start echo_labels = Some s /\ persisted s = [(0%nat, ["rogue"])] /\
  NoDup (map fst (persisted s)).
Proof.
  eexists. split; [vm_compute; reflexivity|]. split; [reflexivity|].
  eapply (probes_never_overlap 4000 1000 echo_labels).
  - lia.
  - lia.
  - vm_compute. reflexivity.
  - apply probe_exec_all_runs. vm_compute. reflexivity.
Defined.
