(* ===== verification/DhcpProbe.v ===== *)
(** * The rogue DHCPv4 probe: [server/src/utils/dhcp-probe.js]

    The DISCOVER that is sent, the reading of what comes back, the verdict,
    and the instance of the shared run. *)

From S2P Require Import Prelude JsString Bytes ProbeRun.

Definition MAGIC_COOKIE : Z := 1669485411. (** [0x63825363] *)

(** ** Building a DISCOVER *)

(** [parseInt(h, 16)], exact up to the thirteen digits a double holds: the
    longest prefix of hex digits after an optional sign and [0x]. *)
Fixpoint hex_prefix (s : string) : string :=
  match s with
  | String c s' => if is_hex c then String c (hex_prefix s') else ""
  | EmptyString => ""
  end.

Definition parseInt16 (h : string) : option Z :=
  let h := drop_while is_space h in
  let negative := starts_with "-" h in
  let h := if negative || starts_with "+" h then drop_string 1 h else h in
  let h := if starts_with "0x" h || starts_with "0X" h then drop_string 2 h else h in
  let digits := hex_prefix h in
  if String.eqb digits "" then None
  else Some (if negative then - from_base 16 digits else from_base 16 digits).

(** [NaN & 0xff] is 0. *)
Definition parseMacBytes (mac : string) : bytes :=
  if String.eqb mac "" then [0; 0; 0; 0; 0; 0]
  else map (fun h => match parseInt16 h with Some v => Z.land v 255 | None => 0 end) (split_char ":" mac).

Definition DISCOVER_PARAMS : bytes := [1; 3; 6; 15; 51; 54].

(** The writes of [buildDiscover], in order, over 300 zero bytes. *)
Definition discover_writes (xid : Z) (mac : string) : list (nat * bytes) :=
  let macBytes := parseMacBytes mac in
  [(0%nat, uint8 1); (1%nat, uint8 1); (2%nat, uint8 6); (3%nat, uint8 0);
   (4%nat, uint32be (xid mod 2 ^ 32)); (8%nat, uint16be 0); (10%nat, uint16be 32768)]
  ++ map (fun i => ((28 + i)%nat, uint8 (nth i macBytes 0))) [0; 1; 2; 3; 4; 5]%nat
  ++ [(236%nat, uint32be MAGIC_COOKIE);
      (240%nat, uint8 53); (241%nat, uint8 1); (242%nat, uint8 1);
      (243%nat, uint8 55); (244%nat, uint8 (blength DISCOVER_PARAMS))]
  ++ imap (fun i p => ((245 + i)%nat, uint8 p)) DISCOVER_PARAMS
  ++ [(251%nat, uint8 255)].

Definition buildDiscover (xid : Z) (mac : string) : bytes :=
  fold_left (fun buf '(off, part) => write_at buf off part) (discover_writes xid mac) (alloc 300).

(** ** Reading an OFFER *)

(** [`${buf[off]}`] *)
Definition byte_text (buf : bytes) (off : Z) : string :=
  match buf !! Z.to_nat off with Some b => dec b | None => "undefined" end.

Definition ipToStr (buf : bytes) (off : Z) : string :=
  byte_text buf off +:+ "." +:+ byte_text buf (off + 1) +:+ "." +:+ byte_text buf (off + 2) +:+ "." +:+ byte_text buf (off + 3).

(** The variables of the option loop. *)
Record OfferOptions := mkOptions {
  msgType : option Z;
  serverId : option string;
  gateway : option string;
  subnetMask : option string;
  dns : list string }.

Definition no_options : OfferOptions := mkOptions None None None None [].

(** The [switch] of the option loop, with the option's data at [off]. *)
Definition offer_option (buf : bytes) (off len code : Z) (o : OfferOptions) : result range_error OfferOptions :=
  if code =? 53 then
    v ← readUInt8 buf off; mret (mkOptions (Some v) (serverId o) (gateway o) (subnetMask o) (dns o))
  else if code =? 54 then
    mret (if 4 <=? len then mkOptions (msgType o) (Some (ipToStr buf off)) (gateway o) (subnetMask o) (dns o) else o)
  else if code =? 3 then
    mret (if 4 <=? len then mkOptions (msgType o) (serverId o) (Some (ipToStr buf off)) (subnetMask o) (dns o) else o)
  else if code =? 1 then
    mret (if 4 <=? len then mkOptions (msgType o) (serverId o) (gateway o) (Some (ipToStr buf off)) (dns o) else o)
  else if code =? 6 then
    mret (mkOptions (msgType o) (serverId o) (gateway o) (subnetMask o)
            (dns o ++ map (fun i => ipToStr buf (off + 4 * i)) (seqZ 0 (len / 4))))
  else mret o.

(** The [while] loop; every turn moves [off] on, so the buffer's length is
    fuel enough. *)
Fixpoint offer_loop (fuel : nat) (buf : bytes) (off : Z) (o : OfferOptions) : result range_error OfferOptions :=
  match fuel with
  | O => mret o
  | S fuel' =>
      if off <? blength buf then
        code ← readUInt8 buf off;
        let off := off + 1 in
        if code =? 255 then mret o
        else if code =? 0 then offer_loop fuel' buf off o
        else if blength buf <=? off then mret o
        else
          len ← readUInt8 buf off;
          let off := off + 1 in
          if blength buf <? off + len then mret o
          else
            o ← offer_option buf off len code o;
            offer_loop fuel' buf (off + len) o
      else mret o
  end.

Record Offer := mkOffer {
  xid : Z;
  yiaddr : string;
  siaddr : string;
  giaddr : option string;
  chaddr : string;
  options : OfferOptions }.

Definition parseOffer (buf : bytes) : result range_error (option Offer) :=
  if blength buf <? 240 then mret None
  else
    magic ← readUInt32BE buf 236;
    if negb (magic =? MAGIC_COOKIE) then mret None
    else
      op ← readUInt8 buf 0;
      if negb (op =? 2) then mret None
      else
        xid ← readUInt32BE buf 4;
        let giaddrRaw := ipToStr buf 24 in
        let giaddr := if String.eqb giaddrRaw "0.0.0.0" then None else Some giaddrRaw in
        let chaddr := join ":" (map (fun b => pad_start 2 "0" (hex b)) (subarray buf 28 34)) in
        o ← offer_loop (length buf) buf 240 no_options;
        mret (match msgType o with
              | Some 2 => Some (mkOffer xid (ipToStr buf 16) (ipToStr buf 20) giaddr chaddr o)
              | _ => None
              end).

(** ** The verdict *)

Inductive reason := Self | Authorized | Unauthorized.

Record Ctx := mkCtx { selfIps : gset string; authorized : gset string }.

Definition candidates (offer : Offer) (sourceIp : string) : list string :=
  map (fun s => to_lower (trim s))
    (List.filter (fun s => negb (String.eqb s ""))
       (match serverId (options offer) with Some s => [s] | None => [] end ++ [siaddr offer; sourceIp])).

(** [{ rogue, reason }] *)
Definition classifyOffer (offer : Offer) (sourceIp : string) (c : Ctx) : bool * reason :=
  if existsb (fun x => bool_decide (x ∈ selfIps c)) (candidates offer sourceIp) then (false, Self)
  else if existsb (fun x => bool_decide (x ∈ authorized c)) (candidates offer sourceIp) then (false, Authorized)
  else (true, Unauthorized).

(** ** Collecting the replies *)

Record RogueEvent := mkEvent {
  server_ip : string;
  server_identifier : option string;
  offered_ip : string;
  offered_gateway : option string;
  offered_dns : option string;
  offered_subnet_mask : option string;
  relay_ip : option string;
  iface : option string }.

(** [offerCount] and the [rogues] Map, in insertion order. *)
Record Replies := mkReplies { offerCount : Z; rogues : list (string * RogueEvent) }.

(** [serverId || sourceIp]: a parsed server id is never empty. *)
Definition serverOf (offer : Offer) (sourceIp : string) : string :=
  match serverId (options offer) with Some s => s | None => sourceIp end.

Definition rogueEvent (offer : Offer) (server : string) (name : option string) : RogueEvent :=
  let o := options offer in
  mkEvent server (serverId o) (yiaddr offer) (gateway o)
    (match dns o with [] => None | l => Some (join "," l) end) (subnetMask o) (giaddr offer) name.

(** The ['message'] handler: a read that throws is logged and dropped. *)
Definition onMessage (c : Ctx) (xidMap : gmap Z string) (r : Replies) (msg : bytes * string) : Replies :=
  let '(data, sourceIp) := msg in
  match parseOffer data with
  | Err _ | Ok None => r
  | Ok (Some offer) =>
      match xidMap !! xid offer with
      | None => r
      | Some name =>
          let r := mkReplies (offerCount r + 1) (rogues r) in
          if negb (fst (classifyOffer offer sourceIp c)) then r
          else
            let server := serverOf offer sourceIp in
            if String.eqb server "" then r
            else if existsb (fun e => String.eqb (fst e) server) (rogues r) then r
            else mkReplies (offerCount r) (rogues r ++ [(server, rogueEvent offer server (Some name))])
      end
  end.

(** [((xidSeq & 0xffff) << 16 | (i & 0xffff)) >>> 0] *)
Definition discoverXid (seq i : Z) : Z := Z.lor (Z.shiftl (Z.land seq 65535) 16) (Z.land i 65535).

#[export] Instance dhcp_protocol : Protocol (bytes * string) Ctx Replies RogueEvent := {|
  probe_xid := discoverXid;
  on_reply := onMessage;
  no_replies := mkReplies 0 [];
  rogue_events := fun _ r => map snd (rogues r) |}.

(** The socket errors that say port 68 is not to be had on this host. *)
Definition onSocketError (s : @State Ctx Replies RogueEvent) (i : nat) (r : Run) (code message : string) : State :=
  if String.eqb code "EACCES" || String.eqb code "EADDRINUSE"
  then onError s i r true ("cannot bind UDP :68 (" +:+ code +:+ ")")
  else onError s i r false message.

Example discover_bytes : take 12 (buildDiscover 66051 "de:ad:be:ef:00:01") = [1; 1; 6; 0; 0; 1; 2; 3; 0; 0; 128; 0] /\
  take 16 (drop 236 (buildDiscover 66051 "de:ad:be:ef:00:01")) = [99; 130; 83; 99; 53; 1; 1; 55; 6; 1; 3; 6; 15; 51; 54; 255].
Proof. split; vm_compute; reflexivity. Qed.

(** ** The specification of an option area *)

(** An option as it is sent, and what a reader is to take from it. *)
Definition tlv (o : Z * bytes) : bytes := fst o :: blength (snd o) :: snd o.

Definition ip_text (d : bytes) : string := ipToStr d 0.

(** The addresses of a list option, four bytes each; a remainder is ignored. *)
Definition ip_list (d : bytes) : list string := map (fun i => ipToStr d (4 * i)) (seqZ 0 (blength d / 4)).

Definition spec_option (o : OfferOptions) (opt : Z * bytes) : OfferOptions :=
  let '(code, d) := opt in
  if code =? 53 then mkOptions (head d) (serverId o) (gateway o) (subnetMask o) (dns o)
  else if (code =? 54) && (4 <=? blength d) then mkOptions (msgType o) (Some (ip_text d)) (gateway o) (subnetMask o) (dns o)
  else if (code =? 3) && (4 <=? blength d) then mkOptions (msgType o) (serverId o) (Some (ip_text d)) (subnetMask o) (dns o)
  else if (code =? 1) && (4 <=? blength d) then mkOptions (msgType o) (serverId o) (gateway o) (Some (ip_text d)) (dns o)
  else if code =? 6 then mkOptions (msgType o) (serverId o) (gateway o) (subnetMask o) (dns o ++ ip_list d)
  else o.

(** An option a server may send: a real code, a length that fits its byte,
    and a message type that is there. *)
Definition sendable (opt : Z * bytes) : Prop :=
  1 <= fst opt <= 254 /\ blength (snd opt) <= 255 /\ (fst opt = 53 -> snd opt <> []).

(** ** Lemmas *)

Lemma byte_text_mid pre d post k :
  0 <= k < blength d -> byte_text (pre ++ d ++ post) (blength pre + k) = byte_text d k.
Proof.
  intros Hk. unfold byte_text, blength in *. rewrite lookup_app_r by lia.
  replace (Z.to_nat (Z.of_nat (length pre) + k) - length pre)%nat with (Z.to_nat k) by lia.
  by rewrite lookup_app_l by lia.
Qed.

Lemma ipToStr_mid pre d post k :
  0 <= k -> k + 4 <= blength d -> ipToStr (pre ++ d ++ post) (blength pre + k) = ipToStr d k.
Proof.
  intros Hk Hd. unfold ipToStr. rewrite <- !Z.add_assoc. by rewrite !byte_text_mid by lia.
Qed.

Lemma ip_list_mid pre d post :
  map (fun i => ipToStr (pre ++ d ++ post) (blength pre + 4 * i)) (seqZ 0 (blength d / 4)) = ip_list d.
Proof.
  unfold ip_list. apply list_fmap_ext. intros _ i Hi%list_elem_of_lookup_2%elem_of_seqZ.
  pose proof (Z.mul_div_le (blength d) 4 ltac:(lia)). apply ipToStr_mid; lia.
Qed.

(** The code reads an option as the specification does. *)
Lemma offer_option_spec pre opt post o :
  sendable opt ->
  offer_option (pre ++ snd opt ++ post) (blength pre) (blength (snd opt)) (fst opt) o = Ok (spec_option o opt).
Proof.
  destruct opt as [code d]. intros (_ & _ & H53). simpl in *. unfold offer_option, spec_option.
  pose proof (fun H => ipToStr_mid pre d post 0 ltac:(lia) H) as Hip. rewrite Z.add_0_r in Hip.
  rewrite ip_list_mid. destruct (Z.eqb_spec code 53) as [->|].
  { destruct d as [|v d]; [by destruct H53|]. simpl. by rewrite readUInt8_mid. }
  destruct (Z.leb_spec 4 (blength d)).
  - rewrite Hip by lia. fold (ip_text d). destruct (code =? 54); [done|]. destruct (code =? 3); [done|].
    destruct (code =? 1); [done|]. destruct (code =? 6); done.
  - destruct (code =? 54) eqn:E1; [|destruct (code =? 3) eqn:E2; [|destruct (code =? 1) eqn:E3; [|by destruct (code =? 6)]]].
    all: cbn [andb]; rewrite ?andb_false_r; reflect_bools; subst; done.
Qed.

(** Reading a whole option area. *)
Lemma offer_loop_spec opts pre tail fuel o :
  Forall sendable opts -> (length opts < fuel)%nat ->
  offer_loop fuel (pre ++ concat (map tlv opts) ++ 255 :: tail) (blength pre) o = Ok (fold_left spec_option opts o).
Proof.
  intros Hs. revert pre fuel o. induction Hs as [|opt opts Hopt Hs IH]; intros pre fuel o Hf.
  - destruct fuel as [|fuel]; [simpl in Hf; lia|]. cbn [map concat app offer_loop].
    assert (blength pre < blength (pre ++ 255 :: tail)) as Hlt by (unfold blength; rewrite length_app; simpl; lia).
    destruct (Z.ltb_spec (blength pre) (blength (pre ++ 255 :: tail))); [|lia].
    rewrite (readUInt8_mid pre 255 tail (blength pre)) by done. reflexivity.
  - destruct fuel as [|fuel]; [simpl in Hf; lia|]. destruct opt as [code d]. pose proof Hopt as (Hcode & Hlen & _).
    simpl in Hcode, Hlen. cbn [map concat fold_left]. unfold tlv at 1. cbn [fst snd]. rewrite <- app_assoc. cbn [app].
    set (rest := concat (map tlv opts) ++ 255 :: tail). set (buf := pre ++ code :: blength d :: d ++ rest).
    assert (blength buf = blength pre + 2 + blength d + blength rest) as Hb
      by (unfold buf, blength; rewrite length_app; simpl; rewrite length_app; lia).
    assert (0 < blength rest) by (unfold rest, blength; rewrite length_app; simpl; lia).
    assert (0 <= blength d) by (unfold blength; lia).
    cbn [offer_loop]. destruct (Z.ltb_spec (blength pre) (blength buf)); [|lia].
    assert (readUInt8 buf (blength pre) = Ok code) as -> by (by apply readUInt8_mid). cbn [mbind result_bind]. cbv zeta.
    destruct (Z.eqb_spec code 255); [lia|]. destruct (Z.eqb_spec code 0); [lia|].
    destruct (Z.leb_spec (blength buf) (blength pre + 1)); [lia|].
    assert (buf = (pre ++ [code]) ++ blength d :: d ++ rest) as Hbuf1 by (unfold buf; by rewrite <- app_assoc).
    assert (readUInt8 buf (blength pre + 1) = Ok (blength d)) as ->
      by (rewrite Hbuf1; apply readUInt8_mid; unfold blength; rewrite length_app; simpl; lia).
    cbn [mbind result_bind]. destruct (Z.ltb_spec (blength buf) (blength pre + 1 + 1 + blength d)); [lia|].
    assert (buf = (pre ++ [code; blength d]) ++ d ++ rest) as Hbuf2 by (unfold buf; by rewrite <- app_assoc).
    replace (blength pre + 1 + 1) with (blength (pre ++ [code; blength d])) by (unfold blength; rewrite length_app; simpl; lia).
    rewrite Hbuf2. rewrite (offer_option_spec _ (code, d)) by done. cbn [mbind result_bind].
    replace (blength (pre ++ [code; blength d]) + blength d) with (blength ((pre ++ [code; blength d]) ++ d))
      by (unfold blength; rewrite !length_app; lia).
    rewrite (app_assoc (pre ++ [code; blength d])). unfold rest. apply IH. simpl in Hf. lia.
Qed.

(** A reply as a server sends it: the fixed header, the cookie, the options. *)
Record Header := mkHeader {
  h_start : bytes;      (** htype, hlen, hops *)
  h_xid : Z;
  h_secs_flags_ciaddr : bytes;
  h_yiaddr : bytes;
  h_siaddr : bytes;
  h_giaddr : bytes;
  h_chaddr : bytes;
  h_rest : bytes        (** the rest of chaddr, sname and file *) }.

Definition header_ok (h : Header) : Prop :=
  length (h_start h) = 3%nat /\ 0 <= h_xid h < 2 ^ 32 /\ length (h_secs_flags_ciaddr h) = 8%nat /\
  length (h_yiaddr h) = 4%nat /\ length (h_siaddr h) = 4%nat /\ length (h_giaddr h) = 4%nat /\
  length (h_chaddr h) = 6%nat /\ length (h_rest h) = 202%nat.

Definition encode_reply (h : Header) (opts : list (Z * bytes)) (pad : bytes) : bytes :=
  2 :: h_start h ++ uint32be (h_xid h) ++ h_secs_flags_ciaddr h ++ h_yiaddr h ++ h_siaddr h ++ h_giaddr h
    ++ h_chaddr h ++ h_rest h ++ uint32be MAGIC_COOKIE ++ concat (map tlv opts) ++ 255 :: pad.

Lemma reply_options_length opts : (length opts <= length (concat (map tlv opts)))%nat.
Proof. induction opts as [|o opts IH]; simpl; [lia|]. rewrite length_app. lia. Qed.

(** A field of a message, from the bytes before it. *)
Lemma ipToStr_field pre d post off :
  off = blength pre -> length d = 4%nat -> ipToStr (pre ++ d ++ post) off = ip_text d.
Proof.
  intros -> Hd. rewrite <- (Z.add_0_r (blength pre)). apply ipToStr_mid; unfold blength; lia.
Qed.

(** The module's own DISCOVER, field by field. *)
Lemma buildDiscover_eq x mac :
  let m i := nth i (parseMacBytes mac) 0 mod 256 in
  buildDiscover x mac =
    [1; 1; 6; 0] ++ uint32be (x mod 2 ^ 32) ++ [0; 0; 128; 0] ++ alloc 16
    ++ [m 0%nat; m 1%nat; m 2%nat; m 3%nat; m 4%nat; m 5%nat] ++ alloc 202 ++ uint32be MAGIC_COOKIE
    ++ concat (map tlv [(53, [1]); (55, DISCOVER_PARAMS)]) ++ 255 :: alloc 48.
Proof.
  cbv zeta. unfold buildDiscover, discover_writes.
  reflexivity.
Qed.

(** ** More lemmas *)

Lemma blength_app l1 l2 : blength (l1 ++ l2) = blength l1 + blength l2.
Proof. unfold blength. rewrite length_app. lia. Qed.

Lemma blength_eq (n : nat) (l : bytes) : length l = n -> blength l = Z.of_nat n.
Proof. unfold blength. by intros ->. Qed.

(** Spell out a list of known length. *)
Ltac explode l := repeat (let x := fresh "b" in destruct l as [|x l]; try discriminate).

(** The fixed part of a reply, read back. *)
Lemma reply_fields h opts pad :
  header_ok h ->
  let buf := encode_reply h opts pad in
  240 <= blength buf /\ readUInt32BE buf 236 = Ok MAGIC_COOKIE /\ readUInt8 buf 0 = Ok 2 /\
  readUInt32BE buf 4 = Ok (h_xid h) /\ ipToStr buf 16 = ip_text (h_yiaddr h) /\
  ipToStr buf 20 = ip_text (h_siaddr h) /\ ipToStr buf 24 = ip_text (h_giaddr h) /\
  subarray buf 28 34 = h_chaddr h /\
  (exists pre, blength pre = 240 /\ buf = pre ++ concat (map tlv opts) ++ 255 :: pad).
Proof.
  intros (H1 & Hx & H2 & H3 & H4 & H5 & H6 & H7) buf. subst buf. unfold encode_reply.
  set (area := concat (map tlv opts) ++ 255 :: pad).
  pose proof (length_be_bytes 4 (h_xid h)) as Hxl.
  pose proof (be_value_bytes 4 (h_xid h)) as Hxv. change (256 ^ Z.of_nat 4) with (2 ^ 32) in Hxv. specialize (Hxv Hx).
  unfold uint32be at 1 5 7 9. destruct h as [st x sf yi si gi ch re]. cbn [h_start h_xid h_secs_flags_ciaddr h_yiaddr h_siaddr h_giaddr h_chaddr h_rest] in *.
  set (xb := be_bytes 4 x) in *. clearbody xb.
  explode st. explode xb. explode sf. explode yi. explode si. explode gi. explode ch. cbn [app].
  set (front := re ++ uint32be MAGIC_COOKIE ++ area).
  assert (blength front = 206 + blength area) as Hfront.
  { unfold front. rewrite !blength_app, (blength_eq _ _ H7). unfold uint32be. rewrite (blength_eq _ _ (length_be_bytes 4 _)). lia. }
  assert (0 <= blength area) by (unfold blength; lia).
  split_and!; try reflexivity.
  - unfold blength in *. cbn [length]. lia.
  - unfold readUInt32BE. match goal with |- readUIntBE ?l _ _ = _ => 
      change l with (take 34 l ++ front); set (pre := take 34 l) end.
    unfold front. rewrite app_assoc, (readUIntBE_mid (pre ++ re) (uint32be MAGIC_COOKIE) area);
      [vm_compute; reflexivity| |reflexivity].
    rewrite blength_app, (blength_eq _ _ H7). reflexivity.
  - unfold readUInt32BE. match goal with |- readUIntBE (?a :: ?b :: ?c :: ?d :: ?e :: ?f :: ?g :: ?h :: ?l) _ _ = _ =>
      exact (eq_trans (readUIntBE_mid [a; b; c; d] [e; f; g; h] l 4 4 eq_refl eq_refl) (f_equal Ok Hxv)) end.
  - match goal with |- exists pre, _ /\ ?l = _ => exists (take 34 l ++ re ++ uint32be MAGIC_COOKIE) end. split.
    + rewrite !blength_app, (blength_eq _ _ H7). reflexivity.
    + unfold front. rewrite (app_assoc re). reflexivity.
Qed.

(** Where a read can fail: a message type option with no data, last in the
    buffer. *)
Lemma readUInt8_inv buf off v : readUInt8 buf off = Ok v -> buf !! Z.to_nat off = Some v.
Proof. unfold readUInt8. destruct (buf !! Z.to_nat off); [|done]. by intros [= ->]. Qed.

Lemma offer_option_err buf off len code o e :
  offer_option buf off len code o = Err e -> code = 53 /\ readUInt8 buf off = Err e.
Proof.
  unfold offer_option. destruct (Z.eqb_spec code 53).
  - destruct (readUInt8 buf off); [done|]. by intros [= ->].
  - destruct (code =? 54), (code =? 3), (code =? 1), (code =? 6); done.
Qed.

Lemma offer_loop_err fuel buf off o e :
  Forall byte buf -> 0 <= off -> offer_loop fuel buf off o = Err e -> exists pre, buf = pre ++ [53; 0].
Proof.
  intros Hb. revert off o. induction fuel as [|fuel IH]; intros off o Hoff H; cbn [offer_loop] in H; [done|].
  destruct (Z.ltb_spec off (blength buf)); [|done].
  destruct (readUInt8_ok buf off Hoff ltac:(lia)) as [code Hcode]. rewrite Hcode in H. cbn [mbind result_bind] in H.
  cbv zeta in H. destruct (code =? 255); [done|]. destruct (code =? 0); [by apply IH in H; [|lia]|].
  destruct (Z.leb_spec (blength buf) (off + 1)); [done|].
  destruct (readUInt8_ok buf (off + 1) ltac:(lia) ltac:(lia)) as [len Hlen]. rewrite Hlen in H. cbn [mbind result_bind] in H.
  destruct (Z.ltb_spec (blength buf) (off + 1 + 1 + len)) as [|Hfit]; [done|].
  apply readUInt8_inv in Hcode. apply readUInt8_inv in Hlen.
  pose proof (Forall_lookup_1 _ _ _ _ Hb Hlen) as Hl. unfold byte in Hl.
  destruct (offer_option buf (off + 1 + 1) len code o) as [o'|e'] eqn:Ho.
  - cbn [mbind result_bind] in H. by apply IH in H; [|lia].
  - apply offer_option_err in Ho as [-> Hr]. unfold readUInt8 in Hr.
    destruct (buf !! Z.to_nat (off + 1 + 1)) eqn:Hn; [done|]. apply lookup_ge_None in Hn. unfold blength in *.
    assert (len = 0) as -> by lia. exists (take (Z.to_nat off) buf).
    rewrite <- (take_drop (Z.to_nat off) buf) at 1. f_equal.
    rewrite (drop_S buf 53 (Z.to_nat off)) by done.
    replace (Z.to_nat (off + 1)) with (S (Z.to_nat off)) in Hlen by lia. rewrite (drop_S buf 0) by done.
    rewrite drop_ge by lia. done.
Qed.

(** ** Collecting replies *)

Definition trusted (c : Ctx) (offer : Offer) (source : string) : Prop :=
  exists x, x ∈ candidates offer source /\ (x ∈ selfIps c \/ x ∈ authorized c).

Lemma classifyOffer_rogue c offer source : fst (classifyOffer offer source c) = true <-> ~ trusted c offer source.
Proof.
  unfold classifyOffer, trusted.
  destruct (existsb _ (candidates offer source)) eqn:E1; [|destruct (existsb (fun x => bool_decide (x ∈ authorized c)) _) eqn:E2].
  - split; [done|]. intros Hn. destruct Hn. apply existsb_exists in E1 as (x & Hx & Hs). exists x.
    split; [by apply list_elem_of_In|]. left. by apply bool_decide_eq_true in Hs.
  - split; [done|]. intros Hn. destruct Hn. apply existsb_exists in E2 as (x & Hx & Hs). exists x.
    split; [by apply list_elem_of_In|]. right. by apply bool_decide_eq_true in Hs.
  - split; [|done]. intros _ (x & Hx & Hs). rewrite <- not_true_iff_false, existsb_exists in E1, E2.
    apply list_elem_of_In in Hx. destruct Hs; [destruct E1|destruct E2]; exists x; split; try done; by apply bool_decide_eq_true.
Qed.

(** A message that shows a rogue server. *)
Definition shows (c : Ctx) (xidMap : gmap Z string) (msg : bytes * string) (server : string) (ev : RogueEvent) : Prop :=
  exists offer name, parseOffer (fst msg) = Ok (Some offer) /\ xidMap !! xid offer = Some name /\
    ~ trusted c offer (snd msg) /\ server = serverOf offer (snd msg) /\ server <> "" /\
    ev = rogueEvent offer server (Some name).

(** One message: nothing changes, or the first sight of a rogue is added. *)
Lemma onMessage_rogues c x r msg :
  (rogues (onMessage c x r msg) = rogues r /\
     forall server ev, shows c x msg server ev -> server ∈ map fst (rogues r)) \/
  exists server ev, rogues (onMessage c x r msg) = rogues r ++ [(server, ev)] /\ shows c x msg server ev /\
    server ∉ map fst (rogues r) /\ forall s e, shows c x msg s e -> s = server.
Proof.
  destruct msg as [data source]. unfold onMessage, shows. cbn [fst snd].
  destruct (parseOffer data) as [[offer|]|] eqn:Hp; [|left; split; [done|]; intros ?? (? & ? & ? & _); done..].
  destruct (x !! xid offer) as [name|] eqn:Hx; [|left; split; [done|]; intros ?? (? & ? & ? & ? & _); simplify_eq].
  cbv zeta. pose proof (classifyOffer_rogue c offer source) as Hc.
  destruct (fst (classifyOffer offer source c)); cbn [negb].
  2:{ left. split; [done|]. intros ?? (? & ? & ? & ? & Hn & _). simplify_eq. apply Hc in Hn. done. }
  destruct (String.eqb_spec (serverOf offer source) "") as [He|He].
  { left. split; [done|]. intros ?? (? & ? & ? & ? & _ & ? & ? & _). simplify_eq. }
  destruct (existsb _ _) eqn:Hex.
  - left. split; [done|]. intros ?? (offer' & ? & Hp' & ? & _ & -> & _). injection Hp' as <-.
    apply existsb_exists in Hex as ([s ev0] & Hin & Hs%String.eqb_eq). simpl in Hs. subst s.
    rewrite list_elem_of_In. apply in_map_iff. by exists (serverOf offer source, ev0).
  - right. exists (serverOf offer source), (rogueEvent offer (serverOf offer source) (Some name)). split; [done|].
    split; [|split].
    + exists offer, name. split_and!; try done. by apply Hc.
    + intros Hin. apply list_elem_of_In, in_map_iff in Hin as ([s ev0] & Hs & Hin). simpl in Hs. subst s.
      rewrite <- not_true_iff_false in Hex. destruct Hex. apply existsb_exists. eexists. split; [exact Hin|].
      apply String.eqb_refl.
    + intros ?? (offer' & ? & Hp' & ? & _ & -> & _). by injection Hp' as <-.
Qed.

Lemma collect_rogues c x msgs r :
  NoDup (map fst (rogues r)) ->
  let r' := fold_left (onMessage c x) msgs r in
  NoDup (map fst (rogues r')) /\
  (forall server ev, (server, ev) ∈ rogues r' -> (server, ev) ∈ rogues r \/ exists m, m ∈ msgs /\ shows c x m server ev) /\
  (forall server, server ∈ map fst (rogues r) -> server ∈ map fst (rogues r')) /\
  (forall m server ev, m ∈ msgs -> shows c x m server ev -> server ∈ map fst (rogues r')).
Proof.
  revert r. induction msgs as [|m msgs IH]; intros r Hnd r'; subst r'; cbn [fold_left].
  { split_and!; [done|auto|auto|by intros ??? ?%not_elem_of_nil]. }
  set (r1 := onMessage c x r m).
  assert (NoDup (map fst (rogues r1)) /\ (forall p, p ∈ rogues r1 -> p ∈ rogues r \/ shows c x m (fst p) (snd p)) /\
    (forall s, s ∈ map fst (rogues r) -> s ∈ map fst (rogues r1)) /\
    (forall s e, shows c x m s e -> s ∈ map fst (rogues r1))) as (Hnd1 & Hfrom & Hkeep & Hshow).
  { unfold r1. destruct (onMessage_rogues c x r m) as [[-> Hs]|(s & e & -> & Hsh & Hni & Hu)]; [naive_solver|].
    rewrite map_app. cbn [map fst]. split_and!.
    - apply NoDup_app. split_and!; [done| |repeat constructor; by apply not_elem_of_nil].
      intros y Hy ->%list_elem_of_singleton. done.
    - intros p [Hp|Hp%list_elem_of_singleton]%elem_of_app; [by left|right; by subst].
    - intros y Hy. apply elem_of_app. by left.
    - intros y e' Hy. rewrite (Hu _ _ Hy). apply elem_of_app. right. by apply list_elem_of_singleton. }
  destruct (IH r1 Hnd1) as (H1 & H2 & H3 & H4). split_and!; [done|..].
  - intros server ev [Hin|(m' & Hm' & Hs)]%H2.
    + apply Hfrom in Hin as [|Hs]; [by left|right]. exists m. split; [apply elem_of_cons; by left|done].
    + right. exists m'. split; [apply elem_of_cons; by right|done].
  - auto.
  - intros m' server ev [->|Hm']%elem_of_cons Hs; [eauto|by eapply H4].
Qed.

(** ** Properties *)

(** What [buildDiscover] sends: 300 bytes that carry the transaction id
    and the DISCOVER options, and that [parseOffer] never takes for an offer;
    and two queries share an id only if their runs' numbers agree modulo
    65536 and so do their interfaces'. *)
Theorem discover_identifies_probe xid mac seq i seq' i' :
  let d := buildDiscover xid mac in
  length d = 300%nat /\ Forall byte d /\ readUInt32BE d 4 = Ok (xid mod 2 ^ 32) /\
  readUInt32BE d 236 = Ok MAGIC_COOKIE /\
  (exists pre, blength pre = 240 /\ d = pre ++ concat (map tlv [(53, [1]); (55, DISCOVER_PARAMS)]) ++ 255 :: alloc 48) /\
  parseOffer d = Ok None /\
  (discoverXid seq i = discoverXid seq' i' <-> seq mod 65536 = seq' mod 65536 /\ i mod 65536 = i' mod 65536).
Proof.
  cbv zeta. rewrite buildDiscover_eq. cbv zeta.
  pose proof (fun k => Z.mod_pos_bound (nth k (parseMacBytes mac) 0) 256 ltac:(lia)) as Hm.
  pose proof (length_be_bytes 4 (xid mod 2 ^ 32)) as Hxl. pose proof (be_bytes_range 4 (xid mod 2 ^ 32)) as Hxb.
  pose proof (be_value_bytes 4 (xid mod 2 ^ 32)) as Hxv. change (256 ^ Z.of_nat 4) with (2 ^ 32) in Hxv.
  specialize (Hxv ltac:(apply Z.mod_pos_bound; lia)). unfold uint32be at 1 3 5 7 9 11.
  set (xb := be_bytes 4 (xid mod 2 ^ 32)) in *. clearbody xb. explode xb.
  split_and!; try reflexivity.
  - repeat (apply Forall_app; split); try done; try (repeat constructor; unfold byte; try apply Hm; lia).
    all: repeat constructor; vm_compute; done.
  - exact (f_equal Ok Hxv).
  - match goal with |- exists pre, _ /\ ?l = _ => exists (take 240 l) end. split; reflexivity.
  - unfold discoverXid. change 65535 with (2 ^ 16 - 1). rewrite !land_ones_mod by lia. change (2 ^ 16) with 65536.
    pose proof (Z.mod_pos_bound seq 65536 ltac:(lia)). pose proof (Z.mod_pos_bound i 65536 ltac:(lia)).
    pose proof (Z.mod_pos_bound seq' 65536 ltac:(lia)). pose proof (Z.mod_pos_bound i' 65536 ltac:(lia)).
    rewrite !lor_shiftl_add by (lia || (change (2 ^ 16) with 65536; lia)). change (2 ^ 16) with 65536. lia.
Qed.

(** [parseOffer] reads what a server sends: from a reply made of any
    header and any options, padded at will, it recovers the transaction id,
    the addresses, the echoed hardware address and, option by option, what
    the specification takes from them; a reply that is not an offer is [null]. *)
Theorem offer_reads_back h opts pad :
  header_ok h -> Forall sendable opts ->
  let o := fold_left spec_option opts no_options in
  parseOffer (encode_reply h opts pad) =
    Ok (if bool_decide (msgType o = Some 2) then
          Some (mkOffer (h_xid h) (ip_text (h_yiaddr h)) (ip_text (h_siaddr h))
                  (if String.eqb (ip_text (h_giaddr h)) "0.0.0.0" then None else Some (ip_text (h_giaddr h)))
                  (join ":" (map (fun b => pad_start 2 "0" (hex b)) (h_chaddr h))) o)
        else None).
Proof.
  intros Hh Hs o. destruct (reply_fields h opts pad Hh) as (Hlen & H1 & H2 & H3 & H4 & H5 & H6 & H7 & pre & Hpre & Hbuf).
  set (buf := encode_reply h opts pad) in *. unfold parseOffer.
  destruct (Z.ltb_spec (blength buf) 240); [lia|]. rewrite H1. cbn [mbind result_bind]. rewrite Z.eqb_refl. cbn [negb].
  rewrite H2. cbn [mbind result_bind]. rewrite Z.eqb_refl. cbn [negb]. rewrite H3. cbn [mbind result_bind].
  assert (offer_loop (length buf) buf 240 no_options = Ok o) as ->.
  { rewrite Hbuf at 2. rewrite <- Hpre. apply offer_loop_spec; [done|]. rewrite Hbuf, !length_app.
    pose proof (reply_options_length opts). simpl. lia. }
  cbn [mbind result_bind]. rewrite H4, H5, H6, H7. unfold mret, result_ret. f_equal.
  destruct (msgType o) as [t|]; [|done]. case_bool_decide as Ht.
  - by injection Ht as ->.
  - destruct t as [|[p|p|]|p]; try done. destruct p; done.
Qed.

Definition sample_header : Header :=
  mkHeader [1; 6; 0] 66051 [0; 0; 128; 0; 0; 0; 0; 0] [192; 168; 1; 50] [0; 0; 0; 0] [0; 0; 0; 0]
    [222; 173; 190; 239; 0; 1] (alloc 202).

Lemma offer_reads_back_witness :
  parseOffer (encode_reply sample_header [(53, [2]); (54, [192; 168; 1; 254]); (6, [1; 1; 1; 1; 8; 8; 8; 8])] [0; 0]) =
    Ok (Some (mkOffer 66051 "192.168.1.50" "0.0.0.0" None "de:ad:be:ef:00:01"
      (mkOptions (Some 2) (Some "192.168.1.254") None None ["1.1.1.1"; "8.8.8.8"]))).
Proof.
  rewrite offer_reads_back.
  - vm_compute. reflexivity.
  - repeat split; vm_compute; congruence.
  - repeat constructor; vm_compute; try congruence; intros H; inversion H.
Defined.

(** No datagram makes the reader run off its buffer: [parseOffer]
    returns an offer or [null] for every input of bytes but one shape, a
    message type option without data that ends the datagram, whose read
    throws. *)
Theorem parse_offer_total buf :
  Forall byte buf -> (forall pre, buf <> pre ++ [53; 0]) -> exists o, parseOffer buf = Ok o.
Proof.
  intros Hb Hlast. unfold parseOffer. destruct (Z.ltb_spec (blength buf) 240); [eauto|].
  destruct (readUIntBE_ok buf 236 4 ltac:(lia) ltac:(lia)) as [m Hm]. unfold readUInt32BE. rewrite Hm. cbn [mbind result_bind].
  destruct (negb _); [eauto|].
  destruct (readUInt8_ok buf 0 ltac:(lia) ltac:(lia)) as [op ->]. cbn [mbind result_bind].
  destruct (negb _); [eauto|].
  destruct (readUIntBE_ok buf 4 4 ltac:(lia) ltac:(lia)) as [x Hx]. rewrite Hx. cbn [mbind result_bind].
  destruct (offer_loop (length buf) buf 240 no_options) as [o|e] eqn:Ho; cbn [mbind result_bind]; [eauto|].
  apply offer_loop_err in Ho as [pre Hpre]; [|done|lia]. by destruct (Hlast pre).
Qed.

Lemma parse_offer_total_witness : exists o, parseOffer (encode_reply sample_header [] []) = Ok o.
Proof.
  apply (parse_offer_total (encode_reply sample_header [] [])).
  - assert (forallb (fun b => (0 <=? b) && (b <? 256)) (encode_reply sample_header [] []) = true) as H by (vm_compute; reflexivity).
    apply Forall_forall. intros b Hb%list_elem_of_In. rewrite forallb_forall in H. specialize (H b Hb).
    unfold byte. apply andb_true_iff in H as [H1%Z.leb_le H2%Z.ltb_lt]. lia.
  - intros pre Hpre. apply (f_equal (fun l => List.last l 1)) in Hpre.
    change (pre ++ [53; 0]) with (pre ++ [53] ++ [0]) in Hpre. rewrite app_assoc, last_snoc_default in Hpre.
    vm_compute in Hpre. discriminate Hpre.
Defined.

(** The probe reports exactly the untrusted servers: over any sequence
    of datagrams, each server appears at most once, every reported one is
    shown by an offer for one of the probe's own ids of which no identifying
    address is the appliance's own or allowlisted, and every server so shown
    is reported. *)
Theorem rogues_exact c ids msgs :
  let found := rogues (fold_left (onMessage c ids) msgs (mkReplies 0 [])) in
  NoDup (map fst found) /\
  (forall server ev, (server, ev) ∈ found -> exists m, m ∈ msgs /\ shows c ids m server ev) /\
  (forall m server ev, m ∈ msgs -> shows c ids m server ev -> server ∈ map fst found) /\
  rogue_events c (fold_left (onMessage c ids) msgs no_replies) = map snd found.
Proof.
  intros found. destruct (collect_rogues c ids msgs (mkReplies 0 [])) as (H1 & H2 & _ & H4); [constructor|].
  split_and!; [done| |done|done]. intros server ev [Hin|?]%H2; [by apply not_elem_of_nil in Hin|done].
Qed.
