(* ===== verification/Duid.v ===== *)
(** * DHCP unique identifiers: [server/src/utils/duid.js] *)

From S2P Require Import Prelude JsString Bytes.

(** One byte of a DUID, [[0-9a-f]{2}]. *)
Definition duid_byte (s : string) : bool := (String.length s =? 2)%nat && all_chars is_hex_lower s.

(** [/^([0-9a-f]{2}:){1,129}[0-9a-f]{2}$/] *)
Definition DUID_RE (s : string) : bool :=
  let parts := split_char ":" s in
  (2 <=? length parts)%nat && (length parts <=? 130)%nat && forallb duid_byte parts.

Definition normalizeDuid (value : string) : option string :=
  let duid := to_lower (trim value) in
  if DUID_RE duid then Some duid else None.

Definition macFromDuid (value : string) : option string :=
  duid ← normalizeDuid value;
  let bytes := split_char ":" duid in
  let at_ i := nth i bytes "" in
  let type := from_base 16 (at_ 0%nat +:+ at_ 1%nat) in
  let hardware := from_base 16 (at_ 2%nat +:+ at_ 3%nat) in
  let offset := if type =? 1 then Some 8%nat else if type =? 3 then Some 4%nat else None in
  match offset with
  | None => None
  | Some o => if negb (hardware =? 1) || negb (length bytes =? o + 6)%nat then None
              else Some (join ":" (drop o bytes))
  end.

Definition byte_hex (b : Z) : string := pad_start 2 "0" (hex b).

Definition duidFromBytes (b : bytes) : option string :=
  match b with [] => None | _ => Some (join ":" (map byte_hex b)) end.

Example mac_of_llt : macFromDuid " 00:01:00:01:2A:bb:cc:dd:de:ad:be:ef:00:01" = Some "de:ad:be:ef:00:01".
Proof. vm_compute. reflexivity. Qed.

(** ** Lemmas *)

(** What holds of every byte, by looking at each. *)
Lemma byte_cases (P : Z -> bool) : forallb (fun n => P (Z.of_nat n)) (seq 0 256) = true -> forall b, byte b -> P b = true.
Proof.
  intros H b Hb. rewrite forallb_forall in H. unfold byte in Hb. rewrite <- (Z2Nat.id b) by lia. apply H, in_seq. lia.
Qed.

Lemma byte_hex_ok b : byte b -> duid_byte (byte_hex b) = true.
Proof. revert b. apply byte_cases. vm_compute. reflexivity. Qed.

Lemma byte_hex_value b : byte b -> from_base 16 (byte_hex b) = b.
Proof.
  intros Hb. apply Z.eqb_eq. revert b Hb. apply (byte_cases (fun b => from_base 16 (byte_hex b) =? b)). vm_compute. reflexivity.
Qed.

Lemma byte_hex_pair a b : byte a -> byte b -> from_base 16 (byte_hex a +:+ byte_hex b) = a * 256 + b.
Proof.
  intros Ha Hb. rewrite from_base_app, !byte_hex_value by done.
  pose proof (byte_hex_ok b Hb) as [Hl _]%andb_true_iff. apply Nat.eqb_eq in Hl. unfold js_length. by rewrite Hl.
Qed.

Definition duid_char (c : ascii) : bool := is_hex_lower c || Ascii.eqb c ":".

Lemma duid_char_plain c : duid_char c = true -> is_space c = false /\ is_upper c = false.
Proof. destruct c as [[] [] [] [] [] [] [] []]; vm_compute; done. Qed.

Lemma duid_byte_no_colon w : duid_byte w = true -> has_char ":" w = false.
Proof.
  intros [_ H]%andb_true_iff. eapply has_char_class; [|exact H]. reflexivity.
Qed.

Lemma duid_text_clean l : Forall (fun w => duid_byte w = true) l -> all_chars duid_char (join ":" l) = true.
Proof.
  intros Hl. apply all_chars_join; [done|]. eapply Forall_impl; [exact Hl|]. intros w [_ Hw]%andb_true_iff.
  eapply all_chars_impl; [|exact Hw]. intros c Hc. unfold duid_char. by rewrite Hc.
Qed.

(** A canonical DUID is its own normal form. *)
Lemma normalizeDuid_join l :
  (2 <= length l <= 130)%nat -> Forall (fun w => duid_byte w = true) l -> normalizeDuid (join ":" l) = Some (join ":" l).
Proof.
  intros Hlen Hl. pose proof (duid_text_clean l Hl) as Hc. unfold normalizeDuid.
  rewrite trim_no_space, to_lower_id.
  - unfold DUID_RE. rewrite split_char_join.
    + destruct (Nat.leb_spec 2 (length l)), (Nat.leb_spec (length l) 130); try lia. cbn [andb].
      by rewrite (proj2 (forallb_Forall _ _) Hl).
    + intros ->. simpl in Hlen. lia.
    + eapply Forall_impl; [exact Hl|]. apply duid_byte_no_colon.
  - eapply all_chars_impl; [|exact Hc]. intros c Hd. by destruct (duid_char_plain c Hd) as [_ ->].
  - eapply all_chars_impl; [|exact Hc]. intros c Hd. by destruct (duid_char_plain c Hd) as [-> _].
Qed.

Lemma bytes_hex_ok b : Forall byte b -> Forall (fun w => duid_byte w = true) (map byte_hex b).
Proof. intros Hb. apply Forall_map. eapply Forall_impl; [exact Hb|]. apply byte_hex_ok. Qed.

(** The Ethernet address in a DUID-LL or DUID-LLT made of bytes. *)
Lemma macFromDuid_bytes t h mid mac :
  Forall byte (t ++ h ++ mid ++ mac) -> length t = 2%nat -> length h = 2%nat -> length mac = 6%nat ->
  be_value h = 1 -> (be_value t = 3 /\ mid = [] \/ be_value t = 1 /\ length mid = 4%nat) ->
  macFromDuid (join ":" (map byte_hex (t ++ h ++ mid ++ mac))) = Some (join ":" (map byte_hex mac)).
Proof.
  intros Hb Ht Hh Hm Hhv Htv.
  assert (length (t ++ h ++ mid ++ mac) = 10 + length mid)%nat as Hlen by (rewrite !length_app; lia).
  assert (length mid = 0 \/ length mid = 4)%nat as Hmid by (destruct Htv as [[_ ->]|[_ ?]]; auto).
  unfold macFromDuid. rewrite normalizeDuid_join by (try apply bytes_hex_ok; rewrite ?length_map; try done; lia).
  cbn [mbind option_bind]. rewrite split_char_join.
  2:{ intros He. apply (f_equal length) in He. rewrite length_map in He. simpl in He. lia. }
  2:{ eapply Forall_impl; [by apply bytes_hex_ok|]. apply duid_byte_no_colon. }
  destruct t as [|t0 [|t1 [|]]]; try done. destruct h as [|h0 [|h1 [|]]]; try done.
  rewrite !Forall_app in Hb. destruct Hb as (Hbt & Hbh & _ & _).
  apply Forall_cons in Hbt as [? Hbt]. apply Forall_cons in Hbt as [? _].
  apply Forall_cons in Hbh as [? Hbh]. apply Forall_cons in Hbh as [? _].
  cbn [app map nth]. rewrite !byte_hex_pair by done. unfold be_value in Hhv, Htv. cbn [fold_left] in Hhv, Htv.
  replace (h0 * 256 + h1) with 1 by lia. rewrite Z.eqb_refl. cbn [negb orb].
  destruct Htv as [[Htv ->]|[Htv Hl]].
  - replace (t0 * 256 + t1) with 3 by lia. change (3 =? 1) with false. change (3 =? 3) with true. cbn [app].
    cbn [length]. rewrite length_map, Hm. done.
  - replace (t0 * 256 + t1) with 1 by lia. change (1 =? 1) with true. cbn [length].
    rewrite length_map, length_app, Hl, Hm. cbn [negb Nat.eqb Nat.add drop].
    destruct mid as [|m0 [|m1 [|m2 [|m3 [|]]]]]; done.
Qed.
