(* ===== verification/Leases.v ===== *)
(** * The leases a DHCP backend reports, and how they move to another:
      [backends/dnsmasq/dhcp.js], [backends/dnsmasq/lease-file.js] and
      [backends/kea/leases.js] (in [server/src])

    dnsmasq keeps its leases in a text file, Kea behind an API. Both are read
    into one shape, [BackendLease], and written back from it when one server
    takes over from the other. A moment is a number of milliseconds, as
    [Date] has it. *)

From S2P Require Import Prelude JsString Address Cidr Duid.

(** [expiresAt]: an ISO time, kept as its milliseconds, or ['infinite']. *)
Inductive expiry := Infinite | Until (ms : Z).

(** The BackendLease of [backends/contract.js]. *)
Record BackendLease := mkLease {
  ip : string;
  mac : option string;
  hostname : option string;
  clientId : option string;
  expiresAt : expiry;
  dhcpVersion : Z;
  duid : option string;
  iaid : option Z;
  temporary : bool }.

#[export] Instance expiry_eq_dec : EqDecision expiry.
Proof. solve_decision. Defined.
#[export] Instance lease_eq_dec : EqDecision BackendLease.
Proof. solve_decision. Defined.

(** [new Date(s * 1000).toISOString()], which throws beyond the range of a Date. *)
Definition iso_of_seconds (s : Z) : result string expiry :=
  if Z.abs (s * 1000) <=? 8640000000000000 then Ok (Until (s * 1000)) else Err "Invalid time value".

(** ** The text of a dnsmasq lease file *)

(** [s.split(/\s+/)] *)
Fixpoint split_ws (s : string) : list string :=
  match s with
  | EmptyString => [""]
  | String c r =>
      if is_space c
      then match r with
           | String d _ => if is_space d then split_ws r else "" :: split_ws r
           | EmptyString => ["" ; ""]
           end
      else match split_ws r with
           | w :: ws => String c w :: ws
           | [] => []
           end
  end.

(** [${value}] of a number, and of a value that may be [null]. *)
Definition num_text (n : Z) : string := if n <? 0 then "-" +:+ dec (- n) else dec n.
Definition text_or_null (o : option string) : string := default "null" o.

(** [value || other] on strings: an empty one counts as missing. *)
Definition js_or (o : option string) (other : option string) : option string :=
  match o with
  | Some s => if String.eqb s "" then other else Some s
  | None => other
  end.

Definition star (w : string) : option string := if String.eqb w "*" then None else Some w.

Definition parseLeaseLine (line : string) : result string (option BackendLease) :=
  let parts := split_ws (trim line) in
  match parts with
  | expiryStr :: identity :: ip :: hostname :: rest =>
      if String.eqb expiryStr "duid" then Ok None
      else if negb (all_digits1 expiryStr) || negb (isValidAddress ip) then Ok None
      else
        let expiry := from_base 10 expiryStr in
        let hostname := star hostname in
        let clientId := clientId ← head rest; js_or (star clientId) None in
        expiresAt ← (if expiry =? 0 then Ok Infinite else iso_of_seconds expiry);
        if isValidIpv6 ip then
          let temporary := starts_with "T" identity in
          let digits := if temporary then drop_string 1 identity else identity in
          if negb (all_digits1 digits) then Ok None
          else Ok (Some (mkLease ip None hostname clientId expiresAt 6
                             (to_lower <$> clientId) (Some (from_base 10 digits)) temporary))
        else Ok (Some (mkLease ip (Some (to_lower identity)) hostname clientId expiresAt 4 None None false))
  | _ => Ok None
  end.

Definition formatLeaseLine (lease : BackendLease) : string :=
  let expiry := match expiresAt lease with Infinite => 0 | Until ms => ms / 1000 end in
  let name := default "*" (js_or (hostname lease) None) in
  if dhcpVersion lease =? 6 then
    let iaid := (if temporary lease then "T" else "") +:+
                match iaid lease with Some n => num_text n | None => "null" end in
    join " " [num_text expiry; iaid; ip lease; name;
              default "*" (js_or (duid lease) (js_or (clientId lease) None))]
  else join " " [num_text expiry; text_or_null (mac lease); ip lease; name;
                 default "*" (js_or (clientId lease) None)].

Definition is_v6 (lease : BackendLease) : bool := dhcpVersion lease =? 6.
Definition newline : string := String (ascii_of_nat 10) "".

Definition formatLeaseFile (leases : list BackendLease) (serverDuid : option string) : string :=
  let v4 := map formatLeaseLine (List.filter (fun l => negb (is_v6 l)) leases) in
  let v6 := map formatLeaseLine (List.filter is_v6 leases) in
  let lines := v4 ++ match js_or serverDuid None with Some d => ["duid " +:+ d] | None => [] end ++ v6 in
  match lines with [] => "" | _ => join newline lines +:+ newline end.

Definition isWholeLeaseFile (text : string) : bool :=
  String.eqb text "" || ends_with_char (ascii_of_nat 10) text.

(** The leases of a text, or [None] for one cut off partway through a line. *)
Definition parseLeaseFile (content : string) : result string (option (list BackendLease)) :=
  if negb (isWholeLeaseFile content) then Ok None
  else
    match map_result parseLeaseLine (split_char (ascii_of_nat 10) content) with
    | Ok leases => Ok (Some (omap (fun l => l) leases))
    | Err e => Err e
    end.

(** [/^duid\s+(\S+)/i] on one line: the word after [duid]. *)
Fixpoint take_word (s : string) : string :=
  match s with
  | EmptyString => ""
  | String c r => if is_space c then "" else String c (take_word r)
  end.

Definition duid_match (line : string) : option string :=
  let rest := drop_string 4 line in
  let word := take_word (drop_while is_space rest) in
  if String.eqb (to_lower (take_string 4 line)) "duid"
     && match rest with String c _ => is_space c | EmptyString => false end
     && negb (String.eqb word "")
  then Some word else None.

(** [readServerDuid] on the text of the file. *)
Definition readServerDuid (text : string) : option string :=
  match omap duid_match (split_char (ascii_of_nat 10) text) with
  | d :: _ => normalizeDuid d
  | [] => None
  end.

(** [readSettledLeaseFile]: [reads] are the texts the file has at each of the
    timed reads, [None] when it cannot be read. The loop ends with the reads,
    four after the first. *)
Fixpoint settle (previous : option string) (reads : list (option string)) : option string :=
  match reads with
  | [] => None
  | current :: reads' =>
      match current with
      | Some text =>
          if bool_decide (previous = Some text) && isWholeLeaseFile text then Some text
          else settle current reads'
      | None => settle current reads'
      end
  end.

Definition readSettledLeaseFile (reads : list (option string)) : option string :=
  match reads with
  | [] => None
  | previous :: reads' => settle previous (take 4 reads')
  end.

(** ** Lemmas: words *)

(** A word of a line. *)
Definition word (w : string) : Prop := w <> "" /\ all_chars (fun c => negb (is_space c)) w = true.

Lemma split_ws_word w : all_chars (fun c => negb (is_space c)) w = true -> split_ws w = [w].
Proof.
  induction w as [|c w IH]; simpl; [done|]. intros [Hc Hw]%andb_prop.
  apply negb_true_iff in Hc. rewrite Hc, IH by done. reflexivity.
Qed.

Lemma split_ws_app w v s :
  all_chars (fun c => negb (is_space c)) w = true -> word v ->
  split_ws (w +:+ " " +:+ v +:+ s) = w :: split_ws (v +:+ s).
Proof.
  intros Hw [Hv Hvs]. induction w as [|c w IH].
  - destruct v as [|d v]; [done|]. simpl in Hvs. apply andb_prop in Hvs as [Hd _]. apply negb_true_iff in Hd.
    cbn [String.append split_ws]. change (is_space " ") with true. cbv iota. rewrite Hd. reflexivity.
  - simpl in Hw. apply andb_prop in Hw as [Hc Hw]. apply negb_true_iff in Hc.
    change ((String c w) +:+ " " +:+ v +:+ s) with (String c (w +:+ " " +:+ v +:+ s)).
    cbn [split_ws]. rewrite Hc, IH by done. reflexivity.
Qed.

Lemma join_snoc_words sep w v l : join sep (w :: v :: l) = w +:+ sep +:+ join sep (v :: l).
Proof. reflexivity. Qed.

Lemma join_head_app sep v l : exists s, join sep (v :: l) = v +:+ s.
Proof. destruct l; [exists ""; by rewrite app_nil_r_str|]. by eexists. Qed.

Lemma split_ws_join l : l <> [] -> Forall word l -> split_ws (join " " l) = l.
Proof.
  intros Hne Hl. induction Hl as [|w l [Hw Hs] Hl IH]; [done|].
  destruct l as [|v l]; [by apply split_ws_word|].
  rewrite join_snoc_words. destruct (join_head_app " " v l) as [s Es]. rewrite Es.
  rewrite split_ws_app; [|done|by inversion Hl]. rewrite <- Es. f_equal. by apply IH.
Qed.

Lemma drop_while_end_word s w : word w -> drop_while_end is_space (s +:+ w) = s +:+ w.
Proof.
  intros [Hw Hs]. induction s as [|c s IH].
  - by apply drop_while_end_none.
  - change (String c s +:+ w) with (String c (s +:+ w)). cbn [drop_while_end]. rewrite IH.
    destruct (s +:+ w) eqn:E; [|done]. destruct s; [|discriminate]. by simpl in E; subst.
Qed.

Lemma join_last l w : exists s, join " " (l ++ [w]) = s +:+ w.
Proof.
  induction l as [|v l [s E]]; [by exists ""|].
  destruct l as [|u l].
  - exists (v +:+ " "). by rewrite <- app_assoc_str.
  - exists (v +:+ " " +:+ s). cbn [app]. rewrite join_snoc_words. cbn [app] in E. rewrite E.
    by rewrite !app_assoc_str.
Qed.

Lemma trim_words l : Forall word l -> trim (join " " l) = join " " l.
Proof.
  intros Hl. destruct (decide (l = [])) as [->|Hne]; [done|].
  destruct (exists_last Hne) as (l' & w & ->). clear Hne. rename l' into l.
  apply Forall_app in Hl as [Hl Hw]. rewrite Forall_singleton in Hw.
  unfold trim. assert (drop_while is_space (join " " (l ++ [w])) = join " " (l ++ [w])) as ->.
  - destruct l as [|v l]; simpl app.
    + destruct Hw as [Hne Hs]. destruct w as [|c w]; [done|]. simpl in *.
      apply andb_prop in Hs as [Hc _]. apply negb_true_iff in Hc. by rewrite Hc.
    + destruct (join_head_app " " v (l ++ [w])) as [s ->]. inversion Hl as [|? ? [Hne Hs] _]; subst.
      destruct v as [|c v]; [done|]. simpl in *. apply andb_prop in Hs as [Hc _]. apply negb_true_iff in Hc. by rewrite Hc.
  - destruct (join_last l w) as [s ->]. by apply drop_while_end_word.
Qed.

Lemma ends_with_char_snoc c s : ends_with_char c (s +:+ String c "") = true.
Proof.
  unfold ends_with_char. rewrite (last_index_of_char_app c s ""); [|reflexivity].
  apply Nat.eqb_eq. rewrite length_app_str. simpl. lia.
Qed.

(** ** A lease that a server can hold

    What both servers report: names without spaces, hexadecimal text in lower
    case, whole seconds. *)
Definition name_ok (o : option string) : Prop := match o with Some w => word w /\ w <> "*" | None => True end.

Definition expiry_ok (e : expiry) : Prop :=
  match e with Infinite => True | Until ms => exists s, ms = s * 1000 /\ 0 < s <= 8640000000000 end.

Definition identity_ok (l : BackendLease) : Prop :=
  if isValidIpv6 (ip l) then
    dhcpVersion l = 6 /\ mac l = None /\ (exists n, iaid l = Some n /\ 0 <= n)
    /\ duid l = clientId l /\ (forall d, clientId l = Some d -> to_lower d = d)
  else
    dhcpVersion l = 4 /\ (exists m, mac l = Some m /\ word m /\ to_lower m = m)
    /\ duid l = None /\ iaid l = None /\ temporary l = false.

Record lease_ok (l : BackendLease) : Prop := {
  ok_ip : word (ip l) /\ isValidAddress (ip l) = true;
  ok_expiry : expiry_ok (expiresAt l);
  ok_hostname : name_ok (hostname l);
  ok_client : name_ok (clientId l);
  ok_identity : identity_ok l }.

Lemma js_or_name o : name_ok o -> js_or o None = o.
Proof. destruct o as [w|]; [|done]. intros [[Hw _] _]. simpl. by apply String.eqb_neq in Hw as ->. Qed.

Lemma star_name o : name_ok o -> star (default "*" o) = o.
Proof. destruct o as [w|]; [|done]. intros [_ Hw]. unfold star. simpl. by apply String.eqb_neq in Hw as ->. Qed.

Lemma word_name o : name_ok o -> word (default "*" o).
Proof. destruct o as [w|]; [by intros []|]. intros _. split; [done|reflexivity]. Qed.

Lemma digit_word s : s <> "" -> all_chars is_digit s = true -> word s.
Proof.
  intros Hne Hs. split; [done|]. eapply all_chars_impl; [|exact Hs].
  intros c Hc. unfold is_digit, is_space, in_range in *. split_leb; simpl in *; first [done | lia].
Qed.

Lemma num_text_dec n : 0 <= n -> num_text n = dec n.
Proof. intros. unfold num_text. by rewrite (proj2 (Z.ltb_ge n 0)) by lia. Qed.

Lemma dec_word n : 0 <= n -> word (dec n).
Proof. intros. apply digit_word; auto with cidrella. Qed.

(** The whole seconds of an expiry, as the file has them. *)
Definition seconds (e : expiry) : Z := match e with Infinite => 0 | Until ms => ms / 1000 end.

Lemma seconds_back e :
  expiry_ok e -> 0 <= seconds e /\ (if seconds e =? 0 then Ok Infinite else iso_of_seconds (seconds e)) = Ok e.
Proof.
  destruct e as [|ms]; simpl; [done|]. intros (s & -> & Hs). rewrite Z.div_mul by lia. split; [lia|].
  destruct (Z.eqb_spec s 0); [lia|]. unfold iso_of_seconds. by rewrite (proj2 (Z.leb_le _ _)) by lia.
Qed.

(** ** One line *)

Lemma iaid_text_back (t : bool) n :
  0 <= n ->
  let w := (if t then "T" else "") +:+ num_text n in
  word w /\ starts_with "T" w = t /\ (if starts_with "T" w then drop_string 1 w else w) = dec n.
Proof.
  intros Hn. cbv zeta. rewrite num_text_dec by done. destruct (dec_word n Hn) as [Hne Hs].
  assert (starts_with "T" (dec n) = false) as HT by (apply digits_first; [reflexivity|auto with cidrella]).
  destruct t; cbv iota; [simpl|change ("" +:+ dec n) with (dec n)].
  - split; [split; [done|exact Hs]|done].
  - by rewrite HT.
Qed.

Lemma line_words (ws : list string) : ws <> [] -> Forall word ws -> split_ws (trim (join " " ws)) = ws.
Proof. intros. rewrite trim_words by done. by apply split_ws_join. Qed.

Lemma digits_not_duid n : 0 <= n -> String.eqb (dec n) "duid" = false.
Proof.
  intros Hn. apply String.eqb_neq. intros E. pose proof (dec_digits n Hn) as H. rewrite E in H. discriminate.
Qed.

Lemma parse_words e w ipw name c :
  expiry_ok e -> word w -> word ipw -> isValidAddress ipw = true -> name_ok name -> name_ok c ->
  parseLeaseLine (join " " [num_text (seconds e); w; ipw; default "*" name; default "*" c]) =
  if isValidIpv6 ipw then
    let temporary := starts_with "T" w in
    let digits := if temporary then drop_string 1 w else w in
    if negb (all_digits1 digits) then Ok None
    else Ok (Some (mkLease ipw None name c e 6 (to_lower <$> c) (Some (from_base 10 digits)) temporary))
  else Ok (Some (mkLease ipw (Some (to_lower w)) name c e 4 None None false)).
Proof.
  intros He Hw Hi Hv Hn Hc. destruct (seconds_back e He) as [Hs Hback].
  unfold parseLeaseLine. rewrite num_text_dec by done. rewrite line_words; [|done|].
  2:{ repeat constructor; try apply dec_word; try apply word_name; done || by apply Hw || by apply Hi. }
  rewrite digits_not_duid, all_digits1_dec, Hv by done. cbn [negb orb].
  rewrite from_dec, Hback by done. cbn [mbind result_bind head option_bind].
  rewrite !star_name by done. by rewrite js_or_name by done.
Qed.

(** A lease written to the file reads back as itself. *)
Lemma lease_line_back l : lease_ok l -> parseLeaseLine (formatLeaseLine l) = Ok (Some l).
Proof.
  intros [[Hip Hv] He Hh Hc Hid]. unfold formatLeaseLine. fold (seconds (expiresAt l)).
  rewrite !js_or_name by done. unfold identity_ok in Hid. destruct (isValidIpv6 (ip l)) eqn:H6.
  - destruct Hid as (Hver & Hmac & (n & Hn & Hn0) & Hd & Hlow). rewrite Hver, Hn, Hd. cbn [Z.eqb Pos.eqb].
    destruct (iaid_text_back (temporary l) n Hn0) as (Hw & Ht & Hdig).
    assert (js_or (clientId l) (clientId l) = clientId l) as -> by (destruct (clientId l) as [d|]; [simpl; by destruct (String.eqb d "")|done]).
    rewrite parse_words by done. rewrite H6. cbv zeta. rewrite Hdig, Ht, all_digits1_dec, from_dec by done. cbn [negb].
    destruct l; simpl in *; subst. do 2 f_equal. destruct clientId0 as [d|]; simpl; [|done]. by rewrite (Hlow d).
  - destruct Hid as (Hver & (m & Hm & Hw & Hlow) & Hd & Hi & Ht). rewrite Hver, Hm. cbn [Z.eqb Pos.eqb text_or_null default].
    change (default "null" (Some m)) with m. rewrite parse_words by done. rewrite H6.
    destruct l; simpl in *; subst. by rewrite Hlow.
Qed.

(** ** The whole file *)

Lemma ends_with_newline s : ends_with_char (ascii_of_nat 10) (s +:+ newline) = true.
Proof. apply ends_with_char_snoc. Qed.

Lemma word_no_newline w : word w -> has_char (ascii_of_nat 10) w = false.
Proof. intros [_ H]. by eapply has_char_class; [|exact H]. Qed.

Lemma words_no_newline ws : Forall word ws -> has_char (ascii_of_nat 10) (join " " ws) = false.
Proof.
  intros H. apply has_char_join_false; [reflexivity|].
  eapply Forall_impl; [exact H|]. apply word_no_newline.
Qed.

(** The words of a formatted line. *)
Lemma format_words l :
  lease_ok l -> exists n ws, 0 <= n /\ formatLeaseLine l = join " " (dec n :: ws) /\ ws <> [] /\ Forall word ws.
Proof.
  intros [[Hip Hv] He Hh Hc Hid]. unfold formatLeaseLine. fold (seconds (expiresAt l)).
  destruct (seconds_back _ He) as [Hs _]. rewrite !js_or_name, num_text_dec by done. unfold identity_ok in Hid.
  destruct (isValidIpv6 (ip l)).
  - destruct Hid as (-> & Hmac & (n & -> & Hn0) & -> & Hlow). cbn [Z.eqb Pos.eqb].
    destruct (iaid_text_back (temporary l) n Hn0) as (Hw & _ & _).
    do 2 eexists. split; [exact Hs|]. split; [reflexivity|]. split; [done|].
    repeat constructor; try apply Hw; try apply Hip; try apply (word_name _ Hh).
    1, 2: destruct (clientId l) as [d|]; simpl in *; [destruct Hc as [[Hd Hds] _]; apply String.eqb_neq in Hd as Hb; rewrite Hb; done|done].
  - destruct Hid as (-> & (m & -> & Hw & Hlow) & _). cbn [Z.eqb Pos.eqb text_or_null default].
    do 2 eexists. split; [exact Hs|]. split; [reflexivity|]. split; [done|].
    repeat constructor; first [apply Hw | apply Hip | apply (word_name _ Hh) | apply (word_name _ Hc)].
Qed.

Lemma lease_line_clean l : lease_ok l -> has_char (ascii_of_nat 10) (formatLeaseLine l) = false.
Proof.
  intros H. destruct (format_words l H) as (n & ws & Hn & -> & _ & Hw).
  apply words_no_newline. constructor; [by apply dec_word|done].
Qed.

Lemma lease_line_no_duid l : lease_ok l -> duid_match (formatLeaseLine l) = None.
Proof.
  intros H. destruct (format_words l H) as (n & ws & Hn & -> & Hne & _). unfold duid_match.
  destruct ws as [|w ws]; [done|]. rewrite join_snoc_words.
  pose proof (dec_digits n Hn) as Hd. pose proof (dec_nonempty n Hn) as He.
  destruct (dec n) as [|c s]; [done|]. simpl in Hd. apply andb_prop in Hd as [Hc _].
  destruct (String.eqb_spec (to_lower (take_string 4 (String c s +:+ " " +:+ join " " (w :: ws)))) "duid") as [E|]; [|done].
  exfalso. simpl in E. injection E as Ec _. unfold is_digit, lower_char, is_upper in *.
  assert (in_range 65 90 c = false) as Hu by (unfold in_range in *; split_leb; simpl in *; first [done | lia]).
  rewrite Hu in Ec. subst c. discriminate.
Qed.

(** The text as its lines, the last one empty. *)
Lemma lines_back ls :
  ls <> [] -> Forall (fun l => has_char (ascii_of_nat 10) l = false) ls ->
  split_char (ascii_of_nat 10) (join newline ls +:+ newline) = ls ++ [""].
Proof.
  intros Hne Hl.
  assert (join newline ls +:+ newline = join newline (ls ++ [""])) as ->.
  { induction ls as [|w ls IH]; [done|]. destruct ls as [|v ls]; [done|].
    inversion Hl; subst. change (join newline (w :: v :: ls)) with (w +:+ newline +:+ join newline (v :: ls)).
    change (join newline ((w :: v :: ls) ++ [""])) with (w +:+ newline +:+ join newline ((v :: ls) ++ [""])).
    rewrite <- IH by done. by rewrite !app_assoc_str. }
  apply split_char_join; [by destruct ls|]. apply Forall_app. split; [done|by constructor].
Qed.

(** A server DUID as [normalizeDuid] leaves it. *)
Definition duid_ok (d : option string) : Prop := forall x, d = Some x -> normalizeDuid x = Some x.

Lemma duid_word x : normalizeDuid x = Some x -> word x.
Proof.
  unfold normalizeDuid. destruct (DUID_RE (to_lower (trim x))) eqn:E; [|done]. intros [= Hx]. rewrite Hx in E.
  unfold DUID_RE in E. apply andb_true_iff in E as [[Hlen _]%andb_true_iff Hb].
  split; [by intros ->|]. apply forallb_Forall, duid_text_clean in Hb. rewrite join_split_char in Hb.
  eapply all_chars_impl; [|exact Hb]. intros c Hc. by destruct (duid_char_plain c Hc) as [-> _].
Qed.

Lemma duid_line_lease x : word x -> parseLeaseLine ("duid " +:+ x) = Ok None.
Proof.
  intros Hx. unfold parseLeaseLine. change ("duid " +:+ x) with (join " " ["duid"; x]).
  rewrite line_words; [done|done|]. by repeat constructor; try apply Hx.
Qed.

Lemma take_word_word w : word w -> take_word w = w.
Proof.
  intros [_ Hw]. induction w as [|c w IH]; simpl in *; [done|]. apply andb_prop in Hw as [Hc Hw].
  apply negb_true_iff in Hc. by rewrite Hc, IH.
Qed.

Lemma duid_line_match x : word x -> duid_match ("duid " +:+ x) = Some x.
Proof.
  intros Hx. pose proof Hx as [Hne Hs]. unfold duid_match. cbn [String.append drop_string take_string].
  assert (drop_while is_space (String " " x) = x) as Hd.
  { cbn [drop_while]. change (is_space " ") with true. cbv iota. by apply drop_while_none. }
  replace (drop_string 0 (String " " x)) with (String " " x) by done.
  rewrite Hd, take_word_word by done. replace (take_string 0 (String " " x)) with "" by done.
  apply String.eqb_neq in Hne. by rewrite Hne.
Qed.

(** The lines of a formatted file: leases of one family, the DUID, leases of the other. *)
Definition duid_lines (d : option string) : list string := match d with Some x => ["duid " +:+ x] | None => [] end.

Lemma formatLeaseFile_lines ls d :
  duid_ok d ->
  formatLeaseFile ls d =
  let lines := map formatLeaseLine (List.filter (fun l => negb (is_v6 l)) ls) ++ duid_lines d ++
               map formatLeaseLine (List.filter is_v6 ls) in
  match lines with [] => "" | _ => join newline lines +:+ newline end.
Proof.
  intros Hd. unfold formatLeaseFile. destruct d as [x|]; simpl; [|done].
  destruct (duid_word x (Hd x eq_refl)) as [Hne _]. by apply String.eqb_neq in Hne as ->.
Qed.

Lemma omap_map_some {A} (l : list A) : omap (fun x => x) (map Some l) = l.
Proof. induction l as [|x l IH]; [done|]. cbn. f_equal. exact IH. Qed.

Lemma no_duid_lines ls : Forall lease_ok ls -> omap duid_match (map formatLeaseLine ls) = [].
Proof. induction 1 as [|l ls Hl Hls IH]; [done|]. cbn. rewrite lease_line_no_duid by done. exact IH. Qed.

Lemma duid_lines_clean d :
  duid_ok d -> Forall (fun w => has_char (ascii_of_nat 10) w = false) (duid_lines d).
Proof.
  destruct d as [x|]; intros Hd; [|constructor]. constructor; [|constructor].
  apply (words_no_newline ["duid"; x]). constructor; [by split|].
  constructor; [by apply duid_word, Hd|constructor].
Qed.

Lemma duid_lines_match d : duid_ok d -> omap duid_match (duid_lines d) = option_list d.
Proof. destruct d as [x|]; [|done]. intros Hd. cbn [duid_lines omap list_omap]. by rewrite duid_line_match by (by apply duid_word, Hd). Qed.



(** ** Kea's side: [lease4-add], [lease6-add] and the pages it reports *)

Definition INFINITE_LIFETIME : Z := 4294967295.
Definition STATE_DEFAULT : Z := 0.

(** A lease4 or lease6 as Kea reports it. *)
Record RawLease := mkRaw {
  ip_address : string;
  state : Z;
  type : option string;
  hw_address : option string;
  client_id : option string;
  raw_duid : option string;
  raw_iaid : option Z;
  valid_lft : Z;
  cltt : Z;
  raw_hostname : option string }.

(** [lower(value)] *)
Definition lower (value : option string) : option string := to_lower <$> js_or value None.

(** [expiresAt(lease)] *)
Definition raw_expiresAt (lease : RawLease) : result string expiry :=
  if valid_lft lease =? INFINITE_LIFETIME then Ok Infinite else iso_of_seconds (cltt lease + valid_lft lease).

Definition backendLeaseFromKea (lease : RawLease) (family : Z) : result string (option BackendLease) :=
  if negb (state lease =? STATE_DEFAULT) then Ok None
  else if family =? 6 then
    if match js_or (type lease) None with
       | Some t => negb (String.eqb t "IA_NA") && negb (String.eqb t "IA_TA")
       | None => false
       end
    then Ok None
    else
      let duid := lower (raw_duid lease) in
      match raw_expiresAt lease with
      | Err e => Err e
      | Ok expiresAt =>
          Ok (Some (mkLease (ip_address lease) None (js_or (raw_hostname lease) None) duid expiresAt 6 duid
                      (raw_iaid lease) (bool_decide (type lease = Some "IA_TA"))))
      end
  else
    match raw_expiresAt lease with
    | Err e => Err e
    | Ok expiresAt =>
        Ok (Some (mkLease (ip_address lease) (lower (hw_address lease)) (js_or (raw_hostname lease) None)
                    (lower (client_id lease)) expiresAt 4 None None false))
    end.

(** What [lease4-add] and [lease6-add] are given. *)
Record KeaArguments := mkArguments {
  a_ip : string;
  a_hw : option string;
  a_client : option string;
  a_duid : option string;
  a_iaid : option Z;
  a_type : option string;
  a_preferred : option Z;
  a_valid : option Z;
  a_expire : option Z;
  a_hostname : option string }.

(** [now] is in milliseconds, as [Date.now()] is. *)
Definition keaLeaseArguments (lease : BackendLease) (now : Z) : KeaArguments :=
  let '(valid, expire) :=
    match expiresAt lease with
    | Infinite => (None, None)
    | Until ms => let expire := ms / 1000 in (Some (Z.max 1 (expire - now / 1000)), Some expire)
    end in
  let hostname := js_or (hostname lease) None in
  if dhcpVersion lease =? 6 then
    mkArguments (ip lease) None None (js_or (duid lease) (clientId lease)) (Some (default 0 (iaid lease)))
      (Some (if temporary lease then "IA_TA" else "IA_NA"))
      (match expire with Some e => if e =? 0 then None else valid | None => None end) valid expire hostname
  else
    mkArguments (ip lease) (mac lease) (js_or (clientId lease) None) None None None None valid expire hostname.

(** The leases reported of what a page holds, the rest dropped. *)
Definition pageLeases (raw : list RawLease) (family : Z) : result string (list BackendLease) :=
  match map_result (fun r => backendLeaseFromKea r family) raw with
  | Ok leases => Ok (omap (fun l => l) leases)
  | Err e => Err e
  end.

(** What Kea keeps of an added lease: its documentation has the start of the
    lease as its expiry less its lifetime, and a lease added without a
    lifetime takes that of its subnet, [life], from the moment it is added. *)
Definition kea_keeps (life now : Z) (stored : KeaArguments -> RawLease) : Prop :=
  forall a, stored a =
    let valid := default life (a_valid a) in
    mkRaw (a_ip a) 0 (a_type a) (a_hw a) (a_client a) (a_duid a) (a_iaid a) valid
      (match a_expire a with Some e => e - valid | None => now / 1000 end) (a_hostname a).

(** The expiry a lease has after Kea took it over. *)
Definition kea_expiry (life now : Z) (e : expiry) : expiry :=
  match e with Infinite => Until ((now / 1000 + life) * 1000) | Until ms => Until ms end.

(** What Kea can tell from a lease without an end. *)
Definition kea_lifetimes (life now : Z) (e : expiry) : Prop :=
  match e with
  | Infinite => life <> INFINITE_LIFETIME /\ 0 <= now / 1000 + life <= 8640000000000
  | Until ms => ms / 1000 - now / 1000 < INFINITE_LIFETIME
  end.

Lemma lower_name o : name_ok o -> (forall c, o = Some c -> to_lower c = c) -> lower o = o.
Proof.
  intros Hn Hl. unfold lower. rewrite js_or_name by done. destruct o as [c|]; [|done]. simpl. by rewrite (Hl c).
Qed.

(** The end Kea works out of what it keeps. *)
Lemma raw_expiry_back life now stored l :
  kea_keeps life now stored -> expiry_ok (expiresAt l) -> kea_lifetimes life now (expiresAt l) ->
  raw_expiresAt (stored (keaLeaseArguments l now)) = Ok (kea_expiry life now (expiresAt l)).
Proof.
  intros Hk He Hlife. rewrite Hk. unfold raw_expiresAt, keaLeaseArguments. cbv zeta.
  destruct (expiresAt l) as [|ms]; simpl in He, Hlife.
  - destruct Hlife as [Hl Hr]. apply Z.eqb_neq in Hl.
    destruct (dhcpVersion l =? 6); cbn -[Z.div]; rewrite Hl; unfold iso_of_seconds;
      by rewrite (proj2 (Z.leb_le _ _)) by lia.
  - destruct He as (s & -> & Hs). rewrite Z.div_mul in * by lia.
    generalize dependent (now / 1000). intros t Ht. set (v := Z.max 1 (s - t)).
    assert (v =? INFINITE_LIFETIME = false) as Hn by (apply Z.eqb_neq; unfold v, INFINITE_LIFETIME in *; lia).
    destruct (dhcpVersion l =? 6); cbn; fold v; rewrite Hn; replace (s - v + v) with s by lia;
      unfold iso_of_seconds; by rewrite (proj2 (Z.leb_le _ _)) by lia.
Qed.

(** A lease that Kea takes over is the lease it was: the same client, name
    and address, and the same end, except that a lease without an end gets
    the lifetime of its subnet. *)
Theorem kea_takes_lease life now stored l :
  kea_keeps life now stored -> lease_ok l -> kea_lifetimes life now (expiresAt l) ->
  (forall c, clientId l = Some c -> to_lower c = c) ->
  backendLeaseFromKea (stored (keaLeaseArguments l now)) (dhcpVersion l) =
  Ok (Some (mkLease (ip l) (mac l) (hostname l) (clientId l) (kea_expiry life now (expiresAt l))
              (dhcpVersion l) (duid l) (iaid l) (temporary l))).
Proof.
  intros Hk [[Hip Hv] He Hh Hc Hid] Hlife Hlow.
  unfold backendLeaseFromKea. rewrite (raw_expiry_back life) by done. generalize (kea_expiry life now (expiresAt l)).
  intros e. rewrite !(Hk (keaLeaseArguments l now)). unfold keaLeaseArguments, identity_ok in *.
  destruct (isValidIpv6 (ip l)).
  - destruct Hid as (Hver & Hm & (n & Hn & _) & Hd & _). rewrite Hver, Hd.
    assert (js_or (clientId l) (clientId l) = clientId l) as Ej by (destruct (clientId l) as [d|]; [simpl; by destruct (String.eqb d "")|done]).
    destruct (expiresAt l), (temporary l); simpl; rewrite Ej, lower_name, !js_or_name, Hm, Hn by (done || by rewrite js_or_name); reflexivity.
  - destruct Hid as (Hver & (m & Hm & Hw & Hl) & Hd & Hi & Ht). rewrite Hver, Hm, Hd, Hi, Ht.
    assert (lower (Some m) = Some m) as Em.
    { unfold lower. simpl. destruct Hw as [Hne _]. apply String.eqb_neq in Hne as ->. simpl. by rewrite Hl. }
    destruct (expiresAt l); cbn [Z.eqb Pos.eqb]; simpl; rewrite Em, (js_or_name (clientId l)), lower_name, !js_or_name by (done || by rewrite js_or_name); reflexivity.
Qed.

(** A Kea that does what [kea_keeps] says. *)
Definition some_kea (life now : Z) (a : KeaArguments) : RawLease :=
  let valid := default life (a_valid a) in
  mkRaw (a_ip a) 0 (a_type a) (a_hw a) (a_client a) (a_duid a) (a_iaid a) valid
    (match a_expire a with Some e => e - valid | None => now / 1000 end) (a_hostname a).

Lemma kea_takes_lease_witness :
  let printer := mkLease "10.60.0.9" (Some "aa:bb:cc:00:00:09") (Some "printer") None Infinite 4 None None false in
  backendLeaseFromKea (some_kea 3600 1790000000500 (keaLeaseArguments printer 1790000000500)) 4
  = Ok (Some (mkLease "10.60.0.9" (Some "aa:bb:cc:00:00:09") (Some "printer") None (Until 1790003600000) 4 None None false)).
Proof.
  intros printer. apply (kea_takes_lease 3600 1790000000500 (some_kea 3600 1790000000500) printer).
  - by intros a.
  - split; [by vm_compute|done|by vm_compute|done|].
    unfold identity_ok. replace (isValidIpv6 (ip printer)) with false by (vm_compute; reflexivity).
    repeat split. by eexists.
  - by vm_compute.
  - by intros c [=].
Defined.

(** ** What is read can be written

    The two sides [lease_ok] comes from: the file dnsmasq wrote, and what Kea
    reports. *)

Definition ends_word (s : string) : Prop := drop_while_end is_space s = s.

Lemma ends_word_tail c r : ends_word (String c r) -> (r = "" -> is_space c = false) /\ ends_word r.
Proof.
  unfold ends_word. cbn [drop_while_end]. destruct (drop_while_end is_space r) as [|d t] eqn:E.
  - destruct (is_space c) eqn:Hc; [done|]. intros [= <-]. done.
  - intros [= <-]. done.
Qed.

Lemma split_ws_spaceless s : Forall (fun w => all_chars (fun c => negb (is_space c)) w = true) (split_ws s).
Proof.
  induction s as [|c s IH]; cbn [split_ws]; [by repeat constructor|]. destruct (is_space c) eqn:Hc.
  - destruct s as [|d s]; [by repeat constructor|]. destruct (is_space d); [done|]. by constructor.
  - destruct (split_ws s) as [|w ws]; [constructor|]. apply Forall_cons in IH as [Hw Hws]. constructor; [|done]. cbn. by rewrite Hc.
Qed.

(** Only the ends of a text give empty pieces. *)
Lemma split_ws_nonempty s :
  ends_word s -> s <> "" ->
  match split_ws s with
  | [] => False
  | w :: ws => (forall c r, s = String c r -> is_space c = false -> w <> "") /\ Forall (fun w => w <> "") ws
  end.
Proof.
  induction s as [|c s IH]; [done|]. intros [Hlast He]%ends_word_tail _. cbn [split_ws]. destruct (is_space c) eqn:Hc.
  - destruct s as [|d s]; [by specialize (Hlast eq_refl)|]. specialize (IH He ltac:(done)). destruct (is_space d) eqn:Hd.
    + destruct (split_ws _) as [|w ws]; [done|]. split; [by intros ? ? [= <- <-]; rewrite Hc|apply IH].
    + split; [by intros ? ? [= <- <-]; rewrite Hc|]. destruct (split_ws _) as [|w ws]; [constructor|]. destruct IH as [Hw Hws].
      constructor; [by eapply Hw|done].
  - destruct s as [|d s]; [by repeat constructor|]. specialize (IH He ltac:(done)).
    destruct (split_ws _) as [|w ws]; [done|]. split; [done|apply IH].
Qed.

Lemma trim_ends s : ends_word (trim s) /\ forall c r, trim s = String c r -> is_space c = false.
Proof.
  split; [apply drop_while_end_idem|]. intros c r. unfold trim.
  assert (forall a t, drop_while is_space s = String a t -> is_space a = false) as Hd.
  { induction s as [|d s IH]; [done|]. cbn [drop_while]. destruct (is_space d) eqn:E; [exact IH|]. intros a t [= <- <-]. done. }
  destruct (drop_while is_space s) as [|a t]; [done|]. cbn [drop_while_end].
  destruct (drop_while_end is_space t); [destruct (is_space a); [done|]|]; intros [= <- _]; by eapply Hd.
Qed.

(** The parts of a trimmed line are words. *)
Lemma parts_words line : trim line <> "" -> Forall word (split_ws (trim line)).
Proof.
  intros Hne. destruct (trim_ends line) as [He Hf]. pose proof (split_ws_nonempty _ He Hne) as H. pose proof (split_ws_spaceless (trim line)) as Hs.
  destruct (split_ws (trim line)) as [|w ws]; [done|]. destruct H as [Hw Hws]. destruct (trim line) as [|c r] eqn:E; [done|].
  apply Forall_cons in Hs as [Hs1 Hs2]. constructor; [split; [by eapply Hw; [done|eapply Hf]|done]|].
  apply Forall_forall. intros x Hx. rewrite Forall_forall in Hws, Hs2. split; auto.
Qed.

Lemma lower_char_space c : is_space (lower_char c) = is_space c.
Proof. destruct c as [[] [] [] [] [] [] [] []]; reflexivity. Qed.
Lemma lower_char_idem c : lower_char (lower_char c) = lower_char c.
Proof. destruct c as [[] [] [] [] [] [] [] []]; reflexivity. Qed.

Lemma to_lower_idem s : to_lower (to_lower s) = to_lower s.
Proof. induction s as [|c s IH]; [done|]. cbn. by rewrite lower_char_idem, IH. Qed.

Lemma to_lower_word w : word w -> word (to_lower w).
Proof.
  intros [Hne Hs]. split; [by destruct w|]. clear Hne. induction w as [|c w IH]; [done|]. cbn in *.
  apply andb_true_iff in Hs as [Hc Hw]. by rewrite lower_char_space, Hc, IH.
Qed.

Lemma star_ok w : word w -> name_ok (star w).
Proof. intros Hw. unfold star, name_ok. destruct (String.eqb_spec w "*"); [done|]. by split. Qed.

Lemma js_or_ok o : name_ok o -> name_ok (js_or o None).
Proof. destruct o as [w|]; [|done]. cbn [js_or]. by destruct (String.eqb w ""). Qed.

Lemma digits1_value s : all_digits1 s = true -> 0 <= from_base 10 s.
Proof. unfold all_digits1. intros H. apply andb_true_iff in H as [_ H]. destruct (from_dec_bounds s H). lia. Qed.

(** Every lease read from a lease file can be written to one, when a DHCPv6
    client id is in lower case, as dnsmasq writes it. *)
Theorem read_lease_ok line l :
  parseLeaseLine line = Ok (Some l) -> (dhcpVersion l = 6 -> forall c, clientId l = Some c -> to_lower c = c) -> lease_ok l.
Proof.
  intros H Hlow. unfold parseLeaseLine in H. cbv zeta in H. destruct (String.eqb_spec (trim line) "") as [E|Hne]; [by rewrite E in H|].
  pose proof (parts_words line Hne) as Hw. destruct (split_ws (trim line)) as [|e [|w [|a [|h rest]]]]; try done.
  destruct (String.eqb e "duid"); [done|]. destruct (negb (all_digits1 e) || negb (isValidAddress a)) eqn:Hv; [done|]. reflect_bools.
  repeat (apply Forall_cons in Hw as [? Hw]).
  assert (name_ok (clientId ← head rest; js_or (star clientId) None)) as Hc.
  { destruct rest as [|c rest]; [done|]. apply Forall_cons in Hw as [Hc _]. cbn. by apply js_or_ok, star_ok. }
  set (client := clientId ← head rest; js_or (star clientId) None) in *. clearbody client.
  destruct (if from_base 10 e =? 0 then Ok Infinite else iso_of_seconds (from_base 10 e)) as [x|] eqn:Hx; [|done].
  assert (expiry_ok x) as Hex.
  { pose proof (digits1_value e ltac:(done)). destruct (Z.eqb_spec (from_base 10 e) 0); [by injection Hx as <-|].
    unfold iso_of_seconds in Hx. destruct (Z.leb_spec (Z.abs (from_base 10 e * 1000)) 8640000000000000); [|done]. injection Hx as <-.
    exists (from_base 10 e). split; [done|lia]. }
  cbn [mbind result_bind] in H. destruct (isValidIpv6 a) eqn:H6.
  - destruct (negb (all_digits1 _)) eqn:Hd; [done|]. apply negb_false_iff in Hd. injection H as <-. cbn in Hlow.
    split; cbn [ip expiresAt hostname clientId]; [done|done|by apply star_ok|done|]. unfold identity_ok. cbn. rewrite H6.
    split_and!; try done; [eexists; split; [done|by apply digits1_value]| |by apply Hlow].
    destruct client as [c|]; [|done]. cbn. by rewrite (Hlow eq_refl c).
  - injection H as <-. split; cbn [ip expiresAt hostname clientId]; [done|done|by apply star_ok|done|]. unfold identity_ok. cbn. rewrite H6.
    split_and!; try done. eexists. split_and!; [done|by apply to_lower_word|apply to_lower_idem].
Qed.

(** And every lease Kea reports with a valid address, an identity and names
    that are words. *)
Theorem kea_lease_ok raw fam l :
  backendLeaseFromKea raw fam = Ok (Some l) ->
  word (ip_address raw) -> isValidAddress (ip_address raw) = true -> fam = (if isValidIpv6 (ip_address raw) then 6 else 4) ->
  name_ok (js_or (raw_hostname raw) None) ->
  (valid_lft raw = INFINITE_LIFETIME \/ 0 < cltt raw + valid_lft raw) ->
  (fam = 6 -> name_ok (lower (raw_duid raw)) /\ exists n, raw_iaid raw = Some n /\ 0 <= n) ->
  (fam = 4 -> name_ok (lower (client_id raw)) /\ exists m, hw_address raw = Some m /\ word m) ->
  lease_ok l.
Proof.
  intros H Hip Hv Hfam Hh Ht H6 H4. unfold backendLeaseFromKea in H. destruct (negb _); [done|].
  assert (forall e, raw_expiresAt raw = Ok e -> expiry_ok e) as Hexp.
  { intros e He. unfold raw_expiresAt in He. destruct (Z.eqb_spec (valid_lft raw) INFINITE_LIFETIME); [by injection He as <-|].
    unfold iso_of_seconds in He. destruct (Z.leb_spec (Z.abs ((cltt raw + valid_lft raw) * 1000)) 8640000000000000); [|done]. injection He as <-.
    exists (cltt raw + valid_lft raw). split; [done|]. destruct Ht; [done|lia]. }
  assert (forall o c, lower o = Some c -> to_lower c = c) as Hl.
  { intros o c. unfold lower. destruct (js_or o None); [|done]. intros [= <-]. apply to_lower_idem. }
  destruct (isValidIpv6 (ip_address raw)) eqn:E; subst fam; cbn [Z.eqb Pos.eqb] in H.
  - destruct (H6 eq_refl) as (Hd & n & Hn & Hn0). destruct (match js_or (type raw) None with Some _ => _ | None => _ end); [done|].
    destruct (raw_expiresAt raw) as [e|] eqn:He; [|done]. injection H as <-.
    split; cbn [ip expiresAt hostname clientId]; auto. unfold identity_ok. cbn. rewrite E. split_and!; try done; [by exists n|apply Hl].
  - destruct (H4 eq_refl) as (Hc & m & Hm & Hw). destruct (raw_expiresAt raw) as [e|] eqn:He; [|done]. injection H as <-.
    split; cbn [ip expiresAt hostname clientId]; auto. unfold identity_ok. cbn. rewrite E. split_and!; try done.
    exists (to_lower m). split_and!; [|by apply to_lower_word|apply to_lower_idem].
    unfold lower. rewrite Hm. cbn [js_or]. destruct Hw as [Hne _]. by apply String.eqb_neq in Hne as ->.
Qed.

(** A DHCPv4 lease Kea reports without a hardware address comes out of the
    file with a device called null. *)
Example lease_without_mac :
  let l := mkLease "10.60.0.9" None (Some "meter") (Some "ff:01:02") Infinite 4 None None false in
  parseLeaseFile (formatLeaseFile [l] None) =
    Ok (Some [mkLease "10.60.0.9" (Some "null") (Some "meter") (Some "ff:01:02") Infinite 4 None None false]).
Proof. vm_compute. reflexivity. Qed.
