(* ===== verification/ConfigValue.v ===== *)
(** * Values that land in configuration files

    [server/src/utils/config-value-validation.js] and [lease-time.js]: the
    tests a value passes before an adapter writes it into a line of a
    backend's configuration, and the lease times CIDRella stores. *)

From S2P Require Import Prelude JsString.

(** [/[\r\n]/] and [/[\x00-\x08\x0b-\x1f\x7f]/]; both mean [code c] by the
    character's number. *)
Definition is_newline (c : ascii) : bool := (code c =? 13) || (code c =? 10).
Definition is_control (c : ascii) : bool := in_range 0 8 c || in_range 11 31 c || (code c =? 127).

(** What is wrong with the value, or nothing. *)
Definition validateConfigSafeValue (value : string) (allowComma allowEquals : bool) : option string :=
  if js_length value =? 0 then Some "must not be empty"
  else if 4096 <? js_length value then Some "is too long"
  else if some_char is_newline value then Some "must not contain newlines"
  else if some_char is_control value then Some "must not contain control characters"
  else if negb allowEquals && has_char "=" value then Some "must not contain ="
  else if negb allowComma && has_char "," value then Some "must not contain ,"
  else None.

(** [/^[0-9a-f]+(\.[0-9a-f]+)*$/], at most 63 characters *)
Definition isValidPtrName (name : string) : bool :=
  negb (String.eqb name "") && (js_length name <=? 63)
  && forallb (fun l => negb (String.eqb l "") && all_chars is_hex_lower l) (split_char "." name).

Definition is_name_char (c : ascii) : bool :=
  is_alnum c || Ascii.eqb c "." || Ascii.eqb c "_" || Ascii.eqb c "-".

Fixpoint last_char_is (p : ascii -> bool) (s : string) : bool :=
  match s with
  | EmptyString => false
  | String c EmptyString => p c
  | String _ s' => last_char_is p s'
  end.

(** [name.replace(/\.$/, '')] *)
Fixpoint drop_last_dot (s : string) : string :=
  match s with
  | EmptyString => EmptyString
  | String c EmptyString => if Ascii.eqb c "." then EmptyString else s
  | String c s' => String c (drop_last_dot s')
  end.

(** [/^[a-zA-Z0-9]([a-zA-Z0-9._-]*[a-zA-Z0-9])?$/] *)
Definition label_shape (s : string) : bool :=
  match s with
  | EmptyString => false
  | String c _ => is_alnum c && last_char_is is_alnum s && all_chars is_name_char s
  end.

Definition isValidRecordName (name : string) : bool :=
  if String.eqb name "@" then true
  else if String.eqb name "" || (253 <? js_length name) then false
  else label_shape (drop_last_dot name).

Definition validateTxtValue (value : string) : option string :=
  if js_length value =? 0 then Some "must not be empty"
  else if 4096 <? js_length value then Some "is too long"
  else if some_char is_newline value then Some "must not contain newlines"
  else if some_char is_control value then Some "must not contain control characters"
  else None.

(** ** Lease times *)

Fixpoint take_while (p : ascii -> bool) (s : string) : string :=
  match s with
  | EmptyString => EmptyString
  | String c s' => if p c then String c (take_while p s') else EmptyString
  end.

(** [UNIT_SECONDS] *)
Definition UNIT_SECONDS (u : string) : option Z :=
  if String.eqb u "" then Some 1
  else if String.eqb u "s" then Some 1
  else if String.eqb u "m" then Some 60
  else if String.eqb u "h" then Some 3600
  else if String.eqb u "d" then Some 86400
  else if String.eqb u "w" then Some 604800
  else None.

(** The digits and the unit of [/^(\d+)([smhdw]?)$/]. *)
Definition lease_match (s : string) : option (string * string) :=
  let digits := take_while is_digit s in
  let unit := drop_while is_digit s in
  if String.eqb digits "" then None
  else match UNIT_SECONDS unit with Some _ => Some (digits, unit) | None => None end.

(** [/^\d+[smhd]?$/] *)
Definition isValidLeaseTime (text : string) : bool :=
  match lease_match text with Some (_, u) => negb (String.eqb u "w") | None => false end.

(** A number of seconds, [Infinity] or [NaN]. The product is exact where
    JavaScript's is: below 2^53. *)
Inductive lease_seconds := Seconds (s : Z) | Infinite | NotATime.

Definition leaseSeconds (text : string) : lease_seconds :=
  let raw := to_lower (trim text) in
  if String.eqb raw "infinite" then Infinite
  else
    match lease_match raw with
    | Some (digits, u) => Seconds (from_base 10 digits * default 1 (UNIT_SECONDS u))
    | None => NotATime
    end.

Example lease_times :
  map leaseSeconds ["12h"; "3600"; " 7D "; "infinite"; "1y"; ""] =
  [Seconds 43200; Seconds 3600; Seconds 604800; Infinite; NotATime; NotATime].
Proof. vm_compute. reflexivity. Qed.

(** ** Lemmas *)

Lemma take_drop_while p s : take_while p s +:+ drop_while p s = s.
Proof. induction s as [|c s IH]; cbn; [done|]. destruct (p c); cbn; [by rewrite IH|done]. Qed.

Lemma take_while_app p s t :
  all_chars p s = true -> (match t with EmptyString => True | String c _ => p c = false end) ->
  take_while p (s +:+ t) = s /\ drop_while p (s +:+ t) = t.
Proof.
  intros Hs Ht. induction s as [|c s IH]; cbn in *.
  - destruct t as [|c t]; cbn; [done|]. by rewrite Ht.
  - apply andb_true_iff in Hs as [-> Hs]. destruct (IH Hs) as [-> ->]. done.
Qed.

(** A safe value stays inside its line and, when commas are refused, inside
    its field. *)
Lemma config_safe_clean value allowComma allowEquals :
  validateConfigSafeValue value allowComma allowEquals = None ->
  value <> "" /\ has_char "010" value = false /\ has_char "013" value = false /\ has_char "000" value = false /\
  (allowComma = false -> has_char "," value = false) /\ (allowEquals = false -> has_char "=" value = false).
Proof.
  unfold validateConfigSafeValue. intros Hv.
  destruct (js_length value =? 0) eqn:E0; [done|]. destruct (4096 <? js_length value); [done|].
  destruct (some_char is_newline value) eqn:E1; [done|]. destruct (some_char is_control value) eqn:E2; [done|].
  destruct (negb allowEquals && has_char "=" value) eqn:E3; [done|].
  destruct (negb allowComma && has_char "," value) eqn:E4; [done|].
  rewrite some_char_false in E1, E2. split_and!.
  - intros ->. done.
  - eapply has_char_class; [|exact E1]. done.
  - eapply has_char_class; [|exact E1]. done.
  - eapply has_char_class; [|exact E2]. done.
  - intros ->. done.
  - intros ->. done.
Qed.
