(* ===== verification/Radvd.v ===== *)
(** * radvd's configuration: [backends/radvd/render.js] and the test of
      [backends/radvd/index.js] that decides whether radvd runs at all
      (in [server/src])

    One block per link that has a DHCPv6 scope, with the flags, lifetimes and
    DNS options of its scopes. *)

From S2P Require Import Prelude JsString ConfigValue.

(** An option of a scope: addresses, or a text. *)
Inductive option_value := Addresses (l : list string) | Text (s : string).

Record Scope := mkScope {
  sc_network : string;
  sc_prefix : Z;
  sc_mode : string;
  sc_leaseTime : string;
  sc_options : list (Z * option_value) }.

Record Link := mkLink { l_name : string; l_mtu : option Z; l_scopes : list Scope }.

Definition DNS_SERVERS : Z := 23.
Definition SEARCH_LIST : Z := 24.

(** A lifetime as radvd writes it: seconds, or ['infinity']. *)
Inductive lifetime_text := Secs (n : Z) | Infinity.

Definition lifetime (leaseTime : string) : option lifetime_text :=
  match leaseSeconds leaseTime with
  | Infinite => Some Infinity
  | Seconds s => if 0 <? s then Some (Secs s) else None
  | NotATime => None
  end.

Definition show_lifetime (l : lifetime_text) : string := match l with Secs n => dec n | Infinity => "infinity" end.

Definition optionOf (scope : Scope) (code : Z) : option option_value := assoc code (sc_options scope).

Definition scope_servers (scope : Scope) : list string :=
  match optionOf scope DNS_SERVERS with Some (Addresses l) => l | _ => [] end.

(** [text.split(/[\s,]+/)], the empty pieces left out. *)
Fixpoint search_words (s : string) (acc : string) : list string :=
  match s with
  | EmptyString => if String.eqb acc "" then [] else [acc]
  | String c r =>
      if is_space c || Ascii.eqb c ","
      then (if String.eqb acc "" then [] else [acc]) ++ search_words r ""
      else search_words r (acc +:+ String c "")
  end.

Definition scope_domains (scope : Scope) : list string :=
  match optionOf scope SEARCH_LIST with Some (Text s) => search_words s "" | _ => [] end.

Definition on_off (b : bool) : string := if b then "on" else "off".

Definition has_mode (link : Link) (mode : string) : bool := existsb (fun s => String.eqb (sc_mode s) mode) (l_scopes link).

(** The lines of one scope's prefix. *)
Definition prefix_lines (scope : Scope) : list string :=
  ["  prefix " +:+ sc_network scope +:+ "/" +:+ dec (sc_prefix scope) +:+ " {";
   "    AdvOnLink on;";
   "    AdvAutonomous " +:+ on_off (negb (String.eqb (sc_mode scope) "stateful")) +:+ ";"]
  ++ match lifetime (sc_leaseTime scope) with
     | Some life => ["    AdvValidLifetime " +:+ show_lifetime life +:+ ";"; "    AdvPreferredLifetime " +:+ show_lifetime life +:+ ";"]
     | None => []
     end
  ++ ["  };"].

(** The shortest of the lifetimes; an infinite one only when all are. *)
Definition finite (l : list lifetime_text) : list Z :=
  omap (fun x => match x with Secs n => Some n | Infinity => None end) l.

Definition dnsLife (lifetimes : list lifetime_text) : option lifetime_text :=
  match finite lifetimes with
  | n :: rest => Some (Secs (fold_left Z.min rest n))
  | [] => match lifetimes with [] => None | _ => Some Infinity end
  end.

Definition list_block (keyword : string) (items : list string) (life : option lifetime_text) : list string :=
  match items with
  | [] => []
  | _ => ["  " +:+ keyword +:+ " " +:+ join " " items +:+ " {"]
         ++ match life with Some l => ["    Adv" +:+ keyword +:+ "Lifetime " +:+ show_lifetime l +:+ ";"] | None => [] end
         ++ ["  };"]
  end.

Definition link_block (link : Link) : string :=
  let scopes := l_scopes link in
  let life := dnsLife (omap (fun s => lifetime (sc_leaseTime s)) scopes) in
  join (String (ascii_of_nat 10) "")
    (["interface " +:+ l_name link +:+ " {";
      "  AdvSendAdvert on;";
      "  IgnoreIfMissing on;";
      "  AdvDefaultLifetime 0;";
      "  AdvManagedFlag " +:+ on_off (has_mode link "stateful") +:+ ";";
      "  AdvOtherConfigFlag " +:+ on_off (has_mode link "stateful" || has_mode link "stateless") +:+ ";"]
     ++ match l_mtu link with Some mtu => if mtu =? 0 then [] else ["  AdvLinkMTU " +:+ dec mtu +:+ ";"] | None => [] end
     ++ flat_map prefix_lines scopes
     ++ list_block "RDNSS" (js_uniq (flat_map scope_servers scopes)) life
     ++ list_block "DNSSL" (js_uniq (flat_map scope_domains scopes)) life
     ++ ["};"]).

Definition line_feed : string := String (ascii_of_nat 10) "".

(** The text, or [None] when there is nothing to advertise. *)
Definition renderRadvdConfig (links : list Link) : option string :=
  match map link_block (List.filter (fun l => match l_scopes l with [] => false | _ => true end) links) with
  | [] => None
  | blocks => Some ("# Rendered by CIDRella from the DHCPv6 scopes; edits are overwritten." +:+ line_feed
                    +:+ join (line_feed +:+ line_feed) blocks +:+ line_feed)
  end.

(** Written when no scope needs advertising. *)
Definition IDLE : string := "# No DHCPv6 scope to advertise; radvd stays stopped." +:+ line_feed.

(** [/^interface /m]: some line starts with the word. *)
Definition lines_of (s : string) : list string :=
  flat_map (split_char (ascii_of_nat 13)) (split_char (ascii_of_nat 10) s).

Definition wanted_text (text : string) : bool := existsb (starts_with "interface ") (lines_of text).

(** ** radvd runs exactly while there is something to advertise *)

Lemma split_char_app_sep c a b : split_char c (a +:+ String c b) = split_char c a ++ split_char c b.
Proof.
  induction a as [|d a IH].
  - cbn [String.append split_char]. destruct (split_char c b) eqn:E; [by destruct (split_char_nonempty c b)|].
    by rewrite Ascii.eqb_refl.
  - change (String d a +:+ String c b) with (String d (a +:+ String c b)). cbn [split_char]. rewrite IH.
    destruct (split_char c a) as [|w ws] eqn:E; [by destruct (split_char_nonempty c a)|]. simpl. by destruct (Ascii.eqb c d).
Qed.

Lemma split_char_prefix c p s w ws :
  has_char c p = false -> split_char c s = w :: ws -> split_char c (p +:+ s) = (p +:+ w) :: ws.
Proof.
  unfold has_char. intros Hp Hs. induction p as [|d p IH]; [done|]. simpl in Hp. apply orb_false_iff in Hp as [Hd Hp].
  change (String d p +:+ s) with (String d (p +:+ s)). cbn [split_char]. rewrite IH by done. by rewrite Hd.
Qed.

Lemma wanted_app a b : wanted_text (a +:+ line_feed +:+ b) = wanted_text a || wanted_text b.
Proof.
  unfold wanted_text, lines_of, line_feed. cbn [String.append].
  by rewrite split_char_app_sep, flat_map_app, existsb_app.
Qed.

Lemma starts_with_app p s : starts_with p (p +:+ s) = true.
Proof. induction p as [|c p IH]; [by destruct s|]. simpl. by rewrite Ascii.eqb_refl. Qed.

Lemma wanted_interface s : wanted_text ("interface " +:+ s) = true.
Proof.
  unfold wanted_text, lines_of.
  destruct (split_char (ascii_of_nat 10) s) as [|w ws] eqn:E; [by destruct (split_char_nonempty (ascii_of_nat 10) s)|].
  rewrite (split_char_prefix _ "interface " s w ws) by done. cbn [flat_map].
  destruct (split_char (ascii_of_nat 13) w) as [|v vs] eqn:E'; [by destruct (split_char_nonempty (ascii_of_nat 13) w)|].
  rewrite (split_char_prefix _ "interface " w v vs) by done. cbn [app existsb]. by rewrite starts_with_app.
Qed.

Lemma link_block_interface link : exists r, link_block link = "interface " +:+ r.
Proof. unfold link_block. cbv zeta. cbn [app join]. eexists. rewrite <- app_assoc_str. reflexivity. Qed.

Lemma join_cons_app sep w l : exists r, join sep (w :: l) = w +:+ r.
Proof. destruct l; [exists ""; by rewrite app_nil_r_str|]. by eexists. Qed.

(** The file radvd is given asks for it to run exactly when some link has a
    scope. *)
Lemma radvd_wanted links :
  wanted_text (default IDLE (renderRadvdConfig links)) = existsb (fun l => match l_scopes l with [] => false | _ => true end) links.
Proof.
  unfold renderRadvdConfig.
  destruct (List.filter (fun l => match l_scopes l with [] => false | _ => true end) links) as [|link rest] eqn:E.
  - cbn [map]. symmetry. apply not_true_is_false. intros (x & Hx & Hs)%existsb_exists.
    assert (In x []) as []. rewrite <- E. by apply filter_In.
  - cbn [map from_option id]. rewrite wanted_app.
    destruct (join_cons_app (line_feed +:+ line_feed) (link_block link) (map link_block rest)) as [r Er]. rewrite Er.
    destruct (link_block_interface link) as [q ->]. rewrite <- !app_assoc_str, wanted_interface, orb_true_r.
    symmetry. apply existsb_exists. exists link.
    apply (proj1 (filter_In (fun l => match l_scopes l with [] => false | _ => true end) link links)). rewrite E. by left.
Qed.
