(* ===== verification/Daemons.v ===== *)
(** * The daemons of the host and the adapters that drive them:
      [backends/shared/unit-control.js], [backends/shared/validated-files.js]
      and the parts of [backends/dnsmasq/index.js], [backends/kea/index.js],
      [backends/kea/leases.js], [backends/pdns/index.js] and
      [backends/radvd/index.js] that a switch of the server stack uses (in
      [server/src])

    The world is what the operations read and change: which daemons run and
    what they have loaded, the files they read, and the variables of the
    process. Everything outside the program is in [env]: before its [n]-th
    act the program sees what happened meanwhile ([drift]), may die there, and
    gets an answer (0 is success). An operation is a function on worlds; a
    claim that holds for every [env] holds for every failure, every moment of
    a crash and everything the daemons do on their own. *)

From stdpp Require Import functions.
From S2P Require Import Prelude JsString Duid Radvd Leases.

Inductive family := V4 | V6.
Inductive daemon := Dnsmasq | Kea (f : family) | PdnsAuth | Recursor | RadvdD.
Inductive backend := B_dnsmasq | B_kea | B_pdns | B_radvd.
Inductive stack := S_dnsmasq | S_pdns_kea.

#[export] Instance family_eq_dec : EqDecision family.
Proof. solve_decision. Defined.
#[export] Instance daemon_eq_dec : EqDecision daemon.
Proof. solve_decision. Defined.
#[export] Instance backend_eq_dec : EqDecision backend.
Proof. solve_decision. Defined.
#[export] Instance stack_eq_dec : EqDecision stack.
Proof. solve_decision. Defined.

Definition family_number (f : family) : Z := match f with V4 => 4 | V6 => 6 end.
Definition FAMILIES : list family := [V4; V6].
Definition family_of (l : BackendLease) : family := if dhcpVersion l =? 6 then V6 else V4.

(** ** The world *)

(** The daemons and the files they read. [held d]: the supervisor keeps [d]
    down (its flag file, or systemd told to stop it). [kea_conf f] is the file
    of one Kea daemon, [Some true] when it names an interface to listen on;
    [kea_loaded f] what the running process read. [trouble] is no variable of
    the program: it records that some daemon did not stop when told to. *)
Record Host := mkHost {
  up : daemon -> bool;
  held : daemon -> bool;
  restart_pending : backend -> bool;
  kea_conf : family -> option bool;
  kea_loaded : family -> bool;
  kea_leases : family -> list RawLease;
  duid_file : option string;
  lease_file : option string;
  radvd_conf : option string;
  auth_starting : bool;
  trouble : bool }.

(** What survives a restart of the program. *)
Record Marker := mkMarker { m_from : string; m_to : string; m_snapshot : option string }.

Record Disk := mkDisk {
  backend_stack : option string;
  dhcp_backend : option string;
  stack_file : option string;
  marker : option Marker;
  legacy_marker : option Marker;
  handover : list (string * list BackendLease);
  audit : list string }.

(** The variables of the process, the switch under way among them. *)
Inductive phase := P_preflight | P_hold | P_stage | P_quiesce | P_stop | P_read | P_import | P_start | P_verify | P_commit.

#[export] Instance phase_eq_dec : EqDecision phase.
Proof. solve_decision. Defined.

Record Switch := mkSwitch {
  st_phase : phase;
  sourceStopped : bool;
  selected : bool;
  st_leases : option (list BackendLease);
  serverDuid : option string;
  snapshot : option string }.

Record App := mkApp {
  current : stack;
  quiesced : bool;        (** Kea is told to answer no DHCP *)
  switching : bool;
  hook_holds : nat;
  sync_holds : nat;
  st : Switch }.

Record World := mkWorld { host : Host; disk : Disk; app : App; now : nat }.

Definition on_host (f : Host -> Host) (w : World) : World := mkWorld (f (host w)) (disk w) (app w) (now w).
Definition on_disk (f : Disk -> Disk) (w : World) : World := mkWorld (host w) (f (disk w)) (app w) (now w).
Definition on_app (f : App -> App) (w : World) : World := mkWorld (host w) (disk w) (f (app w)) (now w).

Definition set_units (h : Host) (u hd : daemon -> bool) (p : backend -> bool) (l : family -> bool) (t : bool) : Host :=
  mkHost u hd p (kea_conf h) l (kea_leases h) (duid_file h) (lease_file h) (radvd_conf h) (auth_starting h) t.
Definition set_kea_conf (h : Host) (c : family -> option bool) : Host :=
  mkHost (up h) (held h) (restart_pending h) c (kea_loaded h) (kea_leases h) (duid_file h) (lease_file h) (radvd_conf h)
    (auth_starting h) (trouble h).
Definition set_kea_leases (h : Host) (l : family -> list RawLease) : Host :=
  mkHost (up h) (held h) (restart_pending h) (kea_conf h) (kea_loaded h) l (duid_file h) (lease_file h) (radvd_conf h)
    (auth_starting h) (trouble h).
Definition set_files (h : Host) (duid lease radvd : option string) : Host :=
  mkHost (up h) (held h) (restart_pending h) (kea_conf h) (kea_loaded h) (kea_leases h) duid lease radvd
    (auth_starting h) (trouble h).
Definition set_pdns (h : Host) (p : backend -> bool) (starting : bool) : Host :=
  mkHost (up h) (held h) p (kea_conf h) (kea_loaded h) (kea_leases h) (duid_file h) (lease_file h) (radvd_conf h)
    starting (trouble h).

(** ** What the daemons do on their own *)

Inductive happening :=
| Dies (d : daemon)
| Revives (d : daemon)                     (** its supervisor starts it again *)
| WritesLeaseFile (text : string)          (** dnsmasq, while it runs *)
| ChangesLeases (f : family) (l : list RawLease)   (** Kea, while it answers *)
| AuthAnswers.                             (** [startDaemons] goes on to Recursor *)

(** A process that starts reads its file. *)
Definition loaded_of (h : Host) (d : daemon) : family -> bool :=
  match d with Kea f => <[f := default false (kea_conf h f)]> (kea_loaded h) | _ => kea_loaded h end.

Definition start_unit (h : Host) (d : daemon) (p : backend -> bool) : Host :=
  set_units h (<[d := true]> (up h)) (<[d := false]> (held h)) p (loaded_of h d) (trouble h).

Definition happen (h : Host) (e : happening) : Host :=
  match e with
  | Dies d => set_units h (<[d := false]> (up h)) (held h) (restart_pending h) (kea_loaded h) (trouble h)
  | Revives d => if held h d || up h d then h else start_unit h d (restart_pending h)
  | WritesLeaseFile text => if up h Dnsmasq then set_files h (duid_file h) (Some text) (radvd_conf h) else h
  | ChangesLeases f l => if up h (Kea f) && kea_loaded h f then set_kea_leases h (<[f := l]> (kea_leases h)) else h
  | AuthAnswers =>
      if auth_starting h
      then set_pdns (start_unit h Recursor (<[B_pdns := false]> (restart_pending h))) (<[B_pdns := false]> (restart_pending h)) false
      else h
  end.

Record Moment := mkMoment { crash : bool; drift : list happening; answer : nat }.

(** ** Programs *)

Inductive Res (A : Type) := Done (a : A) | Thrown (message : string) | Crashed.
Arguments Done {A} a.
Arguments Thrown {A} message.
Arguments Crashed {A}.

Definition M (A : Type) := World -> Res A * World.

#[export] Instance M_ret : MRet M := fun A a w => (Done a, w).
#[export] Instance M_bind : MBind M := fun A B k m w =>
  match m w with
  | (Done a, w') => k a w'
  | (Thrown e, w') => (Thrown e, w')
  | (Crashed, w') => (Crashed, w')
  end.

Definition throw {A} (message : string) : M A := fun w => (Thrown message, w).
Definition try_catch {A} (m : M A) (handler : string -> M A) : M A := fun w =>
  match m w with
  | (Thrown e, w') => handler e w'
  | r => r
  end.
Definition gets {A} (f : World -> A) : M A := fun w => (Done (f w), w).
Definition modify (f : World -> World) : M unit := fun w => (Done tt, f w).
Definition require (ok : bool) (message : string) : M unit := if ok then mret tt else throw message.

Fixpoint each {A} (f : A -> M unit) (l : list A) : M unit :=
  match l with [] => mret tt | x :: l => f x ;; each f l end.

Fixpoint map_each {A B} (f : A -> M B) (l : list A) : M (list B) :=
  match l with
  | [] => mret []
  | x :: l => y ← f x; ys ← map_each f l; mret (y :: ys)
  end.

(** What a pure function of the program throws. *)
Definition lift {A} (r : result string A) : M A := match r with Ok a => mret a | Err e => throw e end.

Section Env.
Context (env : nat -> Moment).

(** The next act of the program on the outside. *)
Definition ask : M nat := fun w =>
  let m := env (now w) in
  let w := mkWorld (fold_left happen (drift m) (host w)) (disk w) (app w) (S (now w)) in
  if crash m then (Crashed, w) else (Done (answer m), w).

(** An act that succeeds or throws. *)
Definition act (message : string) : M unit := a ← ask; require (a =? 0)%nat message.

(** ** [unit-control.js] *)

Definition isRunning (d : daemon) : M bool := ask ;; gets (fun w => up (host w) d).

(** [restart]: systemd starts it (0); its disable flag could not be removed
    (1), which only dnsmasq has, or [setEnabled] failed after systemctl did
    (2), and the marker is left; or it was told to end and its supervisor is to
    start it (3 and up). *)
Definition restart (b : backend) (d : daemon) : M unit :=
  a ← ask;
  modify (on_host (fun h =>
    match a with
    | 0%nat => start_unit h d (<[b := false]> (restart_pending h))
    | 1%nat => set_units h (up h) (held h) (<[b := true]> (restart_pending h)) (kea_loaded h) (trouble h)
    | 2%nat => set_units h (<[d := false]> (up h)) (held h) (<[b := true]> (restart_pending h)) (kea_loaded h) (trouble h)
    | _ => set_units h (<[d := false]> (up h)) (<[d := false]> (held h)) (<[b := false]> (restart_pending h))
             (kea_loaded h) (trouble h)
    end)).

(** [reload]: the process reads its file again (0), or the signal did not
    reach it, which is only logged. *)
Definition reload (d : daemon) : M unit :=
  a ← ask;
  modify (on_host (fun h =>
    if (a =? 0)%nat && up h d
    then set_units h (up h) (held h) (restart_pending h) (loaded_of h d) (trouble h) else h)).

(** [stop]: asked (0), or refused by systemctl, with the disable flag of
    dnsmasq written (1) or not (2 and up). *)
Definition stop (d : daemon) : M unit :=
  a ← ask;
  modify (on_host (fun h =>
    match a with
    | 0%nat => set_units h (up h) (<[d := true]> (held h)) (restart_pending h) (kea_loaded h) (trouble h)
    | 1%nat => set_units h (up h) (<[d := held h d || bool_decide (d = Dnsmasq)]> (held h)) (restart_pending h) (kea_loaded h) true
    | _ => set_units h (up h) (held h) (restart_pending h) (kea_loaded h) true
    end)).

Definition processName (d : daemon) : string :=
  match d with
  | Dnsmasq => "dnsmasq" | Kea V4 => "kea-dhcp4" | Kea V6 => "kea-dhcp6"
  | PdnsAuth => "pdns_server" | Recursor => "pdns_recursor" | RadvdD => "radvd"
  end.

(** [awaitStopped]: it exits in time (0), or the wait ends with it running. *)
Definition awaitStopped (d : daemon) : M unit :=
  a ← ask;
  running ← gets (fun w => up (host w) d);
  if negb running then mret tt
  else if (a =? 0)%nat
  then modify (on_host (fun h => set_units h (<[d := false]> (up h)) (held h) (restart_pending h) (kea_loaded h) (trouble h)))
  else modify (on_host (fun h => set_units h (up h) (held h) (restart_pending h) (kea_loaded h) true)) ;;
       throw (processName d +:+ " is still running 10 s after it was stopped").

(** ** What the host and the database have, which a switch does not change

    [families] are those Kea serves; [has_interfaces], whether a DHCP interface
    is selected; [dhcp_off], the DHCP switch; [links], the links of the live
    DHCPv6 scopes; [stored], what Kea keeps of an added lease. *)
Record Config := mkConfig {
  families : list family;
  has_interfaces : bool;
  dhcp_off : bool;
  links : list Link;
  stored : KeaArguments -> RawLease;
  date_now : Z }.

Context (cfg : Config).

(** ** The registry: [backends/index.js] *)

Definition dhcp_of (s : stack) : backend := match s with S_dnsmasq => B_dnsmasq | S_pdns_kea => B_kea end.

(** [servesDhcp('kea')] *)
Definition keaServes (a : App) : bool :=
  bool_decide (dhcp_of (current a) = B_kea) && negb (quiesced a) && negb (dhcp_off cfg).

Definition set_current (s : stack) (a : App) : App := mkApp s (quiesced a) (switching a) (hook_holds a) (sync_holds a) (st a).
Definition set_quiesced (q : bool) (a : App) : App := mkApp (current a) q (switching a) (hook_holds a) (sync_holds a) (st a).

(** [selectStack] and [setDhcpServing('kea', serving)]. The listeners of
    [selectStack] read logs and leases; the lease sync is held. *)
Definition selectStack (s : stack) : M unit := modify (on_app (set_current s)).
Definition setDhcpServing (serving : bool) : M unit := modify (on_app (set_quiesced (negb serving))).

(** ** Reading and importing leases: what every DHCP backend answers *)

Inductive reading := Leases (l : list BackendLease) | Unsettled | Absent.

Record Import := mkImport { added : nat; failed : list string }.

(** ** dnsmasq *)

Definition dnsmasq_prepare : M unit := act "mkdir failed".

(** The whole configuration, written and checked as one; a refused one is put
    back as it was. *)
Definition dnsmasq_stage : M unit := act "dnsmasq refused the configuration".

Definition dnsmasq_restart : M unit := act "dnsmasq refused the configuration" ;; restart B_dnsmasq Dnsmasq.

Definition dnsmasq_awaitRunning : M unit :=
  running ← isRunning Dnsmasq; require running "dnsmasq is not running".

(** [readLeases]: the five timed reads of [readSettledLeaseFile] see one text
    (0), or texts that do not settle. *)
Definition dnsmasq_readLeases : M reading :=
  a ← ask;
  file ← gets (fun w => lease_file (host w));
  match file with
  | None => mret Absent
  | Some text =>
      match (if (a =? 0)%nat then readSettledLeaseFile (repeat (Some text) 5) else None) with
      | None => mret Unsettled
      | Some content =>
          parsed ← lift (parseLeaseFile content);
          match parsed with Some leases => mret (Leases leases) | None => mret Unsettled end
      end
  end.

Definition dnsmasq_serverIdentity : M (option string) :=
  ask ;; gets (fun w => text ← lease_file (host w); readServerDuid text).

Definition dnsmasq_importLeases (leases : list BackendLease) (serverDuid : option string) : M Import :=
  act "lease file not written" ;;
  modify (on_host (fun h => set_files h (duid_file h) (Some (formatLeaseFile leases serverDuid)) (radvd_conf h))) ;;
  mret (mkImport (length leases) []).

(** ** Kea *)

Definition kea_serverDuid (h : Host) : option string :=
  text ← duid_file h; js_or (normalizeDuid (trim text)) None.

(** [renderAll]: the file of each family. What else of the text changed is the
    answer of [ask]. *)
Fixpoint kea_render (served : list family) (fs : list family) : M bool :=
  match fs with
  | [] => mret false
  | f :: fs =>
      a ← ask;
      old ← gets (fun w => kea_conf (host w) f);
      let content := bool_decide (f ∈ served) && has_interfaces cfg in
      let changed := negb (a =? 0)%nat || bool_decide (old <> Some content) in
      (if (changed : bool) then modify (on_host (fun h => set_kea_conf h (<[f := Some content]> (kea_conf h)))) else mret tt) ;;
      rest ← kea_render served fs;
      mret (changed || rest)
  end.

Definition renderAll : M bool :=
  serves ← gets (fun w => keaServes (app w));
  kea_render (if (serves : bool) then families cfg else []) FAMILIES.

(** [withValidatedKeaUpdate(renderAll)]: the files are put back when the check
    refuses them. *)
Definition kea_update : M bool :=
  saved ← gets (fun w => kea_conf (host w));
  try_catch
    (changed ← renderAll;
     (if (changed : bool) then act "kea refused the configuration" else mret tt) ;;
     mret changed)
    (fun e => modify (on_host (fun h => set_kea_conf h saved)) ;; throw e).

Inductive activation := Act_none | Act_reload | Act_restart.

Definition kea_applyActivation (a : activation) : M unit :=
  match a with
  | Act_none => mret tt
  | Act_restart => each (fun f => restart B_kea (Kea f)) (families cfg)
  | Act_reload => each (fun f => running ← isRunning (Kea f); if (running : bool) then reload (Kea f) else mret tt) (families cfg)
  end.

(** [applyScopes(db, { activate: false })] and with [activate]. *)
Definition kea_applyScopes_only : M activation :=
  changed ← kea_update; mret (if (changed : bool) then Act_reload else Act_none).
Definition kea_applyScopes : M unit := a ← kea_applyScopes_only; kea_applyActivation a.

(** The control API answers while the daemon runs (0), or the call fails. *)
Definition kea_command (f : family) (message : string) : M unit :=
  a ← ask; running ← gets (fun w => up (host w) (Kea f)); require (running && (a =? 0)%nat) message.

(** [readKeaLeases]: an answer of 1 is a count that moved during the scan. *)
Fixpoint kea_readFamilies (fs : list family) : M reading :=
  match fs with
  | [] => mret (Leases [])
  | f :: fs =>
      a ← ask;
      running ← gets (fun w => up (host w) (Kea f));
      require (running && (a <? 2)%nat) ("Kea did not answer " +:+ processName (Kea f)) ;;
      page ← (raw ← gets (fun w => kea_leases (host w) f); lift (pageLeases raw (family_number f)));
      if (a =? 1)%nat then mret Unsettled
      else
        rest ← kea_readFamilies fs;
        match rest with
        | Leases l => mret (Leases (page ++ l))
        | r => mret r
        end
  end.
Definition kea_readLeases : M reading := kea_readFamilies (families cfg).

Definition kea_serverIdentity : M (option string) := ask ;; gets (fun w => kea_serverDuid (host w)).

(** [lease4-del] of every lease a family holds. *)
Definition kea_clear (f : family) : M unit :=
  kea_command f "lease-get-page failed" ;;
  raw ← gets (fun w => kea_leases (host w) f);
  each (fun r =>
    kea_command f "lease-del failed" ;;
    modify (on_host (fun h => set_kea_leases h
      (<[f := List.filter (fun x => negb (String.eqb (ip_address x) (ip_address r))) (kea_leases h f)]> (kea_leases h))))) raw.

(** [lease4-add] or [lease6-add]: one that Kea refuses is reported. *)
Definition kea_add (lease : BackendLease) : M (option string) :=
  let f := family_of lease in
  try_catch
    (kea_command f "lease-add failed" ;;
     modify (on_host (fun h => set_kea_leases h
       (<[f := kea_leases h f ++ [stored cfg (keaLeaseArguments lease (date_now cfg))]]> (kea_leases h)))) ;;
     mret None)
    (fun _ => mret (Some (ip lease))).

Definition kea_importLeases (leases : list BackendLease) (serverDuid : option string) : M Import :=
  match js_or serverDuid None with
  | Some d => act "server DUID not written" ;;
              modify (on_host (fun h => set_files h (Some (d +:+ newline)) (lease_file h) (radvd_conf h)))
  | None => mret tt
  end ;;
  each kea_clear (families cfg) ;;
  refused ← map_each kea_add leases;
  let failed := omap (fun o => o) refused in
  mret (mkImport (length leases - length failed) failed).

(** [awaitRunning]: every daemon answers its API in time, with its sockets open
    when Kea serves. *)
Definition kea_awaitRunning : M unit :=
  each (fun f => kea_command f (processName (Kea f) +:+ " is not ready")) (families cfg).

Definition kea_prepare : M unit := act "mkdir failed".
Definition kea_stage : M unit := kea_update ;; kea_applyActivation Act_restart ;; kea_awaitRunning.
Definition kea_stop : M unit := each (fun f => stop (Kea f)) FAMILIES.
Definition kea_awaitStopped : M unit := each (fun f => awaitStopped (Kea f)) FAMILIES.

Definition kea_running (h : Host) : bool := forallb (fun f => up h (Kea f)) (families cfg).

Definition kea_activate : M unit :=
  ask ;;
  h ← gets host;
  if restart_pending h B_kea || negb (kea_running h) then kea_applyActivation Act_restart else mret tt.

(** ** PowerDNS *)

Definition DAEMONS : list daemon := [PdnsAuth; Recursor].

(** A changed pdns.conf leaves the marker (1). *)
Definition pdns_prepare : M unit :=
  a ← ask;
  match a with
  | 0%nat => mret tt
  | 1%nat => modify (on_host (fun h => set_pdns h (<[B_pdns := true]> (restart_pending h)) (auth_starting h)))
  | _ => throw "PowerDNS is not installed"
  end.

Definition pdns_awaitAuthoritative : M unit :=
  a ← ask; running ← gets (fun w => up (host w) PdnsAuth);
  require (running && (a =? 0)%nat) "PowerDNS Authoritative is not ready".

Definition pdns_stage : M unit :=
  act "pdns_recursor refused the configuration" ;;
  restart B_pdns PdnsAuth ;;
  pdns_awaitAuthoritative ;;
  act "PowerDNS refused zone changes".

(** [startDaemons] up to its first [await]; with Authoritative among them the
    rest goes on in the background. *)
Definition startDaemons (which : list daemon) : M unit :=
  if bool_decide (PdnsAuth ∈ which) then
    restart B_pdns PdnsAuth ;;
    if bool_decide (Recursor ∈ which)
    then modify (on_host (fun h => set_pdns h (restart_pending h) true))
    else mret tt
  else if bool_decide (Recursor ∈ which) then restart B_pdns Recursor
  else mret tt.

Definition pdns_activate : M unit :=
  ask ;;
  h ← gets host;
  let down := List.filter (fun d => negb (up h d)) DAEMONS in
  if restart_pending h B_pdns then startDaemons DAEMONS
  else match down with [] => mret tt | _ => startDaemons down end.

Definition pdns_awaitRunning : M unit :=
  a ← ask; h ← gets host;
  require (up h PdnsAuth && up h Recursor && (a =? 0)%nat) "PowerDNS is not ready".

Definition pdns_stop : M unit := each stop DAEMONS.
Definition pdns_awaitStopped : M unit := each awaitStopped DAEMONS.

(** ** radvd *)

(** Is there anything to advertise in the file on disk? *)
Definition wanted (h : Host) : bool := match radvd_conf h with Some text => wanted_text text | None => false end.

Definition radvd_prepare : M unit := act "mkdir failed".

(** [applyRouterAdvertisements(db, { activate: false })]: the file is put back
    when radvd refuses it. *)
Definition radvd_apply : M activation :=
  ask ;;
  old ← gets (fun w => radvd_conf (host w));
  let content := default IDLE (renderRadvdConfig (links cfg)) in
  let write text := modify (on_host (fun h => set_files h (duid_file h) (lease_file h) text)) in
  if bool_decide (old = Some content) then mret Act_none
  else
    write (Some content) ;;
    (if wanted_text content
     then try_catch (act "radvd refused the configuration") (fun e => write old ;; throw e)
     else mret tt) ;;
    mret Act_reload.

Definition radvd_applyActivation (a : activation) : M unit :=
  match a with
  | Act_none => mret tt
  | _ =>
      w ← gets (fun w => wanted (host w));
      if negb w then stop RadvdD
      else match a with
           | Act_reload => running ← isRunning RadvdD; if (running : bool) then reload RadvdD else restart B_radvd RadvdD
           | _ => restart B_radvd RadvdD
           end
  end.

Definition radvd_stage : M unit := radvd_apply ;; mret tt.

Definition radvd_awaitRunning : M unit :=
  w ← gets (fun w => wanted (host w));
  if negb w then mret tt
  else running ← isRunning RadvdD; require running "radvd is not running".

(** ** A service by its backend *)

Definition service_stop (b : backend) : M unit :=
  match b with B_dnsmasq => stop Dnsmasq | B_kea => kea_stop | B_pdns => pdns_stop | B_radvd => stop RadvdD end.
Definition service_awaitStopped (b : backend) : M unit :=
  match b with
  | B_dnsmasq => awaitStopped Dnsmasq | B_kea => kea_awaitStopped
  | B_pdns => pdns_awaitStopped | B_radvd => awaitStopped RadvdD
  end.
Definition service_running (b : backend) (h : Host) : bool :=
  match b with
  | B_dnsmasq => up h Dnsmasq | B_kea => kea_running h
  | B_pdns => forallb (up h) DAEMONS | B_radvd => up h RadvdD
  end.

(** [applyDhcp] ([services/backend-apply.js]) while Kea fills the DHCP role and
    radvd the Router Advertisements. *)
Definition applyDhcp : M unit :=
  result ← kea_applyScopes_only;
  raResult ← radvd_apply;
  act "DHCP names not synced" ;;
  kea_applyActivation result ;;
  radvd_applyActivation raResult.
End Env.
