(* ===== verification/StackSwitch.v ===== *)
(** * Moving DNS, DHCP and the Router Advertisements to the other stack:
      [server/src/services/stack-switch.js]

    A switch stages the target while the source serves, stops the source,
    carries its leases over, starts the target and verifies it; a failure puts
    the source back, and a crash is undone at the next boot. The operations of
    the adapters, the world they act on and the environment that decides
    their outcomes are those of [Daemons]. *)

From stdpp Require Import functions.
From S2P Require Import Prelude JsString Duid Radvd Leases Daemons.

Definition stack_name (s : stack) : string := match s with S_dnsmasq => "dnsmasq" | S_pdns_kea => "pdns-kea" end.

(** [STACKS[name]] *)
Definition stack_of (name : string) : option stack :=
  if String.eqb name "dnsmasq" then Some S_dnsmasq
  else if String.eqb name "pdns-kea" then Some S_pdns_kea
  else None.

Definition stackLabel (name : string) : string :=
  if String.eqb name "pdns-kea" then "PowerDNS + Kea" else name.

Definition DEFAULT_STACK : stack := S_dnsmasq.

(** [stackServices]: each backend of the stack once. *)
Definition stackServices (s : stack) : list backend :=
  match s with S_dnsmasq => [B_dnsmasq] | S_pdns_kea => [B_pdns; B_kea; B_radvd] end.

Definition allBackends : list backend := [B_dnsmasq; B_kea; B_pdns; B_radvd].

Record SwitchError := mkError {
  e_phase : phase;
  e_message : string;
  rolledBack : bool;
  rollbackError : option string }.

Record Moved := mkMoved {
  moved_leases : nat;
  moved_added : nat;
  moved_failed : list string;
  moved_missing : list string }.

Section Switch.
Context (env : nat -> Moment) (cfg : Config).

(** [installed_error b] is why the daemons of [b] cannot run here. [zones] are
    the enabled ones; [dns_port], the port the backend answers DNS on. *)
Context (installed_error : backend -> option string) (zones : list string) (dns_port : option Z).

(** The answer of [ask] for the time of the switch; only the name of the
    snapshot depends on it. *)
Context (startedAt : string).

Definition stackInstalled (s : stack) : option string :=
  head (omap installed_error (stackServices s)).

(** [switchPreflight(target).blocked]; what it says of features is read by
    people. *)
Definition blocked (a : App) (target : string) : option string :=
  match stack_of target with
  | None => Some ("Unknown server stack: " +:+ target)
  | Some t =>
      if switching a then Some "A server switch is already running"
      else if bool_decide (t = current a) then Some (stackLabel target +:+ " already serves DNS and DHCP")
      else match stackInstalled t with
           | Some reason => Some reason
           | None => stackInstalled (current a)
           end
  end.

(** ** Files and settings *)

Definition set_marker (m : option Marker) (d : Disk) : Disk :=
  mkDisk (backend_stack d) (dhcp_backend d) (stack_file d) m (legacy_marker d) (handover d) (audit d).
Definition set_legacy_marker (m : option Marker) (d : Disk) : Disk :=
  mkDisk (backend_stack d) (dhcp_backend d) (stack_file d) (marker d) m (handover d) (audit d).
Definition set_settings (stack dhcp : option string) (d : Disk) : Disk :=
  mkDisk stack dhcp (stack_file d) (marker d) (legacy_marker d) (handover d) (audit d).
Definition set_stack_file (f : option string) (d : Disk) : Disk :=
  mkDisk (backend_stack d) (dhcp_backend d) f (marker d) (legacy_marker d) (handover d) (audit d).
Definition add_handover (s : string * list BackendLease) (d : Disk) : Disk :=
  mkDisk (backend_stack d) (dhcp_backend d) (stack_file d) (marker d) (legacy_marker d) (handover d ++ [s]) (audit d).
Definition add_audit (a : string) (d : Disk) : Disk :=
  mkDisk (backend_stack d) (dhcp_backend d) (stack_file d) (marker d) (legacy_marker d) (handover d) (audit d ++ [a]).

Definition writeMarker (m : Marker) : M unit := act env "marker not written" ;; modify (on_disk (set_marker (Some m))).
Definition clearMarker : M unit := act env "marker not removed" ;; modify (on_disk (set_marker None)).
Definition writeStackFile (name : string) : M unit :=
  act env "stack file not written" ;; modify (on_disk (set_stack_file (Some name))).
Definition upsertStack (name : string) : M unit :=
  act env "SQLite error" ;; modify (on_disk (fun d => set_settings (Some name) (dhcp_backend d) d)).
Definition deleteLegacy : M unit :=
  act env "SQLite error" ;; modify (on_disk (fun d => set_settings (backend_stack d) None d)).

Definition handoverFile : string := "handover/" +:+ startedAt +:+ ".json".
Definition writeSnapshot (leases : list BackendLease) : M string :=
  act env "snapshot not written" ;; modify (on_disk (add_handover (handoverFile, leases))) ;; mret handoverFile.

(** ** The switch under way: the object [st] *)

Definition set_st (f : Switch -> Switch) (a : App) : App :=
  mkApp (current a) (quiesced a) (switching a) (hook_holds a) (sync_holds a) (f (st a)).
Definition on_st (f : Switch -> Switch) : M unit := modify (on_app (set_st f)).

Definition set_phase (p : phase) : M unit :=
  on_st (fun s => mkSwitch p (sourceStopped s) (selected s) (st_leases s) (serverDuid s) (snapshot s)).
Definition set_sourceStopped : M unit :=
  on_st (fun s => mkSwitch (st_phase s) true (selected s) (st_leases s) (serverDuid s) (snapshot s)).
Definition set_selected : M unit :=
  on_st (fun s => mkSwitch (st_phase s) (sourceStopped s) true (st_leases s) (serverDuid s) (snapshot s)).
Definition set_leases (l : list BackendLease) : M unit :=
  on_st (fun s => mkSwitch (st_phase s) (sourceStopped s) (selected s) (Some l) (serverDuid s) (snapshot s)).
Definition set_duid (d : option string) : M unit :=
  on_st (fun s => mkSwitch (st_phase s) (sourceStopped s) (selected s) (st_leases s) d (snapshot s)).
Definition set_snapshot (f : string) : M unit :=
  on_st (fun s => mkSwitch (st_phase s) (sourceStopped s) (selected s) (st_leases s) (serverDuid s) (Some f)).
Definition get_st : M Switch := gets (fun w => st (app w)).

(** [st.leases] once it is set. *)
Definition leases_of (s : Switch) : list BackendLease := default [] (st_leases s).

(** ** Reading leases *)

Fixpoint settledLeases (read : M reading) (attempts : nat) : M (list BackendLease) :=
  match attempts with
  | O => throw "leases did not settle"
  | S attempts =>
      r ← read;
      match r with
      | Leases l => mret l
      | Absent => mret []
      | Unsettled => settledLeases read attempts
      end
  end.

Definition missingLeases (read : M reading) (leases : list BackendLease) (failed : list string) : M (list string) :=
  now ← settledLeases read 5;
  mret (List.filter (fun a => negb (bool_decide (a ∈ failed)) && negb (bool_decide (a ∈ map ip now))) (map ip leases)).

(** [snapshotOf] *)
Definition snapshotOf (from to : stack) : M unit :=
  s ← get_st;
  file ← writeSnapshot (leases_of s);
  writeMarker (mkMarker (stack_name from) (stack_name to) (Some file)) ;;
  set_snapshot file.

(** [verifyZones]: each zone is asked up to five times. *)
Fixpoint zone_answers (attempts : nat) : M bool :=
  match attempts with
  | O => mret false
  | S attempts => a ← ask env; if (a =? 0)%nat then mret true else zone_answers attempts
  end.

Definition verifyZones : M unit :=
  match dns_port with
  | None => mret tt
  | Some _ =>
      answered ← map_each (fun zone => ok ← zone_answers 5; mret (if (ok : bool) then None else Some (zone : string))) zones;
      match omap (fun o => o) answered with
      | [] => mret tt
      | failed => throw ("DNS does not answer for " +:+ join ", " failed)
      end
  end.

(** ** The two directions *)

Definition stopAll (services : list backend) : M unit :=
  each (service_stop env) services ;; each (service_awaitStopped env) services.

Definition toPdnsKea : M (Import * list string) :=
  set_phase P_stage ;;
  pdns_prepare env ;; kea_prepare env ;; radvd_prepare env ;;
  pdns_stage env ;; kea_stage env cfg ;; radvd_stage env cfg ;;
  set_phase P_stop ;;
  set_sourceStopped ;;
  stopAll [B_dnsmasq] ;;
  set_phase P_read ;;
  leases ← settledLeases (dnsmasq_readLeases env) 5;
  set_leases leases ;;
  duid ← dnsmasq_serverIdentity env;
  set_duid duid ;;
  snapshotOf S_dnsmasq S_pdns_kea ;;
  set_phase P_import ;;
  imported ← kea_importLeases env cfg leases duid;
  set_phase P_start ;;
  selectStack S_pdns_kea ;;
  set_selected ;;
  applyDhcp env cfg ;;
  pdns_activate env ;;
  kea_awaitRunning env cfg ;;
  pdns_awaitRunning env ;;
  radvd_awaitRunning env ;;
  set_phase P_verify ;;
  missing ← missingLeases (kea_readLeases env cfg) leases (failed imported);
  verifyZones ;;
  mret (imported, missing).

Definition toDnsmasq : M (Import * list string) :=
  set_phase P_stage ;;
  dnsmasq_prepare env ;;
  dnsmasq_stage env ;;
  set_phase P_quiesce ;;
  setDhcpServing false ;;
  kea_applyScopes env cfg ;;
  kea_awaitRunning env cfg ;;
  set_phase P_read ;;
  leases ← settledLeases (kea_readLeases env cfg) 5;
  set_leases leases ;;
  duid ← kea_serverIdentity env;
  set_duid duid ;;
  snapshotOf S_pdns_kea S_dnsmasq ;;
  set_phase P_import ;;
  imported ← dnsmasq_importLeases env leases duid;
  set_phase P_stop ;;
  set_sourceStopped ;;
  stopAll [B_radvd; B_kea; B_pdns] ;;
  set_phase P_start ;;
  selectStack S_dnsmasq ;;
  set_selected ;;
  setDhcpServing true ;;
  dnsmasq_restart env ;;
  dnsmasq_awaitRunning env ;;
  set_phase P_verify ;;
  missing ← missingLeases (dnsmasq_readLeases env) leases (failed imported);
  verifyZones ;;
  mret (imported, missing).

(** ** Putting the source back *)

Definition targetLeases (read : M reading) : M (option (list BackendLease)) :=
  s ← get_st;
  if negb (selected s) then mret None
  else try_catch (l ← settledLeases read 5; mret (Some l)) (fun _ => mret (st_leases s)).

Definition rollBackToDnsmasq : M unit :=
  leases ← targetLeases (kea_readLeases env cfg);
  selectStack S_dnsmasq ;;
  setDhcpServing true ;;
  problems ← try_catch (stopAll [B_radvd; B_kea; B_pdns] ;; mret []) (fun e => mret [e]);
  s ← get_st;
  (if sourceStopped s then
     match leases with
     | Some l => dnsmasq_importLeases env l (serverDuid s) ;; mret tt
     | None => mret tt
     end ;;
     dnsmasq_restart env ;;
     dnsmasq_awaitRunning env
   else mret tt) ;;
  match problems with [] => mret tt | _ => throw (join "; " problems) end.

Definition rollBackToPdnsKea : M unit :=
  leases ← targetLeases (dnsmasq_readLeases env);
  stopAll [B_dnsmasq] ;;
  selectStack S_pdns_kea ;;
  setDhcpServing true ;;
  pdns_activate env ;;
  kea_activate env cfg ;;
  applyDhcp env cfg ;;
  kea_awaitRunning env cfg ;;
  s ← get_st;
  match leases with
  | Some l => kea_importLeases env cfg l (serverDuid s) ;; mret tt
  | None => mret tt
  end.

(** [commit] *)
Definition commit (name : string) : M unit :=
  upsertStack name ;; deleteLegacy ;; writeStackFile name ;; clearMarker.

(** ** [switchStack] *)

Definition hold_hooks (n : nat -> nat) (a : App) : App :=
  mkApp (current a) (quiesced a) (switching a) (n (hook_holds a)) (sync_holds a) (st a).
Definition hold_sync (n : nat -> nat) (a : App) : App :=
  mkApp (current a) (quiesced a) (switching a) (hook_holds a) (n (sync_holds a)) (st a).
Definition set_switching (b : bool) (a : App) : App :=
  mkApp (current a) (quiesced a) b (hook_holds a) (sync_holds a) (st a).

(** [holdHooks] and [holdLeaseSync] count at once and resolve when what runs
    has ended ([AfterCommit], [LeaseSync]). *)
Definition take_holds : M unit :=
  modify (on_app (hold_hooks S)) ;; ask env ;; modify (on_app (hold_sync S)) ;; ask env ;; mret tt.
Definition release_holds (w : World) : World :=
  on_app (hold_hooks pred) (on_app (hold_sync pred) (on_app (set_switching false) w)).

Definition initial_st : Switch := mkSwitch P_hold false false None None None.

(** The body of the try block. *)
Definition switch_body (from target : stack) : M Moved :=
  take_holds ;;
  writeMarker (mkMarker (stack_name from) (stack_name target) None) ;;
  moved ← match target with S_pdns_kea => toPdnsKea | S_dnsmasq => toDnsmasq end;
  set_phase P_commit ;;
  commit (stack_name target) ;;
  s ← get_st;
  mret (mkMoved (length (leases_of s)) (added (fst moved)) (failed (fst moved)) (snd moved)).

(** The catch block. *)
Definition switch_failed (target : stack) (message : string) : M SwitchError :=
  s ← get_st;
  match st_phase s with
  | P_commit => mret (mkError P_commit ("The switch finished but did not record: " +:+ message) false None)
  | p =>
      rollbackError ← try_catch
        (match target with S_pdns_kea => rollBackToDnsmasq | S_dnsmasq => rollBackToPdnsKea end ;;
         clearMarker ;; mret None)
        (fun e => mret (Some e));
      mret (mkError p message true rollbackError)
  end.

(** The whole; the [finally] block runs unless the program dies. *)
Definition switchStack (target : string) : M (Moved + SwitchError) := fun w =>
  match blocked (app w) target, stack_of target with
  | None, Some t =>
      let from := current (app w) in
      let w := on_app (set_st (fun _ => initial_st)) (on_app (set_switching true) w) in
      let '(r, w) := try_catch (m ← switch_body from t; mret (inl m)) (fun e => s ← switch_failed t e; mret (inr s)) w in
      match r with
      | Crashed => (Crashed, w)
      | r => (r, release_holds w)
      end
  | reason, _ => (Done (inr (mkError P_preflight (default "" reason) false None)), w)
  end.

(** ** Boot *)

(** The variables of a program that has just started. *)
Definition fresh_app : App := mkApp DEFAULT_STACK false false 0 0 initial_st.
Definition reboot (w : World) : World := mkWorld (host w) (disk w) fresh_app (now w).

(** [readStoredLeases] reads the lease files Kea left. *)
Context (stored_leases : Host -> list BackendLease).

Definition try_stop (b : backend) : M unit :=
  try_catch (service_stop env b ;; service_awaitStopped env b) (fun _ => mret tt).

(** [carryKeaLeasesToDnsmasq] *)
Definition carryKeaLeasesToDnsmasq : M unit :=
  leases ← try_catch
    (ask env ;;
     h ← gets host;
     if service_running cfg B_kea h then r ← kea_readLeases env cfg; mret (match r with Leases l => Some l | _ => None end)
     else mret None)
    (fun _ => mret None);
  h ← gets host;
  let leases := match leases with Some l => l | None => stored_leases h end in
  serverDuid ← kea_serverIdentity env;
  each try_stop [B_kea; B_dnsmasq] ;;
  writeSnapshot leases ;;
  dnsmasq_importLeases env leases serverDuid ;;
  mret tt.

(** [stopOutside]: dnsmasq is told every time, the rest only while they run. *)
Definition stopOutside (s : stack) : M unit :=
  each (fun b =>
    if bool_decide (b ∈ stackServices s) then mret tt
    else
      ask env ;;
      h ← gets host;
      if bool_decide (b <> B_dnsmasq) && negb (service_running cfg b h) then mret tt
      else try_stop b) allBackends.

(** The stack boot serves: the one of the setting, or dnsmasq; whether Kea's
    leases come along, and why another was chosen than the setting names. *)
Definition choose_stack (d : Disk) : stack * bool * option string :=
  let '(name, carryKea, reason) :=
    match js_or (backend_stack d) None with
    | None => (DEFAULT_STACK, bool_decide (dhcp_backend d = Some "kea"), None)
    | Some stored =>
        match stack_of stored with
        | Some s => (s, false, None)
        | None => (DEFAULT_STACK, false, Some ("unknown server '" +:+ stored +:+ "'"))
        end
    end in
  match stackInstalled name with
  | None => (name, carryKea, reason)
  | Some why => (DEFAULT_STACK, bool_decide (dhcp_of name = B_kea), Some why)
  end.

Record Recovered := mkRecovered { boot_stack : stack; recovered : option (Marker * bool) }.

Definition selectStackAtBoot : M Recovered :=
  '(name, carryKea, reason) ← gets (fun w => choose_stack (disk w));
  match reason with
  | Some _ => modify (on_disk (add_audit "backend_stack_fallback"))
  | None => mret tt
  end ;;
  marker ← gets (fun w => marker (disk w));
  legacyMarker ← gets (fun w => legacy_marker (disk w));
  clearMarker ;;
  act env "marker not removed" ;; modify (on_disk (set_legacy_marker None)) ;;
  (if (carryKea : bool) then carryKeaLeasesToDnsmasq else mret tt) ;;
  selectStack name ;;
  setting ← gets (fun w => backend_stack (disk w));
  (if bool_decide (setting = Some (stack_name name)) then mret tt else upsertStack (stack_name name)) ;;
  deleteLegacy ;;
  writeStackFile (stack_name name) ;;
  stopOutside name ;;
  match marker, legacyMarker with
  | None, None => mret (mkRecovered name None)
  | _, _ =>
      let last := match marker with Some m => m | None => default (mkMarker "" "" None) legacyMarker end in
      let finished := match marker with Some m => String.eqb (m_to m) (stack_name name) | None => false end in
      (if finished then mret tt else modify (on_disk (add_audit "backend_stack_switch_interrupted"))) ;;
      mret (mkRecovered name (Some (last, finished)))
  end.
End Switch.
