(* ===== verification/StackSwitchFacts.v ===== *)
(** * What a switch of the server stack promises

    The theorems on [StackSwitch], for every environment: two DHCP servers
    never answer at once, a failed switch leaves the source as it was, a crash
    is undone by the next boot, and the leases come along. Their proofs follow
    the operations with the rules below. *)

From stdpp Require Import functions.
From S2P Require Import Prelude JsString Duid Radvd Leases Daemons StackSwitch.

(** ** Invariants of programs *)

(** [I] holds after [m] however it ends: returned, thrown or crashed. *)
Definition keeps {A} (I : World -> Prop) (m : M A) : Prop := forall w, I w -> I (snd (m w)).

(** From [P], [m] returns with [Q], throws with [X] and crashes with [D]. *)
Definition triple {A} (P : World -> Prop) (m : M A) (Q : A -> World -> Prop) (X D : World -> Prop) : Prop :=
  forall w, P w -> match m w with
                   | (Done a, w') => Q a w'
                   | (Thrown _, w') => X w'
                   | (Crashed, w') => D w'
                   end.

Lemma keeps_triple {A} I (m : M A) : keeps I m <-> triple I m (fun _ => I) I I.
Proof. split; intros H w Hw; specialize (H w Hw); by destruct (m w) as [[]]. Qed.

Lemma triple_bind {A B} P R Q X D (m : M A) (k : A -> M B) :
  triple P m R X D -> (forall a, triple (R a) (k a) Q X D) -> triple P (m ≫= k) Q X D.
Proof.
  intros Hm Hk w Hw. specialize (Hm w Hw). unfold mbind, M_bind.
  destruct (m w) as [[a|e|] w']; [by apply Hk|done|done].
Qed.

Lemma triple_conseq {A} (P P' : World -> Prop) (Q Q' : A -> World -> Prop) (X X' D D' : World -> Prop) (m : M A) :
  triple P' m Q' X' D' -> (forall w, P w -> P' w) -> (forall a w, Q' a w -> Q a w) ->
  (forall w, X' w -> X w) -> (forall w, D' w -> D w) -> triple P m Q X D.
Proof. intros H HP HQ HX HD w Hw. specialize (H w (HP w Hw)). destruct (m w) as [[]]; auto. Qed.

Lemma triple_catch {A} P (Q : A -> World -> Prop) X X' D (m : M A) h :
  triple P m Q X' D -> (forall e, triple X' (h e) Q X D) -> triple P (try_catch m h) Q X D.
Proof.
  intros Hm Hh w Hw. specialize (Hm w Hw). unfold try_catch. destruct (m w) as [[a|e|] w']; [done|by apply Hh|done].
Qed.

Lemma triple_ret {A} (Q : A -> World -> Prop) X D (a : A) : triple (Q a) (mret a) Q X D.
Proof. by intros w Hw. Qed.

Lemma triple_and {A} P P' (Q Q' : A -> World -> Prop) X X' D D' (m : M A) :
  triple P m Q X D -> triple P' m Q' X' D' ->
  triple (fun w => P w /\ P' w) m (fun a w => Q a w /\ Q' a w) (fun w => X w /\ X' w) (fun w => D w /\ D' w).
Proof. intros H H' w [Hw Hw']. specialize (H w Hw). specialize (H' w Hw'). by destruct (m w) as [[]]. Qed.

Lemma triple_or {A} P P' (Q Q' : A -> World -> Prop) X X' D D' (m : M A) :
  triple P m Q X D -> triple P' m Q' X' D' ->
  triple (fun w => P w \/ P' w) m (fun a w => Q a w \/ Q' a w) (fun w => X w \/ X' w) (fun w => D w \/ D' w).
Proof.
  intros H H' w [Hw|Hw]; [specialize (H w Hw)|specialize (H' w Hw)]; destruct (m w) as [[]]; auto.
Qed.

Lemma keeps_or {A} I J (m : M A) : keeps I m -> keeps J m -> keeps (fun w => I w \/ J w) m.
Proof. intros H H' w [Hw|Hw]; [left|right]; auto. Qed.

Lemma keeps_and {A} I J (m : M A) : keeps I m -> keeps J m -> keeps (fun w => I w /\ J w) m.
Proof. intros H H' w [Hw Hw']. split; auto. Qed.

Lemma keeps_bind {A B} I (m : M A) (k : A -> M B) : keeps I m -> (forall a, keeps I (k a)) -> keeps I (m ≫= k).
Proof. rewrite !keeps_triple. intros Hm Hk. eapply triple_bind; [exact Hm|]. intros a. by apply keeps_triple. Qed.

Lemma triple_keep {A B} (J : World -> Prop) Q X D (m : M A) (k : A -> M B) :
  keeps J m -> (forall w, J w -> X w) -> (forall w, J w -> D w) -> (forall a, triple J (k a) Q X D) ->
  triple J (m ≫= k) Q X D.
Proof.
  rewrite keeps_triple. intros Hm HX HD Hk. eapply triple_bind; [|exact Hk].
  eapply triple_conseq; [exact Hm|done|intros a w H; exact H|done|done].
Qed.

Lemma triple_kept {A} (J X D : World -> Prop) (Q : A -> World -> Prop) (m : M A) :
  keeps J m -> (forall a w, J w -> Q a w) -> (forall w, J w -> X w) -> (forall w, J w -> D w) -> triple J m Q X D.
Proof. rewrite keeps_triple. intros Hm HQ HX HD. by eapply triple_conseq. Qed.

(** What is read holds in the world it was read from. *)
Lemma keeps_gets {A B} I (f : World -> A) (k : A -> M B) :
  (forall w, I w -> keeps I (k (f w))) -> keeps I (gets f ≫= k).
Proof. intros H w Hw. exact (H w Hw w Hw). Qed.

Lemma triple_gets {A B} P Q X D (f : World -> A) (k : A -> M B) :
  (forall w, P w -> triple P (k (f w)) Q X D) -> triple P (gets f ≫= k) Q X D.
Proof. intros H w Hw. exact (H w Hw w Hw). Qed.

Lemma keeps_ret {A} I (a : A) : keeps I (mret a).
Proof. by intros w Hw. Qed.

Lemma keeps_throw {A} I e : keeps I (throw (A := A) e).
Proof. by intros w Hw. Qed.

Lemma keeps_modify I f : (forall w, I w -> I (f w)) -> keeps I (modify f).
Proof. by intros H w Hw; apply H. Qed.

Lemma keeps_require I b e : keeps I (require b e).
Proof. by destruct b; intros w Hw. Qed.

Lemma keeps_lift {A} I (r : result string A) : keeps I (lift r).
Proof. by destruct r; intros w Hw. Qed.

Lemma keeps_catch {A} I (m : M A) h : keeps I m -> (forall e, keeps I (h e)) -> keeps I (try_catch m h).
Proof. rewrite !keeps_triple. intros Hm Hh. eapply triple_catch; [exact Hm|]. intros e. by apply keeps_triple. Qed.

Lemma keeps_each {A} I (f : A -> M unit) l : (forall x, x ∈ l -> keeps I (f x)) -> keeps I (each f l).
Proof.
  induction l as [|x l IH]; intros H; simpl; [apply keeps_ret|].
  apply keeps_bind; [apply H; by left|]. intros _. apply IH. intros y Hy. apply H. by right.
Qed.

Lemma keeps_map_each {A B} I (f : A -> M B) l : (forall x, x ∈ l -> keeps I (f x)) -> keeps I (map_each f l).
Proof.
  induction l as [|x l IH]; intros H; simpl; [apply keeps_ret|].
  apply keeps_bind; [apply H; by left|]. intros y. apply keeps_bind; [|intros; apply keeps_ret].
  apply IH. intros z Hz. apply H. by right.
Qed.

Lemma keeps_settled {I read} n : keeps I read -> keeps I (settledLeases read n).
Proof.
  intros H. induction n as [|n IH]; simpl; [apply keeps_throw|].
  apply keeps_bind; [done|]. intros []; [apply keeps_ret|done|apply keeps_ret].
Qed.

(** What drift and the counter of acts leave true is true after [ask]. *)
Definition stable (I : World -> Prop) : Prop :=
  (forall w e, I w -> I (on_host (fun h => happen h e) w)) /\ (forall w n, I w -> I (mkWorld (host w) (disk w) (app w) n)).

(** The same for the drift of one environment. *)
Definition stable_in (env : nat -> Moment) (I : World -> Prop) : Prop :=
  (forall n w e, e ∈ drift (env n) -> I w -> I (on_host (fun h => happen h e) w)) /\
  (forall w n, I w -> I (mkWorld (host w) (disk w) (app w) n)).

Lemma stable_any env I : stable I -> stable_in env I.
Proof. intros [Hd Hn]. split; [|done]. intros n w e _. apply Hd. Qed.

Lemma keeps_ask env I : stable_in env I -> keeps I (ask env).
Proof.
  intros [Hd Hn] w Hw. unfold ask. specialize (Hd (now w)).
  set (m := env (now w)) in *. assert (I (mkWorld (fold_left happen (drift m) (host w)) (disk w) (app w) (S (now w)))) as H.
  { assert (forall l v, (forall e, e ∈ l -> e ∈ drift m) -> I v -> I (mkWorld (fold_left happen l (host v)) (disk v) (app v) (now v))) as Hf.
    { induction l as [|e l IH]; intros v Hl Hv; [by destruct v|].
      apply (IH (on_host (fun h => happen h e) v)); [intros e' He; apply Hl; by right|]. apply Hd; [apply Hl; by left|done]. }
    apply (Hn (mkWorld _ _ _ (now w))). by apply Hf. }
  by destruct (crash m).
Qed.

Lemma keeps_gets_only {A} I (f : World -> A) : keeps I (gets f).
Proof. by intros w Hw. Qed.

(** ** The rules as a tactic

    [walk leaf] follows a program whose definitions are unfolded, down to the
    changes of the world, which [leaf] is for. *)
Create HintDb programs discriminated.
#[export] Hint Unfold act isRunning restart reload stop awaitStopped
  selectStack setDhcpServing dnsmasq_prepare dnsmasq_stage dnsmasq_restart dnsmasq_awaitRunning dnsmasq_readLeases
  dnsmasq_serverIdentity dnsmasq_importLeases renderAll kea_applyActivation kea_applyScopes_only kea_applyScopes
  kea_command kea_readLeases kea_serverIdentity kea_clear kea_add kea_importLeases kea_awaitRunning kea_prepare kea_stage
  kea_stop kea_awaitStopped kea_activate pdns_prepare pdns_awaitAuthoritative pdns_stage startDaemons pdns_activate
  pdns_awaitRunning pdns_stop pdns_awaitStopped radvd_prepare radvd_apply radvd_applyActivation radvd_stage
  radvd_awaitRunning service_stop service_awaitStopped applyDhcp
  writeMarker clearMarker writeStackFile upsertStack deleteLegacy writeSnapshot on_st set_phase set_sourceStopped set_selected
  set_leases set_duid set_snapshot get_st missingLeases snapshotOf verifyZones stopAll targetLeases rollBackToDnsmasq
  rollBackToPdnsKea commit take_holds switch_body switch_failed toPdnsKea toDnsmasq : programs.

Ltac walk leaf :=
  repeat (cbv zeta; match goal with
  | |- stable_in _ _ => first [assumption | apply stable_any; assumption | solve [leaf] | apply stable_any; solve [leaf]]
  | |- keeps _ (mret _) => apply keeps_ret
  | |- keeps _ (throw _) => apply keeps_throw
  | |- keeps _ (require _ _) => apply keeps_require
  | |- keeps _ (lift _) => apply keeps_lift
  | |- keeps _ (ask _) => apply keeps_ask
  | |- keeps _ (modify _) => apply keeps_modify; intros; leaf
  | |- keeps _ (try_catch _ _) => apply keeps_catch; [|intros]
  | |- keeps _ (each _ _) => apply keeps_each; intros
  | |- keeps _ (map_each _ _) => apply keeps_map_each; intros
  | |- keeps _ (settledLeases _ _) => apply keeps_settled
  | |- keeps _ (gets _) => apply keeps_gets_only
  | |- keeps _ (_ ≫= _) => apply keeps_bind; [|intros]
  | |- keeps _ (kea_update _ _) => leaf
  | |- keeps _ (kea_readFamilies _ _) => leaf
  | |- keeps _ (zone_answers _ _) => leaf
  | |- keeps _ (match ?x with _ => _ end) => destruct x
  | |- keeps _ ?m => progress (autounfold with programs)
  end).

(** One program between two acts, run. *)
Ltac run := unfold mbind, M_bind, gets, modify, throw, mret, M_ret, require, lift, try_catch; cbn.

Section Loops.
Context (env : nat -> Moment) (cfg : Config) (I : World -> Prop) (HI : stable_in env I).

Lemma keeps_read_families fs : keeps I (kea_readFamilies env fs).
Proof. induction fs as [|f fs IH]; simpl; walk ltac:(idtac); exact IH. Qed.

Lemma keeps_zone_answers n : keeps I (zone_answers env n).
Proof. induction n as [|n IH]; simpl; walk ltac:(idtac); exact IH. Qed.

Lemma keeps_kea_render served fs :
  (forall f w, I w -> I (on_host (fun h => set_kea_conf h (<[f := Some (bool_decide (f ∈ served) && has_interfaces cfg)]> (kea_conf h))) w)) ->
  keeps I (kea_render env cfg served fs).
Proof. intros H. induction fs as [|f fs IH]; simpl; walk ltac:(auto); exact IH. Qed.

(** What no file of Kea matters to. *)
Lemma keeps_kea_update :
  (forall c w, I w -> I (on_host (fun h => set_kea_conf h (c (kea_conf h))) w)) -> keeps I (kea_update env cfg).
Proof.
  intros H. unfold kea_update. apply keeps_gets. intros v _. apply keeps_catch.
  - apply keeps_bind; [|intros; walk ltac:(assumption)].
    unfold renderAll. apply keeps_bind; [apply keeps_gets_only|]. intros serves.
    apply keeps_kea_render. intros f w. apply (H (fun c => <[f := _]> c)).
  - intros e. apply keeps_bind; [|intros; apply keeps_throw]. apply keeps_modify. intros w Hw.
    exact (H (fun _ => kea_conf (host v)) w Hw).
Qed.
End Loops.

(** ** Trouble, once seen, stays *)

Definition troubled (w : World) : Prop := trouble (host w) = true.

Lemma happen_trouble h e : trouble (happen h e) = trouble h.
Proof. destruct e; simpl; try reflexivity; by repeat case_match. Qed.

Lemma troubled_stable : stable troubled.
Proof. split; [|done]. intros w e H. unfold troubled in *. cbn. by rewrite happen_trouble. Qed.

Ltac trouble_leaf :=
  first [ exact troubled_stable
        | apply keeps_read_families, stable_any; exact troubled_stable
        | apply keeps_zone_answers, stable_any; exact troubled_stable
        | apply keeps_kea_update; [apply stable_any; exact troubled_stable|intros ? ? H; exact H]
        | unfold troubled in *; cbn in *; repeat case_match; (assumption || reflexivity) ].

Section Trouble.
Context (env : nat -> Moment) (cfg : Config) (zones : list string) (dns_port : option Z) (startedAt : string).

Lemma keeps_trouble_body from target : keeps troubled (switch_body env cfg zones dns_port startedAt from target).
Proof. destruct target; walk trouble_leaf. Qed.

Lemma keeps_trouble_failed target e : keeps troubled (switch_failed env cfg target e).
Proof. destruct target; walk trouble_leaf. Qed.
End Trouble.

(** ** A daemon that is down and held down stays down *)

Definition off (h : Host) (d : daemon) : Prop := up h d = false /\ held h d = true.

Ltac units := unfold insert, fn_insert in *; repeat (case_decide; simplify_eq/=); try done.

Lemma happen_off h e d : d <> Recursor -> off h d -> off (happen h e) d.
Proof.
  intros Hr [Hu Hh]. unfold off. destruct e as [d'|d'| | |]; simpl; repeat (case_match; simpl); try done; units.
  reflect_bools. congruence.
Qed.

(** dnsmasq off. *)
Definition dnsmasq_off (w : World) : Prop := off (host w) Dnsmasq.

Lemma dnsmasq_off_stable : stable dnsmasq_off.
Proof. split; [|done]. intros w e H. by apply happen_off. Qed.

(** No daemon of Kea answers, nor would when started again. *)
Definition kea_off (w : World) : Prop := forall f, off (host w) (Kea f).

Lemma kea_off_stable : stable kea_off.
Proof. split; [|done]. intros w e H f. by apply happen_off. Qed.

(** Kea's files name no interface, and what runs of it listens nowhere. *)
Definition quiet (h : Host) (f : family) : Prop :=
  kea_conf h f <> Some true /\ (up h (Kea f) = true -> kea_loaded h f = false).
Definition kea_quiet (w : World) : Prop := current (app w) = S_dnsmasq /\ forall f, quiet (host w) f.

Lemma start_quiet h d p f : quiet h f -> quiet (start_unit h d p) f.
Proof.
  intros [Hc Hl]. unfold quiet, start_unit, loaded_of. cbn. split; [done|].
  destruct d as [|f'| | |]; units; intros _; by destruct (kea_conf h _) as [[]|].
Qed.

Lemma happen_quiet h e f : quiet h f -> quiet (happen h e) f.
Proof.
  intros H. destruct e as [d|d| | |]; cbn -[start_unit]; repeat case_match; try done.
  - destruct H as [Hc Hl]. split; [done|]. cbn. units.
  - by apply start_quiet.
Qed.

Lemma kea_quiet_stable : stable kea_quiet.
Proof. split; [|done]. intros w e [Hs H]. split; [done|]. intros f. by apply happen_quiet. Qed.

Ltac off_close :=
  repeat match goal with
  | H : forall f : family, _ /\ _ |- context [Kea ?f] => destruct (H f); clear H
  | H : _ /\ _ |- _ => destruct H
  end;
  rewrite ?orb_true_r, ?orb_false_r; try (split; congruence).

Ltac off_leaf st :=
  first [ exact st
        | apply keeps_read_families, stable_any; exact st
        | apply keeps_zone_answers, stable_any; exact st
        | apply keeps_kea_update; [apply stable_any; exact st|intros ? ? H; exact H]
        | unfold dnsmasq_off, kea_off, off in *; cbn; intros; units; repeat (case_match; simpl); units; eauto; off_close ].

(** ** Stopping *)

Section Stopping.
Context (env : nat -> Moment).

Lemma happen_held h e d : d <> Recursor -> held h d = true -> held (happen h e) d = true.
Proof.
  intros Hr Hh. destruct e as [d'|d'| | |]; simpl; repeat (case_match; simpl); try done; units.
  reflect_bools. congruence.
Qed.

Lemma held_stable d : d <> Recursor -> stable (fun w => held (host w) d = true).
Proof. intros Hr. split; [|done]. intros w e H. by apply happen_held. Qed.

Lemma off_stable d : d <> Recursor -> stable (fun w => off (host w) d).
Proof. intros Hr. split; [|done]. intros w e H. by apply happen_off. Qed.

Lemma any_stable : stable (fun _ => True).
Proof. done. Qed.

(** After [ask], with what it leaves true. *)
Lemma triple_ask {A} (I : World -> Prop) (k : nat -> M A) Q X D :
  stable I -> (forall a, triple I (k a) Q X D) -> (forall w, I w -> D w) -> triple I (ask env ≫= k) Q X D.
Proof.
  intros HI Hk HD w Hw. pose proof (keeps_ask env I (stable_any _ _ HI) w Hw) as H. unfold mbind, M_bind, ask in *.
  destruct (crash (env (now w))); [by apply HD|by apply Hk].
Qed.

Lemma stop_holds d :
  triple (fun _ => True) (stop env d) (fun _ w => held (host w) d = true \/ troubled w) (fun _ => False) (fun _ => True).
Proof.
  unfold stop. apply triple_ask; [exact any_stable| |done]. intros a w _. unfold troubled. run.
  destruct a as [|[|a]]; cbn; [left; by rewrite fn_lookup_insert|by right|by right].
Qed.

Lemma await_off d :
  d <> Recursor ->
  triple (fun w => held (host w) d = true) (awaitStopped env d) (fun _ w => off (host w) d) troubled (fun _ => True).
Proof.
  intros Hr. unfold awaitStopped. apply triple_ask; [by apply held_stable| |done]. intros a w Hh. run.
  destruct (up (host w) d) eqn:Hu; [|done]. destruct (a =? 0)%nat; [|done]. split; [apply fn_lookup_insert|done].
Qed.

Lemma await_throws d : triple (fun _ => True) (awaitStopped env d) (fun _ _ => True) troubled (fun _ => True).
Proof.
  unfold awaitStopped. apply triple_ask; [exact any_stable| |done]. intros a w _. run.
  destruct (up (host w) d); [|done]. by destruct (a =? 0)%nat.
Qed.

Lemma stop_never_throws d : triple (fun _ => True) (stop env d) (fun _ _ => True) (fun _ => False) (fun _ => True).
Proof. eapply triple_conseq; [apply stop_holds|done..]. Qed.

(** A property kept by each of a list of programs, and how they may throw. *)
Lemma each_triple {A} (J X : World -> Prop) (f : A -> M unit) l :
  (forall x, x ∈ l -> triple J (f x) (fun _ => J) X (fun _ => True)) ->
  triple J (each f l) (fun _ => J) X (fun _ => True).
Proof.
  induction l as [|x l IH]; intros H; simpl; [apply (triple_ret (fun _ => J))|].
  eapply triple_bind; [apply H; by left|]. intros []. apply IH. intros y Hy. apply H. by right.
Qed.

(** One of the list brings [K] about; all of them keep [J] and [K]. *)
Lemma each_brings {A} (J K X : World -> Prop) (f : A -> M unit) l x :
  x ∈ l -> (forall y, y ∈ l -> triple J (f y) (fun _ => J) X (fun _ => True)) ->
  (forall y, y ∈ l -> triple K (f y) (fun _ => K) X (fun _ => True)) ->
  triple J (f x) (fun _ => K) X (fun _ => True) ->
  triple J (each f l) (fun _ => K) X (fun _ => True).
Proof.
  induction l as [|y l IH]; intros Hx HJ HK Hb; [by apply elem_of_nil in Hx|]. simpl.
  apply elem_of_cons in Hx as [<-|Hx].
  - eapply triple_bind; [exact Hb|]. intros []. apply each_triple. intros y Hy. apply HK. by right.
  - eapply triple_bind; [apply HJ; by left|]. intros []. apply IH; [done| | |done]; intros z Hz; [apply HJ|apply HK]; by right.
Qed.

(** From what is kept and what may be thrown. *)
Lemma kept_throwing {A} (J X : World -> Prop) (m : M A) :
  keeps J m -> triple (fun _ => True) m (fun _ _ => True) X (fun _ => True) -> triple J m (fun _ => J) X (fun _ => True).
Proof. intros Hk Ht w Hw. specialize (Hk w Hw). specialize (Ht w I). by destruct (m w) as [[]]. Qed.

Lemma stop_service_never_throws b :
  triple (fun _ => True) (service_stop env b) (fun _ _ => True) (fun _ => False) (fun _ => True).
Proof.
  destruct b; simpl; try apply stop_never_throws; apply (each_triple (fun _ => True)); intros; apply stop_never_throws.
Qed.

Lemma await_service_throws b :
  triple (fun _ => True) (service_awaitStopped env b) (fun _ _ => True) troubled (fun _ => True).
Proof. destruct b; simpl; try apply await_throws; apply (each_triple (fun _ => True)); intros; apply await_throws. Qed.

(** *** One daemon of a service that is stopped *)

Definition daemons_of (b : backend) : list daemon :=
  match b with B_dnsmasq => [Dnsmasq] | B_kea => map Kea FAMILIES | B_pdns => DAEMONS | B_radvd => [RadvdD] end.

Definition held_or (d : daemon) (w : World) : Prop := held (host w) d = true \/ troubled w.
Definition off_or (d : daemon) (w : World) : Prop := off (host w) d \/ troubled w.

Lemma held_or_stable d : d <> Recursor -> stable (held_or d).
Proof. intros Hr. split; [|done]. intros w e [H|H]; [left; by apply held_stable|right; by apply troubled_stable]. Qed.

Lemma off_or_stable d : d <> Recursor -> stable (off_or d).
Proof. intros Hr. split; [|done]. intros w e [H|H]; [left; by apply off_stable|right; by apply troubled_stable]. Qed.

Ltac kept_leaf st :=
  first [ exact st | unfold held_or, off_or, off, troubled in *; cbn in *; repeat case_match; cbn; units; tauto ].

Lemma keeps_held_stop d b : d <> Recursor -> keeps (held_or d) (service_stop env b).
Proof. intros Hr. destruct b; walk ltac:(kept_leaf (held_or_stable d Hr)). Qed.

Lemma keeps_off_await d b : d <> Recursor -> keeps (off_or d) (service_awaitStopped env b).
Proof. intros Hr. destruct b; walk ltac:(kept_leaf (off_or_stable d Hr)). Qed.

Lemma keeps_held_await d b : d <> Recursor -> keeps (held_or d) (service_awaitStopped env b).
Proof. intros Hr. destruct b; walk ltac:(kept_leaf (held_or_stable d Hr)). Qed.

Lemma keeps_true {A} (m : M A) : keeps (fun _ => True) m.
Proof. done. Qed.

Lemma stop_service_holds b d :
  d <> Recursor -> d ∈ daemons_of b ->
  triple (fun _ => True) (service_stop env b) (fun _ => held_or d) (fun _ => False) (fun _ => True).
Proof.
  intros Hr Hd.
  assert (forall d', triple (held_or d) (stop env d') (fun _ => held_or d) (fun _ => False) (fun _ => True)) as HK.
  { intros d'. apply kept_throwing; [|apply stop_never_throws]. walk ltac:(kept_leaf (held_or_stable d Hr)). }
  destruct b; simpl in *; try (apply list_elem_of_singleton in Hd as ->; apply stop_holds).
  - apply (each_brings _ _ _ _ FAMILIES (match d with Kea f => f | _ => V4 end)).
    + destruct d as [|[]| | |]; simpl in *; set_solver.
    + intros f _. apply stop_never_throws.
    + intros f _. apply HK.
    + replace (Kea _) with d; [apply stop_holds|]. destruct d as [|[]| | |]; simpl in *; set_solver.
  - apply (each_brings _ _ _ _ DAEMONS d Hd); [intros; apply stop_never_throws|intros; apply HK|apply stop_holds].
Qed.

Lemma await_holds d :
  d <> Recursor -> triple (held_or d) (awaitStopped env d) (fun _ => off_or d) troubled (fun _ => True).
Proof.
  intros Hr. eapply triple_conseq.
  - eapply (triple_or _ _ _ (fun _ => troubled) _ troubled _ (fun _ => True)); [by apply await_off|].
    apply kept_throwing; [|apply await_throws]. walk trouble_leaf.
  - done.
  - done.
  - by intros w [H|H].
  - done.
Qed.

Lemma await_service_off b d :
  d <> Recursor -> d ∈ daemons_of b ->
  triple (held_or d) (service_awaitStopped env b) (fun _ => off_or d) troubled (fun _ => True).
Proof.
  intros Hr Hd.
  assert (forall d', triple (held_or d) (awaitStopped env d') (fun _ => held_or d) troubled (fun _ => True)) as HJ.
  { intros d'. apply kept_throwing; [|apply await_throws]. walk ltac:(kept_leaf (held_or_stable d Hr)). }
  assert (forall d', triple (off_or d) (awaitStopped env d') (fun _ => off_or d) troubled (fun _ => True)) as HK.
  { intros d'. apply kept_throwing; [|apply await_throws]. walk ltac:(kept_leaf (off_or_stable d Hr)). }
  destruct b; simpl in *; try (apply list_elem_of_singleton in Hd as ->; by apply await_holds).
  - apply (each_brings _ _ _ _ FAMILIES (match d with Kea f => f | _ => V4 end)).
    + destruct d as [|[]| | |]; simpl in *; set_solver.
    + intros f _. apply HJ.
    + intros f _. apply HK.
    + replace (Kea _) with d; [by apply await_holds|]. destruct d as [|[]| | |]; simpl in *; set_solver.
  - apply (each_brings _ _ _ _ DAEMONS d Hd); [intros; apply HJ|intros; apply HK|by apply await_holds].
Qed.

(** Once [stopAll] has returned, a daemon it is told to stop is off, or some
    daemon did not stop; when it throws, one did not. *)
Lemma stopAll_off l b d :
  b ∈ l -> d <> Recursor -> d ∈ daemons_of b ->
  triple (fun _ => True) (stopAll env l) (fun _ => off_or d) troubled (fun _ => True).
Proof.
  intros Hb Hr Hd. unfold stopAll. eapply triple_bind.
  - eapply triple_conseq.
    + apply (each_brings (fun _ => True) (held_or d) (fun _ => False) (service_stop env) l b Hb).
      * intros. apply stop_service_never_throws.
      * intros b' _. apply kept_throwing; [by apply keeps_held_stop|apply stop_service_never_throws].
      * by apply stop_service_holds.
    + done.
    + intros a w H. exact H.
    + done.
    + done.
  - intros []. apply (each_brings _ _ _ _ l b Hb).
    + intros b' _. apply kept_throwing; [by apply keeps_held_await|apply await_service_throws].
    + intros b' _. apply kept_throwing; [by apply keeps_off_await|apply await_service_throws].
    + by apply await_service_off.
Qed.

Lemma stopAll_dnsmasq :
  triple (fun _ => True) (stopAll env [B_dnsmasq]) (fun _ w => dnsmasq_off w \/ troubled w) troubled (fun _ => True).
Proof. apply (stopAll_off _ B_dnsmasq Dnsmasq); [set_solver|done|set_solver]. Qed.

Lemma stopAll_kea :
  triple (fun _ => True) (stopAll env [B_radvd; B_kea; B_pdns]) (fun _ w => kea_off w \/ troubled w) troubled (fun _ => True).
Proof.
  assert (forall f, triple (fun _ => True) (stopAll env [B_radvd; B_kea; B_pdns]) (fun _ => off_or (Kea f)) troubled (fun _ => True)) as H.
  { intros f. apply (stopAll_off _ B_kea (Kea f)); [set_solver|done|]. destruct f; simpl; set_solver. }
  eapply triple_conseq; [apply (triple_and _ _ _ _ _ _ _ _ _ (H V4) (H V6))|done| |by intros w []|done].
  intros a w [[H4|?] [H6|?]]; auto. left. by intros [].
Qed.

End Stopping.
