(* ===== verification/StackSwitchServing.v ===== *)
(** * Two DHCP servers never answer at once

    The theorem of [StackSwitch] on who answers DHCP while the stack changes,
    on the rules of [StackSwitchFacts]: dnsmasq is off before Kea listens and
    Kea is off before dnsmasq starts, on the way out, on the way back and at
    every point where the program may die. *)

From stdpp Require Import functions.
From S2P Require Import Prelude JsString Duid Radvd Leases Daemons StackSwitch StackSwitchFacts.

(** Before a switch from dnsmasq, Kea is down or listens nowhere. *)
Definition kea_away (w : World) : Prop := kea_quiet w \/ (current (app w) = S_dnsmasq /\ kea_off w).

Definition settled (w : World) : Prop :=
  match current (app w) with S_dnsmasq => kea_away w | S_pdns_kea => dnsmasq_off w end.

(** Both would answer a client. *)
Definition both_answer (h : Host) : Prop :=
  up h Dnsmasq = true /\ exists f, up h (Kea f) = true /\ kea_loaded h f = true.

Lemma kea_away_stable : stable kea_away.
Proof.
  split; [|done]. intros w e [H|[Hc H]]; [left; by apply kea_quiet_stable|right]. split; [done|]. by apply kea_off_stable.
Qed.

Section Serving.
Context (env : nat -> Moment) (cfg : Config) (zones : list string) (dns_port : option Z) (startedAt : string).

(** ** Kea told to listen nowhere *)

Definition conf_off (fs : list family) (w : World) : Prop := forall f, f ∈ fs -> kea_conf (host w) f = Some false.

Lemma happen_conf h e : kea_conf (happen h e) = kea_conf h.
Proof. destruct e; simpl; repeat case_match; done. Qed.

Lemma conf_off_stable fs : stable (conf_off fs).
Proof. split; [|done]. intros w e H f Hf. unfold on_host. cbn. rewrite happen_conf. by apply H. Qed.

Lemma keeps_render_none (J : World -> Prop) fs :
  stable J ->
  (forall f w, J w -> J (on_host (fun h => set_kea_conf h (<[f := Some false]> (kea_conf h))) w)) ->
  keeps J (kea_render env cfg [] fs).
Proof. intros HJ H. induction fs as [|f fs IH]; simpl; walk ltac:(auto); exact IH. Qed.

Lemma conf_off_write fs f w :
  conf_off fs w -> conf_off (f :: fs) (on_host (fun h => set_kea_conf h (<[f := Some false]> (kea_conf h))) w).
Proof.
  intros H f' Hf. cbn. destruct (decide (f = f')) as [->|Hn]; [by rewrite fn_lookup_insert|].
  rewrite fn_lookup_insert_ne by done. apply H. set_solver.
Qed.

Lemma render_none_done fs acc :
  triple (conf_off acc) (kea_render env cfg [] fs) (fun _ => conf_off (fs ++ acc)) (fun _ => True) (fun _ => True).
Proof.
  revert acc. induction fs as [|f fs IH]; intros acc; simpl; [apply (triple_ret (fun _ => conf_off acc))|].
  apply triple_ask; [apply conf_off_stable| |done]. intros a w Hw. unfold mbind at 1, M_bind at 1, gets at 1.
  assert (forall c, triple (conf_off (f :: acc)) (rest ← kea_render env cfg [] fs; mret (c || rest))
            (fun _ => conf_off (f :: fs ++ acc)) (fun _ => True) (fun _ => True)) as Hrest.
  { intros c. eapply triple_bind; [apply IH|]. intros r v Hv f' Hf. apply Hv. set_solver. }
  cbv zeta. destruct (negb (a =? 0)%nat || _) eqn:Hc; cbn.
  - apply (Hrest true). by apply conf_off_write.
  - apply (Hrest false). apply orb_false_iff in Hc as [_ Hc]. apply bool_decide_eq_false_1 in Hc.
    intros f' Hf. apply elem_of_cons in Hf as [->|Hf]; [by apply dec_stable|by apply Hw].
Qed.

(** [kea_update] while dnsmasq is the stack. *)
Lemma render_all_dnsmasq (w : World) :
  current (app w) = S_dnsmasq -> renderAll env cfg w = kea_render env cfg [] FAMILIES w.
Proof. intros H. unfold renderAll, mbind, M_bind, gets, keaServes. by rewrite H. Qed.

Lemma update_keeps J :
  stable J -> (forall w, J w -> current (app w) = S_dnsmasq) ->
  (forall f w, J w -> J (on_host (fun h => set_kea_conf h (<[f := Some false]> (kea_conf h))) w)) ->
  (forall v w, J v -> J w -> J (on_host (fun h => set_kea_conf h (kea_conf (host v))) w)) ->
  keeps J (kea_update env cfg).
Proof.
  intros HJ Hc Hf Hs. unfold kea_update. apply keeps_gets. intros v Hv. apply keeps_catch.
  - apply keeps_bind; [|intros; walk ltac:(assumption)].
    intros w Hw. rewrite render_all_dnsmasq by auto. by apply keeps_render_none.
  - intros e. walk ltac:(auto).
Qed.

Lemma update_done :
  triple (fun w => current (app w) = S_dnsmasq) (kea_update env cfg) (fun _ => conf_off FAMILIES) (fun _ => True) (fun _ => True).
Proof.
  unfold kea_update. intros w Hw. unfold mbind at 1, M_bind at 1, gets at 1. revert w Hw.
  assert (forall saved, triple (fun w => current (app w) = S_dnsmasq)
    (try_catch (changed ← renderAll env cfg; (if (changed : bool) then act env "kea refused the configuration" else mret tt) ;; mret changed)
       (fun e => modify (on_host (fun h => set_kea_conf h saved)) ;; throw e))
    (fun _ => conf_off FAMILIES) (fun _ => True) (fun _ => True)) as H; [|intros w Hw; exact (H _ w Hw)].
  intros saved. eapply (triple_catch _ _ _ (fun _ => True)); [|intros e w _; done].
  eapply (triple_bind _ (fun _ => conf_off FAMILIES)).
  - intros w Hw. rewrite render_all_dnsmasq by done.
    pose proof (render_none_done FAMILIES [] w ltac:(by intros f Hf%elem_of_nil)) as H. exact H.
  - intros changed. eapply triple_conseq; [apply keeps_triple|by intros w H; apply H|intros a w H; exact H|done|done].
    walk ltac:(apply conf_off_stable).
Qed.

Lemma off_conf_quiet w : current (app w) = S_dnsmasq -> kea_off w -> conf_off FAMILIES w -> kea_quiet w.
Proof.
  intros Hc Ho Hf. split; [done|]. intros f. split; [rewrite Hf; [done|destruct f; set_solver]|].
  destruct (Ho f) as [Hu _]. by rewrite Hu.
Qed.

Definition dns_off (w : World) : Prop := current (app w) = S_dnsmasq /\ kea_off w.

Lemma dns_off_stable : stable dns_off.
Proof. split; [|done]. intros w e [Hc H]. split; [done|]. by apply kea_off_stable. Qed.

Lemma update_quiet : triple kea_away (kea_update env cfg) (fun _ => kea_quiet) kea_away kea_away.
Proof.
  assert (keeps kea_quiet (kea_update env cfg)) as Hq.
  { apply update_keeps; [exact kea_quiet_stable|by intros w []| |].
    - intros f w [Hc H]. split; [done|]. intros f'. destruct (H f') as [H1 H2]. split; [|done]. cbn. units.
    - intros v w [_ Hv] [Hc H]. split; [done|]. intros f'. split; [apply Hv|apply H]. }
  assert (keeps dns_off (kea_update env cfg)) as Ho.
  { by apply update_keeps; [exact dns_off_stable|by intros w []|..]. }
  intros w [Hw|Hw].
  - specialize (Hq w Hw). destruct (kea_update env cfg w) as [[]]; [done|by left|by left].
  - pose proof (update_done w (proj1 Hw)) as Hd. specialize (Ho w Hw).
    destruct (kea_update env cfg w) as [[]]; [|by right|by right]. destruct Ho. by apply off_conf_quiet.
Qed.

(** ** From dnsmasq to PowerDNS and Kea *)

Definition kea_serves (w : World) : Prop := current (app w) = S_pdns_kea /\ off_or Dnsmasq w.
Definition dnsmasq_serves (w : World) : Prop := current (app w) = S_dnsmasq /\ (kea_off w \/ troubled w).
Definition safe (w : World) : Prop := kea_away w \/ kea_off w \/ off_or Dnsmasq w.

Definition is_current (s : stack) (w : World) : Prop := current (app w) = s.

Lemma is_current_stable s : stable (is_current s).
Proof. done. Qed.

Ltac app_leaf st :=
  first [ exact st
        | apply keeps_read_families, stable_any; exact st
        | apply keeps_zone_answers, stable_any; exact st
        | apply keeps_kea_update; [apply stable_any; exact st|intros ? ? ?; assumption]
        | assumption | reflexivity | discriminate ].

Ltac quiet_world :=
  match goal with
  | H : kea_quiet _ |- _ =>
      let Hc := fresh in let Hq := fresh in
      destruct H as [Hc Hq]; split; [first [reflexivity | exact Hc]|];
      let f := fresh "f" in intros f; specialize (Hq f); destruct Hq; unfold quiet; cbn; repeat (case_match; cbn);
      try (by apply start_quiet); split; cbn; units; auto; try (intros _; by destruct (kea_conf _ _) as [[]|])
  end.

Ltac quiet_leaf :=
  first [ exact kea_quiet_stable
        | apply keeps_read_families, stable_any; exact kea_quiet_stable
        | apply keeps_zone_answers, stable_any; exact kea_quiet_stable
        | quiet_world ].

Ltac dns_off_leaf :=
  first [ exact dns_off_stable
        | apply keeps_read_families, stable_any; exact dns_off_stable
        | match goal with H : dns_off _ |- _ =>
            destruct H as [? H]; split; [first [reflexivity|assumption]|]; off_leaf kea_off_stable end ].

Ltac away_keep :=
  match goal with
  | |- keeps kea_away ?m => change (keeps (fun w => kea_quiet w \/ dns_off w) m); apply keeps_or;
      [walk ltac:(quiet_leaf)|walk ltac:(dns_off_leaf)]
  end.

Lemma away_safe w : kea_away w -> safe w.
Proof. by left. Qed.

Lemma off_safe d w : d = Dnsmasq -> off_or d w -> safe w.
Proof. intros ->. by right; right. Qed.

Lemma off_or_dnsmasq_stable : stable (off_or Dnsmasq).
Proof. by apply off_or_stable. Qed.

Ltac off_or_keep :=
  match goal with
  | |- keeps (off_or Dnsmasq) ?m =>
      change (keeps (fun w => dnsmasq_off w \/ troubled w) m); apply keeps_or;
        [walk ltac:(off_leaf dnsmasq_off_stable)|walk trouble_leaf]
  end.

(** Rewritten to name no interface before it is started. *)
Lemma stage_quiet : triple kea_away (kea_stage env cfg) (fun _ => kea_quiet) kea_away kea_away.
Proof.
  unfold kea_stage. eapply triple_bind; [exact update_quiet|]. intros changed.
  eapply triple_kept; [walk ltac:(quiet_leaf)|done|by left|by left].
Qed.

(** [stopAll] is one way to stop serving, and until then nothing changes. *)
Lemma stopAll_from (J : World -> Prop) l (K : World -> Prop) :
  keeps J (stopAll env l) -> (forall w, J w -> safe w) ->
  triple (fun _ => True) (stopAll env l) (fun _ => K) troubled (fun _ => True) ->
  triple J (stopAll env l) (fun _ => K) safe safe.
Proof.
  intros Hk Hs Ht w Hw. specialize (Hk w Hw). specialize (Ht w I).
  destruct (stopAll env l w) as [[]]; [done|by right; right; right|by apply Hs].
Qed.

Ltac current_keep c := walk ltac:(app_leaf (is_current_stable c)).

Ltac kea_serves_keep :=
  match goal with
  | |- keeps kea_serves ?m =>
      change (keeps (fun w => is_current S_pdns_kea w /\ off_or Dnsmasq w) m); apply keeps_and;
        [current_keep S_pdns_kea|off_or_keep]
  end.

Ltac dnsmasq_serves_keep :=
  match goal with
  | |- keeps dnsmasq_serves ?m =>
      change (keeps (fun w => is_current S_dnsmasq w /\ (kea_off w \/ troubled w)) m); apply keeps_and;
        [current_keep S_dnsmasq|apply keeps_or; [walk ltac:(off_leaf kea_off_stable)|walk trouble_leaf]]
  end.

Ltac kea_or_keep :=
  match goal with
  | |- keeps _ ?m =>
      change (keeps (fun w => kea_off w \/ troubled w) m); apply keeps_or;
        [walk ltac:(off_leaf kea_off_stable)|walk trouble_leaf]
  end.

Lemma kea_serves_safe w : kea_serves w -> safe w.
Proof. intros []. by right; right. Qed.

Lemma dnsmasq_serves_safe w : dnsmasq_serves w -> safe w.
Proof. intros [_ [H|H]]; [by right; left|by right; right; right]. Qed.

Lemma toPdnsKea_serves :
  triple kea_away (toPdnsKea env cfg zones dns_port startedAt) (fun _ => kea_serves) safe safe.
Proof.
  unfold toPdnsKea. do 5 (apply triple_keep; [away_keep|exact away_safe|exact away_safe|intros []]).
  eapply triple_bind; [eapply triple_conseq; [exact stage_quiet|done|intros a w H; exact H|exact away_safe|exact away_safe]|].
  intros []. assert (forall w, kea_quiet w -> safe w) as Hq by (intros; by left; left).
  do 3 (apply triple_keep; [walk ltac:(quiet_leaf)|exact Hq|exact Hq|intros []]).
  eapply triple_bind; [apply (stopAll_from _ _ (off_or Dnsmasq)); [walk ltac:(quiet_leaf)|exact Hq|exact (stopAll_dnsmasq env)]|].
  intros []. cbv beta. assert (forall w, off_or Dnsmasq w -> safe w) as Ho by (intros; by right; right).
  do 9 (apply triple_keep; [off_or_keep|exact Ho|exact Ho|intros ?]).
  eapply (triple_bind _ (fun _ => kea_serves)); [by intros w H|]. intros [].
  apply triple_kept; [kea_serves_keep|done|exact kea_serves_safe|exact kea_serves_safe].
Qed.

(** ** From PowerDNS and Kea to dnsmasq *)

Lemma toDnsmasq_serves :
  triple dnsmasq_off (toDnsmasq env cfg zones dns_port startedAt) (fun _ => dnsmasq_serves) safe safe.
Proof.
  unfold toDnsmasq. assert (forall w, dnsmasq_off w -> safe w) as Hs by (intros; by right; right; left).
  do 17 (apply triple_keep; [walk ltac:(off_leaf dnsmasq_off_stable)|exact Hs|exact Hs|intros ?]).
  eapply triple_bind; [apply (stopAll_from _ _ (fun w => kea_off w \/ troubled w)); [walk ltac:(off_leaf dnsmasq_off_stable)|exact Hs|exact (stopAll_kea env)]|].
  intros []. cbv beta. assert (forall w, kea_off w \/ troubled w -> safe w) as Ho.
  { intros w [H|H]; [by right; left|by right; right; right]. }
  apply triple_keep; [kea_or_keep|exact Ho|exact Ho|intros []].
  eapply (triple_bind _ (fun _ => dnsmasq_serves)); [by intros w H|]. intros [].
  apply triple_kept; [dnsmasq_serves_keep|done|exact dnsmasq_serves_safe|exact dnsmasq_serves_safe].
Qed.

(** ** Putting the source back *)

Ltac safe_keep :=
  match goal with
  | |- keeps safe ?m =>
      change (keeps (fun w => kea_away w \/ (kea_off w \/ off_or Dnsmasq w)) m); apply keeps_or;
        [away_keep|apply keeps_or; [walk ltac:(off_leaf kea_off_stable)|off_or_keep]]
  end.

(** The leases of the target are read without an error. *)
Lemma targetLeases_kept (J : World -> Prop) read :
  keeps J read -> triple J (targetLeases read) (fun _ => J) (fun _ => False) J.
Proof.
  intros Hr. unfold targetLeases. intros w Hw. unfold mbind at 1, M_bind at 1, get_st, gets at 1. revert w Hw.
  assert (forall s, triple J (if negb (selected s) then mret None
      else try_catch (l ← settledLeases read 5; mret (Some l)) (fun _ => mret (st_leases s))) (fun _ => J) (fun _ => False) J) as H;
    [|intros w Hw; exact (H _ w Hw)].
  intros s. destruct (negb (selected s)); [apply (triple_ret (fun _ => J))|]. eapply (triple_catch _ _ _ J).
  - apply triple_kept; [|done..]. apply keeps_bind; [by apply keeps_settled|intros; apply keeps_ret].
  - intros e. apply (triple_ret (fun _ => J)).
Qed.

Definition back_to (s : stack) (w : World) : Prop := is_current s w /\ safe w.

Lemma rollBackToDnsmasq_serves :
  triple safe (rollBackToDnsmasq env cfg) (fun _ => dnsmasq_serves) dnsmasq_serves safe.
Proof.
  unfold rollBackToDnsmasq. eapply triple_bind.
  { eapply triple_conseq; [apply (targetLeases_kept safe); safe_keep|done|intros a w H; exact H|done|done]. }
  intros leases. cbv beta. eapply (triple_bind _ (fun _ => back_to S_dnsmasq)).
  { intros w H. split; [done|]. destruct H as [[[_ H]|[_ H]]|H]; [left; left|left; right|by right]; done. }
  intros []. eapply (triple_bind _ (fun _ => back_to S_dnsmasq)); [by intros w H|]. intros [].
  eapply (triple_bind _ (fun _ => dnsmasq_serves)).
  - eapply (triple_catch _ _ _ (fun w => is_current S_dnsmasq w /\ troubled w)).
    + apply (triple_bind _ (fun _ => dnsmasq_serves)); [|intros []; apply (triple_ret (fun _ => dnsmasq_serves))].
      intros w [Hc Hs].
      assert (keeps (is_current S_dnsmasq) (stopAll env [B_radvd; B_kea; B_pdns])) as Hk by current_keep S_dnsmasq.
      assert (keeps safe (stopAll env [B_radvd; B_kea; B_pdns])) as Hk' by safe_keep.
      specialize (Hk w Hc). specialize (Hk' w Hs). pose proof (stopAll_kea env w I) as Ht.
      by destruct (stopAll env _ w) as [[]].
    + intros e w [Hc Ht]. split; [done|by right].
  - intros problems. apply triple_kept; [|done|done|exact dnsmasq_serves_safe].
    dnsmasq_serves_keep.
Qed.

Lemma rollBackToPdnsKea_serves :
  triple safe (rollBackToPdnsKea env cfg) (fun _ => kea_serves) (fun w => kea_serves w \/ troubled w) safe.
Proof.
  unfold rollBackToPdnsKea. eapply triple_bind.
  { eapply triple_conseq; [apply (targetLeases_kept safe); safe_keep|done|intros a w H; exact H|done|done]. }
  intros leases. cbv beta. apply (triple_bind _ (fun _ => off_or Dnsmasq)).
  - assert (keeps safe (stopAll env [B_dnsmasq])) as Hk by safe_keep. intros w Hs.
    specialize (Hk w Hs). pose proof (stopAll_dnsmasq env w I) as Ht. destruct (stopAll env _ w) as [[]]; [done|by right|done].
  - intros []. apply (triple_bind _ (fun _ => kea_serves)); [by intros w H|]. intros [].
    apply triple_kept; [kea_serves_keep|done|by left|exact kea_serves_safe].
Qed.

(** ** The whole switch *)

(** Only [switch_body] enters the last phase, with the target serving. *)
Definition uncommitted (w : World) : Prop := st_phase (st (app w)) <> P_commit.

Lemma uncommitted_stable : stable uncommitted.
Proof. done. Qed.

Ltac uncommitted_keep := walk ltac:(app_leaf uncommitted_stable).

Lemma toPdnsKea_uncommitted : keeps uncommitted (toPdnsKea env cfg zones dns_port startedAt).
Proof. uncommitted_keep. Qed.

Lemma toDnsmasq_uncommitted : keeps uncommitted (toDnsmasq env cfg zones dns_port startedAt).
Proof. uncommitted_keep. Qed.

(** What serves after a switch to [t]. *)
Definition serves (t : stack) (w : World) : Prop :=
  match t with S_pdns_kea => kea_serves w | S_dnsmasq => dnsmasq_serves w end.

Lemma serves_safe t w : serves t w -> safe w.
Proof. destruct t; [apply dnsmasq_serves_safe|apply kea_serves_safe]. Qed.

(** Thrown before the last phase, or in it with the target serving. *)
Definition failed_from (t : stack) (w : World) : Prop := (uncommitted w /\ safe w) \/ serves t w.

Definition other (t : stack) : stack := match t with S_pdns_kea => S_dnsmasq | S_dnsmasq => S_pdns_kea end.

Ltac serves_keep t :=
  destruct t;
  [ match goal with |- keeps _ ?m => change (keeps dnsmasq_serves m) end; dnsmasq_serves_keep
  | match goal with |- keeps _ ?m => change (keeps kea_serves m) end; kea_serves_keep ].

Lemma direction_serves (t : stack) :
  triple (fun w => uncommitted w /\ current (app w) = other t /\ settled w)
    (match t with S_pdns_kea => toPdnsKea env cfg zones dns_port startedAt | S_dnsmasq => toDnsmasq env cfg zones dns_port startedAt end)
    (fun _ => serves t) (failed_from t) safe.
Proof.
  intros w (Hu & Hc & Hs). unfold settled in Hs. rewrite Hc in Hs. destruct t; simpl in Hs.
  - pose proof (toDnsmasq_serves w Hs) as H. pose proof (toDnsmasq_uncommitted w Hu) as Hu'.
    destruct (toDnsmasq _ _ _ _ _ w) as [[]]; [done|by left|done].
  - pose proof (toPdnsKea_serves w Hs) as H. pose proof (toPdnsKea_uncommitted w Hu) as Hu'.
    destruct (toPdnsKea _ _ _ _ _ w) as [[]]; [done|by left|done].
Qed.

Definition ready (t : stack) (w : World) : Prop := uncommitted w /\ current (app w) = other t /\ settled w.

Lemma ready_safe t w : ready t w -> safe w.
Proof.
  intros (_ & Hc & Hs). unfold settled in Hs. rewrite Hc in Hs. destruct t; simpl in *; [by right; right; left|by left].
Qed.

Lemma ready_stable t : stable (ready t).
Proof.
  split; [|done]. intros w e (Hu & Hc & Hs). split_and!; [done|done|].
  unfold settled in *. cbn in *. rewrite Hc in *. destruct t; [by apply dnsmasq_off_stable|by apply kea_away_stable].
Qed.

Lemma switch_body_serves t :
  triple (ready t) (switch_body env cfg zones dns_port startedAt (other t) t) (fun _ => serves t) (failed_from t) safe.
Proof.
  assert (forall w, ready t w -> failed_from t w) as Hf.
  { intros w H. left. split; [apply H|by eapply ready_safe]. }
  unfold switch_body. do 2 (apply triple_keep; [walk ltac:(first [exact (ready_stable t)|assumption])|exact Hf|exact (ready_safe t)|intros []]).
  eapply triple_bind; [apply direction_serves|]. intros moved. cbv beta.
  apply triple_kept; [serves_keep t|done|by right|exact (serves_safe t)].
Qed.

(** What [switch_failed] leaves, which throws nothing itself. *)
Definition put_back (w : World) : Prop := settled w \/ troubled w.

Lemma serves_put_back t w : serves t w -> put_back w.
Proof.
  destruct t; intros [Hc H]; unfold put_back, settled; rewrite Hc.
  - destruct H as [H|H]; [left; by right|by right].
  - exact H.
Qed.

Lemma clear_after t :
  triple (serves t) (clearMarker env ;; mret (None : option string)) (fun _ => put_back) put_back safe.
Proof.
  apply triple_kept; [serves_keep t|intros a; apply serves_put_back|apply serves_put_back|exact (serves_safe t)].
Qed.

Lemma roll_back_settles t :
  triple safe (match t with S_pdns_kea => rollBackToDnsmasq env cfg | S_dnsmasq => rollBackToPdnsKea env cfg end ;;
               clearMarker env ;; mret None) (fun _ : option string => put_back) put_back safe.
Proof.
  destruct t; eapply triple_bind.
  - eapply triple_conseq; [exact rollBackToPdnsKea_serves|done|intros a w H; exact H| |done].
    intros w [H|H]; [by apply (serves_put_back S_pdns_kea)|by right].
  - intros []. apply (clear_after S_pdns_kea).
  - eapply triple_conseq; [exact rollBackToDnsmasq_serves|done|intros a w H; exact H| |done].
    intros w H. by apply (serves_put_back S_dnsmasq).
  - intros []. apply (clear_after S_dnsmasq).
Qed.

Lemma switch_failed_settles t e :
  triple (failed_from t) (switch_failed env cfg t e) (fun _ => put_back) (fun _ => False) safe.
Proof.
  intros w Hw. unfold switch_failed, mbind at 1, M_bind at 1, get_st, gets at 1.
  assert (st_phase (st (app w)) = P_commit -> put_back w) as Hc.
  { intros Hp. destruct Hw as [[Hu _]|Hs]; [done|by eapply serves_put_back]. }
  assert (safe w) as Hs by (destruct Hw as [[_ H]|H]; [done|by eapply serves_safe]).
  assert (forall p, triple safe (rollbackError ← try_catch
        (match t with S_pdns_kea => rollBackToDnsmasq env cfg | S_dnsmasq => rollBackToPdnsKea env cfg end ;;
         clearMarker env ;; mret None) (fun e => mret (Some e)); mret (mkError p e true rollbackError))
        (fun _ => put_back) (fun _ => False) safe) as Hr.
  { intros p. apply (triple_bind _ (fun _ => put_back)); [|intros r; apply (triple_ret (fun _ => put_back))].
    eapply triple_catch; [apply roll_back_settles|]. intros e'. apply (triple_ret (fun _ => put_back)). }
  destruct (st_phase (st (app w))); try exact (Hr _ w Hs). exact (Hc eq_refl).
Qed.
End Serving.

Lemma settled_app f w :
  current (f (app w)) = current (app w) -> settled w -> settled (on_app f w).
Proof. unfold settled, kea_away, kea_quiet. cbn. intros ->. done. Qed.

Lemma safe_answers w : safe w -> both_answer (host w) -> troubled w.
Proof.
  intros Hs [Hd (f & Hu & Hl)].
  destruct Hs as [[[_ Hq]|[_ Ho]]|[Ho|[[Ho _]|Ht]]].
  - destruct (Hq f) as [_ H]. by rewrite H in Hl.
  - destruct (Ho f) as [H _]. by rewrite H in Hu.
  - destruct (Ho f) as [H _]. by rewrite H in Hu.
  - by rewrite Ho in Hd.
  - done.
Qed.

Lemma settled_safe w : settled w -> safe w.
Proof. unfold settled. destruct (current (app w)); [by left|by right; right; left]. Qed.

Lemma put_back_safe w : put_back w -> safe w.
Proof. intros [H|H]; [by apply settled_safe|by right; right; right]. Qed.

Lemma blocked_other installed_error a target t :
  blocked installed_error a target = None -> stack_of target = Some t -> current a = other t.
Proof.
  unfold blocked. intros H Ht. rewrite Ht in H. destruct (switching a); [done|]. case_bool_decide; [done|].
  by destruct t, (current a).
Qed.

(** C12. Whatever the environment does during a switch, and wherever the program
    dies in it, dnsmasq and Kea answer at once only when some daemon did not
    stop when told to; and a switch that ends, well or not, leaves what the
    next one may start from. *)
Theorem one_dhcp_server env cfg installed_error zones dns_port startedAt target w :
  settled w ->
  let '(r, w') := switchStack env cfg installed_error zones dns_port startedAt target w in
  (both_answer (host w') -> troubled w') /\
  match r with Done _ => settled w' \/ troubled w' | Thrown _ => False | Crashed => True end.
Proof.
  intros Hs. unfold switchStack.
  destruct (blocked installed_error (app w) target) eqn:Hb; [split; [apply safe_answers; by apply settled_safe|by left]|].
  destruct (stack_of target) as [t|] eqn:Ht; [|split; [apply safe_answers; by apply settled_safe|by left]].
  pose proof (blocked_other _ _ _ _ Hb Ht) as Ho. cbv zeta.
  set (w0 := on_app _ (on_app _ w)). assert (ready t w0) as Hr.
  { split_and!; [done|exact Ho|]. by apply settled_app, settled_app. }
  assert (triple (ready t) (try_catch (m ← switch_body env cfg zones dns_port startedAt (other t) t; mret (inl m))
            (fun e => s ← switch_failed env cfg t e; mret (inr s))) (fun _ => put_back) (fun _ => False) safe) as H.
  { eapply triple_catch.
    - eapply triple_bind; [apply switch_body_serves|]. intros m v Hv. by eapply serves_put_back.
    - intros e. eapply triple_bind; [apply switch_failed_settles|]. intros s v Hv. exact Hv. }
  specialize (H w0 Hr). rewrite Ho. destruct (try_catch _ _ w0) as [[a|e|] w']; [|done|].
  - split; [intros Hboth; exact (safe_answers w' (put_back_safe w' H) Hboth)|].
    destruct H as [H|H]; [left; by repeat apply settled_app|by right].
  - split; [by apply safe_answers|done].
Qed.

(** ** One host *)

Definition idle_switch : Switch := mkSwitch P_hold false false None None None.

(** dnsmasq serves with one lease; Kea, PowerDNS and radvd have never run. *)
Definition some_host : Host :=
  mkHost (fun d => bool_decide (d = Dnsmasq)) (fun d => negb (bool_decide (d = Dnsmasq))) (fun _ => false) (fun _ => None)
    (fun _ => false) (fun _ => []) None
    (Some (formatLeaseFile [mkLease "10.60.0.9" (Some "aa:bb:cc:00:00:09") (Some "printer") None (Until 1790003600000) 4 None None false] None))
    None false false.
Definition some_world : World :=
  mkWorld some_host (mkDisk (Some "dnsmasq") None (Some "dnsmasq") None None [] []) (mkApp S_dnsmasq false false 0 0 idle_switch) 0.

Definition some_config (links : list Link) : Config :=
  mkConfig [V4] true false links (some_kea 3600 1790000000500) 1790000000500.

(** Authoritative answers at once; nothing else happens on its own. *)
Definition calm (crash_at : nat) (n : nat) : Moment := mkMoment (n =? crash_at)%nat [AuthAnswers] 0.

Definition nothing_missing (_ : backend) : option string := None.

Lemma some_world_settled : settled some_world.
Proof. left. split; [reflexivity|]. intros f. split; [discriminate|]. by destruct f. Qed.

(** What a switch returned, and where the world is after it. *)
Definition outcome (r : Res (Moved + SwitchError) * World) :=
  (fst r, current (app (snd r)), backend_stack (disk (snd r)), stack_file (disk (snd r)),
   bool_decide (marker (disk (snd r)) = None), up (host (snd r)) Dnsmasq, up (host (snd r)) (Kea V4), map ip_address (kea_leases (host (snd r)) V4)).

Definition run (crash_at : nat) (links : list Link) (target : string) (w : World) : Res (Moved + SwitchError) * World :=
  switchStack (calm crash_at) (some_config links) nothing_missing [] None "now" target w.

(** There and back, with the lease. *)
Example there_and_back :
  outcome (run 999 [] "pdns-kea" some_world) =
    (Done (inl (mkMoved 1 1 [] [])), S_pdns_kea, Some "pdns-kea", Some "pdns-kea", true, false, true, ["10.60.0.9"]) /\
  fst (fst (fst (outcome (run 999 [] "dnsmasq" (snd (run 999 [] "pdns-kea" some_world)))))) =
    (Done (inl (mkMoved 1 1 [] [])), S_dnsmasq, Some "dnsmasq", Some "dnsmasq", true).
Proof. vm_compute. done. Qed.

Lemma one_dhcp_server_witness :
  settled some_world /\
  let '(r, w') := run 25 [] "pdns-kea" some_world in
  r = Crashed /\ (both_answer (host w') -> troubled w').
Proof.
  split; [exact some_world_settled|].
  pose proof (one_dhcp_server (calm 25) (some_config []) nothing_missing [] None "now" "pdns-kea" some_world some_world_settled) as H.
  unfold run. destruct (switchStack _ _ _ _ _ _ _ some_world) as [r w'] eqn:E. split; [|exact (proj1 H)].
  replace r with (fst (switchStack (calm 25) (some_config []) nothing_missing [] None "now" "pdns-kea" some_world)) by (by rewrite E).
  vm_compute. reflexivity.
Defined.
