(* ===== verification/StackSwitchRadvd.v ===== *)
(** * The Router Advertisements in a switch of the stack

    [radvd_stage] writes radvd's file before the switch, so the apply that is
    to start radvd finds the file unchanged and starts nothing: with a DHCPv6
    link to advertise, a switch to PowerDNS and Kea fails at
    [radvd_awaitRunning] and is rolled back, whatever the daemons do. *)

From stdpp Require Import functions.
From S2P Require Import Prelude JsString Duid Radvd Leases Daemons StackSwitch StackSwitchFacts StackSwitchServing.

Section Advertising.
Context (env : nat -> Moment) (cfg : Config) (zones : list string) (dns_port : option Z) (startedAt : string).

(** Some link has a scope to advertise. *)
Definition advertises : bool := existsb (fun l => match l_scopes l with [] => false | _ => true end) (links cfg).

Definition radvd_text : string := default IDLE (renderRadvdConfig (links cfg)).

(** radvd is down and held down, with its file already written. *)
Definition radvd_off (w : World) : Prop := off (host w) RadvdD.
Definition radvd_staged (w : World) : Prop := radvd_off w /\ radvd_conf (host w) = Some radvd_text.

Lemma radvd_off_stable : stable radvd_off.
Proof. by apply off_stable. Qed.

Lemma happen_radvd_conf h e : radvd_conf (happen h e) = radvd_conf h.
Proof. destruct e; simpl; repeat case_match; done. Qed.

Lemma radvd_staged_stable : stable radvd_staged.
Proof. split; [|done]. intros w e [H Hc]. split; [by apply radvd_off_stable|]. cbn. by rewrite happen_radvd_conf. Qed.

Ltac staged_leaf :=
  first [ exact radvd_staged_stable
        | apply keeps_read_families, stable_any; exact radvd_staged_stable
        | apply keeps_kea_update; [apply stable_any; exact radvd_staged_stable|intros ? ? H; exact H]
        | match goal with H : radvd_staged _ |- _ =>
            destruct H as [H ?]; split; [unfold radvd_off in *; off_leaf radvd_off_stable|cbn; repeat case_match; assumption] end ].

(** The file is written while it differs. *)
Lemma apply_stages : triple radvd_off (radvd_apply env cfg) (fun _ => radvd_staged) (fun _ => True) (fun _ => True).
Proof.
  unfold radvd_apply. apply triple_ask; [exact radvd_off_stable| |done]. intros a w Hw.
  unfold mbind at 1, M_bind at 1, gets at 1. cbv zeta. fold radvd_text. case_bool_decide as Ho; [done|]. revert w Hw Ho.
  assert (forall old, triple radvd_off (modify (on_host (fun h => set_files h (duid_file h) (lease_file h) (Some radvd_text))) ;;
     (if wanted_text radvd_text
      then try_catch (act env "radvd refused the configuration")
             (fun e => modify (on_host (fun h => set_files h (duid_file h) (lease_file h) old)) ;; throw e)
      else mret tt) ;; mret Act_reload) (fun _ => radvd_staged) (fun _ => True) (fun _ => True)) as H;
    [|intros w Hw Ho; exact (H _ w Hw)].
  intros old. apply (triple_bind _ (fun _ => radvd_staged)); [intros w H; split; [exact H|done]|]. intros [].
  apply (triple_bind _ (fun _ => radvd_staged)); [|intros []; apply (triple_ret (fun _ => radvd_staged))].
  destruct (wanted_text radvd_text); [|apply (triple_ret (fun _ => radvd_staged))].
  eapply (triple_catch _ _ _ (fun _ => True)); [|by intros e w _].
  apply triple_kept; [walk staged_leaf|done|done|done].
Qed.

(** And is found unchanged afterwards. *)
Lemma apply_unchanged :
  triple radvd_staged (radvd_apply env cfg) (fun a w => a = Act_none /\ radvd_staged w) (fun _ => True) (fun _ => True).
Proof.
  unfold radvd_apply. apply triple_ask; [exact radvd_staged_stable| |done]. intros a w Hw.
  unfold mbind at 1, M_bind at 1, gets at 1. cbv zeta. rewrite bool_decide_true by exact (proj2 Hw). done.
Qed.

Lemma applyDhcp_starts_nothing :
  triple radvd_staged (applyDhcp env cfg) (fun _ => radvd_staged) (fun _ => True) (fun _ => True).
Proof.
  unfold applyDhcp. apply triple_keep; [walk staged_leaf|done|done|intros result].
  eapply triple_bind; [exact apply_unchanged|]. intros ra w [-> Hw]. revert w Hw.
  change (triple radvd_staged (act env "DHCP names not synced" ;; kea_applyActivation env cfg result ;; radvd_applyActivation env Act_none)
            (fun _ => radvd_staged) (fun _ => True) (fun _ => True)).
  apply triple_kept; [|done|done|done].
  apply keeps_bind; [walk staged_leaf|]. intros []. apply keeps_bind; [|intros []; apply keeps_ret].
  destruct result; walk staged_leaf.
Qed.

Lemma await_radvd_throws :
  advertises = true ->
  triple radvd_staged (radvd_awaitRunning env) (fun _ _ => False) (fun _ => True) (fun _ => True).
Proof.
  intros Ha. unfold radvd_awaitRunning. intros w Hw. unfold mbind at 1, M_bind at 1, gets at 1.
  unfold wanted. rewrite (proj2 Hw). unfold radvd_text. rewrite radvd_wanted. fold advertises. rewrite Ha. cbn [negb].
  unfold isRunning. revert w Hw. apply triple_bind with (R := fun b _ => b = false).
  - apply triple_ask; [exact radvd_staged_stable| |done]. intros a w [[Hu _] _]. exact Hu.
  - by intros running w ->.
Qed.

Lemma toPdnsKea_never_returns :
  advertises = true ->
  triple radvd_off (toPdnsKea env cfg zones dns_port startedAt) (fun _ _ => False) (fun _ => True) (fun _ => True).
Proof.
  intros Ha. unfold toPdnsKea.
  do 6 (apply triple_keep; [walk ltac:(first [exact radvd_off_stable|apply keeps_kea_update; [apply stable_any; exact radvd_off_stable|intros ? ? H; exact H]|unfold radvd_off in *; off_leaf radvd_off_stable])|done|done|intros []]).
  apply (triple_bind _ (fun _ => radvd_staged)).
  { unfold radvd_stage. eapply triple_bind; [exact apply_stages|]. intros a. apply (triple_ret (fun _ => radvd_staged)). }
  intros []. do 14 (apply triple_keep; [walk staged_leaf|done|done|intros ?]).
  eapply triple_bind; [exact applyDhcp_starts_nothing|]. intros [].
  do 3 (apply triple_keep; [walk staged_leaf|done|done|intros []]).
  eapply triple_bind; [by apply await_radvd_throws|]. intros [] w [].
Qed.

Lemma switch_body_never_returns from :
  advertises = true ->
  triple radvd_off (switch_body env cfg zones dns_port startedAt from S_pdns_kea) (fun _ _ => False) (fun _ => True) (fun _ => True).
Proof.
  intros Ha. unfold switch_body.
  do 2 (apply triple_keep; [walk ltac:(first [exact radvd_off_stable|assumption])|done|done|intros []]).
  eapply triple_bind; [by apply toPdnsKea_never_returns|]. by intros moved w [].
Qed.
End Advertising.

(** With a link to advertise and radvd down, a switch to PowerDNS and Kea
    never succeeds, whatever the daemons do. *)
Theorem radvd_never_starts env cfg installed_error zones dns_port startedAt w :
  advertises cfg = true -> off (host w) RadvdD ->
  forall moved, fst (switchStack env cfg installed_error zones dns_port startedAt "pdns-kea" w) <> Done (inl moved).
Proof.
  intros Ha Hw moved. unfold switchStack. destruct (blocked _ _ _); [done|].
  change (stack_of "pdns-kea") with (Some S_pdns_kea). cbv zeta iota. set (w0 := on_app _ (on_app _ w)).
  assert (triple (radvd_off) (try_catch (m ← switch_body env cfg zones dns_port startedAt (current (app w)) S_pdns_kea; mret (inl m))
     (fun e => s ← switch_failed env cfg S_pdns_kea e; mret (inr s)))
     (fun r _ => exists s, r = inr s) (fun _ => True) (fun _ => True)) as H.
  { eapply (triple_catch _ _ _ (fun _ => True)).
    - eapply triple_bind; [by apply switch_body_never_returns|]. by intros m v [].
    - intros e. eapply (triple_bind _ (fun _ _ => True)); [|intros s v _; by eexists].
      intros v _. by destruct (switch_failed _ _ _ _ v) as [[]]. }
  specialize (H w0 Hw). destruct (try_catch _ _ w0) as [[a|e|] w']; [|done|done]. by destruct H as [s ->].
Qed.

Definition some_link : Link := mkLink "eth0" None [mkScope "fd00::" 64 "slaac" "1h" []].

(** It ends as it began, with dnsmasq serving. *)
Lemma radvd_never_starts_witness :
  outcome (run 999 [some_link] "pdns-kea" some_world) =
    (Done (inr (mkError P_start "radvd is not running" true None)), S_dnsmasq, Some "dnsmasq", Some "dnsmasq", true, true, false, ["10.60.0.9"]) /\
  forall moved, fst (run 999 [some_link] "pdns-kea" some_world) <> Done (inl moved).
Proof.
  split; [vm_compute; reflexivity|]. intros moved.
  apply (radvd_never_starts (calm 999) (some_config [some_link]) nothing_missing [] None "now" some_world); [reflexivity|split; reflexivity].
Defined.
