(* ===== verification/StackSwitchOutcome.v ===== *)
(** * A switch of the stack happens or it does not

    What [StackSwitch] leaves in the settings, in the marker and in the
    variables of the process: the target with all of it recorded, or the
    source with nothing changed; and after a crash, what boot makes of it. *)

From stdpp Require Import functions.
From S2P Require Import Prelude JsString Duid Radvd Leases Daemons StackSwitch StackSwitchFacts StackSwitchServing.

(** What names the stack in force: the setting, the setting of old installs
    and the file for scripts. *)
Definition settings (d : Disk) : option string * option string * option string :=
  (backend_stack d, dhcp_backend d, stack_file d).

Definition saved_as (s0 : option string * option string * option string) (w : World) : Prop := settings (disk w) = s0.

(** [t] fills the roles and Kea is not told to be silent. *)
Definition in_force (t : stack) (w : World) : Prop := current (app w) = t /\ quiesced (app w) = false.

(** Everything says [t]. *)
Definition recorded (t : stack) (w : World) : Prop :=
  settings (disk w) = (Some (stack_name t), None, Some (stack_name t)) /\ marker (disk w) = None.

Definition setting_is (s0 : option string) (t : stack) (w : World) : Prop :=
  backend_stack (disk w) = s0 \/ backend_stack (disk w) = Some (stack_name t).

Section Outcome.
Context (env : nat -> Moment) (cfg : Config) (zones : list string) (dns_port : option Z) (startedAt : string).
Context (s0 : option string * option string * option string).

Lemma saved_as_stable : stable (saved_as s0).
Proof. done. Qed.

Lemma in_force_stable t : stable (in_force t).
Proof. done. Qed.

Ltac disk_leaf st :=
  first [ exact st
        | apply keeps_read_families, stable_any; exact st
        | apply keeps_zone_answers, stable_any; exact st
        | apply keeps_kea_update; [apply stable_any; exact st|intros ? ? H; exact H]
        | assumption ].

(** ** Nothing is recorded before the last phase *)

Definition unsaved (w : World) : Prop := saved_as s0 w /\ uncommitted w.

Lemma direction_unsaved t :
  keeps unsaved (match t with S_pdns_kea => toPdnsKea env cfg zones dns_port startedAt
                            | S_dnsmasq => toDnsmasq env cfg zones dns_port startedAt end).
Proof.
  apply keeps_and; [|destruct t; [apply toDnsmasq_uncommitted|apply toPdnsKea_uncommitted]].
  destruct t; walk ltac:(disk_leaf saved_as_stable).
Qed.

Definition serving_both (w : World) : Prop := quiesced (app w) = false.

Lemma toPdnsKea_in_force :
  triple serving_both (toPdnsKea env cfg zones dns_port startedAt) (fun _ => in_force S_pdns_kea) (fun _ => True) (fun _ => True).
Proof.
  unfold toPdnsKea. assert (stable serving_both) as Hs by done.
  do 19 (apply triple_keep; [walk ltac:(disk_leaf Hs)|done|done|intros ?]).
  apply (triple_bind _ (fun _ => in_force S_pdns_kea)); [by intros w H|]. intros [].
  apply triple_kept; [walk ltac:(disk_leaf (in_force_stable S_pdns_kea))|done|done|done].
Qed.

Lemma toDnsmasq_in_force :
  triple (fun _ => True) (toDnsmasq env cfg zones dns_port startedAt) (fun _ => in_force S_dnsmasq) (fun _ => True) (fun _ => True).
Proof.
  unfold toDnsmasq. do 19 (apply triple_keep; [apply keeps_true|done|done|intros ?]).
  apply (triple_bind _ (fun _ => is_current S_dnsmasq)); [by intros w H|]. intros [].
  apply triple_keep; [walk ltac:(disk_leaf (is_current_stable S_dnsmasq))|done|done|intros []].
  apply (triple_bind _ (fun _ => in_force S_dnsmasq)); [by intros w H|]. intros [].
  apply triple_kept; [walk ltac:(disk_leaf (in_force_stable S_dnsmasq))|done|done|done].
Qed.

Lemma direction_in_force t :
  triple serving_both (match t with S_pdns_kea => toPdnsKea env cfg zones dns_port startedAt
                                  | S_dnsmasq => toDnsmasq env cfg zones dns_port startedAt end)
    (fun _ => in_force t) (fun _ => True) (fun _ => True).
Proof. destruct t; [eapply triple_conseq; [exact toDnsmasq_in_force|done..]|exact toPdnsKea_in_force]. Qed.

(** ** The last phase *)

(** What a failure leaves for [switch_failed]: nothing recorded yet, or the
    target in force in the last phase. *)
Definition stopped_at (t : stack) (w : World) : Prop :=
  unsaved w \/ (st_phase (st (app w)) = P_commit /\ in_force t w /\ setting_is (fst (fst s0)) t w).

Definition maybe (t : stack) (w : World) : Prop := setting_is (fst (fst s0)) t w.

Lemma saved_maybe t w : saved_as s0 w -> maybe t w.
Proof. intros H. left. rewrite <- H. done. Qed.

Definition committing (t : stack) (w : World) : Prop := st_phase (st (app w)) = P_commit /\ in_force t w.

Lemma commit_records t :
  triple (fun w => committing t w /\ saved_as s0 w) (commit env (stack_name t))
    (fun _ w => in_force t w /\ recorded t w) (stopped_at t) (maybe t).
Proof.
  assert (forall w, committing t w /\ maybe t w -> stopped_at t w) as Hx by (intros w [[]]; right; done).
  assert (forall w, committing t w /\ maybe t w -> maybe t w) as Hd by (by intros w []).
  unfold commit, upsertStack, deleteLegacy, writeStackFile, clearMarker.
  apply (triple_bind _ (fun _ w => (committing t w /\ maybe t w) /\ backend_stack (disk w) = Some (stack_name t))).
  { apply triple_keep.
    - walk ltac:(done).
    - intros w [Hc H]. apply Hx. split; [done|by apply saved_maybe].
    - intros w [Hc H]. by apply saved_maybe.
    - intros [] w [Hc H]. split; [split; [done|by right]|done]. }
  intros []. eapply (triple_bind _ (fun _ w => (committing t w /\ maybe t w) /\ backend_stack (disk w) = Some (stack_name t) /\ dhcp_backend (disk w) = None)).
  { apply triple_keep; [walk ltac:(done)|intros w [H _]; by apply Hx|intros w [H _]; by apply Hd|]. intros [] w [H Hb]. split; [exact H|done]. }
  intros []. eapply (triple_bind _ (fun _ w => (committing t w /\ maybe t w) /\ settings (disk w) = (Some (stack_name t), None, Some (stack_name t)))).
  { apply triple_keep; [walk ltac:(done)|intros w [H _]; by apply Hx|intros w [H _]; by apply Hd|]. intros [] w (H & Hb & Hl).
    split; [exact H|]. unfold settings. cbn. by rewrite Hb, Hl. }
  intros []. apply triple_keep; [walk ltac:(done)|intros w [H _]; by apply Hx|intros w [H _]; by apply Hd|].
  intros [] w [[[_ Hf] _] H]. split; [exact Hf|split; [exact H|done]].
Qed.

Lemma body_outcome from t :
  triple (fun w => unsaved w /\ serving_both w) (switch_body env cfg zones dns_port startedAt from t)
    (fun _ w => in_force t w /\ recorded t w) (stopped_at t) (maybe t).
Proof.
  assert (forall w, unsaved w -> stopped_at t w) as Hx by by left.
  assert (forall w, unsaved w -> maybe t w) as Hd by (by intros w [H _]; apply saved_maybe).
  unfold switch_body.
  do 2 (apply triple_keep; [walk ltac:(first [done|assumption])|intros w [H _]; by apply Hx|intros w [H _]; by apply Hd|intros []]).
  apply (triple_bind _ (fun _ w => unsaved w /\ in_force t w)).
  - intros w [Hu Hs]. pose proof (direction_unsaved t w Hu) as H. pose proof (direction_in_force t w Hs) as H'.
    match type of H with unsaved (snd ?r) => destruct r as [[]] end; [done|by apply Hx|by apply Hd].
  - intros moved. apply (triple_bind _ (fun _ w => committing t w /\ saved_as s0 w)).
    { intros w [[Hs _] Hf]. split; [split; [done|exact Hf]|exact Hs]. }
    intros []. eapply triple_bind; [apply commit_records|]. intros [] w H. exact H.
Qed.

(** ** A failure puts the source back *)

Lemma rollback_restores t :
  triple (saved_as s0) (match t with S_pdns_kea => rollBackToDnsmasq env cfg | S_dnsmasq => rollBackToPdnsKea env cfg end)
    (fun _ w => saved_as s0 w /\ in_force (other t) w) (saved_as s0) (saved_as s0).
Proof.
  assert (forall s, stable (fun w => saved_as s0 w /\ in_force s w)) as Hst by done.
  assert (forall s w, saved_as s0 w /\ in_force s w -> saved_as s0 w) as Hs by (by intros s w []).
  destruct t; unfold rollBackToDnsmasq, rollBackToPdnsKea.
  - do 2 (apply triple_keep; [walk ltac:(disk_leaf saved_as_stable)|done|done|intros ?]).
    apply (triple_bind _ (fun _ w => saved_as s0 w /\ is_current S_pdns_kea w)); [by intros w H|]. intros [].
    apply (triple_bind _ (fun _ w => saved_as s0 w /\ in_force S_pdns_kea w)); [by intros w [H Hc]|]. intros [].
    apply triple_kept; [walk ltac:(disk_leaf (Hst S_pdns_kea))|done|apply Hs|apply Hs].
  - apply triple_keep; [walk ltac:(disk_leaf saved_as_stable)|done|done|intros leases].
    apply (triple_bind _ (fun _ w => saved_as s0 w /\ is_current S_dnsmasq w)); [by intros w H|]. intros [].
    apply (triple_bind _ (fun _ w => saved_as s0 w /\ in_force S_dnsmasq w)); [by intros w [H Hc]|]. intros [].
    apply triple_kept; [walk ltac:(disk_leaf (Hst S_dnsmasq))|done|apply Hs|apply Hs].
Qed.

(** What [switch_failed] reports is so. *)
Definition reported (t : stack) (e : SwitchError) (w : World) : Prop :=
  (e_phase e = P_commit /\ in_force t w /\ maybe t w) \/
  (e_phase e <> P_commit /\ saved_as s0 w /\
   (rollbackError e = None -> in_force (other t) w /\ marker (disk w) = None)).

Lemma failed_outcome t message :
  triple (stopped_at t) (switch_failed env cfg t message) (reported t) (fun _ => False) (maybe t).
Proof.
  intros w Hw. unfold switch_failed, mbind at 1, M_bind at 1, get_st, gets at 1.
  assert (forall p, p <> P_commit -> triple (saved_as s0) (rollbackError ← try_catch
        (match t with S_pdns_kea => rollBackToDnsmasq env cfg | S_dnsmasq => rollBackToPdnsKea env cfg end ;;
         clearMarker env ;; mret None) (fun e => mret (Some e)); mret (mkError p message true rollbackError))
        (reported t) (fun _ => False) (maybe t)) as Hr.
  { intros p Hp. apply (triple_bind _ (fun r w => saved_as s0 w /\ (r = None -> in_force (other t) w /\ marker (disk w) = None))).
    - eapply (triple_catch _ _ _ (saved_as s0)); [|by intros e v Hv].
      eapply triple_bind; [eapply triple_conseq; [apply rollback_restores|done|intros a v H; exact H|done|apply saved_maybe]|].
      intros []. unfold clearMarker. apply (triple_bind _ (fun _ w => (saved_as s0 w /\ in_force (other t) w) /\ marker (disk w) = None)).
      + apply triple_keep; [walk ltac:(done)|by intros v []|by intros v [H _]; apply saved_maybe|]. by intros [] v H.
      + intros [] v [[H Hf] Hm]. done.
    - intros r v [H Hn]. right. done. }
  destruct Hw as [[Hs Hu]|[Hp H]].
  - destruct (st_phase (st (app w))) eqn:Ep; try (by apply Hr). done.
  - rewrite Hp. left. done.
Qed.

(** ** The holds are taken once *)

Definition held_by (h k : nat) (w : World) : Prop := hook_holds (app w) = h /\ sync_holds (app w) = k.

Lemma held_by_stable h k : stable (held_by h k).
Proof. done. Qed.

Ltac holds_keep h k := walk ltac:(disk_leaf (held_by_stable h k)).

Lemma take_holds_once h k :
  triple (held_by h k) (take_holds env) (fun _ => held_by (S h) (S k)) (fun _ => False) (fun _ => True).
Proof.
  unfold take_holds. apply (triple_bind _ (fun _ => held_by (S h) k)); [intros w [H1 H2]; split; cbn; congruence|]. intros [].
  apply triple_ask; [done| |done]. intros a.
  apply (triple_bind _ (fun _ => held_by (S h) (S k))); [intros w [H1 H2]; split; cbn; congruence|]. intros [].
  apply triple_ask; [done|intros a'; apply (triple_ret (fun _ => held_by (S h) (S k)))|done].
Qed.

Lemma whole_holds from t h k :
  triple (held_by h k)
    (try_catch (m ← switch_body env cfg zones dns_port startedAt from t; mret (inl m))
       (fun e => s ← switch_failed env cfg t e; mret (inr s)))
    (fun _ => held_by (S h) (S k)) (fun _ => True) (fun _ => True).
Proof.
  eapply (triple_catch _ _ _ (held_by (S h) (S k))).
  - unfold switch_body. eapply triple_bind.
    + eapply triple_bind; [eapply triple_conseq; [apply take_holds_once|done|intros a w H; exact H|done|done]|].
      intros []. apply triple_kept; [|intros a w H; exact H|done|done]. destruct t; holds_keep (S h) (S k).
    + intros m. apply (triple_ret (fun _ => held_by (S h) (S k))).
  - intros e. apply triple_kept; [|done|done|done]. apply keeps_bind; [|intros; apply keeps_ret].
    destruct t; holds_keep (S h) (S k).
Qed.
End Outcome.

(** No switch is under way, and the holds taken for this one are released. *)
Definition released (w w' : World) : Prop :=
  switching (app w') = false /\ hook_holds (app w') = hook_holds (app w) /\ sync_holds (app w') = sync_holds (app w).

Definition not_done (t : stack) (e : SwitchError) (w w' : World) : Prop :=
  if decide (e_phase e = P_commit)
  then in_force t w' /\ setting_is (backend_stack (disk w)) t w'
  else settings (disk w') = settings (disk w) /\
       (rollbackError e = None -> in_force (current (app w)) w' /\ marker (disk w') = None).

Lemma switch_outcome env cfg installed_error zones dns_port startedAt target w :
  quiesced (app w) = false ->
  let '(r, w') := switchStack env cfg installed_error zones dns_port startedAt target w in
  match r with
  | Done (inl _) => released w w' /\ exists t, stack_of target = Some t /\ in_force t w' /\ recorded t w'
  | Done (inr e) => w' = w \/ (released w w' /\ exists t, stack_of target = Some t /\ not_done t e w w')
  | Thrown _ => False
  | Crashed => exists t, stack_of target = Some t /\ setting_is (backend_stack (disk w)) t w'
  end.
Proof.
  intros Hq. unfold switchStack.
  destruct (blocked installed_error (app w) target) eqn:Hb; [by left|].
  destruct (stack_of target) as [t|] eqn:Ht; [|by left].
  pose proof (blocked_other _ _ _ _ Hb Ht) as Ho. cbv zeta. set (w0 := on_app _ (on_app _ w)).
  set (s0 := settings (disk w)). set (whole := try_catch _ _).
  assert (triple (fun w => unsaved s0 w /\ serving_both w) whole
    (fun r w => match r with inl _ => in_force t w /\ recorded t w | inr e => reported s0 t e w end) (fun _ => False) (maybe s0 t)) as H.
  { eapply triple_catch.
    - eapply triple_bind; [apply body_outcome|]. intros m v Hv. exact Hv.
    - intros e. eapply triple_bind; [apply failed_outcome|]. intros s v Hv. exact Hv. }
  assert (unsaved s0 w0 /\ serving_both w0) as Hw0 by (split; [split; [reflexivity|discriminate]|exact Hq]). specialize (H w0 Hw0).
  pose proof (whole_holds env cfg zones dns_port startedAt (current (app w)) t (hook_holds (app w)) (sync_holds (app w)) w0 (conj eq_refl eq_refl)) as Hh.
  fold whole in Hh. destruct (whole w0) as [[[m|e]|e|] w']; [| |done|by exists t].
  - destruct Hh as [Hh Hk]. split; [|by exists t]. split_and!; cbn; by rewrite ?Hh, ?Hk.
  - destruct Hh as [Hh Hk]. right. split; [split_and!; cbn; by rewrite ?Hh, ?Hk|]. exists t. split; [done|].
    unfold not_done. destruct H as [(Hp & Hf & Hm)|(Hp & Hs & Hn)].
    + rewrite decide_True by done. done.
    + rewrite decide_False by done. split; [exact Hs|]. rewrite Ho. exact Hn.
Qed.

Lemma switch_crash_setting env cfg installed_error zones dns_port startedAt target w w' :
  quiesced (app w) = false ->
  switchStack env cfg installed_error zones dns_port startedAt target w = (Crashed, w') ->
  exists t, stack_of target = Some t /\ setting_is (backend_stack (disk w)) t w'.
Proof. intros Hq E. pose proof (switch_outcome env cfg installed_error zones dns_port startedAt target w Hq) as H. by rewrite E in H. Qed.

(** C13. A switch happens or it does not, whatever the environment does. One that
    returns leaves the target in force, in the settings and in the file, with
    no marker. One that fails before it records anything leaves the settings
    alone and, unless it reports that the rollback failed too, the source in
    force with no marker; in the last phase the target stays. A crash leaves
    the setting naming one of the two. Nothing else is thrown, and the holds
    are released. *)
Theorem switch_all_or_nothing env cfg installed_error zones dns_port startedAt target w :
  quiesced (app w) = false ->
  let '(r, w') := switchStack env cfg installed_error zones dns_port startedAt target w in
  match r with
  | Done (inl _) => released w w' /\ exists t, stack_of target = Some t /\ in_force t w' /\ recorded t w'
  | Done (inr e) => w' = w \/ (released w w' /\ exists t, stack_of target = Some t /\ not_done t e w w')
  | Thrown _ => False
  | Crashed => exists t, stack_of target = Some t /\ setting_is (backend_stack (disk w)) t w'
  end.
Proof. exact (switch_outcome env cfg installed_error zones dns_port startedAt target w). Qed.

(** A crash once Kea has the leases. *)
Lemma switch_all_or_nothing_witness :
  quiesced (app some_world) = false /\
  let '(r, w') := run 25 [] "pdns-kea" some_world in
  r = Crashed /\ setting_is (Some "dnsmasq") S_pdns_kea w'.
Proof.
  split; [reflexivity|].
  pose proof (switch_all_or_nothing (calm 25) (some_config []) nothing_missing [] None "now" "pdns-kea" some_world eq_refl) as H.
  unfold run. destruct (switchStack _ _ _ _ _ _ _ some_world) as [r w'] eqn:E.
  assert (r = Crashed) as ->.
  { replace r with (fst (switchStack (calm 25) (some_config []) nothing_missing [] None "now" "pdns-kea" some_world)) by (by rewrite E).
    vm_compute. reflexivity. }
  split; [reflexivity|]. destruct H as (t & [= <-] & H). exact H.
Defined.
