(* ===== verification/StackSwitchBoot.v ===== *)
(** * Boot after a switch of the stack, interrupted or not

    [selectStackAtBoot] of [StackSwitch]: the setting decides, everything else
    is brought in line with it, and dnsmasq is kept down beside PowerDNS and
    Kea. With the theorem of [StackSwitchOutcome] on crashes, a program that
    dies anywhere in a switch comes back on one of the two stacks. *)

From stdpp Require Import functions.
From S2P Require Import Prelude JsString Duid Radvd Leases Daemons StackSwitch StackSwitchFacts StackSwitchServing StackSwitchOutcome.

#[local] Hint Unfold try_stop stopOutside carryKeaLeasesToDnsmasq : programs.

Section Boot.
Context (env : nat -> Moment) (cfg : Config) (installed_error : backend -> option string) (startedAt : string)
  (stored_leases : Host -> list BackendLease).

Lemma choose_named d s :
  backend_stack d = Some (stack_name s) -> stackInstalled installed_error s = None ->
  choose_stack installed_error d = (s, false, None).
Proof. intros Hd Hi. unfold choose_stack. rewrite Hd. destruct s; cbn; by rewrite Hi. Qed.

Definition named (s : stack) (w : World) : Prop := backend_stack (disk w) = Some (stack_name s).

Lemma named_stable s : stable (named s).
Proof. done. Qed.

(** The setting names the stack through all of boot. *)
Lemma boot_keeps_setting s :
  stackInstalled installed_error s = None ->
  keeps (named s) (selectStackAtBoot env cfg installed_error startedAt stored_leases).
Proof.
  intros Hi. unfold selectStackAtBoot. apply keeps_gets. intros w Hw. rewrite (choose_named _ s Hw Hi). cbv zeta iota.
  walk ltac:(first [exact (named_stable s)|reflexivity|assumption]).
Qed.

(** What boot leaves: the stack in force, everything that names it agreeing
    and no marker. *)
Definition booted (s : stack) (w : World) : Prop :=
  current (app w) = s /\ settings (disk w) = (Some (stack_name s), None, Some (stack_name s)) /\
  marker (disk w) = None /\ legacy_marker (disk w) = None.

Lemma booted_stable s : stable (booted s).
Proof. done. Qed.

(** One service stopped, what goes wrong only logged. *)
Lemma try_stop_dnsmasq : triple (fun _ => True) (try_stop env B_dnsmasq) (fun _ => off_or Dnsmasq) (fun _ => False) (fun _ => True).
Proof.
  unfold try_stop. eapply (triple_catch _ _ _ troubled).
  - eapply triple_bind; [eapply triple_conseq; [apply (stop_service_holds env B_dnsmasq Dnsmasq); [done|set_solver]|done|intros a w H; exact H|done|done]|].
    intros []. apply (await_service_off env B_dnsmasq Dnsmasq); [done|set_solver].
  - intros e w Hw. by right.
Qed.

Lemma stopOutside_dnsmasq :
  triple (fun _ => True) (stopOutside env cfg S_pdns_kea) (fun _ => off_or Dnsmasq) (fun _ => True) (fun _ => True).
Proof.
  unfold stopOutside, allBackends. cbn [each]. eapply triple_bind.
  - rewrite bool_decide_false by set_solver. apply triple_ask; [done| |done]. intros a. apply triple_gets. intros w _.
    rewrite bool_decide_false by (intros H; by apply H). cbn [andb].
    eapply triple_conseq; [exact try_stop_dnsmasq|done|intros b v H; exact H|done|done].
  - intros []. rewrite !bool_decide_true by set_solver. by repeat (intros w Hw).
Qed.

Lemma boot_serves s :
  stackInstalled installed_error s = None ->
  triple (named s) (selectStackAtBoot env cfg installed_error startedAt stored_leases)
    (fun r w => boot_stack r = s /\ booted s w /\ (s = S_pdns_kea -> off_or Dnsmasq w)) (fun _ => True) (fun _ => True).
Proof.
  intros Hi. unfold selectStackAtBoot. apply triple_gets. intros w Hw. rewrite (choose_named _ s Hw Hi). cbv zeta iota. clear w Hw.
  apply triple_keep; [apply keeps_ret|done|done|intros []].
  apply triple_gets. intros v _. apply triple_gets. intros v' _.
  generalize (marker (disk v)) (legacy_marker (disk v')). intros m lm.
  unfold clearMarker, deleteLegacy, writeStackFile.
  apply (triple_bind _ (fun _ w => named s w /\ marker (disk w) = None)).
  { apply triple_keep; [walk ltac:(exact (named_stable s))|done|done|]. by intros [] w H. }
  intros []. apply triple_keep; [walk ltac:(done)|done|done|intros []].
  apply (triple_bind _ (fun _ w => named s w /\ marker (disk w) = None /\ legacy_marker (disk w) = None)); [by intros w []|].
  intros []. apply triple_keep; [apply keeps_ret|done|done|intros []].
  apply (triple_bind _ (fun _ w => current (app w) = s /\ named s w /\ marker (disk w) = None /\ legacy_marker (disk w) = None)); [by intros w H|].
  intros []. apply triple_gets. intros u (_ & Hu & _). rewrite bool_decide_true by exact Hu.
  apply triple_keep; [apply keeps_ret|done|done|intros []].
  apply (triple_bind _ (fun _ w => current (app w) = s /\ (named s w /\ dhcp_backend (disk w) = None) /\ marker (disk w) = None /\ legacy_marker (disk w) = None)).
  { apply triple_keep; [walk ltac:(done)|done|done|]. by intros [] w (? & ? & ? & ?). }
  intros []. apply (triple_bind _ (fun _ => booted s)).
  { apply triple_keep; [walk ltac:(done)|done|done|]. intros [] w (Hc & [Hn Hd] & Hm). split; [exact Hc|]. split; [|exact Hm].
    unfold settings. cbn. by rewrite Hn, Hd. }
  intros []. apply (triple_bind _ (fun _ w => booted s w /\ (s = S_pdns_kea -> off_or Dnsmasq w))).
  { assert (keeps (booted s) (stopOutside env cfg s)) as Hk by (walk ltac:(first [exact (booted_stable s)|assumption])).
    intros w Hw. specialize (Hk w Hw). destruct s.
    - destruct (stopOutside _ _ _ w) as [[]]; done.
    - pose proof (stopOutside_dnsmasq w I) as H. destruct (stopOutside _ _ _ w) as [[]]; done. }
  intros [] w [Hb Ho]. destruct m as [m|]; [|destruct lm]; unfold mbind, M_bind, modify, mret, M_ret; cbn.
  - destruct (String.eqb (m_to m) (stack_name s)); (split; [done|split; [exact Hb|exact Ho]]).
  - split; [done|split; [exact Hb|exact Ho]].
  - split; [done|split; [exact Hb|exact Ho]].
Qed.
End Boot.

(** C14. A program that dies anywhere in a switch comes back on the source or on
    the target: the boot that follows, once it ends, has one of the two in
    force, the settings and the file agree with it, no marker is left, and
    beside PowerDNS and Kea dnsmasq is down for good, or a daemon did not
    stop. A boot that does not end leaves the setting as it was. *)
Theorem boot_after_crash env env' cfg installed_error zones dns_port startedAt bootedAt stored_leases target w :
  quiesced (app w) = false -> backend_stack (disk w) = Some (stack_name (current (app w))) ->
  (forall s, stackInstalled installed_error s = None) ->
  let '(r, w') := switchStack env cfg installed_error zones dns_port startedAt target w in
  r = Crashed ->
  exists s, (s = current (app w) \/ stack_of target = Some s) /\
  let '(b, w'') := selectStackAtBoot env' cfg installed_error bootedAt stored_leases (reboot w') in
  backend_stack (disk w'') = Some (stack_name s) /\
  match b with
  | Done rec => boot_stack rec = s /\ booted s w'' /\ (s = S_pdns_kea -> off_or Dnsmasq w'')
  | _ => True
  end.
Proof.
  intros Hq Hset Hinst.
  destruct (switchStack env cfg installed_error zones dns_port startedAt target w) as [r w'] eqn:E. intros ->.
  assert (exists s, (s = current (app w) \/ stack_of target = Some s) /\ named s w') as (s & Hs & Hn).
  { destruct (switch_crash_setting env cfg installed_error zones dns_port startedAt target w w' Hq E) as (t & Ht & [H|H]).
    - exists (current (app w)). split; [by left|]. unfold named. by rewrite H.
    - exists t. split; [by right|exact H]. }
  exists s. split; [exact Hs|].
  pose proof (boot_keeps_setting env' cfg installed_error bootedAt stored_leases s (Hinst s) (reboot w') Hn) as Hk.
  pose proof (boot_serves env' cfg installed_error bootedAt stored_leases s (Hinst s) (reboot w') Hn) as Hb.
  destruct (selectStackAtBoot _ _ _ _ _ _) as [[]]; done.
Qed.

Definition no_stored (_ : Host) : list BackendLease := [].

Definition boot (cfg : Config) (w : World) : Res Recovered * World :=
  selectStackAtBoot (calm 999) cfg nothing_missing "later" no_stored (reboot w).

(** The program dies with Kea already serving; boot goes back to dnsmasq. *)
Lemma boot_after_crash_witness :
  let '(r, w') := run 25 [] "pdns-kea" some_world in
  r = Crashed /\
  let '(b, w'') := boot (some_config []) w' in
  b = Done (mkRecovered S_dnsmasq (Some (mkMarker "dnsmasq" "pdns-kea" (Some "handover/now.json"), false))) /\
  booted S_dnsmasq w''.
Proof.
  pose proof (boot_after_crash (calm 25) (calm 999) (some_config []) nothing_missing [] None "now" "later" no_stored
    "pdns-kea" some_world eq_refl eq_refl ltac:(by intros [])) as H.
  unfold run, boot. destruct (switchStack _ _ _ _ _ _ _ some_world) as [r w'] eqn:E.
  assert (r = Crashed) as ->.
  { replace r with (fst (switchStack (calm 25) (some_config []) nothing_missing [] None "now" "pdns-kea" some_world)) by (by rewrite E).
    vm_compute. reflexivity. }
  split; [reflexivity|]. destruct (H eq_refl) as (s & _ & Hs).
  destruct (selectStackAtBoot (calm 999) _ _ _ _ (reboot w')) as [b w''] eqn:E'.
  assert (b = Done (mkRecovered S_dnsmasq (Some (mkMarker "dnsmasq" "pdns-kea" (Some "handover/now.json"), false)))) as ->.
  { replace b with (fst (boot (some_config []) (snd (run 25 [] "pdns-kea" some_world)))) by (unfold boot, run; rewrite E; cbn [snd]; by rewrite E').
    vm_compute. reflexivity. }
  split; [reflexivity|]. destruct Hs as (_ & Hs & Hb & _). simpl in Hs. by subst s.
Defined.

(** A Kea of which one daemon runs is not "running", so boot on dnsmasq leaves
    that daemon answering. *)
Definition half_kea : World :=
  on_host (fun h => set_units h (fun d => bool_decide (d = Kea V4)) (fun d => negb (bool_decide (d = Kea V4)))
    (fun _ => false) (fun f => bool_decide (f = V4)) false) some_world.
Definition both_families : Config := mkConfig [V4; V6] true false [] (some_kea 3600 1790000000500) 1790000000500.

Example half_kea_left :
  let '(b, w') := boot both_families half_kea in
  (b, up (host w') (Kea V4), kea_loaded (host w') V4, trouble (host w')) =
  (Done (mkRecovered S_dnsmasq None), true, true, false).
Proof. vm_compute. reflexivity. Qed.
