(* ===== verification/StackSwitchLeases.v ===== *)
(** * The leases come along to Kea

    While a stack switch moves DHCP from dnsmasq to Kea: the lease file read
    is the final one, and Kea ends with exactly the leases it accepted of it,
    the rest reported. *)

From stdpp Require Import functions.
From S2P Require Import Prelude JsString Duid Radvd Leases Daemons StackSwitch StackSwitchFacts StackSwitchServing.

(** The elements a list of answers marks. *)
Fixpoint pick {A} (marks : list bool) (l : list A) : list A :=
  match marks, l with
  | b :: marks, x :: l => if b then x :: pick marks l else pick marks l
  | _, _ => []
  end.

(** What dnsmasq's lease file says: none is no leases. *)
Definition file_holds (file : option string) (leases : list BackendLease) : Prop :=
  match file with
  | None => leases = []
  | Some text => exists content, readSettledLeaseFile (repeat (Some text) 5) = Some content /\ parseLeaseFile content = Ok (Some leases)
  end.

(** Kea changes no lease of its own during the switch. *)
Definition no_lease_drift (env : nat -> Moment) : Prop := forall n f l, ChangesLeases f l ∉ drift (env n).

Section Moving.
Context (env : nat -> Moment) (cfg : Config) (zones : list string) (dns_port : option Z) (startedAt : string).

(** ** The file that is read is final *)

Definition off_with (leases : list BackendLease) (w : World) : Prop :=
  off (host w) Dnsmasq /\ file_holds (lease_file (host w)) leases.
Definition final (leases : list BackendLease) (w : World) : Prop := off_with leases w \/ troubled w.

Lemma happen_lease_file h e : up h Dnsmasq = false -> lease_file (happen h e) = lease_file h.
Proof. intros H. destruct e; simpl; rewrite ?H; repeat case_match; done. Qed.

Lemma off_with_stable leases : stable (off_with leases).
Proof.
  split; [|done]. intros w e [Ho Hf]. split; [by apply off_stable|]. cbn. rewrite happen_lease_file by apply Ho. exact Hf.
Qed.

Lemma final_stable leases : stable (final leases).
Proof. split; [|done]. intros w e [H|H]; [left; by apply off_with_stable|right; by apply troubled_stable]. Qed.

(** What one read reports of the file at that moment. *)
Definition reads (file : option string) (r : reading) : Prop :=
  match r with Leases l => file_holds file l | Absent => file = None | Unsettled => True end.

Lemma read_spec :
  triple (off_or Dnsmasq) (dnsmasq_readLeases env) (fun r w => off_or Dnsmasq w /\ reads (lease_file (host w)) r)
    (fun _ => True) (fun _ => True).
Proof.
  unfold dnsmasq_readLeases. apply triple_ask; [by apply off_or_stable| |done]. intros a w Hw.
  unfold mbind, M_bind, gets, throw, mret, M_ret, lift. cbv beta iota.
  destruct (lease_file (host w)) as [text|] eqn:Ef; [|split; [done|by rewrite Ef]].
  destruct (if (a =? 0)%nat then readSettledLeaseFile (repeat (Some text) 5) else None) as [content|] eqn:Er; [|split; [exact Hw|exact I]].
  destruct (a =? 0)%nat; [|done]. destruct (parseLeaseFile content) as [[leases|]|e] eqn:Ep; cbn; [|split; [exact Hw|exact I]|done].
  split; [done|]. rewrite Ef. by exists content.
Qed.

Lemma settled_spec n :
  triple (off_or Dnsmasq) (settledLeases (dnsmasq_readLeases env) n) final (fun _ => True) (fun _ => True).
Proof.
  induction n as [|n IH]; simpl; [done|]. eapply triple_bind; [exact read_spec|]. intros [l| |].
  - intros w [[Ho|Ht] Hr]; [left|right]; done.
  - eapply triple_conseq; [exact IH|by intros w []|done..].
  - intros w [[Ho|Ht] Hr]; [left|right]; [|done]. split; [done|]. cbn in Hr. by rewrite Hr.
Qed.

(** ** What Kea holds *)

Definition kea_has (L : family -> list RawLease) (w : World) : Prop := forall f, kea_leases (host w) f = L f.

Context (Hdrift : no_lease_drift env).

Lemma happen_leases h e n : e ∈ drift (env n) -> kea_leases (happen h e) = kea_leases h.
Proof. intros He. destruct e as [d|d| |f l|]; simpl; try (repeat case_match; done). by destruct (Hdrift n f l). Qed.

Lemma kea_has_stable L : stable_in env (kea_has L).
Proof. split; [|done]. intros n w e He H f. cbn. erewrite happen_leases by exact He. apply H. Qed.

(** Every family cleared: each lease listed is removed by its address. *)
Definition drop (r : RawLease) (l : list RawLease) : list RawLease :=
  List.filter (fun x => negb (String.eqb (ip_address x) (ip_address r))) l.

Lemma drop_all raw l : (forall x, x ∈ l -> exists r, r ∈ raw /\ ip_address x = ip_address r) -> fold_left (fun l r => drop r l) raw l = [].
Proof.
  revert l. induction raw as [|r raw IH]; intros l H; simpl.
  - destruct l as [|x l]; [done|]. destruct (H x ltac:(by left)) as (r & Hr & _). by apply elem_of_nil in Hr.
  - apply IH. intros x Hx%list_elem_of_In. apply filter_In in Hx as [Hx Hn]. apply list_elem_of_In in Hx.
    destruct (H x Hx) as (r' & [->|Hr]%elem_of_cons & He); [|by exists r'].
    apply negb_true_iff, String.eqb_neq in Hn. done.
Qed.

Lemma kea_has_ext L L' w : (forall f, L f = L' f) -> kea_has L w -> kea_has L' w.
Proof. intros He H f. by rewrite <- He. Qed.

Ltac has_leaf L := first [ exact (kea_has_stable L) | assumption ].

Lemma clear_loop f raw L :
  triple (kea_has L)
    (each (fun r => kea_command env f "lease-del failed" ;;
       modify (on_host (fun h => set_kea_leases h
         (<[f := List.filter (fun x => negb (String.eqb (ip_address x) (ip_address r))) (kea_leases h f)]> (kea_leases h))))) raw)
    (fun _ => kea_has (<[f := fold_left (fun l r => drop r l) raw (L f)]> L)) (fun _ => True) (fun _ => True).
Proof.
  revert L. induction raw as [|r raw IH]; intros L; simpl.
  - intros w Hw. eapply kea_has_ext; [|exact Hw]. intros f'. destruct (decide (f = f')) as [<-|Hn];
      [by rewrite fn_lookup_insert|by rewrite fn_lookup_insert_ne].
  - apply (triple_bind _ (fun _ => kea_has (<[f := drop r (L f)]> L))).
    + apply triple_keep; [walk ltac:(has_leaf L)|done|done|]. intros [] w Hw f'. cbn.
      destruct (decide (f = f')) as [<-|Hn]; [by rewrite !fn_lookup_insert, Hw|by rewrite !fn_lookup_insert_ne].
    + intros []. eapply triple_conseq; [apply IH|done| |done|done]. intros a w. apply kea_has_ext. intros f'.
      destruct (decide (f = f')) as [<-|Hn]; [by rewrite !fn_lookup_insert|by rewrite !fn_lookup_insert_ne].
Qed.

Definition cleared (fs : list family) (w : World) : Prop := forall f, f ∈ fs -> kea_leases (host w) f = [].

Lemma clear_one f fs :
  triple (cleared fs) (kea_clear env f) (fun _ => cleared (f :: fs)) (fun _ => True) (fun _ => True).
Proof.
  intros w Hw. set (L := kea_leases (host w)). assert (kea_has L w) as HL by done.
  assert (triple (kea_has L) (kea_clear env f) (fun _ => kea_has (<[f := []]> L)) (fun _ => True) (fun _ => True)) as H.
  { unfold kea_clear. apply triple_keep; [walk ltac:(has_leaf L)|done|done|intros []].
    apply triple_gets. intros v Hv. eapply triple_conseq; [apply clear_loop|done| |done|done]. intros a u. apply kea_has_ext. intros f'.
    destruct (decide (f = f')) as [<-|Hn]; [rewrite !fn_lookup_insert|by rewrite !fn_lookup_insert_ne].
    rewrite Hv. apply drop_all. intros x Hx. by exists x. }
  specialize (H w HL). destruct (kea_clear env f w) as [[]]; [|done|done]. intros f' Hf. rewrite H.
  destruct (decide (f = f')) as [<-|Hn]; [by rewrite fn_lookup_insert|]. rewrite fn_lookup_insert_ne by done. apply Hw. set_solver.
Qed.

Lemma clear_families fs acc :
  triple (cleared acc) (each (kea_clear env) fs) (fun _ => cleared (rev fs ++ acc)) (fun _ => True) (fun _ => True).
Proof.
  revert acc. induction fs as [|f fs IH]; intros acc; simpl; [apply (triple_ret (fun _ => cleared acc))|].
  eapply triple_bind; [apply clear_one|]. intros []. rewrite <- app_assoc. apply IH.
Qed.

(** ** Each lease added, or reported *)

Definition taken_of (f : family) (leases : list BackendLease) : list RawLease :=
  map (fun l => stored cfg (keaLeaseArguments l (date_now cfg))) (List.filter (fun l => bool_decide (family_of l = f)) leases).

Lemma add_one l L :
  triple (kea_has L) (kea_add env cfg l)
    (fun r w => (r = None /\ kea_has (fun f => L f ++ taken_of f [l]) w) \/ (r = Some (ip l) /\ kea_has L w))
    (fun _ => False) (fun _ => True).
Proof.
  unfold kea_add. cbv zeta. eapply (triple_catch _ _ _ (kea_has L)); [|intros e w Hw; by right].
  apply triple_keep; [walk ltac:(has_leaf L)|done|done|intros []].
  intros w Hw. left. split; [done|]. intros f. cbn. unfold taken_of. cbn.
  destruct (decide (family_of l = f)) as [<-|Hn].
  - rewrite fn_lookup_insert, bool_decide_true by done. by rewrite Hw.
  - rewrite fn_lookup_insert_ne, bool_decide_false by done. cbn. rewrite Hw. by rewrite app_nil_r.
Qed.

(** The leases [marks] marks are held, the others refused. *)
Definition taken (L : family -> list RawLease) (leases : list BackendLease) (marks : list bool) (w : World) : Prop :=
  length marks = length leases /\ kea_has (fun f => L f ++ taken_of f (pick marks leases)) w.

Lemma add_all leases L :
  triple (kea_has L) (map_each (kea_add env cfg) leases)
    (fun refused w => exists marks, omap (fun o => o) refused = map ip (pick (map negb marks) leases) /\ taken L leases marks w)
    (fun _ => False) (fun _ => True).
Proof.
  revert L. induction leases as [|l leases IH]; intros L; simpl.
  - intros w Hw. exists []. split; [done|]. split; [done|]. intros f. cbn. by rewrite app_nil_r.
  - eapply triple_bind; [apply add_one|]. intros r w [[-> Hw]|[-> Hw]].
    + revert w Hw. eapply triple_bind; [apply IH|]. intros refused w (marks & Hr & Hl & Hh).
      exists (true :: marks). split; [exact Hr|]. split; [cbn; by rewrite Hl|]. intros f. cbn. rewrite Hh.
      rewrite <- app_assoc. f_equal. unfold taken_of. cbn. by case_bool_decide.
    + revert w Hw. eapply triple_bind; [apply IH|]. intros refused w (marks & Hr & Hl & Hh).
      exists (false :: marks). split; [cbn; by rewrite Hr|]. split; [cbn; by rewrite Hl|]. exact Hh.
Qed.

Lemma pick_lengths {A} (l : list A) : forall marks, length marks = length l ->
  (length (pick marks l) + length (pick (map negb marks) l) = length l)%nat.
Proof.
  induction l as [|x l IH]; intros [|[] marks] H; simpl in *; try done; injection H as H; specialize (IH _ H); lia.
Qed.

(** What the import did of what it reports. *)
Definition carried (leases : list BackendLease) (added : nat) (failed : list string) (w : World) : Prop :=
  exists marks, length marks = length leases /\ added = length (pick marks leases) /\
    failed = map ip (pick (map negb marks) leases) /\
    forall f, f ∈ families cfg -> kea_leases (host w) f = taken_of f (pick marks leases).

Lemma import_carries leases duid :
  triple (fun _ => True) (kea_importLeases env cfg leases duid)
    (fun imported => carried leases (added imported) (failed imported)) (fun _ => True) (fun _ => True).
Proof.
  unfold kea_importLeases. apply (triple_keep (fun _ => True)); [apply keeps_true|done|done|intros []].
  eapply triple_bind; [eapply triple_conseq; [apply (clear_families _ [])| |intros a w H; exact H|done|done]|].
  { intros w _ f Hf. by apply elem_of_nil in Hf. }
  intros [] w Hw. assert (exists L, kea_has L w /\ forall f, f ∈ families cfg -> L f = []) as (L & HL & Hn).
  { exists (kea_leases (host w)). split; [done|]. intros f Hf. apply Hw. rewrite app_nil_r.
    apply list_elem_of_In. rewrite <- in_rev. by apply list_elem_of_In. }
  clear Hw. revert w HL.
  change (triple (kea_has L) (refused ← map_each (kea_add env cfg) leases;
    let failed := omap (fun o => o) refused in mret (mkImport (length leases - length failed) failed))
    (fun imported => carried leases (added imported) (failed imported)) (fun _ => True) (fun _ => True)).
  eapply triple_bind; [eapply triple_conseq; [apply add_all|done|intros a w H; exact H|done|done]|].
  intros refused w (marks & Hr & Hl & Hh). cbv zeta. exists marks. cbn [added failed]. split_and!.
  - done.
  - rewrite Hr, length_map. pose proof (pick_lengths leases marks Hl). lia.
  - exact Hr.
  - intros f Hf. by rewrite Hh, Hn.
Qed.

(** ** The switch *)

Definition recorded_leases (leases : list BackendLease) (w : World) : Prop := st_leases (st (app w)) = Some leases.
Definition moving (leases : list BackendLease) (w : World) : Prop := recorded_leases leases w /\ final leases w.
Definition carried_in (leases : list BackendLease) (imported : Import) (w : World) : Prop :=
  carried leases (added imported) (failed imported) w.
Definition moved_all (leases : list BackendLease) (imported : Import) (w : World) : Prop :=
  moving leases w /\ carried_in leases imported w.

Lemma carried_stable leases imported : stable_in env (carried_in leases imported).
Proof.
  split; [|done]. intros n w e He (marks & Hl & Ha & Hf & Hh). exists marks. split_and!; try done.
  intros f Hin. cbn. erewrite happen_leases by exact He. by apply Hh.
Qed.

Lemma carried_same leases imported w w' :
  (forall f, kea_leases (host w') f = kea_leases (host w) f) -> carried_in leases imported w -> carried_in leases imported w'.
Proof. intros H (marks & Hl & Ha & Hf & Hh). exists marks. split_and!; try done. intros f Hin. rewrite H. by apply Hh. Qed.

Ltac plain_leaf st :=
  first [ exact st | exact (stable_any _ _ st)
        | apply keeps_read_families; first [exact st | apply stable_any; exact st]
        | apply keeps_zone_answers; first [exact st | apply stable_any; exact st]
        | apply keeps_kea_update; [first [exact st | apply stable_any; exact st]|intros ? ? H; exact H]
        | assumption
        | eapply carried_same; [intros; cbn; repeat case_match; reflexivity|eassumption] ].

Ltac off_with_leaf st :=
  first [ exact st
        | apply keeps_read_families, stable_any; exact st
        | apply keeps_zone_answers, stable_any; exact st
        | apply keeps_kea_update; [apply stable_any; exact st|intros ? ? H; exact H]
        | match goal with H : off_with _ _ |- _ =>
            destruct H as [H ?]; split; [off_leaf dnsmasq_off_stable|cbn; repeat case_match; assumption] end ].

Lemma recorded_leases_stable leases : stable (recorded_leases leases).
Proof. done. Qed.

Ltac moving_keep leases :=
  match goal with |- keeps _ ?m => change (keeps (fun w => recorded_leases leases w /\ (off_with leases w \/ troubled w)) m) end;
  apply keeps_and; [walk ltac:(plain_leaf (recorded_leases_stable leases))
                   |apply keeps_or; [walk ltac:(off_with_leaf (off_with_stable leases))|walk trouble_leaf]].

Ltac moved_keep leases imported :=
  match goal with |- keeps _ ?m => change (keeps (fun w => moving leases w /\ carried_in leases imported w) m) end;
  apply keeps_and; [moving_keep leases|walk ltac:(plain_leaf (carried_stable leases imported))].

Lemma toPdnsKea_moves :
  triple (fun _ => True) (toPdnsKea env cfg zones dns_port startedAt)
    (fun r w => exists leases, moved_all leases (fst r) w) (fun _ => True) (fun _ => True).
Proof.
  unfold toPdnsKea. do 9 (apply triple_keep; [apply keeps_true|done|done|intros []]).
  eapply triple_bind; [eapply triple_conseq; [exact (stopAll_dnsmasq env)|done|intros a w H; exact H|done|done]|]. intros [].
  apply (triple_bind _ (fun _ => off_or Dnsmasq)); [by intros w H|]. intros [].
  eapply triple_bind; [apply settled_spec|]. intros leases.
  apply (triple_bind _ (fun _ => moving leases)); [by intros w H|]. intros [].
  apply triple_keep; [moving_keep leases|done|done|intros duid].
  do 3 (apply triple_keep; [moving_keep leases|done|done|intros []]).
  apply (triple_bind _ (moved_all leases)).
  - assert (keeps (moving leases) (kea_importLeases env cfg leases duid)) as Hk by (moving_keep leases).
    intros w Hw. specialize (Hk w Hw). pose proof (import_carries leases duid w I) as H.
    destruct (kea_importLeases env cfg leases duid w) as [[]]; done.
  - intros imported. do 9 (apply triple_keep; [moved_keep leases imported|done|done|intros []]).
    apply triple_keep; [moved_keep leases imported|done|done|intros missing].
    apply triple_keep; [moved_keep leases imported|done|done|intros []].
    intros w Hw. by exists leases.
Qed.

(** What a switch reports of the leases is so. *)
Definition leases_reported (m : Moved) (w : World) : Prop :=
  exists leases, final leases w /\ moved_leases m = length leases /\
    carried leases (moved_added m) (moved_failed m) w.

Lemma body_moves from :
  triple (fun _ => True) (switch_body env cfg zones dns_port startedAt from S_pdns_kea) leases_reported (fun _ => True) (fun _ => True).
Proof.
  unfold switch_body. do 2 (apply triple_keep; [apply keeps_true|done|done|intros []]).
  eapply triple_bind; [exact toPdnsKea_moves|]. intros moved w (leases & Hw). revert w Hw.
  change (triple (moved_all leases (fst moved)) (set_phase P_commit ;; commit env (stack_name S_pdns_kea) ;;
    s ← get_st; mret (mkMoved (length (leases_of s)) (added (fst moved)) (failed (fst moved)) (snd moved)))
    leases_reported (fun _ => True) (fun _ => True)).
  do 2 (apply triple_keep; [moved_keep leases (fst moved)|done|done|intros []]).
  apply triple_gets. intros v Hv w [[Hr Hf] Hc]. destruct Hv as [[Hv _] _]. exists leases.
  split; [exact Hf|]. unfold leases_of. cbn. rewrite Hv. split; [done|exact Hc].
Qed.
End Moving.

(** C15. A switch to PowerDNS and Kea that returns, with every daemon having
    stopped when told to and Kea changing no lease meanwhile, read the lease
    file as dnsmasq left it: its leases, in order, are each held by Kea as the
    control API was given them, or listed as refused; of the rest Kea holds
    none. *)
Theorem leases_come_along env cfg installed_error zones dns_port startedAt w m :
  no_lease_drift env ->
  fst (switchStack env cfg installed_error zones dns_port startedAt "pdns-kea" w) = Done (inl m) ->
  let w' := snd (switchStack env cfg installed_error zones dns_port startedAt "pdns-kea" w) in
  trouble (host w') = false ->
  exists leases marks,
    file_holds (lease_file (host w')) leases /\ length marks = length leases /\
    moved_leases m = length leases /\ moved_added m = length (pick marks leases) /\
    moved_failed m = map ip (pick (map negb marks) leases) /\
    forall f, f ∈ families cfg -> kea_leases (host w') f = taken_of cfg f (pick marks leases).
Proof.
  intros Hd. unfold switchStack. destruct (blocked _ _ _); [done|].
  change (stack_of "pdns-kea") with (Some S_pdns_kea). cbv zeta iota. set (w0 := on_app _ (on_app _ w)).
  assert (triple (fun _ => True) (try_catch (m ← switch_body env cfg zones dns_port startedAt (current (app w)) S_pdns_kea; mret (inl m))
     (fun e => s ← switch_failed env cfg S_pdns_kea e; mret (inr s)))
     (fun r w => match r with inl m => leases_reported cfg m w | inr _ => True end) (fun _ => True) (fun _ => True)) as H.
  { eapply (triple_catch _ _ _ (fun _ => True)).
    - eapply triple_bind; [by apply body_moves|]. intros m' v Hv. exact Hv.
    - intros e. eapply (triple_bind _ (fun _ _ => True)); [|by intros s v _].
      intros v _. by destruct (switch_failed _ _ _ _ v) as [[]]. }
  specialize (H w0 I). destruct (try_catch _ _ w0) as [[a|e|] w']; [|done|done]. cbn [fst snd]. intros [= ->] Ht.
  destruct H as (leases & [[_ Hf]|Hf] & Hm & marks & Hl & Ha & Hx & Hh).
  - exists leases, marks. split_and!; try done.
  - unfold troubled in Hf. cbn in Ht. by rewrite Hf in Ht.
Qed.

Lemma leases_come_along_witness :
  let w' := snd (switchStack (calm 999) (some_config []) nothing_missing [] None "now" "pdns-kea" some_world) in
  no_lease_drift (calm 999) /\ trouble (host w') = false /\
  exists leases, file_holds (lease_file (host w')) leases /\ length leases = 1%nat /\
    kea_leases (host w') V4 = taken_of (some_config []) V4 leases.
Proof.
  assert (no_lease_drift (calm 999)) as Hd by (intros n f l H; apply list_elem_of_singleton in H; discriminate).
  assert (trouble (host (snd (switchStack (calm 999) (some_config []) nothing_missing [] None "now" "pdns-kea" some_world))) = false) as Ht by (vm_compute; reflexivity).
  assert (fst (switchStack (calm 999) (some_config []) nothing_missing [] None "now" "pdns-kea" some_world) = Done (inl (mkMoved 1 1 [] []))) as Hm by (vm_compute; reflexivity).
  pose proof (leases_come_along (calm 999) (some_config []) nothing_missing [] None "now" some_world (mkMoved 1 1 [] []) Hd Hm Ht) as H.
  clear Hm. cbv zeta in *. revert Ht H. generalize (snd (switchStack (calm 999) (some_config []) nothing_missing [] None "now" "pdns-kea" some_world)). intros w' Ht (leases & marks & Hf & Hl & Hn & Ha & Hx & Hh).
  split; [exact Hd|]. split; [exact Ht|].
  assert (length leases = 1%nat) as H1 by (by rewrite <- Hn). exists leases. split; [exact Hf|]. split; [exact H1|].
  assert (pick marks leases = leases) as E.
  { clear - Hl Ha H1. cbn [moved_added] in Ha.
    destruct leases as [|l [|l' ls]], marks as [|b [|b' bs]]; try discriminate. destruct b; [done|discriminate]. }
  rewrite E in Hh. apply Hh. by left.
Defined.

(** ** The other direction: a reload that does not take *)

(** Act 49 of the second switch is the reload that tells Kea to listen
    nowhere; a failed one is only logged, and Kea goes on answering. *)
Definition raw_lease (address hw : string) : RawLease := mkRaw address 0 None (Some hw) None None None 3600 1790000000 None.
Definition deaf (n : nat) : Moment :=
  mkMoment false
    (if (n =? 59)%nat then [ChangesLeases V4 [raw_lease "10.60.0.9" "aa:bb:cc:00:00:09"; raw_lease "10.60.0.10" "aa:bb:cc:00:00:10"]] else [AuthAnswers])
    (if (n =? 49)%nat then 1 else 0).

(** The switch succeeds with nothing missing, and the lease Kea handed out
    after the read is not in dnsmasq's file. *)
Example late_lease_lost :
  let '(r, w') := switchStack deaf (some_config []) nothing_missing [] None "later" "dnsmasq" (snd (run 999 [] "pdns-kea" some_world)) in
  (r, up (host w') Dnsmasq, map ip_address (kea_leases (host w') V4), lease_file (host w')) =
  (Done (inl (mkMoved 1 1 [] [])), true, ["10.60.0.9"; "10.60.0.10"], lease_file some_host).
Proof. vm_compute. reflexivity. Qed.
