(* ===== verification/LeaseSync.v ===== *)
(** * When the DHCP leases are read: [server/src/services/dhcp-lease-sync.js]

    A sync reads the leases of the DHCP backend and stores them; it may take
    any time. One runs at a time, a change seen meanwhile is synced after it,
    and a switch of the DHCP server holds syncing, because the new server has
    no leases until they are handed over. This file models who may start a
    sync and when; what a sync stores is the subject of [IpService].

    An event is the call of a function of the module, or the end of the sync
    under way. [begun] and [unseen] are not variables of the program: they
    count the syncs begun and say whether a change was seen since the last of
    them began. *)

From S2P Require Import Prelude.

(** A call of [holdLeaseSync]: waiting for the sync under way, resolved with
    its release function, or released. *)
Inductive hold_call := Waiting | Held | Released.

#[export] Instance hold_call_eq_dec : EqDecision hold_call.
Proof. solve_decision. Defined.

Record State := mkState {
  syncDb : bool;              (** set by [startLeaseSync] *)
  running : bool;             (** the loop of [runLeaseSync] is awaiting a sync *)
  syncAgain : bool;
  holds : nat;
  skippedWhileHeld : bool;
  calls : list hold_call;     (** the calls of [holdLeaseSync], in order *)
  begun : nat;
  unseen : bool }.

Definition initial : State := mkState false false false 0 false [] 0 false.

(** An iteration of the loop up to its [await]. *)
Definition begin_sync (s : State) : State :=
  mkState (syncDb s) true false (holds s) (skippedWhileHeld s) (calls s) (S (begun s)) false.

Definition runLeaseSync (s : State) : State :=
  if (0 <? holds s)%nat
  then mkState (syncDb s) (running s) (syncAgain s) (holds s) true (calls s) (begun s) (unseen s)
  else if running s
  then mkState (syncDb s) true true (holds s) (skippedWhileHeld s) (calls s) (begun s) (unseen s)
  else begin_sync s.

(** The awaited sync settles: another iteration, or the end of the loop, which
    is what the calls of [holdLeaseSync] were waiting for. *)
Definition resume_call (c : hold_call) : hold_call := match c with Waiting => Held | c => c end.

Definition sync_settles (s : State) : State :=
  if syncAgain s && (holds s =? 0)%nat then begin_sync s
  else mkState (syncDb s) false false (holds s) (skippedWhileHeld s || syncAgain s)
         (map resume_call (calls s)) (begun s) (unseen s).

Definition holdLeaseSync (s : State) : State :=
  mkState (syncDb s) (running s) (syncAgain s) (S (holds s)) (skippedWhileHeld s)
    (calls s ++ [if running s then Waiting else Held]) (begun s) (unseen s).

(** The function a call of [holdLeaseSync] resolved with. *)
Definition release (s : State) (i : nat) : State :=
  match calls s !! i with
  | Some Held =>
      let holds := Nat.pred (holds s) in
      let calls := <[i := Released]> (calls s) in
      if (holds =? 0)%nat && skippedWhileHeld s then
        let s := mkState (syncDb s) (running s) (syncAgain s) holds false calls (begun s) (unseen s) in
        if syncDb s then runLeaseSync s else s
      else mkState (syncDb s) (running s) (syncAgain s) holds (skippedWhileHeld s) calls (begun s) (unseen s)
  | _ => s
  end.

(** The leases may have changed: the watcher, a DHCP apply or another backend
    taking the role called [runLeaseSync]. *)
Definition see_change (s : State) : State :=
  runLeaseSync (mkState (syncDb s) (running s) (syncAgain s) (holds s) (skippedWhileHeld s) (calls s) (begun s) true).

(** [startLeaseSync]: the first sync, before which nothing was seen. *)
Definition startLeaseSync (s : State) : State :=
  see_change (mkState true (running s) (syncAgain s) (holds s) (skippedWhileHeld s) (calls s) (begun s) (unseen s)).

Inductive event := Start | Change | Settle | Hold | Release (i : nat).

(** Changes are listened for from the start; a sync settles while one runs;
    a release function exists once its call has resolved. *)
Inductive step : State -> event -> State -> Prop :=
| step_start s : step s Start (startLeaseSync s)
| step_change s : syncDb s = true -> step s Change (see_change s)
| step_settle s : running s = true -> step s Settle (sync_settles s)
| step_hold s : step s Hold (holdLeaseSync s)
| step_release s i : calls s !! i = Some Held \/ calls s !! i = Some Released -> step s (Release i) (release s i).

(** ** The invariant *)

(** Calls that still hold. *)
Definition holding (c : hold_call) : bool := match c with Released => false | _ => true end.
Definition outstanding (l : list hold_call) : nat := length (List.filter holding l).

Record inv (s : State) : Prop := {
  inv_holds : holds s = outstanding (calls s);
  inv_held : running s = true -> Held ∉ calls s;
  inv_waiting : Waiting ∈ calls s -> running s = true;
  inv_again : syncAgain s = true -> running s = true;
  inv_started : unseen s = true -> syncDb s = true;
  inv_unseen : unseen s = true -> syncAgain s = true \/ skippedWhileHeld s = true /\ (0 < holds s)%nat }.

Lemma outstanding_resume l : outstanding (map resume_call l) = outstanding l.
Proof. induction l as [|c l IH]; [done|]. unfold outstanding in *. destruct c; simpl; by rewrite IH. Qed.

Lemma outstanding_release l i :
  l !! i = Some Held -> S (outstanding (<[i := Released]> l)) = outstanding l.
Proof.
  revert i. induction l as [|c l IH]; intros [|i] H; simpl in H; [done|done| |].
  - by injection H as ->.
  - unfold outstanding in *. simpl. specialize (IH i H). destruct (holding c); simpl; lia.
Qed.

Lemma outstanding_pos l : Held ∈ l -> (0 < outstanding l)%nat.
Proof.
  intros H. unfold outstanding. apply Nat.neq_0_lt_0. intros E. apply length_zero_iff_nil in E.
  assert (In Held (List.filter holding l)) as Hin by (apply filter_In; split; [by apply list_elem_of_In|done]).
  by rewrite E in Hin.
Qed.

Lemma resume_no_waiting l : Waiting ∉ map resume_call l.
Proof. intros (c & E & _)%list_elem_of_fmap. by destruct c. Qed.

Lemma run_inv s :
  inv (mkState (syncDb s) (running s) (syncAgain s) (holds s) (skippedWhileHeld s) (calls s) (begun s) false) ->
  syncDb s = true -> inv (runLeaseSync s).
Proof.
  intros [Hh Hd Hw Ha Hst Hu] Hdb. unfold runLeaseSync. destruct (Nat.ltb_spec 0 (holds s)); simpl in *.
  - split; simpl; auto.
  - destruct (running s) eqn:Hr; simpl in *.
    + split; simpl; auto.
    + split; simpl; try done. intros _ Hin. apply outstanding_pos in Hin. lia.
Qed.

Lemma inv_forget s :
  inv s -> inv (mkState (syncDb s) (running s) (syncAgain s) (holds s) (skippedWhileHeld s) (calls s) (begun s) false).
Proof. intros [Hh Hd Hw Ha Hst Hu]. by split. Qed.

Lemma settle_inv s : inv s -> running s = true -> inv (sync_settles s).
Proof.
  intros [Hh Hd Hw Ha Hst Hu] Hr. unfold sync_settles. destruct (syncAgain s) eqn:Hag; simpl.
  - destruct (Nat.eqb_spec (holds s) 0); simpl.
    + split; simpl; try done. by intros _; apply Hd.
    + split; simpl; try done.
      * by rewrite outstanding_resume.
      * by intros Hin%resume_no_waiting.
      * intros _. right. split; [by rewrite orb_true_r|lia].
  - split; simpl; try done.
    + by rewrite outstanding_resume.
    + by intros Hin%resume_no_waiting.
    + intros Hun. right. rewrite orb_false_r. destruct (Hu Hun); done.
Qed.

Lemma hold_inv s : inv s -> inv (holdLeaseSync s).
Proof.
  intros [Hh Hd Hw Ha Hst Hu]. unfold holdLeaseSync. split; simpl; auto.
  - rewrite Hh. unfold outstanding. rewrite List.filter_app, length_app.
    destruct (running s); simpl; lia.
  - intros Hr [Hin | Hin]%elem_of_app; [by apply Hd|]. rewrite Hr in Hin. by apply list_elem_of_singleton in Hin.
  - intros [Hin | Hin]%elem_of_app; [by apply Hw|]. destruct (running s); [done|]. by apply list_elem_of_singleton in Hin.
  - intros Hun. destruct (Hu Hun) as [?|[? ?]]; [by left|right]. split; [done|lia].
Qed.

Lemma insert_released_elem (l : list hold_call) i c : c ∈ <[i := Released]> l -> c <> Released -> c ∈ l.
Proof.
  intros [j Hj]%list_elem_of_lookup Hc. apply list_lookup_insert_Some in Hj as [(_ & <- & _)|[_ Hj]]; [done|].
  by eapply list_elem_of_lookup_2.
Qed.

Lemma release_inv s i : inv s -> inv (release s i).
Proof.
  intros I. pose proof I as [Hh Hd Hw Ha Hst Hu]. unfold release. destruct (calls s !! i) as [[]|] eqn:Hi; try done.
  pose proof (outstanding_release _ _ Hi) as Ho. pose proof (list_elem_of_lookup_2 _ _ _ Hi) as Hin.
  assert (running s = false) as Hr by (destruct (running s); [exfalso; by apply Hd|done]).
  assert (syncAgain s = false) as Hag by (destruct (syncAgain s); [by rewrite Ha in Hr|done]).
  rewrite Hr, Hag in *.
  assert (Waiting ∉ <[i := Released]> (calls s)) as Hnw by (intros H%insert_released_elem; [by apply Hw in H|done]).
  destruct (Nat.eqb_spec (pred (holds s)) 0) as [E|E]; simpl.
  - destruct (skippedWhileHeld s) eqn:Hs; simpl.
    + destruct (syncDb s) eqn:Hdb.
      * apply run_inv; [|done]. split; simpl; try done. lia.
      * split; simpl; try done; [lia|]. intros Hun. by specialize (Hst Hun).
    + split; simpl; try done; [lia|]. intros Hun. by destruct (Hu Hun) as [|[]].
  - split; simpl; try done; [lia|]. intros Hun. destruct (Hu Hun) as [|[? ?]]; [done|]. right. split; [done|lia].
Qed.

Lemma sync_step_inv s e s' : inv s -> step s e s' -> inv s'.
Proof.
  intros I Hs. destruct Hs as [s|s Hdb|s Hr|s|s i _].
  - apply run_inv; [|done]. destruct I as [Hh Hd Hw Ha Hst Hu]. by split.
  - apply run_inv; [|done]. simpl. by apply inv_forget.
  - by apply settle_inv.
  - by apply hold_inv.
  - by apply release_inv.
Qed.

Lemma initial_inv : inv initial.
Proof. split; simpl; try done; by intros H%not_elem_of_nil. Qed.

Lemma sync_reachable_inv es s : runs step initial es s -> inv s.
Proof. intros H. eapply runs_invariant; [apply sync_step_inv|exact H|apply initial_inv]. Qed.

(** ** What is promised *)

(** A granted hold keeps every sync away, and two syncs never run at once: a
    sync begins only when no call of [holdLeaseSync] is outstanding and none
    is under way, and the number of syncs begun is what it was at the grant
    for as long as the hold is not released. *)
Theorem held_sync_stays_away es s e s' i :
  runs step initial es s -> step s e s' -> calls s !! i = Some Held -> e <> Release i ->
  running s = false /\ running s' = false /\ begun s' = begun s /\ calls s' !! i = Some Held.
Proof.
  intros Hr Hs Hi He. pose proof (sync_reachable_inv _ _ Hr) as I.
  pose proof (list_elem_of_lookup_2 _ _ _ Hi) as Hin.
  assert (running s = false) as Hrun by (destruct (running s) eqn:E; [by apply (inv_held s I) in E|done]).
  assert (0 < holds s)%nat as Hpos by (rewrite (inv_holds s I); by apply outstanding_pos).
  assert (forall s0, holds s0 = holds s -> runLeaseSync s0 =
            mkState (syncDb s0) (running s0) (syncAgain s0) (holds s0) true (calls s0) (begun s0) (unseen s0)) as Hrun0.
  { intros s0 E. unfold runLeaseSync. by rewrite (proj2 (Nat.ltb_lt 0 (holds s0))) by lia. }
  destruct Hs as [s|s Hdb|s Hr'|s|s j _].
  - unfold startLeaseSync, see_change. by rewrite Hrun0.
  - unfold see_change. by rewrite Hrun0.
  - congruence.
  - split_and!; try done. simpl. by apply lookup_app_l_Some.
  - assert (i <> j) as Hij by congruence. split; [done|]. unfold release.
    destruct (calls s !! j) as [[]|] eqn:Hj; [done| |done|done].
    assert (calls s !! i = Some Held /\ <[j:=Released]> (calls s) !! i = Some Held) as [_ Hi'] by by rewrite list_lookup_insert_ne.
    destruct (Nat.eqb_spec (pred (holds s)) 0) as [E|E]; simpl; [|done].
    exfalso. pose proof (outstanding_release _ _ Hj) as Ho. pose proof (inv_holds s I).
    assert (0 < outstanding (<[j:=Released]> (calls s)))%nat by (apply outstanding_pos; by eapply list_elem_of_lookup_2). lia.
Qed.

(** The sync under way settles, again and again, until none is. *)
Fixpoint settle_all (n : nat) (s : State) : State :=
  match n with
  | O => s
  | S n => if running s then settle_all n (sync_settles s) else s
  end.

(** Every call that resolved is released. *)
Definition release_all (s : State) : State := fold_left release (seq 0 (length (calls s))) s.

(** No sync to repeat, no call waiting: what is left once nothing runs, and
    while the holds are released. *)
Definition settled (s : State) : Prop := syncAgain s = false /\ Waiting ∉ calls s.

Lemma run_calls s : calls (runLeaseSync s) = calls s.
Proof. unfold runLeaseSync. by repeat case_match. Qed.

Lemma release_calls s i :
  Waiting ∉ calls s -> calls (release s i) = match calls s !! i with Some _ => <[i := Released]> (calls s) | None => calls s end.
Proof.
  intros Hw. unfold release. destruct (calls s !! i) as [[]|] eqn:Hi; [| | |done].
  - by apply list_elem_of_lookup_2 in Hi.
  - destruct (_ && _); [|done]. cbv zeta. simpl. destruct (syncDb s); [|done]. by rewrite run_calls.
  - by rewrite list_insert_id.
Qed.

Lemma release_settled s i : inv s -> settled s -> settled (release s i).
Proof.
  intros I [Ha Hw]. split.
  - unfold release. destruct (calls s !! i) as [[]|] eqn:Hi; try done.
    assert (running s = false) as Hr.
    { destruct (running s) eqn:E; [|done]. exfalso. apply (inv_held s I E). by eapply list_elem_of_lookup_2. }
    destruct (_ && _); [|done]. cbv zeta. simpl. destruct (syncDb s); [|done].
    unfold runLeaseSync. simpl. rewrite Hr. by case_match.
  - rewrite release_calls by done. destruct (calls s !! i); [|done].
    intros H%insert_released_elem; done.
Qed.

Lemma release_each s k :
  inv s -> settled s ->
  let s' := fold_left release (seq 0 k) s in
  inv s' /\ settled s' /\ length (calls s') = length (calls s) /\
  (forall j, (j < k)%nat -> (j < length (calls s))%nat -> calls s' !! j = Some Released).
Proof.
  intros I Q. cbv zeta. induction k as [|k IH]; [split_and!; try done; lia|].
  rewrite seq_S, fold_left_app. simpl. destruct IH as (I' & Q' & Hl & Hj).
  set (t := fold_left release (seq 0 k) s) in *.
  pose proof (release_calls t k (proj2 Q')) as Hc.
  split_and!; [by apply release_inv|by apply release_settled| |].
  - rewrite Hc. case_match; [|done]. by rewrite length_insert.
  - intros j Hjk Hjl. rewrite Hc. destruct (decide (j = k)) as [->|Hne].
    + destruct (lookup_lt_is_Some_2 (calls t) k) as [c Ec]; [lia|]. rewrite Ec.
      rewrite list_lookup_insert_eq; [done|lia].
    + case_match; [rewrite list_lookup_insert_ne by done|]; apply Hj; lia.
Qed.

Lemma all_released l : (forall j, (j < length l)%nat -> l !! j = Some Released) -> outstanding l = 0%nat.
Proof.
  induction l as [|c l IH]; intros H; [done|]. pose proof (H 0%nat ltac:(simpl; lia)) as [= ->].
  apply IH. intros j Hj. apply (H (S j)). simpl. lia.
Qed.

Lemma settle_twice s : inv s -> inv (settle_all 2 s) /\ running (settle_all 2 s) = false.
Proof.
  intros I. simpl. destruct (running s) eqn:Hr; [|done]. pose proof (settle_inv s I Hr) as I1.
  destruct (running (sync_settles s)) eqn:Hr1; [|done]. split; [by apply settle_inv|].
  unfold sync_settles in *. destruct (syncAgain s && (holds s =? 0)%nat); [reflexivity|discriminate].
Qed.

Lemma settle_runs s : exists es, runs step s es (settle_all 2 s).
Proof.
  simpl. destruct (running s) eqn:Hr; [|exists []; constructor].
  destruct (running (sync_settles s)) eqn:Hr1.
  - exists [Settle; Settle]. repeat econstructor; done.
  - exists [Settle]. repeat econstructor; done.
Qed.

Lemma release_runs s k :
  inv s -> settled s -> (k <= length (calls s))%nat -> exists es, runs step s es (fold_left release (seq 0 k) s).
Proof.
  intros I Q. induction k as [|k IH]; intros Hk; [exists []; constructor|].
  destruct IH as [es Hes]; [lia|]. exists (es ++ [Release k]). rewrite seq_S, fold_left_app.
  eapply runs_app; [exact Hes|]. simpl. econstructor; [|constructor]. constructor.
  destruct (release_each s k I Q) as (_ & [_ Hw] & Hl & _).
  destruct (lookup_lt_is_Some_2 (calls (fold_left release (seq 0 k) s)) k) as [[] Ec]; [lia| |by left|by right].
  by apply list_elem_of_lookup_2 in Ec.
Qed.

(** C16. No change is lost: from every state there is, once the sync under way has
    settled (and the one it was to repeat) and the holds are released, a sync
    has begun since the last change was seen. *)
Theorem every_change_synced es s :
  runs step initial es s ->
  let s' := release_all (settle_all 2 s) in
  (exists es', runs step s es' s') /\ unseen s' = false /\ holds s' = 0%nat.
Proof.
  intros Hr. cbv zeta. pose proof (sync_reachable_inv _ _ Hr) as I.
  destruct (settle_twice s I) as [I2 Hrun]. set (t := settle_all 2 s) in *.
  assert (settled t) as Q.
  { split; [|intros Hin; by rewrite (inv_waiting t I2 Hin) in Hrun].
    destruct (syncAgain t) eqn:E; [|done]. by rewrite (inv_again t I2 E) in Hrun. }
  unfold release_all. destruct (release_each t (length (calls t)) I2 Q) as (I3 & [Q3 _] & Hl & Hj).
  set (u := fold_left release (seq 0 (length (calls t))) t) in *.
  assert (holds u = 0%nat) as Hh.
  { rewrite (inv_holds u I3). apply all_released. intros j Hlt. apply Hj; lia. }
  split_and!; [|destruct (unseen u) eqn:E; [|done]; destruct (inv_unseen u I3 E) as [?|[_ ?]]; [congruence|lia]|done].
  destruct (settle_runs s) as [es1 H1]. destruct (release_runs t (length (calls t)) I2 Q ltac:(lia)) as [es2 H2].
  exists (es1 ++ es2). by eapply runs_app.
Qed.

(** A switch: a hold asked for while a sync runs, a change during each. *)
Definition switch_run : list event := [Start; Change; Hold; Settle; Change].

Definition during_switch : State := mkState true false false 1 true [Held] 1 true.

Lemma switch_runs : runs step initial switch_run during_switch.
Proof.
  eapply runs_cons; [constructor|]. eapply runs_cons; [by constructor|]. eapply runs_cons; [constructor|].
  eapply runs_cons; [by constructor|]. eapply runs_cons; [by constructor|]. constructor.
Qed.

Lemma held_sync_stays_away_witness :
  running during_switch = false /\ running (see_change during_switch) = false
  /\ begun (see_change during_switch) = begun during_switch /\ calls (see_change during_switch) !! 0%nat = Some Held.
Proof.
  apply (held_sync_stays_away switch_run during_switch Change (see_change during_switch) 0%nat);
    [apply switch_runs|by constructor|done|done].
Defined.

Lemma every_change_synced_witness :
  let s' := release_all (settle_all 2 during_switch) in
  (exists es', runs step during_switch es' s') /\ unseen s' = false /\ holds s' = 0%nat.
Proof. apply (every_change_synced switch_run). apply switch_runs. Defined.
