(* ===== verification/ScanCoverage.v ===== *)
(** * Which addresses the scanner probes, and which the sweep ages out:
      [utils/scan-coverage.js], [utils/scan-scheduler.js], the address list of
      [utils/scanner.js] and [bulkMarkStale] of [models/ip-address.js]
      (in [server/src])

    Two parts of the server must agree on "will the scanner ever probe this
    address": the scheduler with the scan it starts, in JavaScript, and the
    sweep that marks silent hosts offline, in SQL. Each side is written out
    here as its own language has it. A NULL of SQL is [None]; a condition that
    is NULL keeps no row. *)

From stdpp Require Import list_numbers.
From S2P Require Import Prelude JsString Address Cidr.

(** The columns of [subnets] and [ip_addresses] both sides read. *)
Record Subnet := mkSubnet {
  s_cidr : string;
  s_status : string;
  s_address_family : Z;
  s_total_addresses : option Z;
  s_scan_enabled : option Z;
  s_scan_interval : option string }.

Record Row := mkRow {
  r_ip : string;
  r_scan_enabled : option Z;
  r_allocation_state : string;
  r_interface_id : option string;
  r_is_online : bool;
  r_is_rogue : bool;
  r_last_seen_at : option Z }.

(** The two settings that networks inherit, and the IPv6 switch. *)
Record Settings := mkSettings {
  default_scan_enabled : option string;
  default_scan_interval : option string;
  ipv6Enabled : bool }.

Definition MAX_SCAN_SIZE : Z := 4096.

(** ** Intervals *)

Definition INTERVAL_MS : list (string * option Z) :=
  [("", None); ("off", None); ("5m", Some (5 * 60 * 1000)); ("15m", Some (15 * 60 * 1000));
   ("30m", Some (30 * 60 * 1000)); ("1h", Some (60 * 60 * 1000)); ("4h", Some (4 * 60 * 60 * 1000))].

Definition SCANNING_INTERVAL_KEYS : list string :=
  map fst (List.filter (fun p => match snd p with Some _ => true | None => false end) INTERVAL_MS).

Definition intervalToMs (value : option string) : option Z :=
  match value with
  | None => None
  | Some v =>
      let raw := trim v in
      match js_get raw INTERVAL_MS with
      | Some ms => ms
      | None =>
          if all_digits1 raw then
            let minutes := from_base 10 raw in
            if 0 <? minutes then Some (minutes * 60 * 1000) else None
          else None
      end
  end.

(** SQLite's [TRIM] takes off spaces only. *)
Definition sql_trim (s : string) : string :=
  let space := fun c => code c =? 32 in drop_while_end space (drop_while space s).

(** ** The conditions written in SQL *)

Definition scanSizeSql (s : Subnet) : bool :=
  (s_address_family s =? 6)
  || match s_total_addresses s with Some n => n <=? MAX_SCAN_SIZE | None => false end.

Definition scanEnabledSql (st : Settings) (s : Subnet) : bool :=
  match s_scan_enabled s with
  | Some n => n =? 1
  | None =>
      match default_scan_enabled st with
      | Some v => if existsb (String.eqb v) ["1"; "true"] then true
                  else if existsb (String.eqb v) ["0"; "false"] then false else true
      | None => true
      end
  end.

(** [COALESCE(s.scan_interval, the setting)] *)
Definition effectiveIntervalSql (st : Settings) (s : Subnet) : option string :=
  match s_scan_interval s with Some v => Some v | None => default_scan_interval st end.

(** The interval arm of [scannerCoveredSql]. [CAST] of digits beyond 64 bits
    gives the largest integer, which is above zero as the digits are. *)
Definition interval_covered (interval : option string) : bool :=
  match interval with
  | None => false
  | Some v =>
      let t := sql_trim v in
      existsb (String.eqb t) SCANNING_INTERVAL_KEYS
      || (negb (String.eqb t "") && all_chars is_digit t && (0 <? from_base 10 t))
  end.

Definition ipv6ProbedSql (s : Subnet) (r : Row) : bool :=
  negb (s_address_family s =? 6) || negb (String.eqb (r_allocation_state r) "system").

Definition scannerCoveredSql (st : Settings) (s : Subnet) (r : Row) : bool :=
  String.eqb (s_status s) "allocated" && scanSizeSql s && scanEnabledSql st s
  && interval_covered (effectiveIntervalSql st s)
  && match r_scan_enabled r with None => true | Some n => negb (n =? 0) end
  && ipv6ProbedSql s r.

(** ** Public networks *)

Definition NON_GLOBAL_IPV4_RANGES : list string :=
  ["0.0.0.0/8"; "10.0.0.0/8"; "100.64.0.0/10"; "127.0.0.0/8"; "169.254.0.0/16"; "172.16.0.0/12";
   "192.0.0.0/24"; "192.0.2.0/24"; "192.168.0.0/16"; "198.18.0.0/15"; "198.51.100.0/24";
   "203.0.113.0/24"; "224.0.0.0/4"; "240.0.0.0/4"].

Definition NON_GLOBAL_IPV6_RANGES : list string :=
  ["::/128"; "::1/128"; "::ffff:0:0/96"; "fc00::/7"; "fe80::/10"; "ff00::/8"; "2001:db8::/32"].

(** [special.some(range => networksOverlap(cidr, range))] *)
Fixpoint some_overlap (cidr : string) (special : list string) : result cidr_error bool :=
  match special with
  | [] => Ok false
  | range :: rest =>
      overlap ← networksOverlap cidr range;
      if (overlap : bool) then Ok true else some_overlap cidr rest
  end.

Definition isGloballyRoutableCidr (cidr : string) : result cidr_error bool :=
  parsed ← parseNetwork cidr;
  some ← some_overlap cidr (if family parsed =? 6 then NON_GLOBAL_IPV6_RANGES else NON_GLOBAL_IPV4_RANGES);
  Ok (negb some).

Definition isAutomaticScanAllowed (st : Settings) (s : Subnet) : result cidr_error bool :=
  if (s_address_family s =? 6) && negb (ipv6Enabled st) then Ok false
  else if match s_scan_enabled s with Some n => n =? 1 | None => false end then Ok true
  else routable ← isGloballyRoutableCidr (s_cidr s); Ok (negb routable).

(** ** The scheduler *)

(** The networks [checkScheduledScans] starts a scan for once the last one is
    old enough: its WHERE clause, then its two tests. *)
Definition scheduled (st : Settings) (s : Subnet) : result cidr_error bool :=
  if String.eqb (s_status s) "allocated" && scanSizeSql s && scanEnabledSql st s then
    allowed ← isAutomaticScanAllowed st s;
    Ok (allowed && match intervalToMs (effectiveIntervalSql st s) with Some ms => negb (ms =? 0) | None => false end)
  else Ok false.

(** ** The scan *)

Definition shouldScanIp (ipOverride : option Z) (subnetDefault : bool) : bool :=
  match ipOverride with Some n => negb (n =? 0) | None => subnetDefault end.

Definition subnetDefault (st : Settings) (s : Subnet) : bool :=
  match s_scan_enabled s with
  | Some n => negb (n =? 0)
  | None => match default_scan_enabled st with
            | Some v => String.eqb v "1" || String.eqb v "true"
            | None => true
            end
  end.

(** [overrideMap.get(ip)]: of two rows with one address the later counts. *)
Definition override (rows : list Row) (ip : string) : option Z :=
  match List.filter (fun r => String.eqb (r_ip r) ip && match r_scan_enabled r with Some _ => true | None => false end) (rev rows) with
  | r :: _ => r_scan_enabled r
  | [] => None
  end.

(** The addresses of an IPv4 sweep. *)
Definition sweep_addresses (parsed : Network) : list string :=
  match legacy parsed with
  | None => []
  | Some l =>
      let startIpLong := if 31 <=? prefix parsed then networkLong l else networkLong l + 1 in
      let endIpLong := if 31 <=? prefix parsed then broadcastLong l else broadcastLong l - 1 in
      map longToIp (seqZ startIpLong (endIpLong - startIpLong + 1))
  end.

(** An entry of the neighbor table [discoverIpv6Hosts] found. *)
Record Host := mkHost { h_ip : string; h_state : string; h_interface : option string }.

(** [/^fe[89ab]/i] *)
Definition link_local (ip : string) : bool :=
  let p := to_lower (take_string 3 ip) in existsb (String.eqb p) ["fe8"; "fe9"; "fea"; "feb"].

Definition truthy (o : option string) : bool := match o with Some s => negb (String.eqb s "") | None => false end.

(** The addresses an IPv6 scan echoes: [rows] is the table when the scan reads
    it, after what was discovered has been recorded; [offline] tells which
    discovered addresses were offline rows before. *)
Definition recheck (hosts : list Host) (offline : string -> bool) : list Host :=
  List.filter (fun h => negb (String.eqb (h_state h) "REACHABLE") && offline (h_ip h)) hosts.

Definition persisted (rows : list Row) : list Row :=
  List.filter (fun r => negb (String.eqb (r_allocation_state r) "system")
    && ((negb (String.eqb (r_allocation_state r) "unassigned")
         && match r_interface_id r with None => true | Some _ => false end) || r_is_online r)) rows.

Definition probe_interface (hosts : list Host) (offline : string -> bool) (rows : list Row) (ip : string) : bool :=
  existsb (fun h => String.eqb (h_ip h) ip && link_local ip && truthy (h_interface h)) (recheck hosts offline)
  || existsb (fun r => String.eqb (r_ip r) ip && link_local ip && truthy (r_interface_id r)) (persisted rows).

Definition echo_addresses (hosts : list Host) (offline : string -> bool) (rows : list Row) : list string :=
  let has := probe_interface hosts offline rows in
  js_uniq (List.filter (fun ip => negb (link_local ip)) (map h_ip hosts)
    ++ List.filter (fun ip => has ip || negb (link_local ip)) (map h_ip (recheck hosts offline))
    ++ List.filter (fun ip => negb (link_local ip) || has ip) (map r_ip (persisted rows))).

(** The addresses [startScan] probes in a whole-network scan; one it refuses
    probes none. *)
Definition probed (st : Settings) (s : Subnet) (hosts : list Host) (offline : string -> bool) (rows : list Row)
    : result cidr_error (list string) :=
  parsed ← parseNetwork (s_cidr s);
  if (family parsed =? 6) && negb (ipv6Enabled st) then Ok []
  else
  let ipsToScan := if family parsed =? 6 then echo_addresses hosts offline rows else sweep_addresses parsed in
  Ok (List.filter (fun ip => shouldScanIp (override rows ip) (subnetDefault st s)) ipsToScan).

(** ** The sweep *)

(** The rows [bulkMarkStale] marks offline: its WHERE clause and its filter. *)
Definition stale (st : Settings) (cutoff : Z) (s : Subnet) (r : Row) : result cidr_error bool :=
  if r_is_online r && match r_last_seen_at r with Some t => t <? cutoff | None => false end then
    if scannerCoveredSql st s r
    then allowed ← isAutomaticScanAllowed st s; Ok (negb allowed)
    else Ok true
  else Ok false.

Definition mark_offline (r : Row) : Row :=
  mkRow (r_ip r) (r_scan_enabled r) (r_allocation_state r) (r_interface_id r) false false (r_last_seen_at r).

(** [bulkMarkStale] over the rows joined with their networks. *)
Definition bulkMarkStale (st : Settings) (cutoff : Z) (table : list (Subnet * Row)) : result cidr_error (list (Subnet * Row)) :=
  map_result (fun '(s, r) => gone ← stale st cutoff s r; Ok (s, if (gone : bool) then mark_offline r else r)) table.

(** ** The two sides agree *)

Lemma interval_agrees v :
  sql_trim v = trim v ->
  interval_covered (Some v) = match intervalToMs (Some v) with Some ms => negb (ms =? 0) | None => false end.
Proof.
  intros E. unfold interval_covered, intervalToMs. rewrite E. generalize (trim v). clear. intros t. cbv zeta.
  destruct (js_get t INTERVAL_MS) as [ms|] eqn:Hg.
  - cbn [INTERVAL_MS js_get] in Hg.
    repeat match type of Hg with
    | (if String.eqb ?a ?b then _ else _) = _ => destruct (String.eqb_spec a b); [subst; injection Hg as <-; vm_compute; reflexivity|]
    end. discriminate.
  - assert (existsb (String.eqb t) SCANNING_INTERVAL_KEYS = false) as ->.
    { cbn [INTERVAL_MS js_get] in Hg.
      repeat match type of Hg with
      | (if String.eqb ?a ?b then _ else _) = _ => destruct (String.eqb a b) eqn:?; [discriminate|]
      end.
      cbn -[String.eqb]. repeat match goal with H : String.eqb _ _ = false |- _ => rewrite H; clear H end. reflexivity. }
    unfold all_digits1. cbn [orb]. destruct (negb (String.eqb t "") && all_chars is_digit t); cbn [andb]; [|done].
    destruct (Z.ltb_spec 0 (from_base 10 t)); [|done]. symmetry. apply negb_true_iff, Z.eqb_neq. lia.
Qed.

(** What the schema and the routes keep true of a network. *)
Record network_ok (st : Settings) (s : Subnet) (parsed : Network) : Prop := {
  n_parsed : parseNetwork (s_cidr s) = Ok parsed;
  n_family : s_address_family s = family parsed;
  n_enabled : s_scan_enabled s = None \/ s_scan_enabled s = Some 0 \/ s_scan_enabled s = Some 1;
  n_default : forall v, default_scan_enabled st = Some v -> v ∈ ["0"; "1"; "true"; "false"];
  n_interval : forall v, effectiveIntervalSql st s = Some v -> sql_trim v = trim v }.

(** And of an online row: its address is one of the hosts of an IPv4 network;
    a link-local one carries its interface; no neighbor answers as the anycast
    address. *)
Record row_ok (parsed : Network) (hosts : list Host) (rows : list Row) (r : Row) : Prop := {
  w_row : r ∈ rows;
  w_unique : NoDup (map r_ip rows);
  w_host : family parsed <> 6 -> r_ip r ∈ sweep_addresses parsed;
  w_link : link_local (r_ip r) = true -> truthy (r_interface_id r) = true;
  w_system : r_allocation_state r = "system" -> r_ip r ∉ map h_ip hosts }.

Lemma default_agrees st s parsed : network_ok st s parsed -> scanEnabledSql st s = subnetDefault st s.
Proof.
  intros [_ _ He Hd _]. unfold scanEnabledSql, subnetDefault.
  destruct (s_scan_enabled s) as [n|]; [by destruct He as [[=]|[[= ->]|[= ->]]]|].
  destruct (default_scan_enabled st) as [v|]; [|done]. specialize (Hd v eq_refl).
  repeat (apply elem_of_cons in Hd as [->|Hd]; [reflexivity|]). by apply not_elem_of_nil in Hd.
Qed.

Lemma networksOverlap_total a b x y :
  parseNetwork a = Ok x -> parseNetwork b = Ok y -> exists v, networksOverlap a b = Ok v.
Proof. intros Ha Hb. unfold networksOverlap. rewrite Ha, Hb. cbn [mbind result_bind]. case_match; by eexists. Qed.

Lemma some_overlap_total c special :
  is_ok (parseNetwork c) = true -> Forall (fun r => is_ok (parseNetwork r) = true) special ->
  exists v, some_overlap c special = Ok v.
Proof.
  intros Hc Hs. induction Hs as [|r special Hr Hs IH]; [by eexists|]. simpl.
  destruct (parseNetwork c) as [x|] eqn:Ec; [|done]. destruct (parseNetwork r) as [y|] eqn:Er; [|done].
  destruct (networksOverlap_total c r x y Ec Er) as [[] ->]; simpl; [by eexists|exact IH].
Qed.

Lemma routable_total c n : parseNetwork c = Ok n -> exists b, isGloballyRoutableCidr c = Ok b.
Proof.
  intros H. unfold isGloballyRoutableCidr. rewrite H. cbn [mbind result_bind].
  destruct (some_overlap_total c (if family n =? 6 then NON_GLOBAL_IPV6_RANGES else NON_GLOBAL_IPV4_RANGES)) as [v ->].
  - by rewrite H.
  - apply forallb_Forall. destruct (family n =? 6); vm_compute; reflexivity.
  - by eexists.
Qed.

Lemma allowed_total st s parsed : network_ok st s parsed -> exists b, isAutomaticScanAllowed st s = Ok b.
Proof.
  intros [Hp _ _ _ _]. unfold isAutomaticScanAllowed. destruct (_ && _); [by eexists|].
  destruct (match s_scan_enabled s with Some n => n =? 1 | None => false end); [by eexists|].
  destruct (routable_total _ _ Hp) as [b ->]. by eexists.
Qed.

(** ** Which addresses a scan covers *)

Lemma override_unique rows r : r ∈ rows -> NoDup (map r_ip rows) -> override rows (r_ip r) = r_scan_enabled r.
Proof.
  intros Hr Hn. unfold override.
  assert (forall x, In x (List.filter (fun x => String.eqb (r_ip x) (r_ip r) && match r_scan_enabled x with Some _ => true | None => false end) (rev rows))
                    -> x = r) as Hone.
  { intros x [Hx [E%String.eqb_eq _]%andb_prop]%filter_In. apply in_rev, list_elem_of_In in Hx.
    by eapply (nodup_map_inj r_ip). }
  destruct (List.filter _ (rev rows)) as [|x l] eqn:E.
  - destruct (r_scan_enabled r) as [n|] eqn:Er; [|done]. exfalso.
    assert (In r []) as []. rewrite <- E. apply filter_In. split; [by apply in_rev; rewrite rev_involutive; apply list_elem_of_In|].
    by rewrite String.eqb_refl, Er.
  - by rewrite (Hone x (or_introl eq_refl)).
Qed.

Lemma elem_of_filter_bool {A} (p : A -> bool) l x : x ∈ List.filter p l <-> x ∈ l /\ p x = true.
Proof. rewrite !list_elem_of_In. apply filter_In. Qed.

(** An online row of an IPv6 network is echoed unless it is the anycast address. *)
Lemma echoed parsed hosts offline rows r :
  row_ok parsed hosts rows r -> r_is_online r = true ->
  r_ip r ∈ echo_addresses hosts offline rows <-> r_allocation_state r <> "system".
Proof.
  intros [Hr Hn _ Hl Hs] Ho. unfold echo_addresses. rewrite elem_of_js_uniq, !elem_of_app, !elem_of_filter_bool. split.
  - intros H E. specialize (Hs E). destruct H as [[H _]|[[H _]|[H _]]].
    + done.
    + apply Hs. apply list_elem_of_fmap in H as (h & -> & Hh). apply elem_of_filter_bool in Hh as [Hh _].
      by apply list_elem_of_fmap_2.
    + apply list_elem_of_fmap in H as (x & E' & [Hx Hp]%elem_of_filter_bool).
      assert (x = r) as -> by (by eapply (nodup_map_inj r_ip)). rewrite E in Hp. done.
  - intros Hne. right. right.
    assert (r ∈ persisted rows) as Hp.
    { apply elem_of_filter_bool. split; [done|]. apply String.eqb_neq in Hne. by rewrite Hne, Ho, orb_true_r. }
    split; [by apply list_elem_of_fmap_2|]. destruct (link_local (r_ip r)) eqn:Hll; [|done]. cbn [negb orb].
    unfold probe_interface. apply orb_true_iff. right. apply existsb_exists. exists r.
    split; [by apply list_elem_of_In|]. by rewrite String.eqb_refl, Hll, Hl.
Qed.

(** What the two scheduling parts say together of an address. *)
Definition scans (st : Settings) (s : Subnet) (hosts : list Host) (offline : string -> bool) (rows : list Row) (ip : string) : bool :=
  match scheduled st s, probed st s hosts offline rows with
  | Ok true, Ok addresses => bool_decide (ip ∈ addresses)
  | _, _ => false
  end.

Definition silent (cutoff : Z) (r : Row) : bool := match r_last_seen_at r with Some t => t <? cutoff | None => false end.

Lemma probed_iff st s parsed hosts offline rows r :
  network_ok st s parsed -> row_ok parsed hosts rows r -> r_is_online r = true ->
  (s_address_family s =? 6) && negb (ipv6Enabled st) = false ->
  exists addresses, probed st s hosts offline rows = Ok addresses /\
    bool_decide (r_ip r ∈ addresses) = ipv6ProbedSql s r && shouldScanIp (r_scan_enabled r) (subnetDefault st s).
Proof.
  intros Hn Hr Ho H6. pose proof Hr as [Hrow Hu Hh _ _]. unfold probed, ipv6ProbedSql.
  rewrite (n_parsed _ _ _ Hn), (n_family _ _ _ Hn) in *. cbn [mbind result_bind]. rewrite H6.
  eexists. split; [reflexivity|]. apply Bool.eq_iff_eq_true.
  rewrite bool_decide_eq_true, elem_of_filter_bool, override_unique, !andb_true_iff by done.
  destruct (Z.eqb_spec (family parsed) 6) as [E|E]; cbn [negb orb].
  - rewrite (echoed parsed) by done. by rewrite negb_true_iff, String.eqb_neq.
  - split; [tauto|]. intros [_ H]. split; [by apply Hh|done].
Qed.

(** One row: it is marked offline when it is online, silent, and no scan will
    come by. *)
Lemma stale_exact st cutoff s parsed hosts offline rows r :
  network_ok st s parsed -> row_ok parsed hosts rows r ->
  stale st cutoff s r =
  Ok (r_is_online r && silent cutoff r && negb (scans st s hosts offline rows (r_ip r))).
Proof.
  intros Hn Hr. unfold stale, silent. destruct (r_is_online r) eqn:Ho; [|done]. cbn [andb].
  destruct (match r_last_seen_at r with Some t => t <? cutoff | None => false end); [|done]. cbn [andb].
  destruct (allowed_total _ _ _ Hn) as [b Hb]. unfold scans, scheduled, scannerCoveredSql.
  destruct (String.eqb (s_status s) "allocated" && scanSizeSql s) eqn:HA; cbn [andb]; [|done].
  destruct (scanEnabledSql st s) eqn:He; cbn [andb]; [|done]. rewrite Hb. cbn [mbind result_bind].
  assert (interval_covered (effectiveIntervalSql st s) =
          match intervalToMs (effectiveIntervalSql st s) with Some ms => negb (ms =? 0) | None => false end) as Hi.
  { destruct (effectiveIntervalSql st s) as [v|] eqn:Ev; [|done]. by apply interval_agrees, (n_interval _ _ _ Hn). }
  rewrite Hi. destruct (match intervalToMs (effectiveIntervalSql st s) with Some ms => negb (ms =? 0) | None => false end);
    cbn [andb]; [|by rewrite andb_false_r].
  rewrite andb_true_r. destruct ((s_address_family s =? 6) && negb (ipv6Enabled st)) eqn:H6.
  { unfold isAutomaticScanAllowed in Hb. rewrite H6 in Hb. injection Hb as <-. by repeat case_match. }
  destruct (probed_iff _ _ _ _ offline _ _ Hn Hr Ho H6) as (l & -> & Hl). rewrite Hl.
  rewrite <- (default_agrees _ _ _ Hn), He. unfold shouldScanIp.
  destruct b; [|by repeat case_match]. destruct (r_scan_enabled r) as [n|]; [destruct (n =? 0)|]; destruct (ipv6ProbedSql s r); done.
Qed.

#[export] Instance Subnet_eq_dec : EqDecision Subnet.
Proof. solve_decision. Defined.

(** The rows of one network in the joined table. *)
Definition rows_of (table : list (Subnet * Row)) (s : Subnet) : list Row :=
  map snd (List.filter (fun p => bool_decide (fst p = s)) table).


(** A network scanned every five minutes and one not scanned, a silent host in
    each. *)
Definition lab : Subnet := mkSubnet "10.0.0.0/24" "allocated" 4 (Some 256) (Some 1) (Some "5m").
Definition archive : Subnet := mkSubnet "10.0.1.0/24" "allocated" 4 (Some 256) (Some 0) None.
Definition host (ip : string) : Row := mkRow ip None "unassigned" None true false (Some 100).
Definition settings : Settings := mkSettings (Some "1") (Some "1h") true.

Lemma host_ok ip parsed :
  existsb (String.eqb ip) (sweep_addresses parsed) = true -> link_local ip = false ->
  row_ok parsed [] [host ip] (host ip).
Proof.
  intros (x & Hx & E%String.eqb_eq)%existsb_exists Hl. subst x. split.
  - by apply list_elem_of_singleton.
  - apply NoDup_singleton.
  - intros _. by apply list_elem_of_In.
  - simpl. by rewrite Hl.
  - done.
Qed.


(** Fifteen of the sixteen /24 of this network are public space and it was never
    opted in, yet it counts as not globally routable, because it contains one
    documentation block. *)
Example public_space_swept :
  isGloballyRoutableCidr "203.0.112.0/20" = Ok false
  /\ scheduled settings (mkSubnet "203.0.112.0/20" "allocated" 4 (Some 4096) None None) = Ok true.
Proof. split; vm_compute; reflexivity. Qed.

(** A default that is neither yes nor no: the scheduler and the sweep take it
    for yes, the scan for no, so a host of the network stays online for good. *)
Example default_read_twice :
  let st := mkSettings (Some "on") (Some "1h") true in
  let s := mkSubnet "10.0.0.0/24" "allocated" 4 (Some 256) None None in
  scheduled st s = Ok true /\ probed st s [] (fun _ => false) [host "10.0.0.9"] = Ok []
  /\ stale st 500 s (host "10.0.0.9") = Ok false.
Proof. cbv zeta. split_and!; vm_compute; reflexivity. Qed.

(** A division can turn the address of an online host into the broadcast
    address of a part. The scan of the part does not probe it, and the sweep
    takes it for covered: the row stays online, however long it is silent. *)
Example broadcast_row_stays :
  let whole := mkSubnet "10.0.0.0/23" "allocated" 4 (Some 512) (Some 1) (Some "5m") in
  let hosts s := match probed settings s [] (fun _ => false) [host "10.0.0.255"] with Ok l => l | Err _ => [] end in
  "10.0.0.255" ∈ hosts whole /\ "10.0.0.255" ∉ hosts lab
  /\ scans settings lab [] (fun _ => false) [host "10.0.0.255"] "10.0.0.255" = false
  /\ stale settings 500 lab (host "10.0.0.255") = Ok false.
Proof.
  cbv zeta. split_and!; try (vm_compute; reflexivity).
  - apply (bool_decide_unpack _). vm_compute. exact I.
  - apply (bool_decide_unpack _). vm_compute. exact I.
Qed.
