(* ===== verification/Dhcp6Probe.v ===== *)
(** * The rogue DHCPv6 probe: [server/src/utils/dhcpv6-probe.js]

    The SOLICIT, the reading of an ADVERTISE, the verdict, and the instance
    of the shared run. The status text of a reply is kept as its bytes (the
    code decodes them as UTF-8), and what the kernel's neighbor table says is
    a function of the run's context, read when the run ends. *)

From S2P Require Import Prelude JsString Address Bytes Duid ProbeRun DhcpProbe.

Definition MSG_SOLICIT : Z := 1.
Definition MSG_ADVERTISE : Z := 2.
Definition MSG_REPLY : Z := 7.
Definition OPT_CLIENTID : Z := 1.
Definition OPT_SERVERID : Z := 2.
Definition OPT_IA_NA : Z := 3.
Definition OPT_IAADDR : Z := 5.
Definition OPT_ORO : Z := 6.
Definition OPT_PREFERENCE : Z := 7.
Definition OPT_ELAPSED_TIME : Z := 8.
Definition OPT_STATUS_CODE : Z := 13.
Definition OPT_RAPID_COMMIT : Z := 14.
Definition OPT_DNS_SERVERS : Z := 23.
Definition OPT_DOMAIN_LIST : Z := 24.

(** ** Building a SOLICIT *)

(** [parseInt] of each part, padded with zeros and cut to six bytes. *)
Definition macBytes (mac : string) : bytes :=
  let parsed := map (fun h => match parseInt16 h with Some v => Z.land v 255 | None => 0 end) (split_char ":" mac) in
  take 6 (parsed ++ repeat 0 (6 - length parsed)).

Definition clientDuidFor (mac : string) : bytes := [0; 3; 0; 1] ++ macBytes mac.

Definition option_ (code : Z) (data : bytes) : bytes := uint16be code ++ uint16be (blength data) ++ data.

Definition solicitIaid (mac : string) : Z :=
  let m := macBytes mac in
  let at_ i := nth i m 0 in
  Z.lor (Z.lor (Z.lor (Z.shiftl (at_ 2%nat) 24) (Z.shiftl (at_ 3%nat) 16)) (Z.shiftl (at_ 4%nat) 8)) (at_ 5%nat) mod 2 ^ 32.

Definition solicit_options (mac : string) : list (Z * bytes) :=
  [(OPT_CLIENTID, clientDuidFor mac);
   (OPT_ELAPSED_TIME, [0; 0]);
   (OPT_IA_NA, uint32be (solicitIaid mac) ++ alloc 8);
   (OPT_ORO, uint16be OPT_DNS_SERVERS ++ uint16be OPT_DOMAIN_LIST)].

Definition encode_options (l : list (Z * bytes)) : bytes := concat (map (fun o => option_ (fst o) (snd o)) l).

Definition buildSolicit (xid : Z) (mac : string) : bytes :=
  uint8 MSG_SOLICIT ++ be_bytes 3 (Z.land xid 16777215) ++ encode_options (solicit_options mac).

(** ** Reading an ADVERTISE *)

(** The generator [options], from [off] to [end]; four bytes of progress a
    turn. *)
Fixpoint options_loop (fuel : nat) (buf : bytes) (off stop : Z) : result range_error (list (Z * bytes)) :=
  match fuel with
  | O => mret []
  | S fuel' =>
      if off + 4 <=? stop then
        code ← readUInt16BE buf off;
        len ← readUInt16BE buf (off + 2);
        let off := off + 4 in
        if stop <? off + len then mret []
        else
          rest ← options_loop fuel' buf (off + len) stop;
          mret ((code, subarray buf off (off + len)) :: rest)
      else mret []
  end.

Definition options_of (buf : bytes) (start stop : Z) : result range_error (list (Z * bytes)) :=
  options_loop (length buf) buf start stop.

Definition readAddress (buf : bytes) (off : Z) : result range_error string :=
  hi ← readBigUInt64BE buf off;
  lo ← readBigUInt64BE buf (off + 8);
  mret (formatIp (Z.lor (Z.shiftl hi 64) lo) IPV6_BITS).

(** [toString('latin1')] *)
Fixpoint latin1 (b : bytes) : string :=
  match b with [] => "" | c :: b' => String (ascii_of_N (Z.to_N c)) (latin1 b') end.

(** The label loop of [parseDomainList]: the names so far, and the labels of
    the one being read. *)
Fixpoint domain_loop (fuel : nat) (data : bytes) (labels : list string) : list string :=
  let finished := match labels with [] => [] | _ => [join "." labels] end in
  match fuel with
  | O => finished
  | S fuel' =>
      match data with
      | [] => finished
      | len :: data' =>
          if len =? 0 then finished ++ domain_loop fuel' data' []
          else if blength data' <? len then finished
          else domain_loop fuel' (drop (Z.to_nat len) data') (labels ++ [latin1 (take (Z.to_nat len) data')])
      end
  end.

Definition parseDomainList (data : bytes) : list string := domain_loop (S (length data)) data [].

(** [{ code, message }], the message as bytes. *)
Definition parseStatus (data : bytes) : result range_error (option (Z * bytes)) :=
  if blength data <? 2 then mret None
  else code ← readUInt16BE data 0; mret (Some (code, drop 2 data)).

Record IaAddress := mkIaAddress { ia_address : string; preferred : Z; valid : Z }.

Record Advertise := mkAdvertise {
  msgType6 : Z;
  xid6 : Z;
  serverDuid : option string;
  clientDuid : option string;
  addresses : list IaAddress;
  dns6 : list string;
  domains : list string;
  preference : option Z;
  status6 : option (Z * bytes);
  rapidCommit : bool }.

Definition set_status (a : Advertise) (s : option (Z * bytes)) : Advertise :=
  mkAdvertise (msgType6 a) (xid6 a) (serverDuid a) (clientDuid a) (addresses a) (dns6 a) (domains a) (preference a) s (rapidCommit a).
Definition add_address (a : Advertise) (x : IaAddress) : Advertise :=
  mkAdvertise (msgType6 a) (xid6 a) (serverDuid a) (clientDuid a) (addresses a ++ [x]) (dns6 a) (domains a) (preference a) (status6 a) (rapidCommit a).

(** An option inside an IA_NA. *)
Definition ia_option (a : Advertise) (sub : Z * bytes) : result range_error Advertise :=
  let '(code, data) := sub in
  if (code =? OPT_IAADDR) && (24 <=? blength data) then
    address ← readAddress data 0;
    p ← readUInt32BE data 16;
    v ← readUInt32BE data 20;
    mret (add_address a (mkIaAddress address p v))
  else if (code =? OPT_STATUS_CODE) && match status6 a with None => true | Some _ => false end then
    s ← parseStatus data; mret (set_status a s)
  else mret a.

(** The [switch] of [parseAdvertise]. *)
Definition advertise_option (a : Advertise) (opt : Z * bytes) : result range_error Advertise :=
  let '(code, data) := opt in
  if code =? OPT_SERVERID then
    mret (mkAdvertise (msgType6 a) (xid6 a) (duidFromBytes data) (clientDuid a) (addresses a) (dns6 a) (domains a) (preference a) (status6 a) (rapidCommit a))
  else if code =? OPT_CLIENTID then
    mret (mkAdvertise (msgType6 a) (xid6 a) (serverDuid a) (duidFromBytes data) (addresses a) (dns6 a) (domains a) (preference a) (status6 a) (rapidCommit a))
  else if code =? OPT_IA_NA then
    if blength data <? 12 then mret a
    else subs ← options_of data 12 (blength data); fold_result ia_option subs a
  else if code =? OPT_DNS_SERVERS then
    servers ← map_result (fun i => readAddress data (16 * i)) (seqZ 0 (blength data / 16));
    mret (mkAdvertise (msgType6 a) (xid6 a) (serverDuid a) (clientDuid a) (addresses a) (dns6 a ++ servers) (domains a) (preference a) (status6 a) (rapidCommit a))
  else if code =? OPT_DOMAIN_LIST then
    mret (mkAdvertise (msgType6 a) (xid6 a) (serverDuid a) (clientDuid a) (addresses a) (dns6 a) (parseDomainList data) (preference a) (status6 a) (rapidCommit a))
  else if code =? OPT_PREFERENCE then
    if 1 <=? blength data then
      p ← readUInt8 data 0;
      mret (mkAdvertise (msgType6 a) (xid6 a) (serverDuid a) (clientDuid a) (addresses a) (dns6 a) (domains a) (Some p) (status6 a) (rapidCommit a))
    else mret a
  else if code =? OPT_STATUS_CODE then
    s ← parseStatus data; mret (set_status a s)
  else if code =? OPT_RAPID_COMMIT then
    mret (mkAdvertise (msgType6 a) (xid6 a) (serverDuid a) (clientDuid a) (addresses a) (dns6 a) (domains a) (preference a) (status6 a) true)
  else mret a.

Definition new_advertise (type x : Z) : Advertise := mkAdvertise type x None None [] [] [] None None false.

Definition parseAdvertise (buf : bytes) : result range_error (option Advertise) :=
  if blength buf <? 4 then mret None
  else
    type ← readUInt8 buf 0;
    if negb (type =? MSG_ADVERTISE) && negb (type =? MSG_REPLY) then mret None
    else
      x ← readUIntBE buf 1 3;
      opts ← options_of buf 4 (blength buf);
      a ← fold_result advertise_option opts (new_advertise type x);
      mret (match serverDuid a with None => None | Some _ => Some a end).

(** ** The verdict *)

Record Sets := mkSets { ips : gset string; duids : gset string; macs : gset string }.

Record Ctx6 := mkCtx6 {
  selfIps6 : gset string;
  selfDuid : option string;
  authorized6 : Sets;
  neighborMac : string -> string -> option string }. (** an address on an interface *)

(** An advertisement with where it came from. *)
Record Seen := mkSeen { adv : Advertise; sourceIp : string; seenIface : string }.

Definition truthy (s : string) : bool := negb (String.eqb s "").

Definition classifyAdvertise (s : Seen) (c : Ctx6) (mac : option string) : bool * reason :=
  let source := if truthy (sourceIp s) then Some (to_lower (sourceIp s)) else None in
  let duid := option_map to_lower (serverDuid (adv s)) in
  let source_in (l : gset string) := match source with Some x => bool_decide (x ∈ l) | None => false end in
  if source_in (selfIps6 c) then (false, Self)
  else if match duid, selfDuid c with Some d, Some own => String.eqb d own | _, _ => false end then (false, Self)
  else if source_in (ips (authorized6 c)) then (false, Authorized)
  else if match duid with Some d => bool_decide (d ∈ duids (authorized6 c)) | None => false end then (false, Authorized)
  else if match mac with Some m => truthy m && bool_decide (to_lower m ∈ macs (authorized6 c)) | None => false end then (false, Authorized)
  else (true, Unauthorized).

(** [{ ip, zone }], with [canonicalizeIp(s) || s]. *)
Definition splitZone (s : string) : string * option string :=
  let canonical x := match canonicalizeIp x with Some y => if truthy y then y else x | None => x end in
  match index_of "%" s with
  | None => (canonical s, None)
  | Some pct => (canonical (take_string pct s), Some (drop_string (pct + 1) s))
  end.

(** ** Collecting the replies *)

Record Rogue6 := mkRogue6 {
  server_ip6 : string;
  server_mac6 : string;
  server_duid6 : option string;
  offered_ip6 : option string;
  offered_dns6 : option string;
  iface6 : string }.

(** [advertisementCount] and the [seen] Map, keyed by DUID and source. *)
Record Replies6 := mkReplies6 { advertisementCount : Z; seen : list (string * Seen) }.

Definition seenKey (s : Seen) : string := default "null" (serverDuid (adv s)) +:+ "|" +:+ sourceIp s.

Definition onMessage6 (c : Ctx6) (xidMap : gmap Z string) (r : Replies6) (msg : bytes * string) : Replies6 :=
  let '(data, address) := msg in
  match parseAdvertise data with
  | Err _ | Ok None => r
  | Ok (Some a) =>
      match xidMap !! xid6 a with
      | None => r
      | Some name =>
          let '(ip, zone) := splitZone address in
          let s := mkSeen a ip (match zone with Some z => if truthy z then z else name | None => name end) in
          let known := existsb (fun e => String.eqb (fst e) (seenKey s)) (seen r) in
          mkReplies6 (advertisementCount r + 1) (if known then seen r else seen r ++ [(seenKey s, s)])
      end
  end.

Definition joined_or_null (l : list string) : option string := match l with [] => None | _ => Some (join "," l) end.

(** The loop over [seen] when the run ends; a MAC that is [''] is [null]. *)
Definition rogue6 (c : Ctx6) (s : Seen) : option Rogue6 :=
  let mac := match neighborMac c (sourceIp s) (seenIface s) with Some m => if truthy m then Some m else None | None => None end in
  if fst (classifyAdvertise s c mac)
  then Some (mkRogue6 (sourceIp s) (default "" mac) (serverDuid (adv s))
               (joined_or_null (map ia_address (addresses (adv s)))) (joined_or_null (dns6 (adv s))) (seenIface s))
  else None.

Definition solicitXid (seq i : Z) : Z := Z.land (Z.lor (Z.shiftl (Z.land seq 255) 16) (Z.land i 65535)) 16777215.

#[export] Instance dhcp6_protocol : Protocol (bytes * string) Ctx6 Replies6 Rogue6 := {|
  probe_xid := solicitXid;
  on_reply := onMessage6;
  no_replies := mkReplies6 0 [];
  rogue_events := fun c r => omap (fun e => rogue6 c (snd e)) (seen r) |}.

(** The run of this probe: [ProbeRun]'s, over the protocol above. *)
Abbreviation State6 := (@State Ctx6 Replies6 Rogue6).
Abbreviation Run6 := (@Run Ctx6 Replies6).

Section ProbeRun6.
Context (windowMs late : Z).

Definition runProbe6 : State6 -> setup -> State6 * answer := runProbe.
Definition finish6 : State6 -> nat -> Run6 -> bool -> probe_outcome -> option string -> State6 := finish.
Definition onBound6 : State6 -> nat -> Run6 -> State6 := onBound.
Definition onWatchdog6 : State6 -> nat -> Run6 -> State6 := onWatchdog.
Definition step6 : State6 -> label -> State6 -> Prop := step windowMs late.
End ProbeRun6.

(** The socket errors that say the port or the family is not to be had on
    this host, with what is recorded; the other ones keep their message. *)
Definition onError6 (clientPort : Z) (s : State6) (i : nat) (r : Run6) (code message : string) : State6 :=
  if String.eqb code "EACCES" || String.eqb code "EADDRINUSE"
  then onError s i r true ("cannot bind UDP :" +:+ dec clientPort +:+ " (" +:+ code +:+ ")")
  else if String.eqb code "EAFNOSUPPORT" then onError s i r true "IPv6 is not available on this host"
  else onError s i r false message.

Example advertise_read :
  parseAdvertise (uint8 2 ++ be_bytes 3 66051 ++ encode_options
    [(OPT_SERVERID, [0; 3; 0; 1; 222; 173; 190; 239; 0; 1]);
     (OPT_IA_NA, alloc 12 ++ option_ OPT_IAADDR ([253; 0] ++ alloc 13 ++ [9] ++ uint32be 60 ++ uint32be 120));
     (OPT_DOMAIN_LIST, [3; 108; 97; 110; 0])])
  = Ok (Some (mkAdvertise 2 66051 (Some "00:03:00:01:de:ad:be:ef:00:01") None
      [mkIaAddress "fd00::9" 60 120] [] ["lan"] None None false)).
Proof. vm_compute. reflexivity. Qed.

(** ** Lemmas: options *)

Definition option_fits (o : Z * bytes) : Prop := 0 <= fst o < 65536 /\ blength (snd o) < 65536.

Lemma read16_mid pre v post off :
  off = blength pre -> 0 <= v < 65536 -> readUInt16BE (pre ++ uint16be v ++ post) off = Ok v.
Proof.
  intros Ho Hv. unfold readUInt16BE. rewrite readUIntBE_mid by done. unfold uint16be. by rewrite be_value_bytes.
Qed.

Lemma blength_uint16 v : blength (uint16be v) = 2.
Proof. unfold blength, uint16be. by rewrite length_be_bytes. Qed.

Lemma blength_option code d : blength (option_ code d) = 4 + blength d.
Proof. unfold option_. rewrite !blength_app, !blength_uint16. lia. Qed.

Lemma blength_nonneg b : 0 <= blength b.
Proof. unfold blength. lia. Qed.

Lemma length_encode_options opts : (length opts <= length (encode_options opts))%nat.
Proof.
  unfold encode_options. induction opts as [|[code d] opts IH]; simpl; [lia|]. rewrite length_app.
  pose proof (blength_option code d). unfold blength in *. lia.
Qed.

Lemma options_loop_encode opts pre fuel :
  Forall option_fits opts -> (length opts <= fuel)%nat ->
  options_loop fuel (pre ++ encode_options opts) (blength pre) (blength (pre ++ encode_options opts)) = Ok opts.
Proof.
  intros Hf. revert pre fuel. induction Hf as [|[code d] opts [Hc Hd] Hf IH]; intros pre fuel Hfuel.
  - unfold encode_options. simpl. rewrite app_nil_r. destruct fuel; [done|]. cbn [options_loop].
    destruct (Z.leb_spec (blength pre + 4) (blength pre)); [lia|done].
  - destruct fuel as [|fuel]; [simpl in Hfuel; lia|]. simpl in Hc, Hd. unfold encode_options. cbn [map concat fst snd].
    fold (encode_options opts). set (rest := encode_options opts). set (buf := pre ++ option_ code d ++ rest).
    pose proof (blength_nonneg d). pose proof (blength_nonneg rest).
    assert (blength buf = blength pre + 4 + blength d + blength rest) as Hb
      by (unfold buf; rewrite !blength_app, blength_option; lia).
    cbn [options_loop]. destruct (Z.leb_spec (blength pre + 4) (blength buf)); [|lia].
    assert (readUInt16BE buf (blength pre) = Ok code) as ->.
    { unfold buf, option_. rewrite <- !app_assoc. by apply read16_mid. }
    cbn [mbind result_bind].
    assert (readUInt16BE buf (blength pre + 2) = Ok (blength d)) as ->.
    { unfold buf, option_. rewrite <- !app_assoc, (app_assoc pre). apply read16_mid; [|lia].
      by rewrite blength_app, blength_uint16. }
    cbn [mbind result_bind]. cbv zeta. destruct (Z.ltb_spec (blength buf) (blength pre + 4 + blength d)); [lia|].
    assert (subarray buf (blength pre + 4) (blength pre + 4 + blength d) = d) as ->.
    { unfold buf, option_. replace (pre ++ (uint16be code ++ uint16be (blength d) ++ d) ++ rest)
        with ((pre ++ uint16be code ++ uint16be (blength d)) ++ d ++ rest) by (by rewrite <- !app_assoc).
      apply subarray_mid; rewrite !blength_app, !blength_uint16; lia. }
    assert (buf = (pre ++ option_ code d) ++ rest) as Hbuf by (unfold buf; by rewrite app_assoc).
    replace (blength pre + 4 + blength d) with (blength (pre ++ option_ code d)) by (rewrite blength_app, blength_option; lia).
    rewrite Hbuf. unfold rest. rewrite IH by (simpl in Hfuel; lia). done.
Qed.

Lemma options_of_encode opts pre stop :
  Forall option_fits opts -> stop = blength (pre ++ encode_options opts) ->
  options_of (pre ++ encode_options opts) (blength pre) stop = Ok opts.
Proof.
  intros Hf ->. apply options_loop_encode; [done|]. rewrite length_app. pose proof (length_encode_options opts). lia.
Qed.

Lemma Forall_subarray (b : bytes) lo hi : Forall byte b -> Forall byte (subarray b lo hi).
Proof. intros. apply Forall_take. by apply Forall_drop. Qed.

Lemma readUIntBE_range b off n v : Forall byte b -> readUIntBE b off n = Ok v -> 0 <= v < 256 ^ Z.of_nat n.
Proof.
  intros Hb. unfold readUIntBE. destruct (Nat.eqb_spec (length (subarray b off (off + Z.of_nat n))) n) as [Hl|]; [|done].
  intros [= <-]. rewrite <- Hl at 3. apply be_value_bound. by apply Forall_subarray.
Qed.

(** On bytes, the generator always ends, with options made of bytes. *)
Lemma options_loop_total fuel buf off stop :
  Forall byte buf -> 0 <= off -> stop <= blength buf ->
  exists l, options_loop fuel buf off stop = Ok l /\ Forall (fun o => Forall byte (snd o)) l.
Proof.
  intros Hb. revert off. induction fuel as [|fuel IH]; intros off Ho Hs; cbn [options_loop]; [eexists; split; [done|constructor]|].
  destruct (Z.leb_spec (off + 4) stop); [|eexists; split; [done|constructor]].
  destruct (readUIntBE_ok buf off 2) as [code Hcode]; [lia|lia|]. unfold readUInt16BE. rewrite Hcode. cbn [mbind result_bind].
  destruct (readUIntBE_ok buf (off + 2) 2) as [len Hlen]; [lia|lia|]. rewrite Hlen. cbn [mbind result_bind].
  apply readUIntBE_range in Hlen; [|done]. cbv zeta.
  destruct (Z.ltb_spec stop (off + 4 + len)); [eexists; split; [done|constructor]|].
  destruct (IH (off + 4 + len)) as (l & -> & Hl); [lia|lia|]. eexists. split; [done|].
  constructor; [by apply Forall_subarray|done].
Qed.

(** The code returns here. *)
Ltac returns := eexists; reflexivity.

Lemma readAddress_total buf off : 0 <= off -> off + 16 <= blength buf -> exists s, readAddress buf off = Ok s.
Proof.
  intros Ho Hl. unfold readAddress, readBigUInt64BE.
  destruct (readUIntBE_ok buf off 8) as [hi ->]; [lia|lia|]. cbn [mbind result_bind].
  destruct (readUIntBE_ok buf (off + 8) 8) as [lo ->]; [lia|lia|]. cbn [mbind result_bind]. returns.
Qed.

Lemma parseStatus_total d : exists s, parseStatus d = Ok s.
Proof.
  unfold parseStatus. destruct (Z.ltb_spec (blength d) 2); [returns|].
  destruct (readUIntBE_ok d 0 2) as [c Hc]; [lia|lia|]. unfold readUInt16BE. rewrite Hc. cbn [mbind result_bind]. returns.
Qed.

Lemma ia_option_total a sub : exists a', ia_option a sub = Ok a'.
Proof.
  destruct sub as [code d]. unfold ia_option. destruct (_ && _) eqn:E1.
  - apply andb_true_iff in E1 as [_ Hl%Z.leb_le].
    destruct (readAddress_total d 0) as [s ->]; [lia|lia|]. cbn [mbind result_bind]. unfold readUInt32BE.
    destruct (readUIntBE_ok d 16 4) as [p ->]; [lia|lia|]. cbn [mbind result_bind].
    destruct (readUIntBE_ok d 20 4) as [v ->]; [lia|lia|]. cbn [mbind result_bind]. returns.
  - clear E1. destruct (_ && _); [|returns]. destruct (parseStatus_total d) as [s ->]. cbn [mbind result_bind]. returns.
Qed.

Lemma advertise_option_total a opt : Forall byte (snd opt) -> exists a', advertise_option a opt = Ok a'.
Proof.
  destruct opt as [code d]. simpl. intros Hb. unfold advertise_option.
  destruct (code =? OPT_SERVERID); [returns|]. destruct (code =? OPT_CLIENTID); [returns|].
  destruct (code =? OPT_IA_NA).
  { destruct (Z.ltb_spec (blength d) 12); [returns|]. unfold options_of.
    destruct (options_loop_total (length d) d 12 (blength d) Hb) as (l & -> & _); [lia|lia|]. cbn [mbind result_bind].
    apply fold_result_total. intros. apply ia_option_total. }
  destruct (code =? OPT_DNS_SERVERS).
  { destruct (map_result_total (fun i => readAddress d (16 * i)) (seqZ 0 (blength d / 16))) as [l ->]; [|cbn [mbind result_bind]; returns].
    intros i Hi%elem_of_seqZ. pose proof (Z.mul_div_le (blength d) 16 ltac:(lia)). apply readAddress_total; lia. }
  destruct (code =? OPT_DOMAIN_LIST); [returns|].
  destruct (code =? OPT_PREFERENCE).
  { destruct (Z.leb_spec 1 (blength d)); [|returns]. destruct (readUInt8_ok d 0) as [v ->]; [lia|lia|]. cbn [mbind result_bind]. returns. }
  destruct (code =? OPT_STATUS_CODE); [destruct (parseStatus_total d) as [s ->]; cbn [mbind result_bind]; returns|].
  destruct (code =? OPT_RAPID_COMMIT); returns.
Qed.

(** ** Lemmas: domain names *)

(** A name as DNS writes it: labels with their lengths, then the root. *)
Definition encode_label (l : bytes) : bytes := blength l :: l.
Definition encode_name (labels : list bytes) : bytes := concat (map encode_label labels) ++ [0].

Definition label_ok (l : bytes) : Prop := 0 < blength l < 256.

Lemma domain_labels fuel labels rest acc :
  Forall label_ok labels -> (length labels <= fuel)%nat ->
  domain_loop fuel (concat (map encode_label labels) ++ rest) acc =
  domain_loop (fuel - length labels) rest (acc ++ map latin1 labels).
Proof.
  intros Hl. revert fuel acc. induction Hl as [|l labels Hl0 Hl IH]; intros fuel acc Hf.
  - simpl. by rewrite app_nil_r, Nat.sub_0_r.
  - destruct fuel as [|fuel]; [simpl in Hf; lia|]. unfold label_ok in Hl0.
    cbn [map concat length Nat.sub]. unfold encode_label at 1. cbn [app domain_loop]. rewrite <- app_assoc.
    destruct (Z.eqb_spec (blength l) 0); [lia|].
    set (tail := concat (map encode_label labels) ++ rest). pose proof (blength_nonneg tail).
    rewrite blength_app. destruct (Z.ltb_spec (blength l + blength tail) (blength l)); [lia|].
    unfold blength at 1 2. rewrite Nat2Z.id, drop_app_length, take_app_length. unfold tail.
    rewrite IH by (simpl in Hf; lia). by rewrite <- app_assoc.
Qed.

Lemma domain_names fuel names :
  Forall (fun labels => labels <> [] /\ Forall label_ok labels) names ->
  (length (concat (map encode_name names)) < fuel)%nat ->
  domain_loop fuel (concat (map encode_name names)) [] = map (fun labels => join "." (map latin1 labels)) names.
Proof.
  intros Hn. revert fuel. induction Hn as [|labels names [Hne Hl] Hn IH]; intros fuel Hf.
  - destruct fuel; [simpl in Hf; lia|]. done.
  - cbn [map concat]. cbn [map concat] in Hf. unfold encode_name at 1. unfold encode_name at 1 in Hf. rewrite <- app_assoc in *.
    assert (length labels <= length (concat (map encode_label labels)))%nat as Hlen.
    { clear. induction labels as [|l labels IH]; simpl; [lia|]. rewrite length_app. lia. }
    rewrite !length_app in Hf. simpl in Hf. rewrite domain_labels by (done || lia). cbn [app].
    destruct (fuel - length labels)%nat as [|f] eqn:Hfuel; [lia|]. cbn [domain_loop]. rewrite Z.eqb_refl.
    assert (map latin1 labels <> []) by (by destruct labels).
    destruct (map latin1 labels) eqn:Hm; [done|]. rewrite IH by lia. done.
Qed.

(** ** Lemmas: the verdict *)

Definition trusted6 (c : Ctx6) (s : Seen) (mac : option string) : Prop :=
  (sourceIp s <> "" /\ (to_lower (sourceIp s) ∈ selfIps6 c \/ to_lower (sourceIp s) ∈ ips (authorized6 c))) \/
  (exists d, serverDuid (adv s) = Some d /\ (selfDuid c = Some (to_lower d) \/ to_lower d ∈ duids (authorized6 c))) \/
  (exists m, mac = Some m /\ m <> "" /\ to_lower m ∈ macs (authorized6 c)).

Lemma truthy_iff s : truthy s = true <-> s <> "".
Proof. unfold truthy. destruct (String.eqb_spec s ""); naive_solver. Qed.

Lemma classifyAdvertise_rogue c s mac : fst (classifyAdvertise s c mac) = true <-> ~ trusted6 c s mac.
Proof.
  unfold classifyAdvertise, trusted6. pose proof (truthy_iff (sourceIp s)) as Hs.
  assert (forall m, truthy m = true <-> m <> "") as Ht by apply truthy_iff.
  destruct (serverDuid (adv s)) as [d|]; cbn [option_map];
    destruct (selfDuid c) as [own|]; destruct (truthy (sourceIp s));
    repeat match goal with
    | |- context [bool_decide ?P] => destruct (bool_decide_reflect P)
    | |- context [String.eqb ?a ?b] => destruct (String.eqb_spec a b)
    | |- context [match mac with _ => _ end] => destruct mac as [m|]
    | |- context [truthy ?m] => destruct (truthy m) eqn:?
    end; cbn [fst andb]; naive_solver congruence.
Qed.

(** The entry a message of this probe makes. *)
Definition sees (ids : gmap Z string) (msg : bytes * string) (s : Seen) : Prop :=
  exists a name, parseAdvertise (fst msg) = Ok (Some a) /\ ids !! xid6 a = Some name /\
    adv s = a /\ sourceIp s = fst (splitZone (snd msg)) /\
    seenIface s = match snd (splitZone (snd msg)) with Some z => if truthy z then z else name | None => name end.

Lemma onMessage6_seen c ids r msg :
  (seen (onMessage6 c ids r msg) = seen r /\ forall s, sees ids msg s -> seenKey s ∈ map fst (seen r)) \/
  exists s, seen (onMessage6 c ids r msg) = seen r ++ [(seenKey s, s)] /\ sees ids msg s /\
    seenKey s ∉ map fst (seen r) /\ forall s', sees ids msg s' -> s' = s.
Proof.
  destruct msg as [data address]. unfold onMessage6, sees. cbn [fst snd].
  destruct (parseAdvertise data) as [[a|]|]; [|left; split; [done|]; intros ? (? & ? & ? & _); done..].
  destruct (ids !! xid6 a) as [name|] eqn:Hx; [|left; split; [done|]; intros ? (a' & ? & Ha & ? & _); injection Ha as <-; congruence].
  destruct (splitZone address) as [ip zone]. cbn [fst snd]. cbv zeta.
  set (s := mkSeen a ip (match zone with Some z => if truthy z then z else name | None => name end)).
  assert (forall s', (exists a' name', Ok (Some a) = Ok (E := range_error) (Some a') /\ ids !! xid6 a' = Some name' /\ adv s' = a' /\
    sourceIp s' = ip /\ seenIface s' = match zone with Some z => if truthy z then z else name' | None => name' end) -> s' = s) as Hu.
  { intros [a1 i1 f1] (a' & name' & Ha & Hi & E1 & E2 & E3). injection Ha as <-. simpl in *.
    assert (name' = name) as -> by congruence. unfold s. by subst. }
  destruct (existsb _ (seen r)) eqn:Hex; cbn [seen].
  - left. split; [done|]. intros s' Hs'%Hu. subst s'. apply existsb_exists in Hex as ([k e] & Hin & Hk%String.eqb_eq).
    simpl in Hk. subst k. apply list_elem_of_In, in_map_iff. by exists (seenKey s, e).
  - right. exists s. split_and!; [done| | |exact Hu].
    + exists a, name. done.
    + intros Hin. apply list_elem_of_In, in_map_iff in Hin as ([k e] & Hk & Hin). simpl in Hk. subst k.
      rewrite <- not_true_iff_false in Hex. destruct Hex. apply existsb_exists. eexists. split; [exact Hin|]. apply String.eqb_refl.
Qed.

Lemma collect_seen c ids msgs r :
  NoDup (map fst (seen r)) -> (forall k s, (k, s) ∈ seen r -> k = seenKey s) ->
  let r' := fold_left (onMessage6 c ids) msgs r in
  NoDup (map fst (seen r')) /\
  (forall k s, (k, s) ∈ seen r' -> k = seenKey s /\ ((k, s) ∈ seen r \/ exists m, m ∈ msgs /\ sees ids m s)) /\
  (forall k, k ∈ map fst (seen r) -> k ∈ map fst (seen r')) /\
  (forall m s, m ∈ msgs -> sees ids m s -> seenKey s ∈ map fst (seen r')).
Proof.
  revert r. induction msgs as [|m msgs IH]; intros r Hnd Hk r'; subst r'; cbn [fold_left].
  { split_and!; [done|auto|auto|by intros ?? ?%not_elem_of_nil]. }
  set (r1 := onMessage6 c ids r m).
  assert (NoDup (map fst (seen r1)) /\ (forall k s, (k, s) ∈ seen r1 -> k = seenKey s /\ ((k, s) ∈ seen r \/ sees ids m s)) /\
    (forall k, k ∈ map fst (seen r) -> k ∈ map fst (seen r1)) /\
    (forall s, sees ids m s -> seenKey s ∈ map fst (seen r1))) as (Hnd1 & Hfrom & Hkeep & Hsee).
  { unfold r1. destruct (onMessage6_seen c ids r m) as [[-> Hs]|(s & -> & Hs & Hni & Hu)]; [naive_solver|].
    rewrite map_app. cbn [map fst]. split_and!.
    - apply NoDup_app. split_and!; [done| |repeat constructor; by apply not_elem_of_nil].
      intros y Hy ->%list_elem_of_singleton. done.
    - intros k s' [Hp|Hp%list_elem_of_singleton]%elem_of_app; [auto|]. injection Hp as -> ->. auto.
    - intros y Hy. apply elem_of_app. by left.
    - intros s' Hs'. rewrite (Hu _ Hs'). apply elem_of_app. right. by apply list_elem_of_singleton. }
  destruct (IH r1 Hnd1) as (H1 & H2 & H3 & H4); [intros; by apply Hfrom|]. split_and!; [done|..].
  - intros k s Hin%H2. destruct Hin as [Heq [Hin|(m' & Hm' & Hs)]]; (split; [done|]).
    + apply Hfrom in Hin as [_ [|Hs]]; [by left|right]. exists m. split; [apply elem_of_cons; by left|done].
    + right. exists m'. split; [apply elem_of_cons; by right|done].
  - auto.
  - intros m' s [->|Hm']%elem_of_cons Hs; [eauto|by eapply H4].
Qed.

Lemma solicit_fits mac : Forall option_fits (solicit_options mac).
Proof.
  assert (length (macBytes mac) = 6%nat) as Hm by (unfold macBytes; rewrite length_take, length_app, repeat_length; lia).
  assert (blength (clientDuidFor mac) = 10) as Hd by (unfold clientDuidFor; rewrite blength_app, (blength_eq 6 (macBytes mac)) by done; reflexivity).
  unfold solicit_options. repeat constructor; cbn [fst snd]; rewrite ?Hd, ?blength_app; unfold uint32be, uint16be, OPT_CLIENTID;
    rewrite ?(blength_eq 4 (be_bytes 4 _)), ?(blength_eq 2 (be_bytes 2 _)) by apply length_be_bytes; vm_compute; done.
Qed.

(** ** Properties *)

(** What [buildSolicit] sends is a SOLICIT a server can read: it carries
    the transaction id's low 24 bits and, in order, the client identifier, the
    elapsed time, one IA_NA and the option request; the probe never takes its
    own SOLICIT for an answer; and for a well-formed Ethernet address the
    client identifier is a DUID that gives that address back. *)
Theorem solicit_reads_back xid m0 m1 m2 m3 m4 m5 :
  Forall byte [m0; m1; m2; m3; m4; m5] ->
  let mac := join ":" (map byte_hex [m0; m1; m2; m3; m4; m5]) in
  let s := buildSolicit xid mac in
  readUInt8 s 0 = Ok MSG_SOLICIT /\ readUIntBE s 1 3 = Ok (Z.land xid 16777215) /\
  options_of s 4 (blength s) = Ok (solicit_options mac) /\
  parseAdvertise s = Ok None /\
  clientDuidFor mac = [0; 3; 0; 1; m0; m1; m2; m3; m4; m5] /\
  (duid ← duidFromBytes (clientDuidFor mac); macFromDuid duid) = Some mac.
Proof.
  intros Hb mac s. pose proof (solicit_fits mac) as Hfit.
  assert (macBytes mac = [m0; m1; m2; m3; m4; m5]) as Hmac.
  { unfold macBytes, mac. rewrite split_char_join; [|done|].
    - rewrite map_map. assert (Forall (fun m => match parseInt16 (byte_hex m) with Some v => Z.land v 255 | None => 0 end = m) [m0; m1; m2; m3; m4; m5]) as Hp.
      { eapply Forall_impl; [exact Hb|]. intros m Hm. apply Z.eqb_eq. revert m Hm.
        apply (byte_cases (fun m => match parseInt16 (byte_hex m) with Some v => Z.land v 255 | None => 0 end =? m)).
        vm_compute. reflexivity. }
      match goal with |- context [map ?f ?l] => assert (map f l = l) as -> end; [|reflexivity].
      repeat (apply Forall_cons in Hp as [? Hp]). cbn [map]. congruence.
    - eapply Forall_impl; [by apply bytes_hex_ok|]. apply duid_byte_no_colon. }
  set (x := Z.land xid 16777215). assert (0 <= x < 256 ^ Z.of_nat 3) as Hx.
  { unfold x. change 16777215 with (2 ^ 24 - 1). rewrite land_ones_mod by lia. apply Z.mod_pos_bound. lia. }
  assert (exists b0 b1 b2, be_bytes 3 x = [b0; b1; b2] /\ be_value [b0; b1; b2] = x) as (b0 & b1 & b2 & Hx3 & Hxv).
  { pose proof (length_be_bytes 3 x) as Hl. pose proof (be_value_bytes 3 x Hx) as Hv.
    destruct (be_bytes 3 x) as [|b0 [|b1 [|b2 [|]]]]; try done. by exists b0, b1, b2. }
  assert (s = [1; b0; b1; b2] ++ encode_options (solicit_options mac)) as Hs
    by (unfold s, buildSolicit; fold x; rewrite Hx3; done).
  assert (clientDuidFor mac = [0; 3; 0; 1; m0; m1; m2; m3; m4; m5]) as Hduid by (unfold clientDuidFor; by rewrite Hmac).
  assert (readUInt8 s 0 = Ok MSG_SOLICIT) as H0 by (by rewrite Hs).
  split_and!; [done| | | |done|].
  - rewrite Hs. change ([1; b0; b1; b2] ++ ?l) with ([1] ++ [b0; b1; b2] ++ l).
    rewrite readUIntBE_mid by done. by rewrite Hxv.
  - rewrite Hs. change 4 with (blength [1; b0; b1; b2]) at 1. by apply options_of_encode.
  - unfold parseAdvertise. assert (4 <= blength s).
    { rewrite Hs, blength_app. pose proof (blength_nonneg (encode_options (solicit_options mac))).
      change (blength [1; b0; b1; b2]) with 4. lia. }
    destruct (Z.ltb_spec (blength s) 4); [lia|]. rewrite H0. reflexivity.
  - rewrite Hduid. transitivity (macFromDuid (join ":" (map byte_hex ([0; 3] ++ [0; 1] ++ [] ++ [m0; m1; m2; m3; m4; m5])))); [done|].
    apply macFromDuid_bytes; try done; [|by left].
    apply Forall_app. split; [by repeat constructor|]. apply Forall_app. split; [by repeat constructor|done].
Qed.

Lemma solicit_reads_back_witness :
  (duid ← duidFromBytes (clientDuidFor "de:ad:be:ef:00:01"); macFromDuid duid) = Some "de:ad:be:ef:00:01".
Proof.
  refine (proj2 (proj2 (proj2 (proj2 (proj2 (solicit_reads_back 66051 222 173 190 239 0 1 _)))))).
  repeat constructor; vm_compute; done.
Defined.

(** Reading an ADVERTISE never throws, whatever bytes arrive, and for an
    ADVERTISE or REPLY made of any options it takes from each option, in
    order, what the code's [switch] says, refusing the message exactly when no
    server identifier is left at the end. *)
Theorem advertise_reads_back type x opts buf :
  type = MSG_ADVERTISE \/ type = MSG_REPLY -> 0 <= x < 2 ^ 24 -> Forall option_fits opts -> Forall byte buf ->
  (exists o, parseAdvertise buf = Ok o) /\
  parseAdvertise (uint8 type ++ be_bytes 3 x ++ encode_options opts) =
    (a ← fold_result advertise_option opts (new_advertise type x);
     mret (match serverDuid a with None => None | Some _ => Some a end)).
Proof.
  intros Ht Hx Hf Hb. split.
  - unfold parseAdvertise. destruct (Z.ltb_spec (blength buf) 4); [returns|].
    destruct (readUInt8_ok buf 0) as [t ->]; [lia|lia|]. cbn [mbind result_bind]. destruct (negb _ && _); [returns|].
    destruct (readUIntBE_ok buf 1 3) as [i ->]; [lia|lia|]. cbn [mbind result_bind]. unfold options_of.
    destruct (options_loop_total (length buf) buf 4 (blength buf) Hb) as (l & -> & Hl); [lia|lia|]. cbn [mbind result_bind].
    destruct (fold_result_total advertise_option l (new_advertise t i)) as [a ->]; [|returns].
    intros b o Ho. apply advertise_option_total. rewrite Forall_forall in Hl. by apply Hl.
  - assert (exists b0 b1 b2, be_bytes 3 x = [b0; b1; b2] /\ be_value [b0; b1; b2] = x) as (b0 & b1 & b2 & Hx3 & Hxv).
    { pose proof (length_be_bytes 3 x) as Hl. pose proof (be_value_bytes 3 x Hx) as Hv.
      destruct (be_bytes 3 x) as [|b0 [|b1 [|b2 [|]]]]; try done. by exists b0, b1, b2. }
    rewrite Hx3. set (s := uint8 type ++ [b0; b1; b2] ++ encode_options opts).
    assert (s = [type mod 256; b0; b1; b2] ++ encode_options opts) as Hs by done.
    assert (type mod 256 = type) as Htm by (destruct Ht as [-> | ->]; done).
    unfold parseAdvertise. assert (4 <= blength s).
    { rewrite Hs, blength_app. pose proof (blength_nonneg (encode_options opts)).
      change (blength [type mod 256; b0; b1; b2]) with 4. lia. }
    destruct (Z.ltb_spec (blength s) 4); [lia|].
    assert (readUInt8 s 0 = Ok type) as -> by (rewrite Hs, Htm; done). cbn [mbind result_bind].
    assert (negb (type =? MSG_ADVERTISE) && negb (type =? MSG_REPLY) = false) as -> by (destruct Ht as [-> | ->]; done).
    assert (readUIntBE s 1 3 = Ok x) as ->.
    { rewrite Hs. change ([type mod 256; b0; b1; b2] ++ ?l) with ([type mod 256] ++ [b0; b1; b2] ++ l).
      rewrite readUIntBE_mid by done. by rewrite Hxv. }
    cbn [mbind result_bind].
    assert (options_of s 4 (blength s) = Ok opts) as ->; [|done].
    rewrite Hs. change 4 with (blength [type mod 256; b0; b1; b2]) at 1. by apply options_of_encode.
Qed.

Lemma advertise_reads_back_witness :
  parseAdvertise (uint8 2 ++ be_bytes 3 66051 ++ encode_options [(OPT_SERVERID, [0; 2; 9]); (OPT_PREFERENCE, [255])]) =
    Ok (Some (mkAdvertise 2 66051 (Some "00:02:09") None [] [] [] (Some 255) None false)).
Proof.
  refine (eq_trans (proj2 (advertise_reads_back 2 66051 [(OPT_SERVERID, [0; 2; 9]); (OPT_PREFERENCE, [255])] [] _ _ _ _)) _).
  - left. reflexivity.
  - split; vm_compute; congruence.
  - repeat constructor; vm_compute; congruence.
  - constructor.
  - vm_compute. reflexivity.
Defined.

(** Domain search lists round-trip: from names in DNS wire form,
    [parseDomainList] gives each name, its labels joined with dots. *)
Theorem domain_list_roundtrip names :
  Forall (fun labels => labels <> [] /\ Forall label_ok labels) names ->
  parseDomainList (concat (map encode_name names)) = map (fun labels => join "." (map latin1 labels)) names.
Proof. intros Hn. apply domain_names; [done|lia]. Qed.

Lemma domain_list_roundtrip_witness :
  parseDomainList [3; 108; 97; 110; 0; 1; 97; 2; 98; 99; 0] = ["lan"; "a.bc"].
Proof.
  apply (domain_list_roundtrip [[[108; 97; 110]]; [[97]; [98; 99]]]).
  repeat constructor; try congruence; vm_compute; congruence.
Defined.

(** The DHCPv6 probe reports exactly the untrusted servers among those
    that answered it: over any sequence of datagrams, each pair of server
    identifier and source is kept once, each one kept was shown by a message
    for one of the probe's own ids and each one so shown is kept; and a kept
    one becomes an event unless its address or DUID is the appliance's own or
    one of its address, DUID and neighbor's MAC is allowlisted. *)
Theorem rogues6_exact c ids msgs :
  let r := fold_left (onMessage6 c ids) msgs no_replies in
  NoDup (map fst (seen r)) /\
  (forall k s, (k, s) ∈ seen r -> k = seenKey s /\ exists m, m ∈ msgs /\ sees ids m s) /\
  (forall m s, m ∈ msgs -> sees ids m s -> seenKey s ∈ map fst (seen r)) /\
  (forall ev, ev ∈ rogue_events c r <-> exists k s, (k, s) ∈ seen r /\ rogue6 c s = Some ev) /\
  (forall s, is_Some (rogue6 c s) <->
     ~ trusted6 c s (match neighborMac c (sourceIp s) (seenIface s) with
                     | Some m => if truthy m then Some m else None | None => None end)).
Proof.
  intros r. destruct (collect_seen c ids msgs (mkReplies6 0 [])) as (H1 & H2 & _ & H4);
    [constructor|by intros ?? ?%not_elem_of_nil|].
  split_and!; [done| |done| |].
  - intros k s Hin%H2. destruct Hin as [Hk [Hin|?]]; [by apply not_elem_of_nil in Hin|done].
  - intros ev. unfold rogue_events, dhcp6_protocol. rewrite list_elem_of_omap. split.
    + intros ([k s] & Hin & Hev). by exists k, s.
    + intros (k & s & Hin & Hev). by exists (k, s).
  - intros s. unfold rogue6. rewrite <- classifyAdvertise_rogue.
    destruct (fst (classifyAdvertise s c _)); split; done.
Qed.
