(* ===== verification/DhcpCatalog.v ===== *)
(** * The DHCP option catalogs

    [server/src/utils/dhcp-options.js]: the standard DHCPv4 and DHCPv6
    options with their types and groups, the codes the DHCP server builds
    itself, and the two tests every route that accepts an option code uses. *)

From S2P Require Import Prelude JsString.

(** An entry of [DHCP_OPTIONS] or [DHCP6_OPTIONS]. *)
Record OptionEntry := mkOption {
  code : Z;
  name : string;
  label : string;
  type_ : string;
  group : string;
  rfc : string;
  rfcUrl : string;
  description : string;
  choices : list string;
  builtIn : bool }.

Definition DHCP_OPTION_GROUPS : list (string * string) := [
  ("Common", "Common");
  ("Network", "Network");
  ("DNS", "DNS");
  ("Time", "Time");
  ("Boot/PXE", "Boot / PXE");
  ("NetBIOS", "NetBIOS");
  ("Custom", "Custom");
  ("Ancient History", "Ancient History")
].

(** ** DHCPv4, a list per section of the source *)

Definition common_options : list OptionEntry := [
  mkOption 1 "subnet-mask" "Subnet Mask" "ip" "Common"
    "RFC 2132" "https://datatracker.ietf.org/doc/html/rfc2132#section-3.3"
    "Subnet mask for the client's network interface."
    [] false;
  mkOption 3 "router" "Gateway / Router" "ip-list" "Common"
    "RFC 2132" "https://datatracker.ietf.org/doc/html/rfc2132#section-3.5"
    "Default gateway routers, listed in order of preference."
    [] false;
  mkOption 6 "dns-server" "DNS Servers" "ip-list" "Common"
    "RFC 2132" "https://datatracker.ietf.org/doc/html/rfc2132#section-3.8"
    "DNS recursive name servers available to the client."
    [] false;
  mkOption 15 "domain-name" "Domain Name" "text" "Common"
    "RFC 2132" "https://datatracker.ietf.org/doc/html/rfc2132#section-3.17"
    "Domain name the client should use for DNS hostname resolution."
    [] false;
  mkOption 26 "mtu" "Interface MTU" "number" "Common"
    "RFC 2132" "https://datatracker.ietf.org/doc/html/rfc2132#section-5.1"
    "Maximum transmission unit for the interface."
    [] false;
  mkOption 28 "broadcast" "Broadcast Address" "ip" "Common"
    "RFC 2132" "https://datatracker.ietf.org/doc/html/rfc2132#section-5.3"
    "Broadcast address for the client's subnet."
    [] false;
  mkOption 51 "lease-time" "Lease Time" "number" "Common"
    "RFC 2132" "https://datatracker.ietf.org/doc/html/rfc2132#section-9.2"
    "IP address lease time in seconds."
    [] false
].

Definition network_options : list OptionEntry := [
  mkOption 2 "time-offset" "Time Offset" "number" "Network"
    "RFC 2132" "https://datatracker.ietf.org/doc/html/rfc2132#section-3.4"
    "UTC offset in seconds for the client's subnet."
    [] false;
  mkOption 4 "time-server" "Time Servers (RFC 868)" "ip-list" "Network"
    "RFC 2132" "https://datatracker.ietf.org/doc/html/rfc2132#section-3.6"
    "RFC 868 time servers available to the client."
    [] false;
  mkOption 5 "name-server" "IEN 116 Name Servers" "ip-list" "Network"
    "RFC 2132" "https://datatracker.ietf.org/doc/html/rfc2132#section-3.7"
    "IEN 116 name servers available to the client."
    [] false;
  mkOption 21 "policy-filter" "Policy Filter" "text" "Network"
    "RFC 2132" "https://datatracker.ietf.org/doc/html/rfc2132#section-4.4"
    "Policy filters for non-local source-routed datagrams (IP/mask pairs)."
    [] false;
  mkOption 31 "router-discovery" "Router Discovery" "select" "Network"
    "RFC 2132" "https://datatracker.ietf.org/doc/html/rfc2132#section-5.6"
    "Whether the client should perform ICMP router discovery."
    ["0"; "1"] false;
  mkOption 32 "router-solicitation" "Router Solicitation Address" "ip" "Network"
    "RFC 2132" "https://datatracker.ietf.org/doc/html/rfc2132#section-5.7"
    "Address to which the client transmits router solicitation requests."
    [] false;
  mkOption 33 "static-route" "Static Routes" "text" "Network"
    "RFC 2132" "https://datatracker.ietf.org/doc/html/rfc2132#section-5.8"
    "List of destination/router pairs the client should install. Superseded by option 121."
    [] false;
  mkOption 34 "trailer-encap" "Trailer Encapsulation" "select" "Network"
    "RFC 2132" "https://datatracker.ietf.org/doc/html/rfc2132#section-5.9"
    "Whether the client should negotiate trailer encapsulation."
    ["0"; "1"] false;
  mkOption 35 "arp-timeout" "ARP Cache Timeout" "number" "Network"
    "RFC 2132" "https://datatracker.ietf.org/doc/html/rfc2132#section-5.10"
    "Timeout in seconds for ARP cache entries."
    [] false;
  mkOption 36 "ethernet-encap" "Ethernet Encapsulation" "select" "Network"
    "RFC 2132" "https://datatracker.ietf.org/doc/html/rfc2132#section-5.11"
    "Whether to use IEEE 802.3 (0) or Ethernet II (1) framing."
    ["0"; "1"] false;
  mkOption 37 "tcp-default-ttl" "TCP Default TTL" "number" "Network"
    "RFC 2132" "https://datatracker.ietf.org/doc/html/rfc2132#section-5.12"
    "Default TTL for TCP segments (1-255)."
    [] false;
  mkOption 38 "tcp-keepalive-interval" "TCP Keepalive Interval" "number" "Network"
    "RFC 2132" "https://datatracker.ietf.org/doc/html/rfc2132#section-5.13"
    "Interval in seconds between TCP keepalive messages. 0 disables."
    [] false;
  mkOption 82 "relay-agent-info" "Relay Agent Information" "text" "Network"
    "RFC 3046" "https://datatracker.ietf.org/doc/html/rfc3046"
    "Information inserted by DHCP relay agents. Used for agent-based policies."
    [] false;
  mkOption 121 "classless-static-route" "Classless Static Routes" "text" "Network"
    "RFC 3442" "https://datatracker.ietf.org/doc/html/rfc3442"
    "Classless static routes with CIDR notation. Supersedes option 33."
    [] false
].

Definition dns_options : list OptionEntry := [
  mkOption 12 "hostname" "Hostname" "text" "DNS"
    "RFC 2132" "https://datatracker.ietf.org/doc/html/rfc2132#section-3.14"
    "Hostname for the client."
    [] false;
  mkOption 40 "nis-domain" "NIS Domain Name" "text" "DNS"
    "RFC 2132" "https://datatracker.ietf.org/doc/html/rfc2132#section-8.1"
    "Network Information Service (NIS) domain name."
    [] false;
  mkOption 41 "nis-server" "NIS Servers" "ip-list" "DNS"
    "RFC 2132" "https://datatracker.ietf.org/doc/html/rfc2132#section-8.2"
    "NIS server addresses, in order of preference."
    [] false;
  mkOption 119 "domain-search" "DNS Search List" "text-list" "Common"
    "RFC 3397" "https://datatracker.ietf.org/doc/html/rfc3397"
    "Domain search list for hostname resolution."
    [] false
].

Definition time_options : list OptionEntry := [
  mkOption 42 "ntp-server" "NTP Servers" "ip-list" "Common"
    "RFC 2132" "https://datatracker.ietf.org/doc/html/rfc2132#section-8.3"
    "NTP server addresses, in order of preference. Enter hostnames or IPs, hostnames are resolved automatically."
    [] false
].

Definition boot_options : list OptionEntry := [
  mkOption 13 "boot-file-size" "Boot File Size" "number" "Boot/PXE"
    "RFC 2132" "https://datatracker.ietf.org/doc/html/rfc2132#section-3.15"
    "Length of the default boot image in 512-octet blocks."
    [] false;
  mkOption 43 "vendor-specific" "Vendor-Specific Info" "text" "Boot/PXE"
    "RFC 2132" "https://datatracker.ietf.org/doc/html/rfc2132#section-8.4"
    "Vendor-specific information, interpreted by vendor code on the client."
    [] false;
  mkOption 60 "vendor-class" "Vendor Class ID" "text" "Boot/PXE"
    "RFC 2132" "https://datatracker.ietf.org/doc/html/rfc2132#section-9.13"
    "Vendor class identifier used to distinguish vendor-type clients."
    [] false;
  mkOption 66 "tftp-server" "TFTP Server Name" "text" "Boot/PXE"
    "RFC 2132" "https://datatracker.ietf.org/doc/html/rfc2132#section-9.4"
    "TFTP server hostname for network boot."
    [] false;
  mkOption 67 "bootfile-name" "Bootfile Name" "text" "Boot/PXE"
    "RFC 2132" "https://datatracker.ietf.org/doc/html/rfc2132#section-9.5"
    "Name of the boot file for network boot (PXE)."
    [] false;
  mkOption 150 "tftp-server-address" "TFTP Server Address (Cisco)" "ip" "Boot/PXE"
    "RFC 5859" "https://datatracker.ietf.org/doc/html/rfc5859"
    "TFTP server IP address. Commonly used by Cisco IP phones."
    [] false;
  mkOption 252 "wpad-url" "WPAD URL" "text" "Boot/PXE"
    "WPAD Draft" "https://datatracker.ietf.org/doc/html/draft-ietf-wrec-wpad-01"
    "Web Proxy Auto-Discovery URL for automatic proxy configuration."
    [] false
].

Definition netbios_options : list OptionEntry := [
  mkOption 44 "netbios-ns" "NetBIOS Name Server (WINS)" "ip-list" "NetBIOS"
    "RFC 2132" "https://datatracker.ietf.org/doc/html/rfc2132#section-8.5"
    "NetBIOS over TCP/IP name server (WINS) addresses."
    [] false;
  mkOption 45 "netbios-dd" "NetBIOS Datagram Dist" "ip-list" "NetBIOS"
    "RFC 2132" "https://datatracker.ietf.org/doc/html/rfc2132#section-8.6"
    "NetBIOS datagram distribution server addresses."
    [] false;
  mkOption 46 "netbios-nodetype" "NetBIOS Node Type" "select" "NetBIOS"
    "RFC 2132" "https://datatracker.ietf.org/doc/html/rfc2132#section-8.7"
    "NetBIOS node type: 1=B-node, 2=P-node, 4=M-node, 8=H-node."
    ["1"; "2"; "4"; "8"] false;
  mkOption 47 "netbios-scope" "NetBIOS Scope" "text" "NetBIOS"
    "RFC 2132" "https://datatracker.ietf.org/doc/html/rfc2132#section-8.8"
    "NetBIOS over TCP/IP scope parameter."
    [] false
].

Definition ancient_options_1 : list OptionEntry := [
  mkOption 7 "log-server" "Log Server" "ip-list" "Ancient History"
    "RFC 2132" "https://datatracker.ietf.org/doc/html/rfc2132#section-3.9"
    "MIT-LCS UDP log server addresses."
    [] false;
  mkOption 8 "cookie-server" "Cookie Server" "ip-list" "Ancient History"
    "RFC 2132" "https://datatracker.ietf.org/doc/html/rfc2132#section-3.10"
    "RFC 865 cookie/quote-of-the-day server addresses."
    [] false;
  mkOption 9 "lpr-server" "LPR Server" "ip-list" "Ancient History"
    "RFC 2132" "https://datatracker.ietf.org/doc/html/rfc2132#section-3.11"
    "Line printer (LPR) server addresses."
    [] false;
  mkOption 10 "impress-server" "Impress Server" "ip-list" "Ancient History"
    "RFC 2132" "https://datatracker.ietf.org/doc/html/rfc2132#section-3.12"
    "Imagen Impress network image server addresses."
    [] false;
  mkOption 11 "rlp-server" "Resource Location Server" "ip-list" "Ancient History"
    "RFC 2132" "https://datatracker.ietf.org/doc/html/rfc2132#section-3.13"
    "RFC 887 Resource Location Protocol server addresses."
    [] false;
  mkOption 14 "merit-dump-file" "Merit Dump File" "text" "Ancient History"
    "RFC 2132" "https://datatracker.ietf.org/doc/html/rfc2132#section-3.16"
    "Path name for a file to dump core image on crash."
    [] false;
  mkOption 16 "swap-server" "Swap Server" "ip" "Ancient History"
    "RFC 2132" "https://datatracker.ietf.org/doc/html/rfc2132#section-3.18"
    "IP address of the client's swap server."
    [] false;
  mkOption 17 "root-path" "Root Path" "text" "Ancient History"
    "RFC 2132" "https://datatracker.ietf.org/doc/html/rfc2132#section-3.19"
    "Path name for the client's root disk."
    [] false;
  mkOption 18 "extensions-path" "Extensions Path" "text" "Ancient History"
    "RFC 2132" "https://datatracker.ietf.org/doc/html/rfc2132#section-3.20"
    "Path to a file with additional DHCP-like vendor extensions."
    [] false;
  mkOption 19 "ip-forwarding" "IP Forwarding" "select" "Ancient History"
    "RFC 2132" "https://datatracker.ietf.org/doc/html/rfc2132#section-4.1"
    "Enable (1) or disable (0) IP packet forwarding on the client."
    ["0"; "1"] false;
  mkOption 20 "non-local-source-route" "Non-Local Source Routing" "select" "Ancient History"
    "RFC 2132" "https://datatracker.ietf.org/doc/html/rfc2132#section-4.2"
    "Enable (1) or disable (0) forwarding of non-local source-routed datagrams."
    ["0"; "1"] false;
  mkOption 22 "max-dgram-reassembly" "Max Datagram Reassembly" "number" "Ancient History"
    "RFC 2132" "https://datatracker.ietf.org/doc/html/rfc2132#section-4.5"
    "Maximum datagram size the client should reassemble (min 576)."
    [] false;
  mkOption 23 "default-ip-ttl" "Default IP TTL" "number" "Ancient History"
    "RFC 2132" "https://datatracker.ietf.org/doc/html/rfc2132#section-4.6"
    "Default time-to-live for outgoing IP datagrams (1-255)."
    [] false
].

Definition ancient_options_2 : list OptionEntry := [
  mkOption 24 "mtu-aging-timeout" "Path MTU Aging Timeout" "number" "Ancient History"
    "RFC 2132" "https://datatracker.ietf.org/doc/html/rfc2132#section-4.7"
    "Timeout in seconds for aging Path MTU values discovered by RFC 1191."
    [] false;
  mkOption 25 "mtu-plateau-table" "Path MTU Plateau Table" "text" "Ancient History"
    "RFC 2132" "https://datatracker.ietf.org/doc/html/rfc2132#section-4.8"
    "Table of MTU sizes for Path MTU Discovery, sorted smallest to largest."
    [] false;
  mkOption 27 "all-subnets-local" "All Subnets Local" "select" "Ancient History"
    "RFC 2132" "https://datatracker.ietf.org/doc/html/rfc2132#section-5.2"
    "Whether all subnets use the same MTU as the local subnet."
    ["0"; "1"] false;
  mkOption 29 "mask-discovery" "Mask Discovery" "select" "Ancient History"
    "RFC 2132" "https://datatracker.ietf.org/doc/html/rfc2132#section-5.4"
    "Whether to perform ICMP subnet mask discovery."
    ["0"; "1"] false;
  mkOption 30 "mask-supplier" "Mask Supplier" "select" "Ancient History"
    "RFC 2132" "https://datatracker.ietf.org/doc/html/rfc2132#section-5.5"
    "Whether to respond to ICMP subnet mask requests."
    ["0"; "1"] false;
  mkOption 39 "tcp-keepalive-garbage" "TCP Keepalive Garbage" "select" "Ancient History"
    "RFC 2132" "https://datatracker.ietf.org/doc/html/rfc2132#section-5.14"
    "Whether to send an octet of garbage in TCP keepalive messages for compatibility."
    ["0"; "1"] false;
  mkOption 48 "x-window-font" "X Window Font Server" "ip-list" "Ancient History"
    "RFC 2132" "https://datatracker.ietf.org/doc/html/rfc2132#section-8.9"
    "X Window System font server addresses."
    [] false;
  mkOption 49 "x-window-manager" "X Window Display Manager" "ip-list" "Ancient History"
    "RFC 2132" "https://datatracker.ietf.org/doc/html/rfc2132#section-8.10"
    "X Window System Display Manager addresses."
    [] false;
  mkOption 62 "netware-ip-domain" "NetWare/IP Domain" "text" "Ancient History"
    "RFC 2242" "https://datatracker.ietf.org/doc/html/rfc2242"
    "NetWare/IP domain name."
    [] false;
  mkOption 63 "netware-ip-option" "NetWare/IP Information" "text" "Ancient History"
    "RFC 2242" "https://datatracker.ietf.org/doc/html/rfc2242"
    "NetWare/IP sub-options for configuring the NetWare/IP client."
    [] false;
  mkOption 64 "nisplus-domain" "NIS+ Domain" "text" "Ancient History"
    "RFC 2132" "https://datatracker.ietf.org/doc/html/rfc2132#section-8.11"
    "NIS+ domain name for the client."
    [] false;
  mkOption 65 "nisplus-server" "NIS+ Servers" "ip-list" "Ancient History"
    "RFC 2132" "https://datatracker.ietf.org/doc/html/rfc2132#section-8.12"
    "NIS+ server addresses, in order of preference."
    [] false
].

Definition ancient_options_3 : list OptionEntry := [
  mkOption 68 "mobile-ip-home-agent" "Mobile IP Home Agent" "ip-list" "Ancient History"
    "RFC 2132" "https://datatracker.ietf.org/doc/html/rfc2132#section-8.13"
    "Mobile IP home agent addresses."
    [] false;
  mkOption 69 "smtp-server" "SMTP Server" "ip-list" "Ancient History"
    "RFC 2132" "https://datatracker.ietf.org/doc/html/rfc2132#section-8.14"
    "SMTP mail server addresses."
    [] false;
  mkOption 70 "pop3-server" "POP3 Server" "ip-list" "Ancient History"
    "RFC 2132" "https://datatracker.ietf.org/doc/html/rfc2132#section-8.15"
    "POP3 mail server addresses."
    [] false;
  mkOption 71 "nntp-server" "NNTP Server" "ip-list" "Ancient History"
    "RFC 2132" "https://datatracker.ietf.org/doc/html/rfc2132#section-8.16"
    "Network News (NNTP/Usenet) server addresses."
    [] false;
  mkOption 72 "www-server" "WWW Server" "ip-list" "Ancient History"
    "RFC 2132" "https://datatracker.ietf.org/doc/html/rfc2132#section-8.17"
    "Default World Wide Web server addresses."
    [] false;
  mkOption 73 "finger-server" "Finger Server" "ip-list" "Ancient History"
    "RFC 2132" "https://datatracker.ietf.org/doc/html/rfc2132#section-8.18"
    "Finger protocol server addresses."
    [] false;
  mkOption 74 "irc-server" "IRC Server" "ip-list" "Ancient History"
    "RFC 2132" "https://datatracker.ietf.org/doc/html/rfc2132#section-8.19"
    "Internet Relay Chat (IRC) server addresses."
    [] false;
  mkOption 75 "streettalk-server" "StreetTalk Server" "ip-list" "Ancient History"
    "RFC 2132" "https://datatracker.ietf.org/doc/html/rfc2132#section-8.20"
    "Banyan StreetTalk server addresses."
    [] false;
  mkOption 76 "streettalk-da" "StreetTalk DA Server" "ip-list" "Ancient History"
    "RFC 2132" "https://datatracker.ietf.org/doc/html/rfc2132#section-8.21"
    "Banyan StreetTalk Directory Assistance server addresses."
    [] false;
  mkOption 77 "user-class" "User Class" "text" "Ancient History"
    "RFC 3004" "https://datatracker.ietf.org/doc/html/rfc3004"
    "User class identifier for selecting configuration parameters."
    [] false
].

Definition DHCP_OPTIONS : list OptionEntry :=
  common_options ++ network_options ++ dns_options ++ time_options ++ boot_options ++ netbios_options
  ++ ancient_options_1 ++ ancient_options_2 ++ ancient_options_3.

(** [Object.fromEntries(list.map((o) => [o.code, o]))]: the last entry of a
    code wins. *)
Definition by_code (l : list OptionEntry) : gmap Z OptionEntry :=
  list_to_map (reverse (map (fun o => (code o, o)) l)).

Definition DHCP_OPTIONS_BY_CODE : gmap Z OptionEntry := by_code DHCP_OPTIONS.

Definition LEGACY_COLUMN_MAP : list (string * Z) := [
  ("gateway", 3);
  ("dns_servers", 6);
  ("domain_name", 15);
  ("ntp_servers", 42);
  ("domain_search", 119)
].

(** ** DHCPv6 *)

Definition common6_options : list OptionEntry := [
  mkOption 23 "dns-server" "DNS Servers" "ip-list" "Common"
    "RFC 3646" "https://datatracker.ietf.org/doc/html/rfc3646#section-3"
    "DNS recursive name servers available to the client, in order of preference. Defaults to CIDRella's IPv6 address on the network. Enter hostnames or IPv6 addresses, hostnames are resolved automatically."
    [] false;
  mkOption 24 "domain-search" "Domain Search List" "text-list" "Common"
    "RFC 3646" "https://datatracker.ietf.org/doc/html/rfc3646#section-4"
    "Domain suffixes the client appends when resolving short names. Defaults to the network's domain."
    [] false;
  mkOption 56 "ntp-server" "NTP Servers" "ip-list" "Common"
    "RFC 5908" "https://datatracker.ietf.org/doc/html/rfc5908"
    "NTP server addresses, in order of preference. Enter hostnames or IPv6 addresses, hostnames are resolved automatically."
    [] false
].

Definition network6_options : list OptionEntry := [
  mkOption 21 "sip-server-domain" "SIP Server Domains" "text-list" "Network"
    "RFC 3319" "https://datatracker.ietf.org/doc/html/rfc3319#section-3.1"
    "Domain names of SIP outbound proxy servers, in order of preference."
    [] false;
  mkOption 22 "sip-server" "SIP Servers" "ip-list" "Network"
    "RFC 3319" "https://datatracker.ietf.org/doc/html/rfc3319#section-3.2"
    "IPv6 addresses of SIP outbound proxy servers, in order of preference."
    [] false;
  mkOption 27 "nis-server" "NIS Servers" "ip-list" "Network"
    "RFC 3898" "https://datatracker.ietf.org/doc/html/rfc3898#section-3"
    "Network Information Service servers, in order of preference."
    [] false;
  mkOption 28 "nis+-server" "NIS+ Servers" "ip-list" "Network"
    "RFC 3898" "https://datatracker.ietf.org/doc/html/rfc3898#section-4"
    "NIS+ servers, in order of preference."
    [] false;
  mkOption 29 "nis-domain" "NIS Domain" "text" "Network"
    "RFC 3898" "https://datatracker.ietf.org/doc/html/rfc3898#section-5"
    "Network Information Service domain name."
    [] false;
  mkOption 30 "nis+-domain" "NIS+ Domain" "text" "Network"
    "RFC 3898" "https://datatracker.ietf.org/doc/html/rfc3898#section-6"
    "NIS+ domain name."
    [] false;
  mkOption 14 "rapid-commit" "Rapid Commit" "flag" "Network"
    "RFC 8415" "https://datatracker.ietf.org/doc/html/rfc8415#section-21.14"
    "Always on for stateful scopes. A client that asks for it in its Solicit gets its address in one Reply, two messages instead of four. The DHCP server always honors it, so there is nothing to set. With two stateful DHCPv6 servers on a link, each may commit a lease the client never uses until it expires."
    [] true;
  mkOption 103 "captive-portal" "Captive Portal URI" "text" "Network"
    "RFC 8910" "https://datatracker.ietf.org/doc/html/rfc8910#section-2"
    "URI of the captive portal API the client should consult before assuming open access."
    [] false
].

Definition time6_options : list OptionEntry := [
  mkOption 31 "sntp-server" "SNTP Servers" "ip-list" "Time"
    "RFC 4075" "https://datatracker.ietf.org/doc/html/rfc4075"
    "Simple NTP server addresses, for clients that do not understand the newer NTP Servers option (56)."
    [] false;
  mkOption 32 "information-refresh-time" "Information Refresh Time" "number" "Time"
    "RFC 8415" "https://datatracker.ietf.org/doc/html/rfc8415#section-21.23"
    "Seconds a stateless client waits before asking for its options again. Only sent in reply to an Information-request; addresses use the lease time instead."
    [] false;
  mkOption 41 "posix-timezone" "POSIX Time Zone" "text" "Time"
    "RFC 4833" "https://datatracker.ietf.org/doc/html/rfc4833#section-4.1"
    "Time zone as a POSIX TZ string, for example EST5EDT4,M3.2.0/02:00,M11.1.0/02:00."
    [] false;
  mkOption 42 "tzdb-timezone" "TZ Database Time Zone" "text" "Time"
    "RFC 4833" "https://datatracker.ietf.org/doc/html/rfc4833#section-4.2"
    "Time zone as a TZ database name, for example America/New_York."
    [] false
].

Definition boot6_options : list OptionEntry := [
  mkOption 59 "bootfile-url" "Boot File URL" "text" "Boot/PXE"
    "RFC 5970" "https://datatracker.ietf.org/doc/html/rfc5970#section-3.1"
    "URL of the network boot file, for example tftp://[fd00::10]/pxelinux.efi."
    [] false;
  mkOption 60 "bootfile-param" "Boot File Parameters" "text" "Boot/PXE"
    "RFC 5970" "https://datatracker.ietf.org/doc/html/rfc5970#section-3.2"
    "Parameters passed to the network boot file."
    [] false
].

Definition DHCP6_OPTIONS : list OptionEntry :=
  common6_options ++ network6_options ++ time6_options ++ boot6_options.

Definition DHCP6_OPTIONS_BY_CODE : gmap Z OptionEntry := by_code DHCP6_OPTIONS.

Definition DHCP6_INTERNAL_CODES : gset Z :=
  list_to_set [1; 2; 3; 4; 5; 6; 7; 12; 13; 14; 15; 16; 17; 39].

(** ** The catalog of a family *)

Record Catalog := mkCatalog {
  family : Z;
  options : list OptionEntry;
  byCode : gmap Z OptionEntry;
  maxCode : Z;
  customRange : Z * Z;
  internalCodes : gset Z;
  prefix : string }.

Definition CATALOG4 : Catalog :=
  mkCatalog 4 DHCP_OPTIONS DHCP_OPTIONS_BY_CODE 254 (128, 254) ∅ "option:".

Definition CATALOG6 : Catalog :=
  mkCatalog 6 DHCP6_OPTIONS DHCP6_OPTIONS_BY_CODE 65535 (1, 65535) DHCP6_INTERNAL_CODES "option6:".

Definition optionCatalogFor (fam : Z) : Catalog := if fam =? 6 then CATALOG6 else CATALOG4.

(** The codes asked about are of the family's range, so [dec] prints them. *)
Definition builtInCodeReason (k : Z) (fam : Z) : string :=
  match byCode (optionCatalogFor fam) !! k with
  | Some entry =>
      if builtIn entry then label entry +:+ " (" +:+ dec k +:+ ") is always on and has nothing to set"
      else "code " +:+ dec k +:+ " is built by the DHCP server itself"
  | None => "code " +:+ dec k +:+ " is built by the DHCP server itself"
  end.

(** A code is [None] when [Number.isInteger] refuses it: a fraction, a string
    or any other value of a request. *)
Definition isOptionCodeAllowed (k : option Z) (fam : Z) : bool :=
  match k with
  | None => false
  | Some k =>
      (1 <=? k) && (k <=? maxCode (optionCatalogFor fam))
      && negb (bool_decide (k ∈ internalCodes (optionCatalogFor fam)))
  end.

Example rapid_commit_reason : builtInCodeReason 14 6 = "Rapid Commit (14) is always on and has nothing to set".
Proof. vm_compute. reflexivity. Qed.

(** ** Lookup *)

(** With one entry per code the map is the list. *)
Lemma by_code_exact l k e :
  NoDup (map code l) -> (by_code l !! k = Some e <-> e ∈ l /\ code e = k).
Proof.
  intros Hnd. unfold by_code. rewrite <- elem_of_list_to_map.
  2:{ eapply NoDup_Permutation_proper; [by rewrite reverse_Permutation|]. by rewrite <- list_fmap_compose. }
  rewrite elem_of_reverse, list_elem_of_In, in_map_iff. split.
  - intros (x & [= <- <-] & Hx). split; [by apply list_elem_of_In|done].
  - intros [He <-]. exists e. split; [done|by apply list_elem_of_In].
Qed.

Definition codes_ok (c : Catalog) (e : OptionEntry) : bool :=
  (1 <=? code e) && (code e <=? maxCode c)
  && Bool.eqb (bool_decide (code e ∈ internalCodes c)) (builtIn e)
  && existsb (fun g => String.eqb (fst g) (group e)) DHCP_OPTION_GROUPS
  && Bool.eqb (match choices e with [] => false | _ => true end) (String.eqb (type_ e) "select").

Lemma catalog_entries fam :
  NoDup (map code (options (optionCatalogFor fam))) /\
  forallb (codes_ok (optionCatalogFor fam)) (options (optionCatalogFor fam)) = true /\
  byCode (optionCatalogFor fam) = by_code (options (optionCatalogFor fam)).
Proof.
  unfold optionCatalogFor. destruct (fam =? 6).
  - split_and!; [|vm_compute; reflexivity|reflexivity]. apply (bool_decide_unpack _). vm_compute. exact I.
  - split_and!; [|vm_compute; reflexivity|reflexivity]. apply (bool_decide_unpack _). vm_compute. exact I.
Qed.

(** ** Properties *)

(** The catalogs are consistent, for either family: looking a code up
    gives exactly the entry that has it, every entry has a code of the
    family's range and a group the editor shows, offers choices exactly when
    it is a selection, and may be set by a user unless it is marked built in;
    a code that is refused inside the range says why by the same mark; and
    every legacy scope column stands for a settable DHCPv4 entry. *)
Theorem catalog_consistent fam :
  let c := optionCatalogFor fam in
  (forall k e, byCode c !! k = Some e <-> e ∈ options c /\ code e = k) /\
  (forall e, e ∈ options c ->
     1 <= code e <= maxCode c /\ (exists l, (group e, l) ∈ DHCP_OPTION_GROUPS) /\
     (choices e <> [] <-> type_ e = "select") /\
     isOptionCodeAllowed (Some (code e)) fam = negb (builtIn e)) /\
  (forall k, isOptionCodeAllowed (Some k) fam = true <-> 1 <= k <= maxCode c /\ k ∉ internalCodes c) /\
  (forall e, e ∈ options c -> builtIn e = true ->
     builtInCodeReason (code e) fam = label e +:+ " (" +:+ dec (code e) +:+ ") is always on and has nothing to set") /\
  Forall (fun m => isOptionCodeAllowed (Some (snd m)) 4 = true /\ is_Some (DHCP_OPTIONS_BY_CODE !! snd m)) LEGACY_COLUMN_MAP.
Proof.
  intros c. destruct (catalog_entries fam) as (Hnd & Hok & Hby). fold c in Hnd, Hok, Hby.
  assert (forall k, isOptionCodeAllowed (Some k) fam = true <-> 1 <= k <= maxCode c /\ k ∉ internalCodes c) as Hall.
  { intros k. unfold isOptionCodeAllowed. fold c. rewrite !andb_true_iff, !Z.leb_le, negb_true_iff, bool_decide_eq_false. tauto. }
  rewrite forallb_forall in Hok. split_and!.
  - intros k e. rewrite Hby. by apply by_code_exact.
  - intros e He. specialize (Hok e ltac:(by apply list_elem_of_In)). unfold codes_ok in Hok.
    rewrite !andb_true_iff, !Z.leb_le, existsb_exists, !eqb_true_iff in Hok.
    destruct Hok as ((((H1 & H2) & Hint) & (g & Hg & <-%String.eqb_eq)) & Hch). split_and!; [lia|lia| | |].
    + exists (snd g). destruct g. by apply list_elem_of_In.
    + rewrite <- String.eqb_eq, <- Hch. by destruct (choices e).
    + rewrite <- Hint. apply eq_true_iff_eq. rewrite Hall, negb_true_iff, bool_decide_eq_false. split; [tauto|auto].
  - exact Hall.
  - intros e He Hb. unfold builtInCodeReason. fold c.
    assert (byCode c !! code e = Some e) as -> by (rewrite Hby; by apply by_code_exact). by rewrite Hb.
  - repeat constructor; vm_compute; eauto.
Qed.
