(* ===== verification/DhcpDefaults.v ===== *)
(** * The DHCP option defaults and the custom options

    [server/src/models/dhcp-option.js] with the routes of
    [server/src/routes/dhcp.js] that change its tables: saving a family's
    defaults, creating and deleting a custom option, seeding what CIDRella
    ships, and the DNS Servers default that follows the host's address.

    A table with the unique key (address_family, code) is a map from family to
    a map from code; a statement that breaks the key throws, and a transaction
    that throws leaves the database as it was, which [result] says by
    returning no database. *)

From S2P Require Import Prelude JsString ConfigValue DhcpCatalog.

Record DefaultRow := mkDefault { value : option string; enabled_by_default : bool }.

Record CustomOption := mkCustom {
  custom_id : Z;
  custom_code : Z;
  custom_name : string;
  custom_label : string;
  custom_type : string;
  custom_description : option string;
  custom_family : Z }.

(** [getDefaultOptions]: the values and the enabled codes, whose order SQLite
    leaves open. *)
Record DefaultsView := mkView { defaults : gmap Z string; enabledDefaults : gset Z }.

Inductive AuditRow :=
| DefaultsUpdated (before after : DefaultsView) (fam : Z)
| CustomCreated (id code : Z) (label : string) (fam : Z)
| CustomDeleted (id code : Z) (label : string) (fam : Z).

(** The scope option rows are keyed (scope_id, address_family, option_code); a
    row with no value follows the default. *)
Record Db := mkDb {
  option_defaults : gmap Z (gmap Z DefaultRow);
  custom_options : gmap Z (gmap Z CustomOption);
  scope_options : gmap (Z * Z * Z) (option string);
  settings : gmap string string;
  next_custom : Z;
  audit : list AuditRow }.

Definition rows {A} (t : gmap Z (gmap Z A)) (fam : Z) : gmap Z A := default ∅ (t !! fam).

Definition set_defaults (db : Db) (fam : Z) (r : gmap Z DefaultRow) : Db :=
  mkDb (<[fam := r]> (option_defaults db)) (custom_options db) (scope_options db) (settings db) (next_custom db) (audit db).

Definition add_audit (db : Db) (a : AuditRow) : Db :=
  mkDb (option_defaults db) (custom_options db) (scope_options db) (settings db) (next_custom db) (audit db ++ [a]).

(** [Number(value) === 6 ? 6 : 4] *)
Definition familyOf (v : Z) : Z := if v =? 6 then 6 else 4.

(** ** The defaults of a family *)

Definition getDefaultOptions (db : Db) (fam : Z) : DefaultsView :=
  let r := rows (option_defaults db) (familyOf fam) in
  mkView (omap value r) (dom (filter (fun kr => enabled_by_default (snd kr) = true) r)).

Inductive sql_error := UniqueConstraint.

Definition insert_default (k : Z) (row : DefaultRow) (r : gmap Z DefaultRow) : result sql_error (gmap Z DefaultRow) :=
  match r !! k with Some _ => Err UniqueConstraint | None => Ok (<[k := row]> r) end.

(** The loop over the options: the ones with a code and a value. *)
Fixpoint insert_options (enabledSet : gset Z) (opts : list (Z * option string)) (st : gmap Z DefaultRow * gset Z)
    : result sql_error (gmap Z DefaultRow * gset Z) :=
  match opts with
  | [] => Ok st
  | (k, v) :: opts' =>
      match v with
      | Some v =>
          if negb (k =? 0) && negb (String.eqb v "") then
            match insert_default k (mkDefault (Some v) (bool_decide (k ∈ enabledSet))) (fst st) with
            | Err e => Err e
            | Ok r => insert_options enabledSet opts' (r, {[k]} ∪ snd st)
            end
          else insert_options enabledSet opts' st
      | None => insert_options enabledSet opts' st
      end
  end.

(** The loop over the enabled codes left, each once. *)
Fixpoint insert_enabled (codes : list Z) (inserted : gset Z) (r : gmap Z DefaultRow) : result sql_error (gmap Z DefaultRow) :=
  match codes with
  | [] => Ok r
  | k :: codes' =>
      if bool_decide (k ∈ inserted) then insert_enabled codes' inserted r
      else
        match insert_default k (mkDefault None true) r with
        | Err e => Err e
        | Ok r => insert_enabled codes' inserted r
        end
  end.

Definition replaceDefaultOptions (db : Db) (opts : list (Z * option string)) (enabled : list Z) (fam : Z)
    : result sql_error (DefaultsView * Db) :=
  let fam := familyOf fam in
  let enabledSet : gset Z := list_to_set enabled in
  '(r, inserted) ← insert_options enabledSet opts (∅, ∅);
  r ← insert_enabled (elements enabledSet) inserted r;
  let db := set_defaults db fam r in
  mret (getDefaultOptions db fam, db).

(** ** What CIDRella ships *)

Definition DHCP_DEFAULT_NTP_SERVERS : string := "69.164.213.136,172.234.25.10,172.233.189.68,198.44.55.245".
Definition DHCP6_DEFAULT_NTP_SERVERS : string :=
  "2602:fcac:0:7b::74,2603:c020:0:8369:feed:feed:feed:feed,2600:1702:4a73:e00f:c3ee:91f2:71d8:5243,2607:f710:35::29c:0:6".

Definition SHIPPED_DEFAULT_OPTIONS (fam : Z) : list (Z * option string) :=
  if fam =? 6 then [(23, None); (24, None); (56, Some DHCP6_DEFAULT_NTP_SERVERS)]
  else [(1, None); (3, None); (6, None); (15, None); (119, None); (42, Some DHCP_DEFAULT_NTP_SERVERS)].

(** [INSERT ... ON CONFLICT DO UPDATE SET enabled_by_default = 1] *)
Definition seed_row (r : gmap Z DefaultRow) (o : Z * option string) : gmap Z DefaultRow :=
  match r !! fst o with
  | Some row => <[fst o := mkDefault (value row) true]> r
  | None => <[fst o := mkDefault (snd o) true]> r
  end.

Definition seedDefaultOptions (db : Db) : Db :=
  fold_left (fun db fam => set_defaults db fam (fold_left seed_row (SHIPPED_DEFAULT_OPTIONS fam) (rows (option_defaults db) fam)))
    [4; 6] db.

(** ** The DNS Servers default *)

Definition SERVER_DNS_SETTING : string := "dhcp_dns_default_server_ip".

Definition dns_entries (existing : option string) : list string :=
  List.filter (fun s => negb (String.eqb s "")) (map trim (split_char "," (default "" existing))).

Fixpoint index_in (x : string) (l : list string) : option nat :=
  match l with
  | [] => None
  | y :: l' => if String.eqb x y then Some O else option_map S (index_in x l')
  end.

Definition serverDnsDefaultValue (existing : option string) (serverIp : string) (previousIp : option string) : option string :=
  let l := dns_entries existing in
  match l with
  | [] => Some serverIp
  | _ =>
      if existsb (String.eqb serverIp) l then existing
      else
        let own := match previousIp with
                   | Some p => if String.eqb p "" then Some O else index_in p l
                   | None => Some O
                   end in
        match own with
        | None => existing
        | Some i => Some (join "," (<[i := serverIp]> l))
        end
  end.

(** [{ value = ? }] of the DNS Servers default; a boolean says it changed. *)
Definition upsertServerDnsDefault (db : Db) (v : option string) : Db * bool :=
  let r := rows (option_defaults db) 4 in
  match r !! 6 with
  | Some row =>
      if bool_decide (value row = v) then (db, false)
      else (set_defaults db 4 (<[6 := mkDefault v (enabled_by_default row)]> r), true)
  | None => (set_defaults db 4 (<[6 := mkDefault v false]> r), true)
  end.

Definition set_setting (db : Db) (k v : string) : Db :=
  mkDb (option_defaults db) (custom_options db) (scope_options db) (<[k := v]> (settings db)) (next_custom db) (audit db).

(** [serverIp] is the first IPv4 address of an interface that is not internal. *)
Definition syncServerDnsDefault (db : Db) (serverIp : option string) : Db * bool :=
  match serverIp with
  | None => (db, false)
  | Some ip =>
      let existing := rows (option_defaults db) 4 !! 6 ≫= value in
      let newValue := serverDnsDefaultValue existing ip (settings db !! SERVER_DNS_SETTING) in
      upsertServerDnsDefault (set_setting db SERVER_DNS_SETTING ip) newValue
  end.

(** ** The routes: validation *)

(** A value of a JSON body, as far as the routes tell values apart. *)
Inductive jvalue := JNull | JString (s : string) | JOther.

(** [use_default]: absent, a boolean or anything else *)
Inductive jflag := Absent | Flag (b : bool) | NotAFlag.

(** An option of a body; its code is [None] when it is not an integer. *)
Record BodyOption := mkBody { body_code : option Z; body_value : jvalue; use_default : jflag }.

Definition is_blank (v : jvalue) : bool :=
  match v with JNull => true | JString s => String.eqb s "" | JOther => false end.

(** A query or body [family]: absent (or empty), or what [Number] makes of it
    when that is an integer. *)
Inductive family_arg := NoFamily | FamilyNumber (n : option Z).

Definition familyParam (v : family_arg) : option Z :=
  match v with
  | NoFamily => Some 4
  | FamilyNumber (Some n) => if (n =? 4) || (n =? 6) then Some n else None
  | FamilyNumber None => None
  end.

Definition optionCodeError (k : option Z) (fam : Z) : option string :=
  let c := optionCatalogFor fam in
  match k with
  | None => Some ("code must be an integer 1-" +:+ dec (maxCode c))
  | Some n =>
      if (n <? 1) || (maxCode c <? n) then Some ("code must be an integer 1-" +:+ dec (maxCode c))
      else if negb (isOptionCodeAllowed k fam) then Some (builtInCodeReason n fam +:+ " and cannot be set")
      else None
  end.

(** [optDef?.type || 'text'] *)
Definition optionType (k fam : Z) : string :=
  match byCode (optionCatalogFor fam) !! k with Some e => type_ e | None => "text" end.

Definition allows_comma (k fam : Z) : bool :=
  String.eqb (optionType k fam) "ip-list" || String.eqb (optionType k fam) "text-list".

(** An element that is not an object is [None]; [body_code] is [Number(opt.code)]. *)
Definition validateScopeOption (opt : option BodyOption) (fam : Z) : option string :=
  match opt with
  | None => Some "option must be an object"
  | Some o =>
      match optionCodeError (body_code o) fam, body_code o with
      | Some e, _ => Some e
      | None, None => None
      | None, Some k =>
          match use_default o with
          | NotAFlag => Some "use_default must be true or false"
          | Flag true =>
              if negb (is_blank (body_value o)) then Some "an option that uses the default takes no value"
              else if (fam =? 4) && (k =? 51) then Some "lease time is the scope's own, not a default"
              else None
          | _ =>
              match body_value o with
              | JNull => None
              | JOther => Some "value must be a string"
              | JString v =>
                  if String.eqb v "" then None
                  else if (fam =? 4) && (k =? 51) && negb (isValidLeaseTime v)
                  then Some "lease time must look like 3600, 1h, 30m, or 1d"
                  else validateConfigSafeValue v (allows_comma k fam) false
              end
          end
      end
  end.

Definition validateDefaultOption (opt : option BodyOption) (fam : Z) : option string :=
  match opt with
  | None => Some "option must be an object"
  | Some o =>
      match optionCodeError (body_code o) fam with
      | Some e => Some e
      | None => if is_blank (body_value o) then None else validateScopeOption opt fam
      end
  end.

Fixpoint first_error {A} (f : A -> option string) (l : list A) : option string :=
  match l with
  | [] => None
  | a :: l' => match f a with Some e => Some e | None => first_error f l' end
  end.

(** A body field that should be an array: absent, something else, or one. *)
Inductive body_array (A : Type) := Undefined | NotArray | Array (l : list A).
Arguments Undefined {A}.
Arguments NotArray {A}.
Arguments Array {A} l.

Definition shown_code (o : option BodyOption) : string :=
  match o with Some o => match body_code o with Some k => dec k | None => "?" end | None => "?" end.

Definition defaultsBodyError (opts : body_array (option BodyOption)) (enabled : body_array (option Z)) (fam : Z) : option string :=
  match opts with
  | Undefined | NotArray => Some "options must be an array of { code, value }"
  | Array l =>
      if (254 <? Z.of_nat (length l)) then Some "options may contain at most 254 entries"
      else
        match first_error (fun o => option_map (fun e => "Default option " +:+ shown_code o +:+ ": " +:+ e) (validateDefaultOption o fam)) l with
        | Some e => Some e
        | None =>
            match enabled with
            | Undefined => None
            | NotArray => Some "enabledDefaults must be an array"
            | Array codes =>
                if (254 <? Z.of_nat (length codes)) then Some "enabledDefaults may contain at most 254 entries"
                else first_error (fun k => if isOptionCodeAllowed k fam then None
                                           else Some ("enabledDefaults must contain integer option codes 1-" +:+ dec (maxCode (optionCatalogFor fam)))) codes
            end
        end
  end.

(** ** The routes: handlers *)

Definition IPV6_DISABLED_ERROR : string := "IPv6 support is disabled. Enable it under Settings > General > Interfaces.".

(** A request is refused with a status and a message, or throws. *)
Inductive refusal := Refused (status : Z) (error : string) | Thrown (e : sql_error).

(** What a body holds once it is validated. *)
Definition body_options (opts : body_array (option BodyOption)) : list (Z * option string) :=
  match opts with
  | Array l => omap (fun o => match o with
                              | Some o => match body_code o with
                                          | Some k => Some (k, match body_value o with JString s => Some s | _ => None end)
                                          | None => None
                                          end
                              | None => None
                              end) l
  | _ => []
  end.

Definition body_codes (enabled : body_array (option Z)) : list Z :=
  match enabled with Array l => omap id l | _ => [] end.

(** [PUT /api/dhcp/options/defaults]; the hooks it asks for come last. *)
Definition putDefaults (ipv6Enabled : bool) (db : Db) (family : family_arg) (opts : body_array (option BodyOption))
    (enabled : body_array (option Z)) : result refusal (DefaultsView * Db * list string) :=
  match familyParam family with
  | None => Err (Refused 400 "family must be 4 or 6")
  | Some fam =>
      if (fam =? 6) && negb ipv6Enabled then Err (Refused 400 IPV6_DISABLED_ERROR)
      else
        match defaultsBodyError opts enabled fam with
        | Some e => Err (Refused 400 e)
        | None =>
            let before := getDefaultOptions db fam in
            match replaceDefaultOptions db (body_options opts) (body_codes enabled) fam with
            | Err e => Err (Thrown e)
            | Ok (updated, db) =>
                Ok (updated, add_audit db (DefaultsUpdated before (getDefaultOptions db fam) fam), ["regenerate_dhcp"])
            end
        end
  end.

Definition allowedTypes : list string := ["ip"; "ip-list"; "text"; "text-list"; "number"].

(** A body of [POST /options/custom]: whether [code] is truthy and what
    [parseInt(code, 10)] reads, and the strings, empty when absent. *)
Record CustomBody := mkCustomBody {
  code_given : bool;
  codeNum : option Z;
  body_name : string;
  body_label : string;
  body_type : string;
  body_description : string }.

Definition createCustomOption (db : Db) (k : Z) (n l t : string) (d : option string) (fam : Z)
    : result sql_error (CustomOption * Db) :=
  let fam := familyOf fam in
  match rows (custom_options db) fam !! k with
  | Some _ => Err UniqueConstraint
  | None =>
      let c := mkCustom (next_custom db) k n l t d fam in
      Ok (c, mkDb (option_defaults db) (<[fam := <[k := c]> (rows (custom_options db) fam)]> (custom_options db))
               (scope_options db) (settings db) (next_custom db + 1) (audit db))
  end.

Definition postCustomOption (ipv6Enabled : bool) (db : Db) (family : family_arg) (b : CustomBody) : result refusal (CustomOption * Db) :=
  match familyParam family with
  | None => Err (Refused 400 "address_family must be 4 or 6")
  | Some fam =>
      let c := optionCatalogFor fam in
      let range := "Code must be between " +:+ dec (fst (customRange c)) +:+ " and " +:+ dec (snd (customRange c)) in
      if (fam =? 6) && negb ipv6Enabled then Err (Refused 400 IPV6_DISABLED_ERROR)
      else if negb (code_given b) || String.eqb (body_label b) "" then Err (Refused 400 "code and label are required")
      else
        match codeNum b with
        | None => Err (Refused 400 range)
        | Some k =>
            if (k <? fst (customRange c)) || (snd (customRange c) <? k) then Err (Refused 400 range)
            else if negb (isOptionCodeAllowed (Some k) fam)
            then Err (Refused 400 (builtInCodeReason k fam +:+ " and cannot be a custom option"))
            else
              let optType := if existsb (String.eqb (body_type b)) allowedTypes then body_type b else "text" in
              match byCode c !! k with
              | Some e => Err (Refused 409 ("Code " +:+ dec k +:+ " is already a built-in option (" +:+ label e +:+ ")"))
              | None =>
                  match rows (custom_options db) fam !! k with
                  | Some _ => Err (Refused 409 ("Code " +:+ dec k +:+ " already exists as a custom option"))
                  | None =>
                      let optName := if String.eqb (body_name b) "" then "custom-" +:+ dec k else body_name b in
                      let d := if String.eqb (body_description b) "" then None else Some (body_description b) in
                      match createCustomOption db k optName (body_label b) optType d fam with
                      | Err e => Err (Thrown e)
                      | Ok (created, db) => Ok (created, add_audit db (CustomCreated (custom_id created) k (body_label b) fam))
                      end
                  end
              end
        end
  end.

(** The row, its family's default of the code and every scope's row of it. *)
Definition deleteCustomOption (db : Db) (entry : CustomOption) : Db :=
  let fam := familyOf (custom_family entry) in
  let k := custom_code entry in
  mkDb (<[fam := base.delete k (rows (option_defaults db) fam)]> (option_defaults db))
    (<[fam := base.delete k (rows (custom_options db) fam)]> (custom_options db))
    (filter (fun kv => ~ (snd (fst (fst kv)) = fam /\ snd (fst kv) = k)) (scope_options db))
    (settings db) (next_custom db) (audit db).

Definition deleteCustomRoute (db : Db) (codeNum : option Z) (family : family_arg) : result refusal Db :=
  match familyParam family with
  | None => Err (Refused 400 "family must be 4 or 6")
  | Some fam =>
      match codeNum ≫= (fun k => rows (custom_options db) fam !! k) with
      | None => Err (Refused 404 "Custom option not found")
      | Some entry =>
          Ok (add_audit (deleteCustomOption db entry) (CustomDeleted (custom_id entry) (custom_code entry) (custom_label entry) fam))
      end
  end.

(** ** Lemmas: saving the defaults *)

(** The options that carry a value. *)
Definition valued (opts : list (Z * option string)) : list (Z * string) :=
  omap (fun o => match snd o with
                 | Some v => if negb (fst o =? 0) && negb (String.eqb v "") then Some (fst o, v) else None
                 | None => None
                 end) opts.

Section Save.
Context (es : gset Z).

Abbreviation saved k v := (mkDefault (Some v) (bool_decide (k ∈ es))).

Lemma insert_options_valued opts st :
  insert_options es opts st =
  insert_options es (map (fun kv => (fst kv, Some (snd kv))) (valued opts)) st.
Proof.
  revert st. induction opts as [|[k [v|]] opts IH]; intros st; cbn [insert_options valued omap list_omap fst snd]; [done| |done].
  destruct (negb (k =? 0) && negb (String.eqb v "")) eqn:E; [|by apply IH].
  cbn [map insert_options fst snd]. rewrite E. destruct (insert_default _ _ _); [by apply IH|done].
Qed.

Lemma valued_ok opts : Forall (fun kv => negb (fst kv =? 0) && negb (String.eqb (snd kv) "") = true) (valued opts).
Proof.
  apply Forall_forall. intros [k v] Hkv. unfold valued in Hkv.
  apply list_elem_of_omap in Hkv as ([k' [v'|]] & _ & Hx); cbn [fst snd] in Hx; [|done].
  destruct (_ && _) eqn:E; [|done]. by injection Hx as -> ->.
Qed.

Lemma insert_options_result l r ins :
  Forall (fun kv => negb (fst kv =? 0) && negb (String.eqb (snd kv) "") = true) l -> ins = dom r ->
  match insert_options es (map (fun kv => (fst kv, Some (snd kv))) l) (r, ins) with
  | Ok (r', ins') => NoDup (map fst l) /\ (forall k, k ∈ map fst l -> r !! k = None) /\ ins' = dom r' /\
      forall k row, r' !! k = Some row <-> r !! k = Some row \/ exists v, (k, v) ∈ l /\ row = saved k v
  | Err _ => ~ (NoDup (map fst l) /\ forall k, k ∈ map fst l -> r !! k = None)
  end.
Proof.
  intros Hl. revert r ins. induction Hl as [|[k v] l Hkv Hl IH]; intros r ins Hins; cbn [map insert_options fst snd] in *.
  - split_and!; [constructor|by intros k ?%not_elem_of_nil|done|]. intros k row. split; [by left|].
    intros [H|(v & H%not_elem_of_nil & _)]; done.
  - rewrite Hkv. unfold insert_default. destruct (r !! k) as [row|] eqn:Hr.
    + intros [_ Hf]. specialize (Hf k (list_elem_of_here _ _)). congruence.
    + specialize (IH (<[k := saved k v]> r) ({[k]} ∪ ins) ltac:(by rewrite dom_insert_L, Hins)).
      destruct (insert_options es _ _) as [[r' ins']|e].
      * destruct IH as (Hnd & Hf & Hd & Hr'). assert (k ∉ map fst l) as Hk.
        { intros Hk. specialize (Hf k Hk). by rewrite lookup_insert_eq in Hf. }
        split_and!; [by constructor| |done|].
        -- intros j [->|Hj]%elem_of_cons; [done|]. specialize (Hf j Hj).
           rewrite lookup_insert_ne in Hf; [done|]. by intros ->.
        -- intros j row. rewrite Hr'. destruct (decide (k = j)) as [<-|Hne].
           ++ rewrite lookup_insert_eq. split.
              ** intros [[= <-]|(w & Hw & ->)]; right; eexists; (split; [|done]); [constructor|].
                 by constructor.
              ** intros [?|(w & [[= ->]|Hw]%elem_of_cons & ->)]; [congruence|by left|right; eauto].
           ++ rewrite lookup_insert_ne by done. setoid_rewrite elem_of_cons. naive_solver.
      * intros [Hnd Hf]. apply IH. apply NoDup_cons in Hnd as [Hk Hnd]. split; [done|].
        intros j Hj. rewrite lookup_insert_ne; [|by intros ->]. apply Hf. by constructor.
Qed.

Lemma insert_enabled_result codes inserted r :
  NoDup codes -> (forall k, k ∈ codes -> k ∉ inserted -> r !! k = None) ->
  exists r', insert_enabled codes inserted r = Ok r' /\
    forall k row, r' !! k = Some row <-> r !! k = Some row \/ (k ∈ codes /\ k ∉ inserted /\ row = mkDefault None true).
Proof.
  intros Hnd. revert r. induction Hnd as [|k codes Hk Hnd IH]; intros r Hr; cbn [insert_enabled].
  - exists r. split; [done|]. intros k row. split; [by left|]. intros [H|(H%not_elem_of_nil & _)]; done.
  - case_bool_decide as Hin.
    + destruct (IH r) as (r' & -> & Hr'); [intros j Hj; apply Hr; by constructor|]. exists r'. split; [done|].
      intros j row. rewrite Hr', elem_of_cons. naive_solver.
    + unfold insert_default. rewrite (Hr k (list_elem_of_here _ _) Hin).
      destruct (IH (<[k := mkDefault None true]> r)) as (r' & -> & Hr').
      { intros j Hj Hjn. rewrite lookup_insert_ne; [apply Hr; [by constructor|done]|]. by intros ->. }
      exists r'. split; [done|]. intros j row. rewrite Hr'. destruct (decide (k = j)) as [<-|Hne].
      * rewrite lookup_insert_eq, (Hr k (list_elem_of_here _ _) Hin), elem_of_cons. naive_solver.
      * rewrite lookup_insert_ne by done. rewrite elem_of_cons. naive_solver.
Qed.
End Save.

Lemma rows_insert {A} (t : gmap Z (gmap Z A)) fam r : rows (<[fam := r]> t) fam = r.
Proof. unfold rows. by rewrite lookup_insert_eq. Qed.

Lemma rows_insert_ne {A} (t : gmap Z (gmap Z A)) fam fam' r : fam <> fam' -> rows (<[fam := r]> t) fam' = rows t fam'.
Proof. intros. unfold rows. by rewrite lookup_insert_ne. Qed.

Lemma familyOf_idem v : familyOf (familyOf v) = familyOf v.
Proof. unfold familyOf. destruct (v =? 6) eqn:E; [done|]. done. Qed.

(** What a save leaves in the table. *)
Lemma replace_result db opts enabled fam :
  match replaceDefaultOptions db opts enabled fam with
  | Ok (view, db') =>
      NoDup (map fst (valued opts)) /\
      (exists r, db' = set_defaults db (familyOf fam) r) /\ view = getDefaultOptions db' fam /\
      (forall k v, defaults view !! k = Some v <-> (k, v) ∈ valued opts) /\ enabledDefaults view = list_to_set enabled
  | Err _ => ~ NoDup (map fst (valued opts))
  end.
Proof.
  unfold replaceDefaultOptions. set (es := list_to_set enabled : gset Z).
  rewrite insert_options_valued.
  pose proof (insert_options_result es (valued opts) ∅ ∅ (valued_ok opts) ltac:(by rewrite dom_empty_L)) as Ho.
  destruct (insert_options es _ _) as [[r inserted]|e]; cbn.
  2:{ intros Hnd. apply Ho. split; [done|]. intros k _. apply lookup_empty. }
  destruct Ho as (Hnd & _ & -> & Hr).
  destruct (insert_enabled_result (elements es) (dom r) r) as (r' & -> & Hr').
  { apply NoDup_elements. }
  { intros k _ Hk. by apply not_elem_of_dom. }
  cbn. split_and!; [done|by exists r'|unfold getDefaultOptions; by rewrite familyOf_idem| |].
  - intros k v. unfold getDefaultOptions. rewrite familyOf_idem. cbn [defaults option_defaults set_defaults]. rewrite rows_insert. rewrite lookup_omap_Some. split.
    + intros (row & Hv & [Hrow|(_ & _ & ->)]%Hr'); [|done]. apply Hr in Hrow as [Hrow|(w & Hw & ->)]; [by rewrite lookup_empty in Hrow|].
      by injection Hv as ->.
    + intros Hkv. eexists. split; [|apply Hr'; left; apply Hr; right; by exists v]. done.
  - unfold getDefaultOptions. rewrite familyOf_idem. cbn [enabledDefaults option_defaults set_defaults]. rewrite rows_insert. apply set_eq. intros k.
    rewrite elem_of_dom. unfold is_Some. setoid_rewrite map_lookup_filter_Some. setoid_rewrite Hr'. setoid_rewrite Hr.
    fold es. split.
    + intros (row & [[Hrow|(v & _ & ->)]|(Hk & _ & ->)] & Hen).
      * by rewrite lookup_empty in Hrow.
      * cbn in Hen. by apply bool_decide_eq_true in Hen.
      * by apply elem_of_elements.
    + intros Hk. destruct (r !! k) as [row|] eqn:Hrk.
      * exists row. pose proof Hrk as Hrk'. apply Hr in Hrk' as [Hrk'|(v & Hv & ->)]; [by rewrite lookup_empty in Hrk'|].
        split; [left; right; by exists v|]. cbn. by apply bool_decide_eq_true.
      * exists (mkDefault None true). split; [|done]. right. split_and!; [by apply elem_of_elements| |done].
        by apply not_elem_of_dom.
Qed.

(** ** Lemmas: what validation lets through *)

Lemma first_error_None {A} (f : A -> option string) l : first_error f l = None <-> Forall (fun a => f a = None) l.
Proof.
  induction l as [|a l IH]; cbn [first_error]; [done|]. rewrite Forall_cons. destruct (f a); [naive_solver|]. naive_solver.
Qed.

Lemma optionCodeError_None k fam : optionCodeError k fam = None -> isOptionCodeAllowed k fam = true.
Proof.
  unfold optionCodeError. destruct k as [n|]; [|done]. destruct (_ || _); [done|].
  destruct (isOptionCodeAllowed (Some n) fam); done.
Qed.

(** A value a family may be given as the default of a code. *)
Record acceptable (fam k : Z) (v : string) : Prop := {
  acc_code : isOptionCodeAllowed (Some k) fam = true;
  acc_safe : validateConfigSafeValue v (allows_comma k fam) false = None;
  acc_lease : fam = 4 -> k = 51 -> isValidLeaseTime v = true }.

Lemma validated_value o k v fam :
  validateDefaultOption (Some o) fam = None -> body_code o = Some k -> body_value o = JString v -> v <> "" ->
  acceptable fam k v.
Proof.
  unfold validateDefaultOption. intros Hv Hk Hval Hne.
  destruct (optionCodeError (body_code o) fam) eqn:Hc; [done|]. rewrite Hval in Hv. cbn [is_blank] in Hv.
  apply String.eqb_neq in Hne. rewrite Hne in Hv. unfold validateScopeOption in Hv.
  rewrite Hc, Hk, Hval in Hv. cbn [is_blank] in Hv. rewrite Hne in Hv. cbn [negb] in Hv.
  rewrite Hk in Hc. apply optionCodeError_None in Hc.
  assert ((if (fam =? 4) && (k =? 51) && negb (isValidLeaseTime v) then Some "lease time must look like 3600, 1h, 30m, or 1d"
           else validateConfigSafeValue v (allows_comma k fam) false) = None) as Hs.
  { by destruct (use_default o) as [|[]|]. }
  destruct (_ && negb _) eqn:Hl; [done|]. split; [done|done|].
  intros -> ->. cbn in Hl. by destruct (isValidLeaseTime v).
Qed.

Lemma validated_body opts enabled fam :
  defaultsBodyError opts enabled fam = None ->
  (forall k v, (k, v) ∈ valued (body_options opts) -> acceptable fam k v) /\
  (forall k, k ∈ body_codes enabled -> isOptionCodeAllowed (Some k) fam = true).
Proof.
  unfold defaultsBodyError. destruct opts as [| |l]; [done|done|].
  destruct (_ <? _); [done|]. destruct (first_error _ l) eqn:Hl; [done|]. intros He. split.
  - apply first_error_None in Hl. rewrite Forall_forall in Hl. intros k v Hkv.
    unfold valued in Hkv. apply list_elem_of_omap in Hkv as ([k1 w] & Hin & Hw).
    unfold body_options in Hin. apply list_elem_of_omap in Hin as ([o|] & Ho & Hb); [|done].
    destruct (body_code o) as [k2|] eqn:Hk; [|done]. injection Hb as -> <-.
    cbn [fst snd] in Hw. destruct (body_value o) as [|s|] eqn:Hs; [done| |done].
    destruct (negb (k1 =? 0) && negb (String.eqb s "")) eqn:Hne; [|done]. injection Hw as -> ->.
    apply andb_true_iff in Hne as [_ Hne]. apply negb_true_iff, String.eqb_neq in Hne.
    specialize (Hl _ Ho). cbn beta in Hl. destruct (validateDefaultOption (Some o) fam) eqn:Hv; [done|].
    by eapply validated_value.
  - destruct enabled as [| |codes]; [by intros k ?%not_elem_of_nil|done|].
    destruct (_ <? _); [done|]. apply first_error_None in He. rewrite Forall_forall in He.
    intros k Hk. cbn [body_codes] in Hk. apply list_elem_of_omap in Hk as (k' & Hin & Hid). change (k' = Some k) in Hid. subst k'. specialize (He _ Hin). cbn beta in He.
    by destruct (isOptionCodeAllowed (Some k) fam).
Qed.

Lemma familyParam_family v fam : familyParam v = Some fam -> familyOf fam = fam.
Proof.
  destruct v as [|[n|]]; cbn [familyParam]; [by intros [= <-]| |done].
  destruct (_ || _) eqn:Hn; [|done]. intros [= <-]. unfold familyOf.
  destruct (n =? 6) eqn:H6; [by apply Z.eqb_eq in H6|]. apply orb_true_iff in Hn as [Hn|Hn]; [by apply Z.eqb_eq in Hn|congruence].
Qed.

(** ** Properties *)

(** Saving a family's defaults makes the table say what the request
    said: what is read back has exactly the non-empty values sent and exactly
    the enabled codes, every code is one a user may set, every value is safe
    to write into a configuration line and a DHCPv4 lease time is well formed;
    the other family's defaults, the custom options, the scope rows and the
    settings are untouched; one audit row with the defaults before and after
    is added and DHCP is regenerated. A refused request is a 400, and the only
    statement that can throw is the second value sent for one code. *)
Theorem defaults_saved ipv6Enabled db family opts enabled :
  match putDefaults ipv6Enabled db family opts enabled with
  | Ok (view, db', hooks) => exists fam, familyParam family = Some fam /\
      (forall k v, defaults view !! k = Some v <-> (k, v) ∈ valued (body_options opts)) /\
      enabledDefaults view = list_to_set (body_codes enabled) /\
      getDefaultOptions db' fam = view /\
      (forall k v, defaults view !! k = Some v -> acceptable fam k v) /\
      (forall k, k ∈ enabledDefaults view -> isOptionCodeAllowed (Some k) fam = true) /\
      (forall fam', fam' <> fam -> rows (option_defaults db') fam' = rows (option_defaults db) fam') /\
      custom_options db' = custom_options db /\ scope_options db' = scope_options db /\ settings db' = settings db /\
      audit db' = audit db ++ [DefaultsUpdated (getDefaultOptions db fam) view fam] /\
      hooks = ["regenerate_dhcp"]
  | Err (Refused status _) => status = 400
  | Err (Thrown _) => ~ NoDup (map fst (valued (body_options opts)))
  end.
Proof.
  unfold putDefaults. destruct (familyParam family) as [fam|] eqn:Hf; [|done].
  destruct ((fam =? 6) && negb ipv6Enabled); [done|].
  destruct (defaultsBodyError opts enabled fam) eqn:Hb; [done|]. apply validated_body in Hb as [Hvals Hcodes].
  pose proof (replace_result db (body_options opts) (body_codes enabled) fam) as Hr.
  destruct (replaceDefaultOptions _ _ _ _) as [[view db']|e]; [|done].
  destruct Hr as (_ & [r Hdb] & Hview & Hd & He). rewrite (familyParam_family _ _ Hf) in Hdb. subst db'. exists fam.
  split_and!; [done|done|done|by rewrite Hview| | | |done|done|done| |done].
  - intros k v Hkv. apply Hvals. by apply Hd.
  - intros k Hk. apply Hcodes. rewrite He in Hk. by apply elem_of_list_to_set in Hk.
  - intros fam' Hne. cbn. by apply rows_insert_ne.
  - cbn. by rewrite Hview.
Qed.

Example defaults_example :
  let db := mkDb ∅ ∅ ∅ ∅ 1 [] in
  match putDefaults false db NoFamily (Array [Some (mkBody (Some 6) (JString "10.0.0.1,10.0.0.2") Absent);
                                             Some (mkBody (Some 3) JNull Absent)]) (Array [Some 6; Some 3]) with
  | Ok (view, _, _) => map_to_list (defaults view) = [(6, "10.0.0.1,10.0.0.2")] /\ elements (enabledDefaults view) = [3; 6]
  | Err _ => False
  end.
Proof. vm_compute. done. Qed.

(** ** Sequences of requests *)

Inductive request :=
| PutDefaults (family : family_arg) (opts : body_array (option BodyOption)) (enabled : body_array (option Z))
| PostCustom (family : family_arg) (b : CustomBody)
| DeleteCustom (codeNum : option Z) (family : family_arg).

(** A request answered with an error changes nothing. *)
Definition serve (ipv6Enabled : bool) (db : Db) (r : request) : Db :=
  match r with
  | PutDefaults f o e => match putDefaults ipv6Enabled db f o e with Ok (_, db', _) => db' | Err _ => db end
  | PostCustom f b => match postCustomOption ipv6Enabled db f b with Ok (_, db') => db' | Err _ => db end
  | DeleteCustom k f => match deleteCustomRoute db k f with Ok db' => db' | Err _ => db end
  end.

(** A custom option is stored under its own family and code, which is one the
    catalog leaves to users. *)
Record custom_ok (fam k : Z) (c : CustomOption) : Prop := {
  co_code : custom_code c = k;
  co_family : custom_family c = fam;
  co_range : fst (customRange (optionCatalogFor fam)) <= k <= snd (customRange (optionCatalogFor fam));
  co_allowed : isOptionCodeAllowed (Some k) fam = true;
  co_free : byCode (optionCatalogFor fam) !! k = None;
  co_type : custom_type c ∈ allowedTypes;
  co_label : custom_label c <> "" }.

Definition customs_ok (db : Db) : Prop :=
  (forall fam k c, rows (custom_options db) fam !! k = Some c -> custom_ok fam k c /\ custom_id c < next_custom db) /\
  (forall fam k c fam' k' c', rows (custom_options db) fam !! k = Some c -> rows (custom_options db) fam' !! k' = Some c' ->
     custom_id c = custom_id c' -> fam = fam' /\ k = k').

Lemma rows_insert_lookup {A} (t : gmap Z (gmap Z A)) fam k (x : A) fam' k' :
  rows (<[fam := <[k := x]> (rows t fam)]> t) fam' !! k' =
  if bool_decide (fam = fam' /\ k = k') then Some x else rows t fam' !! k'.
Proof.
  case_bool_decide as H.
  - destruct H as [<- <-]. by rewrite rows_insert, lookup_insert_eq.
  - destruct (decide (fam = fam')) as [<-|Hne]; [|by rewrite rows_insert_ne].
    rewrite rows_insert, lookup_insert_ne; [done|]. intros <-. by apply H.
Qed.

Lemma rows_delete_lookup {A} (t : gmap Z (gmap Z A)) fam k fam' k' :
  rows (<[fam := base.delete k (rows t fam)]> t) fam' !! k' =
  if bool_decide (fam = fam' /\ k = k') then None else rows t fam' !! k'.
Proof.
  case_bool_decide as H.
  - destruct H as [<- <-]. by rewrite rows_insert, lookup_delete_eq.
  - destruct (decide (fam = fam')) as [<-|Hne]; [|by rewrite rows_insert_ne].
    rewrite rows_insert, lookup_delete_ne; [done|]. intros <-. by apply H.
Qed.

Lemma post_custom_ok ipv6Enabled db family b c db' :
  postCustomOption ipv6Enabled db family b = Ok (c, db') ->
  exists fam k, custom_ok fam k c /\ custom_id c = next_custom db /\ next_custom db' = next_custom db + 1 /\
    rows (custom_options db) fam !! k = None /\
    custom_options db' = <[fam := <[k := c]> (rows (custom_options db) fam)]> (custom_options db).
Proof.
  unfold postCustomOption. destruct (familyParam family) as [fam|] eqn:Hf; [|done].
  destruct (_ && _); [done|]. destruct (negb (code_given b) || _) eqn:Hg; [done|]. destruct (codeNum b) as [k|]; [|done].
  destruct ((k <? _) || _) eqn:Hr; [done|]. destruct (isOptionCodeAllowed (Some k) fam) eqn:Ha; [|done]. cbn [negb].
  destruct (byCode _ !! k) eqn:Hc; [done|]. destruct (rows (custom_options db) fam !! k) eqn:Hrow; [done|].
  unfold createCustomOption. rewrite (familyParam_family _ _ Hf), Hrow. intros [= <- <-]. exists fam, k.
  apply orb_false_iff in Hr as [?%Z.ltb_ge ?%Z.ltb_ge]. apply orb_false_iff in Hg as [_ Hl%String.eqb_neq].
  split_and!; [|done..]. split; cbn; try done.
  repeat match goal with
  | |- context [String.eqb (body_type b) ?t] => destruct (String.eqb_spec (body_type b) t) as [->|]
  end; apply (bool_decide_unpack _); vm_compute; done.
Qed.

Lemma serve_customs ipv6Enabled db r : customs_ok db -> customs_ok (serve ipv6Enabled db r).
Proof.
  intros [Hok Hids]. destruct r as [f o e|f b|k f]; cbn [serve].
  - pose proof (replace_result db) as Hrep. unfold putDefaults. destruct (familyParam f) as [fam|]; [|done].
    destruct (_ && _); [done|]. destruct (defaultsBodyError _ _ _); [done|].
    specialize (Hrep (body_options o) (body_codes e) fam). destruct (replaceDefaultOptions _ _ _ _) as [[v db1]|]; [|done].
    destruct Hrep as (_ & [r ->] & _). done.
  - destruct (postCustomOption ipv6Enabled db f b) as [[c db1]|] eqn:Hp; [|done].
    apply post_custom_ok in Hp as (fam & k & Hc & Hid & Hn & Hfree & Hdb). unfold customs_ok. rewrite Hdb, Hn. split.
    + intros fam' k' c' Hl. rewrite rows_insert_lookup in Hl. case_bool_decide as Hb.
      * destruct Hb as [<- <-]. injection Hl as <-. split; [done|lia].
      * destruct (Hok _ _ _ Hl). split; [done|lia].
    + intros f1 k1 c1 f2 k2 c2 H1 H2 Heq. rewrite rows_insert_lookup in H1.
      case_bool_decide as B1; rewrite rows_insert_lookup in H2; case_bool_decide as B2.
      * destruct B1 as [<- <-], B2 as [<- <-]. done.
      * injection H1 as <-. destruct (Hok _ _ _ H2). lia.
      * injection H2 as <-. destruct (Hok _ _ _ H1). lia.
      * by eapply Hids.
  - unfold deleteCustomRoute. destruct (familyParam f) as [fam|]; [|done].
    destruct (_ ≫= _) as [entry|] eqn:He; [|done]. unfold customs_ok. cbn [custom_options add_audit deleteCustomOption next_custom]. split.
    + intros fam' k' c' Hl. rewrite rows_delete_lookup in Hl. case_bool_decide; [done|]. by apply Hok.
    + intros f1 k1 c1 f2 k2 c2 H1 H2. rewrite rows_delete_lookup in H1, H2. case_bool_decide; [done|]. case_bool_decide; [done|].
      by eapply Hids.
Qed.

(** Custom options stay clear of the catalog whatever requests arrive in
    whatever order: after any sequence every custom option lies in its
    family's custom range, has a code no built-in entry uses and the DHCP
    server does not build, has one of the types a value can be checked
    against, and no two share an id or a family and code. Deleting one removes
    it with its default and every scope's row of it, and nothing else. *)
Theorem custom_options_sound ipv6Enabled db rs k family :
  customs_ok db ->
  let db1 := fold_left (serve ipv6Enabled) rs db in
  customs_ok db1 /\
  forall db2 fam, deleteCustomRoute db1 (Some k) family = Ok db2 -> familyParam family = Some fam ->
    is_Some (rows (custom_options db1) fam !! k) /\
    (forall fam' k', rows (custom_options db2) fam' !! k' = if bool_decide (fam = fam' /\ k = k') then None else rows (custom_options db1) fam' !! k') /\
    (forall fam' k', rows (option_defaults db2) fam' !! k' = if bool_decide (fam = fam' /\ k = k') then None else rows (option_defaults db1) fam' !! k') /\
    (forall scope fam' k', scope_options db2 !! (scope, fam', k') =
       if bool_decide (fam = fam' /\ k = k') then None else scope_options db1 !! (scope, fam', k')).
Proof.
  intros Hdb db1. assert (customs_ok db1) as Hok.
  { subst db1. revert db Hdb. induction rs as [|r rs IH]; intros db Hdb; [done|]. cbn. apply IH. by apply serve_customs. }
  split; [done|]. intros db2 fam Hd Hf. unfold deleteCustomRoute in Hd. rewrite Hf in Hd. cbn [mbind option_bind] in Hd.
  destruct (rows (custom_options db1) fam !! k) as [entry|] eqn:He; [|done]. injection Hd as <-.
  destruct (proj1 Hok _ _ _ He) as [[Hcode Hfam _ _ _ _ _] _]. split; [done|].
  cbn [custom_options option_defaults scope_options add_audit deleteCustomOption].
  rewrite Hcode, Hfam, (familyParam_family _ _ Hf). split_and!.
  - intros. by rewrite rows_delete_lookup.
  - intros. by rewrite rows_delete_lookup.
  - intros scope fam' k'. case_bool_decide as Hb.
    + destruct Hb as [<- <-]. apply map_lookup_filter_None. right. intros x _ Hn. by apply Hn.
    + destruct (scope_options db1 !! (scope, fam', k')) as [x|] eqn:Hx.
      * apply map_lookup_filter_Some. split; [done|]. cbn. intros [-> ->]. by apply Hb.
      * apply map_lookup_filter_None. by left.
Qed.

Lemma custom_options_sound_witness :
  let db := mkDb ∅ ∅ ∅ ∅ 1 [] in
  let rs := [PostCustom NoFamily (mkCustomBody true (Some 200) "" "Site code" "text" "");
             PostCustom NoFamily (mkCustomBody true (Some 3) "" "Router" "ip" "")] in
  customs_ok db /\ customs_ok (fold_left (serve false) rs db) /\
  is_Some (rows (custom_options (fold_left (serve false) rs db)) 4 !! 200).
Proof.
  split; [split; [intros fam k c H|intros fam k c fam' k' c' H]; unfold rows in H; cbn in H; by rewrite lookup_empty in H|].
  split; [|vm_compute; by eexists].
  apply (custom_options_sound false (mkDb ∅ ∅ ∅ ∅ 1 [])
    [PostCustom NoFamily (mkCustomBody true (Some 200) "" "Site code" "text" "");
     PostCustom NoFamily (mkCustomBody true (Some 3) "" "Router" "ip" "")] 200 NoFamily).
  split; [intros fam k c H|intros fam k c fam' k' c' H]; unfold rows in H; cbn in H; by rewrite lookup_empty in H.
Defined.

(** ** Lemmas: what happens at boot *)

(** An entry of a DNS Servers value. *)
Definition dns_entry (s : string) : Prop := s <> "" /\ trim s = s /\ has_char "," s = false.

Lemma dns_entries_ok v : Forall dns_entry (dns_entries v).
Proof.
  apply Forall_forall. intros x Hx. unfold dns_entries in Hx.
  apply list_elem_of_In, List.filter_In in Hx as [Hx Hne%negb_true_iff%String.eqb_neq].
  apply in_map_iff in Hx as (y & <- & Hy). split_and!; [done|apply trim_idem|].
  assert (has_char "," y = false) as Hc.
  { pose proof (split_pieces_clean "," (default "" v)) as Hp. rewrite Forall_forall in Hp. apply Hp. by apply list_elem_of_In. }
  unfold has_char in *. rewrite some_char_false in *. by apply drop_while_end_all, drop_while_all.
Qed.

Lemma dns_entries_join l : l <> [] -> Forall dns_entry l -> dns_entries (Some (join "," l)) = l.
Proof.
  intros Hne Hl. unfold dns_entries. cbn [from_option id]. rewrite split_char_join; [|done|eapply Forall_impl; [exact Hl|]; by intros x (_ & _ & ?)].
  clear Hne. induction Hl as [|x l (Hx & Ht & _) Hl IH]; [done|]. cbn [map List.filter]. rewrite Ht.
  apply String.eqb_neq in Hx. rewrite Hx. cbn [negb]. by rewrite IH.
Qed.

Lemma index_in_Some x l i : index_in x l = Some i -> l !! i = Some x.
Proof.
  revert i. induction l as [|y l IH]; intros i; cbn [index_in]; [done|].
  destruct (String.eqb_spec x y) as [->|]; [by intros [= <-]|].
  destruct (index_in x l) as [k|]; [|done]. intros [= <-]. by apply IH.
Qed.

Lemma index_in_None x l : index_in x l = None <-> x ∉ l.
Proof.
  induction l as [|y l IH]; cbn [index_in]; [split; [intros _; apply not_elem_of_nil|done]|].
  rewrite not_elem_of_cons. destruct (String.eqb_spec x y) as [->|Hne]; [naive_solver|].
  destruct (index_in x l); naive_solver.
Qed.

Lemma existsb_eqb x l : existsb (String.eqb x) l = bool_decide (x ∈ l).
Proof.
  apply eq_true_iff_eq. rewrite existsb_exists, bool_decide_eq_true, list_elem_of_In. split.
  - by intros (y & Hy & ->%String.eqb_eq).
  - intros Hx. exists x. by rewrite String.eqb_refl.
Qed.

(** The entry [serverDnsDefaultValue] takes for CIDRella's own. *)
Definition own_entry (l : list string) (previousIp : option string) : option nat :=
  match previousIp with
  | Some p => if String.eqb p "" then Some O else index_in p l
  | None => Some O
  end.

Lemma own_entry_lt l p i : l <> [] -> own_entry l p = Some i -> (i < length l)%nat.
Proof.
  intros Hl. unfold own_entry. assert (0 < length l)%nat by (destruct l; [done|simpl; lia]).
  destruct p as [p|]; [|by intros [= <-]]. destruct (String.eqb p ""); [by intros [= <-]|].
  intros Hi%index_in_Some. by eapply lookup_lt_Some.
Qed.

(** The entries after the address is [ip]. *)
Lemma dns_value_entries existing ip p :
  dns_entry ip ->
  dns_entries (serverDnsDefaultValue existing ip p) =
  match dns_entries existing with
  | [] => [ip]
  | l => if bool_decide (ip ∈ l) then l else match own_entry l p with Some i => <[i := ip]> l | None => l end
  end.
Proof.
  intros Hip. pose proof (dns_entries_ok existing) as Hok. unfold serverDnsDefaultValue.
  destruct (dns_entries existing) as [|x l] eqn:He.
  - apply (dns_entries_join [ip]); [done|by apply Forall_singleton].
  - rewrite existsb_eqb. case_bool_decide as Hin; [done|]. cbn zeta. fold (own_entry (x :: l) p).
    destruct (own_entry (x :: l) p) as [i|] eqn:Hi; [|done]. apply dns_entries_join.
    + by destruct i.
    + by apply Forall_insert.
Qed.

Lemma dns_value_stable existing ip p :
  dns_entry ip ->
  let v := serverDnsDefaultValue existing ip p in serverDnsDefaultValue v ip (Some ip) = v.
Proof.
  intros Hip v. pose proof (dns_value_entries existing ip p Hip) as He. fold v in He.
  unfold serverDnsDefaultValue at 1. rewrite He. destruct (dns_entries existing) as [|x l] eqn:Hl; cbn zeta.
  - cbn [existsb]. by rewrite String.eqb_refl.
  - case_bool_decide as Hin; [|destruct (own_entry (x :: l) p) as [i|] eqn:Hi].
    + rewrite existsb_eqb, bool_decide_eq_true_2 by done. done.
    + assert (ip ∈ <[i := ip]> (x :: l)) as Hip'.
      { apply list_elem_of_lookup. exists i. apply list_lookup_insert_eq. by apply (own_entry_lt _ p). }
      destruct (<[i := ip]> (x :: l)) as [|y l'] eqn:E; [by apply elem_of_nil in Hip'|].
      rewrite existsb_eqb, bool_decide_eq_true_2 by done. done.
    + rewrite existsb_eqb, bool_decide_eq_false_2 by done.
      assert (String.eqb ip "" = false) as -> by (apply String.eqb_neq, Hip).
      by rewrite (proj2 (index_in_None ip (x :: l)) Hin).
Qed.

(** A pass over the shipped options of a family. *)
Lemma seed_rows l r k :
  NoDup (map fst l) ->
  fold_left seed_row l r !! k =
  match r !! k, assoc k l with
  | Some row, Some _ => Some (mkDefault (value row) true)
  | None, Some v => Some (mkDefault v true)
  | row, None => row
  end.
Proof.
  revert r. induction l as [|[j v] l IH]; intros r Hnd; cbn [fold_left map fst assoc] in *; [by destruct (r !! k)|].
  apply NoDup_cons in Hnd as [Hj Hnd]. rewrite IH by done. clear IH. unfold seed_row. cbn [fst snd].
  destruct (Z.eqb_spec k j) as [->|Hjk].
  - rewrite (assoc_None j l) by done. destruct (r !! j); by rewrite lookup_insert_eq.
  - destruct (assoc k l); destruct (r !! j); rewrite lookup_insert_ne by done; done.
Qed.

Lemma shipped_distinct fam : NoDup (map fst (SHIPPED_DEFAULT_OPTIONS fam)).
Proof. unfold SHIPPED_DEFAULT_OPTIONS. destruct (fam =? 6); apply (bool_decide_unpack _); vm_compute; done. Qed.

Lemma seedDefaultOptions_rows db fam k :
  (fam = 4 \/ fam = 6) ->
  rows (option_defaults (seedDefaultOptions db)) fam !! k =
  match rows (option_defaults db) fam !! k, assoc k (SHIPPED_DEFAULT_OPTIONS fam) with
  | Some row, Some _ => Some (mkDefault (value row) true)
  | None, Some v => Some (mkDefault v true)
  | row, None => row
  end.
Proof.
  intros Hf. unfold seedDefaultOptions. cbn [fold_left option_defaults set_defaults].
  rewrite (rows_insert_ne _ 4 6) by done. destruct Hf as [-> | ->].
  - rewrite rows_insert_ne, rows_insert by done. apply seed_rows, shipped_distinct.
  - rewrite rows_insert. apply seed_rows, shipped_distinct.
Qed.

Lemma sync_result db ip :
  let v := serverDnsDefaultValue (rows (option_defaults db) 4 !! 6 ≫= value) ip (settings db !! SERVER_DNS_SETTING) in
  let db1 := fst (syncServerDnsDefault db (Some ip)) in
  settings db1 !! SERVER_DNS_SETTING = Some ip /\
  exists row, rows (option_defaults db1) 4 !! 6 = Some row /\ value row = v.
Proof.
  intros v db1. unfold db1, syncServerDnsDefault, upsertServerDnsDefault. fold v. cbn [set_setting option_defaults settings].
  destruct (rows (option_defaults db) 4 !! 6) as [row|] eqn:Hr; [case_bool_decide as Hv|];
    cbn [fst set_defaults set_setting settings option_defaults]; rewrite ?rows_insert; (split; [apply lookup_insert_eq|]).
  - exists row. done.
  - eexists. split; [apply lookup_insert_eq|done].
  - eexists. split; [apply lookup_insert_eq|done].
Qed.

(** A sync that has nothing to write. *)
Lemma sync_again db ip row :
  rows (option_defaults db) 4 !! 6 = Some row -> settings db !! SERVER_DNS_SETTING = Some ip ->
  serverDnsDefaultValue (value row) ip (Some ip) = value row ->
  syncServerDnsDefault db (Some ip) = (db, false).
Proof.
  intros Hr Hs Hv. unfold syncServerDnsDefault, upsertServerDnsDefault. cbn [set_setting option_defaults].
  rewrite Hr, Hs. cbn [mbind option_bind]. rewrite Hv, bool_decide_eq_true_2 by done. f_equal.
  destruct db. unfold set_setting. cbn in *. by rewrite insert_id.
Qed.

(** Starting again changes nothing a person chose. Seeding adds the
    shipped defaults a family lacks, enabled, keeps every value already there
    and leaves every other code alone, and doing it twice is doing it once.
    Syncing the DNS Servers default with the host's address moves only the
    entry CIDRella wrote itself: the same number of entries, every one but
    that unchanged, the new address among them unless that entry had been
    removed; and a second sync with the same address finds nothing to do. *)
Theorem boot_keeps_choices db ip :
  dns_entry ip ->
  (forall fam k, fam = 4 \/ fam = 6 ->
     let before := rows (option_defaults db) fam !! k in
     let after := rows (option_defaults (seedDefaultOptions db)) fam !! k in
     (k ∉ map fst (SHIPPED_DEFAULT_OPTIONS fam) -> after = before) /\
     (forall v, (k, v) ∈ SHIPPED_DEFAULT_OPTIONS fam ->
        after = Some (mkDefault (match before with Some row => value row | None => v end) true)) /\
     rows (option_defaults (seedDefaultOptions (seedDefaultOptions db))) fam !! k = after) /\
  (let entries d := dns_entries (rows (option_defaults d) 4 !! 6 ≫= value) in
   let db1 := fst (syncServerDnsDefault db (Some ip)) in
   let previousIp := settings db !! SERVER_DNS_SETTING in
   (entries db = [] -> entries db1 = [ip]) /\
   (entries db <> [] -> length (entries db1) = length (entries db) /\
      (forall i, own_entry (entries db) previousIp <> Some i -> entries db1 !! i = entries db !! i) /\
      (own_entry (entries db) previousIp <> None -> ip ∈ entries db1)) /\
   syncServerDnsDefault db1 (Some ip) = (db1, false)).
Proof.
  intros Hip. split.
  - intros fam k Hfam before after. subst before after. rewrite (seedDefaultOptions_rows (seedDefaultOptions db)) by done.
    rewrite !(seedDefaultOptions_rows db) by done. set (l := SHIPPED_DEFAULT_OPTIONS fam).
    split_and!.
    + intros Hk. rewrite assoc_None by done. by destruct (rows _ fam !! k).
    + intros v Hv. rewrite (assoc_elem k l v) by (apply shipped_distinct || done). by destruct (rows _ fam !! k).
    + destruct (rows _ fam !! k), (assoc k l); done.
  - intros entries db1 previousIp.
    set (existing := rows (option_defaults db) 4 !! 6 ≫= value) in *.
    set (v := serverDnsDefaultValue existing ip previousIp).
    destruct (sync_result db ip) as (Hset & row & Hrow & Hval). fold existing previousIp db1 v in Hset, Hrow, Hval.
    assert (entries db1 = dns_entries v) as He by (unfold entries; rewrite Hrow; cbn; by rewrite Hval).
    pose proof (dns_value_entries existing ip previousIp Hip) as Hent.
    fold v in Hent. rewrite He. change (entries db) with (dns_entries existing). split_and!.
    + intros H0. by rewrite Hent, H0.
    + intros Hne. rewrite Hent. destruct (dns_entries existing) as [|x l] eqn:Hl; [done|]. cbn zeta.
      case_bool_decide as Hin; [done|]. destruct (own_entry (x :: l) previousIp) as [i|] eqn:Hi; [|done].
      rewrite length_insert. split_and!; [done| |].
      * intros j Hj. apply list_lookup_insert_ne. congruence.
      * intros _. apply list_elem_of_lookup. exists i. apply list_lookup_insert_eq. by apply (own_entry_lt _ previousIp).
    + eapply sync_again; [done|done|]. rewrite Hval. by apply dns_value_stable.
Qed.

Lemma boot_keeps_choices_witness :
  let db := mkDb ∅ ∅ ∅ ∅ 1 [] in
  dns_entry "10.0.0.2" /\
  (let db1 := fst (syncServerDnsDefault db (Some "10.0.0.2")) in
   dns_entries (rows (option_defaults db1) 4 !! 6 ≫= value) = ["10.0.0.2"] /\
   syncServerDnsDefault db1 (Some "10.0.0.2") = (db1, false)).
Proof.
  split; [by split_and!|].
  destruct (boot_keeps_choices (mkDb ∅ ∅ ∅ ∅ 1 []) "10.0.0.2" ltac:(by split_and!)) as [_ (H1 & _ & H2)].
  split; [apply H1; vm_compute; reflexivity|exact H2].
Defined.
