(* ===== verification/ScopeOptions.v ===== *)
(** * What a DHCP scope serves

    [server/src/models/dhcp-scope.js] with [utils/dhcp-network-options.js],
    the option half of [services/subnet-dhcp-topology.js] and of
    [backends/shared/dhcp-scope-model.js]: how the option rows of a scope are
    stored, which of its layers (rows, defaults, legacy columns, network)
    gives each option its value, and what reaches a backend. *)

From S2P Require Import Prelude JsString Address Cidr DhcpCatalog DhcpDefaults.

(** A legacy column holds JSON text; what [JSON.parse] makes of it is an array
    of strings, or nothing usable. *)
Inductive json_column := NoColumn | NotAnArray | JsonArray (l : list string).

(** A row of [dhcp_scopes] joined with its network, as the readers select it. *)
Record Scope := mkScope {
  address_family : option Z;
  lease_time : string;
  dns_servers : json_column;
  ntp_servers : json_column;
  domain_name : option string;
  gateway : option string;
  domain_search : option string;
  options : list (Z * option string);  (** its rows; a NULL value follows the default *)
  subnet_cidr : option string;
  subnet_gateway : option string;
  subnet_domain_name : option string }.

Definition truthy (v : option string) : bool :=
  match v with Some s => negb (String.eqb s "") | None => false end.

(** [a || b] *)
Definition or_string (a b : option string) : option string := if truthy a then a else b.

(** A row without a family has its CIDR's; anything unreadable is IPv4. *)
Definition scopeAddressFamily (fam : option Z) (cidr : option string) : Z :=
  let from_cidr :=
    if truthy cidr then match cidr with
                        | Some c => match parseNetwork c with Ok n => Cidr.family n | Err _ => 4 end
                        | None => 4
                        end
    else 4 in
  match fam with
  | Some n => if n =? 6 then 6 else if n =? 0 then from_cidr else 4
  | None => from_cidr
  end.

Definition legacyListValue (c : json_column) : option string :=
  match c with
  | JsonArray (x :: l) => Some (join "," (x :: l))
  | _ => None
  end.

(** [row.value == null] *)
Definition isLinkedOption (row : Z * option string) : bool :=
  match snd row with None => true | Some _ => false end.

(** ** The effective options *)

Inductive source := FromDefault | FromScope | FromLegacy | FromNetwork.

(** [values] and [provenance], by code. *)
Abbreviation Values := (gmap Z (string * source)).

Definition set_value (k : Z) (v : option string) (src : source) (m : Values) : Values :=
  match v with
  | Some s => if String.eqb s "" then m else <[k := (s, src)]> m
  | None => m
  end.

(** The options, sorted by code: a map says no more. *)
Record Effective := mkEffective {
  e_lease_time : string;
  router_suppressed : bool;
  e_options : Values }.

(** [defaults]: the family's defaults that have a value. *)
Definition set_linked (defaults : gmap Z string) (fam : Z) (rows : list (Z * option string)) (m : Values) : Values :=
  fold_left (fun m row => if (fam =? 4) && (fst row =? 51) then m else set_value (fst row) (defaults !! fst row) FromDefault m)
    (List.filter isLinkedOption rows) m.

Definition set_explicit (skip51 : bool) (rows : list (Z * option string)) (m : Values) : Values :=
  fold_left (fun m row => if skip51 && (fst row =? 51) then m else set_value (fst row) (snd row) FromScope m)
    (List.filter (fun row => negb (isLinkedOption row)) rows) m.

Definition effective6 (defaults : gmap Z string) (s : Scope) : Effective :=
  let m := set_linked defaults 6 (options s) ∅ in
  let m := set_value 23 (legacyListValue (dns_servers s)) FromLegacy m in
  let m := set_value 24 (domain_search s) FromLegacy m in
  let m := set_value 56 (legacyListValue (ntp_servers s)) FromLegacy m in
  let m := set_explicit false (options s) m in
  let m := match m !! 24 with Some _ => m | None => set_value 24 (or_string (domain_name s) (subnet_domain_name s)) FromNetwork m end in
  mkEffective (lease_time s) false m.

(** The legacy columns of a DHCPv4 scope with no value of its own. *)
Definition set_legacy4 (s : Scope) (m : Values) : Values :=
  let m := set_value 3 (gateway s) FromLegacy m in
  let m := set_value 15 (domain_name s) FromLegacy m in
  let m := set_value 42 (legacyListValue (ntp_servers s)) FromLegacy m in
  set_value 119 (domain_search s) FromLegacy m.

Definition set_mask (parsed : Network) (m : Values) : Values :=
  match legacy parsed with
  | Some l => set_value 28 (Some (broadcast l)) FromNetwork (set_value 1 (Some (mask parsed)) FromNetwork m)
  | None => m
  end.

Definition set_absent (k : Z) (v : option string) (m : Values) : Values :=
  match m !! k with Some _ => m | None => set_value k v FromNetwork m end.

Definition effective4 (defaults : gmap Z string) (s : Scope) : result cidr_error Effective :=
  let m := set_linked defaults 4 (options s) ∅ in
  let m := set_explicit true (options s) m in
  let m := if forallb isLinkedOption (options s) then set_legacy4 s m else m in
  m ← (match subnet_cidr s with
       | Some c => if String.eqb c "" then mret m else parsed ← parseNetwork c; mret (set_mask parsed m)
       | None => mret m
       end);
  let m := if truthy (subnet_gateway s) then set_value 3 (subnet_gateway s) FromNetwork m else base.delete 3 m in
  let m := set_absent 15 (subnet_domain_name s) m in
  let m := set_absent 119 (subnet_domain_name s) m in
  mret (mkEffective (lease_time s) (negb (truthy (subnet_gateway s))) m).

(** [dhcp_option_defaults] rows with a value, of the scope's family. *)
Definition resolveEffectiveScopeOptions (db : Db) (s : Scope) : result cidr_error Effective :=
  let fam := scopeAddressFamily (address_family s) (subnet_cidr s) in
  let defaults := DhcpDefaults.defaults (getDefaultOptions db fam) in
  if fam =? 6 then mret (effective6 defaults s) else effective4 defaults s.

(** ** Storing the options of a scope *)

(** A network as the scope routes read it. *)
Record Subnet := mkSubnet {
  net_family : option Z;
  net_cidr : option string;
  net_gateway : option string;
  net_domain : option string }.

(** [parseInt(text, 10)] *)
Definition parseInt10 (text : string) : option Z :=
  let t := drop_while is_space text in
  let '(sign, t) := match t with
                    | String c t' => if Ascii.eqb c "-" then (-1, t') else if Ascii.eqb c "+" then (1, t') else (1, t)
                    | EmptyString => (1, t)
                    end in
  let digits := ConfigValue.take_while is_digit t in
  if String.eqb digits "" then None else Some (sign * from_base 10 digits).

Definition mask_text (pfx : Z) : string :=
  longToIp (if pfx =? 0 then 0 else Z.land (Z.shiftl 4294967295 (32 - pfx)) 4294967295).

(** What the scope has from its network anyway, so it is not stored. *)
Definition computeInheritedOptions (net : Subnet) : result cidr_error (gmap Z string) :=
  let domain k (m : gmap Z string) := match net_domain net with Some d => if String.eqb d "" then m else <[k := d]> m | None => m end in
  let has_colon := match net_cidr net with Some c => has_char ":" c | None => false end in
  if match net_family net with Some n => n =? 6 | None => false end || has_colon then mret (domain 24 ∅)
  else
    let m : gmap Z string := match net_gateway net with Some g => if String.eqb g "" then ∅ else {[3 := g]} | None => ∅ end in
    m ← (match net_cidr net with
         | Some c =>
             if String.eqb c "" then mret m
             else
               match nth_error (split_char "/" c) 1 ≫= parseInt10 with
               | Some pfx =>
                   if (0 <=? pfx) && (pfx <=? 32) then
                     parsed ← parseNetwork c;
                     let m := <[1 := mask_text pfx]> m in
                     mret (match legacy parsed with Some l => <[28 := broadcast l]> m | None => m end)
                   else mret m
               | None => mret m
               end
         | None => mret m
         end);
    mret (domain 119 (domain 15 m)).

(** An option sent for a scope. *)
Record SentOption := mkSent { sent_code : Z; sent_value : option string; sent_default : bool }.

Inductive save_error := Option51 | DuplicateOption | BadNetwork (e : cidr_error).

Definition insert_row (k : Z) (v : option string) (rows : list (Z * option string)) : result save_error (list (Z * option string)) :=
  if existsb (fun row => fst row =? k) rows then Err DuplicateOption else Ok (rows ++ [(k, v)]).

Fixpoint save_loop (fam : Z) (inherited : gmap Z string) (opts : list SentOption) (rows : list (Z * option string))
    : result save_error (list (Z * option string)) :=
  match opts with
  | [] => Ok rows
  | o :: opts' =>
      let k := sent_code o in
      if (k =? 0) || (negb (sent_default o) && negb (truthy (sent_value o))) then save_loop fam inherited opts' rows
      else if (fam =? 4) && (k =? 51) then Err Option51
      else if sent_default o then rows ← insert_row k None rows; save_loop fam inherited opts' rows
      else
        match inherited !! k, sent_value o with
        | Some h, Some v =>
            if negb (String.eqb h "") && String.eqb v h then save_loop fam inherited opts' rows
            else rows ← insert_row k (Some v) rows; save_loop fam inherited opts' rows
        | _, v => rows ← insert_row k v rows; save_loop fam inherited opts' rows
        end
  end.

(** The rows of a scope after [saveScopeOptions] with [replace], or for a new
    scope. *)
Definition saveScopeOptions (net : Subnet) (opts : list SentOption) : result save_error (list (Z * option string)) :=
  let fam := scopeAddressFamily (net_family net) (net_cidr net) in
  match computeInheritedOptions net with
  | Err e => Err (BadNetwork e)
  | Ok inherited => save_loop fam inherited opts []
  end.

(** ** The options of a new scope *)

(** [Map.prototype.set]: a key keeps its place. *)
Fixpoint map_set {A} (k : Z) (v : A) (m : list (Z * A)) : list (Z * A) :=
  match m with
  | [] => [(k, v)]
  | (j, w) :: m' => if j =? k then (k, v) :: m' else (j, w) :: map_set k v m'
  end.

(** What the scope takes from its network: code, value, and whether it
    replaces one already set. *)
Definition networkOptionFills (fam : Z) (mask broadcast gateway domain serverIp : option string) : list (Z * string * bool) :=
  omap (fun f => match f with
                 | (k, Some v, b) => if String.eqb v "" then None else Some (k, v, b)
                 | (_, None, _) => None
                 end)
    (if fam =? 6 then [(24, domain, false); (23, serverIp, false)]
     else [(3, gateway, true); (1, mask, true); (28, broadcast, true); (15, domain, false); (119, domain, false); (6, serverIp, false)]).

Inductive fill := UseDefault | Value (v : option string).

Definition is_set (f : option fill) : bool :=
  match f with Some UseDefault => true | Some (Value v) => truthy v | None => false end.

(** A blank is [null]. *)
Definition normalize_fill (f : fill) : fill :=
  match f with UseDefault => UseDefault | Value v => Value (if truthy v then v else None) end.

Definition fillScopeOptions (enabled : list (Z * fill)) (parsed : Network) (gateway domain serverIp : option string) : list (Z * fill) :=
  let fam := if Cidr.family parsed =? 6 then 6 else 4 in
  let m := fold_left (fun m kf => map_set (fst kf) (normalize_fill (snd kf)) m) enabled [] in
  fold_left (fun m f => let '(k, v, overwrite) := f in
                        if (overwrite : bool) || negb (is_set (assoc k m)) then map_set k (Value (Some v)) m else m)
    (networkOptionFills fam (Some (mask parsed)) (option_map broadcast (legacy parsed)) gateway domain serverIp) m.

(** The rows that are stored. *)
Definition writeScopeOptionRows (m : list (Z * fill)) : list (Z * option string) :=
  omap (fun kf => match snd kf with
                  | UseDefault => Some (fst kf, None)
                  | Value v => if truthy v then Some (fst kf, v) else None
                  end) m.

(** [serverIp] is [getServerIpForSubnet] of the scope's network. *)
Definition insertScopeOptionsFromDefaults (db : Db) (parsed : Network) (gateway domain serverIp : option string) : list (Z * option string) :=
  let fam := if Cidr.family parsed =? 6 then 6 else 4 in
  let enabledRows := map_to_list (filter (fun kr => enabled_by_default (snd kr) = true) (rows (option_defaults db) fam)) in
  writeScopeOptionRows
    (fillScopeOptions (map (fun kr => (fst kr, if truthy (value (snd kr)) then UseDefault else Value None)) enabledRows)
       parsed gateway domain serverIp).

(** ** What a backend is given *)

Inductive rendered := Addresses (l : list string) | Text (t : string).

Section Serve.
(** [getent]'s first address of a name in a family, from outside the program. *)
Context (getent : Z -> string -> option string).

Definition resolveToIp (v : string) (fam : Z) : option string :=
  if isValidAddress v then if bool_decide (addressFamily v = Some fam) then Some v else None
  else
    match getent fam v with
    | Some ip => if negb (String.eqb ip "") && isValidAddress ip && bool_decide (addressFamily ip = Some fam) then Some ip else None
    | None => None
    end.

Definition optionValue (v type : string) (fam : Z) : option rendered :=
  if String.eqb type "ip" || String.eqb type "ip-list" then
    match omap (fun part => resolveToIp (trim part) fam) (split_char "," v) with
    | [] => None
    | l => match ConfigValue.validateConfigSafeValue (join "," l) true false with None => Some (Addresses l) | Some _ => None end
    end
  else
    match ConfigValue.validateConfigSafeValue v (String.eqb type "text-list") false with
    | None => Some (Text v)
    | Some _ => None
    end.

(** [if (v && !merged.has(k)) merged.set(k, v)] *)
Definition merge_absent (k : Z) (v : option string) (m : gmap Z string) : gmap Z string :=
  match m !! k, v with
  | None, Some s => if String.eqb s "" then m else <[k := s]> m
  | _, _ => m
  end.

(** The merged options and the lease time. *)
Definition v4Options (s : Scope) (e : Effective) : gmap Z string * string :=
  let merged : gmap Z string := fst <$> e_options e in
  let merged :=
    if bool_decide (e_options e = ∅) then
      let m := merge_absent 3 (or_string (gateway s) (subnet_gateway s)) merged in
      let m := merge_absent 6 (legacyListValue (dns_servers s)) m in
      let m := merge_absent 15 (domain_name s) m in
      let m := merge_absent 42 (legacyListValue (ntp_servers s)) m in
      merge_absent 119 (domain_search s) m
    else merged in
  let merged := merge_absent 3 (subnet_gateway s) merged in
  let merged := merge_absent 15 (subnet_domain_name s) merged in
  let merged := merge_absent 119 (subnet_domain_name s) merged in
  let leaseTime := match merged !! 51 with Some t => t +:+ "s" | None => e_lease_time e end in
  (base.delete 28 (base.delete 1 (base.delete 51 merged)), leaseTime).

Definition v6Options (e : Effective) (serverIp : option string) : gmap Z string :=
  let merged : gmap Z string := fst <$> e_options e in
  let merged := merge_absent 23 serverIp merged in
  filter (fun kv => fst kv ∉ internalCodes (optionCatalogFor 6)) merged.

(** The catalog's type, or the custom option's: ['text'] when it has none. *)
Definition type_of (db : Db) (fam k : Z) : option (string * bool) :=
  match byCode (optionCatalogFor fam) !! k with
  | Some e => Some (type_ e, false)
  | None => match rows (custom_options db) fam !! k with
            | Some c => Some (if String.eqb (custom_type c) "" then "text" else custom_type c, true)
            | None => None
            end
  end.

Definition render_options (db : Db) (fam : Z) (merged : gmap Z string) : gmap Z (string * bool * rendered) :=
  map_imap (fun k v => match type_of db fam k with
                       | Some (t, custom) =>
                           if String.eqb v "" then None else option_map (pair (t, custom)) (optionValue v t fam)
                       | None => None
                       end) merged.

(** One scope of [loadDhcpScopes], with its parsed network. *)
Definition servedOptions (db : Db) (s : Scope) (parsed : Network) (e : Effective) (serverIp : option string)
    : gmap Z (string * bool * rendered) * string :=
  if Cidr.family parsed =? 6
  then (render_options db 6 (v6Options e serverIp), e_lease_time e)
  else let '(merged, leaseTime) := v4Options s e in (render_options db 4 merged, leaseTime).
End Serve.

(** ** Lemmas: layers *)

(** A layer's value of an option, when it has one. *)
Definition pick (v : option string) (src : source) : option (string * source) :=
  match v with Some s => if String.eqb s "" then None else Some (s, src) | None => None end.

Definition first_of (a b : option (string * source)) : option (string * source) :=
  match a with Some x => Some x | None => b end.

Lemma set_value_lookup k v src m j :
  set_value k v src m !! j = if k =? j then first_of (pick v src) (m !! j) else m !! j.
Proof.
  unfold set_value, pick. destruct (Z.eqb_spec k j) as [->|Hne]; destruct v as [s|]; try done.
  - destruct (String.eqb s ""); [done|]. by rewrite lookup_insert_eq.
  - destruct (String.eqb s ""); [done|]. by rewrite lookup_insert_ne.
Qed.

Lemma rows_fold_lookup (skip : Z -> bool) (f : Z -> option string -> option string) src l m j :
  NoDup (map fst l) ->
  fold_left (fun m row => if skip (fst row) then m else set_value (fst row) (f (fst row) (snd row)) src m) l m !! j =
  match assoc j l with
  | Some v => if skip j then m !! j else first_of (pick (f j v) src) (m !! j)
  | None => m !! j
  end.
Proof.
  revert m. induction l as [|[k v] l IH]; intros m Hnd; cbn [fold_left assoc map fst snd] in *; [done|].
  apply NoDup_cons in Hnd as [Hk Hnd]. rewrite IH by done. destruct (Z.eqb_spec j k) as [->|Hne].
  - rewrite assoc_None by done. destruct (skip k); [done|]. by rewrite set_value_lookup, Z.eqb_refl.
  - assert ((if skip k then m else set_value k (f k v) src m) !! j = m !! j) as ->; [|done].
    destruct (skip k); [done|]. rewrite set_value_lookup. by destruct (Z.eqb_spec k j).
Qed.

Lemma assoc_filter {A} (p : Z * A -> bool) k (l : list (Z * A)) :
  NoDup (map fst l) ->
  assoc k (List.filter p l) = match assoc k l with Some v => if p (k, v) then Some v else None | None => None end.
Proof.
  induction l as [|[j v] l IH]; cbn [List.filter assoc map fst]; [done|]. intros [Hj Hnd]%NoDup_cons.
  specialize (IH Hnd). destruct (Z.eqb_spec k j) as [->|Hne].
  - destruct (p (j, v)); cbn [assoc]; [by rewrite Z.eqb_refl|]. rewrite IH. by rewrite assoc_None.
  - destruct (p (j, v)); cbn [assoc]; [|done]. apply Z.eqb_neq in Hne. by rewrite Hne.
Qed.

Lemma NoDup_filter_fst {A} (p : Z * A -> bool) (l : list (Z * A)) : NoDup (map fst l) -> NoDup (map fst (List.filter p l)).
Proof.
  induction l as [|[j v] l IH]; cbn [List.filter map fst]; [done|]. intros [Hj Hnd]%NoDup_cons.
  destruct (p (j, v)); cbn [map fst]; [|auto]. apply NoDup_cons. split; [|auto].
  intros Hin. apply Hj. apply list_elem_of_In, in_map_iff in Hin as (x & <- & Hx). apply List.filter_In in Hx as [Hx _].
  by apply list_elem_of_In, in_map.
Qed.

(** The row of an option, if it holds a value; if it follows the default. *)
Definition own_value (rows : list (Z * option string)) (k : Z) : option (string * source) :=
  match assoc k rows with Some (Some v) => pick (Some v) FromScope | _ => None end.

Definition linked_value (defaults : gmap Z string) (rows : list (Z * option string)) (k : Z) : option (string * source) :=
  match assoc k rows with Some None => pick (defaults !! k) FromDefault | _ => None end.

Lemma set_explicit_lookup skip51 rows m j :
  NoDup (map fst rows) ->
  set_explicit skip51 rows m !! j = if skip51 && (j =? 51) then m !! j else first_of (own_value rows j) (m !! j).
Proof.
  intros Hnd. unfold set_explicit.
  rewrite (rows_fold_lookup (fun k => skip51 && (k =? 51)) (fun _ v => v)) by by apply NoDup_filter_fst.
  rewrite assoc_filter by done. unfold own_value. destruct (assoc j rows) as [[v|]|]; cbn [negb isLinkedOption snd]; by destruct (skip51 && _).
Qed.

Lemma set_linked_lookup defaults fam rows m j :
  NoDup (map fst rows) ->
  set_linked defaults fam rows m !! j =
  if (fam =? 4) && (j =? 51) then m !! j else first_of (linked_value defaults rows j) (m !! j).
Proof.
  intros Hnd. unfold set_linked.
  rewrite (rows_fold_lookup (fun k => (fam =? 4) && (k =? 51)) (fun k _ => defaults !! k)) by by apply NoDup_filter_fst.
  rewrite assoc_filter by done. unfold linked_value. destruct (assoc j rows) as [[v|]|]; cbn [isLinkedOption snd]; by destruct ((fam =? 4) && _).
Qed.

(** ** The specification: who decides an option *)

(** The legacy columns, in DHCPv4 only while the scope has no value of its own. *)
Definition legacy4_value (s : Scope) (k : Z) : option (string * source) :=
  if forallb isLinkedOption (options s) then
    if k =? 3 then pick (gateway s) FromLegacy
    else if k =? 15 then pick (domain_name s) FromLegacy
    else if k =? 42 then pick (legacyListValue (ntp_servers s)) FromLegacy
    else if k =? 119 then pick (domain_search s) FromLegacy
    else None
  else None.

Definition spec4 (defaults : gmap Z string) (s : Scope) (n : Network) (k : Z) : option (string * source) :=
  if k =? 51 then None
  else if k =? 1 then Some (mask n, FromNetwork)
  else if k =? 28 then Some (bigToAddress (lastBig n) 4, FromNetwork)
  else if k =? 3 then pick (subnet_gateway s) FromNetwork
  else
    first_of (legacy4_value s k)
      (first_of (own_value (options s) k)
         (first_of (linked_value defaults (options s) k)
            (if (k =? 15) || (k =? 119) then pick (subnet_domain_name s) FromNetwork else None))).

Definition legacy6_value (s : Scope) (k : Z) : option (string * source) :=
  if k =? 23 then pick (legacyListValue (dns_servers s)) FromLegacy
  else if k =? 24 then pick (domain_search s) FromLegacy
  else if k =? 56 then pick (legacyListValue (ntp_servers s)) FromLegacy
  else None.

Definition spec6 (defaults : gmap Z string) (s : Scope) (k : Z) : option (string * source) :=
  first_of (own_value (options s) k)
    (first_of (legacy6_value s k)
       (first_of (linked_value defaults (options s) k)
          (if k =? 24 then pick (or_string (domain_name s) (subnet_domain_name s)) FromNetwork else None))).

Lemma first_of_None a : first_of a None = a.
Proof. by destruct a. Qed.

Lemma first_of_assoc a b c : first_of a (first_of b c) = first_of (first_of a b) c.
Proof. by destruct a. Qed.

Lemma set_absent_lookup k v m j :
  set_absent k v m !! j = if k =? j then first_of (m !! j) (pick v FromNetwork) else m !! j.
Proof.
  unfold set_absent. destruct (Z.eqb_spec k j) as [->|Hne].
  - destruct (m !! j) eqn:Hm; [done|]. rewrite set_value_lookup, Z.eqb_refl, Hm. by rewrite first_of_None.
  - destruct (m !! k); [done|]. rewrite set_value_lookup. by destruct (Z.eqb_spec k j).
Qed.

Lemma set_legacy4_lookup s m k :
  forallb isLinkedOption (options s) = true -> set_legacy4 s m !! k = first_of (legacy4_value s k) (m !! k).
Proof.
  intros Hl. unfold set_legacy4, legacy4_value. rewrite Hl, !set_value_lookup.
  repeat match goal with |- context [?a =? ?b] => destruct (Z.eqb_spec a b); subst; try lia; try done end.
Qed.

(** The branch of a network that is IPv4. *)
Lemma v4_legacy n : wf_network n -> Cidr.family n = 4 -> exists l, legacy n = Some l /\ broadcast l = bigToAddress (lastBig n) 4.
Proof.
  intros Hw Hf. destruct (wf_usable n Hw) as (Hl & _). rewrite Hf in Hl. eexists. split; [exact Hl|done].
Qed.

Lemma bigToAddress_nonempty v f : String.eqb (bigToAddress v f) "" = false.
Proof. apply String.eqb_neq. unfold bigToAddress. apply formatIp_nonempty. Qed.

Lemma effective4_spec defaults s c n :
  NoDup (map fst (options s)) -> subnet_cidr s = Some c -> parseNetwork c = Ok n -> Cidr.family n = 4 ->
  exists e, effective4 defaults s = Ok e /\ e_lease_time e = lease_time s /\
    router_suppressed e = negb (truthy (subnet_gateway s)) /\ forall k, e_options e !! k = spec4 defaults s n k.
Proof.
  intros Hnd Hc Hn Hf. unfold effective4. rewrite Hc.
  assert (String.eqb c "" = false) as -> by (destruct c; [by vm_compute in Hn|done]). rewrite Hn.
  destruct (v4_legacy n (parseNetwork_wf _ _ Hn) Hf) as (l & Hl & Hb).
  set (m1 := if forallb isLinkedOption (options s) then _ else _). cbn [mbind result_bind mret result_ret]. unfold set_mask. rewrite Hl, Hb.
  assert (forall k, k <> 51 -> m1 !! k = first_of (legacy4_value s k)
            (first_of (own_value (options s) k) (linked_value defaults (options s) k))) as Hm1.
  { intros k Hk. subst m1. destruct (forallb isLinkedOption (options s)) eqn:Hall.
    - rewrite set_legacy4_lookup, set_explicit_lookup, set_linked_lookup by done. apply Z.eqb_neq in Hk. rewrite Hk.
      cbn. by rewrite lookup_empty, first_of_None.
    - rewrite set_explicit_lookup, set_linked_lookup by done. unfold legacy4_value. rewrite Hall. apply Z.eqb_neq in Hk. rewrite Hk.
      cbn. by rewrite lookup_empty, first_of_None. }
  assert (m1 !! 51 = None) as H51.
  { subst m1. destruct (forallb isLinkedOption (options s)) eqn:Hall;
      rewrite ?set_legacy4_lookup, set_explicit_lookup, set_linked_lookup by done; cbn; rewrite lookup_empty; [|done].
    unfold legacy4_value. by rewrite Hall. }
  clearbody m1. eexists. split; [reflexivity|]. split_and!; [done|done|]. intros k. cbn [e_options].
  rewrite !set_absent_lookup. unfold spec4.
  assert (forall v, pick (Some (bigToAddress v 4)) FromNetwork = Some (bigToAddress v 4, FromNetwork)) as Hp.
  { intros v. unfold pick. by rewrite bigToAddress_nonempty. }
  assert (pick (Some (mask n)) FromNetwork = Some (mask n, FromNetwork)) as Hpm.
  { pose proof (f_equal mask (wf_build n (parseNetwork_wf _ _ Hn))) as Hmk. unfold buildNetwork in Hmk. cbn in Hmk. rewrite Hf in Hmk.
    rewrite Hmk. apply Hp. }
  set (m2 := set_value 28 _ _ _). assert (forall j, m2 !! j = if j =? 1 then Some (mask n, FromNetwork)
    else if j =? 28 then Some (bigToAddress (lastBig n) 4, FromNetwork) else m1 !! j) as Hm2.
  { intros j. subst m2. rewrite !set_value_lookup, Hp, Hpm, !(Z.eqb_sym _ j).
    destruct (Z.eqb_spec j 1) as [->|]; [done|]. by destruct (Z.eqb_spec j 28). }
  clearbody m2. set (m3 := if truthy (subnet_gateway s) then _ else _).
  assert (forall j, m3 !! j = if j =? 3 then pick (subnet_gateway s) FromNetwork else m2 !! j) as Hm3.
  { intros j. subst m3. unfold truthy. destruct (subnet_gateway s) as [g|]; cbn [pick].
    - destruct (String.eqb g "") eqn:Hg; cbn [negb].
      + destruct (Z.eqb_spec j 3) as [->|]; [by rewrite lookup_delete_eq|by rewrite lookup_delete_ne].
      + rewrite set_value_lookup, Z.eqb_sym. unfold pick. rewrite Hg. by destruct (j =? 3).
    - destruct (Z.eqb_spec j 3) as [->|]; [by rewrite lookup_delete_eq|by rewrite lookup_delete_ne]. }
  clearbody m3. rewrite Hm3, Hm2.
  destruct (Z.eqb_spec k 51) as [->|H5]; [done|]. rewrite Hm1 by done. rewrite !(Z.eqb_sym _ k).
  destruct (Z.eqb_spec k 1) as [->|]; [done|]. destruct (Z.eqb_spec k 28) as [->|]; [done|].
  destruct (Z.eqb_spec k 3) as [->|]; [done|]. destruct (Z.eqb_spec k 15) as [->|]; cbn [orb]; [by rewrite !first_of_assoc|].
  destruct (Z.eqb_spec k 119) as [->|]; [by rewrite !first_of_assoc|]. by rewrite !first_of_None.
Qed.

Lemma effective6_spec defaults s :
  NoDup (map fst (options s)) ->
  e_lease_time (effective6 defaults s) = lease_time s /\ router_suppressed (effective6 defaults s) = false /\
  forall k, e_options (effective6 defaults s) !! k = spec6 defaults s k.
Proof.
  intros Hnd. split_and!; [done|done|]. intros k. unfold effective6. cbn [e_options].
  fold (set_absent 24 (or_string (domain_name s) (subnet_domain_name s))
    (set_explicit false (options s) (set_value 56 (legacyListValue (ntp_servers s)) FromLegacy
       (set_value 24 (domain_search s) FromLegacy (set_value 23 (legacyListValue (dns_servers s)) FromLegacy (set_linked defaults 6 (options s) ∅)))))).
  rewrite set_absent_lookup, set_explicit_lookup, !set_value_lookup, set_linked_lookup by done. cbn [andb].
  rewrite lookup_empty, first_of_None, !(Z.eqb_sym _ k). unfold spec6, legacy6_value.
  destruct (Z.eqb_spec k 24) as [->|]; [cbn; by rewrite !first_of_assoc|].
  destruct (Z.eqb_spec k 56) as [->|]; [cbn; by rewrite !first_of_None|].
  destruct (Z.eqb_spec k 23) as [->|]; [by rewrite !first_of_None|]. by rewrite !first_of_None.
Qed.

(** ** Lemmas: what a save stores *)

(** The row an option sent for a scope leaves, given what is inherited. *)
Definition stored (inherited : gmap Z string) (o : SentOption) : option (option string) :=
  if sent_default o then Some None
  else if truthy (sent_value o) then
    match inherited !! sent_code o, sent_value o with
    | Some h, Some v => if negb (String.eqb h "") && String.eqb v h then None else Some (Some v)
    | _, v => Some v
    end
  else None.

Definition stored_row (inherited : gmap Z string) (o : SentOption) : option (Z * option string) :=
  option_map (pair (sent_code o)) (stored inherited o).

Definition is_blank_sent (o : SentOption) : bool := negb (sent_default o) && negb (truthy (sent_value o)).

Lemma insert_row_fresh k v rows : k ∉ map fst rows -> insert_row k v rows = Ok (rows ++ [(k, v)]).
Proof.
  intros Hk. unfold insert_row. destruct (existsb _ rows) eqn:He; [|done].
  apply existsb_exists in He as (row & Hin & Heq%Z.eqb_eq). destruct Hk. subst k.
  by apply list_elem_of_In, in_map.
Qed.

Lemma save_loop_rows fam inherited opts rows :
  NoDup (map sent_code opts) -> Forall (fun o => sent_code o ∉ map fst rows) opts ->
  Forall (fun o => sent_code o <> 0 /\ (fam = 4 -> sent_code o = 51 -> is_blank_sent o = true)) opts ->
  save_loop fam inherited opts rows = Ok (rows ++ omap (stored_row inherited) opts).
Proof.
  revert rows. induction opts as [|o opts IH]; intros rows Hnd Hfresh Hok; cbn [save_loop omap list_omap].
  - by rewrite app_nil_r.
  - apply NoDup_cons in Hnd as [Ho Hnd]. apply Forall_cons in Hfresh as [Hof Hfresh], Hok as [[H0 H51] Hok].
    apply Z.eqb_neq in H0. rewrite H0. cbn [orb]. fold (is_blank_sent o). unfold stored_row at 1, stored.
    assert (forall v, save_loop fam inherited opts (rows ++ [(sent_code o, v)]) =
                      Ok (rows ++ (sent_code o, v) :: omap (stored_row inherited) opts)) as Hstep.
    { intros v. rewrite IH; [by rewrite <- app_assoc|done| |done]. apply Forall_forall. intros o' Ho'.
      rewrite map_app, not_elem_of_app. rewrite Forall_forall in Hfresh. split; [auto|]. cbn.
      intros Heq%list_elem_of_singleton. apply Ho. rewrite <- Heq. by apply list_elem_of_In, in_map, list_elem_of_In. }
    destruct (is_blank_sent o) eqn:Hb.
    + unfold is_blank_sent in Hb. apply andb_true_iff in Hb as [->%negb_true_iff ->%negb_true_iff]. cbn. by apply IH.
    + assert ((fam =? 4) && (sent_code o =? 51) = false) as ->.
      { apply not_true_iff_false. intros [->%Z.eqb_eq H5%Z.eqb_eq]%andb_true_iff. specialize (H51 eq_refl H5). congruence. }
      unfold is_blank_sent in Hb. destruct (sent_default o) eqn:Hd.
      * rewrite insert_row_fresh by done. cbn. by rewrite Hstep.
      * cbn in Hb. apply negb_false_iff in Hb. rewrite Hb. cbn [negb andb orb].
        destruct (sent_value o) as [v|]; [|done]. destruct (inherited !! sent_code o) as [h|].
        -- destruct (negb (String.eqb h "") && String.eqb v h); [by apply IH|]. rewrite insert_row_fresh by done. cbn. by rewrite Hstep.
        -- rewrite insert_row_fresh by done. cbn. by rewrite Hstep.
Qed.

Lemma assoc_stored inherited opts k :
  NoDup (map sent_code opts) ->
  assoc k (omap (stored_row inherited) opts) =
  match List.find (fun o => sent_code o =? k) opts with Some o => stored inherited o | None => None end.
Proof.
  induction opts as [|o opts IH]; cbn [omap list_omap List.find map]; [done|]. intros [Ho Hnd]%NoDup_cons. specialize (IH Hnd).
  unfold stored_row at 1. destruct (Z.eqb_spec (sent_code o) k) as [<-|Hne].
  - destruct (stored inherited o) as [v|]; cbn [option_map assoc]; [by rewrite Z.eqb_refl|].
    rewrite IH. destruct (List.find _ opts) as [o'|] eqn:Hf; [|done]. apply List.find_some in Hf as [Hin Heq%Z.eqb_eq].
    destruct Ho. rewrite <- Heq. by apply list_elem_of_In, in_map.
  - destruct (stored inherited o) as [v|]; cbn [option_map assoc]; [|done]. destruct (Z.eqb_spec k (sent_code o)); [congruence|done].
Qed.

Lemma NoDup_stored inherited opts : NoDup (map sent_code opts) -> NoDup (map fst (omap (stored_row inherited) opts)).
Proof.
  induction opts as [|o opts IH]; cbn [omap list_omap map]; [done|]. intros [Ho Hnd]%NoDup_cons.
  unfold stored_row at 1. destruct (stored inherited o) as [v|]; cbn [option_map map fst]; [|by apply IH].
  apply NoDup_cons. split; [|by apply IH]. intros Hin. apply Ho.
  apply list_elem_of_In, in_map_iff in Hin as ([j w] & <- & Hin%list_elem_of_In).
  apply list_elem_of_omap in Hin as (o' & Ho' & Hs). unfold stored_row in Hs. destruct (stored inherited o'); [|done].
  injection Hs as <- _. cbn [fst]. by apply list_elem_of_In, in_map, list_elem_of_In.
Qed.

(** ** Properties *)

(** Which layer decides each option of a scope is a fixed order, for
    every scope whose rows have distinct codes. On an IPv4 network the mask,
    the broadcast address and the router are the network's (no gateway, no
    router), the lease time is never an option, and any other code takes the
    legacy column while the scope has no value of its own, else the scope's
    row, else the current default where the row follows it, else, for the
    domain and the search list, the network's domain. On IPv6 the scope's row
    comes first, then the legacy column, the followed default and the
    network's domain for the search list. *)
Theorem effective_layers db s :
  NoDup (map fst (options s)) ->
  (forall c n, subnet_cidr s = Some c -> parseNetwork c = Ok n -> Cidr.family n = 4 ->
     scopeAddressFamily (address_family s) (subnet_cidr s) = 4 ->
     exists e, resolveEffectiveScopeOptions db s = Ok e /\ e_lease_time e = lease_time s /\
       router_suppressed e = negb (truthy (subnet_gateway s)) /\
       forall k, e_options e !! k = spec4 (DhcpDefaults.defaults (getDefaultOptions db 4)) s n k) /\
  (scopeAddressFamily (address_family s) (subnet_cidr s) = 6 ->
     exists e, resolveEffectiveScopeOptions db s = Ok e /\ e_lease_time e = lease_time s /\ router_suppressed e = false /\
       forall k, e_options e !! k = spec6 (DhcpDefaults.defaults (getDefaultOptions db 6)) s k).
Proof.
  intros Hnd. unfold resolveEffectiveScopeOptions. split.
  - intros c n Hc Hn Hf ->. cbn [Z.eqb]. by eapply effective4_spec.
  - intros ->. cbn [Z.eqb]. eexists. split; [reflexivity|]. by apply effective6_spec.
Qed.

Definition sample_scope : Scope :=
  mkScope (Some 4) "12h" NoColumn NoColumn None None None [(6, None); (42, Some "10.0.0.9")]
    (Some "10.0.0.0/24") (Some "10.0.0.1") (Some "lan").

Definition sample_db : Db := mkDb {[4 := {[6 := mkDefault (Some "10.0.0.2") true]}]} ∅ ∅ ∅ 1 [].

Lemma effective_layers_witness : exists e,
  resolveEffectiveScopeOptions sample_db sample_scope = Ok e /\
  map (fun k => e_options e !! k) [1; 3; 6; 15; 42] =
  [Some ("255.255.255.0", FromNetwork); Some ("10.0.0.1", FromNetwork); Some ("10.0.0.2", FromDefault);
   Some ("lan", FromNetwork); Some ("10.0.0.9", FromScope)].
Proof.
  assert (NoDup (map fst (options sample_scope))) as Hnd by (apply (bool_decide_unpack _); vm_compute; exact I).
  destruct (effective_layers sample_db sample_scope Hnd) as [H4 _].
  destruct (H4 "10.0.0.0/24" (buildNetwork 167772160 32 4 24)) as (e & He & _ & _ & Hk); [done| |done|done|].
  - vm_compute. reflexivity.
  - exists e. split; [exact He|]. cbn [map]. rewrite !Hk. vm_compute. reflexivity.
Defined.

(** ** Saving, then serving *)

(** A scope on a network: the reader joins the network's own columns to it. The
    family is a column of the row or, where the row has none (the network that
    PUT /scopes reads), that of its CIDR. *)
Record on_network (s : Scope) (net : Subnet) (n : Network) : Prop := {
  on_parse : parseNetwork (cidr n) = Ok n;
  on_cidr : net_cidr net = Some (cidr n) /\ subnet_cidr s = Some (cidr n);
  on_family : scopeAddressFamily (net_family net) (net_cidr net) = Cidr.family n /\
    scopeAddressFamily (address_family s) (subnet_cidr s) = Cidr.family n;
  on_gateway : subnet_gateway s = net_gateway net;
  on_domain : subnet_domain_name s = net_domain net }.

Definition no_legacy (s : Scope) : Prop :=
  dns_servers s = NoColumn /\ ntp_servers s = NoColumn /\ domain_name s = None /\ gateway s = None /\ domain_search s = None.

Definition with_options (s : Scope) (rows : list (Z * option string)) : Scope :=
  mkScope (address_family s) (lease_time s) (dns_servers s) (ntp_servers s) (domain_name s) (gateway s) (domain_search s)
    rows (subnet_cidr s) (subnet_gateway s) (subnet_domain_name s).

Definition nonblank (v : option string) : option string := if truthy v then v else None.

(** The codes a network's domain fills. *)
Definition domain_code (fam k : Z) : bool := if fam =? 6 then k =? 24 else (k =? 15) || (k =? 119).

(** What the options sent for a scope ask it to serve. *)
Definition asked (defaults : gmap Z string) (opts : list SentOption) (k : Z) : option string :=
  match List.find (fun o => sent_code o =? k) opts with
  | Some o => nonblank (if sent_default o then defaults !! k else sent_value o)
  | None => None
  end.

Lemma pick_text v src : option_map fst (pick v src) = nonblank v.
Proof. unfold pick, nonblank, truthy. destruct v as [s|]; [|done]. by destruct (String.eqb s ""). Qed.

Lemma first_of_text a b : option_map fst (first_of a b) = match option_map fst a with Some v => Some v | None => option_map fst b end.
Proof. by destruct a. Qed.

Lemma family_cases n : wf_network n -> Cidr.family n = 4 \/ Cidr.family n = 6.
Proof. intros Hn. pose proof (wf_family n Hn) as Hf. inversion Hf; auto. Qed.

Lemma v6_text_colon v : has_char ":" (bigToAddress v 6) = true.
Proof. rewrite (bigToAddress_bits 6 128 v) by constructor. apply compress_chars; [apply hextets_of_words|apply length_hextets]. Qed.

(** Which family [computeInheritedOptions] takes the network for. *)
Lemma inherited_family net n :
  wf_network n -> net_cidr net = Some (cidr n) -> scopeAddressFamily (net_family net) (net_cidr net) = Cidr.family n ->
  match net_family net with Some f => f =? 6 | None => false end || has_char ":" (cidr n) = (Cidr.family n =? 6).
Proof.
  intros Hw Hc Hf. rewrite (wf_cidr n Hw). unfold cidrText. rewrite !has_char_app. destruct (family_cases n Hw) as [H4|H6].
  - rewrite H4 in *. rewrite v4_text_no_colon. change (has_char ":" "/") with false. cbn [orb].
    assert (has_char ":" (dec (Cidr.prefix n)) = false) as ->.
    { apply has_char_class with is_digit; [done|]. apply dec_digits. pose proof (wf_prefix n Hw). lia. }
    rewrite orb_false_r. destruct (net_family net) as [f|]; [|done]. unfold scopeAddressFamily in Hf. by destruct (f =? 6).
  - rewrite H6, v6_text_colon. cbn [orb]. by rewrite orb_true_r.
Qed.

Lemma inherited_lookup s net n :
  on_network s net n ->
  exists m, computeInheritedOptions net = Ok m /\
    forall k, (Cidr.family n = 4 -> k <> 1 /\ k <> 3 /\ k <> 28) ->
      m !! k = if domain_code (Cidr.family n) k then nonblank (net_domain net) else None.
Proof.
  intros [Hp [Hc _] [Hf _] _ _]. pose proof (parseNetwork_wf _ _ Hp) as Hw. pose proof (inherited_family net n Hw Hc Hf) as Hfam.
  unfold computeInheritedOptions. rewrite Hc, Hfam. clear Hfam.
  unfold domain_code, nonblank, truthy. destruct (family_cases n Hw) as [H4|H6].
  - rewrite H4. change (4 =? 6) with false. cbv iota. set (m0 := match net_gateway net with Some _ => _ | None => _ end).
    assert (forall k, k <> 3 -> m0 !! k = None) as Hm0.
    { intros k Hk. subst m0. destruct (net_gateway net) as [g|]; [|apply lookup_empty].
      destruct (String.eqb g ""); [apply lookup_empty|by apply lookup_singleton_ne]. }
    clearbody m0. rewrite Hp.
    assert (exists m1, (if String.eqb (cidr n) "" then mret m0
        else match nth_error (split_char "/" (cidr n)) 1 ≫= parseInt10 with
             | Some pfx => if (0 <=? pfx) && (pfx <=? 32) then
                 parsed ← Ok n; mret (match legacy parsed with Some l => <[28 := broadcast l]> (<[1 := mask_text pfx]> m0) | None => <[1 := mask_text pfx]> m0 end)
                 else mret m0
             | None => mret m0 end) = (Ok m1 : result cidr_error (gmap Z string)) /\
        forall k, k <> 1 -> k <> 3 -> k <> 28 -> m1 !! k = None) as (m1 & -> & Hm1).
    { destruct (String.eqb (cidr n) ""); [exists m0; eauto|].
      destruct (nth_error _ 1 ≫= parseInt10) as [pfx|]; [|exists m0; eauto].
      destruct ((0 <=? pfx) && (pfx <=? 32)); [|exists m0; eauto]. eexists. split; [reflexivity|].
      intros k H1 H3 H28. destruct (legacy n); rewrite ?lookup_insert_ne by done; by apply Hm0. }
    cbn [mbind result_bind mret result_ret]. eexists. split; [reflexivity|]. change (4 =? 6) with false. cbv iota.
    intros k Hk. destruct (Hk eq_refl) as (H1 & H3 & H28).
    destruct (net_domain net) as [d|]; [destruct (String.eqb d "")|]; cbn [negb].
    + rewrite Hm1 by done. by destruct (_ || _).
    + destruct (Z.eqb_spec k 119) as [->|]; [by rewrite lookup_insert_eq|].
      destruct (Z.eqb_spec k 15) as [->|]; [by rewrite lookup_insert_ne, lookup_insert_eq|].
      rewrite !lookup_insert_ne by done. by rewrite Hm1.
    + rewrite Hm1 by done. by destruct (_ || _).
  - rewrite H6. cbn [Z.eqb Pos.eqb orb]. eexists. split; [reflexivity|]. intros k _.
    destruct (net_domain net) as [d|]; [destruct (String.eqb d "")|]; cbn [negb].
    + rewrite lookup_empty. by destruct (k =? 24).
    + destruct (Z.eqb_spec k 24) as [->|]; [by rewrite lookup_insert_eq|by rewrite lookup_insert_ne].
    + rewrite lookup_empty. by destruct (k =? 24).
Qed.

(** The stored rows together with the network's domain give back what was
    asked. *)
Lemma stored_serves defaults inherited opts domain fam k :
  NoDup (map sent_code opts) ->
  inherited !! k = (if domain_code fam k then nonblank domain else None) ->
  let rows := omap (stored_row inherited) opts in
  option_map fst (first_of (own_value rows k) (first_of (linked_value defaults rows k)
    (if domain_code fam k then pick domain FromNetwork else None))) =
  match asked defaults opts k with Some v => Some v | None => if domain_code fam k then nonblank domain else None end.
Proof.
  intros Hnd Hi rows. unfold own_value, linked_value, asked. subst rows. rewrite assoc_stored by done.
  assert (option_map fst (if domain_code fam k then pick domain FromNetwork else None) =
          if domain_code fam k then nonblank domain else None) as Hdom.
  { destruct (domain_code fam k); [apply pick_text|done]. }
  destruct (List.find _ opts) as [o|] eqn:Hf; [|exact Hdom].
  apply List.find_some in Hf as [_ Hk%Z.eqb_eq]. unfold stored. rewrite Hk.
  destruct (sent_default o).
  - cbn [first_of]. by rewrite first_of_text, pick_text, Hdom.
  - destruct (truthy (sent_value o)) eqn:Ht; [|unfold nonblank at 1; rewrite Ht; exact Hdom].
    destruct (sent_value o) as [v|] eqn:Hv; [|done].
    assert (nonblank (Some v) = Some v) as Hnb by (unfold nonblank; by rewrite Ht).
    assert (option_map fst (first_of (pick (Some v) FromScope) (first_of None
      (if domain_code fam k then pick domain FromNetwork else None))) = Some v) as Hown.
    { by rewrite first_of_text, pick_text, Hnb. }
    rewrite Hnb. destruct (inherited !! k) as [h|] eqn:Hh; [|exact Hown].
    destruct (negb (String.eqb h "") && String.eqb v h) eqn:He; [|exact Hown].
    apply andb_true_iff in He as [_ ->%String.eqb_eq]. cbn [first_of]. by rewrite Hdom, <- Hi.
Qed.

Lemma no_legacy4 s k : no_legacy s -> legacy4_value s k = None.
Proof.
  intros (_ & H2 & H3 & H4 & H5). unfold legacy4_value. rewrite H2, H3, H4, H5. destruct (forallb _ _); [|done].
  repeat destruct (_ =? _); done.
Qed.

Lemma no_legacy6 s k : no_legacy s -> legacy6_value s k = None.
Proof.
  intros (H1 & H2 & _ & _ & H5). unfold legacy6_value. rewrite H1, H2, H5. repeat destruct (_ =? _); done.
Qed.

(** C37. A scope serves what was saved for it. For options with distinct
    codes, none of them 0, and no value for the DHCPv4 lease time (option 51,
    which saveScopeOptions refuses with an exception, see
    lease_time_option_throws), saving succeeds, and every code the network
    does not decide is then served with exactly the value sent, or with the
    default's value at the time it is served when the option follows it, also
    where the row was left out because the network gives the same value; a
    code that was not sent, or was sent blank, is served only as the network's
    domain. The DHCPv4 mask, router, broadcast address and lease time are the
    network's and the scope's own. This is of a scope whose legacy columns are
    empty; one that still has values in them is the subject of
    stale_domain_served. *)
Theorem saved_options_served db s net n opts :
  on_network s net n -> no_legacy s -> NoDup (map sent_code opts) ->
  Forall (fun o => sent_code o <> 0 /\ (Cidr.family n = 4 -> sent_code o = 51 -> is_blank_sent o = true)) opts ->
  exists rows e, saveScopeOptions net opts = Ok rows /\
    resolveEffectiveScopeOptions db (with_options s rows) = Ok e /\
    forall k, (Cidr.family n = 4 -> k <> 1 /\ k <> 3 /\ k <> 28 /\ k <> 51) ->
      option_map fst (e_options e !! k) =
      match asked (DhcpDefaults.defaults (getDefaultOptions db (Cidr.family n))) opts k with
      | Some v => Some v
      | None => if domain_code (Cidr.family n) k then nonblank (net_domain net) else None
      end.
Proof.
  intros Hon Hleg Hnd Hok. pose proof (inherited_lookup s net n Hon) as (inherited & Hinh & Hi).
  destruct Hon as [Hp [Hc Hsc] [Hf Hsf] Hg Hd]. pose proof (parseNetwork_wf _ _ Hp) as Hw.
  set (rows := omap (stored_row inherited) opts).
  assert (saveScopeOptions net opts = Ok rows) as Hsave.
  { unfold saveScopeOptions. rewrite Hf, Hinh. rewrite save_loop_rows; [done|done| |done].
    apply Forall_forall. intros o _. apply not_elem_of_nil. }
  assert (no_legacy (with_options s rows)) as Hleg' by exact Hleg.
  assert (NoDup (map fst (options (with_options s rows)))) as Hnd' by by apply NoDup_stored.
  unfold resolveEffectiveScopeOptions. cbn [address_family subnet_cidr with_options]. rewrite Hsf.
  destruct (family_cases n Hw) as [H4|H6].
  - rewrite H4 in *. cbn [Z.eqb]. destruct (effective4_spec (DhcpDefaults.defaults (getDefaultOptions db 4)) (with_options s rows) (cidr n) n)
      as (e & He & _ & _ & Hk); [done|exact Hsc|done|done|].
    exists rows, e. split_and!; [done|exact He|]. intros k Hkk. destruct (Hkk eq_refl) as (H1 & H3 & H28 & H51).
    rewrite Hk. unfold spec4. apply Z.eqb_neq in H1, H3, H28, H51. rewrite H51, H1, H28, H3, (no_legacy4 _ k Hleg').
    cbn [first_of options with_options subnet_domain_name]. rewrite Hd.
    apply (stored_serves _ inherited opts (net_domain net) 4 k Hnd). apply Hi. intros _. by rewrite <- !Z.eqb_neq.
  - rewrite H6 in *. cbn [Z.eqb Pos.eqb]. destruct (effective6_spec (DhcpDefaults.defaults (getDefaultOptions db 6)) (with_options s rows) Hnd')
      as (_ & _ & Hk).
    exists rows. eexists. split_and!; [done|reflexivity|]. intros k _. rewrite Hk. unfold spec6. rewrite (no_legacy6 _ k Hleg').
    cbn [first_of options with_options subnet_domain_name domain_name]. destruct Hleg as (_ & _ & Hdn & _ & _). rewrite Hdn.
    unfold or_string. cbn [truthy]. rewrite Hd.
    apply (stored_serves _ inherited opts (net_domain net) 6 k Hnd). by apply Hi.
Qed.

(** What saving refuses: a DHCPv4 lease time given as an option. The check of
    the routes lets it pass, so the request ends in the exception. *)
Example lease_time_option_throws :
  validateScopeOption (Some (mkBody (Some 51) (JString "12h") Absent)) 4 = None /\
  saveScopeOptions (mkSubnet None (Some "10.0.0.0/24") None None) [mkSent 51 (Some "12h") false] = Err Option51.
Proof. split; vm_compute; reflexivity. Qed.

Definition sample_net : Subnet := mkSubnet None (Some "10.0.0.0/24") (Some "10.0.0.1") (Some "lan").
Definition sample_sent : list SentOption := [mkSent 6 None true; mkSent 15 (Some "lan") false; mkSent 42 (Some "10.0.0.9") false].

Lemma saved_options_served_witness : exists rows e,
  saveScopeOptions sample_net sample_sent = Ok rows /\ rows = [(6, None); (42, Some "10.0.0.9")] /\
  resolveEffectiveScopeOptions sample_db (with_options sample_scope rows) = Ok e /\
  option_map fst (e_options e !! 15) = Some "lan" /\ option_map fst (e_options e !! 6) = Some "10.0.0.2".
Proof.
  destruct (saved_options_served sample_db sample_scope sample_net (buildNetwork 167772160 32 4 24) sample_sent)
    as (rows & e & Hs & He & Hk).
  - split; try done; vm_compute; done.
  - done.
  - apply (bool_decide_unpack _). vm_compute. exact I.
  - repeat constructor; done.
  - exists rows, e. assert (rows = [(6, None); (42, Some "10.0.0.9")]) as Hr.
    { vm_compute in Hs. injection Hs as <-. reflexivity. }
    split_and!; [done|done|done| |]; rewrite Hk by done; vm_compute; reflexivity.
Defined.

(** With a domain in its legacy column the scope does not serve what was
    saved: the network's domain, sent for the scope, is left out of the rows
    as inherited, the scope then has no value of its own, and the legacy
    column is served instead. *)
Example stale_domain_served :
  let s := mkScope (Some 4) "12h" NoColumn NoColumn (Some "old.lan") None None [] (Some "10.0.0.0/24") None (Some "new.lan") in
  let net := mkSubnet (Some 4) (Some "10.0.0.0/24") None (Some "new.lan") in
  saveScopeOptions net [mkSent 15 (Some "new.lan") false] = Ok [] /\
  option_map (fun e => e_options e !! 15) (try_ok (resolveEffectiveScopeOptions sample_db (with_options s []))) =
    Some (Some ("old.lan", FromLegacy)).
Proof. vm_compute. done. Qed.

(** ** Lemmas: the rows of a new scope *)

Lemma assoc_map_set {A} k j (v : A) m : assoc k (map_set j v m) = if k =? j then Some v else assoc k m.
Proof.
  induction m as [|[i w] m IH]; cbn [map_set assoc]; [done|].
  destruct (Z.eqb_spec i j) as [->|Hne]; cbn [assoc].
  - by destruct (Z.eqb_spec k j).
  - rewrite IH. destruct (Z.eqb_spec k i) as [->|]; [|done]. by destruct (Z.eqb_spec i j).
Qed.

Lemma map_set_fst {A} k (v : A) m j : j ∈ map fst (map_set k v m) <-> j = k \/ j ∈ map fst m.
Proof.
  induction m as [|[i w] m IH]; cbn [map_set map fst].
  - rewrite list_elem_of_singleton, elem_of_nil. naive_solver.
  - destruct (Z.eqb_spec i k) as [->|Hne]; cbn [map fst]; rewrite !elem_of_cons; [naive_solver|]. rewrite IH. naive_solver.
Qed.

Lemma NoDup_map_set {A} k (v : A) m : NoDup (map fst m) -> NoDup (map fst (map_set k v m)).
Proof.
  induction m as [|[i w] m IH]; cbn [map_set map fst]; [intros _; apply NoDup_singleton|].
  intros [Hi Hnd]%NoDup_cons. destruct (Z.eqb_spec i k) as [->|Hne]; cbn [map fst]; apply NoDup_cons; [done|].
  split; [|auto]. rewrite map_set_fst. intros [->|?]; done.
Qed.

(** A fold of [Map.set]s, each perhaps skipped. *)
Lemma assoc_fold_set {A B} (f : B -> option A -> option A) (l : list (Z * B)) (m : list (Z * A)) k :
  NoDup (map fst l) ->
  assoc k (fold_left (fun m kb => match f (snd kb) (assoc (fst kb) m) with Some v => map_set (fst kb) v m | None => m end) l m) =
  match assoc k l with
  | Some b => match f b (assoc k m) with Some v => Some v | None => assoc k m end
  | None => assoc k m
  end.
Proof.
  revert m. induction l as [|[j b] l IH]; intros m Hnd; cbn [fold_left assoc map fst snd] in *; [done|].
  apply NoDup_cons in Hnd as [Hj Hnd]. rewrite IH by done. destruct (Z.eqb_spec k j) as [->|Hne].
  - rewrite assoc_None by done. destruct (f b (assoc j m)); [by rewrite assoc_map_set, Z.eqb_refl|done].
  - destruct (f b (assoc j m)) as [v|]; [|done]. rewrite assoc_map_set. by destruct (Z.eqb_spec k j).
Qed.

Lemma NoDup_fold_set {A B} (f : list (Z * A) -> B -> option (Z * A)) (l : list B) m :
  NoDup (map fst m) ->
  NoDup (map fst (fold_left (fun m b => match f m b with Some kv => map_set (fst kv) (snd kv) m | None => m end) l m)).
Proof.
  revert m. induction l as [|b l IH]; intros m Hm; cbn [fold_left]; [done|]. apply IH.
  destruct (f m b) as [[k v]|]; [by apply NoDup_map_set|done].
Qed.

Lemma assoc_rows (m : list (Z * fill)) k :
  NoDup (map fst m) ->
  NoDup (map fst (writeScopeOptionRows m)) /\
  assoc k (writeScopeOptionRows m) =
  match assoc k m with
  | Some UseDefault => Some None
  | Some (Value v) => if truthy v then Some v else None
  | None => None
  end.
Proof.
  unfold writeScopeOptionRows. induction m as [|[j f] m IH]; cbn [omap list_omap assoc map fst snd]; [done|].
  intros [Hj Hnd]%NoDup_cons. destruct (IH Hnd) as [IH1 IH2].
  assert (forall w, NoDup (map fst ((j, w) :: omap (fun kf => match snd kf with
      | UseDefault => Some (fst kf, None) | Value v => if truthy v then Some (fst kf, v) else None end) m))) as Hcons.
  { intros w. cbn [map fst]. apply NoDup_cons. split; [|done]. intros Hin. apply Hj.
    apply list_elem_of_In, in_map_iff in Hin as ([i x] & <- & Hx%list_elem_of_In). apply list_elem_of_omap in Hx as ([i' g] & Hg & He).
    cbn [fst snd] in *. apply list_elem_of_In, in_map_iff. exists (i', g). split; [|by apply list_elem_of_In].
    cbn. destruct g as [|v]; [|destruct (truthy v)]; by simplify_eq. }
  destruct f as [|v]; cbn [assoc].
  - split; [apply Hcons|]. destruct (Z.eqb_spec k j); [done|exact IH2].
  - destruct (truthy v) eqn:Ht; cbn [assoc].
    + split; [apply Hcons|]. destruct (Z.eqb_spec k j); [by rewrite Ht|exact IH2].
    + split; [done|]. rewrite IH2. destruct (Z.eqb_spec k j) as [->|]; [|done]. by rewrite assoc_None, Ht.
Qed.

(** ** Properties of a new scope *)

(** What the network decides, and what it offers where nothing is set. *)
Definition topology_value (n : Network) (gateway : option string) (k : Z) : option string :=
  if Cidr.family n =? 6 then None
  else if k =? 3 then nonblank gateway
  else if k =? 1 then nonblank (Some (mask n))
  else if k =? 28 then nonblank (option_map broadcast (legacy n))
  else None.

Definition network_value (n : Network) (domain serverIp : option string) (k : Z) : option string :=
  if Cidr.family n =? 6 then if k =? 24 then nonblank domain else if k =? 23 then nonblank serverIp else None
  else if (k =? 15) || (k =? 119) then nonblank domain else if k =? 6 then nonblank serverIp else None.

Definition fill_entries (fam : Z) (mask broadcast gateway domain serverIp : option string) : list (Z * (string * bool)) :=
  map (fun f => (fst (fst f), (snd (fst f), snd f))) (networkOptionFills fam mask broadcast gateway domain serverIp).

Lemma fills_lookup n gateway domain serverIp k :
  let l := fill_entries (if Cidr.family n =? 6 then 6 else 4) (Some (mask n)) (option_map broadcast (legacy n)) gateway domain serverIp in
  NoDup (map fst l) /\
  assoc k l = match topology_value n gateway k with
              | Some v => Some (v, true)
              | None => option_map (fun v => (v, false)) (network_value n domain serverIp k)
              end.
Proof.
  cbv zeta. unfold fill_entries, networkOptionFills, topology_value, network_value, nonblank, truthy.
  destruct (Cidr.family n =? 6); cbn [Z.eqb Pos.eqb];
    [clear gateway|generalize (mask n) (option_map broadcast (legacy n)); intros mk bc; destruct (String.eqb mk "") eqn:?, bc as [bc|]; [destruct (String.eqb bc "") eqn:?| |destruct (String.eqb bc "") eqn:?|];
     (destruct gateway as [g|]; [destruct (String.eqb g "") eqn:?|])];
    (destruct domain as [d|]; [destruct (String.eqb d "") eqn:?|]); (destruct serverIp as [ip|]; [destruct (String.eqb ip "") eqn:?|]);
    repeat (cbn [omap list_omap negb]; match goal with H : String.eqb ?x "" = _ |- context [String.eqb ?x ""] => rewrite H end);
    cbn [omap list_omap map fst snd assoc negb];
    (split; [apply (bool_decide_unpack _); vm_compute; exact I|]);
    repeat match goal with |- context [k =? ?c] => destruct (Z.eqb_spec k c); [subst k; try reflexivity|] end; reflexivity.
Qed.

(** A default a new scope gets, by following it. *)
Definition follows_default (db : Db) (fam k : Z) : bool :=
  match rows (option_defaults db) fam !! k with
  | Some row => enabled_by_default row && truthy (value row)
  | None => false
  end.

(** What [fillScopeOptions] starts from: the defaults that are enabled. *)
Lemma enabled_lookup db fam k :
  let l := map (fun kr => (fst kr, if truthy (value (snd kr)) then UseDefault else Value None))
             (map_to_list (filter (fun kr => enabled_by_default (snd kr) = true) (rows (option_defaults db) fam))) in
  NoDup (map fst l) /\
  match assoc k l with
  | Some UseDefault => follows_default db fam k = true
  | Some (Value v) => v = None /\ follows_default db fam k = false
  | None => follows_default db fam k = false
  end.
Proof.
  intros l. set (m := filter _ _) in l. assert (map fst l = map fst (map_to_list m)) as Hfst.
  { subst l. rewrite map_map. done. }
  assert (NoDup (map fst l)) as Hnd by (rewrite Hfst; apply (NoDup_fst_map_to_list m)). split; [done|].
  unfold follows_default. destruct (m !! k) as [row|] eqn:Hm.
  - assert ((k, if truthy (value row) then UseDefault else Value None) ∈ l) as Hin.
    { subst l. apply list_elem_of_In, in_map_iff. exists (k, row). split; [done|]. apply list_elem_of_In. by apply elem_of_map_to_list. }
    rewrite (assoc_elem _ _ _ Hnd Hin). apply map_lookup_filter_Some in Hm as [-> He]. cbn [snd] in He. rewrite He. cbn [andb].
    destruct (truthy (value row)); done.
  - assert (assoc k l = None) as ->.
    { apply assoc_None. rewrite Hfst. intros Hin. apply list_elem_of_In, in_map_iff in Hin as ([j r] & Hj & Hr).
      cbn in Hj. subst j. apply list_elem_of_In, elem_of_map_to_list in Hr. congruence. }
    destruct (rows (option_defaults db) fam !! k) as [row|] eqn:Hr; [|done].
    apply map_lookup_filter_None in Hm as [Hm|Hm]; [congruence|]. specialize (Hm _ Hr). cbn [snd] in Hm.
    by destruct (enabled_by_default row).
Qed.

(** A new scope gets, once each: the topology of its network (router,
    mask and broadcast address, IPv4 only), every enabled default that has a
    value as a row that follows it, and, where neither gives a value, what the
    network offers: its domain and CIDRella's own address as DNS server,
    whether or not the default is enabled. It gets nothing else, so an enabled
    default without a value that no network fact fills leaves no row. *)
Theorem new_scope_rows db n gateway domain serverIp k :
  let fam := if Cidr.family n =? 6 then 6 else 4 in
  let stored := insertScopeOptionsFromDefaults db n gateway domain serverIp in
  NoDup (map fst stored) /\
  assoc k stored =
  match topology_value n gateway k with
  | Some v => Some (Some v)
  | None => if follows_default db fam k then Some None else option_map Some (network_value n domain serverIp k)
  end.
Proof.
  intros fam stored. subst stored. unfold insertScopeOptionsFromDefaults. fold fam.
  destruct (enabled_lookup db fam k) as [Hnd Hk]. cbv zeta in *.
  set (l := map (fun kr => (fst kr, if truthy (value (snd kr)) then UseDefault else Value None)) _) in *. clearbody l.
  unfold fillScopeOptions. fold fam.
  set (m1 := fold_left (fun m kf => map_set (fst kf) (normalize_fill (snd kf)) m) l []).
  assert (NoDup (map fst m1)) as Hnd1.
  { apply (NoDup_fold_set (fun _ kf => Some (fst kf, normalize_fill (snd kf))) l []). constructor. }
  assert (assoc k m1 = option_map normalize_fill (assoc k l)) as Hm1.
  { subst m1. rewrite (assoc_fold_set (fun f _ => Some (normalize_fill f)) l [] k Hnd). by destruct (assoc k l). }
  clearbody m1. destruct (fills_lookup n gateway domain serverIp k) as [Hfnd Hfills]. fold fam in Hfnd, Hfills.
  set (fills := networkOptionFills fam _ _ _ _ _) in *.
  set (m2 := fold_left _ fills m1).
  assert (m2 = fold_left (fun m kb => match (let '(v, b) := snd kb in if (b : bool) || negb (is_set (assoc (fst kb) m)) then Some (Value (Some v)) else None)
            with Some v => map_set (fst kb) v m | None => m end) (fill_entries fam (Some (mask n)) (option_map broadcast (legacy n)) gateway domain serverIp) m1) as Hm2.
  { subst m2. unfold fill_entries. fold fills. clearbody fills. clear. revert m1. induction fills as [|[[j v] b] fills IH]; intros m1; cbn [fold_left map fst snd]; [done|].
    rewrite IH. f_equal. by destruct (_ || _). }
  assert (NoDup (map fst m2)) as Hnd2.
  { rewrite Hm2. pose proof (NoDup_fold_set (fun m (kb : Z * (string * bool)) => let '(v, b) := snd kb in
      if (b : bool) || negb (is_set (assoc (fst kb) m)) then Some (fst kb, Value (Some v)) else None)
      (fill_entries fam (Some (mask n)) (option_map broadcast (legacy n)) gateway domain serverIp) m1 Hnd1) as Hx.
    erewrite fold_left_ext_list; [exact Hx|]. intros m [j [v b]]. cbn [fst snd]. by destruct (_ || _). }
  destruct (assoc_rows m2 k Hnd2) as [Hr1 Hr2]. split; [exact Hr1|]. rewrite Hr2, Hm2.
  rewrite (assoc_fold_set (fun vb cur => let '(v, b) := vb in if (b : bool) || negb (is_set cur) then Some (Value (Some v)) else None)) by done.
  assert (forall o v, nonblank o = Some v -> truthy (Some v) = true) as Hnb.
  { intros o v. unfold nonblank. destruct (truthy o) eqn:Ht; [|done]. by intros ->. }
  rewrite Hfills, Hm1. destruct (topology_value n gateway k) as [v|] eqn:Ht.
  - cbn [orb]. assert (truthy (Some v) = true) as ->; [|done]. unfold topology_value in Ht.
    repeat match type of Ht with context [if ?b then _ else _] => destruct b end; try done; by eapply Hnb.
  - destruct (network_value n domain serverIp k) as [v|] eqn:Hv; cbn [option_map orb].
    + assert (truthy (Some v) = true) as Htv.
      { unfold network_value in Hv. repeat match type of Hv with context [if ?b then _ else _] => destruct b end; try done; by eapply Hnb. }
      destruct (assoc k l) as [[|w]|]; cbn [option_map normalize_fill is_set negb].
      * by rewrite Hk.
      * destruct Hk as [-> ->]. change (truthy (if truthy None then None else None)) with false. cbn [negb]. by rewrite Htv.
      * rewrite Hk. by rewrite Htv.
    + destruct (assoc k l) as [[|w]|]; cbn [option_map normalize_fill]; [by rewrite Hk| |by rewrite Hk].
      destruct Hk as [-> ->]. done.
Qed.

(** What a scope hands to the backend is fit to write, whatever the
    resolver answers: for any database, scope and effective options, every
    option served has the type of its catalog entry or of its custom option;
    an address option is a non-empty list of valid addresses of the scope's
    family, and every other option is its text; both pass the check on
    configuration values, with commas only in lists; no DHCPv6 code the server
    builds itself is served, and no DHCPv4 mask, broadcast address or lease
    time, which come from the pool and the scope. *)
Theorem served_options_safe getent db s parsed e serverIp k t custom r :
  fst (servedOptions getent db s parsed e serverIp) !! k = Some (t, custom, r) ->
  let fam := if Cidr.family parsed =? 6 then 6 else 4 in
  type_of db fam k = Some (t, custom) /\
  (if Cidr.family parsed =? 6 then k ∉ internalCodes (optionCatalogFor 6) else k <> 1 /\ k <> 28 /\ k <> 51) /\
  match r with
  | Addresses l => (t = "ip" \/ t = "ip-list") /\ l <> [] /\
      Forall (fun ip => isValidAddress ip = true /\ addressFamily ip = Some fam) l /\
      ConfigValue.validateConfigSafeValue (join "," l) true false = None
  | Text v => t <> "ip" /\ t <> "ip-list" /\ ConfigValue.validateConfigSafeValue v (String.eqb t "text-list") false = None
  end.
Proof.
  intros Hs fam. unfold servedOptions in Hs.
  assert (exists v merged, merged !! k = Some v /\ render_options getent db fam merged !! k = Some (t, custom, r) /\
    (if Cidr.family parsed =? 6 then k ∉ internalCodes (optionCatalogFor 6) else k <> 1 /\ k <> 28 /\ k <> 51)) as (v & merged & Hm & Hr & Hk).
  { subst fam. destruct (Cidr.family parsed =? 6).
    - cbn [fst] in Hs. assert (exists v, v6Options e serverIp !! k = Some v) as [v Hv].
      { unfold render_options in Hs. rewrite map_lookup_imap in Hs. destruct (v6Options e serverIp !! k); [eauto|done]. }
      exists v, (v6Options e serverIp). split_and!; [done|done|]. unfold v6Options in Hv. apply map_lookup_filter_Some in Hv as [_ Hin]. exact Hin.
    - destruct (v4Options s e) as [merged lease] eqn:Hv4. cbn [fst] in Hs. assert (exists v, merged !! k = Some v) as [v Hv].
      { unfold render_options in Hs. rewrite map_lookup_imap in Hs. destruct (merged !! k); [eauto|done]. }
      exists v, merged. split_and!; [done|done| | |]; intros ->; unfold v4Options in Hv4; injection Hv4 as <- _;
        by rewrite ?lookup_delete_ne, lookup_delete_eq in Hv by done. }
  clearbody fam. unfold render_options in Hr. rewrite map_lookup_imap, Hm in Hr. cbn in Hr.
  destruct (type_of db fam k) as [[t' c']|] eqn:Ht; [|done]. destruct (String.eqb v ""); [done|].
  destruct (optionValue getent v t' fam) as [r'|] eqn:Hv; [|done]. cbn in Hr. injection Hr as -> -> ->. split_and!; [done|done|].
  unfold optionValue in Hv. destruct (String.eqb t "ip" || String.eqb t "ip-list") eqn:Hip.
  - destruct (omap _ _) as [|x l] eqn:Hl; [done|]. destruct (ConfigValue.validateConfigSafeValue _ _ _) eqn:Hsafe; [done|].
    injection Hv as <-. split_and!; [|done| |done].
    + apply orb_true_iff in Hip as [->%String.eqb_eq | ->%String.eqb_eq]; auto.
    + rewrite <- Hl. apply Forall_forall. intros ip Hin. apply list_elem_of_omap in Hin as (part & _ & Hres).
      unfold resolveToIp in Hres. destruct (isValidAddress (trim part)) eqn:Hva.
      * case_bool_decide as Hf; [|done]. injection Hres as <-. done.
      * destruct (getent fam (trim part)) as [a|]; [|done]. destruct (negb _ && isValidAddress a) eqn:Hva2; [|done].
        cbn [andb] in Hres. case_bool_decide as Hf; [|done]. injection Hres as <-. by apply andb_true_iff in Hva2 as [_ ?].
  - apply orb_false_iff in Hip as [?%String.eqb_neq ?%String.eqb_neq].
    destruct (ConfigValue.validateConfigSafeValue v _ _) eqn:Hsafe; [done|]. injection Hv as <-. done.
Qed.

Lemma served_options_safe_witness :
  let e := mkEffective "12h" false {[6 := ("dns.lan, 10.0.0.3", FromScope); 1 := ("255.255.255.0", FromNetwork)]} in
  let getent (fam : Z) (v : string) := if String.eqb v "dns.lan" then Some "10.0.0.2" else None in
  let served := fst (servedOptions getent sample_db sample_scope (buildNetwork 167772160 32 4 24) e None) in
  served !! 6 = Some ("ip-list", false, Addresses ["10.0.0.2"; "10.0.0.3"]) /\ served !! 1 = None /\
  ConfigValue.validateConfigSafeValue "10.0.0.2,10.0.0.3" true false = None.
Proof.
  split_and!; [vm_compute; reflexivity|vm_compute; reflexivity|].
  assert (fst (servedOptions (fun _ v => if String.eqb v "dns.lan" then Some "10.0.0.2" else None) sample_db sample_scope
    (buildNetwork 167772160 32 4 24) (mkEffective "12h" false {[6 := ("dns.lan, 10.0.0.3", FromScope); 1 := ("255.255.255.0", FromNetwork)]}) None) !! 6
    = Some ("ip-list", false, Addresses ["10.0.0.2"; "10.0.0.3"])) as H by (vm_compute; reflexivity).
  apply served_options_safe in H. apply H.
Defined.
