(* ===== verification/DhcpPools.v ===== *)
(** * DHCP pools

    Which addresses a scope may hand out: [server/src/models/dhcp-scope.js]
    (the gateway and dynamic pool conflicts) and
    [services/subnet-dhcp-topology.js] (the default pools of a network, the
    scope a divided or merged network gets, and where its reservations and
    leases go). *)

From S2P Require Import Prelude JsString Address Cidr ScopeOptions.

(** ** Conflicts *)

(** What a pool conflict reports besides its message. *)
Record GatewayConflict := mkGatewayConflict { gc_gateway : string; gc_start : string; gc_end : string }.

(** [null] is no conflict; an address that does not parse throws. *)
Definition gatewayInPoolConflict (gateway_address : option string) (startIp endIp : string)
    : result cidr_error (option GatewayConflict) :=
  match gateway_address with
  | None => mret None
  | Some g =>
      if String.eqb g "" || String.eqb startIp "" || String.eqb endIp "" then mret None
      else
        inside ← addressInRange g startIp endIp;
        mret (if (inside : bool) then Some (mkGatewayConflict g startIp endIp) else None)
  end.

Definition gatewayInPoolError (c : GatewayConflict) : string :=
  "Pool " +:+ gc_start c +:+ "–" +:+ gc_end c +:+ " would include the subnet gateway " +:+ gc_gateway c
  +:+ ". Shrink the pool or change the gateway first.".

(** A DNS record joined with its zone, and an address row. *)
Record DnsRow := mkDnsRow {
  dr_id : Z; dr_name : string; dr_type : string; dr_value : string; dr_enabled : bool; dr_source : option string;
  zone_name : string; zone_enabled : bool; zone_type : string }.

Record IpRow := mkIpRow { ir_subnet : Z; ir_address : string; ir_state : string }.

Record PoolDb := mkPoolDb { dns_rows : list DnsRow; ip_rows : list IpRow }.

(** The records the query selects: enabled manual A and AAAA records of
    enabled forward zones. *)
Definition static_dns_row (r : DnsRow) : bool :=
  (String.eqb (dr_type r) "A" || String.eqb (dr_type r) "AAAA") && dr_enabled r && zone_enabled r
  && String.eqb (zone_type r) "forward" && String.eqb (default "manual" (dr_source r)) "manual".

(** [isValidAddress(ip) && addressInRange(ip, start, end)] *)
Definition valid_in_range (ip startIp endIp : string) : result cidr_error bool :=
  if isValidAddress ip then addressInRange ip startIp endIp else mret false.

(** [list.filter] and [list.find] with a callback that can throw. *)
Fixpoint filter_result {A} (f : A -> result cidr_error bool) (l : list A) : result cidr_error (list A) :=
  match l with
  | [] => mret []
  | a :: l' => keep ← f a; rest ← filter_result f l'; mret (if (keep : bool) then a :: rest else rest)
  end.

Definition staticDnsConflictsInPool (db : PoolDb) (startIp endIp : string) : result cidr_error (list DnsRow) :=
  filter_result (fun r => valid_in_range (dr_value r) startIp endIp) (List.filter static_dns_row (dns_rows db)).

Inductive PoolConflict :=
| SystemConflict (ip : string)
| GatewayInPool (c : GatewayConflict)
| StaticDns (r : DnsRow)
| Protected (r : IpRow).

(** [conflict.error] *)
Definition conflict_error (c : PoolConflict) : string :=
  match c with
  | SystemConflict _ => "DHCP pools may contain host addresses only"
  | GatewayInPool g => gatewayInPoolError g
  | StaticDns r => "DHCP pool conflicts with static DNS allocation " +:+ dr_value r +:+ " (" +:+ dr_name r +:+ "." +:+ zone_name r +:+ ")"
  | Protected r => "DHCP pool conflicts with protected " +:+ ir_state r +:+ " address " +:+ ir_address r
  end.

(** The network's row: its id, CIDR and gateway. *)
Record PoolSubnet := mkPoolSubnet { ps_id : Z; ps_cidr : string; ps_gateway : option string }.

Definition protected_row (id : Z) (r : IpRow) : bool :=
  (ir_subnet r =? id) && (String.eqb (ir_state r) "system" || String.eqb (ir_state r) "gateway").

Definition dynamicPoolConflict (db : PoolDb) (subnet : PoolSubnet) (startIp endIp : string) : result cidr_error (option PoolConflict) :=
  parsed ← parseNetwork (ps_cidr subnet);
  start ← addressToBig startIp;
  stop ← addressToBig endIp;
  let belowHosts := negb (a_family start =? family parsed) || (a_value start <=? networkBig parsed) in
  let aboveHosts := negb (a_family stop =? family parsed) || (lastBig parsed <? a_value stop)
                    || ((family parsed =? 4) && (lastBig parsed <=? a_value stop)) in
  if belowHosts || aboveHosts
  then mret (Some (SystemConflict (if belowHosts then network parsed else last parsed)))
  else
    gatewayConflict ← gatewayInPoolConflict (ps_gateway subnet) startIp endIp;
    match gatewayConflict with
    | Some c => mret (Some (GatewayInPool c))
    | None =>
        static ← staticDnsConflictsInPool db startIp endIp;
        match static with
        | r :: _ => mret (Some (StaticDns r))
        | [] =>
            row ← find_result (fun r => valid_in_range (ir_address r) startIp endIp) (List.filter (protected_row (ps_id subnet)) (ip_rows db));
            mret (option_map Protected row)
        end
    end.

(** ** Default pools *)

(** [nearestPow2] of [num / den]: the sizes it is asked about are products
    with 0.35 and 0.15, which stay far from the midpoint of two powers, so
    rounding decides nothing. *)
Definition nearestPow2 (num den : Z) : Z :=
  if num <=? den then 1
  else
    let lower := 2 ^ Z.log2 (num / den) in
    let upper := lower * 2 in
    if num - lower * den <=? upper * den - num then lower else upper.

Record Pool := mkPool { startLong : Z; endLong : Z }.

(** [gatewayLong]: the gateway as a number, when there is one. *)
Definition defaultDhcpPoolForSubnet (parsed : Network) (gatewayLong : option Z) : option Pool :=
  match legacy parsed with
  | None => None
  | Some l =>
      if negb (family parsed =? 4) || (prefix parsed <? 16) || (29 <? prefix parsed) then None
      else
        let size := totalAddresses l in
        let '(poolEnd, poolSize) :=
          if (21 <=? prefix parsed) && (prefix parsed <=? 23) then (networkLong l + 128, 64)
          else (networkLong l + nearestPow2 (size * 35) 100, Z.max 2 (nearestPow2 (size * 15) 100)) in
        let start := Z.max (poolEnd - poolSize + 1) (networkLong l + 1) in
        let stop := Z.min poolEnd (broadcastLong l - 1) in
        let '(start, stop) :=
          match gatewayLong with
          | Some g => if g =? start then (start + 1, stop) else if g =? stop then (start, stop - 1) else (start, stop)
          | None => (start, stop)
          end in
        if start <=? stop then Some (mkPool start stop) else None
  end.

(** The pool shaped around a gateway inside it. *)
Definition around_gateway (start stop : Z) (gw : option Z) : Z * Z :=
  match gw with
  | Some g =>
      if (start <=? g) && (g <=? stop) then
        if g =? start then (start + 1, stop)
        else if g =? stop then (start, stop - 1)
        else if g - start <=? stop - g then (g + 1, stop)
        else (start, g - 1)
      else (start, stop)
  | None => (start, stop)
  end.

(** The first and last address of the pool, as text. *)
Definition defaultDhcpV6PoolForSubnet (parsed : Network) (gateway : option string) : result cidr_error (option (string * string)) :=
  if negb (family parsed =? 6) then mret None
  else if (prefix parsed <? 64) || (nbits parsed - 1 <=? prefix parsed) then mret None
  else
    let large := 8192 <? sizeBig parsed in
    start ← addressToBig (if large then addressAtOffset parsed 4096 else firstUsable parsed);
    stop ← addressToBig (if large then addressAtOffset parsed 8191 else lastUsable parsed);
    gw ← (match gateway with
          | Some g => if negb (String.eqb g "") && bool_decide (addressFamily g = Some 6)
                      then a ← addressToBig g; mret (Some (a_value a)) else mret None
          | None => mret None
          end);
    let '(lo, hi) := around_gateway (a_value start) (a_value stop) gw in
    mret (if hi <? lo then None else Some (bigToAddress lo 6, bigToAddress hi 6)).

(** The DHCPv6 scope a divide or merge target gets: mode and pool, or the
    usable prefix for the modes without one. *)
Record V6Plan := mkV6Plan { plan_mode : string; plan_pool : option (string * string); plan_interval : string * string }.

Definition defaultV6ScopeForTarget (sourceMode : string) (parsed : Network) (gateway : option string) : result cidr_error (option V6Plan) :=
  if negb (existsb (String.eqb sourceMode) (dhcpV6ModesFor (prefix parsed))) then mret None
  else if negb (String.eqb sourceMode "stateful")
  then mret (Some (mkV6Plan sourceMode None (firstUsable parsed, lastUsable parsed)))
  else
    pool ← defaultDhcpV6PoolForSubnet parsed gateway;
    mret (option_map (fun p => mkV6Plan "stateful" (Some p) p) pool).

(** The child that holds an address; an address that does not parse stays. *)
Definition childContaining (children : list (Z * Network)) (ip : string) : option Z :=
  match addressToBig ip with
  | Err _ => None
  | Ok a => option_map fst (List.find (fun c => (family (snd c) =? a_family a) && (networkBig (snd c) <=? a_value a)
                                               && (a_value a <=? lastBig (snd c))) children)
  end.

(** [moveReservationsToChildren] and [moveLeasesToChildren], over rows of
    (network id, address). *)
Definition moveToChildren (parentId : Z) (children : list (Z * Network)) (rows : list (Z * string)) : list (Z * string) :=
  map (fun r => if fst r =? parentId then match childContaining children (snd r) with Some c => (c, snd r) | None => r end else r) rows.

(** [resolveV6Mode] of [routes/dhcp.js]: the mode of a scope on a network, or
    an error; [requested] is [None] when the body leaves it out. *)
Definition resolveV6Mode (address_family prefix_length : Z) (requested : option (option string)) (current : option string)
    : result string (option string) :=
  if negb (address_family =? 6) then
    match requested with
    | Some (Some _) => Err "v6_mode applies to IPv6 networks only"
    | _ => Ok None
    end
  else
    match match requested with None => current | Some r => r end with
    | Some mode =>
        if existsb (String.eqb mode) DHCP_V6_MODES then
          match dhcpV6ModeError prefix_length mode with Some e => Err e | None => Ok (Some mode) end
        else Err ("v6_mode must be one of: " +:+ join ", " DHCP_V6_MODES)
    | None => Err ("v6_mode must be one of: " +:+ join ", " DHCP_V6_MODES)
    end.

(** ** Lemmas: conflicts *)

(** The addresses from [a] to [b], of one family. *)
Definition in_pool (x a b : Address) : Prop :=
  a_family x = a_family a /\ a_value a <= a_value x <= a_value b.

Lemma addressInRange_spec ip startIp endIp x a b :
  addressToBig ip = Ok x -> addressToBig startIp = Ok a -> addressToBig endIp = Ok b ->
  exists r, addressInRange ip startIp endIp = Ok r /\ (r = true <-> in_pool x a b).
Proof.
  intros Hx Ha Hb. unfold addressInRange, addressRangesOverlap. rewrite Hx, Ha, Hb. cbn. unfold in_pool.
  destruct (Z.eqb_spec (a_family x) (a_family a)) as [He|Hne]; cbn [negb].
  - eexists. split; [reflexivity|]. rewrite andb_true_iff, !Z.leb_le. tauto.
  - exists false. split; [done|]. split; [done|]. by intros [? _].
Qed.

Lemma address_nonempty ip x : addressToBig ip = Ok x -> String.eqb ip "" = false.
Proof. intros H. destruct ip; [by vm_compute in H|done]. Qed.

Lemma valid_in_range_spec ip startIp endIp a b :
  addressToBig startIp = Ok a -> addressToBig endIp = Ok b ->
  exists r, valid_in_range ip startIp endIp = Ok r /\ (r = true <-> exists x, addressToBig ip = Ok x /\ in_pool x a b).
Proof.
  intros Ha Hb. unfold valid_in_range. destruct (isValidAddress ip) eqn:Hv.
  - assert (exists x, addressToBig ip = Ok x) as [x Hx].
    { unfold isValidAddress in Hv. unfold addressToBig. destruct (parseIp no_zone ip); [eauto|done]. }
    destruct (addressInRange_spec ip startIp endIp x a b Hx Ha Hb) as (r & Hr & Hiff). exists r. split; [done|].
    rewrite Hiff. rewrite Hx. naive_solver.
  - exists false. split; [done|]. split; [done|]. intros (x & Hx & _). unfold addressToBig in Hx. unfold isValidAddress in Hv.
    by destruct (parseIp no_zone ip).
Qed.

Lemma filter_result_spec {A} (f : A -> result cidr_error bool) (P : A -> Prop) l :
  (forall a, exists r, f a = Ok r /\ (r = true <-> P a)) ->
  exists l', filter_result f l = Ok l' /\ (l' = [] <-> forall a, a ∈ l -> ~ P a).
Proof.
  intros Hf. induction l as [|a l (l' & Hl & IH)]; cbn [filter_result].
  - exists []. split; [done|]. split; [by intros _ a ?%not_elem_of_nil|done].
  - destruct (Hf a) as (r & Hr & Hiff). rewrite Hr, Hl. cbn. setoid_rewrite elem_of_cons. destruct r.
    + eexists. split; [reflexivity|]. split; [done|]. intros H. exfalso. eapply H; [by left|]. by apply Hiff.
    + exists l'. split; [done|]. rewrite IH. split.
      * intros H b [->|Hb]; [|by apply H]. intros HP. by apply Hiff in HP.
      * intros H b Hb. apply H. by right.
Qed.

Lemma filter_result_in {A} (f : A -> result cidr_error bool) l kept x :
  filter_result f l = Ok kept -> x ∈ l -> f x = Ok true -> x ∈ kept.
Proof.
  revert kept. induction l as [|a l IH]; intros kept; cbn [filter_result]; [by intros _ ?%elem_of_nil|].
  destruct (f a) as [b|] eqn:Hb; [|done]. cbn [mbind result_bind]. destruct (filter_result f l) as [k|]; [|done]. cbn [mbind result_bind].
  intros [= <-] [->|Hx]%elem_of_cons Hf.
  - assert (b = true) as -> by congruence. by left.
  - destruct b; [right|]; by apply IH.
Qed.

Lemma find_result_spec {A} (f : A -> result cidr_error bool) (P : A -> Prop) l :
  (forall a, exists r, f a = Ok r /\ (r = true <-> P a)) ->
  exists o, find_result f l = Ok o /\ (o = None <-> forall a, a ∈ l -> ~ P a).
Proof.
  intros Hf. induction l as [|a l (o & Hl & IH)]; cbn [find_result].
  - exists None. split; [done|]. split; [by intros _ a ?%not_elem_of_nil|done].
  - destruct (Hf a) as (r & Hr & Hiff). rewrite Hr. cbn. setoid_rewrite elem_of_cons. destruct r.
    + exists (Some a). split; [done|]. split; [done|]. intros H. exfalso. eapply H; [by left|]. by apply Hiff.
    + exists o. split; [done|]. rewrite IH. split.
      * intros H b [->|Hb]; [|by apply H]. intros HP. by apply Hiff in HP.
      * intros H b Hb. apply H. by right.
Qed.

(** A gateway that is unset, or an address. *)
Definition gateway_ok (gateway : option string) : Prop :=
  forall g, gateway = Some g -> g <> "" -> exists x, addressToBig g = Ok x.

(** What a pool must keep clear of. *)
Record pool_clear (db : PoolDb) (id : Z) (gateway : option string) (a b : Address) : Prop := {
  clear_gateway : forall g x, gateway = Some g -> addressToBig g = Ok x -> ~ in_pool x a b;
  clear_static : forall r x, r ∈ dns_rows db -> static_dns_row r = true -> addressToBig (dr_value r) = Ok x -> ~ in_pool x a b;
  clear_protected : forall r x, r ∈ ip_rows db -> protected_row id r = true -> addressToBig (ir_address r) = Ok x -> ~ in_pool x a b }.

(** The hosts of a network: not its network address, nor an IPv4 broadcast. *)
Definition host_interval (n : Network) (a b : Address) : Prop :=
  a_family a = family n /\ a_family b = family n /\ networkBig n < a_value a /\ a_value b <= lastBig n /\
  (family n = 4 -> a_value b < lastBig n).

Lemma gateway_conflict_spec gateway startIp endIp a b :
  gateway_ok gateway -> addressToBig startIp = Ok a -> addressToBig endIp = Ok b ->
  exists o, gatewayInPoolConflict gateway startIp endIp = Ok o /\
    (o = None <-> forall g x, gateway = Some g -> addressToBig g = Ok x -> ~ in_pool x a b).
Proof.
  intros Hg Ha Hb. unfold gatewayInPoolConflict. destruct gateway as [g|]; [|exists None; split; [done|]; split; done].
  rewrite (address_nonempty _ _ Ha), (address_nonempty _ _ Hb), !orb_false_r. destruct (String.eqb_spec g "") as [->|Hne].
  - exists None. split; [done|]. split; [|done]. intros _ g x [= <-] Hx. by vm_compute in Hx.
  - destruct (Hg g eq_refl Hne) as [x Hx]. destruct (addressInRange_spec g startIp endIp x a b Hx Ha Hb) as (r & -> & Hr).
    cbn. eexists. split; [reflexivity|]. destruct r.
    + split; [done|]. intros H. exfalso. eapply H; [done|exact Hx|]. by apply Hr.
    + split; [|done]. intros _ g' x' [= <-] Hx' Hin. assert (x' = x) as -> by congruence. by apply Hr in Hin.
Qed.

Lemma pool_conflict_exact db id c gateway startIp endIp n a b :
  parseNetwork c = Ok n -> gateway_ok gateway -> addressToBig startIp = Ok a -> addressToBig endIp = Ok b ->
  exists o, dynamicPoolConflict db (mkPoolSubnet id c gateway) startIp endIp = Ok o /\
    (o = None <-> host_interval n a b /\ pool_clear db id gateway a b).
Proof.
  intros Hn Hg Ha Hb. unfold dynamicPoolConflict. cbn [ps_cidr ps_gateway ps_id]. rewrite Hn, Ha, Hb. cbn [mbind result_bind].
  destruct (_ || _) eqn:Hsys.
  - eexists. split; [reflexivity|]. split; [done|]. intros [(Hfa & Hfb & Hlo & Hhi & H4) _]. exfalso.
    rewrite Hfa, Hfb, Z.eqb_refl in Hsys. cbn [negb orb] in Hsys. reflect_bools.
    rewrite !orb_true_iff, andb_true_iff in Hsys. rewrite Z.leb_le, Z.ltb_lt, Z.eqb_eq, Z.leb_le in Hsys.
    destruct Hsys as [?|[?|[Hf ?]]]; [lia|lia|]. specialize (H4 Hf). lia.
  - assert (host_interval n a b) as Hh.
    { apply orb_false_iff in Hsys as [Hs1 Hs2]. apply orb_false_iff in Hs1 as [Hs0 Hs1], Hs2 as [Hs2 Hs3]. apply orb_false_iff in Hs2 as [Hs2 Hs4].
      apply negb_false_iff, Z.eqb_eq in Hs0, Hs2. apply Z.leb_gt in Hs1. apply Z.ltb_ge in Hs4.
      split_and!; [done|done|lia|lia|]. intros Hf. rewrite Hf in Hs3. cbn in Hs3. apply Z.leb_gt in Hs3. lia. }
    destruct (gateway_conflict_spec gateway startIp endIp a b Hg Ha Hb) as (og & -> & Hgw). cbn.
    destruct og as [gc|].
    { eexists. split; [reflexivity|]. split; [done|]. intros [_ [Hcg _ _]]. exfalso. by apply Hgw in Hcg. }
    unfold staticDnsConflictsInPool.
    destruct (filter_result_spec (fun r => valid_in_range (dr_value r) startIp endIp)
      (fun r => exists x, addressToBig (dr_value r) = Ok x /\ in_pool x a b) (List.filter static_dns_row (dns_rows db)))
      as (l & -> & Hl); [intros r; by apply valid_in_range_spec|]. cbn.
    destruct (find_result_spec (fun r => valid_in_range (ir_address r) startIp endIp)
      (fun r => exists x, addressToBig (ir_address r) = Ok x /\ in_pool x a b) (List.filter (protected_row id) (ip_rows db)))
      as (o & Ho & Hoiff); [intros r; by apply valid_in_range_spec|].
    assert (forall r, r ∈ List.filter static_dns_row (dns_rows db) <-> r ∈ dns_rows db /\ static_dns_row r = true) as Hf1.
    { intros r. by rewrite !list_elem_of_In, List.filter_In. }
    assert (forall r, r ∈ List.filter (protected_row id) (ip_rows db) <-> r ∈ ip_rows db /\ protected_row id r = true) as Hf2.
    { intros r. by rewrite !list_elem_of_In, List.filter_In. }
    destruct l as [|r l].
    + rewrite Ho. cbn. eexists. split; [reflexivity|]. destruct o as [r|]; cbn [option_map].
      * split; [done|]. intros [_ [_ _ Hp]]. exfalso. assert (Some r = None); [|done]. apply Hoiff.
        intros r' [Hin Hpr]%Hf2 (x & Hx & Hpool). by eapply Hp.
      * split; [|done]. intros _. split; [done|]. split; [by apply Hgw| |].
        -- intros r x Hin Hs Hx Hpool. eapply (proj1 Hl eq_refl r); [by apply Hf1|eauto].
        -- intros r x Hin Hs Hx Hpool. eapply (proj1 Hoiff eq_refl r); [by apply Hf2|eauto].
    + eexists. split; [reflexivity|]. split; [done|]. intros [_ [_ Hs _]]. exfalso. assert (r :: l = []); [|done]. apply Hl.
      intros r' [Hin Hst]%Hf1 (x & Hx & Hpool). by eapply Hs.
Qed.

(** ** Lemmas: default pools *)

(** Addresses near the start of an IPv6 network print as IPv6. *)
Lemma near_spellable n v :
  wf_network n -> family n = 6 -> networkBig n <= v <= lastBig n -> v < networkBig n + 2 ^ 32 -> spellable v 128.
Proof.
  intros Hn Hf Hv Hnear. pose proof (wf_order n Hn) as Hord. pose proof (wf_last_bound n Hn) as Hlb. pose proof (wf_last n Hn) as Hl.
  pose proof (wf_prefix n Hn) as Hp. pose proof (wf_family n Hn) as Hfam. rewrite Hf in Hfam.
  assert (nbits n = 128) as Hb by (by inversion Hfam). rewrite Hb in Hlb, Hl, Hp.
  right. split; [done|]. split; [lia|]. intros _. pose proof (wf_spellable n Hn) as Hs. rewrite Hb in Hs.
  destruct Hs as [[? _]|(_ & _ & Hm)]; [done|]. specialize (Hm eq_refl). unfold is_v4_mapped in *.
  change V4_MAPPED_LAST with (V4_MAPPED_PREFIX + (2 ^ 32 - 1)) in *.
  pose proof (wf_aligned n Hn) as Ha. rewrite Hb in Ha. set (h := 128 - prefix n) in *.
  pose proof (pow2_pos h ltac:(lia)) as Hh. apply Z.mod_divide in Ha as [q Hq]; [|lia].
  apply not_true_iff_false. intros [H1%Z.leb_le H2%Z.leb_le]%andb_true_iff.
  assert (networkBig n < V4_MAPPED_PREFIX) as Hlt.
  { destruct (Z.leb_spec V4_MAPPED_PREFIX (networkBig n)); [|done]. exfalso.
    cbn [andb] in Hm. apply Z.leb_gt in Hm. lia. }
  destruct (Z.le_gt_cases h 32) as [Hle|Hgt].
  - assert (exists k, V4_MAPPED_PREFIX = k * 2 ^ h) as [k Hk].
    { exists (65535 * 2 ^ (32 - h)). rewrite <- Z.mul_assoc, <- Z.pow_add_r by lia. replace (32 - h + h) with 32 by lia. done. }
    rewrite Hq, Hk in *. assert (q < k) by nia. assert ((q + 1) * 2 ^ h <= k * 2 ^ h) by (apply Z.mul_le_mono_nonneg_r; lia). lia.
  - assert (exists k, 2 ^ h = k * 2 ^ 33 /\ 0 < k) as (k & Hk & Hk0).
    { exists (2 ^ (h - 33)). rewrite <- Z.pow_add_r by lia. split; [f_equal; lia|apply pow2_pos; lia]. }
    change V4_MAPPED_PREFIX with (65535 * 2 ^ 32) in *. rewrite Hq, Hk in *.
    change (2 ^ 33) with (2 * 2 ^ 32) in *. assert (q * k * 2 < 65535) by nia. lia.
Qed.

Lemma around_gateway_spec lo hi gw :
  lo < hi ->
  let '(lo', hi') := around_gateway lo hi gw in
  lo <= lo' <= hi' /\ hi' <= hi /\ forall g, gw = Some g -> ~ lo' <= g <= hi'.
Proof.
  intros Hlt. unfold around_gateway. destruct gw as [g|]; [|split_and!; [lia|lia|lia|done]].
  destruct ((lo <=? g) && (g <=? hi)) eqn:Hin.
  - apply andb_true_iff in Hin as [?%Z.leb_le ?%Z.leb_le].
    destruct (Z.eqb_spec g lo), (Z.eqb_spec g hi), (Z.leb_spec (g - lo) (hi - g));
      (split_and!; [lia|lia|lia|intros g' [= <-]; lia]).
  - split_and!; [lia|lia|lia|]. intros g' [= <-]. apply andb_false_iff in Hin as [?%Z.leb_gt|?%Z.leb_gt]; lia.
Qed.

Lemma longToIp_text v : longToIp v = bigToAddress v 4.
Proof. reflexivity. Qed.

(** The IPv4 default: between the network address and the broadcast, with the
    gateway at neither end. *)
Lemma default_v4_pool n gw :
  wf_network n -> family n = 4 -> 16 <= prefix n <= 29 ->
  exists p, defaultDhcpPoolForSubnet n gw = Some p /\
    networkBig n < startLong p <= endLong p /\ endLong p < lastBig n /\ gw <> Some (startLong p) /\ gw <> Some (endLong p).
Proof.
  intros Hw Hf Hp. unfold defaultDhcpPoolForSubnet. destruct (wf_usable n Hw) as (Hl & _). rewrite Hf in Hl. cbn [Z.eqb] in Hl.
  rewrite Hl, Hf. cbn [networkLong broadcastLong totalAddresses]. pose proof (wf_family n Hw) as Hfb. rewrite Hf in Hfb.
  assert (nbits n = 32) as Hb by (by inversion Hfb).
  rewrite (wf_last n Hw), (wf_size n Hw), Hb. set (net := networkBig n). clearbody net. clear Hl Hf Hfb Hw Hb.
  assert (prefix n = 16 \/ prefix n = 17 \/ prefix n = 18 \/ prefix n = 19 \/ prefix n = 20 \/ prefix n = 21 \/ prefix n = 22 \/
          prefix n = 23 \/ prefix n = 24 \/ prefix n = 25 \/ prefix n = 26 \/ prefix n = 27 \/ prefix n = 28 \/ prefix n = 29) as Hcases by lia.
  destruct Hcases as [-> | [-> | [-> | [-> | [-> | [-> | [-> | [-> | [-> | [-> | [-> | [-> | [-> | ->]]]]]]]]]]]]];
    cbn -[nearestPow2 Z.add Z.sub Z.max Z.min];
    repeat match goal with |- context [nearestPow2 ?a ?b] => let v := eval vm_compute in (nearestPow2 a b) in change (nearestPow2 a b) with v end;
    (destruct gw as [g|]; [match goal with |- context [g =? ?a] => destruct (Z.eqb_spec g a) as [->|] end;
       [|match goal with |- context [g =? ?a] => destruct (Z.eqb_spec g a) as [->|] end]|]);
    match goal with |- context [?a <=? ?b] => destruct (Z.leb_spec a b); [|exfalso; lia] end;
    (eexists; split; [reflexivity|]; cbn [startLong endLong]; split_and!; try lia; try (injection; lia); done).
Qed.

Lemma addressToBig_family g x : addressToBig g = Ok x -> a_family x = 6 -> addressFamily g = Some 6.
Proof.
  unfold addressToBig, addressFamily, parseIp. intros Hx H6. destruct (String.eqb (trim g) ""); [done|].
  destruct (index_of "%" (trim g)); [done|]. change (parseIp_address default_options) with (parseIp_address no_zone).
  destruct (parseIp_address no_zone (trim g) None) as [p|]; [|done]. injection Hx as <-. cbn in H6. by rewrite H6.
Qed.

(** The IPv6 default: within the hosts, and clear of the gateway. *)
Lemma default_v6_pool n gateway :
  wf_network n -> family n = 6 -> 64 <= prefix n <= 126 -> gateway_ok gateway ->
  exists lo hi, defaultDhcpV6PoolForSubnet n gateway = Ok (Some (bigToAddress lo 6, bigToAddress hi 6)) /\
    networkBig n < lo <= hi /\ hi <= lastBig n /\ spellable lo 128 /\ spellable hi 128 /\
    forall g x, gateway = Some g -> addressToBig g = Ok x -> a_family x = 6 -> ~ lo <= a_value x <= hi.
Proof.
  intros Hw Hf Hp Hg. unfold defaultDhcpV6PoolForSubnet. pose proof (wf_family n Hw) as Hfam. rewrite Hf in Hfam.
  assert (nbits n = 128) as Hb by (by inversion Hfam). rewrite Hf. cbn [Z.eqb Pos.eqb negb]. rewrite Hb.
  destruct (Z.ltb_spec (prefix n) 64); [lia|]. destruct (Z.leb_spec (128 - 1) (prefix n)); [lia|]. cbn [orb].
  pose proof (wf_size n Hw) as Hsize. pose proof (wf_last n Hw) as Hlast. rewrite Hb in Hsize, Hlast.
  destruct (wf_usable n Hw) as (_ & Hfirst & Hlu). cbv zeta in Hfirst, Hlu. rewrite Hb, Hf in Hfirst, Hlu. cbn [Z.eqb Pos.eqb] in Hlu. rewrite andb_false_r in Hlu.
  destruct (Z.ltb_spec (prefix n) (128 - 1)); [|lia].
  assert (2 ^ 2 <= 2 ^ (128 - prefix n)) by (apply Z.pow_le_mono_r; lia).
  assert (2 ^ (128 - prefix n) <= 2 ^ 64) by (apply Z.pow_le_mono_r; lia).
  set (lo0 := if 8192 <? sizeBig n then networkBig n + 4096 else networkBig n + 1).
  set (hi0 := if 8192 <? sizeBig n then networkBig n + 8191 else lastBig n).
  assert (networkBig n < lo0 /\ lo0 < hi0 /\ hi0 <= lastBig n /\ hi0 < networkBig n + 2 ^ 32) as (Hlo & Hlohi & Hhi & Hnear).
  { subst lo0 hi0. destruct (Z.ltb_spec 8192 (sizeBig n)); lia. }
  assert (forall v, lo0 <= v <= hi0 -> spellable v 128) as Hsp.
  { intros v Hv. apply (near_spellable n); [done|done|lia|lia]. }
  assert (addressToBig (if 8192 <? sizeBig n then addressAtOffset n 4096 else firstUsable n) = Ok (mkAddress lo0 128 6)) as ->.
  { rewrite Hfirst. unfold addressAtOffset. rewrite Hf. subst lo0. destruct (8192 <? sizeBig n);
      (apply addressToBig_text; [constructor|apply Hsp; lia]). }
  assert (addressToBig (if 8192 <? sizeBig n then addressAtOffset n 8191 else lastUsable n) = Ok (mkAddress hi0 128 6)) as ->.
  { rewrite Hlu. unfold addressAtOffset. rewrite Hf. subst hi0. destruct (8192 <? sizeBig n);
      (apply addressToBig_text; [constructor|apply Hsp; lia]). }
  cbn [mbind result_bind a_value].
  set (gw := match gateway with Some g => _ | None => _ end).
  assert (exists o, gw = Ok o /\ forall g x, gateway = Some g -> addressToBig g = Ok x -> a_family x = 6 -> o = Some (a_value x)) as (o & -> & Ho).
  { subst gw. destruct gateway as [g|]; [|exists None; done]. destruct (String.eqb_spec g "") as [->|Hne]; cbn [negb andb].
    - exists None. split; [done|]. intros g x [= <-] Hx. by vm_compute in Hx.
    - destruct (Hg g eq_refl Hne) as [x Hx]. case_bool_decide as Hfg.
      + rewrite Hx. cbn. eexists. split; [reflexivity|]. intros g' x' [= <-] Hx' _. f_equal. congruence.
      + exists None. split; [done|]. intros g' x' [= <-] Hx' H6. destruct Hfg. by apply (addressToBig_family g x'). }
  cbn [mbind result_bind]. pose proof (around_gateway_spec lo0 hi0 o Hlohi) as Har.
  destruct (around_gateway lo0 hi0 o) as [lo hi]. destruct Har as (Hr1 & Hr2 & Hr3).
  exists lo, hi. destruct (Z.ltb_spec hi lo); [lia|]. split_and!; [done|lia|lia|lia|apply Hsp; lia|apply Hsp; lia|].
  intros g x Hgx Hx H6. apply Hr3. by eapply Ho.
Qed.

(** ** Properties *)

(** The pool a new scope gets is one it may serve. On every IPv4 network
    from /16 to /29 and every IPv6 network from /64 to /126 there is a default
    pool, it is not empty, holds host addresses only, and the gateway is at
    neither end of it, in IPv6 nowhere in it; and the check every route makes
    before storing a pool answers for it, and accepts it exactly when no
    gateway, no enabled static DNS record and no protected address lies in
    it. *)
Theorem default_pools_usable db id n gateway :
  parseNetwork (cidr n) = Ok n -> gateway_ok gateway ->
  (family n = 4 -> 16 <= prefix n <= 29 -> forall gatewayLong, exists p a b o,
     defaultDhcpPoolForSubnet n gatewayLong = Some p /\
     addressToBig (longToIp (startLong p)) = Ok a /\ addressToBig (longToIp (endLong p)) = Ok b /\
     a_value a <= a_value b /\ host_interval n a b /\ gatewayLong <> Some (a_value a) /\ gatewayLong <> Some (a_value b) /\
     dynamicPoolConflict db (mkPoolSubnet id (cidr n) gateway) (longToIp (startLong p)) (longToIp (endLong p)) = Ok o /\
     (o = None <-> pool_clear db id gateway a b)) /\
  (family n = 6 -> 64 <= prefix n <= 126 -> exists lo hi a b o,
     defaultDhcpV6PoolForSubnet n gateway = Ok (Some (lo, hi)) /\ addressToBig lo = Ok a /\ addressToBig hi = Ok b /\
     a_value a <= a_value b /\ host_interval n a b /\
     (forall g x, gateway = Some g -> addressToBig g = Ok x -> ~ in_pool x a b) /\
     dynamicPoolConflict db (mkPoolSubnet id (cidr n) gateway) lo hi = Ok o /\
     (o = None <-> pool_clear db id gateway a b)).
Proof.
  intros Hc Hg. pose proof (parseNetwork_wf _ _ Hc) as Hw. pose proof (wf_order n Hw) as Hord. pose proof (wf_last_bound n Hw) as Hlb.
  pose proof (wf_family n Hw) as Hfam. split.
  - intros Hf Hp gw. rewrite Hf in Hfam. assert (nbits n = 32) as Hb by (by inversion Hfam). rewrite Hb in Hlb.
    destruct (default_v4_pool n gw Hw Hf Hp) as (p & Hpool & Hlo & Hhi & Hg1 & Hg2).
    assert (forall v, networkBig n < v < lastBig n -> addressToBig (longToIp v) = Ok (mkAddress v 32 4)) as Ht.
    { intros v Hv. rewrite longToIp_text. apply addressToBig_text; [constructor|]. left. split; [done|lia]. }
    destruct (pool_conflict_exact db id (cidr n) gateway (longToIp (startLong p)) (longToIp (endLong p)) n
      (mkAddress (startLong p) 32 4) (mkAddress (endLong p) 32 4)) as (o & Ho & Hiff); [done|done|apply Ht; lia|apply Ht; lia|].
    exists p, (mkAddress (startLong p) 32 4), (mkAddress (endLong p) 32 4), o. cbn [a_value].
    assert (host_interval n (mkAddress (startLong p) 32 4) (mkAddress (endLong p) 32 4)) as Hh.
    { unfold host_interval. cbn. rewrite Hf. split_and!; [done|done|lia|lia|lia]. }
    split_and!; [done|apply Ht; lia|apply Ht; lia|lia|done|done|done|done|]. tauto.
  - intros Hf Hp. destruct (default_v6_pool n gateway Hw Hf Hp Hg) as (lo & hi & Hpool & Hlo & Hhi & Hs1 & Hs2 & Hgw).
    assert (forall v, spellable v 128 -> addressToBig (bigToAddress v 6) = Ok (mkAddress v 128 6)) as Ht.
    { intros v Hv. apply addressToBig_text; [constructor|done]. }
    destruct (pool_conflict_exact db id (cidr n) gateway (bigToAddress lo 6) (bigToAddress hi 6) n
      (mkAddress lo 128 6) (mkAddress hi 128 6)) as (o & Ho & Hiff); [done|done|by apply Ht|by apply Ht|].
    exists (bigToAddress lo 6), (bigToAddress hi 6), (mkAddress lo 128 6), (mkAddress hi 128 6), o. cbn [a_value].
    assert (host_interval n (mkAddress lo 128 6) (mkAddress hi 128 6)) as Hh.
    { unfold host_interval. cbn. rewrite Hf. split_and!; [done|done|lia|lia|done]. }
    split_and!; [done|by apply Ht|by apply Ht|lia|done| |done|tauto].
    intros g x Hgx Hx [H6 Hin]. cbn in H6, Hin. eapply Hgw; [done|exact Hx|done|lia].
Qed.

Lemma default_pools_usable_witness :
  let n := buildNetwork 167772160 32 4 24 in
  exists p a b, defaultDhcpPoolForSubnet n (Some 167772161) = Some p /\ addressToBig (longToIp (startLong p)) = Ok a /\
    addressToBig (longToIp (endLong p)) = Ok b /\ longToIp (startLong p) = "10.0.0.33" /\ longToIp (endLong p) = "10.0.0.64" /\
    host_interval n a b.
Proof.
  destruct (default_pools_usable (mkPoolDb [] []) 1 (buildNetwork 167772160 32 4 24) (Some "10.0.0.1")) as [H4 _].
  - vm_compute. reflexivity.
  - intros g [= <-] _. eexists. vm_compute. reflexivity.
  - destruct (H4 eq_refl ltac:(vm_compute; split; discriminate) (Some 167772161)) as (p & a & b & o & Hp & Ha & Hb & _ & Hh & _).
    exists p, a, b. assert (p = mkPool 167772193 167772224) as -> by (vm_compute in Hp; by injection Hp as <-).
    split_and!; [done|done|done|vm_compute; reflexivity|vm_compute; reflexivity|done].
Defined.

(** A gateway inside the IPv4 default, at neither end of it, is not stepped
    around: the pool contains it and the check refuses it. *)
Example v4_gateway_inside :
  defaultDhcpPoolForSubnet (buildNetwork 167772160 32 4 24) (Some 167772210) = Some (mkPool 167772193 167772224) /\
  option_map (option_map conflict_error)
    (try_ok (dynamicPoolConflict (mkPoolDb [] []) (mkPoolSubnet 1 "10.0.0.0/24" (Some "10.0.0.50")) "10.0.0.33" "10.0.0.64")) =
  Some (Some "Pool 10.0.0.33–10.0.0.64 would include the subnet gateway 10.0.0.50. Shrink the pool or change the gateway first.").
Proof. vm_compute. done. Qed.
