(* ===== verification/Subnets.v ===== *)
(** * Network rows: [server/src/services/subnet-topology.js]

    The row of the [subnets] table, the rules that place its gateway, and the
    statements that insert and change rows. *)

From S2P Require Import Prelude JsString Address Cidr.

(** ** Rows *)

Inductive Status := unallocated | allocated.

#[export] Instance Status_eq_dec : EqDecision Status.
Proof. solve_decision. Defined.

(** The values the [CHECK] of [gateway_policy] allows. *)
Inductive Policy := policy_first | policy_last | policy_custom | policy_none.

#[export] Instance Policy_eq_dec : EqDecision Policy.
Proof. solve_decision. Defined.

Definition policy_text (p : Policy) : string :=
  match p with policy_first => "first" | policy_last => "last" | policy_custom => "custom" | policy_none => "none" end.

(** [['first', 'last', 'custom', 'none'].includes(policy)] *)
Definition policyOf (s : string) : option Policy :=
  List.find (fun p => String.eqb s (policy_text p)) [policy_first; policy_last; policy_custom; policy_none].

(** One row of [subnets]. [sn_net] stands for the columns written from the
    parsed CIDR alone: network_address, broadcast_address, last_address,
    address_family, prefix_length and total_addresses. *)
Record NetColumns := mkNetColumns
  { network_address : string; broadcast_address : option string; last_address : string;
    address_family : Z; prefix_length : Z; total_addresses : option Z }.

Record Subnet := mkSubnet
  { sn_id : Z; sn_cidr : string; sn_net : NetColumns;
    sn_parent : option Z; sn_depth : Z; sn_status : Status;
    sn_gateway : option string; sn_policy : Policy;
    sn_name : string; sn_description : option string; sn_vlan : option Z; sn_folder : option Z;
    sn_domain : option string; sn_scan_interval : option string; sn_scan_enabled : option Z;
    sn_reverse : Z; sn_revision : Z }.

#[export] Instance NetColumns_eq_dec : EqDecision NetColumns.
Proof. solve_decision. Defined.
#[export] Instance Subnet_eq_dec : EqDecision Subnet.
Proof. solve_decision. Defined.

(** One row of [ranges]. *)
Record RangeRow := mkRangeRow
  { rg_id : Z; rg_subnet : Z; rg_type : Z; rg_start : string; rg_end : string; rg_description : option string }.

#[export] Instance RangeRow_eq_dec : EqDecision RangeRow.
Proof. solve_decision. Defined.

(** The columns [insertSubnet] writes from the parsed network. *)
Definition netColumns (parsed : Network) : NetColumns :=
  {| network_address := network parsed;
     broadcast_address := if family parsed =? 4 then Some (last parsed) else None;
     last_address := last parsed; address_family := family parsed; prefix_length := prefix parsed;
     total_addresses := size parsed |}.

(** [value || null] *)
Definition or_null (s : option string) : option string :=
  match s with Some "" => None | _ => s end.
Definition or_null_z (v : option Z) : option Z :=
  match v with Some 0 => None | _ => v end.

(** ** Gateways *)

Definition canonical_or (ip : string) : string := default ip (canonicalizeIp ip).

Definition gatewayPolicyForAddress (parsed : Network) (gatewayAddress : option string) : Policy :=
  match or_null gatewayAddress with
  | None => policy_none
  | Some gw =>
      if String.eqb (canonical_or gw) (firstUsable parsed) then policy_first
      else if String.eqb (canonical_or gw) (lastUsable parsed) then policy_last
      else policy_custom
  end.

Definition resolveGatewayAddress (parsed : Network) (policy : Policy) (customAddress : option string) : option string :=
  match policy with
  | policy_none => None
  | policy_last => Some (lastUsable parsed)
  | policy_custom =>
      match customAddress with
      | Some "" => Some ""
      | Some gw => Some (canonical_or gw)
      | None => None
      end
  | policy_first => Some (firstUsable parsed)
  end.

(** ** The table *)

Record Table := mkTable { rows : list Subnet; next_id : Z }.

Inductive table_error :=
| TableCidr (e : cidr_error)
| CidrNotUnique (c : string)
| NoParentRow (id : Z).

Definition lift_cidr {A} (m : result cidr_error A) : result table_error A :=
  match m with Ok a => Ok a | Err e => Err (TableCidr e) end.

Definition find_subnet (t : Table) (id : Z) : option Subnet := List.find (fun r => sn_id r =? id) (rows t).

Definition is_child (id : Z) (r : Subnet) : bool := bool_decide (sn_parent r = Some id).

(** [SELECT * FROM subnets WHERE parent_id = ?] *)
Definition children (t : Table) (id : Z) : list Subnet := List.filter (is_child id) (rows t).

(** The object [insertSubnet] takes. *)
Record NewSubnet := mkNewSubnet
  { ns_cidr : string; ns_name : option string; ns_description : option string; ns_vlan : option Z;
    ns_gateway : option string; ns_policy : option Policy; ns_parent : option Z; ns_folder : option Z;
    ns_status : option Status; ns_depth : option Z; ns_domain : option string;
    ns_scan_interval : option string; ns_scan_enabled : option Z }.

Definition new_row (parsed : Network) (id : Z) (n : NewSubnet) : Subnet :=
  {| sn_id := id; sn_cidr := ns_cidr n; sn_net := netColumns parsed;
     sn_parent := or_null_z (ns_parent n); sn_depth := default 0 (ns_depth n);
     sn_status := default unallocated (ns_status n);
     sn_gateway := or_null (ns_gateway n);
     sn_policy := default (gatewayPolicyForAddress parsed (ns_gateway n)) (ns_policy n);
     sn_name := default (ns_cidr n) (or_null (ns_name n)); sn_description := or_null (ns_description n);
     sn_vlan := or_null_z (ns_vlan n); sn_folder := or_null_z (ns_folder n);
     sn_domain := or_null (ns_domain n); sn_scan_interval := ns_scan_interval n;
     sn_scan_enabled := ns_scan_enabled n; sn_reverse := 0; sn_revision := 1 |}.

(** The insert fails where SQLite would: on a CIDR that is taken and on a
    parent that does not exist. *)
Definition insertSubnet (t : Table) (n : NewSubnet) : result table_error (Table * Z) :=
  parsed ← lift_cidr (parseNetwork (ns_cidr n));
  if existsb (fun r => String.eqb (sn_cidr r) (ns_cidr n)) (rows t) then Err (CidrNotUnique (ns_cidr n))
  else
    let added := (mkTable (rows t ++ [new_row parsed (next_id t) n]) (next_id t + 1), next_id t) in
    match or_null_z (ns_parent n) with
    | Some p => match find_subnet t p with Some _ => Ok added | None => Err (NoParentRow p) end
    | None => Ok added
    end.

(** [UPDATE subnets SET ... WHERE p] *)
Definition update_where (p : Subnet -> bool) (f : Subnet -> Subnet) (t : Table) : Table :=
  mkTable (map (fun r => if p r then f r else r) (rows t)) (next_id t).

Definition update_row (id : Z) (f : Subnet -> Subnet) (t : Table) : Table := update_where (fun r => sn_id r =? id) f t.

(** The ids below [ids], one level per step: what [ON DELETE CASCADE] and the
    recursive queries reach. *)
Fixpoint below (fuel : nat) (t : Table) (ids : list Z) : list Z :=
  match fuel with
  | O => []
  | S fuel' =>
      let kids := map sn_id (List.filter (fun r => existsb (fun id => is_child id r) ids) (rows t)) in
      match kids with [] => [] | _ => kids ++ below fuel' t kids end
  end.

(** Every row below [id]: a level holds a row the levels above do not, so as
    many levels as rows are enough. *)
Definition descendants (t : Table) (id : Z) : list Z := below (List.length (rows t)) t [id].

Definition delete_ids (ids : list Z) (t : Table) : Table :=
  mkTable (List.filter (fun r => negb (existsb (Z.eqb (sn_id r)) ids)) (rows t)) (next_id t).

(** [DELETE FROM subnets WHERE id = ?]: the children go by the cascade. *)
Definition deleteSubnetRow (t : Table) (id : Z) : Table := delete_ids (id :: descendants t id) t.

(** [deleteDescendantSubnets] *)
Definition deleteDescendantSubnets (t : Table) (id : Z) : Table := delete_ids (descendants t id) t.

(** ** Writes to one row *)

Definition set_reverse (r : Subnet) : Subnet :=
  mkSubnet (sn_id r) (sn_cidr r) (sn_net r) (sn_parent r) (sn_depth r) (sn_status r) (sn_gateway r) (sn_policy r) (sn_name r)
    (sn_description r) (sn_vlan r) (sn_folder r) (sn_domain r) (sn_scan_interval r) (sn_scan_enabled r) 1 (sn_revision r).

Definition setReverseDnsFlag (id : Z) : Table -> Table := update_row id set_reverse.

(** The columns of the parent reset when it becomes a container. Its policy
    column stays. *)
Definition clearParentConfig (id : Z) : Table -> Table :=
  update_row id (fun r => mkSubnet (sn_id r) (sn_cidr r) (sn_net r) (sn_parent r) (sn_depth r) unallocated None
    (sn_policy r) (sn_name r) None None (sn_folder r) None (sn_scan_interval r) (sn_scan_enabled r) 0 (sn_revision r + 1)).

Definition deallocateSubnetRow (subnet : Subnet) : Table -> Table :=
  update_row (sn_id subnet) (fun r => mkSubnet (sn_id r) (sn_cidr r) (sn_net r) (sn_parent r) (sn_depth r) unallocated None
    policy_none (sn_cidr subnet) None None None None None None 0 (sn_revision r)).
