(* ===== verification/Ranges.v ===== *)
(** * Network range types: [server/src/models/range.js], [routes/ranges.js]

    The rows of the [ranges] table, the labels (custom range types) that are
    laid over the addresses of a network, the history kept of them in
    [ip_range_events] ([models/ip-events.js]), and the routes that edit them.
    A write that throws leaves the database as it was. *)

From S2P Require Import Prelude JsString Address Cidr Partition ScopeOptions DhcpPools Subnets.

(** ** Rows *)

Record RangeType := mkRangeType { rt_id : Z; rt_name : string; rt_system : bool }.

Inductive RangeChange := range_assigned | range_unassigned.

#[export] Instance RangeChange_eq_dec : EqDecision RangeChange.
Proof. solve_decision. Defined.

(** A row of [ip_range_events]. *)
Record RangeEvent := mkRangeEvent
  { ev_subnet : Z; ev_range : Z; ev_type : string; ev_start : string; ev_end : string;
    ev_start_key : option string; ev_end_key : option string; ev_change : RangeChange }.

Record RangeDb := mkRangeDb
  { ranges : list RangeRow; next_range : Z; range_types : list RangeType; range_events : list RangeEvent }.

Definition with_ranges (db : RangeDb) (l : list RangeRow) : RangeDb := mkRangeDb l (next_range db) (range_types db) (range_events db).

Definition find_type (db : RangeDb) (id : Z) : option RangeType := List.find (fun t => rt_id t =? id) (range_types db).

(** [rt.is_system = 0] of the joined type. *)
Definition is_custom (db : RangeDb) (r : RangeRow) : bool :=
  match find_type db (rg_type r) with Some t => negb (rt_system t) | None => false end.

Definition is_functional (db : RangeDb) (r : RangeRow) : bool :=
  match find_type db (rg_type r) with Some t => rt_system t | None => false end.

(** [INSERT INTO ranges] *)
Definition insertRange (db : RangeDb) (subnetId type : Z) (startIp endIp : string) (description : option string) : RangeDb :=
  mkRangeDb (ranges db ++ [mkRangeRow (next_range db) subnetId type startIp endIp description]) (next_range db + 1) (range_types db) (range_events db).

(** [DELETE FROM ranges WHERE p] *)
Definition delete_where (p : RangeRow -> bool) (db : RangeDb) : RangeDb := with_ranges db (List.filter (fun r => negb (p r)) (ranges db)).

(** [insertRangeEvent] *)
Definition insertRangeEvent (db : RangeDb) (subnetId rangeId : Z) (rangeType startIp endIp : string) (type : RangeChange) : RangeDb :=
  mkRangeDb (ranges db) (next_range db) (range_types db)
    (range_events db ++ [mkRangeEvent subnetId rangeId rangeType startIp endIp (sortKey startIp) (sortKey endIp) type]).

(** ** Coverage and its history *)

Record Coverage := mkCoverage { cv_id : Z; cv_type : string; cv_family : Z; cv_start : Z; cv_end : Z }.

Definition coverage_row (db : RangeDb) (r : RangeRow) : result cidr_error Coverage :=
  start ← addressToBig (rg_start r);
  stop ← addressToBig (rg_end r);
  mret (mkCoverage (rg_id r) (match find_type db (rg_type r) with Some t => rt_name t | None => "" end) (a_family start) (a_value start) (a_value stop)).

Definition customCoverage (db : RangeDb) (subnetId : Z) : result cidr_error (list Coverage) :=
  map_result (coverage_row db) (List.filter (fun r => (rg_subnet r =? subnetId) && is_custom db r) (ranges db)).

(** What is left of the fragments when an interval is taken out of them. *)
Definition cut_fragment (cut fragment : Z * Z) : list (Z * Z) :=
  if (snd cut <? fst fragment) || (snd fragment <? fst cut) then [fragment]
  else (if fst fragment <? fst cut then [(fst fragment, fst cut - 1)] else [])
       ++ (if snd cut <? snd fragment then [(snd cut + 1, snd fragment)] else []).

Definition cut_all (cuts : list (Z * Z)) (fragments : list (Z * Z)) : list (Z * Z) :=
  fold_left (fun fragments cut => flat_map (cut_fragment cut) fragments) cuts fragments.

Definition uncovered (interval : Coverage) (others : list Coverage) : list Coverage :=
  let same := List.filter (fun o => String.eqb (cv_type o) (cv_type interval) && (cv_family o =? cv_family interval)) others in
  map (fun f => mkCoverage (cv_id interval) (cv_type interval) (cv_family interval) (fst f) (snd f))
    (cut_all (map (fun o => (cv_start o, cv_end o)) same) [(cv_start interval, cv_end interval)]).

Definition record_change (subnetId : Z) (type : RangeChange) (db : RangeDb) (i : Coverage) : RangeDb :=
  insertRangeEvent db subnetId (cv_id i) (cv_type i) (bigToAddress (cv_start i) (cv_family i)) (bigToAddress (cv_end i) (cv_family i)) type.

Definition recordCoverageChange (db : RangeDb) (subnetId : Z) (before after : list Coverage) : RangeDb :=
  let lost := flat_map (fun i => uncovered i after) before in
  let gained := flat_map (fun i => uncovered i before) after in
  fold_left (record_change subnetId range_assigned) gained (fold_left (record_change subnetId range_unassigned) lost db).

Definition withRangeHistory {A} (db : RangeDb) (subnetId : Z) (write : RangeDb -> result cidr_error (RangeDb * A)) : result cidr_error (RangeDb * A) :=
  before ← customCoverage db subnetId;
  done ← write db;
  after ← customCoverage (fst done) subnetId;
  mret (recordCoverageChange (fst done) subnetId before after, snd done).

(** [recordSubtreeRangesRemoved]: [ids] are the network and those below it. *)
Definition recordSubtreeRangesRemoved (ids : list Z) (db : RangeDb) : result cidr_error RangeDb :=
  fold_result (fun db id => before ← customCoverage db id; mret (recordCoverageChange db id before [])) ids db.

(** The range rows of an address's history: [start_key <= key <= end_key].
    Sort keys compare as text. *)
Definition key_between (key : string) (e : RangeEvent) : bool :=
  match ev_start_key e, ev_end_key e with
  | Some a, Some b => negb (bool_decide (String.compare a key = Gt)) && negb (bool_decide (String.compare key b = Gt))
  | _, _ => false
  end.

Definition addressRangeEvents (db : RangeDb) (ip : string) : list RangeEvent :=
  match sortKey ip with None => [] | Some key => List.filter (key_between key) (range_events db) end.

(** ** Single rows *)

Definition createRange (db : RangeDb) (subnetId type : Z) (startIp endIp : string) (description : option string) : result cidr_error (RangeDb * Z) :=
  withRangeHistory db subnetId (fun db => mret (insertRange db subnetId type startIp endIp (or_null description), next_range db)).

Definition update_range_row (id : Z) (type : option Z) (startIp endIp : string) (description : option (option string)) (r : RangeRow) : RangeRow :=
  if rg_id r =? id then mkRangeRow (rg_id r) (rg_subnet r) (default (rg_type r) type) startIp endIp (default (rg_description r) description) else r.

Definition updateRange (db : RangeDb) (range : RangeRow) (type : option Z) (startIp endIp : string) (description : option (option string))
    : result cidr_error (RangeDb * ()) :=
  withRangeHistory db (rg_subnet range) (fun db =>
    mret (with_ranges db (map (update_range_row (rg_id range) type startIp endIp description) (ranges db)), ())).

Definition deleteRange (db : RangeDb) (rangeId : Z) : result cidr_error (RangeDb * ()) :=
  match List.find (fun r => rg_id r =? rangeId) (ranges db) with
  | None => mret (db, ())
  | Some range => withRangeHistory db (rg_subnet range) (fun db => mret (delete_where (fun r => rg_id r =? rangeId) db, ()))
  end.

(** ** Labels over selections *)

Record Selection := mkSelection { sl_family : Z; sl_start : Z; sl_end : Z }.

Definition selectionFor (startIp endIp : string) : result cidr_error Selection :=
  start ← addressToBig startIp;
  stop ← addressToBig endIp;
  mret (mkSelection (a_family start) (a_value start) (a_value stop)).

Definition selection_meets (start : Address) (stop : Z) (s : Selection) : bool :=
  (sl_family s =? a_family start) && (sl_start s <=? stop) && (a_value start <=? sl_end s).

Definition row_meets (selections : list Selection) (r : RangeRow) : result cidr_error bool :=
  start ← addressToBig (rg_start r);
  stop ← addressToBig (rg_end r);
  mret (existsb (selection_meets start (a_value stop)) selections).

(** [ORDER BY start_ip]: SQLite compares text byte by byte. *)
Definition by_start_text (l : list RangeRow) : list RangeRow := merge_sort (fun a b => String.le (rg_start a) (rg_start b)) l.

Definition listCustomRangeOverlaps (db : RangeDb) (subnetId : Z) (selections : list Selection) (excludeRangeId : option Z) : result cidr_error (list RangeRow) :=
  filter_result (row_meets selections)
    (by_start_text (List.filter (fun r => (rg_subnet r =? subnetId) && is_custom db r && negb (bool_decide (excludeRangeId = Some (rg_id r)))) (ranges db))).

(** One overlapping row: what is left of it around the selections. *)
Definition split_row (subnetId : Z) (selections : list Selection) (db : RangeDb) (range : RangeRow) : result cidr_error RangeDb :=
  start ← addressToBig (rg_start range);
  stop ← addressToBig (rg_end range);
  let fragments := cut_all (map (fun s => (sl_start s, sl_end s)) selections) [(a_value start, a_value stop)] in
  mret (fold_left (fun db f => insertRange db subnetId (rg_type range) (bigToAddress (fst f) (a_family start)) (bigToAddress (snd f) (a_family start)) (rg_description range))
          fragments (delete_where (fun r => rg_id r =? rg_id range) db)).

Definition label_selection (subnetId type : Z) (description : option string) (db : RangeDb) (s : Selection) : RangeDb :=
  insertRange db subnetId type (bigToAddress (sl_start s) (sl_family s)) (bigToAddress (sl_end s) (sl_family s)) (or_null description).

Definition assign_rows (subnetId : Z) (rangeTypeId : option Z) (selections : list Selection) (description : option string) (excludeRangeId : option Z) (db : RangeDb)
    : result cidr_error (RangeDb * list RangeRow) :=
  overlaps ← listCustomRangeOverlaps db subnetId selections excludeRangeId;
  let db := match excludeRangeId with
            | Some id => delete_where (fun r => (rg_id r =? id) && (rg_subnet r =? subnetId)) db
            | None => db
            end in
  db ← fold_result (split_row subnetId selections) overlaps db;
  mret (match rangeTypeId with
        | Some type => fold_left (label_selection subnetId type description) selections db
        | None => db
        end, overlaps).

Definition assignCustomRangeType (db : RangeDb) (subnetId : Z) (rangeTypeId : option Z) (selections : list Selection)
    (description : option string) (excludeRangeId : option Z) : result cidr_error (RangeDb * list RangeRow) :=
  withRangeHistory db subnetId (assign_rows subnetId rangeTypeId selections description excludeRangeId).

(** ** The routes *)

Inductive range_error :=
| Answered (status : Z) (message : string)
| RangeThrew (e : cidr_error).

Definition lift_range {A} (m : result cidr_error A) : result range_error A :=
  match m with Ok a => Ok a | Err e => Err (RangeThrew e) end.

Definition answer_if (test : bool) (status : Z) (message : string) : result range_error () :=
  if test then Err (Answered status message) else Ok ().

Definition found {A} (m : option A) (status : Z) (message : string) : result range_error A :=
  match m with Some a => Ok a | None => Err (Answered status message) end.

(** The rows of other tables the routes look at: the networks, what a dynamic
    pool may not hold, and the pools of DHCP scopes with whether the scope is
    enabled. *)
Record RangeWorld := mkRangeWorld { rw_networks : Table; rw_pools : PoolDb; rw_attached : list (Z * bool); rw_ipv6 : bool }.

Definition ipv6_off (w : RangeWorld) (subnet : Subnet) : bool := (address_family (sn_net subnet) =? 6) && negb (rw_ipv6 w).

Definition pool_conflict (w : RangeWorld) (subnet : Subnet) (startIp endIp : string) : result range_error () :=
  conflict ← lift_range (dynamicPoolConflict (rw_pools w) (mkPoolSubnet (sn_id subnet) (sn_cidr subnet) (sn_gateway subnet)) startIp endIp);
  match conflict with Some c => Err (Answered 409 (conflict_error c)) | None => Ok () end.

Definition both_inside (subnet : Subnet) (startIp endIp : string) : result range_error bool :=
  a ← lift_range (networkContains (sn_cidr subnet) startIp);
  if negb a then mret false else lift_range (networkContains (sn_cidr subnet) endIp).

Definition out_of_order (startIp endIp : string) : result range_error bool :=
  a ← lift_range (addressToBig startIp);
  b ← lift_range (addressToBig endIp);
  mret (a_value b <? a_value a).

(** The rows a functional range overlaps. *)
Definition functionalOverlaps (db : RangeDb) (subnetId : Z) (exclude : option Z) (startIp endIp : string) : result cidr_error (list RangeRow) :=
  filter_result (fun r => addressRangesOverlap startIp endIp (rg_start r) (rg_end r))
    (List.filter (fun r => (rg_subnet r =? subnetId) && is_functional db r && negb (bool_decide (exclude = Some (rg_id r)))) (ranges db)).

Definition overlapping_rows (db : RangeDb) (subnetId : Z) (type : RangeType) (exclude : option Z) (startIp endIp : string) : result range_error (list RangeRow * Selection) :=
  selection ← lift_range (selectionFor startIp endIp);
  rows ← lift_range (if rt_system type then functionalOverlaps db subnetId exclude startIp endIp
                     else listCustomRangeOverlaps db subnetId [selection] exclude);
  mret (rows, selection).

(** [validateDisplayString] of utils/ip.js: what is wrong with a text. *)
Definition control_char (c : ascii) : bool :=
  let n := code c in (n <=? 8) || ((11 <=? n) && (n <=? 31)) || (n =? 127).

Definition angle_char (c : ascii) : bool := Ascii.eqb c "<" || Ascii.eqb c ">".

Definition validateDisplayString (value : option string) (maxLength : Z) (allowEmpty : bool) : option string :=
  match or_null value with
  | None => if allowEmpty then None else Some "must not be empty"
  | Some text =>
      if maxLength <? Z.of_nat (String.length text) then Some ("must be " +:+ dec maxLength +:+ " characters or fewer")
      else if existsb angle_char (list_ascii_of_string text) then Some "must not contain < or >"
      else if existsb control_char (list_ascii_of_string text) then Some "must not contain control characters"
      else None
  end.

Definition bad_description (description : option string) : result range_error () :=
  match validateDisplayString description 1024 true with
  | Some problem => Err (Answered 400 ("description " +:+ problem))
  | None => Ok ()
  end.

(** The body of [POST /ranges]; a [description] of [None] is undefined. *)
Record RangeBody := mkRangeBody
  { rb_type : Z; rb_start : string; rb_end : string; rb_description : option string; rb_force : bool }.

Definition postRange (w : RangeWorld) (db : RangeDb) (subnetId : Z) (b : RangeBody) : result range_error RangeDb :=
  _ ← answer_if ((rb_type b =? 0) || String.eqb (rb_start b) "" || String.eqb (rb_end b) "") 400 "range_type_id, start_ip, and end_ip are required";
  start_ip ← found (if isValidAddress (rb_start b) then canonicalizeIp (rb_start b) else None) 400 "start_ip and end_ip must be valid IP addresses";
  end_ip ← found (if isValidAddress (rb_end b) then canonicalizeIp (rb_end b) else None) 400 "start_ip and end_ip must be valid IP addresses";
  _ ← bad_description (rb_description b);
  subnet ← found (find_subnet (rw_networks w) subnetId) 404 "Subnet not found";
  _ ← answer_if (ipv6_off w subnet) 409 "IPv6 is switched off";
  inside ← both_inside subnet start_ip end_ip;
  _ ← answer_if (negb inside) 400 "IP range must be within the subnet";
  reversed ← out_of_order start_ip end_ip;
  _ ← answer_if reversed 400 "Start IP must be less than or equal to end IP";
  type ← found (find_type db (rb_type b)) 404 "Range type not found";
  _ ← (if String.eqb (rt_name type) "DHCP Scope" then pool_conflict w subnet start_ip end_ip else Ok ());
  overlaps ← overlapping_rows db subnetId type None start_ip end_ip;
  _ ← answer_if ((0 <? length (fst overlaps))%nat && negb (rb_force b)) 409 "Range overlaps with existing ranges";
  if negb (rt_system type) && (0 <? length (fst overlaps))%nat
  then r ← lift_range (assignCustomRangeType db subnetId (Some (rb_type b)) [snd overlaps] (rb_description b) None); mret (fst r)
  else r ← lift_range (createRange db subnetId (rb_type b) start_ip end_ip (rb_description b)); mret (fst r).

(** The touching selections of a multi-select, merged: [previous] is the last
    one merged so far. *)
Fixpoint merge_selections (previous : Selection) (l : list Selection) : list Selection :=
  match l with
  | [] => [previous]
  | s :: l' =>
      if sl_start s <=? sl_end previous + 1
      then merge_selections (mkSelection (sl_family previous) (sl_start previous) (Z.max (sl_end previous) (sl_end s))) l'
      else previous :: merge_selections s l'
  end.

Definition sort_selections (l : list Selection) : list Selection := sort_by sl_start (sort_by sl_end l).

Definition mergedSelections (l : list Selection) : list Selection :=
  match sort_selections l with [] => [] | s :: l' => merge_selections s l' end.

Definition requested_selection (subnet : Subnet) (r : string * string) : result range_error Selection :=
  _ ← answer_if (negb (isValidAddress (fst r)) || negb (isValidAddress (snd r))) 400 "Every range needs valid start_ip and end_ip addresses";
  inside ← both_inside subnet (fst r) (snd r);
  _ ← answer_if (negb inside) 400 "Every IP range must be within the subnet";
  selection ← lift_range (selectionFor (fst r) (snd r));
  _ ← answer_if (sl_end selection <? sl_start selection) 400 "Every Start IP must be less than or equal to its End IP";
  mret selection.

(** The body of [PUT /ranges/set-type] and [/clear-type]; a [type] of [None]
    clears. *)
Definition assignOrClear (w : RangeWorld) (db : RangeDb) (subnetId : Z) (type : option Z) (requested : list (string * string)) (accept_overlaps : bool)
    : result range_error RangeDb :=
  _ ← answer_if (length requested =? 0)%nat 400 "ranges must be a non-empty array";
  _ ← answer_if (1024 <? length requested)%nat 400 "ranges cannot contain more than 1024 selections";
  subnet ← found (find_subnet (rw_networks w) subnetId) 404 "Subnet not found";
  _ ← answer_if (ipv6_off w subnet) 409 "IPv6 is switched off";
  _ ← (match type with
       | None => Ok ()
       | Some id => rangeType ← found (find_type db id) 404 "Network range type not found";
                    answer_if (rt_system rangeType) 400 "Set Range Type accepts custom Network Range Types only"
       end);
  selections ← map_result (requested_selection subnet) requested;
  let merged := mergedSelections selections in
  overlaps ← (match type with None => mret [] | Some _ => lift_range (listCustomRangeOverlaps db subnetId merged None) end);
  _ ← answer_if ((0 <? length overlaps)%nat && negb accept_overlaps) 409 "Selection overlaps existing Network Range Types";
  r ← lift_range (assignCustomRangeType db subnetId type merged None None);
  mret (fst r).

(** The body of [PUT /ranges/:id]; [None] is undefined, a [description] of
    [Some None] is null. *)
Record RangeUpdate := mkRangeUpdate
  { ru_type : option Z; ru_start : option string; ru_end : option string; ru_description : option (option string); ru_force : bool }.

Definition fixed_name (t : RangeType) : bool := rt_system t && (String.eqb (rt_name t) "Network" || String.eqb (rt_name t) "Broadcast").

(** The type a row is given: it stays on its side of [is_system], and is not a
    type the topology writes. A row whose own type is gone is on neither. *)
Definition retype (db : RangeDb) (rangeType : option RangeType) (type : option Z) : result range_error (option RangeType) :=
  match type with
  | None => Ok rangeType
  | Some id =>
      t ← found (find_type db id) 404 "Range type not found";
      _ ← answer_if (fixed_name t || (rt_system t && String.eqb (rt_name t) "Gateway")) 400
            ("Cannot change a range to system type " +:+ rt_name t);
      _ ← answer_if (negb (Bool.eqb (rt_system t) (match rangeType with Some r => rt_system r | None => false end))) 400
            "Cannot change between functional system ranges and organizational Network Range Types";
      mret (Some t)
  end.

Definition putRange (w : RangeWorld) (db : RangeDb) (subnetId rangeId : Z) (b : RangeUpdate) : result range_error RangeDb :=
  range ← found (List.find (fun r => (rg_id r =? rangeId) && (rg_subnet r =? subnetId)) (ranges db)) 404 "Range not found";
  let rangeType := find_type db (rg_type range) in
  _ ← answer_if (match rangeType with Some t => fixed_name t | None => false end) 403 "Cannot modify Network or Broadcast ranges";
  _ ← bad_description (default None (ru_description b));
  let start_ip := default (rg_start range) (ru_start b) in
  let end_ip := default (rg_end range) (ru_end b) in
  newStart ← found (if isValidAddress start_ip then canonicalizeIp start_ip else None) 400 "start_ip and end_ip must be valid IP addresses";
  newEnd ← found (if isValidAddress end_ip then canonicalizeIp end_ip else None) 400 "start_ip and end_ip must be valid IP addresses";
  subnet ← found (find_subnet (rw_networks w) subnetId) 500 "Internal server error";
  _ ← answer_if (ipv6_off w subnet) 409 "IPv6 is switched off";
  effective ← retype db rangeType (ru_type b);
  inside ← both_inside subnet newStart newEnd;
  _ ← answer_if (negb inside) 400 "IP range must be within the subnet";
  reversed ← out_of_order newStart newEnd;
  _ ← answer_if reversed 400 "Start IP must be less than or equal to end IP";
  let attached := List.find (fun a => fst a =? rangeId) (rw_attached w) in
  let typeId := default (rg_type range) (ru_type b) in
  _ ← (if match attached with
          | Some a => snd a
          | None => match find_type db typeId with Some t => String.eqb (rt_name t) "DHCP Scope" | None => false end
          end
       then pool_conflict w subnet newStart newEnd else Ok ());
  effectiveRangeType ← found effective 500 "Internal server error";
  overlaps ← overlapping_rows db subnetId effectiveRangeType (Some rangeId) newStart newEnd;
  _ ← answer_if ((0 <? length (fst overlaps))%nat && negb (ru_force b)) 409 "Range overlaps with existing ranges";
  if negb (rt_system effectiveRangeType) && (0 <? length (fst overlaps))%nat
  then r ← lift_range (assignCustomRangeType db subnetId (Some typeId) [snd overlaps] (default (rg_description range) (ru_description b)) (Some rangeId)); mret (fst r)
  else r ← lift_range (updateRange db range (ru_type b) newStart newEnd (ru_description b)); mret (fst r).

(** [DELETE /ranges/:id] *)
Definition deleteRangeRoute (w : RangeWorld) (db : RangeDb) (subnetId rangeId : Z) : result range_error RangeDb :=
  range ← found (List.find (fun r => (rg_id r =? rangeId) && (rg_subnet r =? subnetId)) (ranges db)) 404 "Range not found";
  _ ← answer_if (match find_type db (rg_type range) with Some t => fixed_name t | None => false end) 403 "Cannot delete Network or Broadcast ranges";
  _ ← answer_if (existsb (fun a => fst a =? rangeId) (rw_attached w)) 409 "This range has a DHCP scope attached. Delete the scope first, then remove the range.";
  r ← lift_range (deleteRange db (rg_id range));
  mret (fst r).

(** ** Lemmas: fragments *)

Definition in_span (v : Z) (f : Z * Z) : Prop := fst f <= v <= snd f.
Definition spans_apart (f g : Z * Z) : Prop := snd f < fst g \/ snd g < fst f.

Lemma cut_fragment_spec c f v : (exists g, g ∈ cut_fragment c f /\ in_span v g) <-> in_span v f /\ ~ in_span v c.
Proof.
  destruct c as [c1 c2], f as [f1 f2]. unfold cut_fragment, in_span. cbn [fst snd].
  destruct ((c2 <? f1) || (f2 <? c1)) eqn:E.
  - setoid_rewrite list_elem_of_singleton. split; [intros (g & -> & Hv)|intros [Hv _]; by exists (f1, f2)]. cbn in Hv. split; [done|].
    apply orb_true_iff in E as [E|E]; apply Z.ltb_lt in E; lia.
  - setoid_rewrite elem_of_app. split.
    + intros (g & [Hg|Hg] & Hv); [destruct (Z.ltb_spec f1 c1)|destruct (Z.ltb_spec c2 f2)];
        (apply list_elem_of_singleton in Hg as -> || by apply elem_of_nil in Hg); cbn in Hv; apply orb_false_iff in E as [E1 E2]; apply Z.ltb_ge in E1, E2; lia.
    + intros [Hv Hn]. destruct (Z.lt_ge_cases v c1).
      * exists (f1, c1 - 1). split; [left|cbn; lia]. destruct (Z.ltb_spec f1 c1); [by left|lia].
      * exists (c2 + 1, f2). split; [right|cbn; lia]. destruct (Z.ltb_spec c2 f2); [by left|lia].
Qed.

Lemma cut_fragment_order c f g : fst f <= snd f -> g ∈ cut_fragment c f -> fst g <= snd g /\ fst f <= fst g /\ snd g <= snd f.
Proof.
  destruct c as [c1 c2], f as [f1 f2]. unfold cut_fragment. cbn [fst snd]. intros Hf. destruct ((c2 <? f1) || (f2 <? c1)) eqn:E.
  - intros ->%list_elem_of_singleton. cbn. lia.
  - apply orb_false_iff in E as [E1 E2]. apply Z.ltb_ge in E1, E2. intros [Hg|Hg]%elem_of_app.
    + destruct (Z.ltb_spec f1 c1); [apply list_elem_of_singleton in Hg as ->; cbn; lia|by apply elem_of_nil in Hg].
    + destruct (Z.ltb_spec c2 f2); [apply list_elem_of_singleton in Hg as ->; cbn; lia|by apply elem_of_nil in Hg].
Qed.

Lemma cut_all_step c cuts fs : cut_all (c :: cuts) fs = cut_all cuts (flat_map (cut_fragment c) fs).
Proof. done. Qed.

Lemma elem_of_flat_map {A B} (f : A -> list B) l y : y ∈ flat_map f l <-> exists x, x ∈ l /\ y ∈ f x.
Proof. rewrite list_elem_of_In, in_flat_map. setoid_rewrite list_elem_of_In. naive_solver. Qed.

Lemma cut_all_spec cuts fs v : (exists g, g ∈ cut_all cuts fs /\ in_span v g) <-> (exists f, f ∈ fs /\ in_span v f) /\ forall c, c ∈ cuts -> ~ in_span v c.
Proof.
  revert fs. induction cuts as [|c cuts IH]; intros fs.
  - split; [intros H; split; [done|by intros c ?%elem_of_nil]|by intros [H _]].
  - rewrite cut_all_step, IH. setoid_rewrite elem_of_flat_map. setoid_rewrite elem_of_cons. split.
    + intros ((g & (f & Hf & Hg) & Hv) & Hc). destruct (proj1 (cut_fragment_spec c f v)) as [Hvf Hvc]; [by exists g|].
      split; [by exists f|]. intros d [->|Hd]; [done|by apply Hc].
    + intros ((f & Hf & Hv) & Hc). destruct (proj2 (cut_fragment_spec c f v)) as (g & Hg & Hvg); [split; [done|apply Hc; by left]|].
      split; [exists g; split; [by exists f|done]|]. intros d Hd. apply Hc. by right.
Qed.

Lemma cut_all_order cuts fs g : (forall f, f ∈ fs -> fst f <= snd f) -> g ∈ cut_all cuts fs ->
  fst g <= snd g /\ exists f, f ∈ fs /\ fst f <= fst g /\ snd g <= snd f.
Proof.
  revert fs. induction cuts as [|c cuts IH]; intros fs Hfs Hg.
  - split; [by apply Hfs|]. exists g. split; [done|lia].
  - rewrite cut_all_step in Hg. apply IH in Hg as (Ho & k & Hk & H1 & H2).
    + apply elem_of_flat_map in Hk as (f & Hf & Hk). apply cut_fragment_order in Hk as (? & ? & ?); [|by apply Hfs]. split; [done|]. exists f. split; [done|lia].
    + intros k (f & Hf & Hk)%elem_of_flat_map. apply cut_fragment_order in Hk as (? & _ & _); [done|by apply Hfs].
Qed.

(** What is left of disjoint spans stays disjoint. *)
Lemma cut_fragment_apart c f : fst c <= snd c -> fst f <= snd f -> ForallOrdPairs spans_apart (cut_fragment c f).
Proof.
  destruct c as [c1 c2], f as [f1 f2]. unfold cut_fragment. cbn [fst snd]. intros Hc Hf. destruct (_ || _).
  - repeat constructor.
  - destruct (f1 <? c1), (c2 <? f2); repeat constructor; unfold spans_apart; cbn; lia.
Qed.

Lemma pairs_app {A} (R : A -> A -> Prop) l k : ForallOrdPairs R (l ++ k) <-> ForallOrdPairs R l /\ ForallOrdPairs R k /\ (forall x y, x ∈ l -> y ∈ k -> R x y).
Proof.
  induction l as [|a l IH]; simpl.
  - split; [intros H; split_and!; [constructor|done|by intros x y ?%elem_of_nil]|tauto].
  - split.
    + intros H. inversion H as [|? ? Ha Hl]; subst. apply IH in Hl as (H1 & H2 & H3). rewrite Forall_app in Ha. destruct Ha as [Ha Hk].
      split; [by constructor|]. split; [done|]. intros x y [->|Hx]%elem_of_cons Hy; [|by apply H3]. rewrite Forall_forall in Hk. by apply Hk.
    + intros (H1 & H2 & H3). inversion H1 as [|? ? Ha Hl]; subst. constructor.
      * apply Forall_app. split; [done|]. apply Forall_forall. intros y Hy. apply H3; [by left|done].
      * apply IH. split_and!; [done|done|]. intros x y Hx Hy. apply H3; [by right|done].
Qed.

Lemma cut_all_apart cuts fs :
  (forall c, c ∈ cuts -> fst c <= snd c) -> (forall f, f ∈ fs -> fst f <= snd f) -> ForallOrdPairs spans_apart fs -> ForallOrdPairs spans_apart (cut_all cuts fs).
Proof.
  revert fs. induction cuts as [|c cuts IH]; intros fs Hcs Hfs Hp; [done|]. rewrite cut_all_step. apply IH.
  - intros d Hd. apply Hcs. by right.
  - intros k (f & Hf & Hk)%elem_of_flat_map. apply cut_fragment_order in Hk as (? & _ & _); [done|by apply Hfs].
  - assert (fst c <= snd c) as Hc by (apply Hcs; by left). clear IH. induction Hp as [|f fs Hf Hp IH]; [constructor|]. cbn [flat_map]. apply pairs_app. split_and!.
    + apply cut_fragment_apart; [done|]. apply Hfs. by left.
    + apply IH. intros g Hg. apply Hfs. by right.
    + intros x y Hx (g & Hg & Hy)%elem_of_flat_map. apply cut_fragment_order in Hx as (_ & ? & ?); [|apply Hfs; by left].
      apply cut_fragment_order in Hy as (_ & ? & ?); [|apply Hfs; by right]. rewrite Forall_forall in Hf. destruct (Hf g Hg); [left|right]; lia.
Qed.

(** ** Lemmas: coverage *)

(** [c] lays the type [n] over the address. *)
Definition covers_at (n : string) (f v : Z) (c : Coverage) : Prop := cv_type c = n /\ cv_family c = f /\ cv_start c <= v <= cv_end c.
Definition covered_by (l : list Coverage) (n : string) (f v : Z) : Prop := exists c, c ∈ l /\ covers_at n f v c.

Lemma uncovered_spec i others n f v : covered_by (uncovered i others) n f v <-> covers_at n f v i /\ ~ covered_by others n f v.
Proof.
  unfold covered_by, uncovered, covers_at. set (same := List.filter _ others). set (cuts := map _ same).
  assert (forall c, c ∈ same <-> c ∈ others /\ cv_type c = cv_type i /\ cv_family c = cv_family i) as Hsame.
  { intros c. unfold same. by rewrite !list_elem_of_In, List.filter_In, andb_true_iff, String.eqb_eq, Z.eqb_eq. }
  assert ((exists c, c ∈ cuts /\ in_span v c) <-> exists c, c ∈ same /\ cv_start c <= v <= cv_end c) as Hcuts.
  { unfold cuts. setoid_rewrite list_elem_of_In. setoid_rewrite in_map_iff. unfold in_span. split; [intros (? & (c & <- & Hc) & Hv)|intros (c & Hc & Hv)]; eauto. }
  split.
  - intros (c & (g & <- & Hg)%list_elem_of_In%in_map_iff & <- & <- & Hv). apply list_elem_of_In in Hg. cbn in Hv |- *.
    destruct (proj1 (cut_all_spec cuts [(cv_start i, cv_end i)] v)) as ((x & ->%list_elem_of_singleton & Hx) & Hno); [by exists g|].
    split; [done|]. intros (c & Hc & Ht & Hf & Hcv). destruct (proj2 Hcuts) as (d & Hd & Hdv); [exists c; split; [by apply Hsame|done]|].
    by apply (Hno d).
  - intros ((<- & <- & Hv) & Hn). destruct (proj2 (cut_all_spec cuts [(cv_start i, cv_end i)] v)) as (g & Hg & Hgv).
    + split; [exists (cv_start i, cv_end i); split; [by apply list_elem_of_singleton|done]|]. intros c Hc Hcv.
      destruct (proj1 Hcuts) as (d & Hd & Hdv); [by exists c|]. apply Hsame in Hd as (Hd & Ht & Hf). apply Hn. by exists d.
    + exists (mkCoverage (cv_id i) (cv_type i) (cv_family i) (fst g) (snd g)). split; [|done]. apply list_elem_of_In, in_map_iff. exists g. split; [done|].
      by apply list_elem_of_In.
Qed.

Lemma classic_cover l n f v : covered_by l n f v \/ ~ covered_by l n f v.
Proof.
  destruct (decide (Exists (fun c => cv_type c = n /\ cv_family c = f /\ cv_start c <= v <= cv_end c) l)) as [H|H]; rewrite Exists_exists in H; [by left|by right].
Qed.

Lemma uncovered_all l others n f v : covered_by (flat_map (fun i => uncovered i others) l) n f v <-> covered_by l n f v /\ ~ covered_by others n f v.
Proof.
  unfold covered_by at 1. setoid_rewrite elem_of_flat_map. split.
  - intros (c & (i & Hi & Hc) & Hv). destruct (proj1 (uncovered_spec i others n f v)) as [? ?]; [by exists c|]. split; [by exists i|done].
  - intros ((i & Hi & Hv) & Hn). destruct (proj2 (uncovered_spec i others n f v)) as (c & Hc & Hcv); [done|]. exists c. split; [by exists i|done].
Qed.

Lemma uncovered_within i others c : cv_start i <= cv_end i -> c ∈ uncovered i others ->
  cv_type c = cv_type i /\ cv_family c = cv_family i /\ cv_start i <= cv_start c /\ cv_start c <= cv_end c /\ cv_end c <= cv_end i.
Proof.
  intros Hi (g & <- & Hg)%list_elem_of_In%in_map_iff. apply list_elem_of_In in Hg. cbn.
  apply cut_all_order in Hg as (Ho & f & ->%list_elem_of_singleton & H1 & H2); [done|by intros ? ->%list_elem_of_singleton].
Qed.

(** ** Lemmas: events *)

(** The family's addresses the text form reads back. *)
Definition readable (f v : Z) : Prop := exists b, fam_bits f b /\ spellable v b.

Lemma readable_text f v : readable f v -> exists b, fam_bits f b /\ addressToBig (bigToAddress v f) = Ok (mkAddress v b f).
Proof. intros (b & Hb & Hv). exists b. split; [done|]. by apply addressToBig_text. Qed.

Lemma key_of_text f v : readable f v -> exists b, fam_bits f b /\ parseIp default_options (bigToAddress v f) = Some (mkParsedIp v b None).
Proof.
  intros (b & Hb & Hv). exists b. split; [done|]. rewrite (bigToAddress_bits f b v Hb). by apply parseIp_formatIp.
Qed.

(** Sort keys compare as the addresses do. *)
Lemma keys_compare f v g w :
  readable f v -> readable g w ->
  exists k l, sortKey (bigToAddress v f) = Some k /\ sortKey (bigToAddress w g) = Some l /\
    String.compare k l = match f ?= g with Eq => v ?= w | c => c end.
Proof.
  intros (b & Hb & Hv)%key_of_text (c & Hc & Hw)%key_of_text. destruct (sort_key_order _ _ _ _ Hv Hw) as (k & l & Hk & Hl & _ & Hkl).
  exists k, l. split; [done|]. split; [done|]. rewrite Hkl. unfold address_compare. cbn [value bits].
  by inversion Hb; inversion Hc; subst.
Qed.

(** The event recorded for a run of addresses. *)
Definition event_for (s : Z) (k : RangeChange) (i : Coverage) : RangeEvent :=
  mkRangeEvent s (cv_id i) (cv_type i) (bigToAddress (cv_start i) (cv_family i)) (bigToAddress (cv_end i) (cv_family i))
    (sortKey (bigToAddress (cv_start i) (cv_family i))) (sortKey (bigToAddress (cv_end i) (cv_family i))) k.

Lemma event_covers i s k f v key :
  readable (cv_family i) (cv_start i) -> readable (cv_family i) (cv_end i) -> readable f v -> sortKey (bigToAddress v f) = Some key ->
  key_between key (event_for s k i) = true <-> cv_family i = f /\ cv_start i <= v <= cv_end i.
Proof.
  intros Ha Hb Hv Hkey. unfold key_between. cbn [event_for ev_start_key ev_end_key].
  destruct (keys_compare _ _ _ _ Ha Hv) as (k1 & l1 & -> & Hl1 & Hc1). destruct (keys_compare _ _ _ _ Hv Hb) as (k2 & l2 & Hk2 & -> & Hc2).
  rewrite Hkey in Hl1, Hk2. injection Hl1 as <-. injection Hk2 as <-. rewrite andb_true_iff, !negb_true_iff, !bool_decide_eq_false, Hc1, Hc2.
  destruct (Z.compare_spec (cv_family i) f) as [He|He|He], (Z.compare_spec f (cv_family i)) as [He'|He'|He']; try lia.
  - rewrite Z.compare_gt_iff, Z.compare_gt_iff. lia.
  - split; [intros [_ H]; by destruct H|lia].
  - split; [intros [H _]; by destruct H|lia].
Qed.

Lemma record_events s k l db :
  fold_left (record_change s k) l db =
  mkRangeDb (ranges db) (next_range db) (range_types db) (range_events db ++ map (event_for s k) l).
Proof.
  revert db. induction l as [|i l IH]; intros db; cbn [fold_left map]; [rewrite app_nil_r; by destruct db|]. rewrite IH. unfold record_change, insertRangeEvent. cbn.
  by rewrite <- app_assoc.
Qed.

(** The rows an interval stands for can be printed at both ends. *)
Definition span_ok (i : Coverage) : Prop := cv_start i <= cv_end i /\ forall v, cv_start i <= v <= cv_end i -> readable (cv_family i) v.

Lemma uncovered_ok i others c : span_ok i -> c ∈ uncovered i others -> span_ok c.
Proof.
  intros [Ho Hr] Hc. apply uncovered_within in Hc as (_ & Hf & H1 & H2 & H3); [|done]. split; [done|]. intros v Hv. rewrite Hf. apply Hr. lia.
Qed.

(** The events about one type of one network at one address. *)
Definition about (s : Z) (n : string) (key : string) (e : RangeEvent) : bool :=
  (ev_subnet e =? s) && String.eqb (ev_type e) n && key_between key e.

Lemma about_event s k i n f v key :
  span_ok i -> readable f v -> sortKey (bigToAddress v f) = Some key -> about s n key (event_for s k i) = true <-> covers_at n f v i.
Proof.
  intros [Ho Hr] Hv Hkey. unfold about, covers_at. rewrite !andb_true_iff, (event_covers i s k f v key); [|apply Hr; lia|apply Hr; lia|done|done].
  cbn [event_for ev_subnet ev_type]. rewrite Z.eqb_refl, String.eqb_eq. tauto.
Qed.

Lemma recorded_kind db s before after :
  Forall span_ok before -> Forall span_ok after ->
  exists new, recordCoverageChange db s before after = mkRangeDb (ranges db) (next_range db) (range_types db) (range_events db ++ new) /\
    (forall e, e ∈ new -> ev_subnet e = s) /\
    forall n f v key, readable f v -> sortKey (bigToAddress v f) = Some key ->
      let here := List.filter (about s n key) new in
      (forall e, e ∈ here -> ev_change e = range_unassigned -> covered_by before n f v /\ ~ covered_by after n f v) /\
      (forall e, e ∈ here -> ev_change e = range_assigned -> covered_by after n f v /\ ~ covered_by before n f v) /\
      (here = [] <-> (covered_by before n f v <-> covered_by after n f v)).
Proof.
  intros Hb Ha. unfold recordCoverageChange. set (lost := flat_map _ before). set (gained := flat_map _ after). rewrite !record_events. cbn [ranges next_range range_types range_events].
  exists (map (event_for s range_unassigned) lost ++ map (event_for s range_assigned) gained). rewrite <- app_assoc. split; [reflexivity|].
  assert (forall i, i ∈ lost -> span_ok i) as Hlost.
  { intros i (j & Hj & Hi)%elem_of_flat_map. rewrite Forall_forall in Hb. by eapply uncovered_ok; [apply Hb|]. }
  assert (forall i, i ∈ gained -> span_ok i) as Hgained.
  { intros i (j & Hj & Hi)%elem_of_flat_map. rewrite Forall_forall in Ha. by eapply uncovered_ok; [apply Ha|]. }
  split; [by intros e [(i & <- & _)%list_elem_of_In%in_map_iff|(i & <- & _)%list_elem_of_In%in_map_iff]%elem_of_app|].
  intros n f v key Hv Hkey. set (here := List.filter _ _).
  assert (forall e, e ∈ here <-> (exists i, i ∈ lost /\ e = event_for s range_unassigned i /\ covers_at n f v i) \/
                               (exists i, i ∈ gained /\ e = event_for s range_assigned i /\ covers_at n f v i)) as Hhere.
  { intros e. unfold here. rewrite list_elem_of_In, List.filter_In, in_app_iff, !in_map_iff. setoid_rewrite <- list_elem_of_In. split.
    - intros [[(i & <- & Hi)|(i & <- & Hi)] Hab]; [left|right]; exists i; (split; [done|]; split; [done|]); eapply about_event; eauto.
    - intros [(i & Hi & -> & Hc)|(i & Hi & -> & Hc)]; (split; [|eapply about_event; eauto]); [left|right]; by exists i. }
  pose proof (uncovered_all before after n f v) as Hl. pose proof (uncovered_all after before n f v) as Hg. fold lost in Hl. fold gained in Hg.
  split; [|split].
  - intros e [(i & Hi & -> & Hc)|(i & Hi & -> & Hc)]%Hhere; [|done]. intros _. apply Hl. by exists i.
  - intros e [(i & Hi & -> & Hc)|(i & Hi & -> & Hc)]%Hhere; [done|]. intros _. apply Hg. by exists i.
  - split.
    + intros Hn. rewrite Hn in Hhere. split; intros Hc.
      * destruct (classic_cover after n f v) as [|Hno]; [done|]. exfalso. destruct (proj2 Hl) as (i & Hi & Hci); [done|].
        assert (event_for s range_unassigned i ∈ []) as H%elem_of_nil; [|done]. apply Hhere. left. by exists i.
      * destruct (classic_cover before n f v) as [|Hno]; [done|]. exfalso. destruct (proj2 Hg) as (i & Hi & Hci); [done|].
        assert (event_for s range_assigned i ∈ []) as H%elem_of_nil; [|done]. apply Hhere. right. by exists i.
    + intros Hiff. destruct here as [|e l] eqn:E; [done|]. exfalso. destruct (proj1 (Hhere e) ltac:(by left)) as [(i & Hi & _ & Hc)|(i & Hi & _ & Hc)].
      * destruct (proj1 Hl) as [? ?]; [by exists i|]. tauto.
      * destruct (proj1 Hg) as [? ?]; [by exists i|]. tauto.
Qed.

(** ** Lemmas: rows as spans *)

Definition rfam (r : RangeRow) : Z := match addressToBig (rg_start r) with Ok a => a_family a | Err _ => 0 end.
Definition rlow (r : RangeRow) : Z := match addressToBig (rg_start r) with Ok a => a_value a | Err _ => 0 end.
Definition rhigh (r : RangeRow) : Z := match addressToBig (rg_end r) with Ok a => a_value a | Err _ => 0 end.

(** [r] is a run of readable addresses of one family in canonical spelling. *)
Record label_ok (r : RangeRow) : Prop := {
  lb_start : rg_start r = bigToAddress (rlow r) (rfam r);
  lb_end : rg_end r = bigToAddress (rhigh r) (rfam r);
  lb_order : rlow r <= rhigh r;
  lb_read : forall v, rlow r <= v <= rhigh r -> readable (rfam r) v }.

Definition at_row (r : RangeRow) (f v : Z) : Prop := rfam r = f /\ rlow r <= v <= rhigh r.
Definition clear_of (r r' : RangeRow) : Prop := rfam r = rfam r' -> spans_apart (rlow r, rhigh r) (rlow r', rhigh r').

Lemma clear_sym r r' : clear_of r r' -> clear_of r' r.
Proof. intros H He. specialize (H (eq_sym He)). unfold spans_apart in *. cbn in *. tauto. Qed.

(** A row written from numbers. *)
Lemma label_make r f lo hi :
  rg_start r = bigToAddress lo f -> rg_end r = bigToAddress hi f -> lo <= hi -> (forall v, lo <= v <= hi -> readable f v) ->
  label_ok r /\ rfam r = f /\ rlow r = lo /\ rhigh r = hi.
Proof.
  intros Hs He Ho Hr. destruct (readable_text f lo (Hr lo ltac:(lia))) as (b & _ & Hlo). destruct (readable_text f hi (Hr hi ltac:(lia))) as (c & _ & Hhi).
  assert (rfam r = f /\ rlow r = lo /\ rhigh r = hi) as (H1 & H2 & H3) by (unfold rfam, rlow, rhigh; by rewrite Hs, He, Hlo, Hhi).
  split; [|done]. split; rewrite ?H1, ?H2, ?H3; done.
Qed.

Lemma label_addresses r : label_ok r -> exists b c,
  addressToBig (rg_start r) = Ok (mkAddress (rlow r) b (rfam r)) /\ addressToBig (rg_end r) = Ok (mkAddress (rhigh r) c (rfam r)).
Proof.
  intros [Hs He Ho Hr]. destruct (readable_text _ _ (Hr (rlow r) ltac:(lia))) as (b & _ & Hlo). destruct (readable_text _ _ (Hr (rhigh r) ltac:(lia))) as (c & _ & Hhi).
  rewrite <- Hs in Hlo. rewrite <- He in Hhi. by exists b, c.
Qed.

(** *** The table *)

Record db_ok (db : RangeDb) : Prop := {
  db_ids : NoDup (map rg_id (ranges db));
  db_next : forall r, r ∈ ranges db -> rg_id r < next_range db }.

Record labels_ok (db : RangeDb) : Prop := {
  lo_db : db_ok db;
  lo_rows : forall r, r ∈ ranges db -> is_custom db r = true -> label_ok r;
  lo_clear : forall r r', r ∈ ranges db -> r' ∈ ranges db -> is_custom db r = true -> is_custom db r' = true ->
    rg_subnet r = rg_subnet r' -> r <> r' -> clear_of r r' }.

(** The label of an address: a type and a description. *)
Definition labelled (db : RangeDb) (s type : Z) (description : option string) (f v : Z) : Prop :=
  exists r, r ∈ ranges db /\ is_custom db r = true /\ rg_subnet r = s /\ rg_type r = type /\ rg_description r = description /\ at_row r f v.

Lemma range_same_id db r r' : db_ok db -> r ∈ ranges db -> r' ∈ ranges db -> rg_id r = rg_id r' -> r = r'.
Proof. intros H. apply nodup_map_inj, H. Qed.

Lemma is_custom_types db db' r : range_types db' = range_types db -> is_custom db' r = is_custom db r.
Proof. intros H. unfold is_custom, find_type. by rewrite H. Qed.

(** Rows to be inserted, without their ids. *)
Definition NewRange : Type := Z * string * string * option string.

Fixpoint new_rows (next s : Z) (l : list NewRange) : list RangeRow :=
  match l with
  | [] => []
  | (t, a, b, d) :: l' => mkRangeRow next s t a b d :: new_rows (next + 1) s l'
  end.

Lemma insert_all {B} (s : Z) (t : B -> Z) (a b : B -> string) (d : B -> option string) l db :
  fold_left (fun db x => insertRange db s (t x) (a x) (b x) (d x)) l db =
  mkRangeDb (ranges db ++ new_rows (next_range db) s (map (fun x => (t x, a x, b x, d x)) l)) (next_range db + Z.of_nat (length l)) (range_types db) (range_events db).
Proof.
  revert db. induction l as [|x l IH]; intros db; cbn [fold_left map new_rows Datatypes.length]; [rewrite app_nil_r, Z.add_0_r; by destruct db|].
  rewrite IH. unfold insertRange. cbn [ranges next_range range_types range_events]. rewrite <- app_assoc. f_equal. lia.
Qed.

Lemma elem_of_new_rows next s l r :
  r ∈ new_rows next s l -> rg_subnet r = s /\ next <= rg_id r < next + Z.of_nat (length l) /\ (rg_type r, rg_start r, rg_end r, rg_description r) ∈ l.
Proof.
  revert next. induction l as [|[[[t a] b] d] l IH]; intros next; cbn [new_rows Datatypes.length]; [by intros ?%elem_of_nil|].
  intros [->|Hr]%elem_of_cons; [cbn; split; [done|]; split; [lia|by left]|]. destruct (IH _ Hr) as (? & ? & ?). split; [done|]. split; [lia|by right].
Qed.

Lemma new_rows_elem next s l t a b d : (t, a, b, d) ∈ l -> exists r, r ∈ new_rows next s l /\ rg_type r = t /\ rg_start r = a /\ rg_end r = b /\ rg_description r = d.
Proof.
  revert next. induction l as [|[[[t' a'] b'] d'] l IH]; intros next; [by intros ?%elem_of_nil|]. cbn [new_rows]. intros [[= -> -> -> ->]|Hl]%elem_of_cons.
  - eexists. split; [by left|done].
  - destruct (IH (next + 1) Hl) as (r & Hr & ?). exists r. split; [by right|done].
Qed.

Lemma new_rows_ids next s l : NoDup (map rg_id (new_rows next s l)).
Proof.
  revert next. induction l as [|[[[t a] b] d] l IH]; intros next; cbn [new_rows map]; [constructor|]. constructor; [|apply IH]. cbn.
  intros (r & He & Hr)%list_elem_of_In%in_map_iff. apply list_elem_of_In, elem_of_new_rows in Hr as (_ & ? & _). lia.
Qed.

Definition row_spec (r : RangeRow) : NewRange := (rg_type r, rg_start r, rg_end r, rg_description r).

Lemma pairs_elem {A} (R : A -> A -> Prop) l x y : ForallOrdPairs R l -> (forall a b, R a b -> R b a) -> x ∈ l -> y ∈ l -> x <> y -> R x y.
Proof.
  intros Hp Hsym. induction Hp as [|a l Ha _ IH]; intros Hx Hy Hne; [by apply elem_of_nil in Hx|]. rewrite Forall_forall in Ha.
  apply elem_of_cons in Hx as [->|Hx], Hy as [->|Hy]; [done|by apply Ha|by apply Hsym, Ha|by apply IH].
Qed.

Lemma pairs_impl {A} (R S : A -> A -> Prop) l : (forall x y, R x y -> S x y) -> ForallOrdPairs R l -> ForallOrdPairs S l.
Proof. intros H. induction 1 as [|x l Hx _ IH]; constructor; [|done]. eapply Forall_impl; [exact Hx|]. intros y. apply H. Qed.

Lemma new_rows_pairs {B} (R : B -> B -> Prop) (mk : B -> NewRange) (big : list B) next s (l : list B) :
  (forall y, y ∈ l -> y ∈ big) -> ForallOrdPairs R l ->
  ForallOrdPairs (fun r r' => exists x x', x ∈ big /\ x' ∈ big /\ row_spec r = mk x /\ row_spec r' = mk x' /\ R x x') (new_rows next s (map mk l)).
Proof.
  intros Hsub Hp. revert next.
  induction Hp as [|x l Hx _ IH]; intros next; cbn [map new_rows]; [constructor|]. destruct (mk x) as [[[t a] b] d] eqn:Ex. constructor.
  - apply Forall_forall. intros r (_ & _ & Hr)%elem_of_new_rows. apply list_elem_of_In, in_map_iff in Hr as (x' & He & Hx').
    apply list_elem_of_In in Hx'. rewrite Forall_forall in Hx. exists x, x'. split; [apply Hsub; by left|]. split; [apply Hsub; by right|]. split; [done|].
    split; [by rewrite He|]. by apply Hx.
  - apply IH. intros y Hy. apply Hsub. by right.
Qed.

(** Deleting rows and inserting others keeps the ids in order. *)
Lemma rewritten_db db (p : RangeRow -> bool) s l :
  db_ok db -> let db' := mkRangeDb (List.filter (fun r => negb (p r)) (ranges db) ++ new_rows (next_range db) s l) (next_range db + Z.of_nat (length l)) (range_types db) (range_events db) in
  db_ok db' /\ forall r, r ∈ ranges db' <-> (r ∈ ranges db /\ p r = false) \/ r ∈ new_rows (next_range db) s l.
Proof.
  intros Hdb db'. assert (forall r, r ∈ List.filter (fun r => negb (p r)) (ranges db) <-> r ∈ ranges db /\ p r = false) as Hf.
  { intros r. by rewrite !list_elem_of_In, List.filter_In, negb_true_iff. }
  assert (forall r, r ∈ ranges db' <-> (r ∈ ranges db /\ p r = false) \/ r ∈ new_rows (next_range db) s l) as Hin by (intros r; cbn; by rewrite elem_of_app, Hf).
  split; [|done]. split.
  - unfold db'. cbn [ranges]. rewrite map_app. apply NoDup_app. split; [apply filter_map_nodup, Hdb|]. split; [|apply new_rows_ids].
    intros i (r & <- & Hr)%list_elem_of_In%in_map_iff (x & He & Hx)%list_elem_of_In%in_map_iff. apply list_elem_of_In in Hr, Hx. apply Hf in Hr as [Hr _].
    apply elem_of_new_rows in Hx as (_ & ? & _). pose proof (db_next db Hdb r Hr). lia.
  - unfold db' at 2. cbn [next_range]. intros r [[Hr _]|Hr]%Hin; [pose proof (db_next db Hdb r Hr); lia|]. apply elem_of_new_rows in Hr as (_ & ? & _). lia.
Qed.

(** ** Lemmas: splitting rows around selections *)

Section Splitting.
Context (s f : Z) (sels : list Selection).
Context (Hsels : forall x, x ∈ sels -> sl_family x = f /\ sl_start x <= sl_end x).

(** An address of the selections. *)
Definition selected (g v : Z) : Prop := exists x, x ∈ sels /\ sl_family x = g /\ sl_start x <= v <= sl_end x.

Abbreviation cuts := (map (fun x => (sl_start x, sl_end x)) sels).

Lemma in_cuts v : (exists c, c ∈ cuts /\ in_span v c) <-> selected f v.
Proof.
  unfold selected, in_span. setoid_rewrite list_elem_of_In. setoid_rewrite in_map_iff. setoid_rewrite <- list_elem_of_In. split.
  - intros (c & (x & <- & Hx) & Hv). exists x. destruct (Hsels x Hx). done.
  - intros (x & Hx & _ & Hv). exists (sl_start x, sl_end x). split; [by exists x|done].
Qed.

(** What is left of the row [o]. *)
Abbreviation left_of := (fun o => cut_all cuts [(rlow o, rhigh o)]).

Lemma left_of_order o g : rlow o <= rhigh o -> g ∈ left_of o -> rlow o <= fst g /\ fst g <= snd g /\ snd g <= rhigh o.
Proof.
  intros Ho Hg. apply cut_all_order in Hg as (H1 & k & ->%list_elem_of_singleton & H2 & H3); [done|by intros ? ->%list_elem_of_singleton].
Qed.

Lemma left_of_spec o v : (exists g, g ∈ left_of o /\ in_span v g) <-> rlow o <= v <= rhigh o /\ ~ selected f v.
Proof.
  rewrite cut_all_spec, <- in_cuts. setoid_rewrite list_elem_of_singleton. split.
  - intros ((k & -> & Hv) & Hn). split; [done|]. intros (c & Hc & Hcv). by apply (Hn c).
  - intros (Hv & Hn). split; [by eexists|]. intros c Hc Hcv. apply Hn. by exists c.
Qed.

(** A row that stands for a part of [o]. *)
Definition part_of (o r : RangeRow) : Prop :=
  rg_subnet r = s /\ rg_type r = rg_type o /\ rg_description r = rg_description o /\ label_ok r /\ rfam r = rfam o /\
  rlow o <= rlow r /\ rhigh r <= rhigh o /\ forall v, rlow r <= v <= rhigh r -> ~ selected f v.

Lemma split_step db o :
  labels_ok db -> o ∈ ranges db -> is_custom db o = true -> rg_subnet o = s ->
  exists (db' : RangeDb) (new : list RangeRow), split_row s sels db o = Ok db' /\ labels_ok db' /\
    range_types db' = range_types db /\ range_events db' = range_events db /\ next_range db <= next_range db' /\
    (forall r, r ∈ ranges db' <-> (r ∈ ranges db /\ r <> o) \/ r ∈ new) /\
    (forall r, r ∈ new -> next_range db <= rg_id r /\ part_of o r) /\
    (forall v, rlow o <= v <= rhigh o -> ~ selected f v -> exists r, r ∈ new /\ at_row r (rfam o) v).
Proof.
  intros Hdb Ho Hcust Hs. pose proof (lo_db db Hdb) as Hok. pose proof (lo_rows db Hdb o Ho Hcust) as Hlab. destruct (label_addresses o Hlab) as (b & c & Hlo & Hhi).
  unfold split_row. rewrite Hlo, Hhi. cbn [mbind result_bind mret result_ret a_value a_family]. rewrite (insert_all s (fun _ => rg_type o) _ _ (fun _ => rg_description o)).
  set (l := map _ (left_of o)). unfold delete_where, with_ranges. cbn [ranges next_range range_types range_events].
  set (new := new_rows (next_range db) s l).
  destruct (rewritten_db db (fun r => rg_id r =? rg_id o) s l Hok) as [Hok' Hin]. replace (length (left_of o)) with (length l) by (unfold l; apply length_map).
  set (db' := mkRangeDb _ _ _ _) in *.
  assert (forall r, r ∈ ranges db' <-> (r ∈ ranges db /\ r <> o) \/ r ∈ new) as Hin'.
  { intros r. rewrite Hin. fold new. split; intros [[Hr Hne]|Hr]; [left|by right|left|by right]; (split; [done|]).
    - intros ->. by rewrite Z.eqb_refl in Hne.
    - apply Z.eqb_neq. intros He. apply Hne. by apply (range_same_id db). }
  assert (forall r, r ∈ new -> exists g, g ∈ left_of o /\ rg_subnet r = s /\ next_range db <= rg_id r /\ rg_type r = rg_type o /\ rg_description r = rg_description o /\
    label_ok r /\ rfam r = rfam o /\ rlow r = fst g /\ rhigh r = snd g) as Hnew.
  { intros r (Hrs & Hid & Hl)%elem_of_new_rows. apply list_elem_of_In, in_map_iff in Hl as (g & [= Ht Ha Hb Hd] & Hg). apply list_elem_of_In in Hg. exists g.
    destruct (left_of_order o g (lb_order o Hlab) Hg) as (H1 & H2 & H3).
    destruct (label_make r (rfam o) (fst g) (snd g)) as (Hlr & -> & -> & ->); [done|done|done|intros v Hv; apply (lb_read o Hlab); lia|]. split_and!; (done || lia). }
  assert (forall r, r ∈ new -> part_of o r) as Hpart.
  { intros r (g & Hg & H1 & _ & H2 & H3 & H4 & H5 & H6 & H7)%Hnew. destruct (left_of_order o g (lb_order o Hlab) Hg) as (? & ? & ?). split_and!; try done; [lia|lia|].
    intros v Hv. apply (left_of_spec o v). exists g. split; [done|]. unfold in_span. lia. }
  exists db', new. split; [done|]. split; [|split; [done|split; [done|split; [cbn; lia|split; [done|split]]]]].
  - split; [done| |].
    + intros r [[Hr _]|Hr]%Hin' Hc; [by apply (lo_rows db Hdb)|]. by apply Hpart in Hr as (_ & _ & _ & ? & _).
    + intros r r' Hr Hr' Hc Hc' Hsub Hne.
      assert (forall x y, x ∈ ranges db -> x <> o -> is_custom db x = true -> y ∈ new -> rg_subnet x = rg_subnet y -> clear_of x y) as Hmix.
      { intros x y Hx Hxo Hxc (Hys & _ & _ & _ & Hyf & Hlo' & Hhi' & _)%Hpart Hxy Hf. destruct (lo_clear db Hdb x o) as [H|H]; try done; [congruence|congruence|left|right]; cbn in *; lia. }
      apply Hin' in Hr as [[Hr Hro]|Hr]; apply Hin' in Hr' as [[Hr' Hro']|Hr'].
      * by apply (lo_clear db Hdb).
      * by apply Hmix.
      * apply clear_sym. by apply Hmix.
      * assert (forall x y, x ∈ new -> y ∈ new -> x <> y -> clear_of x y) as Hnn; [|by apply Hnn].
        intros x y Hx Hy Hxy. apply (pairs_elem clear_of new); [|apply clear_sym|done|done|done].
        assert (ForallOrdPairs spans_apart (left_of o)) as Hap.
        { apply cut_all_apart; [intros k (z & <- & Hz)%list_elem_of_In%in_map_iff; apply list_elem_of_In in Hz; by apply Hsels| |repeat constructor].
          intros k ->%list_elem_of_singleton. apply (lb_order o Hlab). }
        apply (new_rows_pairs spans_apart (fun g => (rg_type o, bigToAddress (fst g) (rfam o), bigToAddress (snd g) (rfam o), rg_description o)) (left_of o) (next_range db) s) in Hap; [|done].
        eapply pairs_impl; [|exact Hap]. intros a a' (g & g' & Hg & Hg' & [= _ Ha1 Ha2 _] & [= _ Ha3 Ha4 _] & Hgg) _.
        destruct (left_of_order o g (lb_order o Hlab) Hg) as (? & ? & ?), (left_of_order o g' (lb_order o Hlab) Hg') as (? & ? & ?).
        destruct (label_make a (rfam o) (fst g) (snd g)) as (_ & _ & -> & ->); [done|done|done|intros v Hv; apply (lb_read o Hlab); lia|].
        destruct (label_make a' (rfam o) (fst g') (snd g')) as (_ & _ & -> & ->); [done|done|done|intros v Hv; apply (lb_read o Hlab); lia|]. done.
  - intros r Hr. split; [|by apply Hpart]. by destruct (Hnew r Hr) as (g & _ & _ & ? & _).
  - intros v Hv Hn. destruct (proj2 (left_of_spec o v)) as (g & Hg & Hgv); [done|].
    destruct (new_rows_elem (next_range db) s l (rg_type o) (bigToAddress (fst g) (rfam o)) (bigToAddress (snd g) (rfam o)) (rg_description o)) as (r & Hr & _ & Ha & Hb & _).
    { apply list_elem_of_In, in_map_iff. exists g. split; [done|]. by apply list_elem_of_In. }
    exists r. split; [done|]. destruct (left_of_order o g (lb_order o Hlab) Hg) as (? & ? & ?).
    destruct (label_make r (rfam o) (fst g) (snd g)) as (_ & K1 & K2 & K3); [done|done|done|intros w Hw; apply (lb_read o Hlab); lia|].
    split; [done|]. rewrite K2, K3. done.
Qed.

(** What the writes of this section leave alone. *)
Definition same_tables (db db' : RangeDb) : Prop :=
  range_types db' = range_types db /\ range_events db' = range_events db /\ next_range db <= next_range db'.

Lemma custom_same db db' r : same_tables db db' -> is_custom db' r = is_custom db r.
Proof. intros (H & _). by apply is_custom_types. Qed.

(** Splitting every overlapping row: the labels outside the selections stay,
    those inside go. *)
Lemma split_all os db :
  labels_ok db -> NoDup os -> (forall o, o ∈ os -> o ∈ ranges db /\ is_custom db o = true /\ rg_subnet o = s /\ rfam o = f) ->
  exists db', fold_result (split_row s sels) os db = Ok db' /\ labels_ok db' /\ same_tables db db' /\
    (forall r, r ∈ ranges db -> r ∉ os -> r ∈ ranges db') /\
    (forall r, r ∈ ranges db' -> (r ∈ ranges db /\ r ∉ os) \/
       (is_custom db r = true /\ rg_subnet r = s /\ rfam r = f /\ next_range db <= rg_id r /\ forall v, rlow r <= v <= rhigh r -> ~ selected f v)) /\
    (forall k t d g v, labelled db' k t d g v <->
       exists r, r ∈ ranges db /\ is_custom db r = true /\ rg_subnet r = k /\ rg_type r = t /\ rg_description r = d /\ at_row r g v /\
         (r ∈ os -> ~ selected f v)).
Proof.
  revert db. induction os as [|o os IH]; intros db Hdb Hn Hos.
  - exists db. split; [done|]. split; [done|]. split; [split_and!; (done || lia)|]. split; [done|]. split; [intros r Hr; left; by split; [|apply not_elem_of_nil]|].
    intros k t d g v. unfold labelled. split.
    + intros (r & Hr & H1 & H2 & H3 & H4 & H5). exists r. split_and!; try done. by intros ?%elem_of_nil.
    + intros (r & Hr & H1 & H2 & H3 & H4 & H5 & _). exists r. by split_and!.
  - apply NoDup_cons in Hn as [Hno Hn]. destruct (Hos o ltac:(by left)) as (Ho & Hoc & Hosub & Hof).
    destruct (split_step db o Hdb Ho Hoc Hosub) as (db1 & new & Hrun & Hdb1 & Ht & He & Hnext & Hin & Hnew & Hleft).
    assert (same_tables db db1) as Hst by (by split_and!).
    assert (forall r, r ∈ os -> r <> o) as Hneq by (by intros r Hr ->).
    destruct (IH db1 Hdb1 Hn) as (db' & Hrun' & Hdb' & (Ht' & He' & Hnext') & Hkeep & Hrows & Hlab).
    { intros r Hr. destruct (Hos r ltac:(by right)) as (H1 & H2 & H3 & H4). split; [apply Hin; left; split; [done|by apply Hneq]|].
      split; [by rewrite (custom_same db db1)|done]. }
    exists db'. cbn [fold_result]. rewrite Hrun. split; [done|]. split; [done|]. split; [split_and!; (congruence || lia)|].
    assert (forall r, r ∈ new -> r ∉ ranges db) as Hfresh.
    { intros r Hr Hx. destruct (Hnew r Hr) as [Hid _]. pose proof (db_next db (lo_db db Hdb) r Hx). lia. }
    split; [|split].
    + intros r Hr [Hro Hros]%not_elem_of_cons. apply Hkeep; [|done]. apply Hin. by left.
    + intros r [[Hr Hros]|(H1 & H2 & H3 & H4 & H5)]%Hrows.
      * apply Hin in Hr as [[Hr Hro]|Hr]; [left; split; [done|by apply not_elem_of_cons]|right].
        destruct (Hnew r Hr) as [Hid (P1 & P2 & P3 & P4 & P5 & P6 & P7 & P8)]. split; [unfold is_custom in *; by rewrite P2|].
        split; [done|]. split; [congruence|]. by split.
      * right. rewrite (custom_same db db1) in H1 by done. split_and!; try done. lia.
    + intros k t d g v. rewrite Hlab. split.
      * intros (r & Hr & H1 & H2 & H3 & H4 & H5 & H6). rewrite (custom_same db db1) in H1 by done. apply Hin in Hr as [[Hr Hro]|Hr].
        -- exists r. split_and!; try done. intros [->|Hx]%elem_of_cons; [done|by apply H6].
        -- destruct (Hnew r Hr) as [_ (P1 & P2 & P3 & P4 & P5 & P6 & P7 & P8)]. destruct H5 as [Hf Hv]. exists o. split; [done|]. split; [done|].
           split; [congruence|]. split; [congruence|]. split; [congruence|]. split; [split; [congruence|lia]|]. intros _. by apply P8.
      * intros (r & Hr & H1 & H2 & H3 & H4 & H5 & H6). destruct (decide (r = o)) as [->|Hro].
        -- destruct H5 as [Hf Hv]. destruct (Hleft v Hv (H6 ltac:(by left))) as (x & Hx & Hxv). destruct (Hnew x Hx) as [_ (P1 & P2 & P3 & P4 & P5 & _)].
           exists x. rewrite (custom_same db db1) by done. split; [apply Hin; by right|]. split; [unfold is_custom in *; by rewrite P2|].
           split; [congruence|]. split; [congruence|]. split; [congruence|]. split; [by rewrite <- Hf|]. intros Hxo. exfalso.
           destruct (Hos x ltac:(by right)) as (Hxr & _). by apply (Hfresh x).
        -- exists r. rewrite (custom_same db db1) by done. split; [apply Hin; by left|]. split_and!; try done. intros Hx. apply H6. by right.
Qed.
End Splitting.

(** ** Lemmas: overlapping rows *)

Lemma filter_result_ok {A} (f : A -> result cidr_error bool) (g : A -> bool) l :
  (forall a, a ∈ l -> f a = Ok (g a)) -> filter_result f l = Ok (List.filter g l).
Proof.
  intros H. induction l as [|a l IH]; [done|]. cbn [filter_result List.filter]. rewrite (H a) by (by left). rewrite IH by (intros; apply H; by right). done.
Qed.

Definition meets (sels : list Selection) (r : RangeRow) : bool :=
  existsb (fun x => (sl_family x =? rfam r) && (sl_start x <=? rhigh r) && (rlow r <=? sl_end x)) sels.

Lemma row_meets_ok sels r : label_ok r -> row_meets sels r = Ok (meets sels r).
Proof. intros (b & c & Ha & Hb)%label_addresses. unfold row_meets. by rewrite Ha, Hb. Qed.

Lemma meets_spec sels r : meets sels r = true <-> exists x, x ∈ sels /\ sl_family x = rfam r /\ sl_start x <= rhigh r /\ rlow r <= sl_end x.
Proof.
  unfold meets. rewrite existsb_exists. setoid_rewrite <- list_elem_of_In. split.
  - intros (x & Hx & Hb). rewrite !andb_true_iff, Z.eqb_eq, !Z.leb_le in Hb. exists x. naive_solver.
  - intros (x & Hx & H1 & H2 & H3). exists x. rewrite !andb_true_iff, Z.eqb_eq, !Z.leb_le. done.
Qed.

(** A row no selection meets has none of the selected addresses. *)
Lemma unmet_clear sels r v : meets sels r = false -> at_row r (rfam r) v -> ~ selected sels (rfam r) v.
Proof.
  intros Hm [_ Hv] (x & Hx & Hf & Hxv). assert (meets sels r = true); [|congruence]. apply meets_spec. exists x. split; [done|]. split; [done|]. lia.
Qed.

Lemma nodup_rows db : db_ok db -> NoDup (ranges db).
Proof. intros H. apply (NoDup_fmap_1 rg_id), H. Qed.

Lemma overlaps_spec db s sels excl :
  labels_ok db ->
  exists os, listCustomRangeOverlaps db s sels excl = Ok os /\ NoDup os /\
    forall r, r ∈ os <-> r ∈ ranges db /\ rg_subnet r = s /\ is_custom db r = true /\ excl <> Some (rg_id r) /\ meets sels r = true.
Proof.
  intros Hdb. unfold listCustomRangeOverlaps, by_start_text. set (here := List.filter _ (ranges db)). set (sorted := merge_sort _ here).
  assert (sorted ≡ₚ here) as Hp by apply merge_sort_Permutation.
  assert (forall r, r ∈ sorted <-> r ∈ ranges db /\ rg_subnet r = s /\ is_custom db r = true /\ excl <> Some (rg_id r)) as Hin.
  { intros r. rewrite Hp. unfold here. rewrite list_elem_of_In, List.filter_In, !andb_true_iff, Z.eqb_eq, negb_true_iff, bool_decide_eq_false, <- list_elem_of_In. tauto. }
  exists (List.filter (meets sels) sorted). split; [|split].
  - apply filter_result_ok. intros r (Hr & _ & Hc & _)%Hin. apply row_meets_ok. by apply (lo_rows db Hdb).
  - rewrite <- (map_id (List.filter _ _)). apply (filter_map_nodup (fun r => r)). rewrite map_id, Hp. unfold here. rewrite <- (map_id (List.filter _ _)).
    apply (filter_map_nodup (fun r => r)). rewrite map_id. apply nodup_rows, Hdb.
  - intros r. rewrite list_elem_of_In, List.filter_In, <- list_elem_of_In, Hin. tauto.
Qed.

(** ** Lemmas: the history of a write *)

(** [n] labels the address. *)
Definition bears (db : RangeDb) (s : Z) (n : string) (f v : Z) : Prop :=
  exists r t, r ∈ ranges db /\ find_type db (rg_type r) = Some t /\ rt_system t = false /\ rt_name t = n /\ rg_subnet r = s /\ at_row r f v.

Definition coverage_of (db : RangeDb) (r : RangeRow) : Coverage :=
  mkCoverage (rg_id r) (match find_type db (rg_type r) with Some t => rt_name t | None => "" end) (rfam r) (rlow r) (rhigh r).

Lemma is_custom_type db r : is_custom db r = true <-> exists t, find_type db (rg_type r) = Some t /\ rt_system t = false.
Proof. unfold is_custom. destruct (find_type _ _) as [t|]; [rewrite negb_true_iff|]; naive_solver. Qed.

Lemma coverage_spec db s :
  labels_ok db -> exists l, customCoverage db s = Ok l /\ Forall span_ok l /\ forall n f v, covered_by l n f v <-> bears db s n f v.
Proof.
  intros Hdb. set (here := List.filter (fun r => (rg_subnet r =? s) && is_custom db r) (ranges db)).
  assert (forall r, r ∈ here <-> r ∈ ranges db /\ rg_subnet r = s /\ is_custom db r = true) as Hin.
  { intros r. unfold here. rewrite list_elem_of_In, List.filter_In, andb_true_iff, Z.eqb_eq, <- list_elem_of_In. tauto. }
  exists (map (coverage_of db) here). split; [|split].
  - apply map_result_ok, Forall_forall. intros r (Hr & _ & Hc)%Hin. destruct (label_addresses r) as (b & c & Ha & Hb); [by apply (lo_rows db Hdb)|].
    unfold coverage_row. by rewrite Ha, Hb.
  - apply Forall_forall. intros c (r & <- & Hr)%list_elem_of_In%in_map_iff. apply list_elem_of_In in Hr. apply Hin in Hr as (Hr & _ & Hc).
    apply (lo_rows db Hdb) in Hc as []; [|done]. by split.
  - intros n f v. unfold covered_by, covers_at, bears, at_row. split.
    + intros (c & (r & <- & Hr)%list_elem_of_In%in_map_iff & Hn & Hf & Hv). apply list_elem_of_In in Hr. apply Hin in Hr as (Hr & Hs & Hc).
      apply is_custom_type in Hc as (t & Ht & Hsys). cbn in *. rewrite Ht in Hn. by exists r, t.
    + intros (r & t & Hr & Ht & Hsys & <- & Hs & Hf & Hv). exists (coverage_of db r). cbn. rewrite Ht. split; [|done].
      apply list_elem_of_In, in_map_iff. exists r. split; [done|]. apply list_elem_of_In, Hin. split; [done|]. split; [done|]. apply is_custom_type. eauto.
Qed.

(** The label and the history of an address agree: the newest event about a
    type tells whether the address has it. *)
Definition newest (l : list RangeEvent) : option RangeChange :=
  match List.rev l with [] => None | e :: _ => Some (ev_change e) end.

Definition history_ok (db : RangeDb) : Prop :=
  forall s n f v key, readable f v -> sortKey (bigToAddress v f) = Some key ->
    newest (List.filter (about s n key) (range_events db)) = Some range_assigned <-> bears db s n f v.

Lemma newest_app l k : newest (l ++ k) = match newest k with Some c => Some c | None => newest l end.
Proof. unfold newest. rewrite rev_app_distr. by destruct (List.rev k). Qed.

Lemma newest_kind l : match newest l with Some c => exists e, e ∈ l /\ ev_change e = c | None => l = [] end.
Proof.
  unfold newest. destruct (List.rev l) as [|e k] eqn:Hl; [by apply (f_equal (@List.rev _)) in Hl; rewrite rev_involutive in Hl|].
  exists e. split; [|done]. rewrite list_elem_of_In. apply in_rev. rewrite Hl. by left.
Qed.

(** The rows of the other networks stay. *)
Definition elsewhere (s : Z) (db db' : RangeDb) : Prop := forall r, rg_subnet r <> s -> r ∈ ranges db' <-> r ∈ ranges db.

(** A write to the labels of the network [s], with the events it records. *)
Record tracked (s : Z) (db db' : RangeDb) : Prop := {
  tk_labels : labels_ok db';
  tk_types : range_types db' = range_types db;
  tk_elsewhere : elsewhere s db db';
  tk_events : exists new, range_events db' = range_events db ++ new /\ (forall e, e ∈ new -> ev_subnet e = s) /\
    forall n f v key, readable f v -> sortKey (bigToAddress v f) = Some key ->
      let here := List.filter (about s n key) new in
      (forall e, e ∈ here -> ev_change e = range_unassigned -> bears db s n f v /\ ~ bears db' s n f v) /\
      (forall e, e ∈ here -> ev_change e = range_assigned -> bears db' s n f v /\ ~ bears db s n f v) /\
      (here = [] <-> (bears db s n f v <-> bears db' s n f v)) }.

Lemma labels_ok_rows db db' : ranges db' = ranges db -> next_range db' = next_range db -> range_types db' = range_types db -> labels_ok db -> labels_ok db'.
Proof.
  intros Hr Hn Ht [[Hi Hx] Hl Hc]. split; [split| |]; rewrite ?Hr, ?Hn; [done|done| |].
  - intros r H1 H2. rewrite (is_custom_types db) in H2 by done. by apply Hl.
  - intros r r' H1 H2 H3 H4. rewrite (is_custom_types db) in H3, H4 by done. by apply Hc.
Qed.

Lemma bears_rows db db' : ranges db' = ranges db -> range_types db' = range_types db -> forall s n f v, bears db' s n f v <-> bears db s n f v.
Proof. intros Hr Ht s n f v. unfold bears, find_type. by rewrite Hr, Ht. Qed.

Lemma history_write {A} (w : RangeDb -> result cidr_error (RangeDb * A)) db s db1 a :
  labels_ok db -> w db = Ok (db1, a) -> labels_ok db1 -> same_tables db db1 -> elsewhere s db db1 ->
  exists db', withRangeHistory db s w = Ok (db', a) /\ ranges db' = ranges db1 /\ tracked s db db'.
Proof.
  intros Hdb Hw Hdb1 (Ht & He & _) Helse. unfold withRangeHistory. destruct (coverage_spec db s Hdb) as (before & -> & Hb & Hbb). cbn [mbind result_bind].
  rewrite Hw. cbn [mbind result_bind fst snd]. destruct (coverage_spec db1 s Hdb1) as (after & -> & Ha & Hab). cbn [mbind result_bind].
  destruct (recorded_kind db1 s before after Hb Ha) as (new & -> & Hs & Hnew). set (db' := mkRangeDb _ _ _ _). exists db'. split; [done|]. split; [done|].
  assert (forall n f v, bears db' s n f v <-> covered_by after n f v) as Hb' by (intros n f v; by rewrite (bears_rows db1 db') by done).
  split; [by apply (labels_ok_rows db1)|by unfold db'|exact Helse|]. exists new. split; [unfold db'; cbn; by rewrite He|]. split; [done|].
  intros n f v key Hv Hkey here. destruct (Hnew n f v key Hv Hkey) as (H1 & H2 & H3).
  split; [intros e Hin Hc|split; [intros e Hin Hc|]]; rewrite Hb', <- Hbb; [by apply (H1 e)|by apply (H2 e)|done].
Qed.

Lemma tracked_history s db db' : tracked s db db' -> history_ok db -> history_ok db'.
Proof.
  intros [Hdb' Ht Helse (new & He & Hs & Hnew)] Hh k n f v key Hv Hkey. rewrite He, List.filter_app, newest_app. specialize (Hh k n f v key Hv Hkey).
  destruct (decide (k = s)) as [->|Hk].
  - destruct (Hnew n f v key Hv Hkey) as (H1 & H2 & H3). pose proof (newest_kind (List.filter (about s n key) new)) as Hl.
    destruct (newest (List.filter (about s n key) new)) as [[]|]; [| |by rewrite Hh; apply H3].
    + destruct Hl as (e & Hin & Hc). by destruct (H2 e Hin Hc).
    + destruct Hl as (e & Hin & Hc). split; [done|]. intros Hb. by destruct (H1 e Hin Hc).
  - assert (List.filter (about k n key) new = []) as ->.
    { destruct (List.filter _ new) as [|e l] eqn:Hl; [done|]. assert (e ∈ List.filter (about k n key) new) as Hin by (rewrite Hl; by left).
      apply list_elem_of_In, List.filter_In in Hin as [Hin Hab]. apply list_elem_of_In, Hs in Hin. unfold about in Hab. rewrite !andb_true_iff, Z.eqb_eq in Hab. naive_solver. }
    cbn. rewrite Hh. unfold bears, find_type. rewrite Ht. split; intros (r & t & Hr & H2 & H3 & H4 & H5 & H6); exists r, t; (split; [|done]); apply Helse; congruence.
Qed.

(** ** Lemmas: assigning a label *)

(** Selections a write can be given: runs of readable addresses of one
    family that do not meet. *)
Record sels_ok (f : Z) (sels : list Selection) : Prop := {
  so_runs : forall x, x ∈ sels -> sl_family x = f /\ sl_start x <= sl_end x;
  so_read : forall x v, x ∈ sels -> sl_start x <= v <= sl_end x -> readable f v;
  so_apart : ForallOrdPairs (fun x y => spans_apart (sl_start x, sl_end x) (sl_start y, sl_end y)) sels }.

Definition custom_type (db : RangeDb) (t : Z) : Prop := exists ty, find_type db t = Some ty /\ rt_system ty = false.

Lemma custom_of_type db r : custom_type db (rg_type r) <-> is_custom db r = true.
Proof. by rewrite is_custom_type. Qed.

(** Rows written from numbers over addresses without a label. *)
Lemma insert_labels {B} db s (t f lo hi : B -> Z) (d : B -> option string) (l : list B) :
  labels_ok db -> (forall x, x ∈ l -> custom_type db (t x)) ->
  (forall x, x ∈ l -> lo x <= hi x /\ forall v, lo x <= v <= hi x -> readable (f x) v) ->
  ForallOrdPairs (fun x y => f x = f y -> spans_apart (lo x, hi x) (lo y, hi y)) l ->
  (forall r x v, r ∈ ranges db -> is_custom db r = true -> rg_subnet r = s -> x ∈ l -> at_row r (f x) v -> ~ lo x <= v <= hi x) ->
  let db' := fold_left (fun db x => insertRange db s (t x) (bigToAddress (lo x) (f x)) (bigToAddress (hi x) (f x)) (d x)) l db in
  labels_ok db' /\ same_tables db db' /\
  exists new : list RangeRow, (forall r, r ∈ ranges db' <-> r ∈ ranges db \/ r ∈ new) /\
    (forall r, r ∈ new -> rg_subnet r = s /\ exists x, x ∈ l /\ rg_type r = t x /\ rg_description r = d x /\ rfam r = f x /\ rlow r = lo x /\ rhigh r = hi x) /\
    (forall x, x ∈ l -> exists r, r ∈ new /\ rg_subnet r = s /\ rg_type r = t x /\ rg_description r = d x /\ rfam r = f x /\ rlow r = lo x /\ rhigh r = hi x).
Proof.
  intros Hdb Ht Hruns Hapart Hclear db'. set (spec := fun x => (t x, bigToAddress (lo x) (f x), bigToAddress (hi x) (f x), d x) : NewRange).
  assert (db' = mkRangeDb (ranges db ++ new_rows (next_range db) s (map spec l)) (next_range db + Z.of_nat (length l)) (range_types db) (range_events db)) as Hrun.
  { apply (insert_all s t (fun x => bigToAddress (lo x) (f x)) (fun x => bigToAddress (hi x) (f x)) d). }
  set (new := new_rows (next_range db) s (map spec l)) in *.
  assert (forall r x, x ∈ l -> row_spec r = spec x -> label_ok r /\ rg_type r = t x /\ rg_description r = d x /\ rfam r = f x /\ rlow r = lo x /\ rhigh r = hi x) as Hspec.
  { intros r x Hx [= ? Ha Hb ?]. destruct (Hruns x Hx) as [Ho Hread]. destruct (label_make r (f x) (lo x) (hi x)) as (? & ? & ? & ?); [done|done|done|done|]. by split_and!. }
  assert (forall r, r ∈ new -> rg_subnet r = s /\ exists x, x ∈ l /\ row_spec r = spec x) as Hnew.
  { intros r (Hrs & _ & Hl)%elem_of_new_rows. apply list_elem_of_In, in_map_iff in Hl as (x & He & Hx). apply list_elem_of_In in Hx. by split; [|exists x]. }
  destruct (rewritten_db db (fun _ => false) s (map spec l) (lo_db db Hdb)) as [Hok Hin]. rewrite length_map in Hok, Hin.
  assert (forall k : list RangeRow, List.filter (fun r => negb ((fun _ => false) r)) k = k) as Hall by (induction k as [|x k IH]; [done|exact (f_equal (cons x) IH)]).
  rewrite Hall in Hok, Hin. fold new in Hok, Hin. rewrite <- Hrun in Hok, Hin.
  assert (forall r, r ∈ ranges db' <-> r ∈ ranges db \/ r ∈ new) as Hin' by (intros r; rewrite Hin; naive_solver).
  assert (same_tables db db') as Hst by (rewrite Hrun; split_and!; cbn; [done|done|lia]).
  split; [split; [done| |]|split; [done|exists new; split; [done|split]]].
  - intros r [Hr|Hr]%Hin' Hc; [rewrite (custom_same db db') in Hc by done; by apply (lo_rows db Hdb)|]. apply Hnew in Hr as (_ & x & Hx & He). by eapply Hspec.
  - assert (forall x y, x ∈ ranges db -> is_custom db x = true -> y ∈ new -> rg_subnet x = rg_subnet y -> clear_of x y) as Hmix.
    { intros x y Hx Hxc (Hys & z & Hz & He)%Hnew Hxy Hf. destruct (Hspec y z Hz He) as (Hyl & _ & _ & Hyf & Hzl & Hzh). pose proof (lb_order x (lo_rows db Hdb x Hx Hxc)). pose proof (lb_order y Hyl).
      unfold spans_apart. cbn. destruct (Z.lt_ge_cases (rhigh x) (rlow y)); [by left|right]. apply Z.nle_gt. intros Hle.
      apply (Hclear x z (Z.max (rlow x) (rlow y)) Hx Hxc); [congruence|done|split; [congruence|lia]|lia]. }
    intros r r' Hr Hr' Hc Hc' Hsub Hne. rewrite !(custom_same db db') in Hc, Hc' by done. apply Hin' in Hr as [Hr|Hr]; apply Hin' in Hr' as [Hr'|Hr'].
    + by apply (lo_clear db Hdb).
    + by apply Hmix.
    + apply clear_sym. by apply Hmix.
    + apply (pairs_elem clear_of new); [|apply clear_sym|done|done|done].
      apply (new_rows_pairs _ spec l (next_range db) s) in Hapart; [|done]. eapply pairs_impl; [|exact Hapart].
      intros a b (x & y & Hx & Hy & Ha & Hb & Hxy). destruct (Hspec a x Hx Ha) as (_ & _ & _ & Haf & Hal & Hah), (Hspec b y Hy Hb) as (_ & _ & _ & Hbf & Hbl & Hbh).
      unfold clear_of. by rewrite Haf, Hal, Hah, Hbf, Hbl, Hbh.
  - intros r (Hrs & x & Hx & He)%Hnew. split; [done|]. exists x. split; [done|]. by destruct (Hspec r x Hx He) as (_ & ?).
  - intros x Hx. destruct (new_rows_elem (next_range db) s (map spec l) (t x) (bigToAddress (lo x) (f x)) (bigToAddress (hi x) (f x)) (d x)) as (r & Hr & H1 & H2 & H3 & H4).
    { apply list_elem_of_In, in_map_iff. exists x. split; [done|]. by apply list_elem_of_In. }
    exists r. split; [done|]. split; [by apply Hnew in Hr as [? _]|]. destruct (Hspec r x Hx) as (_ & ?); [|done]. unfold row_spec, spec. congruence.
Qed.

Lemma label_all db s t d f sels :
  labels_ok db -> sels_ok f sels -> custom_type db t ->
  (forall r v, r ∈ ranges db -> is_custom db r = true -> rg_subnet r = s -> rfam r = f -> rlow r <= v <= rhigh r -> ~ selected sels f v) ->
  let db' := fold_left (label_selection s t d) sels db in
  labels_ok db' /\ same_tables db db' /\
  exists new : list RangeRow, (forall r, r ∈ ranges db' <-> r ∈ ranges db \/ r ∈ new) /\
    (forall r, r ∈ new -> rg_subnet r = s /\ rg_type r = t /\ rg_description r = or_null d /\ rfam r = f /\
       exists x, x ∈ sels /\ rlow r = sl_start x /\ rhigh r = sl_end x) /\
    (forall x, x ∈ sels -> exists r, r ∈ new /\ rlow r = sl_start x /\ rhigh r = sl_end x).
Proof.
  intros Hdb [Hruns Hread Hapart] Ht Hclear. destruct (insert_labels db s (fun _ => t) sl_family sl_start sl_end (fun _ => or_null d) sels) as (H1 & H2 & new & H3 & H4 & H5); [done|done| | | |].
  - intros x Hx. destruct (Hruns x Hx) as [-> Ho]. split; [done|]. intros v. by apply Hread.
  - eapply pairs_impl; [|exact Hapart]. done.
  - intros r x v Hr Hc Hs Hx [Hf Hv] Hxv. destruct (Hruns x Hx) as [Hxf _]. apply (Hclear r v); [done|done|done|congruence|done|]. by exists x.
  - split; [done|]. split; [done|]. exists new. split; [done|]. split.
    + intros r (? & x & Hx & ? & ? & Hf & ? & ?)%H4. destruct (Hruns x Hx) as [Hxf _]. split_and!; try done; [congruence|]. by exists x.
    + intros x (r & ? & _ & _ & _ & _ & ? & ?)%H5. by exists r.
Qed.

Lemma labels_sub db db' :
  labels_ok db -> db_ok db' -> range_types db' = range_types db -> (forall r, r ∈ ranges db' -> r ∈ ranges db) -> labels_ok db'.
Proof.
  intros [_ Hl Hc] Hok Ht Hsub. split; [done| |].
  - intros r Hr Hcr. rewrite (is_custom_types db) in Hcr by done. apply Hl; [by apply Hsub|done].
  - intros r r' Hr Hr' Hcr Hcr'. rewrite (is_custom_types db) in Hcr, Hcr' by done. apply Hc; (done || by apply Hsub).
Qed.

Lemma delete_labels p db :
  labels_ok db -> labels_ok (delete_where p db) /\ same_tables db (delete_where p db) /\ forall r, r ∈ ranges (delete_where p db) <-> r ∈ ranges db /\ p r = false.
Proof.
  intros Hdb. assert (forall r, r ∈ ranges (delete_where p db) <-> r ∈ ranges db /\ p r = false) as Hin.
  { intros r. cbn. by rewrite !list_elem_of_In, List.filter_In, negb_true_iff. }
  split; [|split; [split_and!; cbn; (done || lia)|done]]. apply (labels_sub db); [done| |done|by intros r [? _]%Hin].
  split; [apply filter_map_nodup, (lo_db db Hdb)|]. intros r [Hr _]%Hin. by apply (db_next db (lo_db db Hdb)).
Qed.

(** The row [PUT /ranges/:id] replaces. *)
Definition replaced (s : Z) (excl : option Z) (r : RangeRow) : bool := bool_decide (excl = Some (rg_id r)) && (rg_subnet r =? s).

Lemma replaced_spec s excl r : replaced s excl r = false <-> ~ (excl = Some (rg_id r) /\ rg_subnet r = s).
Proof. unfold replaced. rewrite andb_false_iff, bool_decide_eq_false, Z.eqb_neq. destruct (decide (excl = Some (rg_id r))); tauto. Qed.

Lemma exclude_rows db s excl :
  labels_ok db ->
  let db0 := match excl with Some id => delete_where (fun r => (rg_id r =? id) && (rg_subnet r =? s)) db | None => db end in
  labels_ok db0 /\ same_tables db db0 /\ forall r, r ∈ ranges db0 <-> r ∈ ranges db /\ replaced s excl r = false.
Proof.
  intros Hdb. unfold replaced. destruct excl as [id|]; [|by (split; [done|]; split; [split_and!; (done || lia)|]; intros r; rewrite bool_decide_eq_false_2 by done; tauto)].
  destruct (delete_labels (fun r => (rg_id r =? id) && (rg_subnet r =? s)) db Hdb) as (H1 & H2 & H3). split; [done|]. split; [done|]. intros r. rewrite H3.
  destruct (Z.eqb_spec (rg_id r) id) as [->|Hne]; [by rewrite bool_decide_eq_true_2|rewrite bool_decide_eq_false_2 by congruence; tauto].
Qed.

Lemma tables_trans a b c : same_tables a b -> same_tables b c -> same_tables a c.
Proof. intros (? & ? & ?) (? & ? & ?). split_and!; (congruence || lia). Qed.

(** After the splits: no label is left on the selected addresses, the others
    are as they were. *)
Lemma clear_write db s sels excl f :
  labels_ok db -> sels_ok f sels ->
  exists (os : list RangeRow) (db1 : RangeDb),
    (overlaps ← listCustomRangeOverlaps db s sels excl;
     db1 ← fold_result (split_row s sels) overlaps (match excl with Some id => delete_where (fun r => (rg_id r =? id) && (rg_subnet r =? s)) db | None => db end);
     mret (db1, overlaps)) = Ok (db1, os) /\
    labels_ok db1 /\ same_tables db db1 /\
    (forall r, rg_subnet r <> s \/ is_custom db r = false -> r ∈ ranges db1 <-> r ∈ ranges db /\ replaced s excl r = false) /\
    (forall k t e g v, labelled db1 k t e g v <-> ~ (k = s /\ selected sels g v) /\
       exists r, r ∈ ranges db /\ replaced s excl r = false /\ is_custom db r = true /\ rg_subnet r = k /\ rg_type r = t /\ rg_description r = e /\ at_row r g v).
Proof.
  intros Hdb Hsels. destruct (overlaps_spec db s sels excl Hdb) as (os & -> & Hnd & Hos). cbn [mbind result_bind].
  destruct (exclude_rows db s excl Hdb) as (Hdb0 & Hst0 & Hin0). set (db0 := match excl with Some _ => _ | None => _ end) in *. clearbody db0.
  assert (forall r, r ∈ os -> r ∈ ranges db0 /\ is_custom db0 r = true /\ rg_subnet r = s /\ rfam r = f) as Hos0.
  { intros r (Hr & Hs & Hc & He & Hm)%Hos. rewrite (custom_same db db0) by done. split; [apply Hin0; split; [done|apply replaced_spec; tauto]|]. split; [done|]. split; [done|].
    apply meets_spec in Hm as (x & Hx & <- & _). by apply (so_runs f sels Hsels). }
  destruct (split_all s f sels (so_runs f sels Hsels) os db0 Hdb0 Hnd Hos0) as (db1 & -> & Hdb1 & Hst1 & Hkeep & Hrows & Hlab). cbn [mbind result_bind].
  assert (forall r g v, r ∈ ranges db0 -> is_custom db0 r = true -> at_row r g v -> (r ∈ os -> ~ selected sels f v) <-> ~ (rg_subnet r = s /\ selected sels g v)) as Hout.
  { intros r g v Hr Hc [<- Hv]. rewrite (custom_same db db0) in Hc by done. apply Hin0 in Hr as [Hr Hnr%replaced_spec]. split.
    - intros Ho [Hs (x & Hx & Hf & Hxv)]. assert (rfam r = f) as Hrf by (rewrite <- Hf; by apply (so_runs f sels Hsels)). apply Ho; [apply Hos|rewrite Hrf in Hf; by exists x].
      split_and!; try done; [tauto|]. apply meets_spec. exists x. split; [done|]. split; [done|]. lia.
    - intros Hn Ho Hsel. destruct (Hos0 r Ho) as (_ & _ & Hs & <-). by apply Hn. }
  exists os, db1. split; [done|]. split; [done|]. split; [by eapply tables_trans|]. split.
  - intros r Hor. rewrite <- Hin0. split.
    + intros [[Hr _]|(Hc & Hs & _)]%Hrows; [done|]. rewrite (custom_same db db0) in Hc by done. destruct Hor; congruence.
    + intros Hr. apply Hkeep; [done|]. intros (_ & Hc & Hs & _)%Hos0. rewrite (custom_same db db0) in Hc by done. destruct Hor; congruence.
  - intros k t e g v. rewrite Hlab. split.
    + intros (r & Hr & Hc & Hs & H3 & H4 & H5 & H6). rewrite Hout in H6 by done. rewrite Hs in H6. split; [done|]. apply Hin0 in Hr as [Hr Hnr]. rewrite (custom_same db db0) in Hc by done. by exists r.
    + intros (Hn & r & Hr & Hnr & Hc & Hs & H3 & H4 & H5). rewrite <- (custom_same db db0) in Hc by done. assert (r ∈ ranges db0) as Hr0 by by apply Hin0.
      exists r. split_and!; try done. refine (proj2 (Hout r g v Hr0 Hc H5) _). by rewrite Hs.
Qed.

Lemma assign_write db s type sels d excl f :
  labels_ok db -> sels_ok f sels -> (forall t, type = Some t -> custom_type db t) ->
  exists db1 os, assign_rows s type sels d excl db = Ok (db1, os) /\ labels_ok db1 /\ same_tables db db1 /\ elsewhere s db db1 /\
    (forall r, is_custom db r = false -> r ∈ ranges db1 <-> r ∈ ranges db /\ replaced s excl r = false) /\
    (forall k t e g v, labelled db1 k t e g v <->
       (k = s /\ selected sels g v /\ type = Some t /\ e = or_null d) \/
       (~ (k = s /\ selected sels g v) /\ exists r, r ∈ ranges db /\ replaced s excl r = false /\ is_custom db r = true /\
          rg_subnet r = k /\ rg_type r = t /\ rg_description r = e /\ at_row r g v)).
Proof.
  intros Hdb Hsels Ht. destruct (clear_write db s sels excl f Hdb Hsels) as (os & db1 & Hrun & Hdb1 & Hst1 & Hother & Hlab1). unfold assign_rows.
  destruct (listCustomRangeOverlaps db s sels excl) as [os'|]; [|done]. cbn [mbind result_bind] in Hrun |- *. destruct (fold_result _ os' _); [|done]. injection Hrun as -> ->.
  cbn [mbind result_bind]. assert (elsewhere s db db1) as Helse by (intros r Hr; rewrite Hother, replaced_spec by (by left); naive_solver).
  destruct type as [t|]; cbn [mret result_ret].
  2: { exists db1, os. split; [done|]. split; [done|]. split; [done|]. split; [done|]. split; [intros r Hc; apply Hother; by right|].
       intros k t' e g v. rewrite Hlab1. split; [intros ?; by right|by intros [(_ & _ & ? & _)|?]]. }
  assert (custom_type db t) as Htc by by apply Ht. destruct (label_all db1 s t d f sels Hdb1 Hsels) as (Hdb2 & Hst2 & new & Hin2 & Hnew & Hcov).
  { destruct Htc as (ty & Hty & Hsys). exists ty. split; [|done]. destruct Hst1 as (E & _). unfold find_type in *. by rewrite E. }
  { intros r v Hr Hc Hs Hf Hv Hsel. destruct (proj1 (Hlab1 s (rg_type r) (rg_description r) f v)) as [Hn _]; [by exists r|]. by apply Hn. }
  set (db2 := fold_left _ sels db1) in *. exists db2, os. split; [done|]. split; [done|]. split; [by eapply tables_trans|]. split; [|split].
  - intros r Hr. rewrite Hin2, (Helse r Hr). split; [intros [?|(? & _)%Hnew]; done|by left].
  - intros r Hc. rewrite Hin2, Hother by (by right). split; [intros [?|(_ & Hrt & _)%Hnew]; [done|]|by left]. rewrite <- Hrt, custom_of_type in Htc. congruence.
  - intros k t' e g v. rewrite <- Hlab1. unfold labelled. setoid_rewrite Hin2. split.
    + intros (r & [Hr|Hr] & Hc & H2 & H3 & H4 & H5).
      * right. exists r. rewrite (custom_same db1 db2) in Hc by done. done.
      * left. destruct (Hnew r Hr) as (K1 & K2 & K3 & K4 & x & Hx & K5 & K6). destruct H5 as [Hf Hv]. split; [congruence|]. split; [|split; congruence].
        exists x. split; [done|]. destruct (so_runs f sels Hsels x Hx). split; [congruence|lia].
    + intros [(-> & (x & Hx & Hf & Hv) & [= ->] & ->)|(r & Hr & Hc & H2)].
      * destruct (Hcov x Hx) as (r & Hr & K5 & K6). destruct (Hnew r Hr) as (K1 & K2 & K3 & K4 & _). exists r. destruct (so_runs f sels Hsels x Hx).
        split; [by right|]. split; [rewrite (custom_same db db2) by (by eapply tables_trans); by rewrite <- custom_of_type, K2|]. split_and!; try done. split; [congruence|lia].
      * exists r. rewrite (custom_same db1 db2) by done. split; [by left|done].
Qed.

Lemma assign_ok db s type sels d excl f :
  labels_ok db -> sels_ok f sels -> (forall t, type = Some t -> custom_type db t) ->
  exists db' os, assignCustomRangeType db s type sels d excl = Ok (db', os) /\ tracked s db db' /\
    (forall r, is_custom db r = false -> r ∈ ranges db' <-> r ∈ ranges db /\ replaced s excl r = false) /\
    (forall k t e g v, labelled db' k t e g v <->
       (k = s /\ selected sels g v /\ type = Some t /\ e = or_null d) \/
       (~ (k = s /\ selected sels g v) /\ exists r, r ∈ ranges db /\ replaced s excl r = false /\ is_custom db r = true /\
          rg_subnet r = k /\ rg_type r = t /\ rg_description r = e /\ at_row r g v)).
Proof.
  intros Hdb Hsels Ht. destruct (assign_write db s type sels d excl f Hdb Hsels Ht) as (db1 & os & Hrun & Hdb1 & Hst & Helse & Hfun & Hlab).
  destruct (history_write _ db s db1 os Hdb Hrun Hdb1 Hst Helse) as (db' & Hw & Hrows & Htk). exists db', os. split; [done|]. split; [done|].
  rewrite Hrows. split; [done|]. intros k t e g v. rewrite <- Hlab. unfold labelled. rewrite Hrows. destruct Hst as (Ht1 & _). pose proof (tk_types _ _ _ Htk) as Ht2.
  by split; intros (r & Hr & Hc & H); exists r; (split; [done|]; split; [|done]); rewrite <- Hc; apply is_custom_types; congruence.
Qed.

(** ** Lemmas: merged selections *)

Definition gap (x y : Selection) : Prop := sl_end x + 1 < sl_start y.

Lemma merge_selections_spec f p l :
  (forall x, x ∈ p :: l -> sl_family x = f /\ sl_start x <= sl_end x /\ sl_start p <= sl_start x) -> StronglySorted (fun x y => sl_start x <= sl_start y) l ->
  let m := merge_selections p l in
  (forall x, x ∈ m -> sl_family x = f /\ sl_start x <= sl_end x /\ sl_start p <= sl_start x) /\ ForallOrdPairs gap m /\
  (forall v, selected m f v <-> selected (p :: l) f v).
Proof.
  intros Hl Hs. revert p Hl. induction Hs as [|y l Hs IH Hy]; intros p Hl; cbn [merge_selections]; [split; [done|]; split; [repeat constructor|done]|].
  destruct (Hl p ltac:(by left)) as (Hpf & Hpo & _). destruct (Hl y ltac:(right; by left)) as (Hyf & Hyo & Hpy). rewrite Forall_forall in Hy.
  destruct (Z.leb_spec (sl_start y) (sl_end p + 1)) as [Ht|Ht].
  - destruct (IH (mkSelection (sl_family p) (sl_start p) (Z.max (sl_end p) (sl_end y)))) as (H1 & H2 & H3).
    { intros x [->|Hx]%elem_of_cons; [cbn; split; [done|lia]|]. apply Hl. right. by right. }
    split; [done|]. split; [done|]. intros v. rewrite H3. split.
    + intros (x & [->|Hx]%elem_of_cons & Hxf & Hv); [|exists x; split; [right; by right|done]]. cbn in Hv.
      destruct (Z.le_gt_cases v (sl_end p)); [exists p; split; [by left|]|exists y; split; [right; by left|]]; (split; [done|lia]).
    + intros (x & [->|[->|Hx]%elem_of_cons]%elem_of_cons & Hxf & Hv); [| |exists x; split; [by right|done]]; eexists; (split; [by left|]; split; [done|cbn; lia]).
  - destruct (IH y) as (H1 & H2 & H3).
    { intros x [->|Hx]%elem_of_cons; [split; [done|lia]|]. destruct (Hl x ltac:(right; by right)) as (? & ? & _). split_and!; [done|done|by apply Hy]. }
    split; [|split].
    + intros x [->|Hx]%elem_of_cons; [split; [done|lia]|]. destruct (H1 x Hx) as (? & ? & ?). split_and!; [done|done|lia].
    + constructor; [|done]. apply Forall_forall. intros x Hx. destruct (H1 x Hx) as (_ & _ & ?). unfold gap. lia.
    + intros v. unfold selected in *. split; intros (x & [->|Hx]%elem_of_cons & Hv); try (exists p; split; [by left|done]).
      * destruct (proj1 (H3 v)) as (z & Hz & ?); [by exists x|]. exists z. split; [by right|done].
      * destruct (proj2 (H3 v)) as (z & Hz & ?); [by exists x|]. exists z. split; [by right|done].
Qed.

(** The selections of a multi-select and their merged form cover the same
    addresses; merged ones neither overlap nor touch. *)
Lemma merged_spec f l :
  (forall x, x ∈ l -> sl_family x = f /\ sl_start x <= sl_end x) ->
  (forall x, x ∈ mergedSelections l -> sl_family x = f /\ sl_start x <= sl_end x) /\ ForallOrdPairs gap (mergedSelections l) /\
  (forall g v, selected (mergedSelections l) g v <-> selected l g v).
Proof.
  intros Hl. unfold mergedSelections. assert (forall x, x ∈ sort_selections l <-> x ∈ l) as Hin by (intros x; unfold sort_selections; by rewrite !elem_of_sort_by).
  assert (StronglySorted (fun x y => sl_start x <= sl_start y) (sort_selections l)) as Hs by apply sort_by_sorted.
  assert (forall (k : list Selection) g v, (forall x, x ∈ k -> sl_family x = f) -> selected k g v <-> g = f /\ selected k f v) as Hfam.
  { intros k g v Hk. unfold selected. split; [intros (x & Hx & <- & Hv); rewrite (Hk x Hx); split; [done|exists x; by rewrite (Hk x Hx)]|by intros [-> ?]]. }
  destruct (sort_selections l) as [|p k]; [split; [by intros x ?%elem_of_nil|]; split; [constructor|]; intros g v; unfold selected; by setoid_rewrite Hin|].
  inversion Hs as [|? ? Hk Hp]; subst. rewrite Forall_forall in Hp. destruct (merge_selections_spec f p k) as (H1 & H2 & H3); [|done|].
  { intros x Hx. destruct (Hl x) as [? ?]; [by apply Hin|]. split_and!; [done|done|]. apply elem_of_cons in Hx as [->|Hx]; [lia|by apply Hp]. }
  split; [intros x Hx; by destruct (H1 x Hx) as (? & ? & _)|]. split; [done|]. intros g v. rewrite (Hfam (merge_selections p k)), (Hfam l), H3 by naive_solver.
  unfold selected. by setoid_rewrite Hin.
Qed.

(** ** Lemmas: the routes *)

(** Every network parses and is of one family of addresses, which
    [NetworkTree] proves of its table. *)
Definition world_ok (w : RangeWorld) : Prop :=
  forall id sn, find_subnet (rw_networks w) id = Some sn -> exists n, parseNetwork (sn_cidr sn) = Ok n /\ mapped_free n.

Lemma contains_ok c ip n : parseNetwork c = Ok n -> networkContains c ip = Ok true ->
  exists x, addressToBig ip = Ok x /\ a_family x = family n /\ networkBig n <= a_value x <= lastBig n.
Proof.
  intros Hc. unfold networkContains. rewrite Hc. cbn [mbind result_bind]. destruct (addressToBig ip) as [x|]; [|done]. cbn [mbind result_bind].
  destruct (Z.eqb_spec (a_family x) (family n)) as [He|]; cbn [negb]; [|done]. intros [= H]. rewrite andb_true_iff, !Z.leb_le in H. by exists x.
Qed.

(** A pair of addresses the routes accept. *)
Record accepted (n : Network) (a b : string) (x y : Address) : Prop := {
  ac_start : addressToBig a = Ok x; ac_end : addressToBig b = Ok y;
  ac_family : a_family x = family n /\ a_family y = family n;
  ac_read : forall v, a_value x <= v <= a_value y -> readable (family n) v }.

Lemma both_inside_ok sn a b n :
  parseNetwork (sn_cidr sn) = Ok n -> mapped_free n -> both_inside sn a b = Ok true -> exists x y, accepted n a b x y.
Proof.
  intros Hc Hm. unfold both_inside. destruct (networkContains _ a) as [[]|] eqn:Ha; cbn; [|done|done]. destruct (networkContains _ b) as [[]|] eqn:Hb; cbn; [|done|done]. intros _.
  destruct (contains_ok _ _ _ Hc Ha) as (x & Hx & Hxf & Hxv), (contains_ok _ _ _ Hc Hb) as (y & Hy & Hyf & Hyv). exists x, y. split; [done|done|done|].
  intros v Hv. exists (nbits n). pose proof (parseNetwork_wf _ _ Hc) as Hwf. split; [by apply wf_family|]. apply mapped_free_spellable; [done|done|lia].
Qed.

Lemma both_inside_total sn a b n :
  parseNetwork (sn_cidr sn) = Ok n -> isValidAddress a = true -> isValidAddress b = true -> exists r, both_inside sn a b = Ok r.
Proof.
  intros Hc Ha Hb. assert (forall ip, isValidAddress ip = true -> exists r, networkContains (sn_cidr sn) ip = Ok r) as Htot.
  { intros ip Hv. unfold networkContains. rewrite Hc. cbn [mbind result_bind]. unfold isValidAddress in Hv. unfold addressToBig. destruct (parseIp no_zone ip); [|done]. cbn. by destruct (negb _); eexists. }
  unfold both_inside. destruct (Htot a Ha) as [[] ->]; cbn; [|by eexists]. destruct (Htot b Hb) as [? ->]. by eexists.
Qed.

Lemma canonical_input s c :
  (if isValidAddress s then canonicalizeIp s else None) = Some c -> exists a, addressToBig c = Ok a /\ c = bigToAddress (a_value a) (a_family a).
Proof.
  unfold isValidAddress. destruct (parseIp no_zone s) eqn:Hp; [|done]. intros Hc. assert (exists a, addressToBig s = Ok a) as [a Ha] by (unfold addressToBig; rewrite Hp; eauto).
  destruct (canonical_address s a Ha) as [Hs Hr]. rewrite Hs in Hc. injection Hc as <-. by exists a.
Qed.

Lemma selection_ok n a b x y : accepted n a b x y -> a_value x <= a_value y ->
  selectionFor a b = Ok (mkSelection (family n) (a_value x) (a_value y)) /\ sels_ok (family n) [mkSelection (family n) (a_value x) (a_value y)].
Proof.
  intros [Ha Hb [Hx Hy] Hr] Ho. unfold selectionFor. rewrite Ha, Hb. cbn. rewrite Hx. split; [done|]. split.
  - by intros ? ->%list_elem_of_singleton.
  - intros ? v ->%list_elem_of_singleton. apply Hr.
  - repeat constructor.
Qed.

Lemma selected_one x g v : selected [x] g v <-> sl_family x = g /\ sl_start x <= v <= sl_end x.
Proof. unfold selected. setoid_rewrite list_elem_of_singleton. naive_solver. Qed.

Lemma lift_range_ok {A} (m : result cidr_error A) a : lift_range m = Ok a -> m = Ok a.
Proof. by destruct m; intros [= <-]. Qed.

Lemma answer_if_ok t st m u : answer_if t st m = Ok u -> t = false.
Proof. by destruct t. Qed.

Lemma found_ok {A} (m : option A) st msg a : found m st msg = Ok a -> m = Some a.
Proof. by destruct m; intros [= <-]. Qed.

(** The first statement of a route that has answered with a result. *)
Lemma bind_range_ok {E A B} (m : result E A) (k : A -> result E B) b : (a ← m; k a) = Ok b -> exists a, m = Ok a /\ k a = Ok b.
Proof. destruct m as [a|]; [|done]. by exists a. Qed.

Ltac route H :=
  repeat (apply bind_range_ok in H as (? & ?Hr & H));
  repeat match goal with
  | K : lift_range _ = Ok _ |- _ => apply lift_range_ok in K
  | K : answer_if _ _ _ = Ok _ |- _ => apply answer_if_ok in K
  | K : found _ _ _ = Ok _ |- _ => apply found_ok in K
  end.

(** The rows a new label may not meet. *)
Lemma overlaps_none db s sels excl f :
  labels_ok db -> sels_ok f sels -> listCustomRangeOverlaps db s sels excl = Ok [] ->
  forall r v, r ∈ ranges db -> is_custom db r = true -> rg_subnet r = s -> excl <> Some (rg_id r) -> rfam r = f -> rlow r <= v <= rhigh r -> ~ selected sels f v.
Proof.
  intros Hdb Hs Ho r v Hr Hc Hrs Hne <- Hv Hsel. destruct (overlaps_spec db s sels excl Hdb) as (os & Ho' & _ & Hos). rewrite Ho in Ho'. injection Ho' as <-.
  destruct (meets sels r) eqn:Hm; [|by apply (unmet_clear sels r v)]. assert (r ∈ []) as H%elem_of_nil; [|done]. by apply Hos.
Qed.

Lemma new_row_label db s t a b d x y n :
  accepted n a b x y -> a = bigToAddress (a_value x) (a_family x) -> b = bigToAddress (a_value y) (a_family y) ->
  insertRange db s t a b (or_null d) = fold_left (label_selection s t d) [mkSelection (family n) (a_value x) (a_value y)] db.
Proof. intros [_ _ [Hx Hy] _] -> ->. cbn. unfold label_selection. cbn. by rewrite Hx, Hy. Qed.

Lemma functional_added db s t a b d :
  labels_ok db -> (forall r, rg_type r = t -> is_custom db r = false) ->
  labels_ok (insertRange db s t a b d) /\ same_tables db (insertRange db s t a b d) /\ elsewhere s db (insertRange db s t a b d).
Proof.
  intros Hdb Ht. assert (forall r, r ∈ ranges (insertRange db s t a b d) <-> r ∈ ranges db \/ r = mkRangeRow (next_range db) s t a b d) as Hin.
  { intros r. cbn. by rewrite elem_of_app, list_elem_of_singleton. }
  assert (same_tables db (insertRange db s t a b d)) as Hst by (split_and!; cbn; (done || lia)).
  split; [|split; [done|intros r Hr; rewrite Hin; naive_solver]]. split; [split| |].
  - cbn. rewrite map_app. apply NoDup_app. split; [apply Hdb|]. split; [|repeat constructor; by intros ?%elem_of_nil].
    intros i (r & <- & Hr)%list_elem_of_In%in_map_iff ?%list_elem_of_singleton. apply list_elem_of_In, (db_next db (lo_db db Hdb)) in Hr. cbn in *. lia.
  - intros r [Hr| ->]%Hin; cbn; [pose proof (db_next db (lo_db db Hdb) r Hr)|]; lia.
  - intros r [Hr| ->]%Hin Hc; rewrite (custom_same db) in Hc by done; [by apply (lo_rows db Hdb)|]. by rewrite Ht in Hc.
  - intros r r' [Hr| ->]%Hin [Hr'| ->]%Hin Hc Hc'; rewrite (custom_same db) in Hc, Hc' by done; try (by rewrite Ht in Hc); try (by rewrite Ht in Hc'). by apply (lo_clear db Hdb).
Qed.

Lemma update_labels db range r' :
  labels_ok db -> range ∈ ranges db -> rg_id r' = rg_id range -> rg_subnet r' = rg_subnet range ->
  (is_custom db r' = true -> label_ok r' /\ forall r, r ∈ ranges db -> is_custom db r = true -> rg_subnet r = rg_subnet range -> r <> range -> clear_of r' r) ->
  let db' := with_ranges db (map (fun r => if rg_id r =? rg_id range then r' else r) (ranges db)) in
  labels_ok db' /\ same_tables db db' /\ elsewhere (rg_subnet range) db db'.
Proof.
  intros Hdb Hrange Hid Hsub Hr' db'. assert (same_tables db db') as Hst by (split_and!; cbn; (done || lia)).
  assert (forall r, r ∈ ranges db' <-> (r ∈ ranges db /\ r <> range) \/ r = r') as Hin.
  { intros r. cbn. rewrite list_elem_of_In, in_map_iff. setoid_rewrite <- list_elem_of_In. split.
    - intros (x & <- & Hx). destruct (Z.eqb_spec (rg_id x) (rg_id range)); [by right|left]. split; [done|]. by intros ->.
    - intros [[Hr Hne]| ->]; [exists r; split; [|done]|exists range; by rewrite Z.eqb_refl]. destruct (Z.eqb_spec (rg_id r) (rg_id range)) as [He|]; [|done].
      destruct Hne. apply (range_same_id db); [apply Hdb|done..]. }
  split; [|split; [done|intros r Hr; rewrite Hin; split; [intros [[? _]| ->]; congruence|intros ?; left; split; [done|congruence]]]]. split; [split| |].
  - cbn. rewrite map_map. rewrite (map_ext _ rg_id); [apply Hdb|]. intros x. destruct (Z.eqb_spec (rg_id x) (rg_id range)); congruence.
  - intros r [[Hr _]| ->]%Hin; [by apply (db_next db (lo_db db Hdb))|]. rewrite Hid. by apply (db_next db (lo_db db Hdb)).
  - intros r [[Hr _]| ->]%Hin Hc; rewrite (custom_same db) in Hc by done; [by apply (lo_rows db Hdb)|by apply Hr'].
  - intros r q [[Hr Hrn]| ->]%Hin [[Hq Hqn]| ->]%Hin Hc Hc'; rewrite (custom_same db) in Hc, Hc' by done; intros He Hne; [by apply (lo_clear db Hdb)| | |done].
    + apply clear_sym, Hr'; [done|done|done|congruence|done].
    + apply Hr'; [done|done|done|congruence|done].
Qed.

Lemma in_order n a b x y r : accepted n a b x y -> out_of_order a b = Ok r -> r = false -> a_value x <= a_value y.
Proof. intros [Ha Hb _ _]. unfold out_of_order. rewrite Ha, Hb. cbn. intros [= <-] H%Z.ltb_ge. done. Qed.

Lemma overlapping_custom db s type excl n a b x y rows sel :
  accepted n a b x y -> a_value x <= a_value y -> overlapping_rows db s type excl a b = Ok (rows, sel) -> rt_system type = false ->
  sel = mkSelection (family n) (a_value x) (a_value y) /\ listCustomRangeOverlaps db s [sel] excl = Ok rows.
Proof.
  intros Hac Ho H Hsys. destruct (selection_ok n a b x y Hac Ho) as [Hsel _]. unfold overlapping_rows in H. rewrite Hsel, Hsys in H. cbn [lift_range mbind result_bind] in H.
  apply bind_range_ok in H as (rows' & Hr & [= <- <-]). split; [done|]. by apply lift_range_ok.
Qed.

(** The addresses a request names, once it has been checked. *)
Lemma checked_pair w s sn a b x0 inside reversed :
  world_ok w -> find_subnet (rw_networks w) s = Some sn -> both_inside sn a b = Ok inside -> negb inside = false -> out_of_order a b = Ok reversed -> reversed = false ->
  (if isValidAddress x0 then canonicalizeIp x0 else None) = Some a ->
  exists n x y, accepted n a b x y /\ a_value x <= a_value y /\ a = bigToAddress (a_value x) (a_family x).
Proof.
  intros Hw Hsn Hin Hneg Hrev Hfalse Ha. destruct (Hw _ _ Hsn) as (n & Hn & Hm). apply negb_false_iff in Hneg as ->.
  destruct (both_inside_ok sn a b n Hn Hm Hin) as (x & y & Hac). exists n, x, y. split; [done|]. split; [by eapply in_order|].
  destruct (canonical_input _ _ Ha) as (c & Hc & He). destruct Hac as [Hx _ _ _]. rewrite Hx in Hc. by injection Hc as <-.
Qed.

Lemma canonical_end n a b x y s : accepted n a b x y -> (if isValidAddress s then canonicalizeIp s else None) = Some b -> b = bigToAddress (a_value y) (a_family y).
Proof. intros [_ Hy _ _] (c & Hc & He)%canonical_input. rewrite Hy in Hc. by injection Hc as <-. Qed.

Lemma create_tracked db s t a b d db' i :
  labels_ok db -> createRange db s t a b d = Ok (db', i) ->
  let db1 := insertRange db s t a b (or_null d) in labels_ok db1 -> same_tables db db1 -> elsewhere s db db1 -> tracked s db db'.
Proof.
  intros Hdb Hrun db1 H1 H2 H3.
  destruct (history_write (fun db => mret (insertRange db s t a b (or_null d), next_range db)) db s db1 (next_range db) Hdb eq_refl H1 H2 H3) as (db2 & Hw & _ & Htk).
  change (createRange db s t a b d = Ok (db2, next_range db)) in Hw. rewrite Hrun in Hw. by injection Hw as -> _.
Qed.

Lemma post_tracked w db s b db' : world_ok w -> labels_ok db -> postRange w db s b = Ok db' -> tracked s db db'.
Proof.
  intros Hw Hdb H. unfold postRange in H. apply bind_range_ok in H as (_ & _ & H). apply bind_range_ok in H as (start & Hstart%found_ok & H).
  apply bind_range_ok in H as (stop & Hstop%found_ok & H). apply bind_range_ok in H as (_ & _ & H). apply bind_range_ok in H as (sn & Hsn%found_ok & H). apply bind_range_ok in H as (_ & _ & H).
  apply bind_range_ok in H as (inside & Hin & H). apply bind_range_ok in H as (_ & Hneg%answer_if_ok & H). apply bind_range_ok in H as (rev & Hrev & H).
  apply bind_range_ok in H as (_ & Hfalse%answer_if_ok & H). apply bind_range_ok in H as (type & Htype%found_ok & H). apply bind_range_ok in H as (_ & _ & H).
  apply bind_range_ok in H as ([rows sel] & Hov & H). apply bind_range_ok in H as (_ & _ & H). unfold out_of_order, both_inside in *. cbn [fst snd] in H.
  destruct (checked_pair w s sn start stop (rb_start b) inside rev) as (n & x & y & Hac & Ho & Ha); [done..|]. pose proof (canonical_end _ _ _ _ _ _ Hac Hstop) as Hb.
  destruct (selection_ok n start stop x y Hac Ho) as [_ Hsels]. destruct (rt_system type) eqn:Hsys; cbn [negb andb] in H.
  - apply bind_range_ok in H as ([db1 i] & Hrun%lift_range_ok & [= <-]). destruct (functional_added db s (rb_type b) start stop (or_null (rb_description b)) Hdb) as (H1 & H2 & H3).
    { intros r Hr. unfold is_custom. by rewrite Hr, Htype, Hsys. }
    by eapply create_tracked.
  - destruct (overlapping_custom _ _ _ _ _ _ _ _ _ _ _ Hac Ho Hov Hsys) as [-> Hrows]. assert (custom_type db (rb_type b)) as Hct by by exists type.
    destruct (0 <? length rows)%nat eqn:Hlen.
    + apply bind_range_ok in H as ([db1 os] & Hrun%lift_range_ok & [= <-]).
      destruct (assign_ok db s (Some (rb_type b)) _ (rb_description b) None _ Hdb Hsels) as (db2 & os2 & Hrun2 & Htk & _); [by intros ? [= <-]|]. rewrite Hrun in Hrun2. by injection Hrun2 as <- <-.
    + apply bind_range_ok in H as ([db1 i] & Hrun%lift_range_ok & [= <-]). destruct rows; [|done].
      destruct (label_all db s (rb_type b) (rb_description b) _ _ Hdb Hsels Hct) as (H1 & H2 & new & H3 & H4 & _).
      { intros r v Hr Hc Hrs Hf Hv. eapply (overlaps_none db s _ None (family n)); eauto. }
      rewrite <- (new_row_label db s (rb_type b) start stop (rb_description b) x y n) in H1, H2, H3 by done.
      eapply create_tracked; [done..|]. intros r Hr. rewrite H3. split; [intros [?|(? & _)%H4]; done|by left].
Qed.

(** The addresses of a multi-select. *)
Definition requested (req : list (string * string)) (g v : Z) : Prop :=
  exists a b x y, (a, b) ∈ req /\ addressToBig a = Ok x /\ addressToBig b = Ok y /\ a_family x = g /\ a_value x <= v <= a_value y.

Lemma requested_one sn n a b sel :
  parseNetwork (sn_cidr sn) = Ok n -> mapped_free n -> requested_selection sn (a, b) = Ok sel ->
  exists x y, accepted n a b x y /\ a_value x <= a_value y /\ sel = mkSelection (family n) (a_value x) (a_value y).
Proof.
  intros Hn Hm H. unfold requested_selection in H. cbn [fst snd] in H. apply bind_range_ok in H as (_ & _ & H). apply bind_range_ok in H as (inside & Hin & H).
  apply bind_range_ok in H as (_ & Hneg%answer_if_ok%negb_false_iff & H). subst inside. destruct (both_inside_ok sn a b n Hn Hm Hin) as (x & y & Hac).
  apply bind_range_ok in H as (sel' & Hsel%lift_range_ok & H). apply bind_range_ok in H as (_ & Ho%answer_if_ok & [= <-]). exists x, y. split; [done|].
  destruct Hac as [Ha Hb [Hx _] _]. unfold selectionFor in Hsel. rewrite Ha, Hb in Hsel. injection Hsel as <-. cbn in Ho. apply Z.ltb_ge in Ho. by rewrite Hx.
Qed.

Lemma requested_all sn n req sels :
  parseNetwork (sn_cidr sn) = Ok n -> mapped_free n -> map_result (requested_selection sn) req = Ok sels ->
  (forall x, x ∈ sels -> sl_family x = family n /\ sl_start x <= sl_end x) /\ (forall x v, x ∈ sels -> sl_start x <= v <= sl_end x -> readable (family n) v) /\
  forall g v, selected sels g v <-> requested req g v.
Proof.
  intros Hn Hm H%map_result_inv. split; [|split].
  - intros x (i & Hi)%list_elem_of_lookup. destruct (Forall2_lookup_r _ _ _ _ _ H Hi) as ([a b] & _ & Hr). by destruct (requested_one sn n a b x Hn Hm Hr) as (? & ? & _ & ? & ->).
  - intros x v (i & Hi)%list_elem_of_lookup. destruct (Forall2_lookup_r _ _ _ _ _ H Hi) as ([a b] & _ & Hr). destruct (requested_one sn n a b x Hn Hm Hr) as (? & ? & Hac & ? & ->). apply Hac.
  - intros g v. split.
    + intros (x & (i & Hi)%list_elem_of_lookup & Hf & Hv). destruct (Forall2_lookup_r _ _ _ _ _ H Hi) as ([a b] & Hab & Hr).
      destruct (requested_one sn n a b x Hn Hm Hr) as (y & z & [Ha Hb [Hy _] _] & _ & ->). exists a, b, y, z. split; [by eapply list_elem_of_lookup_2|]. cbn in *. split_and!; (congruence || lia).
    + intros (a & b & y & z & (i & Hi)%list_elem_of_lookup & Ha & Hb & Hf & Hv). destruct (Forall2_lookup_l _ _ _ _ _ H Hi) as (x & Hx & Hr).
      destruct (requested_one sn n a b x Hn Hm Hr) as (y' & z' & [Ha' Hb' [Hy _] _] & _ & ->). rewrite Ha in Ha'. rewrite Hb in Hb'. injection Ha' as <-. injection Hb' as <-.
      eexists. split; [by eapply list_elem_of_lookup_2|]. cbn. split; [congruence|done].
Qed.

Lemma gaps_apart l : ForallOrdPairs gap l ->
  ForallOrdPairs (fun x y => spans_apart (sl_start x, sl_end x) (sl_start y, sl_end y)) l.
Proof. apply pairs_impl. unfold gap, spans_apart. cbn. lia. Qed.

Lemma merged_sels_ok n sels :
  (forall x, x ∈ sels -> sl_family x = family n /\ sl_start x <= sl_end x) -> (forall x v, x ∈ sels -> sl_start x <= v <= sl_end x -> readable (family n) v) ->
  sels_ok (family n) (mergedSelections sels).
Proof.
  intros Hs Hr. destruct (merged_spec (family n) sels Hs) as (H1 & H2 & H3). split; [done| |].
  - intros x v Hx Hv. destruct (H1 x Hx) as [Hf _]. destruct (proj1 (H3 (family n) v)) as (y & Hy & _ & Hyv); [by exists x|]. by apply (Hr y).
  - by apply gaps_apart.
Qed.

(** A run that ends in a result or in an answer. *)
Definition answered {A} (m : result range_error A) : Prop := match m with Err (RangeThrew _) => False | _ => True end.

Lemma answered_bind {A B} (m : result range_error A) (k : A -> result range_error B) : answered m -> (forall a, m = Ok a -> answered (k a)) -> answered (a ← m; k a).
Proof. destruct m as [a|[]]; cbn; [intros _ H; by apply H|done|done]. Qed.

Lemma answered_if t st m : answered (answer_if t st m).
Proof. by destruct t. Qed.

Lemma answered_found {A} (m : option A) st msg : answered (found m st msg).
Proof. by destruct m. Qed.

Lemma answered_lift {A} (m : result cidr_error A) a : m = Ok a -> answered (lift_range m).
Proof. by intros ->. Qed.

Lemma answered_map {A B} (f : A -> result range_error B) l : (forall a, a ∈ l -> answered (f a)) -> answered (map_result f l).
Proof.
  induction l as [|a l IH]; intros H; [done|]. cbn [map_result]. pose proof (H a ltac:(by left)) as Ha. destruct (f a) as [b|[]]; [|done|done].
  assert (answered (map_result f l)) as Hl by (apply IH; intros; apply H; by right). by destruct (map_result f l) as [|[]].
Qed.

(** One statement of a route: whether it answers, and what follows when it has
    not. *)
Lemma answered_step {A B} {m : result range_error A} {k : A -> result range_error B} {P : B -> Prop} :
  answered m -> (forall a, m = Ok a -> answered (k a) /\ forall b, k a = Ok b -> P b) ->
  answered (a ← m; k a) /\ forall b, (a ← m; k a) = Ok b -> P b.
Proof. destruct m as [a|[]]; cbn; [intros _ H; by apply H|done|done]. Qed.

Lemma requested_answered sn n r : parseNetwork (sn_cidr sn) = Ok n -> answered (requested_selection sn r).
Proof.
  intros Hn. unfold requested_selection. apply answered_bind; [apply answered_if|]. intros _ [Ha%negb_false_iff Hb%negb_false_iff]%answer_if_ok%orb_false_iff.
  destruct (both_inside_total sn (fst r) (snd r) n Hn Ha Hb) as [inside Hin]. rewrite Hin. cbn [mbind result_bind]. apply answered_bind; [apply answered_if|]. intros _ _.
  apply answered_bind; [|intros; apply answered_bind; [apply answered_if|done]].
  unfold selectionFor. unfold isValidAddress in Ha, Hb. unfold addressToBig. destruct (parseIp no_zone (fst r)); [|done]. by destruct (parseIp no_zone (snd r)).
Qed.

Lemma assign_type db type :
  let check := match type with
    | None => Ok ()
    | Some id => rangeType ← found (find_type db id) 404 "Network range type not found";
                 answer_if (rt_system rangeType) 400 "Set Range Type accepts custom Network Range Types only"
    end in
  answered check /\ (check = Ok () -> forall t, type = Some t -> custom_type db t).
Proof.
  cbn. destruct type as [id|]; [|done]. split; [apply answered_bind; [apply answered_found|intros; apply answered_if]|].
  intros (t & Ht%found_ok & Hs%answer_if_ok)%bind_range_ok ? [= <-]. by exists t.
Qed.

Lemma assign_run w db s type req acc :
  world_ok w -> labels_ok db ->
  answered (assignOrClear w db s type req acc) /\
  forall db', assignOrClear w db s type req acc = Ok db' -> tracked s db db' /\
    (forall r, is_custom db r = false -> r ∈ ranges db' <-> r ∈ ranges db) /\
    (forall k t e g v, labelled db' k t e g v <->
       (k = s /\ requested req g v /\ type = Some t /\ e = None) \/ (~ (k = s /\ requested req g v) /\ labelled db k t e g v)) /\
    (type <> None -> acc = false -> forall t e g v, requested req g v -> ~ labelled db s t e g v).
Proof.
  intros Hw Hdb. unfold assignOrClear. do 2 (apply (answered_step (answered_if _ _ _)); intros _ _). apply (answered_step (answered_found _ _ _)). intros sn Hsn%found_ok.
  destruct (Hw _ _ Hsn) as (n & Hn & Hm). apply (answered_step (answered_if _ _ _)). intros _ _.
  destruct (assign_type db type) as [Hans Htype]. apply (answered_step Hans). intros [] Hcheck. specialize (Htype Hcheck).
  apply answered_step; [apply answered_map; intros r _; by eapply requested_answered|]. intros sels Hsels.
  destruct (requested_all sn n req sels Hn Hm Hsels) as (H1 & H2 & H3). pose proof (merged_sels_ok n sels H1 H2) as Hmerged.
  destruct (merged_spec (family n) sels H1) as (_ & _ & Hsel). destruct (overlaps_spec db s (mergedSelections sels) None Hdb) as (os & Hos & _ & Hin).
  apply answered_step; [destruct type; [by rewrite Hos|done]|]. intros overlaps Hov. apply (answered_step (answered_if _ _ _)). intros _ Hacc%answer_if_ok.
  destruct (assign_ok db s type (mergedSelections sels) None None _ Hdb Hmerged Htype) as (db2 & os2 & Hrun & Htk & Hfun & Hlab). rewrite Hrun. cbn [lift_range mbind result_bind mret result_ret fst].
  split; [done|]. intros db' [= <-]. split; [done|]. split; [|split].
  - intros r Hr. rewrite Hfun by done. naive_solver.
  - intros k t e g v. rewrite Hlab, Hsel, H3. split; (intros [?|[Hno Hl]]; [by left|right; split; [done|]]).
    + destruct Hl as (r & Hr & _ & Hl). by exists r.
    + destruct Hl as (r & Hr & Hl). by exists r.
  - intros Ht -> t e g v Hreq (r & Hr & Hc & Hs & _ & _ & [<- Hv]). rewrite andb_true_r in Hacc. destruct type as [ty|]; [|done]. rewrite Hos in Hov. injection Hov as <-.
    destruct os as [|o os]; [|done]. destruct (meets (mergedSelections sels) r) eqn:Hmr; [assert (r ∈ []) as H%elem_of_nil; [by apply Hin|done]|].
    apply (unmet_clear _ r v Hmr); [done|]. by apply Hsel, H3.
Qed.

Lemma find_row db p r : List.find p (ranges db) = Some r -> r ∈ ranges db /\ p r = true.
Proof. intros [H1 H2]%List.find_some. split; [by apply list_elem_of_In|done]. Qed.

Lemma retype_ok db range type eff t :
  retype db (find_type db (rg_type range)) type = Ok eff -> eff = Some t -> find_type db (default (rg_type range) type) = Some t.
Proof.
  unfold retype. destruct type as [id|]; [|by intros [= <-]]. intros (t' & Ht%found_ok & H)%bind_range_ok ->. apply bind_range_ok in H as (_ & _ & H).
  apply bind_range_ok in H as (_ & _ & [= <-]). done.
Qed.

Lemma update_tracked db range type a b d db' u n x y :
  labels_ok db -> range ∈ ranges db -> updateRange db range type a b d = Ok (db', u) -> accepted n a b x y -> a_value x <= a_value y ->
  a = bigToAddress (a_value x) (a_family x) -> b = bigToAddress (a_value y) (a_family y) ->
  (custom_type db (default (rg_type range) type) -> listCustomRangeOverlaps db (rg_subnet range) [mkSelection (family n) (a_value x) (a_value y)] (Some (rg_id range)) = Ok []) ->
  tracked (rg_subnet range) db db'.
Proof.
  intros Hdb Hin Hrun Hac Ho Ha Hb Hclear. destruct (selection_ok n a b x y Hac Ho) as [_ Hsels].
  set (r' := mkRangeRow (rg_id range) (rg_subnet range) (default (rg_type range) type) a b (default (rg_description range) d)).
  assert (map (update_range_row (rg_id range) type a b d) (ranges db) = map (fun r => if rg_id r =? rg_id range then r' else r) (ranges db)) as Hmap.
  { apply map_ext_in. intros r Hr. unfold update_range_row. destruct (Z.eqb_spec (rg_id r) (rg_id range)) as [He|]; [|done].
    rewrite <- list_elem_of_In in Hr. by rewrite (range_same_id db r range) by (done || apply Hdb). }
  destruct (update_labels db range r') as (H1 & H2 & H3); [done|done|done|done| |].
  - intros Hc. rewrite <- custom_of_type in Hc. specialize (Hclear Hc). destruct Hac as [_ _ [Hx Hy] Hread].
    destruct (label_make r' (family n) (a_value x) (a_value y)) as (Hl & Hf & Hlow & Hhigh); [cbn; congruence|cbn; congruence|done|done|]. split; [done|].
    intros r Hr Hrc Hrs Hne He. rewrite Hlow, Hhigh. rewrite Hf in He. unfold spans_apart. cbn. pose proof (lb_order r (lo_rows db Hdb r Hr Hrc)).
    destruct (Z.lt_ge_cases (a_value y) (rlow r)); [by left|right]. apply Z.nle_gt. intros Hle.
    apply (overlaps_none db (rg_subnet range) _ (Some (rg_id range)) (family n) Hdb Hsels Hclear r (Z.max (rlow r) (a_value x))); [done|done|done| |done|lia|].
    + intros [= Hid]. apply Hne. by apply (range_same_id db); [apply Hdb|..].
    + apply selected_one. cbn. split; [done|lia].
  - destruct (history_write (fun db => mret (with_ranges db (map (update_range_row (rg_id range) type a b d) (ranges db)), ())) db (rg_subnet range) _ () Hdb eq_refl) as (db2 & Hw & _ & Htk);
      [by rewrite Hmap..|]. change (updateRange db range type a b d = Ok (db2, ())) in Hw. rewrite Hrun in Hw. by injection Hw as ->.
Qed.

Lemma put_tracked w db s id b db' : world_ok w -> labels_ok db -> putRange w db s id b = Ok db' -> tracked s db db'.
Proof.
  intros Hw Hdb H. unfold putRange in H. apply bind_range_ok in H as (range & Hrange%found_ok%find_row & H). destruct Hrange as [Hr [Hid%Z.eqb_eq Hs%Z.eqb_eq]%andb_true_iff].
  do 2 apply bind_range_ok in H as (_ & _ & H). apply bind_range_ok in H as (start & Hstart%found_ok & H). apply bind_range_ok in H as (stop & Hstop%found_ok & H).
  apply bind_range_ok in H as (sn & Hsn%found_ok & H). apply bind_range_ok in H as (_ & _ & H). apply bind_range_ok in H as (eff & Heff & H).
  apply bind_range_ok in H as (inside & Hin & H). apply bind_range_ok in H as (_ & Hneg%answer_if_ok & H). apply bind_range_ok in H as (rev & Hrev & H).
  apply bind_range_ok in H as (_ & Hfalse%answer_if_ok & H). apply bind_range_ok in H as (_ & _ & H). apply bind_range_ok in H as (t & Ht%found_ok & H).
  apply bind_range_ok in H as ([rows sel] & Hov & H). apply bind_range_ok in H as (_ & _ & H). cbn [fst snd] in H.
  destruct (checked_pair w s sn start stop (default (rg_start range) (ru_start b)) inside rev) as (n & x & y & Hac & Ho & Ha); [done..|].
  pose proof (canonical_end _ _ _ _ _ _ Hac Hstop) as Hb. pose proof (retype_ok _ _ _ _ _ Heff Ht) as Htype. destruct (selection_ok n start stop x y Hac Ho) as [_ Hsels].
  destruct (negb (rt_system t) && (0 <? length rows)%nat) eqn:Hcase.
  - apply andb_true_iff in Hcase as [Hsys%negb_true_iff _]. destruct (overlapping_custom _ _ _ _ _ _ _ _ _ _ _ Hac Ho Hov Hsys) as [-> _].
    apply bind_range_ok in H as ([db1 os] & Hrun%lift_range_ok & [= <-]).
    destruct (assign_ok db s (Some (default (rg_type range) (ru_type b))) _ (default (rg_description range) (ru_description b)) (Some id) _ Hdb Hsels) as (db2 & os2 & Hrun2 & Htk & _);
      [by intros ? [= <-]; exists t|]. rewrite Hrun in Hrun2. by injection Hrun2 as <- <-.
  - apply bind_range_ok in H as ([db1 u] & Hrun%lift_range_ok & [= <-]). rewrite <- Hs. eapply update_tracked; [done..|]. intros (t' & Ht' & Hsys). rewrite Htype in Ht'. injection Ht' as <-.
    rewrite Hsys in Hcase. destruct (overlapping_custom _ _ _ _ _ _ _ _ _ _ _ Hac Ho Hov Hsys) as [-> Hrows]. destruct rows; [|done]. by rewrite Hs, Hid.
Qed.

Lemma delete_tracked w db s id db' : labels_ok db -> deleteRangeRoute w db s id = Ok db' -> tracked s db db'.
Proof.
  intros Hdb H. unfold deleteRangeRoute in H. apply bind_range_ok in H as (range & Hrange%found_ok%find_row & H). destruct Hrange as [Hr [Hid%Z.eqb_eq Hs%Z.eqb_eq]%andb_true_iff].
  do 2 apply bind_range_ok in H as (_ & _ & H). apply bind_range_ok in H as ([db1 u] & Hrun%lift_range_ok & [= <-]). unfold deleteRange in Hrun.
  destruct (List.find _ (ranges db)) as [range'|] eqn:Hf; [|apply list_elem_of_In in Hr; apply (List.find_none _ _ Hf) in Hr; by rewrite Z.eqb_refl in Hr].
  apply find_row in Hf as [Hr' Hid'%Z.eqb_eq]. pose proof (range_same_id db range' range (lo_db db Hdb) Hr' Hr Hid') as ->.
  destruct (delete_labels (fun r => rg_id r =? rg_id range) db Hdb) as (H1 & H2 & H3).
  destruct (history_write (fun db => mret (delete_where (fun r => rg_id r =? rg_id range) db, ())) db (rg_subnet range) _ () Hdb eq_refl H1 H2) as (db2 & Hw & _ & Htk).
  - intros r Hne. rewrite H3, Z.eqb_neq. split; [tauto|]. intros Hin. split; [done|]. intros He. apply Hne. f_equal. by apply (range_same_id db); [apply Hdb|..].
  - assert (Ok (db1, u) = Ok (db2, ())) as [= -> _] by (rewrite <- Hrun; exact Hw). by rewrite <- Hs.
Qed.

(** A network deallocated or deleted takes the labels below it along. *)
Definition remove_subtree (ids : list Z) (db : RangeDb) : result cidr_error RangeDb :=
  db ← recordSubtreeRangesRemoved ids db;
  mret (delete_where (fun r => existsb (Z.eqb (rg_subnet r)) ids) db).

Lemma removed_events ids db :
  labels_ok db ->
  exists new, recordSubtreeRangesRemoved ids db = Ok (mkRangeDb (ranges db) (next_range db) (range_types db) (range_events db ++ new)) /\
    (forall e, e ∈ new -> ev_subnet e ∈ ids /\ ev_change e = range_unassigned) /\
    forall s n f v key, s ∈ ids -> readable f v -> sortKey (bigToAddress v f) = Some key -> bears db s n f v -> exists e, e ∈ new /\ about s n key e = true.
Proof.
  unfold recordSubtreeRangesRemoved. revert db. induction ids as [|id ids IH]; intros db Hdb.
  - exists []. rewrite app_nil_r. split; [by destruct db|]. split; [by intros e ?%elem_of_nil|by intros s n f v key ?%elem_of_nil].
  - cbn [fold_result]. destruct (coverage_spec db id Hdb) as (before & -> & Hb & Hbears). cbn [mbind result_bind mret result_ret].
    set (lost := flat_map (fun i => uncovered i []) before). set (here := map (event_for id range_unassigned) lost).
    assert (recordCoverageChange db id before [] = mkRangeDb (ranges db) (next_range db) (range_types db) (range_events db ++ here)) as ->.
    { exact (record_events id range_unassigned lost db). }
    destruct (IH (mkRangeDb (ranges db) (next_range db) (range_types db) (range_events db ++ here))) as (new & Hrun & Hnew & Hcov); [by apply (labels_ok_rows db)|].
    exists (here ++ new). rewrite Hrun. cbn [ranges next_range range_types range_events]. rewrite app_assoc. split; [done|].
    assert (forall i, i ∈ lost -> span_ok i) as Hspan.
    { intros i (j & Hj & Hi)%elem_of_flat_map. rewrite Forall_forall in Hb. by eapply uncovered_ok; [apply Hb|]. }
    split.
    + intros e [(i & <- & _)%list_elem_of_In%in_map_iff|He]%elem_of_app; [by split; [left|]|]. destruct (Hnew e He). by split; [right|].
    + intros s n f v key [->|Hs]%elem_of_cons Hv Hkey Hbs.
      * destruct (proj2 (uncovered_all before [] n f v)) as (i & Hi & Hc); [split; [by apply Hbears|by intros (? & ?%elem_of_nil & _)]|].
        exists (event_for id range_unassigned i). split; [apply elem_of_app; left; apply list_elem_of_In, in_map_iff; exists i; by rewrite <- list_elem_of_In|].
        eapply about_event; eauto.
      * destruct (Hcov s n f v key Hs Hv Hkey) as (e & He & Ha); [done|]. exists e. split; [apply elem_of_app; by right|done].
Qed.

Lemma remove_subtree_ok ids db :
  labels_ok db -> history_ok db -> exists db', remove_subtree ids db = Ok db' /\ labels_ok db' /\ range_types db' = range_types db /\
    (forall r, r ∈ ranges db' <-> r ∈ ranges db /\ rg_subnet r ∉ ids) /\ history_ok db'.
Proof.
  intros Hdb Hh. unfold remove_subtree. destruct (removed_events ids db Hdb) as (new & -> & Hnew & Hcov). cbn [mbind result_bind mret result_ret].
  set (db1 := mkRangeDb _ _ _ _). assert (labels_ok db1) as Hdb1 by by apply (labels_ok_rows db). destruct (delete_labels (fun r => existsb (Z.eqb (rg_subnet r)) ids) db1 Hdb1) as (H1 & (H2 & _) & H3).
  set (db' := delete_where _ db1) in *. exists db'. split; [done|]. split; [done|]. split; [done|].
  assert (forall r, existsb (Z.eqb (rg_subnet r)) ids = false <-> rg_subnet r ∉ ids) as Hex.
  { intros r. rewrite <- not_true_iff_false, existsb_exists. setoid_rewrite Z.eqb_eq. rewrite list_elem_of_In. naive_solver. }
  assert (forall r, r ∈ ranges db' <-> r ∈ ranges db /\ rg_subnet r ∉ ids) as Hin by (intros r; by rewrite H3, Hex). split; [done|].
  intros s n f v key Hv Hkey. replace (range_events db') with (range_events db ++ new) by done. rewrite List.filter_app, newest_app. specialize (Hh s n f v key Hv Hkey).
  assert (forall e, e ∈ List.filter (about s n key) new <-> e ∈ new /\ about s n key e = true) as Hf by (intros e; by rewrite !list_elem_of_In, List.filter_In).
  pose proof (newest_kind (List.filter (about s n key) new)) as Hl. destruct (decide (s ∈ ids)) as [Hs|Hs].
  - assert (~ bears db' s n f v) as Hno by (intros (r & t & [_ Hr]%Hin & _ & _ & _ & Hrs & _); congruence).
    destruct (newest (List.filter (about s n key) new)) as [c|].
    + destruct Hl as (e & [He _]%Hf & <-). destruct (Hnew e He) as [_ ->]. by split.
    + rewrite Hh. split; [|done]. intros Hb. destruct (Hcov s n f v key Hs Hv Hkey Hb) as (e & He). apply Hf in He. rewrite Hl in He. by apply elem_of_nil in He.
  - destruct (newest (List.filter (about s n key) new)) as [c|].
    + destruct Hl as (e & [He Ha]%Hf & <-). destruct (Hnew e He) as [Hid _]. unfold about in Ha. rewrite !andb_true_iff, Z.eqb_eq in Ha. destruct Ha as [[<- _] _]. done.
    + rewrite Hh. unfold bears, find_type. rewrite H2. split; intros (r & t & Hr & K1 & K2 & K3 & K4 & K5); exists r, t; (split; [|done]); apply Hin; [split; [done|congruence]|done].
Qed.

(** ** What the routes promise *)

(** One request that changed the table. The networks and the other tables may
    be any at the time of each request. *)
Inductive range_step (db db' : RangeDb) : Prop :=
| step_post w s b : world_ok w -> postRange w db s b = Ok db' -> range_step db db'
| step_assign w s type req acc : world_ok w -> assignOrClear w db s type req acc = Ok db' -> range_step db db'
| step_put w s id b : world_ok w -> putRange w db s id b = Ok db' -> range_step db db'
| step_delete w s id : deleteRangeRoute w db s id = Ok db' -> range_step db db'
| step_remove ids : remove_subtree ids db = Ok db' -> range_step db db'.

(** The tables before any request. *)
Definition fresh (types : list RangeType) : RangeDb := mkRangeDb [] 1 types [].

Lemma fresh_ok types : labels_ok (fresh types) /\ history_ok (fresh types).
Proof.
  split; [split; [split; [constructor|by intros r ?%elem_of_nil]|by intros r ?%elem_of_nil|by intros r r' ?%elem_of_nil]|].
  intros s n f v key _ _. cbn. split; [done|]. by intros (r & t & ?%elem_of_nil & _).
Qed.

Lemma range_step_ok db db' : range_step db db' -> labels_ok db /\ history_ok db -> labels_ok db' /\ history_ok db'.
Proof.
  intros Hstep [Hdb Hh]. assert (forall s, tracked s db db' -> labels_ok db' /\ history_ok db') as Htk by (intros s H; split; [apply H|by eapply tracked_history]).
  destruct Hstep as [w s b Hw H|w s type req acc Hw H|w s id b Hw H|w s id H|ids H].
  - by eapply Htk, post_tracked.
  - destruct (assign_run w db s type req acc Hw Hdb) as [_ Hrun]. by eapply Htk, Hrun.
  - by eapply Htk, put_tracked.
  - by eapply Htk, delete_tracked.
  - destruct (remove_subtree_ok ids db Hdb Hh) as (db2 & Hrun & H1 & _ & _ & H2). rewrite H in Hrun. by injection Hrun as <-.
Qed.

Lemma steps_ok types db : rtc range_step (fresh types) db -> labels_ok db /\ history_ok db.
Proof.
  intros Hr. assert (forall a b, rtc range_step a b -> labels_ok a /\ history_ok a -> labels_ok b /\ history_ok b) as H; [|eapply H; [done|apply fresh_ok]].
  intros a b. induction 1 as [|a b c Hs _ IH]; [done|]. intros Ha. by apply IH, (range_step_ok a).
Qed.

(** C5. An address carries at most one label: over every sequence of requests
    that create, set, clear, edit or delete ranges, or remove networks, two
    rows of custom types of one network never share an address, and each row
    is a run of addresses in canonical spelling. *)
Theorem labels_disjoint types db r r' f v :
  rtc range_step (fresh types) db ->
  r ∈ ranges db -> r' ∈ ranges db -> is_custom db r = true -> is_custom db r' = true -> rg_subnet r = rg_subnet r' ->
  at_row r f v -> at_row r' f v ->
  r = r' /\ rg_start r = bigToAddress (rlow r) (rfam r) /\ rg_end r = bigToAddress (rhigh r) (rfam r).
Proof.
  intros [Hdb _]%steps_ok Hr Hr' Hc Hc' Hs [Hf Hv] [Hf' Hv']. split; [|by destruct (lo_rows db Hdb r Hr Hc)].
  destruct (decide (r = r')) as [|Hne]; [done|]. destruct (lo_clear db Hdb r r' Hr Hr' Hc Hc' Hs Hne) as [H|H]; [congruence|cbn in H; lia|cbn in H; lia].
Qed.

(** C6. Setting or clearing a type on a multi-select ends in an answer or in
    exactly the request: inside the selected addresses the only label is the
    new type, or none; every other address of every network keeps its label
    with its description; ranges with a function are not touched. Without
    [accept_overlaps] no address that had a label is given another. *)
Theorem assign_exact types w db s type req acc :
  rtc range_step (fresh types) db -> world_ok w ->
  answered (assignOrClear w db s type req acc) /\
  forall db', assignOrClear w db s type req acc = Ok db' ->
    (forall r, is_custom db r = false -> r ∈ ranges db' <-> r ∈ ranges db) /\
    (forall k t e g v, labelled db' k t e g v <->
       (k = s /\ requested req g v /\ type = Some t /\ e = None) \/ (~ (k = s /\ requested req g v) /\ labelled db k t e g v)) /\
    (type <> None -> acc = false -> forall t e g v, requested req g v -> ~ labelled db s t e g v).
Proof.
  intros [Hdb _]%steps_ok Hw. destruct (assign_run w db s type req acc Hw Hdb) as [Ha Hrun]. split; [done|]. intros db' H. by destruct (Hrun db' H) as [_ ?].
Qed.

(** C7. The history that range edits record can be replayed. Over every
    sequence of requests that create, set, clear, edit or delete ranges, or
    remove networks, from empty tables and while the range types stay as they
    are: of the events of a network and a type that cover an address, the
    newest says [range_assigned] exactly when the address has that type in
    that network now. A division, a merge and an edit of a range type are not
    among these requests: they record no range events. *)
Theorem history_replays types db s n f v :
  rtc range_step (fresh types) db -> readable f v ->
  newest (List.filter (fun e => (ev_subnet e =? s) && String.eqb (ev_type e) n) (addressRangeEvents db (bigToAddress v f))) = Some range_assigned <->
  bears db s n f v.
Proof.
  intros [_ Hh]%steps_ok Hv. destruct (keys_compare f v f v Hv Hv) as (key & _ & Hkey & _). rewrite <- (Hh s n f v key Hv Hkey). unfold addressRangeEvents. rewrite Hkey.
  assert (forall l : list RangeEvent, List.filter (fun e => (ev_subnet e =? s) && String.eqb (ev_type e) n) (List.filter (key_between key) l) = List.filter (about s n key) l) as ->; [|done].
  intros l. induction l as [|e l IH]; [done|]. cbn [List.filter]. unfold about at 1. destruct (key_between key e); cbn [List.filter]; [|by rewrite andb_false_r].
  rewrite andb_true_r. by destruct (_ && _); rewrite IH.
Qed.

(** ** Witnesses *)

Definition sample_types : list RangeType := [mkRangeType 1 "Gateway" true; mkRangeType 8 "Printers" false; mkRangeType 9 "Cameras" false].

Definition sample_subnet : Subnet :=
  mkSubnet 1 "10.0.0.0/24" (netColumns (buildNetwork 167772160 32 4 24)) None 0 allocated None policy_none "lan" None None None None None None 0 1.

Definition sample_world : RangeWorld := mkRangeWorld (mkTable [sample_subnet] 2) (mkPoolDb [] []) [] true.

Lemma sample_world_ok : world_ok sample_world.
Proof.
  intros id sn H%List.find_some. destruct H as [[<-|[]] _]. exists (buildNetwork 167772160 32 4 24). split; [vm_compute; reflexivity|left; reflexivity].
Qed.

Definition or_fresh (m : result range_error RangeDb) : RangeDb := match m with Ok db => db | Err _ => fresh [] end.

Definition sample_posted : RangeDb := Eval vm_compute in or_fresh (postRange sample_world (fresh sample_types) 1 (mkRangeBody 8 "10.0.0.10" "10.0.0.20" (Some "floor 1") false)).
Definition sample_set : RangeDb := Eval vm_compute in or_fresh (assignOrClear sample_world sample_posted 1 (Some 9) [("10.0.0.18", "10.0.0.18"); ("10.0.0.12", "10.0.0.17")] true).

Example set_splits : map (fun r => (rg_type r, rg_start r, rg_end r, rg_description r)) (ranges sample_set) =
  [(8, "10.0.0.10", "10.0.0.11", Some "floor 1"); (8, "10.0.0.19", "10.0.0.20", Some "floor 1"); (9, "10.0.0.12", "10.0.0.18", None)].
Proof. reflexivity. Qed.

Example set_recorded : map (fun e => (ev_type e, ev_start e, ev_end e, ev_change e)) (range_events sample_set) =
  [("Printers", "10.0.0.10", "10.0.0.20", range_assigned); ("Printers", "10.0.0.12", "10.0.0.18", range_unassigned); ("Cameras", "10.0.0.12", "10.0.0.18", range_assigned)].
Proof. reflexivity. Qed.

Lemma sample_reached : rtc range_step (fresh sample_types) sample_set.
Proof.
  eapply rtc_l; [eapply (step_post _ sample_posted sample_world 1 (mkRangeBody 8 "10.0.0.10" "10.0.0.20" (Some "floor 1") false)); [exact sample_world_ok|vm_compute; reflexivity]|].
  apply rtc_once. eapply (step_assign _ _ sample_world 1 (Some 9) [("10.0.0.18", "10.0.0.18"); ("10.0.0.12", "10.0.0.17")] true); [exact sample_world_ok|vm_compute; reflexivity].
Qed.

Lemma labels_disjoint_witness :
  let r := mkRangeRow 4 1 9 "10.0.0.12" "10.0.0.18" None in r = r /\ rg_start r = bigToAddress (rlow r) (rfam r) /\ rg_end r = bigToAddress (rhigh r) (rfam r).
Proof.
  apply (labels_disjoint sample_types sample_set _ _ 4 167772172 sample_reached); try (vm_compute; reflexivity).
  - right. right. left.
  - right. right. left.
  - split; [vm_compute; reflexivity|]. split; intros H; vm_compute in H; discriminate H.
  - split; [vm_compute; reflexivity|]. split; intros H; vm_compute in H; discriminate H.
Defined.

Lemma assign_exact_witness : answered (assignOrClear sample_world sample_set 1 None [("10.0.0.18", "10.0.0.19")] false).
Proof. exact (proj1 (assign_exact sample_types sample_world sample_set 1 None [("10.0.0.18", "10.0.0.19")] false sample_reached sample_world_ok)). Defined.

Lemma history_replays_witness :
  newest (List.filter (fun e => (ev_subnet e =? 1) && String.eqb (ev_type e) "Cameras") (addressRangeEvents sample_set (bigToAddress 167772172 4))) = Some range_assigned /\
  bears sample_set 1 "Cameras" 4 167772172.
Proof.
  assert (readable 4 167772172) as Hv by (exists 32; split; [constructor|left; split; [reflexivity|lia]]).
  pose proof (history_replays sample_types sample_set 1 "Cameras" 4 167772172 sample_reached Hv) as [H _]. split; [vm_compute; reflexivity|]. apply H. vm_compute. reflexivity.
Defined.
