(* ===== verification/TransformationPlan.v ===== *)
(** * Plans for dividing and merging networks

    [server/src/services/network-transformation-plan.js], with the rows a
    division would strand ([detectLossyIpsForDivision] of
    [server/src/routes/subnets.js]). A plan is computed from the database
    without changing it; the routes refuse one that has conflicts or has gone
    stale. *)

From S2P Require Import Prelude JsString Address Cidr Partition DhcpPools Subnets.

(** ** The rows a plan reads *)

Record ScopeRow := mkScopeRow
  { sr_id : Z; sr_subnet : Z; sr_enabled : bool; sr_lease_time : string; sr_v6_mode : string;
    sr_dns_servers : option string; sr_domain_name : option string; sr_ntp_servers : option string;
    sr_domain_search : option string; sr_description : option string }.

Record ScopeOptionRow := mkScopeOptionRow { so_scope : Z; so_code : Z; so_value : option string }.

Record ScopePoolRow := mkScopePoolRow { sp_id : Z; sp_scope : Z; sp_sort : Z; sp_range : option Z; sp_start : string; sp_end : string }.

Record ReservationRow := mkReservationRow
  { rv_id : Z; rv_subnet : Z; rv_address : string; rv_mac : option string; rv_duid : option string; rv_hostname : option string; rv_enabled : bool }.

Record LeaseRow := mkLeaseRow
  { ls_id : Z; ls_subnet : Z; ls_address : string; ls_mac : option string; ls_hostname : option string; ls_expires : string }.

Record IpFact := mkIpFact
  { if_id : Z; if_subnet : Z; if_address : string; if_hostname : option string; if_mac : option string;
    if_state : string; if_source : string }.

(** An A or AAAA record joined with its zone. *)
Record AddressRecord := mkAddressRecord
  { ar_id : Z; ar_name : string; ar_value : string; ar_enabled : bool; ar_source : option string;
    ar_zone_name : string; ar_zone_forward : bool; ar_zone_enabled : bool }.

#[export] Instance ScopeRow_eq_dec : EqDecision ScopeRow.
Proof. solve_decision. Defined.
#[export] Instance ScopeOptionRow_eq_dec : EqDecision ScopeOptionRow.
Proof. solve_decision. Defined.

Record PlanDb := mkPlanDb
  { pd_subnets : list Subnet; pd_ranges : list RangeRow;
    pd_scopes : list ScopeRow; pd_scope_options : list ScopeOptionRow; pd_scope_pools : list ScopePoolRow;
    pd_reservations : list ReservationRow; pd_leases : list LeaseRow; pd_ips : list IpFact;
    pd_records : list AddressRecord; pd_settings : list (string * string); pd_defaults : list (Z * option string) }.

(** ** Errors *)

Inductive plan_error :=
| PlanCidr (e : cidr_error)
| InvalidGatewayPolicy (c : string)
| InvalidCustomGateway (c : string)
| InvalidSelection (cidrs : list string)
| UnknownGatewayTargets (cidrs : list string).

Definition lift_plan {A} (m : result cidr_error A) : result plan_error A :=
  match m with Ok a => Ok a | Err e => Err (PlanCidr e) end.

(** ** Targets *)

(** [{ policy, address }]; a policy of [None] is null. *)
Record Gateway := mkGateway { gw_policy : option Policy; gw_address : option string }.

(** An entry of [target_gateways]. *)
Record Override := mkOverride { ov_cidr : string; ov_policy : string; ov_address : option string }.

(** The address a custom override may name. *)
Definition usable_custom (parsed : Network) (address : string) : bool :=
  negb (String.eqb address "") && isValidAddress address && parsedNetworkContains parsed address
  && negb (match canonicalizeIp address with
           | Some c => existsb (String.eqb c) (topologyAddresses parsed)
           | None => false
           end).

Definition targetGateway (parent : Subnet) (c : string) (override : option Override) : result plan_error Gateway :=
  parsed ← lift_plan (parseNetwork c);
  match override with
  | Some o =>
      match policyOf (ov_policy o) with
      | None => Err (InvalidGatewayPolicy c)
      | Some policy =>
          if bool_decide (policy = policy_custom) && negb (usable_custom parsed (default "" (ov_address o)))
          then Err (InvalidCustomGateway c)
          else Ok (mkGateway (Some policy) (resolveGatewayAddress parsed policy (or_null (ov_address o))))
      end
  | None =>
      match sn_policy parent with
      | policy_custom =>
          match or_null (sn_gateway parent) with
          | Some gateway => if parsedNetworkContains parsed gateway
                            then Ok (mkGateway (Some policy_custom) (Some gateway))
                            else Ok (mkGateway None None)
          | None => Ok (mkGateway None None)
          end
      | policy => Ok (mkGateway (Some policy) (resolveGatewayAddress parsed policy None))
      end
  end.

Record TargetScope := mkTargetScope
  { ts_source : Z; ts_enabled : bool; ts_lease_time : string; ts_v6_mode : option string; ts_interval : string * string }.

Record Target := mkTarget
  { tg_cidr : string; tg_selected : bool; tg_gateway : Gateway; tg_scopes : list TargetScope }.

(** [stableRows] of the scopes of [ids], in the order of their ids. *)
Definition of_ids (ids : list Z) (id : Z) : bool := existsb (Z.eqb id) ids.

Definition scopes_of (db : PlanDb) (ids : list Z) : list ScopeRow :=
  sort_by sr_id (List.filter (fun s => of_ids ids (sr_subnet s)) (pd_scopes db)).

Definition defaultScopesForTarget (db : PlanDb) (sourceIds : list Z) (c : string) (gateway : option string)
    : result plan_error (list TargetScope) :=
  parsed ← lift_plan (parseNetwork c);
  match scopes_of db sourceIds with
  | [] => mret []
  | source :: _ =>
      let scope := fun mode interval => [mkTargetScope (sr_id source) (sr_enabled source) (sr_lease_time source) mode interval] in
      if family parsed =? 6 then
        plan ← lift_plan (defaultV6ScopeForTarget (sr_v6_mode source) parsed gateway);
        mret (match plan with Some p => scope (Some (plan_mode p)) (plan_interval p) | None => [] end)
      else if negb (family parsed =? 4) || (prefix parsed <? 16) || (29 <? prefix parsed) then mret []
      else
        gatewayLong ← (match or_null gateway with
                       | Some g => v ← lift_plan (ipToLong g); mret (Some v)
                       | None => mret None
                       end);
        mret (match defaultDhcpPoolForSubnet parsed gatewayLong with
              | Some pool => scope None (longToIp (startLong pool), longToIp (endLong pool))
              | None => []
              end)
  end.

(** ** Conflicts *)

(** A column of any type. *)
Inductive Value := VNull | VNum (v : Z) | VText (s : string).

#[export] Instance Value_eq_dec : EqDecision Value.
Proof. solve_decision. Defined.

Inductive Conflict :=
| CustomGatewayRequired
| ScopePolicyConflict (scope_ids : list Z) (variants : Z)
| GatewayAllocation (target_cidr ip : string) (record_id : Z) (state : string)
| GatewayReservation (target_cidr ip : string) (record_id : Z) (mac : option string)
| GatewayLease (target_cidr ip : string) (record_id : Z) (mac : option string)
| GatewayPolicyConflict
| NetworkPolicyConflict (field : string) (values : list Value)
| ReservationIdentity (field : string) (value : option string) (record_ids : list Z).

(** What the scopes of the sources have to agree on. *)
Definition Signature : Type :=
  bool * string * option string * option string * option string * option string * option string * list (Z * option string).

Definition scope_signature (db : PlanDb) (s : ScopeRow) : Signature :=
  (sr_enabled s, sr_lease_time s, sr_dns_servers s, sr_domain_name s, sr_ntp_servers s, sr_domain_search s, sr_description s,
   map (fun o => (so_code o, so_value o))
     (sort_by so_code (List.filter (fun o => (so_scope o =? sr_id s) && negb (of_ids [1; 3; 28] (so_code o))) (pd_scope_options db)))).

Definition dhcpScopePolicyConflicts (db : PlanDb) (sourceIds : list Z) : list Conflict :=
  let scopes := scopes_of db sourceIds in
  if (length scopes <? 2)%nat then []
  else
    let signatures := js_uniq (map (scope_signature db) scopes) in
    if (length signatures <? 2)%nat then []
    else [ScopePolicyConflict (map sr_id scopes) (Z.of_nat (length signatures))].

(** Group rows by a key, in the order the keys first appear. *)
Definition group_by {A} (key : A -> option string) (l : list A) : list (option string * list A) :=
  map (fun k => (k, List.filter (fun a => bool_decide (key a = k)) l)) (js_uniq (map key l)).

Definition identity_conflicts (field : string) (key : ReservationRow -> option string) (reservations : list ReservationRow) : list Conflict :=
  omap (fun g => if (1 <? length (snd g))%nat then Some (ReservationIdentity field (fst g) (map rv_id (snd g))) else None)
    (group_by key reservations).

Definition value_text (s : option string) : Value := match s with Some s => VText s | None => VNull end.
Definition value_num (v : option Z) : Value := match v with Some v => VNum v | None => VNull end.

(** The columns allocated sources have to agree on. *)
Definition policy_fields : list (string * (Subnet -> Value)) :=
  [("vlan_id", fun s => value_num (sn_vlan s)); ("folder_id", fun s => value_num (sn_folder s));
   ("domain_name", fun s => value_text (sn_domain s)); ("scan_interval", fun s => value_text (sn_scan_interval s));
   ("scan_enabled", fun s => value_num (sn_scan_enabled s)); ("has_reverse_dns", fun s => VNum (sn_reverse s))].

Definition field_conflicts (rows : list Subnet) : list Conflict :=
  omap (fun f => let values := js_uniq (map (snd f) rows) in
                 if (1 <? length values)%nat then Some (NetworkPolicyConflict (fst f) values) else None) policy_fields.

(** Everything a token covers. *)
Record DependencyState := mkDependencyState
  { ds_subnets : list Subnet; ds_ranges : list RangeRow; ds_scopes : list ScopeRow;
    ds_reservations : list ReservationRow; ds_leases : list LeaseRow; ds_ips : list IpFact;
    ds_settings : list (string * string); ds_defaults : list (Z * option string);
    ds_options : list ScopeOptionRow; ds_pools : list ScopePoolRow; ds_records : list AddressRecord }.

Record PlanBody := mkPlanBody
  { pl_operation : string; pl_mode : option string; pl_sources : list Z; pl_cidrs : list string;
    pl_targets : list Target; pl_conflicts : list Conflict; pl_token : string }.

Record Plan := mkPlan { plan_body : PlanBody; plan_id : string }.

(** The body of a divide request: an absent [new_prefix] is [None], one that
    is not an integer [Some None]. *)
Record DivideRequest := mkDivideRequest
  { dr_newPrefix : option (option Z); dr_cidr : option string; dr_selected : list string; dr_gateways : list Override }.

Section Plans.
(** The digest of a state and of a plan, and SQLite's
    [datetime(expires_at) > datetime('now')]. *)
Context (sha256_state : DependencyState -> string) (sha256_plan : PlanBody -> string) (after_now : string -> bool).

(** [activeLeaseSql] *)
Definition active_lease (expires : string) : bool := String.eqb expires "infinite" || after_now expires.

Definition gatewayClaimConflicts (db : PlanDb) (targets : list (string * Gateway)) (sourceIds : list Z) : list Conflict :=
  let gateways := js_map (omap (fun t => option_map (fun a => (a, fst t)) (or_null (gw_address (snd t)))) targets) in
  match gateways with
  | [] => []
  | _ =>
      omap (fun r => option_map (fun c => GatewayAllocation c (if_address r) (if_id r) (if_state r)) (js_get (if_address r) gateways))
        (sort_by if_id (List.filter (fun r => of_ids sourceIds (if_subnet r) && negb (String.eqb (if_source r) "topology")
           && negb (existsb (String.eqb (if_state r)) ["unassigned"; "static_dns"])) (pd_ips db)))
      ++ omap (fun r => option_map (fun c => GatewayReservation c (rv_address r) (rv_id r) (rv_mac r)) (js_get (rv_address r) gateways))
        (sort_by rv_id (List.filter (fun r => of_ids sourceIds (rv_subnet r) && rv_enabled r) (pd_reservations db)))
      ++ omap (fun r => option_map (fun c => GatewayLease c (ls_address r) (ls_id r) (ls_mac r)) (js_get (ls_address r) gateways))
        (sort_by ls_id (List.filter (fun r => of_ids sourceIds (ls_subnet r) && active_lease (ls_expires r)) (pd_leases db)))
  end.

(** Does some source network hold the record's address? [some] stops at the
    first that does. *)
Fixpoint some_contains (cidrs : list string) (value : string) : result cidr_error bool :=
  match cidrs with
  | [] => mret false
  | c :: cidrs' => b ← networkContains c value; if (b : bool) then mret true else some_contains cidrs' value
  end.

Definition dependencyState (db : PlanDb) (sourceIds : list Z) : result cidr_error DependencyState :=
  let ids := sort_by (fun id => id) (js_uniq sourceIds) in
  let subnets := sort_by sn_id (List.filter (fun s => of_ids ids (sn_id s)) (pd_subnets db)) in
  let scopes := scopes_of db ids in
  let scopeIds := map sr_id scopes in
  records ← filter_result (fun r => if isValidAddress (ar_value r) then some_contains (map sn_cidr subnets) (ar_value r) else mret false)
              (sort_by ar_id (pd_records db));
  mret {| ds_subnets := subnets;
          ds_ranges := sort_by rg_id (List.filter (fun r => of_ids ids (rg_subnet r)) (pd_ranges db));
          ds_scopes := scopes;
          ds_reservations := sort_by rv_id (List.filter (fun r => of_ids ids (rv_subnet r)) (pd_reservations db));
          ds_leases := sort_by ls_id (List.filter (fun r => of_ids ids (ls_subnet r)) (pd_leases db));
          ds_ips := sort_by if_id (List.filter (fun r => of_ids ids (if_subnet r)) (pd_ips db));
          ds_settings := List.filter (fun p => String.eqb (fst p) "default_gateway_position") (pd_settings db)
                         ++ List.filter (fun p => String.eqb (fst p) "default_lease_time") (pd_settings db);
          ds_defaults := sort_by fst (pd_defaults db);
          ds_options := sort_by so_scope (sort_by so_code (List.filter (fun o => of_ids scopeIds (so_scope o)) (pd_scope_options db)));
          ds_pools := sort_by sp_scope (sort_by sp_sort (sort_by sp_id (List.filter (fun p => of_ids scopeIds (sp_scope p)) (pd_scope_pools db))));
          ds_records := records |}.

Definition transformationDependencyToken (db : PlanDb) (sourceIds : list Z) : result cidr_error string :=
  state ← dependencyState db sourceIds; mret (sha256_state state).

Definition sealPlan (plan : PlanBody) : Plan := mkPlan plan (sha256_plan plan).

(** ** The plan of a division *)

(** The targets: every block of an equal division, selected or not, or the
    carved block and what is left around it. *)
Definition divideTargets (parent : Subnet) (req : DivideRequest) : result plan_error (string * list (string * bool)) :=
  match dr_newPrefix req with
  | Some np =>
      blocks ← lift_plan (splitNetwork (sn_cidr parent) np 256);
      let calculated := map cidr blocks in
      match dr_selected req with
      | [] => mret ("equal", map (fun v => (v, true)) calculated)
      | selected =>
          let invalid := List.filter (fun v => negb (existsb (String.eqb v) calculated)) (js_uniq selected) in
          match invalid with
          | [] => mret ("equal", map (fun v => (v, existsb (String.eqb v) selected)) calculated)
          | _ => Err (InvalidSelection invalid)
          end
      end
  | None =>
      match dr_cidr req with
      | None => Err (PlanCidr (InvalidNotation ""))
      | Some c =>
          rest ← lift_plan (subtractNetwork (sn_cidr parent) c);
          mret ("carve", map (fun v => (v, String.eqb v c)) (c :: rest))
      end
  end.

(** [new Map(target_gateways.map((item) => [item.cidr, item]))] *)
Definition overrides_of (req : DivideRequest) : list (string * Override) := js_map (map (fun o => (ov_cidr o, o)) (dr_gateways req)).

(** One target with its gateway and scopes. *)
Definition planTarget (db : PlanDb) (parent : Subnet) (overrides : list (string * Override)) (t : string * bool) : result plan_error Target :=
  gateway ← targetGateway parent (fst t) (js_get (fst t) overrides);
  scopes ← defaultScopesForTarget db [sn_id parent] (fst t) (gw_address gateway);
  mret (mkTarget (fst t) (snd t) gateway scopes).

Definition buildDividePlan (db : PlanDb) (parent : Subnet) (req : DivideRequest) : result plan_error Plan :=
  targets ← divideTargets parent req;
  let overrides := overrides_of req in
  let unknown := List.filter (fun v => negb (existsb (fun t => String.eqb (fst t) v) (snd targets))) (map fst overrides) in
  match unknown with
  | _ :: _ => Err (UnknownGatewayTargets unknown)
  | [] =>
      planned ← map_result (planTarget db parent overrides) (snd targets);
      let missing := existsb (fun t => bool_decide (gw_policy (tg_gateway t) = None)) planned in
      let conflicts := (if missing then [CustomGatewayRequired] else [])
        ++ dhcpScopePolicyConflicts db [sn_id parent]
        ++ gatewayClaimConflicts db (map (fun t => (tg_cidr t, tg_gateway t)) planned) [sn_id parent] in
      token ← lift_plan (transformationDependencyToken db [sn_id parent]);
      mret (sealPlan (mkPlanBody "divide" (Some (fst targets)) [sn_id parent] [sn_cidr parent] planned conflicts token))
  end.

(** ** The plan of a merge *)

Definition is_allocated (s : Subnet) : bool := bool_decide (sn_status s = allocated).

Definition gateway_policies (subnets : list Subnet) : list Policy :=
  js_uniq (map sn_policy (List.filter is_allocated subnets)).

Definition custom_gateways (subnets : list Subnet) : list (option string) :=
  js_uniq (map sn_gateway (List.filter (fun s => bool_decide (sn_policy s = policy_custom)) (List.filter is_allocated subnets))).

Definition gateway_conflict (subnets : list Subnet) : bool :=
  (1 <? length (gateway_policies subnets))%nat || (1 <? length (custom_gateways subnets))%nat.

(** The gateway the plan gives the merged network. *)
Definition mergeGateway (parsed : Network) (subnets : list Subnet) : Gateway :=
  if gateway_conflict subnets then mkGateway None None
  else
    let policy := default policy_none (head (gateway_policies subnets)) in
    mkGateway (Some policy) (resolveGatewayAddress parsed policy (or_null (default None (head (custom_gateways subnets))))).

Definition buildMergePlan (db : PlanDb) (subnets : list Subnet) (mergedCidr : string) : result plan_error Plan :=
  parsed ← lift_plan (parseNetwork mergedCidr);
  let gateway := mergeGateway parsed subnets in
  let ids := map sn_id subnets in
  let reservations := sort_by rv_id (List.filter (fun r => of_ids ids (rv_subnet r)) (pd_reservations db)) in
  let conflicts := (if gateway_conflict subnets then [GatewayPolicyConflict] else [])
    ++ field_conflicts (List.filter is_allocated subnets)
    ++ identity_conflicts "mac_address" rv_mac reservations
    ++ identity_conflicts "ip_address" (fun r => Some (rv_address r)) reservations
    ++ gatewayClaimConflicts db [(mergedCidr, gateway)] ids
    ++ dhcpScopePolicyConflicts db ids in
  scopes ← defaultScopesForTarget db ids mergedCidr (gw_address gateway);
  token ← lift_plan (transformationDependencyToken db ids);
  mret (sealPlan (mkPlanBody "merge" None ids (map sn_cidr subnets) [mkTarget mergedCidr true gateway scopes] conflicts token)).

(** What [isCurrentTransformationPlan] is given. *)
Record PlanClaim := mkPlanClaim
  { pc_sources : list Z; pc_token : option string; pc_plan_id : option string; pc_current : option Plan }.

Definition isCurrentTransformationPlan (db : PlanDb) (plan : PlanClaim) : result cidr_error bool :=
  match or_null (pc_token plan) with
  | None => mret false
  | Some token =>
      now ← transformationDependencyToken db (pc_sources plan);
      if negb (String.eqb now token) then mret false
      else match or_null (pc_plan_id plan), pc_current plan with
           | Some id, Some current => mret (String.eqb id (plan_id current))
           | _, _ => mret true
           end
  end.
End Plans.

(** ** Rows a division would strand *)

Inductive LossReason := on_network | on_broadcast | outside_selection.

#[export] Instance LossReason_eq_dec : EqDecision LossReason.
Proof. solve_decision. Defined.

Record Loss := mkLoss { ll_carries : string; ll_record : Z; ll_ip : string; ll_reason : LossReason; ll_child : option string }.

(** [boundaries]: the addresses topology reserves, the last child's word. *)
Definition boundaries (children : list Network) : list (string * (LossReason * string)) :=
  js_map (flat_map (fun child => match topologyAddresses child with
                                 | [] => []
                                 | [net] => [(net, (on_network, cidr child))]
                                 | net :: broadcast :: _ => [(net, (on_network, cidr child)); (broadcast, (on_broadcast, cidr child))]
                                 end) children).

Definition classify (children : list Network) (ip : string) : option (LossReason * option string) :=
  match canonicalizeIp ip with
  | None => None
  | Some canonical =>
      match js_get canonical (boundaries children) with
      | Some (reason, child) => Some (reason, Some child)
      | None => if negb (existsb (fun child => parsedNetworkContains child canonical) children)
                then Some (outside_selection, None) else None
      end
  end.

(** One group of rows: those that classify as lost. *)
Definition losses {A} (children : list Network) (carries : string) (id : A -> Z) (ip : A -> string) (l : list A) : list Loss :=
  omap (fun a => option_map (fun c => mkLoss carries (id a) (ip a) (fst c) (snd c)) (classify children (ip a))) l.

(** An address row that says something about a host. *)
Definition meaningful (r : IpFact) : bool :=
  bool_decide (is_Some (if_hostname r)) || bool_decide (is_Some (if_mac r)) || negb (String.eqb (if_state r) "unassigned").

Section Losses.
Context (after_now : string -> bool).

Definition detectLossyIpsForDivision (db : PlanDb) (parentId : Z) (childCidrs : list string) : result cidr_error (list Loss) :=
  children ← map_result parseNetwork childCidrs;
  let parent := List.find (fun s => sn_id s =? parentId) (pd_subnets db) in
  records ← filter_result (fun r => if isValidAddress (ar_value r)
                                    then match parent with Some p => networkContains (sn_cidr p) (ar_value r) | None => mret false end
                                    else mret false)
              (List.filter (fun r => ar_zone_forward r && ar_zone_enabled r && ar_enabled r
                 && String.eqb (default "manual" (ar_source r)) "manual") (pd_records db));
  mret (losses children "dhcp_reservation" rv_id rv_address (List.filter (fun r => rv_subnet r =? parentId) (pd_reservations db))
        ++ losses children "ip_address" if_id if_address
             (List.filter (fun r => (if_subnet r =? parentId) && meaningful r && negb (String.eqb (if_source r) "topology")) (pd_ips db))
        ++ losses children "dns_record" ar_id ar_value records
        ++ losses children "dhcp_lease" ls_id ls_address
             (List.filter (fun r => (ls_subnet r =? parentId) && active_lease after_now (ls_expires r)) (pd_leases db))).
End Losses.

(** *** Accepting the losses *)

(** An element of [conflict_resolutions]; a missing [record_id] is [None],
    as [Number] of it is [NaN]. *)
Record Resolution := mkResolution { rs_action : string; rs_carries : string; rs_record : option Z }.

Inductive resolution_error := UnsupportedAction | NotInPlan (r : Resolution) | DuplicateResolution (r : Resolution).

Definition resolves (r : Resolution) (l : Loss) : bool :=
  String.eqb (rs_carries r) (ll_carries l) && bool_decide (rs_record r = Some (ll_record l)).

Fixpoint accept (lossy accepted : list Loss) (resolutions : list Resolution) : result resolution_error (list Loss) :=
  match resolutions with
  | [] => mret accepted
  | r :: rest =>
      if negb (String.eqb (rs_action r) "delete") then Err UnsupportedAction
      else match List.find (resolves r) (rev lossy) with
           | None => Err (NotInPlan r)
           | Some l => if existsb (resolves r) accepted then Err (DuplicateResolution r) else accept lossy (accepted ++ [l]) rest
           end
  end.

(** The distinct keys of the losses: [expected.size]. *)
Definition loss_keys (lossy : list Loss) : list (string * Z) := js_uniq (map (fun l => (ll_carries l, ll_record l)) lossy).

(** [None] is null: the request does not resolve every loss. *)
Definition validateConflictResolutions (lossy : list Loss) (resolutions : option (list Resolution)) : result resolution_error (option (list Loss)) :=
  match lossy with
  | [] => mret (Some [])
  | _ =>
      match resolutions with
      | None => mret None
      | Some rs =>
          accepted ← accept lossy [] rs;
          mret (if (length accepted =? length (loss_keys lossy))%nat then Some accepted else None)
      end
  end.

(** ** Lemmas: targets *)

Lemma lift_plan_inv {A} (m : result cidr_error A) a : lift_plan m = Ok a -> m = Ok a.
Proof. destruct m; cbn; congruence. Qed.

(** The targets of a division partition the network. *)
Lemma divide_partitions parent req mode ts m :
  parseNetwork (sn_cidr parent) = Ok m -> mapped_free m -> divideTargets parent req = Ok (mode, ts) ->
  exists nets, map_result parseNetwork (map fst ts) = Ok nets /\ partition m nets /\ (length nets <= 256)%nat /\
    ((forall c n, dr_cidr req = Some c -> parseNetwork c = Ok n -> cidr n = c) -> map cidr nets = map fst ts).
Proof.
  intros Hc Hm. unfold divideTargets. destruct (dr_newPrefix req) as [np|].
  - destruct (splitNetwork (sn_cidr parent) np 256) as [blocks|] eqn:Hs; [|done]. cbn [lift_plan mbind result_bind].
    destruct np as [np|]; [|unfold splitNetwork in Hs; by rewrite Hc in Hs].
    destruct (split_partitions _ _ _ _ _ Hc Hm Hs) as [Hpart Hlen]. intros H.
    assert (map fst ts = map cidr blocks) as ->.
    { run_inv H; injection H as _ <-; rewrite map_map; by apply map_id. }
    exists blocks. split; [by apply map_result_reparse, Hpart|]. split; [done|]. split; [lia|done].
  - destruct (dr_cidr req) as [c|]; [|done]. destruct (subtractNetwork (sn_cidr parent) c) as [rest|] eqn:Hs; [|done].
    cbn [lift_plan mbind result_bind]. intros [= _ Hts].
    assert (map fst ts = c :: rest) as -> by (subst ts; cbn [map fst]; f_equal; rewrite map_map; by apply map_id).
    assert (exists child, parseNetwork c = Ok child) as [child Hcc].
    { unfold subtractNetwork in Hs. rewrite Hc in Hs. cbn [mbind result_bind] in Hs. destruct (parseNetwork c); [by eexists|done]. }
    destruct (subtract_partitions _ _ _ _ _ Hc Hcc Hm Hs) as (nets & Hn & Hpart & Hlen & Hmc).
    exists (child :: nets). cbn [map_result]. rewrite Hcc, Hn. split; [done|]. split; [done|].
    pose proof (parseNetwork_wf _ _ Hcc) as Hw. pose proof (wf_prefix _ Hw). pose proof (wf_prefix _ (parseNetwork_wf _ _ Hc)).
    assert (nbits child <= 128) by (pose proof (wf_family _ Hw) as Hf; inversion Hf; lia). split; [simpl; lia|].
    intros Hnorm. cbn [map]. by rewrite Hmc, (Hnorm c child).
Qed.

(** ** Lemmas: gateways *)

(** The gateway of a plan target: an address of the network, and one that
    topology does not reserve when the plan chose it ([chosen]). *)
Definition gateway_fits (n : Network) (chosen : bool) (ip : string) : Prop :=
  exists a, addressToBig ip = Ok a /\ covers n (a_family a) (a_value a) /\
    (chosen = true -> isTopologyAddress n (a_value a) = false).

(** Both ends of the usable range are gateways that fit. *)
Lemma usable_fits n lo ip :
  wf_network n -> mapped_free n -> ip = bigToAddress lo (family n) -> networkBig n <= lo <= lastBig n ->
  isTopologyAddress n lo = false -> forall chosen, gateway_fits n chosen ip.
Proof.
  intros Hw Hm -> Hlo Ht chosen. pose proof (mapped_free_spellable n lo Hw Hm Hlo) as Hs.
  exists (mkAddress lo (nbits n) (family n)). rewrite (addressToBig_text _ (nbits n)) by (done || apply Hw). by split_and!.
Qed.

Lemma first_last_fit n chosen :
  wf_network n -> mapped_free n -> gateway_fits n chosen (firstUsable n) /\ gateway_fits n chosen (lastUsable n).
Proof.
  intros Hw Hm. destruct (wf_usable n Hw) as (_ & Hfu & Hlu). pose proof (wf_order n Hw) as Ho.
  pose proof (wf_last n Hw) as Hl. pose proof (wf_prefix n Hw) as Hp.
  assert (prefix n < nbits n - 1 -> networkBig n + 3 <= lastBig n) as Hroom.
  { intros Hlt. assert (2 ^ 2 <= 2 ^ (nbits n - prefix n)) by (apply Z.pow_le_mono_r; lia). lia. }
  unfold isTopologyAddress in *. cbv zeta in Hfu, Hlu.
  split; (eapply usable_fits; [done|done|eassumption| |]); unfold isTopologyAddress;
    destruct (Z.leb_spec (nbits n - 1) (prefix n)), (Z.ltb_spec (prefix n) (nbits n - 1)); try lia; try done;
    cbn [andb]; destruct (Z.eqb_spec (family n) 4); try lia;
    rewrite ?orb_false_iff, ?andb_false_iff, ?Z.eqb_neq; lia.
Qed.

Lemma contains_covers n ip :
  parsedNetworkContains n ip = true -> exists a, addressToBig ip = Ok a /\ covers n (a_family a) (a_value a).
Proof.
  unfold parsedNetworkContains, addressToBig. destruct (parseIp no_zone ip) as [p|]; [|done].
  destruct (Z.eqb_spec (family_of_bits (bits p)) (family n)) as [Hf|]; [|done]. cbn [negb]. intros [?%Z.leb_le ?%Z.leb_le]%andb_true_iff.
  eexists. split; [reflexivity|]. by split.
Qed.

(** A custom gateway that passes the check, in its canonical spelling. *)
Lemma custom_fits n ip :
  wf_network n -> mapped_free n -> usable_custom n ip = true -> gateway_fits n true (canonical_or ip).
Proof.
  intros Hw Hm Hu. unfold usable_custom in Hu. apply andb_true_iff in Hu as [Hu Ht]. apply andb_true_iff in Hu as [_ Hc].
  apply contains_covers in Hc as (a & Ha & Hcov). destruct (canonical_address _ _ Ha) as [Hcan Htext].
  unfold canonical_or. rewrite Hcan in *. exists a. cbn [default]. split; [done|]. split; [done|]. intros _.
  apply not_true_iff_false. intros Htop. destruct Hcov as [Hf Hin]. pose proof (mapped_free_spellable n _ Hw Hm Hin) as Hs.
  apply (proj1 (topology_agree n (a_value a) Hw Hm Hs)) in Htop. apply negb_true_iff in Ht. rewrite Hf in Htop.
  apply not_true_iff_false in Ht. apply Ht. apply existsb_exists. exists (bigToAddress (a_value a) (a_family a)).
  split; [by apply list_elem_of_In|by apply String.eqb_eq].
Qed.

(** The gateway a target gets. Only one that is inherited from a custom
    gateway of the parent is not checked against the topology of the target. *)
Lemma target_gateway_fits parent c o n g :
  parseNetwork c = Ok n -> mapped_free n -> targetGateway parent c o = Ok g ->
  match gw_address g with
  | None => gw_policy g = Some policy_none \/ gw_policy g = None
  | Some ip => gateway_fits n (bool_decide (is_Some o \/ sn_policy parent <> policy_custom)) ip /\ is_Some (gw_policy g)
  end.
Proof.
  intros Hc Hm. pose proof (parseNetwork_wf _ _ Hc) as Hw. unfold targetGateway. rewrite Hc. cbn [lift_plan mbind result_bind].
  pose proof (first_last_fit n) as Hfl. destruct o as [o|].
  - rewrite bool_decide_eq_true_2 by (left; by eexists). destruct (policyOf (ov_policy o)) as [policy|]; [|done].
    destruct (bool_decide _ && _) eqn:Hu; [done|]. intros [= <-]. cbn [gw_address gw_policy].
    destruct policy; cbn [resolveGatewayAddress]; [split; [by apply Hfl|by eexists]|split; [by apply Hfl|by eexists]| |by left].
    rewrite bool_decide_eq_true_2 in Hu by done. cbn [andb] in Hu. apply negb_false_iff in Hu.
    destruct (ov_address o) as [ip|]; [|by vm_compute in Hu]. cbn [default] in Hu.
    destruct ip as [|ch ip]; [done|]. cbn [or_null]. split; [by apply custom_fits|by eexists].
  - destruct (sn_policy parent) eqn:Hpol.
    1,2,4: intros [= <-]; cbn [gw_address gw_policy resolveGatewayAddress]; try (by left);
      (rewrite bool_decide_eq_true_2 by (by right); split; [by apply Hfl|by eexists]).
    rewrite bool_decide_eq_false_2 by (intros [[? ?]|?]; done).
    destruct (or_null (sn_gateway parent)) as [ip|]; [|intros [= <-]; by right].
    destruct (parsedNetworkContains n ip) eqn:Hin; intros [= <-]; cbn [gw_address gw_policy]; [|by right].
    split; [|by eexists]. apply contains_covers in Hin as (a & Ha & Hcov). by exists a.
Qed.

(** ** Lemmas: scopes *)

(** A scope a target may serve: its interval lies among the hosts, and a
    gateway in canonical spelling is at neither end of a pool. *)
Definition scope_fits (n : Network) (gateway : option string) (s : TargetScope) : Prop :=
  exists a b, addressToBig (fst (ts_interval s)) = Ok a /\ addressToBig (snd (ts_interval s)) = Ok b /\
    a_value a <= a_value b /\ host_interval n a b /\
    (ts_v6_mode s = None \/ ts_v6_mode s = Some "stateful" ->
     forall v, spellable v (nbits n) -> gateway = Some (bigToAddress v (family n)) -> v <> a_value a /\ v <> a_value b).

Lemma v6_modes_64 p mode :
  existsb (String.eqb mode) (dhcpV6ModesFor p) = true -> String.eqb mode "stateful" = false -> p = 64.
Proof.
  unfold dhcpV6ModesFor. intros H Hs. destruct (Z.eqb_spec p 64); [done|].
  destruct (64 <? p); cbn [existsb] in H; [|done]. by rewrite Hs in H.
Qed.

Lemma v6_modes_stateful p : existsb (String.eqb "stateful") (dhcpV6ModesFor p) = true -> 64 <= p.
Proof. unfold dhcpV6ModesFor. destruct (Z.eqb_spec p 64); [lia|]. destruct (Z.ltb_spec 64 p); [lia|done]. Qed.

Lemma v4_scope_fits n gateway gl p mode src en lease :
  wf_network n -> family n = 4 -> 16 <= prefix n <= 29 ->
  (forall v, spellable v (nbits n) -> gateway = Some (bigToAddress v (family n)) -> gl = Some v) ->
  defaultDhcpPoolForSubnet n gl = Some p ->
  scope_fits n gateway (mkTargetScope src en lease mode (longToIp (startLong p), longToIp (endLong p))).
Proof.
  intros Hw Hf Hp Hgl Hpool. destruct (default_v4_pool n gl Hw Hf Hp) as (p' & Hpool' & Hlo & Hhi & Hg1 & Hg2).
  assert (p' = p) as -> by congruence. pose proof (wf_order n Hw). pose proof (wf_last_bound n Hw) as Hlb.
  pose proof (wf_family n Hw) as Hfam. rewrite Hf in Hfam. assert (nbits n = 32) as Hb by (by inversion Hfam). rewrite Hb in Hlb.
  assert (forall v, networkBig n < v < lastBig n -> addressToBig (longToIp v) = Ok (mkAddress v 32 4)) as Ht.
  { intros v Hv. rewrite longToIp_text. apply addressToBig_text; [constructor|]. left. split; [done|lia]. }
  exists (mkAddress (startLong p) 32 4), (mkAddress (endLong p) 32 4). cbn [ts_interval ts_v6_mode fst snd a_value].
  split_and!; [apply Ht; lia|apply Ht; lia|lia| |].
  - unfold host_interval. cbn. rewrite Hf. split_and!; [done|done|lia|lia|lia].
  - intros _ v Hv Hg. pose proof (Hgl v Hv Hg) as ->. split; intros ->; congruence.
Qed.

Lemma v6_scope_fits n gateway p src en lease mode :
  wf_network n -> mapped_free n -> family n = 6 -> gateway_ok gateway ->
  defaultV6ScopeForTarget mode n gateway = Ok (Some p) ->
  scope_fits n gateway (mkTargetScope src en lease (Some (plan_mode p)) (plan_interval p)).
Proof.
  intros Hw Hm Hf Hg. unfold defaultV6ScopeForTarget. destruct (existsb _ _) eqn:Hmode; [|done]. cbn [negb].
  pose proof (wf_family n Hw) as Hfam. rewrite Hf in Hfam. assert (nbits n = 128) as Hb by (by inversion Hfam).
  destruct (String.eqb_spec mode "stateful") as [->|Hne]; cbn [negb].
  - apply v6_modes_stateful in Hmode. intros H.
    assert (prefix n <= 126) as Hp.
    { unfold defaultDhcpV6PoolForSubnet in H. rewrite Hf, Hb in H. cbn [Z.eqb Pos.eqb negb] in H.
      destruct (Z.leb_spec (128 - 1) (prefix n)); [|lia]. rewrite orb_true_r in H. done. }
    destruct (default_v6_pool n gateway Hw Hf ltac:(lia) Hg) as (lo & hi & Hpool & Hlo & Hhi & Hs1 & Hs2 & Hgw).
    rewrite Hpool in H. injection H as <-. cbn [plan_mode plan_interval].
    exists (mkAddress lo 128 6), (mkAddress hi 128 6). cbn [ts_interval ts_v6_mode fst snd a_value].
    split_and!; [apply addressToBig_text; [constructor|done]|apply addressToBig_text; [constructor|done]|lia| |].
    + unfold host_interval. cbn. rewrite Hf. split_and!; [done|done|lia|lia|done].
    + intros _ v Hv Hgv. rewrite Hb in Hv. rewrite Hf in Hgv.
      pose proof (addressToBig_text 6 128 v ltac:(constructor) Hv) as Ht. specialize (Hgw _ _ Hgv Ht eq_refl). cbn in Hgw. lia.
  - intros [= <-]. cbn [plan_mode plan_interval]. apply v6_modes_64 in Hmode; [|by apply String.eqb_neq].
    destruct (wf_usable n Hw) as (_ & Hfu & Hlu). cbv zeta in Hfu, Hlu. rewrite Hb, Hf in Hfu, Hlu. cbn [Z.eqb Pos.eqb] in Hlu.
    rewrite andb_false_r in Hlu. destruct (Z.ltb_spec (prefix n) (128 - 1)); [|lia].
    pose proof (wf_last n Hw) as Hl. pose proof (wf_order n Hw). rewrite Hb, Hmode in Hl. change (2 ^ (128 - 64)) with 18446744073709551616 in Hl.
    assert (forall v, networkBig n <= v <= lastBig n -> spellable v 128) as Hs by (intros v Hv; rewrite <- Hb; by apply mapped_free_spellable).
    exists (mkAddress (networkBig n + 1) 128 6), (mkAddress (lastBig n) 128 6). cbn [ts_interval ts_v6_mode fst snd a_value]. rewrite Hfu, Hlu.
    split_and!; [apply addressToBig_text; [constructor|apply Hs; lia]|apply addressToBig_text; [constructor|apply Hs; lia]|lia| |].
    + unfold host_interval. cbn. rewrite Hf. split_and!; [done|done|lia|lia|done].
    + intros [?|[= Hs6]]; [done|congruence].
Qed.

Lemma target_scopes_fit db ids c n gateway scopes :
  parseNetwork c = Ok n -> mapped_free n -> gateway_ok gateway ->
  defaultScopesForTarget db ids c gateway = Ok scopes ->
  (length scopes <= 1)%nat /\ Forall (scope_fits n gateway) scopes.
Proof.
  intros Hc Hm Hg. pose proof (parseNetwork_wf _ _ Hc) as Hw. unfold defaultScopesForTarget. rewrite Hc. cbn [lift_plan mbind result_bind].
  destruct (scopes_of db ids) as [|source rest]; [intros [= <-]; split; [simpl; lia|constructor]|]. cbv zeta.
  destruct (Z.eqb_spec (family n) 6) as [H6|H6].
  - destruct (defaultV6ScopeForTarget _ n gateway) as [p|] eqn:Hp; [|done]. cbn [lift_plan mbind result_bind]. intros [= <-].
    destruct p as [p|]; [|split; [simpl; lia|constructor]]. split; [simpl; lia|]. constructor; [|constructor].
    by eapply v6_scope_fits.
  - destruct (negb _ || _ || _) eqn:Hr; [intros [= <-]; split; [simpl; lia|constructor]|]. reflect_bools.
    intros Hrun. destruct (match or_null gateway with Some g => _ | None => _ end) as [gl|] eqn:Hgl in Hrun; [|done].
    cbn [mbind result_bind] in Hrun. injection Hrun as <-.
    destruct (defaultDhcpPoolForSubnet n gl) as [p|] eqn:Hp; [|split; [simpl; lia|constructor]].
    split; [simpl; lia|]. constructor; [|constructor]. eapply v4_scope_fits; [done|done|lia| |exact Hp].
    intros v Hv ->. pose proof (wf_family n Hw) as Hfam.
    assert (or_null (Some (bigToAddress v (family n))) = Some (bigToAddress v (family n))) as Hor.
    { pose proof (formatIp_nonempty v (nbits n)) as Hne. rewrite <- (bigToAddress_bits _ _ v Hfam) in Hne.
      by destruct (bigToAddress v (family n)). }
    rewrite Hor in Hgl. replace (family n) with 4 in Hgl by (inversion Hfam; lia).
    rewrite ipToLong_text in Hgl; [by injection Hgl as <-|]. apply spellable_bounds in Hv. inversion Hfam as [Ha Hb|Ha Hb]; [|lia].
    by rewrite <- Hb in Hv.
Qed.

(** ** Lemmas: conflicts *)

Section PlanLemmas.
Context (sha256_state : DependencyState -> string) (sha256_plan : PlanBody -> string) (after_now : string -> bool).
Context (db : PlanDb).

(** A row of the sources that holds the address for itself: an address
    allocated by something other than topology or a static record, an enabled
    reservation, an active lease. *)
Definition claimed (ids : list Z) (ip : string) : Prop :=
  (exists r, r ∈ pd_ips db /\ of_ids ids (if_subnet r) = true /\ if_source r <> "topology" /\
     if_state r <> "unassigned" /\ if_state r <> "static_dns" /\ if_address r = ip) \/
  (exists r, r ∈ pd_reservations db /\ of_ids ids (rv_subnet r) = true /\ rv_enabled r = true /\ rv_address r = ip) \/
  (exists r, r ∈ pd_leases db /\ of_ids ids (ls_subnet r) = true /\ active_lease after_now (ls_expires r) = true /\ ls_address r = ip).

(** One group of claims is empty when no row of it is at a gateway. *)
Lemma claim_group {A} (id : A -> Z) (address : A -> string) (pick : A -> bool) (mk : A -> string -> Conflict)
    (l : list A) (gateways : list (string * string)) :
  omap (fun r => option_map (mk r) (js_get (address r) gateways)) (sort_by id (List.filter pick l)) = [] <->
  forall r, r ∈ l -> pick r = true -> address r ∉ keys gateways.
Proof.
  rewrite omap_none. split.
  - intros H r Hr Hp. apply js_get_none. specialize (H r). rewrite elem_of_sort_by in H.
    destruct (js_get (address r) gateways); [|done]. exfalso. specialize (H ltac:(apply list_elem_of_In, List.filter_In; by rewrite <- list_elem_of_In)). done.
  - intros H r. rewrite elem_of_sort_by, list_elem_of_In, List.filter_In, <- list_elem_of_In. intros [Hr Hp].
    specialize (H r Hr Hp). apply js_get_none in H. by rewrite H.
Qed.

(** No conflict is reported exactly when no target's gateway is claimed. *)
Lemma gateway_claims_none targets ids :
  gatewayClaimConflicts after_now db targets ids = [] <->
  forall t ip, t ∈ targets -> gw_address (snd t) = Some ip -> ip <> "" -> ~ claimed ids ip.
Proof.
  unfold gatewayClaimConflicts. cbv zeta.
  set (entries := omap _ targets). set (gateways := js_map entries).
  assert (forall ip, ip ∈ keys gateways <-> exists t, t ∈ targets /\ gw_address (snd t) = Some ip /\ ip <> "") as Hkeys.
  { intros ip. assert (ip ∈ keys gateways <-> ip ∈ keys entries) as ->.
    { pose proof (js_get_none ip gateways) as H1. pose proof (js_map_none ip entries) as H2. fold gateways in H2.
      destruct (decide (ip ∈ keys gateways)), (decide (ip ∈ keys entries)); tauto. }
    unfold keys, entries. rewrite list_elem_of_In, in_map_iff. setoid_rewrite <- list_elem_of_In. setoid_rewrite list_elem_of_omap. split.
    - intros ((k & c) & <- & (t & Ht & He)). cbn. exists t. split; [done|].
      destruct (gw_address (snd t)) as [g|]; [|done]. destruct g; [done|]. cbn in He. by injection He as <- <-.
    - intros (t & Ht & Hg & Hne). exists (ip, fst t). split; [done|]. exists t. split; [done|]. rewrite Hg. by destruct ip. }
  assert ((forall ip, ip ∈ keys gateways -> ~ claimed ids ip) <->
          (forall t ip, t ∈ targets -> gw_address (snd t) = Some ip -> ip <> "" -> ~ claimed ids ip)) as <-.
  { setoid_rewrite Hkeys. naive_solver. }
  destruct gateways as [|p gws] eqn:Hgs; [split; [by intros _ ip ?%elem_of_nil|done]|].
  rewrite <- Hgs. clear Hkeys. split.
  - intros (H1 & (H2 & H3)%app_eq_nil)%app_eq_nil ip Hip Hcl.
    rewrite (claim_group if_id if_address _ (fun r c => GatewayAllocation c (if_address r) (if_id r) (if_state r))) in H1.
    rewrite (claim_group rv_id rv_address _ (fun r c => GatewayReservation c (rv_address r) (rv_id r) (rv_mac r))) in H2.
    rewrite (claim_group ls_id ls_address _ (fun r c => GatewayLease c (ls_address r) (ls_id r) (ls_mac r))) in H3.
    destruct Hcl as [(r & Hr & Hids & Hsrc & Hs1 & Hs2 & <-)|[(r & Hr & Hids & Hen & <-)|(r & Hr & Hids & Hact & <-)]].
    + apply (H1 r Hr); [|done]. rewrite Hids. cbn [existsb]. apply String.eqb_neq in Hsrc, Hs1, Hs2. by rewrite Hsrc, Hs1, Hs2.
    + apply (H2 r Hr); [|done]. by rewrite Hids, Hen.
    + apply (H3 r Hr); [|done]. by rewrite Hids, Hact.
  - intros H.
    rewrite (proj2 (claim_group if_id if_address _ (fun r c => GatewayAllocation c (if_address r) (if_id r) (if_state r)) _ _)).
    2:{ intros r Hr Hp Hk. apply (H _ Hk). left. exists r. reflect_bools. cbn [existsb] in *. reflect_bools. split_and!; try done; by apply String.eqb_neq. }
    rewrite (proj2 (claim_group rv_id rv_address _ (fun r c => GatewayReservation c (rv_address r) (rv_id r) (rv_mac r)) _ _)).
    2:{ intros r Hr Hp Hk. apply (H _ Hk). right; left. exists r. reflect_bools. by split_and!. }
    rewrite (proj2 (claim_group ls_id ls_address _ (fun r c => GatewayLease c (ls_address r) (ls_id r) (ls_mac r)) _ _)); [done|].
    intros r Hr Hp Hk. apply (H _ Hk). right; right. exists r. reflect_bools. by split_and!.
Qed.
End PlanLemmas.

(** A target of the plan of [req], as planned for the network [n]. *)
Definition target_sound (parent : Subnet) (req : DivideRequest) (t : Target) (n : Network) : Prop :=
  parseNetwork (tg_cidr t) = Ok n /\
  match gw_address (tg_gateway t) with
  | None => gw_policy (tg_gateway t) = Some policy_none \/ gw_policy (tg_gateway t) = None
  | Some ip => is_Some (gw_policy (tg_gateway t)) /\
      gateway_fits n (bool_decide (is_Some (js_get (tg_cidr t) (overrides_of req)) \/ sn_policy parent <> policy_custom)) ip
  end /\
  (length (tg_scopes t) <= 1)%nat /\ Forall (scope_fits n (gw_address (tg_gateway t))) (tg_scopes t).

Lemma planned_cidr db parent overrides ts t : planTarget db parent overrides ts = Ok t -> tg_cidr t = fst ts.
Proof.
  unfold planTarget. destruct (targetGateway parent (fst ts) _) as [g|]; [|done]. cbn [mbind result_bind].
  destruct (defaultScopesForTarget db _ (fst ts) (gw_address g)); [|done]. by intros [= <-].
Qed.

Lemma planned_target_sound db parent req ts t n :
  parseNetwork (fst ts) = Ok n -> mapped_free n -> planTarget db parent (overrides_of req) ts = Ok t ->
  tg_cidr t = fst ts /\ target_sound parent req t n.
Proof.
  intros Hc Hm. unfold planTarget. destruct (targetGateway parent (fst ts) _) as [g|] eqn:Hg; [|done]. cbn [mbind result_bind].
  destruct (defaultScopesForTarget db _ (fst ts) (gw_address g)) as [scopes|] eqn:Hs; [|done]. intros [= <-]. split; [done|].
  pose proof (target_gateway_fits _ _ _ _ _ Hc Hm Hg) as Hfit. unfold target_sound. cbn [tg_cidr tg_gateway tg_scopes].
  split; [done|]. split; [by destruct (gw_address g); [split; apply Hfit|]|].
  eapply target_scopes_fit; [exact Hc|done| |exact Hs]. intros ip Hip _. rewrite Hip in Hfit. destruct Hfit as [(a & Ha & _) _]. by exists a.
Qed.

(** ** Lemmas: merges *)

Definition agree {A B} (f : A -> B) (l : list A) : Prop := forall x y, x ∈ l -> y ∈ l -> f x = f y.

Lemma uniq_agree {A B} `{EqDecision B} (f : A -> B) l : (1 <? length (js_uniq (map f l)))%nat = false <-> agree f l.
Proof.
  rewrite Nat.ltb_ge. assert ((length (js_uniq (map f l)) <= 1)%nat <-> (length (js_uniq (map f l)) < 2)%nat) as -> by lia.
  rewrite js_uniq_one. unfold agree. setoid_rewrite list_elem_of_In. setoid_rewrite in_map_iff. split.
  - intros H x y Hx Hy. apply H; by eexists.
  - intros H a b (x & <- & Hx) (y & <- & Hy). by apply H.
Qed.

Lemma field_conflicts_none rows : field_conflicts rows = [] <-> Forall (fun f => agree (snd f) rows) policy_fields.
Proof.
  unfold field_conflicts. rewrite omap_none, Forall_forall. split; intros H f Hf; specialize (H f Hf); cbv zeta in *;
    rewrite <- uniq_agree in *; by destruct (1 <? _)%nat.
Qed.

(** Two rows under one key. *)
Lemma identity_conflicts_none field key l :
  identity_conflicts field key l = [] <->
  forall l1 l2 l3 x y, l = l1 ++ x :: l2 ++ y :: l3 -> key x <> key y.
Proof.
  unfold identity_conflicts. rewrite omap_none. unfold group_by. split.
  - intros H l1 l2 l3 x y Hl Hk. specialize (H (key x, List.filter (fun a => bool_decide (key a = key x)) l)).
    assert ((1 <? length (List.filter (fun a => bool_decide (key a = key x)) l))%nat = true) as Hlen.
    { apply Nat.ltb_lt. rewrite Hl, List.filter_app. cbn [List.filter]. rewrite bool_decide_eq_true_2 by done.
      rewrite List.filter_app. cbn [List.filter]. rewrite bool_decide_eq_true_2 by done. rewrite !length_app. simpl. rewrite length_app. simpl. lia. }
    cbn [snd] in H. rewrite Hlen in H. discriminate H. apply list_elem_of_In, in_map_iff. exists (key x). split; [done|].
    apply list_elem_of_In, elem_of_js_uniq, list_elem_of_In, in_map. rewrite Hl. apply in_or_app. right. by left.
  - intros H g. rewrite list_elem_of_In, in_map_iff. intros (k & <- & _). cbn [fst snd].
    destruct (Nat.ltb_spec 1 (length (List.filter (fun a => bool_decide (key a = k)) l))) as [Hlen|]; [|done]. exfalso.
    assert (forall l, (0 < length (List.filter (fun a => bool_decide (key a = k)) l))%nat ->
              exists l1 x l2, l = l1 ++ x :: l2 /\ key x = k /\ List.filter (fun a => bool_decide (key a = k)) l1 = []) as Hsplit.
    { clear. induction l as [|a l IH]; cbn [List.filter]; intros Hl; [simpl in Hl; lia|]. destruct (decide (key a = k)) as [Ha|Ha].
      - by exists [], a, l.
      - rewrite bool_decide_eq_false_2 in Hl by done. destruct (IH Hl) as (l1 & x & l2 & -> & Hx & Hn). exists (a :: l1), x, l2.
        split; [done|]. split; [done|]. cbn. by rewrite bool_decide_eq_false_2. }
    destruct (Hsplit l) as (l1 & x & l2 & -> & Hx & Hn); [lia|]. rewrite List.filter_app, Hn in Hlen. cbn [List.filter app] in Hlen.
    rewrite bool_decide_eq_true_2 in Hlen by done. cbn [length] in Hlen.
    destruct (Hsplit l2) as (l3 & y & l4 & -> & Hy & _); [lia|]. apply (H l1 l3 l4 x y); [done|congruence].
Qed.

Lemma nodup_split {A B} (key : A -> B) l :
  NoDup (map key l) <-> forall l1 l2 l3 x y, l = l1 ++ x :: l2 ++ y :: l3 -> key x <> key y.
Proof.
  split.
  - intros H l1 l2 l3 x y -> He. rewrite map_app in H. cbn [map] in H. rewrite map_app in H. cbn [map] in H.
    apply NoDup_app in H as (_ & _ & H). apply NoDup_cons in H as [H _]. apply H. rewrite He. apply elem_of_app. right. by left.
  - induction l as [|a l IH]; intros H; cbn [map]; constructor.
    + rewrite list_elem_of_In, in_map_iff. intros (y & Hy & Hin). apply in_split in Hin as (l2 & l3 & ->). by apply (H [] l2 l3 a y).
    + apply IH. intros l1 l2 l3 x y ->. by apply (H (a :: l1) l2 l3 x y).
Qed.

Lemma identities_distinct field key ids db :
  identity_conflicts field key (sort_by rv_id (List.filter (fun r => of_ids ids (rv_subnet r)) (pd_reservations db))) = [] <->
  NoDup (map key (List.filter (fun r => of_ids ids (rv_subnet r)) (pd_reservations db))).
Proof. rewrite identity_conflicts_none, <- nodup_split. by rewrite sort_by_perm. Qed.

Lemma scope_conflicts_none db ids :
  dhcpScopePolicyConflicts db ids = [] <-> agree (scope_signature db) (scopes_of db ids).
Proof.
  unfold dhcpScopePolicyConflicts. cbv zeta. destruct (Nat.ltb_spec (length (scopes_of db ids)) 2) as [Hl|Hl].
  - split; [|done]. intros _ x y Hx Hy. destruct (scopes_of db ids) as [|a [|b l]]; [by apply elem_of_nil in Hx| |simpl in Hl; lia].
    by apply list_elem_of_singleton in Hx as ->, Hy as ->.
  - rewrite <- uniq_agree, Nat.ltb_ge. destruct (Nat.ltb_spec (length (js_uniq (map (scope_signature db) (scopes_of db ids)))) 2); split; (done || lia).
Qed.

Lemma gateway_conflict_none subnets :
  gateway_conflict subnets = false <->
  agree sn_policy (List.filter is_allocated subnets) /\
  agree sn_gateway (List.filter (fun s => bool_decide (sn_policy s = policy_custom)) (List.filter is_allocated subnets)).
Proof. unfold gateway_conflict, gateway_policies, custom_gateways. by rewrite orb_false_iff, !uniq_agree. Qed.

(** The gateway of a merge reads as an address when the sources' gateways do. *)
Lemma merge_gateway_ok m subnets :
  wf_network m -> mapped_free m -> (forall s, s ∈ subnets -> gateway_ok (sn_gateway s)) -> gateway_ok (gw_address (mergeGateway m subnets)).
Proof.
  intros Hw Hm Hg ip. unfold mergeGateway. destruct (gateway_conflict subnets); [done|]. cbn [gw_address].
  destruct (first_last_fit m true Hw Hm) as [(a & Ha & _) (b & Hb & _)].
  destruct (default policy_none _); cbn [resolveGatewayAddress]; (intros [= <-] || intros ?); try done; intros Hne; [by exists a|by exists b|].
  unfold custom_gateways in *. rewrite js_uniq_head in *.
  destruct (List.filter _ (List.filter _ subnets)) as [|s l] eqn:E; [done|]. cbn [map head default or_null] in *.
  assert (s ∈ subnets) as Hs.
  { assert (In s (s :: l)) as Hin by (by left). rewrite <- E in Hin. apply List.filter_In in Hin as [Hin _].
    apply List.filter_In in Hin as [Hin _]. by apply list_elem_of_In. }
  specialize (Hg s Hs). destruct (sn_gateway s) as [g|]; [|done]. destruct g as [|ch g]; [done|].
  destruct (Hg _ eq_refl) as [x Hx]; [done|]. destruct (canonical_address _ _ Hx) as [Hcan Htext]. cbn in *.
  unfold canonical_or in *. rewrite Hcan in *. cbn in *. simplify_eq. by exists x.
Qed.

(** The plan of a division, and the networks its targets name. *)
Lemma divide_plan_facts sha256_state sha256_plan after_now db parent req plan m :
  parseNetwork (sn_cidr parent) = Ok m -> mapped_free m ->
  buildDividePlan sha256_state sha256_plan after_now db parent req = Ok plan ->
  let body := plan_body plan in
  exists nets, partition m nets /\ (length nets <= 256)%nat /\
    Forall2 (target_sound parent req) (pl_targets body) nets /\
    ((forall c n, dr_cidr req = Some c -> parseNetwork c = Ok n -> cidr n = c) -> map cidr nets = map tg_cidr (pl_targets body)) /\
    (pl_conflicts body = [] -> forall t, t ∈ pl_targets body ->
       gw_policy (tg_gateway t) <> None /\
       forall ip, gw_address (tg_gateway t) = Some ip -> ~ claimed after_now db [sn_id parent] ip).
Proof.
  intros Hc Hm. unfold buildDividePlan. destruct (divideTargets parent req) as [[mode ts]|] eqn:Hts; [|done]. cbn [mbind result_bind snd fst]. cbv zeta.
  destruct (List.filter _ (map fst (overrides_of req))); [|done].
  destruct (map_result (planTarget db parent (overrides_of req)) ts) as [planned|] eqn:Hpl; [|done]. cbn [mbind result_bind].
  destruct (transformationDependencyToken _ _ _) as [token|]; [|done]. cbn [lift_plan mbind result_bind]. intros [= <-].
  cbn [plan_body sealPlan pl_targets pl_conflicts].
  destruct (divide_partitions _ _ _ _ _ Hc Hm Hts) as (nets & Hnets & Hpart & Hlen & Hnorm).
  exists nets. split; [done|]. split; [done|].
  apply map_result_inv in Hpl, Hnets. pose proof (parseNetwork_wf _ _ Hc) as Hw.
  assert (Forall2 (target_sound parent req) planned nets) as Hsound.
  { apply Forall2_fmap_l in Hnets. assert (forall n, n ∈ nets -> mapped_free n) as Hfree by (intros n; by apply (partition_mapped_free m)).
    clear -Hpl Hnets Hfree. revert nets Hnets Hfree. induction Hpl as [|x y ts planned Hx Hpl IH]; intros nets Hnets Hfree.
    - inversion Hnets. constructor.
    - inversion Hnets as [|? n ? nets' Hn Hnets']; subst. constructor.
      + eapply planned_target_sound; [exact Hn|apply Hfree; by left|exact Hx].
      + apply IH; [done|]. intros k Hk. apply Hfree. by right. }
  split; [done|]. split.
  { intros Hc'. rewrite (Hnorm Hc'). clear -Hpl. induction Hpl as [|x y ts planned Hx Hpl IH]; cbn [map]; [done|]. rewrite IH. f_equal.
    symmetry. by eapply planned_cidr. }
  intros (Hmiss & (_ & Hcl)%app_eq_nil)%app_eq_nil t Ht. split.
  - intros He. destruct (existsb _ planned) eqn:Hex; [done|]. apply not_true_iff_false in Hex. apply Hex, existsb_exists.
    exists t. split; [by apply list_elem_of_In|]. by apply bool_decide_eq_true.
  - intros ip Hip. apply (proj1 (gateway_claims_none after_now db _ _) Hcl (tg_cidr t, tg_gateway t)); [|done|].
    + apply list_elem_of_In, in_map_iff. exists t. split; [done|]. by apply list_elem_of_In.
    + intros ->. apply list_elem_of_lookup in Ht as [i Hi]. destruct (Forall2_lookup_l _ _ _ _ _ Hsound Hi) as (n & _ & _ & Hg & _).
      rewrite Hip in Hg. destruct Hg as (_ & a & Ha & _). by vm_compute in Ha.
Qed.

(** A carved network is a target of its plan. *)
Lemma carve_target sha256_state sha256_plan after_now db parent req plan c :
  dr_newPrefix req = None -> dr_cidr req = Some c ->
  buildDividePlan sha256_state sha256_plan after_now db parent req = Ok plan -> c ∈ map tg_cidr (pl_targets (plan_body plan)).
Proof.
  intros Hp Hc. unfold buildDividePlan, divideTargets. rewrite Hp, Hc. destruct (subtractNetwork _ c) as [rest|]; [|done].
  cbn [lift_plan mbind result_bind mret result_ret fst snd]. cbv zeta. destruct (List.filter _ (map fst (overrides_of req))); [|done].
  cbn [map map_result]. destruct (planTarget db parent _ (c, String.eqb c c)) as [t|] eqn:Ht; [|done]. apply planned_cidr in Ht.
  destruct (map_result _ _) as [ts|]; [|done]. cbn [mbind result_bind]. destruct (transformationDependencyToken _ _ _); [|done].
  intros [= <-]. cbn. rewrite Ht. by left.
Qed.

(** ** Properties *)

(** C9. The plan of a division covers the network it divides, one that
    contains no IPv4-mapped IPv6 address. Its targets are at most 256 networks
    that partition the parent, whether or not they were selected; each
    target's gateway is an address of that target, one that is neither its
    network address nor its broadcast unless it is the parent's own custom
    gateway carried over, and a target without a gateway has the policy that
    says so or asks for one; each target gets at most one DHCP scope, whose
    interval lies among the target's hosts. The interval of a DHCPv4 or
    stateful DHCPv6 scope is its pool, and has the gateway at neither end; a
    SLAAC or stateless scope has no pool, and of its interval no more is said.
    A plan without conflicts settles every gateway, at an address that no
    allocation, enabled reservation or active lease of the parent holds. *)
Theorem divide_plan_sound sha256_state sha256_plan after_now db parent req plan m :
  parseNetwork (sn_cidr parent) = Ok m -> mapped_free m ->
  buildDividePlan sha256_state sha256_plan after_now db parent req = Ok plan ->
  let body := plan_body plan in
  exists nets, partition m nets /\ (length nets <= 256)%nat /\
    Forall2 (target_sound parent req) (pl_targets body) nets /\
    (pl_conflicts body = [] -> forall t, t ∈ pl_targets body ->
       gw_policy (tg_gateway t) <> None /\
       forall ip, gw_address (tg_gateway t) = Some ip -> ~ claimed after_now db [sn_id parent] ip).
Proof.
  intros Hc Hm Hplan. destruct (divide_plan_facts _ _ _ _ _ _ _ _ Hc Hm Hplan) as (nets & H1 & H2 & H3 & _ & H4). by exists nets.
Qed.

(** The plan of dividing 10.0.0.0/22 into /24 networks. *)
Definition example_network (id : Z) (c : string) (parent : option Z) (depth : Z) (status : Status) (gateway : option string) (policy : Policy) : Subnet :=
  match parseNetwork c with
  | Ok n => mkSubnet id c (netColumns n) parent depth status gateway policy "" None None None None None None 0 1
  | Err _ => mkSubnet id c (mkNetColumns "" None "" 0 0 None) parent depth status gateway policy "" None None None None None None 0 1
  end.

Definition empty_db (subnets : list Subnet) : PlanDb := mkPlanDb subnets [] [] [] [] [] [] [] [] [] [].

Definition example_parent : Subnet := example_network 1 "10.0.0.0/22" None 0 allocated (Some "10.0.0.1") policy_first.

Lemma divide_plan_sound_witness :
  exists plan nets, buildDividePlan (fun _ => "s") (fun _ => "p") (fun _ => false) (empty_db [example_parent]) example_parent
    (mkDivideRequest (Some (Some 24)) None [] [mkOverride "10.0.2.0/24" "custom" (Some "10.0.2.9")]) = Ok plan /\
    partition (buildNetwork 167772160 32 4 22) nets /\
    map (fun t => gw_address (tg_gateway t)) (pl_targets (plan_body plan)) =
      [Some "10.0.0.1"; Some "10.0.1.1"; Some "10.0.2.9"; Some "10.0.3.1"].
Proof.
  destruct (buildDividePlan (fun _ => "s") (fun _ => "p") (fun _ => false) (empty_db [example_parent]) example_parent
    (mkDivideRequest (Some (Some 24)) None [] [mkOverride "10.0.2.0/24" "custom" (Some "10.0.2.9")])) as [plan|] eqn:E.
  - destruct (divide_plan_sound _ _ _ _ example_parent _ plan (buildNetwork 167772160 32 4 22) ltac:(vm_compute; reflexivity)
      ltac:(by left) E) as (nets & Hp & _).
    exists plan, nets. split; [done|]. split; [done|]. vm_compute in E. injection E as <-. vm_compute. reflexivity.
  - vm_compute in E. discriminate E.
Defined.

(** The plan of a merge is about the network the merge makes, and it
    reports a conflict exactly when there is one. A merge that is possible
    names the one block its networks partition; the plan has that block as its
    only target, with a gateway that fits when it is not a custom one and at
    most one DHCP scope that fits. It has no conflicts if and only if the
    allocated networks agree on the gateway policy, on the custom gateway, and
    on VLAN, folder, domain, scan settings and reverse DNS, no two
    reservations share a MAC column or an address, nothing holds the gateway,
    and the DHCP scopes agree. *)
Theorem merge_plan_exact sha256_state sha256_plan after_now db subnets c plan :
  mergeNetworks (map sn_cidr subnets) = Ok (Merged c) -> (forall s, s ∈ subnets -> gateway_ok (sn_gateway s)) ->
  buildMergePlan sha256_state sha256_plan after_now db subnets c = Ok plan ->
  let body := plan_body plan in
  let ids := map sn_id subnets in
  let held := List.filter is_allocated subnets in
  let reserved := List.filter (fun r => of_ids ids (rv_subnet r)) (pd_reservations db) in
  exists m nets gateway scopes, parseNetwork c = Ok m /\ map_result parseNetwork (map sn_cidr subnets) = Ok nets /\
    partition m nets /\ pl_targets body = [mkTarget c true gateway scopes] /\
    (mapped_free m ->
       (forall ip, gw_address gateway = Some ip -> gw_policy gateway <> Some policy_custom -> gateway_fits m true ip) /\
       (length scopes <= 1)%nat /\ Forall (scope_fits m (gw_address gateway)) scopes) /\
    (pl_conflicts body = [] <->
       agree sn_policy held /\ agree sn_gateway (List.filter (fun s => bool_decide (sn_policy s = policy_custom)) held) /\
       Forall (fun f => agree (snd f) held) policy_fields /\
       NoDup (map rv_mac reserved) /\ NoDup (map rv_address reserved) /\
       (forall ip, gw_address gateway = Some ip -> ip <> "" -> ~ claimed after_now db ids ip) /\
       agree (scope_signature db) (scopes_of db ids)).
Proof.
  intros Hmerge Hgws. destruct (merge_partitions _ _ Hmerge) as (m & nets & Hc & _ & Hnets & Hpart).
  unfold buildMergePlan. rewrite Hc. cbn [lift_plan mbind result_bind]. cbv zeta.
  destruct (defaultScopesForTarget db _ c _) as [scopes|] eqn:Hs; [|done]. cbn [mbind result_bind].
  destruct (transformationDependencyToken _ _ _) as [token|]; [|done]. cbn [lift_plan mbind result_bind]. intros [= <-].
  cbn [plan_body sealPlan pl_targets pl_conflicts]. exists m, nets, (mergeGateway m subnets), scopes.
  split; [done|]. split; [done|]. split; [done|]. split; [done|]. split.
  - intros Hm. pose proof (parseNetwork_wf _ _ Hc) as Hw. split.
    + intros ip. unfold mergeGateway. destruct (gateway_conflict subnets); [done|]. cbn [gw_address gw_policy].
      destruct (default policy_none _); cbn [resolveGatewayAddress]; (intros [= <-] || intros ?); try done; intros _; by apply first_last_fit.
    + eapply target_scopes_fit; [exact Hc|done| |exact Hs]. by apply merge_gateway_ok.
  - rewrite !app_nil, field_conflicts_none, !identities_distinct, gateway_claims_none, scope_conflicts_none.
    assert ((if gateway_conflict subnets then [GatewayPolicyConflict] else []) = [] <-> gateway_conflict subnets = false) as -> by (by destruct (gateway_conflict subnets)).
    rewrite gateway_conflict_none.
    assert (NoDup (map (fun r => Some (rv_address r)) (List.filter (fun r => of_ids (map sn_id subnets) (rv_subnet r)) (pd_reservations db))) <->
      NoDup (map rv_address (List.filter (fun r => of_ids (map sn_id subnets) (rv_subnet r)) (pd_reservations db)))) as ->.
    { rewrite <- (map_map rv_address Some). split; [apply NoDup_fmap_1|apply NoDup_fmap_2; apply _]. }
    setoid_rewrite list_elem_of_singleton. split; [|naive_solver].
    intros (? & ? & ? & ? & Hcl & ?). split_and!; try naive_solver.
Qed.

Definition example_left : Subnet := example_network 2 "10.0.0.0/25" (Some 1) 1 allocated (Some "10.0.0.1") policy_first.
Definition example_right : Subnet := example_network 3 "10.0.0.128/25" (Some 1) 1 unallocated None policy_none.

Lemma merge_plan_exact_witness :
  exists plan m nets gateway scopes,
    buildMergePlan (fun _ => "s") (fun _ => "p") (fun _ => false) (empty_db [example_left; example_right]) [example_left; example_right]
      "10.0.0.0/24" = Ok plan /\
    parseNetwork "10.0.0.0/24" = Ok m /\ partition m nets /\
    pl_targets (plan_body plan) = [mkTarget "10.0.0.0/24" true gateway scopes] /\ gw_address gateway = Some "10.0.0.1" /\
    pl_conflicts (plan_body plan) = [].
Proof.
  destruct (buildMergePlan (fun _ => "s") (fun _ => "p") (fun _ => false) (empty_db [example_left; example_right]) [example_left; example_right]
      "10.0.0.0/24") as [plan|] eqn:E; [|vm_compute in E; discriminate E].
  assert (forall s, s ∈ [example_left; example_right] -> gateway_ok (sn_gateway s)) as Hg.
  { intros s [-> | [-> | H%elem_of_nil]%elem_of_cons]%elem_of_cons g; [intros [= <-] _; eexists; vm_compute; reflexivity|done|done]. }
  destruct (merge_plan_exact _ _ _ _ [example_left; example_right] "10.0.0.0/24" plan ltac:(vm_compute; reflexivity) Hg E)
    as (m & nets & gateway & scopes & Hm & _ & Hp & Ht & _).
  exists plan, m, nets, gateway, scopes. split; [done|]. split; [done|]. split; [done|]. split; [done|].
  vm_compute in E. injection E as <-. vm_compute in Ht. injection Ht as <- <-. split; [done|]. vm_compute. reflexivity.
Defined.

(** A custom gateway of the parent is carried over without the check an
    override passes: here it is the network address of its new network, and
    the plan has no conflict. *)
Example inherited_gateway_on_boundary :
  let parent := example_network 1 "10.0.0.0/24" None 0 allocated (Some "10.0.0.128") policy_custom in
  option_map (fun p => (map (fun t => (tg_cidr t, gw_address (tg_gateway t))) (pl_targets (plan_body p)), pl_conflicts (plan_body p)))
    (try_ok (buildDividePlan (fun _ => "s") (fun _ => "p") (fun _ => false) (empty_db [parent]) parent
      (mkDivideRequest (Some (Some 25)) None [] [mkOverride "10.0.0.0/25" "first" None])))
  = Some ([("10.0.0.0/25", Some "10.0.0.1"); ("10.0.0.128/25", Some "10.0.0.128")], []) /\
  option_map topologyAddresses (try_ok (parseNetwork "10.0.0.128/25")) = Some ["10.0.0.128"; "10.0.0.255"] /\
  buildDividePlan (fun _ => "s") (fun _ => "p") (fun _ => false) (empty_db [parent]) parent
      (mkDivideRequest (Some (Some 25)) None [] [mkOverride "10.0.0.128/25" "custom" (Some "10.0.0.128")])
  = Err (InvalidCustomGateway "10.0.0.128/25").
Proof. vm_compute. done. Qed.

(** Two reservations of DHCPv6 clients, which have a DUID and no MAC address,
    count as one client, and two with one DUID do not. *)
Example duid_reservations_conflict :
  map (identity_conflicts "mac_address" rv_mac)
    [[mkReservationRow 1 2 "fd00::10" None (Some "000100011") None true; mkReservationRow 2 3 "fd00:0:0:1::10" None (Some "000100012") None true];
     [mkReservationRow 1 2 "fd00::10" (Some "a") (Some "000100011") None true; mkReservationRow 2 3 "fd00:0:0:1::10" (Some "b") (Some "000100011") None true]]
  = [[ReservationIdentity "mac_address" None [1; 2]]; []].
Proof. vm_compute. reflexivity. Qed.

(** ** Hosts through a division *)

(** The network that holds the address after a division, and that the address
    is a usable one there. *)
Definition lands (children : list (Z * Network)) (a : Address) (c : Z) : Prop :=
  exists n, (c, n) ∈ children /\ covers n (a_family a) (a_value a) /\ isTopologyAddress n (a_value a) = false.

Lemma topology_texts n v : wf_network n -> mapped_free n -> spellable v (nbits n) ->
  isTopologyAddress n v = true <-> bigToAddress v (family n) ∈ topologyAddresses n.
Proof. intros Hw Hm Hs. by destruct (topology_agree n v Hw Hm Hs). Qed.

(** The boundaries of the children are their topology addresses. *)
Lemma boundaries_none children ip :
  js_get ip (boundaries children) = None <-> forall n, n ∈ children -> ip ∉ topologyAddresses n.
Proof.
  unfold boundaries. rewrite js_map_none. unfold keys. rewrite list_elem_of_In, in_map_iff.
  setoid_rewrite in_flat_map. setoid_rewrite list_elem_of_In. split.
  - intros H n Hn Hip. apply H. destruct (topologyAddresses n) as [|net [|bc l]] eqn:E; cbn in Hip.
    + done.
    + destruct Hip as [<-|[]]. exists (net, (on_network, cidr n)). split; [done|]. exists n. rewrite E. split; [done|by left].
    + destruct l as [|? l]; [|exfalso; unfold topologyAddresses in E; destruct (_ <=? _); [done|]; by destruct (legacy n)].
      destruct Hip as [<-|[<-|[]]]; eexists (_, _); (split; [reflexivity|]); exists n; rewrite E; (split; [done|]); [by left|right; by left].
  - intros H ((ip' & e) & <- & n & Hn & He). apply (H n Hn). destruct (topologyAddresses n) as [|net [|bc l]]; cbn in *.
    + done.
    + destruct He as [[= <- _]|[]]. by left.
    + destruct He as [[= <- _]|[[= <- _]|[]]]; [by left|right; by left].
Qed.

(** An address that does not classify as lost has a place. *)
Lemma classify_none m children ip a :
  wf_network m -> mapped_free m -> partition m (map snd children) -> addressToBig ip = Ok a ->
  covers m (a_family a) (a_value a) -> classify (map snd children) ip = None ->
  exists c, childContaining children ip = Some c /\ lands children a c.
Proof.
  intros Hw Hm Hp Ha Hcov. destruct (canonical_address _ _ Ha) as [Hcan Htext]. unfold classify. rewrite Hcan.
  destruct (js_get _ (boundaries _)) as [[reason child]|] eqn:Hb; [done|]. intros _.
  pose proof (proj1 (boundaries_none _ _) Hb) as Hfree. unfold childContaining. rewrite Ha.
  destruct (partition_cover m (map snd children) Hp _ _ Hcov) as (n & Hn & Hnc & _).
  set (test := fun c : Z * Network => _).
  assert (forall c, test c = true <-> covers (snd c) (a_family a) (a_value a)) as Htest.
  { intros [i k]. unfold test, covers. cbn [snd]. rewrite !andb_true_iff, Z.eqb_eq, !Z.leb_le. tauto. }
  destruct (List.find test children) as [[c k]|] eqn:Hf.
  - exists c. split; [done|]. apply find_some in Hf as [Hin Ht%Htest]. cbn [snd] in Ht. exists k.
    split; [by apply list_elem_of_In|]. split; [done|].
    assert (k ∈ map snd children) as Hk by (apply list_elem_of_In, in_map_iff; by exists (c, k)).
    destruct (partition_elem m _ Hp k Hk) as [Hkw _]. pose proof (partition_mapped_free m _ Hp k Hm Hk) as Hkm.
    apply not_true_iff_false. intros Htop. destruct Ht as [Hkf Hkv].
    rewrite topology_texts in Htop; [|done|done|by apply mapped_free_spellable]. rewrite Hkf in Htop. by apply (Hfree k Hk).
  - exfalso. apply list_elem_of_In, in_map_iff in Hn as ((c & k) & <- & Hin). apply (find_none _ _ Hf) in Hin.
    apply not_true_iff_false in Hin. by apply Hin, Htest.
Qed.

Lemma losses_none {A} children carries id ip (l : list A) :
  losses children carries id ip l = [] <-> forall a, a ∈ l -> classify children (ip a) = None.
Proof. unfold losses. rewrite omap_none. split; intros H a Ha; specialize (H a Ha); by destruct (classify children (ip a)). Qed.

(** *** Accepted losses *)

Definition loss_key (l : Loss) : string * Z := (ll_carries l, ll_record l).

Lemma resolves_key r l : resolves r l = true <-> (rs_carries r, rs_record r) = (ll_carries l, Some (ll_record l)).
Proof.
  unfold resolves. rewrite andb_true_iff, String.eqb_eq, bool_decide_eq_true. split; [by intros [-> ->]|by intros [= -> ->]].
Qed.

Lemma accept_inv lossy rs accepted acc :
  accept lossy accepted rs = Ok acc -> NoDup (map loss_key accepted) -> (forall l, l ∈ accepted -> l ∈ lossy) ->
  NoDup (map loss_key acc) /\ (forall l, l ∈ acc -> l ∈ lossy) /\
  (forall l, l ∈ acc -> l ∈ accepted \/ exists r, r ∈ rs /\ rs_action r = "delete" /\ resolves r l = true).
Proof.
  revert accepted. induction rs as [|r rs IH]; intros accepted; cbn [accept].
  - intros [= <-] Hn Hin. split; [done|]. split; [done|]. by left.
  - destruct (String.eqb_spec (rs_action r) "delete") as [Hd|]; cbn [negb]; [|done].
    destruct (List.find (resolves r) (rev lossy)) as [l|] eqn:Hf; [|done]. destruct (existsb (resolves r) accepted) eqn:Hdup; [done|].
    intros Hacc Hn Hin. apply find_some in Hf as [Hl Hr]. apply in_rev in Hl.
    destruct (IH _ Hacc) as (Hn' & Hin' & Hfrom).
    + rewrite map_app. apply NoDup_app. split; [done|]. split; [|apply NoDup_singleton]. cbn [map].
      intros k Hk ->%list_elem_of_singleton. apply not_true_iff_false in Hdup. apply Hdup, existsb_exists.
      apply list_elem_of_In, in_map_iff in Hk as (l' & Hk & Hl'). exists l'. split; [done|].
      apply resolves_key in Hr. apply resolves_key. unfold loss_key in Hk. congruence.
    + intros l' [Hl'| ->%list_elem_of_singleton]%elem_of_app; [by apply Hin|by apply list_elem_of_In].
    + split; [done|]. split; [done|]. intros l' Hl'. destruct (Hfrom l' Hl') as [[Ha|Hs%list_elem_of_singleton]%elem_of_app|(r' & Hr' & Hd' & Hres)].
      * by left.
      * subst l'. right. exists r. split; [by left|done].
      * right. exists r'. split; [by right|done].
Qed.

Lemma accepted_all lossy rs acc :
  validateConflictResolutions lossy rs = Ok (Some acc) ->
  forall l, l ∈ lossy -> exists rs', rs = Some rs' /\ exists r, r ∈ rs' /\ rs_action r = "delete" /\ resolves r l = true.
Proof.
  intros H l Hl. unfold validateConflictResolutions in H. destruct lossy as [|l0 lossy']; [by apply elem_of_nil in Hl|].
  remember (l0 :: lossy') as lossy eqn:Hlossy. clear l0 lossy' Hlossy. destruct rs as [rs|]; [|done]. exists rs. split; [done|].
  destruct (accept lossy [] rs) as [acc'|] eqn:Ha; [|done]. cbn [mbind result_bind] in H.
  destruct (Nat.eqb_spec (length acc') (length (loss_keys lossy))) as [Hlen|]; [|done].
  destruct (accept_inv _ _ _ _ Ha) as (Hn & Hin & Hfrom); [constructor|by intros ? ?%elem_of_nil|].
  assert (In (loss_key l) (map loss_key acc')) as Hk.
  { apply (NoDup_length_incl (l' := loss_keys lossy)).
    - by apply NoDup_ListNoDup.
    - by rewrite length_map, Hlen.
    - intros k (l' & <- & Hl')%in_map_iff. apply list_elem_of_In, elem_of_js_uniq, list_elem_of_In, (in_map loss_key), list_elem_of_In, Hin, list_elem_of_In, Hl'.
    - apply list_elem_of_In, elem_of_js_uniq, list_elem_of_In, (in_map loss_key), list_elem_of_In, Hl. }
  apply in_map_iff in Hk as (l' & Hk & Hl'). apply list_elem_of_In in Hl'. destruct (Hfrom l' Hl') as [?%elem_of_nil|(r & Hr & Hd & Hres)]; [done|].
  exists r. split; [done|]. split; [done|]. apply resolves_key in Hres. apply resolves_key. unfold loss_key in Hk. congruence.
Qed.

(** A division strands no host behind the operator's back. The routes go
    on only when every row that would be stranded has a resolution of its own
    in the request. When there is no such row, each reservation, each active
    lease and each address row that says something about a host, wherever its
    address lies in the parent, moves to the child that holds its address, and
    the address is neither the network address nor the broadcast of that child;
    and every enabled manual address record in an enabled forward zone still
    points at such an address. *)
Theorem division_strands_no_host after_now db parent children m :
  List.find (fun s => sn_id s =? sn_id parent) (pd_subnets db) = Some parent ->
  parseNetwork (sn_cidr parent) = Ok m -> mapped_free m -> partition m (map snd children) ->
  (forall lossy rs accepted l, validateConflictResolutions lossy rs = Ok (Some accepted) -> l ∈ lossy ->
     exists rs' r, rs = Some rs' /\ r ∈ rs' /\ rs_action r = "delete" /\ resolves r l = true) /\
  (detectLossyIpsForDivision after_now db (sn_id parent) (map cidr (map snd children)) = Ok [] ->
   let settled := fun id ip => id = sn_id parent -> forall a, addressToBig ip = Ok a -> covers m (a_family a) (a_value a) ->
     exists c, moveToChildren (sn_id parent) children [(id, ip)] = [(c, ip)] /\ lands children a c in
   (forall r, r ∈ pd_reservations db -> settled (rv_subnet r) (rv_address r)) /\
   (forall r, r ∈ pd_leases db -> active_lease after_now (ls_expires r) = true -> settled (ls_subnet r) (ls_address r)) /\
   (forall r, r ∈ pd_ips db -> meaningful r = true -> if_source r <> "topology" -> settled (if_subnet r) (if_address r)) /\
   (forall r a, r ∈ pd_records db -> ar_zone_forward r = true -> ar_zone_enabled r = true -> ar_enabled r = true ->
      default "manual" (ar_source r) = "manual" -> addressToBig (ar_value r) = Ok a -> covers m (a_family a) (a_value a) ->
      exists c, lands children a c)).
Proof.
  intros Hrow Hc Hm Hp. pose proof (parseNetwork_wf _ _ Hc) as Hw. split.
  { intros lossy rs accepted l Hv Hl. destruct (accepted_all _ _ _ Hv l Hl) as (rs' & -> & r & Hr). by exists rs', r. }
  unfold detectLossyIpsForDivision. rewrite map_result_reparse by apply Hp. cbn [mbind result_bind]. cbv zeta. rewrite Hrow.
  destruct (filter_result _ _) as [records|] eqn:Hrec; [|done]. cbn [mbind result_bind]. intros [= Hl].
  apply app_eq_nil in Hl as [Hrv Hl]. apply app_eq_nil in Hl as [Hip Hl]. apply app_eq_nil in Hl as [Har Hls].
  rewrite losses_none in Hrv. rewrite losses_none in Hip. rewrite losses_none in Har. rewrite losses_none in Hls. setoid_rewrite list_elem_of_In in Hrv. setoid_rewrite list_elem_of_In in Hip.
  setoid_rewrite list_elem_of_In in Hls. setoid_rewrite List.filter_In in Hrv. setoid_rewrite List.filter_In in Hip. setoid_rewrite List.filter_In in Hls.
  assert (forall ip a, addressToBig ip = Ok a -> covers m (a_family a) (a_value a) -> classify (map snd children) ip = None ->
    exists c, moveToChildren (sn_id parent) children [(sn_id parent, ip)] = [(c, ip)] /\ lands children a c) as Hmove.
  { intros ip a Ha Hcov Hcl. destruct (classify_none m children ip a Hw Hm Hp Ha Hcov Hcl) as (c & Hcc & Hlands). exists c.
    split; [|done]. unfold moveToChildren. cbn [map fst snd]. by rewrite Z.eqb_refl, Hcc. }
  split_and!.
  - intros r Hr Hid a Ha Hcov. rewrite Hid. apply Hmove; [done|done|]. apply Hrv. split; [by apply list_elem_of_In|]. by apply Z.eqb_eq.
  - intros r Hr Hact Hid a Ha Hcov. rewrite Hid. apply Hmove; [done|done|]. apply Hls. split; [by apply list_elem_of_In|].
    rewrite Hact, andb_true_r. by apply Z.eqb_eq.
  - intros r Hr Hmean Hsrc Hid a Ha Hcov. rewrite Hid. apply Hmove; [done|done|]. apply Hip. split; [by apply list_elem_of_In|].
    rewrite Hmean, andb_true_r. apply andb_true_iff. split; [by apply Z.eqb_eq|]. by apply negb_true_iff, String.eqb_neq.
  - intros r a Hr H1 H2 H3 H4 Ha Hcov. destruct (classify_none m children (ar_value r) a) as (c & _ & Hlands); try done; [|by exists c].
    apply Har. apply (filter_result_in _ _ _ r Hrec).
    + apply list_elem_of_In, List.filter_In. split; [by apply list_elem_of_In|]. by rewrite H1, H2, H3, H4.
    + unfold isValidAddress. pose proof Ha as Ha'. unfold addressToBig in Ha'. destruct (parseIp no_zone (ar_value r)); [|done].
      unfold networkContains. rewrite Hc, Ha. cbn [mbind result_bind]. destruct Hcov as [Hf [Hlo Hhi]].
      rewrite (proj2 (Z.eqb_eq (a_family a) (family m)) (eq_sym Hf)). cbn [negb].
      by rewrite (proj2 (Z.leb_le _ _) Hlo), (proj2 (Z.leb_le _ _) Hhi).
Qed.

Definition example_whole : Subnet := example_network 1 "10.0.0.0/24" None 0 allocated (Some "10.0.0.1") policy_first.

Definition host_db : PlanDb :=
  mkPlanDb [example_whole] [] [] [] [] [mkReservationRow 7 1 "10.0.0.200" (Some "aa:bb:cc:dd:ee:ff") None None true]
    [mkLeaseRow 8 1 "10.0.0.30" None None "infinite"] [mkIpFact 9 1 "10.0.0.127" None None "unassigned" "system"] [] [] [].

Lemma division_strands_no_host_witness :
  exists n1 n2 c a, splitNetwork "10.0.0.0/24" (Some 25) 256 = Ok [n1; n2] /\
    moveToChildren 1 [(2, n1); (3, n2)] [(1, "10.0.0.200")] = [(c, "10.0.0.200")] /\
    addressToBig "10.0.0.200" = Ok a /\ lands [(2, n1); (3, n2)] a c.
Proof.
  destruct (splitNetwork "10.0.0.0/24" (Some 25) 256) as [nets|] eqn:Hs; [|vm_compute in Hs; discriminate Hs].
  assert (exists n1 n2, nets = [n1; n2]) as (n1 & n2 & ->) by (vm_compute in Hs; injection Hs as <-; by eexists _, _).
  destruct (split_partitions "10.0.0.0/24" (buildNetwork 167772160 32 4 24) 25 256 [n1; n2]) as [Hp _];
    [vm_compute; reflexivity|by left|exact Hs|].
  destruct (division_strands_no_host (fun _ => false) host_db example_whole [(2, n1); (3, n2)] (buildNetwork 167772160 32 4 24)) as [_ H];
    [vm_compute; reflexivity|vm_compute; reflexivity|by left|exact Hp|].
  destruct (addressToBig "10.0.0.200") as [a|] eqn:Ha; [|vm_compute in Ha; discriminate Ha].
  destruct H as [Hr _].
  - vm_compute in Hs. injection Hs as <- <-. vm_compute. reflexivity.
  - destruct (Hr (mkReservationRow 7 1 "10.0.0.200" (Some "aa:bb:cc:dd:ee:ff") None None true) ltac:(by left) eq_refl a Ha) as (c & Hmv & Hl).
    + vm_compute in Ha. injection Ha as <-. split; [reflexivity|split; vm_compute; discriminate].
    + exists n1, n2, c, a. split; [reflexivity|].
      assert (sn_id example_whole = 1) as Hid by (vm_compute; reflexivity). rewrite Hid in Hmv. split; [exact Hmv|]. split; [reflexivity|exact Hl].
Defined.

(** ** Staleness *)

(** A token stands for the rows it was computed from, unless two states have
    one digest: a plan whose token is accepted was made from the rows as they
    are, and a plan made from them is accepted. *)
Lemma current_token sha256_state db before ids token s s0 :
  dependencyState before ids = Ok s0 -> dependencyState db ids = Ok s -> (sha256_state s = sha256_state s0 -> s = s0) ->
  token = sha256_state s0 -> token <> "" ->
  isCurrentTransformationPlan sha256_state db (mkPlanClaim ids (Some token) None None) = Ok (bool_decide (sha256_state s = sha256_state s0)) /\
  (isCurrentTransformationPlan sha256_state db (mkPlanClaim ids (Some token) None None) = Ok true <-> s = s0).
Proof.
  intros H0 Hs Hinj -> Hne. unfold isCurrentTransformationPlan, transformationDependencyToken. cbn [pc_token pc_sources pc_plan_id].
  assert (or_null (Some (sha256_state s0)) = Some (sha256_state s0)) as -> by (destruct (sha256_state s0) eqn:He0; [by destruct Hne|reflexivity]).
  rewrite Hs. cbn [mbind result_bind mret result_ret]. destruct (String.eqb_spec (sha256_state s) (sha256_state s0)) as [He|He]; cbn [negb or_null].
  - rewrite bool_decide_eq_true_2 by done. split; [done|]. split; [by intros _; apply Hinj|done].
  - rewrite bool_decide_eq_false_2 by done. split; [done|]. split; [done|]. intros ->. by destruct He.
Qed.
