(* ===== verification/NetworkTree.v ===== *)
(** * The tree of networks

    The operations that change the [subnets] table: creating a supernet,
    dividing, merging, configuring and deleting networks
    ([server/src/routes/subnets.js] and
    [server/src/services/subnet-topology.js]). Each is given as what it does
    to this table; the rows of other tables are an argument where a decision
    rests on them, and a transaction that throws leaves the table as it was. *)

From S2P Require Import Prelude JsString Address Cidr Partition Subnets TransformationPlan.

(** ** Errors and settings *)

Inductive tree_error :=
| Refused (status : Z) (message : string)
| Threw (e : table_error)
| BadPlan (e : plan_error)
| BadResolution (e : resolution_error)
| UndefinedTarget.

Definition lift_table {A} (m : result table_error A) : result tree_error A :=
  match m with Ok a => Ok a | Err e => Err (Threw e) end.
Definition lift_cidr_tree {A} (m : result cidr_error A) : result tree_error A :=
  match m with Ok a => Ok a | Err e => Err (Threw (TableCidr e)) end.

(** The settings the operations read. *)
Record Settings := mkSettings { subnet_name_template : string; default_gateway_position : Policy; ipv6_enabled : bool }.

(** [refuseIpv6Unless] *)
Definition ipv6_refused (cfg : Settings) (family : Z) : bool := (family =? 6) && negb (ipv6_enabled cfg).

(** [if (test) return res.status(status).json({ error })] *)
Definition refuse_if (test : bool) (status : Z) (message : string) : result tree_error () :=
  if test then Err (Refused status message) else Ok ().

(** ** Creating a supernet *)

(** The body of [POST /api/subnets] after the guards on its types. *)
Record CreateBody := mkCreateBody
  { cb_cidr : string; cb_name : option string; cb_description : option string; cb_vlan : option Z; cb_folder : option Z }.

(** [folder_exists]: [folderIdError] found no fault with the folder. *)
Definition createSubnet (cfg : Settings) (folder_exists : bool) (t : Table) (b : CreateBody) : result tree_error (Table * Z) :=
  parsed ← (match parseNetwork (cb_cidr b) with Ok n => Ok n | Err _ => Err (Refused 400 "Invalid CIDR notation") end);
  _ ← refuse_if (ipv6_refused cfg (family parsed)) 409 "IPv6 is switched off";
  normalized ← lift_cidr_tree (normalizeNetwork (cb_cidr b));
  _ ← refuse_if (existsb (fun r => String.eqb (sn_cidr r) normalized) (rows t)) 409 "Subnet already exists";
  validation ← lift_cidr_tree (validateNetworkBounds normalized);
  _ ← (match validation with BoundsOk => Ok () | BoundsBad error => Err (Refused 400 error) end);
  overlap ← lift_cidr_tree (find_result (fun root => networksOverlap normalized (sn_cidr root))
                              (List.filter (fun r => bool_decide (sn_parent r = None)) (rows t)));
  _ ← (match overlap with Some root => Err (Refused 409 ("Overlaps with existing supernet " +:+ sn_cidr root)) | None => Ok () end);
  name ← (match or_null (cb_name b) with
          | Some name => Ok name
          | None => lift_cidr_tree (networkNameFromTemplate (subnet_name_template cfg) normalized)
          end);
  _ ← refuse_if (negb folder_exists) 400 "Folder not found";
  lift_table (insertSubnet t (mkNewSubnet normalized (Some name) (cb_description b) (cb_vlan b) None None None (or_null_z (cb_folder b))
    (Some unallocated) (Some 0) None None None)).

(** ** Consolidating *)

Definition set_parent (parent depth : Z) (r : Subnet) : Subnet :=
  mkSubnet (sn_id r) (sn_cidr r) (sn_net r) (Some parent) depth (sn_status r) (sn_gateway r) (sn_policy r) (sn_name r) (sn_description r)
    (sn_vlan r) (sn_folder r) (sn_domain r) (sn_scan_interval r) (sn_scan_enabled r) (sn_reverse r) (sn_revision r).

Definition is_intermediary (t : Table) (c : Subnet) : bool :=
  bool_decide (sn_status c = unallocated) && (0 <? length (children t (sn_id c)))%nat.

(** One pass of the loop: the grandchildren take the child's place. *)
Definition lift_children (parentId : Z) (t : Table) (child : Subnet) : Table :=
  deleteSubnetRow (update_where (is_child (sn_id child)) (set_parent parentId (sn_depth child)) t) (sn_id child).

Fixpoint consolidate (fuel : nat) (t : Table) (parentId : option Z) : Table :=
  match fuel, parentId with
  | S fuel', Some pid =>
      let kids := children t pid in
      match kids with
      | [] => t
      | _ =>
          if negb (forallb (is_intermediary t) kids) then t
          else match find_subnet t pid with
               | None => t
               | Some parent => consolidate fuel' (fold_left (lift_children pid) kids t) (sn_parent parent)
               end
      end
  | _, _ => t
  end.

(** Every call of itself deletes a row. *)
Definition consolidateIntermediate (t : Table) (parentId : option Z) : Table := consolidate (S (length (rows t))) t parentId.

(** ** Dividing *)

(** One child of a division, with the reverse flag [migrateConfigToChild]
    hands down. *)
Definition insertTarget (template : string) (parent : Subnet) (t : Table) (target : Target) : result table_error Table :=
  name ← lift_cidr (networkNameFromTemplate template (tg_cidr target));
  added ← insertSubnet t (mkNewSubnet (tg_cidr target) (Some name) (sn_description parent) (sn_vlan parent)
             (gw_address (tg_gateway target)) (gw_policy (tg_gateway target)) (Some (sn_id parent)) (sn_folder parent)
             (Some (sn_status parent)) (Some (sn_depth parent + 1)) (sn_domain parent) (sn_scan_interval parent) (sn_scan_enabled parent));
  mret (if sn_reverse parent =? 0 then fst added else setReverseDnsFlag (snd added) (fst added)).

Definition insertTargets (template : string) (parent : Subnet) (targets : list Target) (t : Table) : result table_error Table :=
  fold_result (insertTarget template parent) targets t.

(** The body of a divide request; [vb_targetPrefix] is [parseInt(new_prefix,
    10)], [None] when that is [NaN]. *)
Record DivideBody := mkDivideBody
  { vb_request : DivideRequest; vb_targetPrefix : option Z; vb_force : bool; vb_resolutions : option (list Resolution);
    vb_token : option string; vb_plan_id : option string }.

Definition with_rows (db : PlanDb) (t : Table) : PlanDb :=
  mkPlanDb (rows t) (pd_ranges db) (pd_scopes db) (pd_scope_options db) (pd_scope_pools db) (pd_reservations db) (pd_leases db)
    (pd_ips db) (pd_records db) (pd_settings db) (pd_defaults db).

Section Routes.
Context (sha256_state : DependencyState -> string) (sha256_plan : PlanBody -> string) (after_now : string -> bool).
Context (cfg : Settings).

Definition stale (db : PlanDb) (token planId : option string) (current : Plan) : result tree_error bool :=
  match or_null token with
  | None => mret false
  | Some _ => b ← lift_cidr_tree (isCurrentTransformationPlan sha256_state db
                     (mkPlanClaim (pl_sources (plan_body current)) token planId (Some current)));
              mret (negb b)
  end.

(** The targets the insert loop runs over. In the equal mode they are looked
    up by the blocks of [parseInt(new_prefix)]; one that the plan does not
    have throws. *)
Definition executedTargets (parent : Subnet) (b : DivideBody) (plan : Plan) : result tree_error (list Target) :=
  match dr_newPrefix (vb_request b) with
  | None => mret (pl_targets (plan_body plan))
  | Some _ =>
      blocks ← lift_cidr_tree (splitNetwork (sn_cidr parent) (vb_targetPrefix b) 256);
    _ ← refuse_if (existsb (fun c => negb (existsb (String.eqb c) (map cidr blocks))) (dr_selected (vb_request b))) 400 "Invalid selected CIDRs";
      map_result (fun n => match List.find (fun t => String.eqb (tg_cidr t) (cidr n)) (rev (pl_targets (plan_body plan))) with
                           | Some t => Ok t
                           | None => Err UndefinedTarget
                           end) blocks
  end.

(** The gates of the mode, before the transaction. *)
Definition mode_gates (parent : Subnet) (b : DivideBody) : result tree_error () :=
  parsed ← lift_cidr_tree (parseNetwork (sn_cidr parent));
  match dr_newPrefix (vb_request b) with
  | Some _ =>
      match vb_targetPrefix b with
      | Some p => refuse_if ((p <=? prefix parsed) || (nbits parsed <? p)) 400 "Invalid target prefix"
      | None => Ok ()
      end
  | None =>
      match dr_cidr (vb_request b) with
      | None => Err (Refused 400 "CIDR or new_prefix is required")
      | Some c =>
          inner ← lift_cidr_tree (isNetworkWithin c (sn_cidr parent));
          refuse_if (negb inner) 400 "Child CIDR must be within parent subnet"
      end
  end.

(** The gate on hosts that would be stranded. *)
Definition loss_gate (db : PlanDb) (parent : Subnet) (cidrs : list string) (resolutions : option (list Resolution)) : result tree_error () :=
  lossy ← lift_cidr_tree (detectLossyIpsForDivision after_now db (sn_id parent) cidrs);
  accepted ← (match validateConflictResolutions lossy resolutions with Ok a => Ok a | Err e => Err (BadResolution e) end);
  refuse_if ((0 <? length lossy)%nat && negb (bool_decide (is_Some accepted))) 409 "host IPs would be unusable after divide".

(** [POST /api/subnets/:id/divide]. The carved CIDR is normalized on the way
    in. *)
Definition divideSubnet (db : PlanDb) (t : Table) (id : Z) (b : DivideBody) : result tree_error Table :=
  parent ← (match find_subnet t id with Some p => Ok p | None => Err (Refused 404 "Subnet not found") end);
  _ ← refuse_if (ipv6_refused cfg (address_family (sn_net parent))) 409 "IPv6 is switched off";
  _ ← refuse_if (0 <? length (children t (sn_id parent)))%nat 400 "Subnet already has children. Cannot divide further.";
  _ ← refuse_if (bool_decide (sn_status parent = allocated) && negb (vb_force b)) 409
        "Subnet is allocated. Division will migrate or remove its configuration.";
  normalized ← (match or_null (dr_cidr (vb_request b)) with
                | Some c => n ← lift_cidr_tree (normalizeNetwork c); mret (Some n)
                | None => mret None
                end);
  let req := mkDivideRequest (dr_newPrefix (vb_request b)) normalized (dr_selected (vb_request b)) (dr_gateways (vb_request b)) in
  let b := mkDivideBody req (vb_targetPrefix b) (vb_force b) (vb_resolutions b) (vb_token b) (vb_plan_id b) in
  let db := with_rows db t in
  plan ← (match buildDividePlan sha256_state sha256_plan after_now db parent req with Ok p => Ok p | Err e => Err (BadPlan e) end);
  _ ← refuse_if (0 <? length (pl_conflicts (plan_body plan)))%nat 409 "Transformation conflicts must be resolved before execution.";
  old ← stale db (vb_token b) (vb_plan_id b) plan;
  _ ← refuse_if old 409 "Transformation plan is stale";
  _ ← mode_gates parent b;
  targets ← executedTargets parent b plan;
  _ ← loss_gate db parent (map tg_cidr targets) (vb_resolutions b);
  inserted ← lift_table (insertTargets (subnet_name_template cfg) parent targets t);
  mret (consolidateIntermediate (clearParentConfig (sn_id parent) inserted) (sn_parent parent)).

(** ** Merging *)

(** [restoreMergedParent] on the parent's row. *)
Definition restoreMergedParent (parent : Subnet) (gateway : option string) (policy : Policy) (configSource : option Subnet) : Table -> Table :=
  update_row (sn_id parent) (fun r =>
    match configSource with
    | Some c => mkSubnet (sn_id r) (sn_cidr r) (sn_net r) (sn_parent r) (sn_depth r) allocated gateway policy (sn_name c) (sn_description c)
                  (sn_vlan c) (or_null_z (sn_folder c)) (or_null (sn_domain c)) (sn_scan_interval c) (sn_scan_enabled c) (sn_reverse c) (sn_revision r + 1)
    | None => mkSubnet (sn_id r) (sn_cidr r) (sn_net r) (sn_parent r) (sn_depth r) unallocated gateway policy (sn_name r) (sn_description r)
                (sn_vlan r) (sn_folder r) (sn_domain r) (sn_scan_interval r) (sn_scan_enabled r) (sn_reverse r) (sn_revision r + 1)
    end).

(** The policy, the gateway and the source of the settings of a merge. *)
Definition merged_policy (parent : Subnet) (subnets : list Subnet) : Policy :=
  match List.filter is_allocated subnets with a :: _ => sn_policy a | [] => sn_policy parent end.

Definition merged_gateway (parsed : Network) (parent : Subnet) (subnets : list Subnet) : option string :=
  let policy := merged_policy parent subnets in
  let custom := if bool_decide (policy = policy_custom)
                then match List.filter is_allocated subnets with a :: _ => sn_gateway a | [] => None end else None in
  resolveGatewayAddress parsed policy custom.

Definition config_source (subnets : list Subnet) : option Subnet :=
  let held := List.filter is_allocated subnets in
  match List.find (fun s => bool_decide (is_Some (or_null (sn_gateway s)))) held with Some s => Some s | None => head held end.

Definition delete_rows (ids : list Z) (t : Table) : Table := fold_left deleteSubnetRow ids t.

Definition mergeSubnets (t : Table) (subnets : list Subnet) (merged_cidr : string) : result tree_error Table :=
  parent ← (match subnets with
            | s :: _ => match sn_parent s with
                        | Some p => match find_subnet t p with Some r => Ok r | None => Err UndefinedTarget end
                        | None => Err UndefinedTarget
                        end
            | [] => Err UndefinedTarget
            end);
  parsed ← lift_cidr_tree (parseNetwork merged_cidr);
  let policy := merged_policy parent subnets in
  let gateway := merged_gateway parsed parent subnets in
  let source := config_source subnets in
  let ids := map sn_id subnets in
  if String.eqb merged_cidr (sn_cidr parent)
  then mret (restoreMergedParent parent gateway policy source (delete_rows ids t))
  else
    name ← (match source with
            | Some c => Ok (sn_name c)
            | None => lift_cidr_tree (networkNameFromTemplate (subnet_name_template cfg) merged_cidr)
            end);
    let from := fun {A} (f : Subnet -> option A) => match source with Some c => f c | None => None end in
    let or_else := fun {A} (a b : option A) => match a with Some _ => a | None => b end in
    added ← lift_table (insertSubnet t (mkNewSubnet merged_cidr (Some name) (or_null (from sn_description)) (or_null_z (from sn_vlan))
      gateway (Some policy) (Some (sn_id parent)) (or_else (or_null_z (from sn_folder)) (or_null_z (sn_folder parent)))
      (Some (match source with Some _ => allocated | None => unallocated end)) (Some (sn_depth parent + 1)) (or_null (from sn_domain))
      (or_else (from sn_scan_interval) (sn_scan_interval parent)) (or_else (from sn_scan_enabled) (sn_scan_enabled parent))));
    let t := delete_rows ids (fst added) in
    mret (match source with
          | Some c => if sn_reverse c =? 0 then t else setReverseDnsFlag (snd added) t
          | None => t
          end).

(** The body of a merge request. *)
Record MergeBody := mkMergeBody { mb_ids : list Z; mb_token : option string; mb_plan_id : option string }.

(** [detectForwardZoneConflict] *)
Definition forward_zone_conflict (subnets : list Subnet) : bool := (1 <? length (js_uniq (omap sn_domain subnets)))%nat.

(** [POST /api/subnets/merge] *)
Definition mergeRoute (db : PlanDb) (t : Table) (b : MergeBody) : result tree_error Table :=
  _ ← refuse_if (length (mb_ids b) <? 2)%nat 400 "At least 2 subnet IDs required";
  let subnets := omap (find_subnet t) (mb_ids b) in
  _ ← refuse_if (negb (length subnets =? length (mb_ids b))%nat) 404 "One or more subnets not found";
  _ ← refuse_if (existsb (fun s => ipv6_refused cfg (address_family (sn_net s))) subnets) 409 "IPv6 is switched off";
  let parentId := match subnets with s :: _ => or_null_z (sn_parent s) | [] => None end in
  _ ← refuse_if (bool_decide (parentId = None) || negb (forallb (fun s => bool_decide (sn_parent s = parentId)) subnets)) 400
        "All subnets must be siblings (same parent)";
  _ ← refuse_if (existsb (fun s => (0 <? length (children t (sn_id s)))%nat) subnets) 400 "Subnet has children and cannot be merged";
  merged ← lift_cidr_tree (mergeNetworks (map sn_cidr subnets));
  c ← (match merged with Merged c => Ok c | Cidr.Refused error => Err (Refused 400 error) end);
  let db := with_rows db t in
  plan ← (match buildMergePlan sha256_state sha256_plan after_now db subnets c with Ok p => Ok p | Err e => Err (BadPlan e) end);
  old ← stale db (mb_token b) (mb_plan_id b) plan;
  _ ← refuse_if old 409 "Transformation plan is stale";
  _ ← refuse_if (gateway_conflict subnets) 409 "Cannot merge networks with conflicting gateway policies. Resolve the gateway policy first.";
  _ ← refuse_if (forward_zone_conflict subnets) 409 "Cannot merge: child subnets own forward zones with different domain names.";
  _ ← refuse_if (0 <? length (pl_conflicts (plan_body plan)))%nat 409 "Cannot merge until all network and reservation conflicts are resolved.";
  mergeSubnets t subnets c.
End Routes.

(** ** Deleting *)

Inductive DeleteAction := deallocated_network | deleted_network | children_deleted.

Definition deleteSubnet (t : Table) (subnet : Subnet) : Table * DeleteAction :=
  let hasChildren := (0 <? length (children t (sn_id subnet)))%nat in
  if bool_decide (sn_status subnet = allocated) then
    let t := if hasChildren then deleteDescendantSubnets t (sn_id subnet) else t in
    (deallocateSubnetRow subnet t, deallocated_network)
  else if bool_decide (or_null_z (sn_parent subnet) = None) then (deleteSubnetRow t (sn_id subnet), deleted_network)
  else if negb hasChildren then (deleteSubnetRow t (sn_id subnet), deleted_network)
  else (deleteDescendantSubnets t (sn_id subnet), children_deleted).

(** [DELETE /api/subnets/:id]: [reserved] are the networks that hold a DHCP
    reservation. *)
Definition deleteRoute (reserved : list Z) (t : Table) (id : Z) : result tree_error Table :=
  subnet ← (match find_subnet t id with Some s => Ok s | None => Err (Refused 404 "Subnet not found") end);
  _ ← refuse_if (bool_decide (sn_status subnet = allocated) && existsb (fun i => of_ids (sn_id subnet :: descendants t (sn_id subnet)) i) reserved) 409
        "Remove the DHCP reservations in this network first.";
  mret (fst (deleteSubnet t subnet)).

(** ** Changing one row *)

(** The fields [configureSubnet] is given. *)
Record ConfigureFields := mkConfigureFields
  { cf_name : string; cf_description : option string; cf_vlan : option Z; cf_gateway : option string; cf_policy : option Policy;
    cf_reverse : bool; cf_domain : option string; cf_scan_interval : option (option string); cf_scan_enabled : option (option bool);
    cf_folder : option (option Z) }.

Definition scan_flag (e : option bool) : option Z := option_map (fun b : bool => if b then 1 else 0) e.

Definition configureSubnet (subnet : Subnet) (parsed : Network) (f : ConfigureFields) : Table -> Table :=
  update_row (sn_id subnet) (fun r =>
    mkSubnet (sn_id r) (sn_cidr r) (sn_net r) (sn_parent r) (sn_depth r) allocated (cf_gateway f)
      (default (gatewayPolicyForAddress parsed (cf_gateway f)) (cf_policy f)) (cf_name f) (or_null (cf_description f)) (or_null_z (cf_vlan f))
      (default (sn_folder r) (cf_folder f)) (or_null (cf_domain f)) (default (sn_scan_interval subnet) (cf_scan_interval f))
      (match cf_scan_enabled f with Some e => scan_flag e | None => sn_scan_enabled subnet end) (if cf_reverse f then 1 else 0) (sn_revision r + 1)).

(** The fields [updateSubnetDetails] is given; a field of [None] is undefined. *)
Record UpdateFields := mkUpdateFields
  { uf_name : option string; uf_description : option (option string); uf_vlan : option (option Z); uf_gateway : option (option string);
    uf_policy : option Policy; uf_scan_interval : option (option string); uf_folder : option (option Z); uf_domain : option (option string);
    uf_scan_enabled : option Z }.

Definition updateSubnetDetails (subnet : Subnet) (f : UpdateFields) (t : Table) : result tree_error Table :=
  let gateway := default (sn_gateway subnet) (uf_gateway f) in
  policy ← (match uf_policy f with
            | Some p => Ok p
            | None => parsed ← lift_cidr_tree (parseNetwork (sn_cidr subnet)); mret (gatewayPolicyForAddress parsed gateway)
            end);
  mret (update_row (sn_id subnet) (fun r =>
    mkSubnet (sn_id r) (sn_cidr r) (sn_net r) (sn_parent r) (sn_depth r) (sn_status r) gateway policy (default (sn_name subnet) (uf_name f))
      (default (sn_description subnet) (uf_description f)) (default (sn_vlan subnet) (uf_vlan f)) (default (sn_folder subnet) (uf_folder f))
      (default (sn_domain subnet) (uf_domain f)) (default (sn_scan_interval subnet) (uf_scan_interval f)) (uf_scan_enabled f) (sn_reverse r)
      (sn_revision r + 1)) t).

(** [PUT /api/subnets/:id], the part that decides on the gateway. [gateway] is
    [None] when the body leaves it out, [Some None] when it is null. *)
Record GatewayRequest := mkGatewayRequest { gr_policy : option Policy; gr_gateway : option (option string) }.

Definition requestedPolicy (subnet : Subnet) (parsed : Network) (g : GatewayRequest) : Policy :=
  match gr_policy g with
  | Some p => p
  | None => match gr_gateway g with Some gw => gatewayPolicyForAddress parsed gw | None => sn_policy subnet end
  end.

Definition requestedGateway (subnet : Subnet) (parsed : Network) (g : GatewayRequest) : result tree_error (option (option string)) :=
  let policy := requestedPolicy subnet parsed g in
  if bool_decide (policy = policy_custom) && bool_decide (or_null (default None (gr_gateway g)) = None)
  then Err (Refused 400 "gateway_address is required for custom gateway policy")
  else mret (match gr_policy g with
             | Some _ => Some (resolveGatewayAddress parsed policy (default None (gr_gateway g)))
             | None => gr_gateway g
             end).

Definition set_vlan (vlan : option Z) (r : Subnet) : Subnet :=
  mkSubnet (sn_id r) (sn_cidr r) (sn_net r) (sn_parent r) (sn_depth r) (sn_status r) (sn_gateway r) (sn_policy r) (sn_name r) (sn_description r)
    vlan (sn_folder r) (sn_domain r) (sn_scan_interval r) (sn_scan_enabled r) (sn_reverse r) (sn_revision r).

Definition set_folder (folder : option Z) (r : Subnet) : Subnet :=
  mkSubnet (sn_id r) (sn_cidr r) (sn_net r) (sn_parent r) (sn_depth r) (sn_status r) (sn_gateway r) (sn_policy r) (sn_name r) (sn_description r)
    (sn_vlan r) folder (sn_domain r) (sn_scan_interval r) (sn_scan_enabled r) (sn_reverse r) (sn_revision r).

Definition set_name (name : string) (r : Subnet) : Subnet :=
  mkSubnet (sn_id r) (sn_cidr r) (sn_net r) (sn_parent r) (sn_depth r) (sn_status r) (sn_gateway r) (sn_policy r) name (sn_description r)
    (sn_vlan r) (sn_folder r) (sn_domain r) (sn_scan_interval r) (sn_scan_enabled r) (sn_reverse r) (sn_revision r).

Definition assignVlan (id : Z) (vlan : option Z) : Table -> Table := update_row id (set_vlan vlan).
Definition replaceVlanAssignments (old new : Z) : Table -> Table :=
  update_where (fun r => bool_decide (sn_vlan r = Some old)) (set_vlan (Some new)).
Definition clearVlanAssignments (vlan : Z) : Table -> Table :=
  update_where (fun r => bool_decide (sn_vlan r = Some vlan)) (set_vlan None).
Definition clearFolderAssignments (folder : Z) : Table -> Table :=
  update_where (fun r => bool_decide (sn_folder r = Some folder)) (set_folder None).

(** [applyNameTemplateToSubnets] *)
Definition apply_name (template : string) (t : Table) (id : Z) : result cidr_error Table :=
  match find_subnet t id with
  | None => mret t
  | Some subnet =>
      name ← networkNameFromTemplate template (sn_cidr subnet);
      mret (if String.eqb name (sn_name subnet) then t else update_row id (set_name name) t)
  end.

Definition applyNameTemplateToSubnets (template : string) (ids : list Z) (t : Table) : result cidr_error Table :=
  fold_result (apply_name template) ids t.

(** [backfillGatewayPolicies] *)
Definition set_policy (policy : Policy) (r : Subnet) : Subnet :=
  mkSubnet (sn_id r) (sn_cidr r) (sn_net r) (sn_parent r) (sn_depth r) (sn_status r) (sn_gateway r) policy (sn_name r) (sn_description r)
    (sn_vlan r) (sn_folder r) (sn_domain r) (sn_scan_interval r) (sn_scan_enabled r) (sn_reverse r) (sn_revision r).

Definition backfill_row (t : Table) (row : Subnet) : result cidr_error Table :=
  parsed ← parseNetwork (sn_cidr row);
  let policy := gatewayPolicyForAddress parsed (sn_gateway row) in
  mret (if bool_decide (sn_policy row = policy) then t else update_row (sn_id row) (set_policy policy) t).

Definition backfillGatewayPolicies (t : Table) : result cidr_error Table := fold_result backfill_row (rows t) t.

(** The statement of [repairDerivedNetworkDhcpState] on one allocated network:
    the columns of its CIDR again, and the gateway its policy places. *)
Definition repaired_gateway (parsed : Network) (s : Subnet) : option string :=
  match sn_policy s with
  | policy_first => Some (firstUsable parsed)
  | policy_last => Some (lastUsable parsed)
  | policy_none => None
  | policy_custom => sn_gateway s
  end.

Definition set_derived (columns : NetColumns) (gateway : option string) (r : Subnet) : Subnet :=
  mkSubnet (sn_id r) (sn_cidr r) columns (sn_parent r) (sn_depth r) (sn_status r) gateway (sn_policy r) (sn_name r) (sn_description r)
    (sn_vlan r) (sn_folder r) (sn_domain r) (sn_scan_interval r) (sn_scan_enabled r) (sn_reverse r) (sn_revision r).

Definition repair_row (t : Table) (s : Subnet) : result cidr_error Table :=
  parsed ← parseNetwork (sn_cidr s);
  mret (update_row (sn_id s) (set_derived (netColumns parsed) (repaired_gateway parsed s)) t).

Definition repairNetworks (t : Table) : result cidr_error Table := fold_result repair_row (List.filter is_allocated (rows t)) t.

(** The writes [updateZone] and [deleteZone] ([models/dns-zone.js]) make to
    the networks of a forward zone. *)
Definition set_domain (domain : option string) (r : Subnet) : Subnet :=
  mkSubnet (sn_id r) (sn_cidr r) (sn_net r) (sn_parent r) (sn_depth r) (sn_status r) (sn_gateway r) (sn_policy r) (sn_name r) (sn_description r)
    (sn_vlan r) (sn_folder r) domain (sn_scan_interval r) (sn_scan_enabled r) (sn_reverse r) (sn_revision r).

Definition setZoneDomain (zone : string) (domain : option string) : Table -> Table :=
  update_where (fun r => bool_decide (sn_domain r = Some zone)) (set_domain domain).

(** ** The invariant *)

(** The network a row stands for. *)
Definition net_of (r : Subnet) : Network :=
  match parseNetwork (sn_cidr r) with Ok n => n | Err _ => buildNetwork 0 32 4 0 end.

(** A row whose columns come from one network. *)
Record row_ok (r : Subnet) : Prop := {
  row_parse : parseNetwork (sn_cidr r) = Ok (net_of r);
  row_cidr : cidr (net_of r) = sn_cidr r;
  row_free : mapped_free (net_of r);
  row_columns : sn_net r = netColumns (net_of r);
  row_depth : 0 <= sn_depth r }.

(** The table is a forest of networks: each row lies properly in its parent,
    one level or more above it, and the rows under one parent, or under none,
    share no address. *)
Record tree_ok (t : Table) : Prop := {
  ok_ids : NoDup (map sn_id (rows t));
  ok_next : forall r, r ∈ rows t -> 0 < sn_id r < next_id t;
  ok_rows : forall r, r ∈ rows t -> row_ok r;
  ok_parent : forall r p, r ∈ rows t -> sn_parent r = Some p ->
    exists q, q ∈ rows t /\ sn_id q = p /\ inside (net_of r) (net_of q) /\ sn_depth q < sn_depth r;
  ok_apart : forall r r', r ∈ rows t -> r' ∈ rows t -> r <> r' -> sn_parent r = sn_parent r' -> apart (net_of r) (net_of r');
  ok_positive : 0 < next_id t }.

Lemma row_wf r : row_ok r -> wf_network (net_of r).
Proof. intros H. eapply parseNetwork_wf. apply H. Qed.

Section TreeFacts.
Context (t : Table) (Ht : tree_ok t).

Lemma same_id r r' : r ∈ rows t -> r' ∈ rows t -> sn_id r = sn_id r' -> r = r'.
Proof. apply nodup_map_inj. apply Ht. Qed.

Lemma find_subnet_elem r : r ∈ rows t -> find_subnet t (sn_id r) = Some r.
Proof.
  intros Hr. unfold find_subnet. destruct (List.find _ _) as [r'|] eqn:E.
  - apply find_some in E as [Hin He%Z.eqb_eq]. f_equal. apply same_id; [by apply list_elem_of_In|done|done].
  - apply list_elem_of_In in Hr. apply (find_none _ _ E) in Hr. by rewrite Z.eqb_refl in Hr.
Qed.

Lemma find_subnet_inv id r : find_subnet t id = Some r -> r ∈ rows t /\ sn_id r = id.
Proof. unfold find_subnet. intros [Hin He%Z.eqb_eq]%find_some. by rewrite list_elem_of_In. Qed.

Lemma elem_of_children id r : r ∈ children t id <-> r ∈ rows t /\ sn_parent r = Some id.
Proof. unfold children, is_child. by rewrite list_elem_of_In, List.filter_In, <- list_elem_of_In, bool_decide_eq_true. Qed.

(** [below_row r q]: [r] is a descendant of [q]. *)
Inductive below_row : Subnet -> Subnet -> Prop :=
| below_child r q : r ∈ rows t -> q ∈ rows t -> sn_parent r = Some (sn_id q) -> below_row r q
| below_step r p q : r ∈ rows t -> sn_parent r = Some (sn_id p) -> below_row p q -> below_row r q.

Lemma below_rows r q : below_row r q -> r ∈ rows t /\ q ∈ rows t.
Proof. induction 1; tauto. Qed.

Lemma child_inside r q : r ∈ rows t -> q ∈ rows t -> sn_parent r = Some (sn_id q) -> inside (net_of r) (net_of q) /\ sn_depth q < sn_depth r.
Proof.
  intros Hr Hq Hp. destruct (ok_parent t Ht r _ Hr Hp) as (q' & Hq' & He & Hi & Hd).
  assert (q' = q) as -> by (by apply same_id). done.
Qed.

Lemma below_inside r q : below_row r q -> inside (net_of r) (net_of q) /\ sn_depth q < sn_depth r.
Proof.
  induction 1 as [r q Hr Hq Hp|r p q Hr Hp Hb IH]; [by apply child_inside|].
  destruct (below_rows _ _ Hb) as [Hpr _]. destruct (child_inside r p Hr Hpr Hp). destruct IH.
  split; [by eapply inside_trans|lia].
Qed.

Lemma below_irrefl r : ~ below_row r r.
Proof. intros H%below_inside. destruct H. lia. Qed.

Lemma below_trans a b c : below_row a b -> below_row b c -> below_row a c.
Proof. induction 1 as [a b Ha Hb Hp|a p b Ha Hp Hpb IH]; intros Hbc; eapply below_step; eauto. Qed.

(** The last step into a subtree. *)
Lemma below_top r q : below_row r q -> exists k, k ∈ rows t /\ sn_parent k = Some (sn_id q) /\ (r = k \/ below_row r k).
Proof.
  induction 1 as [r q Hr Hq Hp|r p q Hr Hp Hb IH]; [exists r; tauto|].
  destruct IH as (k & Hk & Hkp & [->|Hpk]); exists k; (split; [done|]; split; [done|]; right).
  - by apply below_child.
  - by eapply below_step.
Qed.

Lemma apart_up a b q : a ∈ rows t -> b ∈ rows t -> inside (net_of a) (net_of q) -> ~ apart (net_of a) (net_of b) -> ~ apart (net_of q) (net_of b).
Proof.
  intros Ha Hb Hin Hna Hap. apply Hna. apply (apart_within (net_of q) (net_of b)); [| |done|by apply inside_within|reflexivity].
  all: by apply row_wf, (ok_rows t Ht).
Qed.

(** Rows that share an address lie on one branch. *)
Lemma branch r r' :
  r ∈ rows t -> r' ∈ rows t -> ~ apart (net_of r) (net_of r') -> r = r' \/ below_row r r' \/ below_row r' r.
Proof.
  remember (Z.to_nat (sn_depth r + sn_depth r')) as k eqn:Hk. revert r r' Hk.
  induction k as [k IH] using lt_wf_ind. intros r r' -> Hr Hr' Hna.
  pose proof (row_depth _ (ok_rows t Ht r Hr)) as Hd. pose proof (row_depth _ (ok_rows t Ht r' Hr')) as Hd'.
  destruct (decide (r = r')) as [->|Hne]; [by left|].
  destruct (decide (sn_parent r = sn_parent r')) as [Hsame|Hpar].
  { exfalso. apply Hna. by apply (ok_apart t Ht). }
  assert (forall a b, a ∈ rows t -> b ∈ rows t -> 0 <= sn_depth a -> 0 <= sn_depth b -> sn_depth a + sn_depth b = sn_depth r + sn_depth r' ->
    a <> b -> sn_parent a <> sn_parent b -> ~ apart (net_of a) (net_of b) -> sn_parent a <> None -> below_row a b \/ below_row b a) as Hstep.
  { clear -IH Ht. intros a b Ha Hb Hda Hdb Hsum Hne Hpar Hna Hsome. destruct (sn_parent a) as [p|] eqn:Hp; [|done].
    destruct (ok_parent t Ht a p Ha Hp) as (q & Hq & <- & Hin & Hdq). pose proof (row_depth _ (ok_rows t Ht q Hq)).
    assert (~ apart (net_of q) (net_of b)) as Hqb.
    { by apply (apart_up a b q). }
    destruct (IH (Z.to_nat (sn_depth q + sn_depth b)) ltac:(lia) q b eq_refl Hq Hb Hqb) as [->|[Hbel|Hbel]].
    - left. by apply below_child.
    - left. by eapply below_step.
    - destruct (below_top _ _ Hbel) as (c & Hc & Hcp & Hbc).
      destruct (decide (sn_parent b = Some (sn_id q))) as [He|He]; [exfalso; congruence|].
      destruct Hbc as [->|Hbc]; [done|].
      (* the parent of [b] *)
      inversion Hbel as [? ? ? ? Hbq|? p' ? ? Hbp' Hp'q]; subst; [done|].
      destruct (below_rows _ _ Hp'q) as [Hp'r _]. destruct (child_inside b p' Hb Hp'r Hbp') as [Hib Hdb'].
      pose proof (row_depth _ (ok_rows t Ht p' Hp'r)).
      assert (~ apart (net_of a) (net_of p')) as Hap'.
      { intros Hap. apply (apart_up b a p' Hb Ha Hib); [|by symmetry]. intros Hba. apply Hna. by symmetry. }
      destruct (IH (Z.to_nat (sn_depth a + sn_depth p')) ltac:(lia) a p' eq_refl Ha Hp'r Hap') as [->|[Hbel'|Hbel']].
      + right. by apply below_child.
      + exfalso. inversion Hbel' as [? ? ? ? Hx|? x ? ? Hx Hxp]; subst.
        * assert (p' = q) as -> by (apply same_id; congruence). by apply (below_irrefl q).
        * destruct (below_rows _ _ Hxp) as [Hxr _]. assert (x = q) as -> by (apply same_id; congruence).
          apply (below_irrefl q). by eapply below_trans.
      + right. by eapply below_step. }
  destruct (decide (sn_parent r = None)) as [Hn|Hn].
  - assert (~ apart (net_of r') (net_of r)) as Hna' by (intros Hap; apply Hna; by symmetry).
    destruct (Hstep r' r Hr' Hr Hd' Hd ltac:(lia) ltac:(congruence) ltac:(congruence) Hna' ltac:(congruence)) as [Hb|Hb]; [by right; right|by right; left].
  - destruct (Hstep r r' Hr Hr' Hd Hd' eq_refl Hne Hpar Hna Hn) as [Hb|Hb]; [by right; left|by right; right].
Qed.
End TreeFacts.

(** ** Lemmas: leaves and subtrees *)

(** A network without networks below it. *)
Definition leaf (t : Table) (r : Subnet) : Prop := r ∈ rows t /\ children t (sn_id r) = [].

Section Subtrees.
Context (t : Table) (Ht : tree_ok t).

Lemma leaf_below r q : leaf t q -> ~ below_row t r q.
Proof.
  intros [Hq Hc] Hb. destruct (below_top _ _ _ Hb) as (k & Hk & Hkp & _).
  assert (k ∈ children t (sn_id q)) as Hin by (by apply elem_of_children). rewrite Hc in Hin. by apply elem_of_nil in Hin.
Qed.

(** No address is in two leaves. *)
Lemma leaves_apart r r' : leaf t r -> leaf t r' -> r <> r' -> apart (net_of r) (net_of r').
Proof.
  intros Hr Hr' Hne. destruct (decide (networkBig (net_of r) <= lastBig (net_of r') /\ networkBig (net_of r') <= lastBig (net_of r) /\
    family (net_of r) = family (net_of r'))) as [(H1 & H2 & H3)|Hno]; [|intros (? & ? & ?); tauto].
  exfalso. destruct (branch t Ht r r') as [?|[Hb|Hb]]; [apply Hr|apply Hr'|by intros Hap; apply Hap|done| |]; by eapply leaf_below in Hb.
Qed.

(** The number of steps to an ancestor. *)
Inductive below_n : nat -> Subnet -> Subnet -> Prop :=
| below_one r q : r ∈ rows t -> q ∈ rows t -> sn_parent r = Some (sn_id q) -> below_n 1 r q
| below_more k r p q : r ∈ rows t -> sn_parent r = Some (sn_id p) -> below_n k p q -> below_n (S k) r q.

Lemma below_count r q : below_row t r q -> exists k, below_n k r q.
Proof. induction 1 as [r q Hr Hq Hp|r p q Hr Hp Hb [k IH]]; [exists 1%nat; by constructor|exists (S k); by eapply below_more]. Qed.

Lemma below_n_row k r q : below_n k r q -> below_row t r q.
Proof. induction 1; [by apply below_child|by eapply below_step]. Qed.

Lemma below_n_top k r q : below_n (S k) r q -> (0 < k)%nat -> exists c, sn_parent c = Some (sn_id q) /\ c ∈ rows t /\ below_n k r c.
Proof.
  revert r. induction k as [|k IH]; intros r Hb Hk; [lia|]. inversion Hb as [|? ? p ? Hr Hp Hpq]; subst.
  destruct k as [|k].
  - inversion Hpq as [? ? Hpr Hq Hpp|? ? ? ? ? ? Hx]; subst; [|by inversion Hx]. exists p. split; [done|]. split; [done|]. by constructor.
  - destruct (IH p Hpq ltac:(lia)) as (c & Hcp & Hc & Hpc). exists c. split; [done|]. split; [done|]. by eapply below_more.
Qed.

Lemma below_n_length k r q : below_n k r q -> (k <= length (rows t))%nat.
Proof.
  intros H. assert (exists l, length l = k /\ NoDup l /\ forall x, x ∈ l -> x ∈ rows t /\ sn_depth x <= sn_depth r) as (l & <- & Hn & Hl).
  { induction H as [r q Hr Hq Hp|k r p q Hr Hp Hb (l & Hlen & Hn & Hl)].
    - exists [r]. split; [done|]. split; [apply NoDup_singleton|]. by intros x ->%list_elem_of_singleton.
    - exists (r :: l). pose proof (proj1 (below_rows _ _ _ (below_n_row _ _ _ Hb))) as Hpr.
      destruct (child_inside t Ht r p Hr Hpr Hp) as [_ Hd]. split; [by rewrite <- Hlen|]. split.
      + constructor; [|done]. intros [_ Hx]%Hl. lia.
      + intros x [->|Hx]%elem_of_cons; [done|]. apply Hl in Hx as [? ?]. split; [done|lia]. }
  apply NoDup_incl_length; [by apply NoDup_ListNoDup|]. intros x Hx. apply list_elem_of_In. by apply Hl, list_elem_of_In.
Qed.

Lemma below_sound fuel ids i : i ∈ below fuel t ids -> exists r q, sn_id r = i /\ r ∈ rows t /\ sn_id q ∈ ids /\ below_row t r q.
Proof.
  revert ids. induction fuel as [|fuel IH]; intros ids; cbn [below]; [by intros ?%elem_of_nil|].
  set (kids := map sn_id _). assert (forall k, k ∈ kids -> exists r q, sn_id r = k /\ r ∈ rows t /\ sn_id q ∈ ids /\ below_row t r q) as Hkids.
  { intros k (r & <- & Hr)%list_elem_of_In%in_map_iff. apply List.filter_In in Hr as [Hr Hex]. apply list_elem_of_In in Hr.
    apply existsb_exists in Hex as (id & Hid & Hch). apply list_elem_of_In in Hid. unfold is_child in Hch. apply bool_decide_eq_true in Hch.
    destruct (ok_parent t Ht r id Hr Hch) as (q & Hq & <- & _). exists r, q. split_and!; try done. by apply below_child. }
  assert (i ∈ kids ++ below fuel t kids -> exists r q, sn_id r = i /\ r ∈ rows t /\ sn_id q ∈ ids /\ below_row t r q) as Hall.
  { intros [Hk|Hb]%elem_of_app; [by apply Hkids|]. apply IH in Hb as (r & c & Hi & Hr & Hc & Hrc).
    apply Hkids in Hc as (c' & q & He & Hc' & Hq & Hcq). assert (c' = c) as ->.
    { apply (same_id t Ht); [done|by apply (below_rows _ _ _ Hrc)|done]. }
    exists r, q. split_and!; try done. by eapply below_trans. }
  destruct kids; [by intros ?%elem_of_nil|exact Hall].
Qed.

Lemma below_complete fuel ids k r q : below_n k r q -> sn_id q ∈ ids -> (k <= fuel)%nat -> sn_id r ∈ below fuel t ids.
Proof.
  revert ids k r q. induction fuel as [|fuel IH]; intros ids k r q Hb Hq Hk; [inversion Hb; lia|]. cbn [below].
  set (kids := map sn_id _).
  assert (forall c, c ∈ rows t -> sn_parent c = Some (sn_id q) -> sn_id c ∈ kids) as Hkid.
  { intros c Hc Hcp. apply list_elem_of_In, in_map_iff. exists c. split; [done|]. apply List.filter_In. split; [by apply list_elem_of_In|].
    apply existsb_exists. exists (sn_id q). split; [by apply list_elem_of_In|]. unfold is_child. by apply bool_decide_eq_true. }
  assert (exists i, i ∈ kids /\ sn_id r ∈ kids ++ below fuel t kids) as (i & Hi & Hin).
  { destruct k as [|[|k]]; [inversion Hb| |].
    - inversion Hb as [? ? Hr Hq' Hp|? ? ? ? ? ? Hx]; subst; [|by inversion Hx]. exists (sn_id r). split; [by apply Hkid|].
      apply elem_of_app. left. by apply Hkid.
    - destruct (below_n_top _ _ _ Hb ltac:(lia)) as (c & Hcp & Hc & Hrc). exists (sn_id c). split; [by apply Hkid|].
      apply elem_of_app. right. apply (IH _ (S k) _ c); [done|by apply Hkid|lia]. }
  destruct kids; [by apply elem_of_nil in Hi|done].
Qed.

(** [descendants] holds the rows below, and nothing else. *)
Lemma descendants_spec r q : r ∈ rows t -> q ∈ rows t -> sn_id r ∈ descendants t (sn_id q) <-> below_row t r q.
Proof.
  intros Hr Hq. split.
  - intros (r' & q' & Hr' & Hin & Hq' & Hb)%below_sound. apply list_elem_of_singleton in Hq'.
    assert (r' = r) as -> by (by apply (same_id t Ht)). assert (q' = q) as ->; [|done].
    apply (same_id t Ht); [by apply (below_rows _ _ _ Hb)|done|done].
  - intros Hb. destruct (below_count _ _ Hb) as [k Hk]. eapply below_complete; [exact Hk|by apply list_elem_of_singleton|].
    by eapply below_n_length.
Qed.

Lemma leaf_descendants r : leaf t r -> descendants t (sn_id r) = [].
Proof.
  intros Hl. destruct (descendants t (sn_id r)) as [|i l] eqn:E; [done|]. exfalso.
  assert (i ∈ descendants t (sn_id r)) as Hi by (rewrite E; by left).
  apply below_sound in Hi as (r' & q' & _ & Hr' & Hq & Hb). apply list_elem_of_singleton in Hq.
  assert (q' = r) as -> by (apply (same_id t Ht); [by apply (below_rows _ _ _ Hb)|by apply Hl|done]). by apply (leaf_below r' r Hl).
Qed.
End Subtrees.

(** ** Lemmas: what keeps the tree *)

(** The columns the tree is made of. *)
Definition frame (r : Subnet) : Z * string * NetColumns * option Z * Z := (sn_id r, sn_cidr r, sn_net r, sn_parent r, sn_depth r).

Lemma frame_net r r' : frame r = frame r' -> net_of r = net_of r'.
Proof. unfold frame, net_of. intros [= _ Hc _ _ _]. by rewrite Hc. Qed.

Lemma frame_row r r' : frame r = frame r' -> row_ok r -> row_ok r'.
Proof.
  intros Hf [H1 H2 H3 H4 H5]. pose proof (frame_net _ _ Hf) as Hn. unfold frame in Hf. injection Hf as _ Hc Hnet _ Hd.
  split; rewrite <- ?Hn, <- ?Hc, <- ?Hnet, <- ?Hd; done.
Qed.

(** Writes to the other columns of some rows. *)
Lemma update_ok p f t : tree_ok t -> (forall r, frame (f r) = frame r) -> tree_ok (update_where p f t).
Proof.
  intros Ht Hf. set (g := fun r => if p r then f r else r).
  assert (forall r, frame (g r) = frame r) as Hg by (intros r; unfold g; destruct (p r); [apply Hf|done]).
  assert (forall r, net_of (g r) = net_of r) as Hnet by (intros r; by apply frame_net).
  assert (forall r, sn_id (g r) = sn_id r /\ sn_parent (g r) = sn_parent r /\ sn_depth (g r) = sn_depth r) as Hcols
    by (intros r; specialize (Hg r); unfold frame in Hg; by injection Hg).
  assert (forall r', r' ∈ map g (rows t) -> exists r, r' = g r /\ r ∈ rows t) as Hin.
  { intros r' (r & <- & Hr)%list_elem_of_In%in_map_iff. exists r. split; [done|]. by apply list_elem_of_In. }
  change (tree_ok (mkTable (map g (rows t)) (next_id t))). split; cbn [rows next_id].
  - rewrite map_map. rewrite (map_ext _ sn_id) by (intros r; apply Hcols). apply Ht.
  - intros r' (r & -> & Hr)%Hin. destruct (Hcols r) as (-> & _). by apply Ht.
  - intros r' (r & -> & Hr)%Hin. apply (frame_row r); [by symmetry|]. by apply Ht.
  - intros r' pid (r & -> & Hr)%Hin. destruct (Hcols r) as (_ & -> & ->). intros Hp.
    destruct (ok_parent t Ht r pid Hr Hp) as (q & Hq & Hid & Hins & Hd). exists (g q). rewrite !Hnet.
    destruct (Hcols q) as (-> & _ & ->). split; [|done]. apply list_elem_of_In, in_map. by apply list_elem_of_In.
  - intros r1 r2 (a & -> & Ha)%Hin (b & -> & Hb)%Hin Hne Hpar. rewrite !Hnet. destruct (Hcols a) as (_ & Hpa & _), (Hcols b) as (_ & Hpb & _).
    apply (ok_apart t Ht); [done|done|congruence|congruence].
  - apply Ht.
Qed.

(** Deleting rows with everything below them. *)
Lemma filter_ok (keep : Subnet -> bool) t :
  tree_ok t -> (forall r q, r ∈ rows t -> q ∈ rows t -> sn_parent r = Some (sn_id q) -> keep r = true -> keep q = true) ->
  tree_ok (mkTable (List.filter keep (rows t)) (next_id t)).
Proof.
  intros Ht Hkeep.
  assert (forall r, r ∈ List.filter keep (rows t) <-> r ∈ rows t /\ keep r = true) as Hin by (intros r; by rewrite !list_elem_of_In, List.filter_In).
  split; cbn [rows next_id].
  - apply NoDup_ListNoDup. pose proof (ok_ids t Ht) as Hn. apply NoDup_ListNoDup in Hn. clear -Hn.
    induction (rows t) as [|a l IH]; cbn in *; [constructor|]. inversion Hn as [|? ? Ha Hl]; subst. destruct (keep a); cbn; [|by apply IH].
    constructor; [|by apply IH]. intros Hm. apply Ha. apply in_map_iff in Hm as (x & Hx & Hf). apply List.filter_In in Hf as [Hf _].
    apply in_map_iff. by exists x.
  - intros r [Hr _]%Hin. by apply Ht.
  - intros r [Hr _]%Hin. by apply Ht.
  - intros r p [Hr Hk]%Hin Hp. destruct (ok_parent t Ht r p Hr Hp) as (q & Hq & <- & Hrest). exists q. split; [|done].
    apply Hin. split; [done|]. by apply (Hkeep r).
  - intros r r' [Hr _]%Hin [Hr' _]%Hin. by apply (ok_apart t Ht).
  - apply Ht.
Qed.

Lemma elem_of_delete_ids ids t r : r ∈ rows (delete_ids ids t) <-> r ∈ rows t /\ sn_id r ∉ ids.
Proof.
  unfold delete_ids. cbn [rows]. rewrite !list_elem_of_In, List.filter_In, negb_true_iff, <- not_true_iff_false, existsb_exists.
  rewrite <- list_elem_of_In. split; intros [Hr Hn]; (split; [done|]); intros H; apply Hn.
  - exists (sn_id r). split; [done|]. apply Z.eqb_refl.
  - destruct H as (i & Hi & He%Z.eqb_eq). by rewrite He.
Qed.

(** Deleting a set of ids that is closed downwards. *)
Lemma delete_ok ids t :
  tree_ok t -> (forall r q, r ∈ rows t -> q ∈ rows t -> sn_parent r = Some (sn_id q) -> sn_id q ∈ ids -> sn_id r ∈ ids) ->
  tree_ok (delete_ids ids t).
Proof.
  intros Ht Hdown. apply filter_ok; [done|]. intros r q Hr Hq Hp Hk. apply negb_true_iff, not_true_iff_false. apply negb_true_iff, not_true_iff_false in Hk.
  intros Hx. apply Hk. apply existsb_exists in Hx as (i & Hi & He%Z.eqb_eq). apply existsb_exists. exists (sn_id r). split; [|apply Z.eqb_refl].
  apply list_elem_of_In. apply (Hdown r q); try done. rewrite He. by apply list_elem_of_In.
Qed.

Lemma deleteSubnetRow_ok id t : tree_ok t -> tree_ok (deleteSubnetRow t id).
Proof.
  intros Ht. apply delete_ok; [done|]. intros r q Hr Hq Hp [Hid|Hin]%elem_of_cons; apply elem_of_cons; right.
  - subst id. apply (descendants_spec t Ht r q Hr Hq). by apply below_child.
  - apply below_sound in Hin as (q' & a & He & Hq' & Ha & Hb); [|done]. apply list_elem_of_singleton in Ha. subst id.
    assert (q' = q) as -> by (by apply (same_id t Ht)). apply (descendants_spec t Ht r a Hr); [by apply (below_rows _ _ _ Hb)|]. by eapply below_step.
Qed.

Lemma deleteDescendants_ok id t : tree_ok t -> tree_ok (deleteDescendantSubnets t id).
Proof.
  intros Ht. apply delete_ok; [done|]. intros r q Hr Hq Hp Hin.
  apply below_sound in Hin as (q' & a & He & Hq' & Ha & Hb); [|done]. apply list_elem_of_singleton in Ha. subst id.
  assert (q' = q) as -> by (by apply (same_id t Ht)). apply (descendants_spec t Ht r a Hr); [by apply (below_rows _ _ _ Hb)|]. by eapply below_step.
Qed.

(** Adding a row that lies in its parent and apart from the rows there. *)
Lemma add_ok t r :
  tree_ok t -> row_ok r -> sn_id r = next_id t ->
  (forall p, sn_parent r = Some p -> exists q, q ∈ rows t /\ sn_id q = p /\ inside (net_of r) (net_of q) /\ sn_depth q < sn_depth r) ->
  (forall r', r' ∈ rows t -> sn_parent r' = sn_parent r -> apart (net_of r') (net_of r)) ->
  tree_ok (mkTable (rows t ++ [r]) (next_id t + 1)).
Proof.
  intros Ht Hrow Hid Hpar Hap. pose proof (ok_positive t Ht).
  assert (forall x, x ∈ rows t ++ [r] <-> x ∈ rows t \/ x = r) as Hin by (intros x; by rewrite elem_of_app, list_elem_of_singleton).
  split; cbn [rows next_id].
  - rewrite map_app. apply NoDup_app. split; [apply Ht|]. split; [|apply NoDup_singleton]. intros i (x & <- & Hx)%list_elem_of_In%in_map_iff Hi.
    cbn [map] in Hi. apply list_elem_of_singleton in Hi. apply list_elem_of_In in Hx. pose proof (ok_next t Ht x Hx). lia.
  - intros x [Hx| ->]%Hin; [pose proof (ok_next t Ht x Hx); lia|lia].
  - intros x [Hx| ->]%Hin; [by apply Ht|done].
  - intros x p [Hx| ->]%Hin Hp; [destruct (ok_parent t Ht x p Hx Hp) as (q & Hq & Hrest)|destruct (Hpar p Hp) as (q & Hq & Hrest)];
      exists q; (split; [apply Hin; by left|done]).
  - intros x y [Hx| ->]%Hin [Hy| ->]%Hin Hne Hxy; [by apply (ok_apart t Ht)|by apply Hap|symmetry; by apply Hap|done].
  - lia.
Qed.

(** *** Consolidating *)

Lemma update_rows p f t : rows (update_where p f t) = map (fun r => if p r then f r else r) (rows t).
Proof. done. Qed.

(** A row after [child] has handed its children to [q]. *)
Definition lifted (child q r : Subnet) : Subnet :=
  if is_child (sn_id child) r then set_parent (sn_id q) (sn_depth child) r else r.

(** A child that leaves hands its children to its parent. *)
Section Lift.
Context (t : Table) (Ht : tree_ok t) (child q : Subnet) (Hc : child ∈ rows t) (Hq : q ∈ rows t) (Hp : sn_parent child = Some (sn_id q)).

Abbreviation g := (lifted child q).

Lemma lifted_rows r' : r' ∈ rows (lift_children (sn_id q) t child) <-> exists r, r' = g r /\ r ∈ rows t /\ r <> child.
Proof.
  unfold lift_children, deleteSubnetRow. set (t1 := update_where _ _ t).
  assert (forall r, is_child (sn_id child) (g r) = false) as Hnone.
  { intros r. unfold lifted, is_child. destruct (bool_decide (sn_parent r = Some (sn_id child))) eqn:E; [|done].
    cbn [set_parent sn_parent]. apply bool_decide_eq_false. intros [= He]. assert (q = child) as -> by (by apply (same_id t Ht)).
    destruct (child_inside t Ht child child Hc Hc Hp) as [_ ?]. lia. }
  assert (descendants t1 (sn_id child) = []) as Hd.
  { unfold descendants. destruct (length (rows t1)) as [|n]; [done|]. cbn [below].
    destruct (List.filter _ (rows t1)) as [|x l] eqn:E; [done|]. exfalso. assert (In x (x :: l)) as Hx by (by left). rewrite <- E in Hx.
    apply List.filter_In in Hx as [Hx Hch]. unfold t1 in Hx. rewrite update_rows in Hx. apply in_map_iff in Hx as (r & <- & _).
    cbn [existsb] in Hch. rewrite orb_false_r in Hch. fold (lifted child q r) in Hch. by rewrite Hnone in Hch. }
  rewrite Hd, elem_of_delete_ids, not_elem_of_cons. unfold t1. rewrite update_rows, list_elem_of_In, in_map_iff. change (fun r => if is_child (sn_id child) r then set_parent (sn_id q) (sn_depth child) r else r) with g.
  assert (forall r, sn_id (g r) = sn_id r) as Hid by (intros r; unfold lifted; by destruct (is_child _ r)). split.
  - intros [(r & <- & Hr) [Hne _]]. exists r. split; [done|]. split; [by apply list_elem_of_In|]. intros ->. apply Hne. apply Hid.
  - intros (r & -> & Hr & Hne). split; [exists r; split; [done|by apply list_elem_of_In]|]. split; [|by intros ?%elem_of_nil].
    rewrite Hid. intros He. apply Hne. by apply (same_id t Ht).
Qed.

Lemma lifted_child r : r ∈ rows t -> is_child (sn_id child) r = true -> g r = set_parent (sn_id q) (sn_depth child) r /\ inside (net_of r) (net_of child) /\
  sn_depth child < sn_depth r.
Proof.
  intros Hr Hch. unfold lifted. rewrite Hch. unfold is_child in Hch. apply bool_decide_eq_true in Hch. split; [done|].
  by apply (child_inside t Ht).
Qed.

Lemma lift_ok : tree_ok (lift_children (sn_id q) t child).
Proof.
  assert (forall r, net_of (g r) = net_of r) as Hnet by (intros r; unfold lifted; by destruct (is_child _ r)).
  assert (forall r, sn_id (g r) = sn_id r) as Hid by (intros r; unfold lifted; by destruct (is_child _ r)).
  destruct (child_inside t Ht child q Hc Hq Hp) as [Hcq Hdq].
  assert (forall r, r ∈ rows t -> sn_depth (g r) <= sn_depth r) as Hdepth.
  { intros r Hr. destruct (is_child (sn_id child) r) eqn:E; [|unfold lifted; rewrite E; lia]. destruct (lifted_child r Hr E) as (-> & _ & ?). cbn. lia. }
  assert (is_child (sn_id child) q = false) as Hqc.
  { destruct (is_child (sn_id child) q) eqn:E; [|done]. destruct (lifted_child q Hq E) as (_ & _ & ?). lia. }
  assert (child <> q) as Hcneq by (intros ->; lia).
  split.
  - unfold lift_children, deleteSubnetRow, delete_ids. cbn [rows]. pose proof (ok_ids t Ht) as Hn.
    assert (map sn_id (rows (update_where (is_child (sn_id child)) (set_parent (sn_id q) (sn_depth child)) t)) = map sn_id (rows t)) as He.
    { rewrite update_rows, map_map. apply map_ext. apply Hid. }
    rewrite <- He in Hn. clear -Hn. induction (rows (update_where _ _ t)) as [|a l IH]; cbn in *; [constructor|].
    apply NoDup_cons in Hn as [Ha Hn]. destruct (negb _); cbn; [|by apply IH]. constructor; [|by apply IH].
    intros (x & Hx & Hf)%list_elem_of_In%in_map_iff. apply List.filter_In in Hf as [Hf _]. apply Ha. apply list_elem_of_In, in_map_iff. by exists x.
  - intros r' (r & -> & Hr & _)%lifted_rows. rewrite Hid. by apply (ok_next t Ht).
  - intros r' (r & -> & Hr & _)%lifted_rows. destruct (ok_rows t Ht r Hr) as [H1 H2 H3 H4 H5]. pose proof (row_depth _ (ok_rows t Ht child Hc)).
    unfold lifted. destruct (is_child _ r); split; done.
  - intros r' p (r & -> & Hr & Hne)%lifted_rows Hpr. destruct (is_child (sn_id child) r) eqn:E.
    + destruct (lifted_child r Hr E) as (Hg & Hin & Hd). rewrite Hg in Hpr. injection Hpr as <-. exists q. split.
      { apply lifted_rows. exists q. unfold lifted. rewrite Hqc. split; [done|]. by split; [done|]. }
      split; [done|]. rewrite Hnet. split; [by eapply inside_trans|]. rewrite Hg. cbn. lia.
    + assert (g r = r) as Hgr by (unfold lifted; by rewrite E). rewrite Hgr in *.
      destruct (ok_parent t Ht r p Hr Hpr) as (x & Hx & <- & Hin & Hd). exists (g x). rewrite Hid, Hnet. split; [|split; [done|split; [done|]]].
      * apply lifted_rows. exists x. split; [done|]. split; [done|]. intros ->. unfold is_child in E. by apply bool_decide_eq_false in E.
      * specialize (Hdepth x Hx). lia.
  - intros r1 r2 (a & -> & Ha & Hac)%lifted_rows (b & -> & Hb & Hbc)%lifted_rows Hne Hpar. rewrite !Hnet.
    assert (a <> b) as Hab by (by intros ->).
    assert (forall x y, x ∈ rows t -> y ∈ rows t -> y <> child -> is_child (sn_id child) x = true -> is_child (sn_id child) y = false ->
      sn_parent (g x) = sn_parent (g y) -> apart (net_of x) (net_of y)) as Hmixed.
    { intros x y Hx Hy Hyc Ex Ey Hxy. destruct (lifted_child x Hx Ex) as (Hgx & Hin & _).
      assert (sn_parent y = Some (sn_id q)) as Hyq by (rewrite Hgx in Hxy; unfold lifted in Hxy; rewrite Ey in Hxy; by symmetry).
      apply (apart_within (net_of child) (net_of y)); [by apply row_wf, (ok_rows t Ht)|by apply row_wf, (ok_rows t Ht)| |by apply inside_within|reflexivity].
      apply (ok_apart t Ht); [done|done|by apply not_eq_sym|congruence]. }
    destruct (is_child (sn_id child) a) eqn:Ea, (is_child (sn_id child) b) eqn:Eb.
    + apply (ok_apart t Ht); [done|done|done|]. unfold is_child in Ea, Eb. apply bool_decide_eq_true in Ea, Eb. congruence.
    + by apply Hmixed.
    + symmetry. apply Hmixed; try done.
    + apply (ok_apart t Ht); [done|done|done|]. unfold lifted in Hpar. by rewrite Ea, Eb in Hpar.
  - apply Ht.
Qed.
End Lift.

(** The networks at the leaves, and the addresses they hold. *)
Definition leaf_net (t : Table) (n : Network) : Prop := exists r, leaf t r /\ net_of r = n.
Definition managed (t : Table) (f v : Z) : Prop := exists n, leaf_net t n /\ covers n f v.

Lemma managed_ext t t' : (forall n, leaf_net t n <-> leaf_net t' n) -> forall f v, managed t f v <-> managed t' f v.
Proof. intros H f v. unfold managed. by setoid_rewrite H. Qed.

Lemma children_none t id : children t id = [] <-> forall k, k ∈ rows t -> sn_parent k <> Some id.
Proof.
  split.
  - intros H k Hk Hp. assert (k ∈ children t id) as Hin by (by apply elem_of_children). rewrite H in Hin. by apply elem_of_nil in Hin.
  - intros H. destruct (children t id) as [|k l] eqn:E; [done|]. exfalso. assert (k ∈ children t id) as Hin by (rewrite E; by left).
    apply elem_of_children in Hin as [Hk Hp]. by apply (H k).
Qed.

Section LiftLeaves.
Context (t : Table) (Ht : tree_ok t) (child q : Subnet) (Hc : child ∈ rows t) (Hq : q ∈ rows t) (Hp : sn_parent child = Some (sn_id q)).
Context (grandchild : Subnet) (Hg : grandchild ∈ rows t) (Hgp : sn_parent grandchild = Some (sn_id child)).

Abbreviation g := (lifted child q).

Lemma lift_stays r : r ∈ rows t -> sn_parent r <> Some (sn_id child) -> r <> child -> r ∈ rows (lift_children (sn_id q) t child).
Proof.
  intros Hr Hrp Hne. apply (lifted_rows t Ht child q Hc Hq Hp). exists r. split; [|done]. unfold lifted, is_child. by rewrite bool_decide_eq_false_2.
Qed.

Lemma lift_parent r : sn_parent (g r) = if is_child (sn_id child) r then Some (sn_id q) else sn_parent r.
Proof. unfold lifted. by destruct (is_child _ r). Qed.

Lemma lift_leaves r' : leaf (lift_children (sn_id q) t child) r' <-> exists r, r' = g r /\ leaf t r.
Proof.
  destruct (child_inside t Ht child q Hc Hq Hp) as [_ Hdq]. assert (child <> q) as Hcq by (intros ->; lia).
  assert (forall r, sn_id (g r) = sn_id r) as Hid by (intros r; unfold lifted; by destruct (is_child _ r)).
  assert (forall r, is_child (sn_id child) r = true <-> sn_parent r = Some (sn_id child)) as Hch by (intros r; unfold is_child; apply bool_decide_eq_true).
  unfold leaf. rewrite (lifted_rows t Ht child q Hc Hq Hp). split.
  - intros [(r & -> & Hr & Hne) Hnone]. exists r. split; [done|]. split; [done|]. rewrite children_none in Hnone. apply children_none. intros k Hk Hkp.
    rewrite Hid in Hnone. destruct (decide (k = child)) as [->|Hkc].
    + assert (r = q) as -> by (apply (same_id t Ht); congruence). apply (Hnone (g grandchild)).
      * apply (lifted_rows t Ht child q Hc Hq Hp). exists grandchild. split; [done|]. split; [done|]. intros ->.
        destruct (child_inside t Ht child child Hc Hc Hgp). lia.
      * rewrite lift_parent. by rewrite (proj2 (Hch grandchild) Hgp).
    + apply (Hnone (g k)); [apply (lifted_rows t Ht child q Hc Hq Hp); by exists k|]. rewrite lift_parent.
      destruct (is_child (sn_id child) k) eqn:E; [|done]. apply Hch in E. exfalso. apply Hne. apply (same_id t Ht); congruence.
  - intros (r & -> & Hr & Hnone). rewrite children_none in Hnone. split.
    + exists r. split; [done|]. split; [done|]. intros ->. by apply (Hnone grandchild).
    + apply children_none. intros k' (k & -> & Hk & Hkc)%(lifted_rows t Ht child q Hc Hq Hp) Hkp. rewrite Hid, lift_parent in Hkp.
      destruct (is_child (sn_id child) k) eqn:E; [|by apply (Hnone k)].
      injection Hkp as He. assert (q = r) as -> by (by apply (same_id t Ht)). by apply (Hnone child).
Qed.

Lemma lift_nets n : leaf_net (lift_children (sn_id q) t child) n <-> leaf_net t n.
Proof.
  assert (forall r, net_of (g r) = net_of r) as Hnet by (intros r; unfold lifted; by destruct (is_child _ r)). unfold leaf_net. split.
  - intros (r' & (r & -> & Hl)%lift_leaves & Hn). exists r. by rewrite Hnet in Hn.
  - intros (r & Hl & Hn). exists (g r). rewrite Hnet. split; [|done]. apply lift_leaves. by exists r.
Qed.

Lemma lift_length : (length (rows (lift_children (sn_id q) t child)) < length (rows t))%nat.
Proof.
  unfold lift_children, deleteSubnetRow, delete_ids. cbn [rows]. set (t1 := update_where _ _ t). set (ids := descendants t1 (sn_id child)).
  assert (length (rows t1) = length (rows t)) as <- by (unfold t1; rewrite update_rows; apply length_map).
  assert (exists c', In c' (rows t1) /\ sn_id c' = sn_id child) as (c' & Hc' & Hid).
  { exists (g child). unfold t1. rewrite update_rows. split; [apply in_map; by apply list_elem_of_In|]. unfold lifted. by destruct (is_child _ child). }
  apply (filter_shorter _ _ c' Hc'). cbn [existsb]. by rewrite Hid, Z.eqb_refl.
Qed.
End LiftLeaves.

(** A whole pass over the children. *)
Lemma lift_all kids t q :
  tree_ok t -> q ∈ rows t -> sn_parent q <> Some (sn_id q) -> NoDup kids ->
  (forall c, c ∈ kids -> c ∈ rows t /\ sn_parent c = Some (sn_id q) /\ exists k, k ∈ rows t /\ sn_parent k = Some (sn_id c)) ->
  let t' := fold_left (lift_children (sn_id q)) kids t in
  tree_ok t' /\ q ∈ rows t' /\ (forall n, leaf_net t' n <-> leaf_net t n) /\ (length (rows t') + length kids <= length (rows t))%nat /\
  next_id t' = next_id t.
Proof.
  revert t. induction kids as [|c kids IH]; intros t Ht Hq Hqq Hn Hk; cbn [fold_left]; [split_and!; (done || simpl; lia)|].
  destruct (Hk c ltac:(by left)) as (Hc & Hcp & k & Hkr & Hkp). destruct (child_inside t Ht c q Hc Hq Hcp) as [_ Hdq].
  apply NoDup_cons in Hn as [Hcn Hn]. pose proof (lift_ok t Ht c q Hc Hq Hcp) as Ht'. pose proof (lift_length t c q Hc) as Hlen.
  assert (q ∈ rows (lift_children (sn_id q) t c)) as Hq'.
  { apply (lift_stays t Ht c q Hc Hq Hcp); [done| |intros ->; lia]. intros Hqc. destruct (child_inside t Ht q c Hq Hc Hqc). lia. }
  destruct (IH (lift_children (sn_id q) t c) Ht' Hq' Hqq Hn) as (H1 & H2 & H3 & H4 & H5).
  - intros d Hd. destruct (Hk d ltac:(by right)) as (Hdr & Hdp & k' & Hk' & Hkp').
    assert (d <> c) as Hdc by (by intros ->). split; [|split; [done|exists k'; split; [|done]]].
    + apply (lift_stays t Ht c q Hc Hq Hcp); [done| |done]. rewrite Hdp. intros [= He]. assert (q = c) as -> by (by apply (same_id t Ht)). lia.
    + apply (lift_stays t Ht c q Hc Hq Hcp); [done| |].
      * rewrite Hkp'. intros [= He]. apply Hdc. by apply (same_id t Ht).
      * intros ->. assert (q = d) as -> by (apply (same_id t Ht); congruence). destruct (child_inside t Ht d d Hdr Hdr Hdp). lia.
  - split; [done|]. split; [done|]. split; [|split; [simpl; lia|by rewrite H5]]. intros n. rewrite H3.
    apply (lift_nets t Ht c q Hc Hq Hcp k Hkr Hkp).
Qed.

(** One round of consolidation. *)
Lemma lift_pass t q :
  tree_ok t -> q ∈ rows t -> forallb (is_intermediary t) (children t (sn_id q)) = true ->
  let t' := fold_left (lift_children (sn_id q)) (children t (sn_id q)) t in
  tree_ok t' /\ q ∈ rows t' /\ (forall n, leaf_net t' n <-> leaf_net t n) /\
  (length (rows t') + length (children t (sn_id q)) <= length (rows t))%nat /\ next_id t' = next_id t.
Proof.
  intros Ht Hq Eall. apply lift_all; [done|done| | |].
  - intros Hqq. destruct (child_inside t Ht q q Hq Hq Hqq). lia.
  - apply NoDup_ListNoDup, List.NoDup_filter, NoDup_ListNoDup. apply (NoDup_fmap_1 sn_id). apply Ht.
  - intros d Hd. pose proof Hd as [Hdr Hdp]%elem_of_children. split; [done|]. split; [done|].
    rewrite forallb_forall in Eall. apply list_elem_of_In, Eall in Hd. unfold is_intermediary in Hd. apply andb_true_iff in Hd as [_ Hd%Nat.ltb_lt].
    destruct (children t (sn_id d)) as [|k ks] eqn:E; [simpl in Hd; lia|]. exists k. apply elem_of_children. rewrite E. by left.
Qed.

(** Consolidating keeps the tree and what it manages, and ends. *)
Lemma consolidate_ok fuel t parentId :
  tree_ok t -> let t' := consolidate fuel t parentId in
  tree_ok t' /\ (forall n, leaf_net t' n <-> leaf_net t n) /\ next_id t' = next_id t.
Proof.
  revert t parentId. induction fuel as [|fuel IH]; intros t parentId Ht; cbn [consolidate]; [done|]. destruct parentId as [pid|]; [|done].
  cbv zeta. destruct (children t pid) as [|c l] eqn:Ekids; [done|]. rewrite <- Ekids. destruct (forallb _ _) eqn:Eall; cbn [negb]; [|done].
  destruct (find_subnet t pid) as [q|] eqn:Eq; [|done]. apply find_subnet_inv in Eq as [Hq <-].
  destruct (lift_pass t q Ht Hq Eall) as (H1 & _ & H3 & _ & H5).
  destruct (IH _ (sn_parent q) H1) as (I1 & I2 & I3). split; [done|]. split; [|by rewrite I3]. intros n. by rewrite I2.
Qed.

(** ** Lemmas: new rows *)

Definition meets (t : Table) (id : Z) (n : Network) : Prop := exists r, r ∈ rows t /\ sn_parent r = Some id /\ ~ apart (net_of r) n.

(** A network that lies in a row, apart from the row's children, is nobody
    else's: its text is new. *)
Lemma fresh_cidr t q n :
  tree_ok t -> q ∈ rows t -> wf_network n -> inside n (net_of q) ->
  (forall r, r ∈ rows t -> sn_parent r = Some (sn_id q) -> apart (net_of r) n) ->
  forall r, r ∈ rows t -> sn_cidr r <> cidr n.
Proof.
  intros Ht Hq Hn Hin Hap r Hr He. pose proof (row_wf _ (ok_rows t Ht r Hr)) as Hrw. pose proof (row_wf _ (ok_rows t Ht q Hq)) as Hqw.
  assert (net_of r = n) as Hrn.
  { apply cidr_inj; [done|done|]. rewrite <- He. apply (row_cidr r), (ok_rows t Ht r Hr). }
  destruct (branch t Ht r q Hr Hq) as [->|[Hb|Hb]].
  - rewrite Hrn. apply within_not_apart; [done|by apply inside_within].
  - destruct Hin as [_ Hlt]. rewrite Hrn in Hlt. lia.
  - destruct (below_top t r q Hb) as (k & Hk & Hkp & Hrk). pose proof (Hap k Hk Hkp) as Hkn.
    destruct Hrk as [->|Hrk].
    + rewrite Hrn in Hkn. by apply (within_not_apart n n).
    + destruct (below_inside t Ht r k Hrk) as [[Hw _] _]. rewrite Hrn in Hw. apply (within_not_apart n (net_of k)); [done|done|by symmetry].
  - destruct (below_inside t Ht q r Hb) as [[_ Hlt] _]. rewrite Hrn in Hlt. destruct Hin as [_ Hlt']. lia.
Qed.

Lemma insert_child t q ns n :
  tree_ok t -> q ∈ rows t -> parseNetwork (ns_cidr ns) = Ok n -> cidr n = ns_cidr ns -> mapped_free n -> inside n (net_of q) ->
  ns_parent ns = Some (sn_id q) -> ns_depth ns = Some (sn_depth q + 1) ->
  (forall r, r ∈ rows t -> sn_parent r = Some (sn_id q) -> apart (net_of r) n) ->
  let t' := mkTable (rows t ++ [new_row n (next_id t) ns]) (next_id t + 1) in
  insertSubnet t ns = Ok (t', next_id t) /\ tree_ok t' /\ net_of (new_row n (next_id t) ns) = n /\
  sn_parent (new_row n (next_id t) ns) = Some (sn_id q).
Proof.
  intros Ht Hq Hc Hcn Hm Hin Hpar Hdepth Hap t'. pose proof (parseNetwork_wf _ _ Hc) as Hn. pose proof (ok_next t Ht q Hq) as Hid.
  assert (or_null_z (ns_parent ns) = Some (sn_id q)) as Hp by (rewrite Hpar; destruct (sn_id q); [lia|done|done]).
  assert (net_of (new_row n (next_id t) ns) = n) as Hnet by (unfold net_of; cbn [new_row sn_cidr]; by rewrite Hc).
  assert (sn_parent (new_row n (next_id t) ns) = Some (sn_id q)) as Hpr by exact Hp.
  split.
  - unfold insertSubnet. rewrite Hc. cbn [lift_cidr mbind result_bind]. destruct (existsb _ (rows t)) eqn:E.
    + exfalso. apply existsb_exists in E as (r & Hr & He%String.eqb_eq). apply list_elem_of_In in Hr.
      eapply fresh_cidr; [exact Ht|exact Hq|exact Hn|exact Hin|exact Hap|exact Hr|congruence].
    + cbv zeta. by rewrite Hp, (find_subnet_elem t Ht q Hq).
  - split; [|done]. apply add_ok; [done| |done| |].
    + split; cbn [new_row sn_cidr sn_net sn_depth]; rewrite ?Hnet; try done. rewrite Hdepth. cbn. pose proof (row_depth _ (ok_rows t Ht q Hq)). lia.
    + intros p Hpp. rewrite Hpr in Hpp. injection Hpp as <-. exists q. rewrite Hnet. split; [done|]. split; [done|]. split; [done|].
      cbn [new_row sn_depth]. rewrite Hdepth. cbn. lia.
    + intros r Hr Hrp. rewrite Hnet. apply Hap; [done|]. by rewrite Hrp.
Qed.

Lemma name_total template c n : parseNetwork c = Ok n -> exists name, networkNameFromTemplate template c = Ok name.
Proof. intros Hc. unfold networkNameFromTemplate. rewrite Hc. cbn [mbind result_bind]. by eexists. Qed.

(** What the children of a division look like in the table. *)
Definition child_of (q : Subnet) (n : Network) (r : Subnet) : Prop := net_of r = n /\ sn_parent r = Some (sn_id q).

Lemma update_last id f t r :
  (forall x, x ∈ rows t -> sn_id x <> id) -> sn_id r = id -> update_row id f (mkTable (rows t ++ [r]) (next_id t + 1)) = mkTable (rows t ++ [f r]) (next_id t + 1).
Proof.
  intros Hne Hr. unfold update_row, update_where. cbn [rows next_id]. rewrite map_app. cbn [map]. rewrite Hr, Z.eqb_refl. f_equal. f_equal.
  rewrite <- (map_id (rows t)) at 2. apply map_ext_in. intros x Hx. apply list_elem_of_In, Hne in Hx. by apply Z.eqb_neq in Hx as ->.
Qed.

(** The insert loop of a division never fails, and adds one row per target. *)
Lemma insert_targets_ok template q targets nets t :
  tree_ok t -> q ∈ rows t -> map cidr nets = map tg_cidr targets ->
  (forall n, n ∈ nets -> wf_network n /\ mapped_free n /\ inside n (net_of q)) ->
  (forall n n', n ∈ nets -> n' ∈ nets -> n <> n' -> apart n n') -> NoDup nets ->
  (forall r n, r ∈ rows t -> sn_parent r = Some (sn_id q) -> n ∈ nets -> apart (net_of r) n) ->
  exists t' new, insertTargets template q targets t = Ok t' /\ tree_ok t' /\ rows t' = rows t ++ new /\ Forall2 (child_of q) nets new.
Proof.
  intros Ht Hq. revert targets t Ht Hq. induction nets as [|n nets IH]; intros targets t Ht Hq Hmap Hnets Hpair Hnd Hap; destruct targets as [|tg targets]; try done.
  - exists t, []. by rewrite app_nil_r.
  - cbn [map] in Hmap. injection Hmap as Hcn Hmap. destruct (Hnets n ltac:(by left)) as (Hn & Hm & Hin). unfold insertTargets. cbn [fold_result].
    pose proof (wf_reparse _ Hn) as Hc. rewrite Hcn in Hc. unfold insertTarget at 1.
    destruct (name_total template _ _ Hc) as [name Hname]. rewrite Hname. cbn [lift_cidr mbind result_bind]. set (ns := mkNewSubnet _ _ _ _ _ _ _ _ _ _ _ _ _).
    destruct (insert_child t q ns n) as (Hins & Ht' & Hnet & Hpar); try done.
    { intros r Hr Hrp. apply Hap; [done|done|by left]. }
    rewrite Hins. cbn [mbind result_bind mret result_ret fst snd].
    set (row := new_row n (next_id t) ns) in *. set (t1 := mkTable (rows t ++ [row]) (next_id t + 1)) in *.
    assert (exists row', (if sn_reverse q =? 0 then t1 else setReverseDnsFlag (next_id t) t1) = mkTable (rows t ++ [row']) (next_id t + 1) /\
      child_of q n row' /\ tree_ok (mkTable (rows t ++ [row']) (next_id t + 1))) as (row' & -> & Hrow' & Ht1).
    { destruct (sn_reverse q =? 0); [by exists row|]. exists (set_reverse row). pose proof (update_ok (fun r => sn_id r =? next_id t) set_reverse t1 Ht' ltac:(done)) as Hu.
      change (update_where _ set_reverse t1) with (setReverseDnsFlag (next_id t) t1) in Hu.
      assert (setReverseDnsFlag (next_id t) t1 = mkTable (rows t ++ [set_reverse row]) (next_id t + 1)) as He.
      { apply update_last; [|done]. intros x Hx. pose proof (ok_next t Ht x Hx). lia. }
      rewrite He in *. by split_and!. }
    apply NoDup_cons in Hnd as [Hnn Hnd].
    destruct (IH targets (mkTable (rows t ++ [row']) (next_id t + 1)) Ht1) as (t' & new & Hrun & Hok & Hrows & Hnew).
    + cbn [rows]. apply elem_of_app. by left.
    + done.
    + intros m Hmm. apply Hnets. by right.
    + intros m m' ? ?. apply Hpair; by right.
    + done.
    + intros r m Hr Hrp Hmm. cbn [rows] in Hr. apply elem_of_app in Hr as [Hr|Hr%list_elem_of_singleton].
      * apply Hap; [done|done|by right].
      * subst r. destruct Hrow' as [-> _]. apply Hpair; [by left|by right|]. by intros ->.
    + exists t', (row' :: new). unfold insertTargets in Hrun. cbn [mbind result_bind]. split; [exact Hrun|]. split; [done|].
      split; [cbn [rows] in Hrows; by rewrite Hrows, <- app_assoc|]. by constructor.
Qed.

(** ** Lemmas: what is managed *)

Lemma update_nets p f t n : (forall r, frame (f r) = frame r) -> leaf_net (update_where p f t) n <-> leaf_net t n.
Proof.
  intros Hf. set (g := fun r => if p r then f r else r).
  assert (forall r, frame (g r) = frame r) as Hg by (intros r; unfold g; destruct (p r); [apply Hf|done]).
  assert (forall r, net_of (g r) = net_of r) as Hnet by (intros r; by apply frame_net).
  assert (forall r, sn_id (g r) = sn_id r /\ sn_parent (g r) = sn_parent r) as Hcols by (intros r; specialize (Hg r); unfold frame in Hg; by injection Hg).
  assert (forall r', r' ∈ rows (update_where p f t) <-> exists r, r' = g r /\ r ∈ rows t) as Hin.
  { intros r'. rewrite update_rows. fold g. rewrite list_elem_of_In, in_map_iff. setoid_rewrite list_elem_of_In. naive_solver. }
  unfold leaf_net, leaf. split.
  - intros (r' & [(r & -> & Hr)%Hin Hn] & Hcov). exists r. rewrite Hnet in Hcov. split; [split; [done|]|done].
    rewrite children_none in Hn. apply children_none. destruct (Hcols r) as [Hid _]. rewrite Hid in Hn. intros k Hk Hp.
    apply (Hn (g k)); [apply Hin; by exists k|]. by destruct (Hcols k) as [_ ->].
  - intros (r & [Hr Hn] & Hcov). exists (g r). rewrite Hnet. split; [split; [apply Hin; by exists r|]|done].
    rewrite children_none in Hn. apply children_none. destruct (Hcols r) as [Hid _]. rewrite Hid. intros k' (k & -> & Hk)%Hin.
    destruct (Hcols k) as [_ ->]. by apply Hn.
Qed.

Lemma head_elem {A} (l : list A) : (0 < length l)%nat -> exists x, x ∈ l.
Proof. destruct l as [|x l]; simpl; [lia|]. exists x. by left. Qed.

(** New rows that partition a leaf take over what it held. *)
Section Partitioned.
Context (t t1 : Table) (Ht : tree_ok t) (Ht1 : tree_ok t1) (q : Subnet) (Hq : leaf t q).
Context (nets : list Network) (new : list Subnet) (Hp : partition (net_of q) nets) (Hnew : Forall2 (child_of q) nets new).
Context (Hrows : rows t1 = rows t ++ new).

Lemma elem_of_t1 r : r ∈ rows t1 <-> r ∈ rows t \/ r ∈ new.
Proof. by rewrite Hrows, elem_of_app. Qed.

Lemma new_child r : r ∈ new -> exists n, n ∈ nets /\ child_of q n r.
Proof. intros [i Hi]%list_elem_of_lookup. destruct (Forall2_lookup_r _ _ _ _ _ Hnew Hi) as (n & Hn & Hc). exists n. split; [by eapply list_elem_of_lookup_2|done]. Qed.

Lemma new_for n : n ∈ nets -> exists r, r ∈ new /\ child_of q n r.
Proof. intros [i Hi]%list_elem_of_lookup. destruct (Forall2_lookup_l _ _ _ _ _ Hnew Hi) as (r & Hr & Hc). exists r. split; [by eapply list_elem_of_lookup_2|done]. Qed.

Lemma new_disjoint r : r ∈ rows t -> r ∈ new -> False.
Proof.
  intros Hr Hn. pose proof (ok_ids t1 Ht1) as Hnd. rewrite Hrows, map_app in Hnd. apply NoDup_app in Hnd as (_ & Hd & _).
  apply (Hd (sn_id r)); apply list_elem_of_In, in_map; by apply list_elem_of_In.
Qed.

Lemma partitioned_leaf r : leaf t1 r <-> (leaf t r /\ r <> q) \/ r ∈ new.
Proof.
  unfold leaf. rewrite elem_of_t1, !children_none. split.
  - intros [[Hr|Hr] Hn]; [left|by right]. split; [split; [done|]|].
    + intros k Hk. apply Hn. apply elem_of_t1. by left.
    + intros ->. destruct (head_elem nets) as [n Hin]; [pose proof (part_many _ _ Hp); lia|].
      destruct (new_for n Hin) as (k & Hk & _ & Hkp). apply (Hn k); [apply elem_of_t1; by right|done].
  - intros [[[Hr Hn] Hne]|Hr].
    + split; [by left|]. intros k [Hk|Hk]%elem_of_t1; [by apply Hn|]. destruct (new_child k Hk) as (n & _ & _ & ->). intros [= He].
      apply Hne. symmetry. apply (same_id t Ht); [apply Hq|done|done].
    + split; [by right|]. intros k [Hk|Hk]%elem_of_t1 Hkp.
      * destruct (ok_parent t Ht k _ Hk Hkp) as (x & Hx & He & _). apply (new_disjoint x Hx).
        assert (x = r) as ->; [|done]. apply (same_id t1 Ht1); [apply elem_of_t1; by left|apply elem_of_t1; by right|done].
      * destruct (new_child k Hk) as (n & _ & _ & Hkq). rewrite Hkq in Hkp. injection Hkp as He. apply (new_disjoint q); [apply Hq|].
        assert (q = r) as ->; [|done]. apply (same_id t1 Ht1); [apply elem_of_t1; left; apply Hq|apply elem_of_t1; by right|done].
Qed.

Lemma partitioned_nets n : leaf_net t1 n <-> (leaf_net t n /\ n <> net_of q) \/ n ∈ nets.
Proof.
  pose proof (row_wf _ (ok_rows t Ht q (proj1 Hq))) as Hw. unfold leaf_net. setoid_rewrite partitioned_leaf. split.
  - intros (r & [[Hl Hne]|Hr] & <-).
    + left. split; [by exists r|]. intros He. pose proof (leaves_apart t Ht r q Hl Hq Hne) as Ha. rewrite He in Ha.
      by apply (within_not_apart (net_of q) (net_of q)).
    + right. by destruct (new_child r Hr) as (k & Hk & -> & _).
  - intros [[(r & Hl & <-) Hne]|Hn]; [exists r; split; [left; split; [done|by intros ->]|done]|].
    destruct (new_for n Hn) as (k & Hk & Hkn & _). exists k. by split; [right|].
Qed.

Lemma partitioned_managed f v : managed t1 f v <-> managed t f v.
Proof.
  pose proof (row_wf _ (ok_rows t Ht q (proj1 Hq))) as Hw. unfold managed. setoid_rewrite partitioned_nets. split.
  - intros (n & [[Hl _]|Hn] & Hcov); [by exists n|]. exists (net_of q). split; [by exists q|].
    by eapply within_covers; [apply (partition_within _ _ Hp)|].
  - intros (n & Hl & Hcov). destruct (decide (n = net_of q)) as [->|Hne]; [|exists n; split; [by left|done]].
    destruct (partition_cover _ _ Hp f v Hcov) as (k & Hk & Hkc & _). exists k. by split; [right|].
Qed.
End Partitioned.

(** ** Lemmas: the division route *)

Lemma bind_case {E A B} (m : result E A) (f : A -> result E B) (P : result E B -> Prop) :
  (forall e, m = Err e -> P (Err e)) -> (forall a, m = Ok a -> P (f a)) -> P (m ≫= f).
Proof. destruct m; intros He Ho; cbn; auto. Qed.

(** An error that the database did not raise. *)
Definition not_raised (e : tree_error) : Prop := forall te, e = Threw te -> exists ce, te = TableCidr ce.

Lemma lift_not_raised {A} (m : result cidr_error A) e : lift_cidr_tree m = Err e -> not_raised e.
Proof. destruct m; cbn; intros [= <-] te [= <-]. by eexists. Qed.

Lemma refuse_not_raised b s msg e : refuse_if b s msg = Err e -> not_raised e.
Proof. unfold refuse_if. destruct b; intros [= <-]. by intros te [=]. Qed.

Lemma refuse_ok b s msg u : refuse_if b s msg = Ok u -> b = false.
Proof. unfold refuse_if. by destruct b. Qed.

Lemma find_leaf t id q : find_subnet t id = Some q -> (0 <? length (children t (sn_id q)))%nat = false -> leaf t q.
Proof.
  intros [Hq <-]%find_subnet_inv Hc%Nat.ltb_ge. split; [done|]. destruct (children t (sn_id q)); [done|simpl in Hc; lia].
Qed.

(** What the caller asked for: networks of one length, or one network and the
    rest around it. *)
Definition asked (req : DivideRequest) (targetPrefix : option Z) (nets : list Network) : Prop :=
  match dr_newPrefix req with
  | Some _ => exists p, targetPrefix = Some p /\ Forall (fun n => prefix n = p) nets
  | None => exists c v, or_null (dr_cidr req) = Some c /\ normalizeNetwork c = Ok v /\ v ∈ map cidr nets
  end.

(** The networks the insert loop writes partition the parent. *)
Lemma executed sha256_state sha256_plan after_now db parent b plan targets :
  row_ok parent -> (forall c n, dr_cidr (vb_request b) = Some c -> parseNetwork c = Ok n -> cidr n = c) ->
  buildDividePlan sha256_state sha256_plan after_now db parent (vb_request b) = Ok plan ->
  executedTargets parent b plan = Ok targets ->
  exists nets, partition (net_of parent) nets /\ map cidr nets = map tg_cidr targets /\
    match dr_newPrefix (vb_request b) with
    | Some _ => exists p, vb_targetPrefix b = Some p /\ Forall (fun n => prefix n = p) nets
    | None => forall c, dr_cidr (vb_request b) = Some c -> c ∈ map cidr nets
    end.
Proof.
  intros Hr Hnorm Hplan. pose proof (row_parse _ Hr) as Hc. unfold executedTargets. destruct (dr_newPrefix _) as [np|] eqn:Hnew.
  - destruct (splitNetwork _ _ _) as [blocks|] eqn:Hs; [|done]. cbn [lift_cidr_tree mbind result_bind]. unfold refuse_if.
    destruct (existsb _ _); [done|]. cbn [mbind result_bind]. intros Hm.
    destruct (vb_targetPrefix b) as [p|]; [|unfold splitNetwork in Hs; by rewrite Hc in Hs].
    exists blocks. split; [by apply (split_partitions _ _ _ _ _ Hc (row_free _ Hr) Hs)|].
    split; [|exists p; split; [done|]; destruct (split_children _ _ _ _ _ Hc (row_free _ Hr) Hs) as (_ & _ & -> & _); apply Forall_map, Forall_forall; by intros i _].
    apply map_result_inv in Hm. clear -Hm. induction Hm as [|n t blocks ts Hf _ IH]; [done|]. cbn [map]. rewrite IH. f_equal.
    destruct (List.find _ _) as [t'|] eqn:E; [|done]. injection Hf as ->. by apply find_some in E as [_ ->%String.eqb_eq].
  - intros [= <-]. destruct (divide_plan_facts _ _ _ _ _ _ _ _ Hc (row_free _ Hr) Hplan) as (nets & Hp & _ & _ & Hcs & _).
    exists nets. split; [done|]. rewrite Hcs by done. split; [done|]. intros c Hcc. by eapply carve_target.
Qed.

Lemma normalizeNetwork_inv c v : normalizeNetwork c = Ok v -> forall n, parseNetwork v = Ok n -> cidr n = v.
Proof.
  unfold normalizeNetwork. destruct (parseNetwork c) as [k|] eqn:Hc; [|done]. intros [= <-] n Hn.
  rewrite (wf_reparse _ (parseNetwork_wf _ _ Hc)) in Hn. congruence.
Qed.

(** What a division does to the table before it consolidates. *)
Definition inserted (t : Table) (parent : Subnet) (nets : list Network) (t1 : Table) : Prop :=
  tree_ok t1 /\ exists new, Forall2 (child_of parent) nets new /\ rows t1 = rows t ++ new.

Lemma insert_division template t parent nets targets :
  tree_ok t -> leaf t parent -> partition (net_of parent) nets -> map cidr nets = map tg_cidr targets ->
  exists t1, insertTargets template parent targets t = Ok t1 /\ inserted t parent nets t1.
Proof.
  intros Ht Hl Hp Hcs. pose proof (ok_rows t Ht parent (proj1 Hl)) as Hr. pose proof (row_wf _ Hr) as Hw.
  destruct (insert_targets_ok template parent targets nets t Ht (proj1 Hl) Hcs) as (t1 & new & Hrun & Hok & Hrows & Hnew).
  - intros n Hn. split; [by apply (partition_elem _ _ Hp)|]. split; [by eapply partition_mapped_free; [..|apply Hr|]|]. by eapply partition_inside.
  - intros n n'. by eapply partition_apart.
  - by eapply partition_NoDup.
  - intros r n Hrr Hrp. destruct (children_none t (sn_id parent)) as [Hn _]. by destruct (Hn (proj2 Hl) r Hrr).
  - exists t1. split; [done|]. split; [done|]. by exists new.
Qed.

(** [divided t parent nets t']: the leaf [parent] was replaced by [nets]. *)
Record divided (t : Table) (parent : Subnet) (nets : list Network) (t' : Table) : Prop := {
  dv_leaf : leaf t parent;
  dv_partition : partition (net_of parent) nets;
  dv_ok : tree_ok t';
  dv_nets : forall n, leaf_net t' n <-> (leaf_net t n /\ n <> net_of parent) \/ n ∈ nets;
  dv_managed : forall f v, managed t' f v <-> managed t f v }.

Lemma division_done t parent nets t1 :
  tree_ok t -> leaf t parent -> partition (net_of parent) nets -> inserted t parent nets t1 ->
  divided t parent nets (consolidateIntermediate (clearParentConfig (sn_id parent) t1) (sn_parent parent)).
Proof.
  intros Ht Hl Hp (Ht1 & new & Hnew & Hrows). unfold consolidateIntermediate. set (t2 := clearParentConfig _ t1).
  assert (tree_ok t2) as Ht2 by (by apply update_ok).
  destruct (consolidate_ok (S (length (rows t2))) t2 (sn_parent parent) Ht2) as (H1 & H2 & _).
  assert (forall n, leaf_net t2 n <-> leaf_net t1 n) as H3 by (intros n; by apply update_nets).
  split; [done|done|done| |].
  - intros n. rewrite H2, H3. by apply (partitioned_nets t t1 Ht Ht1 parent Hl nets new).
  - intros f v. rewrite <- (partitioned_managed t t1 Ht Ht1 parent Hl nets new Hp Hnew Hrows f v).
    apply managed_ext. intros n. by rewrite H2, H3.
Qed.

Lemma not_raised_refused s msg : not_raised (Refused s msg).
Proof. by intros te [=]. Qed.

(** A route either has the property or refuses: the database raises nothing. *)
Definition or_refused (P : Table -> Prop) (m : result tree_error Table) : Prop :=
  match m with Ok t => P t | Err e => not_raised e end.

Lemma or_refused_if P b s msg k : (b = false -> or_refused P (k ())) -> or_refused P (refuse_if b s msg ≫= k).
Proof. unfold refuse_if. destruct b; intros H; [apply not_raised_refused|by apply H]. Qed.

Lemma or_refused_lift {A} P (m : result cidr_error A) k : (forall a, m = Ok a -> or_refused P (k a)) -> or_refused P (lift_cidr_tree m ≫= k).
Proof. destruct m as [a|e]; intros H; [by apply H|]. intros te [= <-]. by eexists. Qed.

Lemma or_refused_bind {A} P (m : result tree_error A) k :
  (forall e, m = Err e -> not_raised e) -> (forall a, m = Ok a -> or_refused P (k a)) -> or_refused P (m ≫= k).
Proof. destruct m as [a|e]; intros He Ho; [by apply Ho|by apply He]. Qed.

Lemma stale_not_raised sha256_state db token planId plan e : stale sha256_state db token planId plan = Err e -> not_raised e.
Proof. unfold stale. destruct (or_null token); [|done]. destruct (isCurrentTransformationPlan _ _ _); [done|]. by intros [= <-] te [= <-]; eexists. Qed.

Lemma mode_gates_not_raised parent b e : mode_gates parent b = Err e -> not_raised e.
Proof.
  unfold mode_gates. destruct (parseNetwork _); [|by intros [= <-] te [= <-]; eexists]. cbn [lift_cidr_tree mbind result_bind].
  destruct (dr_newPrefix _); [destruct (vb_targetPrefix b); [apply refuse_not_raised|done]|].
  destruct (dr_cidr _); [|intros [= <-]; apply not_raised_refused]. destruct (isNetworkWithin _ _); [apply refuse_not_raised|].
  by intros [= <-] te [= <-]; eexists.
Qed.

Lemma executedTargets_not_raised parent b plan e : executedTargets parent b plan = Err e -> not_raised e.
Proof.
  unfold executedTargets. destruct (dr_newPrefix _); [|done]. destruct (splitNetwork _ _ _) as [blocks|]; [|by intros [= <-] te [= <-]; eexists].
  cbn [lift_cidr_tree mbind result_bind]. unfold refuse_if at 1. destruct (existsb _ _); [intros [= <-]; apply not_raised_refused|]. cbn [mbind result_bind].
  induction blocks as [|n l IH]; cbn [map_result]; [done|].
  destruct (List.find _ _); [|by intros [= <-] te [=]]. destruct (map_result _ l); [done|]. intros [= <-]. by apply IH.
Qed.

Lemma loss_gate_not_raised after_now db parent cidrs resolutions e : loss_gate after_now db parent cidrs resolutions = Err e -> not_raised e.
Proof.
  unfold loss_gate. destruct (detectLossyIpsForDivision _ _ _ _) as [l|]; [|by intros [= <-] te [= <-]; eexists]. cbn [lift_cidr_tree mbind result_bind].
  destruct (validateConflictResolutions l resolutions); [|by intros [= <-] te [=]]. apply refuse_not_raised.
Qed.

#[local] Hint Resolve stale_not_raised mode_gates_not_raised executedTargets_not_raised loss_gate_not_raised : core.

(** The outcome of a division: the leaf is replaced, or the request refused. *)
Lemma divide_cases sha256_state sha256_plan after_now cfg db t id b :
  tree_ok t ->
  or_refused (fun t' => exists parent nets, find_subnet t id = Some parent /\ divided t parent nets t' /\
      asked (vb_request b) (vb_targetPrefix b) nets)
    (divideSubnet sha256_state sha256_plan after_now cfg db t id b).
Proof.
  intros Ht. unfold divideSubnet. destruct (find_subnet t id) as [parent|] eqn:Hfind; [|apply not_raised_refused]. cbn [mbind result_bind].
  apply or_refused_if. intros _. apply or_refused_if. intros Hkids. pose proof (find_leaf _ _ _ Hfind Hkids) as Hl.
  pose proof (ok_rows t Ht parent (proj1 Hl)) as Hr. apply or_refused_if. intros _.
  apply or_refused_bind; [destruct (or_null _) as [c|]; [|done]; destruct (normalizeNetwork c); [done|]; by intros e' [= <-] te [= <-]; eexists|].
  intros normalized Hnorm. cbv zeta. set (b' := mkDivideBody _ _ _ _ _ _).
  assert (forall c n, dr_cidr (vb_request b') = Some c -> parseNetwork c = Ok n -> cidr n = c) as Hn.
  { cbn. intros c n -> Hc. destruct (or_null _) as [c0|]; [|done]. destruct (normalizeNetwork c0) as [v|] eqn:E; [|done].
    injection Hnorm as ->. by apply (normalizeNetwork_inv c0). }
  apply or_refused_bind; [destruct (buildDividePlan _ _ _ _ _ _); [done|]; by intros e1 [= <-] te [=]|]. intros plan Hplan.
  assert (buildDividePlan sha256_state sha256_plan after_now (with_rows db t) parent (vb_request b') = Ok plan) as Hp.
  { cbn [vb_request]. subst b'. cbn [vb_request]. destruct (buildDividePlan _ _ _ _ _ _); [by injection Hplan as ->|done]. }
  apply or_refused_if. intros _. apply or_refused_bind; [eauto|]. intros old _. apply or_refused_if. intros _.
  apply or_refused_bind; [eauto|]. intros _ _. apply or_refused_bind; [eauto|]. intros targets Htg. apply or_refused_bind; [eauto|]. intros _ _.
  destruct (executed _ _ _ _ _ _ _ _ Hr Hn Hp Htg) as (nets & Hpart & Hcs & Hask).
  destruct (insert_division (subnet_name_template cfg) t parent nets targets Ht Hl Hpart Hcs) as (t1 & -> & Hins).
  cbn. exists parent, nets. split; [done|]. split; [by apply division_done|]. unfold asked. cbn in Hask.
  destruct (dr_newPrefix (vb_request b)); [done|]. destruct (or_null (dr_cidr (vb_request b))) as [c|].
  - destruct (normalizeNetwork c) as [v|] eqn:Hv; [|done]. injection Hnorm as <-. exists c, v. split; [done|]. split; [done|]. by apply Hask.
  - injection Hnorm as <-. exfalso. cbn in Hp. unfold buildDividePlan, divideTargets in Hp. by cbn in Hp.
Qed.

(** ** Lemmas: the merge route *)

Lemma deleteSubnetRow_leaf t id : (forall r, r ∈ rows t -> sn_parent r <> Some id) -> deleteSubnetRow t id = delete_ids [id] t.
Proof.
  intros Hn. unfold deleteSubnetRow, descendants. destruct (length (rows t)) as [|n]; [done|]. cbn [below].
  destruct (List.filter _ (rows t)) as [|x l] eqn:E; [done|]. exfalso. assert (In x (x :: l)) as Hx by (by left). rewrite <- E in Hx.
  apply List.filter_In in Hx as [Hx Hch]. cbn [existsb] in Hch. rewrite orb_false_r in Hch. unfold is_child in Hch.
  apply bool_decide_eq_true in Hch. apply list_elem_of_In in Hx. by apply (Hn x).
Qed.

Lemma filter_twice {A} (f g : A -> bool) l : List.filter f (List.filter g l) = List.filter (fun x => g x && f x) l.
Proof. induction l as [|x l IH]; [done|]. simpl. destruct (g x); simpl; [destruct (f x)|]; by rewrite IH. Qed.

Lemma delete_ids_cons i ids t : delete_ids ids (delete_ids [i] t) = delete_ids (i :: ids) t.
Proof.
  unfold delete_ids. cbn [rows next_id]. f_equal. rewrite filter_twice. apply filter_ext. intros r. cbn [existsb].
  by destruct (sn_id r =? i).
Qed.

Lemma filter_true {A} (l : list A) : List.filter (fun _ => true) l = l.
Proof. induction l as [|x l IH]; [done|]. simpl. by rewrite IH. Qed.

Lemma delete_ids_nil t : delete_ids [] t = t.
Proof. unfold delete_ids. destruct t as [l n]. cbn [rows next_id]. f_equal. apply filter_true. Qed.

Lemma delete_rows_leaves ids t : (forall r i, r ∈ rows t -> i ∈ ids -> sn_parent r <> Some i) -> delete_rows ids t = delete_ids ids t.
Proof.
  unfold delete_rows. revert t. induction ids as [|i ids IH]; intros t Hn; cbn [fold_left].
  - by rewrite delete_ids_nil.
  - rewrite deleteSubnetRow_leaf by (intros r Hr; apply Hn; [done|by left]). rewrite IH; [apply delete_ids_cons|].
    intros r j [Hr _]%elem_of_delete_ids Hj. apply Hn; [done|by right].
Qed.

Section Merging.
Context (t : Table) (Ht : tree_ok t) (q : Subnet) (Hq : q ∈ rows t) (sources : list Subnet) (m : Network).
Context (Hleaf : forall s, s ∈ sources -> leaf t s /\ sn_parent s = Some (sn_id q)) (Hm : wf_network m).
Context (Hp : partition m (map net_of sources)).

Abbreviation ids := (map sn_id sources).

Lemma source_elem s : s ∈ sources -> s ∈ rows t /\ net_of s ∈ map net_of sources /\ sn_id s ∈ ids.
Proof. intros Hs. split; [apply (Hleaf s Hs)|]. split; apply list_elem_of_In, in_map; by apply list_elem_of_In. Qed.

Lemma source_net n : n ∈ map net_of sources -> exists s, s ∈ sources /\ net_of s = n.
Proof. intros (s & <- & Hs)%list_elem_of_In%in_map_iff. exists s. by rewrite list_elem_of_In. Qed.

Lemma source_id r : r ∈ rows t -> sn_id r ∈ ids -> r ∈ sources.
Proof.
  intros Hr (s & He & Hs)%list_elem_of_In%in_map_iff. apply list_elem_of_In in Hs. destruct (source_elem s Hs) as (Hsr & _).
  by rewrite (same_id t Ht r s).
Qed.

Lemma some_source : exists s, s ∈ sources.
Proof. apply head_elem. pose proof (part_many _ _ Hp) as Hn. rewrite length_map in Hn. lia. Qed.

(** A child of the parent that shares an address with the merged network is
    one of the sources. *)
Lemma met_source k : k ∈ rows t -> sn_parent k = Some (sn_id q) -> ~ apart (net_of k) m -> k ∈ sources.
Proof.
  intros Hk Hkp Hna. pose proof (row_wf _ (ok_rows t Ht k Hk)) as Hw.
  assert (overlapping (net_of k) m) as Ho.
  { destruct (decide (family (net_of k) = family m /\ networkBig (net_of k) <= lastBig m /\ networkBig m <= lastBig (net_of k))) as [?|Hn]; [done|].
    exfalso. by apply Hna. }
  apply overlapping_common in Ho as (f & v & Hv & Hv'); [|done..].
  destruct (partition_cover _ _ Hp f v Hv') as (n & Hn & Hnv & _). apply source_net in Hn as (s & Hs & <-).
  destruct (Hleaf s Hs) as [[Hsr _] Hsp]. destruct (decide (k = s)) as [->|Hne]; [done|]. exfalso.
  by apply (apart_covers (net_of k) (net_of s) f v (ok_apart t Ht k s Hk Hsr Hne ltac:(congruence))).
Qed.

Lemma merged_within : within m (net_of q).
Proof.
  pose proof (wf_order _ Hm) as Hlo. destruct some_source as (s0 & Hs0).
  assert (forall v, networkBig m <= v <= lastBig m -> covers (net_of q) (family m) v) as Hin.
  { intros v Hv. destruct (partition_cover _ _ Hp (family m) v) as (n & Hn & Hnv & _); [by split|]. apply source_net in Hn as (s & Hs & <-).
    destruct (Hleaf s Hs) as [[Hsr _] Hsp]. destruct (child_inside t Ht s q Hsr Hq Hsp) as [Hi _]. by eapply within_covers; [apply inside_within|]. }
  destruct (Hin (networkBig m) ltac:(lia)) as [? ?], (Hin (lastBig m) ltac:(lia)) as [? ?]. split_and!; [done|lia|lia].
Qed.

Lemma source_inside s : s ∈ sources -> inside (net_of s) m.
Proof. intros Hs. eapply partition_inside; [done|done|]. by apply source_elem. Qed.

(** No row has the text of the merged network, the parent aside. *)
Lemma merged_fresh r : r ∈ rows t -> r <> q -> net_of r <> m.
Proof.
  intros Hr Hne He. pose proof merged_within as Hmq. pose proof (row_wf _ (ok_rows t Ht q Hq)) as Hqw.
  destruct (branch t Ht r q Hr Hq) as [?|[Hb|Hb]]; [|done| |].
  - rewrite He. by apply within_not_apart.
  - destruct (below_top t r q Hb) as (k & Hk & Hkp & Hrk).
    assert (within m (net_of k)) as Hmk.
    { destruct Hrk as [->|Hrk]; [by rewrite <- He|]. rewrite <- He. apply inside_within. by apply (below_inside t Ht). }
    assert (k ∈ sources) as Hks.
    { apply met_source; [done|done|]. intros Ha. apply (within_not_apart m (net_of k)); [done|done|by symmetry]. }
    destruct (source_inside k Hks) as [_ Hlt]. pose proof (within_prefix _ _ Hm (row_wf _ (ok_rows t Ht k Hk)) Hmk). lia.
  - destruct (below_inside t Ht q r Hb) as [[Hw Hlt] _]. rewrite He in Hlt. pose proof (within_prefix _ _ Hm Hqw Hmq). lia.
Qed.

Lemma deleted_ok : tree_ok (delete_ids ids t).
Proof.
  apply delete_ok; [done|]. intros r x Hr Hx Hrx Hin. exfalso. apply source_id in Hin; [|done]. destruct (Hleaf x Hin) as [[_ Hn] _].
  rewrite children_none in Hn. by apply (Hn r).
Qed.

Lemma parent_stays : q ∈ rows (delete_ids ids t).
Proof.
  apply elem_of_delete_ids. split; [done|]. intros Hin. apply source_id in Hin; [|done]. destruct (Hleaf q Hin) as [_ Hqp].
  destruct (child_inside t Ht q q Hq Hq Hqp). lia.
Qed.

(** [row] stands for the sources in [t1]. *)
Definition replaced (row : Subnet) (t1 : Table) : Prop := net_of row = m /\ forall r, leaf t1 r <-> (leaf t r /\ sn_id r ∉ ids) \/ r = row.

Lemma replaced_nets row t1 n : replaced row t1 -> leaf_net t1 n <-> (leaf_net t n /\ n ∉ map net_of sources) \/ n = m.
Proof.
  intros [Hrow Hl]. unfold leaf_net. setoid_rewrite Hl. split.
  - intros (r & [[Hr Hid]| ->] & <-); [left|by right]. split; [by exists r|]. intros (s & Hs & He)%source_net.
    destruct (Hleaf s Hs) as [Hsl _]. assert (s = r) as ->.
    { destruct (decide (s = r)) as [|Hne]; [done|]. exfalso. pose proof (leaves_apart t Ht s r Hsl Hr Hne) as Ha. rewrite He in Ha.
      apply (within_not_apart (net_of r) (net_of r)); [|done|done]. apply row_wf, (ok_rows t Ht), Hr. }
    by apply Hid, source_elem.
  - intros [[(r & Hr & <-) Hn]| ->]; [|exists row; by split; [right|]]. exists r. split; [|done]. left. split; [done|]. intros Hid.
    apply Hn. by apply source_elem, source_id; [apply Hr|].
Qed.

Lemma replaced_managed row t1 f v : replaced row t1 -> managed t1 f v <-> managed t f v.
Proof.
  intros Hr. unfold managed. setoid_rewrite (fun n => replaced_nets row t1 n Hr). split.
  - intros (n & [[Hl _]| ->] & Hcov); [by exists n|]. destruct (partition_cover _ _ Hp f v Hcov) as (k & Hk & Hkv & _). exists k. split; [|done].
    apply source_net in Hk as (s & Hs & <-). exists s. split; [apply (Hleaf s Hs)|done].
  - intros (n & Hl & Hcov). destruct (decide (n ∈ map net_of sources)) as [Hn|Hn]; [|exists n; split; [by left|done]].
    exists m. split; [by right|]. by eapply within_covers; [by apply (partition_within _ _ Hp)|].
Qed.

(** The sources cover the parent: it takes their place. *)
Lemma restored : m = net_of q -> replaced q (delete_ids ids t).
Proof.
  intros He. split; [done|]. destruct some_source as (s0 & Hs0). intros r. unfold leaf. rewrite elem_of_delete_ids, !children_none. split.
  - intros [[Hr Hid] Hn]. destruct (decide (r = q)) as [->|Hne]; [by right|left]. split; [split; [done|]|done]. intros k Hk Hkp.
    apply (Hn k); [|done]. apply elem_of_delete_ids. split; [done|]. intros Hin. apply source_id in Hin; [|done].
    destruct (Hleaf k Hin) as [_ Hkq]. apply Hne. apply (same_id t Ht); [done|done|congruence].
  - intros [[[Hr Hn] Hid]| ->].
    + split; [done|]. intros k [Hk _]%elem_of_delete_ids. by apply Hn.
    + split; [by apply elem_of_delete_ids, parent_stays|]. intros k [Hk Hid]%elem_of_delete_ids Hkp. apply Hid.
      apply source_elem, met_source; [done|done|]. rewrite He. destruct (child_inside t Ht k q Hk Hq Hkp) as [Hi _].
      apply within_not_apart; [apply row_wf, (ok_rows t Ht k Hk)|by apply inside_within].
Qed.

(** The sources cover a part of the parent: a row for it takes their place. *)
Section Inserted.
Context (ns : NewSubnet) (Hc : parseNetwork (ns_cidr ns) = Ok m) (Hcm : cidr m = ns_cidr ns) (Hne : m <> net_of q).
Context (Hpar : ns_parent ns = Some (sn_id q)) (Hdepth : ns_depth ns = Some (sn_depth q + 1)).

Abbreviation row := (new_row m (next_id t) ns).
Abbreviation t1 := (mkTable (rows (delete_ids ids t) ++ [row]) (next_id t + 1)).

Lemma merged_inside : inside m (net_of q).
Proof.
  pose proof merged_within as Hw. pose proof (row_wf _ (ok_rows t Ht q Hq)) as Hqw. split; [done|].
  pose proof (within_prefix _ _ Hm Hqw Hw). destruct (decide (prefix m = prefix (net_of q))) as [He|]; [|lia]. exfalso. apply Hne.
  destruct Hw as (Hf & Hlo & Hhi). pose proof (wf_last _ Hm). pose proof (wf_last _ Hqw). pose proof (within_bits _ _ Hm Hqw Hf) as Hb.
  apply wf_same; [done..| |done]. rewrite He, Hb in *. lia.
Qed.

Lemma row_parent : or_null_z (ns_parent ns) = Some (sn_id q).
Proof. pose proof (ok_next t Ht q Hq). rewrite Hpar. destruct (sn_id q); [lia|done|done]. Qed.

Lemma row_net : net_of row = m.
Proof. unfold net_of. cbn [new_row sn_cidr]. by rewrite Hc. Qed.

Lemma merged_insert : insertSubnet t ns = Ok (mkTable (rows t ++ [row]) (next_id t + 1), next_id t).
Proof.
  unfold insertSubnet. rewrite Hc. cbn [lift_cidr mbind result_bind]. destruct (existsb _ (rows t)) eqn:E.
  - exfalso. apply existsb_exists in E as (r & Hr & He%String.eqb_eq). apply list_elem_of_In in Hr.
    assert (net_of r = m) as Hrm by (unfold net_of; by rewrite He, Hc).
    destruct (decide (r = q)) as [->|Hrq]; [by apply Hne|]. by apply (merged_fresh r Hr Hrq).
  - cbv zeta. by rewrite row_parent, (find_subnet_elem t Ht q Hq).
Qed.

Lemma fresh_id : next_id t ∉ ids.
Proof. intros (s & He & Hs)%list_elem_of_In%in_map_iff. apply list_elem_of_In, source_elem in Hs as [Hs _]. pose proof (ok_next t Ht s Hs). lia. Qed.

Lemma merged_rows : delete_rows ids (mkTable (rows t ++ [row]) (next_id t + 1)) = t1.
Proof.
  rewrite delete_rows_leaves.
  - unfold delete_ids. cbn [rows next_id]. rewrite List.filter_app. f_equal. f_equal. cbn [List.filter new_row sn_id].
    destruct (existsb _ ids) eqn:E; [|done]. apply existsb_exists in E as (i & Hi & He%Z.eqb_eq). destruct fresh_id. rewrite He. by apply list_elem_of_In.
  - intros r i [Hr|Hr%list_elem_of_singleton]%elem_of_app (s & <- & Hs)%list_elem_of_In%in_map_iff; apply list_elem_of_In in Hs.
    + destruct (Hleaf s Hs) as [[_ Hn] _]. rewrite children_none in Hn. by apply Hn.
    + subst r. cbn [new_row sn_parent]. rewrite row_parent. intros [= He]. destruct (Hleaf s Hs) as [[Hsr _] Hsp].
      assert (s = q) as -> by (by apply (same_id t Ht)). destruct (child_inside t Ht q q Hq Hq Hsp). lia.
Qed.

Lemma merged_ok : tree_ok t1.
Proof.
  pose proof deleted_ok as Hd. pose proof merged_inside as Hi. apply (add_ok (delete_ids ids t) row); [done| |done| |].
  - split; rewrite ?row_net; cbn [new_row sn_cidr sn_net sn_depth]; try done.
    + apply (within_mapped_free m (net_of q)); [done|by apply inside_within|apply (ok_rows t Ht q Hq)].
    + rewrite Hdepth. cbn. pose proof (row_depth _ (ok_rows t Ht q Hq)). lia.
  - intros p. cbn [new_row sn_parent]. rewrite row_parent. intros [= <-]. exists q. split; [apply parent_stays|]. split; [done|].
    rewrite row_net. split; [done|]. cbn [new_row sn_depth]. rewrite Hdepth. cbn. lia.
  - intros r [Hr Hid]%elem_of_delete_ids. cbn [new_row sn_parent]. rewrite row_parent, row_net. intros Hrp.
    destruct (decide (family (net_of r) = family m /\ networkBig (net_of r) <= lastBig m /\ networkBig m <= lastBig (net_of r))) as [Ho|Ho]; [|done].
    exfalso. apply Hid. apply source_elem, met_source; [done|done|]. intros Ha. by apply Ha.
Qed.

Lemma merged_leaves : replaced row t1.
Proof.
  split; [apply row_net|]. destruct some_source as (s0 & Hs0). destruct (Hleaf s0 Hs0) as [[Hs0r _] Hs0p]. pose proof fresh_id as Hfresh.
  assert (forall r, r ∈ rows t1 <-> (r ∈ rows t /\ sn_id r ∉ ids) \/ r = row) as Hin.
  { intros r. cbn [rows]. by rewrite elem_of_app, elem_of_delete_ids, list_elem_of_singleton. }
  intros r. unfold leaf. rewrite Hin, !children_none. split.
  - intros [[[Hr Hid]| ->] Hn]; [left|by right]. split; [split; [done|]|done]. intros k Hk Hkp.
    destruct (decide (sn_id k ∈ ids)) as [Hkid|Hkid].
    + apply source_id in Hkid; [|done]. destruct (Hleaf k Hkid) as [_ Hkq]. apply (Hn row); [apply Hin; by right|].
      cbn [new_row sn_parent]. rewrite row_parent. congruence.
    + apply (Hn k); [apply Hin; by left|done].
  - intros [[[Hr Hn] Hid]| ->].
    + split; [by left|]. intros k [[Hk _]| ->]%Hin; [by apply Hn|]. cbn [new_row sn_parent]. rewrite row_parent. intros [= He].
      apply (Hn s0 Hs0r). by rewrite Hs0p, He.
    + split; [by right|]. cbn [new_row sn_id]. intros k [[Hk _]| ->]%Hin Hkp.
      * destruct (ok_parent t Ht k _ Hk Hkp) as (x & Hx & He & _). pose proof (ok_next t Ht x Hx). lia.
      * cbn [new_row sn_parent] in Hkp. rewrite row_parent in Hkp. injection Hkp as He. pose proof (ok_next t Ht q Hq). lia.
Qed.
End Inserted.
End Merging.

(** [merged_into t sources m t']: the leaves [sources] gave way to [m]. *)
Record merged_into (t : Table) (sources : list Subnet) (m : Network) (t' : Table) : Prop := {
  mg_leaves : forall s, s ∈ sources -> leaf t s;
  mg_partition : partition m (map net_of sources);
  mg_ok : tree_ok t';
  mg_nets : forall n, leaf_net t' n <-> (leaf_net t n /\ n ∉ map net_of sources) \/ n = m;
  mg_managed : forall f v, managed t' f v <-> managed t f v }.

Lemma merged_update t sources m t' p f :
  merged_into t sources m t' -> (forall r, frame (f r) = frame r) -> merged_into t sources m (update_where p f t').
Proof.
  intros [H1 H2 H3 H4 H5] Hf. assert (forall n, leaf_net (update_where p f t') n <-> leaf_net t' n) as Hn by (intros n; by apply update_nets).
  split; [done|done|by apply update_ok| |].
  - intros n. by rewrite Hn.
  - intros g v. rewrite <- H5. by apply managed_ext.
Qed.

Lemma merged_nets_parse t sources nets :
  tree_ok t -> (forall s, s ∈ sources -> s ∈ rows t) -> map_result parseNetwork (map sn_cidr sources) = Ok nets -> nets = map net_of sources.
Proof.
  intros Ht Hs Hm. rewrite (map_result_ok _ (fun c => match parseNetwork c with Ok n => n | Err _ => buildNetwork 0 32 4 0 end)) in Hm.
  - injection Hm as <-. by rewrite map_map.
  - apply Forall_forall. intros c (s & <- & Hin)%list_elem_of_In%in_map_iff. apply list_elem_of_In, Hs in Hin.
    pose proof (row_parse _ (ok_rows t Ht s Hin)) as Hc. by rewrite Hc.
Qed.

(** The row a merge leaves for the network [m]. *)
Definition merged_row (q : Subnet) (sources : list Subnet) (m : Network) (t' : Table) (row : Subnet) : Prop :=
  row ∈ rows t' /\ net_of row = m /\ sn_policy row = merged_policy q sources /\
  or_null (sn_gateway row) = or_null (merged_gateway m q sources) /\
  sn_status row = (if config_source sources then allocated else unallocated).

Lemma or_null_twice s : or_null (or_null s) = or_null s.
Proof. by destruct s as [[|]|]. Qed.

Lemma elem_of_update p f t r : r ∈ rows t -> p r = true -> f r ∈ rows (update_where p f t).
Proof.
  intros Hr Hp. rewrite update_rows. apply list_elem_of_In, in_map_iff. exists r. rewrite Hp. split; [done|]. by apply list_elem_of_In.
Qed.

(** Merging leaves under one parent: the sources are replaced, and nothing
    fails. *)
Lemma mergeSubnets_ok cfg t q sources c :
  tree_ok t -> q ∈ rows t -> (forall s, s ∈ sources -> leaf t s /\ sn_parent s = Some (sn_id q)) ->
  mergeNetworks (map sn_cidr sources) = Ok (Merged c) ->
  exists m t', parseNetwork c = Ok m /\ mergeSubnets cfg t sources c = Ok t' /\ merged_into t sources m t' /\ exists row, merged_row q sources m t' row.
Proof.
  intros Ht Hq Hleaf Hmerge. destruct (merge_partitions _ _ Hmerge) as (m & nets & Hc & Hcm & Hnets & Hp).
  rewrite (merged_nets_parse t sources nets Ht ltac:(intros s Hs; apply (Hleaf s Hs)) Hnets) in Hp. pose proof (parseNetwork_wf _ _ Hc) as Hm.
  assert (forall s, s ∈ sources -> leaf t s) as Hl by (intros s Hs; apply (Hleaf s Hs)).
  assert (forall row t1, tree_ok t1 -> replaced t sources m row t1 -> merged_into t sources m t1) as Hdone.
  { intros row t1 Ht1 Hr. split; [done|done|done| |].
    - intros n. by eapply replaced_nets.
    - intros f v. by eapply replaced_managed. }
  exists m. unfold mergeSubnets.
  destruct (head_elem sources) as [s Hs]; [pose proof (part_many _ _ Hp) as Hn; rewrite length_map in Hn; lia|].
  destruct sources as [|s0 l] eqn:E; [by apply elem_of_nil in Hs|]. rewrite <- E in *. clear Hs.
  assert (s0 ∈ sources) as Hs0 by (rewrite E; by left). destruct (Hleaf s0 Hs0) as [_ Hs0p].
  rewrite E. rewrite Hs0p, (find_subnet_elem t Ht q Hq), <- E. cbn [mbind result_bind]. rewrite Hc. cbn [lift_cidr_tree mbind result_bind]. cbv zeta.
  destruct (String.eqb c (sn_cidr q)) eqn:Eq.
  - apply String.eqb_eq in Eq. eexists. split; [done|]. split; [reflexivity|].
    assert (m = net_of q) as Hmq by (pose proof (row_parse _ (ok_rows t Ht q Hq)); congruence).
    rewrite delete_rows_leaves.
    + split; [apply merged_update; [|by intros r; destruct (config_source sources)]; apply (Hdone q); [by eapply deleted_ok|by eapply restored]|].
      eexists. split; [apply elem_of_update; [by eapply parent_stays|apply Z.eqb_refl]|]. destruct (config_source sources); by rewrite Hmq.
    + intros r i Hr (x & <- & Hx)%list_elem_of_In%in_map_iff. apply list_elem_of_In, Hl in Hx as [_ Hn]. rewrite children_none in Hn. by apply Hn.
  - apply String.eqb_neq in Eq.
    assert (m <> net_of q) as Hmq by (intros ->; apply Eq; rewrite <- Hcm; apply (row_cidr _ (ok_rows t Ht q Hq))).
    destruct (name_total (subnet_name_template cfg) c m Hc) as [name Hname].
    assert (exists nm, match config_source sources with Some c0 => Ok (sn_name c0) | None => lift_cidr_tree (networkNameFromTemplate (subnet_name_template cfg) c) end = Ok nm)
      as [nm Hnm] by (destruct (config_source sources); [by eexists|rewrite Hname; by eexists]).
    rewrite Hnm. cbn [mbind result_bind]. set (ns := mkNewSubnet _ _ _ _ _ _ _ _ _ _ _ _ _).
    rewrite (merged_insert t Ht q Hq sources m Hleaf Hm Hp ns) by done. cbn [lift_table mbind result_bind fst snd mret result_ret].
    rewrite (merged_rows t Ht q Hq sources m Hleaf ns) by done. eexists. split; [done|]. split; [reflexivity|].
    set (row := new_row m (next_id t) ns). set (t1 := mkTable (rows (delete_ids (map sn_id sources) t) ++ [row]) (next_id t + 1)).
    assert (merged_into t sources m t1) as Hmi by (apply (Hdone row); [by eapply merged_ok|by eapply merged_leaves]).
    assert (net_of row = m) as Hnet by (unfold net_of; cbn [row new_row sn_cidr]; change (ns_cidr ns) with c; by rewrite Hc).
    assert (merged_row q sources m t1 row) as Hrow.
    { split; [cbn [t1 rows]; apply elem_of_app; right; by apply list_elem_of_singleton|]. split; [done|]. split; [done|].
      split; [apply or_null_twice|]. cbn. by destruct (config_source sources). }
    destruct (config_source sources) as [s1|] eqn:Esrc; [|by split; [|exists row]]. destruct (sn_reverse s1 =? 0); [by split; [|exists row]|].
    split; [by apply merged_update|]. exists (set_reverse row). destruct Hrow as (H1 & H2 & H3 & H4 & H5).
    split; [apply elem_of_update; [done|apply Z.eqb_refl]|]. by split_and!.
Qed.

Lemma merge_cases sha256_state sha256_plan after_now cfg db t b :
  tree_ok t ->
  or_refused (fun t' => exists sources m q row, omap (find_subnet t) (mb_ids b) = sources /\ merged_into t sources m t' /\
      (forall s, s ∈ sources -> sn_parent s = Some (sn_id q)) /\ gateway_conflict sources = false /\ merged_row q sources m t' row)
    (mergeRoute sha256_state sha256_plan after_now cfg db t b).
Proof.
  intros Ht. unfold mergeRoute. apply or_refused_if. intros _. set (sources := omap (find_subnet t) (mb_ids b)).
  apply or_refused_if. intros _. apply or_refused_if. intros _. cbv zeta. set (parentId := match sources with s :: _ => _ | [] => None end).
  apply or_refused_if. intros Hsib. apply or_refused_if. intros Hkids. apply or_refused_lift. intros res Hmerge.
  apply or_refused_bind; [destruct res; [done|]; intros e [= <-]; apply not_raised_refused|]. intros c Hc.
  destruct res as [c'|]; [|done]. injection Hc as ->. apply or_refused_bind; [destruct (buildMergePlan _ _ _ _ _ _); [done|]; by intros e1 [= <-] te [=]|].
  intros plan _. apply or_refused_bind; [eauto|]. intros old _. apply or_refused_if. intros _. apply or_refused_if. intros Hgw. do 2 (apply or_refused_if; intros _).
  apply orb_false_iff in Hsib as [Hpid Hsib]. apply bool_decide_eq_false in Hpid. apply negb_false_iff in Hsib. rewrite forallb_forall in Hsib.
  destruct parentId as [pid|] eqn:Epid; [|done].
  assert (forall s, s ∈ sources -> s ∈ rows t) as Hrows.
  { intros s (i & _ & Hf)%list_elem_of_omap. by apply find_subnet_inv in Hf as [? _]. }
  assert (forall s, s ∈ sources -> leaf t s /\ sn_parent s = Some pid) as Hleaf.
  { intros s Hs. split; [split; [by apply Hrows|]|apply list_elem_of_In in Hs; specialize (Hsib s Hs); by apply bool_decide_eq_true in Hsib].
    destruct (children t (sn_id s)) as [|k l] eqn:E; [done|]. exfalso.
    assert (existsb (fun s => (0 <? length (children t (sn_id s)))%nat) sources = true) as Hx; [|congruence].
    apply existsb_exists. exists s. split; [by apply list_elem_of_In|]. by rewrite E. }
  destruct (head_elem sources) as [s Hs]; [subst parentId; destruct sources; [done|simpl; lia]|].
  destruct (ok_parent t Ht s pid (Hrows s Hs) (proj2 (Hleaf s Hs))) as (q & Hq & <- & _).
  destruct (mergeSubnets_ok cfg t q sources c Ht Hq Hleaf Hmerge) as (m & t' & _ & -> & Hmi & row & Hrow).
  exists sources, m, q, row. split; [done|]. split; [done|]. split; [|done]. intros x Hx. by apply Hleaf.
Qed.

(** ** Lemmas: the other routes *)

Lemma root_above t r :
  tree_ok t -> r ∈ rows t -> exists x, x ∈ rows t /\ sn_parent x = None /\ within (net_of r) (net_of x).
Proof.
  intros Ht. remember (Z.to_nat (sn_depth r)) as k eqn:Hk. revert r Hk. induction k as [k IH] using lt_wf_ind. intros r -> Hr.
  pose proof (row_depth _ (ok_rows t Ht r Hr)). destruct (sn_parent r) as [p|] eqn:Hp; [|by exists r].
  destruct (ok_parent t Ht r p Hr Hp) as (q & Hq & _ & Hi & Hd). pose proof (row_depth _ (ok_rows t Ht q Hq)).
  destruct (IH (Z.to_nat (sn_depth q)) ltac:(lia) q eq_refl Hq) as (x & Hx & Hxp & Hw). exists x. split; [done|]. split; [done|].
  transitivity (net_of q); [by apply inside_within|done].
Qed.

(** A row of its own, apart from every other, is one more leaf. *)
Lemma added_root t row :
  tree_ok t -> row_ok row -> sn_id row = next_id t -> sn_parent row = None -> (forall r, r ∈ rows t -> apart (net_of r) (net_of row)) ->
  let t' := mkTable (rows t ++ [row]) (next_id t + 1) in
  tree_ok t' /\ forall k, leaf_net t' k <-> leaf_net t k \/ k = net_of row.
Proof.
  intros Ht Hrow Hid Hp Hap t'. split; [apply add_ok; [done|done|done|congruence|by intros r Hr _; apply Hap]|].
  assert (forall r, r ∈ rows t' <-> r ∈ rows t \/ r = row) as Hin by (intros r; unfold t'; cbn [rows]; by rewrite elem_of_app, list_elem_of_singleton).
  assert (forall r, leaf t' r <-> leaf t r \/ r = row) as Hl.
  { intros r. unfold leaf. rewrite Hin, !children_none. split.
    - intros [[Hr| ->] Hn]; [left|by right]. split; [done|]. intros k Hk. apply Hn, Hin. by left.
    - intros [[Hr Hn]| ->].
      + split; [by left|]. intros k [Hk| ->]%Hin; [by apply Hn|]. by rewrite Hp.
      + split; [by right|]. rewrite Hid. intros k [Hk| ->]%Hin; [|by rewrite Hp]. intros Hkp.
        destruct (ok_parent t Ht k _ Hk Hkp) as (x & Hx & He & _). pose proof (ok_next t Ht x Hx). lia. }
  intros k. unfold leaf_net. setoid_rewrite Hl. split.
  - intros (r & [Hr| ->] & <-); [left; by exists r|by right].
  - intros [(r & Hr & <-)| ->]; [exists r; by split; [left|]|exists row; by split; [right|]].
Qed.

(** A network that was created: apart from every row, and one more leaf. *)
Definition created (t t' : Table) (n : Network) : Prop :=
  wf_network n /\ mapped_free n /\ (forall r, r ∈ rows t -> apart (net_of r) n) /\ (forall k, leaf_net t' k <-> leaf_net t k \/ k = n).

Lemma create_cases cfg folder_exists t b :
  tree_ok t ->
  match createSubnet cfg folder_exists t b with
  | Ok (t', id) => tree_ok t' /\ id = next_id t /\ exists n, normalizeNetwork (cb_cidr b) = Ok (cidr n) /\ created t t' n
  | Err e => not_raised e
  end.
Proof.
  intros Ht. unfold createSubnet. destruct (parseNetwork (cb_cidr b)) as [n|] eqn:Hc; [|apply not_raised_refused]. cbn [mbind result_bind].
  unfold refuse_if. destruct (ipv6_refused cfg (family n)); [apply not_raised_refused|]. cbn [mbind result_bind].
  pose proof (parseNetwork_wf _ _ Hc) as Hn. pose proof (wf_reparse _ Hn) as Hcn.
  assert (normalizeNetwork (cb_cidr b) = Ok (cidr n)) as Hnorm by (unfold normalizeNetwork; by rewrite Hc). rewrite Hnorm. cbn [lift_cidr_tree mbind result_bind].
  destruct (existsb _ (rows t)) eqn:Hex; [apply not_raised_refused|]. cbn [mbind result_bind].
  destruct (validateNetworkBounds (cidr n)) as [v|] eqn:Hv; [|by intros te [= <-]; eexists]. cbn [lift_cidr_tree mbind result_bind].
  destruct v; [|apply not_raised_refused]. destruct (validated_network _ _ Hv Hcn) as [Hm _]. cbn [mbind result_bind].
  destruct (find_result _ _) as [overlap|] eqn:Hov; [|by intros te [= <-]; eexists]. cbn [lift_cidr_tree mbind result_bind].
  destruct overlap; [apply not_raised_refused|]. cbn [mbind result_bind].
  assert (exists name, match or_null (cb_name b) with Some name => Ok name | None => lift_cidr_tree (networkNameFromTemplate (subnet_name_template cfg) (cidr n)) end = Ok name)
    as [name ->] by (destruct (or_null _); [by eexists|]; destruct (name_total (subnet_name_template cfg) _ _ Hcn) as [nm ->]; by eexists).
  cbn [mbind result_bind]. destruct (negb folder_exists); [apply not_raised_refused|]. cbn [mbind result_bind].
  set (ns := mkNewSubnet _ _ _ _ _ _ _ _ _ _ _ _ _). unfold insertSubnet. change (ns_cidr ns) with (cidr n). rewrite Hcn, Hex. cbn [lift_cidr lift_table mbind result_bind].
  change (or_null_z (ns_parent ns)) with (@None Z). cbv iota. set (row := new_row n (next_id t) ns).
  assert (net_of row = n) as Hnet by (unfold net_of; cbn [row new_row sn_cidr]; change (ns_cidr ns) with (cidr n); by rewrite Hcn).
  assert (forall r, r ∈ rows t -> apart (net_of r) n) as Hap.
  { intros r Hr. destruct (root_above t r Ht Hr) as (x & Hx & Hxp & Hw). pose proof (row_wf _ (ok_rows t Ht x Hx)) as Hxw.
    apply (apart_within (net_of x) n (net_of r) n); [apply row_wf, (ok_rows t Ht r Hr)|done| |done|reflexivity].
    intros Ho. assert (networksOverlap (cidr n) (sn_cidr x) = Ok false) as Hno.
    { apply (find_result_none _ _ x Hov). apply list_elem_of_In, List.filter_In. split; [by apply list_elem_of_In|]. by apply bool_decide_eq_true. }
    destruct (networksOverlap_spec _ _ _ _ Hcn (row_parse _ (ok_rows t Ht x Hx))) as (v & Hr' & Hiff). rewrite Hno in Hr'. injection Hr' as <-.
    destruct Ho as (? & ? & ?). assert (false = true) as [=]. apply Hiff. by split_and!. }
  destruct (added_root t row Ht) as [Hok Hl]; [|done|done|by rewrite Hnet|].
  { split; rewrite ?Hnet; try done. }
  split; [done|]. split; [done|]. exists n. split; [done|]. split; [done|]. split; [done|]. split; [done|]. by rewrite <- Hnet.
Qed.

Lemma deleteSubnet_ok t s : tree_ok t -> tree_ok (fst (deleteSubnet t s)).
Proof.
  intros Ht. unfold deleteSubnet. destruct (bool_decide (sn_status s = allocated)).
  - apply update_ok; [|done]. destruct (_ <? _)%nat; [by apply deleteDescendants_ok|done].
  - destruct (bool_decide _); [by apply deleteSubnetRow_ok|]. destruct (negb _); [by apply deleteSubnetRow_ok|by apply deleteDescendants_ok].
Qed.

Lemma deleteRoute_ok reserved t id t' : tree_ok t -> deleteRoute reserved t id = Ok t' -> tree_ok t'.
Proof.
  intros Ht. unfold deleteRoute. destruct (find_subnet t id) as [s|]; [|done]. cbn [mbind result_bind]. unfold refuse_if.
  destruct (_ && _); [done|]. intros [= <-]. by apply deleteSubnet_ok.
Qed.

Lemma updateSubnetDetails_ok s f t t' : tree_ok t -> updateSubnetDetails s f t = Ok t' -> tree_ok t'.
Proof.
  intros Ht. unfold updateSubnetDetails. destruct (uf_policy f) as [p|]; [|destruct (parseNetwork (sn_cidr s)); [|done]];
    cbn [lift_cidr_tree mbind result_bind]; intros [= <-]; by apply update_ok.
Qed.

Lemma fold_result_keeps {E A B} (P : B -> Prop) (f : B -> A -> result E B) l acc out :
  (forall b a b', P b -> f b a = Ok b' -> P b') -> P acc -> fold_result f l acc = Ok out -> P out.
Proof.
  intros Hf. revert acc. induction l as [|a l IH]; intros acc Hp; cbn [fold_result]; [by intros [= <-]|].
  destruct (f acc a) as [b|] eqn:Ha; [|done]. apply IH. by eapply Hf.
Qed.

Lemma apply_name_ok template t id t' : tree_ok t -> apply_name template t id = Ok t' -> tree_ok t'.
Proof.
  intros Ht. unfold apply_name. destruct (find_subnet t id) as [s|]; [|by intros [= <-]]. destruct (networkNameFromTemplate _ _); [|done].
  cbn [mbind result_bind]. destruct (String.eqb _ _); intros [= <-]; [done|by apply update_ok].
Qed.

Lemma backfill_row_ok t r t' : tree_ok t -> backfill_row t r = Ok t' -> tree_ok t'.
Proof.
  intros Ht. unfold backfill_row. destruct (parseNetwork _); [|done]. cbn [mbind result_bind]. destruct (bool_decide _); intros [= <-]; [done|by apply update_ok].
Qed.

(** On rows that come from their CIDR the repair writes the gateway alone. *)
Lemma repair_row_ok t s t' : tree_ok t -> (exists r, r ∈ rows t /\ sn_id r = sn_id s /\ sn_cidr r = sn_cidr s) -> repair_row t s = Ok t' ->
  tree_ok t' /\ forall r, r ∈ rows t -> exists r', r' ∈ rows t' /\ frame r' = frame r.
Proof.
  intros Ht (r0 & Hr0 & Hid & Hcidr). unfold repair_row. destruct (parseNetwork (sn_cidr s)) as [n|] eqn:Hc; [|done]. cbn [mbind result_bind].
  set (gw := repaired_gateway n s). intros [= <-].
  set (f := fun r => set_derived (sn_net r) gw r).
  assert (update_row (sn_id s) (set_derived (netColumns n) gw) t = update_row (sn_id s) f t) as ->.
  { unfold update_row, update_where. f_equal. apply map_ext_in. intros r Hr. apply list_elem_of_In in Hr. destruct (Z.eqb_spec (sn_id r) (sn_id s)) as [He|]; [|done].
    assert (r = r0) as -> by (apply (same_id t Ht); [done|done|congruence]). unfold f. f_equal. rewrite (row_columns _ (ok_rows t Ht r0 Hr0)).
    f_equal. pose proof (row_parse _ (ok_rows t Ht r0 Hr0)). congruence. }
  split; [by apply update_ok|]. intros r Hr. exists (if sn_id r =? sn_id s then f r else r). split; [|by destruct (_ =? _)].
  unfold update_row. rewrite update_rows. apply list_elem_of_In. apply (in_map (fun r => if sn_id r =? sn_id s then f r else r)). by apply list_elem_of_In.
Qed.

Lemma repair_ok l t t' :
  tree_ok t -> (forall s, s ∈ l -> exists r, r ∈ rows t /\ sn_id r = sn_id s /\ sn_cidr r = sn_cidr s) -> fold_result repair_row l t = Ok t' -> tree_ok t'.
Proof.
  revert t. induction l as [|s l IH]; intros t Ht Hl; cbn [fold_result]; [by intros [= <-]|].
  destruct (repair_row t s) as [t1|] eqn:Hs; [|done]. destruct (repair_row_ok t s t1 Ht (Hl s ltac:(by left)) Hs) as [Ht1 Hkeep].
  apply IH; [done|]. intros x Hx. destruct (Hl x ltac:(by right)) as (r & Hr & Hid & Hcidr). destruct (Hkeep r Hr) as (r' & Hr' & Hf).
  unfold frame in Hf. injection Hf as ? ? _ _ _. exists r'. split; [done|]. split; congruence.
Qed.

Lemma repairNetworks_ok t t' : tree_ok t -> repairNetworks t = Ok t' -> tree_ok t'.
Proof.
  intros Ht. apply repair_ok; [done|]. intros s Hs. apply list_elem_of_In, List.filter_In in Hs as [Hs _]. exists s. split; [by apply list_elem_of_In|done].
Qed.

(** ** The operations as steps *)

(** Every statement of the server that writes the table. *)
Inductive tree_step : Table -> Table -> Prop :=
| step_create cfg folder_exists b t t' id : createSubnet cfg folder_exists t b = Ok (t', id) -> tree_step t t'
| step_divide sha256_state sha256_plan after_now cfg db id b t t' :
    divideSubnet sha256_state sha256_plan after_now cfg db t id b = Ok t' -> tree_step t t'
| step_merge sha256_state sha256_plan after_now cfg db b t t' :
    mergeRoute sha256_state sha256_plan after_now cfg db t b = Ok t' -> tree_step t t'
| step_delete reserved id t t' : deleteRoute reserved t id = Ok t' -> tree_step t t'
| step_configure s parsed f t : tree_step t (configureSubnet s parsed f t)
| step_update s f t t' : updateSubnetDetails s f t = Ok t' -> tree_step t t'
| step_vlan id vlan t : tree_step t (assignVlan id vlan t)
| step_vlans old new t : tree_step t (replaceVlanAssignments old new t)
| step_vlan_deleted vlan t : tree_step t (clearVlanAssignments vlan t)
| step_folder_deleted folder t : tree_step t (clearFolderAssignments folder t)
| step_zone zone domain t : tree_step t (setZoneDomain zone domain t)
| step_names template ids t t' : applyNameTemplateToSubnets template ids t = Ok t' -> tree_step t t'
| step_backfill t t' : backfillGatewayPolicies t = Ok t' -> tree_step t t'
| step_repair t t' : repairNetworks t = Ok t' -> tree_step t t'.

Definition empty_table : Table := mkTable [] 1.

Definition reachable (t : Table) : Prop := rtc tree_step empty_table t.

Lemma empty_ok : tree_ok empty_table.
Proof. split; cbn; try (intros r; by intros ?%elem_of_nil); [apply NoDup_nil_2|intros r p Hr|intros r r' Hr|]; try (by apply elem_of_nil in Hr). done. Qed.

Lemma step_ok t t' : tree_ok t -> tree_step t t' -> tree_ok t'.
Proof.
  intros Ht Hs. inversion Hs as [cfg fe b ? ? id Hr|? ? ? cfg db id b ? ? Hr|? ? ? cfg db b ? ? Hr|? ? ? ? Hr|? ? f|? ? ? ? Hr| | | | | |? ? ? ? Hr|? ? Hr|? ? Hr]; subst.
  - pose proof (create_cases cfg fe t b Ht) as Hc. rewrite Hr in Hc. by destruct Hc.
  - pose proof (divide_cases sha256_state sha256_plan after_now cfg db t id b Ht) as Hc. rewrite Hr in Hc. destruct Hc as (? & ? & _ & Hd & _). apply Hd.
  - pose proof (merge_cases sha256_state sha256_plan after_now cfg db t b Ht) as Hc. rewrite Hr in Hc. destruct Hc as (? & ? & ? & ? & _ & Hd & _). apply Hd.
  - by eapply deleteRoute_ok.
  - by apply update_ok.
  - by eapply updateSubnetDetails_ok.
  - by apply update_ok.
  - by apply update_ok.
  - by apply update_ok.
  - by apply update_ok.
  - by apply update_ok.
  - eapply (fold_result_keeps tree_ok); [|exact Ht|exact Hr]. intros ? ? ? ? ?. by eapply apply_name_ok.
  - eapply (fold_result_keeps tree_ok); [|exact Ht|exact Hr]. intros ? ? ? ? ?. by eapply backfill_row_ok.
  - by eapply repairNetworks_ok.
Qed.

Lemma reachable_ok t : reachable t -> tree_ok t.
Proof. unfold reachable. intros H. pose proof empty_ok as H0. induction H as [x|x y z Hxy _ IH]; [done|]. by eapply IH, step_ok. Qed.

(** ** The gateway a merge keeps *)

Lemma planned_gateway m q sources :
  gateway_conflict sources = false -> List.filter is_allocated sources <> [] ->
  gw_policy (mergeGateway m sources) = Some (merged_policy q sources) /\
  or_null (gw_address (mergeGateway m sources)) = or_null (merged_gateway m q sources).
Proof.
  intros Hc Ha. unfold mergeGateway. rewrite Hc. cbn [gw_policy gw_address]. unfold gateway_policies, custom_gateways, merged_gateway, merged_policy.
  rewrite !js_uniq_head. destruct (List.filter is_allocated sources) as [|a l]; [done|]. cbn [map head default]. split; [done|].
  cbn [List.filter]. destruct (decide (sn_policy a = policy_custom)) as [He|He].
  - rewrite !bool_decide_eq_true_2 by done. rewrite He. cbn [map head default resolveGatewayAddress]. by destruct (sn_gateway a) as [[|]|].
  - rewrite (bool_decide_eq_false_2 _ He). by destruct (sn_policy a).
Qed.

(** ** Lemmas: rows and addresses *)

Lemma covers_not_apart n n' f v : covers n f v -> covers n' f v -> ~ apart n n'.
Proof. intros Hn Hn' Ha. by apply (apart_covers n n' f v). Qed.

Lemma same_cidr t r r' : tree_ok t -> r ∈ rows t -> r' ∈ rows t -> sn_cidr r = sn_cidr r' -> r = r'.
Proof.
  intros Ht Hr Hr' He. assert (net_of r = net_of r') as Hn by (unfold net_of; by rewrite He).
  destruct (branch t Ht r r' Hr Hr') as [?|[Hb|Hb]]; [|done|exfalso..].
  - rewrite Hn. apply within_not_apart; [apply row_wf, (ok_rows t Ht r' Hr')|done].
  - destruct (below_inside t Ht _ _ Hb) as [[_ Hlt] _]. rewrite Hn in Hlt. lia.
  - destruct (below_inside t Ht _ _ Hb) as [[_ Hlt] _]. rewrite Hn in Hlt. lia.
Qed.

(** A network is determined by what partitions it. *)
Lemma partition_unique m m' nets nets' :
  wf_network m -> wf_network m' -> partition m nets -> partition m' nets' -> (forall n, n ∈ nets <-> n ∈ nets') -> m = m'.
Proof.
  intros Hm Hm' Hp Hp' Hn.
  assert (forall a b la lb, wf_network a -> wf_network b -> partition a la -> partition b lb -> (forall n, n ∈ la -> n ∈ lb) -> within a b) as Hw.
  { clear. intros a b la lb Ha Hb Hpa Hpb Hsub. pose proof (wf_order _ Ha).
    assert (forall v, networkBig a <= v <= lastBig a -> covers b (family a) v) as Hin.
    { intros v Hv. destruct (partition_cover _ _ Hpa (family a) v) as (n & Hn & Hnv & _); [by split|].
      eapply within_covers; [by eapply (partition_within b lb Hpb), Hsub|done]. }
    destruct (Hin (networkBig a) ltac:(lia)) as [? ?], (Hin (lastBig a) ltac:(lia)) as [? ?]. split_and!; [done|lia|lia]. }
  apply within_antisym; [done|done| |]; eapply Hw; try done; naive_solver.
Qed.

(** Merging what a division made gives back the leaves. *)
Lemma undo_division t parent nets t1 sources m t2 :
  tree_ok t -> divided t parent nets t1 -> merged_into t1 sources m t2 -> (forall n, n ∈ map net_of sources <-> n ∈ nets) -> wf_network m ->
  m = net_of parent /\ forall n, leaf_net t2 n <-> leaf_net t n.
Proof.
  intros Ht [Hl Hp Ht1 Hn1 _] [_ Hp' _ Hn2 _] Hs Hm. pose proof (row_wf _ (ok_rows t Ht parent (proj1 Hl))) as Hw.
  assert (m = net_of parent) as -> by (by eapply partition_unique). split; [done|].
  intros n. rewrite Hn2, Hn1, Hs. split.
  - intros [[[[? _]|?] ?]| ->]; [done|done|by exists parent].
  - intros Hln. destruct (decide (n = net_of parent)) as [->|Hne]; [by right|left]. split; [by left|]. intros Hin.
    destruct Hln as (r & Hr & <-). assert (r <> parent) as Hrp by (by intros ->).
    apply (within_not_apart (net_of r) (net_of parent)); [by apply (partition_elem _ _ Hp)|by apply (partition_within _ _ Hp)|].
    by apply (leaves_apart t Ht).
Qed.

(** The parts of a divided leaf are the leaves within it. *)
Lemma divided_parts t parent nets t1 n :
  tree_ok t -> divided t parent nets t1 -> (n ∈ nets <-> leaf_net t1 n /\ within n (net_of parent)).
Proof.
  intros Ht [Hl Hp Ht1 Hn1 _]. split.
  - intros Hn. split; [apply Hn1; by right|]. by apply (partition_within _ _ Hp).
  - intros [[[(r & Hr & <-) Hne]|Hn]%Hn1 Hw]; [|done]. exfalso. apply (within_not_apart (net_of r) (net_of parent)); [|done|].
    + apply row_wf, (ok_rows t Ht), Hr.
    + apply (leaves_apart t Ht); [done|done|by intros ->].
Qed.

(** More fuel than rows changes nothing. *)
Lemma consolidate_stable fuel t parentId :
  tree_ok t -> (length (rows t) < fuel)%nat -> consolidate fuel t parentId = consolidate (S (length (rows t))) t parentId.
Proof.
  remember (length (rows t)) as k eqn:Hk. revert fuel t parentId Hk. induction k as [k IH] using lt_wf_ind. intros fuel t parentId -> Ht Hf.
  destruct fuel as [|fuel]; [lia|]. cbn [consolidate]. destruct parentId as [pid|]; [|done]. cbv zeta.
  destruct (children t pid) as [|c l] eqn:Ekids; [done|]. rewrite <- Ekids. destruct (forallb _ _) eqn:Eall; cbn [negb]; [|done].
  destruct (find_subnet t pid) as [q|] eqn:Eq; [|done]. apply find_subnet_inv in Eq as [Hq <-].
  destruct (lift_pass t q Ht Hq Eall) as (H1 & _ & _ & H4 & _). rewrite Ekids in H4 at 2. cbn [Datatypes.length] in H4.
  set (t' := fold_left _ _ t) in *. rewrite (IH (length (rows t')) ltac:(lia) fuel t' (sn_parent q) eq_refl H1) by lia.
  symmetry. apply IH; [lia|done|done|lia].
Qed.

(** ** Properties *)

(** C1. Whatever sequence of requests made the table, it is a forest of
    networks: every row lies properly within its parent at a larger depth, the
    rows under one parent share no address, and the columns of every row come
    from its CIDR. So no CIDR is stored twice, no address is in two leaves,
    and of two rows that share an address one is below the other. *)
Theorem tree_invariant t :
  reachable t ->
  tree_ok t /\ NoDup (map sn_cidr (rows t)) /\
  (forall r r' f v, leaf t r -> leaf t r' -> covers (net_of r) f v -> covers (net_of r') f v -> r = r') /\
  (forall r r' f v, r ∈ rows t -> r' ∈ rows t -> covers (net_of r) f v -> covers (net_of r') f v ->
     r = r' \/ below_row t r r' \/ below_row t r' r).
Proof.
  intros Hr. pose proof (reachable_ok t Hr) as Ht. split; [done|]. split; [|split].
  - apply (nodup_map_on sn_cidr); [apply (NoDup_fmap_1 sn_id), Ht|]. intros r r'. by apply same_cidr.
  - intros r r' f v Hl Hl' Hv Hv'. destruct (decide (r = r')) as [|Hne]; [done|]. exfalso.
    by eapply covers_not_apart; [exact Hv|exact Hv'|apply (leaves_apart t Ht)].
  - intros r r' f v Hl Hl' Hv Hv'. apply (branch t Ht); [done|done|]. by eapply covers_not_apart.
Qed.


(** C3. Merging networks either refuses, the database rejecting nothing, or
    replaces sibling leaves by the one network they partition: the other
    leaves stay, the managed addresses are the same, and the table is a tree
    again. The row of that network has the status of its sources; when one of
    them is allocated, its gateway and gateway policy are those the merge plan
    announced. *)
Theorem merge_replaces_leaves sha256_state sha256_plan after_now cfg db t b :
  reachable t ->
  or_refused (fun t' => exists sources m parent row, omap (find_subnet t) (mb_ids b) = sources /\ merged_into t sources m t' /\
      (forall s, s ∈ sources -> sn_parent s = Some (sn_id parent)) /\ merged_row parent sources m t' row /\
      (List.filter is_allocated sources <> [] ->
         gw_policy (mergeGateway m sources) = Some (sn_policy row) /\ or_null (gw_address (mergeGateway m sources)) = or_null (sn_gateway row)))
    (mergeRoute sha256_state sha256_plan after_now cfg db t b).
Proof.
  intros Hr. pose proof (merge_cases sha256_state sha256_plan after_now cfg db t b (reachable_ok t Hr)) as Hc.
  destruct (mergeRoute _ _ _ _ _ _ _) as [t'|e]; [|done]. destruct Hc as (sources & m & q & row & Hs & Hm & Hp & Hgw & Hrow).
  exists sources, m, q, row. split; [done|]. split; [done|]. split; [done|]. split; [done|]. intros Ha.
  destruct Hrow as (_ & _ & -> & -> & _). by apply planned_gateway.
Qed.

(** C4. A division is undone by a merge: merging all the leaves within a
    network that was divided gives back the leaves there were before. *)
Theorem division_undone sha256_state sha256_plan after_now cfg db t id parent b t1 db' b' t2 :
  reachable t -> find_subnet t id = Some parent ->
  divideSubnet sha256_state sha256_plan after_now cfg db t id b = Ok t1 ->
  mergeRoute sha256_state sha256_plan after_now cfg db' t1 b' = Ok t2 ->
  (forall r, r ∈ omap (find_subnet t1) (mb_ids b') <-> leaf t1 r /\ within (net_of r) (net_of parent)) ->
  forall n, leaf_net t2 n <-> leaf_net t n.
Proof.
  intros Hr Hf Hd Hm Hids. pose proof (reachable_ok t Hr) as Ht.
  pose proof (divide_cases sha256_state sha256_plan after_now cfg db t id b Ht) as Hc. rewrite Hd in Hc.
  destruct Hc as (parent' & nets & Hf' & Hdiv & _). assert (parent' = parent) as -> by congruence.
  pose proof (merge_cases sha256_state sha256_plan after_now cfg db' t1 b' (dv_ok _ _ _ _ Hdiv)) as Hc. rewrite Hm in Hc.
  destruct Hc as (sources & m & q & row & Hs & Hmi & _ & _ & (Hrow & Hnet & _)).
  assert (wf_network m) as Hw by (rewrite <- Hnet; apply row_wf, (ok_rows t2 (mg_ok _ _ _ _ Hmi) row Hrow)).
  apply (undo_division t parent nets t1 sources m t2 Ht Hdiv Hmi); [|done]. intros n. rewrite (divided_parts t parent nets t1 n Ht Hdiv). split.
  - intros (r & <- & Hin)%list_elem_of_In%in_map_iff. apply list_elem_of_In in Hin. rewrite <- Hs in Hin. apply Hids in Hin as [Hl Hwi]. split; [by exists r|done].
  - intros [(r & Hl & <-) Hwi]. apply list_elem_of_In, in_map. apply list_elem_of_In. rewrite <- Hs. by apply Hids.
Qed.


(** ** A table to try them on *)

Definition example_settings : Settings := mkSettings "%1.%2.%3.%4/%bitmask" policy_first true.

Definition no_plan_text : PlanBody -> string := fun _ => "p".
Definition no_state_text : DependencyState -> string := fun _ => "s".
Definition never_after : string -> bool := fun _ => false.

Definition equal_division (p : Z) : DivideBody := mkDivideBody (mkDivideRequest (Some (Some p)) None [] []) (Some p) false None None None.
Definition carve_division (c : string) : DivideBody := mkDivideBody (mkDivideRequest None (Some c) [] []) None false None None None.

Definition example_divide (t : Table) (id : Z) (b : DivideBody) : result tree_error Table :=
  divideSubnet no_state_text no_plan_text never_after example_settings (empty_db []) t id b.
Definition example_merge (t : Table) (ids : list Z) : result tree_error Table :=
  mergeRoute no_state_text no_plan_text never_after example_settings (empty_db []) t (mkMergeBody ids None None).

Definition or_empty (m : result tree_error Table) : Table := match m with Ok t => t | Err _ => empty_table end.

(** 10.0.0.0/24, then its halves, then the quarters of both halves. *)
Definition example_created : Table :=
  Eval vm_compute in match createSubnet example_settings true empty_table (mkCreateBody "10.0.0.7/24" None None None None) with Ok (t, _) => t | Err _ => empty_table end.
Definition example_halves : Table := Eval vm_compute in or_empty (example_divide example_created 1 (equal_division 25)).
Definition example_half : Table := Eval vm_compute in or_empty (example_divide example_halves 2 (equal_division 26)).
Definition example_quarters : Table := Eval vm_compute in or_empty (example_divide example_half 3 (carve_division "10.0.0.200/26")).

Lemma example_steps : reachable example_created /\ reachable example_halves /\ reachable example_half /\ reachable example_quarters.
Proof.
  assert (reachable example_created) as H1.
  { apply rtc_once. apply (step_create example_settings true (mkCreateBody "10.0.0.7/24" None None None None) _ _ 1). vm_compute. reflexivity. }
  assert (reachable example_halves) as H2.
  { eapply rtc_r; [exact H1|]. apply (step_divide no_state_text no_plan_text never_after example_settings (empty_db []) 1 (equal_division 25)). vm_compute. reflexivity. }
  assert (reachable example_half) as H3.
  { eapply rtc_r; [exact H2|]. apply (step_divide no_state_text no_plan_text never_after example_settings (empty_db []) 2 (equal_division 26)). vm_compute. reflexivity. }
  split; [done|]. split; [done|]. split; [done|].
  eapply rtc_r; [exact H3|]. apply (step_divide no_state_text no_plan_text never_after example_settings (empty_db []) 3 (carve_division "10.0.0.200/26")). vm_compute. reflexivity.
Qed.

(** The halves are gone from the last table: each was an intermediary. *)
Lemma tree_invariant_witness :
  map (fun r => (sn_cidr r, sn_parent r)) (rows example_quarters) =
    [("10.0.0.0/24", None); ("10.0.0.0/26", Some 1); ("10.0.0.64/26", Some 1); ("10.0.0.192/26", Some 1); ("10.0.0.128/26", Some 1)] /\
  NoDup (map sn_cidr (rows example_quarters)).
Proof. split; [vm_compute; reflexivity|]. apply (tree_invariant example_quarters). apply example_steps. Defined.


Lemma merge_replaces_leaves_witness :
  exists sources m t', example_merge example_quarters [6; 7] = Ok t' /\ merged_into example_quarters sources m t' /\
    map sn_cidr (rows t') = ["10.0.0.0/24"; "10.0.0.0/26"; "10.0.0.64/26"; "10.0.0.128/25"].
Proof.
  pose proof (merge_replaces_leaves no_state_text no_plan_text never_after example_settings (empty_db []) example_quarters (mkMergeBody [6; 7] None None)
    ltac:(apply example_steps)) as H.
  fold (example_merge example_quarters [6; 7]) in H.
  assert (map sn_cidr (rows (or_empty (example_merge example_quarters [6; 7]))) = ["10.0.0.0/24"; "10.0.0.0/26"; "10.0.0.64/26"; "10.0.0.128/25"]) as Hrows
    by (vm_compute; reflexivity).
  destruct (example_merge example_quarters [6; 7]) as [t'|e]; [|discriminate Hrows].
  destruct H as (sources & m & parent & row & _ & Hm & _). by exists sources, m, t'.
Defined.

(** Deciding which rows are the leaves within a network. *)
Lemma leaves_within (t : Table) (parent : Subnet) (l : list Subnet) :
  Forall (fun r => (r ∈ rows t /\ children t (sn_id r) = []) /\ within (net_of r) (net_of parent)) l ->
  Forall (fun r => children t (sn_id r) = [] -> r ∈ l) (rows t) ->
  forall r, r ∈ l <-> leaf t r /\ within (net_of r) (net_of parent).
Proof. rewrite !Forall_forall. intros H1 H2 r. split; [apply H1|]. intros [[Hr Hn] _]. by apply H2. Qed.

Definition example_root : Subnet := Eval vm_compute in default example_parent (find_subnet example_created 1).

(** The two halves merged give back 10.0.0.0/24. *)
Lemma division_undone_witness :
  exists t', example_merge example_halves [2; 3] = Ok t' /\ forall n, leaf_net t' n <-> leaf_net example_created n.
Proof.
  assert (exists t', example_merge example_halves [2; 3] = Ok t') as [t' Ht'] by (eexists; vm_compute; reflexivity).
  exists t'. split; [exact Ht'|].
  apply (division_undone no_state_text no_plan_text never_after example_settings (empty_db []) example_created 1 example_root (equal_division 25)
    example_halves (empty_db []) (mkMergeBody [2; 3] None None) t'); [apply example_steps|vm_compute; reflexivity|vm_compute; reflexivity|exact Ht'|].
  apply leaves_within; apply (bool_decide_unpack _); vm_compute; exact I.
Defined.


(** ** Corners *)

(** An allocated 10.0.0.0/24 divided, and both halves deleted again. *)
Definition example_freed : Table :=
  Eval vm_compute in
  let configured := configureSubnet example_root (buildNetwork 167772160 32 4 24)
    (mkConfigureFields "office" None None (Some "10.0.0.1") (Some policy_first) false None None None None) example_created in
  let forced := mkDivideBody (mkDivideRequest (Some (Some 25)) None [] []) (Some 25) true None None None in
  let free := fun id t => or_empty (deleteRoute [] t id) in
  free 3 (free 2 (or_empty (example_divide configured 1 forced))).

(** The plan of merging two free halves announces no gateway; the merge gives
    the parent the gateway it had before it was divided. *)
Example merge_revives_gateway :
  let sources := omap (find_subnet example_freed) [2; 3] in
  map sn_status sources = [unallocated; unallocated] /\
  mergeGateway (buildNetwork 167772160 32 4 24) sources = mkGateway (Some policy_none) None /\
  map (fun r => (sn_status r, sn_gateway r, sn_policy r)) (rows (or_empty (example_merge example_freed [2; 3]))) =
    [(unallocated, Some "10.0.0.1", policy_first)].
Proof. split_and!; vm_compute; reflexivity. Qed.

(** The first quarter divided before the second half: the halves go, the
    quarters move up, and the eighths keep the depth they had. *)
Example lifted_rows_keep_depth :
  map (fun r => (sn_cidr r, sn_parent r, sn_depth r))
    (rows (or_empty (example_divide (or_empty (example_divide example_half 4 (equal_division 27))) 3 (equal_division 26)))) =
  [("10.0.0.0/24", None, 0); ("10.0.0.0/26", Some 1, 1); ("10.0.0.64/26", Some 1, 1); ("10.0.0.0/27", Some 4, 3); ("10.0.0.32/27", Some 4, 3);
   ("10.0.0.128/26", Some 1, 1); ("10.0.0.192/26", Some 1, 1)].
Proof. vm_compute. reflexivity. Qed.

(** A network with a custom gateway cannot be edited without naming the
    gateway again. *)
Example custom_gateway_must_be_repeated :
  requestedGateway (set_policy policy_custom example_root) (buildNetwork 167772160 32 4 24) (mkGatewayRequest None None) =
    Err (Refused 400 "gateway_address is required for custom gateway policy").
Proof. reflexivity. Qed.
