(* ===== verification/RangeMoves.v ===== *)
(** * Network range types under a division and a merge: [server/src/services/subnet-topology.js]

    The rows of [ranges] that a network gets from its own boundaries, the
    labels a child takes over from the network it is cut from, and the labels
    a merged network takes over from its parts. The rows of DHCP pools, which
    a division also writes, belong to another layer and are left out. *)

From S2P Require Import Prelude JsString Address Cidr Partition ScopeOptions DhcpPools Subnets Ranges NetworkTree.

(** ** Boundaries *)

Inductive move_error :=
| MoveThrew (e : cidr_error)
| NoSystemType (name : string).

Definition lift_move {A} (m : result cidr_error A) : result move_error A :=
  match m with Ok a => Ok a | Err e => Err (MoveThrew e) end.

(** [typeMap[name]]: a type that is missing violates [NOT NULL]. *)
Definition system_type (db : RangeDb) (name : string) : result move_error Z :=
  match List.find (fun t => rt_system t && String.eqb (rt_name t) name) (range_types db) with
  | Some t => Ok (rt_id t)
  | None => Err (NoSystemType name)
  end.

Definition insert_system (subnetId : Z) (name address description : string) (db : RangeDb) : result move_error RangeDb :=
  type ← system_type db name;
  mret (insertRange db subnetId type address address (Some description)).

Definition createSystemRanges (db : RangeDb) (subnetId : Z) (parsed : Network) (gatewayAddress : option string) : result move_error RangeDb :=
  match topologyAddresses parsed with
  | [] => mret db
  | _ =>
      db ← insert_system subnetId "Network" (network parsed) "Network address" db;
      db ← (match or_null gatewayAddress with Some g => insert_system subnetId "Gateway" g "Default gateway" db | None => mret db end);
      if family parsed =? 4 then insert_system subnetId "Broadcast" (last parsed) "Broadcast address" db else mret db
  end.

(** ** A child takes over its part of the labels *)

Definition copy_range (childId : Z) (childParsed : Network) (db : RangeDb) (ur : RangeRow) : result cidr_error RangeDb :=
  urStart ← addressToBig (rg_start ur);
  urEnd ← addressToBig (rg_end ur);
  if negb (a_family urStart =? family childParsed) then mret db
  else
    let clippedStart := Z.max (a_value urStart) (networkBig childParsed) in
    let clippedEnd := Z.min (a_value urEnd) (lastBig childParsed) in
    mret (if clippedStart <=? clippedEnd
          then insertRange db childId (rg_type ur) (bigToAddress clippedStart (family childParsed)) (bigToAddress clippedEnd (family childParsed)) (rg_description ur)
          else db).

Definition custom_rows (db : RangeDb) (p : Z -> bool) : list RangeRow := List.filter (fun r => p (rg_subnet r) && is_custom db r) (ranges db).

Definition copyUserRangesToChild (db : RangeDb) (parentId childId : Z) (childParsed : Network) : result cidr_error RangeDb :=
  fold_result (copy_range childId childParsed) (custom_rows db (Z.eqb parentId)) db.

Definition deleteRangesForSubnet (subnetId : Z) (db : RangeDb) : RangeDb := delete_where (fun r => rg_subnet r =? subnetId) db.

(** One child of a division: its id, its network and its gateway. *)
Record Child := mkChild { ch_id : Z; ch_net : Network; ch_gateway : option string }.

(** The ranges of [migrateConfigToChild]. *)
Definition migrate_child (parentId : Z) (db : RangeDb) (c : Child) : result move_error RangeDb :=
  db ← createSystemRanges db (ch_id c) (ch_net c) (ch_gateway c);
  lift_move (copyUserRangesToChild db parentId (ch_id c) (ch_net c)).

(** The ranges of a division: the insert loop and [clearParentConfig]. *)
Definition divide_ranges (db : RangeDb) (parentId : Z) (children : list Child) : result move_error RangeDb :=
  db ← fold_result (migrate_child parentId) children db;
  mret (deleteRangesForSubnet parentId db).

(** ** A merged network takes over the labels of its parts *)

Record MovedRange := mkMovedRange { mv_row : RangeRow; mv_start : Address; mv_end : Z }.

Definition set_subnet (id : Z) (r : RangeRow) : RangeRow := mkRangeRow (rg_id r) id (rg_type r) (rg_start r) (rg_end r) (rg_description r).
Definition set_end (endIp : string) (r : RangeRow) : RangeRow := mkRangeRow (rg_id r) (rg_subnet r) (rg_type r) (rg_start r) endIp (rg_description r).

(** [ORDER BY range_type_id, start_ip, end_ip, id] *)
Definition row_before (a b : RangeRow) : Prop :=
  match rg_type a ?= rg_type b with
  | Lt => True
  | Gt => False
  | Eq => match String.compare (rg_start a) (rg_start b) with
          | Lt => True
          | Gt => False
          | Eq => match String.compare (rg_end a) (rg_end b) with Lt => True | Gt => False | Eq => rg_id a <= rg_id b end
          end
  end.

#[export] Instance row_before_dec : RelDecision row_before.
Proof. intros a b. unfold row_before. repeat case_match; apply _. Defined.

Definition moved_range (r : RangeRow) : result cidr_error MovedRange :=
  start ← addressToBig (rg_start r);
  stop ← addressToBig (rg_end r);
  mret (mkMovedRange r start (a_value stop)).

Definition keep_apart (previous current : MovedRange) : bool :=
  negb (rg_type (mv_row previous) =? rg_type (mv_row current)) || negb (bool_decide (rg_description (mv_row previous) = rg_description (mv_row current)))
  || negb (a_family (mv_start previous) =? a_family (mv_start current)) || (mv_end previous + 1 <? a_value (mv_start current)).

(** One pass over the rows: [previous] grows by the rows it meets, which are
    deleted. *)
Fixpoint coalesce (previous : MovedRange) (l : list MovedRange) (db : RangeDb) : RangeDb :=
  match l with
  | [] => db
  | current :: l' =>
      if keep_apart previous current then coalesce current l' db
      else
        let stop := Z.max (mv_end previous) (mv_end current) in
        let endIp := bigToAddress stop (a_family (mv_start previous)) in
        let grown := with_ranges db (map (fun r => if rg_id r =? rg_id (mv_row previous) then set_end endIp r else r) (ranges db)) in
        coalesce (mkMovedRange (set_end endIp (mv_row previous)) (mv_start previous) stop) l'
          (delete_where (fun r => rg_id r =? rg_id (mv_row current)) grown)
  end.

(** [UPDATE ranges SET subnet_id = target] for the custom rows of the parts. *)
Definition relabel (sources : list Z) (target : Z) (db : RangeDb) (r : RangeRow) : RangeRow :=
  if existsb (Z.eqb (rg_subnet r)) sources && is_custom db r then set_subnet target r else r.

Definition moveCustomRangesToSubnet (db : RangeDb) (sourceSubnetIds : list Z) (targetSubnetId : Z) : result cidr_error RangeDb :=
  match sourceSubnetIds with
  | [] => mret db
  | _ =>
      let db := with_ranges db (map (relabel sourceSubnetIds targetSubnetId db) (ranges db)) in
      moved ← map_result moved_range (merge_sort row_before (custom_rows db (Z.eqb targetSubnetId)));
      mret (match sort_by (fun m => rg_type (mv_row m)) (sort_by (fun m => a_value (mv_start m)) moved) with
            | [] => db
            | m :: l => coalesce m l db
            end)
  end.

(** The ranges of [mergeSubnets]. *)
Definition merge_ranges (db : RangeDb) (childIds : list Z) (mergedId : Z) (mergedParsed : Network) (mergedGateway : option string) : result move_error RangeDb :=
  db ← lift_move (moveCustomRangesToSubnet db childIds mergedId);
  createSystemRanges (fold_left (fun db id => deleteRangesForSubnet id db) childIds db) mergedId mergedParsed mergedGateway.

(** ** Lemmas: rows of a function *)

(** Types have ids of their own, and the three types of the boundaries exist. *)
Record types_ok (db : RangeDb) : Prop := {
  ty_ids : NoDup (map rt_id (range_types db));
  ty_boundary : forall name, name ∈ ["Network"; "Gateway"; "Broadcast"] -> exists t, system_type db name = Ok t }.

Definition same_labels (db db' : RangeDb) : Prop := forall r, is_custom db r = true -> r ∈ ranges db' <-> r ∈ ranges db.

Lemma types_same db db' : range_types db' = range_types db -> types_ok db -> types_ok db'.
Proof. intros Ht [H1 H2]. split; unfold system_type in *; by rewrite Ht. Qed.

Lemma labelled_same db db' : range_types db' = range_types db -> same_labels db db' -> forall k t d f v, labelled db' k t d f v <-> labelled db k t d f v.
Proof.
  intros Ht Hs k t d f v. unfold labelled. split; intros (r & Hr & Hc & H); exists r; rewrite (is_custom_types db db') in * by done; (split; [by apply Hs|done]).
Qed.

Lemma system_not_custom db name t r : types_ok db -> system_type db name = Ok t -> rg_type r = t -> is_custom db r = false.
Proof.
  intros [Hn _] H Hr. unfold system_type in H. destruct (List.find _ _) as [ty|] eqn:Hty; [|done]. injection H as <-. apply List.find_some in Hty as [Hin [Hsys _]%andb_true_iff].
  unfold is_custom, find_type. destruct (List.find _ _) as [ty'|] eqn:Hf; [|done]. apply List.find_some in Hf as [Hin' He%Z.eqb_eq].
  rewrite (nodup_map_inj rt_id (range_types db) ty' ty) by (done || by apply list_elem_of_In || congruence). by rewrite Hsys.
Qed.

(** What a write of functional rows to one network leaves alone. *)
Record functional_write (s : Z) (db db' : RangeDb) : Prop := {
  fw_labels : labels_ok db'; fw_tables : same_tables db db'; fw_elsewhere : elsewhere s db db'; fw_same : same_labels db db' }.

Lemma functional_refl s db : labels_ok db -> functional_write s db db.
Proof. intros H. split; [done|split_and!; (done || lia)|done|done]. Qed.

Lemma functional_trans s a b c : functional_write s a b -> functional_write s b c -> functional_write s a c.
Proof.
  intros [H1 H2 H3 H4] [K1 K2 K3 K4]. split; [done|by eapply tables_trans|intros r Hr; by rewrite (K3 r Hr), (H3 r Hr)|].
  intros r Hr. rewrite (K4 r), (H4 r Hr); [done|]. rewrite <- Hr. by apply custom_same.
Qed.

Lemma insert_system_ok s name a d db :
  labels_ok db -> types_ok db -> name ∈ ["Network"; "Gateway"; "Broadcast"] -> exists db', insert_system s name a d db = Ok db' /\ functional_write s db db'.
Proof.
  intros Hdb Ht Hn. destruct (ty_boundary db Ht name Hn) as [t Hty]. unfold insert_system. rewrite Hty. cbn [mbind result_bind]. eexists. split; [done|].
  assert (forall r, rg_type r = t -> is_custom db r = false) as Hnc by (intros r; by eapply system_not_custom).
  destruct (functional_added db s t a a (Some d) Hdb Hnc) as (H1 & H2 & H3). split; [done|done|done|]. intros r Hr. cbn. rewrite elem_of_app, list_elem_of_singleton.
  split; [intros [?| ->]; [done|]|by left]. by rewrite Hnc in Hr.
Qed.

Lemma create_system_ok db s n g :
  labels_ok db -> types_ok db -> exists db', createSystemRanges db s n g = Ok db' /\ functional_write s db db'.
Proof.
  intros Hdb Ht. assert (forall name a d db1, name ∈ ["Network"; "Gateway"; "Broadcast"] -> functional_write s db db1 ->
    exists db', insert_system s name a d db1 = Ok db' /\ functional_write s db db') as Hins.
  { intros name a d db1 Hn Hw. destruct (insert_system_ok s name a d db1) as (db' & Hrun & Hw'); [apply Hw|eapply types_same; [apply Hw|done]|done|]. exists db'.
    split; [done|by eapply functional_trans]. }
  pose proof (functional_refl s db Hdb) as Hw0. unfold createSystemRanges. destruct (topologyAddresses n); [by exists db|].
  destruct (Hins "Network" (network n) "Network address" db) as (db1 & -> & Hw1); [by left|done|]. cbn [mbind result_bind].
  assert (exists db2, match or_null g with Some g => insert_system s "Gateway" g "Default gateway" db1 | None => mret db1 end = Ok db2 /\ functional_write s db db2) as (db2 & -> & Hw2).
  { destruct (or_null g) as [gw|]; [|by exists db1]. apply Hins; [right; by left|done]. }
  cbn [mbind result_bind]. destruct (family n =? 4); [|by exists db2]. apply Hins; [right; right; by left|done].
Qed.

Lemma elem_of_map {A B} (f : A -> B) l y : y ∈ map f l <-> exists x, y = f x /\ x ∈ l.
Proof. rewrite list_elem_of_In, in_map_iff. setoid_rewrite list_elem_of_In. naive_solver. Qed.

(** ** Lemmas: the labels of a child *)

Definition fits (n : Network) (r : RangeRow) : bool := (rfam r =? family n) && (Z.max (rlow r) (networkBig n) <=? Z.min (rhigh r) (lastBig n)).

Lemma fold_filter {A B} (p : A -> bool) (f : B -> A -> B) l acc : fold_left (fun acc x => if p x then f acc x else acc) l acc = fold_left f (List.filter p l) acc.
Proof. revert acc. induction l as [|x l IH]; intros acc; [done|]. cbn. destruct (p x); apply IH. Qed.

Lemma ordered_pairs {A} (R : A -> A -> Prop) l : NoDup l -> (forall x y, x ∈ l -> y ∈ l -> x <> y -> R x y) -> ForallOrdPairs R l.
Proof.
  induction 1 as [|x l Hx _ IH]; intros H; constructor; [|apply IH; intros; apply H; [by right|by right|done]].
  apply Forall_forall. intros y Hy. apply H; [by left|by right|]. by intros ->.
Qed.

Lemma custom_rows_elem db p r : r ∈ custom_rows db p <-> r ∈ ranges db /\ p (rg_subnet r) = true /\ is_custom db r = true.
Proof. unfold custom_rows. rewrite list_elem_of_In, List.filter_In, andb_true_iff, <- list_elem_of_In. tauto. Qed.

Lemma filter_nodup_rows {A} (p : A -> bool) l : NoDup l -> NoDup (List.filter p l).
Proof. intros H. rewrite <- (map_id (List.filter p l)). apply filter_map_nodup. by rewrite map_id. Qed.

Lemma copy_ok db p k n :
  labels_ok db -> wf_network n -> mapped_free n -> (forall r, r ∈ ranges db -> is_custom db r = true -> rg_subnet r <> k) ->
  exists db', copyUserRangesToChild db p k n = Ok db' /\ labels_ok db' /\ same_tables db db' /\ elsewhere k db db' /\
    forall t d f v, labelled db' k t d f v <-> covers n f v /\ labelled db p t d f v.
Proof.
  intros Hdb Hn Hm Hk. set (us := custom_rows db (Z.eqb p)). assert (forall u, u ∈ us <-> u ∈ ranges db /\ rg_subnet u = p /\ is_custom db u = true) as Hus.
  { intros u. unfold us. rewrite custom_rows_elem, Z.eqb_eq. naive_solver. }
  set (lo := fun u => Z.max (rlow u) (networkBig n)). set (hi := fun u => Z.min (rhigh u) (lastBig n)).
  set (insert := fun db u => insertRange db k (rg_type u) (bigToAddress (lo u) (family n)) (bigToAddress (hi u) (family n)) (rg_description u)).
  assert (copyUserRangesToChild db p k n = Ok (fold_left insert (List.filter (fits n) us) db)) as ->.
  { rewrite <- fold_filter. apply fold_result_ok. intros acc u (Hu & _ & Hc)%Hus. destruct (label_addresses u (lo_rows db Hdb u Hu Hc)) as (b & c & Hs & He).
    unfold copy_range, fits. rewrite Hs, He. cbn [mbind result_bind mret result_ret a_family a_value]. destruct (rfam u =? family n); cbn [negb andb]; [|done].
    unfold insert, lo, hi. by destruct (_ <=? _). }
  set (l := List.filter (fits n) us).
  assert (forall u, u ∈ l <-> u ∈ us /\ rfam u = family n /\ lo u <= hi u) as Hl.
  { intros u. unfold l. rewrite list_elem_of_In, List.filter_In, <- list_elem_of_In. unfold fits. rewrite andb_true_iff, Z.eqb_eq, Z.leb_le. done. }
  destruct (insert_labels db k rg_type (fun _ => family n) lo hi rg_description l Hdb) as (H1 & H2 & new & H3 & H4 & H5).
  - intros u ((_ & _ & Hc)%Hus & _)%Hl. by apply custom_of_type.
  - intros u (_ & _ & Ho)%Hl. split; [done|]. intros v Hv. exists (nbits n). split; [by apply wf_family|]. apply mapped_free_spellable; [done|done|]. unfold lo, hi in Hv. lia.
  - apply ordered_pairs; [apply filter_nodup_rows, filter_nodup_rows, nodup_rows, Hdb|]. intros x y (Hx & Hxf & Hxo)%Hl (Hy & Hyf & Hyo)%Hl Hne _. apply Hus in Hx as (Hx & Hxs & Hxc), Hy as (Hy & Hys & Hyc).
    destruct (lo_clear db Hdb x y Hx Hy Hxc Hyc) as [H|H]; [congruence|done|congruence| |]; unfold spans_apart, lo, hi in *; cbn in *; lia.
  - intros r x v Hr Hc Hs. by destruct (Hk r Hr Hc).
  - set (db' := fold_left _ l db) in *. exists db'. split; [done|]. split; [done|]. split; [done|]. split.
    { intros r Hr. rewrite H3. split; [intros [?|(? & _)%H4]; done|by left]. }
    intros t d f v. unfold labelled. split.
    + intros (r & Hr & Hc & Hs & <- & <- & Hf & Hv). rewrite (custom_same db db') in Hc by done. apply H3 in Hr as [Hr|Hr]; [by destruct (Hk r Hr Hc)|].
      destruct (H4 r Hr) as (_ & u & Hu & Ht & Hd & Hrf & Hlo & Hhi). apply Hl in Hu as (Hu & Huf & _). apply Hus in Hu as (Hu & Hus' & Huc). unfold lo, hi in *.
      split; [split; [congruence|lia]|]. exists u. split_and!; try done. split; [congruence|lia].
    + intros ([Hnf Hnv] & u & Hu & Hc & Hs & <- & <- & Hf & Hv). destruct (H5 u) as (r & Hr & Hrs & Ht & Hd & Hrf & Hlo & Hhi).
      { apply Hl. split; [by apply Hus|]. split; [congruence|unfold lo, hi; lia]. }
      exists r. split; [apply H3; by right|]. split; [rewrite (custom_same db db') by done; unfold is_custom in *; by rewrite Ht|]. split_and!; try done. unfold lo, hi in *. split; [congruence|lia].
Qed.

Lemma labelled_rows db db' k :
  same_tables db db' -> (forall r, rg_subnet r = k -> r ∈ ranges db' <-> r ∈ ranges db) -> forall t d f v, labelled db' k t d f v <-> labelled db k t d f v.
Proof.
  intros Hst Hrows t d f v. unfold labelled. split; intros (r & Hr & Hc & Hs & H); exists r; [rewrite (custom_same db db') in Hc by done|rewrite (custom_same db db') by done];
    (split; [by apply Hrows|done]).
Qed.

Lemma migrate_ok db p c :
  labels_ok db -> types_ok db -> wf_network (ch_net c) -> mapped_free (ch_net c) -> p <> ch_id c ->
  (forall r, r ∈ ranges db -> is_custom db r = true -> rg_subnet r <> ch_id c) ->
  exists db', migrate_child p db c = Ok db' /\ labels_ok db' /\ same_tables db db' /\ elsewhere (ch_id c) db db' /\
    forall t d f v, labelled db' (ch_id c) t d f v <-> covers (ch_net c) f v /\ labelled db p t d f v.
Proof.
  intros Hdb Ht Hn Hm Hp Hfresh. unfold migrate_child. destruct (create_system_ok db (ch_id c) (ch_net c) (ch_gateway c) Hdb Ht) as (db1 & -> & [H1 H2 H3 H4]). cbn [mbind result_bind].
  destruct (copy_ok db1 p (ch_id c) (ch_net c) H1 Hn Hm) as (db2 & -> & K1 & K2 & K3 & K4).
  { intros r Hr Hc. rewrite (custom_same db db1) in Hc by done. apply Hfresh; [by apply H4|done]. }
  exists db2. split; [done|]. split; [done|]. split; [by eapply tables_trans|]. split; [intros r Hr; by rewrite (K3 r Hr), (H3 r Hr)|].
  intros t d f v. rewrite K4. by rewrite (labelled_same db db1) by (done || apply H2).
Qed.

Lemma migrate_all db p children :
  labels_ok db -> types_ok db -> (forall c, c ∈ children -> wf_network (ch_net c) /\ mapped_free (ch_net c) /\ ch_id c <> p) -> NoDup (map ch_id children) ->
  (forall r, r ∈ ranges db -> is_custom db r = true -> rg_subnet r ∉ map ch_id children) ->
  exists db', fold_result (migrate_child p) children db = Ok db' /\ labels_ok db' /\ same_tables db db' /\
    (forall r, rg_subnet r ∉ map ch_id children -> r ∈ ranges db' <-> r ∈ ranges db) /\
    forall c t d f v, c ∈ children -> labelled db' (ch_id c) t d f v <-> covers (ch_net c) f v /\ labelled db p t d f v.
Proof.
  revert db. induction children as [|c cs IH]; intros db Hdb Ht Hcs Hnd Hfresh.
  - exists db. split; [done|]. split; [done|]. split; [split_and!; (done || lia)|]. split; [done|]. by intros c t d f v ?%elem_of_nil.
  - cbn [map] in Hnd, Hfresh. apply NoDup_cons in Hnd as [Hc Hnd]. destruct (Hcs c ltac:(by left)) as (Hwf & Hmf & Hne).
    destruct (migrate_ok db p c Hdb Ht Hwf Hmf) as (db1 & Hrun & Hdb1 & Hst1 & He1 & Hl1); [done|intros r Hr Hrc He; apply (Hfresh r Hr Hrc); rewrite He; by left|].
    cbn [fold_result]. rewrite Hrun. destruct (IH db1 Hdb1) as (db2 & Hrun2 & Hdb2 & Hst2 & He2 & Hl2).
    + eapply types_same; [apply Hst1|done].
    + intros x Hx. apply Hcs. by right.
    + done.
    + intros r Hr Hrc Hin. rewrite (custom_same db db1) in Hrc by done. destruct (decide (rg_subnet r = ch_id c)) as [He|He]; [by rewrite He in Hin|].
      apply (Hfresh r); [by apply He1|done|by right].
    + exists db2. split; [done|]. split; [done|]. split; [by eapply tables_trans|]. split.
      * intros r Hr. apply not_elem_of_cons in Hr as [Hr1 Hr2]. by rewrite He2, (He1 r Hr1).
      * assert (forall t d f v, labelled db1 p t d f v <-> labelled db p t d f v) as Hp1 by (apply (labelled_rows db db1); [done|intros r Hr; apply He1; congruence]).
        intros x t d f v [->|Hx]%elem_of_cons; [|by rewrite Hl2, Hp1]. rewrite (labelled_rows db1 db2), Hl1; [done|done|]. intros r Hr. apply He2. by rewrite Hr.
Qed.

Lemma divide_ok db p children :
  labels_ok db -> types_ok db -> (forall c, c ∈ children -> wf_network (ch_net c) /\ mapped_free (ch_net c) /\ ch_id c <> p) -> NoDup (map ch_id children) ->
  (forall r, r ∈ ranges db -> is_custom db r = true -> rg_subnet r ∉ map ch_id children) ->
  exists db', divide_ranges db p children = Ok db' /\ labels_ok db' /\ range_types db' = range_types db /\
    (forall r, rg_subnet r <> p -> rg_subnet r ∉ map ch_id children -> r ∈ ranges db' <-> r ∈ ranges db) /\
    (forall r, r ∈ ranges db' -> rg_subnet r <> p) /\
    (forall c t d f v, c ∈ children -> labelled db' (ch_id c) t d f v <-> covers (ch_net c) f v /\ labelled db p t d f v).
Proof.
  intros Hdb Ht Hcs Hnd Hfresh. unfold divide_ranges. destruct (migrate_all db p children Hdb Ht Hcs Hnd Hfresh) as (db1 & -> & H1 & H2 & H3 & H4). cbn [mbind result_bind].
  destruct (delete_labels (fun r => rg_subnet r =? p) db1 H1) as (K1 & K2 & K3). eexists. split; [done|]. split; [exact K1|]. split; [exact (proj1 H2)|].
  assert (forall r, r ∈ ranges (deleteRangesForSubnet p db1) <-> r ∈ ranges db1 /\ rg_subnet r <> p) as Hin by (intros r; unfold deleteRangesForSubnet; by rewrite K3, Z.eqb_neq).
  split; [intros r Hr Hi; rewrite Hin, H3 by done; tauto|]. split; [by intros r [_ ?]%Hin|]. intros c t d f v Hc. rewrite <- H4 by done.
  apply (labelled_rows db1); [done|]. intros r Hr. destruct (Hcs c Hc) as (_ & _ & Hne). rewrite Hin, Hr. tauto.
Qed.

(** ** Lemmas: growing a row by the next one *)

Lemma filter_map_swap {A} (p : A -> bool) (f : A -> A) l : (forall x, p (f x) = p x) -> List.filter p (map f l) = map f (List.filter p l).
Proof. intros H. induction l as [|x l IH]; [done|]. cbn. rewrite H. destruct (p x); cbn; by rewrite IH. Qed.

Definition grown (p c : RangeRow) : RangeRow := set_end (bigToAddress (Z.max (rhigh p) (rhigh c)) (rfam p)) p.

Definition absorb (p c : RangeRow) (db : RangeDb) : RangeDb :=
  delete_where (fun r => rg_id r =? rg_id c)
    (with_ranges db (map (fun r => if rg_id r =? rg_id p then set_end (bigToAddress (Z.max (rhigh p) (rhigh c)) (rfam p)) r else r) (ranges db))).

(** Rows that are the same label but for their addresses, the second starting
    inside the first or right behind it. *)
Record touching (p c : RangeRow) : Prop := {
  tc_subnet : rg_subnet c = rg_subnet p; tc_type : rg_type c = rg_type p; tc_description : rg_description c = rg_description p; tc_family : rfam c = rfam p;
  tc_order : rlow p <= rlow c <= rhigh p + 1 }.

Lemma grown_ok p c : label_ok p -> label_ok c -> touching p c -> label_ok (grown p c) /\ rfam (grown p c) = rfam p /\ rlow (grown p c) = rlow p /\ rhigh (grown p c) = Z.max (rhigh p) (rhigh c).
Proof.
  intros [Hs He Ho Hr] [Hs' He' Ho' Hr'] [_ _ _ Hf Hord]. apply label_make; [done|done|lia|]. intros v Hv. destruct (Z.le_gt_cases v (rhigh p)); [apply Hr; lia|].
  rewrite <- Hf. apply Hr'. lia.
Qed.

Lemma absorb_eq p c db :
  db_ok db -> p ∈ ranges db ->
  let db0 := delete_where (fun r => rg_id r =? rg_id c) db in
  absorb p c db = with_ranges db0 (map (fun r => if rg_id r =? rg_id p then grown p c else r) (ranges db0)).
Proof.
  intros Hdb Hp db0. unfold absorb, delete_where, with_ranges. cbn [ranges next_range range_types range_events]. f_equal.
  rewrite filter_map_swap by (intros r; by destruct (rg_id r =? rg_id p)). apply map_ext_in. intros r [Hr _]%List.filter_In. apply list_elem_of_In in Hr.
  destruct (Z.eqb_spec (rg_id r) (rg_id p)) as [He|]; [|done]. by rewrite (range_same_id db r p).
Qed.

Lemma absorb_ok p c db :
  labels_ok db -> p ∈ ranges db -> c ∈ ranges db -> is_custom db p = true -> is_custom db c = true -> p <> c -> touching p c ->
  labels_ok (absorb p c db) /\ same_tables db (absorb p c db) /\
  (forall r, r ∈ ranges (absorb p c db) <-> (r ∈ ranges db /\ r <> p /\ r <> c) \/ r = grown p c) /\
  (forall k t d f v, labelled (absorb p c db) k t d f v <-> labelled db k t d f v).
Proof.
  intros Hdb Hp Hc Hpc Hcc Hne Ht. pose proof (lo_rows db Hdb p Hp Hpc) as Hlp. pose proof (lo_rows db Hdb c Hc Hcc) as Hlc.
  destruct (grown_ok p c Hlp Hlc Ht) as (Hg & Hgf & Hgl & Hgh). destruct (delete_labels (fun r => rg_id r =? rg_id c) db Hdb) as (Hdb0 & Hst0 & Hin0).
  rewrite (absorb_eq p c db (lo_db db Hdb) Hp). set (db0 := delete_where _ db) in *. set (db' := with_ranges db0 _).
  assert (forall r, r ∈ ranges db0 <-> r ∈ ranges db /\ r <> c) as Hin.
  { intros r. rewrite Hin0, Z.eqb_neq. split; intros [Hr Hrc]; (split; [done|]); [by intros ->|]. intros He. apply Hrc. by apply (range_same_id db); [apply Hdb|..]. }
  assert (p ∈ ranges db0) as Hp0 by by apply Hin. destruct (update_labels db0 p (grown p c) Hdb0 Hp0) as (H1 & H2 & _); [done|done| |].
  { intros _. split; [done|]. intros r [Hr Hrc]%Hin Hrcu Hs Hrp. rewrite (custom_same db db0) in Hrcu by done. intros Hf. rewrite Hgl, Hgh. rewrite Hgf in Hf.
    destruct Ht as [Hts _ _ Htf Hto]. pose proof (lb_order p Hlp). pose proof (lb_order c Hlc). pose proof (lb_order r (lo_rows db Hdb r Hr Hrcu)).
    destruct (lo_clear db Hdb p r) as [A|A]; [done|done|done|done|congruence|done|congruence| |];
      (destruct (lo_clear db Hdb c r) as [A'|A']; [done|done|done|done|congruence|done|congruence| |]); cbn in *; unfold spans_apart; cbn; lia. }
  fold db' in H1, H2. assert (forall r, r ∈ ranges db' <-> (r ∈ ranges db /\ r <> p /\ r <> c) \/ r = grown p c) as Hrows.
  { intros r. unfold db'. cbn [ranges with_ranges]. rewrite list_elem_of_In, in_map_iff. setoid_rewrite <- list_elem_of_In. split.
    - intros (x & <- & Hx). destruct (Z.eqb_spec (rg_id x) (rg_id p)) as [|Hid]; [by right|left]. apply Hin in Hx as [Hx Hxc]. split; [done|]. split; [by intros ->|done].
    - intros [(Hr & Hrp & Hrc)| ->]; [exists r|exists p; by rewrite Z.eqb_refl]. split; [|by apply Hin]. destruct (Z.eqb_spec (rg_id r) (rg_id p)) as [He|]; [|done].
      destruct Hrp. apply (range_same_id db); [apply Hdb|done..]. }
  pose proof (tables_trans _ _ _ Hst0 H2) as Hst. split; [done|]. split; [done|]. split; [done|]. intros k t d f v. unfold labelled. setoid_rewrite Hrows. split.
  - intros (r & [(Hr & _ & _)| ->] & Hrc & Hs & Hty & Hd & Hf & Hv); [exists r; rewrite (custom_same db db') in Hrc by done; by split_and!|].
    rewrite Hgf in Hf. rewrite Hgl, Hgh in Hv. cbn in Hs, Hty, Hd. destruct Ht as [K1 K2 K3 K4 K5]. destruct (Z.le_gt_cases v (rhigh p)); [exists p|exists c]; (split; [done|]; split; [done|]);
      (split; [congruence|]; split; [congruence|]; split; [congruence|]; split; [congruence|lia]).
  - intros (r & Hr & Hrc & Hs & Hty & Hd & Hf & Hv). assert (is_custom db' (grown p c) = true) as Hgc by (rewrite (custom_same db db') by done; exact Hpc).
    destruct Ht as [K1 K2 K3 K4 K5]. destruct (decide (r = p)) as [->|Hrp]; [|destruct (decide (r = c)) as [->|Hrc']].
    + exists (grown p c). split; [by right|]. split; [done|]. cbn [grown set_end rg_subnet rg_type rg_description]. split_and!; try done. split; [congruence|lia].
    + exists (grown p c). split; [by right|]. split; [done|]. cbn [grown set_end rg_subnet rg_type rg_description]. split_and!; try congruence. split; [congruence|lia].
    + exists r. rewrite (custom_same db db') by done. split; [by left|]. by split_and!.
Qed.

(** ** Lemmas: one pass over the moved rows *)

Record placed (db : RangeDb) (target : Z) (m : MovedRange) : Prop := {
  pl_row : mv_row m ∈ ranges db; pl_custom : is_custom db (mv_row m) = true; pl_subnet : rg_subnet (mv_row m) = target;
  pl_start : a_value (mv_start m) = rlow (mv_row m); pl_family : a_family (mv_start m) = rfam (mv_row m); pl_end : mv_end m = rhigh (mv_row m) }.

(** The order of the pass. *)
Definition before (a b : MovedRange) : Prop :=
  rg_type (mv_row a) < rg_type (mv_row b) \/ (rg_type (mv_row a) = rg_type (mv_row b) /\ a_value (mv_start a) <= a_value (mv_start b)).

#[export] Instance before_trans : Transitive before.
Proof. intros a b c. unfold before. lia. Qed.

Definition same_head (a b : MovedRange) : Prop :=
  rg_type (mv_row a) = rg_type (mv_row b) /\ rg_description (mv_row a) = rg_description (mv_row b) /\ mv_start a = mv_start b.

Lemma keep_apart_head p a b : same_head a b -> keep_apart p a = keep_apart p b.
Proof. intros (H1 & H2 & H3). unfold keep_apart. by rewrite H1, H2, H3. Qed.

Lemma meeting db target p c : labels_ok db -> placed db target p -> placed db target c -> before p c -> keep_apart p c = false -> touching (mv_row p) (mv_row c).
Proof.
  intros Hdb [_ _ H3 H4 H5 H6] [_ _ K3 K4 K5 K6] Hb Hk. unfold keep_apart in Hk. rewrite !orb_false_iff, !negb_false_iff, !Z.eqb_eq, bool_decide_eq_true, Z.ltb_ge in Hk.
  destruct Hk as [[[Ht Hd] Hf] He]. unfold before in Hb. split; [congruence|congruence|congruence|congruence|lia].
Qed.

Lemma coalesce_ok target l p db :
  labels_ok db -> (forall m, m ∈ p :: l -> placed db target m) -> NoDup (map mv_row (p :: l)) -> StronglySorted before (p :: l) ->
  exists kept : list MovedRange, let db' := coalesce p l db in labels_ok db' /\ same_tables db db' /\
    (forall r, r ∈ ranges db' <-> (r ∈ ranges db /\ r ∉ map mv_row (p :: l)) \/ r ∈ map mv_row kept) /\
    (forall k t d f v, labelled db' k t d f v <-> labelled db k t d f v) /\
    (forall m, m ∈ kept -> placed db' target m) /\ StronglySorted before kept /\ Sorted (fun a b => keep_apart a b = true) kept /\
    NoDup (map mv_row kept) /\ (forall m, m ∈ kept -> exists x, x ∈ p :: l /\ rg_id (mv_row x) = rg_id (mv_row m)) /\
    match kept with [] => False | k :: _ => same_head p k end.
Proof.
  revert p db. induction l as [|c l IH]; intros p db Hdb Hpl Hnd Hs.
  - exists [p]. split; [done|]. split; [split_and!; (done || lia)|]. split; [|split; [done|split; [exact Hpl|split; [repeat constructor|split; [repeat constructor|split; [done|split; [|done]]]]]]; intros m Hm; by exists m].
    intros r. cbn. rewrite list_elem_of_singleton. split; [|intros [[? _]| ->]; [done|by apply (pl_row _ target), Hpl; left]].
    destruct (decide (r = mv_row p)); [by right|by left].
  - cbn [coalesce]. pose proof (Hpl p ltac:(by left)) as Hp. pose proof (Hpl c ltac:(right; by left)) as Hc. cbn [map] in Hnd. apply NoDup_cons in Hnd as [Hnp Hnd].
    inversion Hs as [|? ? Hs' Hall]; subst. inversion Hall as [|? ? Hpc Hpl']; subst. destruct (keep_apart p c) eqn:Hk.
    + destruct (IH c db Hdb) as (kept & H1 & H2 & H3 & H4 & H5 & H6 & H7 & Hn & Hids & H8); [intros m Hm; apply Hpl; by right|done|done|]. set (db' := coalesce c l db) in *.
      exists (p :: kept). split; [done|]. split; [done|]. destruct kept as [|k ks]; [done|]. split; [|split; [done|split; [|split; [|split; [|split; [|split; [|done]]]]]]].
      * intros r. rewrite H3. cbn [map]. rewrite !elem_of_cons. cbn [map] in Hnp. rewrite elem_of_cons in Hnp. destruct (decide (r = mv_row p)) as [->|Hr]; [|tauto].
        pose proof (pl_row _ _ _ Hp). tauto.
      * intros m [->|Hm]%elem_of_cons; [|by apply H5]. destruct Hp as [P1 P2 P3 P4 P5 P6]. split; [apply H3; by left|by rewrite (custom_same db db')|done..].
      * constructor; [done|]. apply Forall_forall. assert (before p k) as Hk0 by (destruct H8 as (E1 & _ & E3); unfold before in *; rewrite <- E1, <- E3; exact Hpc).
        inversion H6 as [|? ? _ Hks]; subst. rewrite Forall_forall in Hks. intros m [->|Hm]%elem_of_cons; [done|]. by etransitivity; [|apply Hks].
      * constructor; [done|]. constructor. rewrite <- Hk. symmetry. by apply keep_apart_head.
      * apply (NoDup_cons_2 (mv_row p) (map mv_row (k :: ks))); [|done]. intros (m & He & Hm)%elem_of_map. destruct (Hids m Hm) as (x & Hx & Hid). apply Hnp.
        change (mv_row p ∈ map mv_row (c :: l)). apply elem_of_map. exists x. split; [|done].
        apply (range_same_id db); [apply Hdb|apply Hp|by apply (pl_row _ target), Hpl; right|congruence].
      * intros m [->|Hm]%elem_of_cons; [exists p; split; [by left|done]|]. destruct (Hids m Hm) as (x & Hx & Hid). exists x. split; [by right|done].
    + pose proof (meeting db target p c Hdb Hp Hc Hpc Hk) as Htouch. assert (mv_row p <> mv_row c) as Hne by (intros He; apply Hnp; rewrite He; by left).
      destruct (absorb_ok (mv_row p) (mv_row c) db Hdb) as (Hdb1 & Hst1 & Hin1 & Hl1); [apply Hp|apply Hc|apply Hp|apply Hc|done|done|].
      destruct (grown_ok (mv_row p) (mv_row c)) as (_ & Hgf & Hgl & Hgh); [apply (lo_rows db Hdb); apply Hp|apply (lo_rows db Hdb); apply Hc|done|].
      pose proof Hp as [P1 P2 P3 P4 P5 P6]. pose proof Hc as [_ _ _ _ _ C6]. rewrite P5, P6, C6. fold (grown (mv_row p) (mv_row c)).
      change (delete_where _ _) with (absorb (mv_row p) (mv_row c) db). set (g := grown (mv_row p) (mv_row c)) in *. set (db1 := absorb _ _ db) in *.
      set (p' := mkMovedRange g (mv_start p) (Z.max (rhigh (mv_row p)) (rhigh (mv_row c)))).
      cbn [map] in Hnd. apply NoDup_cons in Hnd as [Hnc Hnd]. apply not_elem_of_cons in Hnp as [_ Hnp].
      assert (forall r, r ∈ ranges db -> r <> mv_row p -> r <> g) as Hgr by (intros r Hr Hrp ->; apply Hrp; by apply (range_same_id db); [apply Hdb|..]).
      assert (forall m, m ∈ l -> mv_row m ∈ ranges db /\ mv_row m <> mv_row p /\ mv_row m <> mv_row c) as Hrest.
      { intros m Hm. assert (mv_row m ∈ map mv_row l) as Hin by (apply list_elem_of_In, in_map_iff; exists m; by rewrite <- list_elem_of_In).
        split; [apply (pl_row _ target), Hpl; right; by right|]. by split; intros He; rewrite He in Hin. }
      destruct (IH p' db1 Hdb1) as (kept & H1 & H2 & H3 & H4 & H5 & H6 & H7 & Hn & Hids & H8).
      * intros m [->|Hm]%elem_of_cons; [split; [apply Hin1; by right|by rewrite (custom_same db db1)|done|cbn; congruence|cbn; congruence|done]|].
        destruct (Hpl m ltac:(right; by right)) as [M1 M2 M3 M4 M5 M6]. split; [apply Hin1; left; by apply Hrest|by rewrite (custom_same db db1)|done..].
      * apply (NoDup_cons_2 g (map mv_row l)); [|done]. intros (m & He & Hm)%elem_of_map. destruct (Hrest m Hm) as (M1 & M2 & _). by apply (Hgr _ M1 M2).
      * inversion Hs' as [|? ? Hsl _]; subst. constructor; [done|]. exact Hpl'.
      * exists kept. split; [done|]. split; [by eapply tables_trans|]. split; [|split; [intros; by rewrite H4, Hl1|split; [done|split; [done|split; [done|split; [done|split; [|done]]]]]]].
        2: { intros m Hm. destruct (Hids m Hm) as (x & [->|Hx]%elem_of_cons & Hid); [exists p; split; [by left|done]|exists x; split; [right; by right|done]]. }
        intros r. rewrite H3, Hin1. cbn [map p' mv_row]. rewrite !not_elem_of_cons. pose proof (Hgr r). tauto.
Qed.

Lemma insert_by_lex {A} (k : A -> Z) (R : A -> A -> Prop) x acc :
  let lex := fun a b => k a < k b \/ (k a = k b /\ R a b) in
  StronglySorted lex acc -> (forall y, y ∈ acc -> R y x) -> StronglySorted lex (insert_by k x acc).
Proof.
  intros lex Hs. induction Hs as [|y l Hs IH Hy]; intros Hx; [repeat constructor|]. cbn [insert_by]. rewrite Forall_forall in Hy. destruct (Z.ltb_spec (k x) (k y)) as [Hlt|Hge].
  - constructor; [constructor; [done|by apply Forall_forall]|]. apply Forall_forall. intros z [->|Hz]%elem_of_cons; [by left|]. left. destruct (Hy z Hz); lia.
  - constructor; [apply IH; intros; apply Hx; by right|]. apply Forall_forall. intros z Hz. rewrite (insert_by_perm k x l) in Hz. apply elem_of_cons in Hz as [->|Hz]; [|by apply Hy].
    destruct (Z.eq_dec (k y) (k x)); [right; split; [done|apply Hx; by left]|left; lia].
Qed.

(** Sorting by another key keeps the order of equal keys. *)
Lemma sort_by_stable {A} (k : A -> Z) (R : A -> A -> Prop) l : StronglySorted R l -> StronglySorted (fun a b => k a < k b \/ (k a = k b /\ R a b)) (sort_by k l).
Proof.
  intros Hs. unfold sort_by. assert (forall acc, StronglySorted (fun a b => k a < k b \/ (k a = k b /\ R a b)) acc -> (forall y x, y ∈ acc -> x ∈ l -> R y x) ->
    StronglySorted (fun a b => k a < k b \/ (k a = k b /\ R a b)) (fold_left (fun acc x => insert_by k x acc) l acc)) as H; [|apply H; [constructor|by intros y x ?%elem_of_nil]].
  induction Hs as [|x l Hs IH Hx]; intros acc Hacc Hb; [done|]. cbn [fold_left]. rewrite Forall_forall in Hx. apply IH.
  - apply insert_by_lex; [done|]. intros y Hy. apply Hb; [done|by left].
  - intros y z Hy Hz. rewrite (insert_by_perm k x acc) in Hy. apply elem_of_cons in Hy as [->|Hy]; [by apply Hx|]. apply Hb; [done|by right].
Qed.

(** After the pass no row is continued by another of the same label. *)
Lemma adjacent_normal kept :
  Sorted (fun a b => keep_apart a b = true) kept -> StronglySorted before kept ->
  (forall a b, a ∈ kept -> b ∈ kept -> a_family (mv_start a) = a_family (mv_start b)) ->
  (forall a, a ∈ kept -> a_value (mv_start a) <= mv_end a) ->
  ForallOrdPairs (fun a b => spans_apart (a_value (mv_start a), mv_end a) (a_value (mv_start b), mv_end b)) kept ->
  forall a b, a ∈ kept -> b ∈ kept -> rg_type (mv_row a) = rg_type (mv_row b) -> rg_description (mv_row a) = rg_description (mv_row b) ->
    mv_end a + 1 <> a_value (mv_start b).
Proof.
  intros Hadj Hs Hfam Hord Hap. induction Hap as [|x l Hx Hap IH]; [by intros a b ?%elem_of_nil|]. inversion Hadj as [|? ? Hadj' Hhd]; subst. inversion Hs as [|? ? Hs' Hbx]; subst.
  rewrite Forall_forall in Hx, Hbx. intros a b [->|Ha]%elem_of_cons [->|Hb]%elem_of_cons Ht Hd Hend.
  - pose proof (Hord x ltac:(by left)). lia.
  - destruct l as [|y l]; [by apply elem_of_nil in Hb|]. inversion Hhd as [|? ? Hk]; subst. pose proof (Hbx y ltac:(by left)) as Hxy. pose proof (Hx y ltac:(by left)) as Hay.
    pose proof (Hord x ltac:(by left)). pose proof (Hord y ltac:(right; by left)). apply elem_of_cons in Hb as [->|Hb].
    + unfold keep_apart in Hk. rewrite Ht, Hd, (Hfam x y), !Z.eqb_refl, bool_decide_eq_true_2 in Hk by (done || by left || (right; by left)). cbn in Hk. apply Z.ltb_lt in Hk. lia.
    + inversion Hs' as [|? ? _ Hby]; subst. rewrite Forall_forall in Hby. specialize (Hby b Hb). inversion Hap as [|? ? Hyl _]; subst. rewrite Forall_forall in Hyl. specialize (Hyl b Hb).
      pose proof (Hord b ltac:(right; by right)). unfold before, spans_apart in *. cbn in *. lia.
  - specialize (Hbx a Ha). pose proof (Hord a ltac:(by right)). unfold before in Hbx. lia.
  - revert Hend. apply IH; try done; [intros c d Hc Hd'; apply Hfam; by right|intros c Hc; apply Hord; by right].
Qed.

(** ** Lemmas: the move *)

(** The custom rows of the parts and of the place they move to. *)
Record movable (db : RangeDb) (sources : list Z) (target f : Z) : Prop := {
  mb_target : target ∉ sources;
  mb_empty : forall r, r ∈ ranges db -> is_custom db r = true -> rg_subnet r <> target;
  mb_family : forall r, r ∈ ranges db -> is_custom db r = true -> rg_subnet r ∈ sources -> rfam r = f;
  mb_clear : forall r r', r ∈ ranges db -> r' ∈ ranges db -> is_custom db r = true -> is_custom db r' = true ->
    rg_subnet r ∈ sources -> rg_subnet r' ∈ sources -> rg_subnet r <> rg_subnet r' -> clear_of r r' }.

Lemma in_sources sources k : existsb (Z.eqb k) sources = true <-> k ∈ sources.
Proof. rewrite existsb_exists, list_elem_of_In. setoid_rewrite Z.eqb_eq. naive_solver. Qed.

Lemma relabel_spec sources target db r :
  relabel sources target db r = r /\ ~ (rg_subnet r ∈ sources /\ is_custom db r = true) \/
  relabel sources target db r = set_subnet target r /\ rg_subnet r ∈ sources /\ is_custom db r = true.
Proof.
  unfold relabel. rewrite <- in_sources. destruct (existsb (Z.eqb (rg_subnet r)) sources), (is_custom db r); cbn; intuition congruence.
Qed.

Lemma relabel_ok db sources target f :
  labels_ok db -> movable db sources target f ->
  let db1 := with_ranges db (map (relabel sources target db) (ranges db)) in
  labels_ok db1 /\ same_tables db db1 /\ (forall r, is_custom db r = false -> r ∈ ranges db1 <-> r ∈ ranges db) /\
  (forall r, r ∈ ranges db1 -> is_custom db r = true -> rg_subnet r = target -> rfam r = f) /\
  (forall k t d g v, labelled db1 k t d g v <-> (k = target /\ exists s, s ∈ sources /\ labelled db s t d g v) \/ (k ∉ sources /\ labelled db k t d g v)).
Proof.
  intros Hdb [Hts Hempty Hfam Hclear] db1. assert (same_tables db db1) as Hst by (split_and!; cbn; (done || lia)).
  assert (forall r, r ∈ ranges db1 <-> exists x, r = relabel sources target db x /\ x ∈ ranges db) as Hin.
  { intros r. cbn. rewrite list_elem_of_In, in_map_iff. setoid_rewrite <- list_elem_of_In. split; [intros (x & <- & Hx)|intros (x & -> & Hx)]; by exists x. }
  assert (forall x, rg_id (relabel sources target db x) = rg_id x) as Hid by (intros x; by destruct (relabel_spec sources target db x) as [[-> _]|[-> _]]).
  assert (forall x, is_custom db (relabel sources target db x) = is_custom db x) as Hcu by (intros x; by destruct (relabel_spec sources target db x) as [[-> _]|[-> _]]).
  assert (forall x, is_custom db x = true -> x ∈ ranges db -> label_ok (relabel sources target db x)) as Hlab.
  { intros x Hc Hx. pose proof (lo_rows db Hdb x Hx Hc) as Hl. destruct (relabel_spec sources target db x) as [[-> _]|[-> _]]; [done|by destruct Hl]. }
  split; [split; [split| |]|split; [done|split; [|split]]].
  - cbn. rewrite map_map. rewrite (map_ext _ rg_id) by done. apply Hdb.
  - intros r (x & -> & Hx)%Hin. rewrite Hid. by apply (db_next db (lo_db db Hdb)).
  - intros r (x & -> & Hx)%Hin Hc. rewrite (custom_same db db1), Hcu in Hc by done. by apply Hlab.
  - intros r r' (x & -> & Hx)%Hin (y & -> & Hy)%Hin Hc Hc' Hs Hne. rewrite (custom_same db db1), Hcu in Hc, Hc' by done.
    assert (x <> y) as Hxy by congruence. pose proof (Hempty x Hx Hc). pose proof (Hempty y Hy Hc'). pose proof (lo_clear db Hdb x y Hx Hy Hc Hc') as Hsame.
    pose proof (Hclear x y Hx Hy Hc Hc') as Hdiff.
    destruct (relabel_spec sources target db x) as [[Ex Nx]|(Ex & Sx & _)], (relabel_spec sources target db y) as [[Ey Ny]|(Ey & Sy & _)]; rewrite Ex, Ey in Hs |- *;
      [by apply Hsame|done|done|]. destruct (decide (rg_subnet x = rg_subnet y)) as [He|He]; [by apply Hsame|by apply Hdiff].
  - intros r Hc. rewrite Hin. split.
    + intros (x & -> & Hx). rewrite Hcu in Hc. destruct (relabel_spec sources target db x) as [[-> _]|(_ & _ & ?)]; [done|congruence].
    + intros Hr. exists r. split; [|done]. destruct (relabel_spec sources target db r) as [[-> _]|(_ & _ & ?)]; [done|congruence].
  - intros r (x & -> & Hx)%Hin Hc Hs. rewrite Hcu in Hc. destruct (relabel_spec sources target db x) as [[E _]|(E & Sx & _)]; rewrite E in Hs |- *; [by destruct (Hempty x Hx Hc)|exact (Hfam x Hx Hc Sx)].
  - intros k t d g v. unfold labelled. split.
    + intros (r & (x & -> & Hx)%Hin & Hc & Hs & Ht & Hd & Hv). rewrite (custom_same db db1), Hcu in Hc by done.
      destruct (relabel_spec sources target db x) as [[E N]|(E & Sx & _)]; rewrite E in Hs, Ht, Hd, Hv.
      * right. split; [intros Hk; apply N; split; [by rewrite Hs|done]|]. by exists x.
      * left. split; [done|]. exists (rg_subnet x). split; [done|]. by exists x.
    + intros [(-> & s & Hs & x & Hx & Hc & Hxs & H)|(Hk & x & Hx & Hc & Hxs & H)]; exists (relabel sources target db x);
        (split; [apply Hin; by exists x|]; split; [by rewrite (custom_same db db1), Hcu|]); destruct (relabel_spec sources target db x) as [[-> N]|(-> & Sx & _)]; try done.
      * destruct N. by rewrite Hxs.
      * destruct Hk. by rewrite <- Hxs.
Qed.

(** The rows with a function stay. *)
Definition same_functional (db db' : RangeDb) : Prop := forall r, is_custom db r = false -> r ∈ ranges db' <-> r ∈ ranges db.

(** No two rows of one label continue each other. *)
Definition normal (db : RangeDb) (target : Z) : Prop :=
  forall r r', r ∈ ranges db -> r' ∈ ranges db -> is_custom db r = true -> is_custom db r' = true -> rg_subnet r = target -> rg_subnet r' = target ->
    rg_type r = rg_type r' -> rg_description r = rg_description r' -> rhigh r + 1 <> rlow r'.

Definition moved_of (r : RangeRow) : MovedRange :=
  mkMovedRange r (match addressToBig (rg_start r) with Ok a => a | Err _ => mkAddress 0 0 0 end) (rhigh r).

Lemma moved_of_ok r : label_ok r -> moved_range r = Ok (moved_of r) /\ a_value (mv_start (moved_of r)) = rlow r /\ a_family (mv_start (moved_of r)) = rfam r.
Proof.
  intros (b & c & Hs & He)%label_addresses. unfold moved_range, moved_of. rewrite Hs, He. done.
Qed.

(** One pass over the rows of a network whose labels are of one family. *)
Lemma pass_ok db target f :
  labels_ok db -> (forall r, r ∈ ranges db -> is_custom db r = true -> rg_subnet r = target -> rfam r = f) ->
  exists ms, map_result moved_range (merge_sort row_before (custom_rows db (Z.eqb target))) = Ok ms /\
    let db' := match sort_by (fun m => rg_type (mv_row m)) (sort_by (fun m => a_value (mv_start m)) ms) with [] => db | m :: l => coalesce m l db end in
    labels_ok db' /\ same_tables db db' /\ same_functional db db' /\ (forall k t d g v, labelled db' k t d g v <-> labelled db k t d g v) /\ normal db' target.
Proof.
  intros Hdb Hf. set (rows := merge_sort row_before _). assert (rows ≡ₚ custom_rows db (Z.eqb target)) as Hp by apply merge_sort_Permutation.
  assert (forall r, r ∈ rows <-> r ∈ ranges db /\ rg_subnet r = target /\ is_custom db r = true) as Hrows by (intros r; rewrite Hp, custom_rows_elem, Z.eqb_eq; naive_solver).
  assert (forall r, r ∈ rows -> label_ok r) as Hlab by (intros r (Hr & _ & Hc)%Hrows; by apply (lo_rows db Hdb)).
  exists (map moved_of rows). split; [apply map_result_ok, Forall_forall; intros r Hr; by apply moved_of_ok, Hlab|]. set (ms := sort_by _ (sort_by _ _)).
  assert (ms ≡ₚ map moved_of rows) as Hms by (unfold ms; by rewrite !sort_by_perm).
  assert (StronglySorted before ms) as Hs.
  { apply (sort_by_stable (fun m => rg_type (mv_row m)) (fun a b => a_value (mv_start a) <= a_value (mv_start b))), sort_by_sorted. }
  assert (NoDup (map mv_row ms)) as Hnd.
  { rewrite Hms, map_map. cbn. rewrite map_id, Hp. apply filter_nodup_rows, nodup_rows, Hdb. }
  assert (forall r, r ∈ map mv_row ms <-> r ∈ rows) as Hmr by (intros r; rewrite Hms, map_map; cbn; by rewrite map_id).
  assert (forall m, m ∈ ms -> placed db target m) as Hpl.
  { intros m Hm. rewrite Hms in Hm. apply list_elem_of_In, in_map_iff in Hm as (r & <- & Hr). apply list_elem_of_In in Hr. destruct (moved_of_ok r (Hlab r Hr)) as (_ & ? & ?). apply Hrows in Hr as (? & ? & ?). by split. }
  destruct ms as [|m l].
  - split; [done|]. split; [split_and!; (done || lia)|]. split; [done|]. split; [done|]. intros r r' Hr _ Hc _ Hrs. assert (r ∈ rows) as H by by apply Hrows. apply Hmr in H. by apply elem_of_nil in H.
  - destruct (coalesce_ok target l m db Hdb Hpl Hnd Hs) as (kept & H1 & H2 & H3 & H4 & H5 & H6 & H7 & Hkn & _). set (db' := coalesce m l db) in *. split; [done|]. split; [done|].
    assert (forall k, k ∈ map mv_row kept -> exists x, x ∈ kept /\ k = mv_row x) as Hkept by (intros k (x & <- & Hx)%list_elem_of_In%in_map_iff; exists x; by rewrite list_elem_of_In).
    split; [|split; [done|]].
    + intros r Hc. rewrite H3. split; [intros [[? _]|(x & Hx & ->)%Hkept]; [done|]|intros Hr; left; split; [done|]].
      * pose proof (pl_custom _ _ _ (H5 x Hx)) as Hxc. rewrite (custom_same db db') in Hxc by done. congruence.
      * rewrite Hmr, Hrows. intros (_ & _ & ?). congruence.
    + assert (forall r, r ∈ ranges db' -> is_custom db' r = true -> rg_subnet r = target -> exists x, x ∈ kept /\ r = mv_row x) as Hall.
      { intros r [[Hr Hno]|Hr]%H3 Hc Hrs; [|by apply Hkept]. rewrite (custom_same db db') in Hc by done. destruct Hno. by apply Hmr, Hrows. }
      intros r r' Hr Hr' Hc Hc' Hrs Hrs' Ht Hd. destruct (Hall r Hr Hc Hrs) as (a & Ha & ->), (Hall r' Hr' Hc' Hrs') as (b & Hb & ->).
      rewrite <- (pl_end _ _ _ (H5 a Ha)), <- (pl_start _ _ _ (H5 b Hb)).
      assert (forall x, x ∈ kept -> a_family (mv_start x) = f /\ a_value (mv_start x) <= mv_end x) as Hfam.
      { intros x Hx. destruct (H5 x Hx) as [X1 X2 X3 X4 X5 X6]. pose proof (lb_order _ (lo_rows db' H1 _ X1 X2)). split; [|lia]. rewrite X5.
        destruct (proj1 (H4 target (rg_type (mv_row x)) (rg_description (mv_row x)) (rfam (mv_row x)) (rlow (mv_row x)))) as (u & Hu & Huc & Hus & _ & _ & Huf & _); [|by rewrite <- Huf; apply Hf].
        exists (mv_row x). split_and!; (done || lia). }
      apply (adjacent_normal kept); [done|done| |intros x Hx; by apply Hfam| |done|done|done|done].
      * intros x y Hx Hy. by rewrite (proj1 (Hfam x Hx)), (proj1 (Hfam y Hy)).
      * apply ordered_pairs; [by apply (NoDup_fmap_1 mv_row)|]. intros x y Hx Hy Hxy. destruct (H5 x Hx) as [X1 X2 X3 X4 X5 X6], (H5 y Hy) as [Y1 Y2 Y3 Y4 Y5 Y6].
        rewrite X4, X6, Y4, Y6. apply (lo_clear db' H1); try done; [congruence| |rewrite <- X5, <- Y5; by rewrite (proj1 (Hfam x Hx)), (proj1 (Hfam y Hy))].
        intros He. apply Hxy. by apply (nodup_map_inj mv_row kept).
Qed.

Lemma move_ok db sources target f :
  labels_ok db -> movable db sources target f ->
  exists db', moveCustomRangesToSubnet db sources target = Ok db' /\ labels_ok db' /\ same_tables db db' /\ same_functional db db' /\ normal db' target /\
    (forall k t d g v, labelled db' k t d g v <-> (k = target /\ exists s, s ∈ sources /\ labelled db s t d g v) \/ (k ∉ sources /\ labelled db k t d g v)).
Proof.
  intros Hdb Hm. unfold moveCustomRangesToSubnet. destruct sources as [|s0 sources0] eqn:Hsrc.
  - exists db. split; [done|]. split; [done|]. split; [split_and!; (done || lia)|]. split; [done|]. split; [intros r r' Hr _ Hc _ Hrs; by destruct (mb_empty _ _ _ _ Hm r Hr Hc)|].
    intros k t d g v. split; [intros H; right; split; [apply not_elem_of_nil|done]|]. by intros [(_ & s & ?%elem_of_nil & _)|[_ ?]].
  - rewrite <- Hsrc in *. destruct (relabel_ok db sources target f Hdb Hm) as (H1 & H2 & H3 & H4 & H5). set (db1 := with_ranges db _) in *.
    destruct (pass_ok db1 target f H1) as (ms & -> & K1 & K2 & K3 & K4 & K5); [intros r Hr Hc; rewrite (custom_same db db1) in Hc by done; by apply H4|]. cbn [mbind result_bind mret result_ret].
    eexists. split; [done|]. split; [exact K1|]. split; [by eapply tables_trans|]. split; [|split; [done|]].
    + intros r Hc. rewrite (K3 r), (H3 r Hc); [done|]. by rewrite (custom_same db db1).
    + intros k t d g v. by rewrite K4, H5.
Qed.

Lemma delete_all_ok ids db :
  labels_ok db -> let db' := fold_left (fun db id => deleteRangesForSubnet id db) ids db in
  labels_ok db' /\ same_tables db db' /\ forall r, r ∈ ranges db' <-> r ∈ ranges db /\ rg_subnet r ∉ ids.
Proof.
  revert db. induction ids as [|id ids IH]; intros db Hdb db'.
  - split; [done|]. split; [split_and!; (done || lia)|]. intros r. split; [intros ?; split; [done|apply not_elem_of_nil]|by intros [? _]].
  - destruct (delete_labels (fun r => rg_subnet r =? id) db Hdb) as (H1 & H2 & H3). destruct (IH _ H1) as (K1 & K2 & K3). split; [exact K1|]. split; [by eapply tables_trans|].
    intros r. unfold db'. cbn [fold_left]. unfold deleteRangesForSubnet at 2. rewrite K3, H3, Z.eqb_neq, not_elem_of_cons. tauto.
Qed.

Lemma merge_ok db sources target f n g :
  labels_ok db -> types_ok db -> movable db sources target f ->
  exists db', merge_ranges db sources target n g = Ok db' /\ labels_ok db' /\ range_types db' = range_types db /\ normal db' target /\
    (forall k t d f v, labelled db' k t d f v <-> (k = target /\ exists s, s ∈ sources /\ labelled db s t d f v) \/ (k ∉ sources /\ labelled db k t d f v)).
Proof.
  intros Hdb Ht Hm. unfold merge_ranges. destruct (move_ok db sources target f Hdb Hm) as (db1 & -> & H1 & H2 & H3 & H4 & H5). cbn [lift_move mbind result_bind].
  destruct (delete_all_ok sources db1 H1) as (K1 & K2 & K3). set (db2 := fold_left _ sources db1) in *. pose proof (tables_trans _ _ _ H2 K2) as Hst.
  destruct (create_system_ok db2 target n g K1) as (db3 & -> & [L1 L2 _ L4]); [eapply types_same; [apply Hst|done]|]. exists db3. split; [done|]. split; [done|].
  split; [rewrite (proj1 L2); apply Hst|]. assert (forall r, is_custom db1 r = true -> r ∈ ranges db2 <-> r ∈ ranges db1) as Hsame2.
  { intros r Hc. rewrite K3. split; [by intros [? _]|]. intros Hr. split; [done|]. intros Hs.
    destruct (proj1 (H5 (rg_subnet r) (rg_type r) (rg_description r) (rfam r) (rlow r))) as [(He & _)|[Hn _]]; [|by rewrite He in Hs; apply (mb_target _ _ _ _ Hm)|done].
    pose proof (lb_order r (lo_rows db1 H1 r Hr Hc)). exists r. split_and!; (done || lia). }
  assert (same_labels db1 db3) as Hsame3.
  { intros r Hc. rewrite (L4 r), (Hsame2 r Hc); [done|]. by rewrite (custom_same db1 db2). }
  split.
  - intros r r' Hr Hr' Hc Hc'. rewrite (custom_same db2 db3), (custom_same db1 db2) in Hc, Hc' by done. apply H4; [by apply (Hsame3 r)|by apply (Hsame3 r')|done|done].
  - intros k t d f' v. rewrite <- H5. apply labelled_same; [rewrite (proj1 L2); apply K2|done].
Qed.

(** ** What a division and a merge promise *)

(** The labels of [p] lie in its network. *)
Definition labels_inside (db : RangeDb) (p : Z) (n : Network) : Prop := forall t d f v, labelled db p t d f v -> covers n f v.

(** A division into [children]: new ids, blocks of the network. *)
Record dividing (db : RangeDb) (p : Z) (n : Network) (children : list Child) : Prop := {
  dv_labels : labels_ok db;
  dv_types : types_ok db;
  dv_network : wf_network n /\ mapped_free n;
  dv_inside : labels_inside db p n;
  dv_partition : partition n (map ch_net children);
  dv_ids : NoDup (map ch_id children) /\ p ∉ map ch_id children;
  dv_fresh : forall r, r ∈ ranges db -> is_custom db r = true -> rg_subnet r ∉ map ch_id children }.

Lemma dividing_ok db p n children :
  dividing db p n children ->
  exists db', divide_ranges db p children = Ok db' /\ labels_ok db' /\ range_types db' = range_types db /\
    (forall k t d f v, k <> p -> k ∉ map ch_id children -> labelled db' k t d f v <-> labelled db k t d f v) /\
    (forall r, r ∈ ranges db' -> rg_subnet r <> p) /\
    (forall c t d f v, c ∈ children -> labelled db' (ch_id c) t d f v <-> covers (ch_net c) f v /\ labelled db p t d f v) /\
    (forall t d f v, labelled db p t d f v <-> exists c, c ∈ children /\ labelled db' (ch_id c) t d f v).
Proof.
  intros [Hdb Ht [Hn Hm] Hin Hp [Hnd Hpn] Hfresh]. assert (forall c, c ∈ children -> ch_net c ∈ map ch_net children) as Hmap by (intros c Hc; apply elem_of_map; eauto).
  destruct (divide_ok db p children Hdb Ht) as (db' & Hrun & H1 & H2 & H3 & H4 & H5); [|done|done|].
  { intros c Hc. split; [by apply (partition_elem _ _ Hp), Hmap|]. split; [by eapply partition_mapped_free; [..|apply Hmap]|]. intros He. apply Hpn. rewrite <- He. apply elem_of_map. eauto. }
  exists db'. split; [done|]. split; [done|]. split; [done|]. split; [|split; [done|split; [done|]]].
  - intros k t d f v Hk Hkc. unfold labelled. split; intros (r & Hr & Hc & Hs & H); exists r; [rewrite (is_custom_types db db') in Hc by done|rewrite (is_custom_types db db') by done];
      (split; [apply H3; [congruence|by rewrite Hs|done]|done]).
  - intros t d f v. split.
    + intros Hl. destruct (partition_cover _ _ Hp f v (Hin t d f v Hl)) as (m & (c & -> & Hc)%elem_of_map & Hcov & _). exists c. split; [done|]. by apply H5.
    + intros (c & Hc & Hl). by apply H5 in Hl as [_ ?].
Qed.

(** A division strands no label: every address of the divided network
    keeps its type and description in the child that covers it, no child gets
    a label it should not have, and the other networks are left alone. *)
Theorem division_keeps_labels db p n children :
  dividing db p n children ->
  exists db', divide_ranges db p children = Ok db' /\ labels_ok db' /\
    (forall t d f v, labelled db p t d f v <-> exists c, c ∈ children /\ labelled db' (ch_id c) t d f v) /\
    (forall c t d f v, c ∈ children -> labelled db' (ch_id c) t d f v -> covers (ch_net c) f v) /\
    (forall k t d f v, k <> p -> k ∉ map ch_id children -> labelled db' k t d f v <-> labelled db k t d f v) /\
    forall t d f v, ~ labelled db' p t d f v.
Proof.
  intros H. destruct (dividing_ok db p n children H) as (db' & Hrun & H1 & _ & H3 & H4 & H5 & H6). exists db'. split; [done|]. split; [done|]. split; [done|]. split; [|split; [done|]].
  - intros c t d f v Hc Hl. by apply H5 in Hl as [? _].
  - intros t d f v (r & Hr & _ & Hs & _). by apply (H4 r Hr).
Qed.

(** A merge keeps every label of its parts, on the merged network, and
    stores them as few rows as it can: no two rows of the same type and
    description continue each other. *)
Theorem merge_keeps_labels db sources target f n g :
  labels_ok db -> types_ok db -> movable db sources target f ->
  exists db', merge_ranges db sources target n g = Ok db' /\ labels_ok db' /\ normal db' target /\
    (forall t d f v, labelled db' target t d f v <-> exists s, s ∈ sources /\ labelled db s t d f v) /\
    (forall k t d f v, k <> target -> labelled db' k t d f v <-> k ∉ sources /\ labelled db k t d f v).
Proof.
  intros Hdb Ht Hm. destruct (merge_ok db sources target f n g Hdb Ht Hm) as (db' & Hrun & H1 & _ & H3 & H4). exists db'. split; [done|]. split; [done|]. split; [done|]. split.
  - intros t d f' v. rewrite H4. split; [|by left; split]. intros [[_ ?]|[_ (r & Hr & Hc & Hs & _)]]; [done|]. by destruct (mb_empty _ _ _ _ Hm r Hr Hc).
  - intros k t d f' v Hk. rewrite H4. tauto.
Qed.

Lemma custom_labelled db r : labels_ok db -> r ∈ ranges db -> is_custom db r = true ->
  forall v, rlow r <= v <= rhigh r -> labelled db (rg_subnet r) (rg_type r) (rg_description r) (rfam r) v.
Proof. intros Hdb Hr Hc v Hv. exists r. split_and!; (done || lia). Qed.

(** What a division leaves can be merged again. *)
Lemma divided_movable db p n children db1 :
  dividing db p n children -> divide_ranges db p children = Ok db1 -> movable db1 (map ch_id children) p (family n).
Proof.
  intros Hd Hrun. destruct (dividing_ok db p n children Hd) as (db' & Hrun' & H1 & _ & _ & H4 & H5 & _). rewrite Hrun in Hrun'. injection Hrun' as <-. destruct Hd as [_ _ _ _ Hp [Hnd Hpn] _].
  assert (forall r, r ∈ ranges db1 -> is_custom db1 r = true -> rg_subnet r ∈ map ch_id children ->
    exists c, c ∈ children /\ rg_subnet r = ch_id c /\ forall v, rlow r <= v <= rhigh r -> covers (ch_net c) (rfam r) v) as Hcov.
  { intros r Hr Hc (c & Hs & Hcc)%elem_of_map. exists c. split; [done|]. split; [done|]. intros v Hv. pose proof (custom_labelled db1 r H1 Hr Hc v Hv) as Hl. rewrite Hs in Hl. by apply (H5 c) in Hl as [? _]. }
  split; [done|by intros r Hr _; apply H4| |].
  - intros r Hr Hc Hs. destruct (Hcov r Hr Hc Hs) as (c & Hcc & _ & Hv). pose proof (lb_order r (lo_rows db1 H1 r Hr Hc)). destruct (Hv (rlow r)) as [<- _]; [lia|].
    apply (partition_elem _ _ Hp). apply elem_of_map. eauto.
  - intros r r' Hr Hr' Hc Hc' Hs Hs' Hne Hf. destruct (Hcov r Hr Hc Hs) as (c & Hcc & Hsc & Hv), (Hcov r' Hr' Hc' Hs') as (c' & Hcc' & Hsc' & Hv').
    assert (apart (ch_net c) (ch_net c')) as Hap.
    { apply (partition_apart _ _ Hp); [apply elem_of_map; eauto|apply elem_of_map; eauto|]. intros He. apply Hne. rewrite Hsc, Hsc'. f_equal.
      apply (nodup_map_inj ch_net children); [apply (partition_NoDup _ _ Hp)|done|done|done]. }
    pose proof (lb_order r (lo_rows db1 H1 r Hr Hc)). pose proof (lb_order r' (lo_rows db1 H1 r' Hr' Hc')). unfold spans_apart. cbn.
    destruct (Z.lt_ge_cases (rhigh r) (rlow r')); [by left|right]. apply Z.nle_gt. intros Hle.
    apply (apart_covers _ _ (rfam r) (Z.max (rlow r) (rlow r')) Hap); [apply Hv; lia|]. rewrite Hf. apply Hv'. lia.
Qed.

(** C8. Dividing a network and merging the children again gives every
    address of every network the label it had, in rows that do not continue
    each other. *)
Theorem labels_round_trip db p n children m g :
  dividing db p n children ->
  exists db1 db2, divide_ranges db p children = Ok db1 /\ merge_ranges db1 (map ch_id children) p m g = Ok db2 /\ labels_ok db2 /\ normal db2 p /\
    forall k t d f v, labelled db2 k t d f v <-> labelled db k t d f v.
Proof.
  intros Hd. destruct (dividing_ok db p n children Hd) as (db1 & Hrun & H1 & H2 & H3 & _ & _ & H6). pose proof (divided_movable db p n children db1 Hd Hrun) as Hm.
  destruct (merge_ok db1 (map ch_id children) p (family n) m g H1) as (db2 & Hrun2 & K1 & _ & K3 & K4); [eapply types_same; [exact H2|apply Hd]|done|]. exists db1, db2. do 4 (split; [done|]).
  intros k t d f v. rewrite K4. destruct (decide (k = p)) as [->|Hk]; [|destruct (decide (k ∈ map ch_id children)) as [Hi|Hi]].
  - rewrite H6. split.
    + intros [(_ & s & (c & -> & Hc)%elem_of_map & Hl)|[_ (r & Hr & Hrc & Hs & _)]]; [by exists c|]. by destruct (mb_empty _ _ _ _ Hm r Hr Hrc).
    + intros (c & Hc & Hl). left. split; [done|]. exists (ch_id c). split; [apply elem_of_map; eauto|done].
  - split; [intros [[? _]|[? _]]; done|]. intros (r & Hr & Hrc & Hs & _). destruct (dv_fresh _ _ _ _ Hd r Hr Hrc). by rewrite Hs.
  - rewrite H3 by done. split; [intros [[? _]|[_ ?]]; done|by right].
Qed.

(** The networks of a valid table satisfy what the routes rely on. *)
Lemma tree_world w : tree_ok (rw_networks w) -> world_ok w.
Proof.
  intros Ht id sn Hsn%List.find_some. destruct Hsn as [Hin _]. apply list_elem_of_In in Hin. pose proof (ok_rows _ Ht sn Hin) as [Hp _ Hf _ _]. by exists (net_of sn).
Qed.

(** ** What a move leaves out of the history *)

Lemma fold_events {A E} (f : RangeDb -> A -> result E RangeDb) l db db' :
  (forall db a db', f db a = Ok db' -> range_events db' = range_events db) -> fold_result f l db = Ok db' -> range_events db' = range_events db.
Proof.
  intros Hf. revert db. induction l as [|a l IH]; intros db H; cbn in H; [by injection H as <-|].
  apply bind_range_ok in H as (db1 & H1 & H). rewrite (IH _ H). by eapply Hf.
Qed.

Lemma insert_unrecorded s name a d db db' : insert_system s name a d db = Ok db' -> range_events db' = range_events db.
Proof. intros H. unfold insert_system in H. apply bind_range_ok in H as (t & _ & [= <-]). done. Qed.

Lemma system_unrecorded db s n g db' : createSystemRanges db s n g = Ok db' -> range_events db' = range_events db.
Proof.
  unfold createSystemRanges. intros H. destruct (topologyAddresses n); [by injection H as <-|].
  apply bind_range_ok in H as (db1 & H1%insert_unrecorded & H). apply bind_range_ok in H as (db2 & H2 & H).
  assert (range_events db2 = range_events db1) as He2 by (destruct (or_null g); [by eapply insert_unrecorded|by injection H2 as <-]).
  rewrite <- H1, <- He2. destruct (family n =? 4); [by eapply insert_unrecorded|by injection H as <-].
Qed.

Lemma copy_unrecorded c n db r db' : copy_range c n db r = Ok db' -> range_events db' = range_events db.
Proof.
  unfold copy_range. intros H. apply bind_range_ok in H as (a & _ & H). apply bind_range_ok in H as (b & _ & H).
  destruct (negb _); unfold mret, result_ret in H; [by injection H as <-|]. cbv zeta in H. injection H as <-. by case_match.
Qed.

Lemma coalesce_unrecorded m l db : range_events (coalesce m l db) = range_events db.
Proof. revert m db. induction l as [|c l IH]; intros m db; cbn [coalesce]; [done|]. destruct (keep_apart m c); by rewrite IH. Qed.

(** A division and a merge move labels from network to network and record no
    event: the history of a network ([history_replays]) is that of the edits
    made to it. *)
Lemma moves_unrecorded db db' :
  (exists p children, divide_ranges db p children = Ok db') \/ (exists ids m n g, merge_ranges db ids m n g = Ok db') ->
  range_events db' = range_events db.
Proof.
  intros [(p & children & H)|(ids & m & n & g & H)].
  - apply bind_range_ok in H as (db1 & H & Hd). unfold mret, result_ret in Hd. injection Hd as <-. apply (fold_events (migrate_child p) children db db1); [|done].
    intros d c d' Hd. apply bind_range_ok in Hd as (d1 & H1%system_unrecorded & Hd). rewrite <- H1.
    unfold lift_move in Hd. destruct (copyUserRangesToChild _ _ _ _) as [d2|] eqn:E; [|done]. injection Hd as <-. unfold copyUserRangesToChild in E.
    by eapply fold_events, E; intros; eapply copy_unrecorded.
  - apply bind_range_ok in H as (db1 & Hm & H%system_unrecorded). rewrite H.
    assert (forall l d, range_events (fold_left (fun db id => deleteRangesForSubnet id db) l d) = range_events d) as ->.
    { intros l. induction l as [|i l IH]; intros d; [done|]. cbn. by rewrite IH. }
    unfold lift_move, moveCustomRangesToSubnet in Hm. destruct ids as [|i ids]; [by injection Hm as <-|]. cbv zeta in Hm.
    destruct (map_result _ _) as [moved|]; [|done]. cbn [mbind result_bind mret result_ret] in Hm. injection Hm as <-.
    by destruct (sort_by _ _); [|rewrite coalesce_unrecorded].
Qed.

(** ** Witnesses *)

Definition boundary_types : list RangeType := [mkRangeType 1 "Network" true; mkRangeType 2 "Gateway" true; mkRangeType 3 "Broadcast" true; mkRangeType 8 "Printers" false; mkRangeType 9 "Cameras" false].

Definition whole : Network := buildNetwork 167772160 32 4 24.
Definition halves : list Child := [mkChild 2 (buildNetwork 167772160 32 4 25) (Some "10.0.0.1"); mkChild 3 (buildNetwork 167772288 32 4 25) (Some "10.0.0.129")].

(** Printers lie on both sides of the cut. *)
Definition before_cut : RangeDb := mkRangeDb [mkRangeRow 1 1 8 "10.0.0.120" "10.0.0.140" (Some "floor 1")] 2 boundary_types [].

Definition or_none (m : result move_error RangeDb) : RangeDb := match m with Ok db => db | Err _ => fresh [] end.

Definition after_cut : RangeDb := Eval vm_compute in or_none (divide_ranges before_cut 1 halves).
Definition after_merge : RangeDb := Eval vm_compute in or_none (merge_ranges after_cut [2; 3] 1 whole None).

Example cut_rows : map (fun r => (rg_subnet r, rg_start r, rg_end r)) (List.filter (is_custom after_cut) (ranges after_cut)) =
  [(2, "10.0.0.120", "10.0.0.127"); (3, "10.0.0.128", "10.0.0.140")].
Proof. reflexivity. Qed.

Example merged_label_rows : map (fun r => (rg_subnet r, rg_start r, rg_end r, rg_description r)) (List.filter (is_custom after_merge) (ranges after_merge)) =
  [(1, "10.0.0.120", "10.0.0.140", Some "floor 1")].
Proof. reflexivity. Qed.

(** A network that has been divided can still be given labels of its own. A
    merge then puts them beside those of the parts: two labels on one address. *)
Example merge_overlaps :
  let db := mkRangeDb [mkRangeRow 1 1 8 "10.0.0.10" "10.0.0.20" None; mkRangeRow 2 2 9 "10.0.0.10" "10.0.0.20" None] 3 boundary_types [] in
  map (fun r => (rg_subnet r, rg_type r, rg_start r, rg_end r)) (List.filter (is_custom db) (ranges (or_none (merge_ranges db [2; 3] 1 whole None)))) =
  [(1, 8, "10.0.0.10", "10.0.0.20"); (1, 9, "10.0.0.10", "10.0.0.20")].
Proof. vm_compute. reflexivity. Qed.

Lemma one_label_ok types id s t d f lo hi :
  lo <= hi -> (forall v, lo <= v <= hi -> readable f v) ->
  labels_ok (mkRangeDb [mkRangeRow id s t (bigToAddress lo f) (bigToAddress hi f) d] (id + 1) types []).
Proof.
  intros Ho Hr. set (r := mkRangeRow _ _ _ _ _ _). assert (forall x, x ∈ ranges (mkRangeDb [r] (id + 1) types []) -> x = r) as Hin by (by intros x ?%list_elem_of_singleton).
  split; [split; [cbn; repeat constructor; by intros ?%elem_of_nil|intros x ->%Hin; cbn; lia]|intros x ->%Hin _; by apply (label_make r f lo hi)|].
  intros x x' ->%Hin ->%Hin. done.
Qed.

Lemma v4_readable v : 0 <= v < 2 ^ 32 -> readable 4 v.
Proof. intros H. exists 32. split; [constructor|]. by left. Qed.

Lemma before_cut_dividing : dividing before_cut 1 whole halves.
Proof.
  assert (parseNetwork "10.0.0.0/24" = Ok whole) as Hp by (vm_compute; reflexivity).
  split.
  - apply (one_label_ok boundary_types 1 1 8 (Some "floor 1") 4 167772280 167772300); [lia|]. intros v Hv. apply v4_readable. lia.
  - split; [cbn; repeat (constructor; [by set_solver|]); constructor|]. intros name Hn. repeat (apply elem_of_cons in Hn as [->|Hn]; [eexists; vm_compute; reflexivity|]). by apply elem_of_nil in Hn.
  - split; [by apply (parseNetwork_wf "10.0.0.0/24")|left; reflexivity].
  - intros t d f v (r & ->%list_elem_of_singleton & _ & _ & _ & _ & Hf & Hv). vm_compute in Hf. subst f. split; [reflexivity|].
    replace (rlow _) with 167772280 in Hv by (vm_compute; reflexivity). replace (rhigh _) with 167772300 in Hv by (vm_compute; reflexivity).
    replace (networkBig whole) with 167772160 by (vm_compute; reflexivity). replace (lastBig whole) with 167772415 by (vm_compute; reflexivity). lia.
  - apply (split_partitions "10.0.0.0/24" whole 25 256); [done|left; reflexivity|vm_compute; reflexivity].
  - split; [cbn; repeat (constructor; [by set_solver|]); constructor|cbn; by set_solver].
  - intros r ->%list_elem_of_singleton _. cbn. by set_solver.
Qed.

Lemma division_keeps_labels_witness : exists db', divide_ranges before_cut 1 halves = Ok db' /\ exists c, c ∈ halves /\ labelled db' (ch_id c) 8 (Some "floor 1") 4 167772288.
Proof.
  destruct (division_keeps_labels before_cut 1 whole halves before_cut_dividing) as (db' & Hrun & _ & Hl & _). exists db'. split; [exact Hrun|]. apply Hl.
  exists (mkRangeRow 1 1 8 "10.0.0.120" "10.0.0.140" (Some "floor 1")). split; [by left|]. split; [reflexivity|]. do 3 (split; [reflexivity|]).
  split; [vm_compute; reflexivity|split; intros H; vm_compute in H; discriminate H].
Defined.

Lemma merge_keeps_labels_witness : exists db', merge_ranges after_cut [2; 3] 1 whole None = Ok db' /\ normal db' 1.
Proof.
  assert (divide_ranges before_cut 1 halves = Ok after_cut) as Hrun by (vm_compute; reflexivity).
  pose proof (dividing_ok before_cut 1 whole halves before_cut_dividing) as (db' & Hrun' & H1 & H2 & _). rewrite Hrun in Hrun'. injection Hrun' as <-.
  destruct (merge_keeps_labels after_cut [2; 3] 1 4 whole None) as (db2 & Hm & _ & Hn & _).
  - exact H1.
  - eapply types_same; [exact H2|apply before_cut_dividing].
  - exact (divided_movable before_cut 1 whole halves after_cut before_cut_dividing Hrun).
  - by exists db2.
Defined.

Lemma labels_round_trip_witness : exists db1 db2, divide_ranges before_cut 1 halves = Ok db1 /\ merge_ranges db1 [2; 3] 1 whole None = Ok db2 /\ normal db2 1.
Proof.
  destruct (labels_round_trip before_cut 1 whole halves whole None before_cut_dividing) as (db1 & db2 & H1 & H2 & _ & H4 & _). by exists db1, db2.
Defined.
