(* ===== verification/UpstreamPool.v ===== *)
(** * Encrypted upstream connections

    [server/src/utils/upstream-pool.js]: a DNS over TLS connection that
    carries many queries at once ([Connection] and [DotConnection]), and the
    pool's policy of resends and failover ([createUpstreamPool]).

    The socket is Node's: it reports that the handshake is done, the bytes
    that arrive, an error or its close as events, in any order Node allows; a
    query's timer may fire while the query is in flight, and the idle timer
    while it is armed. DNS over HTTPS is not modelled at the connection level:
    its streams are the HTTP/2 library's. *)

From S2P Require Import Prelude JsString Bytes DnsWire.

Definition DOT_PORT : Z := 853.
Definition IDLE_MS : Z := 30000.
Definition CLOSED_RETRIES : nat := 2.

(** [FAIL] *)
Inductive fail := CONNECT | CLOSED | TIMEOUT | HTTP | DOWNGRADE.

(** What a send resolves with. *)
Inductive send_result := Response (response : bytes) | Fail_ (kind : fail).

(** ** A DoT connection *)

(** A call of [send] that got an id: the client's id, its own id on the wire,
    and whether it is resolved. *)
Record Call := mkCall { originalId : Z; wireId : Z; done : bool }.

(** [calls] in the order they began; [pending] maps a wire id to a call;
    [resolved] is what each call resolved with, in that order. A call that
    finds no free id is resolved at once and never pending. *)
Record Conn := mkConn {
  calls : list Call;
  pending : gmap Z nat;
  nextId : Z;
  buf : bytes;
  open : bool;
  ended : bool;
  destroyed : bool;
  failure : option fail;
  idleArmed : bool;
  queued : list bytes;
  written : list bytes;
  resolved : list (nat * send_result) }.

Definition set_calls (c : Conn) (cs : list Call) (p : gmap Z nat) (idle : bool) (r : list (nat * send_result)) : Conn :=
  mkConn cs p (nextId c) (buf c) (open c) (ended c) (destroyed c) (failure c) idle (queued c) (written c) r.

(** [new DotConnection]: [seed] is the random first id. *)
Definition newConnection (seed : Z) : Conn :=
  mkConn [] ∅ (seed mod 65536) [] false false false None false [] [] [].

(** [allocateId]: the id and the next one to try. The source's loop of 65536
    rounds is written as 2^16, halving the count each time. *)
Fixpoint allocate_loop (log : nat) (p : gmap Z nat) (next : Z) : option Z * Z :=
  match log with
  | O =>
      let next' := Z.land (next + 1) 65535 in
      match p !! next with None => (Some next, next') | Some _ => (None, next') end
  | S log' =>
      match allocate_loop log' p next with
      | (Some id, next') => (Some id, next')
      | (None, next') => allocate_loop log' p next'
      end
  end.

Definition allocateId (c : Conn) : option Z * Z := allocate_loop 16 (pending c) (nextId c).

Definition in_flight (cs : list Call) : bool := existsb (fun k => negb (done k)) cs.

(** [finish]: the first result of a call counts. *)
Definition finish (c : Conn) (i : nat) (r : send_result) : Conn :=
  match calls c !! i with
  | None => c
  | Some k =>
      if done k then c
      else
        let cs := <[i := mkCall (originalId k) (wireId k) true]> (calls c) in
        set_calls c cs (base.delete (wireId k) (pending c))
          (if negb (in_flight cs) && negb (ended c) then true else idleArmed c)
          (resolved c ++ [(i, r)])
  end.

(** [end]: everything in flight fails with why. *)
Definition endConnection (c : Conn) : Conn :=
  if ended c then c
  else
    let c := mkConn (calls c) (pending c) (nextId c) (buf c) (open c) true (destroyed c) (failure c) false (queued c) (written c) (resolved c) in
    let kind := match failure c with Some k => k | None => if open c then CLOSED else CONNECT end in
    fold_left (fun c i => finish c i (Fail_ kind)) (seq 0 (length (calls c))) c.

(** [failed]: why the socket failed, unless something already did. *)
Definition failed (c : Conn) : Conn :=
  mkConn (calls c) (pending c) (nextId c) (buf c) (open c) (ended c) (destroyed c)
    (match failure c with Some k => Some k | None => Some (if open c then CLOSED else CONNECT) end)
    (idleArmed c) (queued c) (written c) (resolved c).

(** [close]: the socket is destroyed, and its close event will follow. *)
Definition close (c : Conn) : Conn :=
  mkConn (calls c) (pending c) (nextId c) (buf c) (open c) (ended c) true (failure c) (idleArmed c) (queued c) (written c) (resolved c).

(** [response.writeUInt16BE(id, 0)] on a copy of the message. *)
Definition with_id (id : Z) (message : bytes) : bytes := write_at message 0 (uint16be id).

(** [send], with [begin]: the timer of the call starts and the idle timer
    stops. *)
Definition send (c : Conn) (query : bytes) : result range_error Conn :=
  match allocateId c with
  | (None, next) =>
      Ok (mkConn (calls c ++ [mkCall 0 0 true]) (pending c) next (buf c) (open c) (ended c) (destroyed c) (failure c)
            (idleArmed c) (queued c) (written c) (resolved c ++ [(length (calls c), Fail_ CLOSED)]))
  | (Some id, next) =>
      originalId ← readUInt16BE query 0;
      frame ← frameTcpMessage (with_id id query);
      Ok (mkConn (calls c ++ [mkCall originalId id false]) (<[id := length (calls c)]> (pending c)) next (buf c) (open c) (ended c)
            (destroyed c) (failure c) false
            (if open c then queued c else queued c ++ [frame]) (if open c then written c ++ [frame] else written c) (resolved c))
  end.

(** The handshake is done: verified, the queued frames go out; otherwise the
    socket is destroyed. *)
Definition onSecureConnect (c : Conn) (authorized : bool) : Conn :=
  if authorized
  then mkConn (calls c) (pending c) (nextId c) (buf c) true (ended c) (destroyed c) (failure c) (idleArmed c) [] (written c ++ queued c) (resolved c)
  else mkConn (calls c) (pending c) (nextId c) (buf c) (open c) (ended c) true (Some CONNECT) (idleArmed c) (queued c) (written c) (resolved c).

(** One message of [onData]. *)
Definition onReply (c : Conn) (message : bytes) : Conn :=
  match readUInt16BE message 0 with
  | Err _ => c (* shorter than an id *)
  | Ok id =>
      match pending c !! id with
      | None => c
      | Some i =>
          match calls c !! i with
          | None => c
          | Some k => finish c i (Response (with_id (originalId k) message))
          end
      end
  end.

Definition set_buf (c : Conn) (b : bytes) : Conn :=
  mkConn (calls c) (pending c) (nextId c) b (open c) (ended c) (destroyed c) (failure c) (idleArmed c) (queued c) (written c) (resolved c).

Definition onData (c : Conn) (chunk : bytes) : Conn :=
  let '(messages, rest) := extractTcpMessages (buf c ++ chunk) in
  fold_left onReply messages (set_buf c rest).

(** A query's timer: it fails and the connection, which may be half open,
    closes. *)
Definition onTimeout (c : Conn) (i : nat) : Conn := close (finish c i (Fail_ TIMEOUT)).

(** ** Steps *)

Inductive label :=
| LSend (query : bytes)
| LSecure (authorized : bool)
| LData (chunk : bytes)
| LError
| LTimeout (i : nat)
| LIdle
| LClose.

Definition exec (c : Conn) (l : label) : option Conn :=
  match l with
  | LSend query => if ended c then None else try_ok (send c query)
  | LSecure a => if open c || destroyed c || ended c then None else Some (onSecureConnect c a)
  | LData chunk => if open c && negb (destroyed c) && negb (ended c) then Some (onData c chunk) else None
  | LError => if ended c then None else Some (failed c)
  | LTimeout i => match calls c !! i with
                  | Some k => if done k then None else Some (onTimeout c i)
                  | None => None
                  end
  | LIdle => if idleArmed c then Some (close c) else None
  | LClose => if ended c then None else Some (endConnection c)
  end.

Definition step (c : Conn) (l : label) (c' : Conn) : Prop := exec c l = Some c'.

(** ** The invariant *)

Record sound (c : Conn) : Prop := {
  s_pending : forall id i, pending c !! id = Some i <-> exists k, calls c !! i = Some k /\ done k = false /\ wireId k = id;
  s_resolved : forall i, i ∈ map fst (resolved c) <-> exists k, calls c !! i = Some k /\ done k = true;
  s_once : NoDup (map fst (resolved c));
  s_next : 0 <= nextId c < 65536;
  s_wire : forall i k, calls c !! i = Some k -> done k = false -> 0 <= wireId k < 65536;
  s_response : forall i r, (i, Response r) ∈ resolved c -> exists k m, calls c !! i = Some k /\
    r = with_id (originalId k) m /\ readUInt16BE m 0 = Ok (wireId k) }.

Definition settled (c : Conn) : Prop := forall i k, calls c !! i = Some k -> done k = true.

Record inv (c : Conn) : Prop := { i_sound : sound c; i_ended : ended c = true -> settled c }.

Lemma allocate_loop_spec log p next :
  0 <= next < 65536 ->
  match allocate_loop log p next with
  | (Some id, next') => p !! id = None /\ 0 <= id < 65536 /\ 0 <= next' < 65536
  | (None, next') => next' = (next + 2 ^ Z.of_nat log) mod 65536 /\
      forall j, 0 <= j < 2 ^ Z.of_nat log -> is_Some (p !! ((next + j) mod 65536))
  end.
Proof.
  revert next. induction log as [|log IH]; intros next Hn; cbn [allocate_loop].
  - assert (Z.land (next + 1) 65535 = (next + 1) mod 65536) as Hl by (apply (land_ones_mod (next + 1) 16); lia).
    pose proof (Z.mod_pos_bound (next + 1) 65536 ltac:(lia)) as Hb. destruct (p !! next) as [i|] eqn:Hp.
    + split; [done|]. intros j Hj. assert (j = 0) as -> by (simpl in Hj; lia). rewrite Z.add_0_r, Z.mod_small by lia. eauto.
    + by rewrite Hl.
  - rewrite Nat2Z.inj_succ, Z.pow_succ_r by lia. pose proof (IH next Hn) as H1. destruct (allocate_loop log p next) as [[id|] mid]; [done|].
    destruct H1 as [-> H1]. set (h := 2 ^ Z.of_nat log) in *.
    pose proof (Z.mod_pos_bound (next + h) 65536 ltac:(lia)) as Hb. specialize (IH _ Hb).
    destruct (allocate_loop log p _) as [[id|] last]; [done|]. destruct IH as [-> IH]. split.
    + rewrite Z.add_mod_idemp_l by lia. f_equal. lia.
    + intros j Hj. destruct (Z.lt_ge_cases j h); [apply H1; lia|]. specialize (IH (j - h) ltac:(lia)).
      rewrite Z.add_mod_idemp_l in IH by lia. by replace (next + h + (j - h)) with (next + j) in IH by lia.
Qed.

(** An id is refused only when all 65536 are in flight. *)
Lemma allocateId_spec c :
  0 <= nextId c < 65536 ->
  match allocateId c with
  | (Some id, next') => pending c !! id = None /\ 0 <= id < 65536 /\ 0 <= next' < 65536
  | (None, next') => 0 <= next' < 65536 /\ forall id, 0 <= id < 65536 -> is_Some (pending c !! id)
  end.
Proof.
  intros Hn. unfold allocateId. pose proof (allocate_loop_spec 16 (pending c) (nextId c) Hn) as Ha.
  change (2 ^ Z.of_nat 16) with 65536 in Ha.
  destruct (allocate_loop _ _ _) as [[id|] next']; [done|]. destruct Ha as [-> Ha]. split; [apply Z.mod_pos_bound; lia|].
  intros id Hid. specialize (Ha ((id - nextId c) mod 65536)).
  replace ((nextId c + (id - nextId c) mod 65536) mod 65536) with id in Ha.
  2:{ rewrite Z.add_mod_idemp_r by lia. replace (nextId c + (id - nextId c)) with id by lia. by rewrite Z.mod_small. }
  apply Ha. pose proof (Z.mod_pos_bound (id - nextId c) 65536). lia.
Qed.

(** Updates that leave the calls alone. *)
Lemma sound_same c c' :
  calls c' = calls c -> pending c' = pending c -> resolved c' = resolved c -> nextId c' = nextId c -> sound c -> sound c'.
Proof. intros H1 H2 H3 H4 []. split; by rewrite ?H1, ?H2, ?H3, ?H4. Qed.

Lemma finish_sound c i r :
  sound c ->
  (forall m k, r = Response m -> calls c !! i = Some k -> done k = false ->
     exists m', m = with_id (originalId k) m' /\ readUInt16BE m' 0 = Ok (wireId k)) ->
  sound (finish c i r).
Proof.
  intros Hs Hr. unfold finish. destruct (calls c !! i) as [k|] eqn:Hk; [|done]. destruct (done k) eqn:Hd; [done|].
  destruct Hs as [Hp Hres Hnd Hn Hw Hresp]. pose proof (lookup_lt_Some _ _ _ Hk) as Hlt.
  set (k' := mkCall (originalId k) (wireId k) true).
  assert (forall j q, <[i := k']> (calls c) !! j = Some q <-> (j = i /\ q = k') \/ (j <> i /\ calls c !! j = Some q)) as Hl.
  { intros j q. destruct (decide (j = i)) as [->|Hne]; [rewrite list_lookup_insert_eq by done|rewrite list_lookup_insert_ne by done]; naive_solver. }
  split; cbn [calls pending resolved nextId set_calls].
  - intros id j. destruct (decide (id = wireId k)) as [->|Hne].
    + rewrite lookup_delete_eq. split; [done|]. intros (q & [[-> ->]|[Hji Hq]]%Hl & Hqd & Hqw); [done|]. exfalso.
      apply Hji. assert (pending c !! wireId k = Some j) as E1 by (apply Hp; eauto).
      assert (pending c !! wireId k = Some i) as E2 by (apply Hp; eauto). congruence.
    + rewrite lookup_delete_ne by done. rewrite Hp. setoid_rewrite Hl. split.
      * intros (q & Hq & Hqd & Hqw). exists q. split; [|done]. right. split; [|done]. intros ->. congruence.
      * intros (q & [[-> ->]|[Hji Hq]] & Hqd & Hqw); [done|]. eauto.
  - intros j. rewrite map_app, elem_of_app. cbn [map fst]. rewrite list_elem_of_singleton, Hres. setoid_rewrite Hl. split.
    + intros [(q & Hq & Hqd)| ->]; [|exists k'; auto]. exists q. split; [|done]. right. split; [|done]. intros ->. congruence.
    + intros (q & [[-> ->]|[Hji Hq]] & Hqd); [by right|]. left. eauto.
  - rewrite map_app. apply NoDup_app. split_and!; [done| |apply NoDup_singleton].
    intros j Hj. cbn [map fst]. rewrite list_elem_of_singleton. intros ->. apply Hres in Hj as (q & Hq & Hqd). congruence.
  - done.
  - intros j q [[-> ->]|[_ Hq]]%Hl Hqd; [done|]. by eapply Hw.
  - intros j m [Hin|Hin%list_elem_of_singleton]%elem_of_app.
    + destruct (Hresp j m Hin) as (q & m' & Hq & Hm & Hm'). destruct (decide (j = i)) as [->|Hne].
      * exists k', m'. rewrite Hl. assert (q = k) as -> by congruence. auto.
      * exists q, m'. rewrite Hl. auto.
    + injection Hin as -> <-. destruct (Hr m k eq_refl eq_refl Hd) as (m' & Hm & Hm'). exists k', m'. rewrite Hl. auto.
Qed.

Lemma finish_ended c i r : ended (finish c i r) = ended c.
Proof. unfold finish. destruct (calls c !! i) as [k|]; [|done]. by destruct (done k). Qed.

Lemma finish_length c i r : length (calls (finish c i r)) = length (calls c).
Proof. unfold finish. destruct (calls c !! i) as [k|]; [|done]. destruct (done k); [done|]. cbn. by rewrite length_insert. Qed.

Lemma finish_settles c i r k : calls (finish c i r) !! i = Some k -> done k = true.
Proof.
  unfold finish. destruct (calls c !! i) as [q|] eqn:Hq; [|congruence]. destruct (done q) eqn:Hd; [congruence|].
  cbn. rewrite list_lookup_insert_eq by (by eapply lookup_lt_Some). by intros [= <-].
Qed.

Lemma finish_keeps c i r j k : calls c !! j = Some k -> done k = true -> exists k', calls (finish c i r) !! j = Some k' /\ done k' = true.
Proof.
  intros Hk Hd. unfold finish. destruct (calls c !! i) as [q|] eqn:Hq; [|eauto]. destruct (done q) eqn:Hdq; [eauto|]. cbn.
  destruct (decide (i = j)) as [<-|Hne]; [congruence|]. rewrite list_lookup_insert_ne by done. eauto.
Qed.

Lemma finish_settled c i r : settled c -> settled (finish c i r).
Proof.
  intros Hs j k Hk. pose proof (lookup_lt_Some _ _ _ Hk) as Hlt. rewrite finish_length in Hlt.
  apply lookup_lt_is_Some in Hlt as [q Hq]. destruct (finish_keeps c i r j q Hq (Hs j q Hq)) as (k' & Hk' & Hd). congruence.
Qed.

(** Failing every call settles them all. *)
Lemma end_sound c kind l :
  sound c -> sound (fold_left (fun c i => finish c i (Fail_ kind)) l c).
Proof. revert c. induction l as [|i l IH]; intros c Hs; cbn [fold_left]; [done|]. apply IH. by apply finish_sound. Qed.

Lemma end_settles c kind l j k :
  calls (fold_left (fun c i => finish c i (Fail_ kind)) l c) !! j = Some k ->
  j ∈ l \/ (exists q, calls c !! j = Some q /\ done q = true) -> done k = true.
Proof.
  revert c. induction l as [|i l IH]; intros c Hk Hj; cbn [fold_left] in Hk.
  - destruct Hj as [?%not_elem_of_nil|(q & Hq & Hd)]; [done|congruence].
  - apply (IH _ Hk). destruct Hj as [[->|Hj]%elem_of_cons|(q & Hq & Hd)]; [|by left|right; by eapply finish_keeps].
    destruct (calls (finish c i (Fail_ kind)) !! i) as [q|] eqn:Hq; [right; exists q; split; [done|by eapply finish_settles]|].
    left. assert (length (calls (fold_left (fun c i => finish c i (Fail_ kind)) l (finish c i (Fail_ kind)))) = length (calls (finish c i (Fail_ kind)))) as Hlen.
    { clear. generalize (finish c i (Fail_ kind)). induction l as [|x l IH]; intros d; cbn [fold_left]; [done|]. by rewrite IH, finish_length. }
    apply lookup_ge_None in Hq. apply lookup_lt_Some in Hk. lia.
Qed.

Lemma endConnection_inv c : inv c -> inv (endConnection c) /\ settled (endConnection c).
Proof.
  intros Hi. destruct (ended c) eqn:Hend.
  { unfold endConnection. rewrite Hend. split; [done|by apply (i_ended c Hi)]. }
  pose proof (i_sound c Hi) as Hs. unfold endConnection. rewrite Hend.
  set (c1 := mkConn _ _ _ _ _ _ _ _ _ _ _ _). set (kind := match failure c1 with Some _ => _ | None => _ end).
  assert (sound c1) as Hs1 by (by apply (sound_same c)).
  assert (settled (fold_left (fun c i => finish c i (Fail_ kind)) (seq 0 (length (calls c1))) c1)) as Hset.
  { intros j k Hk. apply (end_settles _ _ _ _ _ Hk). left. apply elem_of_seq. split; [lia|].
    assert (forall l d, length (calls (fold_left (fun c i => finish c i (Fail_ kind)) l d)) = length (calls d)) as Hlen.
    { induction l as [|x l IH]; intros d; cbn [fold_left]; [done|]. by rewrite IH, finish_length. }
    apply lookup_lt_Some in Hk. rewrite Hlen in Hk. lia. }
  split; [|exact Hset]. split; [by apply end_sound|done].
Qed.

Lemma send_inv c query c' : inv c -> ended c = false -> send c query = Ok c' -> inv c'.
Proof.
  intros [[Hp Hres Hnd Hn Hw Hresp] _] Hend Hsend. unfold send in Hsend. pose proof (allocateId_spec c Hn) as Ha.
  assert (forall x j q, (calls c ++ [x]) !! j = Some q <-> calls c !! j = Some q \/ (j = length (calls c) /\ q = x)) as Hl.
  { intros x j q. rewrite lookup_app_Some, list_lookup_singleton_Some. split; [|intros [?|[-> ->]]; [by left|right; split; [done|split; [lia|done]]]].
    intros [?|(Hle & H0 & <-)]; [by left|right; split; [lia|done]]. }
  assert (forall j, j ∈ map fst (resolved c) -> j <> length (calls c)) as Hfresh.
  { intros j Hj ->. apply Hres in Hj as (q & Hq & _). apply lookup_lt_Some in Hq. lia. }
  destruct (allocateId c) as [[id|] next].
  - destruct Ha as (Hfree & Hid & Hnext).
    destruct (readUInt16BE query 0) as [orig|]; [|done]. cbn in Hsend. destruct (frameTcpMessage _) as [f|]; [|done]. cbn in Hsend.
    injection Hsend as <-. set (k := mkCall orig id false). split; [split|]; cbn [calls pending resolved nextId ended].
    + intros j i. setoid_rewrite Hl. destruct (decide (j = id)) as [->|Hne].
      * rewrite lookup_insert_eq. split; [intros [= <-]; exists k; auto|]. intros (q & [Hq|[-> ->]] & Hqd & Hqw); [|done].
        assert (pending c !! id = Some i) by (apply Hp; eauto). congruence.
      * rewrite lookup_insert_ne by done. rewrite Hp. split; [intros (q & Hq & ?); eauto|].
        intros (q & [Hq|[-> ->]] & Hqd & Hqw); [eauto|]. cbn in Hqw. congruence.
    + intros i. rewrite Hres. setoid_rewrite Hl. split; [intros (q & Hq & ?); eauto|]. intros (q & [Hq|[-> ->]] & Hqd); [eauto|done].
    + done.
    + done.
    + intros i q [Hq|[-> ->]]%Hl Hqd; [by eapply Hw|done].
    + intros i r Hir. destruct (Hresp i r Hir) as (q & m & Hq & ?). exists q, m. rewrite Hl. auto.
    + congruence.
  - destruct Ha as [Hnext _]. injection Hsend as <-. split; [split|]; cbn [calls pending resolved nextId ended].
    + intros j i. rewrite Hp. setoid_rewrite Hl. split; [intros (q & Hq & ?); eauto|]. intros (q & [Hq|[-> ->]] & Hqd & Hqw); [eauto|done].
    + intros i. rewrite map_app, elem_of_app. cbn [map fst]. rewrite list_elem_of_singleton, Hres. setoid_rewrite Hl. split.
      * intros [(q & Hq & ?)| ->]; [eauto|]. eexists. split; [right; split; [done|reflexivity]|done].
      * intros (q & [Hq|[-> ->]] & Hqd); [left; eauto|by right].
    + rewrite map_app. apply NoDup_app. split_and!; [done| |apply NoDup_singleton].
      intros j Hj. cbn [map fst]. rewrite list_elem_of_singleton. by apply Hfresh.
    + done.
    + intros i q [Hq|[-> ->]]%Hl Hqd; [by eapply Hw|done].
    + intros i r [Hir|Hir%list_elem_of_singleton]%elem_of_app; [|done]. destruct (Hresp i r Hir) as (q & m & Hq & ?). exists q, m. rewrite Hl. auto.
    + congruence.
Qed.

Lemma onReply_sound c m : sound c -> sound (onReply c m).
Proof.
  intros Hs. unfold onReply. destruct (readUInt16BE m 0) as [id|] eqn:Hid; [|done].
  destruct (pending c !! id) as [i|] eqn:Hp; [|done]. destruct (calls c !! i) as [k|] eqn:Hk; [|done].
  apply finish_sound; [done|]. intros m' k' [= <-] Hk' Hd. assert (k' = k) as -> by congruence.
  apply (s_pending c Hs) in Hp as (q & Hq & _ & Hw). exists m. split; [done|]. rewrite Hid. f_equal. congruence.
Qed.

Lemma onReply_ended c m : ended (onReply c m) = ended c.
Proof.
  unfold onReply. destruct (readUInt16BE m 0); [|done]. destruct (pending c !! _) as [i|]; [|done].
  destruct (calls c !! i); [|done]. apply finish_ended.
Qed.

Lemma onData_inv c chunk : inv c -> ended c = false -> inv (onData c chunk).
Proof.
  intros [Hs _] He. unfold onData. destruct (extractTcpMessages _) as [ms rest].
  assert (sound (set_buf c rest)) as Hs' by by apply (sound_same c). assert (ended (set_buf c rest) = false) as He' by done.
  revert Hs' He'. generalize (set_buf c rest). induction ms as [|m ms IH]; intros d Hd Hde; cbn [fold_left].
  - split; [done|]. congruence.
  - apply IH; [by apply onReply_sound|by rewrite onReply_ended].
Qed.

Lemma inv_same c c' :
  calls c' = calls c -> pending c' = pending c -> resolved c' = resolved c -> nextId c' = nextId c -> ended c' = ended c -> inv c -> inv c'.
Proof. intros H1 H2 H3 H4 H5 [Hs He]. split; [by apply (sound_same c)|]. rewrite H5. intros H. intros i k. rewrite H1. by apply He. Qed.

Lemma dot_step_inv c l c' : inv c -> step c l c' -> inv c'.
Proof.
  intros Hi Hst. unfold step in Hst. destruct l as [query|a|chunk| |i| |]; cbn [exec] in Hst.
  - destruct (ended c) eqn:He; [done|]. destruct (send c query) as [c1|] eqn:Hs; [|done]. injection Hst as <-. by eapply send_inv.
  - destruct (_ || _); [done|]. injection Hst as <-. unfold onSecureConnect. destruct a; by apply (inv_same c).
  - destruct (open c && negb (destroyed c) && negb (ended c)) eqn:Hg; [|done]. injection Hst as <-.
    apply andb_true_iff in Hg as [_ Hg%negb_true_iff]. by apply onData_inv.
  - destruct (ended c); [done|]. injection Hst as <-. by apply (inv_same c).
  - destruct (calls c !! i) as [k|] eqn:Hk; [|done]. destruct (done k); [done|]. injection Hst as <-.
    apply (inv_same (finish c i (Fail_ TIMEOUT))); try done. destruct Hi as [Hs He]. split; [by apply finish_sound|].
    rewrite finish_ended. intros H. by apply finish_settled, He.
  - destruct (idleArmed c); [|done]. injection Hst as <-. by apply (inv_same c).
  - destruct (ended c); [done|]. injection Hst as <-. by apply endConnection_inv.
Qed.

Lemma new_inv seed : inv (newConnection seed).
Proof.
  split; [split|]; cbn.
  - intros id i. rewrite lookup_empty. split; [done|]. intros (k & Hk & _). done.
  - intros i. split; [by intros ?%not_elem_of_nil|]. intros (k & Hk & _). done.
  - constructor.
  - apply Z.mod_pos_bound. lia.
  - done.
  - by intros i r ?%not_elem_of_nil.
  - done.
Qed.

Lemma dot_reachable_inv seed ls c : runs step (newConnection seed) ls c -> inv c.
Proof. intros Hr. eapply (runs_invariant _ inv); [|exact Hr|apply new_inv]. intros; by eapply dot_step_inv. Qed.

(** ** Lemmas: segmentation *)

Lemma onReply_set_buf c b m : onReply (set_buf c b) m = set_buf (onReply c m) b.
Proof.
  unfold onReply. destruct (readUInt16BE m 0) as [id|]; [|done]. cbn [pending set_buf calls].
  destruct (pending c !! id) as [i|]; [|done]. destruct (calls c !! i) as [k|] eqn:Hk; [|done].
  unfold finish. cbn [calls set_buf]. rewrite Hk. by destruct (done k).
Qed.

Lemma onReplies_set_buf ms c b : fold_left onReply ms (set_buf c b) = set_buf (fold_left onReply ms c) b.
Proof. revert c. induction ms as [|m ms IH]; intros c; cbn [fold_left]; [done|]. by rewrite onReply_set_buf, IH. Qed.

Lemma onReply_flags c m : open (onReply c m) = open c /\ destroyed (onReply c m) = destroyed c /\ buf (onReply c m) = buf c.
Proof.
  unfold onReply. destruct (readUInt16BE m 0) as [id|]; [|done]. destruct (pending c !! id) as [i|]; [|done].
  destruct (calls c !! i) as [k|] eqn:Hk; [|done]. unfold finish. rewrite Hk. by destruct (done k).
Qed.

Lemma onReplies_flags ms c :
  open (fold_left onReply ms c) = open c /\ destroyed (fold_left onReply ms c) = destroyed c /\
  ended (fold_left onReply ms c) = ended c /\ buf (fold_left onReply ms c) = buf c.
Proof.
  revert c. induction ms as [|m ms IH]; intros c; cbn [fold_left]; [done|]. destruct (IH (onReply c m)) as (-> & -> & -> & ->).
  destruct (onReply_flags c m) as (-> & -> & ->). by rewrite onReply_ended.
Qed.

(** However the bytes are cut, the connection handles the messages in them. *)
Lemma chunks_deliver chunks c ms rest :
  open c = true -> destroyed c = false -> ended c = false -> incomplete (buf c) -> Forall byte (buf c ++ concat chunks) ->
  splits (buf c ++ concat chunks) ms rest ->
  runs step c (map LData chunks) (set_buf (fold_left onReply ms c) rest).
Proof.
  revert c ms. induction chunks as [|chunk chunks IH]; intros c ms Ho Hd He Hb Hbytes Hs; cbn [map concat] in *.
  - rewrite app_nil_r in Hs. apply extractTcpMessages_splits in Hs.
    assert (splits (buf c) [] (buf c)) as Hs0 by (split; [done|constructor|done]). apply extractTcpMessages_splits in Hs0.
    rewrite Hs in Hs0. injection Hs0 as -> ->. cbn [fold_left]. destruct c. constructor.
  - rewrite app_assoc in Hbytes, Hs. apply Forall_app in Hbytes as [Hb1 Hb2].
    destruct (splits_exists _ Hb1) as (ms1 & r1 & Hs1).
    assert (Forall byte (r1 ++ concat chunks)) as Hb3.
    { apply Forall_app. split; [|done]. destruct Hs1 as [Heq _ _]. rewrite Heq in Hb1. by apply Forall_app in Hb1 as [_ ?]. }
    destruct (splits_exists _ Hb3) as (ms2 & r2 & Hs2).
    pose proof (splits_continue _ _ _ _ _ _ Hs1 Hs2) as Hs3.
    apply extractTcpMessages_splits in Hs as E1. apply extractTcpMessages_splits in Hs3 as E2. rewrite E1 in E2.
    injection E2 as -> ->. econstructor.
    + unfold step. cbn [exec]. rewrite Ho, Hd, He. cbn [andb negb]. unfold onData. rewrite (extractTcpMessages_splits _ _ _ Hs1).
      rewrite onReplies_set_buf. reflexivity.
    + set (c1 := fold_left onReply ms1 c). destruct (onReplies_flags ms1 c) as (F1 & F2 & F3 & _). fold c1 in F1, F2, F3.
      specialize (IH (set_buf c1 r1) ms2). rewrite fold_left_app. fold c1.
      rewrite onReplies_set_buf in IH. apply IH; cbn [open destroyed ended buf set_buf]; [congruence|congruence|congruence|by destruct Hs1|done|done].
Qed.

(** ** The pool *)

(** What the pool reports: [onEvent] and [onError], by address. *)
Inductive event := EQuery | EAnswer | EDrop | ETimeout | EConnectFailed | EErrorStatus.

Definition EVENT_FOR_FAIL (f : fail) : option event :=
  match f with
  | CLOSED => Some EDrop
  | TIMEOUT => Some ETimeout
  | CONNECT => Some EConnectFailed
  | HTTP => Some EErrorStatus
  | DOWNGRADE => None
  end.

Definition result_event (r : send_result) : option event :=
  match r with Response _ => Some EAnswer | Fail_ f => EVENT_FOR_FAIL f end.

Section Query.
(** What the [n]-th send comes to, on an address, over HTTP/2 or HTTP/1.1,
    and the clock when the [n]-th attempt starts. *)
Context (send_result_of : nat -> string -> bool -> Z -> send_result) (clock : nat -> Z).
Context (timeoutMs : Z) (deadline : option Z).

(** The attempts made, the sends among them, what was reported, and the
    addresses known to offer only HTTP/1.1. *)
Record Query := mkQuery {
  attempts : nat;
  sends : list (string * send_result);
  events : list (event * string);
  errors : list string;
  http1Only : gset string }.

(** [Math.min(timeoutMs, deadline - Date.now())] *)
Definition budget (q : Query) : Z :=
  match deadline with Some d => Z.min timeoutMs (d - clock (attempts q)) | None => timeoutMs end.

Definition attempt (address : string) (q : Query) : send_result * Query :=
  let ms := budget q in
  if ms <=? 0 then (Fail_ TIMEOUT, mkQuery (S (attempts q)) (sends q) (events q) (errors q) (http1Only q))
  else
    let r := send_result_of (length (sends q)) address (bool_decide (address ∈ http1Only q)) ms in
    (r, mkQuery (S (attempts q)) (sends q ++ [(address, r)])
          (events q ++ match result_event r with Some e => [(e, address)] | None => [] end) (errors q) (http1Only q)).

(** The resends of a query whose connection dropped. *)
Fixpoint retries (n : nat) (address : string) (r : send_result) (q : Query) : send_result * Query :=
  match n with
  | O => (r, q)
  | S n' =>
      match r with
      | Fail_ CLOSED => let '(r', q') := attempt address q in retries n' address r' q'
      | _ => (r, q)
      end
  end.

(** What one address comes to. *)
Definition try_address (address : string) (q : Query) : send_result * Query :=
  let q := mkQuery (attempts q) (sends q) (events q ++ [(EQuery, address)]) (errors q) (http1Only q) in
  let '(r, q) := attempt address q in
  let '(r, q) := match r with
                 | Fail_ DOWNGRADE =>
                     attempt address (mkQuery (attempts q) (sends q) (events q) (errors q) ({[address]} ∪ http1Only q))
                 | _ => (r, q)
                 end in
  retries CLOSED_RETRIES address r q.

Definition report (address : string) (q : Query) : Query :=
  mkQuery (attempts q) (sends q) (events q) (errors q ++ [address]) (http1Only q).

Fixpoint query_loop (addresses : list string) (q : Query) : option bytes * Query :=
  match addresses with
  | [] => (None, q)
  | address :: rest =>
      let '(r, q) := try_address address q in
      match r with
      | Response response => (Some response, q)
      | Fail_ f =>
          let q := report address q in
          match f with
          | CONNECT | CLOSED => query_loop rest q
          | _ => (None, q)
          end
      end
  end.

(** [query]: with no address it reports the upstream itself. *)
Definition query (addresses : list string) (known : gset string) : option bytes * Query :=
  let q := mkQuery 0 [] [] [] known in
  match addresses with
  | [] => (None, report "" q)
  | _ => query_loop addresses q
  end.

(** ** Lemmas: the policy *)

(** [q'] goes on from [q] with at most [n] more attempts, all on [address],
    the last of which came to [r]. *)
Record goes_on (n : nat) (address : string) (r : send_result) (q q' : Query) : Prop := {
  g_attempts : (attempts q < attempts q' <= attempts q + n)%nat;
  g_errors : errors q' = errors q;
  g_sends : exists l, sends q' = sends q ++ l /\ (length l <= attempts q' - attempts q)%nat /\ Forall (fun s => fst s = address) l /\
    (r = Fail_ TIMEOUT \/ exists l', l = l' ++ [(address, r)]) }.

Lemma attempt_goes_on address q : goes_on 1 address (fst (attempt address q)) q (snd (attempt address q)).
Proof.
  unfold attempt. destruct (budget q <=? 0); cbn [fst snd].
  - split; cbn; [lia|done|]. exists []. rewrite app_nil_r. split_and!; [done|simpl; lia|constructor|by left].
  - split; cbn; [lia|done|]. eexists [_]. split_and!; [done|simpl; lia|by apply Forall_singleton|]. right. by exists [].
Qed.

Lemma goes_on_trans n m address r q r' q' q'' :
  goes_on n address r q q' -> goes_on m address r' q' q'' -> goes_on (n + m) address r' q q''.
Proof.
  intros [Ha1 He1 (l1 & Hs1 & Hl1 & Hf1 & _)] [Ha2 He2 (l2 & Hs2 & Hl2 & Hf2 & Hr2)]. split; [lia|congruence|].
  exists (l1 ++ l2). split_and!; [by rewrite Hs2, Hs1, app_assoc|rewrite length_app; lia|by apply Forall_app|].
  destruct Hr2 as [?|[l' ->]]; [by left|right]. exists (l1 ++ l'). by rewrite app_assoc.
Qed.

Lemma goes_on_le n m address r q q' : (n <= m)%nat -> goes_on n address r q q' -> goes_on m address r q q'.
Proof. intros Hle [Ha He Hs]. split; [lia|done|done]. Qed.

Lemma retries_goes_on n m address r q0 q :
  goes_on m address r q0 q -> goes_on (m + n) address (fst (retries n address r q)) q0 (snd (retries n address r q)).
Proof.
  revert m r q. induction n as [|n IH]; intros m r q Hg; cbn [retries].
  - by rewrite Nat.add_0_r.
  - destruct r as [resp|f]; [by eapply goes_on_le; [|exact Hg]; lia|].
    destruct f; try (by eapply goes_on_le; [|exact Hg]; lia).
    pose proof (attempt_goes_on address q) as Ha. destruct (attempt address q) as [r' q']. cbn [fst snd] in Ha.
    replace (m + S n)%nat with (m + 1 + n)%nat by lia. apply IH. by eapply goes_on_trans.
Qed.

(** The fields an address's bookkeeping changes are none of these. *)
Lemma goes_on_from n address r q1 q2 q' :
  attempts q1 = attempts q2 -> sends q1 = sends q2 -> errors q1 = errors q2 -> goes_on n address r q1 q' -> goes_on n address r q2 q'.
Proof. intros H1 H2 H3 [Ha He Hs]. split; by rewrite <- ?H1, <- ?H2, <- ?H3. Qed.

Lemma try_address_goes_on address q : goes_on 4 address (fst (try_address address q)) q (snd (try_address address q)).
Proof.
  unfold try_address. set (q0 := mkQuery _ _ _ _ _). pose proof (attempt_goes_on address q0) as H1.
  destruct (attempt address q0) as [r1 q1]. cbn [fst snd] in H1. apply (goes_on_from _ _ _ q0 q) in H1; [|done..].
  assert (exists r2 q2, match r1 with Fail_ DOWNGRADE => attempt address (mkQuery (attempts q1) (sends q1) (events q1) (errors q1) ({[address]} ∪ http1Only q1))
     | _ => (r1, q1) end = (r2, q2) /\ goes_on 2 address r2 q q2) as (r2 & q2 & -> & H2).
  { destruct r1 as [resp|f]; [exists (Response resp), q1; split; [done|by apply (goes_on_le 1); [lia|]]|].
    destruct f; try (eexists _, q1; split; [reflexivity|by apply (goes_on_le 1); [lia|]]).
    set (q1' := mkQuery _ _ _ _ _). pose proof (attempt_goes_on address q1') as Ha. destruct (attempt address q1') as [r2 q2]. cbn [fst snd] in Ha.
    exists r2, q2. split; [done|]. eapply (goes_on_trans 1 1); [exact H1|]. by apply (goes_on_from _ _ _ q1'). }
  apply (retries_goes_on CLOSED_RETRIES 2 address r2 q q2 H2).
Qed.

(** The policy, as what may be seen of a query: the addresses, its answer, the
    addresses reported, and the sends. *)
Inductive policy : list string -> option bytes -> list string -> list (string * send_result) -> Prop :=
| policy_none : policy [] None [] []
| policy_answer a rest l response :
    Forall (fun s => fst s = a) l -> (length l < 4)%nat ->
    policy (a :: rest) (Some response) [] (l ++ [(a, Response response)])
| policy_final a rest l f :
    f <> CONNECT -> f <> CLOSED -> Forall (fun s => fst s = a) l -> (length l <= 4)%nat ->
    (f = TIMEOUT \/ exists l', l = l' ++ [(a, Fail_ f)]) -> policy (a :: rest) None [a] l
| policy_next a rest l f o errs sent :
    f = CONNECT \/ f = CLOSED -> Forall (fun s => fst s = a) l -> (length l < 4)%nat ->
    policy rest o errs sent -> policy (a :: rest) o (a :: errs) (l ++ (a, Fail_ f) :: sent).

Lemma query_loop_policy addresses q :
  let '(o, q') := query_loop addresses q in
  exists errs sent, errors q' = errors q ++ errs /\ sends q' = sends q ++ sent /\ policy addresses o errs sent.
Proof.
  revert q. induction addresses as [|a rest IH]; intros q; cbn [query_loop].
  - exists [], []. rewrite !app_nil_r. split_and!; [done|done|constructor].
  - pose proof (try_address_goes_on a q) as Hg. destruct (try_address a q) as [r q1]. cbn [fst snd] in Hg.
    destruct Hg as [Ha He (l & Hs & Hl & Hf & Hr)]. assert (length l <= 4)%nat as Hlen by lia.
    assert (forall f, f <> TIMEOUT -> r = Fail_ f -> exists l', l = l' ++ [(a, r)] /\ (length l' < 4)%nat /\ Forall (fun s => fst s = a) l') as Hsplit.
    { intros f Hne ->. destruct Hr as [[= ->]|[l' ->]]; [done|]. exists l'. rewrite length_app in Hlen. simpl in Hlen.
      apply Forall_app in Hf as [Hf _]. split_and!; [done|lia|done]. }
    destruct r as [resp|f].
    + destruct Hr as [?|[l' ->]]; [done|]. exists [], (l' ++ [(a, Response resp)]). rewrite app_nil_r.
      rewrite length_app in Hlen. simpl in Hlen. apply Forall_app in Hf as [Hf _].
      split_and!; [done|done|constructor; [done|lia]].
    + set (q2 := report a q1). assert (errors q2 = errors q ++ [a]) as He2 by (cbn; by rewrite He).
      assert (f = CONNECT \/ f = CLOSED \/ (f <> CONNECT /\ f <> CLOSED)) as [Hc|[Hc|[Hc1 Hc2]]] by (destruct f; auto).
      * subst f. destruct (Hsplit CONNECT) as (l' & -> & Hl' & Hf'); [done|done|]. specialize (IH q2).
        destruct (query_loop rest q2) as [o q']. destruct IH as (errs & sent & E1 & E2 & Hp).
        exists (a :: errs), (l' ++ (a, Fail_ CONNECT) :: sent). split_and!; [by rewrite E1, He2, <- app_assoc| |by constructor; auto].
        rewrite E2. cbn [sends report]. subst q2. cbn [sends report]. rewrite Hs. by rewrite <- !app_assoc.
      * subst f. destruct (Hsplit CLOSED) as (l' & -> & Hl' & Hf'); [done|done|]. specialize (IH q2).
        destruct (query_loop rest q2) as [o q']. destruct IH as (errs & sent & E1 & E2 & Hp).
        exists (a :: errs), (l' ++ (a, Fail_ CLOSED) :: sent). split_and!; [by rewrite E1, He2, <- app_assoc| |by constructor; auto].
        rewrite E2. subst q2. cbn [sends report]. rewrite Hs. by rewrite <- !app_assoc.
      * assert (match f with CONNECT | CLOSED => query_loop rest q2 | _ => (None, q2) end = (None, q2)) as -> by by destruct f.
        exists [a], l. split_and!; [done|done|]. apply (policy_final a rest l f); try done.
        destruct Hr as [[= ->]|Hr]; [by left|by right].
Qed.

Lemma policy_bound addresses o errs sent : policy addresses o errs sent -> (length sent <= 4 * length addresses)%nat.
Proof. induction 1; simpl; rewrite ?length_app; simpl; lia. Qed.

Lemma policy_errors addresses o errs sent :
  policy addresses o errs sent -> exists rest, addresses = errs ++ rest /\ (o <> None -> rest <> []).
Proof.
  induction 1 as [|a rest l response|a rest l f|a rest l f o errs sent Hf Hl Hlen Hp (tl & -> & Hne)].
  - exists []. done.
  - exists (a :: rest). done.
  - exists rest. done.
  - exists tl. done.
Qed.
End Query.

Lemma end_ended c : ended (endConnection c) = true.
Proof.
  unfold endConnection. destruct (ended c) eqn:He; [done|]. set (c1 := mkConn _ _ _ _ _ _ _ _ _ _ _ _).
  assert (ended c1 = true) as H1 by done. revert H1. generalize c1 (match failure c1 with Some k => k | None => if open c1 then CLOSED else CONNECT end).
  intros d kind Hd. generalize (seq 0 (length (calls d))). intros l. revert d Hd. induction l as [|i l IH]; intros d Hd; cbn [fold_left]; [done|].
  apply IH. by rewrite finish_ended.
Qed.

Lemma policy_last addresses o errs sent response :
  policy addresses o errs sent -> o = Some response -> exists a, last sent = Some (a, Response response).
Proof.
  induction 1 as [|a rest l resp|a rest l f|a rest l f o errs sent Hf Hl Hlen Hp IH]; intros Ho; try done.
  - injection Ho as ->. exists a. apply last_snoc.
  - destruct (IH Ho) as [b Hb]. exists b. rewrite last_app, last_cons, Hb. done.
Qed.

Fixpoint exec_dot (ls : list label) (c : Conn) : option Conn :=
  match ls with
  | [] => Some c
  | l :: ls' => match exec c l with Some c' => exec_dot ls' c' | None => None end
  end.

Lemma exec_dot_runs ls c c' : exec_dot ls c = Some c' -> runs step c ls c'.
Proof.
  revert c. induction ls as [|l ls IH]; intros c He; cbn [exec_dot] in He; [injection He as <-; constructor|].
  destruct (exec c l) as [c1|] eqn:E1; [|done]. econstructor; [exact E1|by apply IH].
Qed.

(** ** Properties *)

(** A DoT connection answers every query it carries exactly once,
    whatever the socket does. In every reachable state a query is either
    resolved, once, or in flight under a wire id of 16 bits no other query in
    flight has, and an id is refused only when all 65536 are in flight. A
    response handed to a query is a message that came under the query's wire
    id, with the client's id put back and the rest of it unchanged. When the
    socket closes nothing stays unanswered. And as long as the connection is
    open, bytes that are the frames of some messages followed by an unfinished
    one have the same effect however they are cut into chunks: the messages
    are handled one by one, and the unfinished one is kept. *)
Theorem dot_answers_once seed ls c :
  runs step (newConnection seed) ls c ->
  NoDup (map fst (resolved c)) /\
  (forall i k, calls c !! i = Some k ->
     (done k = true <-> i ∈ map fst (resolved c)) /\
     (done k = false -> 0 <= wireId k < 65536 /\ pending c !! wireId k = Some i)) /\
  (fst (allocateId c) = None -> forall id, 0 <= id < 65536 -> is_Some (pending c !! id)) /\
  (forall i r, (i, Response r) ∈ resolved c -> exists k m, calls c !! i = Some k /\
     readUInt16BE m 0 = Ok (wireId k) /\ r = with_id (originalId k) m) /\
  (ended c = true -> settled c) /\
  (ended c = false -> exists c', step c LClose c' /\ ended c' = true /\ settled c') /\
  (open c = true -> destroyed c = false -> ended c = false -> buf c = [] ->
   forall chunks messages rest, Forall byte (concat chunks) -> Forall message messages -> incomplete rest ->
     concat chunks = concat (map frame messages) ++ rest ->
     runs step c (map LData chunks) (set_buf (fold_left onReply messages c) rest)).
Proof.
  intros Hr. pose proof (dot_reachable_inv seed ls c Hr) as Hi. destruct (i_sound c Hi) as [Hp Hres Hnd Hn Hw Hresp]. split_and!.
  - done.
  - intros i k Hk. split.
    + rewrite Hres. split; [eauto|]. intros (q & Hq & Hd). congruence.
    + intros Hd. split; [by eapply Hw|]. apply Hp. eauto.
  - intros Hnone. pose proof (allocateId_spec c Hn) as Ha. destruct (allocateId c) as [[id|] next]; [done|]. apply Ha.
  - intros i r Hir. destruct (Hresp i r Hir) as (k & m & ? & ? & ?). eauto.
  - apply (i_ended c Hi).
  - intros He. destruct (endConnection_inv c Hi) as [_ Hset]. exists (endConnection c). split_and!; [|apply end_ended|done].
    unfold step. cbn [exec]. by rewrite He.
  - intros Ho Hd He Hb chunks messages rest Hbytes Hm Hinc Hc.
    apply chunks_deliver; [done|done|done|rewrite Hb; by left|by rewrite Hb|]. rewrite Hb. by split.
Qed.

Definition dot_labels : list label :=
  [LSend [0; 7; 1]; LSecure true; LSend [0; 9; 2]; LData [0; 3; 0; 6]; LData [5; 0]].

Lemma dot_answers_once_witness : exists c,
  exec_dot dot_labels (newConnection 5) = Some c /\ resolved c = [(1%nat, Response [0; 9; 5])] /\ NoDup (map fst (resolved c)).
Proof.
  eexists. split; [vm_compute; reflexivity|]. split; [reflexivity|].
  eapply (dot_answers_once 5 dot_labels). apply exec_dot_runs. vm_compute. reflexivity.
Defined.

(** A query asks the upstream's addresses in order and gives up no
    earlier and no later than the policy says: an address is sent to at most
    four times, a dropped connection twice more and an HTTP/1.1 server once
    more; only a connection that never opened, or kept dropping, moves on to
    the next address, and each address moved past is reported once; an answer
    ends the query unreported, any other failure ends it reported, with no
    send to the addresses after it. So a query makes at most four sends an
    address, and it is never answered by anything but the response to its last
    send. *)
Theorem query_follows_policy send_result_of clock timeoutMs deadline addresses known :
  addresses <> [] ->
  let '(o, q) := query send_result_of clock timeoutMs deadline addresses known in
  policy addresses o (errors q) (sends q) /\
  (length (sends q) <= 4 * length addresses)%nat /\
  (exists rest, addresses = errors q ++ rest /\ (o <> None -> rest <> [])) /\
  (forall response, o = Some response -> exists a, last (sends q) = Some (a, Response response)).
Proof.
  intros Hne. unfold query. destruct addresses as [|a rest]; [done|].
  pose proof (query_loop_policy send_result_of clock timeoutMs deadline (a :: rest) (mkQuery 0 [] [] [] known)) as H.
  destruct (query_loop _ _ _ _ (a :: rest) _) as [o q]. destruct H as (errs & sent & He & Hs & Hp). cbn in He, Hs. rewrite He, Hs.
  split_and!; [done|by eapply policy_bound|by eapply policy_errors|]. intros response ->. by eapply policy_last.
Qed.

Lemma query_follows_policy_witness :
  let send (n : nat) (a : string) (h1 : bool) (ms : Z) :=
    if String.eqb a "1.1.1.1" then Fail_ CLOSED else Response [1; 2] in
  let '(o, q) := query send (fun _ => 0) 2000 None ["1.1.1.1"; "9.9.9.9"; "8.8.8.8"] ∅ in
  o = Some [1; 2] /\ errors q = ["1.1.1.1"] /\ length (sends q) = 4%nat /\
  (exists rest, ["1.1.1.1"; "9.9.9.9"; "8.8.8.8"] = errors q ++ rest /\ (o <> None -> rest <> [])).
Proof.
  pose proof (query_follows_policy (fun _ a _ _ => if String.eqb a "1.1.1.1" then Fail_ CLOSED else Response [1; 2])
    (fun _ => 0) 2000 None ["1.1.1.1"; "9.9.9.9"; "8.8.8.8"] ∅ ltac:(done)) as H.
  cbv zeta. destruct (query _ _ _ _ _ _) as [o q] eqn:E. vm_compute in E. injection E as <- <-.
  split_and!; [reflexivity|reflexivity|reflexivity|]. apply H.
Defined.
