(* ===== verification/DnsNames.v ===== *)
(** * Record names and their zones

    [server/src/utils/dns-names.js]: how a record's name is stored in its
    zone and the full name it is served as. *)

From S2P Require Import Prelude JsString.

(** [s.endsWith(p)] *)
Definition ends_with (p s : string) : bool :=
  (String.length p <=? String.length s)%nat && String.eqb (drop_string (String.length s - String.length p) s) p.

(** [s.replace(/\.$/, '')] *)
Definition cut_dot (s : string) : string :=
  if ends_with "." s then take_string (String.length s - 1) s else s.

Definition normalizeDnsName (name : string) : string := to_lower (cut_dot (trim name)).

Definition normalizeRecordNameForZone (name zoneName : string) : string :=
  let raw := to_lower (trim name) in
  let absolute := ends_with "." raw in
  let normalized := cut_dot raw in
  let zone := normalizeDnsName zoneName in
  if String.eqb normalized "@" || String.eqb normalized zone then "@"
  else if ends_with ("." +:+ zone) normalized
  then take_string (String.length normalized - (String.length zone + 1)) normalized
  else if absolute then normalized +:+ "." else normalized.

Definition fqdnForRecordName (recordName zoneName : string) : string :=
  let raw := to_lower (trim recordName) in
  let normalized := cut_dot raw in
  let zone := normalizeDnsName zoneName in
  if String.eqb normalized "@" || String.eqb normalized zone then zoneName
  else if ends_with ("." +:+ zone) normalized then normalized
  else if ends_with "." raw then normalized
  else normalized +:+ "." +:+ zoneName.

Example fqdn_relative : fqdnForRecordName " WWW " "example.com" = "www.example.com".
Proof. vm_compute. reflexivity. Qed.
Example fqdn_absolute : fqdnForRecordName "host.other.net." "example.com" = "host.other.net".
Proof. vm_compute. reflexivity. Qed.
Example stored_under_zone : normalizeRecordNameForZone "a.b.example.com." "example.com" = "a.b".
Proof. vm_compute. reflexivity. Qed.
