(* ===== verification/ReverseZones.v ===== *)
(** * Reverse DNS zones

    [server/src/utils/reverse-zones.js]: the zone names of a network, the
    network a zone name covers, and the reverse name of one address, for
    either family; with [inZone] of [server/src/backends/pdns/render.js]. *)

From S2P Require Import Prelude JsString Address Cidr DnsNames.

(** ** Names of a network *)

Definition octets_net (parsed : Network) : list Z := map (from_base 10) (split_char "." (network parsed)).

(** [`${a}.${b}.${c}.in-addr.arpa`] *)
Definition in_addr (octets : list Z) : string := join "." (map dec octets) +:+ ".in-addr.arpa".

(** [big.toString(16).padStart(32, '0').split('')] *)
Definition nibbles (big : Z) : list string := chars (pad_start 32 "0" (hex big)).

(** [octets[i]] of the four octets of an IPv4 network. *)
Definition at_ (octets : list Z) (i : nat) : Z := nth i octets 0.

Definition generateReverseNames (cidr : string) : result cidr_error (list string) :=
  parsed ← parseNetwork cidr;
  if family parsed =? 6 then
    let zoneNibbles := Z.min 31 (Z.max 1 (prefix parsed / 4)) in
    mret [join "." (rev (take (Z.to_nat zoneNibbles) (nibbles (networkBig parsed)))) +:+ ".ip6.arpa"]
  else
    let octets := octets_net parsed in
    if 24 <=? prefix parsed then mret [in_addr [at_ octets 2; at_ octets 1; at_ octets 0]]
    else if 17 <=? prefix parsed then
      let numBlocks := Z.shiftl 1 (24 - prefix parsed) in
      mret (map (fun i => in_addr [at_ octets 2 + i; at_ octets 1; at_ octets 0]) (seqZ 0 numBlocks))
    else if 16 <=? prefix parsed then mret [in_addr [at_ octets 1; at_ octets 0]]
    else if 8 <=? prefix parsed then mret [in_addr [at_ octets 0]]
    else mret [in_addr [at_ octets 2; at_ octets 1; at_ octets 0]].

Definition generateReverseName (cidr : string) : result cidr_error (option string) :=
  zones ← generateReverseNames cidr; mret (head zones).

(** ** The network of a name *)

(** A match of [/^((?:label\.){1,max})suffix$/]: the labels of group 1. Each
    label is followed by a dot, so its text splits into the labels and a last
    empty piece. *)
Definition match_labels (label : string -> bool) (max : nat) (suffix name : string) : option (list string) :=
  if negb (ends_with suffix name) then None
  else
    let pieces := split_char "." (take_string (String.length name - String.length suffix) name) in
    let labels := removelast pieces in
    if String.eqb (List.last pieces "") "" && (1 <=? length labels)%nat && (length labels <=? max)%nat
       && forallb label labels
    then Some labels else None.

(** [[0-9a-f]] *)
Definition nibble_label (s : string) : bool := (js_length s =? 1) && all_chars is_hex_lower s.

(** [hex.match(/.{4}/g)] *)
Fixpoint hextet_words (l : list string) : list string :=
  match l with
  | a :: b :: c :: d :: l' => (a +:+ b +:+ c +:+ d) :: hextet_words l'
  | _ => []
  end.

(** What throws is the [parseNetwork] of the IPv6 branch. *)
Definition reverseZoneNetwork (zoneName : string) : result cidr_error (option string) :=
  let name := cut_dot (to_lower zoneName) in
  match match_labels V4_OCTET_RE 3 "in-addr.arpa" name with
  | Some v4 =>
      let octets := rev v4 in
      if existsb (fun o => 255 <? from_base 10 o) octets then mret None
      else
        let padded := octets ++ replicate (4 - length octets) "0" in
        mret (Some (join "." padded +:+ "/" +:+ dec (Z.of_nat (length octets) * 8)))
  | None =>
      match match_labels nibble_label 32 "ip6.arpa" name with
      | Some v6 =>
          let ns := rev v6 in
          let hextets := join ":" (hextet_words (ns ++ replicate (32 - length ns) "0")) in
          let len := dec (Z.of_nat (length ns) * 4) in
          parsed ← parseNetwork (hextets +:+ "/" +:+ len);
          mret (Some (network parsed +:+ "/" +:+ len))
      | None => mret None
      end
  end.

(** ** The name of an address *)

Definition reverseNameOf (address : string) : option string :=
  match parseNetwork (address +:+ "/" +:+ (if has_char ":" address then "128" else "32")) with
  | Err _ => None
  | Ok parsed =>
      if family parsed =? 6 then Some (join "." (rev (nibbles (networkBig parsed))) +:+ ".ip6.arpa")
      else Some (join "." (rev (split_char "." (network parsed))) +:+ ".in-addr.arpa")
  end.

Definition inZone (name zone : string) : bool := String.eqb name zone || ends_with ("." +:+ zone) name.

Example names_22 : generateReverseNames "10.1.5.0/22" =
  Ok ["4.1.10.in-addr.arpa"; "5.1.10.in-addr.arpa"; "6.1.10.in-addr.arpa"; "7.1.10.in-addr.arpa"].
Proof. vm_compute. reflexivity. Qed.
Example names_v6 : generateReverseNames "2001:db8::/33" = Ok ["8.b.d.0.1.0.0.2.ip6.arpa"].
Proof. vm_compute. reflexivity. Qed.
Example zone_32 : reverseZoneNetwork "8.B.d.0.1.0.0.2.ip6.arpa." = Ok (Some "2001:db8::/32").
Proof. vm_compute. reflexivity. Qed.
Example zone_256 : reverseZoneNetwork "256.0.10.in-addr.arpa" = Ok None.
Proof. vm_compute. reflexivity. Qed.
Example zone_bare : reverseZoneNetwork "in-addr.arpa" = Ok None.
Proof. vm_compute. reflexivity. Qed.
Example name_of : reverseNameOf "2001:db8::1" =
  Some "1.0.0.0.0.0.0.0.0.0.0.0.0.0.0.0.0.0.0.0.0.0.0.0.8.b.d.0.1.0.0.2.ip6.arpa".
Proof. vm_compute. reflexivity. Qed.

(** A zone of IPv4-mapped addresses gets a text that is no network. *)
Example zone_mapped :
  reverseZoneNetwork "f.f.f.f.0.0.0.0.0.0.0.0.0.0.0.0.0.0.0.0.0.0.0.0.ip6.arpa" = Ok (Some "0.0.0.0/96") /\
  parseNetwork "0.0.0.0/96" = Err (InvalidPrefixLength 96).
Proof. split; vm_compute; reflexivity. Qed.

(** ** Lemmas: the digits of a number *)

Section Fields.
Context (base : Z) (dig : Z -> string) (Hbase : 2 <= base).

(** The [n] lowest digits, most significant first. *)
Fixpoint fields (n : nat) (v : Z) : list string :=
  match n with O => [] | S n' => fields n' (v / base) ++ [dig (v mod base)] end.

Lemma length_fields n v : length (fields n v) = n.
Proof. revert v. induction n as [|n IH]; intros v; cbn; [done|]. rewrite length_app, IH. cbn. lia. Qed.

Lemma fields_add k n v : fields (k + n) v = fields k (v / base ^ Z.of_nat n) ++ fields n v.
Proof.
  revert v. induction n as [|n IH]; intros v.
  - by rewrite Nat.add_0_r, Z.div_1_r, app_nil_r.
  - rewrite Nat.add_succ_r. cbn [fields]. rewrite IH, <- app_assoc. f_equal. f_equal.
    rewrite Z.div_div by (try apply Z.pow_pos_nonneg; lia). rewrite Nat2Z.inj_succ, Z.pow_succ_r by lia. done.
Qed.

Lemma take_fields k n v : (k <= n)%nat -> take k (fields n v) = fields k (v / base ^ Z.of_nat (n - k)).
Proof.
  intros Hk. replace n with (k + (n - k))%nat at 1 by lia. rewrite fields_add, take_app_le by (rewrite length_fields; lia).
  apply take_ge. rewrite length_fields. lia.
Qed.

Lemma fields_inj n v w :
  (forall a b, 0 <= a < base -> 0 <= b < base -> dig a = dig b -> a = b) ->
  0 <= v < base ^ Z.of_nat n -> 0 <= w < base ^ Z.of_nat n -> fields n v = fields n w -> v = w.
Proof.
  intros Hd. revert v w. induction n as [|n IH]; intros v w Hv Hw H; [change (base ^ Z.of_nat 0) with 1 in *; lia|].
  cbn [fields] in H. apply app_inj_tail in H as [H He]. apply Hd in He; [|apply Z.mod_pos_bound; lia..].
  rewrite Nat2Z.inj_succ, Z.pow_succ_r in Hv, Hw by lia.
  apply IH in H; [|split; [apply Z.div_pos; lia|apply Z.div_lt_upper_bound; lia]..].
  rewrite (Z_div_mod_eq_full v base), (Z_div_mod_eq_full w base). congruence.
Qed.

Lemma fields_zero n : fields n 0 = replicate n (dig 0).
Proof.
  induction n as [|n IH]; [done|]. cbn [fields]. rewrite Z.div_0_l, Z.mod_0_l, IH by lia.
  rewrite (replicate_S_end n). done.
Qed.

(** The digits of a number with its [n] lowest digits cleared. *)
Lemma fields_cleared k n v :
  fields (k + n) (v / base ^ Z.of_nat n * base ^ Z.of_nat n) = fields k (v / base ^ Z.of_nat n) ++ replicate n (dig 0).
Proof.
  pose proof (Z.pow_pos_nonneg base (Z.of_nat n) ltac:(lia) ltac:(lia)).
  rewrite fields_add, Z.div_mul by lia. f_equal. rewrite <- fields_zero.
  generalize (v / base ^ Z.of_nat n). clear -Hbase. induction n as [|n IH]; intros w; [done|]. cbn [fields].
  rewrite Nat2Z.inj_succ, Z.pow_succ_r by lia.
  replace (w * (base * base ^ Z.of_nat n)) with (w * base ^ Z.of_nat n * base) by lia.
  rewrite Z.div_mul, Z_mod_mult, Z.div_0_l, Z.mod_0_l, IH by lia. done.
Qed.

Lemma fields_all (P : string -> Prop) n v : (forall d, 0 <= d < base -> P (dig d)) -> Forall P (fields n v).
Proof.
  intros HP. revert v. induction n as [|n IH]; intros v; cbn; [constructor|]. apply Forall_app. split; [done|].
  repeat constructor. apply HP. apply Z.mod_pos_bound. lia.
Qed.
End Fields.

Definition nib (d : Z) : string := String (digit_char d) "".

Lemma octets_fields v : 0 <= v < 2 ^ 32 -> octets_of v = fields 256 dec 4 v.
Proof.
  intros Hv. unfold octets_of. cbn [map fields app]. change 255 with (2 ^ 8 - 1). rewrite !land_ones_mod, !Z.shiftr_div_pow2 by lia.
  rewrite !Z.div_div by lia. rewrite Z.div_1_r. done.
Qed.

Lemma chars_app s t : chars (s +:+ t) = chars s ++ chars t.
Proof. induction s as [|c s IH]; cbn; [done|]. by rewrite IH. Qed.

Definition concat_words : list string -> string := fold_right append "".

Lemma concat_words_app l m : concat_words (l ++ m) = concat_words l +:+ concat_words m.
Proof. induction l as [|w l IH]; cbn; [done|]. by rewrite IH, app_assoc_str. Qed.

Lemma from_nibbles n v : 0 <= v < 16 ^ Z.of_nat n -> from_base 16 (concat_words (fields 16 nib n v)) = v.
Proof.
  revert v. induction n as [|n IH]; intros v Hv; [change (16 ^ Z.of_nat 0) with 1 in Hv; cbn; unfold from_base; cbn; lia|].
  cbn [fields]. rewrite Nat2Z.inj_succ, Z.pow_succ_r in Hv by lia. rewrite concat_words_app, from_base_app. cbn [concat_words fold_right].
  rewrite app_nil_r_str. rewrite IH by (split; [apply Z.div_pos; lia|apply Z.div_lt_upper_bound; lia]).
  unfold nib, js_length, from_base. cbn [String.length from_base_aux]. rewrite digit_value_char by (apply Z.mod_pos_bound; lia).
  change (16 ^ Z.of_nat 1) with 16. pose proof (Z_div_mod_eq_full v 16). lia.
Qed.

Lemma nib_lower d : 0 <= d < 16 -> all_chars is_hex_lower (nib d) = true.
Proof. revert d. by apply digit_cases. Qed.

Lemma concat_words_all p l : Forall (fun w => all_chars p w = true) l -> all_chars p (concat_words l) = true.
Proof. induction 1 as [|w l Hw Hl IH]; cbn; [done|]. by rewrite all_chars_app, Hw, IH. Qed.

Lemma length_concat_nibs n v : String.length (concat_words (fields 16 nib n v)) = n.
Proof.
  revert v. induction n as [|n IH]; intros v; [done|]. cbn [fields]. rewrite concat_words_app, length_app_str, IH. cbn. lia.
Qed.

Lemma chars_nibs n v : chars (concat_words (fields 16 nib n v)) = fields 16 nib n v.
Proof. revert v. induction n as [|n IH]; intros v; [done|]. cbn [fields]. by rewrite concat_words_app, chars_app, IH. Qed.

Lemma pad_hex_nibs v : 0 <= v < 2 ^ 128 -> pad_start 32 "0" (hex v) = concat_words (fields 16 nib 32 v).
Proof.
  intros Hv. apply String.compare_eq_iff. rewrite compare_hex.
  - rewrite from_pad_start, from_hex, from_nibbles by (try done; lia). apply Z.compare_refl.
  - apply all_chars_pad_start; [done|]. apply hex_lower_digits. lia.
  - apply concat_words_all, fields_all; [lia|]. apply nib_lower.
  - rewrite length_concat_nibs, length_pad_start; [done|].
    pose proof (length_to_base 16 ltac:(lia) v 32 ltac:(lia) ltac:(lia)). unfold hex. lia.
Qed.

Lemma nibbles_fields v : 0 <= v < 2 ^ 128 -> nibbles v = fields 16 nib 32 v.
Proof. intros Hv. unfold nibbles. by rewrite pad_hex_nibs, chars_nibs. Qed.

(** ** Lemmas: the text of a name *)

(** A label: not empty, without a dot. *)
Definition label_ok (w : string) : Prop := w <> "" /\ has_char "." w = false.

(** The name of the labels [l], most significant first, under [tail]. *)
Definition reverse_text (tail : string) (l : list string) : string := join "." (rev l) +:+ "." +:+ tail.

Lemma ends_with_iff p s : ends_with p s = true <-> exists w, s = w +:+ p.
Proof.
  unfold ends_with. rewrite andb_true_iff, Nat.leb_le, String.eqb_eq. split.
  - intros [_ H]. exists (take_string (String.length s - String.length p) s). by rewrite <- H at 2; rewrite take_drop_string.
  - intros [w ->]. rewrite length_app_str. split; [lia|].
    replace (String.length w + String.length p - String.length p)%nat with (String.length w) by lia. apply drop_string_app.
Qed.

Lemma app_inj_suffix s s' t t' : String.length t = String.length t' -> s +:+ t = s' +:+ t' -> t = t'.
Proof.
  intros Hl H. assert (String.length s = String.length s') as He.
  { apply (f_equal String.length) in H. rewrite !length_app_str in H. lia. }
  apply (f_equal (drop_string (String.length s))) in H. by rewrite He, drop_string_app, <- He, drop_string_app in H.
Qed.

Lemma split_char_sep c s t : split_char c (s +:+ String c t) = split_char c s ++ split_char c t.
Proof.
  induction s as [|a s IH]; cbn.
  - pose proof (split_char_nonempty c t). destruct (split_char c t); [done|]. by rewrite Ascii.eqb_refl.
  - rewrite IH. pose proof (split_char_nonempty c s). destruct (split_char c s); [done|]. by destruct (Ascii.eqb c a).
Qed.

Lemma join_app sep a b : a <> [] -> b <> [] -> join sep (a ++ b) = join sep a +:+ sep +:+ join sep b.
Proof.
  intros Ha Hb. induction a as [|x a IH]; [done|]. destruct a as [|y a]; [by destruct b|].
  cbn [app join] in *. rewrite IH by done. by rewrite !app_assoc_str.
Qed.

Section Text.
Context (tail : string) (l : list string) (Hl : Forall label_ok l) (Hne : l <> []).

Lemma rev_labels : Forall (fun w => has_char "." w = false) (rev l).
Proof. apply List.Forall_rev. eapply Forall_impl; [exact Hl|]. by intros ? []. Qed.

Lemma rev_nonempty : rev l <> [].
Proof. intros H. apply Hne. rewrite <- (rev_involutive l), H. done. Qed.

Lemma split_reverse : split_char "." (reverse_text tail l) = rev l ++ split_char "." tail.
Proof. unfold reverse_text. change ("." +:+ tail) with (String "." tail). rewrite split_char_sep, split_char_join; [done|apply rev_nonempty|apply rev_labels]. Qed.

Lemma match_reverse label max :
  (length l <= max)%nat -> Forall (fun w => label w = true) l -> match_labels label max tail (reverse_text tail l) = Some (rev l).
Proof.
  intros Hm Ha. unfold match_labels. assert (reverse_text tail l = (join "." (rev l) +:+ ".") +:+ tail) as ->.
  { unfold reverse_text. by rewrite app_assoc_str. }
  rewrite (proj2 (ends_with_iff _ _)) by by eexists. cbn [negb]. rewrite length_app_str.
  replace (_ + String.length tail - String.length tail)%nat with (String.length (join "." (rev l) +:+ ".")) by lia.
  rewrite take_string_app, split_char_sep, split_char_join; [|apply rev_nonempty|apply rev_labels].
  cbn [split_char]. rewrite removelast_last, last_snoc_default, length_rev.
  destruct (Nat.leb_spec 1 (length l)); [|destruct l; [done|cbn [length] in *; lia]].
  destruct (Nat.leb_spec (length l) max); [|lia]. rewrite (proj2 (forallb_Forall label (rev l))); [done|]. by apply List.Forall_rev.
Qed.
End Text.

Lemma ends_with_split p s : ends_with ("." +:+ p) s = true -> exists m, split_char "." s = m ++ split_char "." p.
Proof. intros [w ->]%ends_with_iff. exists (split_char "." w). change ("." +:+ p) with (String "." p). apply split_char_sep. Qed.

(** Under a zone means beginning, from the most significant label, with the
    zone's labels. *)
Lemma in_zone_iff tail l z :
  Forall label_ok l -> Forall label_ok z -> z <> [] -> l <> [] ->
  inZone (reverse_text tail l) (reverse_text tail z) = true <-> z `prefix_of` l.
Proof.
  intros Hl Hz Hzn Hln. unfold inZone. rewrite orb_true_iff, String.eqb_eq. split.
  - assert (forall m, rev l ++ split_char "." tail = m ++ rev z ++ split_char "." tail -> z `prefix_of` l) as Hm.
    { intros m H. rewrite app_assoc in H. apply app_inj_2 in H as [H _]; [|done]. apply (f_equal (@rev string)) in H.
      rewrite rev_involutive, rev_app_distr, rev_involutive in H. by exists (rev m). }
    intros [H|(m & H)%ends_with_split].
    + apply (Hm []). apply (f_equal (split_char ".")) in H. by rewrite !split_reverse in H.
    + apply (Hm m). by rewrite !split_reverse in H.
  - intros [r ->]. destruct (decide (r = [])) as [->|Hr]; [left; by rewrite app_nil_r|right].
    apply ends_with_iff. exists (join "." (rev r)). unfold reverse_text. rewrite rev_app_distr.
    rewrite join_app; [|intros H; apply Hr; by rewrite <- (rev_involutive r), H|by apply rev_nonempty].
    by rewrite !app_assoc_str.
Qed.

(** A name of one family is under no zone of the other. *)
Lemma in_zone_families l z :
  Forall label_ok l -> Forall label_ok z -> z <> [] -> l <> [] ->
  inZone (reverse_text "in-addr.arpa" l) (reverse_text "ip6.arpa" z) = false /\
  inZone (reverse_text "ip6.arpa" l) (reverse_text "in-addr.arpa" z) = false.
Proof.
  intros Hl Hz Hzn Hln.
  assert (forall t t' x y, split_char "." t = [x; "arpa"] -> split_char "." t' = [y; "arpa"] -> x <> y ->
    inZone (reverse_text t l) (reverse_text t' z) = false) as H.
  { intros t t' x y Ht Ht' Hxy. apply not_true_is_false. unfold inZone. rewrite orb_true_iff, String.eqb_eq.
    intros H. assert (exists m, split_char "." (reverse_text t l) = m ++ split_char "." (reverse_text t' z)) as [m Hm].
    { destruct H as [-> |H%ends_with_split]; [by exists []|done]. }
    rewrite !split_reverse, Ht, Ht' in Hm by done. rewrite app_assoc in Hm.
    change [x; "arpa"] with ([x] ++ ["arpa"]) in Hm. change [y; "arpa"] with ([y] ++ ["arpa"]) in Hm. rewrite !app_assoc in Hm.
    apply app_inj_tail in Hm as [Hm _]. apply app_inj_tail in Hm as [_ Hm]. done. }
  split; [by apply (H _ _ "in-addr" "ip6")|by apply (H _ _ "ip6" "in-addr")].
Qed.

(** ** Lemmas: the labels of an address, by family *)

(** How many labels an address has and the bits of each. *)
Definition fam_labels (f : Z) : nat := if f =? 6 then 32 else 4.
Definition fam_width (f : Z) : Z := if f =? 6 then 4 else 8.
Definition fam_base (f : Z) : Z := if f =? 6 then 16 else 256.
Definition fam_digit (f : Z) : Z -> string := if f =? 6 then nib else dec.
Definition fam_tail (f : Z) : string := if f =? 6 then "ip6.arpa" else "in-addr.arpa".

Definition labels_of (f v : Z) : list string := fields (fam_base f) (fam_digit f) (fam_labels f) v.

(** The first [k] labels of [v], as a zone. *)
Definition zone_text (f : Z) (k : nat) (v : Z) : string := reverse_text (fam_tail f) (take k (labels_of f v)).

Lemma fam_base_ge f : 2 <= fam_base f.
Proof. unfold fam_base. destruct (f =? 6); lia. Qed.

Lemma fam_base_pow f n : fam_base f ^ Z.of_nat n = 2 ^ (fam_width f * Z.of_nat n).
Proof.
  unfold fam_base, fam_width. destruct (f =? 6).
  - rewrite Z.pow_mul_r by lia. done.
  - rewrite Z.pow_mul_r by lia. done.
Qed.

Lemma fam_bits_labels f b : fam_bits f b -> b = fam_width f * Z.of_nat (fam_labels f).
Proof. by inversion 1. Qed.

Lemma label_ok_all p w : w <> "" -> all_chars p w = true -> p "."%char = false -> label_ok w.
Proof. intros Hw Hp Hd. split; [done|]. by eapply has_char_class. Qed.

Lemma fam_digit_ok f d : 0 <= d < fam_base f -> label_ok (fam_digit f d).
Proof.
  unfold fam_base, fam_digit. destruct (f =? 6); intros Hd.
  - apply (label_ok_all is_hex_lower); [done|by apply nib_lower|done].
  - apply (label_ok_all is_digit); [apply dec_nonempty; lia|apply dec_digits; lia|done].
Qed.

Lemma fam_digit_inj f a b : 0 <= a < fam_base f -> 0 <= b < fam_base f -> fam_digit f a = fam_digit f b -> a = b.
Proof.
  unfold fam_base, fam_digit. destruct (f =? 6); intros Ha Hb H.
  - apply digit_char_inj; [done..|]. by injection H.
  - apply dec_inj; [lia..|done].
Qed.

Lemma length_labels f v : length (labels_of f v) = fam_labels f.
Proof. apply length_fields. Qed.

Lemma labels_ok f v : Forall label_ok (labels_of f v).
Proof. apply fields_all; [pose proof (fam_base_ge f); lia|apply fam_digit_ok]. Qed.

Lemma take_labels_ok f v k : Forall label_ok (take k (labels_of f v)).
Proof. apply Forall_take, labels_ok. Qed.

Lemma labels_nonempty f v : labels_of f v <> [].
Proof. intros H. apply (f_equal length) in H. rewrite length_labels in H. unfold fam_labels in H. by destruct (f =? 6). Qed.

Lemma take_labels_nonempty f v k : (0 < k)%nat -> take k (labels_of f v) <> [].
Proof.
  intros Hk H. apply (f_equal length) in H. rewrite length_take, length_labels in H. unfold fam_labels in H.
  destruct (f =? 6); cbn [length] in H; lia.
Qed.

(** Sharing the first [k] labels is lying in the same block. *)
Lemma take_labels_iff f b v w k :
  fam_bits f b -> 0 <= v < 2 ^ b -> 0 <= w < 2 ^ b -> (k <= fam_labels f)%nat ->
  take k (labels_of f v) = take k (labels_of f w) <->
  Z.shiftr v (b - fam_width f * Z.of_nat k) = Z.shiftr w (b - fam_width f * Z.of_nat k).
Proof.
  intros Hf Hv Hw Hk. pose proof (fam_bits_labels f b Hf) as Hb.
  assert (b - fam_width f * Z.of_nat k = fam_width f * Z.of_nat (fam_labels f - k)) as He.
  { rewrite Hb, Nat2Z.inj_sub by done. lia. }
  assert (0 < fam_width f) by (unfold fam_width; destruct (f =? 6); lia).
  assert (forall n, 0 <= fam_width f * Z.of_nat n) as Hn by (intros n; apply Z.mul_nonneg_nonneg; lia).
  rewrite He, !Z.shiftr_div_pow2 by apply Hn. unfold labels_of.
  rewrite !take_fields by (done || apply fam_base_ge). rewrite fam_base_pow. split; [|by intros ->].
  assert (forall x, 0 <= x < 2 ^ b -> 0 <= x / 2 ^ (fam_width f * Z.of_nat (fam_labels f - k)) < fam_base f ^ Z.of_nat k) as Hx.
  { intros x Hx. pose proof (pow2_pos _ (Hn (fam_labels f - k)%nat)).
    split; [apply Z.div_pos; lia|]. apply Z.div_lt_upper_bound; [lia|]. rewrite fam_base_pow, <- Z.pow_add_r by apply Hn.
    replace (_ + _) with b by lia. lia. }
  apply fields_inj; [apply fam_base_ge|apply fam_digit_inj|by apply Hx..].
Qed.

Lemma prefix_of_take {A} k (l m : list A) : (k <= length m)%nat -> length l = length m -> take k l `prefix_of` m <-> take k l = take k m.
Proof.
  intros Hk Hl. split.
  - intros [r ->]. rewrite take_app_le by (rewrite length_take; lia). rewrite take_take. f_equal. lia.
  - intros ->. exists (drop k m). by rewrite take_drop.
Qed.

Lemma labels_v4 v : 0 <= v < 2 ^ 32 -> labels_of 4 v = octets_of v.
Proof. intros. by rewrite octets_fields. Qed.
Lemma labels_v6 v : 0 <= v < 2 ^ 128 -> labels_of 6 v = nibbles v.
Proof. intros. by rewrite nibbles_fields. Qed.

Lemma split_octets v : split_char "." (join "." (octets_of v)) = octets_of v.
Proof.
  apply split_char_join; [done|]. eapply Forall_impl; [apply octets_of_words|]. intros w Hw. by destruct (octet_word_clean w "." Hw eq_refl).
Qed.

Lemma trim_no_char c s : has_char c s = false -> has_char c (trim s) = false.
Proof. unfold has_char. rewrite !some_char_false. intros H. unfold trim. by apply drop_while_end_all, drop_while_all. Qed.

Lemma addressToBig_colon ip a : addressToBig ip = Ok a -> a_family a = 6 -> has_char ":" ip = true.
Proof.
  unfold addressToBig, parseIp. intros H Hf. apply not_false_is_true. intros Hc%(trim_no_char ":").
  destruct (String.eqb (trim ip) ""); [done|]. destruct (index_of "%" (trim ip)); [done|].
  unfold parseIp_address in H. rewrite Hc in H. destruct (parseV4 (trim ip)); [|done]. by injection H as <-.
Qed.

Lemma build_full v b f : 0 <= b -> 0 <= v < 2 ^ b -> networkBig (buildNetwork v b f b) = v.
Proof. intros. rewrite build_networkBig, Z.sub_diag, Z.mod_1_r by lia. lia. Qed.

(** The reverse name of an address is all its labels. *)
Lemma reverseNameOf_text ip a :
  addressToBig ip = Ok a -> reverseNameOf ip = Some (reverse_text (fam_tail (a_family a)) (labels_of (a_family a) (a_value a))).
Proof.
  intros Ha. pose proof (addressToBig_ok ip a Ha) as [Hf Hv%spellable_bounds]. pose proof (addressToBig_colon ip a Ha) as Hc.
  unfold reverseNameOf. change "128" with (dec 128). change "32" with (dec 32).
  replace (if has_char ":" ip then dec 128 else dec 32) with (dec (if has_char ":" ip then 128 else 32)) by (by destruct (has_char ":" ip)).
  rewrite (parse_text ip a) by (done || by destruct (has_char ":" ip)). destruct a as [v b f]. cbn [a_value a_bits a_family] in *.
  assert (networkBig (buildNetwork v b f b) = v) as Hn.
  { apply build_full; [inversion Hf; lia|done]. }
  inversion Hf; subst.
  - replace ((if (4 =? 4) && has_char ":" ip && _ then _ else _)) with (Ok (E:=cidr_error) (buildNetwork v 32 4 32)) by (by destruct (has_char ":" ip)).
    cbn [family buildNetwork Z.eqb Pos.eqb]. rewrite (labels_v4 v Hv).
    change (network (buildNetwork v 32 4 32)) with (join "." (octets_of (networkBig (buildNetwork v 32 4 32)))).
    rewrite Hn, split_octets. done.
  - rewrite Hc by done. cbn [andb Z.eqb Pos.eqb Z.ltb Z.compare Pos.compare Pos.compare_cont orb family buildNetwork]. 
    rewrite Hn, (labels_v6 v Hv). done.
Qed.

(** ** Lemmas: the network of a zone *)

(** The text of a zone is already plain. *)
Lemma reverse_plain f l :
  Forall (fun w => all_chars is_hex_lower w = true) l ->
  cut_dot (to_lower (reverse_text (fam_tail f) l)) = reverse_text (fam_tail f) l.
Proof.
  intros Hl. rewrite to_lower_id.
  - unfold cut_dot. destruct (ends_with "." _) eqn:He; [|done]. apply ends_with_iff in He as [w He]. exfalso.
    unfold reverse_text, fam_tail in He. destruct (f =? 6).
    + change ("." +:+ "ip6.arpa") with (".ip6.arp" +:+ "a") in He. rewrite app_assoc_str in He. by apply app_inj_suffix in He.
    + change ("." +:+ "in-addr.arpa") with (".in-addr.arp" +:+ "a") in He. rewrite app_assoc_str in He. by apply app_inj_suffix in He.
  - unfold reverse_text. rewrite !all_chars_app, all_chars_join; [unfold fam_tail; by destruct (f =? 6)|done|].
    apply List.Forall_rev. eapply Forall_impl; [exact Hl|]. intros w Hw. eapply all_chars_impl; [|exact Hw].
    intros c Hc. unfold is_hex_lower, is_digit, is_upper, in_range in *. apply negb_true_iff, not_true_is_false. intros Hu.
    split_leb; simpl in *; lia || done.
Qed.

Lemma labels_lower f v : Forall (fun w => all_chars is_hex_lower w = true) (labels_of f v).
Proof.
  apply fields_all; [pose proof (fam_base_ge f); lia|]. intros d Hd. unfold fam_base, fam_digit in *. destruct (f =? 6).
  - by apply nib_lower.
  - eapply all_chars_impl; [|apply dec_digits; lia]. intros c Hc. unfold is_hex_lower. by rewrite Hc.
Qed.

(** The block of the first [k] labels. *)
Definition block (f b v : Z) (k : nat) : Network := buildNetwork v b f (fam_width f * Z.of_nat k).

Lemma block_start f b v k :
  fam_bits f b -> 0 <= v < 2 ^ b -> (k <= fam_labels f)%nat ->
  networkBig (block f b v k) = v / fam_base f ^ Z.of_nat (fam_labels f - k) * fam_base f ^ Z.of_nat (fam_labels f - k).
Proof.
  intros Hf Hv Hk. pose proof (fam_bits_labels f b Hf) as Hb. assert (0 < fam_width f) by (unfold fam_width; destruct (f =? 6); lia).
  unfold block. rewrite build_networkBig by nia. rewrite fam_base_pow, Nat2Z.inj_sub by done.
  replace (fam_width f * (Z.of_nat (fam_labels f) - Z.of_nat k)) with (b - fam_width f * Z.of_nat k) by lia.
  set (B := 2 ^ _). pose proof (Z_div_mod_eq_full v B). lia.
Qed.

(** The labels of the block's first address: the zone's labels, then zeros. *)
Lemma labels_padded f b v k :
  fam_bits f b -> 0 <= v < 2 ^ b -> (k <= fam_labels f)%nat ->
  labels_of f (networkBig (block f b v k)) = take k (labels_of f v) ++ replicate (fam_labels f - k) (fam_digit f 0).
Proof.
  intros Hf Hv Hk. rewrite (block_start f b v k Hf Hv Hk). unfold labels_of. pose proof (fam_base_ge f).
  rewrite take_fields by done. replace (fam_labels f) with (k + (fam_labels f - k))%nat at 1 by lia. by rewrite fields_cleared.
Qed.

Lemma block_wf f b v k : fam_bits f b -> spellable v b -> (k <= fam_labels f)%nat -> wf_network (block f b v k).
Proof.
  intros Hf Hv Hk. apply buildNetwork_wf; [done..|]. rewrite (fam_bits_labels f b Hf).
  assert (0 < fam_width f) by (unfold fam_width; destruct (f =? 6); lia). nia.
Qed.

Lemma zone_plain f v k : cut_dot (to_lower (zone_text f k v)) = zone_text f k v.
Proof. apply reverse_plain, Forall_take, labels_lower. Qed.

Lemma labels_octets v : Forall octet_word (labels_of 4 v).
Proof. apply fields_all; [cbn; lia|]. intros d Hd. by apply octet_word_dec. Qed.

Lemma length_take_labels f v k : (k <= fam_labels f)%nat -> length (take k (labels_of f v)) = k.
Proof. intros. rewrite length_take, length_labels. lia. Qed.

Lemma zone_net_v4 v k :
  0 <= v < 2 ^ 32 -> (1 <= k <= 3)%nat -> reverseZoneNetwork (zone_text 4 k v) = Ok (Some (cidr (block 4 32 v k))).
Proof.
  intros Hv Hk. unfold reverseZoneNetwork. rewrite zone_plain.
  pose proof (labels_octets v) as Ho. apply (Forall_take _ k) in Ho.
  assert (length (take k (labels_of 4 v)) = k) as Hlen by (apply length_take_labels; change (fam_labels 4) with 4%nat; lia).
  change (zone_text 4 k v) with (reverse_text "in-addr.arpa" (take k (labels_of 4 v))).
  rewrite match_reverse; [|apply take_labels_ok|apply take_labels_nonempty; lia|rewrite Hlen; lia|eapply Forall_impl; [exact Ho|by intros ? []]].
  rewrite rev_involutive. replace (existsb _ _) with false.
  2:{ symmetry. apply not_true_is_false. intros (o & Hin & Hlt%Z.ltb_lt)%existsb_exists.
      rewrite List.Forall_forall in Ho. destruct (Ho o Hin). lia. }
  rewrite Hlen. unfold mret, result_ret. do 2 f_equal.
  change (cidr (block 4 32 v k)) with (join "." (octets_of (networkBig (block 4 32 v k))) +:+ "/" +:+ dec (8 * Z.of_nat k)).
  rewrite <- labels_v4.
  - rewrite (labels_padded 4 32 v k) by (constructor || done || cbn; lia). rewrite (Z.mul_comm 8). done.
  - rewrite (block_start 4 32 v k) by (constructor || done || cbn; lia).
    pose proof (Z.pow_pos_nonneg 256 (Z.of_nat (4 - k)) ltac:(lia) ltac:(lia)). change (fam_base 4) with 256. change (fam_labels 4) with 4%nat.
    pose proof (Z_div_mod_eq_full v (256 ^ Z.of_nat (4 - k))). pose proof (Z.mod_pos_bound v (256 ^ Z.of_nat (4 - k)) ltac:(lia)).
    pose proof (Z.div_pos v (256 ^ Z.of_nat (4 - k)) ltac:(lia) ltac:(lia)). nia.
Qed.

(** ** The hextets of a zone *)

Lemma length_concat_labels l :
  Forall (fun w => nibble_label w = true) l -> String.length (concat_words l) = length l.
Proof.
  induction 1 as [|w l Hw Hl IH]; [done|]. change (concat_words (w :: l)) with (w +:+ concat_words l).
  rewrite length_app_str, IH. unfold nibble_label, js_length in Hw. reflect_bools. cbn [length]. lia.
Qed.

Lemma hextet_words_spec j l acc :
  length l = (4 * j)%nat -> Forall (fun w => nibble_label w = true) l ->
  clean_parts (hextet_words l) /\ length (hextet_words l) = j /\
  parseV6_loop (hextet_words l) acc = Some (acc * 2 ^ (16 * Z.of_nat j) + from_base 16 (concat_words l)).
Proof.
  revert l acc. induction j as [|j IH]; intros l acc Hlen Hl.
  - destruct l; [|done]. split; [constructor|]. split; [done|]. cbn. f_equal. unfold from_base. cbn. lia.
  - destruct l as [|a [|b [|c [|d l]]]]; try (cbn in Hlen; lia). do 4 (apply Forall_cons in Hl as [? Hl]).
    assert (length l = (4 * j)%nat) as Hl' by (cbn [length] in Hlen; lia).
    assert (V6_GROUP_RE (a +:+ b +:+ c +:+ d) = true /\ js_length (a +:+ b +:+ c +:+ d) = 4) as [Hw H4].
    { unfold V6_GROUP_RE, nibble_label, js_length in *. reflect_bools. rewrite !length_app_str. split; [|lia].
      rewrite !andb_true_iff, !Z.leb_le, !all_chars_app, !andb_true_iff.
      split; [lia|]. split_and!; (eapply all_chars_impl; [apply hex_lower_is_hex|done]). }
    cbn [hextet_words]. destruct (IH l (acc * 2 ^ 16 + from_base 16 (a +:+ b +:+ c +:+ d)) Hl' Hl) as (Hc & Hn & Hp).
    split; [by constructor|]. split; [cbn; by rewrite Hn|]. cbn [parseV6_loop]. rewrite Hw. cbn [negb].
    rewrite shiftl_pow, Hp by lia. f_equal. change (concat_words (a :: b :: c :: d :: l)) with (a +:+ b +:+ c +:+ d +:+ concat_words l).
    replace (a +:+ b +:+ c +:+ d +:+ concat_words l) with ((a +:+ b +:+ c +:+ d) +:+ concat_words l) by (by rewrite !app_assoc_str).
    rewrite (from_base_app 16 (a +:+ b +:+ c +:+ d) (concat_words l)). replace (16 ^ js_length (concat_words l)) with (2 ^ (16 * Z.of_nat j)).
    2:{ replace (js_length (concat_words l)) with (4 * Z.of_nat j).
        - change 16 with (2 ^ 4) at 2. rewrite <- Z.pow_mul_r by lia. f_equal. lia.
        - unfold js_length. rewrite length_concat_labels by done. lia. }
    rewrite Nat2Z.inj_succ. replace (16 * Z.succ (Z.of_nat j)) with (16 + 16 * Z.of_nat j) by lia. rewrite Z.pow_add_r by lia. ring.
Qed.

Lemma labels_nibbles v : Forall (fun w => nibble_label w = true) (labels_of 6 v).
Proof. apply fields_all; [cbn; lia|]. intros d Hd. unfold nibble_label. by rewrite nib_lower. Qed.

(** Eight full hextets are read back. *)
Lemma hextets_read m :
  spellable m 128 -> addressToBig (join ":" (hextet_words (labels_of 6 m))) = Ok (mkAddress m 128 6).
Proof.
  intros Hs. pose proof (spellable_bounds m 128 Hs) as Hm. set (words := hextet_words (labels_of 6 m)).
  destruct (hextet_words_spec 8 (labels_of 6 m) 0) as (Hc & Hn & Hp); [apply length_labels|apply labels_nibbles|].
  rewrite Z.mul_0_l, Z.add_0_l in Hp. unfold labels_of at 2 in Hp. change (fields _ _ _ m) with (fields 16 nib 32 m) in Hp.
  rewrite from_nibbles in Hp by (cbn in *; lia). fold words in Hc, Hn, Hp.
  assert (all_chars address_char (join ":" words) = true) as Ha.
  { apply all_chars_join; [done|]. eapply Forall_impl; [exact Hc|]. intros w Hw. unfold hextet_word, V6_GROUP_RE in Hw. reflect_bools.
    eapply all_chars_impl; [|done]. intros c Hh. unfold address_char. by rewrite Hh. }
  assert (has_char ":" (join ":" words) = true) as Hcol.
  { clearbody words. destruct words as [|x [|y l]]; [done..|]. apply has_char_join_sep. }
  unfold addressToBig. rewrite parseIp_plain.
  - unfold parseIp_address. rewrite Hcol, parseV6_full, Hp by done. rewrite mapped_test by done.
    destruct Hs as [[? _]|(_ & _ & Hmap)]; [done|]. rewrite Hmap by done. done.
  - eapply all_chars_impl; [apply address_char_no_space|done].
  - by apply (has_char_class "%" address_char).
  - intros He. by rewrite He in Hcol.
Qed.

Lemma build_cidr v b f p : cidr (buildNetwork v b f p) = network (buildNetwork v b f p) +:+ "/" +:+ dec p.
Proof. reflexivity. Qed.

Lemma zone_net_v6 v k :
  spellable v 128 -> (1 <= k <= 31)%nat -> reverseZoneNetwork (zone_text 6 k v) = Ok (Some (cidr (block 6 128 v k))).
Proof.
  intros Hs Hk. pose proof (spellable_bounds v 128 Hs) as Hv. unfold reverseZoneNetwork. rewrite zone_plain.
  assert (length (take k (labels_of 6 v)) = k) as Hlen by (apply length_take_labels; change (fam_labels 6) with 32%nat; lia).
  change (zone_text 6 k v) with (reverse_text "ip6.arpa" (take k (labels_of 6 v))).
  replace (match_labels V4_OCTET_RE 3 "in-addr.arpa" _) with (@None (list string)).
  2:{ unfold match_labels. destruct (ends_with "in-addr.arpa" _) eqn:He; [|done]. apply ends_with_iff in He as [w He]. exfalso.
      unfold reverse_text in He. change ("." +:+ "ip6.arpa") with ("." +:+ "ip6.arpa") in He. rewrite app_assoc_str in He.
      change "in-addr.arpa" with ("in-a" +:+ "ddr.arpa") in He. rewrite (app_assoc_str w) in He. by apply app_inj_suffix in He. }
  rewrite match_reverse; [|apply take_labels_ok|apply take_labels_nonempty; lia|rewrite Hlen; lia|apply Forall_take, labels_nibbles].
  rewrite rev_involutive, Hlen. change "0" with (fam_digit 6 0) at 1. change 32%nat with (fam_labels 6) at 1.
  rewrite <- (labels_padded 6 128 v k) by (constructor || done || cbn; lia).
  assert (wf_network (block 6 128 v k)) as Hwf by (apply block_wf; [constructor|done|cbn; lia]).
  assert (spellable (networkBig (block 6 128 v k)) 128) as Hsp by apply Hwf.
  assert (block 6 128 v k = buildNetwork v 128 6 (Z.of_nat k * 4)) as Hb by (unfold block; by rewrite Z.mul_comm).
  rewrite (parse_text _ (mkAddress (networkBig (block 6 128 v k)) 128 6)) by (by apply hextets_read || lia).
  cbn [a_family a_value a_bits Z.eqb Pos.eqb andb]. destruct (Z.ltb_spec (Z.of_nat k * 4) 0); [lia|].
  destruct (Z.ltb_spec 128 (Z.of_nat k * 4)); [lia|]. cbn [orb].
  rewrite Hb, build_again, build_cidr. done.
Qed.

(** ** Lemmas: the zones of a network *)

(** How many labels the zones of a network have, and the address each is
    named after. *)
Definition zone_size (n : Network) : nat :=
  if family n =? 6 then Z.to_nat (Z.min 31 (Z.max 1 (prefix n / 4)))
  else if 17 <=? prefix n then 3%nat else if 16 <=? prefix n then 2%nat else if 8 <=? prefix n then 1%nat else 3%nat.

Definition zone_starts (n : Network) : list Z :=
  if (family n =? 4) && (17 <=? prefix n) && (prefix n <? 24)
  then map (fun i => networkBig n + i * 256) (seqZ 0 (2 ^ (24 - prefix n)))
  else [networkBig n].

Lemma octets_net_eq n :
  wf_network n -> family n = 4 ->
  octets_net n = map (fun s => Z.land (Z.shiftr (networkBig n) s) 255) [24; 16; 8; 0].
Proof.
  intros Hn Hf. unfold octets_net. rewrite (wf_text n Hn), Hf. change (bigToAddress (networkBig n) 4) with (join "." (octets_of (networkBig n))).
  rewrite split_octets. unfold octets_of. rewrite map_map. apply map_ext_in. intros s Hs. apply from_dec.
  apply octet_bounds. cbn in Hs. lia.
Qed.

Lemma in_addr_text l : in_addr l = reverse_text "in-addr.arpa" (rev (map dec l)).
Proof. unfold in_addr, reverse_text. by rewrite rev_involutive. Qed.

(** Moving to the [i]-th /24 of a network changes the third octet alone. *)
Lemma third_octet N q i :
  0 <= q <= 8 -> N mod 2 ^ (q + 8) = 0 -> 0 <= i < 2 ^ q ->
  map (fun s => Z.land (Z.shiftr (N + i * 256) s) 255) [24; 16; 8] =
  [Z.land (Z.shiftr N 24) 255; Z.land (Z.shiftr N 16) 255; Z.land (Z.shiftr N 8) 255 + i].
Proof.
  intros Hq HN Hi. pose proof (pow2_pos q ltac:(lia)) as Hp.
  assert (exists x, N = x * 256 /\ x mod 2 ^ q = 0) as (x & -> & Hx).
  { apply Z.mod_divide in HN as [y ->]; [|pose proof (pow2_pos (q + 8)); lia]. exists (y * 2 ^ q).
    rewrite Z.pow_add_r by lia. split; [lia|]. apply Z_mod_mult. }
  assert (x mod 256 + 2 ^ q <= 256) as Hgap.
  { pose proof (Z.mod_pos_bound x 256 ltac:(lia)).
    assert (2 ^ q * 2 ^ (8 - q) = 256) as H256 by (rewrite <- Z.pow_add_r by lia; replace (q + (8 - q)) with 8 by lia; done).
    apply (aligned_gap _ _ q); [lia| | |lia].
    - rewrite <- H256, Z.mul_comm. rewrite Z.mul_comm. apply Z.mod_divide in Hx as [k ->]; [|lia].
      rewrite (Z.mul_comm k), Z.mul_mod_distr_l by (pose proof (pow2_pos (8 - q)); lia). rewrite Z.mul_comm. apply Z_mod_mult.
    - apply Z.mod_divide; [lia|]. exists (2 ^ (8 - q)). lia. }
  pose proof (Z_div_mod_eq_full x 256) as Hd. pose proof (Z.mod_pos_bound x 256 ltac:(lia)).
  assert ((x + i) / 256 = x / 256) as Hdiv by (symmetry; apply Z.div_unique with (x mod 256 + i); lia).
  assert ((x + i) mod 256 = x mod 256 + i) as Hmod by (symmetry; apply Z.mod_unique with (x / 256); lia).
  cbn [map]. change 255 with (2 ^ 8 - 1). rewrite !land_ones_mod, !Z.shiftr_div_pow2 by lia.
  replace (x * 256 + i * 256) with ((x + i) * 256) by lia. change (2 ^ 8) with 256.
  change (2 ^ 24) with (256 * 256 * 256). change (2 ^ 16) with (256 * 256).
  rewrite <- !Z.div_div by lia. rewrite !Z.div_mul, Hdiv, Hmod by lia. done.
Qed.

Lemma octets_zone_text v l k :
  0 <= v < 2 ^ 32 -> take k (octets_of v) = rev (map dec l) -> in_addr l = zone_text 4 k v.
Proof. intros Hv Hl. rewrite in_addr_text. unfold zone_text. rewrite labels_v4 by done. by rewrite Hl. Qed.

Lemma wf_cases n : wf_network n -> family n = 4 /\ nbits n = 32 \/ family n = 6 /\ nbits n = 128.
Proof. intros Hn. pose proof (wf_family n Hn) as H. inversion H; auto. Qed.

Lemma generate_text c n :
  parseNetwork c = Ok n ->
  generateReverseNames c = Ok (map (zone_text (family n) (zone_size n)) (zone_starts n)).
Proof.
  intros Hc. pose proof (parseNetwork_wf c n Hc) as Hn. unfold generateReverseNames. rewrite Hc. cbn [mbind result_bind].
  pose proof (spellable_bounds _ _ (wf_spellable n Hn)) as Hb. pose proof (wf_prefix n Hn) as Hp.
  pose proof (wf_aligned n Hn) as Ha. unfold zone_size, zone_starts.
  destruct (wf_cases n Hn) as [[Hf Hbits]|[Hf Hbits]]; rewrite Hf; rewrite Hbits in *; cbn [Z.eqb Pos.eqb andb].
  2:{ cbn [map]. unfold zone_text. by rewrite labels_v6. }
  rewrite octets_net_eq by done. unfold at_. cbn [map nth].
  destruct (Z.leb_spec 24 (prefix n)) as [H24|H24].
  { destruct (Z.leb_spec 17 (prefix n)); [|lia]. destruct (Z.ltb_spec (prefix n) 24); [lia|]. cbn [andb map].
    by rewrite (octets_zone_text (networkBig n) _ 3). }
  destruct (Z.leb_spec 17 (prefix n)) as [H17|H17].
  - destruct (Z.ltb_spec (prefix n) 24); [|lia]. cbn [andb]. rewrite map_map, shiftl_one by lia.
    unfold mret, result_ret. f_equal. apply map_ext_in. intros i Hi.
    assert (0 <= i < 2 ^ (24 - prefix n)) as Hi' by (apply list_elem_of_In, elem_of_seqZ in Hi; lia).
    apply octets_zone_text.
    + pose proof (wf_last n Hn). pose proof (wf_last_bound n Hn). rewrite Hbits in *.
      replace (32 - prefix n) with (24 - prefix n + 8) in * by lia. rewrite Z.pow_add_r in * by lia. lia.
    + pose proof (third_octet (networkBig n) (24 - prefix n) i ltac:(lia)) as H3.
      replace (24 - prefix n + 8) with (32 - prefix n) in H3 by lia. specialize (H3 Ha Hi'). cbn [map] in H3.
      unfold octets_of. cbn [map take rev app]. injection H3 as -> -> ->. done.
  - cbn [andb map]. destruct (Z.leb_spec 16 (prefix n)); [by rewrite (octets_zone_text (networkBig n) _ 2)|].
    destruct (Z.leb_spec 8 (prefix n)); [by rewrite (octets_zone_text (networkBig n) _ 1)|by rewrite (octets_zone_text (networkBig n) _ 3)].
Qed.

Lemma block_span f b v k x :
  fam_bits f b -> spellable v b -> (k <= fam_labels f)%nat ->
  let h := b - fam_width f * Z.of_nat k in
  covers (block f b v k) f x <-> v - v mod 2 ^ h <= x <= v - v mod 2 ^ h + (2 ^ h - 1).
Proof.
  intros Hf Hs Hk h. pose proof (spellable_bounds v b Hs) as Hv. assert (0 <= fam_width f * Z.of_nat k <= b) as Hp.
  { apply (wf_prefix _ (block_wf f b v k Hf Hs Hk)). }
  unfold covers. change (family (block f b v k)) with f. unfold block. rewrite build_networkBig, build_lastBig by done.
  split; [by intros [_ ?]|done].
Qed.

Lemma block_same f b v k x :
  fam_bits f b -> spellable v b -> (k <= fam_labels f)%nat ->
  let h := b - fam_width f * Z.of_nat k in
  covers (block f b v k) f x <-> Z.shiftr v h = Z.shiftr x h.
Proof.
  intros Hf Hs Hk h. rewrite block_span by done. fold h. assert (0 <= h) as Hh.
  { pose proof (wf_prefix _ (block_wf f b v k Hf Hs Hk)) as Hp. unfold h. change (prefix (block f b v k)) with (fam_width f * Z.of_nat k) in Hp.
    change (nbits (block f b v k)) with b in Hp. lia. }
  rewrite !Z.shiftr_div_pow2 by done. pose proof (pow2_pos h Hh). pose proof (Z_div_mod_eq_full v (2 ^ h)). split.
  - intros Hx. apply Z.div_unique with (x - 2 ^ h * (v / 2 ^ h)); lia.
  - intros Hd. pose proof (Z_div_mod_eq_full x (2 ^ h)). pose proof (Z.mod_pos_bound x (2 ^ h) ltac:(lia)). rewrite Hd in *. lia.
Qed.

(** ** What a zone name means *)

(** The zone stands for the network: it is what [reverseZoneNetwork] reads of
    the name, and the addresses of the network are those whose reverse name
    is in the zone. *)
Definition stands_for (zone : string) (net : Network) : Prop :=
  wf_network net /\ reverseZoneNetwork zone = Ok (Some (cidr net)) /\
  forall ip a, addressToBig ip = Ok a -> exists name, reverseNameOf ip = Some name /\
    (inZone name zone = true <-> covers net (a_family a) (a_value a)).

Lemma zone_stands_for f b v k :
  fam_bits f b -> spellable v b -> (1 <= k < fam_labels f)%nat -> stands_for (zone_text f k v) (block f b v k).
Proof.
  intros Hf Hs Hk. pose proof (spellable_bounds v b Hs) as Hv. pose proof (block_wf f b v k Hf Hs ltac:(lia)) as Hwf.
  split; [done|]. split.
  { inversion Hf; subst; [apply zone_net_v4|apply zone_net_v6]; (done || cbn in Hk; lia). }
  intros ip a Ha. eexists. split; [by apply reverseNameOf_text|]. pose proof (addressToBig_ok ip a Ha) as [Hfa Hsa].
  pose proof (spellable_bounds _ _ Hsa) as Hva. unfold covers. change (family (block f b v k)) with f.
  assert (forall f' x, Forall label_ok (take k (labels_of f v)) /\ Forall label_ok (labels_of f' x)) as Hok
    by (intros; split; [apply take_labels_ok|apply labels_ok]).
  destruct (decide (f = a_family a)) as [He|Hne].
  - rewrite He in *. assert (b = a_bits a) as -> by (by apply (fam_bits_inj _ _ _ _ Hf Hfa)).
    rewrite (in_zone_iff _ _ _ (proj2 (Hok _ _)) (proj1 (Hok 4 0))); [|apply take_labels_nonempty; lia|apply labels_nonempty].
    rewrite prefix_of_take by (rewrite !length_labels; lia). rewrite (take_labels_iff _ _ _ _ _ Hf Hv Hva) by lia.
    symmetry. rewrite <- block_same by (done || lia). unfold covers. done.
  - split; [|intros [? _]; done]. intros Hz. exfalso. revert Hz. unfold zone_text.
    assert (take k (labels_of f v) <> []) as H1 by (apply take_labels_nonempty; lia).
    destruct (in_zone_families (labels_of (a_family a) (a_value a)) (take k (labels_of f v))) as [H4 H6];
      [apply labels_ok|apply take_labels_ok|done|apply labels_nonempty|].
    clear -Hf Hfa Hne H4 H6. inversion Hf; subst; inversion Hfa; subst; unfold fam_tail in *; cbn [Z.eqb Pos.eqb] in *; congruence.
Qed.

(** The blocks of the zones of a network. *)
Definition zone_nets (n : Network) : list Network :=
  map (fun v => block (family n) (nbits n) v (zone_size n)) (zone_starts n).

(** The shortest prefix whose zones hold the whole network, and the prefixes
    that end at a zone boundary. *)
Definition min_prefix (n : Network) : Z := if family n =? 6 then 4 else 8.
Definition whole (n : Network) : bool :=
  if family n =? 6 then (prefix n mod 4 =? 0) && (4 <=? prefix n) && (prefix n <=? 124)
  else (17 <=? prefix n) && (prefix n <=? 24) || (prefix n =? 16) || (prefix n =? 8).

(** A network the /24 split applies to. *)
Definition many (n : Network) : Prop := family n = 4 /\ 17 <= prefix n < 24.

#[export] Instance many_dec n : Decision (many n).
Proof. unfold many. apply _. Defined.

Section Zones.
Context (n : Network) (Hn : wf_network n).
Let N := networkBig n.
Let h := nbits n - prefix n.

Lemma covers_span f x : covers n f x <-> family n = f /\ N <= x <= N + (2 ^ h - 1).
Proof. unfold covers, N, h. rewrite (wf_last n Hn). split; intros [? ?]; split; (done || lia). Qed.

Lemma zone_starts_many : many n -> zone_starts n = map (fun i => N + i * 256) (seqZ 0 (2 ^ (24 - prefix n))).
Proof.
  intros [Hf Hp]. unfold zone_starts. rewrite Hf. destruct (Z.leb_spec 17 (prefix n)); [|lia]. destruct (Z.ltb_spec (prefix n) 24); [|lia]. done.
Qed.

Lemma zone_starts_one : ~ many n -> zone_starts n = [N].
Proof.
  intros Hm. unfold zone_starts. destruct (Z.eqb_spec (family n) 4); [|done].
  destruct (Z.leb_spec 17 (prefix n)); [|done]. destruct (Z.ltb_spec (prefix n) 24); [|done]. exfalso. by apply Hm.
Qed.

Lemma zone_size_bounds : (1 <= zone_size n < fam_labels (family n))%nat.
Proof.
  unfold zone_size, fam_labels. destruct (family n =? 6); [lia|].
  destruct (17 <=? prefix n), (16 <=? prefix n), (8 <=? prefix n); lia.
Qed.

(** Every start is an address of the network. *)
Lemma zone_starts_in v : v ∈ zone_starts n -> covers n (family n) v.
Proof.
  rewrite covers_span. intros Hv. split; [done|]. pose proof (pow2_pos h (wf_bits_nonneg n Hn)) as Hh.
  destruct (decide (many n)) as [Hm|Hm]; [|rewrite zone_starts_one in Hv by done; apply list_elem_of_singleton in Hv; lia].
  rewrite zone_starts_many in Hv by done. apply list_elem_of_In, in_map_iff in Hv as (i & <- & Hi).
  apply list_elem_of_In, elem_of_seqZ in Hi. destruct Hm as [Hf Hp]. destruct (wf_cases n Hn) as [[_ Hb]|[? _]]; [|congruence].
  unfold h in *. rewrite Hb in *. replace (32 - prefix n) with (24 - prefix n + 8) in * by lia. rewrite Z.pow_add_r in * by lia. lia.
Qed.

Lemma zone_starts_spellable v : v ∈ zone_starts n -> spellable v (nbits n).
Proof.
  intros Hv. destruct (decide (many n)) as [Hm|Hm].
  - apply zone_starts_in in Hv as [_ Hv]. destruct Hm as [Hf _]. destruct (wf_cases n Hn) as [[_ Hb]|[? _]]; [|congruence].
    left. rewrite Hb. split; [done|]. pose proof (wf_last_bound n Hn) as Hl. rewrite Hb in Hl. pose proof (wf_order n Hn). lia.
  - rewrite zone_starts_one in Hv by done. apply list_elem_of_singleton in Hv as ->. apply (wf_spellable n Hn).
Qed.

(** A zone no longer than the prefix holds the network. *)
Lemma covered_by_short k x :
  (k <= fam_labels (family n))%nat -> fam_width (family n) * Z.of_nat k <= prefix n ->
  covers n (family n) x -> covers (block (family n) (nbits n) N k) (family n) x.
Proof.
  intros Hk Hle [_ Hx]. rewrite (wf_in_iff n Hn) in Hx. apply block_same; [apply Hn|apply Hn|done|].
  replace (nbits n - fam_width (family n) * Z.of_nat k) with (h + (prefix n - fam_width (family n) * Z.of_nat k)) by (unfold h; lia).
  rewrite <- !Z.shiftr_shiftr by lia. unfold N, h. by rewrite Hx.
Qed.

(** A longer one does not. *)
Lemma not_covered_by_long k :
  (k <= fam_labels (family n))%nat -> prefix n < fam_width (family n) * Z.of_nat k ->
  ~ covers (block (family n) (nbits n) N k) (family n) (lastBig n).
Proof.
  intros Hk Hlt Hc. apply block_span in Hc; [|apply Hn|apply Hn|done]. set (k' := nbits n - fam_width (family n) * Z.of_nat k) in *.
  assert (0 <= k') as Hk0.
  { pose proof (wf_prefix _ (block_wf (family n) (nbits n) N k (wf_family n Hn) (wf_spellable n Hn) Hk)) as Hp.
    change (prefix (block _ _ _ _)) with (fam_width (family n) * Z.of_nat k) in Hp. change (nbits (block _ _ _ _)) with (nbits n) in Hp. unfold k'. lia. }
  pose proof (Z.pow_lt_mono_r 2 k' h ltac:(lia) ltac:(pose proof (wf_bits_nonneg n Hn); unfold h; lia) ltac:(unfold k', h; lia)).
  rewrite (wf_last n Hn) in Hc. pose proof (mod_pow2_divide N k' h) as Hm. rewrite Hm in Hc; [fold N h in Hc; lia| |apply Hn]. unfold k', h. lia.
Qed.

(** One that is as long is the network. *)
Lemma covered_by_equal k x :
  (k <= fam_labels (family n))%nat -> fam_width (family n) * Z.of_nat k = prefix n ->
  covers (block (family n) (nbits n) N k) (family n) x -> covers n (family n) x.
Proof.
  intros Hk He Hc. unfold block in Hc. rewrite He in Hc. unfold N in Hc. by rewrite <- (wf_build n Hn) in Hc.
Qed.

(** The /24s of a network. *)
Lemma covered_by_many x :
  many n -> Exists (fun v => covers (block 4 32 v 3) 4 x) (zone_starts n) <-> covers n 4 x.
Proof.
  intros Hm. pose proof Hm as [Hf Hp]. destruct (wf_cases n Hn) as [[_ Hb]|[? _]]; [|congruence].
  rewrite covers_span, Hf, zone_starts_many by done. pose proof (wf_aligned n Hn) as Ha. fold N h in Ha.
  assert (h = (24 - prefix n) + 8) as Hh by (unfold h; lia).
  assert (N mod 2 ^ 8 = 0) as Ha8 by (apply mod_pow2_divide with h; [lia|done]).
  rewrite Hh, Z.pow_add_r by lia. set (q := 2 ^ (24 - prefix n)). change (2 ^ 8) with 256 in *.
  assert (forall i, 0 <= i < q -> covers (block 4 32 (N + i * 256) 3) 4 x <-> N + i * 256 <= x <= N + i * 256 + 255) as Hi.
  { intros i Hi. rewrite block_span; [|constructor| |cbn; lia].
    - change (32 - fam_width 4 * Z.of_nat 3) with 8. change (2 ^ 8) with 256. rewrite Z_mod_plus_full, Ha8. lia.
    - rewrite <- Hb. apply zone_starts_spellable. rewrite zone_starts_many by done. apply list_elem_of_In, in_map_iff. exists i. split; [done|].
      apply list_elem_of_In, elem_of_seqZ. fold q. lia. }
  rewrite List.Exists_exists. split.
  - intros (v & Hv & Hc). apply in_map_iff in Hv as (i & <- & Hin). apply list_elem_of_In, elem_of_seqZ in Hin. fold q in Hin.
    rewrite Hi in Hc by lia. split; [done|]. nia.
  - intros [_ Hx]. exists (N + (x - N) / 256 * 256). pose proof (Z_div_mod_eq_full (x - N) 256). pose proof (Z.mod_pos_bound (x - N) 256 ltac:(lia)).
    assert (0 <= (x - N) / 256 < q) by (split; [apply Z.div_pos; lia|apply Z.div_lt_upper_bound; lia]). split.
    + apply in_map_iff. exists ((x - N) / 256). split; [done|]. apply list_elem_of_In, elem_of_seqZ. fold q. lia.
    + rewrite Hi by done. lia.
Qed.
End Zones.

Lemma exists_nets n x :
  Exists (fun net => covers net (family n) x) (zone_nets n) <->
  Exists (fun v => covers (block (family n) (nbits n) v (zone_size n)) (family n) x) (zone_starts n).
Proof.
  unfold zone_nets. rewrite !List.Exists_exists. split.
  - intros (net & Hin & Hc). apply in_map_iff in Hin as (v & <- & Hv). eauto.
  - intros (v & Hv & Hc). eexists. split; [apply in_map_iff; by exists v|done].
Qed.

Lemma many_size n : many n -> zone_size n = 3%nat.
Proof. intros [Hf Hp]. unfold zone_size. rewrite Hf. cbn [Z.eqb Pos.eqb]. destruct (Z.leb_spec 17 (prefix n)); [done|lia]. Qed.

(** Without the split: how the labels of the one zone compare with the
    prefix. *)
Lemma one_size n :
  wf_network n -> ~ many n ->
  (min_prefix n <= prefix n <-> fam_width (family n) * Z.of_nat (zone_size n) <= prefix n) /\
  (whole n = true -> fam_width (family n) * Z.of_nat (zone_size n) = prefix n).
Proof.
  intros Hn Hm. pose proof (wf_prefix n Hn) as Hp. unfold min_prefix, whole, zone_size, many in *.
  destruct (wf_cases n Hn) as [[Hf Hb]|[Hf Hb]]; rewrite Hf, Hb in *; cbn [fam_width Z.eqb Pos.eqb] in *.
  - destruct (Z.leb_spec 17 (prefix n)), (Z.leb_spec 16 (prefix n)), (Z.leb_spec 8 (prefix n)); try lia;
      rewrite !orb_true_iff, !andb_true_iff, !Z.leb_le, !Z.eqb_eq; lia.
  - pose proof (Z_div_mod_eq_full (prefix n) 4). pose proof (Z.mod_pos_bound (prefix n) 4 ltac:(lia)).
    rewrite !andb_true_iff, !Z.leb_le, Z.eqb_eq. lia.
Qed.

(** ** Properties *)

(** C39. The reverse zones of a network are right. Of every network, either
    family: each zone name it is given stands for a network, which
    [reverseZoneNetwork] reads back from the name and which holds exactly the
    addresses whose reverse name is in the zone; the zones hold every address
    of the network exactly when its prefix is at least 8 (IPv4) or 4 (IPv6);
    and where the prefix ends at a zone boundary they hold no other. *)
Theorem reverse_zones_exact c n :
  parseNetwork c = Ok n ->
  exists zones nets, generateReverseNames c = Ok zones /\ Forall2 stands_for zones nets /\
    ((forall v, covers n (family n) v -> Exists (fun net => covers net (family n) v) nets) <-> min_prefix n <= prefix n) /\
    (whole n = true -> forall v, Exists (fun net => covers net (family n) v) nets -> covers n (family n) v).
Proof.
  intros Hc. pose proof (parseNetwork_wf c n Hc) as Hn. pose proof (zone_size_bounds n) as Hk.
  eexists _, (zone_nets n). split; [by apply generate_text|]. split.
  { apply Forall2_maps. intros v Hv.
    apply zone_stands_for; [apply Hn|by apply zone_starts_spellable|done]. }
  destruct (decide (many n)) as [Hm|Hm].
  - pose proof (covered_by_many n Hn) as Hcov. pose proof Hm as [Hf Hp].
    destruct (wf_cases n Hn) as [[_ Hb]|[? _]]; [|congruence].
    split; [split; [unfold min_prefix; rewrite Hf; cbn; lia|intros _ v Hv]|intros _ v Hv].
    + rewrite exists_nets, many_size, Hf, Hb by done. apply Hcov; [done|]. by rewrite Hf in Hv.
    + rewrite exists_nets, many_size, Hf, Hb in Hv by done. rewrite Hf. by apply Hcov.
  - destruct (one_size n Hn Hm) as [Hmin Hwhole]. setoid_rewrite exists_nets. rewrite zone_starts_one by done.
    setoid_rewrite Exists_cons. setoid_rewrite Exists_nil. split; [rewrite Hmin; split|].
    + intros Hall. destruct (Z.le_gt_cases (fam_width (family n) * Z.of_nat (zone_size n)) (prefix n)) as [|Hlt]; [done|exfalso].
      destruct (Hall (lastBig n)) as [Hl|[]]; [split; [done|pose proof (wf_order n Hn); lia]|].
      revert Hl. apply not_covered_by_long; [done|lia|lia].
    + intros Hle v Hv. left. apply covered_by_short; [done|lia|done|done].
    + intros Hw v [Hv|[]]. eapply covered_by_equal; [done| |by apply Hwhole|exact Hv]. lia.
Qed.

(** The net of the nine bits that a /23 leaves. *)
Lemma reverse_zones_exact_witness :
  exists zones nets, generateReverseNames "10.1.2.0/23" = Ok zones /\ Forall2 stands_for zones nets /\
    zones = ["2.1.10.in-addr.arpa"; "3.1.10.in-addr.arpa"].
Proof.
  destruct (parseNetwork "10.1.2.0/23") as [n|] eqn:Hn; [|vm_compute in Hn; discriminate Hn].
  destruct (reverse_zones_exact "10.1.2.0/23" n Hn) as (zones & nets & Hz & Hf & _).
  exists zones, nets. split; [exact Hz|]. split; [exact Hf|].
  assert (Ok zones = Ok (E:=cidr_error) ["2.1.10.in-addr.arpa"; "3.1.10.in-addr.arpa"]) as He.
  { rewrite <- Hz. vm_compute. reflexivity. }
  by injection He.
Defined.
