(* ===== verification/ZoneFiles.v ===== *)
(** * The zone files dnsmasq reads

    [backends/shared/dns-zone-model.js] (which zones and records a backend
    serves, and the first name of each address), [ipForPtrRecord] of
    [models/dns-record.js], and of [backends/dnsmasq/dnsmasq.js] (all in
    [server/src]) the three writers of zone data: [regenerateHostsDir],
    [regenerateConfDir] and [writeLocalZones], with [directivesOf], the
    reading of a file by which the server tells whether dnsmasq must be told.

    A file is its text, or [None] while it does not exist. The tables are
    lists in the order of their ids. *)

From S2P Require Import Prelude JsString Address Cidr ConfigValue DnsNames ReverseZones.

Definition newline : string := String "010" "".

(** ** The tables *)

(** A row of [dns_zones]; a column that may be null is an option. *)
Record Zone := mkZone {
  z_id : Z;
  z_name : string;
  z_type : string;
  z_enabled : bool;
  forward_unknown : bool;
  soa_primary_ns : option string;
  soa_admin_email : option string;
  soa_serial : option Z;
  soa_numbers : list (option Z) }.  (** refresh, retry, expire and minimum TTL *)

(** A row of [dns_records]. *)
Record DnsRecord := mkRecord {
  r_id : Z;
  r_zone : Z;
  r_name : string;
  r_type : string;
  r_value : string;
  r_priority : option Z;
  r_weight : option Z;
  r_port : option Z;
  r_ttl : option Z;
  r_enabled : bool }.

Record Db := mkDb { dns_zones : list Zone; dns_records : list DnsRecord }.

(** A record as it is served. *)
Record Served := mkServed {
  rec : DnsRecord;
  zoneId : Z;
  zoneName : string;
  zoneType : string;
  fqdn : string;
  placeholder : bool }.

(** [networks], which only PowerDNS reads, is left out. *)
Record Model := mkModel { zones : list Zone; records : list Served }.

(** ** The shared model *)

(** How many times a dot is followed by a digit. *)
Fixpoint dot_digits (s : string) : nat :=
  match s with
  | String c ((String d _) as s') => ((if Ascii.eqb c "." && is_digit d then 1 else 0) + dot_digits s')%nat
  | _ => O
  end.

(** [/^[0-9].*\.[0-9].*\.[0-9].*\.[0-9]/s] *)
Definition DOTTED_QUAD_LIKE (v : string) : bool :=
  match v with String c s => is_digit c && (3 <=? dot_digits s)%nat | EmptyString => false end.

Definition isPlaceholderPtr (v : string) : bool :=
  negb (has_char "." v) || DOTTED_QUAD_LIKE v || isValidAddress v.

Definition loadDnsZones (db : Db) : Model :=
  let zones := List.filter z_enabled (dns_zones db) in
  mkModel zones
    (omap (fun r =>
       if negb (r_enabled r) then None
       else match List.find (fun z => z_id z =? r_zone r) zones with
            | Some z => Some (mkServed r (z_id z) (z_name z) (z_type z) (fqdnForRecordName (r_name r) (z_name z))
                                (String.eqb (r_type r) "PTR" && isPlaceholderPtr (r_value r)))
            | None => None
            end) (dns_records db)).

(** [zone.replace(/\.?tail\.?$/, '')], and whether it matched. *)
Definition strip_tail (tail zone : string) : option string :=
  let zone := cut_dot zone in
  if ends_with tail zone then Some (cut_dot (take_string (String.length zone - String.length tail) zone)) else None.

(** [s.split('.').filter(Boolean)] *)
Definition labels (s : string) : list string := List.filter (fun l => negb (String.eqb l "")) (split_char "." s).

Definition ipForPtrRecord (recordName zoneName : string) : option string :=
  let zone := to_lower zoneName in
  let recordLabels := labels (to_lower recordName) in
  match strip_tail "ip6.arpa" zone with
  | Some head =>
      let nibbles := rev (recordLabels ++ labels head) in
      if negb (length nibbles =? 32)%nat || negb (forallb nibble_label nibbles) then None
      else Some (formatIp (from_base 16 (concat_words nibbles)) 128)
  | None =>
      let zoneLabels := labels (default zone (strip_tail "in-addr.arpa" zone)) in
      let ip := join "." (rev (recordLabels ++ zoneLabels)) in
      match parseIp no_zone ip with
      | Some p => if (bits p =? 32) && negb (has_char ":" ip) then Some ip else None
      | None => None
      end
  end.

(** [lowerFqdn] *)
Definition lowerFqdn (name : string) : string := normalizeDnsName name.

(** [ptrNames]: the first PTR of an address names it. *)
Fixpoint ptrNames (l : list Served) (ip : string) : option string :=
  match l with
  | [] => None
  | p :: l' =>
      if String.eqb (r_type (rec p)) "PTR" && bool_decide (ipForPtrRecord (r_name (rec p)) (zoneName p) = Some ip)
      then Some (lowerFqdn (r_value (rec p))) else ptrNames l' ip
  end.

(** [byAddress]: the names of each address, in a [Map]. *)
Abbreviation ByAddress := (list (string * list string)).

Fixpoint get (ip : string) (m : ByAddress) : option (list string) :=
  match m with
  | [] => None
  | (k, v) :: m' => if String.eqb k ip then Some v else get ip m'
  end.

Fixpoint put (ip : string) (v : list string) (m : ByAddress) : ByAddress :=
  match m with
  | [] => [(ip, v)]
  | (k, w) :: m' => if String.eqb k ip then (k, v) :: m' else (k, w) :: put ip v m'
  end.

Definition is_address (type : string) : bool := String.eqb type "A" || String.eqb type "AAAA".
Definition has_key (key : string) (names : list string) : bool := existsb (fun n => String.eqb (lowerFqdn n) key) names.

Definition add_name (m : ByAddress) (r : Served) : ByAddress :=
  if negb (String.eqb (zoneType r) "forward") || negb (is_address (r_type (rec r))) then m
  else
    let names := default [] (get (r_value (rec r)) m) in
    put (r_value (rec r)) (if has_key (lowerFqdn (fqdn r)) names then names else names ++ [fqdn r]) m.

(** The names before the first with this key, and those from it on. *)
Fixpoint split_key (key : string) (names : list string) : list string * list string :=
  match names with
  | [] => ([], [])
  | n :: names' =>
      if String.eqb (lowerFqdn n) key then ([], names)
      else let '(before, found) := split_key key names' in (n :: before, found)
  end.

(** [names.unshift(...names.splice(at, 1))], when the canonical name is there. *)
Definition canonical_first (canonical : option string) (names : list string) : list string :=
  match canonical with
  | Some key =>
      if String.eqb key "" then names
      else match split_key key names with
           | (before, n :: after) => n :: before ++ after
           | (_, []) => names
           end
  | None => names
  end.

Definition servedHostsByAddress (m : Model) : ByAddress :=
  map (fun '(ip, names) => (ip, canonical_first (ptrNames (records m) ip) names))
    (fold_left add_name (records m) []).

(** ** Files *)

(** The lines of a text that mean something to dnsmasq: [out]. *)
Definition directive_lines (content : string) : list string :=
  List.filter (fun l => negb (String.eqb l "") && negb (starts_with "#" l)) (map trim (split_char "010" content)).

Definition directivesOf (content : string) : string := join newline (directive_lines content).

(** The file after the write, and whether dnsmasq needs to be told. *)
Definition writeIfChanged (file : option string) (newContent : string) : option string * bool :=
  let oldContent := default "" file in
  if String.eqb newContent oldContent then (file, false)
  else (Some newContent, negb (String.eqb (directivesOf newContent) (directivesOf oldContent))).

(** The files of zone data: [conf.d/zone-<id>.conf], [conf.d/local-zones.conf],
    [hosts.d/records.hosts] and the per-zone hosts files of old. *)
Record Disk := mkDisk {
  zone_conf : gmap Z string;
  local_conf : option string;
  hosts_file : option string;
  zone_hosts : gset Z }.

(** [lines.join('\n') + '\n'] *)
Definition text_of (lines : list string) : string := join newline lines +:+ newline.

(** ** The hosts file *)

(** A stable sort, as [Array.prototype.sort] is. *)
Fixpoint insert_by {A} (le : A -> A -> bool) (x : A) (l : list A) : list A :=
  match l with
  | [] => [x]
  | y :: l' => if le x y then x :: l else y :: insert_by le x l'
  end.
Definition sort_by {A} (le : A -> A -> bool) (l : list A) : list A := fold_right (insert_by le) [] l.

(** Keys of digits and lower-case letters sort alike by locale and by
    character. Comparing two keys one of which is null throws. *)
Definition key_le (a b : string) : bool := String.leb (default "" (sortKey a)) (default "" (sortKey b)).

Definition hosts_lines (m : Model) : result string (list (string * string)) :=
  let byAddress := servedHostsByAddress m in
  let keys := map fst byAddress in
  if (2 <=? length keys)%nat && existsb (fun ip => match sortKey ip with None => true | Some _ => false end) keys
  then Err "TypeError"
  else Ok (List.flat_map (fun ip => map (fun name => (ip, name)) (default [] (get ip byAddress))) (sort_by key_le keys)).

Definition regenerateHostsDir (m : Model) (disk : Disk) : result string (Disk * bool) :=
  entries ← hosts_lines m;
  let lines := map (fun '(ip, name) => ip +:+ " " +:+ name) entries in
  let '(file, changed) :=
    if (0 <? length lines)%nat then writeIfChanged (hosts_file disk) (text_of lines)
    else (None, match hosts_file disk with Some _ => true | None => false end) in
  mret (mkDisk (zone_conf disk) (local_conf disk) file ∅, changed || negb (bool_decide (zone_hosts disk = ∅))).

(** ** The zone files *)

(** [${value}], of a number or null. *)
Definition number_text (o : option Z) : string :=
  match o with Some n => if n <? 0 then "-" +:+ dec (- n) else dec n | None => "null" end.
(** [value || other], of a number or null. *)
Definition or_number (o : option Z) (other : Z) : option Z :=
  match o with Some n => if n =? 0 then Some other else Some n | None => Some other end.

Definition safe (value : string) : bool :=
  match validateConfigSafeValue value false false with None => true | Some _ => false end.

Definition backslash : ascii := "092".
Definition quote : ascii := "034".

(** A backslash before each backslash and each quote: the two [replace] of a
    TXT value. *)
Fixpoint escape (s : string) : string :=
  match s with
  | EmptyString => ""
  | String c s' =>
      if Ascii.eqb c backslash || Ascii.eqb c quote then String backslash (String c (escape s')) else String c (escape s')
  end.

Definition soa_comment (zone : Zone) : list string :=
  match soa_primary_ns zone with
  | Some ns =>
      if String.eqb ns "" then []
      else ["# SOA: " +:+ join " " (ns :: default "null" (soa_admin_email zone) ::
              number_text (or_number (soa_serial zone) 1) :: map number_text (soa_numbers zone))]
  | None => []
  end.

(** The line of a record that is neither an address nor a PTR. *)
Definition record_line (s : Served) : option string :=
  let r := rec s in
  let value := r_value r in
  if String.eqb (r_type r) "CNAME" then
    if safe value then
      Some ("cname=" +:+ fqdn s +:+ "," +:+ value +:+
            match r_ttl r with Some n => if n =? 0 then "" else "," +:+ number_text (Some n) | None => "" end)
    else None
  else if String.eqb (r_type r) "MX" then
    if safe value then Some ("mx-host=" +:+ fqdn s +:+ "," +:+ value +:+ "," +:+ number_text (or_number (r_priority r) 10)) else None
  else if String.eqb (r_type r) "TXT" then
    match validateTxtValue value with
    | None => Some ("txt-record=" +:+ fqdn s +:+ "," +:+ String quote (escape value +:+ String quote ""))
    | Some _ => None
    end
  else if String.eqb (r_type r) "SRV" then
    if safe value then
      Some ("srv-host=" +:+ fqdn s +:+ "," +:+ value +:+ "," +:+ number_text (r_port r) +:+ "," +:+
            number_text (or_number (r_priority r) 0) +:+ "," +:+ number_text (or_number (r_weight r) 0))
    else None
  else None.

Definition ptr_line (zone : Zone) (s : Served) : option string :=
  if negb (isValidPtrName (r_name (rec s))) || negb (safe (r_value (rec s))) then None
  else Some ("ptr-record=" +:+ r_name (rec s) +:+ "." +:+ z_name zone +:+ "," +:+ r_value (rec s)).

(** The hosts file answers this PTR: its value is the first name there. *)
Definition in_hosts (byAddress : ByAddress) (zone : Zone) (s : Served) : bool :=
  match ipForPtrRecord (r_name (rec s)) (z_name zone) with
  | Some ip =>
      if String.eqb ip "" then false
      else match get ip byAddress with
           | Some (first :: _) => String.eqb (lowerFqdn first) (lowerFqdn (r_value (rec s)))
           | _ => false
           end
  | None => false
  end.

Definition of_zone (m : Model) (zone : Zone) : list Served := List.filter (fun r => zoneId r =? z_id zone) (records m).

Definition other_records (m : Model) (zone : Zone) : list Served :=
  List.filter (fun r => negb (is_address (r_type (rec r))) && negb (String.eqb (r_type (rec r)) "PTR")) (of_zone m zone).

Definition ptr_records (m : Model) (zone : Zone) : list Served :=
  List.filter (fun r => String.eqb (r_type (rec r)) "PTR" && negb (placeholder r)) (of_zone m zone).

Definition served_ptrs (m : Model) (zone : Zone) : list Served :=
  List.filter (fun r => negb (in_hosts (servedHostsByAddress m) zone r)) (ptr_records m zone).

(** The body of the loop: the lines of the zone's file, or nothing where the
    zone is passed over. *)
Definition zone_lines (m : Model) (zone : Zone) : option (list string) :=
  if negb (safe (z_name zone)) then None
  else
    let records := other_records m zone in
    let servedPtrs := served_ptrs m zone in
    if (length records =? 0)%nat && (length servedPtrs =? 0)%nat then None
    else Some (soa_comment zone ++ omap record_line records ++ omap (ptr_line zone) servedPtrs).

Record Writing := mkWriting { files : gmap Z string; activeIds : gset Z; told : bool }.

Definition write_zone (m : Model) (w : Writing) (zone : Zone) : Writing :=
  match zone_lines m zone with
  | None => w
  | Some lines =>
      let '(file, changed) := writeIfChanged (files w !! z_id zone) (text_of lines) in
      mkWriting (match file with Some text => <[z_id zone := text]> (files w) | None => files w end)
        ({[z_id zone]} ∪ activeIds w) (told w || changed)
  end.

Definition local_lines (zones : list Zone) : list string :=
  sort_by String.leb
    (map (fun zone => "local=/" +:+ z_name zone +:+ "/")
       (List.filter (fun zone => negb (forward_unknown zone) && safe (z_name zone)) zones)).

Definition writeLocalZones (zones : list Zone) (file : option string) : option string * bool :=
  let lines := local_lines zones in
  if (0 <? length lines)%nat then writeIfChanged file (text_of lines)
  else match file with None => (None, false) | Some _ => (None, true) end.

(** [cleanStaleFiles]: the files kept, and whether one was removed. *)
Definition cleanStaleFiles (active : gset Z) (files : gmap Z string) : gmap Z string * bool :=
  (filter (fun kf => kf.1 ∈ active) files, negb (bool_decide (dom files ⊆ active))).

Definition regenerateConfDir (m : Model) (disk : Disk) : Disk * bool :=
  let w := fold_left (write_zone m) (zones m) (mkWriting (zone_conf disk) ∅ false) in
  let '(conf, removed) := cleanStaleFiles (activeIds w) (files w) in
  let '(local, changed) := writeLocalZones (zones m) (local_conf disk) in
  (mkDisk conf local (hosts_file disk) (zone_hosts disk), told w || removed || changed).

(** ** Lemmas: lines *)

Lemma has_take c n s : has_char c s = false -> has_char c (take_string n s) = false.
Proof. intros H. rewrite <- (take_drop_string n s), has_char_app in H. by apply orb_false_iff in H as [? _]. Qed.

Lemma has_cut_dot c s : has_char c s = false -> has_char c (cut_dot s) = false.
Proof. intros H. unfold cut_dot. destruct (ends_with "." s); [by apply has_take|done]. Qed.

(** The two characters that end a field or a line are no letters. *)
Definition ending (c : ascii) : Prop := c = "010"%char \/ c = ","%char.

Lemma lower_ending c s : ending c -> has_char c (to_lower s) = has_char c s.
Proof.
  intros Hc. assert (forall x, Ascii.eqb c (lower_char x) = Ascii.eqb c x) as Hx.
  { destruct Hc as [-> | ->]; intros [[] [] [] [] [] [] [] []]; reflexivity. }
  unfold has_char. induction s as [|x s IH]; [done|]. cbn. by rewrite IH, Hx.
Qed.

(** The full name of a record stays on its line and in its field. *)
Lemma fqdn_ending c name zone :
  ending c -> has_char c name = false -> has_char c zone = false -> has_char c (fqdnForRecordName name zone) = false.
Proof.
  intros He Hn Hz. unfold fqdnForRecordName. assert (has_char c (cut_dot (to_lower (trim name))) = false) as Hc.
  { apply has_cut_dot. rewrite lower_ending by done. by apply trim_no_char. }
  repeat case_match; try done. rewrite !has_char_app, Hc, Hz. by destruct He as [-> | ->].
Qed.

Lemma digits_no_char c n : is_digit c = false -> 0 <= n -> has_char c (dec n) = false.
Proof. intros Hc Hn. by apply has_char_class with is_digit; [|apply dec_digits]. Qed.

Lemma number_no_char c o :
  is_digit c = false -> has_char c "-null" = false -> has_char c (number_text o) = false.
Proof.
  intros Hc Hl. assert (has_char c "-" = false /\ has_char c "null" = false) as [Hm Hnull].
  { change "-null" with ("-" +:+ "null") in Hl. rewrite has_char_app in Hl. by apply orb_false_iff in Hl. }
  destruct o as [n|]; [|exact Hnull]. cbn [number_text]. destruct (Z.ltb_spec n 0).
  - rewrite has_char_app, Hm. apply digits_no_char; [done|lia].
  - by apply digits_no_char.
Qed.

Lemma escape_newline s : has_char "010" s = false -> has_char "010" (escape s) = false.
Proof.
  induction s as [|c s IH]; [done|]. unfold has_char in *. cbn. intros [Hc Hs]%orb_false_iff. specialize (IH Hs).
  destruct (_ || _); cbn; rewrite Hc, IH; done.
Qed.

Lemma safe_clean value :
  safe value = true -> value <> "" /\ has_char "010" value = false /\ has_char "," value = false /\ has_char "=" value = false.
Proof.
  unfold safe. destruct (validateConfigSafeValue _ _ _) eqn:E; [done|]. intros _.
  apply config_safe_clean in E as (? & ? & _ & _ & Hc & He). auto.
Qed.

Lemma txt_newline value : validateTxtValue value = None -> has_char "010" value = false.
Proof.
  unfold validateTxtValue. intros H. destruct (js_length value =? 0); [done|]. destruct (4096 <? js_length value); [done|].
  destruct (some_char is_newline value) eqn:E; [done|]. apply some_char_false in E. by eapply has_char_class; [|exact E].
Qed.

Lemma ptr_name_clean c name : is_hex_lower c = false -> c <> "."%char -> isValidPtrName name = true -> has_char c name = false.
Proof.
  intros Hc Hd H. unfold isValidPtrName in H. reflect_bools. rewrite <- (join_split_char "." name).
  apply has_char_join_false; [unfold has_char; cbn; rewrite orb_false_r; by apply Ascii.eqb_neq|].
  match goal with H : forallb _ _ = true |- _ => apply forallb_Forall in H; eapply Forall_impl; [exact H|] end.
  intros w Hw. cbn in Hw. apply andb_true_iff in Hw as [_ Hw]. by apply has_char_class with is_hex_lower.
Qed.

(** What a directive is written as: one line, which begins with its keyword. *)
Definition directive (l : string) : Prop :=
  has_char "010" l = false /\ exists c t, l = String c t /\ is_space c = false /\ c <> "#"%char.

#[local] Ltac directive_ok := split; [|by do 2 eexists; split_and!].

Lemma record_line_ok s l : has_char "010" (fqdn s) = false -> record_line s = Some l -> directive l.
Proof.
  intros Hf H. unfold record_line in H. cbv zeta in H.
  assert (forall o, has_char "010" (number_text o) = false) as Hnum by (intros o; by apply number_no_char).
  repeat match type of H with (if ?b then _ else _) = _ => let E := fresh "E" in destruct b eqn:E end; try done.
  all: try apply (inj Some) in H as <-.
  all: try match goal with Hs : safe _ = true |- _ => apply safe_clean in Hs as (_ & Hs & _) end.
  1, 2, 4: directive_ok; rewrite ?has_char_app, Hf.
  - match goal with Hs : has_char _ _ = false |- _ => rewrite Hs end. cbn [orb]. destruct (r_ttl (rec s)) as [n|]; [|done].
    destruct (n =? 0); [done|]. by rewrite has_char_app, Hnum.
  - match goal with Hs : has_char _ _ = false |- _ => rewrite Hs end. by rewrite Hnum.
  - match goal with Hs : has_char _ _ = false |- _ => rewrite Hs end. by rewrite !Hnum.
  - match goal with Ht : validateTxtValue _ = None |- _ => rename Ht into Hv end. directive_ok.
    rewrite !has_char_app, Hf. cbn [orb]. apply txt_newline, escape_newline in Hv. unfold has_char in *. cbn.
    rewrite some_char_app, Hv. done.
Qed.

Lemma ptr_line_ok zone s l : safe (z_name zone) = true -> ptr_line zone s = Some l -> directive l.
Proof.
  intros Hz H. unfold ptr_line in H. destruct (negb _ || negb _) eqn:E; [done|]. apply (inj Some) in H as <-. reflect_bools.
  apply safe_clean in Hz as (_ & Hz & _). match goal with Hs : safe _ = true |- _ => apply safe_clean in Hs as (_ & Hs & _) end.
  directive_ok. rewrite !has_char_app, (ptr_name_clean "010" (r_name (rec s))), Hz by done.
  match goal with Hs : has_char _ (r_value _) = false |- _ => rewrite Hs end. done.
Qed.

Lemma trim_keeps_first c s : is_space c = false -> exists t, trim (String c s) = String c t.
Proof.
  intros Hc. unfold trim. cbn [drop_while]. rewrite Hc. cbn [drop_while_end]. destruct (drop_while_end is_space s); [rewrite Hc|]; eauto.
Qed.

Lemma directive_kept l : directive l -> negb (String.eqb (trim l) "") && negb (starts_with "#" (trim l)) = true.
Proof.
  intros (_ & c & t & -> & Hc & Hh). destruct (trim_keeps_first c t Hc) as [t' ->]. cbn -[Ascii.eqb].
  destruct (Ascii.eqb_spec "#" c); [congruence|]. done.
Qed.

Lemma comment_dropped l : starts_with "#" l = true -> starts_with "#" (trim l) = true.
Proof.
  destruct l as [|c t]; [done|]. intros H. cbn -[Ascii.eqb] in H. rewrite andb_true_r in H. apply Ascii.eqb_eq in H as <-.
  by destruct (trim_keeps_first "#" t eq_refl) as [t' ->].
Qed.

Lemma split_text_of lines :
  lines <> [] -> Forall (fun l => has_char "010" l = false) lines -> split_char "010" (text_of lines) = lines ++ [""].
Proof.
  intros Hne Hl. unfold text_of.
  assert (join newline lines +:+ newline = join newline (lines ++ [""])) as ->.
  { clear Hl. induction lines as [|w ls IH]; [done|]. destruct ls as [|v ls]; [done|].
    change (join newline (w :: v :: ls)) with (w +:+ newline +:+ join newline (v :: ls)).
    change (join newline ((w :: v :: ls) ++ [""])) with (w +:+ newline +:+ join newline ((v :: ls) ++ [""])).
    rewrite <- IH by done. by rewrite !app_assoc_str. }
  apply split_char_join; [by destruct lines|]. apply Forall_app. split; [done|by repeat constructor].
Qed.

(** A file of comments and directives reads back as its directives. *)
Lemma text_directives comments lines :
  Forall (fun l => has_char "010" l = false /\ starts_with "#" l = true) comments ->
  Forall directive lines -> directive_lines (text_of (comments ++ lines)) = map trim lines.
Proof.
  intros Hc Hl. destruct (decide (comments ++ lines = [])) as [E|Hne].
  { rewrite E. by apply app_eq_nil in E as [_ ->]. }
  unfold directive_lines. rewrite split_text_of; [|done|].
  2:{ apply Forall_app. split; eapply Forall_impl; [exact Hc| |exact Hl|]; [by intros l []|by intros l []]. }
  rewrite !map_app, !List.filter_app. change (map trim [""]) with [""]. cbn [List.filter]. rewrite app_nil_r.
  assert (List.filter (fun l => negb (String.eqb l "") && negb (starts_with "#" l)) (map trim comments) = []) as ->.
  { clear Hne. induction Hc as [|l ls [_ H] _ IH]; [done|]. cbn [map List.filter]. rewrite (comment_dropped _ H). by rewrite andb_false_r. }
  clear Hne. cbn [app]. induction Hl as [|l ls H _ IH]; [done|]. cbn [map List.filter]. by rewrite (directive_kept l H), IH.
Qed.

Lemma text_nonempty lines : text_of lines <> "".
Proof.
  unfold text_of. intros H. assert (has_char "010" (join newline lines +:+ newline) = false) as E by by rewrite H.
  rewrite has_char_app in E. change (has_char "010" newline) with true in E. by rewrite orb_true_r in E.
Qed.

Lemma join_newline_inj l l' :
  Forall (fun w => w <> "" /\ has_char "010" w = false) l -> Forall (fun w => w <> "" /\ has_char "010" w = false) l' ->
  join newline l = join newline l' -> l = l'.
Proof.
  intros Hl Hl' He. assert (forall k, Forall (fun w => w <> "" /\ has_char "010" w = false) k -> k <> [] ->
    split_char "010" (join newline k) = k) as Hs.
  { intros k Hk Hne. apply split_char_join; [done|]. eapply Forall_impl; [exact Hk|]. by intros w []. }
  assert (forall k, Forall (fun w => w <> "" /\ has_char "010" w = false) k -> join newline k = "" -> k = []) as H0.
  { intros k Hk Hj. destruct k as [|w k]; [done|]. apply Forall_cons in Hk as [[Hw _] _]. exfalso. destruct k; [done|].
    cbn [join] in Hj. by destruct w. }
  destruct (decide (l = [])) as [->|Hne]; [symmetry; by apply H0|]. destruct (decide (l' = [])) as [->|Hne']; [by apply H0|].
  rewrite <- (Hs l), <- (Hs l') by done. by rewrite He.
Qed.

Lemma directive_lines_clean text : Forall (fun w => w <> "" /\ has_char "010" w = false) (directive_lines text).
Proof.
  apply Forall_forall. intros w Hw. apply list_elem_of_In, filter_In in Hw as [Hw Hb]. split; [by intros -> | clear Hb].
  apply in_map_iff in Hw as (l & <- & Hin). apply trim_no_char.
  pose proof (split_pieces_clean "010" text) as Hp. rewrite Forall_forall in Hp. by apply Hp, list_elem_of_In.
Qed.

(** The server compares two texts by what [directivesOf] makes of them; it
    finds them equal exactly when their directives are. *)
Lemma directivesOf_inj a b : directivesOf a = directivesOf b <-> directive_lines a = directive_lines b.
Proof. split; [|by unfold directivesOf; intros ->]. apply join_newline_inj; apply directive_lines_clean. Qed.

(** ** Lemmas: the zone files *)

(** What the routes see to of the rows: ids are unique, a record's name
    has no newline and no comma, a zone's SOA names have no newline, and an
    address record has an address.
    Nothing is asked of the zone names, which can be changed unchecked. *)
Record plain (db : Db) : Prop := {
  plain_ids : NoDup (map z_id (dns_zones db));
  plain_names : forall r c, r ∈ dns_records db -> ending c -> has_char c (r_name r) = false;
  plain_soa : forall z n, z ∈ dns_zones db -> soa_primary_ns z = Some n \/ soa_admin_email z = Some n -> has_char "010" n = false;
  plain_addresses : forall r, r ∈ dns_records db -> is_address (r_type r) = true -> isValidAddress (r_value r) = true }.

(** The fields of a record's directive, by commas. The text of a TXT record is
    quoted and may have more. *)
Definition record_fields (s : Served) : list string :=
  let r := rec s in
  if String.eqb (r_type r) "CNAME" then
    ["cname=" +:+ fqdn s; r_value r] ++ match r_ttl r with Some n => if n =? 0 then [] else [number_text (Some n)] | None => [] end
  else if String.eqb (r_type r) "MX" then ["mx-host=" +:+ fqdn s; r_value r; number_text (or_number (r_priority r) 10)]
  else ["srv-host=" +:+ fqdn s; r_value r; number_text (r_port r); number_text (or_number (r_priority r) 0);
        number_text (or_number (r_weight r) 0)].

Lemma record_line_fields s line :
  has_char "," (fqdn s) = false -> r_type (rec s) <> "TXT" -> record_line s = Some line -> split_char "," line = record_fields s.
Proof.
  intros Hf Ht H. apply String.eqb_neq in Ht. unfold record_line, record_fields in *. cbv zeta in *. rewrite Ht in H.
  assert (forall o, has_char "," (number_text o) = false) as Hnum by (intros o; by apply number_no_char).
  assert (forall k, has_char "," k = false -> has_char "," (k +:+ fqdn s) = false) as Hhead by (intros k Hk; by rewrite has_char_app, Hk, Hf).
  assert (forall k l, Forall (fun w => has_char "," w = false) l -> has_char "," k = false ->
    split_char "," (join "," ((k +:+ fqdn s) :: l)) = (k +:+ fqdn s) :: l) as Hsplit.
  { intros k l Hl Hk. apply split_char_join; [done|]. constructor; [by apply Hhead|done]. }
  destruct (safe (r_value (rec s))) eqn:Hs; [|by repeat case_match]. apply safe_clean in Hs as (_ & _ & Hs & _).
  destruct (String.eqb (r_type (rec s)) "CNAME"); [|destruct (String.eqb (r_type (rec s)) "MX"); [|destruct (String.eqb (r_type (rec s)) "SRV"); [|done]]];
    apply (inj Some) in H as <-.
  1: destruct (r_ttl (rec s)) as [n|]; [destruct (n =? 0)|]; cbn [app].
  all: rewrite <- Hsplit by (repeat constructor; done); try reflexivity; f_equal; cbn [join]; by rewrite ?app_nil_r_str, ?app_assoc_str.
Qed.

(** The directives a zone is to have. *)
Definition zone_directives (m : Model) (zone : Zone) : list string :=
  omap record_line (other_records m zone) ++ omap (ptr_line zone) (served_ptrs m zone).

(** The server has nothing of its own to say of the zone. *)
Definition passed_over (m : Model) (zone : Zone) : Prop :=
  safe (z_name zone) = false \/ other_records m zone = [] /\ served_ptrs m zone = [].

Lemma zone_lines_spec m zone :
  match zone_lines m zone with
  | Some lines => safe (z_name zone) = true /\ lines = soa_comment zone ++ zone_directives m zone /\ ~ passed_over m zone
  | None => passed_over m zone
  end.
Proof.
  unfold zone_lines, passed_over. destruct (safe (z_name zone)); cbn [negb]; [|by left].
  destruct (other_records m zone) as [|r l] eqn:E1, (served_ptrs m zone) as [|p l'] eqn:E2; cbn [length Nat.eqb andb]; auto.
  all: split; [done|]; split; [unfold zone_directives; by rewrite E1, E2|]; intros [?|[? ?]]; done.
Qed.

Lemma served_rows db s :
  s ∈ records (loadDnsZones db) ->
  exists zone, zone ∈ zones (loadDnsZones db) /\ rec s ∈ dns_records db /\ zoneId s = z_id zone /\ zoneName s = z_name zone /\
    fqdn s = fqdnForRecordName (r_name (rec s)) (z_name zone).
Proof.
  cbn. intros Hs. apply list_elem_of_omap in Hs as (r & Hr & Hx). destruct (negb (r_enabled r)); [done|].
  destruct (List.find _ _) as [z|] eqn:Hf; [|done]. injection Hx as <-. apply List.find_some in Hf as [Hz _]. cbn.
  exists z. split_and!; [by apply list_elem_of_In|done..].
Qed.

Lemma zone_unique db z z' :
  plain db -> z ∈ zones (loadDnsZones db) -> z' ∈ zones (loadDnsZones db) -> z_id z = z_id z' -> z = z'.
Proof.
  intros Hp Hz Hz' He. apply (nodup_map_inj z_id (dns_zones db)); [by apply plain_ids| | |done].
  all: cbn in *; rewrite ?list_elem_of_In in *; by apply filter_In in Hz as [? _], Hz' as [? _].
Qed.

Lemma zone_soa db zone :
  plain db -> zone ∈ zones (loadDnsZones db) -> Forall (fun l => has_char "010" l = false /\ starts_with "#" l = true) (soa_comment zone).
Proof.
  intros Hp Hz. assert (zone ∈ dns_zones db) as Hin by (cbn in Hz; rewrite list_elem_of_In in *; by apply filter_In in Hz as [? _]).
  unfold soa_comment. destruct (soa_primary_ns zone) as [ns|] eqn:Hns; [|constructor]. destruct (String.eqb ns ""); [constructor|].
  repeat constructor. rewrite has_char_app. change (has_char "010" "# SOA: ") with false. cbn [orb]. apply has_char_join_false; [done|].
  constructor; [eapply (plain_soa db Hp zone); [done|by left]|]. constructor.
  { destruct (soa_admin_email zone) as [e|] eqn:He; [|done]. eapply (plain_soa db Hp zone); [done|by right]. }
  constructor; [by apply number_no_char|]. apply Forall_forall. intros w Hw. apply list_elem_of_In, in_map_iff in Hw as (o & <- & _).
  by apply number_no_char.
Qed.

Lemma elem_filter_bool {A} (p : A -> bool) l x : x ∈ List.filter p l <-> x ∈ l /\ p x = true.
Proof. rewrite !list_elem_of_In. apply filter_In. Qed.

(** The full names of a safe zone's records. *)
Lemma zone_fqdn db zone s c :
  plain db -> zone ∈ zones (loadDnsZones db) -> safe (z_name zone) = true -> s ∈ other_records (loadDnsZones db) zone -> ending c ->
  has_char c (fqdn s) = false.
Proof.
  intros Hp Hz Hs Hin Hc. apply elem_filter_bool in Hin as [Hin _]. apply elem_filter_bool in Hin as [Hin Hid]. apply Z.eqb_eq in Hid.
  destruct (served_rows _ _ Hin) as (z & Hz' & Hrow & Hzid & _ & ->).
  assert (z = zone) as -> by (apply (zone_unique db); [done..|congruence]). apply safe_clean in Hs as (_ & Hs1 & Hs2 & _).
  apply fqdn_ending; [done|by apply (plain_names db)|]. by destruct Hc as [-> | ->].
Qed.

Lemma zone_directives_ok db zone :
  plain db -> zone ∈ zones (loadDnsZones db) -> safe (z_name zone) = true ->
  Forall directive (zone_directives (loadDnsZones db) zone).
Proof.
  intros Hp Hz Hs. apply Forall_app. split; apply Forall_forall; intros l Hl; apply list_elem_of_omap in Hl as (s & Hin & Hl).
  - apply (record_line_ok s); [|done]. apply (zone_fqdn db zone); [done..|by left].
  - by apply (ptr_line_ok zone s).
Qed.

(** A file as the server reads it: no file reads as an empty one. *)
Definition reading (file : option string) : list string := directive_lines (default "" file).

Lemma write_lines file lines :
  exists c, writeIfChanged file (text_of lines) = (Some (text_of lines), c) /\
    (c = false <-> directive_lines (text_of lines) = reading file).
Proof.
  unfold writeIfChanged, reading. destruct (String.eqb_spec (text_of lines) (default "" file)) as [E|Hne].
  - exists false. rewrite <- E. destruct file as [t|]; simpl in E; [by subst t|]. by destruct (text_nonempty lines).
  - eexists. split; [done|]. rewrite negb_false_iff, String.eqb_eq. apply directivesOf_inj.
Qed.

(** The loop over the zones. *)
Definition written (m : Model) (zs : list Zone) (id : Z) (lines : list string) : Prop :=
  exists zone, zone ∈ zs /\ z_id zone = id /\ zone_lines m zone = Some lines.

Lemma write_zones_spec m zs w :
  NoDup (map z_id zs) ->
  let w' := fold_left (write_zone m) zs w in
  (forall id lines, written m zs id lines -> files w' !! id = Some (text_of lines)) /\
  (forall id, (forall lines, ~ written m zs id lines) -> files w' !! id = files w !! id) /\
  (forall id, id ∈ activeIds w' <-> id ∈ activeIds w \/ exists lines, written m zs id lines) /\
  (told w' = false <-> told w = false /\
     forall id lines, written m zs id lines -> directive_lines (text_of lines) = reading (files w !! id)).
Proof.
  revert w. induction zs as [|z zs IH]; intros w Hnd.
  { cbn. assert (forall id lines, ~ written m [] id lines) as Hno by (intros id lines (? & []%not_elem_of_nil & _)).
    split_and!; [by intros ? ? ?%Hno|done| |]; naive_solver. }
  cbn [map] in Hnd. apply NoDup_cons in Hnd as [Hz Hnd]. cbn [fold_left].
  destruct (IH (write_zone m w z) Hnd) as (H1 & H2 & H3 & H4). clear IH.
  assert (forall lines, ~ written m zs (z_id z) lines) as Hother.
  { intros lines (z' & Hin & Hid & _). apply Hz. rewrite <- Hid. apply list_elem_of_In, in_map, list_elem_of_In, Hin. }
  assert (forall id lines, written m (z :: zs) id lines <-> (id = z_id z /\ zone_lines m z = Some lines) \/ written m zs id lines) as Hw.
  { intros id lines. split.
    - intros (z' & [->|Hin]%elem_of_cons & <- & Hl); [by left|]. right. by exists z'.
    - intros [[-> Hl]|(z' & Hin & Hid & Hl)]; [exists z|exists z']; split_and!; try done; set_solver. }
  cbv zeta in *. set (w' := fold_left _ _ _) in *. clearbody w'. unfold write_zone in *.
  destruct (zone_lines m z) as [lines|] eqn:El.
  - destruct (write_lines (files w !! z_id z) lines) as (c & Hwr & Hc). rewrite Hwr in *. cbn [files activeIds told] in *. split_and!.
    + intros id l [[-> [= <-]]|Hin]%Hw; [|by apply H1]. rewrite H2 by done. by rewrite lookup_insert_eq.
    + intros id Hno. rewrite H2 by (intros l Hl; apply (Hno l), Hw; by right). rewrite lookup_insert_ne; [done|].
      intros <-. apply (Hno lines), Hw. by left.
    + intros id. rewrite H3, elem_of_union, elem_of_singleton. setoid_rewrite Hw. naive_solver.
    + rewrite H4, orb_false_iff, Hc. split.
      * intros [[Ht He] Hall]. split; [done|]. intros id l [[-> [= <-]]|Hin]%Hw; [done|]. rewrite (Hall id l Hin), lookup_insert_ne; [done|].
        intros <-. by apply (Hother l).
      * intros [Ht Hall]. split; [split; [done|]|].
        { apply Hall, Hw. by left. }
        intros id l Hin. rewrite lookup_insert_ne; [apply Hall, Hw; by right|]. intros <-. by apply (Hother l).
  - split_and!.
    + intros id l [[_ [=]]|Hin]%Hw. by apply H1.
    + intros id Hno. apply H2. intros l Hl. apply (Hno l), Hw. by right.
    + intros id. rewrite H3. setoid_rewrite Hw. naive_solver.
    + rewrite H4. setoid_rewrite Hw. naive_solver.
Qed.

(** The zone files after a run are those of the zones that have lines. *)
Lemma conf_files m disk id :
  NoDup (map z_id (zones m)) ->
  (forall lines, written m (zones m) id lines -> zone_conf (regenerateConfDir m disk).1 !! id = Some (text_of lines)) /\
  (is_Some (zone_conf (regenerateConfDir m disk).1 !! id) -> exists lines, written m (zones m) id lines).
Proof.
  intros Hnd. unfold regenerateConfDir, cleanStaleFiles. destruct (writeLocalZones _ _) as [local c]. cbn [fst zone_conf].
  destruct (write_zones_spec m (zones m) (mkWriting (zone_conf disk) ∅ false) Hnd) as (H1 & _ & H3 & _). cbn [activeIds] in H3. split.
  - intros lines Hw. apply map_lookup_filter_Some. split; [by apply H1|]. apply H3. right. eauto.
  - intros [text [_ [?%elem_of_empty|Hw]%H3]%map_lookup_filter_Some]; [done|exact Hw].
Qed.

(** When the run has nothing to tell dnsmasq. *)
Lemma conf_told m disk :
  NoDup (map z_id (zones m)) ->
  let w := fold_left (write_zone m) (zones m) (mkWriting (zone_conf disk) ∅ false) in
  let disk' := (regenerateConfDir m disk).1 in
  told w || (cleanStaleFiles (activeIds w) (files w)).2 = false <->
  forall id, reading (zone_conf disk' !! id) = reading (zone_conf disk !! id) /\
             (is_Some (zone_conf disk !! id) -> is_Some (zone_conf disk' !! id)).
Proof.
  intros Hnd w disk'. destruct (write_zones_spec m (zones m) (mkWriting (zone_conf disk) ∅ false) Hnd) as (H1 & H2 & H3 & H4).
  fold w in H1, H2, H3, H4. cbn [files activeIds told] in *.
  assert (forall id lines, written m (zones m) id lines -> zone_conf disk' !! id = Some (text_of lines)) as Hw by (intros id; by apply conf_files).
  assert (forall id, is_Some (zone_conf disk' !! id) -> exists lines, written m (zones m) id lines) as Hs by (intros id; by apply conf_files).
  unfold cleanStaleFiles. cbn [snd]. rewrite orb_false_iff, negb_false_iff, bool_decide_eq_true, H4. split.
  - intros [[_ Hr] Hsub] id. destruct (decide (id ∈ activeIds w)) as [Ha|Ha].
    + apply H3 in Ha as [Ha%elem_of_empty|[lines Hl]]; [done|]. rewrite (Hw _ _ Hl). split; [by apply (Hr id)|by eexists].
    + assert (forall lines, ~ written m (zones m) id lines) as Hno by (intros lines Hl; apply Ha, H3; right; eauto).
      assert (zone_conf disk' !! id = None) as ->.
      { destruct (zone_conf disk' !! id) eqn:E; [|done]. destruct (Hs id) as [lines Hl]; [by rewrite E; eexists|]. by destruct (Hno lines). }
      assert (zone_conf disk !! id = None) as ->; [|split; [done|tauto]]. rewrite <- (H2 id Hno). apply not_elem_of_dom. set_solver.
  - intros Hall. split; [split; [done|]|].
    + intros id lines Hl. destruct (Hall id) as [He _]. rewrite (Hw _ _ Hl) in He. exact He.
    + intros id Hid. apply H3. right. apply Hs. destruct (decide (id ∈ activeIds w)) as [Ha|Ha].
      * apply H3 in Ha as [Ha%elem_of_empty|[lines Hl]]; [done|]. rewrite (Hw _ _ Hl). by eexists.
      * apply Hall. rewrite <- H2; [by apply elem_of_dom|]. intros lines Hl. apply Ha, H3. right. eauto.
Qed.

Lemma elem_of_sorted_by {A} (le : A -> A -> bool) l x : x ∈ sort_by le l <-> x ∈ l.
Proof.
  unfold sort_by. induction l as [|y l IH]; [done|]. cbn [fold_right].
  assert (forall k, x ∈ insert_by le y k <-> x = y \/ x ∈ k) as Hi.
  { induction k as [|w k IHk]; cbn; [set_solver|]. destruct (le y w); [set_solver|]. rewrite elem_of_cons, IHk. set_solver. }
  rewrite Hi, IH. set_solver.
Qed.

Lemma local_spec zones file :
  let '(local, changed) := writeLocalZones zones file in
  reading local = map trim (local_lines zones) /\
  (changed = false <-> reading local = reading file /\ (is_Some file -> is_Some local)).
Proof.
  assert (Forall directive (local_lines zones)) as Hd.
  { apply Forall_forall. intros l Hl. unfold local_lines in Hl.
    apply elem_of_sorted_by, list_elem_of_In, in_map_iff in Hl as (z & <- & Hin). apply filter_In in Hin as [Hin Hb].
    apply andb_true_iff in Hb as [_ Hs]. apply safe_clean in Hs as (_ & Hs & _). split; [|by do 2 eexists; split_and!].
    by rewrite !has_char_app, Hs. }
  unfold writeLocalZones. destruct (local_lines zones) as [|l ls] eqn:El; cbn [length Nat.ltb Nat.leb].
  - destruct file as [t|]; (split; [done|]); [|tauto]. split; [done|]. intros [_ H]. by destruct H.
  - destruct (write_lines file (l :: ls)) as (c & -> & Hc). unfold reading at 1. cbn [default from_option id].
    pose proof (text_directives [] (l :: ls) ltac:(constructor) Hd) as Ht. cbn [app] in Ht. split; [exact Ht|].
    rewrite Hc. split; [intros H; split; [exact H|by eexists]|by intros [H _]].
Qed.

(** ** Lemmas: the hosts file *)

Lemma get_put ip v m : forall k, get k (put ip v m) = if String.eqb ip k then Some v else get k m.
Proof.
  intros k. induction m as [|[j w] m IH]; cbn; [done|]. destruct (String.eqb_spec j ip) as [->|Hne]; cbn.
  - destruct (String.eqb ip k); done.
  - destruct (String.eqb_spec j k) as [->|]; [|exact IH]. destruct (String.eqb_spec ip k); [congruence|done].
Qed.

Lemma get_key ip m v : get ip m = Some v -> ip ∈ map fst m.
Proof.
  induction m as [|[k w] m IH]; [done|]. cbn. destruct (String.eqb_spec k ip) as [->|]; [set_solver|]. intros H. apply IH in H. set_solver.
Qed.

Lemma keys_put ip v m k : k ∈ map fst (put ip v m) -> k = ip \/ k ∈ map fst m.
Proof.
  induction m as [|[j w] m IH]; cbn; [set_solver|]. destruct (String.eqb_spec j ip) as [->|]; cbn; [set_solver|].
  intros [->|H]%elem_of_cons; [set_solver|]. apply IH in H. set_solver.
Qed.

(** Only addresses of address records have lines. *)
Lemma hosts_keys m ip :
  ip ∈ map fst (servedHostsByAddress m) -> exists s, s ∈ records m /\ is_address (r_type (rec s)) = true /\ r_value (rec s) = ip.
Proof.
  unfold servedHostsByAddress. rewrite map_map. intros H.
  assert (forall acc, ip ∈ map fst (fold_left add_name (records m) acc) ->
    ip ∈ map fst acc \/ exists s, s ∈ records m /\ is_address (r_type (rec s)) = true /\ r_value (rec s) = ip) as Hfold.
  { clear H. induction (records m) as [|r l IH]; intros acc; cbn [fold_left]; [by left|]. intros [H|(s & Hs & ?)]%IH; [|right; exists s; set_solver].
    unfold add_name in H. destruct (negb _ || negb (is_address _)) eqn:E; [by left|]. apply orb_false_iff in E as [_ E%negb_false_iff].
    apply keys_put in H as [->|H]; [|by left]. right. exists r. set_solver. }
  destruct (Hfold []) as [Hn|Hs]; [|by apply not_elem_of_nil in Hn|done].
  erewrite map_ext; [exact H|]. by intros [k v].
Qed.

Lemma valid_sorts ip : isValidAddress ip = true -> is_Some (sortKey ip).
Proof.
  unfold isValidAddress, sortKey, parseIp. destruct (String.eqb (trim ip) ""); [done|]. destruct (index_of "%" (trim ip)); [done|].
  change (parseIp_address default_options (trim ip) None) with (parseIp_address no_zone (trim ip) None).
  destruct (parseIp_address no_zone (trim ip) None); [by eexists|done].
Qed.

Lemma hosts_total db : plain db -> exists entries, hosts_lines (loadDnsZones db) = Ok entries.
Proof.
  intros Hp. unfold hosts_lines. cbv zeta. destruct (_ && _) eqn:E; [|by eexists]. exfalso. apply andb_true_iff in E as [_ E].
  apply existsb_exists in E as (ip & Hin & Hk). apply list_elem_of_In, hosts_keys in Hin as (s & Hs & Ha & Hv).
  destruct (served_rows _ _ Hs) as (_ & _ & Hrow & _). pose proof (plain_addresses db Hp _ Hrow Ha) as Hva. rewrite Hv in Hva.
  apply valid_sorts in Hva as [k Hva]. by rewrite Hva in Hk.
Qed.

(** The first line of an address has its first name. *)
Lemma hosts_first m entries ip n ns :
  hosts_lines m = Ok entries -> get ip (servedHostsByAddress m) = Some (n :: ns) ->
  List.find (fun e => String.eqb (fst e) ip) entries = Some (ip, n).
Proof.
  unfold hosts_lines. cbv zeta. destruct (_ && _); [done|]. intros He Hg. injection He as <-.
  assert (ip ∈ sort_by key_le (map fst (servedHostsByAddress m))) as Hin by by eapply elem_of_sorted_by, get_key.
  induction (sort_by _ _) as [|k l IH]; [by apply not_elem_of_nil in Hin|]. cbn [List.flat_map].
  destruct (decide (k = ip)) as [->|Hne].
  - rewrite Hg. cbn. by rewrite String.eqb_refl.
  - assert (forall names, List.find (fun e : string * string => String.eqb (fst e) ip) (map (fun name => (k, name)) names) = None) as Hskip.
    { induction names as [|x names IHn]; [done|]. cbn. apply String.eqb_neq in Hne. by rewrite Hne. }
    assert (ip ∈ l) as Hl by set_solver. specialize (IH Hl). induction (default [] _) as [|x names IHn]; [exact IH|].
    cbn. apply String.eqb_neq in Hne as ->. exact IHn.
Qed.

Lemma ptr_line_fields zone s line :
  safe (z_name zone) = true -> ptr_line zone s = Some line ->
  split_char "," line = ["ptr-record=" +:+ r_name (rec s) +:+ "." +:+ z_name zone; r_value (rec s)].
Proof.
  intros Hz H. unfold ptr_line in H. destruct (negb _ || negb _) eqn:E; [done|]. apply (inj Some) in H as <-. reflect_bools.
  apply safe_clean in Hz as (_ & _ & Hz & _). match goal with Hs : safe _ = true |- _ => apply safe_clean in Hs as (_ & _ & Hs & _) end.
  match goal with |- split_char _ ?l = ?r => replace l with (join "," r) by (cbn [join]; by rewrite !app_assoc_str) end.
  apply split_char_join; [done|]. repeat constructor; [|done]. by rewrite !has_char_app, (ptr_name_clean "," (r_name (rec s))), Hz.
Qed.

(** What a run leaves of the local zones, and what it reports. *)
Lemma conf_dir m disk :
  let w := fold_left (write_zone m) (zones m) (mkWriting (zone_conf disk) ∅ false) in
  let local := writeLocalZones (zones m) (local_conf disk) in
  local_conf (regenerateConfDir m disk).1 = local.1 /\
  (regenerateConfDir m disk).2 = told w || (cleanStaleFiles (activeIds w) (files w)).2 || local.2.
Proof. unfold regenerateConfDir. destruct (cleanStaleFiles _ _), (writeLocalZones _ _). done. Qed.

Lemma conf_file db disk zone :
  plain db -> zone ∈ zones (loadDnsZones db) ->
  zone_conf (regenerateConfDir (loadDnsZones db) disk).1 !! z_id zone = text_of <$> zone_lines (loadDnsZones db) zone.
Proof.
  intros Hp Hz. set (m := loadDnsZones db) in *.
  destruct (conf_files m disk (z_id zone)) as [Hw Hs]; [by apply filter_map_nodup, plain_ids|].
  destruct (zone_lines m zone) as [lines|] eqn:El; [apply Hw; by exists zone|].
  destruct (zone_conf _ !! z_id zone) eqn:E; [|done]. destruct Hs as (lines & z & Hz' & Hid & Hl); [by eexists|].
  assert (z = zone) as -> by (by apply (zone_unique db)). congruence.
Qed.

(** ** Properties *)


(** A forward and a reverse zone, and one with a newline in its name. *)
Definition lan : Zone := mkZone 1 "lan" "forward" true false (Some "ns.lan") (Some "admin.lan") (Some 7) [Some 3600; Some 900; Some 604800; Some 300].
Definition reverse_lan : Zone := mkZone 2 "0.0.10.in-addr.arpa" "reverse" true true None None None [].
Definition two_lines : string := "lan" +:+ newline +:+ "10.0.0.66 bank.example".
Definition crooked : Zone := mkZone 3 two_lines "forward" true false None None None [].

(** [a], a quote, [b] and [c]. *)
Definition quoted (a b c : string) : string := a +:+ String quote (b +:+ c).

Definition row (id zone : Z) (name type value : string) : DnsRecord := mkRecord id zone name type value None None None None true.
Definition home : Db :=
  mkDb [lan; reverse_lan; crooked]
    [row 1 1 "www" "A" "10.0.0.5"; row 2 1 "web" "CNAME" "www.lan"; row 3 1 "@" "TXT" (quoted "say " "hi" (String quote ""));
     row 4 1 "bad" "CNAME" ("x.lan" +:+ newline +:+ "address=/bank/10.0.0.66");
     row 5 2 "5" "PTR" "www.lan"; row 6 2 "6" "PTR" "other.lan"; row 7 3 "www" "CNAME" "www.lan"].
Definition no_files : Disk := mkDisk ∅ None None ∅.

Lemma home_plain : plain home.
Proof.
  split.
  - apply (bool_decide_unpack _). vm_compute. exact I.
  - intros r c Hr Hc. repeat (apply elem_of_cons in Hr as [->|Hr]; [by destruct Hc as [-> | ->]|]). by apply not_elem_of_nil in Hr.
  - intros z n Hz Hn. repeat (apply elem_of_cons in Hz as [->|Hz]; [by destruct Hn as [[= <-]|[= <-]]|]). by apply not_elem_of_nil in Hz.
  - intros r Hr Ha. repeat (apply elem_of_cons in Hr as [->|Hr]; [first [done | vm_compute; reflexivity]|]). by apply not_elem_of_nil in Hr.
Qed.


(** A new SOA serial rewrites the file and is nothing to tell dnsmasq. *)
Example serial_bump_is_quiet :
  let next := mkDb [mkZone 1 "lan" "forward" true false (Some "ns.lan") (Some "admin.lan") (Some 8) [Some 3600; Some 900; Some 604800; Some 300]; reverse_lan; crooked] (dns_records home) in
  let disk := (regenerateConfDir (loadDnsZones home) no_files).1 in
  let '(disk', changed) := regenerateConfDir (loadDnsZones next) disk in
  changed = false /\ zone_conf disk' !! 1 <> zone_conf disk !! 1.
Proof. vm_compute. split; [reflexivity|discriminate]. Qed.

(** The writer of the hosts file trusts the zone name that the writer of the
    zone files refuses: a zone renamed to two lines adds an address line. *)
Example zone_name_adds_a_host :
  let db := mkDb [crooked] [row 1 3 "www" "A" "10.0.0.5"] in
  match regenerateHostsDir (loadDnsZones db) no_files with
  | Ok (disk, _) => option_map directive_lines (hosts_file disk) = Some ["10.0.0.5 www.lan"; "10.0.0.66 bank.example"]
  | Err _ => False
  end.
Proof. vm_compute. reflexivity. Qed.
