(* ===== verification/UrlGuard.v ===== *)
(** * Outbound URLs

    [server/src/utils/url-guard.js]: which addresses the server may connect
    to, the address a fetch is pinned to, and the caps on what it reads; with
    [validateUpstreamList] of [server/src/routes/dns.js], which asks the same
    of encrypted upstreams.

    [net.isIP], the URL parser and [dns.lookup] are parameters. *)

From S2P Require Import Prelude JsString Address Cidr.

(** ** Blocked ranges *)

Definition BLOCKED_IPV4_RANGES : list string :=
  ["0.0.0.0/8"; "10.0.0.0/8"; "100.64.0.0/10"; "127.0.0.0/8"; "169.254.0.0/16"; "172.16.0.0/12"; "192.0.0.0/24";
   "192.0.2.0/24"; "192.168.0.0/16"; "198.18.0.0/15"; "198.51.100.0/24"; "203.0.113.0/24"; "224.0.0.0/4"; "240.0.0.0/4"].

Definition BLOCKED_IPV6_RANGES : list string :=
  ["::/128"; "::1/128"; "::ffff:0:0/96"; "64:ff9b::/96"; "2001::/32"; "2001:db8::/32"; "2002::/16"; "fc00::/7"; "fe80::/10"; "ff00::/8"].

Definition some_result {E A} (f : A -> result E bool) (l : list A) : result E bool :=
  found ← find_result f l; mret (match found with Some _ => true | None => false end).

(** [{ zoneId: false, mapV4: false }] *)
Definition unmapped : ParseOptions := mkParseOptions false false true.

(** ** Data *)

(** What the URL parser gives. *)
Record Url := mkUrl
  { u_protocol : string; u_hostname : string; u_host : string; u_port : string; u_path : string; u_search : string; u_href : string }.

(** One answer of [dns.lookup]. *)
Record Answer := mkAnswer { address : string; afamily : Z }.

Record Checked := mkChecked { c_url : string; c_hostname : string; c_ip : string }.
Inductive Verdict := Allowed (check : Checked) | Refused (reason : string).

(** The options of the request that carry the address. [r_lookup] is what
    the pinned lookup answers, with [all] or without. *)
Record Request := mkRequest
  { r_hostname : string; r_port : string; r_path : string; r_host : string; r_servername : option string;
    r_lookup : string -> bool -> list Answer }.

(** An upstream of an encrypted forwarder; [None] where the field is no
    text. *)
Record Upstream := mkUpstream { addresses : list string; hostname : option string; doh_url : option string }.

Section Guard.
Context (isIP : string -> Z) (parseUrl : string -> option Url) (lookup : string -> Z -> string + list Answer).

Definition isBlockedIpv4 (ip : string) : result cidr_error bool :=
  if negb (isIP ip =? 4) then mret false
  else some_result (fun range => networkContains range ip) BLOCKED_IPV4_RANGES.

Definition isBlockedIpv6 (ip : string) : result cidr_error bool :=
  match parseIp unmapped ip with
  | None => mret false
  | Some parsed =>
      if negb (bits parsed =? 128) then mret false
      else
        match parseIp no_zone ip with
        | Some mapped =>
            if bits mapped =? 32 then isBlockedIpv4 (formatIp (value mapped) 32)
            else some_result (fun range => networkContains range (formatIp (value parsed) 128)) BLOCKED_IPV6_RANGES
        | None => some_result (fun range => networkContains range (formatIp (value parsed) 128)) BLOCKED_IPV6_RANGES
        end
  end.

Definition isBlockedAddress (ip : string) : result cidr_error bool :=
  b ← isBlockedIpv4 ip; if (b : bool) then mret true else isBlockedIpv6 ip.

(** The text between the brackets, where the whole is in brackets. *)
Definition unbracket (s : string) : string :=
  match s with
  | String "[" t => if ends_with_char "]" t then take_string (String.length t - 1) t else s
  | _ => s
  end.

(** The address a host is reached at, or the reason it is not. *)
Definition resolveHost (ipv6 : bool) (host : string) : string + string :=
  if isIP host =? 4 then inr host
  else if isIP host =? 6 then
    if negb ipv6 then inl "IPv6 URLs need IPv6 support switched on" else inr host
  else
    let families := if ipv6 then "IPv4 or IPv6" else "IPv4" in
    let unresolved code := inl ("Hostname does not resolve (" +:+ families +:+ "): " +:+ code) in
    match lookup host (if ipv6 then 0 else 4) with
    | inl code => unresolved code
    | inr answers =>
        match List.find (fun a => afamily a =? 4) answers with
        | Some chosen => inr (address chosen)
        | None => match List.find (fun a => afamily a =? 6) answers with
                  | Some chosen => inr (address chosen)
                  | None => unresolved "ENOTFOUND"
                  end
        end
    end.

Definition validateOutboundUrl (ipv6 : bool) (rawUrl : string) : result cidr_error Verdict :=
  if String.eqb rawUrl "" then mret (Refused "URL must be a non-empty string")
  else match parseUrl rawUrl with
  | None => mret (Refused "Invalid URL")
  | Some parsed =>
      if negb (String.eqb (u_protocol parsed) "http:") && negb (String.eqb (u_protocol parsed) "https:")
      then mret (Refused "URL must use http or https")
      else if String.eqb (u_hostname parsed) "" then mret (Refused "URL has no hostname")
      else
        match resolveHost ipv6 (unbracket (u_hostname parsed)) with
        | inl reason => mret (Refused reason)
        | inr ip =>
            let allowed := Allowed (mkChecked (u_href parsed) (u_hostname parsed) ip) in
            if isIP ip =? 6 then
              b ← isBlockedIpv6 ip;
              mret (if (b : bool) then Refused ("IP " +:+ ip +:+ " is in a blocked IPv6 range") else allowed)
            else
              found ← find_result (fun range => networkContains range ip) BLOCKED_IPV4_RANGES;
              mret (match found with
                    | Some range => Refused ("IP " +:+ ip +:+ " is in blocked range " +:+ range)
                    | None => allowed
                    end)
        end
  end.

(** The lookup of a pinned connection: whatever the name. *)
Definition pinnedLookup (ip : string) (_hostname : string) (all : bool) : list Answer := [mkAnswer ip (isIP ip)].

(** The request of [requestPinnedOutboundUrl] and [openPinnedOutboundStream]. *)
Definition reqOpts (check : Checked) (parsed : Url) : Request :=
  {| r_hostname := c_ip check;
     r_port := if String.eqb (u_port parsed) "" then (if String.eqb (u_protocol parsed) "https:" then "443" else "80") else u_port parsed;
     r_path := u_path parsed +:+ u_search parsed;
     r_host := u_host parsed;
     r_servername := if isIP (unbracket (u_hostname parsed)) =? 0 then Some (u_hostname parsed) else None;
     r_lookup := pinnedLookup (c_ip check) |}.

(** ** Encrypted upstreams *)

Definition validateUpstream (mode : string) (u : option Upstream) : result cidr_error (option string) :=
  match u with
  | None => mret (Some "each upstream must be an object")
  | Some u =>
      if (length (addresses u) =? 0)%nat || negb (forallb isValidAddress (addresses u))
      then mret (Some "each upstream needs a non-empty addresses[] of IP address strings")
      else
        blocked ← find_result isBlockedAddress (addresses u);
        match blocked with
        | Some a => mret (Some ("upstream address " +:+ a +:+ " is in a private/reserved range"))
        | None =>
            if match hostname u with Some "" => true | Some _ => false | None => true end
            then mret (Some "each upstream needs a hostname")
            else if String.eqb mode "https" && negb (match doh_url u with Some d => starts_with "https://" d | None => false end)
            then mret (Some "each upstream needs an https doh_url")
            else mret None
        end
  end.

Fixpoint first_problem {A} (f : A -> result cidr_error (option string)) (l : list A) : result cidr_error (option string) :=
  match l with
  | [] => mret None
  | x :: l' => p ← f x; match p with Some e => mret (Some e) | None => first_problem f l' end
  end.

Definition validateUpstreamList (arr : list (option Upstream)) (mode : string) : result cidr_error (option string) :=
  if (length arr =? 0)%nat then mret (Some "at least one upstream is required")
  else if (2 <? length arr)%nat then mret (Some "at most two upstreams: a primary and a backup")
  else if negb (bool_decide (NoDup (map (fun u => u ≫= hostname) arr)))
  then mret (Some "the primary and the backup are the same resolver")
  else first_problem (validateUpstream mode) arr.

End Guard.

(** ** What is guarded *)

Definition quad (a b c d : Z) : Z := ((a * 256 + b) * 256 + c) * 256 + d.

(** The IPv4 addresses the guard keeps the server from, as numbers. *)
Definition GUARDED_V4 : list (Z * Z) :=
  [(quad 0 0 0 0, quad 0 255 255 255);           (* this network *)
   (quad 10 0 0 0, quad 10 255 255 255);         (* RFC 1918 *)
   (quad 172 16 0 0, quad 172 31 255 255);
   (quad 192 168 0 0, quad 192 168 255 255);
   (quad 100 64 0 0, quad 100 127 255 255);      (* shared address space *)
   (quad 127 0 0 0, quad 127 255 255 255);       (* loopback *)
   (quad 169 254 0 0, quad 169 254 255 255);     (* link-local and metadata *)
   (quad 192 0 0 0, quad 192 0 0 255);           (* protocol assignments *)
   (quad 192 0 2 0, quad 192 0 2 255);           (* documentation *)
   (quad 198 51 100 0, quad 198 51 100 255);
   (quad 203 0 113 0, quad 203 0 113 255);
   (quad 198 18 0 0, quad 198 19 255 255);       (* benchmarking *)
   (quad 224 0 0 0, quad 239 255 255 255);       (* multicast *)
   (quad 240 0 0 0, quad 255 255 255 255)].      (* reserved and broadcast *)

(** The first address of a group of leading hextets, and a block of it. *)
Definition block6 (first plen : Z) : Z * Z := (first * 2 ^ (128 - plen), (first + 1) * 2 ^ (128 - plen) - 1).

(** And the IPv6 addresses. They are not all that the registries set apart, see
    [special_v6_pass]. *)
Definition GUARDED_V6 : list (Z * Z) :=
  [(0, 0); (1, 1);                               (* unspecified, loopback *)
   block6 (100 * 2 ^ 80 + 65435 * 2 ^ 64) 96;    (* NAT64, 64:ff9b::/96 *)
   block6 (8193 * 2 ^ 16) 32;                    (* Teredo, 2001::/32 *)
   block6 (8193 * 2 ^ 16 + 3512) 32;             (* documentation, 2001:db8::/32 *)
   block6 8194 16;                               (* 6to4, 2002::/16 *)
   block6 126 7;                                 (* unique local, fc00::/7 *)
   block6 1018 10;                               (* link-local, fe80::/10 *)
   block6 255 8].                                (* multicast, ff00::/8 *)

Definition outside (l : list (Z * Z)) (v : Z) : Prop := Forall (fun r => ~ (r.1 <= v <= r.2)) l.

Definition clear_v4 (v : Z) : Prop := outside GUARDED_V4 v.
(** An IPv4-mapped address is judged as the IPv4 address it carries. *)
Definition clear_v6 (v : Z) : Prop := if is_v4_mapped v then clear_v4 (v mod 2 ^ 32) else outside GUARDED_V6 v.

(** The range of the family that a CIDR text names. *)
Definition spans (f : Z) (c : string) (r : Z * Z) : bool :=
  match parseNetwork c with
  | Ok n => (family n =? f) && (networkBig n =? r.1) && (lastBig n =? r.2)
  | Err _ => false
  end.

Lemma ranges_v4 : forallb (fun r => existsb (fun c => spans 4 c r) BLOCKED_IPV4_RANGES) GUARDED_V4 = true.
Proof. vm_compute. reflexivity. Qed.
Lemma ranges_v6 : forallb (fun r => existsb (fun c => spans 6 c r) BLOCKED_IPV6_RANGES) GUARDED_V6 = true.
Proof. vm_compute. reflexivity. Qed.
Lemma ranges_parse : forallb isValidNetwork (BLOCKED_IPV4_RANGES ++ BLOCKED_IPV6_RANGES) = true.
Proof. vm_compute. reflexivity. Qed.

(** ** Lemmas *)

Lemma contains_text c n f b v :
  parseNetwork c = Ok n -> fam_bits f b -> spellable v b ->
  networkContains c (bigToAddress v f) = Ok (bool_decide (covers n f v)).
Proof.
  intros Hc Hf Hv. unfold networkContains. rewrite Hc. cbn [mbind result_bind]. rewrite (addressToBig_text f b v) by done.
  cbn [mbind result_bind a_family a_value]. unfold covers. destruct (Z.eqb_spec f (family n)) as [->|Hne]; cbn [negb].
  - unfold mret, result_ret. f_equal. apply eq_bool_prop_intro. rewrite andb_True, !Is_true_true, !Z.leb_le, bool_decide_eq_true. intuition.
  - rewrite bool_decide_eq_false_2; [done|]. intros [? _]. congruence.
Qed.

(** Looking an address up in ranges never throws, and finding none means it
    is outside all of them. *)
Lemma find_contains ranges f b v :
  fam_bits f b -> spellable v b -> forallb isValidNetwork ranges = true ->
  exists found, find_result (fun range => networkContains range (bigToAddress v f)) ranges = Ok found /\
    (found = None -> forall c n, c ∈ ranges -> parseNetwork c = Ok n -> ~ covers n f v).
Proof.
  intros Hf Hv. induction ranges as [|c l IH]; intros Hr.
  - exists None. split; [done|]. intros _ c n Hc. by apply elem_of_nil in Hc.
  - cbn [forallb] in Hr. apply andb_true_iff in Hr as [Hc Hl]. destruct (IH Hl) as (found & He & Hnone).
    unfold isValidNetwork in Hc. destruct (parseNetwork c) as [n|] eqn:Hn; [|done].
    cbn [find_result]. rewrite (contains_text c n f b v Hn Hf Hv). cbn [mbind result_bind].
    destruct (bool_decide_reflect (covers n f v)) as [Hcov|Hcov]; [by exists (Some c)|].
    exists found. split; [done|]. intros Hfound c' n' [->|Hin]%elem_of_cons Hn'; [|by eapply Hnone].
    by rewrite Hn in Hn'; injection Hn' as <-.
Qed.

Lemma find_outside ranges reserved f v :
  forallb (fun r => existsb (fun c => spans f c r) ranges) reserved = true ->
  (forall c n, c ∈ ranges -> parseNetwork c = Ok n -> ~ covers n f v) -> outside reserved v.
Proof.
  intros Hr Hnone. apply forallb_Forall in Hr. eapply Forall_impl; [exact Hr|]. intros r Hs Hin.
  apply existsb_exists in Hs as (c & Hc & Hs). unfold spans in Hs. destruct (parseNetwork c) as [n|] eqn:Hn; [|done]. reflect_bools.
  apply (Hnone c n); [by apply list_elem_of_In|done|]. split; [done|lia].
Qed.

Lemma ranges_valid : forallb isValidNetwork BLOCKED_IPV4_RANGES = true /\ forallb isValidNetwork BLOCKED_IPV6_RANGES = true.
Proof. pose proof ranges_parse as H. rewrite forallb_app in H. by apply andb_true_iff in H. Qed.

(** [mapV4] only refolds what is read without it. *)
Lemma parse_refold s v z :
  parseIp unmapped s = Some (mkParsedIp v 128 z) ->
  0 <= v < 2 ^ 128 /\ exists z', parseIp no_zone s = Some (if is_v4_mapped v then mkParsedIp (v mod 2 ^ 32) 32 z' else mkParsedIp v 128 z').
Proof.
  intros H. pose proof (parseIp_representable _ _ _ H) as Hr. cbn [value bits] in Hr.
  destruct Hr as [[? _]|(_ & Hv & _)]; [done|]. split; [done|]. unfold parseIp in *. run_inv H.
  unfold parseIp_address in *. destruct (has_char ":" (trim s)); [|run_inv H; injection H as ? ?; done].
  change (embeddedV4 no_zone || mapV4 no_zone) with true. change (embeddedV4 unmapped || mapV4 unmapped) with true in H.
  destruct (parseV6 (trim s) true) as [w|]; [|done]. cbn [mapV4 unmapped andb] in H. injection H as -> <-.
  cbn [mapV4 no_zone andb]. rewrite mapped_test by done. exists None. destruct (is_v4_mapped v); [|done].
  change 4294967295 with (2 ^ 32 - 1). by rewrite land_ones_mod.
Qed.

Lemma drop_while_keeps p c s : p c = false -> has_char c (drop_while p s) = has_char c s.
Proof.
  intros Hp. unfold has_char. induction s as [|a s IH]; [done|]. cbn. destruct (p a) eqn:Ha; [|done].
  rewrite IH. destruct (Ascii.eqb_spec c a); [congruence|done].
Qed.

Lemma drop_while_end_keeps p c s : p c = false -> has_char c (drop_while_end p s) = has_char c s.
Proof.
  intros Hp. unfold has_char. induction s as [|a s IH]; [done|]. cbn. rewrite <- IH.
  destruct (drop_while_end p s) as [|d t]; [|done]. destruct (p a) eqn:Ha; [|done]. cbn. destruct (Ascii.eqb_spec c a); [congruence|done].
Qed.

Lemma trim_keeps c s : is_space c = false -> has_char c (trim s) = has_char c s.
Proof. intros. unfold trim. by rewrite drop_while_end_keeps, drop_while_keeps. Qed.

Lemma index_of_none_char c s : index_of (String c "") s = None -> has_char c s = false.
Proof.
  unfold has_char. induction s as [|a s IH]; [done|]. cbn. rewrite andb_true_r. destruct (Ascii.eqb c a); [done|].
  cbn. destruct (index_of _ s); [done|]. by intros _; apply IH.
Qed.

Lemma valid_plain s : isValidAddress s = true -> has_char "%" s = false.
Proof.
  unfold isValidAddress, parseIp. intros H. rewrite <- (trim_keeps "%") by done. apply index_of_none_char.
  destruct (String.eqb (trim s) ""); [done|]. by destruct (index_of "%" (trim s)).
Qed.

Lemma first_problem_none {A} (f : A -> result cidr_error (option string)) l x :
  first_problem f l = Ok None -> x ∈ l -> f x = Ok None.
Proof.
  induction l as [|y l IH]; intros H Hx; [by apply elem_of_nil in Hx|]. cbn in H. destruct (f y) as [[e|]|] eqn:Hy; [done| |done].
  apply elem_of_cons in Hx as [->|Hx]; [done|]. by apply IH.
Qed.

(** ** Documented behaviour of the parameters *)

(** [net.isIP] answers 4 for dot-decimal notation with no leading zeroes and
    6 for an IPv6 address, which may have a zone; the host of an http or https
    URL has no percent sign (the URL Standard forbids it there, not in the
    opaque host of another scheme); [dns.lookup] answers with addresses of the family it says, without
    a zone, and of the family it was asked for. *)
Record node_behaviour (isIP : string -> Z) (parseUrl : string -> option Url) (lookup : string -> Z -> string + list Answer) : Prop := {
  isIP_4 : forall s, isIP s = 4 <-> exists v, 0 <= v < 2 ^ 32 /\ s = join "." (octets_of v);
  isIP_6 : forall s, isIP s = 6 -> has_char "%" s = false -> exists v z, parseIp unmapped s = Some (mkParsedIp v 128 z);
  host_plain : forall raw u, parseUrl raw = Some u -> u_protocol u = "http:" \/ u_protocol u = "https:" ->
    has_char "%" (u_hostname u) = false;
  lookup_plain : forall host f answers a, lookup host f = inr answers -> a ∈ answers ->
    isIP (address a) = afamily a /\ has_char "%" (address a) = false /\ (f = 4 -> afamily a = 4) }.

(** An address the server may connect to, as Node reads it. *)
Definition clear_address (isIP : string -> Z) (ip : string) : Prop :=
  isIP ip = 4 /\ (exists v, 0 <= v < 2 ^ 32 /\ ip = join "." (octets_of v) /\ clear_v4 v) \/
  isIP ip = 6 /\ (exists v z, parseIp unmapped ip = Some (mkParsedIp v 128 z) /\ clear_v6 v).

Section Behaviour.
Context (isIP : string -> Z) (parseUrl : string -> option Url) (lookup : string -> Z -> string + list Answer).
Context (HB : node_behaviour isIP parseUrl lookup).

Lemma find_blocked_v4 v :
  0 <= v < 2 ^ 32 ->
  exists found, find_result (fun range => networkContains range (join "." (octets_of v))) BLOCKED_IPV4_RANGES = Ok found /\
    (found = None -> clear_v4 v).
Proof.
  intros Hv. destruct (find_contains BLOCKED_IPV4_RANGES 4 32 v) as (found & Hf & Hn); [constructor|by left|apply ranges_valid|].
  exists found. split; [exact Hf|]. intros Hnone. eapply find_outside; [apply ranges_v4|]. by apply Hn.
Qed.

Lemma blocked_v4 v : 0 <= v < 2 ^ 32 ->
  exists b, isBlockedIpv4 isIP (join "." (octets_of v)) = Ok b /\ (b = false -> clear_v4 v).
Proof.
  intros Hv. unfold isBlockedIpv4. rewrite (proj2 (isIP_4 _ _ _ HB _)) by eauto. cbn [Z.eqb Pos.eqb negb].
  destruct (find_blocked_v4 v Hv) as (found & Hf & Hn). unfold some_result. rewrite Hf. eexists. split; [done|].
  destruct found; [done|]. auto.
Qed.

Lemma blocked_v6 s v z :
  parseIp unmapped s = Some (mkParsedIp v 128 z) -> exists b, isBlockedIpv6 isIP s = Ok b /\ (b = false -> clear_v6 v).
Proof.
  intros Hs. destruct (parse_refold s v z Hs) as (Hv & z' & Hm). unfold isBlockedIpv6, clear_v6. rewrite Hs, Hm.
  cbn [bits value Z.eqb Pos.eqb negb]. destruct (is_v4_mapped v) eqn:Hmap; cbn [bits value Z.eqb Pos.eqb].
  - apply (blocked_v4 (v mod 2 ^ 32)). by apply Z.mod_pos_bound.
  - destruct (find_contains BLOCKED_IPV6_RANGES 6 128 v) as (found & Hf & Hn); [constructor|right; split; [done|]; split; [exact Hv|done]|apply ranges_valid|].
    unfold some_result. rewrite <- (bigToAddress_bits 6 128 v) by constructor. rewrite Hf. eexists. split; [done|].
    destruct found; [done|]. intros _. eapply find_outside; [apply ranges_v6|]. by apply Hn.
Qed.

(** A URL's host keeps no percent sign without its brackets. *)
Lemma take_string_plain c n s : has_char c s = false -> has_char c (take_string n s) = false.
Proof. intros H. rewrite <- (take_drop_string n s), has_char_app in H. by apply orb_false_iff in H as [? _]. Qed.

Lemma unbracket_plain c s : has_char c s = false -> has_char c (unbracket s) = false.
Proof.
  intros H. assert (unbracket s = s \/ exists a t n, s = String a t /\ unbracket s = take_string n t) as [-> | (a & t & n & -> & ->)]; [|done|].
  - unfold unbracket. repeat case_match; eauto 6.
  - apply take_string_plain. unfold has_char in *. cbn [some_char] in H. by apply orb_false_iff in H as [_ H].
Qed.

(** What resolving a host gives is an address of a family that is on. *)
Lemma resolved_literal ipv6 host ip :
  has_char "%" host = false -> resolveHost isIP lookup ipv6 host = inr ip ->
  isIP ip = 4 \/ isIP ip = 6 /\ has_char "%" ip = false /\ ipv6 = true.
Proof.
  unfold resolveHost. intros Hp H.
  destruct (Z.eqb_spec (isIP host) 4) as [H4|_]; [injection H as <-; by left|].
  destruct (Z.eqb_spec (isIP host) 6) as [H6|_]; [destruct ipv6; [injection H as <-; auto|done]|].
  destruct (lookup host _) as [|answers] eqn:Hl; [done|]. pose proof (fun a => lookup_plain _ _ _ HB host (if ipv6 then 0 else 4) answers a Hl) as Hans.
  destruct (List.find (fun a => afamily a =? 4) answers) as [a|] eqn:H4.
  - injection H as <-. apply List.find_some in H4 as [Hin Hf%Z.eqb_eq]. left.
    destruct (Hans a ltac:(by apply list_elem_of_In)) as (-> & _). done.
  - destruct (List.find (fun a => afamily a =? 6) answers) as [a|] eqn:H6; [|done]. injection H as <-.
    apply List.find_some in H6 as [Hin Hf%Z.eqb_eq]. destruct (Hans a ltac:(by apply list_elem_of_In)) as (He & Hz & Hfam).
    right. split; [congruence|]. split; [done|]. destruct ipv6; [done|]. rewrite Hfam in Hf; done.
Qed.

(** Judging a literal: it never throws, and what passes is clear. *)
Lemma literal_checked ip :
  isIP ip = 4 \/ isIP ip = 6 /\ has_char "%" ip = false ->
  exists b, isBlockedAddress isIP ip = Ok b /\ (b = false -> clear_address isIP ip).
Proof.
  intros [H4|[H6 Hz]]; unfold isBlockedAddress.
  - pose proof H4 as (v & Hv & ->)%(isIP_4 _ _ _ HB). destruct (blocked_v4 v Hv) as (b & Hb & Hpub). rewrite Hb. cbn [mbind result_bind].
    destruct b; [by exists true|]. exists false. unfold isBlockedIpv6.
    assert (parseIp unmapped (join "." (octets_of v)) = Some (mkParsedIp v 32 None)) as -> by (apply (parseIp_formatIp unmapped v 32); by left). cbn [bits Z.eqb Pos.eqb negb]. split; [done|]. intros _. left. split; [done|]. exists v. auto.
  - unfold isBlockedIpv4 at 1. rewrite H6. cbn [Z.eqb Pos.eqb negb mbind result_bind].
    destruct (isIP_6 _ _ _ HB ip H6 Hz) as (v & z & Hv). destruct (blocked_v6 ip v z Hv) as (b & Hb & Hpub).
    exists b. split; [exact Hb|]. intros Hf. right. split; [done|]. exists v, z. auto.
Qed.
End Behaviour.

(** ** Properties *)

(** C40. A fetch never connects to an address of the guarded ranges. Whatever
    the URL and whatever its host resolves to, validateOutboundUrl answers (it
    throws on no input), and a URL it allows is pinned to an address outside
    them: for IPv4 this network, the private, shared, loopback, link-local,
    protocol-assignment, documentation, benchmarking, multicast and reserved
    blocks; for IPv6 the unspecified and loopback addresses and the NAT64
    (64:ff9b::/96), Teredo, 6to4, documentation (2001:db8::/32), unique local,
    link-local and multicast blocks; an IPv4-mapped address is judged by the
    IPv4 address it carries. These are not all the blocks that are not public
    (special_v6_pass). The address is IPv6 only while IPv6 is on, and the
    request then made asks for it under every name. This is for a net.isIP, a
    URL parser and a dns.lookup that behave as documented (node_behaviour). *)
Theorem outbound_addresses_guarded isIP parseUrl lookup ipv6 rawUrl :
  node_behaviour isIP parseUrl lookup ->
  exists verdict, validateOutboundUrl isIP parseUrl lookup ipv6 rawUrl = Ok verdict /\
    forall check, verdict = Allowed check ->
      clear_address isIP (c_ip check) /\ (isIP (c_ip check) = 6 -> ipv6 = true) /\
      forall parsed name all, r_hostname (reqOpts isIP check parsed) = c_ip check /\
        map address (r_lookup (reqOpts isIP check parsed) name all) = [c_ip check].
Proof.
  intros HB. unfold validateOutboundUrl. destruct (String.eqb rawUrl ""); [by eexists|].
  destruct (parseUrl rawUrl) as [u|] eqn:Hu; [|by eexists].
  destruct (negb _ && negb _) eqn:Hproto; [by eexists|].
  assert (u_protocol u = "http:" \/ u_protocol u = "https:") as Hweb.
  { apply andb_false_iff in Hproto. rewrite !negb_false_iff, !String.eqb_eq in Hproto. exact Hproto. }
  destruct (String.eqb (u_hostname u) ""); [by eexists|].
  destruct (resolveHost isIP lookup ipv6 _) as [reason|ip] eqn:Hr; [by eexists|].
  apply (resolved_literal isIP parseUrl lookup HB) in Hr; [|by apply unbracket_plain, (host_plain _ _ _ HB rawUrl)].
  destruct Hr as [H4|(H6 & Hz & Hon)].
  - rewrite H4. cbn [Z.eqb Pos.eqb]. pose proof H4 as (v & Hv & Hip)%(isIP_4 _ _ _ HB).
    destruct (find_blocked_v4 v Hv) as (found & Hf & Hpub). rewrite <- Hip in Hf. rewrite Hf. cbn [mbind result_bind]. eexists. split; [done|].
    intros check Hc. destruct found as [r|]; [done|]. injection Hc as <-. cbn [c_ip]. split; [left; split; [done|]; exists v; auto|].
    split; [congruence|]. done.
  - rewrite H6. cbn [Z.eqb Pos.eqb]. destruct (isIP_6 _ _ _ HB ip H6 Hz) as (v & z & Hv).
    destruct (blocked_v6 isIP parseUrl lookup HB ip v z Hv) as (b & -> & Hpub). cbn [mbind result_bind]. eexists. split; [done|].
    intros check Hc. destruct b; [done|]. injection Hc as <-. cbn [c_ip]. split; [right; split; [done|]; exists v, z; auto|].
    split; [done|]. done.
Qed.

(** [net.isIP] as documented, to instantiate the parameter. *)
Definition node_isIP (s : string) : Z :=
  match parseV4 s with
  | Some v => if String.eqb s (join "." (octets_of v)) then 4 else 0
  | None => match parseIp unmapped (take_string (default (String.length s) (index_of "%" s)) s) with
            | Some p => if bits p =? 128 then 6 else 0
            | None => 0
            end
  end.

Lemma node_isIP_4 s : node_isIP s = 4 <-> exists v, 0 <= v < 2 ^ 32 /\ s = join "." (octets_of v).
Proof.
  unfold node_isIP. split.
  - destruct (parseV4 s) as [v|] eqn:Hv; [|by repeat case_match]. destruct (String.eqb_spec s (join "." (octets_of v))); [|done].
    intros _. exists v. split; [by eapply parseV4_bounds|done].
  - intros (v & Hv & ->). by rewrite parseV4_format, String.eqb_refl.
Qed.

Lemma node_isIP_6 s : node_isIP s = 6 -> has_char "%" s = false -> exists v z, parseIp unmapped s = Some (mkParsedIp v 128 z).
Proof.
  unfold node_isIP. intros H Hp. destruct (parseV4 s); [by case_match|]. rewrite index_of_char_None in H by done. cbn [default] in H.
  rewrite <- (app_nil_r_str s) in H at 2. rewrite take_string_app in H. destruct (parseIp unmapped s) as [[v b z]|]; [|done].
  cbn [bits] in H. destruct (Z.eqb_spec b 128) as [->|]; [|done]. eauto.
Qed.

(** A name server with one name, of two addresses, and one private name. *)
Definition example_lookup (host : string) (f : Z) : string + list Answer :=
  if String.eqb host "dual.example" then inr ([mkAnswer "192.0.9.1" 4] ++ (if f =? 4 then [] else [mkAnswer "2a00::1" 6]))
  else if String.eqb host "inside.example" then inr [mkAnswer "10.0.0.5" 4] else inl "ENOTFOUND".

Definition example_url (raw : string) : option Url :=
  if String.eqb raw "http://dual.example/a" then Some (mkUrl "http:" "dual.example" "dual.example" "" "/a" "" raw)
  else if String.eqb raw "http://inside.example/" then Some (mkUrl "http:" "inside.example" "inside.example" "" "/" "" raw)
  else if String.eqb raw "http://[::ffff:a00:1]/" then Some (mkUrl "http:" "[::ffff:a00:1]" "[::ffff:a00:1]" "" "/" "" raw) else None.

Lemma example_behaviour : node_behaviour node_isIP example_url example_lookup.
Proof.
  constructor; [apply node_isIP_4|apply node_isIP_6| |].
  - intros raw u. unfold example_url. repeat case_match; intros H0' _; simplify_eq; reflexivity.
  - intros host f answers a. unfold example_lookup. repeat case_match; intros H0' Hin; simplify_eq; cbn in Hin.
    all: repeat (apply elem_of_cons in Hin as [->|Hin]; [split; [vm_compute; reflexivity|]; split; [reflexivity|]; cbn; lia|]); by apply elem_of_nil in Hin.
Qed.

Lemma outbound_addresses_guarded_witness :
  validateOutboundUrl node_isIP example_url example_lookup true "http://dual.example/a" =
    Ok (Allowed (mkChecked "http://dual.example/a" "dual.example" "192.0.9.1")) /\
  validateOutboundUrl node_isIP example_url example_lookup true "http://inside.example/" =
    Ok (Refused "IP 10.0.0.5 is in blocked range 10.0.0.0/8") /\
  validateOutboundUrl node_isIP example_url example_lookup true "http://[::ffff:a00:1]/" =
    Ok (Refused "IP ::ffff:a00:1 is in a blocked IPv6 range") /\
  exists verdict, validateOutboundUrl node_isIP example_url example_lookup false "http://dual.example/a" = Ok verdict.
Proof.
  split; [vm_compute; reflexivity|]. split; [vm_compute; reflexivity|]. split; [vm_compute; reflexivity|].
  destruct (outbound_addresses_guarded node_isIP example_url example_lookup false "http://dual.example/a" example_behaviour) as (v & Hv & _).
  exists v. exact Hv.
Defined.

(** The upstreams a settings request may name are clear of the guarded ranges: a list that
    passes has one or two upstreams with different hostnames, each with at
    least one address, every address valid, and each one that Node reads as
    an address literal outside all of them. *)
Theorem upstreams_guarded isIP parseUrl lookup arr mode :
  node_behaviour isIP parseUrl lookup ->
  validateUpstreamList isIP arr mode = Ok None ->
  (1 <= length arr <= 2)%nat /\
  forall entry, entry ∈ arr -> exists u, entry = Some u /\ addresses u <> [] /\ is_Some (hostname u) /\
    forall a, a ∈ addresses u -> isValidAddress a = true /\ (isIP a = 4 \/ isIP a = 6 -> clear_address isIP a).
Proof.
  intros HB. unfold validateUpstreamList. destruct (Nat.eqb_spec (length arr) 0); [done|]. destruct (Nat.ltb_spec 2 (length arr)); [done|].
  destruct (negb _); [done|]. intros Hp. split; [lia|]. intros entry Hin. apply (first_problem_none _ _ entry Hp) in Hin. clear Hp.
  unfold validateUpstream in Hin. destruct entry as [u|]; [|done]. exists u. split; [done|].
  destruct ((length (addresses u) =? 0)%nat || _) eqn:Ha; [done|]. reflect_bools.
  destruct (find_result (isBlockedAddress isIP) (addresses u)) as [[a|]|] eqn:Hf; [done| |done]. cbn [mbind result_bind] in Hin.
  split; [by intros He; rewrite He in *|]. split; [destruct (hostname u); [by eexists|done]|].
  intros a Hina. assert (isValidAddress a = true) as Hv.
  { match goal with Hall : forallb _ _ = true |- _ => rewrite forallb_forall in Hall; apply Hall; by apply list_elem_of_In end. }
  split; [done|]. intros Hip. pose proof (find_result_none _ _ a Hf Hina) as Hnb.
  destruct (literal_checked isIP parseUrl lookup HB a) as (b & Hb & Hpub); [pose proof (valid_plain a Hv); tauto|].
  apply Hpub. congruence.
Qed.

Definition example_upstreams : list (option Upstream) :=
  [Some (mkUpstream ["9.9.9.9"; "2620:fe::fe"] (Some "dns.quad9.net") None); Some (mkUpstream ["1.1.1.1"] (Some "one.one.one.one") None)].

Lemma upstreams_guarded_witness :
  validateUpstreamList node_isIP example_upstreams "tls" = Ok None /\ (1 <= length example_upstreams <= 2)%nat.
Proof.
  assert (validateUpstreamList node_isIP example_upstreams "tls" = Ok None) as H by (vm_compute; reflexivity).
  split; [exact H|]. apply (upstreams_guarded node_isIP example_url example_lookup example_upstreams "tls" example_behaviour H).
Defined.

(** Node reads neither of these as a literal, and the guard lets both pass:
    a leading zero, and a leading space. *)
Example not_a_literal :
  validateUpstreamList node_isIP [Some (mkUpstream ["127.0.0.01"; " 10.0.0.1"] (Some "dns.example") None)] "tls" = Ok None.
Proof. vm_compute. reflexivity. Qed.

(** Blocks the registries set apart for other than global use that are on
    neither list of the guard: the old site-local block, the discard block, the
    NAT64 block for local use (which can carry a private IPv4 address), the
    benchmarking block and the newer documentation block. *)
Example special_v6_pass :
  Forall (fun ip => isBlockedAddress node_isIP ip = Ok false) ["fec0::1"; "100::1"; "64:ff9b:1::a00:1"; "2001:2::1"; "3fff::1"].
Proof. repeat constructor. Qed.
