(* ===== verification/OutboundStream.v ===== *)
(** * What an outbound request reads

    [requestPinnedOutboundUrl] and [openPinnedOutboundStream] of
    [server/src/utils/url-guard.js]: the request each makes of an address
    [UrlGuard] checked, the caps on the bytes it reads, and that it resolves
    once. The inflater is a parameter, and what the socket does is a list of
    events. *)

From S2P Require Import Prelude JsString Cidr Bytes UrlGuard.

(** ** Data *)

Definition TOO_LARGE_CODE : string := "E_FEED_TOO_LARGE".

Inductive Stage := wire | decompressed | content_length.

(** [e_code] is [None] where the error is not one of the caps'. *)
Record StreamError := mkStreamError { e_code : option string; e_limit : Z; e_stage : option Stage; e_text : string }.

Definition stage_name (s : Stage) : string :=
  match s with wire => "wire" | decompressed => "decompressed" | content_length => "content-length" end.

Definition too_large (limit : Z) (stage : Stage) : StreamError :=
  mkStreamError (Some TOO_LARGE_CODE) limit (Some stage)
    ("Response exceeded the " +:+ dec limit +:+ " byte limit (" +:+ stage_name stage +:+ ")").

(** The head of a response: [rs_declared] is the number its content-length
    header reads as, [None] where that is not finite. *)
Record Response := mkResponse { rs_status : Z; rs_encoding : string; rs_declared : option Z }.

(** ** The caps *)

(** The [transform] of [byteCap]: the bytes seen, and the chunk or the error. *)
Definition transform (limit : Z) (stage : Stage) (seen : Z) (chunk : bytes) : Z * (StreamError + bytes) :=
  let seen := seen + blength chunk in
  if limit <? seen then (seen, inl (too_large limit stage)) else (seen, inr chunk).

(** Chunks through a cap: what passes, and the error that ends it. *)
Fixpoint byteCap (limit : Z) (stage : Stage) (seen : Z) (chunks : list bytes) : list bytes * option StreamError :=
  match chunks with
  | [] => ([], None)
  | chunk :: rest =>
      match transform limit stage seen chunk with
      | (_, inl err) => ([], Some err)
      | (seen, inr chunk) => let '(out, err) := byteCap limit stage seen rest in (chunk :: out, err)
      end
  end.

Section Stream.
Context (gunzip : list bytes -> list bytes * option StreamError) (maxBytes : Z).

(** What the consumer of the stream reads, and the error it is told of: an
    error downstream comes from chunks that passed the wire cap before. *)
Definition pipeline (encoding : string) (body : list bytes) : list bytes * option StreamError :=
  let '(wired, wire_error) := byteCap maxBytes wire 0 body in
  if String.eqb encoding "gzip" then
    let '(inflated, gunzip_error) := gunzip wired in
    let '(out, cap_error) := byteCap maxBytes decompressed 0 inflated in
    (out, match cap_error with Some e => Some e | None => match gunzip_error with Some e => Some e | None => wire_error end end)
  else (wired, wire_error).

(** [{ ok, status, stream }], [{ ok: false, status, cause }] or [{ ok: false,
    error }]. *)
Inductive Settled :=
| Opened (status : Z) (stream : list bytes) (error : option StreamError)
| NotOk (status : Z) (cause : option StreamError)
| NoResponse (error : string).

Definition onResponse (resp : Response) (body : list bytes) : Settled :=
  if (rs_status resp <? 200) || (300 <=? rs_status resp) then NotOk (rs_status resp) None
  else
    let encoding := to_lower (rs_encoding resp) in
    if match rs_declared resp with Some declared => maxBytes <? declared | None => false end
    then NotOk (rs_status resp) (Some (too_large maxBytes content_length))
    else let '(out, err) := pipeline encoding body in Opened (rs_status resp) out err.

(** What the socket does: a response with the chunks of its body, an error,
    or a timeout. *)
Inductive Event := ev_response (resp : Response) (body : list bytes) | ev_error (message : string) | ev_timeout.

Definition settle (settled : option Settled) (v : Settled) : option Settled :=
  match settled with Some _ => settled | None => Some v end.

Definition onEvent (settled : option Settled) (e : Event) : option Settled :=
  settle settled match e with
                 | ev_response resp body => onResponse resp body
                 | ev_error message => NoResponse message
                 | ev_timeout => NoResponse "Connection timed out"
                 end.

Definition settleStream (events : list Event) : option Settled := fold_left onEvent events None.

(** ** The response held in memory *)

Inductive BodyEvent := data (chunk : bytes) | stop | req_error (message : string) | req_timeout.

Inductive BodyResult := Received (ok : bool) (status : Z) (text : bytes) | Failed (error : string).

Record Reading := mkReading { chunks : list bytes; received : Z; destroyed : bool; outcome : option BodyResult }.

Definition resolve (st : Reading) (v : BodyResult) : Reading :=
  mkReading (chunks st) (received st) (destroyed st) match outcome st with Some r => Some r | None => Some v end.

Definition onBody (status : Z) (st : Reading) (e : BodyEvent) : Reading :=
  match e with
  | data chunk =>
      let received := received st + blength chunk in
      if maxBytes <? received then mkReading (chunks st) received true (outcome st)
      else mkReading (chunks st ++ [chunk]) received (destroyed st) (outcome st)
  | stop => resolve st (Received ((200 <=? status) && (status <? 300)) status (concat (chunks st)))
  | req_error message => resolve st (Failed message)
  | req_timeout => resolve (mkReading (chunks st) (received st) true (outcome st)) (Failed "Connection timed out")
  end.

Definition readBody (status : Z) (events : list BodyEvent) : Reading :=
  fold_left (onBody status) events (mkReading [] 0 false None).
End Stream.

(** ** The requests *)

(** A URL, or one that was checked before. *)
Inductive Target := raw_url (url : string) | checked_url (check : Checked).

(** What throws: the guard, or the parser on a URL it gave itself. *)
Inductive fetch_error := guard_error (e : cidr_error) | InvalidUrl.

(** [{ ok: false, error }] without a request, or the request with its headers
    and how it settles. *)
Inductive Fetch (S : Type) :=
| NotSent (error : string)
| Sent (request : Request) (headers : list (string * string)) (settled : S).
Arguments NotSent {S}.
Arguments Sent {S}.

Section Fetch.
Context (isIP : string -> Z) (parseUrl : string -> option Url) (lookup : string -> Z -> string + list Answer) (ipv6 : bool).
Context (gunzip : list bytes -> list bytes * option StreamError) (maxBytes : Z).

(** A value that is not a checked one is validated, and only text can be. *)
Definition checkTarget (target : Target) : result cidr_error Verdict :=
  match target with
  | raw_url url => validateOutboundUrl isIP parseUrl lookup ipv6 url
  | checked_url check =>
      if negb (String.eqb (c_url check) "") && negb (String.eqb (c_ip check) "") then mret (Allowed check)
      else mret (Refused "URL must be a non-empty string")
  end.

Definition fetch {S} (target : Target) (send : Url -> list (string * string)) (settled : S) : result fetch_error (Fetch S) :=
  match checkTarget target with
  | Err e => Err (guard_error e)
  | Ok (Refused reason) => mret (NotSent reason)
  | Ok (Allowed check) =>
      match parseUrl (c_url check) with
      | None => Err InvalidUrl
      | Some parsed => mret (Sent (reqOpts isIP check parsed) (send parsed) settled)
      end
  end.

(** [headers] with the host, and the length of the body unless given. *)
Definition bodyHeaders (headers : list (string * string)) (body : option bytes) (parsed : Url) : list (string * string) :=
  let requestHeaders := js_set "Host" (u_host parsed) headers in
  match body with
  | Some content =>
      match js_get "Content-Length" requestHeaders, js_get "content-length" requestHeaders with
      | None, None => js_set "Content-Length" (dec (blength content)) requestHeaders
      | _, _ => requestHeaders
      end
  | None => requestHeaders
  end.

(** [headers] with the host, and gzip asked for unless an encoding is. *)
Definition streamHeaders (headers : list (string * string)) (acceptGzip : bool) (parsed : Url) : list (string * string) :=
  let requestHeaders := js_set "Host" (u_host parsed) headers in
  let hasAcceptEncoding := existsb (fun h => String.eqb (to_lower h.1) "accept-encoding") requestHeaders in
  if acceptGzip && negb hasAcceptEncoding then js_set "Accept-Encoding" "gzip" requestHeaders else requestHeaders.

Definition requestPinnedOutboundUrl (target : Target) (headers : list (string * string)) (body : option bytes)
    (status : Z) (events : list BodyEvent) : result fetch_error (Fetch (option BodyResult)) :=
  fetch target (bodyHeaders headers body) (outcome (readBody maxBytes status events)).

Definition openPinnedOutboundStream (target : Target) (headers : list (string * string)) (acceptGzip : bool)
    (events : list Event) : result fetch_error (Fetch (option Settled)) :=
  fetch target (streamHeaders headers acceptGzip) (settleStream gunzip maxBytes events).
End Fetch.

Example cap_trips : byteCap 4 wire 0 [[1; 2]; [3; 4]; [5]; []] = ([[1; 2]; [3; 4]], Some (too_large 4 wire)).
Proof. vm_compute. reflexivity. Qed.

(** ** Lemmas *)

Definition total (l : list bytes) : Z := blength (concat l).

Lemma total_cons c l : total (c :: l) = blength c + total l.
Proof. unfold total, blength. cbn [concat]. rewrite length_app. lia. Qed.

Lemma total_app l m : total (l ++ m) = total l + total m.
Proof. induction l as [|c l IH]; [done|]. cbn [app]. rewrite !total_cons, IH. lia. Qed.

Lemma total_nonneg l : 0 <= total l.
Proof. unfold total, blength. lia. Qed.

(** What passes a cap: the chunks up to the one that goes over it. *)
Lemma byteCap_spec limit stage seen body out err :
  seen <= limit -> byteCap limit stage seen body = (out, err) ->
  seen + total out <= limit /\ out `prefix_of` body /\ (err = None <-> seen + total body <= limit) /\
  (err = None -> out = body) /\ (err <> None -> err = Some (too_large limit stage)).
Proof.
  revert seen out. induction body as [|c body IH]; intros seen out Hs H; cbn in H.
  - injection H as <- <-. change (total []) with 0. split; [lia|]. split; [done|]. split; [split; [lia|done]|]. split; [done|congruence].
  - unfold transform in H. destruct (Z.ltb_spec limit (seen + blength c)) as [Hlt|Hle].
    + injection H as <- <-. change (total []) with 0. rewrite total_cons. pose proof (total_nonneg body).
      split_and!; [lia|by exists (c :: body)|split; [done|lia]|done|done].
    + destruct (byteCap limit stage (seen + blength c) body) as [out' err'] eqn:E. injection H as <- <-.
      destruct (IH _ _ Hle E) as (Ht & Hp & Herr & Heq & Hne). rewrite !total_cons.
      split_and!; [lia|by apply prefix_cons|rewrite Herr; lia|intros He; by rewrite Heq|done].
Qed.

(** The reading of a body holds what fits, and all of it until it is over. *)
Lemma reading_spec maxBytes status events :
  0 <= maxBytes ->
  let st := readBody maxBytes status events in
  let sent := omap (fun e => match e with data c => Some c | _ => None end) events in
  received st = total sent /\ total (chunks st) <= maxBytes /\ (total sent <= maxBytes -> chunks st = sent) /\
  forall ok s text, outcome st = Some (Received ok s text) -> blength text <= maxBytes /\ s = status /\
    exists before, before `prefix_of` sent /\ (total before <= maxBytes -> text = concat before).
Proof.
  intros Hm. induction events as [|e events IH] using rev_ind; cbn zeta in *.
  { split_and!; (done || change (total []) with 0; done || idtac). }
  unfold readBody in *. rewrite fold_left_app, omap_app. cbn [fold_left]. set (st := fold_left _ events _) in *.
  set (sent := omap _ events) in *. destruct IH as (Hr & Ht & Hc & Ho).
  assert (forall ok s text, outcome st = Some (Received ok s text) -> forall rest, blength text <= maxBytes /\ s = status /\
    exists before, before `prefix_of` sent ++ rest /\ (total before <= maxBytes -> text = concat before)) as Ho'.
  { intros ok s text H rest. destruct (Ho _ _ _ H) as (? & ? & b & Hb & ?). split_and!; [done..|]. exists b. split; [|done]. by apply prefix_app_r. }
  destruct e as [c| |m|]; cbn [onBody omap list_omap].
  - pose proof (total_cons c []) as Hone. change (total []) with 0 in Hone. rewrite total_app, Hone.
    assert (0 <= blength c) by (unfold blength; lia).
    destruct (Z.ltb_spec maxBytes (received st + blength c)); cbn [received chunks outcome].
    + split_and!; [lia|done|lia|intros ? ? ? Hx; by eapply Ho'].
    + assert (chunks st = sent) as Hcs by (apply Hc; lia).
      rewrite total_app, Hcs, Hone. split_and!; [lia|lia|done|intros ? ? ? Hx; by eapply Ho'].
  - rewrite app_nil_r. cbn [resolve received chunks outcome]. split_and!; [done..|].
    intros ok s text H. destruct (outcome st) as [r|] eqn:E; [injection H as ->; by eapply Ho|]. injection H as <- <- <-.
    split; [exact Ht|]. split; [done|]. exists sent. split; [done|]. intros Hle. by rewrite Hc.
  - rewrite app_nil_r. cbn [resolve received chunks outcome]. split_and!; [done..|].
    intros ok s text H. destruct (outcome st) as [r|] eqn:E; [injection H as ->; by eapply Ho|done].
  - rewrite app_nil_r. cbn [resolve received chunks outcome]. split_and!; [done..|].
    intros ok s text H. destruct (outcome st) as [r|] eqn:E; [injection H as ->; by eapply Ho|done].
Qed.

Lemma settled_stays gunzip maxBytes events v :
  fold_left (onEvent gunzip maxBytes) events (Some v) = Some v.
Proof. by induction events as [|e events IH]. Qed.

Lemma settled_first gunzip maxBytes e events :
  settleStream gunzip maxBytes (e :: events) = settleStream gunzip maxBytes [e].
Proof.
  unfold settleStream. cbn [fold_left]. assert (exists v, onEvent gunzip maxBytes None e = Some v) as [v ->] by (by eexists).
  apply settled_stays.
Qed.

Lemma fetch_settled {S} isIP parseUrl lookup ipv6 target send (settled v : S) request sent :
  fetch isIP parseUrl lookup ipv6 target send settled = Ok (Sent request sent v) -> settled = v.
Proof. unfold fetch. intros H. run_inv H; by injection H. Qed.

(** The stream of an opened response. *)
Lemma pipeline_capped gunzip maxBytes encoding body out err :
  0 <= maxBytes -> pipeline gunzip maxBytes encoding body = (out, err) ->
  total out <= maxBytes /\
  (encoding <> "gzip" -> out `prefix_of` body /\ (err = None <-> total body <= maxBytes)) /\
  (err = None -> out = if String.eqb encoding "gzip" then (gunzip body).1 else body) /\
  (encoding = "gzip" -> err = None -> total body <= maxBytes /\ (gunzip body).2 = None).
Proof.
  intros Hm. unfold pipeline. destruct (byteCap maxBytes wire 0 body) as [wired e1] eqn:E1.
  destruct (byteCap_spec _ _ _ _ _ _ Hm E1) as (Ht1 & Hp1 & Hn1 & Hq1 & _).
  destruct (String.eqb_spec encoding "gzip") as [Hg|Hg].
  - destruct (gunzip wired) as [inflated e2] eqn:E2. destruct (byteCap maxBytes decompressed 0 inflated) as [out' e3] eqn:E3. intros [= <- <-].
    destruct (byteCap_spec _ _ _ _ _ _ Hm E3) as (Ht3 & _ & _ & Hq3 & _). split; [lia|]. split; [done|].
    split; [intros H|intros _ H]; destruct e3; try done; destruct e2; try done; rewrite (Hq1 H) in E2; rewrite E2.
    + by apply Hq3.
    + split; [by apply Hn1 in H|done].
  - intros [= <- <-]. split; [lia|]. split; [intros _; split; [done|]; rewrite Hn1; lia|]. split; [done|done].
Qed.

Lemma opened_inv gunzip maxBytes resp body s out err :
  0 <= maxBytes -> onResponse gunzip maxBytes resp body = Opened s out err ->
  s = rs_status resp /\ 200 <= s < 300 /\ (forall declared, rs_declared resp = Some declared -> declared <= maxBytes) /\
  total out <= maxBytes /\
  (to_lower (rs_encoding resp) <> "gzip" -> out `prefix_of` body /\ (err = None <-> total body <= maxBytes)) /\
  (err = None -> total body <= maxBytes /\
                 out = if String.eqb (to_lower (rs_encoding resp)) "gzip" then (gunzip body).1 else body).
Proof.
  intros Hm. unfold onResponse. destruct (_ || _) eqn:Hs; [done|].
  destruct (match rs_declared resp with Some d => maxBytes <? d | None => false end) eqn:Hd; [done|].
  destruct (pipeline gunzip maxBytes (to_lower (rs_encoding resp)) body) as [o e] eqn:Hp. intros [= <- <- <-]. reflect_bools.
  destruct (pipeline_capped _ _ _ _ _ _ Hm Hp) as (Ht & Hplain & Hall & Hgz). split; [done|]. split; [lia|].
  split; [intros d Hdd; rewrite Hdd in Hd; by apply Z.ltb_ge|]. split; [done|]. split; [done|]. intros He. split; [|by apply Hall].
  destruct (decide (to_lower (rs_encoding resp) = "gzip")) as [Hg|Hg]; [by apply Hgz|by apply Hplain].
Qed.

(** ** Properties *)

(** An outbound request is read within its cap. Whatever a stream asks
    for, it settles once, with its first event; one that is opened belongs to
    a 2xx response that declared no more than the cap, and its consumer never
    reads more than the cap, inflated or not: without gzip it reads the body's
    chunks in order, all of them exactly when the body fits, and otherwise is
    told; with gzip, not being told means that it read all the inflater made
    of a body that fits. A response held in memory is never larger than the
    cap either, and one that fits is whole. *)
Theorem downloads_capped isIP parseUrl lookup ipv6 gunzip maxBytes target headers acceptGzip :
  0 <= maxBytes ->
  (forall e events, openPinnedOutboundStream isIP parseUrl lookup ipv6 gunzip maxBytes target headers acceptGzip (e :: events) =
                    openPinnedOutboundStream isIP parseUrl lookup ipv6 gunzip maxBytes target headers acceptGzip [e]) /\
  (forall events request sent s out err,
    openPinnedOutboundStream isIP parseUrl lookup ipv6 gunzip maxBytes target headers acceptGzip events = Ok (Sent request sent (Some (Opened s out err))) ->
    exists resp body rest, events = ev_response resp body :: rest /\
      s = rs_status resp /\ 200 <= s < 300 /\ (forall declared, rs_declared resp = Some declared -> declared <= maxBytes) /\
      total out <= maxBytes /\
      (to_lower (rs_encoding resp) <> "gzip" -> out `prefix_of` body /\ (err = None <-> total body <= maxBytes)) /\
      (err = None -> total body <= maxBytes /\
                     out = if String.eqb (to_lower (rs_encoding resp)) "gzip" then (gunzip body).1 else body)) /\
  (forall body status events request sent ok s text,
    requestPinnedOutboundUrl isIP parseUrl lookup ipv6 maxBytes target headers body status events = Ok (Sent request sent (Some (Received ok s text))) ->
    blength text <= maxBytes /\ s = status /\
    exists before, before `prefix_of` omap (fun e => match e with data c => Some c | _ => None end) events /\
      (total before <= maxBytes -> text = concat before)).
Proof.
  intros Hm. split; [|split].
  - intros e events. unfold openPinnedOutboundStream. by rewrite settled_first.
  - intros events request sent s out err H. apply fetch_settled in H. destruct events as [|e rest]; [done|]. rewrite settled_first in H.
    destruct e as [resp body| |]; [|done|done]. exists resp, body, rest. split; [done|]. apply opened_inv; [done|]. by injection H.
  - intros body status events request sent ok s text H. apply fetch_settled in H. by apply (reading_spec maxBytes status events Hm) in H.
Qed.

Lemma downloads_capped_witness :
  exists request sent out err,
    openPinnedOutboundStream node_isIP example_url example_lookup true (fun l => (l ++ l, None)) 5 (raw_url "http://dual.example/a")
      [("User-Agent", "x")] true [ev_response (mkResponse 200 "GZip" (Some 3)) [[1; 2]; [3]]; ev_timeout] = Ok (Sent request sent (Some (Opened 200 out err))) /\
    sent = [("User-Agent", "x"); ("Host", "dual.example"); ("Accept-Encoding", "gzip")] /\
    total out = 5 /\ err = Some (too_large 5 decompressed).
Proof.
  destruct (downloads_capped node_isIP example_url example_lookup true (fun l => (l ++ l, None)) 5 (raw_url "http://dual.example/a")
              [("User-Agent", "x")] true) as (Hfirst & _); [lia|].
  eexists _, _, [[1; 2]; [3]; [1; 2]], (Some (too_large 5 decompressed)).
  split; [rewrite Hfirst; vm_compute; reflexivity|]. split; [reflexivity|]. split; reflexivity.
Defined.
