(* ===== verification/Blocklist.v ===== *)
(** * The blocklist feeds and their tables: [server/src/utils/blocklist.js]

    A category is one feed, a text with a domain per line. A refresh downloads
    it into a staging table and then applies it to the table the DNS proxy
    looks names up in, in chunks with the event loop running in between, so
    that a query may be answered from any state of the table on the way.

    The answer of [openPinnedOutboundStream] ([OutboundStream]) and what
    SQLite throws are arguments here. A refresh returns, besides its outcome,
    the list of the states the table went through. *)

From S2P Require Import Prelude JsString.

(** ** A line of a feed *)

Definition is_label_char (c : ascii) : bool := is_digit c || is_lower c || Ascii.eqb c "-".

Definition last_char (s : string) : option ascii := List.last (map Some (list_ascii_of_string s)) None.

(** [[a-z0-9]([a-z0-9-]*[a-z0-9])?] *)
Definition feed_label (l : string) : bool :=
  all_chars is_label_char l
  && match l with String c _ => negb (Ascii.eqb c "-") | "" => false end
  && match last_char l with Some c => negb (Ascii.eqb c "-") | None => false end.

(** A label of [DOMAIN_RE], and at least one more after a dot. *)
Definition DOMAIN_RE (d : string) : bool :=
  let labels := split_char "." d in
  (2 <=? length labels)%nat && forallb feed_label labels.

Definition IP_RE (d : string) : bool :=
  let parts := split_char "." d in
  (length parts =? 4)%nat && forallb (fun p => all_digits1 p && (js_length p <=? 3)) parts.

Definition isValidDomain (d : string) : bool :=
  (0 <? js_length d) && (js_length d <=? 253) && DOMAIN_RE d && negb (IP_RE d).

Definition first_part (c : ascii) (s : string) : string := default "" (head (split_char c s)).

Definition parseDomainLine (rawLine : string) : option string :=
  let line := to_lower (trim rawLine) in
  if String.eqb line "" || starts_with "#" line then None
  else
    let domain := trim (first_part "#" line) in
    if String.eqb domain "" || String.eqb domain "localhost" || negb (isValidDomain domain) then None
    else Some domain.

Example line_comment : parseDomainLine "  Ads.Example.COM # tracker" = Some "ads.example.com".
Proof. vm_compute. reflexivity. Qed.
Example line_hosts_file : parseDomainLine "0.0.0.0 ads.example.com" = None.
Proof. vm_compute. reflexivity. Qed.
Example line_address : parseDomainLine "10.0.0.1" = None.
Proof. vm_compute. reflexivity. Qed.

(** ** The tables *)

Record Category := mkCategory {
  enabled : bool;
  source_url : option string;
  etag : option string;
  last_modified : option string;
  domain_count : Z;
  last_fetched_at : option Z;
  last_error : option string }.

(** A row of [blocklist_domains]: the domain and the slug of its category. *)
Notation Row := (string * string)%type.

Record Db := mkDb {
  blocklist_categories : gmap string Category;
  blocklist_domains : gset Row;
  blocklist_stage : gset string }.

Definition set_domains (db : Db) (t : gset Row) : Db := mkDb (blocklist_categories db) t (blocklist_stage db).
Definition set_stage (db : Db) (t : gset string) : Db := mkDb (blocklist_categories db) (blocklist_domains db) t.
Definition update_category (db : Db) (slug : string) (f : Category -> Category) : Db :=
  mkDb (alter f slug (blocklist_categories db)) (blocklist_domains db) (blocklist_stage db).

(** The rows of a category. *)
Definition listed (db : Db) (slug : string) : gset string :=
  set_map fst (filter (fun r => r.2 = slug) (blocklist_domains db)).

(** [BlocklistStore.setCategoryEnabled], [BlocklistStore.setCategorySourceUrl] *)
Definition setCategoryEnabled (db : Db) (slug : string) (on : bool) : Db :=
  update_category db slug (fun c => mkCategory on (source_url c) (etag c) (last_modified c) (domain_count c) (last_fetched_at c) (last_error c)).
Definition setCategorySourceUrl (db : Db) (slug : string) (url : option string) : Db :=
  update_category db slug (fun c => mkCategory (enabled c) url (etag c) (last_modified c) (domain_count c) (last_fetched_at c) (last_error c)).

Definition new_category : Category := mkCategory false None None None 0 None None.

(** [INSERT OR IGNORE] of every slug of the catalog. *)
Definition ensureCategoryRows (catalog : list string) (db : Db) : Db :=
  fold_left (fun db slug =>
    match blocklist_categories db !! slug with
    | Some _ => db
    | None => mkDb (<[slug := new_category]> (blocklist_categories db)) (blocklist_domains db) (blocklist_stage db)
    end) catalog db.

Definition getDefaultCategoryUrl (slug : string) : string :=
  "https://blocklistproject.github.io/Lists/alt-version/" +:+ slug +:+ "-nl.txt".

(** ** The download *)

Record Headers := mkHeaders { if_none_match : option string; if_modified_since : option string }.

(** A body is read line by line until it ends or the stream, or a write to
    the staging table, throws. *)
Inductive Response :=
| Threw (message : string)
| NotModified
| Refused (message : string)
| Body (lines : list string) (thrown : option string) (res_etag res_last_modified : option string).

Inductive failure := Failed (message : string).

Record Refreshed := mkRefreshed { count : Z; changed : bool; notModified : bool }.

(** [if (row?.etag)]: an empty text is no validator. *)
Definition validator (v : option string) : option string :=
  match v with Some s => if String.eqb s "" then None else Some s | None => None end.

Definition request (db : Db) (slug : string) : string * Headers :=
  let row := blocklist_categories db !! slug in
  (default (getDefaultCategoryUrl slug) (row ≫= fun c => validator (source_url c)),
   mkHeaders (row ≫= fun c => validator (etag c)) (row ≫= fun c => validator (last_modified c))).

Section refresh.

(** [BLOCKLIST_INSERT_BATCH] *)
Context (BATCH : nat).

(** The loop over the lines: a full batch is written and the next begins. *)
Definition read_line (st : list string * gset string) (line : string) : list string * gset string :=
  let '(batch, stage) := st in
  match parseDomainLine line with
  | None => st
  | Some domain =>
      let batch := batch ++ [domain] in
      if (BATCH <=? length batch)%nat then ([], stage ∪ list_to_set batch) else (batch, stage)
  end.

Definition stage_feed (lines : list string) : gset string :=
  let '(batch, stage) := fold_left read_line lines ([], ∅) in stage ∪ list_to_set batch.

(** ** The application *)

(** [SELECT domain FROM blocklist_stage WHERE domain > ? ORDER BY domain] *)
Definition after (cursor : string) (stage : gset string) : list string :=
  List.filter (String.ltb cursor) (merge_sort String.le (elements stage)).

Definition rows_of (slug : string) (ds : list string) : gset Row := list_to_set (map (fun d => (d, slug)) ds).

(** The chunks, each its own statement: the states of the table after each,
    and what the one that threw said. [boom] is the statements that throw. *)
Fixpoint apply_chunks (fuel : nat) (slug : string) (stage : gset string) (boom : nat -> option string)
    (cursor : string) (t : gset Row) : list (gset Row) * option string :=
  match fuel with
  | O => ([], None)
  | S fuel =>
      match boom O with
      | Some message => ([], Some message)
      | None =>
          let rest := after cursor stage in
          let t := t ∪ rows_of slug (take BATCH rest) in
          match rest !! Nat.pred BATCH with
          | None => ([t], None)
          | Some boundary =>
              let '(states, thrown) := apply_chunks fuel slug stage (fun n => boom (S n)) boundary t in
              (t :: states, thrown)
          end
      end
  end.

Definition sweep (slug : string) (stage : gset string) (t : gset Row) : gset Row :=
  filter (fun r => ~ (r.2 = slug /\ r.1 ∉ stage)) t.

Definition final_state (t : gset Row) (states : list (gset Row)) : gset Row := List.last states t.

Definition quoted (s : string) : string := let q := String (ascii_of_nat 34) "" in q +:+ s +:+ q.

Definition no_domains : string :=
  "Feed downloaded but contained no valid domains. Check the source URL format: this parser expects one bare domain per line, not hosts-file lines like "
  +:+ quoted "0.0.0.0 example.com" +:+ ".".

Definition storing_failed (message : string) : string :=
  "Storing the feed failed after it downloaded: " +:+ message +:+ ". The previously stored domains for this category are still in place.".

(** [fail]: the error is the category's [last_error] and is thrown. *)
Definition fail (db : Db) (slug message : string) : Db * result failure Refreshed :=
  (update_category db slug (fun c => mkCategory (enabled c) (source_url c) (etag c) (last_modified c) (domain_count c) (last_fetched_at c) (Some message)),
   Err (Failed message)).

(** [runRefresh]: the states of [blocklist_domains] on the way, the tables at
    the end and the outcome. [boom] and [boom_sweep] are what the statements
    of the application throw, [now] is [datetime('now')]. *)
Definition runRefresh (res : Response) (boom : nat -> option string) (boom_sweep : option string) (now : Z)
    (db : Db) (slug : string) : list (gset Row) * (Db * result failure Refreshed) :=
  match res with
  | Threw message => ([], fail db slug message)
  | Refused message => ([], fail db slug message)
  | NotModified =>
      ([], (update_category db slug (fun c => mkCategory (enabled c) (source_url c) (etag c) (last_modified c) (domain_count c) (Some now) None),
        Ok (mkRefreshed (default 0 (domain_count <$> blocklist_categories db !! slug)) false true)))
  | Body lines (Some message) _ _ => ([], fail (set_stage db ∅) slug message)
  | Body lines None tag modified =>
      let stage := stage_feed lines in
      let db := set_stage db stage in
      let staged := Z.of_nat (size stage) in
      if staged =? 0 then ([], fail (set_stage db ∅) slug no_domains)
      else
        let '(states, thrown) := apply_chunks (S (size stage)) slug stage boom "" (blocklist_domains db) in
        let db := set_domains db (final_state (blocklist_domains db) states) in
        match thrown, boom_sweep with
        | Some message, _ | None, Some message => (states, fail db slug (storing_failed message))
        | None, None =>
            let t := sweep slug stage (blocklist_domains db) in
            (states ++ [t],
             (update_category (set_stage (set_domains db t) ∅) slug
                (fun c => mkCategory (enabled c) (source_url c) (validator tag) (validator modified) staged (Some now) None),
              Ok (mkRefreshed staged true false)))
        end
  end.

(** ** What the loop stages *)

Lemma read_lines_spec lines batch stage :
  let '(b, st) := fold_left read_line lines (batch, stage) in
  st ∪ list_to_set b = stage ∪ list_to_set batch ∪ list_to_set (omap parseDomainLine lines).
Proof.
  revert batch stage. induction lines as [|l lines IH]; intros batch stage.
  - simpl. set_solver.
  - cbn [fold_left]. unfold read_line at 2.
    assert (omap parseDomainLine (l :: lines)
      = match parseDomainLine l with Some d => d :: omap parseDomainLine lines | None => omap parseDomainLine lines end) as -> by reflexivity.
    destruct (parseDomainLine l) as [d|]; [|apply IH].
    destruct (BATCH <=? length (batch ++ [d]))%nat.
    + specialize (IH [] (stage ∪ list_to_set (batch ++ [d]))).
      destruct (fold_left _ _ _) as [b st]. rewrite IH, list_to_set_app_L. simpl. set_solver.
    + specialize (IH (batch ++ [d]) stage).
      destruct (fold_left _ _ _) as [b st]. rewrite IH, list_to_set_app_L. simpl. set_solver.
Qed.

Lemma stage_feed_spec lines : stage_feed lines = list_to_set (omap parseDomainLine lines).
Proof.
  unfold stage_feed. pose proof (read_lines_spec lines [] ∅) as H.
  destruct (fold_left _ _ _) as [b st]. rewrite H. set_solver.
Qed.

(** ** The chunks cover the stage *)

Lemma last_cons_default {A} (x d : A) l : List.last (x :: l) d = List.last l x.
Proof. revert x d. induction l as [|y l IH]; intros x d; [done|]. change (List.last (y :: l) d = List.last (y :: l) x). by rewrite !IH. Qed.

Lemma ltb_le a b : String.ltb a b = true <-> String.le a b /\ a <> b.
Proof.
  unfold String.le, String.leb, String.ltb. destruct (String.compare a b) eqn:E; simpl.
  - apply String.compare_eq_iff in E. naive_solver.
  - split; [|done]. intros _. split; [done|]. intros ->. pose proof (String.compare_antisym b b) as H. rewrite E in H. done.
  - split; [done|]. naive_solver.
Qed.

Lemma ltb_trans a b c : String.ltb a b = true -> String.ltb b c = true -> String.ltb a c = true.
Proof.
  rewrite !ltb_le. intros [H1 N1] [H2 N2]. split; [by etrans|].
  intros <-. apply N1. apply (anti_symm String.le); done.
Qed.

Lemma ltb_irrefl a : String.ltb a a = false.
Proof. destruct (String.ltb a a) eqn:E; [|done]. apply ltb_le in E. naive_solver. Qed.

Definition ascending : list string -> Prop := StronglySorted (fun a b => String.ltb a b = true).

Lemma last_choice {A} (d : A) l : List.last l d = d \/ List.last l d ∈ l.
Proof.
  revert d. induction l as [|x l IH]; intros d; [by left|]. right. rewrite last_cons_default.
  destruct (IH x) as [->|H]; [left|by right].
Qed.

Lemma elem_of_after c stage d : d ∈ after c stage <-> d ∈ stage /\ String.ltb c d = true.
Proof.
  unfold after. rewrite list_elem_of_In, filter_In, <- list_elem_of_In, merge_sort_Permutation, elem_of_elements. done.
Qed.

Lemma ascending_filter f l : ascending l -> ascending (List.filter f l).
Proof.
  induction 1 as [|a l Hs IH Ha]; simpl; [constructor|].
  destruct (f a); [|done]. constructor; [done|].
  rewrite Forall_forall in Ha |- *. intros x Hx. apply Ha. rewrite list_elem_of_In in Hx |- *. by apply filter_In in Hx as [].
Qed.

Lemma after_ascending c stage : ascending (after c stage).
Proof.
  apply ascending_filter. pose proof (StronglySorted_merge_sort String.le (elements stage)) as Hs.
  assert (NoDup (merge_sort String.le (elements stage))) as Hn.
  { rewrite merge_sort_Permutation. apply NoDup_elements. }
  induction Hs as [|a l Hs IH Ha]; [constructor|]. apply NoDup_cons in Hn as [Hin Hn].
  constructor; [by apply IH|]. rewrite Forall_forall in Ha |- *. intros x Hx. apply ltb_le. split; [by apply Ha|]. by intros ->.
Qed.

Lemma filter_after_index l i b :
  ascending l -> l !! i = Some b -> List.filter (String.ltb b) l = drop (S i) l.
Proof.
  intros Hs. revert i. induction Hs as [|a l Hs IH Ha]; intros i H; [done|].
  rewrite Forall_forall in Ha. destruct i as [|i]; simpl in H.
  - injection H as ->. simpl. rewrite ltb_irrefl. apply forallb_filter_id, forallb_forall.
    intros x Hx. apply Ha. by apply list_elem_of_In.
  - simpl. destruct (String.ltb b a) eqn:E; [|by apply IH].
    pose proof (Ha b (list_elem_of_lookup_2 _ _ _ H)) as Hb.
    pose proof (ltb_trans _ _ _ E Hb). rewrite ltb_irrefl in H0. done.
Qed.

Lemma filter_filter_ltb c b l : String.ltb c b = true -> List.filter (String.ltb b) (List.filter (String.ltb c) l) = List.filter (String.ltb b) l.
Proof.
  intros H. induction l as [|a l IH]; [done|]. simpl. destruct (String.ltb c a) eqn:E; simpl; [by rewrite IH|].
  destruct (String.ltb b a) eqn:E'; [|done]. by rewrite (ltb_trans _ _ _ H E') in E.
Qed.

Lemma after_boundary c stage i b : after c stage !! i = Some b -> after b stage = drop (S i) (after c stage).
Proof.
  intros H. rewrite <- (filter_after_index _ _ _ (after_ascending c stage) H).
  unfold after at 2. rewrite filter_filter_ltb; [done|].
  apply list_elem_of_lookup_2, elem_of_after in H. naive_solver.
Qed.

Lemma rows_of_app slug l k : rows_of slug (l ++ k) = rows_of slug l ∪ rows_of slug k.
Proof. unfold rows_of. by rewrite map_app, list_to_set_app_L. Qed.

Lemma elem_of_rows slug ds r : r ∈ rows_of slug ds <-> r.2 = slug /\ r.1 ∈ ds.
Proof.
  unfold rows_of. rewrite elem_of_list_to_set, list_elem_of_In, in_map_iff. setoid_rewrite <- list_elem_of_In.
  destruct r as [d s]; simpl. naive_solver.
Qed.

Context (BATCH_pos : (0 < BATCH)%nat).

Lemma chunks_complete fuel slug stage boom c t states :
  (length (after c stage) < fuel)%nat ->
  apply_chunks fuel slug stage boom c t = (states, None) ->
  final_state t states = t ∪ rows_of slug (after c stage).
Proof.
  revert boom c t states. induction fuel as [|fuel IH]; intros boom c t states Hf H; [lia|].
  simpl in H. destruct (boom O); [done|].
  destruct (after c stage !! Nat.pred BATCH) as [b|] eqn:Eb.
  - destruct (apply_chunks _ _ _ _ b _) as [sts thrown] eqn:Er. injection H as <- ->.
    pose proof (after_boundary _ _ _ _ Eb) as Ha. replace (S (Nat.pred BATCH)) with BATCH in Ha by lia.
    assert (final_state t ((t ∪ rows_of slug (take BATCH (after c stage))) :: sts)
      = final_state (t ∪ rows_of slug (take BATCH (after c stage))) sts) as ->.
    { apply last_cons_default. }
    erewrite IH; [| |exact Er].
    + rewrite Ha, <- (assoc_L (∪)), <- rows_of_app, take_drop. done.
    + rewrite Ha, length_drop. apply lookup_lt_Some in Eb. lia.
  - injection H as <-. unfold final_state. simpl. apply lookup_ge_None in Eb. rewrite take_ge; [done|lia].
Qed.

Lemma chunks_grow fuel slug stage boom c t states thrown s r :
  apply_chunks fuel slug stage boom c t = (states, thrown) -> s ∈ states ->
  (r ∈ t -> r ∈ s) /\ (r ∈ s -> r ∈ t \/ r.2 = slug /\ r.1 ∈ stage).
Proof.
  revert boom c t states thrown. induction fuel as [|fuel IH]; intros boom c t states thrown H Hs; simpl in H.
  - injection H as <- <-. by apply not_elem_of_nil in Hs.
  - destruct (boom O); [injection H as <- <-; by apply not_elem_of_nil in Hs|].
    assert (forall x, x ∈ rows_of slug (take BATCH (after c stage)) -> x.2 = slug /\ x.1 ∈ stage) as Hr.
    { intros x Hx. apply elem_of_rows in Hx as [-> Hx]. split; [done|].
      apply list_elem_of_lookup in Hx as [i Hi]. apply lookup_take_Some in Hi as [Hi _].
      by apply list_elem_of_lookup_2, elem_of_after in Hi as []. }
    destruct (after c stage !! Nat.pred BATCH) as [b|].
    + destruct (apply_chunks _ _ _ _ b _) as [sts th] eqn:Er. injection H as <- <-.
      apply elem_of_cons in Hs as [->|Hs]; [set_solver|].
      destruct (IH _ _ _ _ _ Er Hs). set_solver.
    + injection H as <- <-. apply list_elem_of_singleton in Hs as ->. set_solver.
Qed.

End refresh.

Definition BLOCKLIST_INSERT_BATCH : nat := Z.to_nat 25000.

Lemma batch_pos : (0 < BLOCKLIST_INSERT_BATCH)%nat.
Proof. unfold BLOCKLIST_INSERT_BATCH. lia. Qed.

#[global] Opaque BLOCKLIST_INSERT_BATCH.

(** ** What a line can be *)

Lemma parsed_domain l d : parseDomainLine l = Some d -> isValidDomain d = true.
Proof.
  unfold parseDomainLine. destruct (_ || _); [done|].
  destruct (_ || negb (isValidDomain _)) eqn:E; [done|]. intros [= <-].
  by apply orb_false_iff in E as [_ ?%negb_false_iff].
Qed.

Lemma parsed_nonempty l d : parseDomainLine l = Some d -> d <> "".
Proof. intros H%parsed_domain ->. done. Qed.

(** A domain has a dot, and is its own lower case. *)
Lemma label_char_lower c : is_label_char c = true -> lower_char c = c.
Proof.
  destruct c as [[] [] [] [] [] [] [] []]; vm_compute; intros H; try reflexivity; discriminate.
Qed.

Lemma all_label_lower s : all_chars is_label_char s = true -> to_lower s = s.
Proof.
  induction s as [|c s IH]; simpl; [done|]. intros [Hc Hs]%andb_true_iff.
  unfold to_lower in *. simpl. by rewrite label_char_lower, IH.
Qed.

(** ** The refresh *)

(** The domains of a feed. *)
Definition feed_of (res : Response) : gset string :=
  match res with Body lines _ _ _ => list_to_set (omap parseDomainLine lines) | _ => ∅ end.

Definition replaced (out : result failure Refreshed) : Prop := exists n, out = Ok (mkRefreshed n true false).

Lemma feed_size_zero (s : gset string) : (Z.of_nat (size s) =? 0) = bool_decide (s = ∅).
Proof.
  destruct (decide (s = ∅)) as [->|Hne].
  - rewrite bool_decide_true by done. rewrite size_empty. done.
  - rewrite bool_decide_false by done. apply Z.eqb_neq. intros E. apply Hne, leibniz_equiv, size_empty_inv. lia.
Qed.

Lemma after_start lines : forall d, d ∈ stage_feed BLOCKLIST_INSERT_BATCH lines <-> d ∈ after "" (stage_feed BLOCKLIST_INSERT_BATCH lines).
Proof.
  intros d. rewrite elem_of_after. split; [|by intros []]. intros H. split; [done|].
  rewrite stage_feed_spec, elem_of_list_to_set in H. apply list_elem_of_omap in H as (l & _ & H%parsed_nonempty). by destruct d.
Qed.

Lemma after_length c stage : (length (after c stage) < S (size stage))%nat.
Proof.
  unfold after. apply Nat.lt_succ_r. etrans; [apply filter_length_le|].
  rewrite merge_sort_Permutation. unfold size, set_size. simpl. done.
Qed.

Lemma elem_of_sweep slug stage t r : r ∈ sweep slug stage t <-> r ∈ t /\ ~ (r.2 = slug /\ r.1 ∉ stage).
Proof. unfold sweep. rewrite elem_of_filter. naive_solver. Qed.

Lemma elem_of_listed db slug d : d ∈ listed db slug <-> (d, slug) ∈ blocklist_domains db.
Proof.
  unfold listed. rewrite elem_of_map. setoid_rewrite elem_of_filter. split.
  - intros ([d' s] & -> & [<- H]). done.
  - intros H. by exists (d, slug).
Qed.

(** What every state on the way holds, and what the end does: [old] is the
    table before, [feed] the domains downloaded. *)
Definition keeps_listed (old : gset Row) (slug : string) (feed : gset string) (whole : Prop) (t : gset Row) : Prop :=
  forall r, (r ∈ old -> r.2 <> slug \/ r.1 ∈ feed \/ whole -> r ∈ t) /\ (r ∈ t -> r ∈ old \/ r.2 = slug /\ r.1 ∈ feed).

Lemma listed_same old slug feed whole : keeps_listed old slug feed whole old.
Proof. intros r. naive_solver. Qed.

Definition outcome_holds (db db' : Db) (slug : string) (feed : gset string) (out : result failure Refreshed) : Prop :=
  match out with
  | Ok (mkRefreshed n true _) =>
      listed db' slug = feed /\ n = Z.of_nat (size feed) /\ 0 < n
      /\ domain_count <$> blocklist_categories db' !! slug = (fun _ => n) <$> blocklist_categories db !! slug
  | Ok (mkRefreshed _ false _) => blocklist_domains db' = blocklist_domains db
  | Err (Failed m) => last_error <$> blocklist_categories db' !! slug = (fun _ => Some m) <$> blocklist_categories db !! slug
  end.

Lemma alter_fmap {A} (f : Category -> Category) (g : Category -> A) (a : A) (m : gmap string Category) k :
  (forall c, g (f c) = a) -> g <$> alter f k m !! k = (fun _ => a) <$> m !! k.
Proof. intros H. rewrite lookup_alter_eq. destruct (m !! k); simpl; [by rewrite H|done]. Qed.

Section body.

Context (boom : nat -> option string) (boom_sweep : option string) (now : Z) (db : Db) (slug : string).
Context (lines : list string) (tag modified : option string).
Let stage : gset string := stage_feed BLOCKLIST_INSERT_BATCH lines.
Let feed : gset string := list_to_set (omap parseDomainLine lines).
Let old : gset Row := blocklist_domains db.

Lemma stage_is_feed : stage = feed.
Proof. apply stage_feed_spec. Qed.

Lemma chunk_states states thrown :
  apply_chunks BLOCKLIST_INSERT_BATCH (S (size stage)) slug stage boom "" old = (states, thrown) ->
  Forall (keeps_listed old slug feed True) (states ++ [final_state old states]).
Proof.
  intros H. assert (Forall (keeps_listed old slug feed True) states) as Hall.
  { apply Forall_forall. intros t Ht r. destruct (chunks_grow _ batch_pos _ _ _ _ _ _ _ _ t r H Ht) as [H1 H2]. rewrite stage_is_feed in H2. naive_solver. }
  apply Forall_app. split; [done|]. apply Forall_singleton. unfold final_state.
  destruct (last_choice old states) as [->|Hin]; [apply listed_same|].
  rewrite Forall_forall in Hall. by apply Hall.
Qed.

Lemma chunk_end states :
  apply_chunks BLOCKLIST_INSERT_BATCH (S (size stage)) slug stage boom "" old = (states, None) ->
  forall r, r ∈ final_state old states <-> r ∈ old \/ r.2 = slug /\ r.1 ∈ feed.
Proof.
  intros H r. rewrite (chunks_complete _ batch_pos _ _ _ _ _ _ _ (after_length _ _) H).
  rewrite elem_of_union, elem_of_rows, <- stage_is_feed. unfold stage at 1. rewrite <- after_start. done.
Qed.

Lemma swept_states states :
  apply_chunks BLOCKLIST_INSERT_BATCH (S (size stage)) slug stage boom "" old = (states, None) ->
  forall r, r ∈ sweep slug stage (final_state old states) <-> r ∈ old /\ r.2 <> slug \/ r.2 = slug /\ r.1 ∈ feed.
Proof.
  intros H r. rewrite elem_of_sweep, (chunk_end _ H), stage_is_feed.
  destruct (decide (r.1 ∈ feed)); destruct (decide (r.2 = slug)); naive_solver.
Qed.

Lemma chunks_no_boom fuel c t : (forall n, boom n = None) -> snd (apply_chunks BLOCKLIST_INSERT_BATCH fuel slug stage boom c t) = None.
Proof.
  intros Hb. clear -Hb. revert boom Hb c t. induction fuel as [|fuel IH]; intros b Hb c t; [done|].
  simpl. rewrite Hb. destruct (_ !! _); [|done]. specialize (IH (fun n => b (S n)) (fun n => Hb (S n)) s (t ∪ rows_of slug (take BLOCKLIST_INSERT_BATCH (after c stage)))).
  destruct (apply_chunks _ _ _ _ _ _ _). done.
Qed.

End body.

Lemma keeps_weaken old slug feed (w w' : Prop) t : (w' -> w) -> keeps_listed old slug feed w t -> keeps_listed old slug feed w' t.
Proof. intros Hw H r. specialize (H r). naive_solver. Qed.

(** Of the lines downloaded whole, nothing throws and one is a domain. *)
Definition sound_feed (res : Response) (boom : nat -> option string) (boom_sweep : option string) : Prop :=
  (exists lines tag modified, res = Body lines None tag modified) /\ (forall n, boom n = None) /\ boom_sweep = None /\ feed_of res <> ∅.

Definition refresh_ok (res : Response) (boom : nat -> option string) (boom_sweep : option string) (db : Db) (slug : string)
    (states : list (gset Row)) (db' : Db) (out : result failure Refreshed) : Prop :=
  (forall t, t ∈ states ++ [blocklist_domains db'] -> keeps_listed (blocklist_domains db) slug (feed_of res) (~ replaced out) t)
  /\ outcome_holds db db' slug (feed_of res) out
  /\ (sound_feed res boom boom_sweep -> replaced out).

Lemma fail_ok res boom boom_sweep db db0 slug m states :
  blocklist_categories db0 = blocklist_categories db ->
  (forall t, t ∈ states ++ [blocklist_domains db0] -> keeps_listed (blocklist_domains db) slug (feed_of res) True t) ->
  ~ sound_feed res boom boom_sweep ->
  refresh_ok res boom boom_sweep db slug states (fail db0 slug m).1 (fail db0 slug m).2.
Proof.
  intros Hc Ht Hs. split_and!; [| |done].
  - intros t Hin. apply (keeps_weaken _ _ _ True); [done|]. by apply Ht.
  - simpl. rewrite Hc. by apply alter_fmap.
Qed.

Lemma untouched db slug feed t : t ∈ [] ++ [blocklist_domains db] -> keeps_listed (blocklist_domains db) slug feed True t.
Proof. intros ->%list_elem_of_singleton. apply listed_same. Qed.

Lemma body_ok boom boom_sweep now db slug lines tag modified :
  let '(states, (db', out)) := runRefresh BLOCKLIST_INSERT_BATCH (Body lines None tag modified) boom boom_sweep now db slug in
  refresh_ok (Body lines None tag modified) boom boom_sweep db slug states db' out.
Proof.
  cbn [runRefresh]. rewrite feed_size_zero, (stage_is_feed lines).
  case_bool_decide as Hz.
  { apply (fail_ok _ _ _ db (set_stage _ ∅)); [done|exact (untouched db slug _)|]. intros (_ & _ & _ & H). done. }
  change (blocklist_domains (set_stage db ?x)) with (blocklist_domains db).
  destruct (apply_chunks _ _ _ _ _ _ _) as [states thrown] eqn:Ec.
  rewrite <- (stage_is_feed lines) in Ec.
  pose proof (chunk_states boom db slug lines states thrown Ec) as Hst. rewrite Forall_forall in Hst.
  destruct thrown as [m|].
  { apply (fail_ok _ _ _ db (set_domains _ _)); [done|done|]. intros (_ & Hb & _).
    pose proof (chunks_no_boom boom slug lines (S (size (stage_feed BLOCKLIST_INSERT_BATCH lines))) "" (blocklist_domains db) Hb) as Hn. by rewrite Ec in Hn. }
  destruct boom_sweep as [m|].
  { apply (fail_ok _ _ _ db (set_domains _ _)); [done|done|]. by intros (_ & _ & ? & _). }
  pose proof (swept_states boom db slug lines states Ec) as Hsw. rewrite (stage_is_feed lines) in Hsw.
  change (blocklist_domains (set_domains _ ?t)) with t.
  split_and!; [| |intros _; by eexists].
  - assert (replaced (Ok (mkRefreshed (Z.of_nat (size (list_to_set (omap parseDomainLine lines) : gset string))) true false))) as Hr by by eexists.
    intros t Ht. apply elem_of_app in Ht as [Ht|Ht].
    + apply elem_of_app in Ht as [Ht| ->%list_elem_of_singleton].
      * apply (keeps_weaken _ _ _ True); [done|]. apply Hst. set_solver.
      * intros r. rewrite Hsw. simpl. destruct (decide (r.2 = slug)); naive_solver.
    + apply list_elem_of_singleton in Ht as ->. intros r. simpl. rewrite Hsw. destruct (decide (r.2 = slug)); naive_solver.
  - split_and!; [|done| |].
    + apply set_eq. intros d. rewrite elem_of_listed. simpl. rewrite Hsw. simpl. naive_solver.
    + assert (size (list_to_set (omap parseDomainLine lines) : gset string) <> 0%nat) as H; [|lia].
      intros H. by apply Hz, leibniz_equiv, size_empty_inv.
    + simpl. by apply alter_fmap.
Qed.

Lemma run_refresh_ok res boom boom_sweep now db slug states db' out :
  runRefresh BLOCKLIST_INSERT_BATCH res boom boom_sweep now db slug = (states, (db', out)) ->
  refresh_ok res boom boom_sweep db slug states db' out.
Proof.
  intros H.
  destruct res as [m| |m|lines [m|] tag modified].
  - injection H as <- <- <-. apply (fail_ok _ _ _ db db); [done|exact (untouched db slug _)|]. by intros [(? & ? & ? & ?) _].
  - injection H as <- <- <-. split_and!; [|done|by intros [(? & ? & ? & ?) _]].
    intros t Ht. eapply keeps_weaken, untouched; done.
  - injection H as <- <- <-. apply (fail_ok _ _ _ db db); [done|exact (untouched db slug _)|]. by intros [(? & ? & ? & ?) _].
  - injection H as <- <- <-. apply (fail_ok _ _ _ db (set_stage db ∅)); [done|exact (untouched db slug _)|]. by intros [(? & ? & ? & ?) _].
  - pose proof (body_ok boom boom_sweep now db slug lines tag modified) as Hb. by rewrite H in Hb.
Qed.

(** C21. While a blocklist category is refreshed, the DNS proxy may look names
    up in any state of the table on the way: no state lacks a domain that is
    in both the old list and the feed, or any row of another category, and
    none holds a domain of neither. A refresh that succeeds leaves exactly
    the feed's valid domains, with their number recorded; one that fails, at
    the download, at any chunk or at the sweep, loses nothing that was listed
    and says why; a feed that did not change touches nothing; and a feed
    downloaded whole with a domain in it, stored without an error, succeeds. *)
Theorem refresh_never_underblocks res boom boom_sweep now db slug states db' out :
  runRefresh BLOCKLIST_INSERT_BATCH res boom boom_sweep now db slug = (states, (db', out)) ->
  (forall t, t ∈ states ++ [blocklist_domains db'] -> keeps_listed (blocklist_domains db) slug (feed_of res) (~ replaced out) t)
  /\ outcome_holds db db' slug (feed_of res) out
  /\ (sound_feed res boom boom_sweep -> replaced out).
Proof.
  apply run_refresh_ok.
Qed.

Definition feed_db : Db :=
  mkDb {[ "ads" := mkCategory true None None None 2 None None; "porn" := mkCategory false None None None 1 None None ]}
    {[ ("both.example.com", "ads"); ("gone.example.com", "ads"); ("x.example.net", "porn") ]} ∅.

Lemma refresh_never_underblocks_witness :
  let r := runRefresh BLOCKLIST_INSERT_BATCH (Body ["# ads"; "both.example.com"; "New.example.com # new"; "not a domain"] None None None)
             (fun _ => None) None 1700 feed_db "ads" in
  (forall t, t ∈ r.1 ++ [blocklist_domains r.2.1] -> ("both.example.com", "ads") ∈ t /\ ("x.example.net", "porn") ∈ t)
  /\ "new.example.com" ∈ listed r.2.1 "ads" /\ "gone.example.com" ∉ listed r.2.1 "ads".
Proof.
  intros r.
  destruct (refresh_never_underblocks (Body ["# ads"; "both.example.com"; "New.example.com # new"; "not a domain"] None None None)
    (fun _ => None) None 1700 feed_db "ads" r.1 r.2.1 r.2.2) as (Hk & Ho & Hs).
  { subst r. by destruct (runRefresh _ _ _ _ _ _ _) as [? [? ?]]. }
  destruct Hs as [n Hn].
  { split_and!; [by do 3 eexists|done|done|]. apply (non_empty_inhabited_L "new.example.com"). vm_compute. reflexivity. }
  split.
  - intros t Ht. split; (apply (Hk t Ht); [vm_compute; reflexivity|]); [right; left; vm_compute; reflexivity|left; discriminate].
  - rewrite Hn in Ho. destruct Ho as [-> _]. split; [vm_compute; reflexivity|intros H; vm_compute in H; discriminate H].
Defined.

(** ** A new source *)

(** A web server that dates its documents and gives them no entity tag
    (RFC 9110, 13.1.3). [earlier] compares HTTP dates. *)
Record Document := mkDocument { doc_lines : list string; doc_modified : string }.

Definition serve (earlier : string -> string -> bool) (doc : Document) (h : Headers) : Response :=
  match if_none_match h, if_modified_since h with
  | None, Some d => if earlier (doc_modified doc) d then NotModified else Body (doc_lines doc) None None (Some (doc_modified doc))
  | _, _ => Body (doc_lines doc) None None (Some (doc_modified doc))
  end.

(** A category that is given another source keeps the validators of the old
    one. When the document there is older than the last download, the server
    answers that it did not change: the new feed is not read, the domains of
    the old one stay, and the refresh counts as done. *)
Lemma moved_source_unread earlier doc boom boom_sweep now db slug c url d :
  blocklist_categories db !! slug = Some c -> validator (etag c) = None -> validator (last_modified c) = Some d ->
  url <> "" -> earlier (doc_modified doc) d = true ->
  let moved := setCategorySourceUrl db slug (Some url) in
  let '(asked, h) := request moved slug in
  let '(_, (db', out)) := runRefresh BLOCKLIST_INSERT_BATCH (serve earlier doc h) boom boom_sweep now moved slug in
  asked = url /\ out = Ok (mkRefreshed (domain_count c) false true) /\ blocklist_domains db' = blocklist_domains db
  /\ blocklist_categories db' !! slug = Some (mkCategory (enabled c) (Some url) (etag c) (last_modified c) (domain_count c) (Some now) None).
Proof.
  intros Hc He Hm Hu Hd. unfold request, setCategorySourceUrl, update_category. cbn [blocklist_categories].
  rewrite lookup_alter_eq, Hc. cbn. rewrite He, Hm.
  destruct (String.eqb_spec url ""); [done|]. cbn. unfold serve. cbn. rewrite Hd. cbn.
  rewrite !lookup_alter_eq, Hc. done.
Qed.
