(* ===== verification/FilterPolicy.v ===== *)
(** * The filtering policy of the DNS proxy: [server/src/utils/dns-proxy.js]

    The verdicts on a query and on its answer, and the state they read: the
    enabled blocklist categories and the redirect addresses, the allowlist,
    the GeoIP rules, and the overrides (a pause for everyone, the exempt
    clients). Both transports of the proxy ([DnsProxy]) use these verdicts.
    The rows a name is looked up in are those of [Blocklist]; a country and a
    point on the map are arguments, as in [evaluateResolvedPolicy]. *)

From S2P Require Import Prelude JsString Address CidrMatch Blocklist.

(** ** The state *)

Record Policy := mkPolicy {
  geoipRuleSet : option (gset string);
  geoipMode : string;
  geoipAllowEntries : list Entry;
  allowlistSet : option (gset string);
  blocklistCategories : option (gset string);
  blocklistEnabled : bool;
  blocklistRedirectIp : string;
  blocklistRedirectIp6 : string;
  filteringPausedUntil : Z;
  exemptClients : gset string }.

Definition initial_policy : Policy := mkPolicy None "blocklist" [] None None false "" "" 0 ∅.

Section load.

(** [getSetting] *)
Context (getSetting : string -> option string).

Definition setting_or (key other : string) : string :=
  match getSetting key with Some s => if String.eqb s "" then other else s | None => other end.

(** [SELECT slug FROM blocklist_categories WHERE enabled = 1] *)
Definition enabled_slugs (db : Db) : gset string :=
  dom (filter (fun c => enabled c.2 = true) (blocklist_categories db)).

Definition loadBlocklist (db : Db) (p : Policy) : Policy :=
  let on := bool_decide (getSetting "blocklist_enabled" = Some "true") in
  mkPolicy (geoipRuleSet p) (geoipMode p) (geoipAllowEntries p) (allowlistSet p)
    (if on then Some (enabled_slugs db) else None) on
    (setting_or "blocklist_redirect_ip" "") (setting_or "blocklist_redirect_ip6" "")
    (filteringPausedUntil p) (exemptClients p).

Definition loadAllowlist (domains : list string) (p : Policy) : Policy :=
  mkPolicy (geoipRuleSet p) (geoipMode p) (geoipAllowEntries p) (Some (list_to_set (map to_lower domains)))
    (blocklistCategories p) (blocklistEnabled p) (blocklistRedirectIp p) (blocklistRedirectIp6 p)
    (filteringPausedUntil p) (exemptClients p).

(** The enabled country codes. *)
Definition loadGeoipRules (codes : list string) (p : Policy) : Policy :=
  mkPolicy (Some (list_to_set codes)) (setting_or "geoip_mode" "blocklist") (geoipAllowEntries p) (allowlistSet p)
    (blocklistCategories p) (blocklistEnabled p) (blocklistRedirectIp p) (blocklistRedirectIp6 p)
    (filteringPausedUntil p) (exemptClients p).

Definition loadGeoipAllowlist (values : list string) (p : Policy) : Policy :=
  mkPolicy (geoipRuleSet p) (geoipMode p) (omap parseCidrEntry values) (allowlistSet p)
    (blocklistCategories p) (blocklistEnabled p) (blocklistRedirectIp p) (blocklistRedirectIp6 p)
    (filteringPausedUntil p) (exemptClients p).

(** [until] is the stored deadline as an instant, if it is a date. *)
Definition loadFilteringOverrides (until : option Z) (exempt : gset string) (p : Policy) : Policy :=
  mkPolicy (geoipRuleSet p) (geoipMode p) (geoipAllowEntries p) (allowlistSet p)
    (blocklistCategories p) (blocklistEnabled p) (blocklistRedirectIp p) (blocklistRedirectIp6 p)
    (default 0 until) exempt.

End load.

(** ** Names *)

(** A name from most to least specific, stopping before the bare TLD. *)
Definition domainSuffixes (name : string) : list string :=
  if String.eqb name "" then []
  else
    let labels := split_char "." (to_lower name) in
    map (fun i => join "." (drop i labels)) (seq 0 (length labels - 1)).

Example suffixes_of : domainSuffixes "A.b.Example.com" = ["a.b.example.com"; "b.example.com"; "example.com"].
Proof. vm_compute. reflexivity. Qed.

(** [!queryName] holds of no name and of an empty one. *)
Definition isAllowlisted (p : Policy) (queryName : option string) : bool :=
  match allowlistSet p, queryName with
  | Some allowed, Some name => negb (size allowed =? 0)%nat && negb (String.eqb name "") && existsb (fun c => bool_decide (c ∈ allowed)) (domainSuffixes name)
  | _, _ => false
  end.

Definition blockingCountryCodes (p : Policy) (codes : list string) : list string :=
  match geoipRuleSet p with
  | None => []
  | Some rules =>
      if String.eqb (geoipMode p) "blocklist" then List.filter (fun cc => bool_decide (cc ∈ rules)) codes
      else List.filter (fun cc => negb (bool_decide (cc ∈ rules))) codes
  end.

(** [SELECT category_slug FROM blocklist_domains WHERE domain = ?], in the
    order of the table's key. *)
Definition slugs_of (db : Db) (domain : string) : list string :=
  merge_sort String.le (map snd (elements (filter (fun r => r.1 = domain) (blocklist_domains db)))).

Definition or_unknown (slug : string) : string := if String.eqb slug "" then "unknown" else slug.

(** The first enabled category of the first listed suffix. *)
Fixpoint first_hit (db : Db) (cats : gset string) (suffixes : list string) : option string :=
  match suffixes with
  | [] => None
  | c :: rest =>
      match List.find (fun slug => bool_decide (slug ∈ cats)) (slugs_of db c) with
      | Some slug => Some slug
      | None => first_hit db cats rest
      end
  end.

Definition checkBlocklist (p : Policy) (db : Db) (queryName : option string) : option string :=
  match blocklistCategories p with
  | Some cats =>
      if negb (blocklistEnabled p) || (size cats =? 0)%nat then None
      else if isAllowlisted p queryName then None
      else or_unknown <$> first_hit db cats (domainSuffixes (default "" queryName))
  | None => None
  end.

(** ** The verdicts *)

Inductive bypass := Paused | Host.

Definition filteringBypass (p : Policy) (now : Z) (clientIp : string) : option bypass :=
  if now <? filteringPausedUntil p then Some Paused
  else if negb (String.eqb clientIp "") && bool_decide (clientIp ∈ exemptClients p) then Some Host
  else None.

Record InboundBlock := mkInboundBlock { blockReason : string; responseCode : string }.

(** Either address makes the blocked answer one with NOERROR. *)
Definition redirects (p : Policy) : bool := negb (String.eqb (blocklistRedirectIp p) "") || negb (String.eqb (blocklistRedirectIp6 p) "").

(** [None] is [{ action: 'forward' }]. *)
Definition evaluateInboundPolicy (p : Policy) (db : Db) (now : Z) (queryName : option string) (clientIp : string) : option InboundBlock :=
  if String.eqb (default "" queryName) "" then None
  else match filteringBypass p now clientIp with
  | Some _ => None
  | None =>
      match checkBlocklist p db queryName with
      | None => None
      | Some category => Some (mkInboundBlock category (if redirects p then "NOERROR" else "NXDOMAIN"))
      end
  end.

Section resolved.

(** [lookupCountry] and [cachedPoint] *)
Context {Point : Type} (lookup : string -> option string) (pointOf : string -> option Point).

Record Place := mkPlace { ip : string; country : string }.
Record Destination := mkDestination { dest_country : string; dest_point : option Point }.

Inductive ResolvedVerdict :=
| ResolvedForward (destination : option Destination)
| ResolvedBlock (reason : string) (countryCodes : list string) (destination : option Destination).

Definition isGeoipAllowed (p : Policy) (ip : string) : bool := ipInAny ip (geoipAllowEntries p).

Definition placed (p : Policy) (ips : list string) : list Place :=
  omap (fun ip => mkPlace ip <$> lookup ip) (List.filter (fun ip => negb (isGeoipAllowed p ip)) ips).

Definition destinationOf (q : option Place) : option Destination :=
  (fun q => mkDestination (country q) (pointOf (ip q))) <$> q.

Definition evaluateResolvedPolicy (p : Policy) (now : Z) (queryName : option string) (ips : list string) (clientIp : string) : ResolvedVerdict :=
  match ips with
  | [] => ResolvedForward None
  | _ =>
      let places := placed p ips in
      match filteringBypass p now clientIp with
      | Some _ => ResolvedForward (destinationOf (head places))
      | None =>
          match blockingCountryCodes p (map country places) with
          | (reason :: _) as blocking =>
              if isAllowlisted p queryName then ResolvedForward (destinationOf (head places))
              else ResolvedBlock reason blocking (destinationOf (List.find (fun q => String.eqb (country q) reason) places))
          | [] => ResolvedForward (destinationOf (head places))
          end
      end
  end.

End resolved.

Arguments ResolvedVerdict : clear implicits.
Arguments Destination : clear implicits.

(** ** The counters *)

Record Stats := mkStats {
  statsTotal : Z; statsBlocked : Z; statsAllowed : Z;
  blockedDelta : Z; countryHits : gmap string Z;
  blocklistBlockedDelta : Z; blocklistCategoryHits : gmap string Z;
  timeoutCount : Z }.

Definition no_stats : Stats := mkStats 0 0 0 0 ∅ 0 ∅ 0.

Definition bump (k : string) (m : gmap string Z) : gmap string Z := <[k := default 0 (m !! k) + 1]> m.

Definition recordInboundBlock (v : InboundBlock) (s : Stats) : Stats :=
  mkStats (statsTotal s + 1) (statsBlocked s + 1) (statsAllowed s) (blockedDelta s) (countryHits s)
    (blocklistBlockedDelta s + 1) (bump (blockReason v) (blocklistCategoryHits s)) (timeoutCount s).

Definition recordResolvedBlock (codes : list string) (s : Stats) : Stats :=
  mkStats (statsTotal s + 1) (statsBlocked s + 1) (statsAllowed s) (blockedDelta s + 1)
    (fold_left (fun m cc => bump cc m) codes (countryHits s))
    (blocklistBlockedDelta s) (blocklistCategoryHits s) (timeoutCount s).

Definition count_total (s : Stats) : Stats :=
  mkStats (statsTotal s + 1) (statsBlocked s) (statsAllowed s) (blockedDelta s) (countryHits s)
    (blocklistBlockedDelta s) (blocklistCategoryHits s) (timeoutCount s).
Definition count_allowed (s : Stats) : Stats :=
  mkStats (statsTotal s) (statsBlocked s) (statsAllowed s + 1) (blockedDelta s) (countryHits s)
    (blocklistBlockedDelta s) (blocklistCategoryHits s) (timeoutCount s).
Definition count_timeout (s : Stats) : Stats :=
  mkStats (statsTotal s) (statsBlocked s) (statsAllowed s) (blockedDelta s) (countryHits s)
    (blocklistBlockedDelta s) (blocklistCategoryHits s) (timeoutCount s + 1).

(** [resetStats], [getBlockedDelta], [getAndResetCountryHits],
    [getAndResetBlocklistHits] *)
Definition resetStats (s : Stats) : Stats :=
  mkStats 0 0 0 (blockedDelta s) (countryHits s) (blocklistBlockedDelta s) (blocklistCategoryHits s) (timeoutCount s).
Definition getBlockedDelta (s : Stats) : Z * Stats :=
  (blockedDelta s, mkStats (statsTotal s) (statsBlocked s) (statsAllowed s) 0 (countryHits s) (blocklistBlockedDelta s) (blocklistCategoryHits s) (timeoutCount s)).
Definition getAndResetCountryHits (s : Stats) : gmap string Z * Stats :=
  (countryHits s, mkStats (statsTotal s) (statsBlocked s) (statsAllowed s) (blockedDelta s) ∅ (blocklistBlockedDelta s) (blocklistCategoryHits s) (timeoutCount s)).
Definition getAndResetBlocklistHits (s : Stats) : (Z * gmap string Z) * Stats :=
  ((blocklistBlockedDelta s, blocklistCategoryHits s),
   mkStats (statsTotal s) (statsBlocked s) (statsAllowed s) (blockedDelta s) (countryHits s) 0 ∅ (timeoutCount s)).

(** ** A pause: [PUT /api/blocklists/pause] of [server/src/routes/blocklists.js] *)

Definition PAUSE_MINUTES : list Z := [5; 15; 30; 60].

(** The deadline stored, if the request is accepted: [None] for the empty
    text, which is no date. A request to resume when nothing is paused stores
    nothing. *)
Definition pause (minutes now : Z) (stored : option Z) : result string (option Z) :=
  if negb (minutes =? 0) && negb (existsb (Z.eqb minutes) PAUSE_MINUTES)
  then Err "minutes must be 0 (resume) or one of 5, 15, 30, 60"
  else if (minutes =? 0) && negb (match stored with Some until => now <? until | None => false end) then Ok stored
  else Ok (if minutes =? 0 then None else Some (now + minutes * 60 * 1000)).

(** ** What a domain covers *)

(** A domain covers itself and every name under it. *)
Definition covers (d name : string) : Prop := name = d \/ exists p, name = p +:+ "." +:+ d.

(** A domain of two labels or more, covering the name as the proxy reads it. *)
Definition matches (d name : string) : Prop := has_char "." d = true /\ covers d (to_lower name).

Lemma split_char_dotted c p d : split_char c (p +:+ String c d) = split_char c p ++ split_char c d.
Proof.
  induction p as [|a p IH]; simpl.
  - destruct (split_char c d) eqn:E; [by destruct (split_char_nonempty c d)|]. by rewrite Ascii.eqb_refl.
  - simpl in IH. rewrite IH. destruct (split_char c p) eqn:E; [by destruct (split_char_nonempty c p)|].
    simpl. by destruct (Ascii.eqb c a).
Qed.

Lemma join_dotted l k : l <> [] -> k <> [] -> join "." (l ++ k) = join "." l +:+ "." +:+ join "." k.
Proof.
  intros Hl Hk. induction l as [|w l IH]; [done|]. destruct l as [|v l].
  - destruct k; [done|]. reflexivity.
  - change (w +:+ "." +:+ join "." ((v :: l) ++ k) = (w +:+ "." +:+ join "." (v :: l)) +:+ "." +:+ join "." k).
    rewrite IH by done. by rewrite !app_assoc_str.
Qed.

Lemma join_split_dot s : join "." (split_char "." s) = s.
Proof. apply (join_split_char "."). Qed.

Lemma split_char_dot d : has_char "." d = true -> (2 <= length (split_char "." d))%nat.
Proof.
  intros H. pose proof (join_split_dot d) as Hj. pose proof (split_char_nonempty "." d).
  pose proof (split_pieces_clean "." d) as Hc.
  destruct (split_char "." d) as [|w [|v l]]; [done| |simpl; lia].
  rewrite Forall_singleton in Hc. cbn [join] in Hj. subst w. by rewrite Hc in H.
Qed.

Lemma elem_of_suffixes d name : d ∈ domainSuffixes name <-> matches d name.
Proof.
  unfold domainSuffixes, matches. destruct (String.eqb_spec name "") as [->|Hn].
  { split; [by intros ?%not_elem_of_nil|]. intros [Hd [<-|[p Hp]]]; [done|]. simpl in Hp. by destruct p. }
  set (n := to_lower name). rewrite list_elem_of_In, in_map_iff. split.
  - intros (i & <- & Hi%in_seq).
    assert (drop i (split_char "." n) <> []) as Hne.
    { intros E%(f_equal length). rewrite length_drop in E. simpl in E. lia. }
    split.
    + destruct (drop i (split_char "." n)) as [|w [|v l]] eqn:E; [done| |apply (has_char_join_sep ".")].
      apply (f_equal length) in E. rewrite length_drop in E. simpl in E. lia.
    + unfold covers. destruct i as [|i]; [left; rewrite drop_0; by rewrite join_split_dot|right].
      exists (join "." (take (S i) (split_char "." n))).
      rewrite <- join_dotted; [by rewrite take_drop, join_split_dot| |done].
      destruct (split_char "." n) eqn:E; [by destruct (split_char_nonempty "." n)|done].
  - intros [Hd [Hc|[p Hp]]]; pose proof (split_char_dot _ Hd).
    + exists 0%nat. rewrite drop_0, join_split_dot. split; [done|]. apply in_seq. rewrite Hc. lia.
    + change (n = p +:+ String "." d) in Hp. rewrite Hp, split_char_dotted.
      exists (length (split_char "." p)). rewrite drop_app_length, join_split_dot. split; [done|].
      apply in_seq. rewrite length_app.
      destruct (split_char "." p) eqn:E; [by destruct (split_char_nonempty "." p)|simpl; lia].
Qed.

(** The walk goes from the longest to the shortest. *)
Lemma join_drop_length k l : (String.length (join "." (drop k l)) <= String.length (join "." l))%nat.
Proof.
  revert l. induction k as [|k IH]; intros l; [by rewrite drop_0|]. destruct l as [|w l]; [done|].
  simpl drop. etrans; [apply IH|]. destruct l; [simpl; lia|].
  change (join "." (w :: s :: l)) with (w +:+ "." +:+ join "." (s :: l)). rewrite !length_app_str. lia.
Qed.

Lemma suffixes_shrink name i j d d' :
  domainSuffixes name !! i = Some d -> domainSuffixes name !! j = Some d' -> (i <= j)%nat ->
  (String.length d' <= String.length d)%nat.
Proof.
  unfold domainSuffixes. destruct (String.eqb name ""); [done|].
  rewrite !list_lookup_fmap, !fmap_Some. intros (a & Ha & ->) (b & Hb & ->) Hij.
  apply lookup_seq in Ha as [-> _]. apply lookup_seq in Hb as [-> _]. simpl.
  replace j with (i + (j - i))%nat by lia. rewrite <- drop_drop. apply join_drop_length.
Qed.

(** ** The verdict on a query *)

Definition allowlisted (p : Policy) (name : string) : Prop :=
  exists allowed d, allowlistSet p = Some allowed /\ d ∈ allowed /\ matches d name.

Lemma isAllowlisted_spec p name : isAllowlisted p (Some name) = true <-> allowlisted p name.
Proof.
  unfold isAllowlisted, allowlisted. destruct (allowlistSet p) as [allowed|]; [|split; [done|by intros (? & ? & ? & _)]].
  rewrite !andb_true_iff, existsb_exists. setoid_rewrite <- list_elem_of_In. setoid_rewrite elem_of_suffixes. split.
  - intros [_ (d & Hd & Hin%bool_decide_eq_true)]. naive_solver.
  - intros (al & d & [= <-] & Hin & Hm). split_and!.
    + apply negb_true_iff, Nat.eqb_neq. intros E%size_empty_inv. set_solver.
    + apply negb_true_iff, String.eqb_neq. intros ->. apply elem_of_suffixes in Hm. by apply not_elem_of_nil in Hm.
    + exists d. split; [done|]. by apply bool_decide_eq_true.
Qed.

Lemma elem_of_slugs db d slug : slug ∈ slugs_of db d <-> (d, slug) ∈ blocklist_domains db.
Proof.
  unfold slugs_of. rewrite merge_sort_Permutation, list_elem_of_In, in_map_iff. setoid_rewrite <- list_elem_of_In.
  setoid_rewrite elem_of_elements. setoid_rewrite elem_of_filter. split.
  - by intros ([d' s] & <- & <- & H).
  - intros H. by exists (d, slug).
Qed.

(** Listed in an enabled category. *)
Definition hit (db : Db) (cats : gset string) (d slug : string) : Prop := slug ∈ cats /\ (d, slug) ∈ blocklist_domains db.

Lemma find_enabled db cats d :
  match List.find (fun slug => bool_decide (slug ∈ cats)) (slugs_of db d) with
  | Some slug => hit db cats d slug
  | None => forall slug, ~ hit db cats d slug
  end.
Proof.
  destruct (List.find _ _) as [slug|] eqn:E.
  - apply find_some in E as [Hin Hc%bool_decide_eq_true]. split; [done|]. by apply elem_of_slugs, list_elem_of_In.
  - intros slug [Hc Hin%elem_of_slugs%list_elem_of_In]. apply (find_none _ _ E) in Hin. by rewrite bool_decide_eq_false in Hin.
Qed.

Lemma first_hit_spec db cats l :
  match first_hit db cats l with
  | Some slug => exists i d, l !! i = Some d /\ hit db cats d slug
      /\ forall j d' slug', l !! j = Some d' -> hit db cats d' slug' -> (i <= j)%nat
  | None => forall d slug, d ∈ l -> ~ hit db cats d slug
  end.
Proof.
  induction l as [|c l IH]; simpl; [by intros ? ? ?%not_elem_of_nil|].
  pose proof (find_enabled db cats c) as Hf. destruct (List.find _ _) as [slug|].
  - exists 0%nat, c. split_and!; [done|done|]. intros. lia.
  - destruct (first_hit db cats l) as [slug|].
    + destruct IH as (i & d & Hi & Hh & Hmin). exists (S i), d. split_and!; [done|done|].
      intros [|j] d' slug' Hj Hh'; simpl in Hj; [injection Hj as ->; by destruct (Hf slug')|]. apply le_n_S. by eapply Hmin.
    + intros d slug [->|Hd]%elem_of_cons; [apply Hf|by apply IH].
Qed.

(** The most specific listed domain that covers the name. *)
Definition charged (db : Db) (cats : gset string) (name d slug : string) : Prop :=
  matches d name /\ hit db cats d slug
  /\ forall d' slug', matches d' name -> hit db cats d' slug' -> (String.length d' <= String.length d)%nat.

Lemma first_hit_charged db cats name :
  match first_hit db cats (domainSuffixes name) with
  | Some slug => exists d, charged db cats name d slug
  | None => forall d slug, matches d name -> ~ hit db cats d slug
  end.
Proof.
  pose proof (first_hit_spec db cats (domainSuffixes name)) as H. destruct (first_hit _ _ _) as [slug|].
  - destruct H as (i & d & Hi & Hh & Hmin). exists d. split_and!; [by eapply elem_of_suffixes, list_elem_of_lookup_2|done|].
    intros d' slug' [j Hj]%elem_of_suffixes%list_elem_of_lookup Hh'. eapply suffixes_shrink; [done|done|]. by eapply Hmin.
  - intros d slug Hm%elem_of_suffixes. by apply H.
Qed.

(** Nothing on the way to the lists lets the query through. *)
Definition filtered (p : Policy) (now : Z) (name clientIp : string) : Prop :=
  filteringBypass p now clientIp = None /\ ~ allowlisted p name.

(** What [evaluateInboundPolicy] computes, case by case. *)
Lemma inbound_spec p db now name clientIp :
  match evaluateInboundPolicy p db now (Some name) clientIp with
  | Some v => filtered p now name clientIp /\ blocklistEnabled p = true
      /\ exists cats d slug, blocklistCategories p = Some cats /\ charged db cats name d slug
         /\ v = mkInboundBlock (or_unknown slug) (if redirects p then "NOERROR" else "NXDOMAIN")
  | None => ~ (filtered p now name clientIp /\ blocklistEnabled p = true
      /\ exists cats d slug, blocklistCategories p = Some cats /\ matches d name /\ hit db cats d slug)
  end.
Proof.
  pose proof (isAllowlisted_spec p name) as Ha. unfold evaluateInboundPolicy, filtered, checkBlocklist. simpl default.
  destruct (String.eqb_spec name "") as [->|Hn].
  { intros (_ & _ & _ & d & _ & _ & Hm & _). apply elem_of_suffixes in Hm. by apply not_elem_of_nil in Hm. }
  destruct (filteringBypass p now clientIp); [naive_solver|].
  destruct (blocklistCategories p) as [cats|]; [|naive_solver].
  destruct (blocklistEnabled p); simpl; [|naive_solver].
  destruct (Nat.eqb_spec (size cats) 0) as [E|_].
  { apply size_empty_inv in E. intros (_ & _ & ? & d & slug & [= <-] & _ & Hc & _). set_solver. }
  destruct (isAllowlisted p (Some name)); [naive_solver|].
  pose proof (first_hit_charged db cats name) as H. destruct (first_hit _ _ _) as [slug|]; simpl; naive_solver.
Qed.

(** C23. A query is blocked exactly when filtering is not paused, the client
    is not exempt, the blocklists are on, no allowlisted domain covers the
    name, and a domain of an enabled category does: the name itself, whatever
    its case, or a parent of two labels or more. The category charged is one
    of the most specific domain listed, and the answer has NOERROR exactly
    when a redirect address is set. *)
Theorem blocked_exactly p db now name clientIp :
  (is_Some (evaluateInboundPolicy p db now (Some name) clientIp) <->
     filtered p now name clientIp /\ blocklistEnabled p = true
     /\ exists cats d slug, blocklistCategories p = Some cats /\ matches d name /\ hit db cats d slug)
  /\ (forall v, evaluateInboundPolicy p db now (Some name) clientIp = Some v ->
       exists cats d slug, blocklistCategories p = Some cats /\ charged db cats name d slug
         /\ v = mkInboundBlock (or_unknown slug) (if redirects p then "NOERROR" else "NXDOMAIN")).
Proof.
  pose proof (inbound_spec p db now name clientIp) as H.
  destruct (evaluateInboundPolicy _ _ _ _ _) as [v|].
  - destruct H as (Hf & Hb & Hc). split; [|by intros ? [= <-]]. split; [|by eexists]. intros _. split_and!; [done|done|].
    destruct Hc as (cats & d & slug & Hcats & (Hm & Hh & _) & _). by exists cats, d, slug.
  - split; [|done]. split; [by intros []|naive_solver].
Qed.

(** ** The verdict on an answer *)

(** A country the rules refuse: one on a blocklist, or one not on an
    allowlist. *)
Definition violates (p : Policy) (cc : string) : Prop :=
  exists rules, geoipRuleSet p = Some rules /\ (cc ∈ rules <-> geoipMode p = "blocklist").

Lemma blocking_spec p codes cc : cc ∈ blockingCountryCodes p codes <-> cc ∈ codes /\ violates p cc.
Proof.
  unfold blockingCountryCodes, violates. destruct (geoipRuleSet p) as [rules|].
  - destruct (String.eqb_spec (geoipMode p) "blocklist") as [->|Hm];
      rewrite !list_elem_of_In, filter_In, ?negb_true_iff, ?bool_decide_eq_true, ?bool_decide_eq_false; naive_solver.
  - split; [by intros ?%not_elem_of_nil|naive_solver].
Qed.

(** An address of the answer in a refused country, not let through itself. *)
Definition offends (lookup : string -> option string) (p : Policy) (ips : list string) (cc : string) : Prop :=
  violates p cc /\ exists a, a ∈ ips /\ isGeoipAllowed p a = false /\ lookup a = Some cc.

Lemma elem_of_placed lookup p ips q : q ∈ placed lookup p ips <-> ip q ∈ ips /\ isGeoipAllowed p (ip q) = false /\ lookup (ip q) = Some (country q).
Proof.
  unfold placed. rewrite list_elem_of_omap. setoid_rewrite list_elem_of_In at 1. setoid_rewrite filter_In.
  setoid_rewrite negb_true_iff. setoid_rewrite <- list_elem_of_In. split.
  - intros (a & [Ha Hg] & Hq). destruct (lookup a) eqn:E; [|done]. injection Hq as <-. done.
  - intros (Ha & Hg & Hl). exists (ip q). rewrite Hl. by destruct q.
Qed.

Lemma offending_spec lookup p ips cc :
  cc ∈ blockingCountryCodes p (map country (placed lookup p ips)) <-> offends lookup p ips cc.
Proof.
  rewrite blocking_spec, list_elem_of_In, in_map_iff. setoid_rewrite <- list_elem_of_In. setoid_rewrite elem_of_placed.
  unfold offends. split.
  - intros [(q & <- & H) Hv]. split; [done|]. by exists (ip q).
  - intros [Hv (a & H)]. split; [|done]. exists (mkPlace a cc). split; [done|]. exact H.
Qed.

Lemma head_in_list {A} (l : list A) x : head l = Some x -> x ∈ l.
Proof. destruct l; simpl; [done|]. intros [= ->]. apply elem_of_cons. by left. Qed.

(** C24. An answer is blocked exactly when filtering is not paused, the client
    is not exempt, no allowlisted domain covers the name, and an address in
    it that is not let through lies in a country the rules refuse. The codes
    reported, which the hit counters charge, are exactly the refused
    countries of the answer, never an innocent one; the reason is one of
    them, and the place shown on the map is in that country. *)
Theorem geoip_blocks_exactly {Point} (lookup : string -> option string) (pointOf : string -> option Point) p now name ips clientIp :
  match evaluateResolvedPolicy lookup pointOf p now (Some name) ips clientIp with
  | ResolvedBlock reason codes destination =>
      filtered p now name clientIp /\ reason ∈ codes
      /\ (forall cc, cc ∈ codes <-> offends lookup p ips cc)
      /\ exists d, destination = Some d /\ dest_country d = reason
  | ResolvedForward destination =>
      ~ (filtered p now name clientIp /\ exists cc, offends lookup p ips cc)
      /\ forall d, destination = Some d -> exists a, a ∈ ips /\ isGeoipAllowed p a = false /\ lookup a = Some (dest_country d) /\ dest_point d = pointOf a
  end.
Proof.
  assert (forall d, destinationOf pointOf (head (placed lookup p ips)) = Some d ->
    exists a, a ∈ ips /\ isGeoipAllowed p a = false /\ lookup a = Some (dest_country d) /\ dest_point d = pointOf a) as Hdest.
  { intros d H. unfold destinationOf in H. apply fmap_Some in H as (q & Hq%head_in_list%elem_of_placed & ->). destruct Hq as (H1 & H2 & H3). exists (ip q). done. }
  unfold evaluateResolvedPolicy, filtered. destruct ips as [|a ips].
  { split; [|done]. intros (_ & cc & _ & a & Ha & _). by apply not_elem_of_nil in Ha. }
  set (l := a :: ips) in *. pose proof (isAllowlisted_spec p name) as Hal.
  pose proof (offending_spec lookup p l) as Ho.
  destruct (filteringBypass p now clientIp); [split; [naive_solver|done]|].
  destruct (blockingCountryCodes p (map country (placed lookup p l))) as [|reason codes] eqn:E.
  { split; [|done]. intros (_ & cc & Hcc%Ho). by apply not_elem_of_nil in Hcc. }
  destruct (isAllowlisted p (Some name)); [split; [naive_solver|done]|].
  split_and!; [done|naive_solver|rewrite elem_of_cons; by left|done|].
  destruct (List.find (fun q => String.eqb (country q) reason) (placed lookup p l)) as [q|] eqn:Ef.
  - apply find_some in Ef as [_ ?%String.eqb_eq]. by exists (mkDestination (country q) (pointOf (ip q))).
  - assert (offends lookup p l reason) as (_ & b & Hb) by (apply Ho, elem_of_cons; by left).
    assert (In (mkPlace b reason) (placed lookup p l)) as Hin by (apply list_elem_of_In, elem_of_placed; exact Hb).
    pose proof (find_none _ _ Ef _ Hin) as Hf. simpl in Hf. by rewrite String.eqb_refl in Hf.
Qed.

(** ** Overrides *)

Lemma bypass_spec p now clientIp :
  filteringBypass p now clientIp = None <-> filteringPausedUntil p <= now /\ (clientIp = "" \/ clientIp ∉ exemptClients p).
Proof.
  unfold filteringBypass. destruct (Z.ltb_spec now (filteringPausedUntil p)); [split; [done|lia]|].
  destruct (String.eqb_spec clientIp ""); simpl; [naive_solver|].
  case_bool_decide; naive_solver.
Qed.

(** A pause is accepted for the offered lengths only; while it lasts no query
    and no answer is filtered, and from its end on filtering is as it was: the
    deadline is compared against, nothing has to run. *)
Lemma pause_spec minutes now stored until exempt p :
  0 <= now -> pause minutes now stored = Ok until ->
  let p' := loadFilteringOverrides until exempt p in
  (minutes = 0 \/ minutes ∈ PAUSE_MINUTES)
  /\ (forall t c, now <= t < now + minutes * 60000 -> filteringBypass p' t c = Some Paused)
  /\ (forall t c, now + minutes * 60000 <= t -> c ∉ exempt -> filteringBypass p' t c = None).
Proof.
  intros Hnow H p'. unfold pause in H.
  destruct (Z.eqb_spec minutes 0) as [->|Hm]; cbn [negb andb] in H.
  - split; [by left|split]; intros t c Ht; [lia|]. intros Hc. apply bypass_spec. split; [|by right]. simpl.
    destruct stored as [u|]; [destruct (Z.ltb_spec now u)|]; injection H as <-; simpl; lia.
  - destruct (existsb (Z.eqb minutes) PAUSE_MINUTES) eqn:E; cbn [negb] in H; [|done]. injection H as <-. split; [|split].
    + right. apply existsb_exists in E as (x & Hx & ->%Z.eqb_eq). by apply list_elem_of_In.
    + intros t c Ht. unfold filteringBypass. simpl. destruct (Z.ltb_spec t (now + minutes * 60 * 1000)); [done|lia].
    + intros t c Ht Hc. apply bypass_spec. simpl. split; [lia|by right].
Qed.

(** ** From a feed to a verdict *)

Lemma parsed_dotted l d : parseDomainLine l = Some d -> has_char "." d = true.
Proof.
  intros H%parsed_domain. unfold isValidDomain, DOMAIN_RE in H. rewrite !andb_true_iff in H.
  destruct H as [[_ [H%Nat.leb_le _]] _]. destruct (has_char "." d) eqn:E; [done|].
  rewrite split_char_none in H by done. simpl in H. lia.
Qed.

Lemma feed_dotted res d : d ∈ feed_of res -> has_char "." d = true.
Proof.
  unfold feed_of. destruct res; try (by intros ?%not_elem_of_empty).
  rewrite elem_of_list_to_set, list_elem_of_omap. intros (l & _ & H). by eapply parsed_dotted.
Qed.

Lemma enabled_slugs_spec db slug : slug ∈ enabled_slugs db <-> exists c, blocklist_categories db !! slug = Some c /\ enabled c = true.
Proof. unfold enabled_slugs. rewrite elem_of_dom. unfold is_Some. setoid_rewrite map_lookup_filter_Some. done. Qed.

Lemma refresh_enabled res boom boom_sweep now db slug states db' out :
  runRefresh BLOCKLIST_INSERT_BATCH res boom boom_sweep now db slug = (states, (db', out)) ->
  enabled_slugs db' = enabled_slugs db.
Proof.
  assert (forall db0 f, (forall c, enabled (f c) = enabled c) -> blocklist_categories db0 = blocklist_categories db ->
    enabled_slugs (update_category db0 slug f) = enabled_slugs db) as Hu.
  { intros db0 f Hf Hc. apply set_eq. intros k. rewrite !enabled_slugs_spec. simpl. rewrite Hc.
    destruct (decide (slug = k)) as [<-|Hne]; [|by rewrite lookup_alter_ne].
    rewrite lookup_alter_eq. destruct (blocklist_categories db !! slug) as [c|]; simpl; [|naive_solver].
    specialize (Hf c). naive_solver. }
  unfold runRefresh. destruct res as [m| |m|lines [m|] tag modified]; unfold fail; try (intros [= <- <- <-]; by apply Hu).
  destruct (_ =? 0); [intros [= <- <- <-]; by apply Hu|].
  destruct (apply_chunks _ _ _ _ _ _ _) as [sts [m|]]; [intros [= <- <- <-]; by apply Hu|].
  destruct boom_sweep; intros [= <- <- <-]; by apply Hu.
Qed.

(** C22. End to end: let blocking be switched on (blocklist_enabled is true),
    let a refresh of the only enabled category have succeeded and stored the
    whole feed, and let the proxy have reloaded. Then, while filtering is not
    paused, a query of a client that is not exempt, for a name no allowlisted
    domain covers, is blocked exactly when some line of the feed is a valid
    domain that covers the name. *)
Theorem feed_decides getSetting res boom boom_sweep at_ db slug states db' n p now name clientIp :
  runRefresh BLOCKLIST_INSERT_BATCH res boom boom_sweep at_ db slug = (states, (db', Ok (mkRefreshed n true false))) ->
  enabled_slugs db = {[ slug ]} -> getSetting "blocklist_enabled" = Some "true" ->
  let p' := loadBlocklist getSetting db' p in
  filtered p' now name clientIp ->
  is_Some (evaluateInboundPolicy p' db' now (Some name) clientIp) <-> exists d, d ∈ feed_of res /\ covers d (to_lower name).
Proof.
  intros Hr Hs Hset p' Hf. pose proof (inbound_spec p' db' now name clientIp) as Hv.
  assert (blocklistEnabled p' = true) as Hon by (simpl; by rewrite bool_decide_true).
  assert (blocklistCategories p' = Some {[ slug ]}) as Hc.
  { simpl. rewrite bool_decide_true by done. by rewrite (refresh_enabled _ _ _ _ _ _ _ _ _ Hr), Hs. }
  apply run_refresh_ok in Hr as (_ & (Hl & _) & _).
  assert (forall d, (d, slug) ∈ blocklist_domains db' <-> d ∈ feed_of res) as Hd.
  { intros d. rewrite <- Hl. symmetry. apply elem_of_listed. }
  destruct (evaluateInboundPolicy _ _ _ _ _) as [v|].
  - destruct Hv as (_ & _ & cats & d & s & Hcats & (Hm & [Hin Hh] & _) & _). split; [|by eexists]. intros _.
    rewrite Hc in Hcats. injection Hcats as <-. apply elem_of_singleton in Hin as ->. exists d. split; [by apply Hd|apply Hm].
  - split; [by intros []|]. intros (d & Hin & Hcov). exfalso. apply Hv. split_and!; [done|done|].
    exists {[ slug ]}, d, slug. split_and!; [done|split; [by eapply feed_dotted|done]|split; [by apply elem_of_singleton|by apply Hd]].
Qed.

Definition small_feed : Response := Body ["both.example.com"; "New.example.com # new"; "not a domain"] None None None.
Definition blocklists_on (key : string) : option string := if String.eqb key "blocklist_enabled" then Some "true" else None.

Lemma split_run {A B C} (r : A * (B * C)) c : r.2.2 = c -> r = (r.1, (r.2.1, c)).
Proof. intros <-. by destruct r as [? [? ?]]. Qed.

Lemma feed_decides_witness :
  let r := runRefresh BLOCKLIST_INSERT_BATCH small_feed (fun _ => None) None 1700 feed_db "ads" in
  let p := loadBlocklist blocklists_on r.2.1 initial_policy in
  is_Some (evaluateInboundPolicy p r.2.1 0 (Some "A.NEW.example.com") "10.0.0.9")
  /\ ~ is_Some (evaluateInboundPolicy p r.2.1 0 (Some "example.com") "10.0.0.9").
Proof.
  intros r p.
  assert (r = (r.1, (r.2.1, Ok (mkRefreshed 2 true false)))) as Hr by (apply split_run; vm_compute; reflexivity).
  assert (enabled_slugs feed_db = {["ads"]}) as Hs by (vm_compute; reflexivity).
  assert (forall name, filtered p 0 name "10.0.0.9") as Hf.
  { intros name. split; [vm_compute; reflexivity|]. intros (? & ? & H & _). discriminate H. }
  pose proof (fun name => feed_decides blocklists_on small_feed (fun _ => None) None 1700 feed_db "ads" r.1 r.2.1 2 initial_policy 0 name "10.0.0.9" Hr Hs eq_refl (Hf name)) as H.
  split.
  - apply H. exists "new.example.com". split; [vm_compute; reflexivity|]. right. by exists "a".
  - intros Hb. apply H in Hb as (d & Hin & Hc). unfold feed_of, small_feed in Hin. rewrite elem_of_list_to_set in Hin.
    vm_compute in Hin. apply elem_of_cons in Hin as [->|Hin%list_elem_of_singleton]; [|subst d];
      (destruct Hc as [Hc|[q Hc]]; [discriminate Hc|]); apply (f_equal String.length) in Hc;
      vm_compute in Hc; rewrite !length_app_str in Hc; simpl in Hc; lia.
Defined.
