(* ===== verification/Exemptions.v ===== *)
(** * Hosts with filtering turned off: [server/src/models/filtering-exemption.js]

    An exemption is stored under a device's MAC when one is known, and under
    its address otherwise; the DNS proxy sees addresses only, so the stored
    keys are turned into the addresses they cover now. [FilterPolicy] reads
    that set. The rows of the address and lease tables are those the rules
    read. *)

From S2P Require Import Prelude JsString Address Leases FilterPolicy.

(** ** The tables *)

Record IpRow := mkIpRow {
  row_ip : string; row_subnet : Z; row_interface : option string;
  mac_address : option string; last_seen_mac : option string }.

(** [last_seen] is an instant: leases are compared by it only. *)
Record LeaseRow := mkLeaseRow { lease_ip : string; lease_mac : option string; expires_at : expiry; last_seen : Z }.

(** A row of [filtering_exemptions]: exactly one of the two columns is set,
    and each is unique. *)
Inductive key := ByMac (mac : string) | ByIp (ip : string).

#[export] Instance key_eq_dec : EqDecision key.
Proof. solve_decision. Defined.
#[export] Instance key_countable : Countable key.
Proof.
  apply (inj_countable' (fun k => match k with ByMac m => inl m | ByIp a => inr a end)
           (fun s => match s with inl m => ByMac m | inr a => ByIp a end)). by intros [].
Defined.

Record Event := mkEvent { ev_ip : string; ev_subnet : option Z; ev_interface : option string; ev_old : string; ev_new : string; ev_source : string }.

Record Db := mkDb {
  ip_addresses : list IpRow;
  dhcp_leases : list LeaseRow;
  filtering_exemptions : gset key;
  ip_events : list Event }.

(** ** Utilities *)

(** [isValidMac] and [isClientMac] of [server/src/utils/ip.js] *)
Definition mac_octet (o : string) : bool := (js_length o =? 2) && all_chars is_hex o.
Definition isValidMac (mac : string) : bool :=
  let octets := split_char ":" mac in (length octets =? 6)%nat && forallb mac_octet octets.

Definition isClientMac (mac : string) : bool :=
  if negb (isValidMac mac) then false
  else
    let octets := map (from_base 16) (split_char ":" (to_lower mac)) in
    if forallb (Z.eqb 0) octets then false
    else if forallb (Z.eqb 255) octets then false
    else if negb (Z.land (default 0 (head octets)) 1 =? 0) then false
    else true.

Definition clientMac (value : option string) : option string :=
  let mac := match value with Some s => to_lower (trim s) | None => "" end in
  if isClientMac mac then Some mac else None.

Example client_mac : map clientMac [Some " AA:BB:CC:00:11:22 "; Some "01:00:5e:00:00:01"; Some "ff:ff:ff:ff:ff:ff"; None]
  = [Some "aa:bb:cc:00:11:22"; None; None; None].
Proof. vm_compute. reflexivity. Qed.

(** [activeLeaseSql] of [server/src/utils/lease-sql.js]: SQLite's [datetime]
    cuts to whole seconds. *)
Definition active (now : Z) (l : LeaseRow) : bool :=
  match expires_at l with Infinite => true | Until ms => now / 1000 <? ms / 1000 end.

(** ** Keys *)

Record HostAddress := mkHost { h_ip : string; h_subnet : option Z; h_interface : option string }.

Definition same_row (a : HostAddress) (r : IpRow) : bool :=
  String.eqb (row_ip r) (h_ip a)
  && match h_subnet a with None => true | Some s => row_subnet r =? s end
  && String.eqb (default "" (row_interface r)) (default "" (h_interface a)).

(** [ORDER BY last_seen DESC LIMIT 1]: of two as new, SQLite may give either;
    here it is the first. *)
Definition newest (ls : list LeaseRow) : option LeaseRow :=
  fold_left (fun best l => match best with Some b => if last_seen b <? last_seen l then Some l else best | None => Some l end) ls None.

Definition deviceMac (now : Z) (db : Db) (a : HostAddress) : option string :=
  let row := List.find (same_row a) (ip_addresses db) in
  match clientMac (row ≫= mac_address) with
  | Some m => Some m
  | None =>
      match clientMac (row ≫= last_seen_mac) with
      | Some m => Some m
      | None =>
          clientMac (newest (List.filter (fun l => String.eqb (lease_ip l) (h_ip a) && bool_decide (is_Some (lease_mac l)) && active now l) (dhcp_leases db)) ≫= lease_mac)
      end
  end.

Definition hostKey (now : Z) (db : Db) (a : HostAddress) : key :=
  match deviceMac now db a with Some m => ByMac m | None => ByIp (h_ip a) end.

(** ** The addresses covered *)

(** [lower(mac) IN (...)]: NULL is in no list. *)
Definition is_mac (m : option string) (macs : list string) : bool :=
  match m with Some s => bool_decide (to_lower s ∈ macs) | None => false end.

Definition held (now : Z) (db : Db) (macs : list string) : list string :=
  map row_ip (List.filter (fun r => is_mac (mac_address r) macs || is_mac (last_seen_mac r) macs) (ip_addresses db))
  ++ map lease_ip (List.filter (fun l => is_mac (lease_mac l) macs && active now l) (dhcp_leases db)).

Definition exempt_ips (db : Db) : list string := omap (fun k => match k with ByIp a => Some a | ByMac _ => None end) (elements (filtering_exemptions db)).
Definition exempt_macs (db : Db) : list string := omap (fun k => match k with ByMac m => Some m | ByIp _ => None end) (elements (filtering_exemptions db)).

(** An empty column is skipped. *)
Definition exemptAddressSet (now : Z) (db : Db) : gset string :=
  list_to_set (List.filter (fun a => negb (String.eqb a "")) (exempt_ips db))
  ∪ list_to_set (omap canonicalizeIp (held now db (List.filter (fun m => negb (String.eqb m "")) (exempt_macs db)))).

Definition set_exemptions (db : Db) (s : gset key) : Db := mkDb (ip_addresses db) (dhcp_leases db) s (ip_events db).
Definition insertEvent (db : Db) (e : Event) : Db := mkDb (ip_addresses db) (dhcp_leases db) (filtering_exemptions db) (ip_events db ++ [e]).

Definition on_off (b : bool) : string := if b then "on" else "off".
Definition key_source (k : key) : string := match k with ByMac m => "device " +:+ m | ByIp _ => "address" end.

(** What is deleted when filtering is turned on for [a]. *)
Definition cleared (a : string) (k : key) : gset key := {[ ByIp a; k ]}.

(** The tables after, and whether anything changed. *)
Definition setHostFiltering (now : Z) (db : Db) (a : HostAddress) (enabled : bool) : result string (Db * bool) :=
  match canonicalizeIp (h_ip a) with
  | None => Err ("Invalid IP address: " +:+ h_ip a)
  | Some ip =>
      let address := mkHost ip (h_subnet a) (h_interface a) in
      let k := hostKey now db address in
      let before := bool_decide (ip ∈ exemptAddressSet now db) in
      if Bool.eqb enabled (negb before) then Ok (db, false)
      else
        let db := set_exemptions db (if enabled then filtering_exemptions db ∖ cleared ip k else filtering_exemptions db ∪ {[ k ]}) in
        Ok (insertEvent db (mkEvent ip (h_subnet a) (h_interface a) (on_off (negb before)) (on_off enabled) (key_source k)), true)
  end.

Definition exemptHostCount (db : Db) : nat := size (filtering_exemptions db).

(** [filtering_enabled] of a read row. *)
Definition attachFilteringFacts (exempt : gset string) (row_ip : option string) : option bool :=
  match row_ip with
  | Some s => if String.eqb s "" then None else (fun ip => negb (bool_decide (ip ∈ exempt))) <$> canonicalizeIp s
  | None => None
  end.

(** ** What a key covers *)

(** The addresses a stored key makes exempt. *)
Definition covered (now : Z) (db : Db) (k : key) : gset string :=
  match k with
  | ByIp a => if String.eqb a "" then ∅ else {[ a ]}
  | ByMac m => if String.eqb m "" then ∅ else list_to_set (omap canonicalizeIp (held now db [m]))
  end.

Lemma is_mac_spec m macs : is_mac m macs = true <-> exists s, m = Some s /\ to_lower s ∈ macs.
Proof. unfold is_mac. destruct m as [s|]; [rewrite bool_decide_eq_true|]; naive_solver. Qed.

Lemma elem_of_held now db macs a :
  a ∈ held now db macs <->
    (exists r, r ∈ ip_addresses db /\ row_ip r = a /\ exists m, m ∈ macs /\ (to_lower <$> mac_address r = Some m \/ to_lower <$> last_seen_mac r = Some m))
    \/ (exists l, l ∈ dhcp_leases db /\ lease_ip l = a /\ active now l = true /\ exists m, m ∈ macs /\ to_lower <$> lease_mac l = Some m).
Proof.
  unfold held. rewrite elem_of_app, !(list_elem_of_In _ a), !in_map_iff. setoid_rewrite filter_In. setoid_rewrite orb_true_iff.
  setoid_rewrite andb_true_iff. setoid_rewrite is_mac_spec. setoid_rewrite <- list_elem_of_In. setoid_rewrite fmap_Some.
  naive_solver.
Qed.

Lemma held_one now db macs a : a ∈ held now db macs <-> exists m, m ∈ macs /\ a ∈ held now db [m].
Proof. setoid_rewrite elem_of_held. setoid_rewrite list_elem_of_singleton. naive_solver. Qed.

Lemma elem_of_exempt now db a : a ∈ exemptAddressSet now db <-> exists k, k ∈ filtering_exemptions db /\ a ∈ covered now db k.
Proof.
  unfold exemptAddressSet. rewrite elem_of_union, !elem_of_list_to_set, (list_elem_of_In (List.filter _ _) a), filter_In, <- list_elem_of_In, list_elem_of_omap.
  setoid_rewrite held_one. setoid_rewrite (list_elem_of_In (List.filter _ _)). setoid_rewrite filter_In. setoid_rewrite <- list_elem_of_In.
  unfold exempt_ips, exempt_macs. setoid_rewrite list_elem_of_omap. setoid_rewrite elem_of_elements.
  setoid_rewrite negb_true_iff. setoid_rewrite String.eqb_neq. split.
  - intros [[([m|b] & Hk & [= ->]) Hne]|(b & (m & [([m'|c] & Hk & [= ->]) Hne] & Hh) & Hc)].
    + exists (ByIp a). split; [done|]. simpl. apply String.eqb_neq in Hne. rewrite Hne. by apply elem_of_singleton.
    + exists (ByMac m). split; [done|]. simpl. apply String.eqb_neq in Hne. rewrite Hne.
      apply elem_of_list_to_set, list_elem_of_omap. by exists b.
  - intros ([m|b] & Hk & Ha); simpl in Ha.
    + destruct (String.eqb_spec m ""); [by apply not_elem_of_empty in Ha|].
      apply elem_of_list_to_set, list_elem_of_omap in Ha as (b & Hb & Hc). right. exists b. split; [|done].
      exists m. split; [|done]. split; [by exists (ByMac m)|done].
    + destruct (String.eqb_spec b ""); [by apply not_elem_of_empty in Ha|]. apply elem_of_singleton in Ha as ->.
      left. split; [by exists (ByIp b)|done].
Qed.

(** Only the address and lease tables decide what a key covers. *)
Lemma covered_tables now db db' k :
  ip_addresses db' = ip_addresses db -> dhcp_leases db' = dhcp_leases db -> covered now db' k = covered now db k.
Proof. intros Hi Hl. unfold covered, held. by rewrite Hi, Hl. Qed.

Lemma exempt_after now db ks e x :
  x ∈ exemptAddressSet now (insertEvent (set_exemptions db ks) e) <-> exists k, k ∈ ks /\ x ∈ covered now db k.
Proof. rewrite elem_of_exempt. simpl. setoid_rewrite (covered_tables now db _ _); done. Qed.

(** MACs are stored without white space around them. *)
Definition trimmed (db : Db) : Prop :=
  (forall r s, r ∈ ip_addresses db -> mac_address r = Some s \/ last_seen_mac r = Some s -> trim s = s)
  /\ (forall l s, l ∈ dhcp_leases db -> lease_mac l = Some s -> trim s = s).

Lemma clientMac_inv v m : clientMac v = Some m -> m <> "" /\ exists s, v = Some s /\ m = to_lower (trim s).
Proof.
  unfold clientMac. destruct (isClientMac _) eqn:E; [|done]. intros [= <-]. destruct v as [s|]; [|done].
  split; [|by exists s]. intros H. by rewrite H in E.
Qed.

Lemma newest_in ls l : newest ls = Some l -> l ∈ ls.
Proof.
  unfold newest. assert (forall best, fold_left (fun best l => match best with Some b => if last_seen b <? last_seen l then Some l else best | None => Some l end) ls best = Some l
    -> best = Some l \/ l ∈ ls) as H.
  { induction ls as [|x ls IH]; simpl; intros best H; [by left|]. apply IH in H as [H|H]; [|right; by apply elem_of_cons; right].
    rewrite elem_of_cons. destruct best as [b|]; [destruct (last_seen b <? last_seen x)|]; naive_solver. }
  intros [?|?]%H; done.
Qed.

Lemma canonical_again s c : canonicalizeIp s = Some c -> canonicalizeIp c = Some c /\ c <> "".
Proof.
  unfold canonicalizeIp at 1. intros H. destruct (parseIp default_options s) as [q|] eqn:E; [|done]. injection H as <-.
  pose proof (parseIp_representable _ _ _ E) as Hr. assert (canonicalizeIp (formatIp (value q) (bits q)) = Some (formatIp (value q) (bits q))) as Hc.
  { unfold canonicalizeIp. by rewrite parseIp_formatIp. }
  split; [done|]. intros He. rewrite He in Hc. vm_compute in Hc. done.
Qed.

Lemma mac_covers now db m ip : m <> "" -> canonicalizeIp ip = Some ip -> ip ∈ held now db [m] -> ip ∈ covered now db (ByMac m).
Proof.
  intros Hm Hc Hh. simpl. apply String.eqb_neq in Hm. rewrite Hm. apply elem_of_list_to_set, list_elem_of_omap. by exists ip.
Qed.

Section own_key.

Context (now : Z) (db : Db) (Hwf : trimmed db) (a : HostAddress).
Context (Hc : canonicalizeIp (h_ip a) = Some (h_ip a)) (Hne : h_ip a <> "").

Lemma row_mac_covers r v m :
  List.find (same_row a) (ip_addresses db) = Some r -> v = mac_address r \/ v = last_seen_mac r -> clientMac v = Some m ->
  h_ip a ∈ covered now db (ByMac m).
Proof.
  intros Hf Ho (Hm & s & -> & ->)%clientMac_inv. apply find_some in Hf as [Hin%list_elem_of_In Hs].
  unfold same_row in Hs. rewrite !andb_true_iff in Hs. destruct Hs as [[Hip%String.eqb_eq _] _].
  apply mac_covers; [done|done|]. apply elem_of_held. left. exists r. split_and!; [done|done|].
  exists (to_lower (trim s)). rewrite (proj1 Hwf r s Hin) by naive_solver. split; [by apply list_elem_of_singleton|].
  destruct Ho as [<-|<-]; auto.
Qed.

Lemma lease_mac_covers m :
  clientMac (newest (List.filter (fun l => String.eqb (lease_ip l) (h_ip a) && bool_decide (is_Some (lease_mac l)) && active now l) (dhcp_leases db)) ≫= lease_mac) = Some m ->
  h_ip a ∈ covered now db (ByMac m).
Proof.
  intros (Hm & s & Hs & ->)%clientMac_inv. destruct (newest _) as [l|] eqn:En; [|done]. simpl in Hs.
  apply newest_in, list_elem_of_In, filter_In in En as [Hin%list_elem_of_In Hp].
  rewrite !andb_true_iff in Hp. destruct Hp as [[Hip%String.eqb_eq _] Ha].
  apply mac_covers; [done|done|]. apply elem_of_held. right. exists l. split_and!; [done|done|done|].
  exists (to_lower (trim s)). rewrite (proj2 Hwf l s Hin Hs), Hs. split; [by apply list_elem_of_singleton|done].
Qed.

(** The key a host is stored under covers the address asked for. *)
Lemma own_key_covers : h_ip a ∈ covered now db (hostKey now db a).
Proof.
  unfold hostKey. destruct (deviceMac now db a) as [m|] eqn:E.
  - unfold deviceMac in E. destruct (List.find (same_row a) (ip_addresses db)) as [r|] eqn:Ef; simpl in E; [|by apply lease_mac_covers].
    destruct (clientMac (mac_address r)) eqn:E1; [injection E as ->; exact (row_mac_covers _ _ _ Ef (or_introl eq_refl) E1)|].
    destruct (clientMac (last_seen_mac r)) eqn:E2; [injection E as ->; exact (row_mac_covers _ _ _ Ef (or_intror eq_refl) E2)|].
    by apply lease_mac_covers.
  - simpl. apply String.eqb_neq in Hne. rewrite Hne. by apply elem_of_singleton.
Qed.

End own_key.

(** ** Turning filtering off and on *)

(** What a call of [setHostFiltering] leaves for the proxy. *)
Definition host_outcome (now : Z) (db : Db) (ip : string) (k : key) (enabled : bool) (db' : Db) (changed : bool) : Prop :=
  let exempt := exemptAddressSet now db in
  let exempt' := exemptAddressSet now db' in
  if changed then
    (enabled = true <-> ip ∈ exempt)
    /\ (exists e, ip_events db' = ip_events db ++ [e] /\ ev_ip e = ip /\ ev_old e = on_off (negb enabled) /\ ev_new e = on_off enabled)
    /\ (forall x, x ∈ exempt' <->
         if enabled then exists k', k' ∈ filtering_exemptions db /\ k' <> ByIp ip /\ k' <> k /\ x ∈ covered now db k'
         else x ∈ exempt \/ x ∈ covered now db k)
    /\ (enabled = false -> ip ∈ exempt')
  else db' = db /\ (enabled = false <-> ip ∈ exempt).

(** C25. Turning filtering off for the host at a valid address makes that
    address exempt, with the addresses the same device holds and no other;
    turning it on leaves exempt exactly what the keys left cover, the address
    itself only if another exempt device holds it too. A call that asks for
    the state the address is in already changes nothing and says so; every
    other call records one event of its change, and says it changed something,
    even when another exempt device keeps the address exempt
    (other_mac_keeps_exempt). The MACs of the tables are stored without white
    space around them. *)
Theorem host_filtering_exact now db a enabled ip db' changed :
  trimmed db -> canonicalizeIp (h_ip a) = Some ip ->
  setHostFiltering now db a enabled = Ok (db', changed) ->
  host_outcome now db ip (hostKey now db (mkHost ip (h_subnet a) (h_interface a))) enabled db' changed.
Proof.
  intros Hwf Hip H. unfold setHostFiltering in H. rewrite Hip in H. unfold host_outcome.
  set (k := hostKey now db _) in *. set (exempt := exemptAddressSet now db) in *.
  pose proof (canonical_again _ _ Hip) as [Hc Hne].
  assert (ip ∈ covered now db k) as Hk by (by apply (own_key_covers now db Hwf (mkHost ip (h_subnet a) (h_interface a)))).
  destruct (decide (ip ∈ exempt)) as [Hin|Hin]; [rewrite bool_decide_true in H by done|rewrite bool_decide_false in H by done];
    destruct enabled; simpl in H; injection H as <- <-; try (split; [done|]; naive_solver).
  - split; [done|]. split; [eexists; split_and!; reflexivity|]. split; [|done].
    intros x. rewrite exempt_after. unfold cleared. setoid_rewrite elem_of_difference. set_solver.
  - split; [naive_solver|]. split; [eexists; split_and!; reflexivity|]. split.
    + intros x. unfold exempt. rewrite exempt_after, elem_of_exempt. setoid_rewrite elem_of_union. setoid_rewrite elem_of_singleton. naive_solver.
    + intros _. apply exempt_after. exists k. split; [set_solver|done].
Qed.

Definition two_macs : Db :=
  mkDb [mkIpRow "10.0.0.5" 1 None (Some "AA:BB:CC:00:00:01") (Some "aa:bb:cc:00:00:02")]
    [mkLeaseRow "10.0.0.6" (Some "aa:bb:cc:00:00:01") Infinite 5] ∅ [].

Lemma host_filtering_exact_witness :
  let off := mkDb (ip_addresses two_macs) (dhcp_leases two_macs) {[ ByMac "aa:bb:cc:00:00:01" ]}
               [mkEvent "10.0.0.5" None None "on" "off" "device aa:bb:cc:00:00:01"] in
  setHostFiltering 0 two_macs (mkHost "10.0.0.5" None None) false = Ok (off, true)
  /\ "10.0.0.5" ∈ exemptAddressSet 0 off /\ "10.0.0.6" ∈ exemptAddressSet 0 off.
Proof.
  intros off.
  assert (setHostFiltering 0 two_macs (mkHost "10.0.0.5" None None) false = Ok (off, true)) as H by (vm_compute; reflexivity).
  split; [exact H|]. assert (trimmed two_macs) as Ht.
  { split.
    - intros r s ->%list_elem_of_singleton [[= <-]|[= <-]]; vm_compute; reflexivity.
    - intros l s ->%list_elem_of_singleton [= <-]. vm_compute. reflexivity. }
  destruct (host_filtering_exact 0 two_macs (mkHost "10.0.0.5" None None) false "10.0.0.5" off true Ht eq_refl H) as (_ & _ & Hx & Hip).
  split; [by apply Hip|]. apply Hx. right. vm_compute. reflexivity.
Defined.

(** Two MACs are known of an address: one stored, one a scan saw. The host is
    keyed by the first; when the second is exempt, turning filtering on at
    the address deletes nothing that covers it. The call says filtering
    changed, the event says it is on, and the address stays exempt. *)
Theorem other_mac_keeps_exempt now db a ip k' :
  canonicalizeIp (h_ip a) = Some ip ->
  let k := hostKey now db (mkHost ip (h_subnet a) (h_interface a)) in
  k' ∈ filtering_exemptions db -> k' <> ByIp ip -> k' <> k -> ip ∈ covered now db k' ->
  exists db' e, setHostFiltering now db a true = Ok (db', true)
    /\ ip_events db' = ip_events db ++ [e] /\ ev_new e = "on" /\ ip ∈ exemptAddressSet now db'.
Proof.
  intros Hip k Hk Hi Hne Hcov. unfold setHostFiltering. rewrite Hip.
  rewrite bool_decide_true by (apply elem_of_exempt; eauto). simpl.
  do 2 eexists. split_and!; [reflexivity|reflexivity|reflexivity|].
  apply exempt_after. exists k'. split; [|done]. unfold cleared. set_solver.
Qed.

Lemma other_mac_keeps_exempt_witness :
  let db := set_exemptions two_macs {[ ByMac "aa:bb:cc:00:00:02" ]} in
  exists db', setHostFiltering 0 db (mkHost "10.0.0.5" None None) true = Ok (db', true) /\ "10.0.0.5" ∈ exemptAddressSet 0 db'.
Proof.
  intros db.
  destruct (other_mac_keeps_exempt 0 db (mkHost "10.0.0.5" None None) "10.0.0.5" (ByMac "aa:bb:cc:00:00:02")) as (db' & e & H & _ & _ & Hin).
  - vm_compute. reflexivity.
  - vm_compute. reflexivity.
  - discriminate.
  - vm_compute. discriminate.
  - vm_compute. reflexivity.
  - exists db'. split; [exact H|exact Hin].
Defined.

(** The proxy knows a client by the canonical spelling of its address: an
    exempt host's queries pass, whatever the lists say. *)
Lemma exempt_client_passes now db p until pdb at_ name spelled ip :
  canonicalizeIp spelled = Some ip -> ip ∈ exemptAddressSet now db ->
  let p' := loadFilteringOverrides until (exemptAddressSet now db) p in
  evaluateInboundPolicy p' pdb at_ name ip = None
  /\ attachFilteringFacts (exemptAddressSet now db) (Some spelled) = Some false.
Proof.
  intros Hc Hin p'. pose proof (canonical_again _ _ Hc) as [_ Hne]. split.
  - unfold evaluateInboundPolicy. destruct (String.eqb _ _); [done|].
    unfold filteringBypass. destruct (at_ <? _); [done|]. apply String.eqb_neq in Hne. rewrite Hne. simpl.
    by rewrite bool_decide_true.
  - unfold attachFilteringFacts. destruct (String.eqb_spec spelled "") as [->|]; [done|]. rewrite Hc. simpl.
    by rewrite bool_decide_true.
Qed.
