(* ===== verification/DnsAnswers.v ===== *)
(** * Answers the DNS proxy makes, and how an answer is judged

    The synthesized answers of [server/src/utils/dns-proxy.js] (a blocked
    name, a blocked country, a failure) and the reading of a failed answer,
    [server/src/utils/dns-ede.js]. A message is what [dns-packet] decodes to
    or encodes from; the codec itself is a parameter of [DnsProxy]. *)

From S2P Require Import Prelude JsString Bytes FilterPolicy.

(** ** Messages *)

Record Question := mkQuestion { q_name : string; q_type : string }.
Record Answer := mkAnswer { a_type : string; a_name : string; a_ttl : Z; a_data : string }.

(** An EDNS option: its code and its data, when they are bytes. *)
Record Opt := mkOpt { udpPayloadSize : Z; opt_flags : Z; flag_do : bool; options : list (Z * option bytes) }.
Inductive Additional := AddOpt (o : Opt) | AddOther.

(** [m_rcode] and [flag_cd] are what the decoder reads in [m_flags]. *)
Record Message := mkMessage {
  m_id : Z; m_flags : Z; m_rcode : string; flag_cd : bool;
  questions : list Question; answers : list Answer; additionals : list Additional }.

#[export] Instance question_eq_dec : EqDecision Question.
Proof. solve_decision. Defined.

(** [dns-packet]'s header bits (RFC 1035 4.1.1, RFC 4035 3) and EDNS DO bit. *)
Definition RECURSION_DESIRED : Z := 256.
Definition RECURSION_AVAILABLE : Z := 128.
Definition AUTHENTIC_DATA : Z := 32.
Definition DNSSEC_OK : Z := 32768.

Definition RCODE (name : string) : option Z :=
  js_get name [("NOERROR", 0); ("FORMERR", 1); ("SERVFAIL", 2); ("NXDOMAIN", 3); ("NOTIMP", 4); ("REFUSED", 5)].

Definition responseFlags (rcodeName : string) : Z :=
  Z.lor (Z.lor RECURSION_DESIRED RECURSION_AVAILABLE) (default 0 (RCODE rcodeName)).

Fixpoint first_opt (l : list Additional) : option Opt :=
  match l with
  | [] => None
  | AddOpt o :: _ => Some o
  | AddOther :: l => first_opt l
  end.

Definition getQueryOpt (query : Message) : option Opt := first_opt (additionals query).

Definition buildOptEcho (opt : option Opt) : list Additional :=
  match opt with
  | None => []
  | Some o => [AddOpt (mkOpt (if udpPayloadSize o =? 0 then 1232 else udpPayloadSize o) (if flag_do o then DNSSEC_OK else 0) (flag_do o) [])]
  end.

(** The message encoded for [rcode]; the encoder reads the flags only, so
    neither [m_rcode] nor [flag_cd] is set. *)
Definition respond (id : Z) (rcode : string) (qs : list Question) (ans : list Answer) (opt : option Opt) : Message :=
  mkMessage id (responseFlags rcode) "" false qs ans (buildOptEcho opt).

(** What the encoders read of a query. *)
Record Asked := mkAsked { as_id : Z; as_questions : list Question; as_opt : option Opt }.
Definition asked_of (query : Message) : Asked := mkAsked (m_id query) (questions query) (getQueryOpt query).

Definition nxdomainResponse (q : Asked) : Message := respond (as_id q) "NXDOMAIN" (as_questions q) [] (as_opt q).
Definition servfail (q : Asked) : Message := respond (as_id q) "SERVFAIL" (as_questions q) [] (as_opt q).

Definition sinkhole (p : Policy) (q : Question) : option Answer :=
  if String.eqb (q_type q) "A" && negb (String.eqb (blocklistRedirectIp p) "") then Some (mkAnswer "A" (q_name q) 300 (blocklistRedirectIp p))
  else if String.eqb (q_type q) "AAAA" && negb (String.eqb (blocklistRedirectIp6 p) "") then Some (mkAnswer "AAAA" (q_name q) 300 (blocklistRedirectIp6 p))
  else None.

Definition blockedResponse (p : Policy) (q : Asked) : Message :=
  if redirects p then respond (as_id q) "NOERROR" (as_questions q) (omap (sinkhole p) (as_questions q)) (as_opt q)
  else nxdomainResponse q.

(** ** Why an answer failed *)

Definition EDE_OPTION : Z := 15.

Definition DNSSEC_CODES : list Z := [1; 2; 5; 6; 7; 8; 9; 10; 11; 12; 25; 27].
Definition UPSTREAM_CODES : list Z := [22; 23].

(** The code of the first EDE option, if its data is bytes and long enough.
    The text beside it is not used. *)
Definition extractEde (message : option Message) : option Z :=
  match message with
  | None => None
  | Some m =>
      match first_opt (additionals m) with
      | None => None
      | Some o =>
          match List.find (fun c => fst c =? EDE_OPTION) (options o) with
          | Some (_, Some data) => if blength data <? 2 then None else try_ok (readUInt16BE data 0)
          | _ => None
          end
      end
  end.

(** [edeOption], for an answer CIDRella builds itself. *)
Definition edeOption (code : Z) (text : bytes) : Z * option bytes := (EDE_OPTION, Some (uint16be code ++ text)).

Inductive cause := Dnssec | Upstream | TimedOut | RefusedAnswer | OtherCause.

#[export] Instance cause_eq_dec : EqDecision cause.
Proof. solve_decision. Defined.

Definition failureCause (rcode : option string) (ede : option Z) (timedOut : bool) : option cause :=
  if timedOut then Some TimedOut
  else if bool_decide (rcode = Some "REFUSED") then Some RefusedAnswer
  else if negb (bool_decide (rcode = Some "SERVFAIL")) then None
  else match ede with
  | Some code =>
      if existsb (Z.eqb code) DNSSEC_CODES then Some Dnssec
      else if existsb (Z.eqb code) UPSTREAM_CODES then Some Upstream
      else Some OtherCause
  | None => Some OtherCause
  end.

(** The minute's failures by cause and its NXDOMAINs. *)
Record Failures := mkFailures { failureCounts : cause -> Z; nxdomainCount : Z }.
Definition noFailures : Failures := mkFailures (fun _ => 0) 0.

Definition noteAnswer (response : option Message) (timedOut : bool) (f : Failures) : option Z * option cause * Failures :=
  let rcode := if timedOut then Some "SERVFAIL" else m_rcode <$> response in
  let ede := extractEde response in
  let failure := failureCause rcode ede timedOut in
  (ede, failure,
   mkFailures (fun c => if bool_decide (failure = Some c) then failureCounts f c + 1 else failureCounts f c)
     (if bool_decide (rcode = Some "NXDOMAIN") then nxdomainCount f + 1 else nxdomainCount f)).

Definition classifyDnssecSupport (response : option Message) (enabled checkingDisabled : bool) : option bool :=
  match response with
  | Some r => if negb enabled || checkingDisabled || negb (String.eqb (m_rcode r) "NOERROR") then None else Some (negb (Z.land (m_flags r) AUTHENTIC_DATA =? 0))
  | None => None
  end.

(** ** The answers made *)

Definition wire_rcode (m : Message) : Z := Z.land (m_flags m) 15.

(** An answer for a blocked name carries no address but the sinkholes', each
    for a question of its own family: with one redirect set, the other family
    gets an empty NOERROR; with none, the name does not exist. It claims no
    authentic data. *)
Lemma blocked_answers p q :
  let m := blockedResponse p q in
  m_id m = as_id q /\ questions m = as_questions q
  /\ wire_rcode m = (if redirects p then 0 else 3) /\ Z.land (m_flags m) AUTHENTIC_DATA = 0
  /\ forall a, a ∈ answers m -> exists n, mkQuestion (a_name a) (a_type a) = n /\ n ∈ as_questions q
       /\ (a_type a = "A" /\ a_data a = blocklistRedirectIp p /\ blocklistRedirectIp p <> ""
           \/ a_type a = "AAAA" /\ a_data a = blocklistRedirectIp6 p /\ blocklistRedirectIp6 p <> "").
Proof.
  unfold blockedResponse. destruct (redirects p); split_and!; try done.
  - intros a Ha. cbn [answers respond] in Ha. apply list_elem_of_omap in Ha as ([n t] & Hq & Hs). unfold sinkhole in Hs. simpl in Hs.
    eexists. split; [reflexivity|].
    destruct (String.eqb t "A" && _) eqn:EA; [|destruct (String.eqb t "AAAA" && _) eqn:E6; [|done]]; injection Hs as <-;
      [apply andb_true_iff in EA as [->%String.eqb_eq Hn]|apply andb_true_iff in E6 as [->%String.eqb_eq Hn]];
      apply negb_true_iff, String.eqb_neq in Hn; simpl; auto.
  - intros a Ha. by apply not_elem_of_nil in Ha.
Qed.

(** Exactly the answers that failed have a cause: a timeout, REFUSED or
    SERVFAIL; a cause is counted for each, and NXDOMAIN is no failure. *)
Lemma failures_counted response timedOut f :
  let '(ede, failure, f') := noteAnswer response timedOut f in
  (is_Some failure <-> timedOut = true \/ exists r, response = Some r /\ (m_rcode r = "REFUSED" \/ m_rcode r = "SERVFAIL"))
  /\ (forall c, failureCounts f' c = failureCounts f c + (if bool_decide (failure = Some c) then 1 else 0))
  /\ (timedOut = false -> nxdomainCount f' = nxdomainCount f + (if bool_decide (m_rcode <$> response = Some "NXDOMAIN") then 1 else 0)).
Proof.
  unfold noteAnswer. split_and!.
  - unfold failureCause. destruct timedOut; [split; eauto|].
    repeat case_bool_decide; simpl.
    + split; [|eauto]. intros _. right. apply fmap_Some in H as (r & -> & Hr). eauto.
    + split; [intros _; right; apply fmap_Some in H0 as (r & -> & Hr); eauto|].
      intros _. destruct (extractEde response); repeat case_match; eauto.
    + split; [by intros []|]. intros [?|(r & -> & [Hr|Hr])]; [done|..]; simpl in *; congruence.
  - intros c. simpl. case_bool_decide; lia.
  - intros ->. simpl. case_bool_decide; lia.
Qed.

(** An EDE written by [edeOption] is read back. *)
Lemma ede_round_trip code text m size fl do_ :
  0 <= code < 65536 -> additionals m = [AddOpt (mkOpt size fl do_ [edeOption code text])] -> extractEde (Some m) = Some code.
Proof.
  intros Hc Hm. unfold extractEde. rewrite Hm. cbn [first_opt options List.find edeOption fst]. rewrite Z.eqb_refl. unfold edeOption. cbv iota.
  assert (length (uint16be code) = 2%nat) as Hl by apply length_be_bytes.
  unfold blength. rewrite length_app, Hl. destruct (Z.ltb_spec (Z.of_nat (2 + length text)) 2); [lia|].
  unfold readUInt16BE. rewrite (readUIntBE_mid [] (uint16be code) text) by (rewrite ?Hl; done).
  unfold try_ok. unfold uint16be. by rewrite be_value_bytes.
Qed.
