(* ===== verification/DnsProxy.v ===== *)
(** * The DNS proxy over UDP: [server/src/utils/dns-proxy.js]

    The proxy answers a blocked query itself and sends the others to the DNS
    backend on one socket, under a query id of its own; the answer that comes
    back under that id is checked again, given its asker's id and sent on. A
    query the backend does not answer in time is answered SERVFAIL; the name
    of a forward-unknown zone the backend does not know is asked again of the
    forwarder.

    The state is the module's: the pending queries by internal id, the timers
    set, the requests to the forwarder under way, the sockets open. An event
    is what the runtime calls a handler with. What a handler sends or records
    elsewhere is its output. [decode] and [encode] are [dns-packet]. Not in
    the output is the latency sample of each query. *)

From S2P Require Import Prelude JsString Address Bytes DnsNames FilterPolicy DnsAnswers.
From S2P Require Blocklist.

(** ** Bytes of a header *)

Definition RD_BIT : Z := 1.

Definition asksRecursion (msg : bytes) : bool :=
  match msg !! 2%nat with Some b => negb (Z.land b RD_BIT =? 0) | None => false end.
Definition withRecursionDesired (msg : bytes) : bytes :=
  match msg !! 2%nat with Some b => <[2%nat := Z.lor b RD_BIT]> msg | None => msg end.
Definition withClientRd (reply : bytes) (clientRd : bool) : bytes :=
  match reply !! 2%nat with
  | Some b => <[2%nat := Z.lor (Z.land b (Z.lnot RD_BIT)) (if clientRd then RD_BIT else 0)]> reply
  | None => reply
  end.

(** [buf.writeUInt16BE(id, 0)], which throws out of range. *)
Definition writeId (buf : bytes) (id : Z) : option bytes :=
  if (2 <=? length buf)%nat && (0 <=? id) && (id <? 65536) then Some (write_at buf 0 (uint16be id)) else None.

Definition id_of (buf : bytes) : option Z := try_ok (readUInt16BE buf 0).

(** ** The state *)

Record Client := mkClient { c_sock : nat; c_address : string; c_port : Z }.

#[export] Instance client_eq_dec : EqDecision Client.
Proof. solve_decision. Defined.

Record Pending := mkPending {
  p_client : Client; p_clientIp : string; p_originalId : Z; p_queryName : string; p_queryType : string;
  p_checkingDisabled : bool; p_opt : option Opt; p_query : bytes; p_clientRd : bool; p_timer : nat; p_start : Z }.

(** A request to the forwarder: the query, and the backend's answer kept. *)
Record Retry := mkRetry { r_pending : Pending; r_msg : bytes; r_response : Message }.

Record State := mkState {
  pendingQueries : gmap Z Pending;
  nextQueryId : Z;
  timers : gmap nat Z;           (** the internal id a timer was set for *)
  nextTimer : nat;
  retries : list Retry;
  sockets : gset nat;            (** the client sockets open *)
  nextSocket : nat;
  stats : Stats;
  failures : Failures;
  zones_at : Z;                  (** [forwardUnknownZones] *)
  zones : list string }.

Definition initial : State := mkState ∅ 1 ∅ 0 [] ∅ 0 no_stats noFailures 0 [].

Definition MAX_PENDING_QUERIES : Z := 10000.
Definition PROXY_UDP_TIMEOUT_MS : Z := 5000.
Definition FORWARD_UNKNOWN_CACHE_MS : Z := 5000.

Definition with_stats (f : Stats -> Stats) (s : State) : State :=
  mkState (pendingQueries s) (nextQueryId s) (timers s) (nextTimer s) (retries s) (sockets s) (nextSocket s) (f (stats s)) (failures s) (zones_at s) (zones s).
Definition with_failures (f : Failures) (s : State) : State :=
  mkState (pendingQueries s) (nextQueryId s) (timers s) (nextTimer s) (retries s) (sockets s) (nextSocket s) (stats s) f (zones_at s) (zones s).
Definition with_retries (l : list Retry) (s : State) : State :=
  mkState (pendingQueries s) (nextQueryId s) (timers s) (nextTimer s) l (sockets s) (nextSocket s) (stats s) (failures s) (zones_at s) (zones s).
Definition with_next (n : Z) (s : State) : State :=
  mkState (pendingQueries s) n (timers s) (nextTimer s) (retries s) (sockets s) (nextSocket s) (stats s) (failures s) (zones_at s) (zones s).

(** [pendingQueries.set], with [setTimeout] *)
Definition set_pending (id : Z) (p : Pending) (s : State) : State :=
  mkState (<[id := p]> (pendingQueries s)) (nextQueryId s) (<[p_timer p := id]> (timers s)) (S (nextTimer s)) (retries s) (sockets s) (nextSocket s) (stats s) (failures s) (zones_at s) (zones s).
(** [pendingQueries.delete], with the timer cleared or fired *)
Definition drop_pending (id : Z) (t : nat) (s : State) : State :=
  mkState (delete id (pendingQueries s)) (nextQueryId s) (delete t (timers s)) (nextTimer s) (retries s) (sockets s) (nextSocket s) (stats s) (failures s) (zones_at s) (zones s).
Definition drop_timer (t : nat) (s : State) : State :=
  mkState (pendingQueries s) (nextQueryId s) (delete t (timers s)) (nextTimer s) (retries s) (sockets s) (nextSocket s) (stats s) (failures s) (zones_at s) (zones s).

(** ** Query ids *)

(** The loop of [allocateQueryId]: the id found and [nextQueryId] after it. *)
Fixpoint scan_ids (fuel : nat) (taken : gmap Z Pending) (startId next : Z) : option Z * Z :=
  match fuel with
  | O => (None, next)
  | S fuel =>
      let next := Z.land (next + 1) 65535 in
      match taken !! next with
      | None => (Some next, next)
      | Some _ => if next =? startId then (None, next) else scan_ids fuel taken startId next
      end
  end.

Definition ID_SPACE : nat := Z.to_nat 65536.

Definition allocateQueryId (s : State) : option Z * State :=
  let '(found, next) := scan_ids ID_SPACE (pendingQueries s) (nextQueryId s) (nextQueryId s) in (found, with_next next s).

(** ** What the handlers read and send *)

Record Env := mkEnv {
  policy : Policy;
  blocklists : Blocklist.Db;
  now : Z;
  lookupCountry : string -> option string;
  forwardsUnknownItself : bool;     (** [getDnsBackend().forwardsUnknownItself !== false] *)
  no_recursion : bool;              (** [getSetting('dns_no_recursion') === 'true'] *)
  forward_unknown : list string;    (** the enabled zones with [forward_unknown] set *)
  dnssec_enabled : bool;
  internal_port : Z }.

Inductive action := Allowed | BlockedBlocklist | BlockedGeoip.

(** The entry of [noteQuery], less its latency. *)
Record Entry := mkEntry {
  e_clientIp : string; e_domain : string; e_type : string; e_code : string; e_action : action;
  e_reason : option string; e_ip : option string; e_dnssec : option bool; e_ede : option Z; e_failure : option cause }.

Inductive Out :=
| ToClient (c : Client) (b : bytes)
| ToBackend (port : Z) (b : bytes)
| ToForwarder (b : bytes) (timeoutMs : Z)
| Seen (clientIp : string)                                   (** [recordDnsQueryLiveness] *)
| Resolution (kind : string) (name : string) (type : string) (country : option string)   (** [recordResolution] *)
| Noted (e : Entry).

Definition normalizeZoneName (name : string) : string := cut_dot (to_lower name).

Definition underForwardUnknownZone (env : Env) (queryName : string) (s : State) : bool * State :=
  let s := if FORWARD_UNKNOWN_CACHE_MS <? now env - zones_at s
    then mkState (pendingQueries s) (nextQueryId s) (timers s) (nextTimer s) (retries s) (sockets s) (nextSocket s) (stats s) (failures s) (now env) (map normalizeZoneName (forward_unknown env))
    else s in
  let name := normalizeZoneName queryName in
  (existsb (fun zone => String.eqb name zone || ends_with ("." +:+ zone) name) (zones s), s).

Definition wantsUnknownRetry (env : Env) (response : option Message) (queryName : string) (s : State) : bool * State :=
  match response with
  | Some r =>
      if negb (String.eqb (m_rcode r) "NXDOMAIN") || String.eqb queryName "" then (false, s)
      else if forwardsUnknownItself env || no_recursion env then (false, s)
      else underForwardUnknownZone env queryName s
  | None => (false, s)
  end.

Definition queryNameOf (q : Message) : option string := q_name <$> head (questions q).
Definition queryTypeOf (q : Message) : string :=
  match head (questions q) with Some x => if String.eqb (q_type x) "" then "A" else q_type x | None => "A" end.
(** [canonicalizeIp(address) || address] *)
Definition clientIpOf (address : string) : string :=
  match canonicalizeIp address with Some c => if String.eqb c "" then address else c | None => address end.
Definition addressesOf (r : Message) : list string :=
  map a_data (List.filter (fun a => String.eqb (a_type a) "A" || String.eqb (a_type a) "AAAA") (answers r)).

(** The country of a verdict's destination. *)
Definition no_point (ip : string) : option unit := None.
Definition verdict (env : Env) (name : option string) (ips : list string) (clientIp : string) : ResolvedVerdict unit :=
  evaluateResolvedPolicy (lookupCountry env) no_point (policy env) (now env) name ips clientIp.

Section codec.

Context (decode : bytes -> option Message) (encode : Message -> option bytes).

(** [socket.send] throws on a closed socket. *)
Definition send (s : State) (c : Client) (b : option bytes) : option Out :=
  match b with
  | Some b => if bool_decide (c_sock c ∈ sockets s) then Some (ToClient c b) else None
  | None => None
  end.

(** The rest of a [try] block runs when the send did not throw. *)
Definition sent_then (o : option Out) (rest : list Out) : list Out := match o with Some o => o :: rest | None => [] end.

(** ** The handlers *)

Definition handleQuery (env : Env) (c : Client) (msg : bytes) (s : State) : State * list Out :=
  match decode msg with
  | None => (s, [])
  | Some query =>
      let clientIp := clientIpOf (c_address c) in
      let queryName := queryNameOf query in
      let queryType := queryTypeOf query in
      match evaluateInboundPolicy (policy env) (blocklists env) (now env) queryName clientIp with
      | Some inbound =>
          let s := with_stats (recordInboundBlock inbound) s in
          (s, Seen clientIp :: Resolution "blocklist" (default "" queryName) queryType None
            :: sent_then (send s c (encode (blockedResponse (policy env) (asked_of query))))
                 [Noted (mkEntry clientIp (default "" queryName) queryType (responseCode inbound) BlockedBlocklist (Some (blockReason inbound)) None None None None)])
      | None =>
          if MAX_PENDING_QUERIES <=? Z.of_nat (size (pendingQueries s)) then
            let s := with_stats count_total s in
            (s, Seen clientIp :: sent_then (send s c (encode (servfail (asked_of query)))) [])
          else
            let '(found, s) := allocateQueryId s in
            match found with
            | None =>
                let s := with_stats count_total s in
                (s, Seen clientIp :: sent_then (send s c (encode (servfail (asked_of query)))) [])
            | Some internalId =>
                let p := mkPending c clientIp (m_id query) (default "" queryName) queryType (flag_cd query) (getQueryOpt query) msg (asksRecursion msg) (nextTimer s) (now env) in
                let s := set_pending internalId p s in
                (s, Seen clientIp :: match writeId (withRecursionDesired msg) internalId with Some b => [ToBackend (internal_port env) b] | None => [] end)
            end
      end
  end.

(** The callback of the timer set for an internal id. *)
Definition query_timeout (t : nat) (s : State) : State * list Out :=
  match timers s !! t with
  | None => (s, [])
  | Some internalId =>
      match pendingQueries s !! internalId with
      | None => (drop_timer t s, [])
      | Some p =>
          let s := with_stats (fun st => count_timeout (count_total (count_allowed st))) (drop_pending internalId t s) in
          let '(ede, failure, f) := noteAnswer None true (failures s) in
          let s := with_failures f s in
          (s, Noted (mkEntry (p_clientIp p) (p_queryName p) (p_queryType p) "SERVFAIL" Allowed None None None ede failure)
            :: sent_then (send s (p_client p) (encode (servfail (mkAsked (p_originalId p) [] (p_opt p))))) [])
      end
  end.

Definition deliverResponse (env : Env) (p : Pending) (msg : bytes) (response : Message) (s : State) : State * list Out :=
  let ips := addressesOf response in
  match verdict env (Some (p_queryName p)) ips (p_clientIp p) with
  | ResolvedBlock reason codes destination =>
      let s := with_stats (recordResolvedBlock codes) s in
      (s, Resolution "geoip" (p_queryName p) (p_queryType p) (dest_country <$> destination)
        :: sent_then (send s (p_client p) (encode (nxdomainResponse (mkAsked (p_originalId p) (questions response) (p_opt p)))))
             [Noted (mkEntry (p_clientIp p) (p_queryName p) (p_queryType p) "NXDOMAIN" BlockedGeoip (Some reason) (head ips) None None None)])
  | ResolvedForward destination =>
      let s := with_stats (fun st => count_total (count_allowed st)) s in
      let o := send s (p_client p) (writeId (withClientRd msg (p_clientRd p)) (p_originalId p)) in
      let resolution := Resolution "answer" (p_queryName p) (p_queryType p) (dest_country <$> destination) in
      match o with
      | None => (s, [resolution])
      | Some o =>
          let '(ede, failure, f) := noteAnswer (Some response) false (failures s) in
          let rcode := if String.eqb (m_rcode response) "" then "NOERROR" else m_rcode response in
          (with_failures f s, [resolution; o;
            Noted (mkEntry (p_clientIp p) (p_queryName p) (p_queryType p) rcode Allowed None (head ips)
              (classifyDnssecSupport (Some response) (dnssec_enabled env) (p_checkingDisabled p)) ede failure)])
      end
  end.

Definition handleDnsmasqResponse (env : Env) (msg : bytes) (s : State) : State * list Out :=
  match decode msg with
  | None => (s, [])
  | Some response =>
      match pendingQueries s !! m_id response with
      | None => (s, [])
      | Some p =>
          let s := drop_pending (m_id response) (p_timer p) s in
          let '(wants, s) := wantsUnknownRetry env (Some response) (p_queryName p) s in
          if wants then
            let timeoutMs := PROXY_UDP_TIMEOUT_MS - (now env - p_start p) in
            (with_retries (retries s ++ [mkRetry p msg response]) s, if timeoutMs <=? 0 then [] else [ToForwarder (p_query p) timeoutMs])
          else deliverResponse env p msg response s
      end
  end.

(** [askForwarder] settled, with the forwarder's answer or none. *)
Definition forwarder_settles (env : Env) (i : nat) (answer : option bytes) (s : State) : State * list Out :=
  match retries s !! i with
  | None => (s, [])
  | Some r =>
      let s := with_retries (delete i (retries s)) s in
      match answer with
      | Some a =>
          match decode a with
          | Some retried => deliverResponse env (r_pending r) a retried s
          | None => deliverResponse env (r_pending r) (r_msg r) (r_response r) s
          end
      | None => deliverResponse env (r_pending r) (r_msg r) (r_response r) s
      end
  end.

(** The sockets and the pending queries of [stopProxy]; a request to the
    forwarder stays under way. *)
Definition stopProxy (s : State) : State :=
  mkState ∅ (nextQueryId s) ∅ (nextTimer s) (retries s) ∅ (nextSocket s) (stats s) (failures s) (zones_at s) (zones s).

(** [startProxy], for [n] addresses: it does nothing while it runs. *)
Definition startProxy (n : nat) (s : State) : State :=
  if bool_decide (sockets s = ∅) then
    mkState (pendingQueries s) (nextQueryId s) (timers s) (nextTimer s) (retries s)
      (list_to_set (seq (nextSocket s) n)) (nextSocket s + n) (stats s) (failures s) (zones_at s) (zones s)
  else s.

Inductive event :=
| Query (env : Env) (c : Client) (msg : bytes)
| Timer (t : nat)
| BackendAnswer (env : Env) (msg : bytes)
| ForwarderSettles (env : Env) (i : nat) (answer : option bytes)
| Start (n : nat)
| Stop.

Definition handle (e : event) (s : State) : State * list Out :=
  match e with
  | Query env c msg => if bool_decide (c_sock c ∈ sockets s) then handleQuery env c msg s else (s, [])
  | Timer t => query_timeout t s
  | BackendAnswer env msg => handleDnsmasqResponse env msg s
  | ForwarderSettles env i answer => forwarder_settles env i answer s
  | Start n => (startProxy n s, [])
  | Stop => (stopProxy s, [])
  end.

Fixpoint run (es : list event) (s : State) : State * list Out :=
  match es with
  | [] => (s, [])
  | e :: es => let '(s, o) := handle e s in let '(s, o') := run es s in (s, o ++ o')
  end.

End codec.
