(* ===== verification/DnsProxyFacts.v ===== *)
(** * What the DNS proxy keeps: facts of [DnsProxy] over UDP

    The invariant of the module's state, and the account of queries: a query
    is answered at most once, to its asker and under its asker's id, and not
    lost while the proxy runs. *)

From S2P Require Import Prelude JsString Address Bytes FilterPolicy DnsAnswers DnsProxy.
From S2P Require Blocklist.

(** ** The id of a message *)

Lemma be_value_uint16 v : 0 <= v < 65536 -> be_value (uint16be v) = v.
Proof. intros H. unfold uint16be. by apply be_value_bytes. Qed.

Lemma id_of_written v rest : 0 <= v < 65536 -> id_of (uint16be v ++ rest) = Some v.
Proof.
  intros Hv. unfold id_of, readUInt16BE. change (uint16be v ++ rest) with ([] ++ uint16be v ++ rest).
  rewrite (readUIntBE_mid [] (uint16be v) rest 0 2 eq_refl (length_be_bytes _ _)). simpl. by rewrite be_value_uint16.
Qed.

Lemma writeId_spec buf id b : writeId buf id = Some b -> id_of b = Some id /\ 0 <= id < 65536.
Proof.
  unfold writeId. destruct (_ && _) eqn:E; [|done]. rewrite !andb_true_iff, Nat.leb_le, Z.leb_le, Z.ltb_lt in E.
  intros [= <-]. split; [|lia]. apply id_of_written. lia.
Qed.

Lemma writeId_total buf id : (2 <= length buf)%nat -> 0 <= id < 65536 -> is_Some (writeId buf id).
Proof.
  intros Hl Hi. unfold writeId. destruct (Nat.leb_spec 2 (length buf)); [|lia].
  destruct (Z.leb_spec 0 id); [|lia]. destruct (Z.ltb_spec id 65536); [|lia]. simpl. by eexists.
Qed.

Lemma length_withClientRd msg rd : length (withClientRd msg rd) = length msg.
Proof. unfold withClientRd. destruct (msg !! 2%nat); [|done]. apply length_insert. Qed.

Lemma length_withRecursionDesired msg : length (withRecursionDesired msg) = length msg.
Proof. unfold withRecursionDesired. destruct (msg !! 2%nat); [|done]. apply length_insert. Qed.

(** ** Ids are found while one is free *)

Section scan.

Context (taken : gmap Z Pending).

Definition has_id (n : Z) : Prop := is_Some (taken !! n).

(** After [j] steps from [startId], with every id on the way taken. *)
Lemma scan_spec fuel start j :
  0 <= start < 65536 -> Z.of_nat fuel + j = 65536 -> 0 <= j ->
  (forall i, 0 < i <= j -> has_id ((start + i) mod 65536)) ->
  let '(found, next) := scan_ids fuel taken start ((start + j) mod 65536) in
  0 <= next < 65536 /\
  match found with
  | Some n => n = next /\ taken !! n = None
  | None => forall i, 0 < i <= 65536 -> has_id ((start + i) mod 65536)
  end.
Proof.
  intros Hs. revert j. induction fuel as [|fuel IH]; intros j Hf Hj Hall.
  { simpl. split; [apply Z.mod_pos_bound; lia|]. replace j with 65536 in Hall by lia. done. }
  cbn [scan_ids].
  assert (Z.land ((start + j) mod 65536 + 1) 65535 = (start + (j + 1)) mod 65536) as ->.
  { change 65535 with (Z.ones 16). rewrite Z.land_ones by lia. change (2 ^ 16) with 65536.
    rewrite Zplus_mod_idemp_l. f_equal. lia. }
  destruct (taken !! ((start + (j + 1)) mod 65536)) as [p|] eqn:Et.
  - assert (forall i, 0 < i <= j + 1 -> has_id ((start + i) mod 65536)) as Hall'.
    { intros i Hi. destruct (decide (i = j + 1)) as [->|]; [by eexists|apply Hall; lia]. }
    destruct (Z.eqb_spec ((start + (j + 1)) mod 65536) start) as [E|Hne].
    + rewrite E. split; [lia|]. assert (j + 1 = 65536) as Ej; [|by rewrite Ej in Hall'].
      assert (j + 1 <= 65536) as Hb by lia. clear -E Hs Hb Hj.
      destruct (decide (start + (j + 1) < 65536)); [rewrite Z.mod_small in E by lia; lia|].
      replace ((start + (j + 1)) mod 65536) with ((start + (j + 1) - 65536) mod 65536) in E.
      * destruct (decide (start + (j + 1) - 65536 < 65536)); [rewrite Z.mod_small in E by lia; lia|lia].
      * rewrite <- (Z_mod_plus_full (start + (j + 1) - 65536) 1 65536). f_equal. lia.
    + apply IH; [lia|lia|done].
  - split; [apply Z.mod_pos_bound; lia|done].
Qed.

Lemma all_taken start : 0 <= start < 65536 -> (forall i, 0 < i <= 65536 -> has_id ((start + i) mod 65536)) -> 65536 <= Z.of_nat (size taken).
Proof.
  intros Hs Hall. assert ((list_to_set (seqZ 0 65536) : gset Z) ⊆ dom taken) as Hsub.
  { intros n Hn. rewrite elem_of_list_to_set, elem_of_seqZ in Hn. apply elem_of_dom.
    destruct (decide (start < n)).
    - specialize (Hall (n - start)). replace (start + (n - start)) with n in Hall by lia. rewrite Z.mod_small in Hall by lia. apply Hall. lia.
    - specialize (Hall (n - start + 65536)). replace (start + (n - start + 65536)) with (n + 1 * 65536) in Hall by lia.
      rewrite Z_mod_plus_full, Z.mod_small in Hall by lia. apply Hall. lia. }
  apply subseteq_size in Hsub. rewrite size_dom in Hsub.
  rewrite size_list_to_set in Hsub by apply NoDup_seqZ. rewrite length_seqZ in Hsub. lia.
Qed.

End scan.

(** ** The invariant *)

Record inv (s : State) : Prop := {
  inv_timers : forall t id, timers s !! t = Some id <-> exists p, pendingQueries s !! id = Some p /\ p_timer p = t;
  inv_fresh : forall t id, timers s !! t = Some id -> (t < nextTimer s)%nat;
  inv_bound : Z.of_nat (size (pendingQueries s)) <= MAX_PENDING_QUERIES;
  inv_next : 0 <= nextQueryId s < 65536;
  inv_ids : forall id p, pendingQueries s !! id = Some p -> 0 <= id < 65536 }.

(** The parts of the state the invariant is about. *)
Definition same_core (s s' : State) : Prop :=
  pendingQueries s' = pendingQueries s /\ timers s' = timers s /\ nextTimer s' = nextTimer s /\ nextQueryId s' = nextQueryId s.

Lemma inv_core s s' : same_core s s' -> inv s -> inv s'.
Proof. intros (Hp & Ht & Hn & Hq) [H1 H2 H3 H4 H5]. split; rewrite ?Hp, ?Ht, ?Hn, ?Hq; done. Qed.

Lemma allocate_spec s :
  inv s -> Z.of_nat (size (pendingQueries s)) < MAX_PENDING_QUERIES ->
  exists id, allocateQueryId s = (Some id, with_next id s) /\ pendingQueries s !! id = None /\ 0 <= id < 65536.
Proof.
  intros Hi Hsz. unfold allocateQueryId.
  pose proof (scan_spec (pendingQueries s) ID_SPACE (nextQueryId s) 0 (inv_next s Hi)) as H.
  rewrite (Z.add_0_r (nextQueryId s)), (Z.mod_small (nextQueryId s)) in H by apply Hi.
  destruct (scan_ids _ _ _ _) as [found next]. destruct H as [Hn Hf]; [unfold ID_SPACE; lia|lia|intros; lia|].
  destruct found as [n|].
  - destruct Hf as [-> Hf]. by exists next.
  - apply all_taken in Hf; [|apply Hi]. unfold MAX_PENDING_QUERIES in Hsz. lia.
Qed.

Lemma inv_set s id p :
  inv s -> Z.of_nat (size (pendingQueries s)) < MAX_PENDING_QUERIES -> pendingQueries s !! id = None -> 0 <= id < 65536 ->
  p_timer p = nextTimer s -> inv (set_pending id p (with_next id s)).
Proof.
  intros [H1 H2 H3 H4 H5] Hsz Hnone Hid Hp. split; simpl; rewrite ?Hp.
  - intros t j. destruct (decide (t = nextTimer s)) as [->|Hne].
    + rewrite lookup_insert_eq. split.
      * intros [= <-]. exists p. by rewrite lookup_insert_eq.
      * intros (p' & Hp' & Ht). destruct (decide (id = j)) as [->|]; [done|]. rewrite lookup_insert_ne in Hp' by done.
        assert (timers s !! p_timer p' = Some j) as Hf%H2 by (apply H1; eauto). lia.
    + rewrite lookup_insert_ne by done. rewrite H1. split; intros (p' & Hp' & Ht); exists p'.
      * rewrite lookup_insert_ne; [done|congruence].
      * destruct (decide (id = j)) as [->|]; [rewrite lookup_insert_eq in Hp'; naive_solver|by rewrite lookup_insert_ne in Hp'].
  - intros t j. destruct (decide (t = nextTimer s)) as [->|Hne]; [lia|]. rewrite lookup_insert_ne by done. intros Ht%H2. lia.
  - rewrite map_size_insert_None by done. lia.
  - done.
  - intros j p'. destruct (decide (id = j)) as [->|]; [done|]. rewrite lookup_insert_ne by done. apply H5.
Qed.

Lemma inv_drop s id p : inv s -> pendingQueries s !! id = Some p -> inv (drop_pending id (p_timer p) s).
Proof.
  intros [H1 H2 H3 H4 H5] Hp. split; simpl; [| | |done|].
  - intros t j. destruct (decide (p_timer p = t)) as [<-|Hne].
    + rewrite lookup_delete_eq. split; [done|]. intros (p' & Hp' & Ht). apply lookup_delete_Some in Hp' as [Hne Hp'].
      assert (timers s !! p_timer p = Some id) as E1 by (apply H1; eauto).
      assert (timers s !! p_timer p = Some j) as E2 by (apply H1; eauto). congruence.
    + rewrite lookup_delete_ne by done. rewrite H1. split; intros (p' & Hp' & Ht); exists p'.
      * split; [|done]. apply lookup_delete_Some. split; [|done]. intros <-. congruence.
      * by apply lookup_delete_Some in Hp' as [_ ?].
  - intros t j. rewrite lookup_delete_Some. intros [_ Ht]. by eapply H2.
  - assert (size (delete id (pendingQueries s)) <= size (pendingQueries s))%nat; [|lia].
    rewrite map_size_delete_Some by done. lia.
  - intros j p' [_ H]%lookup_delete_Some. by eapply H5.
Qed.

(** A timer that fires finds the query it was set for. *)
Lemma timer_hits s t id : inv s -> timers s !! t = Some id -> exists p, pendingQueries s !! id = Some p /\ p_timer p = t.
Proof. intros Hi. apply Hi. Qed.

(** ** The account of queries *)

(** A query's asker and the id it asked under. *)
Notation asker := (Client * Z)%type.
Definition key_of (p : Pending) : asker := (p_client p, p_originalId p).

Definition one (k k0 : asker) : nat := if bool_decide (k = k0) then 1%nat else 0%nat.

(** The answers sent to an asker under its id. *)
Definition is_for (k : asker) (o : Out) : bool :=
  match o with ToClient c b => bool_decide (c = k.1) && bool_decide (id_of b = Some k.2) | _ => false end.
Definition answered (outs : list Out) (k : asker) : nat := length (List.filter (is_for k) outs).

(** The queries of an asker not answered yet. *)
Definition pending_of (m : gmap Z Pending) (k : asker) : nat := size (filter (fun e => key_of e.2 = k) m).
Definition retries_of (l : list Retry) (k : asker) : nat := length (List.filter (fun r => bool_decide (key_of (r_pending r) = k)) l).
Definition waiting (s : State) (k : asker) : nat := (pending_of (pendingQueries s) k + retries_of (retries s) k)%nat.

Lemma pending_insert m id p k : m !! id = None -> pending_of (<[id := p]> m) k = (pending_of m k + one k (key_of p))%nat.
Proof.
  intros Hn. unfold pending_of, one. case_bool_decide as Hk.
  - rewrite map_filter_insert_True by done. rewrite map_size_insert_None; [lia|]. apply map_lookup_filter_None. by left.
  - rewrite map_filter_insert_False by (simpl; congruence). rewrite map_filter_delete, delete_id; [lia|].
    apply map_lookup_filter_None. by left.
Qed.

Lemma pending_delete m id p k : m !! id = Some p -> (pending_of (delete id m) k + one k (key_of p))%nat = pending_of m k.
Proof.
  intros Hp. rewrite <- (insert_delete_id m id p) at 2 by done. symmetry. apply pending_insert. apply lookup_delete_eq.
Qed.

Lemma retries_app l l' k : retries_of (l ++ l') k = (retries_of l k + retries_of l' k)%nat.
Proof. unfold retries_of. by rewrite List.filter_app, length_app. Qed.

Lemma retries_one r k : retries_of [r] k = one k (key_of (r_pending r)).
Proof. unfold retries_of, one. simpl. do 2 case_bool_decide; done. Qed.

Lemma retries_delete l i r k : l !! i = Some r -> (retries_of (delete i l) k + one k (key_of (r_pending r)))%nat = retries_of l k.
Proof.
  intros Hi. rewrite delete_take_drop. rewrite <- (take_drop_middle l i r Hi) at 3.
  rewrite !retries_app, <- retries_one. change (r :: drop (S i) l) with ([r] ++ drop (S i) l). rewrite retries_app. lia.
Qed.

Lemma in_delete {A} (x : A) (i : nat) (l : list A) : x ∈ delete i l -> x ∈ l.
Proof.
  rewrite delete_take_drop, elem_of_app. intros [H|H]; apply list_elem_of_lookup in H as [j Hj].
  - apply lookup_take_Some in Hj as [Hj _]. by eapply list_elem_of_lookup_2.
  - rewrite lookup_drop in Hj. by eapply list_elem_of_lookup_2.
Qed.

Lemma answered_app o o' k : answered (o ++ o') k = (answered o k + answered o' k)%nat.
Proof. unfold answered. by rewrite List.filter_app, length_app. Qed.

Section account.

Context (decode : bytes -> option Message) (encode : Message -> option bytes).

(** [dns-packet]: a message has a header of its own id, and one is written
    with the id it is given. *)
Record codec_ok : Prop := {
  decode_header : forall b m, decode b = Some m -> (2 <= length b)%nat /\ 0 <= m_id m < 65536 /\ id_of b = Some (m_id m);
  encode_header : forall m b, 0 <= m_id m < 65536 -> encode m = Some b -> id_of b = Some (m_id m) }.

(** No message of an id in range is refused by the encoder. *)
Definition encodes : Prop := forall m, 0 <= m_id m < 65536 -> is_Some (encode m).

Context (Hcodec : codec_ok).

(** The queries an event brings. *)
Definition asked (e : event) (s : State) (k : asker) : nat :=
  match e with
  | Query env c msg => if bool_decide (c_sock c ∈ sockets s) then match decode msg with Some q => one k (c, m_id q) | None => 0%nat end else 0%nat
  | _ => 0%nat
  end.

(** A query that waits: its id is an id, its socket is open. *)
Definition entries (s : State) (p : Pending) : Prop := (exists id, pendingQueries s !! id = Some p) \/ exists r, r ∈ retries s /\ r_pending r = p.
Definition ids_ok (s : State) : Prop := forall p, entries s p -> 0 <= p_originalId p < 65536.
Definition open_ok (s : State) : Prop :=
  (forall p, entries s p -> c_sock (p_client p) ∈ sockets s) /\ (forall r, r ∈ retries s -> (2 <= length (r_msg r))%nat).

(** Nothing throws and the proxy is not stopped. *)
Definition lossless (e : event) (s : State) : Prop := encodes /\ e <> Stop /\ open_ok s.

Definition quiet (outs : list Out) : Prop := Forall (fun o => match o with ToClient _ _ => False | _ => True end) outs.

Lemma answered_quiet outs k : quiet outs -> answered outs k = 0%nat.
Proof. induction 1 as [|o outs Ho _ IH]; [done|]. unfold answered. simpl. by destruct o. Qed.

Lemma answered_quiet_cons o outs k : (forall c b, o <> ToClient c b) -> answered (o :: outs) k = answered outs k.
Proof. intros H. unfold answered. simpl. destruct o; try done. by destruct (H c b). Qed.

(** What one send answers: at most the one it is for, and that one when
    nothing throws. *)
Definition answers_one (k0 : asker) (sure : Prop) (outs : list Out) : Prop :=
  forall k, (answered outs k <= one k k0)%nat /\ (sure -> answered outs k = one k k0).

Lemma send_answers s c i ob rest :
  (forall b, ob = Some b -> id_of b = Some i) -> quiet rest ->
  answers_one (c, i) (is_Some ob /\ c_sock c ∈ sockets s) (sent_then (send s c ob) rest).
Proof.
  intros Hb Hq k. unfold send. destruct ob as [b|]; [|simpl; split; [unfold answered; simpl; lia|by intros [[] _]]].
  case_bool_decide as Hs; simpl; [|split; [unfold answered; simpl; lia|by intros [_ ?]]].
  assert (answered (ToClient c b :: rest) k = one k (c, i)) as ->; [|split; [lia|done]].
  unfold answered. simpl. unfold one. rewrite (Hb b eq_refl). destruct k as [c' i']. simpl.
  pose proof (answered_quiet rest (c', i') Hq) as H0. unfold answered in H0.
  destruct (bool_decide (c = c') && bool_decide (Some i = Some i')) eqn:E; simpl; rewrite H0; symmetry.
  - apply andb_true_iff in E as [->%bool_decide_eq_true [= ->]%bool_decide_eq_true]. by rewrite bool_decide_true.
  - rewrite bool_decide_false; [done|]. intros [= -> ->]. rewrite !bool_decide_true in E by done. done.
Qed.

Lemma answers_cons k0 sure o outs : (forall c b, o <> ToClient c b) -> answers_one k0 sure outs -> answers_one k0 sure (o :: outs).
Proof. intros Ho H k. rewrite answered_quiet_cons by done. apply H. Qed.

Lemma answers_weaken k0 (sure sure' : Prop) outs : (sure' -> sure) -> answers_one k0 sure outs -> answers_one k0 sure' outs.
Proof. intros Hw H k. destruct (H k). split; auto. Qed.

(** What a state is made of apart from its counters and its zones. *)
Definition same_state (s s' : State) : Prop := same_core s s' /\ retries s' = retries s /\ sockets s' = sockets s.

Lemma deliver_answers env p msg response s :
  0 <= p_originalId p < 65536 ->
  let '(s', outs) := deliverResponse encode env p msg response s in
  same_state s s' /\ answers_one (key_of p) (encodes /\ c_sock (p_client p) ∈ sockets s /\ (2 <= length msg)%nat) outs.
Proof.
  intros Hid. unfold deliverResponse. destruct (verdict _ _ _ _) as [dest|reason codes dest].
  - set (s1 := with_stats _ s).
    pose proof (send_answers s1 (p_client p) (p_originalId p) (writeId (withClientRd msg (p_clientRd p)) (p_originalId p)) []) as Hs.
    destruct (send s1 _ _) as [o|] eqn:Eo; simpl in Hs.
    + destruct (noteAnswer _ _ _) as [[ede failure] f]. split; [done|]. apply answers_cons; [done|].
      assert (answers_one (key_of p) (encodes /\ c_sock (p_client p) ∈ sockets s /\ (2 <= length msg)%nat) [o]) as H1.
      { eapply answers_weaken, Hs; [|intros b Hb; by apply writeId_spec in Hb as []|constructor].
        intros (_ & Hsock & Hl). split; [|done]. apply writeId_total; [by rewrite length_withClientRd|done]. }
      intros k. specialize (H1 k). unfold answered in *. simpl in *. destruct (is_for k o); done.
    + split; [done|]. apply answers_cons; [done|]. eapply answers_weaken, Hs; [|intros b Hb; by apply writeId_spec in Hb as []|constructor].
      intros (_ & Hsock & Hl). split; [|done]. apply writeId_total; [by rewrite length_withClientRd|done].
  - split; [done|]. apply answers_cons; [done|].
    eapply answers_weaken, send_answers; [|intros b Hb; by apply (encode_header Hcodec) in Hb|by repeat constructor].
    intros (He & Hsock & _). split; [by apply He|done].
Qed.

(** What an event does to the invariant and the account. *)
Record step_ok (e : event) (s s' : State) (outs : list Out) : Prop := {
  step_inv : inv s';
  step_ids : ids_ok s';
  step_account : forall k, (answered outs k + waiting s' k <= waiting s k + asked e s k)%nat;
  step_lossless : lossless e s -> open_ok s' /\ forall k, (answered outs k + waiting s' k = waiting s k + asked e s k)%nat }.

Lemma same_entries s s' p : same_state s s' -> entries s' p -> entries s p.
Proof. intros ((Hp & _) & Hr & _) H. unfold entries in *. by rewrite Hp, Hr in H. Qed.

Lemma same_waiting s s' k : same_state s s' -> waiting s' k = waiting s k.
Proof. intros ((Hp & _) & Hr & _). unfold waiting. by rewrite Hp, Hr. Qed.

Lemma same_ids s s' : same_state s s' -> ids_ok s -> ids_ok s'.
Proof. intros Hs Hi p Hp. by apply Hi, (same_entries s s'). Qed.

Lemma same_open s s' : same_state s s' -> open_ok s -> open_ok s'.
Proof.
  intros Hs [H1 H2]. pose proof Hs as (_ & Hr & Hk). split.
  - intros p Hp. rewrite Hk. by apply H1, (same_entries s s').
  - by rewrite Hr.
Qed.

(** A handler that starts from [s1], with a query gone from [s] or none come. *)
Lemma settled_step e s s1 s' outs k0 sure :
  inv s1 -> ids_ok s1 -> same_state s1 s' -> answers_one k0 sure outs ->
  (forall k, (waiting s1 k + one k k0 = waiting s k + asked e s k)%nat) ->
  (lossless e s -> sure /\ open_ok s1) -> step_ok e s s' outs.
Proof.
  intros Hi Hid Hs Ha Hw Hsure. split.
  - by apply (inv_core s1 s'); [apply Hs|].
  - by apply (same_ids s1).
  - intros k. rewrite (same_waiting s1 s') by done. destruct (Ha k) as [H _]. specialize (Hw k). lia.
  - intros Hl. destruct (Hsure Hl) as [Hsr Ho]. split; [by apply (same_open s1)|].
    intros k. rewrite (same_waiting s1 s') by done. destruct (Ha k) as [_ H]. specialize (H Hsr). specialize (Hw k). lia.
Qed.

Lemma nothing_asked e s : inv s -> ids_ok s -> (forall k, asked e s k = 0%nat) -> step_ok e s s [].
Proof.
  intros Hi Hid H0. split; [done|done| |].
  - intros k. rewrite H0. unfold answered. simpl. lia.
  - intros (_ & _ & Ho). split; [done|]. intros k. rewrite H0. unfold answered. simpl. lia.
Qed.

Lemma drop_waiting s id p k : pendingQueries s !! id = Some p -> (waiting (drop_pending id (p_timer p) s) k + one k (key_of p) = waiting s k)%nat.
Proof. intros Hp. unfold waiting. simpl. pose proof (pending_delete _ _ _ k Hp). lia. Qed.

Lemma drop_entries s id t p : entries (drop_pending id t s) p -> entries s p.
Proof. intros [[j Hj]|H]; [|by right]. simpl in Hj. apply lookup_delete_Some in Hj as [_ Hj]. left. by exists j. Qed.

Lemma drop_ids s id t : ids_ok s -> ids_ok (drop_pending id t s).
Proof. intros H p Hp. by eapply H, drop_entries. Qed.

Lemma drop_open s id t : open_ok s -> open_ok (drop_pending id t s).
Proof. intros [H1 H2]. split; [|done]. intros p Hp. by eapply H1, drop_entries. Qed.

Lemma query_step env c msg s : inv s -> ids_ok s -> let '(s', outs) := handle decode encode (Query env c msg) s in step_ok (Query env c msg) s s' outs.
Proof.
  intros Hi Hid. simpl. destruct (bool_decide (c_sock c ∈ sockets s)) eqn:Hsock.
  2: { apply nothing_asked; [done|done|]. intros k. simpl. by rewrite Hsock. }
  apply bool_decide_eq_true in Hsock.
  unfold handleQuery. destruct (decode msg) as [q|] eqn:Hd.
  2: { apply nothing_asked; [done|done|]. intros k. simpl. by rewrite bool_decide_true, Hd by done. }
  assert (forall k, asked (Query env c msg) s k = one k (c, m_id q)) as Hask.
  { intros k. simpl. by rewrite bool_decide_true, Hd by done. }
  destruct (decode_header Hcodec _ _ Hd) as (Hlen & Hq & _).
  assert (forall f m rest, m_id m = m_id q -> quiet rest ->
    answers_one (c, m_id q) (lossless (Query env c msg) s) (sent_then (send (with_stats f s) c (encode m)) rest)) as Hsend.
  { intros f m rest Hm Hr. eapply answers_weaken, send_answers; [|intros b Hb; rewrite <- Hm; apply (encode_header Hcodec); [by rewrite Hm|done]|done].
    intros (He & _). split; [apply He; by rewrite Hm|done]. }
  assert (forall f outs, answers_one (c, m_id q) (lossless (Query env c msg) s) outs -> step_ok (Query env c msg) s (with_stats f s) outs) as Hdone.
  { intros f outs Ha. eapply (settled_step _ s s); [done|done|done|exact Ha|intros k; by rewrite Hask|]. intros Hl. split; [done|apply Hl]. }
  destruct (evaluateInboundPolicy _ _ _ _ _) as [v|].
  { apply Hdone. do 2 (apply answers_cons; [done|]). apply Hsend; [apply blocked_answers|by repeat constructor]. }
  destruct (Z.leb_spec MAX_PENDING_QUERIES (Z.of_nat (size (pendingQueries s)))).
  { apply Hdone, answers_cons; [done|]. apply Hsend; [done|constructor]. }
  destruct (allocate_spec s Hi ltac:(done)) as (id & -> & Hnone & Hrange).
  set (p := mkPending _ _ _ _ _ _ _ _ _ _ _).
  assert (quiet (Seen (clientIpOf (c_address c)) :: match writeId (withRecursionDesired msg) id with Some b => [ToBackend (internal_port env) b] | None => [] end)) as Hquiet.
  { constructor; [done|]. destruct (writeId _ _); by repeat constructor. }
  assert (forall k, waiting (set_pending id p (with_next id s)) k = (waiting s k + one k (c, m_id q))%nat) as Hw.
  { intros k. unfold waiting. simpl. rewrite (pending_insert _ id p k Hnone). unfold key_of. simpl. lia. }
  split.
  - by apply inv_set.
  - intros p' [[j Hj]|Hr]; [|by apply Hid; right]. simpl in Hj. apply lookup_insert_Some in Hj as [[_ <-]|[_ Hj]]; [done|]. apply Hid. left. by exists j.
  - intros k. rewrite answered_quiet, Hw, Hask by done. lia.
  - intros (_ & _ & Ho1 & Ho2). split.
    + split; [|done]. intros p' [[j Hj]|Hr]; [|by apply Ho1; right]. simpl in Hj.
      apply lookup_insert_Some in Hj as [[_ <-]|[_ Hj]]; [done|]. apply Ho1. left. by exists j.
    + intros k. rewrite answered_quiet, Hw, Hask by done. lia.
Qed.

Lemma timer_step t s : inv s -> ids_ok s -> let '(s', outs) := handle decode encode (Timer t) s in step_ok (Timer t) s s' outs.
Proof.
  intros Hi Hid. simpl. unfold query_timeout. destruct (timers s !! t) as [id|] eqn:Ht; [|by apply nothing_asked].
  destruct (timer_hits _ _ _ Hi Ht) as (p & Hp & <-). rewrite Hp.
  destruct (noteAnswer _ _ _) as [[ede failure] f].
  eapply (settled_step _ s (drop_pending id (p_timer p) s) _ _ (key_of p)); [by apply inv_drop|by apply drop_ids|done| | |].
  - apply answers_cons; [done|]. apply send_answers; [|constructor]. intros b Hb. apply (encode_header Hcodec) in Hb; [done|]. apply Hid. left. by exists id.
  - intros k. rewrite (drop_waiting s id p k Hp). simpl. lia.
  - intros (He & _ & Ho). split; [|by apply drop_open]. split; [apply He, Hid; left; by exists id|]. simpl. apply Ho. left. by exists id.
Qed.

Lemma zones_same env name s : same_state s (underForwardUnknownZone env name s).2.
Proof. unfold underForwardUnknownZone. destruct (_ <? _); done. Qed.

Lemma retry_same env r name s : same_state s (wantsUnknownRetry env r name s).2.
Proof.
  unfold wantsUnknownRetry. destruct r as [r|]; [|done]. destruct (_ || _); [done|]. destruct (_ || _); [done|apply zones_same].
Qed.

Lemma same_trans s s1 s2 : same_state s s1 -> same_state s1 s2 -> same_state s s2.
Proof. unfold same_state, same_core. intuition congruence. Qed.

Lemma backend_step env msg s : inv s -> ids_ok s -> let '(s', outs) := handle decode encode (BackendAnswer env msg) s in step_ok (BackendAnswer env msg) s s' outs.
Proof.
  intros Hi Hid. simpl. unfold handleDnsmasqResponse. destruct (decode msg) as [r|] eqn:Hd; [|by apply nothing_asked].
  destruct (pendingQueries s !! m_id r) as [p|] eqn:Hp; [|by apply nothing_asked].
  destruct (decode_header Hcodec _ _ Hd) as (Hlen & _).
  set (s1 := drop_pending (m_id r) (p_timer p) s).
  pose proof (retry_same env (Some r) (p_queryName p) s1) as Hs1.
  destruct (wantsUnknownRetry env (Some r) (p_queryName p) s1) as [wants s2]. simpl in Hs1.
  assert (inv s1) as Hi1 by by apply inv_drop. assert (ids_ok s1) as Hid1 by by apply drop_ids.
  assert (entries s p) as Hent by (left; by exists (m_id r)).
  pose proof (drop_waiting s (m_id r) p) as Hw. fold s1 in Hw.
  destruct wants.
  - assert (forall k, waiting (with_retries (retries s2 ++ [mkRetry p msg r]) s2) k = waiting s k) as Hws.
    { intros k. rewrite <- (Hw k Hp), <- (same_waiting s1 s2 k Hs1). unfold waiting. simpl.
      rewrite retries_app, retries_one. simpl. lia. }
    assert (quiet (if PROXY_UDP_TIMEOUT_MS - (now env - p_start p) <=? 0 then [] else [ToForwarder (p_query p) (PROXY_UDP_TIMEOUT_MS - (now env - p_start p))])) as Hq.
    { destruct (_ <=? _); by repeat constructor. }
    assert (forall p', entries (with_retries (retries s2 ++ [mkRetry p msg r]) s2) p' -> p' = p \/ entries s1 p') as Hent'.
    { intros p' [H|(x & Hx & <-)]; [right; apply (same_entries s1 s2); [done|by left]|]. simpl in Hx.
      apply elem_of_app in Hx as [Hx| ->%list_elem_of_singleton]; [right; apply (same_entries s1 s2); [done|right; by exists x]|by left]. }
    split.
    + apply (inv_core s2); [done|]. by apply (inv_core s1); [apply Hs1|].
    + intros p' [->|H]%Hent'; [by apply Hid|by apply Hid1].
    + intros k. rewrite answered_quiet, Hws by done. simpl. lia.
    + intros (_ & _ & Ho). pose proof (drop_open s (m_id r) (p_timer p) Ho) as Ho1. split.
      * split; [|intros x Hx; simpl in Hx; apply elem_of_app in Hx as [Hx| ->%list_elem_of_singleton]; [|done]].
        -- intros p' H%Hent'. simpl. replace (sockets s2) with (sockets s) by (symmetry; apply Hs1).
           destruct H as [->|H]; [by apply Ho|by apply Ho1].
        -- apply Ho1. rewrite (proj1 (proj2 Hs1)) in Hx. exact Hx.
      * intros k. rewrite answered_quiet, Hws by done. simpl. lia.
  - pose proof (deliver_answers env p msg r s2 (Hid p Hent)) as Hdel.
    destruct (deliverResponse encode env p msg r s2) as [s3 outs]. destruct Hdel as [Hs2 Ha].
    eapply (settled_step _ s s1 s3 outs (key_of p)); [done|done|by eapply same_trans|exact Ha| |].
    + intros k. rewrite (Hw k Hp). simpl. lia.
    + intros (He & _ & Ho). split; [|by apply drop_open]. split_and!; [done| |done].
      replace (sockets s2) with (sockets s) by (symmetry; apply Hs1). by apply Ho.
Qed.

Lemma forwarder_step env i a s : inv s -> ids_ok s -> let '(s', outs) := handle decode encode (ForwarderSettles env i a) s in step_ok (ForwarderSettles env i a) s s' outs.
Proof.
  intros Hi Hid. simpl. unfold forwarder_settles. destruct (retries s !! i) as [r|] eqn:Hr; [|by apply nothing_asked].
  set (s1 := with_retries (delete i (retries s)) s). set (p := r_pending r).
  assert (r ∈ retries s) as Hin by by eapply list_elem_of_lookup_2.
  assert (entries s p) as Hent by (right; by exists r).
  assert (forall p', entries s1 p' -> entries s p') as Hsub.
  { intros p' [H|(x & Hx & <-)]; [by left|right]. exists x. split; [|done]. simpl in Hx. by eapply in_delete. }
  assert (forall m resp, (lossless (ForwarderSettles env i a) s -> (2 <= length m)%nat) ->
    let '(s', outs) := deliverResponse encode env p m resp s1 in step_ok (ForwarderSettles env i a) s s' outs) as Hdeliver.
  { intros m resp Hm. pose proof (deliver_answers env p m resp s1 (Hid p Hent)) as Hdel.
    destruct (deliverResponse encode env p m resp s1) as [s3 outs]. destruct Hdel as [Hs2 Ha].
    eapply (settled_step _ s s1 s3 outs (key_of p)); [by apply (inv_core s)|intros p' H; by apply Hid, Hsub|done|exact Ha| |].
    - intros k. unfold waiting. simpl. pose proof (retries_delete _ _ _ k Hr). unfold p. lia.
    - intros Hl. destruct Hl as (He & Hne & Ho1 & Ho2). split; [split_and!; [done|by apply Ho1|apply Hm; by split_and!]|].
      split; [intros p' H; by apply Ho1, Hsub|]. intros x Hx. simpl in Hx. apply Ho2. by eapply in_delete. }
  destruct a as [b|]; [destruct (decode b) as [m|] eqn:Hd|].
  - apply Hdeliver. intros _. by apply (decode_header Hcodec) in Hd as [? _].
  - apply Hdeliver. intros (_ & _ & _ & Ho2). by apply Ho2.
  - apply Hdeliver. intros (_ & _ & _ & Ho2). by apply Ho2.
Qed.

Lemma handle_ok e s : inv s -> ids_ok s -> let '(s', outs) := handle decode encode e s in step_ok e s s' outs.
Proof.
  intros Hi Hid. destruct e as [env c msg|t|env msg|env i a|n|].
  - by apply query_step.
  - by apply timer_step.
  - by apply backend_step.
  - by apply forwarder_step.
  - simpl. unfold startProxy. case_bool_decide as Hs; [|by apply nothing_asked]. split.
    + by apply (inv_core s).
    + exact Hid.
    + intros k. unfold answered, waiting. simpl. lia.
    + intros (_ & _ & Ho1 & Ho2). split; [|intros k; unfold answered, waiting; simpl; lia].
      split; [|done]. intros p Hp. specialize (Ho1 p Hp). rewrite Hs in Ho1. by apply not_elem_of_empty in Ho1.
  - simpl. split.
    + split; simpl; [intros t j; split; [done|by intros (? & ? & _)]|done|by rewrite map_size_empty|apply Hi|done].
    + intros p [[? H]|H]; [done|]. apply Hid. by right.
    + intros k. unfold answered, waiting, pending_of. simpl. rewrite map_filter_empty, map_size_empty. lia.
    + by intros (_ & ? & _).
Qed.

End account.

(** ** Runs *)

Section runs.

Context (decode : bytes -> option Message) (encode : Message -> option bytes).

(** The queries that came, over a run. *)
Fixpoint asked_all (es : list event) (s : State) (k : asker) : nat :=
  match es with
  | [] => 0%nat
  | e :: es => (asked decode e s k + asked_all es (handle decode encode e s).1 k)%nat
  end.

Context (Hcodec : codec_ok decode encode).

(** Nothing throws and the proxy is not stopped, over a run. *)
Definition runs_on (es : list event) : Prop := encodes encode /\ Stop ∉ es.

Lemma run_ok es s :
  inv s -> ids_ok s ->
  let '(s', outs) := run decode encode es s in
  inv s' /\ ids_ok s' /\ (forall k, (answered outs k + waiting s' k <= waiting s k + asked_all es s k)%nat)
  /\ (runs_on es -> open_ok s -> open_ok s' /\ forall k, (answered outs k + waiting s' k = waiting s k + asked_all es s k)%nat).
Proof.
  revert s. induction es as [|e es IH]; intros s Hi Hid.
  { simpl. split_and!; [done|done|intros k; unfold answered; simpl; lia|]. intros _ Ho. split; [done|]. intros k. unfold answered. simpl. lia. }
  simpl. pose proof (handle_ok decode encode Hcodec e s Hi Hid) as H. destruct (handle decode encode e s) as [s1 o1].
  destruct H as [Hi1 Hid1 Ha1 Hl1]. specialize (IH s1 Hi1 Hid1). destruct (run decode encode es s1) as [s2 o2].
  destruct IH as (Hi2 & Hid2 & Ha2 & Hl2). split_and!; [done|done| |].
  - intros k. rewrite answered_app. specialize (Ha1 k). specialize (Ha2 k). simpl. lia.
  - intros [He Hstop] Ho. apply not_elem_of_cons in Hstop as [Hne Hstop].
    destruct Hl1 as [Ho1 Hk1]; [split_and!; [done|congruence|done]|]. destruct Hl2 as [Ho2 Hk2]; [done|done|].
    split; [done|]. intros k. rewrite answered_app. specialize (Hk1 k). specialize (Hk2 k). simpl. lia.
Qed.

Lemma inv_initial : inv initial.
Proof.
  split; simpl; [intros t j; split; [done|by intros (? & ? & _)]|done| |lia|done]. rewrite map_size_empty. done.
Qed.

Lemma none_waiting_initial : ids_ok initial /\ open_ok initial /\ forall k, waiting initial k = 0%nat.
Proof.
  assert (forall p, ~ entries initial p) as Hn by (intros p [[? H]|(r & H & _)]; [done|by apply not_elem_of_nil in H]).
  split_and!; [by intros p ?%Hn|split; [by intros p ?%Hn|by intros r ?%not_elem_of_nil]|].
  intros k. unfold waiting, pending_of. simpl. by rewrite map_filter_empty, map_size_empty.
Qed.

(** What reaches a client from the start of the server on. *)
Lemma run_account es :
  let '(s, outs) := run decode encode es initial in
  inv s /\ (forall k, (answered outs k + waiting s k <= asked_all es initial k)%nat)
  /\ (runs_on es -> open_ok s /\ forall k, (answered outs k + waiting s k = asked_all es initial k)%nat).
Proof.
  destruct none_waiting_initial as (Hid & Ho & H0). pose proof (run_ok es initial inv_initial Hid) as H.
  destruct (run decode encode es initial) as [s outs]. destruct H as (Hi & _ & Ha & Hl). split_and!; [done| |].
  - intros k. specialize (Ha k). by rewrite H0 in Ha.
  - intros Hr. destruct (Hl Hr Ho) as [Ho' Hk]. split; [done|]. intros k. specialize (Hk k). by rewrite H0 in Hk.
Qed.

(** *** Everything settles *)

(** The timers set fire, and the requests to the forwarder settle. *)
Definition settle_all (env : Env) (s : State) : list event :=
  map Timer (elements (dom (timers s))) ++ repeat (ForwarderSettles env 0 None) (length (retries s)).

Lemma run_app es es' s : run decode encode (es ++ es') s =
  let '(s1, o1) := run decode encode es s in let '(s2, o2) := run decode encode es' s1 in (s2, o1 ++ o2).
Proof.
  revert s. induction es as [|e es IH]; intros s; simpl; [by destruct (run decode encode es' s)|].
  destruct (handle decode encode e s) as [s1 o1]. rewrite IH. destruct (run decode encode es s1) as [s2 o2].
  destruct (run decode encode es' s2) as [s3 o3]. by rewrite app_assoc.
Qed.

Lemma asked_all_quiet es s k : (forall e, e ∈ es -> match e with Query _ _ _ => False | _ => True end) -> asked_all es s k = 0%nat.
Proof.
  revert s. induction es as [|e es IH]; intros s H; [done|]. simpl. rewrite IH; [|intros e' He'; apply H; by right].
  specialize (H e ltac:(left)). by destruct e.
Qed.

Lemma asked_all_app es es' s k : asked_all (es ++ es') s k = (asked_all es s k + asked_all es' (run decode encode es s).1 k)%nat.
Proof.
  revert s. induction es as [|e es IH]; intros s; simpl; [done|]. rewrite IH.
  destruct (handle decode encode e s) as [s1 o1]. simpl. destruct (run decode encode es s1). simpl. lia.
Qed.

Lemma timer_effect t s : inv s ->
  timers (handle decode encode (Timer t) s).1 = delete t (timers s) /\ retries (handle decode encode (Timer t) s).1 = retries s.
Proof.
  intros Hi. simpl. unfold query_timeout. destruct (timers s !! t) as [id|] eqn:Ht; [|split; [|done]; simpl; by rewrite delete_id].
  destruct (timer_hits _ _ _ Hi Ht) as (p & -> & Hp). destruct (noteAnswer _ _ _) as [[? ?] ?]. done.
Qed.

Lemma timers_fire l s : inv s -> ids_ok s ->
  let '(s', _) := run decode encode (map Timer l) s in
  retries s' = retries s /\ forall t, t ∈ l \/ timers s !! t = None -> timers s' !! t = None.
Proof.
  revert s. induction l as [|t l IH]; intros s Hi Hid.
  { simpl. split; [done|]. by intros t [?%not_elem_of_nil|?]. }
  cbn [map run]. pose proof (handle_ok decode encode Hcodec (Timer t) s Hi Hid) as Hok. pose proof (timer_effect t s Hi) as [Ht Hr].
  destruct (handle decode encode (Timer t) s) as [s1 o1]. destruct Hok as [Hi1 Hid1 _ _]. simpl in Ht, Hr.
  specialize (IH s1 Hi1 Hid1). destruct (run decode encode (map Timer l) s1) as [s2 o2]. destruct IH as [Hr2 Ht2].
  split; [by rewrite Hr2|]. intros u Hu. apply Ht2. rewrite Ht. destruct (decide (t = u)) as [<-|Hne]; [right; by apply lookup_delete_eq|].
  rewrite lookup_delete_ne by done. destruct Hu as [[->|Hu]%elem_of_cons|Hu]; [done|by left|by right].
Qed.

Lemma forwarder_effect env s : pendingQueries (handle decode encode (ForwarderSettles env 0 None) s).1 = pendingQueries s
  /\ retries (handle decode encode (ForwarderSettles env 0 None) s).1 = drop 1 (retries s).
Proof.
  simpl. unfold forwarder_settles. destruct (retries s) as [|r l] eqn:E; simpl; [by rewrite E|].
  unfold deliverResponse. destruct (verdict _ _ _ _); [|done]. destruct (send _ _ _); [|done].
  destruct (noteAnswer _ _ _) as [[? ?] ?]. done.
Qed.

Lemma forwarders_settle env n s :
  let '(s', _) := run decode encode (repeat (ForwarderSettles env 0 None) n) s in
  pendingQueries s' = pendingQueries s /\ retries s' = drop n (retries s).
Proof.
  revert s. induction n as [|n IH]; intros s; simpl; [by rewrite drop_0|].
  pose proof (forwarder_effect env s) as [Hp Hr]. simpl in Hp, Hr. destruct (forwarder_settles _ _ _ _ _ _) as [s1 o1]. simpl in Hp, Hr.
  specialize (IH s1). destruct (run _ _ _ s1) as [s2 o2]. destruct IH as [-> ->]. rewrite Hp, Hr. split; [done|]. by rewrite drop_drop.
Qed.

Lemma settled env s : inv s -> ids_ok s -> forall k, waiting (run decode encode (settle_all env s) s).1 k = 0%nat.
Proof.
  intros Hi Hid k. unfold settle_all. rewrite run_app.
  pose proof (timers_fire (elements (dom (timers s))) s Hi Hid) as Ht.
  pose proof (run_ok (map Timer (elements (dom (timers s)))) s Hi Hid) as Hok.
  destruct (run _ _ (map Timer _) s) as [s1 o1]. destruct Ht as [Hr Ht]. destruct Hok as (Hi1 & _ & _ & _).
  pose proof (forwarders_settle env (length (retries s)) s1) as Hf. destruct (run _ _ (repeat _ _) s1) as [s2 o2].
  destruct Hf as [Hp2 Hr2]. simpl.
  assert (pendingQueries s1 = ∅) as Hempty.
  { apply map_empty. intros id. destruct (pendingQueries s1 !! id) as [p|] eqn:Hp; [|done].
    assert (timers s1 !! p_timer p = Some id) as H1 by (apply (inv_timers s1 Hi1); eauto).
    rewrite Ht in H1; [done|]. destruct (timers s !! p_timer p) as [j|] eqn:E; [left|by right].
    apply elem_of_elements, elem_of_dom. by exists j. }
  unfold waiting, pending_of. rewrite Hp2, Hr2, Hempty, Hr, drop_all, map_filter_empty, map_size_empty. done.
Qed.

End runs.

(** ** The theorems *)

(** C18. Whatever comes in whatever order (queries, answers of the backend,
    also late or made up, timeouts, the forwarder's answers, stops and
    starts), each asker is sent, under the id it asked with, at most as many
    answers as it asked queries, those still waiting counted: no query is
    answered twice, and no client gets an answer under an id it did not use.
    While nothing throws and the proxy is not stopped none is lost either:
    the answers sent and the queries waiting are exactly the queries asked. *)
Theorem answers_accounted decode encode es :
  codec_ok decode encode ->
  let '(s, outs) := run decode encode es initial in
  (forall k, (answered outs k + waiting s k <= asked_all decode encode es initial k)%nat)
  /\ (runs_on encode es -> forall k, (answered outs k + waiting s k = asked_all decode encode es initial k)%nat).
Proof.
  intros Hc. pose proof (run_account decode encode Hc es) as H. destruct (run decode encode es initial) as [s outs].
  destruct H as (_ & Ha & Hl). split; [done|]. intros Hr. by apply Hl.
Qed.

(** C19. Every query is answered, in a run in which the proxy is not stopped
    (stopping or rebinding it drops the pending queries without an answer) and
    dns-packet encodes the packets the proxy builds: once the timers set have
    fired and the requests to the forwarder have settled, which the runtime
    does within their deadlines, each asker has been sent exactly one answer
    for each query. *)
Theorem every_query_answered decode encode env es :
  codec_ok decode encode -> runs_on encode es ->
  let '(s, outs) := run decode encode es initial in
  let '(_, outs') := run decode encode (settle_all env s) s in
  forall k, (answered (outs ++ outs') k = asked_all decode encode es initial k)%nat.
Proof.
  intros Hc [He Hstop]. destruct none_waiting_initial as (Hid & Ho & H0).
  pose proof (run_ok decode encode Hc es initial inv_initial Hid) as H.
  destruct (run decode encode es initial) as [s outs] eqn:Er. destruct H as (Hi & Hids & _ & Hl).
  destruct Hl as [Hopen Hk]; [done|done|].
  assert (forall e, e ∈ settle_all env s -> match e with Query _ _ _ | Stop => False | _ => True end) as Hq.
  { intros e. unfold settle_all. rewrite elem_of_app, list_elem_of_In, in_map_iff. intros [(t & <- & _)|Hin]; [done|].
    apply list_elem_of_In, repeat_spec in Hin as ->. done. }
  pose proof (run_ok decode encode Hc (settle_all env s) s Hi Hids) as H.
  pose proof (settled decode encode Hc env s Hi Hids) as Hw.
  destruct (run decode encode (settle_all env s) s) as [s' outs'] eqn:Er'. destruct H as (_ & _ & _ & Hl').
  destruct Hl' as [_ Hk']; [split; [done|by intros ?%Hq]|done|].
  intros k. rewrite answered_app. specialize (Hk k). specialize (Hk' k). specialize (Hw k). simpl in Hw.
  rewrite asked_all_quiet in Hk'; [|intros e He'; specialize (Hq e He'); by destruct e]. rewrite H0 in Hk. lia.
Qed.

(** C26. The proxy never has more than MAX_PENDING_QUERIES queries pending,
    and a query it forwards always gets an internal id no pending query has:
    the scan for a free id, and the branch for when none is, cannot come back
    empty. Each pending query has a timer of its own, so a timer that fires
    gives up on the query it was set for and on no other. *)
Theorem ids_never_run_out decode encode es :
  codec_ok decode encode ->
  let '(s, _) := run decode encode es initial in
  Z.of_nat (size (pendingQueries s)) <= MAX_PENDING_QUERIES
  /\ (Z.of_nat (size (pendingQueries s)) < MAX_PENDING_QUERIES ->
      exists id, allocateQueryId s = (Some id, with_next id s) /\ pendingQueries s !! id = None /\ 0 <= id < 65536)
  /\ forall t id, timers s !! t = Some id <-> exists p, pendingQueries s !! id = Some p /\ p_timer p = t.
Proof.
  intros Hc. pose proof (run_account decode encode Hc es) as H. destruct (run decode encode es initial) as [s outs].
  destruct H as (Hi & _). split_and!; [apply Hi|by apply allocate_spec|apply Hi].
Qed.

(** ** A codec for the witnesses *)

(** A message is its id, the byte of its flags and its rcode; it asks for and
    answers one name. *)
Definition toy_decode (b : bytes) : option Message :=
  match b with
  | x :: y :: rest =>
      let id := be_value [x; y] in
      if (0 <=? id) && (id <? 65536) then
        Some (mkMessage id (default 0 (rest !! 0%nat) * 256 + default 0 (rest !! 1%nat)) "NOERROR" false
                [mkQuestion "www.example.com" "A"] [mkAnswer "A" "www.example.com" 60 "203.0.113.7"] [])
      else None
  | _ => None
  end.
Definition toy_encode (m : Message) : option bytes :=
  if (0 <=? m_id m) && (m_id m <? 65536) then Some (uint16be (m_id m) ++ [1; Z.land (m_flags m) 15]) else None.

Lemma toy_codec : codec_ok toy_decode toy_encode.
Proof.
  split.
  - intros [|x [|y rest]] m H; [done|done|]. unfold toy_decode in H.
    destruct (_ && _) eqn:E; [|done]. injection H as <-. apply andb_true_iff in E as [?%Z.leb_le ?%Z.ltb_lt].
    split; [simpl; lia|split; [done|]]. unfold id_of, readUInt16BE. change (x :: y :: rest) with ([] ++ [x; y] ++ rest).
    by rewrite (readUIntBE_mid [] [x; y] rest 0 2 eq_refl eq_refl).
  - intros m b Hm H. unfold toy_encode in H. destruct (_ && _); [|done]. injection H as <-.
    by apply id_of_written.
Qed.

Lemma toy_encodes : encodes toy_encode.
Proof.
  intros m [H1 H2]. unfold toy_encode. destruct (Z.leb_spec 0 (m_id m)); [|lia]. destruct (Z.ltb_spec (m_id m) 65536); [|lia]. by eexists.
Qed.

Definition toy_env : Env := mkEnv initial_policy (Blocklist.mkDb ∅ ∅ ∅) 0 (fun _ => None) true false [] false 5353.

(** Two clients ask under the same id; one query is answered, one times out,
    and a stray answer comes in. *)
Definition alice : Client := mkClient 0 "10.0.0.9" 4000.
Definition bob : Client := mkClient 0 "10.0.0.8" 4000.
Definition evening : list event :=
  [Start 1; Query toy_env alice [0; 7; 1; 0]; Query toy_env bob [0; 7; 1; 0]; BackendAnswer toy_env [0; 3; 129; 128];
   BackendAnswer toy_env [0; 3; 129; 128]; Timer 0].

Lemma evening_runs_on : runs_on toy_encode evening.
Proof.
  split; [exact toy_encodes|]. intros H. unfold evening in H.
  repeat (apply elem_of_cons in H as [H|H]; [discriminate H|]). by apply not_elem_of_nil in H.
Qed.

Lemma answers_accounted_witness :
  let r := run toy_decode toy_encode evening initial in
  (answered r.2 (alice, 7%Z) + waiting r.1 (alice, 7%Z) = 1)%nat /\ (answered r.2 (bob, 7%Z) + waiting r.1 (bob, 7%Z) = 1)%nat.
Proof.
  intros r. pose proof (answers_accounted toy_decode toy_encode evening toy_codec) as H.
  destruct (run toy_decode toy_encode evening initial) as [s outs] eqn:E. destruct H as [_ H]. subst r. cbn [fst snd].
  rewrite !(H evening_runs_on). split; vm_compute; reflexivity.
Defined.

Lemma every_query_answered_witness :
  let es := take 3 evening in
  let r := run toy_decode toy_encode es initial in
  (answered (r.2 ++ (run toy_decode toy_encode (settle_all toy_env r.1) r.1).2) (bob, 7%Z) = 1)%nat.
Proof.
  intros es r. assert (runs_on toy_encode es) as Hr.
  { split; [exact toy_encodes|]. intros H. repeat (apply elem_of_cons in H as [H|H]; [discriminate H|]). by apply not_elem_of_nil in H. }
  pose proof (every_query_answered toy_decode toy_encode toy_env es toy_codec Hr) as H. subst r.
  destruct (run toy_decode toy_encode es initial) as [s outs] eqn:E. cbn [fst snd].
  destruct (run toy_decode toy_encode (settle_all toy_env s) s) as [s' outs']. cbn [snd].
  rewrite H. vm_compute. reflexivity.
Defined.

Lemma ids_never_run_out_witness :
  let s := (run toy_decode toy_encode evening initial).1 in
  exists id, allocateQueryId s = (Some id, with_next id s) /\ pendingQueries s !! id = None.
Proof.
  intros s. pose proof (ids_never_run_out toy_decode toy_encode evening toy_codec) as H. subst s.
  destruct (run toy_decode toy_encode evening initial) as [s outs] eqn:E. cbn [fst].
  destruct H as (_ & H & _). destruct H as (id & Ha & Hn & _); [|by exists id].
  vm_compute in E. injection E as <- _. vm_compute. reflexivity.
Defined.
