(* ===== verification/DnsProxyTcp.v ===== *)
(** * The DNS proxy over TCP: [server/src/utils/dns-proxy.js]

    A client connection is deframed and each message on it handled on its
    own; a query not blocked is relayed to the DNS backend over a connection
    of its own, id and all, and the answer is checked as over UDP. The
    module's state is that of [DnsProxy]; the client connections and their
    count are here. A handler is cut at its [await]s. *)

From S2P Require Import Prelude JsString Address Bytes DnsWire DnsNames FilterPolicy DnsAnswers DnsProxy DnsProxyFacts.
From S2P Require Blocklist.

(** ** One query *)

(** What [handleTcpQuery] holds across its [await]s. *)
Record TcpQuery := mkTcpQuery { t_msg : bytes; t_query : Message; t_clientIp : string; t_name : option string; t_type : string }.

Section codec.

Context (decode : bytes -> option Message) (encode : Message -> option bytes).

(** [writeTcpMessage], of a payload the encoder may have refused to make. *)
Definition writeTcpMessage (writable : bool) (payload : bytes) : list bytes :=
  if writable then match frameTcpMessage payload with Ok f => [f] | Err _ => [] end else [].

(** The start, up to the relay: the frames written, what is recorded, and the
    query to relay. An encoder that throws rejects the handler's promise. *)
Definition tcp_receive (env : Env) (address : string) (writable : bool) (msg : bytes) (s : State)
    : State * list bytes * list Out * option TcpQuery :=
  match decode msg with
  | None => (s, [], [], None)
  | Some query =>
      let clientIp := clientIpOf address in
      let queryName := queryNameOf query in
      let queryType := queryTypeOf query in
      match evaluateInboundPolicy (policy env) (blocklists env) (now env) queryName clientIp with
      | Some inbound =>
          let s := with_stats (recordInboundBlock inbound) s in
          let said := [Seen clientIp; Resolution "blocklist" (default "" queryName) queryType None] in
          match encode (blockedResponse (policy env) (asked_of query)) with
          | None => (s, [], said, None)
          | Some b =>
              (s, writeTcpMessage writable b,
               said ++ [Noted (mkEntry clientIp (default "" queryName) queryType (responseCode inbound) BlockedBlocklist (Some (blockReason inbound)) None None None None)], None)
          end
      | None => (s, [], [Seen clientIp], Some (mkTcpQuery msg query clientIp queryName queryType))
      end
  end.

(** What is relayed, and what is asked of the forwarder. *)
Definition relayed (q : TcpQuery) : bytes := withRecursionDesired (t_msg q).

(** The backend answered, or did not: is the forwarder asked? *)
Definition tcp_relayed (env : Env) (q : TcpQuery) (resp : option bytes) (s : State) : bool * State :=
  match resp with
  | Some r => wantsUnknownRetry env (decode r) (default "" (t_name q)) s
  | None => (false, s)
  end.

(** [retried || respMsg] *)
Definition settle_answer (resp retried : option bytes) : option bytes := match retried with Some r => Some r | None => resp end.

(** The end: the frames written and what is recorded. *)
Definition tcp_deliver (env : Env) (writable : bool) (q : TcpQuery) (resp : option bytes) (s : State) : State * list bytes * list Out :=
  let name := default "" (t_name q) in
  match resp with
  | None =>
      let s := with_stats (fun st => count_total (count_timeout st)) s in
      match encode (servfail (asked_of (t_query q))) with
      | None => (s, [], [])
      | Some b =>
          let '(ede, failure, f) := noteAnswer None true (failures s) in
          (with_failures f s, writeTcpMessage writable b,
           [Noted (mkEntry (t_clientIp q) name (t_type q) "SERVFAIL" Allowed None None None ede failure)])
      end
  | Some r =>
      let response := decode r in
      let ips := match response with Some m => addressesOf m | None => [] end in
      match verdict env (t_name q) ips (t_clientIp q) with
      | ResolvedBlock reason codes destination =>
          let s := with_stats (recordResolvedBlock codes) s in
          let said := Resolution "geoip" name (t_type q) (dest_country <$> destination) in
          match encode (nxdomainResponse (asked_of (t_query q))) with
          | None => (s, [], [said])
          | Some b => (s, writeTcpMessage writable b, [said; Noted (mkEntry (t_clientIp q) name (t_type q) "NXDOMAIN" BlockedGeoip (Some reason) (head ips) None None None)])
          end
      | ResolvedForward destination =>
          let s := with_stats (fun st => count_total (count_allowed st)) s in
          let '(ede, failure, f) := noteAnswer response false (failures s) in
          let rcode := match response with Some m => if String.eqb (m_rcode m) "" then "UNKNOWN" else m_rcode m | None => "UNKNOWN" end in
          (with_failures f s, writeTcpMessage writable (withClientRd r (asksRecursion (t_msg q))),
           [Resolution "answer" name (t_type q) (dest_country <$> destination);
            Noted (mkEntry (t_clientIp q) name (t_type q) rcode Allowed None (head ips)
              (classifyDnssecSupport response (dnssec_enabled env) (flag_cd (t_query q))) ede failure)])
      end
  end.

End codec.

(** ** The relay's connection *)

(** [relayQueryOverTcp]: the chunks received until the connection ends or
    times out; the answer, when a whole message came. *)
Fixpoint relay_data (respBuf : bytes) (chunks : list bytes) : option bytes :=
  match chunks with
  | [] => None
  | chunk :: chunks =>
      let respBuf := respBuf ++ chunk in
      if blength respBuf <? 2 then relay_data respBuf chunks
      else match readUInt16BE respBuf 0 with
      | Err _ => None
      | Ok respLen =>
          if blength respBuf <? 2 + respLen then relay_data respBuf chunks
          else Some (subarray respBuf 2 (2 + respLen))
      end
  end.

(** ** The client connections *)

Definition PROXY_MAX_TCP_CONNECTIONS : Z := 1000.

(** The open connections, each with the bytes not yet deframed. *)
Record Connections := mkConnections { activeTcpConnections : Z; open_conns : gmap nat bytes }.

Definition no_connections : Connections := mkConnections 0 ∅.

Inductive conn_event :=
| Accept (i : nat)
| Data (i : nat) (chunk : bytes)
| Ended (i : nat)       (** timeout, error or close *)
| Stopped.              (** [stopProxy] *)

(** [cleanup], once per connection. *)
Definition cleanup (i : nat) (c : Connections) : Connections :=
  match open_conns c !! i with
  | Some _ => mkConnections (activeTcpConnections c - 1) (delete i (open_conns c))
  | None => c
  end.

(** The connections after, and the messages to handle. A server that is
    closed accepts no more and leaves its connections open. *)
Definition conn_step (e : conn_event) (c : Connections) : Connections * list bytes :=
  match e with
  | Accept i =>
      if PROXY_MAX_TCP_CONNECTIONS <=? activeTcpConnections c then (c, [])
      else (mkConnections (activeTcpConnections c + 1) (<[i := []]> (open_conns c)), [])
  | Data i chunk =>
      match open_conns c !! i with
      | None => (c, [])
      | Some buf =>
          let '(messages, rest) := extractTcpMessages (buf ++ chunk) in
          let c := mkConnections (activeTcpConnections c) (<[i := rest]> (open_conns c)) in
          (if 65535 + 2 <? blength rest then cleanup i c else c, messages)
      end
  | Ended i => (cleanup i c, [])
  | Stopped => (mkConnections 0 (open_conns c), [])
  end.

Definition conn_run (es : list conn_event) (c : Connections) : Connections := fold_left (fun c e => (conn_step e c).1) es c.

(** Each connection is accepted once. *)
Definition fresh (es : list conn_event) : Prop := NoDup (omap (fun e => match e with Accept i => Some i | _ => None end) es).

(** ** Lemmas: headers *)

Lemma header_split (b : bytes) : (2 <= length b)%nat -> exists x y l, b = x :: y :: l.
Proof. destruct b as [|x [|y l]]; simpl; intros; [lia|lia|eauto]. Qed.

Lemma id_of_cons x y l : id_of (x :: y :: l) = Some (be_value [x; y]).
Proof.
  unfold id_of. change (x :: y :: l) with ([] ++ [x; y] ++ l). unfold readUInt16BE.
  by rewrite (readUIntBE_mid [] [x; y] l 0 2 eq_refl eq_refl).
Qed.

Lemma write_cons x y l v : write_at (x :: y :: l) 0 (uint16be v) = uint16be v ++ l.
Proof. unfold write_at. rewrite take_0. unfold uint16be. rewrite length_be_bytes. done. Qed.

Lemma uint16_cons v : exists a b, uint16be v = [a; b].
Proof.
  pose proof (length_be_bytes 2 v) as H. unfold uint16be in *. destruct (be_bytes 2 v) as [|a [|b [|? ?]]]; simpl in H; try lia. eauto.
Qed.

(** The id is put back under the client's own flag. *)
Lemma id_restored r r' id orig rd :
  Forall byte r -> (2 <= length r)%nat -> id_of r = Some orig -> writeId r id = Some r' ->
  writeId (withClientRd r' rd) orig = Some (withClientRd r rd).
Proof.
  intros Hb Hl Ho Hw. destruct (header_split r Hl) as (x & y & l & ->).
  assert (Forall byte [x; y]) as Hxy by (inversion_clear Hb as [|? ? Hx Hb']; inversion_clear Hb' as [|? ? Hy Hb'']; exact (Forall_cons_2 _ _ _ Hx (Forall_cons_2 _ _ _ Hy (Forall_nil_2 _)))).
  rewrite id_of_cons in Ho. injection Ho as <-.
  assert (uint16be (be_value [x; y]) = [x; y]) as Hback by exact (be_bytes_value [x; y] Hxy).
  pose proof (be_value_bound [x; y] Hxy) as Hbound. change (256 ^ Z.of_nat (length [x; y])) with 65536 in Hbound.
  unfold writeId in Hw. destruct (_ && _); [|done]. injection Hw as <-. rewrite write_cons.
  destruct (uint16_cons id) as (a & b & ->).
  assert (forall u v, withClientRd (u :: v :: l) rd = u :: v :: tail (tail (withClientRd (x :: y :: l) rd))) as Hrd.
  { intros u v. unfold withClientRd. cbn [lookup list_lookup]. destruct l as [|z l]; [done|]. done. }
  simpl app. rewrite Hrd, (Hrd x y). unfold writeId. simpl length.
  destruct (Z.leb_spec 0 (be_value [x; y])); [|lia]. destruct (Z.ltb_spec (be_value [x; y]) 65536); [|lia].
  simpl andb. cbn iota. rewrite write_cons, Hback. done.
Qed.

(** ** Both transports answer alike *)

(** What a client is sent over UDP. *)
Definition payloads (outs : list Out) : list bytes := omap (fun o => match o with ToClient _ b => Some b | _ => None end) outs.
Definition framed (l : list bytes) : list bytes := flat_map (writeTcpMessage true) l.

Lemma verdict_name env name ips clientIp : verdict env (Some (default "" name)) ips clientIp = verdict env name ips clientIp.
Proof.
  destruct name as [n|]; [done|]. unfold verdict, evaluateResolvedPolicy. destruct ips; [done|].
  destruct (filteringBypass _ _ _); [done|]. destruct (blockingCountryCodes _ _); [done|].
  unfold isAllowlisted. destruct (allowlistSet _); [|done]. simpl. by rewrite andb_false_r.
Qed.

(** The entry a query is kept under over UDP, and over TCP. *)
Definition udp_entry (env : Env) (c : Client) (msg : bytes) (q : Message) (t : nat) : Pending :=
  mkPending c (clientIpOf (c_address c)) (m_id q) (default "" (queryNameOf q)) (queryTypeOf q) (flag_cd q) (getQueryOpt q) msg (asksRecursion msg) t (now env).
Definition tcp_entry (c : Client) (msg : bytes) (q : Message) : TcpQuery :=
  mkTcpQuery msg q (clientIpOf (c_address c)) (queryNameOf q) (queryTypeOf q).

(** The same answer of the backend, under the client's id in [r] and under
    another in [r']; the backend repeats the question. *)
Record same_answer (decode : bytes -> option Message) (q : Message) (r r' : bytes) (m m' : Message) : Prop := {
  sa_tcp : decode r = Some m;
  sa_udp : decode r' = Some m';
  sa_bytes : Forall byte r;
  sa_id : id_of r = Some (m_id q);
  sa_other : exists id, writeId r id = Some r';
  sa_answers : answers m' = answers m;
  sa_questions : questions m' = questions q }.

Lemma payloads_send s c b rest : payloads rest = [] -> c_sock c ∈ sockets s -> payloads (sent_then (send s c b) rest) = match b with Some b => [b] | None => [] end.
Proof. intros Hr Hs. unfold send. destruct b; [|done]. rewrite bool_decide_true by done. simpl. by rewrite Hr. Qed.

(** What the client is to be sent for the backend's answer [r]: its own id,
    and either an NXDOMAIN that repeats the question, or [r] but for the bit
    of recursion desired, which is the client's. *)
Definition right_answer (encode : Message -> option bytes) (msg : bytes) (q : Message) (r : bytes) (blocked : bool) (b : bytes) : Prop :=
  id_of b = Some (m_id q)
  /\ if blocked then exists a, encode a = Some b /\ m_id a = m_id q /\ wire_rcode a = 3 /\ questions a = questions q /\ answers a = []
     else withRecursionDesired b = withRecursionDesired r /\ ((3 <= length r)%nat -> asksRecursion b = asksRecursion msg).

Definition is_block (v : ResolvedVerdict unit) : bool := match v with ResolvedBlock _ _ _ => true | _ => false end.

Lemma client_rd r rd :
  Forall byte r -> withRecursionDesired (withClientRd r rd) = withRecursionDesired r
  /\ ((3 <= length r)%nat -> asksRecursion (withClientRd r rd) = rd).
Proof.
  intros Hb. destruct r as [|x [|y [|z l]]]; [by split; [|cbn; lia]..|].
  unfold withClientRd, withRecursionDesired, asksRecursion. cbn [lookup list_lookup insert list_insert].
  set (z' := Z.lor (Z.land z (Z.lnot RD_BIT)) (if rd then RD_BIT else 0)). split.
  - do 3 f_equal. subst z'. apply Z.bits_inj'. intros n Hn. destruct rd; rewrite !Z.lor_spec, Z.land_spec, Z.lnot_spec, ?Z.bits_0 by done;
      by destruct (Z.testbit z n), (Z.testbit RD_BIT n).
  - intros _. subst z'. rewrite Z.land_lor_distr_l, <- Z.land_assoc, (Z.land_comm (Z.lnot _)), Z.land_lnot_diag, Z.land_0_r, Z.lor_0_l.
    by destruct rd.
Qed.

Lemma id_client_rd r rd : (2 <= length r)%nat -> id_of (withClientRd r rd) = id_of r.
Proof.
  intros Hl. destruct (header_split r Hl) as (x & y & l & ->). destruct l as [|z l]; [done|].
  unfold withClientRd. cbn [lookup list_lookup insert list_insert]. by rewrite !id_of_cons.
Qed.

Section both.

Context (decode : bytes -> option Message) (encode : Message -> option bytes) (Hc : codec_ok decode encode).
Context (c : Client) (msg : bytes) (q : Message) (Hq : decode msg = Some q).

(** A query that is not blocked goes to the backend under an id of the
    proxy's own. *)
Lemma query_forwarded env s :
  inv s -> Z.of_nat (size (pendingQueries s)) < MAX_PENDING_QUERIES ->
  evaluateInboundPolicy (policy env) (blocklists env) (now env) (queryNameOf q) (clientIpOf (c_address c)) = None ->
  exists id b, writeId (withRecursionDesired msg) id = Some b
    /\ (handleQuery decode encode env c msg s).2 = [Seen (clientIpOf (c_address c)); ToBackend (internal_port env) b]
    /\ pendingQueries s !! id = None
    /\ pendingQueries (handleQuery decode encode env c msg s).1 !! id = Some (udp_entry env c msg q (nextTimer s)).
Proof.
  intros Hi Hsz Hv. destruct (allocate_spec s Hi Hsz) as (id & Ha & Hn & Hr).
  unfold handleQuery. rewrite Hq, Hv. destruct (Z.leb_spec MAX_PENDING_QUERIES (Z.of_nat (size (pendingQueries s)))); [lia|]. rewrite Ha. cbn.
  assert (exists b, writeId (withRecursionDesired msg) id = Some b) as [b Hb].
  { destruct (decode_header _ _ Hc _ _ Hq) as [Hl _]. unfold writeId.
    assert (length (withRecursionDesired msg) = length msg) as -> by (unfold withRecursionDesired; destruct (msg !! 2%nat); [by rewrite length_insert|done]).
    destruct (Nat.leb_spec 2 (length msg)); [|lia]. destruct (Z.leb_spec 0 id); [|lia]. destruct (Z.ltb_spec id 65536); [|lia]. by eexists. }
  exists id, b. rewrite Hb. split_and!; [done|done|done|]. by rewrite lookup_insert_eq.
Qed.

(** Over both transports the answer of the backend becomes the same bytes. *)
Lemma answer_delivered env' env t s ts r r' m m' :
  c_sock c ∈ sockets s -> same_answer decode q r r' m m' ->
  let blocked := is_block (verdict env' (queryNameOf q) (addressesOf m) (clientIpOf (c_address c))) in
  exists out, payloads (deliverResponse encode env' (udp_entry env c msg q t) r' m' s).2 = option_list out
    /\ (tcp_deliver decode encode env' true (tcp_entry c msg q) (Some r) ts).1.2 = framed (option_list out)
    /\ match out with Some b => right_answer encode msg q r blocked b | None => blocked = true /\ encode (nxdomainResponse (asked_of q)) = None end.
Proof.
  intros Hs [Htcp Hudp Hbytes Hid [id Hw] Hans Hqs]. destruct (decode_header _ _ Hc _ _ Htcp) as [Hl _].
  unfold tcp_deliver, deliverResponse. rewrite Htcp. cbn [t_name t_clientIp t_query t_msg tcp_entry udp_entry p_queryName p_clientIp p_originalId p_clientRd p_opt p_client p_queryType p_checkingDisabled].
  rewrite verdict_name. assert (addressesOf m' = addressesOf m) as -> by (unfold addressesOf; by rewrite Hans).
  destruct (verdict env' (queryNameOf q) (addressesOf m) _) as [dest|reason codes dest]; cbn [is_block].
  - exists (Some (withClientRd r (asksRecursion msg))). rewrite (id_restored r r' id (m_id q)) by done.
    destruct (noteAnswer (Some m) false (failures _)) as [[ede failure] f].
    unfold send. rewrite bool_decide_true by done. destruct (noteAnswer _ _ _) as [[? ?] ?].
    split_and!; [done|unfold framed; simpl; by rewrite app_nil_r|]. unfold right_answer. rewrite id_client_rd by done.
    split; [done|]. by apply client_rd.
  - exists (encode (nxdomainResponse (asked_of q))).
    change (payloads ((?a, Resolution ?b ?d ?e ?f :: ?l).2)) with (payloads l). rewrite payloads_send by done.
    unfold asked_of. rewrite Hqs. destruct (encode _) as [b|] eqn:Hb; [|by split_and!].
    split_and!; [done|unfold framed; simpl; by rewrite app_nil_r|]. split.
    + apply (encode_header _ _ Hc) in Hb; [done|]. by destruct (decode_header _ _ Hc _ _ Hq) as (_ & ? & _).
    + by eexists.
Qed.

End both.

(** C20. One policy, two transports. Take a query, and any state the proxy can
    be in with the client's socket open. If the blocklist stops the query,
    both transports answer it themselves, with the same bytes. If not, both
    pass it to the backend with recursion asked for, over UDP under an
    internal id kept with the client's own; only when MAX_PENDING_QUERIES are
    waiting does UDP, alone, answer SERVFAIL instead. And when the backend
    gives both the same answer (the same bytes but for the id, decoded to the
    same records, repeating the question), both send the client the same
    bytes: under the client's own id either an NXDOMAIN that repeats its
    question, if a country of the answer is blocked, or the backend's bytes
    with the client's recursion bit. The one way to send nothing is an
    encoder that refuses to make an answer. *)
Theorem transports_agree decode encode env c msg q es ts :
  let s := (run decode encode es initial).1 in
  codec_ok decode encode -> decode msg = Some q -> c_sock c ∈ sockets s ->
  let udp := handleQuery decode encode env c msg s in
  let '(_, frames, _, rest) := tcp_receive decode encode env (c_address c) true msg ts in
  match evaluateInboundPolicy (policy env) (blocklists env) (now env) (queryNameOf q) (clientIpOf (c_address c)) with
  | Some _ =>
      rest = None /\ payloads udp.2 = option_list (encode (blockedResponse (policy env) (asked_of q))) /\ frames = framed (payloads udp.2)
  | None =>
      frames = [] /\ rest = Some (tcp_entry c msg q) /\ relayed (tcp_entry c msg q) = withRecursionDesired msg
      /\ if MAX_PENDING_QUERIES <=? Z.of_nat (size (pendingQueries s))
         then payloads udp.2 = option_list (encode (servfail (asked_of q)))
         else exists id b, writeId (withRecursionDesired msg) id = Some b
           /\ udp.2 = [Seen (clientIpOf (c_address c)); ToBackend (internal_port env) b]
           /\ pendingQueries s !! id = None /\ pendingQueries udp.1 !! id = Some (udp_entry env c msg q (nextTimer s))
  end
  /\ forall env' t r r' m m', same_answer decode q r r' m m' ->
     let blocked := is_block (verdict env' (queryNameOf q) (addressesOf m) (clientIpOf (c_address c))) in
     exists out, payloads (deliverResponse encode env' (udp_entry env c msg q t) r' m' s).2 = option_list out
       /\ (tcp_deliver decode encode env' true (tcp_entry c msg q) (Some r) ts).1.2 = framed (option_list out)
       /\ match out with Some b => right_answer encode msg q r blocked b | None => blocked = true /\ encode (nxdomainResponse (asked_of q)) = None end.
Proof.
  intros s Hc Hq Hs udp. pose proof (run_account decode encode Hc es) as Hrun. subst s.
  destruct (run decode encode es initial) as [s outs]. destruct Hrun as (Hi & _). cbn [fst] in *.
  destruct (tcp_receive _ _ _ _ _ _ _) as [[[ts' frames] said] rest] eqn:Et. unfold tcp_receive in Et. rewrite Hq in Et.
  split; [|intros; by eapply answer_delivered].
  destruct (evaluateInboundPolicy _ _ _ _ _) as [v|] eqn:Hv.
  - assert (payloads udp.2 = option_list (encode (blockedResponse (policy env) (asked_of q)))) as Hp.
    { subst udp. unfold handleQuery. rewrite Hq, Hv. cbn [snd].
      change (payloads (Seen ?a :: Resolution ?b ?d ?e ?f :: ?l)) with (payloads l). by rewrite payloads_send. }
    rewrite Hp. destruct (encode _); injection Et as _ <- _ <-; split_and!; try done. unfold framed. simpl. by rewrite app_nil_r.
  - injection Et as _ <- _ <-. split_and!; [done..|].
    destruct (Z.leb_spec MAX_PENDING_QUERIES (Z.of_nat (size (pendingQueries s)))) as [Hsz|Hsz].
    + subst udp. unfold handleQuery. rewrite Hq, Hv. destruct (Z.leb_spec MAX_PENDING_QUERIES (Z.of_nat (size (pendingQueries s)))); [|lia]. cbn [snd].
      change (payloads (Seen ?a :: ?l)) with (payloads l). by rewrite payloads_send.
    + by apply query_forwarded.
Qed.

(** ** The relay's answer *)

Lemma read_prefix x y : 2 <= blength x -> readUInt16BE (x ++ y) 0 = readUInt16BE x 0.
Proof.
  intros H. destruct (header_split x) as (a & b & l & ->); [unfold blength in H; lia|].
  unfold readUInt16BE. change ((a :: b :: l) ++ y) with ([] ++ [a; b] ++ (l ++ y)). change (a :: b :: l) with ([] ++ [a; b] ++ l).
  by rewrite !(readUIntBE_mid [] [a; b] _ 0 2 eq_refl eq_refl).
Qed.

Lemma subarray_prefix x y n : 0 <= n -> 2 + n <= blength x -> subarray (x ++ y) 2 (2 + n) = subarray x 2 (2 + n).
Proof.
  intros Hn H. unfold subarray, blength in *. rewrite drop_app_le by lia. rewrite take_app_le; [done|]. rewrite length_drop. lia.
Qed.

(** The first message of a stream. *)
Definition first_message (stream : bytes) : option bytes := head (fst (extractTcpMessages stream)).

Lemma first_message_eq stream n :
  2 <= blength stream -> readUInt16BE stream 0 = Ok n ->
  first_message stream = if blength stream <? 2 + n then None else Some (subarray stream 2 (2 + n)).
Proof.
  intros Hl Hr. unfold first_message, extractTcpMessages. destruct (length stream) as [|k] eqn:E; [unfold blength in Hl; lia|].
  cbn [extract_loop]. destruct (Z.leb_spec 2 (blength stream)); [|lia]. rewrite Hr.
  destruct (_ <? _); [done|]. by destruct (extract_loop _ _).
Qed.

Lemma first_message_short stream : blength stream < 2 -> first_message stream = None.
Proof.
  intros H. unfold first_message, extractTcpMessages. destruct (length stream); [done|]. cbn [extract_loop].
  destruct (Z.leb_spec 2 (blength stream)); [lia|done].
Qed.

Lemma read_ok stream : 2 <= blength stream -> Forall byte stream -> exists n, readUInt16BE stream 0 = Ok n /\ 0 <= n < 65536.
Proof.
  intros Hl Hb. destruct (header_split stream) as (a & b & l & ->); [unfold blength in Hl; lia|].
  exists (be_value [a; b]). split.
  - unfold readUInt16BE. change (a :: b :: l) with ([] ++ [a; b] ++ l). by rewrite (readUIntBE_mid [] [a; b] l 0 2 eq_refl eq_refl).
  - apply (be_value_bound [a; b]). inversion_clear Hb as [|? ? Hx Hb']. inversion_clear Hb' as [|? ? Hy Hb''].
    exact (Forall_cons_2 _ _ _ Hx (Forall_cons_2 _ _ _ Hy (Forall_nil_2 _))).
Qed.

(** However the backend's answer is cut into segments, the relay resolves
    with the first message of what came. *)
Lemma relay_segmentation buf chunks :
  Forall byte (buf ++ concat chunks) -> first_message buf = None -> relay_data buf chunks = first_message (buf ++ concat chunks).
Proof.
  revert buf. induction chunks as [|chunk chunks IH]; intros buf Hb Hn; [simpl; by rewrite app_nil_r|].
  cbn [relay_data]. cbn [concat] in Hb |- *. rewrite app_assoc in Hb |- *.
  assert (Forall byte (buf ++ chunk)) as Hb1 by (by apply Forall_app in Hb as [? _]).
  destruct (Z.ltb_spec (blength (buf ++ chunk)) 2) as [Hs|Hs]; [apply IH; [done|by apply first_message_short]|].
  destruct (read_ok _ Hs Hb1) as (n & Hr & Hn0). rewrite Hr.
  destruct (Z.ltb_spec (blength (buf ++ chunk)) (2 + n)) as [Hi|Hi].
  - apply IH; [done|]. rewrite (first_message_eq _ n) by done. destruct (Z.ltb_spec (blength (buf ++ chunk)) (2 + n)); [done|lia].
  - assert (blength (buf ++ chunk) <= blength ((buf ++ chunk) ++ concat chunks)) by (unfold blength; rewrite (length_app (buf ++ chunk)); lia).
    rewrite (first_message_eq _ n); [|lia|by rewrite read_prefix].
    destruct (Z.ltb_spec (blength ((buf ++ chunk) ++ concat chunks)) (2 + n)); [lia|]. by rewrite (subarray_prefix (buf ++ chunk) (concat chunks)) by lia.
Qed.

(** ** Connections *)

(** What is left after deframing is never as long as the guard against a
    peer that announces more than it sends asks for: the guard is dead. *)
Lemma oversize_guard_dead buf : Forall byte buf -> blength (extractTcpMessages buf).2 < 65535 + 2.
Proof.
  intros Hb. destruct (splits_exists buf Hb) as (ms & rest & Hs). rewrite (extractTcpMessages_splits _ _ _ Hs). simpl.
  assert (Forall byte rest) as Hr by (rewrite (sp_stream _ _ _ Hs) in Hb; by apply Forall_app in Hb as [_ ?]).
  destruct (sp_rest _ _ _ Hs) as [H|(n & Hn & H)]; [lia|].
  destruct (Z.leb_spec 2 (blength rest)) as [Hl|Hl]; [|lia].
  destruct (read_ok rest Hl Hr) as (n' & Hn' & Hb'). assert (n = n') by congruence. lia.
Qed.

(** The count is the number of connections open, and within the cap. *)
Definition counted (c : Connections) : Prop :=
  activeTcpConnections c = Z.of_nat (size (open_conns c)) /\ activeTcpConnections c <= PROXY_MAX_TCP_CONNECTIONS.

Lemma cleanup_counted i c : counted c -> counted (cleanup i c).
Proof.
  intros [Ha Hc]. unfold cleanup. destruct (open_conns c !! i) as [b|] eqn:E; [|done]. split; simpl; [|lia].
  rewrite map_size_delete_Some by done. assert (size (open_conns c) <> 0%nat); [|lia].
  intros H0. apply map_size_empty_inv in H0. by rewrite H0 in E.
Qed.

Lemma conn_step_counted e c : e <> Stopped -> (forall i, e = Accept i -> open_conns c !! i = None) -> counted c -> counted (conn_step e c).1.
Proof.
  intros Hne Hnew Hc. destruct e as [i|i chunk|i|]; simpl; [| |by apply cleanup_counted|done].
  - destruct (Z.leb_spec PROXY_MAX_TCP_CONNECTIONS (activeTcpConnections c)); [done|]. destruct Hc as [Ha Hm].
    split; simpl; [|lia]. rewrite map_size_insert_None by (by apply Hnew). lia.
  - destruct (open_conns c !! i) as [buf|] eqn:E; [|done]. destruct (extractTcpMessages _) as [ms rest].
    assert (counted (mkConnections (activeTcpConnections c) (<[i := rest]> (open_conns c)))) as H.
    { destruct Hc as [Ha Hm]. split; simpl; [|done]. rewrite map_size_insert_Some by eauto. done. }
    simpl. destruct (_ <? _); [by apply cleanup_counted|done].
Qed.

Definition accepts (e : conn_event) : option nat := match e with Accept i => Some i | _ => None end.

Lemma conn_keys e c j : is_Some (open_conns (conn_step e c).1 !! j) -> is_Some (open_conns c !! j) \/ e = Accept j.
Proof.
  assert (forall i c, is_Some (open_conns (cleanup i c) !! j) -> is_Some (open_conns c !! j)) as Hcl.
  { intros i c'. unfold cleanup. destruct (open_conns c' !! i); [|done]. simpl. rewrite lookup_delete_is_Some. naive_solver. }
  destruct e as [i|i chunk|i|]; simpl; [| |eauto|by left].
  - destruct (_ <=? _); [by left|]. simpl. rewrite lookup_insert_is_Some. intros [->|[_ H]]; [by right|by left].
  - destruct (open_conns c !! i) as [buf|] eqn:E; [|by left]. destruct (extractTcpMessages _) as [ms rest]. simpl.
    intros H. left. assert (is_Some (<[i := rest]> (open_conns c) !! j)) as H'.
    { destruct (_ <? _); [by apply Hcl in H|done]. }
    apply lookup_insert_is_Some in H' as [<-|[_ ?]]; [by eexists|done].
Qed.

Lemma conn_run_counted es c :
  Stopped ∉ es -> fresh es -> (forall i, Some i ∈ map accepts es -> open_conns c !! i = None) -> counted c -> counted (conn_run es c).
Proof.
  unfold conn_run, fresh. revert c. induction es as [|e es IH]; intros c Hs Hf Hn Hc; [done|].
  apply not_elem_of_cons in Hs as [Hne Hs]. cbn [fold_left].
  assert (NoDup (omap accepts es)) as Hf'.
  { simpl in Hf. destruct e; try done. by apply NoDup_cons in Hf as [_ ?]. }
  apply IH; [done|done| |].
  - intros i Hi. destruct (open_conns (conn_step e c).1 !! i) eqn:E; [exfalso|done].
    destruct (conn_keys e c i) as [[b Hb]| ->]; [by rewrite E| |].
    + rewrite Hn in Hb; [done|]. simpl. by right.
    + simpl in Hf. apply NoDup_cons in Hf as [Hf _]. apply Hf. apply list_elem_of_omap.
      apply list_elem_of_In, in_map_iff in Hi as (e & He & Hin). exists e. split; [by apply list_elem_of_In|done].
  - apply conn_step_counted; [congruence| |done]. intros i ->. apply Hn. simpl. by left.
Qed.

Lemma accept_run m k c :
  (forall i, (k <= i)%nat -> open_conns c !! i = None) -> activeTcpConnections c + Z.of_nat m <= PROXY_MAX_TCP_CONNECTIONS ->
  let c' := conn_run (map Accept (seq k m)) c in
  activeTcpConnections c' = activeTcpConnections c + Z.of_nat m
  /\ forall i, (i < k)%nat /\ is_Some (open_conns c !! i) \/ (k <= i < k + m)%nat -> is_Some (open_conns c' !! i).
Proof.
  unfold conn_run. revert k c. induction m as [|m IH]; intros k c Hfree Hle; [simpl; split; [lia|intros i [[_ ?]|?]; [done|lia]]|].
  cbn [seq map fold_left conn_step]. destruct (Z.leb_spec PROXY_MAX_TCP_CONNECTIONS (activeTcpConnections c)); [lia|]. cbn [fst].
  set (c1 := mkConnections _ _). destruct (IH (S k) c1) as [Ha Hi].
  - intros i Hi. simpl. rewrite lookup_insert_ne by lia. apply Hfree. lia.
  - simpl. lia.
  - split; [rewrite Ha; simpl; lia|]. intros i H0. apply Hi. simpl.
    destruct (decide (i = k)) as [->|]; [left; split; [lia|by rewrite lookup_insert_eq]|]. rewrite lookup_insert_ne by done.
    destruct H0 as [[? ?]|?]; [left; split; [lia|done]|right; lia].
Qed.

Lemma end_run l c : NoDup l -> (forall i, i ∈ l -> is_Some (open_conns c !! i)) ->
  activeTcpConnections (conn_run (map Ended l) c) = activeTcpConnections c - Z.of_nat (length l).
Proof.
  unfold conn_run. revert c. induction l as [|i l IH]; intros c Hn Ho; [simpl; lia|]. apply NoDup_cons in Hn as [Hi Hn].
  cbn [map fold_left conn_step fst]. destruct (Ho i) as [b Hb]; [by left|]. unfold cleanup. rewrite Hb. rewrite IH; [simpl; lia|done|].
  intros j Hj. simpl. rewrite lookup_delete_ne by (intros ->; done). apply Ho. by right.
Qed.

(** As long as the proxy is not stopped, the connection counter is the
    number of client connections open, whatever arrives on them and however
    they end, and never above PROXY_MAX_TCP_CONNECTIONS. *)
Theorem connection_cap es :
  Stopped ∉ es -> fresh es -> counted (conn_run es no_connections).
Proof. intros Hs Hf. apply conn_run_counted; [done|done|done|split; done]. Qed.

Lemma connection_cap_witness :
  let c := conn_run [Accept 0; Accept 1; Data 0 [0; 2; 7]; Ended 1; Ended 1; Accept 2] no_connections in
  activeTcpConnections c = 2 /\ counted c.
Proof.
  intros c. split; [vm_compute; reflexivity|]. apply (connection_cap [Accept 0; Accept 1; Data 0 [0; 2; 7]; Ended 1; Ended 1; Accept 2]).
  - intros H. repeat (apply elem_of_cons in H as [H|H]; [discriminate H|]). by apply not_elem_of_nil in H.
  - unfold fresh. simpl. repeat (constructor; [set_solver|]). constructor.
Defined.

(** Stopping the proxy, which every change of the interfaces does to rebind
    it, zeroes the counter while the connections stay open. The cap counts
    again from nothing: twice as many connections are open. *)
Lemma cap_doubles_on_rebind :
  let full := conn_run (map Accept (seq 0 1000) ++ [Stopped] ++ map Accept (seq 1000 1000)) no_connections in
  size (open_conns full) = 2000%nat /\ activeTcpConnections full = PROXY_MAX_TCP_CONNECTIONS.
Proof. vm_compute. split; reflexivity. Qed.

(** As the connections from before end, the counter goes below zero, and as
    many more are allowed from then on. *)
Lemma cap_lost_on_rebind n :
  (n <= 1000)%nat ->
  activeTcpConnections (conn_run (map Accept (seq 0 n) ++ [Stopped] ++ map Ended (seq 0 n)) no_connections) = - Z.of_nat n.
Proof.
  intros Hn. destruct (accept_run n 0%nat no_connections) as [_ Hopen]; [done|unfold PROXY_MAX_TCP_CONNECTIONS; simpl; lia|].
  set (c := conn_run (map Accept (seq 0 n)) no_connections) in *.
  assert (conn_run (map Accept (seq 0 n) ++ [Stopped] ++ map Ended (seq 0 n)) no_connections
    = conn_run (map Ended (seq 0 n)) (mkConnections 0 (open_conns c))) as ->.
  { unfold conn_run. by rewrite !fold_left_app. }
  rewrite end_run; [simpl; rewrite length_seq; lia|apply NoDup_seq|]. intros i Hi. apply elem_of_seq in Hi. apply Hopen. right. lia.
Qed.

(** A query the backend did not answer is counted as allowed over UDP and
    not over TCP; both log it as allowed. *)
Lemma timeouts_counted_apart decode encode env q s t id p :
  timers s !! t = Some id -> pendingQueries s !! id = Some p ->
  statsAllowed (stats (query_timeout encode t s).1) = statsAllowed (stats s) + 1
  /\ statsAllowed (stats (tcp_deliver decode encode env true q None s).1.1) = statsAllowed (stats s).
Proof.
  intros Ht Hp. unfold query_timeout, tcp_deliver. rewrite Ht, Hp. split.
  - destruct (noteAnswer _ _ _) as [[? ?] ?]. reflexivity.
  - destruct (encode _); [|reflexivity]. destruct (noteAnswer _ _ _) as [[? ?] ?]. reflexivity.
Qed.

(** One answer over both transports: the id is the client's, whose query did
    not ask for recursion. *)
Lemma transports_agree_witness :
  let msg := [0; 7; 0; 0] in
  let q := mkMessage 7 0 "NOERROR" false [mkQuestion "www.example.com" "A"] [mkAnswer "A" "www.example.com" 60 "203.0.113.7"] [] in
  let c := mkClient 0 "10.0.0.9" 5353 in
  let s := (run toy_decode toy_encode [Start 1] initial).1 in
  exists b, (tcp_deliver toy_decode toy_encode toy_env true (tcp_entry c msg q) (Some [0; 7; 129; 128]) s).1.2 = framed [b]
    /\ payloads (deliverResponse toy_encode toy_env (udp_entry toy_env c msg q 0) [0; 2; 129; 128] (mkMessage 2 33152 "NOERROR" false (questions q) (answers q) []) s).2 = [b]
    /\ id_of b = Some 7 /\ asksRecursion b = false.
Proof.
  intros msg q c s.
  pose proof (transports_agree toy_decode toy_encode toy_env c msg q [Start 1] s toy_codec) as H. cbv zeta in H.
  specialize (H ltac:(vm_compute; reflexivity) ltac:(vm_compute; reflexivity)).
  destruct (tcp_receive _ _ _ _ _ _ _) as [[[ts' frames] said] rest]. destruct H as [_ H].
  destruct (H toy_env 0%nat [0; 7; 129; 128] [0; 2; 129; 128]
    (mkMessage 7 33152 "NOERROR" false (questions q) (answers q) []) (mkMessage 2 33152 "NOERROR" false (questions q) (answers q) [])) as (out & Hu & Ht & Ho).
  - split; [vm_compute; reflexivity|vm_compute; reflexivity| |vm_compute; reflexivity|exists 2; vm_compute; reflexivity|reflexivity|reflexivity].
    repeat constructor; discriminate.
  - destruct out as [b|]; [|destruct Ho as [_ Ho]; vm_compute in Ho; discriminate Ho]. exists b. split; [exact Ht|]. split; [exact Hu|].
    destruct Ho as [Hid [_ Hrd]]. split; [exact Hid|]. apply Hrd. vm_compute. repeat constructor.
Defined.
