(* ===== verification/IpLifecycle.v ===== *)
(** * The vocabulary of an address's life

    [server/src/models/ip-lifecycle.js]: the states of an allocation, the
    sources that may change it and to what, and the name and status an
    address shows. *)

From S2P Require Import Prelude JsString.

(** ** The vocabulary *)

Inductive ALLOCATION_STATE :=
| UNASSIGNED | RESERVED | STATIC_DNS | DYNAMIC_DHCP | STATIC_DHCP | SLAAC | SYSTEM | GATEWAY | QUARANTINED.

Inductive LIFECYCLE_SOURCE :=
| ADMIN_RESERVATION | DNS | DHCP_RESERVATION | DHCP_LEASE | SLAAC_SOURCE | TOPOLOGY | RECONCILIATION.

#[export] Instance state_eq_dec : EqDecision ALLOCATION_STATE.
Proof. solve_decision. Defined.
#[export] Instance source_eq_dec : EqDecision LIFECYCLE_SOURCE.
Proof. solve_decision. Defined.

Definition state_name (s : ALLOCATION_STATE) : string :=
  match s with
  | UNASSIGNED => "unassigned" | RESERVED => "reserved" | STATIC_DNS => "static_dns"
  | DYNAMIC_DHCP => "dynamic_dhcp" | STATIC_DHCP => "static_dhcp" | SLAAC => "slaac"
  | SYSTEM => "system" | GATEWAY => "gateway" | QUARANTINED => "quarantined"
  end.

Definition source_name (s : LIFECYCLE_SOURCE) : string :=
  match s with
  | ADMIN_RESERVATION => "admin_reservation" | DNS => "dns" | DHCP_RESERVATION => "dhcp_reservation"
  | DHCP_LEASE => "dhcp_lease" | SLAAC_SOURCE => "slaac" | TOPOLOGY => "topology"
  | RECONCILIATION => "reconciliation"
  end.

Definition all_states : list ALLOCATION_STATE :=
  [UNASSIGNED; RESERVED; STATIC_DNS; DYNAMIC_DHCP; STATIC_DHCP; SLAAC; SYSTEM; GATEWAY; QUARANTINED].

Definition ALLOCATION_TRANSITIONS (source : LIFECYCLE_SOURCE) (from : ALLOCATION_STATE) : list ALLOCATION_STATE :=
  match source, from with
  | ADMIN_RESERVATION, UNASSIGNED => [RESERVED]
  | ADMIN_RESERVATION, RESERVED => [RESERVED; UNASSIGNED]
  | DNS, UNASSIGNED => [STATIC_DNS; RESERVED]
  | DNS, RESERVED => [STATIC_DNS; RESERVED; UNASSIGNED]
  | DNS, STATIC_DNS => [STATIC_DNS; UNASSIGNED; RESERVED]
  | DHCP_RESERVATION, UNASSIGNED => [STATIC_DHCP]
  | DHCP_RESERVATION, RESERVED => [STATIC_DHCP]
  | DHCP_RESERVATION, STATIC_DHCP => [STATIC_DHCP; UNASSIGNED]
  | DHCP_LEASE, UNASSIGNED => [DYNAMIC_DHCP]
  | DHCP_LEASE, DYNAMIC_DHCP => [DYNAMIC_DHCP; UNASSIGNED]
  | SLAAC_SOURCE, UNASSIGNED => [SLAAC]
  | SLAAC_SOURCE, SLAAC => [SLAAC; UNASSIGNED]
  | TOPOLOGY, UNASSIGNED => [SYSTEM; GATEWAY]
  | TOPOLOGY, SYSTEM => [SYSTEM; UNASSIGNED]
  | TOPOLOGY, GATEWAY => [GATEWAY; UNASSIGNED]
  | RECONCILIATION, _ => all_states
  | _, _ => []
  end.

Definition canTransitionAllocation (from to : ALLOCATION_STATE) (source : LIFECYCLE_SOURCE) : bool :=
  bool_decide (to ∈ ALLOCATION_TRANSITIONS source from).

Definition macIsAuthoritative (s : ALLOCATION_STATE) : bool :=
  bool_decide (s ∈ [STATIC_DHCP; DYNAMIC_DHCP]).

Definition displayStatusFor (s : ALLOCATION_STATE) (inDynamicPool : bool) : string :=
  if negb (bool_decide (s = UNASSIGNED)) then "in use"
  else if inDynamicPool then "DHCP Scope" else "available".

(** A name that JavaScript takes for true. *)
Definition named (n : option string) : option string :=
  match n with Some "" => None | _ => n end.

Definition name_from (n : option string) (source : LIFECYCLE_SOURCE) : option (string * LIFECYCLE_SOURCE) :=
  match named n with Some h => Some (h, source) | None => None end.

Definition canonicalHostnameForAllocation (allocationState : ALLOCATION_STATE)
  (dnsHostname reservationHostname leaseHostname : option string) : option (string * LIFECYCLE_SOURCE) :=
  match allocationState with
  | STATIC_DNS | GATEWAY => name_from dnsHostname DNS
  | SYSTEM => None
  | STATIC_DHCP => name_from reservationHostname DHCP_RESERVATION
  | DYNAMIC_DHCP => name_from leaseHostname DHCP_LEASE
  | _ => match name_from dnsHostname DNS with
         | Some r => Some r
         | None => match name_from reservationHostname DHCP_RESERVATION with
                   | Some r => Some r
                   | None => name_from leaseHostname DHCP_LEASE
                   end
         end
  end.
