(* ===== verification/IpRows.v ===== *)
(** * Address rows and their history

    The tables the address lifecycle reads and writes, the finders of
    [server/src/utils/ip-sync.js] and [server/src/models/dhcp-scope.js] it
    uses, and the core of [server/src/models/ip-address.js]: the identity of a
    row, [upsert] and the events it emits.

    A call is a function of the database to its result and the new database:
    what it wrote before it threw stays. *)

From S2P Require Import Prelude JsString Address Cidr DhcpPools IpLifecycle.

(** ** The database *)

Inductive Sql := Null | Text (s : string) | Int (z : Z).

#[export] Instance sql_eq_dec : EqDecision Sql.
Proof. solve_decision. Defined.

Definition truthy (v : Sql) : bool :=
  match v with Null => false | Text s => negb (String.eqb s "") | Int z => negb (z =? 0) end.

Definition text_or_null (o : option string) : Sql := match o with Some s => Text s | None => Null end.

(** A subnet, and its entry in the cache of leaf subnets. *)
Record Subnet := mkSubnet {
  sn_id : Z; sn_cidr : string; sn_gateway : option string; sn_prefix_length : Z; sn_parent : option Z }.
Record Leaf := mkLeaf { lf_id : Z; lf_prefix_length : Z; lf_family : Z; lf_first : Z; lf_last : Z }.

(** A DHCP scope joined with one of its pools. *)
Record ScopePool := mkScopePool {
  sp_id : Z; sp_subnet : Z; sp_enabled : bool; sp_family : option Z; sp_v6_mode : option string;
  sp_start : string; sp_end : string }.

(** What makes a row of [ip_addresses] one: its subnet, canonical address and
    interface, the empty string standing for none. *)
Abbreviation Identity := (Z * string * string)%type.

(** A row: the columns that say who owns the address, and the others by name;
    one that is not there is null. *)
Record Row := mkRow {
  row_id : Z;
  allocation_state : ALLOCATION_STATE;
  allocation_source_type : option LIFECYCLE_SOURCE;
  allocation_source_id : option Z;
  columns : gmap string Sql }.

(** A row's owner, nobody for an address without a row. *)
Definition alloc (r : option Row) : ALLOCATION_STATE * option LIFECYCLE_SOURCE :=
  match r with Some r => (allocation_state r, allocation_source_type r) | None => (UNASSIGNED, None) end.

Definition source_id (row : option Row) : Z := match row with Some r => default 0 (allocation_source_id r) | None => 0 end.

Definition col (columns : gmap string Sql) (c : string) : Sql := default Null (columns !! c).

(** A row of [ip_events]. *)
Record Event := mkEvent {
  ev_row : Z; ev_subnet : Z; ev_ip : string; ev_interface : option string; ev_type : string;
  ev_old : Sql; ev_new : Sql; ev_source : Sql; ev_actor : option string; ev_at : string }.

(** [leafSubnetCache] is the module's variable; [ptr_checks] are the
    addresses handed to [dropUnallocatedIpv6Ptr], whose PTR rows are not part
    of this state; [now] and [actor] are those of the request. *)
Record Db := mkDb {
  subnets : list Subnet;
  pools : list ScopePool;
  records : list DnsRow;
  leafSubnetCache : option (list Leaf);
  addresses : gmap Identity Row;
  next_row_id : Z;
  events : list Event;
  ptr_checks : list string;
  now : string;
  actor : option string }.

Definition set_cache (c : option (list Leaf)) (db : Db) : Db :=
  mkDb (subnets db) (pools db) (records db) c (addresses db) (next_row_id db) (events db) (ptr_checks db) (now db) (actor db).

Definition set_row (k : Identity) (r : Row) (id : Z) (es : list Event) (db : Db) : Db :=
  mkDb (subnets db) (pools db) (records db) (leafSubnetCache db) (<[k := r]> (addresses db)) id (events db ++ es)
    (ptr_checks db) (now db) (actor db).

Definition add_ptr_check (ip : string) (db : Db) : Db :=
  mkDb (subnets db) (pools db) (records db) (leafSubnetCache db) (addresses db) (next_row_id db) (events db)
    (ptr_checks db ++ [ip]) (now db) (actor db).

(** ** Results *)

(** [IpLifecycleConflictError], which the routes answer with 409, and any
    other error. *)
Inductive life_error :=
| Conflict (message : string) (currentState targetState : ALLOCATION_STATE) (ip : string)
| Thrown (message : string)
| ThrownCidr (e : cidr_error).

Definition M (A : Type) : Type := Db -> result life_error A * Db.

#[export] Instance M_ret : MRet M := fun A a db => (Ok a, db).
#[export] Instance M_bind : MBind M := fun A B f m db =>
  match m db with (Ok a, db') => f a db' | (Err e, db') => (Err e, db') end.

Definition throw {A} (e : life_error) : M A := fun db => (Err e, db).
Definition get : M Db := fun db => (Ok db, db).
Definition modify (f : Db -> Db) : M unit := fun db => (Ok tt, f db).

(** A call of the CIDR functions. *)
Definition cidr_call {A} (m : result cidr_error A) : M A :=
  match m with Ok a => mret a | Err e => throw (ThrownCidr e) end.
Definition lift {A} (m : result life_error A) : M A := fun db => (m, db).

(** ** Addresses and subnets *)

Definition isV6LinkLocal (p : ParsedIp) : bool :=
  (bits p =? 128) && (0xfe800000000000000000000000000000 <=? value p)
  && (value p <=? 0xfebfffffffffffffffffffffffffffff).

(** [/^[a-zA-Z0-9._:-]{1,64}$/] *)
Definition interface_name (s : string) : bool :=
  all_chars (fun c => is_alnum c || has_char c "._:-") s && (1 <=? js_length s) && (js_length s <=? 64).

(** [s?.trim() || null] *)
Definition trimmed (o : option string) : option string :=
  match o with Some s => if String.eqb (trim s) "" then None else Some (trim s) | None => None end.

Record CanonicalId := mkCanonicalId {
  ci_ip : string; ci_family : Z; ci_sort_key : string; ci_interface : option string }.

Definition canonicalIdentity (ip : string) (interfaceId : option string) : result life_error CanonicalId :=
  match parseIp default_options ip with
  | None => Err (Thrown ("Invalid IP address: " +:+ ip))
  | Some parsed =>
      let explicitInterface := trimmed interfaceId in
      let parsedInterface := trimmed (zone parsed) in
      let effectiveInterface := match explicitInterface with Some i => Some i | None => parsedInterface end in
      if match parsedInterface, explicitInterface with Some p, Some e => negb (String.eqb p e) | _, _ => false end
      then Err (Thrown "IPv6 zone identifier does not match interface context")
      else if match effectiveInterface with Some i => negb (interface_name i) | None => false end
      then Err (Thrown "Invalid interface context")
      else if isV6LinkLocal parsed && bool_decide (effectiveInterface = None)
      then Err (Thrown "IPv6 link-local addresses require interface context")
      else if negb (isV6LinkLocal parsed) && negb (bool_decide (effectiveInterface = None))
      then Err (Thrown "Interface context is only valid for IPv6 link-local addresses")
      else let canonical := formatIp (value parsed) (bits parsed) in
           Ok (mkCanonicalId canonical (if bits parsed =? 32 then 4 else 6) (default "" (sortKey canonical)) effectiveInterface)
  end.

Definition identity_of (subnetId : Z) (c : CanonicalId) : Identity :=
  (subnetId, ci_ip c, default "" (ci_interface c)).

Definition findBySubnetAndIp (subnetId : Z) (ip : string) : M (option Row) :=
  identity ← lift (canonicalIdentity ip None);
  db ← get;
  mret (addresses db !! identity_of subnetId identity).

Definition lifecycleIdentityIp (ip : string) (interfaceId : option string) : result life_error string :=
  match parseIp default_options ip with
  | None => Err (Thrown ("Invalid IP address: " +:+ ip))
  | Some parsed =>
      match zone parsed, named interfaceId with
      | None, Some i => Ok (if isV6LinkLocal parsed then ip +:+ "%" +:+ i else ip)
      | _, _ => Ok ip
      end
  end.

(** [invalidateSubnetCache] and the cache's reader. *)
Definition invalidateSubnetCache : M unit := modify (set_cache None).

Definition leaf_of (s : Subnet) : result cidr_error Leaf :=
  parsed ← parseNetwork (sn_cidr s);
  mret (mkLeaf (sn_id s) (sn_prefix_length s) (family parsed) (networkBig parsed) (lastBig parsed)).

(** The subnets that are no other's parent. *)
Definition leaf_rows (l : list Subnet) : list Subnet :=
  List.filter (fun s => negb (existsb (fun c => bool_decide (sn_parent c = Some (sn_id s))) l)) l.

Definition best_leaf (fam v : Z) (best : option Leaf) (s : Leaf) : option Leaf :=
  if negb (lf_family s =? fam) then best
  else if (lf_first s <=? v) && (v <=? lf_last s)
       then match best with
            | None => Some s
            | Some b => if lf_prefix_length b <? lf_prefix_length s then Some s else best
            end
       else best.

Definition leaves : M (list Leaf) :=
  db ← get;
  match leafSubnetCache db with
  | Some l => mret l
  | None =>
      l ← cidr_call (map_result leaf_of (leaf_rows (subnets db)));
      _ ← modify (set_cache (Some l));
      mret l
  end.

Definition findSubnetForIp (ip : string) : M (option Leaf) :=
  match parseIp default_options ip with
  | None => throw (Thrown ("Invalid IP address: " +:+ ip))
  | Some address =>
      l ← leaves;
      mret (fold_left (best_leaf (family_of_bits (bits address)) (value address)) l None)
  end.

(** [findEnabledScopeForIp]: the first enabled pool, of a scope that hands
    out addresses, that has the address. *)
Definition pool_selected (subnetId : Z) (p : ScopePool) : bool :=
  (sp_subnet p =? subnetId) && sp_enabled p
  && (negb (bool_decide (sp_family p = Some 6)) || bool_decide (sp_v6_mode p = Some "stateful")).

Definition pool_has (address : Address) (p : ScopePool) : result cidr_error bool :=
  start ← addressToBig (sp_start p);
  stop ← addressToBig (sp_end p);
  mret ((a_family start =? a_family address) && (a_value start <=? a_value address) && (a_value address <=? a_value stop)).

Definition findEnabledScopeForIp (db : Db) (subnetId : Z) (ip : string) : result cidr_error (option ScopePool) :=
  address ← addressToBig ip;
  find_result (pool_has address) (List.filter (pool_selected subnetId) (pools db)).

(** The address the topology owns, and why. *)
Record Protected := mkProtected { p_state : option ALLOCATION_STATE; p_dnsNameAllowed : bool; p_reason : string }.

Definition find_subnet (id : Z) (db : Db) : option Subnet := List.find (fun s => sn_id s =? id) (subnets db).

Definition protectedAddress (db : Db) (subnetId : Z) (ip : string) : result cidr_error (option Protected) :=
  if negb (isValidAddress ip) then mret None
  else match find_subnet subnetId db with
       | None => mret (Some (mkProtected None false "Address does not belong to a managed subnet"))
       | Some subnet =>
           parsed ← parseNetwork (sn_cidr subnet);
           address ← addressToBig ip;
           if negb (a_family address =? family parsed) then mret None
           else
             let v := a_value address in
             if isTopologyAddress parsed v && (v =? networkBig parsed)
             then mret (Some (mkProtected (Some SYSTEM) false
                         (if family parsed =? 6 then "Subnet-router anycast address is protected"
                          else "Network address is protected")))
             else if isTopologyAddress parsed v
             then mret (Some (mkProtected (Some SYSTEM) false "Broadcast address is protected"))
             else match named (sn_gateway subnet) with
                  | None => mret None
                  | Some g =>
                      gateway ← addressToBig g;
                      if (a_family gateway =? family parsed) && (a_value gateway =? v)
                      then mret (Some (mkProtected (Some GATEWAY) true "Gateway address is protected"))
                      else mret None
                  end
       end.

(** ** [upsert] *)

(** A named allocation change, and the fields handed to [upsert]: what is not
    given is undefined, and stays as it is. *)
Record AllocationEvent := mkAllocationEvent { ae_type : string; ae_old : option Sql; ae_new : option Sql; ae_source : option string }.
Record Fields := mkFields {
  f_state : option ALLOCATION_STATE;
  f_source_type : option (option LIFECYCLE_SOURCE);
  f_source_id : option (option Z);
  f_columns : gmap string Sql;
  f_event : option AllocationEvent }.

(** The columns every given value is written to, and those written only when
    the value differs. *)
Definition ALWAYS : list string :=
  ["is_online"; "last_seen_mac"; "is_rogue"; "rogue_reason"; "last_scanned_at"; "detection_source"].
Definition IF_CHANGED : list string :=
  ["hostname"; "mac_address"; "preferred_until"; "valid_until"; "dhcp_version"; "dhcp_duid"; "dhcp_iaid";
   "reservation_note"; "scan_enabled"].

Definition is_given (f : Fields) (c : string) : bool := bool_decide (is_Some (f_columns f !! c)).

Definition differs (r : Row) (f : Fields) (c : string) : bool :=
  match f_columns f !! c with Some v => negb (bool_decide (v = col (columns r) c)) | None => false end.

Definition given_differs {A} `{EqDecision A} (new : option A) (old : A) : bool :=
  match new with Some v => negb (bool_decide (v = old)) | None => false end.

(** [updates.length > 0] *)
Definition has_updates (r : Row) (f : Fields) : bool :=
  existsb (is_given f) ALWAYS || existsb (differs r f) IF_CHANGED
  || given_differs (f_state f) (allocation_state r)
  || given_differs (f_source_type f) (allocation_source_type r)
  || given_differs (f_source_id f) (allocation_source_id r).

Definition write_given (f : Fields) (m : gmap string Sql) (c : string) : gmap string Sql :=
  match f_columns f !! c with Some v => <[c := v]> m | None => m end.

(** [COALESCE(column, datetime('now'))] *)
Definition coalesce_now (now : string) (v : Sql) : Sql := match v with Null => Text now | _ => v end.

(** The times that follow [is_online]. *)
Definition online_times (now : string) (online : option Sql) (m : gmap string Sql) : gmap string Sql :=
  match online with
  | None => m
  | Some v =>
      if truthy v
      then <["offline_since_at" := Null]> (<["first_seen_at" := coalesce_now now (col m "first_seen_at")]>
             (<["last_seen_at" := Text now]> m))
      else <["offline_since_at" := coalesce_now now (col m "offline_since_at")]> m
  end.

Definition updated_row (now : string) (r : Row) (f : Fields) : Row :=
  mkRow (row_id r) (default (allocation_state r) (f_state f)) (default (allocation_source_type r) (f_source_type f))
    (default (allocation_source_id r) (f_source_id f))
    (<["updated_at" := Text now]>
      (online_times now (f_columns f !! "is_online") (fold_left (write_given f) (ALWAYS ++ IF_CHANGED) (columns r)))).

(** An event to emit: its type, old and new values and own source. *)
Abbreviation pending_event := (string * Sql * Sql * option string)%type.

Definition allocationEvent (named : option AllocationEvent) (oldState newState : ALLOCATION_STATE) : pending_event :=
  match named with
  | None => ("allocation_changed", Text (state_name oldState), Text (state_name newState), None)
  | Some e => (ae_type e, default (Text (state_name oldState)) (ae_old e), default (Text (state_name newState)) (ae_new e), ae_source e)
  end.

Definition change_event (r : Row) (f : Fields) (c type : string) : list pending_event :=
  match f_columns f !! c with
  | Some v => if bool_decide (v = col (columns r) c) then [] else [(type, col (columns r) c, v, None)]
  | None => []
  end.

Definition update_events (r : Row) (f : Fields) : list pending_event :=
  change_event r f "hostname" "hostname_changed" ++ change_event r f "mac_address" "mac_changed"
  ++ match f_columns f !! "is_online" with
     | Some v => if Bool.eqb (truthy v) (truthy (col (columns r) "is_online")) then []
                 else [(if truthy v then "online" else "offline", Null, Null, None)]
     | None => []
     end
  ++ match f_state f with
     | Some s => if bool_decide (s = allocation_state r) then [] else [allocationEvent (f_event f) (allocation_state r) s]
     | None => []
     end.

(** [emit]: the row gives the address and interface the history is kept by. *)
Definition emit (db : Db) (id subnetId : Z) (c : CanonicalId) (fallback : Sql) (e : pending_event) : Event :=
  let '(type, old, new, source) := e in
  mkEvent id subnetId (ci_ip c) (ci_interface c) type old new
    (match source with Some s => Text s | None => fallback end) (actor db) (now db).

(** [value || null] and [value || 0] *)
Definition or_null (f : Fields) (c : string) : Sql :=
  match f_columns f !! c with Some v => if truthy v then v else Null | None => Null end.
Definition or_zero (f : Fields) (c : string) : Sql :=
  match f_columns f !! c with Some v => if truthy v then v else Int 0 | None => Int 0 end.

Definition inserted_columns (now : string) (c : CanonicalId) (f : Fields) : gmap string Sql :=
  let online := truthy (or_zero f "is_online") in
  let hasActivity := online || truthy (or_null f "mac_address") || truthy (or_null f "last_seen_mac") in
  list_to_map
    [("hostname", or_null f "hostname"); ("mac_address", or_null f "mac_address"); ("is_online", or_zero f "is_online");
     ("last_seen_at", if online then Text now else Null); ("last_seen_mac", or_null f "last_seen_mac");
     ("is_rogue", or_zero f "is_rogue"); ("rogue_reason", or_null f "rogue_reason");
     ("last_scanned_at", or_null f "last_scanned_at"); ("first_seen_at", if hasActivity then Text now else Null);
     ("detection_source", or_null f "detection_source"); ("address_family", Int (ci_family c));
     ("address_sort_key", Text (ci_sort_key c)); ("preferred_until", or_null f "preferred_until");
     ("valid_until", or_null f "valid_until"); ("dhcp_version", or_null f "dhcp_version");
     ("dhcp_duid", or_null f "dhcp_duid"); ("dhcp_iaid", col (f_columns f) "dhcp_iaid");
     ("reservation_note", or_null f "reservation_note"); ("scan_enabled", col (f_columns f) "scan_enabled");
     ("offline_since_at", Null); ("created_at", Text now); ("updated_at", Text now)].

Definition nonzero (o : option Z) : option Z := match o with Some 0 => None | _ => o end.

Definition inserted_row (id : Z) (now : string) (c : CanonicalId) (f : Fields) : Row :=
  mkRow id (default UNASSIGNED (f_state f)) (default None (f_source_type f)) (nonzero (default None (f_source_id f)))
    (inserted_columns now c f).

Definition insert_events (db : Db) (id subnetId : Z) (c : CanonicalId) (f : Fields) : list Event :=
  match f_state f with
  | None | Some UNASSIGNED => []
  | Some s =>
      let fallback := match default None (f_source_type f) with
                      | Some t => Text (source_name t)
                      | None => or_null f "detection_source"
                      end in
      let '(type, old, new, source) := allocationEvent (f_event f) UNASSIGNED s in
      [emit db id subnetId c fallback (type, old, new, named source)]
  end.

(** [upsert]; a row of a subnet that does not exist breaks the foreign key. *)
Definition upsert (subnetId : Z) (ip : string) (f : Fields) : M Z :=
  identity ← lift (canonicalIdentity ip None);
  db ← get;
  match addresses db !! identity_of subnetId identity with
  | Some existing =>
      if has_updates existing f
      then _ ← modify (set_row (identity_of subnetId identity) (updated_row (now db) existing f) (next_row_id db)
                 (map (emit db (row_id existing) subnetId identity (col (f_columns f) "detection_source"))
                    (update_events existing f)));
           mret (row_id existing)
      else mret (row_id existing)
  | None =>
      if bool_decide (find_subnet subnetId db = None) then throw (Thrown "FOREIGN KEY constraint failed")
      else let id := next_row_id db in
           _ ← modify (set_row (identity_of subnetId identity) (inserted_row id (now db) identity f) (id + 1)
                 (insert_events db id subnetId identity f));
           mret id
  end.

(** ** Lemmas: identities *)

Lemma drop_while_end_app p a b :
  drop_while_end p b <> "" -> drop_while_end p (a +:+ b) = a +:+ drop_while_end p b.
Proof. intros Hb. induction a as [|c a IH]; cbn; [done|]. rewrite IH. destruct a; cbn; [|done]. by destruct (drop_while_end p b). Qed.

Lemma drop_while_end_blank p b : drop_while_end p b = "" -> all_chars p b = true.
Proof.
  induction b as [|c b IH]; cbn; [done|]. destruct (drop_while_end p b) eqn:E; [|done].
  destruct (p c); [|done]. intros _. by apply IH.
Qed.

Lemma blank_drop_while p b : all_chars p b = true -> drop_while_end p b = "".
Proof. induction b as [|c b IH]; cbn; [done|]. intros [Hc Hb]%andb_true_iff. by rewrite IH, Hc. Qed.

Lemma blank_end_app p a b : all_chars p b = true -> drop_while_end p (a +:+ b) = drop_while_end p a.
Proof. intros Hb. induction a as [|c a IH]; cbn; [by apply blank_drop_while|]. by rewrite IH. Qed.

Lemma drop_while_end_length p s : (String.length (drop_while_end p s) <= String.length s)%nat.
Proof. induction s as [|c s IH]; cbn; [lia|]. destruct (drop_while_end p s), (p c); cbn in *; lia. Qed.

Lemma trim_blank b : trim b = "" -> all_chars is_space b = true.
Proof.
  unfold trim. intros H%drop_while_end_blank. induction b as [|c b IH]; [done|]. cbn in *.
  destruct (is_space c) eqn:Hc; [by apply IH|]. cbn in H. by rewrite Hc in H.
Qed.

(** The zone id of an accepted address is not blank. *)
Lemma zone_not_blank ip p z : parseIp default_options ip = Some p -> zone p = Some z -> trim z <> "".
Proof.
  unfold parseIp. intros H Hz Ht%trim_blank.
  assert (forall s o, parseIp_address default_options s o = Some p -> o = Some z) as Ha.
  { unfold parseIp_address. intros s o Hs. repeat case_match; simplify_eq; done. }
  destruct (String.eqb (trim ip) ""); [done|]. destruct (index_of _ _) as [pct|]; [|by apply Ha in H].
  cbn [negb zoneId default_options] in H. destruct (String.eqb_spec (drop_string (pct + 1) (trim ip)) ""); [done|].
  apply Ha in H. injection H as H. pose proof (take_drop_string (pct + 1) (trim ip)) as Hs. rewrite H in Hs, n.
  assert (drop_while_end is_space (trim ip) = trim ip) as Hi by (unfold trim; by rewrite drop_while_end_idem).
  rewrite <- Hs, blank_end_app in Hi by done. apply (f_equal String.length) in Hi. rewrite length_app_str in Hi.
  pose proof (drop_while_end_length is_space (take_string (pct + 1) (trim ip))). destruct z; [done|]. cbn [String.length] in Hi. lia.
Qed.

Lemma trimmed_some o i : trimmed o = Some i -> i <> "".
Proof. destruct o as [s|]; [|done]. cbn. destruct (String.eqb_spec (trim s) ""); intros; by simplify_eq. Qed.

(** An identity without an interface is that of an address without a zone. *)
Lemma identity_plain ip c :
  canonicalIdentity ip None = Ok c -> default "" (ci_interface c) = "" ->
  exists p, parseIp no_zone ip = Some p /\ ci_ip c = formatIp (value p) (bits p).
Proof.
  unfold canonicalIdentity. destruct (parseIp default_options ip) as [p|] eqn:Hp; [|done].
  cbn [trimmed]. intros H Hi. exists p.
  assert (trimmed (zone p) = None) as Ht.
  { destruct (trimmed (zone p)) as [i|] eqn:Ht; [|done]. exfalso. apply trimmed_some in Ht as Hne.
    rewrite ?andb_false_r in H. repeat case_match; simplify_eq; cbn in Hi; done. }
  rewrite Ht in H. repeat case_match; simplify_eq; cbn; (split; [|done]).
  all: assert (zone p = None) as Hz by
    (destruct (zone p) as [z|] eqn:Hz; [|done]; exfalso; apply (zone_not_blank _ _ _ Hp Hz);
     cbn in Ht; by destruct (String.eqb_spec (trim z) "")).
  all: unfold parseIp in *; cbn [zoneId no_zone default_options negb] in *;
    destruct (String.eqb (trim ip) ""); [done|]; destruct (index_of "%" (trim ip)) as [n|]; [|exact Hp].
  all: exfalso; destruct (String.eqb (drop_string (n + 1) (trim ip)) ""); [done|];
    unfold parseIp_address in Hp; repeat case_match; simplify_eq; done.
Qed.

(** The topology sees the spelling a row is kept by as it sees the one given. *)
Lemma protected_canonical db s ip c :
  canonicalIdentity ip None = Ok c -> default "" (ci_interface c) = "" ->
  protectedAddress db s (ci_ip c) = protectedAddress db s ip.
Proof.
  intros Hc Hi. destruct (identity_plain ip c Hc Hi) as (p & Hp & ->).
  pose proof (parseIp_formatIp no_zone _ _ (parseIp_representable _ _ _ Hp)) as Hf.
  unfold protectedAddress, isValidAddress, addressToBig. rewrite Hp, Hf. reflexivity.
Qed.

(** ** Lemmas: running operations *)

Lemma bind_inv {A B} (m : M A) (f : A -> M B) db res db' :
  (a ← m; f a) db = (res, db') ->
  (exists e, m db = (Err e, db') /\ res = Err e) \/ (exists a db1, m db = (Ok a, db1) /\ f a db1 = (res, db')).
Proof. unfold mbind, M_bind. destruct (m db) as [[a|e] db1]; intros H; [right|left]; simplify_eq; eauto. Qed.

Ltac mcbn H := unfold get, modify, throw, lift, mbind, M_bind, mret, M_ret in H; cbn beta iota in H.

(** Split a run into its calls; the branches of the first that throws are
    left with the error. *)
Ltac mstep H :=
  let e := fresh "e" in let a := fresh "a" in let d := fresh "d" in let E := fresh "E" in
  apply bind_inv in H as [(e & E & ->)|(a & d & E & H)].

Lemma lift_inv {A} (m : result life_error A) db res db' : lift m db = (res, db') -> m = res /\ db' = db.
Proof. unfold lift. intros; by simplify_eq. Qed.

Lemma cidr_call_inv {A} (m : result cidr_error A) db res db' :
  cidr_call m db = (res, db') ->
  db' = db /\ match res with Ok a => m = Ok a | Err _ => exists e, m = Err e end.
Proof. destruct m; unfold cidr_call, throw; cbn; unfold mret, M_ret; intros; simplify_eq; eauto. Qed.

Lemma find_row_inv s ip db res db' :
  findBySubnetAndIp s ip db = (res, db') ->
  db' = db /\ match canonicalIdentity ip None with
             | Ok c => res = Ok (addresses db !! identity_of s c)
             | Err e => res = Err e
             end.
Proof.
  unfold findBySubnetAndIp. intros H. mstep H; apply lift_inv in E as [E ->]; rewrite E; [done|].
  by mcbn H; simplify_eq.
Qed.

(** What [upsert] leaves alone. *)
Record same_setting (db db' : Db) : Prop := {
  ss_subnets : subnets db' = subnets db;
  ss_pools : pools db' = pools db;
  ss_records : records db' = records db }.

Lemma same_setting_refl db : same_setting db db.
Proof. done. Qed.
Lemma same_setting_trans a b c : same_setting a b -> same_setting b c -> same_setting a c.
Proof. intros [] []; constructor; congruence. Qed.
#[local] Hint Resolve same_setting_refl : core.

Lemma given_same {A} `{EqDecision A} (new : option A) (old : A) : given_differs new old = false -> default old new = old.
Proof. destruct new as [v|]; [|done]. cbn. intros ?%negb_false_iff%bool_decide_eq_true. done. Qed.

Lemma upsert_inv s ip f db res db' :
  upsert s ip f db = (res, db') ->
  match res with
  | Err _ => db' = db
  | Ok _ => exists c r, canonicalIdentity ip None = Ok c /\ same_setting db db' /\ leafSubnetCache db' = leafSubnetCache db /\
      addresses db' = <[identity_of s c := r]> (addresses db) /\
      let old := addresses db !! identity_of s c in
      alloc (Some r) = (default (alloc old).1 (f_state f), default (alloc old).2 (f_source_type f)) /\
      (forall i, f_source_id f = Some i -> source_id (Some r) = default 0 i)
  end.
Proof.
  unfold upsert. intros H. mstep H; apply lift_inv in E as [E ->]; [done|].
  mcbn H. destruct (addresses db !! identity_of s a) as [r|] eqn:Hr.
  - destruct (has_updates r f) eqn:Hu; mcbn H; simplify_eq; exists a.
    + exists (updated_row (now db) r f). rewrite Hr. split_and!; try done. intros i Hi. cbn. by rewrite Hi.
    + exists r. rewrite Hr, insert_id by done. unfold has_updates in Hu. repeat (apply orb_false_iff in Hu as [Hu ?]).
      split_and!; try done; cbn.
      * by rewrite !given_same.
      * intros i Hi. match goal with Hd : given_differs (f_source_id f) _ = false |- _ => rewrite Hi in Hd; cbn in Hd end.
        destruct (bool_decide_reflect (i = allocation_source_id r)) as [Hi'|]; [by rewrite Hi'|done].
  - destruct (bool_decide _); mcbn H; simplify_eq; [done|]. exists a, (inserted_row (next_row_id db) (now db) a f).
    rewrite Hr. split_and!; try done. intros i Hi. cbn. rewrite Hi. by destruct i as [[]|].
Qed.
