(* ===== verification/IpService.v ===== *)
(** * Who owns an address

    [server/src/services/ip-lifecycle-service.js]: the operations that reserve
    an address, protect it for the topology, hold it for a DNS record that is
    not served, and record what is observed on the wire; and the invariant
    that an address has at most one owner, who alone lets it go. *)

From S2P Require Import Prelude JsString Address Cidr DhcpPools DnsNames IpLifecycle IpRows.

(** ** The service *)

Definition protectedAddressReason (db : Db) (subnetId : Z) (ip : string) : result cidr_error (option string) :=
  p ← protectedAddress db subnetId ip;
  mret (match p with Some q => named (Some (p_reason q)) | None => None end).

(** [existing?.allocation_state || UNASSIGNED] *)
Definition state_of (r : option Row) : ALLOCATION_STATE :=
  match r with Some r => allocation_state r | None => UNASSIGNED end.

Definition topologyTarget (s : ALLOCATION_STATE) : bool := bool_decide (s = SYSTEM \/ s = GATEWAY).

Definition assertAllocationTransition (subnetId : Z) (ip : string) (targetState : ALLOCATION_STATE) (source : LIFECYCLE_SOURCE)
  : M (option Row) :=
  existing ← findBySubnetAndIp subnetId ip;
  let currentState := state_of existing in
  db ← get;
  protectedReason ← (if negb (bool_decide (targetState = UNASSIGNED)) && negb (topologyTarget targetState)
                     then cidr_call (protectedAddressReason db subnetId ip) else mret None);
  match protectedReason with
  | Some reason => throw (Conflict reason currentState targetState ip)
  | None =>
      if bool_decide (currentState = UNASSIGNED) && bool_decide (targetState = UNASSIGNED) then mret existing
      else if canTransitionAllocation currentState targetState source then mret existing
      else throw (Conflict ("Cannot change " +:+ ip +:+ " from " +:+ state_name currentState +:+ " to " +:+ state_name targetState
                             +:+ " via " +:+ source_name source) currentState targetState ip)
  end.

Definition to_columns (l : list (string * Sql)) : gmap string Sql := list_to_map l.

(** What an allocation clears, [...fields] over it. *)
Definition allocationFields (s : ALLOCATION_STATE) : gmap string Sql :=
  if bool_decide (s = UNASSIGNED)
  then to_columns [("preferred_until", Null); ("valid_until", Null); ("dhcp_version", Null); ("dhcp_duid", Null); ("dhcp_iaid", Null)]
  else to_columns [("is_rogue", Int 0); ("rogue_reason", Null)].

Definition setCanonicalAllocation (subnetId : Z) (ip : string) (s : ALLOCATION_STATE) (sourceType : option LIFECYCLE_SOURCE)
  (sourceId : option Z) (fields : gmap string Sql) (event : option AllocationEvent) : M Z :=
  row ← upsert subnetId ip (mkFields (Some s) (Some sourceType) (Some sourceId) (fields ∪ allocationFields s) event);
  _ ← (if bool_decide (s = UNASSIGNED) then modify (add_ptr_check ip) else mret tt);
  mret row.

(** The record that holds an address it does not serve. *)
Definition holding_row (ip : string) (r : DnsRow) : bool :=
  String.eqb (dr_value r) ip && (String.eqb (dr_type r) "A" || String.eqb (dr_type r) "AAAA")
  && String.eqb (zone_type r) "forward" && String.eqb (default "manual" (dr_source r)) "manual"
  && (negb (dr_enabled r) || negb (zone_enabled r)).

Definition dnsHoldingRecord (db : Db) (subnetId : Z) (ip : string) : result cidr_error (option DnsRow) :=
  p ← protectedAddress db subnetId ip;
  match p with
  | Some _ => mret None
  | None =>
      scope ← findEnabledScopeForIp db subnetId ip;
      match scope with
      | Some _ => mret None
      | None => mret (head (sort_by dr_id (List.filter (holding_row ip) (records db))))
      end
  end.

Definition isDnsHold (row : option Row) : bool :=
  match row with
  | Some r => bool_decide (allocation_state r = RESERVED) && bool_decide (allocation_source_type r = Some DNS)
  | None => false
  end.

(** What an operation returns: a row it read or the id of the row it wrote. *)
Inductive returned := RRow (r : Row) | RId (id : Z).

Definition hold_event (type : string) (new : Sql) : AllocationEvent :=
  mkAllocationEvent type (Some Null) (Some new) (Some (source_name DNS)).

Definition recheckHold (ip : string) (subnet : Leaf) : M (option returned) :=
  existing ← findBySubnetAndIp (lf_id subnet) ip;
  let held := isDnsHold existing in
  if negb (bool_decide (state_of existing = UNASSIGNED)) && negb held then mret (RRow <$> existing)
  else
    db ← get;
    holder ← cidr_call (dnsHoldingRecord db (lf_id subnet) ip);
    match holder with
    | Some holder =>
        if held && (source_id existing =? dr_id holder) then mret (RRow <$> existing)
        else
          _ ← assertAllocationTransition (lf_id subnet) ip RESERVED DNS;
          id ← setCanonicalAllocation (lf_id subnet) ip RESERVED (Some DNS) (Some (dr_id holder))
                 (to_columns [("reservation_note", Null)])
                 (Some (hold_event "dns_hold_taken" (Text (fqdnForRecordName (dr_name holder) (zone_name holder)))));
          mret (Some (RId id))
    | None =>
        if negb held then mret (RRow <$> existing)
        else
          _ ← assertAllocationTransition (lf_id subnet) ip UNASSIGNED DNS;
          id ← setCanonicalAllocation (lf_id subnet) ip UNASSIGNED None None ∅ (Some (hold_event "dns_hold_released" Null));
          mret (Some (RId id))
    end.

Definition reconcileDnsHold (ip : string) : M (option returned) :=
  subnet ← findSubnetForIp ip;
  match subnet with
  | None => mret None
  | Some subnet => recheckHold ip subnet
  end.

Definition note_of (row : option Row) : Sql :=
  match row with
  | Some r => match col (columns r) "reservation_note" with Text "" => Null | v => v end
  | None => Null
  end.

Definition setManualReservation (subnetId : Z) (ip : string) (reserved : bool) (note : option string) : M (option returned) :=
  existing ← findBySubnetAndIp subnetId ip;
  let target := if reserved then RESERVED else UNASSIGNED in
  if isDnsHold existing
  then throw (Conflict (ip +:+ " is held by a disabled DNS record. Enable the record to publish it, or delete it to free the address")
                (state_of existing) target ip)
  else
    _ ← assertAllocationTransition subnetId ip target ADMIN_RESERVATION;
    id ← setCanonicalAllocation subnetId ip target (if reserved then Some ADMIN_RESERVATION else None) None
           (to_columns [("reservation_note", if reserved then text_or_null note else Null);
                        ("detection_source", if reserved then Text "manual" else Null)])
           (Some (if reserved
                  then mkAllocationEvent "ip_reservation_created" (Some Null) (Some (text_or_null (named note))) (Some "manual")
                  else mkAllocationEvent "ip_reservation_released" (Some (note_of existing)) (Some Null) (Some "manual")));
    if reserved then mret (Some (RId id))
    else
      held ← reconcileDnsHold ip;
      mret (match held with Some r => Some r | None => Some (RId id) end).

Definition protectTopologyAddress (subnetId : Z) (ip : string) (s : ALLOCATION_STATE) (note : option string) : M Z :=
  if negb (topologyTarget s) then throw (Thrown ("Invalid protected topology state: " +:+ state_name s))
  else
    _ ← assertAllocationTransition subnetId ip s TOPOLOGY;
    setCanonicalAllocation subnetId ip s (Some TOPOLOGY) None
      (to_columns [("reservation_note", text_or_null note); ("detection_source", Text "topology")]) None.

Definition releaseTopologyAddress (subnetId : Z) (ip : string) : M Z :=
  _ ← assertAllocationTransition subnetId ip UNASSIGNED TOPOLOGY;
  setCanonicalAllocation subnetId ip UNASSIGNED None None
    (to_columns [("reservation_note", Null); ("detection_source", Null)]) None.

Definition observeSlaac (subnetId : Z) (ip : string) (interfaceId preferredUntil validUntil : option string) (temporary : bool) : M Z :=
  match named validUntil with
  | None => throw (Thrown "SLAAC valid lifetime is required")
  | Some valid =>
      identityIp ← lift (lifecycleIdentityIp ip interfaceId);
      _ ← assertAllocationTransition subnetId identityIp SLAAC SLAAC_SOURCE;
      setCanonicalAllocation subnetId identityIp SLAAC (Some SLAAC_SOURCE) None
        (to_columns [("preferred_until", text_or_null (named preferredUntil)); ("valid_until", Text valid);
                     ("detection_source", Text (if temporary then "slaac_privacy" else "slaac"))]) None
  end.

(** [duid] and [iaid] are the texts given, the [iaid] of a number its
    decimal; what is neither text nor number is [None]. *)
Definition observeDhcpv6Lease (subnetId : Z) (ip : string) (duid iaid preferredUntil validUntil : option string)
  (poolValidated observedActivity : bool) : M Z :=
  let normalizedDuid := trim (default "" duid) in
  let normalizedIaid := trim (default "" iaid) in
  if String.eqb normalizedDuid "" || String.eqb normalizedIaid "" || (512 <? js_length normalizedDuid) || (128 <? js_length normalizedIaid)
  then throw (Thrown "DHCPv6 lease requires DUID and IAID identity")
  else match named validUntil with
       | None => throw (Thrown "DHCPv6 valid lifetime is required")
       | Some valid =>
           if negb poolValidated then throw (Thrown "DHCPv6 lease requires validated enabled-pool membership")
           else
             _ ← assertAllocationTransition subnetId ip DYNAMIC_DHCP DHCP_LEASE;
             setCanonicalAllocation subnetId ip DYNAMIC_DHCP (Some DHCP_LEASE) None
               (to_columns ([("dhcp_version", Int 6); ("dhcp_duid", Text normalizedDuid); ("dhcp_iaid", Text normalizedIaid);
                             ("preferred_until", text_or_null (named preferredUntil)); ("valid_until", Text valid);
                             ("detection_source", Text "dhcpv6_lease")]
                            ++ (if observedActivity then [("is_online", Int 1)] else []))) None
       end.

Definition observeNeighbor (subnetId : Z) (ip : string) (interfaceId mac : option string) (rogueAllowed : bool) (source : string) : M Z :=
  identityIp ← lift (lifecycleIdentityIp ip interfaceId);
  existing ← findBySubnetAndIp subnetId identityIp;
  let isRogue := rogueAllowed && bool_decide (state_of existing = UNASSIGNED) in
  upsert subnetId identityIp
    (mkFields None None None
       (to_columns ([("is_online", Int 1)] ++ match named mac with Some m => [("last_seen_mac", Text m)] | None => [] end
          ++ [("is_rogue", Int (if isRogue then 1 else 0));
              ("rogue_reason", if isRogue then Text "Neighbor Discovery from unassigned address" else Null);
              ("detection_source", Text source)])) None).

Definition observeRouterAdvertisement (subnetId : Z) (ip : string) (interfaceId : option string) (trusted : bool) : M Z :=
  if negb trusted then throw (Thrown "Untrusted Router Advertisement cannot set gateway authority")
  else
    identityIp ← lift (lifecycleIdentityIp ip interfaceId);
    _ ← assertAllocationTransition subnetId identityIp GATEWAY TOPOLOGY;
    setCanonicalAllocation subnetId identityIp GATEWAY (Some TOPOLOGY) None
      (to_columns [("detection_source", Text "router_advertisement")]) None.

(** ** Operations and steps *)

Inductive op :=
| Reserve (subnetId : Z) (ip : string) (note : option string)
| Unreserve (subnetId : Z) (ip : string)
| Protect (subnetId : Z) (ip : string) (s : ALLOCATION_STATE) (note : option string)
| Unprotect (subnetId : Z) (ip : string)
| Slaac (subnetId : Z) (ip : string) (interfaceId preferredUntil validUntil : option string) (temporary : bool)
| Dhcpv6Lease (subnetId : Z) (ip : string) (duid iaid preferredUntil validUntil : option string) (poolValidated observedActivity : bool)
| Neighbor (subnetId : Z) (ip : string) (interfaceId mac : option string) (rogueAllowed : bool) (source : string)
| RouterAdvertisement (subnetId : Z) (ip : string) (interfaceId : option string) (trusted : bool)
| CheckHold (ip : string).

Definition run (o : op) : M (option returned) :=
  let wrote (m : M Z) : M (option returned) := id ← m; mret (Some (RId id)) in
  match o with
  | Reserve s ip note => setManualReservation s ip true note
  | Unreserve s ip => setManualReservation s ip false None
  | Protect s ip st note => wrote (protectTopologyAddress s ip st note)
  | Unprotect s ip => wrote (releaseTopologyAddress s ip)
  | Slaac s ip i pu vu t => wrote (observeSlaac s ip i pu vu t)
  | Dhcpv6Lease s ip d i pu vu pv oa => wrote (observeDhcpv6Lease s ip d i pu vu pv oa)
  | Neighbor s ip i m ra src => wrote (observeNeighbor s ip i m ra src)
  | RouterAdvertisement s ip i t => wrote (observeRouterAdvertisement s ip i t)
  | CheckHold ip => reconcileDnsHold ip
  end.

(** A request runs one operation; between requests the records and the pools
    change in any way, and the cache of subnets is dropped. *)
Inductive label :=
| Request (at_ : string) (by_ : option string) (o : op)
| Records (l : list DnsRow)
| Pools (l : list ScopePool)
| InvalidateCache.

Definition request (at_ : string) (by_ : option string) (db : Db) : Db :=
  mkDb (subnets db) (pools db) (records db) (leafSubnetCache db) (addresses db) (next_row_id db) (events db) (ptr_checks db) at_ by_.

Definition exec (l : label) (db : Db) : Db :=
  match l with
  | Request t a o => (run o (request t a db)).2
  | Records r => mkDb (subnets db) (pools db) r (leafSubnetCache db) (addresses db) (next_row_id db) (events db) (ptr_checks db) (now db) (actor db)
  | Pools p => mkDb (subnets db) p (records db) (leafSubnetCache db) (addresses db) (next_row_id db) (events db) (ptr_checks db) (now db) (actor db)
  | InvalidateCache => (invalidateSubnetCache db).2
  end.

(** The routes release only an address without a zone id, and save only pools
    whose ends are addresses. *)
Definition pool_parses (p : ScopePool) : bool := is_ok (addressToBig (sp_start p)) && is_ok (addressToBig (sp_end p)).

Definition admissible (l : label) : bool :=
  match l with
  | Request _ _ (Unreserve _ ip) => isValidAddress ip
  | Pools p => forallb pool_parses p
  | _ => true
  end.

Definition step (db : Db) (l : label) (db' : Db) : Prop := admissible l = true /\ exec l db = db'.

(** The sources an operation may change the allocation of. *)
Definition sources (o : op) : list LIFECYCLE_SOURCE :=
  match o with
  | Reserve _ _ _ => [ADMIN_RESERVATION]
  | Unreserve _ _ => [ADMIN_RESERVATION; DNS]
  | Protect _ _ _ _ | Unprotect _ _ | RouterAdvertisement _ _ _ _ => [TOPOLOGY]
  | Slaac _ _ _ _ _ _ => [SLAAC_SOURCE]
  | Dhcpv6Lease _ _ _ _ _ _ _ _ => [DHCP_LEASE]
  | Neighbor _ _ _ _ _ _ => []
  | CheckHold _ => [DNS]
  end.

(** ** The invariant *)

Definition owner_ok (a : ALLOCATION_STATE * option LIFECYCLE_SOURCE) : Prop :=
  match a.1 with
  | UNASSIGNED => a.2 = None
  | RESERVED => a.2 = Some ADMIN_RESERVATION \/ a.2 = Some DNS
  | STATIC_DNS => a.2 = Some DNS
  | DYNAMIC_DHCP => a.2 = Some DHCP_LEASE
  | STATIC_DHCP => a.2 = Some DHCP_RESERVATION
  | SLAAC => a.2 = Some SLAAC_SOURCE
  | SYSTEM | GATEWAY => a.2 = Some TOPOLOGY
  | QUARANTINED => a.2 = Some RECONCILIATION
  end.

Definition for_topology (s : ALLOCATION_STATE) : bool := bool_decide (s = UNASSIGNED) || topologyTarget s.

Definition net_parses (s : Subnet) : Prop :=
  is_ok (parseNetwork (sn_cidr s)) = true /\ (forall g, named (sn_gateway s) = Some g -> is_ok (addressToBig g) = true).

Record sound (db : Db) : Prop := {
  s_nets : Forall net_parses (subnets db);
  s_pools : forallb pool_parses (pools db) = true;
  s_owned : forall k, owner_ok (alloc (addresses db !! k));
  s_protected : forall s ip p, protectedAddress db s ip = Ok (Some p) ->
      for_topology (alloc (addresses db !! (s, ip, ""))).1 = true }.

(** ** Lemmas: transitions *)

#[local] Hint Resolve same_setting_refl : core.

Lemma protected_reason db s ip p : protectedAddress db s ip = Ok (Some p) -> p_reason p <> "".
Proof.
  unfold protectedAddress, mbind, result_bind, mret, result_ret. intros H. repeat case_match; simplify_eq; cbn; try done.
Qed.

Lemma assert_inv s ip t src db res db' :
  assertAllocationTransition s ip t src db = (res, db') ->
  db' = db /\ match res with
             | Err _ => True
             | Ok existing => exists c, canonicalIdentity ip None = Ok c /\ existing = addresses db !! identity_of s c /\
                 ((alloc existing).1 = UNASSIGNED /\ t = UNASSIGNED \/ canTransitionAllocation (alloc existing).1 t src = true) /\
                 (for_topology t = false -> protectedAddress db s ip = Ok None)
             end.
Proof.
  unfold assertAllocationTransition. intros H. mstep H; apply find_row_inv in E as [-> E]; [done|].
  destruct (canonicalIdentity ip None) as [c|] eqn:Hc; [|done]. injection E as ->. mcbn H.
  match type of H with context [match ?m db with _ => _ end] => destruct (m db) as [o d] eqn:Ho end.
  assert (d = db /\ forall r, o = Ok r -> (r = None -> for_topology t = false -> protectedAddress db s ip = Ok None)) as [-> Hr].
  { unfold for_topology. destruct (bool_decide (t = UNASSIGNED)), (topologyTarget t); cbn [negb andb] in Ho.
    1-3: by mcbn Ho; simplify_eq.
    apply cidr_call_inv in Ho as [-> Ho]. split; [done|]. intros r -> -> _. unfold protectedAddressReason, mbind, result_bind in Ho.
    destruct (protectedAddress db s ip) as [[p|]|] eqn:Hp; [|done|done]. apply protected_reason in Hp.
    cbn in Ho. by destruct (p_reason p). }
  destruct o as [[r|]|e]; [by mcbn H; simplify_eq| |by simplify_eq]. specialize (Hr None eq_refl eq_refl).
  assert (state_of (addresses db !! identity_of s c) = (alloc (addresses db !! identity_of s c)).1) as Hst by (by destruct (addresses db !! _)).
  destruct (bool_decide (state_of _ = UNASSIGNED) && bool_decide (t = UNASSIGNED)) eqn:Hu.
  - mcbn H. simplify_eq. split; [done|]. exists c. apply andb_true_iff in Hu as [?%bool_decide_eq_true ?%bool_decide_eq_true].
    rewrite <- Hst. split_and!; auto.
  - destruct (canTransitionAllocation _ _ _) eqn:Ht; mcbn H; simplify_eq; [|done]. split; [done|]. exists c.
    rewrite <- Hst. split_and!; auto.
Qed.

Lemma set_inv s ip t st sid fs ev db res db' :
  setCanonicalAllocation s ip t st sid fs ev db = (res, db') ->
  match res with
  | Err _ => db' = db
  | Ok _ => exists c r, canonicalIdentity ip None = Ok c /\ same_setting db db' /\ leafSubnetCache db' = leafSubnetCache db /\
      addresses db' = <[identity_of s c := r]> (addresses db) /\ alloc (Some r) = (t, st) /\
      source_id (Some r) = default 0 sid
  end.
Proof.
  unfold setCanonicalAllocation. intros H. mstep H; apply upsert_inv in E; [done|].
  destruct E as (c & r & Hc & Hs & Hl & Ha & Hr & Hid). cbn in Hr. specialize (Hid sid eq_refl).
  destruct (bool_decide (t = UNASSIGNED)); mcbn H; simplify_eq; exists c, r; split_and!; try done.
  by destruct Hs.
Qed.

(** ** How owners change *)

(** An address either keeps its owner, or was free or owned by one of the
    sources and has a proper owner now. *)
Definition may_change (srcs : list LIFECYCLE_SOURCE) (db : Db) (k : Identity) (old new : ALLOCATION_STATE * option LIFECYCLE_SOURCE) : Prop :=
  new = old \/
  (old.2 = None \/ exists src, src ∈ srcs /\ old.2 = Some src) /\ owner_ok new /\
  (k.2 = "" -> for_topology new.1 = true \/ protectedAddress db k.1.1 k.1.2 = Ok None).

Record evolves (srcs : list LIFECYCLE_SOURCE) (db db' : Db) : Prop := {
  ev_setting : same_setting db db';
  ev_owners : forall k, may_change srcs db k (alloc (addresses db !! k)) (alloc (addresses db' !! k)) }.

Lemma evolves_same srcs db db' : same_setting db db' -> addresses db' = addresses db -> evolves srcs db db'.
Proof. intros Hs Ha. constructor; [done|]. intros k. left. by rewrite Ha. Qed.

Lemma protected_setting db db' s ip : same_setting db db' -> protectedAddress db' s ip = protectedAddress db s ip.
Proof. intros [Hs _ _]. unfold protectedAddress, find_subnet. by rewrite Hs. Qed.

Lemma evolves_trans s1 s2 a b c : evolves s1 a b -> evolves s2 b c -> evolves (s1 ++ s2) a c.
Proof.
  intros [Ha Oa] [Hb Ob]. constructor; [by eapply same_setting_trans|]. intros k.
  destruct (Ob k) as [->|(Hs2 & Ho2 & Hp2)]; destruct (Oa k) as [Hk|(Hs1 & Ho1 & Hp1)].
  - by left.
  - right. split; [|done]. destruct Hs1 as [?|(x & ? & ?)]; [by left|right]. exists x. rewrite elem_of_app. auto.
  - right. rewrite Hk in Hs2. rewrite (protected_setting a b) in Hp2 by done. split; [|done].
    destruct Hs2 as [?|(x & ? & ?)]; [by left|right]. exists x. rewrite elem_of_app. auto.
  - right. rewrite (protected_setting a b) in Hp2 by done. split; [|done].
    destruct Hs1 as [?|(x & ? & ?)]; [by left|right]. exists x. rewrite elem_of_app. auto.
Qed.

(** A change the table allows is made to a free address or by its owner. *)
Lemma transition_owner src from t st :
  owner_ok (from, st) -> from = UNASSIGNED /\ t = UNASSIGNED \/ canTransitionAllocation from t src = true ->
  match src with ADMIN_RESERVATION | DNS => from <> RESERVED \/ st = Some src | DHCP_RESERVATION => from <> RESERVED | RECONCILIATION => False | _ => True end ->
  st = None \/ st = Some src.
Proof.
  unfold owner_ok, canTransitionAllocation. rewrite bool_decide_eq_true. cbn.
  intros Ho [[-> ->]|Ht] Hsrc; [by left|]. destruct src, from; cbn in Ht, Ho, Hsrc; try set_solver.
Qed.

(** [assertAllocationTransition] then [setCanonicalAllocation], the way every
    operation claims or releases an address. *)
Lemma claim_evolves s ip t src st sid fs ev db e db1 res db2 :
  assertAllocationTransition s ip t src db = (Ok e, db1) ->
  setCanonicalAllocation s ip t st sid fs ev db1 = (res, db2) ->
  owner_ok (alloc e) -> owner_ok (t, st) ->
  match src with ADMIN_RESERVATION | DNS => (alloc e).1 <> RESERVED \/ (alloc e).2 = Some src | DHCP_RESERVATION => (alloc e).1 <> RESERVED | RECONCILIATION => False | _ => True end ->
  match res with
  | Err _ => db2 = db
  | Ok _ => evolves [src] db db2 /\ leafSubnetCache db2 = leafSubnetCache db /\
      exists c r, canonicalIdentity ip None = Ok c /\ addresses db2 = <[identity_of s c := r]> (addresses db) /\
        alloc (Some r) = (t, st) /\ source_id (Some r) = default 0 sid
  end.
Proof.
  intros Ha Hs Ho Ht Hsrc. apply assert_inv in Ha as (-> & c & Hc & He & Hcan & Hp). apply set_inv in Hs.
  destruct res as [id|]; [|done]. destruct Hs as (c' & r & Hc' & Hset & Hl & Haddr & Hr & Hid). rewrite Hc in Hc'. injection Hc' as <-.
  split; [|split; [done|exists c, r; done]]. constructor; [done|]. intros k. rewrite Haddr. destruct (decide (k = identity_of s c)) as [->|Hk].
  - rewrite lookup_insert_eq, Hr, <- He. right. split; [|split; [done|]].
    + destruct (transition_owner src (alloc e).1 t (alloc e).2) as [|Hsome]; [by destruct (alloc e)|done|done|by left|].
      right. exists src. split; [set_solver|done].
    + intros Hi. cbn in Hi |- *. destruct (for_topology t) eqn:Hft; [by left|right].
      rewrite (protected_canonical db s ip c Hc Hi). by apply Hp.
  - rewrite lookup_insert_ne by done. by left.
Qed.

(** ** Lemmas: finding the subnet *)

(** Nothing but the cache changes. *)
Record cache_only (db db' : Db) : Prop := {
  co_setting : same_setting db db';
  co_addresses : addresses db' = addresses db;
  co_events : events db' = events db }.

Lemma cache_only_refl db : cache_only db db.
Proof. done. Qed.
#[local] Hint Resolve cache_only_refl : core.

(** Looking again finds the same subnet and changes nothing. *)
Lemma subnet_row_inv ip db res db' :
  findSubnetForIp ip db = (res, db') ->
  cache_only db db' /\
  forall leaf, res = Ok leaf -> forall d, leafSubnetCache d = leafSubnetCache db' -> findSubnetForIp ip d = (Ok leaf, d).
Proof.
  unfold findSubnetForIp. destruct (parseIp default_options ip) as [p|]; [|intros; mcbn H; by simplify_eq].
  intros H. mstep H; unfold leaves in E; mcbn E.
  all: destruct (leafSubnetCache db) as [l|] eqn:Hl;
    [mcbn E|unfold cidr_call in E; destruct (map_result _ _); mcbn E]; simplify_eq; try done.
  all: mcbn H; simplify_eq; split; [done|].
  all: intros leaf ? d0 Hd; simplify_eq; unfold leaves, mbind, M_bind, get; rewrite Hd, ?Hl; reflexivity.
Qed.

(** ** Lemmas: the DNS hold *)

Lemma hold_setting db db' s ip : same_setting db db' -> dnsHoldingRecord db' s ip = dnsHoldingRecord db s ip.
Proof.
  intros Hs. unfold dnsHoldingRecord. rewrite (protected_setting db db') by done.
  destruct Hs as [_ Hp Hr]. unfold findEnabledScopeForIp. by rewrite Hp, Hr.
Qed.

(** The row of [ip] agrees with the records: a free address has no record
    that would hold it, a held one is held for the record that should. *)
Definition hold_settled (db : Db) (s : Z) (ip : string) (row : option Row) : Prop :=
  ((alloc row).1 = UNASSIGNED -> dnsHoldingRecord db s ip = Ok None) /\
  (isDnsHold row = true -> exists h, dnsHoldingRecord db s ip = Ok (Some h) /\ source_id row = dr_id h).

(** What [reconcileDnsHold] does: it takes or moves a hold, releases it, or
    leaves the address. *)
Definition hold_alloc : list (ALLOCATION_STATE * option LIFECYCLE_SOURCE) := [(RESERVED, Some DNS); (UNASSIGNED, None)].

Lemma state_of_alloc row : state_of row = (alloc row).1.
Proof. by destruct row. Qed.

Lemma is_hold_alloc row : isDnsHold row = true <-> alloc row = (RESERVED, Some DNS).
Proof.
  destruct row as [r|]; cbn; [|done]. rewrite andb_true_iff, !bool_decide_eq_true. split; [by intros [-> ->]|by intros [= -> ->]].
Qed.

(** One address re-checked in its subnet. *)
Record hold_step (ip : string) (leaf : Leaf) (db db' : Db) (ok : bool) : Prop := {
  hs_evolves : evolves [DNS] db db';
  hs_cache : leafSubnetCache db' = leafSubnetCache db;
  hs_alloc : forall k, alloc (addresses db' !! k) = alloc (addresses db !! k) \/ alloc (addresses db' !! k) ∈ hold_alloc;
  hs_failed : ok = false -> db' = db;
  hs_settled : ok = true -> forall c, canonicalIdentity ip None = Ok c ->
      hold_settled db' (lf_id leaf) ip (addresses db' !! identity_of (lf_id leaf) c) }.

Lemma hold_step_same ip leaf db ok c :
  canonicalIdentity ip None = Ok c ->
  (ok = true -> hold_settled db (lf_id leaf) ip (addresses db !! identity_of (lf_id leaf) c)) ->
  hold_step ip leaf db db ok.
Proof. intros Hc Hh. constructor; [by apply evolves_same|done|by left|done|]. intros Hok c'. rewrite Hc. intros [= <-]. auto. Qed.

(** The hold is written: taken for a record, or released. *)
Lemma hold_write ip leaf t st sid fs ev db e db1 res db2 c :
  canonicalIdentity ip None = Ok c ->
  owner_ok (alloc (addresses db !! identity_of (lf_id leaf) c)) ->
  (alloc (addresses db !! identity_of (lf_id leaf) c)).1 <> RESERVED \/ isDnsHold (addresses db !! identity_of (lf_id leaf) c) = true ->
  t = RESERVED /\ st = Some DNS /\ (exists h, dnsHoldingRecord db (lf_id leaf) ip = Ok (Some h) /\ sid = Some (dr_id h)) \/
  t = UNASSIGNED /\ st = None /\ dnsHoldingRecord db (lf_id leaf) ip = Ok None ->
  assertAllocationTransition (lf_id leaf) ip t DNS db = (Ok e, db1) ->
  setCanonicalAllocation (lf_id leaf) ip t st sid fs ev db1 = (res, db2) ->
  hold_step ip leaf db db2 (is_ok res).
Proof.
  intros Hc Ho Hheld Hw Ha Hs. pose proof (assert_inv _ _ _ _ _ _ _ Ha) as (_ & c' & Hc' & He & _).
  rewrite Hc in Hc'. injection Hc' as <-. rewrite <- He, is_hold_alloc in *.
  eapply claim_evolves in Hs as Hres; [|exact Ha|done| |].
  2: { destruct Hw as [(-> & -> & _)|(-> & -> & _)]; cbn; auto. }
  2: { destruct Hheld as [| ->]; auto. }
  destruct res as [id|]; cbn [is_ok].
  2: { rewrite Hres. by eapply hold_step_same. }
  destruct Hres as (Hev & Hl & c' & r & Hc' & Haddr & Hr & Hid). rewrite Hc in Hc'. injection Hc' as <-.
  pose proof (ev_setting _ _ _ Hev) as Hset. constructor; [done|done| |done|].
  - intros k. rewrite Haddr. destruct (decide (k = identity_of (lf_id leaf) c)) as [->|]; [|rewrite lookup_insert_ne by done; by left].
    rewrite lookup_insert_eq, Hr. right. unfold hold_alloc. destruct Hw as [(-> & -> & _)|(-> & -> & _)]; set_solver.
  - intros _ c'. rewrite Hc. intros [= <-]. rewrite Haddr, lookup_insert_eq. unfold hold_settled.
    rewrite is_hold_alloc, Hr, (hold_setting db db2) by done.
    destruct Hw as [(-> & -> & h & Hh & ->)|(-> & -> & Hn)]; split; try done. intros _. by exists h.
Qed.

Lemma recheck_step ip leaf db res db' :
  (forall k, owner_ok (alloc (addresses db !! k))) ->
  recheckHold ip leaf db = (res, db') -> hold_step ip leaf db db' (is_ok res).
Proof.
  intros Hown H. unfold recheckHold in H. mstep H; apply find_row_inv in E as [-> Ef].
  { constructor; [by apply evolves_same|done|by left|done|done]. }
  destruct (canonicalIdentity ip None) as [c|] eqn:Hc; [|done]. injection Ef as ->.
  set (row := addresses db !! identity_of (lf_id leaf) c) in *. specialize (Hown (identity_of (lf_id leaf) c)) as Ho. fold row in Ho.
  pose proof (is_hold_alloc row) as Hhold. rewrite state_of_alloc in H.
  destruct (negb (bool_decide ((alloc row).1 = UNASSIGNED)) && negb (isDnsHold row)) eqn:Hskip.
  { mcbn H. simplify_eq. eapply hold_step_same; [done|]. intros _. fold row.
    apply andb_true_iff in Hskip as [?%negb_true_iff%bool_decide_eq_false ?%negb_true_iff]. split; [done|congruence]. }
  assert ((alloc row).1 = UNASSIGNED \/ isDnsHold row = true) as Hrow.
  { apply andb_false_iff in Hskip as [?%negb_false_iff%bool_decide_eq_true|?%negb_false_iff]; auto. }
  assert ((alloc row).1 <> RESERVED \/ isDnsHold row = true) as Hheld by (destruct Hrow as [->|]; auto).
  clear Hskip. mstep H; [done|]. unfold get in E. simplify_eq. mstep H; apply cidr_call_inv in E as [-> Eh].
  { constructor; [by apply evolves_same|done|by left|done|done]. }
  destruct a0 as [h|].
  - destruct (isDnsHold row && (source_id row =? dr_id h)) eqn:Hs.
    + mcbn H. simplify_eq. eapply hold_step_same; [done|]. intros _. fold row. apply andb_true_iff in Hs as [Hs ?%Z.eqb_eq].
      apply Hhold in Hs. split; [by rewrite Hs|]. eauto.
    + mstep H; [apply assert_inv in E as [-> _]; by eapply hold_step_same|].
      mstep H; [|mcbn H; simplify_eq].
      all: eapply (hold_write ip leaf RESERVED (Some DNS)) in E0; [exact E0|done..| |exact E]; left; eauto.
  - destruct (isDnsHold row) eqn:Hs; cbn [negb] in H.
    + mstep H; [apply assert_inv in E as [-> _]; by eapply hold_step_same|].
      mstep H; [|mcbn H; simplify_eq].
      all: eapply (hold_write ip leaf UNASSIGNED None) in E0; [exact E0|exact Hc|exact Ho|by right|by right|exact E].
    + mcbn H. simplify_eq. eapply hold_step_same; [done|]. intros _. fold row. split; [done|congruence].
Qed.

Lemma reconcile_inv ip db res db' :
  (forall k, owner_ok (alloc (addresses db !! k))) ->
  reconcileDnsHold ip db = (res, db') ->
  evolves [DNS] db db' /\
  (forall k, alloc (addresses db' !! k) = alloc (addresses db !! k) \/ alloc (addresses db' !! k) ∈ hold_alloc) /\
  match res with
  | Err _ => cache_only db db'
  | Ok _ => forall leaf d c, findSubnetForIp ip db' = (Ok (Some leaf), d) -> canonicalIdentity ip None = Ok c ->
      hold_settled db' (lf_id leaf) ip (addresses db' !! identity_of (lf_id leaf) c)
  end.
Proof.
  intros Hown H. unfold reconcileDnsHold in H. mstep H; apply subnet_row_inv in E as [Hc Hagain].
  { split; [by apply evolves_same; apply Hc|]. split; [|done]. intros k. left. by rewrite (co_addresses _ _ Hc). }
  assert (forall k, owner_ok (alloc (addresses d !! k))) as Hown' by (intros k; rewrite (co_addresses _ _ Hc); apply Hown).
  destruct a as [leaf|]; cycle 1.
  { mcbn H. simplify_eq. split; [by apply evolves_same; apply Hc|]. split; [intros k; left; by rewrite (co_addresses _ _ Hc)|].
    intros leaf d c Hf. by rewrite (Hagain None eq_refl db' eq_refl) in Hf. }
  apply recheck_step in H as [He Hl Hk Hf Hs]; [|done]. split; [|split].
  - apply (evolves_trans [] [DNS] db d db'); [|done]. apply evolves_same; apply Hc.
  - intros k. by rewrite <- (co_addresses _ _ Hc).
  - destruct res; [|by rewrite Hf]. intros leaf' d' c Hfind. rewrite (Hagain _ eq_refl db' Hl) in Hfind.
    injection Hfind as <- <-. by apply Hs.
Qed.

(** ** Lemmas: a release cannot fail half way *)

Lemma protected_total db s ip : Forall net_parses (subnets db) -> is_Some (try_ok (protectedAddress db s ip)).
Proof.
  intros Hn. unfold protectedAddress. destruct (isValidAddress ip) eqn:Hv; [|done]. cbn [negb].
  destruct (find_subnet s db) as [n|] eqn:Hs; [|done].
  apply List.find_some in Hs as [Hin _]. apply list_elem_of_In in Hin. rewrite Forall_forall in Hn. destruct (Hn n Hin) as [Hc Hg].
  destruct (parseNetwork (sn_cidr n)) as [parsed|]; [|done]. unfold isValidAddress in Hv. unfold mbind, result_bind, mret, result_ret.
  unfold addressToBig at 1. destruct (parseIp no_zone ip) as [p|]; [|done]. destruct (negb _); [done|].
  destruct (isTopologyAddress _ _ && _); [done|]. destruct (isTopologyAddress _ _); [done|].
  destruct (named (sn_gateway n)) as [g|]; [|done]. specialize (Hg g eq_refl). destruct (addressToBig g); [|done]. by case_match.
Qed.

Lemma scope_total db s ip :
  forallb pool_parses (pools db) = true -> isValidAddress ip = true -> is_Some (try_ok (findEnabledScopeForIp db s ip)).
Proof.
  intros Hp Hv. unfold findEnabledScopeForIp, isValidAddress, addressToBig in *. destruct (parseIp no_zone ip) as [p|]; [|done].
  cbn [mbind result_bind].
  match goal with |- is_Some (try_ok (find_result ?f ?l)) => assert (exists r, find_result f l = Ok r) as [r ->]; [|done] end.
  apply find_result_total. intros pool Hin. apply list_elem_of_In, List.filter_In in Hin as [Hin _].
  rewrite forallb_forall in Hp. specialize (Hp pool Hin). unfold pool_parses in Hp. apply andb_true_iff in Hp as [H1 H2].
  unfold pool_has. destruct (addressToBig (sp_start pool)); [|done]. destruct (addressToBig (sp_end pool)); [|done]. by eexists.
Qed.

Lemma holding_total db s ip :
  Forall net_parses (subnets db) -> forallb pool_parses (pools db) = true -> isValidAddress ip = true ->
  exists h, dnsHoldingRecord db s ip = Ok h /\ (h <> None -> protectedAddress db s ip = Ok None).
Proof.
  intros Hn Hp Hv. unfold dnsHoldingRecord. destruct (protected_total db s ip Hn) as [o Ho].
  destruct (protectedAddress db s ip) as [[p|]|] eqn:E; [|..|done]; [by exists None|].
  destruct (scope_total db s ip Hp Hv) as [q Hq]. unfold mbind, result_bind.
  destruct (findEnabledScopeForIp db s ip) as [[|]|]; [by exists None| |done]. eauto.
Qed.

Lemma unprotected_subnet db s ip : isValidAddress ip = true -> protectedAddress db s ip = Ok None -> find_subnet s db <> None.
Proof. unfold protectedAddress. intros ->. cbn. by destruct (find_subnet s db). Qed.

Lemma assert_ok s ip t src db c :
  canonicalIdentity ip None = Ok c ->
  (for_topology t = true \/ protectedAddress db s ip = Ok None) ->
  canTransitionAllocation (alloc (addresses db !! identity_of s c)).1 t src = true ->
  assertAllocationTransition s ip t src db = (Ok (addresses db !! identity_of s c), db).
Proof.
  intros Hc Hp Ht. unfold assertAllocationTransition, findBySubnetAndIp, lift, mbind, M_bind, get, mret, M_ret. rewrite Hc.
  assert ((if negb (bool_decide (t = UNASSIGNED)) && negb (topologyTarget t)
           then cidr_call (protectedAddressReason db s ip) else fun d => (Ok None, d)) db = (Ok None, db)) as ->.
  { unfold for_topology in Hp. destruct (bool_decide (t = UNASSIGNED)), (topologyTarget t); try done.
    destruct Hp as [|Hp]; [done|]. unfold protectedAddressReason. by rewrite Hp. }
  rewrite state_of_alloc, Ht. by destruct (_ && _).
Qed.

Lemma set_ok s ip t st sid fs ev db c :
  canonicalIdentity ip None = Ok c -> is_Some (addresses db !! identity_of s c) \/ find_subnet s db <> None ->
  exists id db', setCanonicalAllocation s ip t st sid fs ev db = (Ok id, db').
Proof.
  intros Hc Hr. unfold setCanonicalAllocation, upsert, lift, mbind, M_bind, get, mret, M_ret, modify. rewrite Hc.
  destruct (addresses db !! identity_of s c) as [r|].
  - destruct (has_updates r _), (bool_decide (t = UNASSIGNED)); eauto.
  - destruct Hr as [[? ?]|Hr]; [done|]. rewrite bool_decide_eq_false_2 by done. destruct (bool_decide (t = UNASSIGNED)); eauto.
Qed.

Lemma recheck_total ip leaf db c :
  sound db -> isValidAddress ip = true -> canonicalIdentity ip None = Ok c ->
  exists r db', recheckHold ip leaf db = (Ok r, db').
Proof.
  intros [Hn Hp Ho _] Hv Hc. unfold recheckHold, findBySubnetAndIp, lift, mbind, M_bind, get, mret, M_ret. rewrite Hc.
  set (row := addresses db !! identity_of (lf_id leaf) c). rewrite state_of_alloc.
  destruct (negb _ && negb (isDnsHold row)) eqn:Hskip; [eauto|].
  assert ((alloc row).1 = UNASSIGNED \/ isDnsHold row = true) as Hrow.
  { apply andb_false_iff in Hskip as [?%negb_false_iff%bool_decide_eq_true|?%negb_false_iff]; auto. }
  rewrite is_hold_alloc in Hrow. destruct (holding_total db (lf_id leaf) ip Hn Hp Hv) as (h & -> & Hh). cbn [cidr_call mret M_ret].
  unfold mret, M_ret. destruct h as [h|].
  - destruct (isDnsHold row && _); [eauto|]. rewrite (assert_ok _ _ _ _ _ c Hc); fold row.
    + edestruct (set_ok (lf_id leaf) ip) as (id & db' & ->); [done| |eauto]. right. eapply unprotected_subnet; eauto.
    + right. by apply Hh.
    + unfold canTransitionAllocation. destruct Hrow as [->| ->]; by vm_compute.
  - destruct (isDnsHold row) eqn:Hs; [|cbn [negb]; eauto]. cbn [negb]. apply is_hold_alloc in Hs as Ha. rewrite (assert_ok _ _ _ _ _ c Hc); fold row.
    + edestruct (set_ok (lf_id leaf) ip) as (id & db' & ->); [done| |eauto]. left. fold row. by destruct row.
    + by left.
    + unfold canTransitionAllocation. rewrite Ha. by vm_compute.
Qed.

Lemma leaf_of_total s : net_parses s -> exists l, leaf_of s = Ok l.
Proof. intros [Hc _]. unfold leaf_of, mbind, result_bind, mret, result_ret. destruct (parseNetwork _); [eauto|done]. Qed.

Lemma find_subnet_total ip db :
  sound db -> isValidAddress ip = true -> exists leaf db', findSubnetForIp ip db = (Ok leaf, db').
Proof.
  intros [Hn _ _ _] Hv. unfold findSubnetForIp. assert (exists p, parseIp default_options ip = Some p) as [p ->].
  { unfold isValidAddress in Hv. unfold parseIp in *. cbn [zoneId no_zone default_options negb] in *.
    destruct (String.eqb _ _); [done|]. destruct (index_of _ _); [done|].
    change (parseIp_address no_zone) with (parseIp_address default_options) in Hv.
    destruct (parseIp_address default_options (trim ip) None); [eauto|done]. }
  unfold leaves, mbind, M_bind, get, mret, M_ret. destruct (leafSubnetCache db) as [l|]; [eauto|].
  destruct (map_result_total leaf_of (leaf_rows (subnets db))) as [l ->]; [|unfold cidr_call, mret, M_ret, modify; eauto].
  intros s Hs. apply list_elem_of_In, List.filter_In in Hs as [Hs _].
  apply leaf_of_total. rewrite Forall_forall in Hn. by apply Hn, list_elem_of_In.
Qed.

(** ** What an operation comes to *)

(** The subnet and the address an operation writes, and the owners it can
    leave there. *)
Definition op_target (o : op) : option (Z * string * list (ALLOCATION_STATE * option LIFECYCLE_SOURCE)) :=
  let at_ s ip i l := (fun ip' => (s, ip', l)) <$> try_ok (lifecycleIdentityIp ip i) in
  match o with
  | Reserve s ip _ => Some (s, ip, [(RESERVED, Some ADMIN_RESERVATION)])
  | Unreserve s ip => Some (s, ip, hold_alloc)
  | Protect s ip st _ => Some (s, ip, [(st, Some TOPOLOGY)])
  | Unprotect s ip => Some (s, ip, [(UNASSIGNED, None)])
  | Slaac s ip i _ _ _ => at_ s ip i [(SLAAC, Some SLAAC_SOURCE)]
  | Dhcpv6Lease s ip _ _ _ _ _ _ => Some (s, ip, [(DYNAMIC_DHCP, Some DHCP_LEASE)])
  | RouterAdvertisement s ip i _ => at_ s ip i [(GATEWAY, Some TOPOLOGY)]
  | Neighbor _ _ _ _ _ _ | CheckHold _ => None
  end.

(** After an operation that returned: its address has an owner it gives, and
    the hold on the address it re-checks agrees with the records. *)
Definition carried_out (o : op) (db : Db) : Prop :=
  (forall s ip l, op_target o = Some (s, ip, l) -> exists c, canonicalIdentity ip None = Ok c /\
     alloc (addresses db !! identity_of s c) ∈ l) /\
  (forall ip, o = CheckHold ip -> forall leaf d c, findSubnetForIp ip db = (Ok (Some leaf), d) -> canonicalIdentity ip None = Ok c ->
     hold_settled db (lf_id leaf) ip (addresses db !! identity_of (lf_id leaf) c)).

Record op_result (o : op) (db db' : Db) (ok : bool) : Prop := {
  or_evolves : evolves (sources o) db db';
  or_failed : ok = false -> cache_only db db';
  or_done : ok = true -> carried_out o db' }.

Lemma op_failed o db : op_result o db db false.
Proof. constructor; [by apply evolves_same|done|done]. Qed.

(** The operations that are one claim. *)
Lemma claim_result o s ip t src st sid fs ev db e db1 res db2 :
  (forall k, owner_ok (alloc (addresses db !! k))) ->
  assertAllocationTransition s ip t src db = (Ok e, db1) ->
  setCanonicalAllocation s ip t st sid fs ev db1 = (res, db2) ->
  sources o = [src] -> (forall a l b, op_target o = Some (a, b, l) -> a = s /\ b = ip /\ l = [(t, st)]) ->
  (forall i, o <> CheckHold i) -> owner_ok (t, st) ->
  match src with ADMIN_RESERVATION | DNS => (alloc e).1 <> RESERVED \/ (alloc e).2 = Some src | DHCP_RESERVATION => (alloc e).1 <> RESERVED | RECONCILIATION => False | _ => True end ->
  op_result o db db2 (is_ok res).
Proof.
  intros Hown Ha Hs Hsrc Ht Hno Hok Hh. pose proof (assert_inv _ _ _ _ _ _ _ Ha) as (_ & c & Hc & He & _).
  specialize (Hown (identity_of s c)). rewrite <- He in Hown.
  eapply claim_evolves in Hs as Hres; [|exact Ha|done|done|done].
  destruct res as [id|]; cbn [is_ok]; [|rewrite Hres; apply op_failed].
  destruct Hres as (Hev & _ & c' & r & Hc' & Haddr & Hr & _). constructor; [by rewrite Hsrc|done|]. intros _. split.
  - intros a b l Ho. apply Ht in Ho as (-> & -> & ->). exists c'. split; [done|].
    rewrite Haddr, lookup_insert_eq, Hr. set_solver.
  - intros i Hi. by apply Hno in Hi.
Qed.

Lemma not_held db s c :
  owner_ok (alloc (addresses db !! identity_of s c)) -> isDnsHold (addresses db !! identity_of s c) = false ->
  let e := addresses db !! identity_of s c in (alloc e).1 <> RESERVED \/ (alloc e).2 = Some ADMIN_RESERVATION.
Proof.
  destruct (addresses db !! _) as [[? st src ? ?]|]; cbn; [|by left]. unfold owner_ok. cbn. destruct st; try by left.
  intros [->| ->]; [by right|done].
Qed.

(** Operations that evolve owners keep a database sound. *)
Lemma evolves_sound srcs db db' : sound db -> evolves srcs db db' -> sound db'.
Proof.
  intros [Hn Hp Ho Hpr] [Hs He]. constructor.
  - by rewrite (ss_subnets _ _ Hs).
  - by rewrite (ss_pools _ _ Hs).
  - intros k. by destruct (He k) as [->|(_ & ? & _)].
  - intros s ip p H. rewrite (protected_setting db db') in H by done.
    destruct (He (s, ip, "")) as [->|(_ & _ & Hc)]; [by eapply Hpr|]. destruct (Hc eq_refl) as [|Hn0]; [done|].
    cbn in Hn0. congruence.
Qed.

Lemma reconcile_total ip db c :
  sound db -> isValidAddress ip = true -> canonicalIdentity ip None = Ok c ->
  exists r db', reconcileDnsHold ip db = (Ok r, db').
Proof.
  intros Hs Hv Hc. unfold reconcileDnsHold. destruct (find_subnet_total ip db Hs Hv) as (leaf & d & Hf).
  unfold mbind, M_bind. rewrite Hf. destruct leaf as [leaf|]; [|by eauto]. eapply recheck_total; [|done|done].
  apply subnet_row_inv in Hf as [Hco _]. apply (evolves_sound [] db); [done|]. apply evolves_same; apply Hco.
Qed.

Lemma reserve_result s ip note db res db' :
  (forall k, owner_ok (alloc (addresses db !! k))) ->
  run (Reserve s ip note) db = (res, db') -> op_result (Reserve s ip note) db db' (is_ok res).
Proof.
  intros Hown H. cbn [run] in H. unfold setManualReservation in H. mstep H; apply find_row_inv in E as [-> Ef]; [apply op_failed|].
  destruct (canonicalIdentity ip None) as [c|] eqn:Hc; [|done]. injection Ef as ->.
  destruct (isDnsHold _) eqn:Hh; [unfold throw in H; simplify_eq; apply op_failed|].
  mstep H; [apply assert_inv in E as [-> _]; apply op_failed|].
  mstep H; [|mcbn H; simplify_eq].
  all: eapply (claim_result (Reserve s ip note)) in E0; [exact E0|done|exact E|done| |done|by left|].
  all: try (intros ? ? ? [= <- <- <-]; done).
  all: apply assert_inv in E as (-> & c' & Hc' & -> & _); rewrite Hc in Hc'; injection Hc' as <-; by apply not_held.
Qed.

Lemma unreserve_result s ip db res db' :
  sound db -> isValidAddress ip = true ->
  run (Unreserve s ip) db = (res, db') -> op_result (Unreserve s ip) db db' (is_ok res).
Proof.
  intros Hsound Hv H. pose proof (s_owned _ Hsound) as Hown. cbn [run] in H. unfold setManualReservation in H.
  mstep H; apply find_row_inv in E as [-> Ef]; [apply op_failed|].
  destruct (canonicalIdentity ip None) as [c|] eqn:Hc; [|done]. injection Ef as ->.
  destruct (isDnsHold _) eqn:Hh; [unfold throw in H; simplify_eq; apply op_failed|].
  mstep H; [apply assert_inv in E as [-> _]; apply op_failed|].
  assert (let e := addresses db !! identity_of s c in (alloc e).1 <> RESERVED \/ (alloc e).2 = Some ADMIN_RESERVATION) as Hn by (by apply not_held).
  pose proof E as Ea. apply assert_inv in Ea as (_ & c' & Hc' & -> & _). rewrite Hc in Hc'. injection Hc' as <-.
  mstep H.
  all: eapply claim_evolves in E0 as Hres; [|exact E|apply Hown|done|exact Hn].
  { rewrite Hres. apply op_failed. }
  destruct Hres as (Hev & _ & c' & r & Hc' & Haddr & Hr & _). rewrite Hc in Hc'. injection Hc' as <-.
  pose proof (evolves_sound _ _ _ Hsound Hev) as Hs1.
  destruct (reconcile_total ip _ _ Hs1 Hv Hc) as (held & d2 & Hrec). unfold mbind, M_bind in H. rewrite Hrec in H. mcbn H. simplify_eq.
  apply reconcile_inv in Hrec as (Hev2 & Hk & _); [|apply Hs1]. constructor; [by apply (evolves_trans [ADMIN_RESERVATION] [DNS] db d0 db')|done|].
  intros _. split; [|done]. intros ? ? ? [= <- <- <-]. exists c. split; [done|]. specialize (Hk (identity_of s c)).
  rewrite Haddr, lookup_insert_eq, Hr in Hk. destruct Hk as [->|Hk]; [unfold hold_alloc; set_solver|exact Hk].
Qed.

(** An operation that is one claim by a source that owns all its states. *)
Lemma claim_run o s ip t src st sid fs ev db res db' :
  (forall k, owner_ok (alloc (addresses db !! k))) ->
  (_ ← assertAllocationTransition s ip t src; setCanonicalAllocation s ip t st sid fs ev) db = (res, db') ->
  src ∈ [TOPOLOGY; SLAAC_SOURCE; DHCP_LEASE] ->
  sources o = [src] -> (forall a l b, op_target o = Some (a, b, l) -> a = s /\ b = ip /\ l = [(t, st)]) ->
  (forall i, o <> CheckHold i) -> owner_ok (t, st) ->
  op_result o db db' (is_ok res).
Proof.
  intros Hown H Hsrc Hs Ht Hno Hok. mstep H; [apply assert_inv in E as [-> _]; apply op_failed|].
  eapply claim_result; [exact Hown|exact E|exact H|done..|]. destruct src; try done; set_solver.
Qed.

Lemma wrote_inv (m : M Z) db res db' :
  (id ← m; mret (Some (RId id))) db = (res, db') -> exists r, m db = (r, db') /\ is_ok res = is_ok r.
Proof. intros H. mstep H; [eauto|]. mcbn H. simplify_eq. eauto. Qed.

Lemma neighbor_result s ip i m ra src db res db' :
  observeNeighbor s ip i m ra src db = (res, db') -> op_result (Neighbor s ip i m ra src) db db' (is_ok res).
Proof.
  intros H. unfold observeNeighbor in H. mstep H; apply lift_inv in E as [_ ->]; [apply op_failed|].
  mstep H; apply find_row_inv in E as [-> _]; [apply op_failed|]. apply upsert_inv in H.
  destruct res as [id|]; [|rewrite H; apply op_failed]. destruct H as (c & r & _ & Hs & _ & Haddr & Hr & _).
  constructor; [|done|done]. constructor; [done|]. intros k. left. rewrite Haddr.
  destruct (decide (k = identity_of s c)) as [->|]; [|by rewrite lookup_insert_ne]. rewrite lookup_insert_eq, Hr. cbn. symmetry.
  apply surjective_pairing.
Qed.

Lemma hold_result ip db res db' :
  (forall k, owner_ok (alloc (addresses db !! k))) ->
  reconcileDnsHold ip db = (res, db') -> op_result (CheckHold ip) db db' (is_ok res).
Proof.
  intros Hown H. apply reconcile_inv in H as (He & _ & Hr); [|done]. constructor; [done| |].
  - by destruct res.
  - destruct res; [|done]. intros _. split; [done|]. intros ? [= <-]. done.
Qed.

Ltac same_target := let H := fresh in intros ? ? ? H; cbn in H; try (by simplify_eq).

Lemma other_result o db res db' :
  (forall k, owner_ok (alloc (addresses db !! k))) ->
  match o with Reserve _ _ _ | Unreserve _ _ => False | _ => True end ->
  run o db = (res, db') -> op_result o db db' (is_ok res).
Proof.
  intros Hown Ho H. destruct o; try done; cbn [run] in H.
  7: by apply hold_result.
  all: apply wrote_inv in H as (r & H & ->).
  5: by apply neighbor_result.
  - unfold protectTopologyAddress in H. destruct (topologyTarget s) eqn:Ht; cbn [negb] in H; [|unfold throw in H; simplify_eq; apply op_failed].
    eapply claim_run; [done|exact H|set_solver|done|by same_target|done|]. apply bool_decide_eq_true in Ht. by destruct Ht as [->| ->].
  - unfold releaseTopologyAddress in H. eapply claim_run; [done|exact H|set_solver|done|by same_target|done|done].
  - unfold observeSlaac in H. destruct (named validUntil); [|unfold throw in H; simplify_eq; apply op_failed].
    mstep H; apply lift_inv in E as [E ->]; [apply op_failed|].
    eapply claim_run; [done|exact H|set_solver|done| |done|done]. intros ? ? ? Ht. cbn in Ht. rewrite E in Ht. cbn in Ht. by simplify_eq.
  - unfold observeDhcpv6Lease in H. destruct (_ || _); [unfold throw in H; simplify_eq; apply op_failed|].
    destruct (named validUntil); [|unfold throw in H; simplify_eq; apply op_failed].
    destruct poolValidated; [|unfold throw in H; cbn in H; simplify_eq; apply op_failed].
    eapply claim_run; [done|exact H|set_solver|done|by same_target|done|done].
  - unfold observeRouterAdvertisement in H. destruct trusted; [|unfold throw in H; cbn in H; simplify_eq; apply op_failed].
    cbn [negb] in H. mstep H; apply lift_inv in E as [E ->]; [apply op_failed|].
    eapply claim_run; [done|exact H|set_solver|done| |done|done]. intros ? ? ? Ht. cbn in Ht. rewrite E in Ht. cbn in Ht. by simplify_eq.
Qed.

Lemma run_result o db res db' :
  sound db -> (forall s ip, o = Unreserve s ip -> isValidAddress ip = true) ->
  run o db = (res, db') -> op_result o db db' (is_ok res).
Proof.
  intros Hs Hv H. pose proof (s_owned _ Hs). destruct o; try (by apply other_result).
  - by apply reserve_result.
  - apply unreserve_result; eauto.
Qed.

Lemma step_sound db l db' : sound db -> step db l db' -> sound db'.
Proof.
  intros Hs [Ha <-]. destruct l as [t a o|r|p|]; cbn [exec].
  - destruct (run o (request t a db)) as [res db'] eqn:H. cbn [snd].
    assert (sound (request t a db)) as Hr by (destruct Hs; constructor; done).
    eapply evolves_sound; [exact Hr|]. eapply or_evolves, run_result; [exact Hr| |exact H]. intros s ip ->. exact Ha.
  - destruct Hs. by constructor.
  - destruct Hs. by constructor.
  - destruct Hs. by constructor.
Qed.

(** ** Properties *)

(** C11. Nine operations of the service (setManualReservation to reserve and
    to release, protectTopologyAddress, releaseTopologyAddress, observeSlaac,
    observeDhcpv6Lease, observeNeighbor, observeRouterAdvertisement,
    reconcileDnsHold) take no address from its owner. Start from a sound
    database, keep its networks, and run these operations in any order, with
    any change of the DNS records and of the DHCP pools (their ends being
    addresses) between them, a reservation being released by an address
    without a zone id, as the routes do. In every database reached, an
    allocation's state and source agree, and an address the topology protects
    (network, broadcast, anycast, gateway) is free or the topology's. An
    operation that is refused leaves every row and the history as they were,
    even when a release has to re-check a DNS hold on the way. One that is
    carried out changes the owner of no address but a free one or one its own
    source owns, and leaves its address with the owner it names; re-checking a
    DNS hold leaves the address held exactly for the lowest record that exists
    and is not served, if nothing else owns it. The allocations made for
    static DNS records and for DHCP reservations and leases are not among
    these operations: by their design they may take a reserved address over. *)
Theorem owners_are_kept db ls db' t a o :
  sound db -> runs step db ls db' -> admissible (Request t a o) = true ->
  let before := request t a db' in
  let '(res, after) := run o before in
  sound db' /\ sound after /\
  match res with
  | Err _ => addresses after = addresses before /\ events after = events before
  | Ok _ => carried_out o after /\
      (forall k, alloc (addresses after !! k) = alloc (addresses before !! k) \/
         (alloc (addresses before !! k)).2 = None \/
         exists src, src ∈ sources o /\ (alloc (addresses before !! k)).2 = Some src)
  end.
Proof.
  intros Hs Hr Ha before. assert (sound db') as Hs'.
  { eapply (runs_invariant step sound); [|exact Hr|done]. intros. by eapply step_sound. }
  assert (sound before) as Hb by (destruct Hs'; constructor; done).
  destruct (run o before) as [res after] eqn:H. apply run_result in H as [He Hf Hd]; [|done|by intros s ip ->].
  split; [done|]. split; [by eapply evolves_sound|]. destruct res; cbn [is_ok] in *.
  - split; [by apply Hd|]. intros k. destruct (ev_owners _ _ _ He k) as [->|(Hk & _)]; auto.
  - destruct (Hf eq_refl); auto.
Qed.

Definition exec_labels (ls : list label) (db : Db) : Db := fold_left (fun db l => exec l db) ls db.

Lemma exec_labels_runs ls db : forallb admissible ls = true -> runs step db ls (exec_labels ls db).
Proof.
  revert db. induction ls as [|l ls IH]; intros db H; [constructor|]. cbn in H. apply andb_true_iff in H as [Hl H].
  econstructor; [by split|]. by apply IH.
Qed.

(** A network with its gateway protected, an address reserved by hand, and a
    disabled record that names it: releasing the reservation hands the address
    to the record. *)
Definition example_net : Db :=
  mkDb [mkSubnet 1 "10.0.0.0/24" (Some "10.0.0.1") 24 None] [] [] None ∅ 1 [] [] "" None.

Definition example_labels : list label :=
  [Request "09:00" None (Protect 1 "10.0.0.1" GATEWAY (Some "Default gateway"));
   Request "09:01" (Some "ann") (Reserve 1 "10.0.0.60" (Some "printer"));
   Records [mkDnsRow 7 "printer" "A" "10.0.0.60" false None "example.com" true "forward"];
   Request "09:02" None (Neighbor 1 "10.0.0.99" None (Some "02:00:00:00:00:01") true "neighbor_discovery")].

Lemma owners_are_kept_witness :
  let before := request "09:03" (Some "ann") (exec_labels example_labels example_net) in
  let after := (run (Unreserve 1 "10.0.0.60") before).2 in
  alloc (addresses before !! (1, "10.0.0.60", "")) = (RESERVED, Some ADMIN_RESERVATION) /\
  alloc (addresses after !! (1, "10.0.0.60", "")) = (RESERVED, Some DNS) /\
  alloc (addresses after !! (1, "10.0.0.1", "")) = (GATEWAY, Some TOPOLOGY) /\ sound after.
Proof.
  split; [vm_compute; reflexivity|]. split; [vm_compute; reflexivity|]. split; [vm_compute; reflexivity|].
  assert (sound example_net) as Hs.
  { constructor; [|done|done|]; [apply Forall_singleton; split; [vm_compute; reflexivity|intros g [= <-]; vm_compute; reflexivity]|].
    intros s ip p _. done. }
  pose proof (exec_labels_runs example_labels example_net eq_refl) as Hr.
  pose proof (owners_are_kept _ _ _ "09:03" (Some "ann") (Unreserve 1 "10.0.0.60") Hs Hr eq_refl) as H.
  cbn zeta in H. destruct (run (Unreserve 1 "10.0.0.60") _) as [res db]. apply H.
Defined.
