(* ===== verification/PoolSegments.v ===== *)
(** * Pools with their reserved addresses carved out

    [server/src/backends/shared/pool-segments.js]: the ranges of dynamic
    addresses a backend is given, for any backend that writes pools as
    ranges. *)

From S2P Require Import Prelude JsString Address Cidr.

Definition tryAddress (ip : string) : option Address := try_ok (addressToBig ip).

(** [[...new Set(excludedIps)]], parsed, of the family, sorted. A Set keeps
    the first of equal strings. *)
Fixpoint unique (l : list string) : list string :=
  match l with
  | [] => []
  | x :: l' => x :: List.filter (fun y => negb (String.eqb x y)) (unique l')
  end.

Definition excludedValues (excludedIps : list string) (family : Z) : list Z :=
  sort_by id (map a_value (List.filter (fun a => a_family a =? family) (omap tryAddress (unique excludedIps)))).

(** The walk over one pool: the cursor is the first address not yet given or
    passed over. *)
Fixpoint walk (start stop cursor : Z) (excluded : list Z) : list (Z * Z) :=
  match excluded with
  | [] => if cursor <=? stop then [(cursor, stop)] else []
  | v :: rest =>
      if (v <? start) || (stop <? v) then walk start stop cursor rest
      else (if cursor <? v then [(cursor, v - 1)] else []) ++ walk start stop (v + 1) rest
  end.

Definition pool_values (excluded : list Z) (pool : string * string) : result cidr_error (list (Z * Z)) :=
  start ← addressToBig pool.1;
  stop ← addressToBig pool.2;
  mret (walk (a_value start) (a_value stop) (a_value start) excluded).

(** The segments before they are written as text. *)
Definition segmentValues (pools : list (string * string)) (excludedIps : list string) (family : Z)
  : result cidr_error (list (Z * Z)) :=
  parts ← map_result (pool_values (excludedValues excludedIps family)) pools;
  mret (concat parts).

Definition poolSegments (pools : list (string * string)) (excludedIps : list string) (family : Z)
  : result cidr_error (list (string * string)) :=
  segments ← segmentValues pools excludedIps family;
  mret (map (fun s => (bigToAddress s.1 family, bigToAddress s.2 family)) segments).

Example carve : poolSegments [("10.0.0.10", "10.0.0.20")] ["10.0.0.15"; "10.0.0.15"; "bogus"; "fd00::1"; "10.0.0.10"; "10.0.0.30"] 4
  = Ok [("10.0.0.11", "10.0.0.14"); ("10.0.0.16", "10.0.0.20")].
Proof. vm_compute. reflexivity. Qed.

(** ** Lemmas *)

Definition in_segment (v : Z) (s : Z * Z) : Prop := s.1 <= v <= s.2.

(** Segments from [lo] on: each is not empty, and a whole address at least
    lies between two of them. *)
Fixpoint apart (lo : Z) (l : list (Z * Z)) : Prop :=
  match l with
  | [] => True
  | s :: l' => lo <= s.1 <= s.2 /\ apart (s.2 + 2) l'
  end.

Lemma apart_weaken lo lo' l : lo <= lo' -> apart lo' l -> apart lo l.
Proof. destruct l as [|s l]; cbn; [done|]. intros ? [? ?]. split; [lia|done]. Qed.

Definition ascending : list Z -> Prop := sorted_by id.

(** A walk over sorted addresses gives what is left of the pool from the
    cursor on. *)
Lemma walk_spec start stop excluded cursor :
  ascending excluded -> start <= cursor ->
  (forall x, x ∈ excluded -> start <= x <= stop -> cursor <= x + 1) ->
  apart cursor (walk start stop cursor excluded) /\
  Forall (fun s => s.2 <= stop) (walk start stop cursor excluded) /\
  forall v, Exists (in_segment v) (walk start stop cursor excluded) <->
            cursor <= v <= stop /\ v ∉ excluded.
Proof.
  intros Hs. revert cursor. induction Hs as [|x l Hl IH Hx]; intros cursor Hc Hm; cbn.
  - destruct (Z.leb_spec cursor stop); cbn.
    + split; [lia|]. split; [by repeat constructor|]. intros v. rewrite Exists_cons, Exists_nil. unfold in_segment. cbn. split; [intros [?|[]]; split; [lia|set_solver]|intros [? _]; left; lia].
    + split; [done|]. split; [done|]. intros v. rewrite Exists_nil. split; [done|lia].
  - rewrite Forall_forall in Hx. unfold id in Hx. destruct ((x <? start) || (stop <? x)) eqn:Hout.
    + assert (x < start \/ stop < x) as Hxo by (apply orb_true_iff in Hout as [?%Z.ltb_lt|?%Z.ltb_lt]; auto).
      destruct (IH cursor Hc) as (Ha & Hf & Hv). { intros y Hy. apply Hm. by right. }
      split; [done|]. split; [done|]. intros v. rewrite Hv, not_elem_of_cons. split; intros; intuition lia.
    + apply orb_false_iff in Hout as [?%Z.ltb_ge ?%Z.ltb_ge]. pose proof (Hm x ltac:(by left) ltac:(lia)).
      destruct (IH (x + 1)) as (Ha & Hf & Hv); [lia| |]. { intros y Hy _. specialize (Hx y Hy). lia. }
      destruct (Z.ltb_spec cursor x); cbn.
      * split; [split; [lia|]; eapply apart_weaken; [|exact Ha]; lia|]. split; [constructor; [cbn; lia|done]|].
        intros v. rewrite Exists_cons, Hv, not_elem_of_cons. unfold in_segment. cbn.
        split; [intros [Hi|[Hi Hn]]; (split; [lia|split; [lia|]])|].
        -- intros Hin. specialize (Hx v Hin). lia.
        -- done.
        -- intros (? & ? & ?). destruct (decide (v < x)); [left; lia|right; split; [lia|done]].
      * split; [eapply apart_weaken; [|exact Ha]; lia|]. split; [done|]. intros v. rewrite Hv, not_elem_of_cons.
        split; [intros (? & ?); split; [lia|split; [lia|done]]|intros (? & ? & ?); split; [lia|done]].
Qed.

Lemma excludedValues_ascending l f : ascending (excludedValues l f).
Proof. apply sort_by_sorted. Qed.

Lemma elem_of_unique x l : x ∈ unique l <-> x ∈ l.
Proof.
  induction l as [|y l IH]; [done|]. cbn. rewrite !elem_of_cons, list_elem_of_In, List.filter_In, <- list_elem_of_In, IH.
  destruct (String.eqb_spec y x) as [->|]; cbn; intuition congruence.
Qed.

(** The addresses carved out: those the excluded spellings of the family
    name. *)
Definition carved (excludedIps : list string) (family v : Z) : Prop :=
  exists ip a, ip ∈ excludedIps /\ addressToBig ip = Ok a /\ a_family a = family /\ a_value a = v.

Lemma elem_of_excludedValues l f v : v ∈ excludedValues l f <-> carved l f v.
Proof.
  unfold excludedValues, carved. rewrite elem_of_sort_by. change (map a_value) with (fmap (M:=list) a_value). rewrite list_elem_of_fmap. split.
  - intros (a & -> & Ha). apply list_elem_of_In, List.filter_In in Ha as [Ha Hf%Z.eqb_eq]. apply list_elem_of_In, list_elem_of_omap in Ha as (ip & Hip & Ha).
    rewrite elem_of_unique in Hip. unfold tryAddress in Ha. destruct (addressToBig ip) as [b|] eqn:E; [|done]. injection Ha as <-. by exists ip, b.
  - intros (ip & a & Hip & Ha & Hf & <-). exists a. split; [done|]. apply list_elem_of_In, List.filter_In. rewrite Z.eqb_eq. split; [|done].
    apply list_elem_of_In, list_elem_of_omap. exists ip. rewrite elem_of_unique. split; [done|]. unfold tryAddress. by rewrite Ha.
Qed.

(** The segments of one pool. *)
Definition pool_carved (excludedIps : list string) (family : Z) (pool : string * string) (l : list (Z * Z)) : Prop :=
  exists start stop, addressToBig pool.1 = Ok start /\ addressToBig pool.2 = Ok stop /\
    apart (a_value start) l /\
    forall v, Exists (in_segment v) l <-> a_value start <= v <= a_value stop /\ ~ carved excludedIps family v.

Lemma pool_values_carved l f pool segs :
  pool_values (excludedValues l f) pool = Ok segs -> pool_carved l f pool segs.
Proof.
  unfold pool_values, mbind, result_bind, mret, result_ret. intros H. run_inv H. injection H as <-.
  exists a, a0. split; [done|]. split; [done|].
  destruct (walk_spec (a_value a) (a_value a0) (excludedValues l f) (a_value a)) as (Ha & _ & Hv);
    [apply excludedValues_ascending|lia|intros; lia|].
  split; [done|]. intros v. by rewrite Hv, elem_of_excludedValues.
Qed.

(** ** Properties *)

(** What a backend is given of a scope's pools is exactly the pools
    without the reserved addresses: pool by pool and in their order, the
    ranges are ascending, none is empty and two never touch; an address is in
    one exactly when it is in the pool and no excluded spelling of the
    family names it; and a range is written with the addresses of its ends.
    A malformed or foreign excluded address carves nothing, a repeated one no
    more than once. *)
Theorem pool_segments_exact pools excludedIps family segments :
  poolSegments pools excludedIps family = Ok segments ->
  exists parts, Forall2 (pool_carved excludedIps family) pools parts /\
    segments = map (fun s => (bigToAddress s.1 family, bigToAddress s.2 family)) (concat parts).
Proof.
  unfold poolSegments, segmentValues, mbind, result_bind, mret, result_ret. intros H.
  destruct (map_result _ pools) as [parts|] eqn:Hp; [|done]. injection H as <-. exists parts. split; [|done].
  apply map_result_inv in Hp. eapply Forall2_impl; [exact Hp|]. apply pool_values_carved.
Qed.

Lemma pool_segments_exact_witness :
  poolSegments [("fd00::10", "fd00::1f")] ["fd00::18"; "FD00::0018"; "10.0.0.1"] 6 =
    Ok [("fd00::10", "fd00::17"); ("fd00::19", "fd00::1f")] /\
  exists parts, Forall2 (pool_carved ["fd00::18"; "FD00::0018"; "10.0.0.1"] 6) [("fd00::10", "fd00::1f")] parts.
Proof.
  split; [vm_compute; reflexivity|].
  destruct (pool_segments_exact [("fd00::10", "fd00::1f")] ["fd00::18"; "FD00::0018"; "10.0.0.1"] 6
              [("fd00::10", "fd00::17"); ("fd00::19", "fd00::1f")]) as (parts & H & _); [vm_compute; reflexivity|by exists parts].
Defined.
