(* ===== verification/ZoneDiff.v ===== *)
(** * Bringing PowerDNS to the desired zones

    [server/src/backends/pdns/diff.js]: what to send Authoritative to make it
    hold the desired zones. The server's API is PowerDNS's: a create makes a
    zone with its rrsets, a REPLACE sets the rrset of a name and type, a
    DELETE removes it, and a zone is deleted whole ([send]). *)

From stdpp Require Import sorting.
From S2P Require Import Prelude JsString.

(** ** Data *)

(** A desired rrset, and one as the API returns it, each record with its
    [disabled] flag. *)
Record Rrset := mkRrset { rr_name : string; rr_type : string; rr_ttl : Z; rr_records : list string }.
Record ApiRrset := mkApiRrset { ar_name : string; ar_type : string; ar_ttl : Z; ar_records : list (string * bool) }.
Record ApiZone := mkApiZone { az_id : string; az_rrsets : list ApiRrset }.

#[export] Instance rrset_eq_dec : EqDecision Rrset.
Proof. solve_decision. Defined.

(** Maps, in the order of insertion. *)
Abbreviation Zones := (list (string * list (string * Rrset))).
Abbreviation Current := (list (string * ApiZone)).

Inductive Change := REPLACE (r : Rrset) | DELETE (name type : string).

Record Create := mkCreate { cr_name : string; cr_rrsets : list Rrset }.
Record Patch := mkPatch { pa_id : string; pa_name : string; pa_rrsets : list Change; pa_quiet : bool }.
Record Delete := mkDelete { de_id : string; de_name : string }.
Record Diff := mkDiff { creates : list Create; patches : list Patch; deletes : list Delete; changedZones : list string }.

(** ** The diff *)

Definition rr_key (name type : string) : string := name +:+ "|" +:+ type.

Definition sameRecords (a b : list string) : bool := bool_decide (a = b).

Definition soaWithoutSerial (content : string) : string :=
  let words := split_char " " content in
  join " " (take 2 words ++ drop 3 words).

(** [records.sort()] *)
Definition sorted (l : list string) : list string := merge_sort String.le l.

Definition served (r : ApiRrset) : Rrset :=
  mkRrset (ar_name r) (ar_type r) (ar_ttl r)
    (sorted (map fst (List.filter (fun p => negb (snd p)) (ar_records r)))).

Definition haveRrsets (z : ApiZone) : list (string * Rrset) :=
  js_map (map (fun r => (rr_key (ar_name r) (ar_type r), served r)) (az_rrsets z)).

Definition unchanged (want : Rrset) (got : option Rrset) : bool :=
  match got with
  | Some g => (rr_ttl g =? rr_ttl want) && sameRecords (rr_records g) (rr_records want)
  | None => false
  end.

Definition serialOnly (want : Rrset) (got : option Rrset) : bool :=
  match got with
  | Some g => String.eqb (rr_type want) "SOA" && (rr_ttl g =? rr_ttl want) &&
              match rr_records g with
              | [content] => String.eqb (soaWithoutSerial content) (soaWithoutSerial (default "" (head (rr_records want))))
              | _ => false
              end
  | None => false
  end.

(** The rrsets of one zone to write and to remove, and whether only serials
    moved. *)
Definition replaced (want have : list (string * Rrset)) : list Rrset :=
  map snd (List.filter (fun p => negb (unchanged p.2 (js_get p.1 have))) want).

Definition removed (want have : list (string * Rrset)) : list Rrset :=
  map snd (List.filter (fun p => match js_get p.1 want with Some _ => false | None => true end) have).

Definition zone_changes (want have : list (string * Rrset)) : list Change :=
  map REPLACE (replaced want have) ++ map (fun r => DELETE (rr_name r) (rr_type r)) (removed want have).

Definition zone_quiet (want have : list (string * Rrset)) : bool :=
  forallb (fun p => unchanged p.2 (js_get p.1 have) || serialOnly p.2 (js_get p.1 have)) want
  && match removed want have with [] => true | _ => false end.

(** One desired zone. *)
Definition diff_zone (current : Current) (d : Diff) (zone : string * list (string * Rrset)) : Diff :=
  let '(name, want) := zone in
  match js_get name current with
  | None => mkDiff (creates d ++ [mkCreate name (map snd want)]) (patches d) (deletes d) (changedZones d ++ [name])
  | Some z =>
      let have := haveRrsets z in
      match zone_changes want have with
      | [] => d
      | rrsets =>
          let quiet := zone_quiet want have in
          mkDiff (creates d) (patches d ++ [mkPatch (az_id z) name rrsets quiet]) (deletes d)
            (if quiet then changedZones d else changedZones d ++ [name])
      end
  end.

(** One zone the server has. *)
Definition drop_zone (desired : Zones) (d : Diff) (zone : string * ApiZone) : Diff :=
  match js_get zone.1 desired with
  | Some _ => d
  | None => mkDiff (creates d) (patches d) (deletes d ++ [mkDelete (az_id zone.2) zone.1]) (changedZones d ++ [zone.1])
  end.

Definition diffZones (desired : Zones) (current : Current) : Diff :=
  fold_left (drop_zone desired) current (fold_left (diff_zone current) desired (mkDiff [] [] [] [])).

(** ** The server *)

(** What Authoritative serves: per zone and rrset, the TTL and the records. *)
Abbreviation ZoneView := (gmap (string * string) (Z * list string)).
Abbreviation View := (gmap string ZoneView).

Definition put_rrset (v : ZoneView) (r : Rrset) : ZoneView := <[(rr_name r, rr_type r) := (rr_ttl r, sorted (rr_records r))]> v.

Definition send_change (v : ZoneView) (c : Change) : ZoneView :=
  match c with REPLACE r => put_rrset v r | DELETE n t => base.delete (n, t) v end.

Definition zone_of (rrsets : list Rrset) : ZoneView := fold_left put_rrset rrsets ∅.

(** The requests of a diff: the creates, the patches of zones that are there,
    and the deletes. *)
Definition send (d : Diff) (v : View) : View :=
  let v := fold_left (fun v c => <[cr_name c := zone_of (cr_rrsets c)]> v) (creates d) v in
  let v := fold_left (fun v p => alter (fun z => fold_left send_change (pa_rrsets p) z) (pa_name p) v) (patches d) v in
  fold_left (fun v x => base.delete (de_name x) v) (deletes d) v.

Definition current_view (current : Current) : View :=
  list_to_map (map (fun p => (p.1, zone_of (map snd (haveRrsets p.2)))) current).
Definition desired_view (desired : Zones) : View :=
  list_to_map (map (fun p => (p.1, zone_of (map snd p.2))) desired).

Example soa_serial : soaWithoutSerial "ns. admin. 2024 3600 900 604800 86400" = "ns. admin. 3600 900 604800 86400".
Proof. vm_compute. reflexivity. Qed.

(** ** Lemmas: association lists *)

(** The first element with a key, of a list built from a Map. *)
Definition find_by {B K} `{EqDecision K} (key : B -> K) (k : K) (l : list B) : option B :=
  List.find (fun b => bool_decide (key b = k)) l.

Section FindBy.
Context {B K : Type} `{EqDecision K} (key : B -> K).

Lemma find_by_some k l b : find_by key k l = Some b -> b ∈ l /\ key b = k.
Proof. intros [Hin Hb%bool_decide_eq_true]%List.find_some. by rewrite list_elem_of_In. Qed.

Lemma find_by_none k l : find_by key k l = None <-> k ∉ map key l.
Proof.
  unfold find_by. induction l as [|b l IH]; cbn; [split; [by intros _ ?%elem_of_nil|done]|]. rewrite not_elem_of_cons, <- IH.
  destruct (bool_decide_reflect (key b = k)); intuition congruence.
Qed.

Lemma find_by_elem l b : NoDup (map key l) -> b ∈ l -> find_by key (key b) l = Some b.
Proof.
  unfold find_by. induction l as [|c l IH]; cbn; intros Hn Hb; [by apply elem_of_nil in Hb|]. inversion Hn as [|? ? Hc Hn']; subst.
  apply elem_of_cons in Hb as [->|Hb]; [by rewrite bool_decide_eq_true_2|].
  rewrite bool_decide_eq_false_2; [by apply IH|]. intros He. apply Hc. rewrite He. apply list_elem_of_In, in_map, list_elem_of_In, Hb.
Qed.

Lemma find_by_filter f k l :
  NoDup (map key l) -> find_by key k (List.filter f l) = match find_by key k l with Some b => if f b then Some b else None | None => None end.
Proof.
  unfold find_by. induction l as [|c l IH]; cbn; intros Hn; [done|]. inversion Hn as [|? ? Hc Hn']; subst.
  destruct (bool_decide_reflect (key c = k)) as [<-|Hne].
  - destruct (f c); cbn; [by rewrite bool_decide_eq_true_2|]. rewrite IH by done.
    destruct (List.find _ l) as [b|] eqn:E; [|done]. exfalso. apply find_by_some in E as [Hb E]. apply Hc. rewrite <- E.
    apply list_elem_of_In, in_map, list_elem_of_In, Hb.
  - destruct (f c); cbn; [rewrite bool_decide_eq_false_2 by done|]; by apply IH.
Qed.

Lemma find_by_omap {A} (F : string * A -> option B) (name : B -> string) n (m : list (string * A)) :
  NoDup (keys m) -> (forall p b, F p = Some b -> name b = p.1) ->
  find_by name n (omap F m) = a ← js_get n m; F (n, a).
Proof.
  intros Hn HF. unfold find_by. induction m as [|[k a] m IH]; [done|]. inversion Hn as [|? ? Hk Hn']; subst. cbn.
  destruct (F (k, a)) as [b|] eqn:E; cbn.
  - apply HF in E as Hb. cbn in Hb. rewrite Hb. destruct (String.eqb_spec n k) as [->|Hne].
    + rewrite bool_decide_eq_true_2 by done. cbn. by rewrite E.
    + rewrite bool_decide_eq_false_2 by congruence. by apply IH.
  - rewrite IH by done. destruct (String.eqb_spec n k) as [->|]; [|done]. cbn. rewrite E.
    apply js_get_none in Hk. by rewrite Hk.
Qed.

(** Requests by key: each touches its own entry. *)
Lemma fold_insert_lookup {V} `{!Countable K} (f : B -> V) (l : list B) (v : gmap K V) k :
  NoDup (map key l) ->
  fold_left (fun v b => <[key b := f b]> v) l v !! k = match find_by key k l with Some b => Some (f b) | None => v !! k end.
Proof.
  unfold find_by. revert v. induction l as [|c l IH]; cbn; intros v Hn; [done|]. inversion Hn as [|? ? Hc Hn']; subst. rewrite IH by done.
  destruct (bool_decide_reflect (key c = k)) as [<-|Hne].
  - destruct (List.find _ l) as [b|] eqn:E; [|by rewrite lookup_insert_eq]. exfalso. apply find_by_some in E as [Hb E]. apply Hc. rewrite <- E.
    apply list_elem_of_In, in_map, list_elem_of_In, Hb.
  - destruct (List.find _ l); [done|]. by rewrite lookup_insert_ne.
Qed.

Lemma fold_alter_lookup {V} `{!Countable K} (g : B -> V -> V) (l : list B) (v : gmap K V) k :
  NoDup (map key l) ->
  fold_left (fun v b => alter (g b) (key b) v) l v !! k = match find_by key k l with Some b => g b <$> v !! k | None => v !! k end.
Proof.
  unfold find_by. revert v. induction l as [|c l IH]; cbn; intros v Hn; [done|]. inversion Hn as [|? ? Hc Hn']; subst. rewrite IH by done.
  destruct (bool_decide_reflect (key c = k)) as [<-|Hne].
  - destruct (List.find _ l) as [b|] eqn:E; [|by rewrite lookup_alter_eq]. exfalso. apply find_by_some in E as [Hb E]. apply Hc. rewrite <- E.
    apply list_elem_of_In, in_map, list_elem_of_In, Hb.
  - by rewrite lookup_alter_ne by done.
Qed.

Lemma fold_delete_lookup {V} `{!Countable K} (l : list B) (v : gmap K V) k :
  fold_left (fun v b => base.delete (key b) v) l v !! k = match find_by key k l with Some _ => None | None => v !! k end.
Proof.
  unfold find_by. revert v. induction l as [|c l IH]; cbn; intros v; [done|]. rewrite IH.
  destruct (bool_decide_reflect (key c = k)) as [<-|Hne].
  - by destruct (List.find _ l); rewrite ?lookup_delete_eq.
  - by rewrite lookup_delete_ne by done.
Qed.
End FindBy.

(** ** Lemmas: one zone *)

Definition rr_pair (r : Rrset) : string * string := (rr_name r, rr_type r).
Definition rr_val (r : Rrset) : Z * list string := (rr_ttl r, sorted (rr_records r)).

(** An rrset filed under its key; no owner name has the bar that separates
    the name and the type in a key. *)
Definition filed (p : string * Rrset) : Prop :=
  p.1 = rr_key (rr_name p.2) (rr_type p.2) /\ has_char "|" (rr_name p.2) = false /\
  sorted (rr_records p.2) = rr_records p.2.

Record wf_zone (m : list (string * Rrset)) : Prop := {
  wz_keys : NoDup (keys m);
  wz_filed : Forall filed m }.

Lemma rr_key_inj n t n' t' :
  has_char "|" n = false -> has_char "|" n' = false -> rr_key n t = rr_key n' t' -> n = n' /\ t = t'.
Proof.
  unfold rr_key. intros Hn Hn' H. assert (String.length n = String.length n') as Hl.
  { pose proof (index_of_char_app "|" n t Hn) as H1. pose proof (index_of_char_app "|" n' t' Hn') as H2.
    change (String "|" t) with ("|" +:+ t) in H1. change (String "|" t') with ("|" +:+ t') in H2. rewrite H, H2 in H1. congruence. }
  assert (n = n') as ->.
  { rewrite <- (take_string_app n ("|" +:+ t)), H, Hl. apply take_string_app. }
  split; [done|]. apply (f_equal (drop_string (String.length n'))) in H. rewrite !drop_string_app in H. by injection H.
Qed.

Lemma sorted_idem l : sorted (sorted l) = sorted l.
Proof.
  unfold sorted. apply (Sorted_unique String.le); try apply Sorted_merge_sort; try typeclasses eauto.
  by rewrite merge_sort_Permutation.
Qed.

Section Zone.
Context (m : list (string * Rrset)) (Hm : wf_zone m).

Abbreviation rs := (map snd m).

Lemma filed_elem r : r ∈ rs -> filed (rr_key (rr_name r) (rr_type r), r) /\ (rr_key (rr_name r) (rr_type r), r) ∈ m.
Proof.
  intros Hr. apply list_elem_of_In, in_map_iff in Hr as ([k r'] & <- & Hin). apply list_elem_of_In in Hin. cbn.
  destruct Hm as [_ Hf]. rewrite Forall_forall in Hf. pose proof (Hf _ Hin) as Hk. destruct Hk as (Hk & Hb). cbn in Hk, Hb. subst k. done.
Qed.

Lemma pairs_nodup : NoDup (map rr_pair rs).
Proof.
  destruct Hm as [Hn Hf]. clear Hm. induction m as [|[k r] m' IH]; cbn; [constructor|]. inversion Hn as [|? ? Hk Hn']; subst.
  inversion Hf as [|? ? Hr Hf']; subst. constructor; [|by apply IH]. intros Hin. apply Hk.
  apply list_elem_of_In, in_map_iff in Hin as (r' & He & Hin). apply in_map_iff in Hin as ([k' r''] & Hs & Hin). cbn in Hs. subst r''.
  apply list_elem_of_In in Hin. rewrite Forall_forall in Hf'. destruct (Hf' _ Hin) as [Hk' _], Hr as [Hkr _]. cbn in Hk', Hkr.
  injection He as He1 He2. rewrite Hkr, <- He1, <- He2, <- Hk'. apply list_elem_of_In, in_map_iff. exists (k', r'). split; [done|]. by apply list_elem_of_In.
Qed.

(** Looking up a key is finding the rrset of its name and type. *)
Lemma js_get_pair n t : has_char "|" n = false -> js_get (rr_key n t) m = find_by rr_pair (n, t) rs.
Proof.
  intros Hb. destruct (find_by rr_pair (n, t) rs) as [r|] eqn:E.
  - apply find_by_some in E as [Hr E]. apply filed_elem in Hr as [_ Hr]. injection E as <- <-. apply js_get_elem; [apply Hm|done].
  - apply find_by_none in E. apply js_get_none. intros Hin. apply E.
    apply list_elem_of_In, in_map_iff in Hin as ([k r] & Hk & Hin). apply list_elem_of_In in Hin. destruct Hm as [_ Hf].
    rewrite Forall_forall in Hf. destruct (Hf _ Hin) as (Hkr & Hbr & _). cbn in Hk, Hkr, Hbr. rewrite Hkr in Hk.
    apply rr_key_inj in Hk as [<- <-]; [|done..]. apply list_elem_of_In, in_map_iff. exists r. split; [done|].
    apply in_map_iff. exists (k, r). split; [done|]. by apply list_elem_of_In.
Qed.

Lemma zone_lookup k : zone_of rs !! k = rr_val <$> find_by rr_pair k rs.
Proof.
  unfold zone_of. change put_rrset with (fun (v : ZoneView) r => <[rr_pair r := rr_val r]> v).
  rewrite (fold_insert_lookup rr_pair rr_val) by apply pairs_nodup. by destruct (find_by _ _ _).
Qed.
End Zone.

Lemma wf_have z : Forall (fun r => has_char "|" (ar_name r) = false) (az_rrsets z) -> wf_zone (haveRrsets z).
Proof.
  intros H. unfold haveRrsets. constructor; [apply js_map_keys|]. apply js_map_forall. rewrite Forall_map. eapply Forall_impl; [exact H|].
  intros r Hr. split; [done|]. split; [done|]. apply sorted_idem.
Qed.

Section Changes.
Context (want have : list (string * Rrset)) (Hw : wf_zone want) (Hh : wf_zone have).

Abbreviation got := (fun r => find_by rr_pair (rr_pair r) (map snd have)).

Lemma map_snd_filter {A} (f : string * A -> bool) (g : A -> bool) m :
  Forall (fun p => f p = g p.2) m -> map snd (List.filter f m) = List.filter g (map snd m).
Proof. induction 1 as [|p m Hp Hm IH]; cbn; [done|]. rewrite Hp. destruct (g p.2); cbn; by rewrite IH. Qed.

Lemma get_have r : Forall filed [(rr_key (rr_name r) (rr_type r), r)] -> js_get (rr_key (rr_name r) (rr_type r)) have = got r.
Proof. intros H. inversion H as [|? ? (_ & Hb & _) _]; subst. by apply js_get_pair. Qed.

Lemma replaced_eq : replaced want have = List.filter (fun r => negb (unchanged r (got r))) (map snd want).
Proof.
  apply map_snd_filter. eapply Forall_impl; [apply Hw|]. intros [k r] (Hk & Hb & _). cbn in *. subst k. by rewrite js_get_pair.
Qed.

Lemma removed_eq : removed want have = List.filter (fun r => match find_by rr_pair (rr_pair r) (map snd want) with Some _ => false | None => true end) (map snd have).
Proof.
  apply map_snd_filter. eapply Forall_impl; [apply Hh|]. intros [k r] (Hk & Hb & _). cbn in *. subst k. by rewrite js_get_pair.
Qed.

(** Both sides keep their records sorted, so agreeing is serving the same. *)
Lemma unchanged_iff r g :
  r ∈ map snd want -> got r = Some g -> unchanged r (Some g) = true <-> rr_val g = rr_val r.
Proof.
  intros Hr Hg. apply find_by_some in Hg as [Hg _]. destruct (filed_elem want Hw r Hr) as [(_ & _ & Hs) _].
  destruct (filed_elem have Hh g Hg) as [(_ & _ & Hs') _]. cbn in Hs, Hs'. cbn. unfold rr_val, sameRecords.
  rewrite Hs, Hs', andb_true_iff, Z.eqb_eq, bool_decide_eq_true. split; [by intros [-> ->]|by intros [= -> ->]].
Qed.

Lemma send_replaced l v k :
  NoDup (map rr_pair l) ->
  fold_left send_change (map REPLACE l) v !! k = match find_by rr_pair k l with Some r => Some (rr_val r) | None => v !! k end.
Proof.
  intros Hn. rewrite <- (fold_insert_lookup rr_pair rr_val) by done. f_equal. clear Hn. revert v.
  induction l as [|r l IH]; intros v; [done|]. cbn. by rewrite IH.
Qed.

Lemma send_removed l v k :
  fold_left send_change (map (fun r => DELETE (rr_name r) (rr_type r)) l) v !! k =
  match find_by rr_pair k l with Some _ => None | None => v !! k end.
Proof.
  rewrite <- (fold_delete_lookup rr_pair). f_equal. revert v. induction l as [|r l IH]; intros v; [done|]. cbn. by rewrite IH.
Qed.

Lemma filter_nodup f l : NoDup (map rr_pair l) -> NoDup (map rr_pair (List.filter f l)).
Proof.
  induction l as [|r l IH]; cbn; [done|]. intros Hn. inversion Hn as [|? ? Hr Hn']; subst. destruct (f r); cbn; [|by apply IH].
  constructor; [|by apply IH]. intros Hin. apply Hr. apply list_elem_of_In, in_map_iff in Hin as (x & <- & Hx).
  apply List.filter_In in Hx as [Hx _]. by apply list_elem_of_In, in_map.
Qed.

(** The changes of a zone make the server serve it as wanted. *)
Lemma changes_converge : fold_left send_change (zone_changes want have) (zone_of (map snd have)) = zone_of (map snd want).
Proof.
  apply map_eq. intros k. unfold zone_changes. rewrite fold_left_app, send_removed, send_replaced, !zone_lookup by
    (try done; rewrite replaced_eq; apply filter_nodup, pairs_nodup, Hw).
  rewrite replaced_eq, removed_eq, !find_by_filter by (by apply pairs_nodup).
  destruct (find_by rr_pair k (map snd have)) as [g|] eqn:Hg; destruct (find_by rr_pair k (map snd want)) as [r|] eqn:Hr; cbn.
  - apply find_by_some in Hg as Hg'. apply find_by_some in Hr as Hr'. destruct Hg' as [Hgin <-], Hr' as [Hrin Hp]. rewrite <- Hp in *. rewrite Hr, Hg.
    destruct (unchanged r (Some g)) eqn:Hu; [|done]. cbn. apply unchanged_iff in Hu; [by rewrite Hu|done|done].
  - apply find_by_some in Hg as Hg'. destruct Hg' as [_ <-]. by rewrite Hr.
  - apply find_by_some in Hr as Hr'. destruct Hr' as [_ <-]. by rewrite Hg.
  - done.
Qed.

Lemma changes_nil : zone_changes want have = [] <-> zone_of (map snd have) = zone_of (map snd want).
Proof.
  split; [intros H; by rewrite <- changes_converge, H|]. intros H. unfold zone_changes.
  assert (forall k, rr_val <$> find_by rr_pair k (map snd have) = rr_val <$> find_by rr_pair k (map snd want)) as Hk.
  { intros k. by rewrite <- !zone_lookup, H. }
  assert (replaced want have = []) as ->.
  { rewrite replaced_eq. destruct (List.filter _ _) as [|r l] eqn:E; [done|]. exfalso.
    assert (In r (r :: l)) as Hin by (by left). rewrite <- E in Hin. apply List.filter_In in Hin as [Hin Hu]. apply list_elem_of_In in Hin.
    specialize (Hk (rr_pair r)). rewrite (find_by_elem rr_pair (map snd want) r) in Hk by (try done; by apply pairs_nodup).
    destruct (find_by rr_pair (rr_pair r) (map snd have)) as [g|] eqn:Hg; [|done]. cbn in Hk. injection Hk as Hk.
    apply negb_true_iff in Hu. apply not_true_iff_false in Hu. apply Hu. apply unchanged_iff; [done|done|]. unfold rr_val. congruence. }
  assert (removed want have = []) as ->; [|done].
  rewrite removed_eq. destruct (List.filter _ _) as [|g l] eqn:E; [done|]. exfalso.
  assert (In g (g :: l)) as Hin by (by left). rewrite <- E in Hin. apply List.filter_In in Hin as [Hin Hu]. apply list_elem_of_In in Hin.
  specialize (Hk (rr_pair g)). rewrite (find_by_elem rr_pair (map snd have) g) in Hk by (try done; by apply pairs_nodup).
  by destruct (find_by rr_pair (rr_pair g) (map snd want)).
Qed.
End Changes.

(** ** Lemmas: what counts as a change *)

(** A zone's answers but for the serial of its SOA, which moves with every
    lease that changes a name. *)
Definition answer (k : string * string) (x : Z * list string) : Z * list string :=
  if bool_decide (k.2 = "SOA") then (x.1, map soaWithoutSerial x.2) else x.

Definition answers (v : ZoneView) : ZoneView := map_imap (fun k x => Some (answer k x)) v.

Lemma answers_lookup v k : answers v !! k = answer k <$> v !! k.
Proof. unfold answers. rewrite map_lookup_imap. by destruct (v !! k). Qed.

(** A zone has one SOA record. *)
Definition one_soa (m : list (string * Rrset)) : Prop :=
  Forall (fun p => rr_type p.2 = "SOA" -> exists c, rr_records p.2 = [c]) m.

Section Quiet.
Context (want have : list (string * Rrset)) (Hw : wf_zone want) (Hh : wf_zone have) (Hsoa : one_soa want).

Lemma soa_record r : r ∈ map snd want -> rr_type r = "SOA" -> exists c, rr_records r = [c].
Proof.
  intros Hr Ht. apply list_elem_of_In, in_map_iff in Hr as (p & <- & Hp). apply list_elem_of_In in Hp.
  unfold one_soa in Hsoa. rewrite Forall_forall in Hsoa. by apply (Hsoa p).
Qed.

Lemma same_answer r g :
  r ∈ map snd want -> find_by rr_pair (rr_pair r) (map snd have) = Some g ->
  unchanged r (Some g) || serialOnly r (Some g) = true <-> answer (rr_pair r) (rr_val g) = answer (rr_pair r) (rr_val r).
Proof.
  intros Hr Hg. pose proof (unchanged_iff want have Hw Hh r g Hr Hg) as Hu. apply find_by_some in Hg as [Hgin _].
  destruct (filed_elem want Hw r Hr) as [(_ & _ & Hs) _]. destruct (filed_elem have Hh g Hgin) as [(_ & _ & Hs') _]. cbn in Hs, Hs'.
  rewrite orb_true_iff, Hu. unfold answer, serialOnly. cbn [rr_pair snd]. destruct (String.eqb_spec (rr_type r) "SOA") as [Ht|Ht].
  - rewrite bool_decide_eq_true_2 by done. destruct (soa_record r Hr Ht) as [c Hc]. unfold rr_val. cbn. rewrite Hs, Hs', Hc. cbn.
    split.
    + intros [[= -> ->]|H]; [done|]. apply andb_true_iff in H as [->%Z.eqb_eq H]. destruct (rr_records g) as [|d [|]]; [done| |done].
      apply String.eqb_eq in H. cbn. by rewrite H.
    + intros [= -> H]. right. rewrite Z.eqb_refl. destruct (rr_records g) as [|d [|]]; [done| |done]. injection H as H. cbn. by rewrite H, String.eqb_refl.
  - rewrite bool_decide_eq_false_2 by done. cbn. split; [by intros [?|]|by left].
Qed.

Lemma quiet_iff : zone_quiet want have = true <-> answers (zone_of (map snd have)) = answers (zone_of (map snd want)).
Proof.
  assert (forall k, answers (zone_of (map snd have)) !! k = (fun g => answer k (rr_val g)) <$> find_by rr_pair k (map snd have)) as Ah.
  { intros k. rewrite answers_lookup, zone_lookup by done. by destruct (find_by _ _ _). }
  assert (forall k, answers (zone_of (map snd want)) !! k = (fun g => answer k (rr_val g)) <$> find_by rr_pair k (map snd want)) as Aw.
  { intros k. rewrite answers_lookup, zone_lookup by done. by destruct (find_by _ _ _). }
  unfold zone_quiet. rewrite andb_true_iff, forallb_forall, (removed_eq want have Hw Hh). split.
  - intros [Hq Hr]. apply map_eq. intros k. rewrite Ah, Aw.
    assert (forall r, r ∈ map snd want -> exists g, find_by rr_pair (rr_pair r) (map snd have) = Some g /\ answer (rr_pair r) (rr_val g) = answer (rr_pair r) (rr_val r)) as Hall.
    { intros r Hin. destruct (filed_elem want Hw r Hin) as [(_ & Hb & _) Hm]. cbn in Hb. apply list_elem_of_In in Hm. specialize (Hq _ Hm). cbn [fst snd] in Hq.
      rewrite (js_get_pair have Hh) in Hq by done. fold (rr_pair r) in Hq. destruct (find_by rr_pair (rr_pair r) (map snd have)) as [g|] eqn:Hg; [|done].
      exists g. split; [done|]. by apply same_answer. }
    destruct (find_by rr_pair k (map snd want)) as [r|] eqn:Ew.
    + apply find_by_some in Ew as [Hin <-]. destruct (Hall r Hin) as (g & -> & Ha). cbn. by rewrite Ha.
    + destruct (find_by rr_pair k (map snd have)) as [g|] eqn:Eh; [|done]. exfalso.
      apply find_by_some in Eh as [Hin <-]. destruct (List.filter _ _) eqn:E in Hr; [|done].
      assert (In g []) as []. rewrite <- E. apply List.filter_In. split; [by apply list_elem_of_In|]. by rewrite Ew.
  - intros H. assert (forall k, answers (zone_of (map snd have)) !! k = answers (zone_of (map snd want)) !! k) as Hk by (by rewrite H). split.
    + intros [key r] Hin. destruct Hw as [_ Hf]. rewrite Forall_forall in Hf. apply list_elem_of_In in Hin as Hin'. destruct (Hf _ Hin') as (Hkey & Hb & _).
      cbn in Hkey, Hb |- *. subst key. rewrite (js_get_pair have Hh) by done. fold (rr_pair r).
      assert (r ∈ map snd want) as Hr by (apply list_elem_of_In; apply (in_map snd) in Hin; exact Hin).
      specialize (Hk (rr_pair r)). rewrite Ah, Aw, (find_by_elem rr_pair (map snd want) r) in Hk by (try done; by apply pairs_nodup).
      destruct (find_by rr_pair (rr_pair r) (map snd have)) as [g|] eqn:Hg; [|done]. cbn [fmap option_fmap option_map] in Hk. injection Hk as Hk.
      by apply same_answer.
    + destruct (List.filter _ _) as [|g l] eqn:E; [done|]. exfalso.
      assert (In g (g :: l)) as Hin by (by left). rewrite <- E in Hin. apply List.filter_In in Hin as [Hin Hu]. apply list_elem_of_In in Hin.
      specialize (Hk (rr_pair g)). rewrite Ah, Aw, (find_by_elem rr_pair (map snd have) g) in Hk by (try done; by apply pairs_nodup).
      by destruct (find_by rr_pair (rr_pair g) (map snd want)).
Qed.
End Quiet.

(** ** Lemmas: all zones *)

(** What each desired zone adds to the diff. *)
Definition create_of (current : Current) (z : string * list (string * Rrset)) : option Create :=
  match js_get z.1 current with None => Some (mkCreate z.1 (map snd z.2)) | Some _ => None end.

Definition patch_of (current : Current) (z : string * list (string * Rrset)) : option Patch :=
  match js_get z.1 current with
  | None => None
  | Some c => match zone_changes z.2 (haveRrsets c) with
              | [] => None
              | rrsets => Some (mkPatch (az_id c) z.1 rrsets (zone_quiet z.2 (haveRrsets c)))
              end
  end.

Definition changed_of (current : Current) (z : string * list (string * Rrset)) : option string :=
  match js_get z.1 current with
  | None => Some z.1
  | Some c => match zone_changes z.2 (haveRrsets c) with
              | [] => None
              | _ => if zone_quiet z.2 (haveRrsets c) then None else Some z.1
              end
  end.

Definition delete_of (desired : Zones) (z : string * ApiZone) : option Delete :=
  match js_get z.1 desired with Some _ => None | None => Some (mkDelete (az_id z.2) z.1) end.

Lemma diff_loop current desired d :
  fold_left (diff_zone current) desired d =
  mkDiff (creates d ++ omap (create_of current) desired) (patches d ++ omap (patch_of current) desired) (deletes d)
    (changedZones d ++ omap (changed_of current) desired).
Proof.
  revert d. induction desired as [|[n want] desired IH]; intros d; [cbn; rewrite !app_nil_r; by destruct d|]. cbn [fold_left]. rewrite IH.
  unfold diff_zone. cbn [omap list_omap]. unfold create_of at 2, patch_of at 2, changed_of at 2. cbn [fst snd].
  destruct (js_get n current) as [c|]; [|cbn; by rewrite <- !app_assoc].
  destruct (zone_changes want (haveRrsets c)); [done|]. destruct (zone_quiet want (haveRrsets c)); cbn; by rewrite <- ?app_assoc.
Qed.

Lemma drop_loop desired current d :
  fold_left (drop_zone desired) current d =
  mkDiff (creates d) (patches d) (deletes d ++ omap (delete_of desired) current)
    (changedZones d ++ map de_name (omap (delete_of desired) current)).
Proof.
  revert d. induction current as [|[n c] current IH]; intros d; [cbn; rewrite !app_nil_r; by destruct d|]. cbn [fold_left]. rewrite IH.
  unfold drop_zone. cbn [omap list_omap fst snd].
  assert (delete_of desired (n, c) = match js_get n desired with Some _ => None | None => Some (mkDelete (az_id c) n) end) as -> by done.
  destruct (js_get n desired); [done|]. cbn. by rewrite <- !app_assoc.
Qed.

Lemma diffZones_eq desired current :
  diffZones desired current =
  mkDiff (omap (create_of current) desired) (omap (patch_of current) desired) (omap (delete_of desired) current)
    (omap (changed_of current) desired ++ map de_name (omap (delete_of desired) current)).
Proof. unfold diffZones. by rewrite diff_loop, drop_loop. Qed.

Record wf_desired (desired : Zones) : Prop := {
  wd_names : NoDup (keys desired);
  wd_zones : Forall (fun z => wf_zone z.2 /\ one_soa z.2) desired }.

Record wf_current (current : Current) : Prop := {
  wc_names : NoDup (keys current);
  wc_zones : Forall (fun z => Forall (fun r => has_char "|" (ar_name r) = false) (az_rrsets z.2)) current }.

Lemma omap_names {A B} (F : string * A -> option B) (name : B -> string) m :
  NoDup (keys m) -> (forall p b, F p = Some b -> name b = p.1) -> NoDup (map name (omap F m)).
Proof.
  intros Hn HF. unfold keys in *. induction m as [|p m IH]; [constructor|]. inversion Hn as [|? ? Hp Hn']; subst. cbn.
  destruct (F p) as [b|] eqn:E; [|by apply IH]. cbn. constructor; [|by apply IH]. rewrite (HF _ _ E). intros Hin. apply Hp.
  apply list_elem_of_In, in_map_iff in Hin as (b' & Hb & Hin). apply list_elem_of_In, list_elem_of_omap in Hin as (q & Hq & Hf).
  rewrite <- Hb, (HF _ _ Hf). by apply list_elem_of_In, in_map, list_elem_of_In.
Qed.

Lemma view_lookup {A} (f : A -> ZoneView) (m : list (string * A)) n :
  (list_to_map (map (fun p => (p.1, f p.2)) m) : View) !! n = f <$> js_get n m.
Proof.
  induction m as [|[k a] m IH]; [done|]. cbn. destruct (String.eqb_spec n k) as [->|]; [by rewrite lookup_insert_eq|].
  by rewrite lookup_insert_ne.
Qed.

Section Zones.
Context (desired : Zones) (current : Current) (Hd : wf_desired desired) (Hc : wf_current current).

Lemma desired_wf n want : js_get n desired = Some want -> wf_zone want /\ one_soa want.
Proof.
  intros H. apply js_get_elem in H; [|apply Hd]. destruct Hd as [_ Hz]. rewrite Forall_forall in Hz. by apply (Hz (n, want)).
Qed.

Lemma current_wf n c : js_get n current = Some c -> wf_zone (haveRrsets c).
Proof.
  intros H. apply js_get_elem in H; [|apply Hc]. destruct Hc as [_ Hz]. rewrite Forall_forall in Hz. apply wf_have. by apply (Hz (n, c)).
Qed.

Lemma create_name p b : create_of current p = Some b -> cr_name b = p.1.
Proof. unfold create_of. intros H. destruct (js_get p.1 current); [done|]. by injection H as <-. Qed.
Lemma patch_name p b : patch_of current p = Some b -> pa_name b = p.1.
Proof. unfold patch_of. intros H. destruct (js_get p.1 current); [|done]. destruct (zone_changes _ _); [done|]. by injection H as <-. Qed.
Lemma delete_name p b : delete_of desired p = Some b -> de_name b = p.1.
Proof. unfold delete_of. intros H. destruct (js_get p.1 desired); [done|]. by injection H as <-. Qed.

Lemma send_converges : send (diffZones desired current) (current_view current) = desired_view desired.
Proof.
  apply map_eq. intros n. rewrite diffZones_eq. unfold send, current_view, desired_view. cbn [creates patches deletes].
  rewrite (fold_delete_lookup de_name), (fold_alter_lookup pa_name) by (apply omap_names; [apply Hd|apply patch_name]).
  rewrite (fold_insert_lookup cr_name (fun c => zone_of (cr_rrsets c))) by (apply omap_names; [apply Hd|apply create_name]).
  rewrite (find_by_omap (delete_of desired)) by (apply Hc || apply delete_name).
  rewrite (find_by_omap (patch_of current)) by (apply Hd || apply patch_name).
  rewrite (find_by_omap (create_of current)) by (apply Hd || apply create_name).
  rewrite (view_lookup (fun m => zone_of (map snd m))), (view_lookup (fun z => zone_of (map snd (haveRrsets z)))).
  unfold delete_of, patch_of, create_of. cbn [fst snd].
  destruct (js_get n desired) as [want|] eqn:Ed; destruct (js_get n current) as [c|] eqn:Ec; cbn; rewrite ?Ed, ?Ec; cbn; try done.
  destruct (desired_wf n want Ed) as [Hw _]. pose proof (current_wf n c Ec) as Hh.
  pose proof (changes_converge want (haveRrsets c) Hw Hh) as Hcv. destruct (zone_changes want (haveRrsets c)); cbn in *; by rewrite Hcv.
Qed.

(** A zone's answers, by zone. *)
Definition zone_answers (v : View) (n : string) : option ZoneView := answers <$> v !! n.

Lemma changed_iff n :
  n ∈ changedZones (diffZones desired current) <-> zone_answers (current_view current) n <> zone_answers (desired_view desired) n.
Proof.
  rewrite diffZones_eq. cbn [changedZones]. rewrite elem_of_app. unfold zone_answers, current_view, desired_view.
  rewrite (view_lookup (fun m => zone_of (map snd m))), (view_lookup (fun z => zone_of (map snd (haveRrsets z)))).
  assert (n ∈ omap (changed_of current) desired <-> exists want, js_get n desired = Some want /\ changed_of current (n, want) = Some n) as ->.
  { rewrite list_elem_of_omap. split.
    - intros ([k want] & Hin & H). assert (k = n) as ->. { unfold changed_of in H. cbn in H. repeat case_match; by simplify_eq. }
      exists want. split; [|done]. apply js_get_elem; [apply Hd|done].
    - intros (want & H & Hch). exists (n, want). split; [|done]. apply js_get_elem; [apply Hd|done]. }
  assert (n ∈ map de_name (omap (delete_of desired) current) <-> js_get n desired = None /\ is_Some (js_get n current)) as ->.
  { rewrite list_elem_of_In, in_map_iff. split.
    - intros (b & Hb & Hin). apply list_elem_of_In, list_elem_of_omap in Hin as ([k c] & Hin & H). pose proof (delete_name _ _ H) as Hn.
      cbn in Hn. rewrite Hb in Hn. subst k. unfold delete_of in H. cbn in H. destruct (js_get n desired); [done|]. split; [done|].
      exists c. apply js_get_elem; [apply Hc|done].
    - intros (Hn & c & Hcn). exists (mkDelete (az_id c) n). split; [done|]. apply list_elem_of_In, list_elem_of_omap. exists (n, c).
      split; [apply js_get_elem; [apply Hc|done]|]. unfold delete_of. cbn. by rewrite Hn. }
  unfold changed_of. cbn [fst snd].
  destruct (js_get n desired) as [want|] eqn:Ed; destruct (js_get n current) as [c|] eqn:Ec; cbn.
  - destruct (desired_wf n want Ed) as [Hw Hs]. pose proof (current_wf n c Ec) as Hh.
    pose proof (quiet_iff want (haveRrsets c) Hw Hh Hs) as Hq. pose proof (changes_nil want (haveRrsets c) Hw Hh) as Hnil.
    split.
    + intros [(w & [= <-] & H)|[? _]]; [|done]. intros [= He]. apply Hq in He. rewrite He in H. by destruct (zone_changes _ _).
    + intros Hne. left. exists want. split; [done|]. destruct (zone_changes want (haveRrsets c)) eqn:E.
      * exfalso. apply Hne. by rewrite (proj1 Hnil eq_refl).
      * destruct (zone_quiet want (haveRrsets c)); [|done]. exfalso. apply Hne. by rewrite (proj1 Hq eq_refl).
  - split; [done|]. intros _. left. by exists want.
  - split; [done|]. intros _. right. eauto.
  - split; [|done]. intros [(? & ? & _)|[_ [? ?]]]; done.
Qed.

Lemma diff_nil : diffZones desired current = mkDiff [] [] [] [] <-> current_view current = desired_view desired.
Proof.
  split; [intros H; by rewrite <- send_converges, H|]. intros H. rewrite diffZones_eq.
  assert (forall n, zone_of ∘ map snd ∘ haveRrsets <$> js_get n current = zone_of ∘ map snd <$> js_get n desired) as Hn.
  { intros n. rewrite <- !view_lookup. by rewrite <- (f_equal (lookup n) H). }
  assert (omap (create_of current) desired = [] /\ omap (patch_of current) desired = [] /\ omap (changed_of current) desired = []) as (-> & -> & ->).
  { destruct Hd as [Hnd _]. pose proof (fun n want => js_get_elem n want desired Hnd) as Hel.
    assert (forall z, z ∈ desired -> create_of current z = None /\ patch_of current z = None /\ changed_of current z = None) as Hz.
    { intros [n want] Hin. apply Hel in Hin as Ed. unfold create_of, patch_of, changed_of. cbn [fst snd]. specialize (Hn n). rewrite Ed in Hn.
      destruct (js_get n current) as [c|] eqn:Ec; [|done]. injection Hn as Hn. destruct (desired_wf n want Ed) as [Hw _].
      apply (changes_nil want (haveRrsets c) Hw (current_wf n c Ec)) in Hn. by rewrite Hn. }
    clear - Hz. induction desired as [|z l IH]; [done|]. destruct (Hz z) as (H1 & H2 & H3); [by left|].
    cbn. rewrite H1, H2, H3. apply IH. intros x Hx. apply Hz. by right. }
  assert (omap (delete_of desired) current = []) as ->; [|done].
  destruct Hc as [Hnc _]. pose proof (fun n c => js_get_elem n c current Hnc) as Hel.
  assert (forall z, z ∈ current -> delete_of desired z = None) as Hz.
  { intros [n c] Hin. apply Hel in Hin as Ec. unfold delete_of. cbn. specialize (Hn n). rewrite Ec in Hn. by destruct (js_get n desired). }
  clear - Hz. induction current as [|z l IH]; [done|]. cbn. rewrite Hz by (by left). apply IH. intros x Hx. apply Hz. by right.
Qed.
End Zones.

(** ** Properties *)

(** C38. Sending the diff makes the server hold exactly the desired zones,
    every rrset with its TTL and records, and nothing else; a diff is empty
    exactly when the server holds them already, so a second apply sends
    nothing; and the zones named for the recursor's cache are exactly those
    whose answers, the serial of the SOA apart, differ. The desired zones are
    Maps whose rrsets are filed under their name and type with sorted records
    and one SOA record, and no owner name has a bar. *)
Theorem diff_converges desired current :
  wf_desired desired -> wf_current current ->
  let d := diffZones desired current in
  send d (current_view current) = desired_view desired /\
  (d = mkDiff [] [] [] [] <-> current_view current = desired_view desired) /\
  (forall n, n ∈ changedZones d <-> zone_answers (current_view current) n <> zone_answers (desired_view desired) n).
Proof.
  intros Hd Hc d. split; [by apply send_converges|]. split; [by apply diff_nil|]. intros n. by apply changed_iff.
Qed.

Definition example_desired : Zones :=
  [("example.com.", [("example.com.|SOA", mkRrset "example.com." "SOA" 60 ["ns. admin. 2 3600 900 604800 86400"]);
                     ("www.example.com.|A", mkRrset "www.example.com." "A" 60 ["10.0.0.1"; "10.0.0.2"])]);
   ("example.net.", [("example.net.|SOA", mkRrset "example.net." "SOA" 60 ["ns. admin. 8 3600 900 604800 86400"])]);
   ("new.org.", [("new.org.|SOA", mkRrset "new.org." "SOA" 60 ["ns. admin. 1 3600 900 604800 86400"])])].

Definition example_current : Current :=
  [("example.com.", mkApiZone "1" [mkApiRrset "www.example.com." "A" 60 [("10.0.0.2", false); ("10.0.0.9", true); ("10.0.0.1", false)];
                                   mkApiRrset "example.com." "SOA" 60 [("ns. admin. 1 3600 900 604800 86400", false)]]);
   ("example.net.", mkApiZone "2" [mkApiRrset "example.net." "SOA" 60 [("ns. admin. 8 3600 900 604800 86400", false)];
                                   mkApiRrset "gone.example.net." "A" 60 [("10.0.0.3", false)]]);
   ("old.org.", mkApiZone "3" [])].

#[export] Instance filed_dec p : Decision (filed p).
Proof. unfold filed. apply _. Defined.

Ltac compute_holds := match goal with |- ?P => apply (bool_decide_eq_true_1 P); vm_compute; reflexivity end.

Lemma diff_converges_witness :
  changedZones (diffZones example_desired example_current) = ["example.net."; "new.org."; "old.org."] /\
  map pa_quiet (patches (diffZones example_desired example_current)) = [true; false] /\
  send (diffZones example_desired example_current) (current_view example_current) = desired_view example_desired.
Proof.
  split; [vm_compute; reflexivity|]. split; [vm_compute; reflexivity|].
  apply (diff_converges example_desired example_current).
  - constructor; [compute_holds|]. unfold example_desired.
    repeat (apply Forall_cons_2; [split; [constructor; compute_holds|]|]); [..|apply Forall_nil_2].
    all: repeat (apply Forall_cons_2; [cbn; intros Ht; first [discriminate Ht | by eexists]|]); apply Forall_nil_2.
  - constructor; [compute_holds|]. by repeat constructor.
Defined.
