(* ===== verification/Totp.v ===== *)
(** * One-time passwords: [server/src/auth/totp.js]

    The base32 text of a secret, the six digit codes computed from it
    (RFC 4226 and RFC 6238), the check of a code against the clock, and the
    backup codes. The message authentication code is a parameter ([node:crypto]),
    random bytes are arguments. *)

From S2P Require Import Prelude JsString Bytes.

(** ** 32 bit operators of the language *)

Definition int32 (x : Z) : Z := (x + 2 ^ 31) mod 2 ^ 32 - 2 ^ 31.
Definition uint32 (x : Z) : Z := x mod 2 ^ 32.

(** [a << n], [a >>> n], [a | b], [a & b], for [n] below 32. *)
Definition js_shl (a n : Z) : Z := int32 (Z.shiftl (int32 a) n).
Definition js_ushr (a n : Z) : Z := Z.shiftr (uint32 a) n.
Definition js_or (a b : Z) : Z := Z.lor (int32 a) (int32 b).
Definition js_and (a b : Z) : Z := Z.land (int32 a) (int32 b).

(** ** Base32 *)

Definition BASE32_ALPHABET : string := "ABCDEFGHIJKLMNOPQRSTUVWXYZ234567".
Definition TOTP_STEP_SECONDS : Z := 30.
Definition TOTP_DIGITS : nat := 6.

(** [alphabet[i]], appended to a string. *)
Definition letter (alphabet : string) (i : Z) : string :=
  match String.get (Z.to_nat i) alphabet with Some c => String c "" | None => "undefined" end.

(** [alphabet.indexOf(c)] *)
Definition letter_index (alphabet : string) (c : ascii) : Z :=
  match index_of (String c "") alphabet with Some i => Z.of_nat i | None => -1 end.

(** [while (bits >= 5)]; [bits] itself is enough fuel. *)
Fixpoint emit (fuel : nat) (bits value : Z) (out : string) : Z * string :=
  match fuel with
  | O => (bits, out)
  | S fuel' =>
      if 5 <=? bits then emit fuel' (bits - 5) value (out +:+ letter BASE32_ALPHABET (js_and (js_ushr value (bits - 5)) 31))
      else (bits, out)
  end.

Definition encode_byte (st : Z * Z * string) (byte : Z) : Z * Z * string :=
  let '(bits, value, out) := st in
  let value := js_or (js_shl value 8) byte in
  let '(bits, out) := emit (Z.to_nat (bits + 8)) (bits + 8) value out in
  (bits, value, out).

Definition base32Encode (buf : bytes) : string :=
  let '(bits, value, out) := fold_left encode_byte buf (0, 0, "") in
  if 0 <? bits then out +:+ letter BASE32_ALPHABET (js_and (js_shl value (5 - bits)) 31) else out.

(** [/[A-Z2-7]/] *)
Definition is_base32 (c : ascii) : bool := is_upper c || in_range 50 55 c.

Definition decode_letter (st : Z * Z * bytes) (ch : ascii) : Z * Z * bytes :=
  let '(bits, value, out) := st in
  let value := js_or (js_shl value 5) (letter_index BASE32_ALPHABET ch) in
  let bits := bits + 5 in
  if 8 <=? bits then (bits - 8, value, out ++ [js_and (js_ushr value (bits - 8)) 255]) else (bits, value, out).

Definition base32Decode (str : string) : bytes :=
  let clean := filter_string is_base32 (to_upper str) in
  let '(_, _, out) := fold_left decode_letter (list_ascii_of_string clean) (0, 0, []) in out.

(** [generateTotpSecret], on the 20 bytes drawn. *)
Definition generateTotpSecret (random : bytes) : string := base32Encode random.

(** ** Codes *)

(** A byte of a digest; past its end, [undefined], which the bit operators
    read as 0. *)
Definition byte_at (mac : bytes) (i : Z) : Z := nth (Z.to_nat i) mac 0.

(** [writeBigUInt64BE] throws outside 64 bits. *)
Definition counter_bytes (counter : Z) : result range_error bytes :=
  if (0 <=? counter) && (counter <? 2 ^ 64) then Ok (be_bytes 8 counter) else Err (OutOfRange counter).

Section Codes.
Context (hmac_sha1 : bytes -> bytes -> bytes).

Definition truncate (mac : bytes) : Z :=
  let offset := js_and (byte_at mac (blength mac - 1)) 15 in
  js_or (js_or (js_or (js_shl (js_and (byte_at mac offset) 127) 24)
                      (js_shl (js_and (byte_at mac (offset + 1)) 255) 16))
               (js_shl (js_and (byte_at mac (offset + 2)) 255) 8))
        (js_and (byte_at mac (offset + 3)) 255).

Definition hotp (secretBytes : bytes) (counter : Z) : result range_error string :=
  msg ← counter_bytes counter;
  mret (pad_start TOTP_DIGITS "0" (dec (Z.rem (truncate (hmac_sha1 secretBytes msg)) (10 ^ Z.of_nat TOTP_DIGITS)))).

(** [Math.floor(nowMs / 1000 / 30)] *)
Definition totpStep (nowMs : Z) : Z := nowMs / 1000 / TOTP_STEP_SECONDS.

Definition totpCode (secret : string) (step : Z) : result range_error string := hotp (base32Decode secret) step.

(** What is left of a code without its white space. *)
Definition code_digits (code : string) : string := filter_string (fun c => negb (is_space c)) code.

(** [/^\d{6}$/] *)
Definition six_digits (s : string) : bool := (String.length s =? 6)%nat && all_chars is_digit s.

Definition spent (afterStep : option Z) (step : Z) : bool :=
  match afterStep with Some k => step <=? k | None => false end.

(** The loop of [verifyTotp]: the first step whose code it is. *)
Fixpoint first_step (key : bytes) (digits : string) (afterStep : option Z) (steps : list Z) : result range_error (option Z) :=
  match steps with
  | [] => Ok None
  | step :: rest =>
      if spent afterStep step then first_step key digits afterStep rest
      else
        expected ← hotp key step;
        if String.eqb expected digits then mret (Some step) else first_step key digits afterStep rest
  end.

Definition verifyTotp (secret code : string) (nowMs : Z) (afterStep : option Z) : result range_error (option Z) :=
  let digits := code_digits code in
  if negb (six_digits digits) then Ok None
  else
    let key := base32Decode secret in
    if blength key =? 0 then Ok None
    else
      let current := totpStep nowMs in
      first_step key digits afterStep [current; current - 1; current + 1].
End Codes.

(** ** Backup codes *)

Definition CODE_ALPHABET : string := "abcdefghjkmnpqrstuvwxyz23456789".
Definition BACKUP_CODE_COUNT : nat := 10.

(** [randomBlock], on the bytes drawn. *)
Definition randomBlock (random : bytes) : string :=
  fold_left (fun out b => out +:+ letter CODE_ALPHABET (b mod js_length CODE_ALPHABET)) random "".

(** [generateBackupCodes], on the pairs of five bytes drawn. *)
Definition generateBackupCodes (random : list (bytes * bytes)) : list string :=
  map (fun p => randomBlock p.1 +:+ "-" +:+ randomBlock p.2) random.

Definition normalizeBackupCode (code : string) : string :=
  filter_string (fun c => is_digit c || is_lower c) (to_lower code).

Definition hashBackupCode (sha256 : string -> string) (code : string) : string := sha256 (normalizeBackupCode code).

Definition looksLikeBackupCode (code : string) : bool := js_length (normalizeBackupCode code) =? 10.

(** ** The low bits of 32 bit arithmetic *)

Lemma int32_mod x m : 0 <= m <= 32 -> int32 x mod 2 ^ m = x mod 2 ^ m.
Proof.
  intros Hm. unfold int32. rewrite Zminus_mod.
  rewrite Z.mod_mod_divide.
  2:{ exists (2 ^ (32 - m)). rewrite <- Z.pow_add_r by lia. f_equal; lia. }
  rewrite <- Zminus_mod. f_equal. lia.
Qed.

Lemma int32_small x : 0 <= x < 2 ^ 31 -> int32 x = x.
Proof. intros. unfold int32. rewrite Z.mod_small; lia. Qed.

Lemma js_and_ones a w : 0 <= w <= 31 -> js_and a (2 ^ w - 1) = a mod 2 ^ w.
Proof.
  intros Hw. unfold js_and. rewrite (int32_small (2 ^ w - 1)).
  2:{ pose proof (pow2_pos w). pose proof (Z.pow_le_mono_r 2 w 31). lia. }
  rewrite land_ones_mod by lia. apply int32_mod; lia.
Qed.

(** A field of [w] bits at [k]. *)
Lemma js_field v k w : 0 <= k -> 0 <= w <= 31 -> k + w <= 32 -> js_and (js_ushr v k) (2 ^ w - 1) = v mod 2 ^ (k + w) / 2 ^ k.
Proof.
  intros Hk Hw Hkw. rewrite js_and_ones by done. unfold js_ushr, uint32. rewrite Z.shiftr_div_pow2 by done.
  apply Z.bits_inj'; intros i Hi. rewrite (Z.div_pow2_bits (v mod _)) by lia.
  destruct (Z.ltb_spec i w).
  - rewrite !Z.mod_pow2_bits_low, Z.div_pow2_bits, Z.mod_pow2_bits_low by lia. done.
  - rewrite !Z.mod_pow2_bits_high by lia. done.
Qed.

(** Appending [n] bits below. *)
Lemma js_append v b n m : 0 <= n <= 31 -> n <= m <= 32 -> 0 <= b < 2 ^ n ->
  js_or (js_shl v n) b mod 2 ^ m = (v * 2 ^ n + b) mod 2 ^ m.
Proof.
  intros Hn Hm Hb. unfold js_or, js_shl.
  assert (b < 2 ^ 31) by (pose proof (Z.pow_le_mono_r 2 n 31); lia). rewrite (int32_small b) by lia.
  rewrite lor_aligned with (h := n); [|lia| |done].
  2:{ rewrite !int32_mod, shiftl_pow by lia. apply Z_mod_mult. }
  rewrite Zplus_mod, !int32_mod, shiftl_pow by lia.
  rewrite Zmult_mod, int32_mod, <- Zmult_mod by lia. by rewrite <- Zplus_mod.
Qed.

(** ** The letters *)

Lemma letter_index_letter d : 0 <= d < 32 ->
  exists c, letter BASE32_ALPHABET d = String c "" /\ letter_index BASE32_ALPHABET c = d /\ is_base32 (upper_char c) = true /\ upper_char c = c.
Proof.
  intros Hd.
  assert (forall P : Z -> Prop, Forall P (map Z.of_nat (seq 0 32)) -> P d) as Hcase.
  { intros P HP. rewrite Forall_forall in HP. apply HP, list_elem_of_In, in_map_iff. exists (Z.to_nat d).
    split; [lia|]. apply in_seq. lia. }
  revert Hcase. clear. intros Hcase. apply Hcase. repeat constructor; (eexists; split_and!; reflexivity).
Qed.

(** The text of a list of five bit digits. *)
Definition spell (ds : list Z) : string := fold_right (fun d s => letter BASE32_ALPHABET d +:+ s) "" ds.

Definition digits5 (ds : list Z) : Prop := Forall (fun d => 0 <= d < 32) ds.

Lemma spell_snoc ds d : spell (ds ++ [d]) = spell ds +:+ letter BASE32_ALPHABET d.
Proof. induction ds as [|x ds IH]; cbn [spell fold_right app]; [apply app_nil_r_str|]. fold (spell (ds ++ [d])) (spell ds). rewrite IH. apply app_assoc_str. Qed.

Lemma spell_clean ds : digits5 ds ->
  map (letter_index BASE32_ALPHABET) (list_ascii_of_string (filter_string is_base32 (to_upper (spell ds)))) = ds.
Proof.
  induction 1 as [|d ds Hd Hds IH]; [done|]. destruct (letter_index_letter d Hd) as (c & Hc & Hi & Hb & Hu).
  cbn [spell fold_right]. fold (spell ds). rewrite Hc. cbn. rewrite Hb. cbn. rewrite Hu, Hi. f_equal. exact IH.
Qed.

(** ** Base32 keeps the value *)

Definition value32 (ds : list Z) : Z := fold_left (fun acc d => acc * 32 + d) ds 0.

Lemma value32_snoc ds d : value32 (ds ++ [d]) = value32 ds * 32 + d.
Proof. unfold value32. by rewrite fold_left_app. Qed.

(** The digits written stand for all the bits read but the last [bits], which
    [value] still holds. *)
Definition encoding (n total : Z) (bits value : Z) (out : string) : Prop :=
  exists ds, digits5 ds /\ out = spell ds /\ 5 * Z.of_nat (length ds) + bits = n /\ value32 ds * 2 ^ bits + value mod 2 ^ bits = total.

Lemma emit_spec fuel n total bits value out bits' out' :
  encoding n total bits value out -> 0 <= bits <= 31 -> bits <= Z.of_nat fuel -> emit fuel bits value out = (bits', out') ->
  encoding n total bits' value out' /\ 0 <= bits' < 5.
Proof.
  revert bits out. induction fuel as [|fuel IH]; intros bits out He Hb Hf; cbn [emit]; intros Hrun.
  - simplify_eq. split; [done|lia].
  - destruct (Z.leb_spec 5 bits) as [H5|H5]; [|simplify_eq; split; [done|lia]].
    apply IH in Hrun; [done| |lia|lia].
    destruct He as (ds & Hds & -> & Hlen & Htot). change 31 with (2 ^ 5 - 1). rewrite js_field by lia.
    replace (bits - 5 + 5) with bits by lia.
    set (d := value mod 2 ^ bits / 2 ^ (bits - 5)).
    assert (2 ^ bits = 2 ^ (bits - 5) * 32) as Hpow.
    { change 32 with (2 ^ 5). rewrite <- Z.pow_add_r by lia. f_equal; lia. }
    pose proof (pow2_pos (bits - 5) ltac:(lia)). pose proof (Z.mod_pos_bound value (2 ^ bits) ltac:(lia)).
    exists (ds ++ [d]). rewrite spell_snoc, value32_snoc, length_app. cbn [length].
    assert (value mod 2 ^ (bits - 5) = value mod 2 ^ bits mod 2 ^ (bits - 5)) as ->.
    { symmetry. apply Z.mod_mod_divide. exists 32. lia. }
    pose proof (Z_div_mod_eq_full (value mod 2 ^ bits) (2 ^ (bits - 5))) as Hdm. fold d in Hdm.
    split_and!; [|done|lia|lia].
    apply Forall_app. split; [done|]. constructor; [|constructor]. unfold d. split; [apply Z.div_pos; lia|].
    apply Z.div_lt_upper_bound; lia.
Qed.

Lemma encode_byte_spec n total bits value out byte bits' value' out' :
  encoding n total bits value out -> 0 <= bits < 5 -> Bytes.byte byte -> encode_byte (bits, value, out) byte = (bits', value', out') ->
  encoding (n + 8) (total * 256 + byte) bits' value' out' /\ 0 <= bits' < 5.
Proof.
  intros (ds & Hds & -> & Hlen & Htot) Hb Hbyte Hrun. unfold encode_byte in Hrun.
  destruct (emit _ _ _ _) as [bits1 out1] eqn:He. simplify_eq.
  apply (emit_spec _ (5 * Z.of_nat (length ds) + bits + 8) ((value32 ds * 2 ^ bits + value mod 2 ^ bits) * 256 + byte)) in He; [done| |lia|lia].
  exists ds. split_and!; [done|done|lia|]. rewrite js_append by (unfold Bytes.byte in Hbyte; lia).
  rewrite (Z.pow_add_r 2 bits 8) by lia. pose proof (pow2_pos bits ltac:(lia)).
  rewrite (Z.mul_comm (2 ^ bits)), Z.rem_mul_r by lia.
  rewrite (Z.add_comm (value * 2 ^ 8)), Z_mod_plus_full, Z.div_add, Zdiv_small, Z.mod_small by (unfold Bytes.byte in Hbyte; lia).
  rewrite Z.add_0_l. change (2 ^ 8) with 256. ring.
Qed.

Lemma encode_fold l : forall n total bits value out,
  encoding n total bits value out -> 0 <= bits < 5 -> Forall Bytes.byte l ->
  exists bits' value' out', fold_left encode_byte l (bits, value, out) = (bits', value', out') /\ 0 <= bits' < 5 /\
    encoding (n + 8 * Z.of_nat (length l)) (fold_left (fun acc b => acc * 256 + b) l total) bits' value' out'.
Proof.
  induction l as [|b l IH]; intros n total bits value out He Hb Hl.
  - exists bits, value, out. split_and!; [done|lia|lia|]. cbn [length fold_left map]. by rewrite Z.mul_0_r, Z.add_0_r.
  - inversion Hl as [|?? Hbyte Hl']; subst. cbn [fold_left length]. destruct (encode_byte _ _) as [[bits1 value1] out1] eqn:E1.
    eapply encode_byte_spec in E1 as [He1 Hb1]; [|done..]. destruct (IH _ _ _ _ _ He1 Hb1 Hl') as (b2 & v2 & o2 & -> & Hb2 & He2).
    exists b2, v2, o2. split_and!; [done|lia|lia|]. by replace (n + 8 * Z.of_nat (S (length l))) with (n + 8 + 8 * Z.of_nat (length l)) by lia.
Qed.

(** The text of a buffer spells its bits, filled up with zeros. *)
Lemma base32Encode_spec l : Forall Bytes.byte l ->
  exists ds pad, base32Encode l = spell ds /\ digits5 ds /\ 0 <= pad < 5 /\
    5 * Z.of_nat (length ds) = 8 * Z.of_nat (length l) + pad /\ value32 ds = be_value l * 2 ^ pad.
Proof.
  intros Hl. unfold base32Encode.
  destruct (encode_fold l 0 0 0 0 "") as (bits & value & out & -> & Hb & ds & Hds & -> & Hlen & Htot); [|lia|done|].
  { exists []. split_and!; [constructor|done|done|done]. }
  fold (be_value l) in Htot.
  destruct (Z.ltb_spec 0 bits) as [H0|H0].
  - exists (ds ++ [js_and (js_shl value (5 - bits)) 31]), (5 - bits).
    rewrite spell_snoc, value32_snoc, length_app. cbn [length].
    assert (js_and (js_shl value (5 - bits)) 31 = value mod 2 ^ bits * 2 ^ (5 - bits)) as ->.
    { change 31 with (2 ^ 5 - 1). rewrite js_and_ones by lia. unfold js_shl.
      rewrite int32_mod, shiftl_pow, Zmult_mod, int32_mod, <- Zmult_mod by lia.
      replace (2 ^ 5) with (2 ^ bits * 2 ^ (5 - bits)) by (rewrite <- Z.pow_add_r by lia; f_equal; lia).
      rewrite Zmult_mod_distr_r. done. }
    assert (2 ^ bits * 2 ^ (5 - bits) = 32) as Hp by (rewrite <- Z.pow_add_r by lia; by replace (bits + (5 - bits)) with 5 by lia).
    pose proof (Z.mod_pos_bound value (2 ^ bits) (pow2_pos bits ltac:(lia))). pose proof (pow2_pos (5 - bits) ltac:(lia)).
    split_and!; [done| |lia|lia|lia|rewrite <- Htot, <- Hp; ring].
    apply Forall_app. split; [done|]. constructor; [|constructor]. nia.
  - exists ds, 0. replace bits with 0 in * by lia. rewrite Z.mod_1_r in Htot. split_and!; [done|done|lia|lia|lia|]. lia.
Qed.

(** The bytes read stand for all the digits but the last [bits] bits. *)
Definition decoding (n total bits value : Z) (out : bytes) : Prop :=
  8 * Z.of_nat (length out) + bits = n /\ be_value out * 2 ^ bits + value mod 2 ^ bits = total /\ Forall Bytes.byte out.

Lemma decode_letter_spec n total bits value out ch bits' value' out' :
  decoding n total bits value out -> 0 <= bits < 8 -> 0 <= letter_index BASE32_ALPHABET ch < 32 ->
  decode_letter (bits, value, out) ch = (bits', value', out') ->
  decoding (n + 5) (total * 32 + letter_index BASE32_ALPHABET ch) bits' value' out' /\ 0 <= bits' < 8.
Proof.
  intros (Hlen & Htot & Hout) Hb Hd. unfold decode_letter. set (d := letter_index BASE32_ALPHABET ch) in *.
  set (v := js_or (js_shl value 5) d).
  assert (v mod 2 ^ (bits + 5) = (value mod 2 ^ bits) * 32 + d) as Hv.
  { unfold v. rewrite js_append by lia. pose proof (pow2_pos bits ltac:(lia)).
    rewrite (Z.pow_add_r 2 bits 5), (Z.mul_comm (2 ^ bits)), Z.rem_mul_r by lia.
    rewrite (Z.add_comm (value * 2 ^ 5)), Z_mod_plus_full, Z.div_add, Zdiv_small, Z.mod_small by lia.
    rewrite Z.add_0_l. change (2 ^ 5) with 32. ring. }
  assert (2 ^ (bits + 5) = 2 ^ bits * 32) as Hp5 by (rewrite Z.pow_add_r by lia; done).
  destruct (Z.leb_spec 8 (bits + 5)) as [H8|H8]; intros Hrun; injection Hrun as <- <- <-.
  - replace (bits + 5 - 8) with (bits - 3) by lia. change 255 with (2 ^ 8 - 1). rewrite js_field by lia.
    replace (bits - 3 + 8) with (bits + 5) by lia. rewrite Hv.
    assert (2 ^ bits * 32 = 2 ^ (bits - 3) * 256) as Hp.
    { change 32 with (2 ^ 5). change 256 with (2 ^ 8). rewrite <- !Z.pow_add_r by lia. f_equal; lia. }
    pose proof (pow2_pos (bits - 3) ltac:(lia)). pose proof (Z.mod_pos_bound value (2 ^ bits) (pow2_pos bits ltac:(lia))).
    set (x := value mod 2 ^ bits * 32 + d) in *. pose proof (Z_div_mod_eq_full x (2 ^ (bits - 3))) as Hdm.
    assert (v mod 2 ^ (bits - 3) = x mod 2 ^ (bits - 3)) as Hvm.
    { rewrite <- Hv. symmetry. apply Z.mod_mod_divide. exists 256. lia. }
    split; [|lia]. split_and!; [rewrite length_app; cbn [length]; lia| |].
    + rewrite be_value_snoc, Hvm. unfold x in *. nia.
    + apply Forall_app. split; [done|]. constructor; [|constructor]. unfold Bytes.byte.
      split; [apply Z.div_pos; lia|]. apply Z.div_lt_upper_bound; [lia|]. unfold x. nia.
  - split; [|lia]. split_and!; [lia| |done]. rewrite Hv, Hp5. nia.
Qed.

Lemma decode_fold cs : forall n total bits value out,
  decoding n total bits value out -> 0 <= bits < 8 -> Forall (fun c => 0 <= letter_index BASE32_ALPHABET c < 32) cs ->
  exists bits' value' out', fold_left decode_letter cs (bits, value, out) = (bits', value', out') /\ 0 <= bits' < 8 /\
    decoding (n + 5 * Z.of_nat (length cs)) (fold_left (fun acc d => acc * 32 + d) (map (letter_index BASE32_ALPHABET) cs) total) bits' value' out'.
Proof.
  induction cs as [|c cs IH]; intros n total bits value out He Hb Hl.
  - exists bits, value, out. split_and!; [done|lia|lia|]. cbn [length fold_left map]. by rewrite Z.mul_0_r, Z.add_0_r.
  - inversion Hl as [|?? Hc Hl']; subst. cbn [fold_left length map]. destruct (decode_letter _ _) as [[bits1 value1] out1] eqn:E1.
    eapply decode_letter_spec in E1 as [He1 Hb1]; [|done..]. destruct (IH _ _ _ _ _ He1 Hb1 Hl') as (b2 & v2 & o2 & -> & Hb2 & He2).
    exists b2, v2, o2. split_and!; [done|lia|lia|]. by replace (n + 5 * Z.of_nat (S (length cs))) with (n + 5 + 5 * Z.of_nat (length cs)) by lia.
Qed.

(** A secret survives its base32 text: decoding what [base32Encode] wrote
    gives the bytes back, for every length, although [value] overflows 32 bits
    and is never cleared. *)
Theorem base32_round_trip (l : bytes) (Hl : Forall Bytes.byte l) : base32Decode (base32Encode l) = l.
Proof.
  destruct (base32Encode_spec l Hl) as (ds & pad & -> & Hds & Hpad & Hlen & Hval).
  unfold base32Decode. pose proof (spell_clean ds Hds) as Hclean.
  set (cs := list_ascii_of_string _) in *.
  assert (length cs = length ds) as Hcs by (rewrite <- Hclean; by rewrite length_map).
  destruct (decode_fold cs 0 0 0 0 []) as (bits & value & out & -> & Hb & Hn & Ht & Hout); [|lia| |].
  - split_and!; [done|done|constructor].
  - apply Forall_forall. intros c Hc. unfold digits5 in Hds. rewrite <- Hclean, Forall_map in Hds.
    rewrite Forall_forall in Hds. by apply Hds.
  - rewrite Hclean in Ht. change (fold_left _ ds 0) with (value32 ds) in Ht. rewrite Hval, Hcs in *.
    assert (length out = length l /\ bits = pad) as [Hlo ->] by lia.
    pose proof (pow2_pos pad ltac:(lia)). pose proof (Z.mod_pos_bound value (2 ^ pad) ltac:(lia)).
    assert (be_value out = be_value l) as Heq by nia.
    rewrite <- (be_bytes_value out), <- (be_bytes_value l) by done. by rewrite Heq, Hlo.
Qed.

Lemma base32_round_trip_witness : base32Encode [222; 173; 190; 239; 0; 255] = "32W353YA74" /\ base32Decode "32W353YA74" = [222; 173; 190; 239; 0; 255].
Proof.
  split; [vm_compute; reflexivity|]. change "32W353YA74" with (base32Encode [222; 173; 190; 239; 0; 255]).
  apply base32_round_trip. repeat constructor; discriminate.
Defined.

(** ** Codes *)

Lemma js_shl_small a n k : 0 <= n -> 0 <= k -> n + k <= 31 -> 0 <= a < 2 ^ k -> js_shl a n = a * 2 ^ n.
Proof.
  intros Hn Hk Hnk Ha. unfold js_shl.
  assert (2 ^ k * 2 ^ n <= 2 ^ 31) by (rewrite <- Z.pow_add_r by lia; apply Z.pow_le_mono_r; lia).
  pose proof (Z.pow_le_mono_r 2 k 31). pose proof (pow2_pos n Hn).
  rewrite (int32_small a), shiftl_pow, int32_small by nia. done.
Qed.

Lemma js_or_add a b n : 0 <= n -> 0 <= a < 2 ^ 31 -> a mod 2 ^ n = 0 -> 0 <= b < 2 ^ n -> b < 2 ^ 31 -> js_or a b = a + b.
Proof. intros. unfold js_or. rewrite !int32_small by lia. by apply lor_aligned with n. Qed.

Lemma byte_at_range mac i : Forall Bytes.byte mac -> Bytes.byte (byte_at mac i).
Proof.
  intros Hm. unfold byte_at. destruct (nth_in_or_default (Z.to_nat i) mac 0) as [Hin | ->]; [|unfold Bytes.byte; lia].
  rewrite Forall_forall in Hm. by apply Hm, list_elem_of_In.
Qed.

(** RFC 4226: four bytes of the digest, without the top bit. *)
Lemma truncate_eq mac : Forall Bytes.byte mac ->
  let o := byte_at mac (blength mac - 1) mod 16 in
  truncate mac = be_value [byte_at mac o; byte_at mac (o + 1); byte_at mac (o + 2); byte_at mac (o + 3)] mod 2 ^ 31.
Proof.
  intros Hm o. unfold truncate. change 15 with (2 ^ 4 - 1). change 127 with (2 ^ 7 - 1). change 255 with (2 ^ 8 - 1).
  rewrite !js_and_ones by lia. change (2 ^ 4) with 16. fold o.
  set (a := byte_at mac o). set (b := byte_at mac (o + 1)). set (c := byte_at mac (o + 2)). set (d := byte_at mac (o + 3)).
  pose proof (byte_at_range mac o Hm) as Ha. pose proof (byte_at_range mac (o + 1) Hm) as Hb.
  pose proof (byte_at_range mac (o + 2) Hm) as Hc. pose proof (byte_at_range mac (o + 3) Hm) as Hd.
  fold a in Ha. fold b in Hb. fold c in Hc. fold d in Hd. unfold Bytes.byte in *. clearbody a b c d.
  change (2 ^ 8) with 256. change (2 ^ 7) with 128. rewrite !(Z.mod_small _ 256) by lia.
  pose proof (Z.mod_pos_bound a 128 ltac:(lia)).
  rewrite (js_shl_small _ 24 7), (js_shl_small _ 16 8), (js_shl_small _ 8 8) by lia.
  rewrite (js_or_add _ (b * _) 24); [|lia|lia|apply Z_mod_mult|lia|lia].
  rewrite (js_or_add _ (c * _) 16); [|lia|lia| |lia|lia].
  2:{ replace (a mod 128 * 2 ^ 24 + b * 2 ^ 16) with ((a mod 128 * 256 + b) * 2 ^ 16) by lia. apply Z_mod_mult. }
  rewrite (js_or_add _ d 8); [|lia|lia| |lia|lia].
  2:{ replace (a mod 128 * 2 ^ 24 + b * 2 ^ 16 + c * 2 ^ 8) with ((a mod 128 * 65536 + b * 256 + c) * 2 ^ 8) by lia. apply Z_mod_mult. }
  unfold be_value. cbn [fold_left].
  replace ((((0 * 256 + a) * 256 + b) * 256 + c) * 256 + d) with (a mod 128 * 2 ^ 24 + b * 2 ^ 16 + c * 2 ^ 8 + d + a / 128 * 2 ^ 31)
    by (pose proof (Z_div_mod_eq_full a 128); lia).
  rewrite Z_mod_plus_full. symmetry. apply Z.mod_small. lia.
Qed.

Lemma truncate_range mac : Forall Bytes.byte mac -> 0 <= truncate mac < 2 ^ 31.
Proof. intros Hm. rewrite truncate_eq by done. apply Z.mod_pos_bound. lia. Qed.

Section CodeFacts.
Context (hmac_sha1 : bytes -> bytes -> bytes).

(** A digest of SHA-1 is a buffer of 20 bytes. *)
Definition digest : Prop := forall key msg, length (hmac_sha1 key msg) = 20%nat /\ Forall Bytes.byte (hmac_sha1 key msg).
Hypothesis Hdigest : digest.

Lemma counter_bytes_ok c : 0 <= c < 2 ^ 64 -> counter_bytes c = Ok (be_bytes 8 c).
Proof. intros. unfold counter_bytes. destruct (Z.leb_spec 0 c), (Z.ltb_spec c (2 ^ 64)); (lia || done). Qed.

Lemma hotp_ok key c : 0 <= c < 2 ^ 64 ->
  hotp hmac_sha1 key c = Ok (pad_start 6 "0" (dec (truncate (hmac_sha1 key (be_bytes 8 c)) mod 10 ^ 6))).
Proof.
  intros Hc. unfold hotp. change (10 ^ Z.of_nat TOTP_DIGITS) with 1000000. rewrite counter_bytes_ok by done. cbn -[Z.pow Z.rem dec pad_start truncate be_bytes].
  pose proof (truncate_range _ (proj2 (Hdigest key (be_bytes 8 c)))). rewrite Z.rem_mod_nonneg by lia. done.
Qed.

Lemma dec_short n : 0 <= n < 10 ^ 6 -> (String.length (dec n) <= 6)%nat.
Proof. intros Hn. exact (proj2 (length_to_base 10 ltac:(lia) n 6 Hn ltac:(lia))). Qed.

(** The six digit code of a key and a counter, as RFC 4226 has it. *)
Definition rfc4226 (key : bytes) (c : Z) : Z :=
  let mac := hmac_sha1 key (be_bytes 8 c) in
  let o := byte_at mac 19 mod 16 in
  be_value (subarray mac o (o + 4)) mod 2 ^ 31 mod 10 ^ 6.

Lemma hotp_total key c : 0 <= c < 2 ^ 64 -> exists s, hotp hmac_sha1 key c = Ok s.
Proof. intros Hc. rewrite hotp_ok by done. by eexists. Qed.

(** The codes accepted at time [nowMs]: one step either side of the clock, none
    at or before the last one accepted. *)
Definition acceptable (secret digits : string) (nowMs : Z) (afterStep : option Z) (step : Z) : Prop :=
  totpStep nowMs - 1 <= step <= totpStep nowMs + 1 /\ spent afterStep step = false /\ totpCode hmac_sha1 secret step = Ok digits.

Lemma first_step_total key digits after steps : Forall (fun s => 0 <= s < 2 ^ 64) steps ->
  exists r, first_step hmac_sha1 key digits after steps = Ok r /\
    match r with
    | Some s => s ∈ steps /\ spent after s = false /\ hotp hmac_sha1 key s = Ok digits
    | None => forall s, s ∈ steps -> spent after s = false -> hotp hmac_sha1 key s <> Ok digits
    end.
Proof.
  induction 1 as [|s steps Hs _ IH]; cbn [first_step]; [exists None; split; [done|]; intros s Hs; by apply elem_of_nil in Hs|].
  destruct IH as (r & Hr & IH). destruct (spent after s) eqn:Hsp.
  { exists r. split; [done|]. destruct r as [t|].
    - destruct IH as (? & ? & ?). split_and!; [by apply elem_of_cons; right|done|done].
    - intros t [-> | Ht]%elem_of_cons Hf; [congruence|]. by apply IH. }
  destruct (hotp_total key s Hs) as [code Hc]. rewrite Hc. cbn. destruct (String.eqb_spec code digits) as [-> | Hne].
  { exists (Some s). split_and!; [done|by apply elem_of_cons; left|done|done]. }
  exists r. split; [done|]. destruct r as [t|].
  - destruct IH as (? & ? & ?). split_and!; [by apply elem_of_cons; right|done|done].
  - intros t [-> | Ht]%elem_of_cons Hf; [congruence|]. by apply IH.
Qed.
End CodeFacts.

(** ** Backup codes *)

Lemma code_index b : 0 <= b -> exists c, letter CODE_ALPHABET (b mod js_length CODE_ALPHABET) = String c "" /\ is_alnum c = true /\ is_upper c = false.
Proof.
  intros Hb. change (js_length CODE_ALPHABET) with 31. pose proof (Z.mod_pos_bound b 31 ltac:(lia)) as Hd.
  set (d := b mod 31) in *. clearbody d. clear Hb.
  assert (forall P : Z -> Prop, Forall P (map Z.of_nat (seq 0 31)) -> P d) as Hcase.
  { intros P HP. rewrite Forall_forall in HP. apply HP, list_elem_of_In, in_map_iff. exists (Z.to_nat d).
    split; [lia|]. apply in_seq. lia. }
  apply Hcase. repeat constructor; (eexists; split_and!; reflexivity).
Qed.

(** [/[a-z0-9]/] *)
Definition is_code_char (c : ascii) : bool := is_digit c || is_lower c.

Lemma randomBlock_chars l : Forall Bytes.byte l -> all_chars is_code_char (randomBlock l) = true /\ String.length (randomBlock l) = length l.
Proof.
  unfold randomBlock. intros Hl.
  cut (forall acc, all_chars is_code_char acc = true ->
    all_chars is_code_char (fold_left (fun out b => out +:+ letter CODE_ALPHABET (b mod js_length CODE_ALPHABET)) l acc) = true /\
    String.length (fold_left (fun out b => out +:+ letter CODE_ALPHABET (b mod js_length CODE_ALPHABET)) l acc) = (String.length acc + length l)%nat).
  { intros H. apply (H ""). done. }
  induction Hl as [|b l Hb _ IH]; intros acc Hacc; cbn [fold_left length]; [split; [done|lia]|].
  destruct (code_index b ltac:(unfold Bytes.byte in Hb; lia)) as (c & Hc & Ha & Hu). rewrite Hc.
  destruct (IH (acc +:+ String c "")) as [IH1 IH2].
  - rewrite all_chars_app, Hacc. cbn. unfold is_code_char. unfold is_alnum in Ha. rewrite Hu in Ha.
    by rewrite orb_false_r in Ha; rewrite Ha.
  - split; [done|]. rewrite IH2, length_app_str. cbn. lia.
Qed.

Lemma filter_string_length p s : (String.length (filter_string p s) <= String.length s)%nat.
Proof. induction s as [|c s IH]; cbn; [lia|]. destruct (p c); cbn; lia. Qed.

Lemma filter_string_id p s : all_chars p s = true -> filter_string p s = s.
Proof. induction s as [|c s IH]; cbn; [done|]. intros [Hc Hs]%andb_true_iff. rewrite Hc. by rewrite IH. Qed.

Lemma filter_string_app p s t : filter_string p (s +:+ t) = filter_string p s +:+ filter_string p t.
Proof. induction s as [|c s IH]; cbn; [done|]. destruct (p c); cbn; by rewrite IH. Qed.

Lemma map_string_app f s t : map_string f (s +:+ t) = map_string f s +:+ map_string f t.
Proof. induction s as [|c s IH]; cbn; [done|]. by rewrite IH. Qed.

Lemma normalize_block s : all_chars is_code_char s = true -> normalizeBackupCode s = s.
Proof.
  intros Hs. unfold normalizeBackupCode. rewrite to_lower_id.
  - by apply filter_string_id.
  - eapply all_chars_impl; [|exact Hs]. intros c Hc. unfold is_code_char, is_digit, is_lower, is_upper, in_range in *.
    destruct (Z.leb_spec 48 (code c)), (Z.leb_spec (code c) 57), (Z.leb_spec 97 (code c)), (Z.leb_spec (code c) 122),
      (Z.leb_spec 65 (code c)), (Z.leb_spec (code c) 90); simpl in *; (lia || done).
Qed.

(** A code of the server normalizes to its ten characters. *)
Lemma generated_code a b : Forall Bytes.byte a -> Forall Bytes.byte b -> length a = 5%nat -> length b = 5%nat ->
  normalizeBackupCode (randomBlock a +:+ "-" +:+ randomBlock b) = randomBlock a +:+ randomBlock b /\
  looksLikeBackupCode (randomBlock a +:+ "-" +:+ randomBlock b) = true.
Proof.
  intros Ha Hb La Lb. destruct (randomBlock_chars a Ha) as [Ca Na]. destruct (randomBlock_chars b Hb) as [Cb Nb].
  assert (normalizeBackupCode (randomBlock a +:+ "-" +:+ randomBlock b) = randomBlock a +:+ randomBlock b) as Hn.
  { unfold normalizeBackupCode, to_lower. rewrite !map_string_app, !filter_string_app.
    fold (to_lower (randomBlock a)) (to_lower (randomBlock b)).
    change (filter_string _ (to_lower ?s)) with (normalizeBackupCode s). by rewrite !normalize_block. }
  split; [done|]. unfold looksLikeBackupCode. rewrite Hn. unfold js_length. rewrite length_app_str, Na, Nb, La, Lb. done.
Qed.

Lemma space_no_code c : is_space c = true -> is_code_char (lower_char c) = false.
Proof. destruct c as [[] [] [] [] [] [] [] []]; vm_compute; (done || discriminate). Qed.

(** Six digits and white space are not taken for a backup code. *)
Lemma normalize_digits code : all_chars is_digit (code_digits code) = true -> normalizeBackupCode code = code_digits code.
Proof.
  unfold normalizeBackupCode, code_digits, to_lower. induction code as [|c s IH]; [done|]. cbn.
  destruct (is_space c) eqn:Hsp; cbn.
  - intros Hs. rewrite (IH Hs). pose proof (space_no_code c Hsp) as Hn. unfold is_code_char in Hn. by rewrite Hn.
  - intros [Hd Hs]%andb_true_iff. rewrite (IH Hs).
    assert (lower_char c = c) as ->.
    { unfold lower_char, is_upper, is_digit, in_range in *. reflect_bools. destruct (Z.leb_spec 65 (code c)); [lia|done]. }
    by rewrite Hd.
Qed.

(** [verifyTotp] returns, and its answer is exact: a step it returns is one
    either side of the clock, after the last step accepted, and the code is the
    code of that step; when it returns [null] no such step has that code. A code
    it accepts never looks like a backup code, so the login route cannot read it
    as one. The times are those from one step after 1970 to the largest the
    language has. *)
Theorem verify_exact (hmac : bytes -> bytes -> bytes) (secret code : string) (nowMs : Z) (afterStep : option Z)
    (Hdigest : digest hmac) (Hnow : 30000 <= nowMs <= 8640000000000000) :
  exists r, verifyTotp hmac secret code nowMs afterStep = Ok r /\
    match r with
    | Some step => acceptable hmac secret (code_digits code) nowMs afterStep step /\ looksLikeBackupCode code = false
    | None => six_digits (code_digits code) = true -> base32Decode secret <> [] ->
        forall step, ~ acceptable hmac secret (code_digits code) nowMs afterStep step
    end.
Proof.
  unfold verifyTotp. destruct (six_digits (code_digits code)) eqn:H6; cbn [negb].
  2:{ exists None. done. }
  destruct (Z.eqb_spec (blength (base32Decode secret)) 0) as [Hk|Hk].
  { exists None. split; [done|]. intros _ Hne. destruct (base32Decode secret); [done|]. unfold blength in Hk. cbn in Hk. lia. }
  assert (1 <= totpStep nowMs <= 8640000000000000) as Hs.
  { unfold totpStep, TOTP_STEP_SECONDS. rewrite Z.div_div by lia. split; [apply Z.div_le_lower_bound; lia|apply Z.div_le_upper_bound; lia]. }
  destruct (first_step_total hmac Hdigest (base32Decode secret) (code_digits code) afterStep
    [totpStep nowMs; totpStep nowMs - 1; totpStep nowMs + 1]) as (r & Hr & Hspec); [repeat constructor; lia|].
  exists r. split; [done|]. destruct r as [s|].
  - destruct Hspec as (Hin & Hsp & Hh). split; [split_and!; try done; apply list_elem_of_In in Hin; cbn in Hin; lia|].
    unfold six_digits in H6. apply andb_true_iff in H6 as [H6 Hd]. apply Nat.eqb_eq in H6.
    unfold looksLikeBackupCode, js_length. rewrite normalize_digits by done. by rewrite H6.
  - intros _ _ s (Hw & Hsp & Hh). apply (Hspec s); [|done|done]. apply list_elem_of_In. cbn. lia.
Qed.

(** A stand-in for the digest, to run the functions. *)
Definition toy_hmac (key msg : bytes) : bytes := repeat ((be_value key + be_value msg) mod 251) 20.

Lemma toy_digest : digest toy_hmac.
Proof.
  intros key msg. unfold toy_hmac. set (b := (be_value key + be_value msg) mod 251).
  assert (0 <= b < 251) by (apply Z.mod_pos_bound; lia). split; [by rewrite repeat_length|].
  apply Forall_forall. intros x Hx. apply list_elem_of_In, repeat_spec in Hx. subst x. unfold Bytes.byte. lia.
Qed.

Lemma verify_exact_witness :
  verifyTotp toy_hmac "JBSWY3DP" " 165 576" 1700000000000 None = Ok (Some 56666666) /\
  verifyTotp toy_hmac "JBSWY3DP" "165576" 1700000000000 (Some 56666666) = Ok None /\
  ~ acceptable toy_hmac "JBSWY3DP" "165576" 1700000000000 (Some 56666666) 56666667.
Proof.
  split; [vm_compute; reflexivity|]. split; [vm_compute; reflexivity|].
  destruct (verify_exact toy_hmac "JBSWY3DP" "165576" 1700000000000 (Some 56666666) toy_digest ltac:(lia)) as (r & Hr & Hspec).
  assert (r = None) as -> by (vm_compute in Hr; congruence).
  apply (Hspec eq_refl). vm_compute. discriminate.
Defined.
