(* ===== verification/Accounts.v ===== *)
(** * Roles and the password policy: [server/src/auth/roles.js],
    [auth/require-perm.js], [auth/password-policy.js]

    The table of roles with its two gates, and the rule a new password must
    meet, read from and written to the [settings] table. *)

From S2P Require Import Prelude JsString.

(** ** Roles *)

Record Role := mkRole { role_label : string; role_permissions : list string }.

Definition ROLES : list (string * Role) :=
  [("admin", mkRole "Administrator" ["*"]);
   ("dns_admin", mkRole "DNS Administrator" ["dns:read"; "dns:write"; "subnets:read"; "system:read"; "analytics:read"]);
   ("dhcp_admin", mkRole "DHCP Administrator" ["dhcp:read"; "dhcp:write"; "subnets:read"; "system:read"; "analytics:read"]);
   ("readonly_dns", mkRole "DNS Read-Only" ["dns:read"; "subnets:read"; "system:read"; "analytics:read"]);
   ("readonly_dhcp", mkRole "DHCP Read-Only" ["dhcp:read"; "subnets:read"; "system:read"; "analytics:read"]);
   ("readonly", mkRole "Read-Only" ["dns:read"; "dhcp:read"; "subnets:read"; "system:read"; "analytics:read"])].

(** [list.includes(s)] *)
Definition includes (l : list string) (s : string) : bool := existsb (String.eqb s) l.

Definition isSuperuser (role : string) : bool :=
  match js_get role ROLES with Some r => includes (role_permissions r) "*" | None => false end.

Definition hasPermission (role permission : string) : bool :=
  match js_get role ROLES with
  | None => false
  | Some r => if isSuperuser role then true else includes (role_permissions r) permission
  end.

Definition permissionsForRole (role : string) : list string :=
  match js_get role ROLES with Some r => role_permissions r | None => [] end.

(** [Object.keys(ROLES)] *)
Definition VALID_ROLES : list string := keys ROLES.

(** What a gate answers; [Pass] is [next()]. *)
Inductive Gate := Pass | Unauthorized | Forbidden.

(** [requireRole(...allowed)], on the role of [req.user], absent without one. *)
Definition requireRole (allowed : list string) (user : option string) : Gate :=
  match user with
  | None => Unauthorized
  | Some role => if negb (includes allowed role) && negb (isSuperuser role) then Forbidden else Pass
  end.

Definition requirePerm (permission : string) (user : option string) : Gate :=
  match user with
  | None => Forbidden
  | Some role => if hasPermission role permission then Pass else Forbidden
  end.

Definition requireAdmin : option string -> Gate := requireRole ["admin"].

(** ** The password policy *)

Definition PASSWORD_MAX_LENGTH : Z := 1024.

Record PasswordPolicy := mkPolicy
  { maxLength : Z; minLength : Z; requireMixedCase : bool; requireNumber : bool; requireSymbol : bool }.

(** [build], without the description it adds for people. *)
Definition build (minLength : Z) (mixed number symbol : bool) : PasswordPolicy :=
  mkPolicy PASSWORD_MAX_LENGTH minLength mixed number symbol.

Definition PASSWORD_POLICY : PasswordPolicy := build 8 true true false.

Inductive PasswordError :=
| PasswordRequired | PasswordTooLong (max : Z) | PasswordTooShort (min : Z)
| NeedsMixedCase | NeedsNumber | NeedsSymbol.

(** [None] stands for a password that is not a string. *)
Definition passwordPolicyError (password : option string) (policy : PasswordPolicy) : option PasswordError :=
  match password with
  | None => Some PasswordRequired
  | Some pw =>
      if js_length pw =? 0 then Some PasswordRequired
      else if maxLength policy <? js_length pw then Some (PasswordTooLong (maxLength policy))
      else if (0 <? minLength policy) && (js_length pw <? minLength policy) then Some (PasswordTooShort (minLength policy))
      else if requireMixedCase policy && negb (some_char is_upper pw && some_char is_lower pw) then Some NeedsMixedCase
      else if requireNumber policy && negb (some_char is_digit pw) then Some NeedsNumber
      else if requireSymbol policy && negb (some_char (fun c => negb (is_alnum c)) pw) then Some NeedsSymbol
      else None
  end.

(** The [settings] table. *)
Abbreviation Settings := (gmap string string).

Definition key_minLength : string := "password_min_length".
Definition key_requireMixedCase : string := "password_require_mixed_case".
Definition key_requireNumber : string := "password_require_number".
Definition key_requireSymbol : string := "password_require_symbol".

(** [Number.parseInt(s, 10)]: the digits at the start, after white space and a
    sign; [None] for [NaN] and for what no double holds. *)
Fixpoint digit_prefix (s : string) : string :=
  match s with
  | String c s' => if is_digit c then String c (digit_prefix s') else ""
  | EmptyString => ""
  end.

Definition parseInt10 (s : string) : option Z :=
  let '(sign, body) := signed (drop_while is_space s) in
  let digits := digit_prefix body in
  if String.eqb digits "" then None
  else if from_base 10 digits <? 2 ^ 1024 - 2 ^ 970 then Some (sign * from_base 10 digits) else None.

Definition readBool (db : Settings) (key : string) (fallback : bool) : bool :=
  match db !! key with
  | Some v => if String.eqb v "true" then true else if String.eqb v "false" then false else fallback
  | None => fallback
  end.

Definition readInt (db : Settings) (key : string) (fallback : Z) : Z :=
  match db !! key with
  | Some v => match parseInt10 v with
              | Some n => if 0 <=? n then Z.min n PASSWORD_MAX_LENGTH else fallback
              | None => fallback
              end
  | None => fallback
  end.

Definition effectivePasswordPolicy (db : Settings) : PasswordPolicy :=
  build (readInt db key_minLength (minLength PASSWORD_POLICY))
    (readBool db key_requireMixedCase (requireMixedCase PASSWORD_POLICY))
    (readBool db key_requireNumber (requireNumber PASSWORD_POLICY))
    (readBool db key_requireSymbol (requireSymbol PASSWORD_POLICY)).

(** A field of a JSON body: missing, of the type wanted, or of another. *)
Inductive Field (A : Type) := Missing | Given (a : A) | WrongType.
Arguments Missing {A}.
Arguments Given {A} a.
Arguments WrongType {A}.

(** The body of a patch; [None] below is a body that is not an object. *)
Record PolicyBody := mkPolicyBody
  { pb_minLength : Field Z; pb_mixed : Field bool; pb_number : Field bool; pb_symbol : Field bool }.

Inductive PatchError := NotAnObject | BadMinLength | NotBoolean (key : string) | NothingToUpdate.

(** An entry of the patch for a boolean key. *)
Definition bool_entry (name key : string) (f : Field bool) : result PatchError (list (string * string)) :=
  match f with
  | Missing => Ok []
  | Given b => Ok [(key, if b then "true" else "false")]
  | WrongType => Err (NotBoolean name)
  end.

Definition min_entry (f : Field Z) : result PatchError (list (string * string)) :=
  match f with
  | Missing => Ok []
  | Given n => if (n <? 0) || (PASSWORD_MAX_LENGTH <? n) then Err BadMinLength else Ok [(key_minLength, dec n)]
  | WrongType => Err BadMinLength
  end.

Definition validatePolicyPatch (body : option PolicyBody) : result PatchError (list (string * string)) :=
  match body with
  | None => Err NotAnObject
  | Some b =>
      p1 ← min_entry (pb_minLength b);
      p2 ← bool_entry "requireMixedCase" key_requireMixedCase (pb_mixed b);
      p3 ← bool_entry "requireNumber" key_requireNumber (pb_number b);
      p4 ← bool_entry "requireSymbol" key_requireSymbol (pb_symbol b);
      match p1 ++ p2 ++ p3 ++ p4 with
      | [] => Err NothingToUpdate
      | patch => Ok patch
      end
  end.

(** [upsertSettings] of models/setting.js. *)
Definition upsertSettings (db : Settings) (pairs : list (string * string)) : Settings :=
  fold_left (fun db p => <[p.1 := p.2]> db) pairs db.

(** ** What the gates say *)

(** Go through the rows of [ROLES]; the first goal of a row is decided by
    computation. *)
Ltac each_role role :=
  repeat match goal with
  | |- context [String.eqb role ?s] => destruct (String.eqb_spec role s) as [-> |]; [done|]
  end.

Lemma superuser_admin role : isSuperuser role = true <-> role = "admin".
Proof.
  split; [|by intros ->]. unfold isSuperuser, ROLES. cbn -[String.eqb includes].
  each_role role. done.
Qed.

(** Both gates read the one table: the administrator's gate is the wildcard, and
    the permission named [system:write] is held through it alone. *)
Lemma admin_gate user : requireAdmin user = Pass <-> exists role, user = Some role /\ isSuperuser role = true.
Proof.
  unfold requireAdmin, requireRole. destruct user as [role|]; [|split; [done|intros (? & ? & ?); done]].
  split.
  - intros H. exists role. split; [done|]. destruct (isSuperuser role) eqn:Hs; [done|].
    destruct (includes ["admin"] role) eqn:Hi; [|done]. cbn in Hi. rewrite orb_false_r in Hi.
    apply String.eqb_eq in Hi. by rewrite Hi in Hs.
  - intros (r & Hr & Hs). simplify_eq. rewrite Hs. by rewrite andb_false_r.
Qed.

Lemma write_gate user : requirePerm "system:write" user = Pass <-> requireAdmin user = Pass.
Proof.
  rewrite admin_gate. unfold requirePerm. destruct user as [role|]; [|split; [done|intros (? & ? & ?); done]].
  transitivity (hasPermission role "system:write" = true); [by destruct (hasPermission _ _)|].
  transitivity (isSuperuser role = true); [|naive_solver].
  unfold hasPermission, isSuperuser, ROLES. cbn -[String.eqb includes].
  each_role role. done.
Qed.

(** ** What is saved is enforced *)

Lemma digit_prefix_digits s : all_chars is_digit s = true -> digit_prefix s = s.
Proof. induction s as [|c s IH]; cbn; [done|]. intros [Hc Hs]%andb_true_iff. rewrite Hc. by rewrite IH. Qed.

Lemma parseInt10_dec n : 0 <= n < 2 ^ 1000 -> parseInt10 (dec n) = Some n.
Proof.
  intros Hn. pose proof (dec_digits n ltac:(lia)) as Hd. unfold parseInt10.
  rewrite (drop_while_none is_space). 2:{ eapply all_chars_impl; [|exact Hd]. intros c. by destruct c as [[] [] [] [] [] [] [] []]. }
  assert (signed (dec n) = (1, dec n)) as ->.
  { unfold signed. by rewrite !(digits_first _ (dec n)) by done. }
  rewrite digit_prefix_digits by done. destruct (String.eqb_spec (dec n) "") as [He|]; [by apply dec_nonempty in He; [|lia]|].
  rewrite from_dec by lia. assert (2 ^ 1000 < 2 ^ 1024 - 2 ^ 970) by (vm_compute; reflexivity).
  destruct (Z.ltb_spec n (2 ^ 1024 - 2 ^ 970)); [f_equal; lia|lia].
Qed.

(** A field that is given, or what was there. *)
Definition given {A} (f : Field A) (a : A) : A := match f with Given x => x | _ => a end.

Definition changed (b : PolicyBody) (p : PasswordPolicy) : PasswordPolicy :=
  mkPolicy (maxLength p) (given (pb_minLength b) (minLength p)) (given (pb_mixed b) (requireMixedCase p))
    (given (pb_number b) (requireNumber p)) (given (pb_symbol b) (requireSymbol p)).

(** An entry of a patch decides its own setting and no other. *)
Lemma upsert_other db pairs k : k ∉ map fst pairs -> upsertSettings db pairs !! k = db !! k.
Proof.
  unfold upsertSettings. revert db. induction pairs as [|[k' v] pairs IH]; intros db Hk; [done|]. cbn in *.
  apply not_elem_of_cons in Hk as [Hne Hk]. rewrite IH by done. by rewrite lookup_insert_ne.
Qed.

Lemma upsert_app db p q : upsertSettings db (p ++ q) = upsertSettings (upsertSettings db p) q.
Proof. apply fold_left_app. Qed.

Lemma bool_entry_ok name key f p : bool_entry name key f = Ok p -> f <> WrongType /\ Forall (fun e => e.1 = key) p.
Proof. destruct f as [|b|]; cbn; intros H; simplify_eq; split; try done; repeat constructor. Qed.

Lemma min_entry_ok f p : min_entry f = Ok p ->
  f <> WrongType /\ (forall n, f = Given n -> 0 <= n <= 1024) /\ Forall (fun e => e.1 = key_minLength) p.
Proof.
  destruct f as [|n|]; cbn; intros H; simplify_eq; [by repeat constructor|].
  destruct (Z.ltb_spec n 0), (Z.ltb_spec PASSWORD_MAX_LENGTH n); cbn in H; simplify_eq. unfold PASSWORD_MAX_LENGTH in *.
  split_and!; [done|intros ? [= <-]; lia|repeat constructor].
Qed.

Lemma entries_elsewhere (p : list (string * string)) key k : Forall (fun e => e.1 = key) p -> k <> key -> k ∉ map fst p.
Proof.
  intros Hp Hk Hin. apply list_elem_of_In, in_map_iff in Hin as ([k' v] & <- & Hin). cbn in *.
  rewrite Forall_forall in Hp. apply Hk. apply (Hp (k', v)). by apply list_elem_of_In.
Qed.

Lemma read_bool_entry db name key f p fallback : bool_entry name key f = Ok p ->
  readBool (upsertSettings db p) key fallback = given f (readBool db key fallback).
Proof.
  destruct f as [|b|]; cbn; intros H; simplify_eq; [done|]. unfold readBool, upsertSettings. cbn.
  rewrite lookup_insert_eq. by destruct b.
Qed.

Lemma read_int_entry db f p fallback : min_entry f = Ok p ->
  readInt (upsertSettings db p) key_minLength fallback = given f (readInt db key_minLength fallback).
Proof.
  intros H. pose proof (min_entry_ok f p H) as (_ & Hr & _). destruct f as [|n|]; cbn in H; simplify_eq; [done|].
  specialize (Hr n eq_refl). destruct (_ || _); simplify_eq. unfold readInt, upsertSettings. cbn -[dec Z.min].
  rewrite lookup_insert_eq, parseInt10_dec.
  - destruct (Z.leb_spec 0 n); [|lia]. unfold PASSWORD_MAX_LENGTH. lia.
  - split; [lia|]. apply Z.le_lt_trans with (2 ^ 10); [lia|]. apply Z.pow_lt_mono_r; lia.
Qed.

Lemma readBool_other db (p : list (string * string)) key k fallback : Forall (fun e => e.1 = key) p -> k <> key ->
  readBool (upsertSettings db p) k fallback = readBool db k fallback.
Proof. intros Hp Hk. unfold readBool. by rewrite upsert_other by (by eapply entries_elsewhere). Qed.

Lemma readInt_other db (p : list (string * string)) key k fallback : Forall (fun e => e.1 = key) p -> k <> key ->
  readInt (upsertSettings db p) k fallback = readInt db k fallback.
Proof. intros Hp Hk. unfold readInt. by rewrite upsert_other by (by eapply entries_elsewhere). Qed.

(** The password rule that is saved is the rule that is enforced: when the
    server accepts a patch of the policy, the policy it reads back from the
    settings has the fields given, as numbers and switches again, and keeps the
    others, whatever the settings held before. *)
Theorem policy_saved (db : Settings) (body : PolicyBody) (patch : list (string * string))
    (Hpatch : validatePolicyPatch (Some body) = Ok patch) :
  effectivePasswordPolicy (upsertSettings db patch) = changed body (effectivePasswordPolicy db).
Proof.
  cbn in Hpatch.
  destruct (min_entry (pb_minLength body)) as [p1|] eqn:E1; [|done]. cbn in Hpatch.
  destruct (bool_entry _ _ (pb_mixed body)) as [p2|] eqn:E2; [|done]. cbn in Hpatch.
  destruct (bool_entry _ _ (pb_number body)) as [p3|] eqn:E3; [|done]. cbn in Hpatch.
  destruct (bool_entry _ _ (pb_symbol body)) as [p4|] eqn:E4; [|done]. cbn in Hpatch.
  assert (patch = p1 ++ p2 ++ p3 ++ p4) as -> by (destruct (p1 ++ p2 ++ p3 ++ p4); by simplify_eq).
  destruct (min_entry_ok _ _ E1) as (_ & _ & K1). destruct (bool_entry_ok _ _ _ _ E2) as [_ K2].
  destruct (bool_entry_ok _ _ _ _ E3) as [_ K3]. destruct (bool_entry_ok _ _ _ _ E4) as [_ K4].
  rewrite !upsert_app. unfold effectivePasswordPolicy, changed, build.
  f_equal; cbn [minLength requireMixedCase requireNumber requireSymbol PASSWORD_POLICY build].
  - rewrite (readInt_other _ p4 _ _ _ K4), (readInt_other _ p3 _ _ _ K3), (readInt_other _ p2 _ _ _ K2) by done. by apply read_int_entry.
  - rewrite (readBool_other _ p4 _ _ _ K4), (readBool_other _ p3 _ _ _ K3), (read_bool_entry _ _ _ _ _ _ E2) by done.
    by rewrite (readBool_other _ p1 _ _ _ K1) by done.
  - rewrite (readBool_other _ p4 _ _ _ K4), (read_bool_entry _ _ _ _ _ _ E3) by done.
    by rewrite (readBool_other _ p2 _ _ _ K2), (readBool_other _ p1 _ _ _ K1) by done.
  - rewrite (read_bool_entry _ _ _ _ _ _ E4).
    by rewrite (readBool_other _ p3 _ _ _ K3), (readBool_other _ p2 _ _ _ K2), (readBool_other _ p1 _ _ _ K1) by done.
Qed.

Lemma policy_saved_witness :
  let patch := [("password_min_length", "12"); ("password_require_number", "false")] in
  validatePolicyPatch (Some (mkPolicyBody (Given 12) Missing (Given false) Missing)) = Ok patch /\
  effectivePasswordPolicy (upsertSettings ∅ patch) = build 12 true false false.
Proof.
  set (patch := [("password_min_length", "12"); ("password_require_number", "false")]).
  assert (validatePolicyPatch (Some (mkPolicyBody (Given 12) Missing (Given false) Missing)) = Ok patch) as H by (vm_compute; reflexivity).
  split; [exact H|]. exact (policy_saved ∅ _ patch H).
Defined.
