(* ===== verification/Sessions.v ===== *)
(** * Accounts, sessions and tokens in the database:
    [server/src/models/session.js], [models/user.js], [models/backup-code.js],
    [auth/tokens.js]

    The four tables a sign-in touches and every statement that writes them. A
    clock reading is in milliseconds; a column holds whole seconds, as
    [sqlTime] writes them. Foreign keys are on: deleting an account deletes its
    tokens and backup codes and clears the account of its sessions. *)

From S2P Require Import Prelude JsString Accounts.

Definition is_Some_b {A} (o : option A) : bool := match o with Some _ => true | None => false end.

(** ** Rows *)

Inductive EndReason :=
| logout | idle | expired | password_changed | password_reset | role_changed | user_deleted | revoked | restore.

Record Session := mkSession
  { ss_id : string; ss_user : option Z; ss_username : string; ss_created : Z; ss_activity : Z; ss_expires : Z;
    ss_ended : option Z; ss_reason : option EndReason }.

Inductive Kind := person | service.

Definition is_service (k : Kind) : bool := match k with service => true | person => false end.

Record User := mkUser
  { us_id : Z; us_name : string; us_hash : string; us_role : string; us_kind : Kind; us_must_change : bool;
    us_secret : option string; us_enabled : bool; us_last_step : option Z }.

Record ApiToken := mkToken
  { tk_id : Z; tk_user : Z; tk_hash : string; tk_last_used : option Z; tk_expires : option Z; tk_revoked : option Z }.

Record BackupCode := mkCode { bc_user : Z; bc_hash : string; bc_used : option Z }.

Record AuthDb := mkAuthDb
  { users : list User; next_user : Z; sessions : list Session; tokens : list ApiToken; next_token : Z; codes : list BackupCode }.

Definition with_users (db : AuthDb) (l : list User) : AuthDb := mkAuthDb l (next_user db) (sessions db) (tokens db) (next_token db) (codes db).
Definition with_sessions (db : AuthDb) (l : list Session) : AuthDb := mkAuthDb (users db) (next_user db) l (tokens db) (next_token db) (codes db).
Definition with_tokens (db : AuthDb) (l : list ApiToken) : AuthDb := mkAuthDb (users db) (next_user db) (sessions db) l (next_token db) (codes db).
Definition with_codes (db : AuthDb) (l : list BackupCode) : AuthDb := mkAuthDb (users db) (next_user db) (sessions db) (tokens db) (next_token db) l.

(** [UPDATE ... SET f WHERE p] *)
Definition update_rows {A} (p : A -> bool) (f : A -> A) (l : list A) : list A := map (fun r => if p r then f r else r) l.

(** [DELETE ... WHERE p] *)
Definition delete_rows {A} (p : A -> bool) (l : list A) : list A := List.filter (fun r => negb (p r)) l.

(** ** Time *)

(** [sqlTime], and [datetime('now')]. *)
Definition sqlTime (ms : Z) : Z := ms / 1000.
Definition parseSqlTime (t : Z) : Z := t * 1000.

Definition SESSION_LIFETIME_MS : Z := 24 * 60 * 60 * 1000.
Definition IDLE_TIMEOUT_CHOICES : list Z := [0; 15; 30; 60].

(** The inactivity limit, from the setting; without one the default is an
    hour. *)
Definition idleTimeoutMs (settings : Settings) : Z :=
  match js_number (match settings !! "session_idle_timeout_minutes" with Some text => text | None => "60" end) with
  | Some (n, d) => match List.find (fun m => n =? m * d) IDLE_TIMEOUT_CHOICES with Some minutes => minutes * 60 * 1000 | None => 0 end
  | None => 0
  end.

(** ** Sessions *)

Definition getSession (db : AuthDb) (id : string) : option Session := List.find (fun s => String.eqb (ss_id s) id) (sessions db).

Definition find_user (db : AuthDb) (id : Z) : option User := List.find (fun u => us_id u =? id) (users db).
Definition find_username (db : AuthDb) (name : string) : option User := List.find (fun u => String.eqb (us_name u) name) (users db).

(** A statement SQLite refuses. *)
Inductive SqlError := UniqueViolation | ForeignKey | NoRow.

(** [createSession], with the id drawn. The id is the primary key, and the
    account must exist. *)
Definition createSession (db : AuthDb) (user : User) (now : Z) (id : string) : result SqlError (AuthDb * Session) :=
  if is_Some_b (getSession db id) then Err UniqueViolation
  else if negb (is_Some_b (find_user db (us_id user))) then Err ForeignKey
  else
    let s := mkSession id (Some (us_id user)) (us_name user) (sqlTime now) (sqlTime now) (sqlTime (now + SESSION_LIFETIME_MS)) None None in
    Ok (with_sessions db (sessions db ++ [s]), s).

(** Why a session no longer counts; [None] while it does. *)
Definition sessionEndReason (session : option Session) (now idleMs : Z) : option EndReason :=
  match session with
  | None => Some revoked
  | Some s =>
      match ss_ended s with
      | Some _ => Some (match ss_reason s with Some r => r | None => revoked end)
      | None =>
          if parseSqlTime (ss_expires s) <=? now then Some expired
          else if (0 <? idleMs) && (idleMs <=? now - parseSqlTime (ss_activity s)) then Some idle
          else None
      end
  end.

(** What the client counts down to: idle seconds left, seconds to the limit. *)
Definition sessionTimes (s : Session) (now idleMs : Z) : option Z * Z :=
  (if 0 <? idleMs then Some (Z.max 0 ((parseSqlTime (ss_activity s) + idleMs - now) / 1000)) else None,
   Z.max 0 ((parseSqlTime (ss_expires s) - now) / 1000)).

Definition live (s : Session) : bool := negb (is_Some_b (ss_ended s)).

Definition touch (now : Z) (s : Session) : Session :=
  mkSession (ss_id s) (ss_user s) (ss_username s) (ss_created s) (sqlTime now) (ss_expires s) (ss_ended s) (ss_reason s).

Definition touchSession (db : AuthDb) (id : string) (now : Z) : AuthDb :=
  with_sessions db (update_rows (fun s => String.eqb (ss_id s) id && live s) (touch now) (sessions db)).

(** [SET ended_at = ?, end_reason = ?] *)
Definition finish (now : Z) (reason : EndReason) (s : Session) : Session :=
  mkSession (ss_id s) (ss_user s) (ss_username s) (ss_created s) (ss_activity s) (ss_expires s) (Some (sqlTime now)) (Some reason).

Definition endSession (db : AuthDb) (id : string) (reason : EndReason) (now : Z) : AuthDb * bool :=
  match getSession db id with
  | None => (db, false)
  | Some s =>
      if live s then (with_sessions db (update_rows (fun s => String.eqb (ss_id s) id && live s) (finish now reason) (sessions db)), true)
      else (db, false)
  end.

Definition endUserSessions (db : AuthDb) (userId : Z) (reason : EndReason) (except : option string) (now : Z) : AuthDb :=
  with_sessions db
    (update_rows
       (fun s => bool_decide (ss_user s = Some userId) && live s && negb (bool_decide (Some (ss_id s) = except)))
       (finish now reason) (sessions db)).

Definition endAllLiveSessions (db : AuthDb) (reason : EndReason) (now : Z) : AuthDb :=
  with_sessions db (update_rows live (finish now reason) (sessions db)).

(** [listSessions], without its order. *)
Definition listSessions (db : AuthDb) (userId : option Z) (live_only : bool) (now idleMs : Z) : list Session :=
  let rows := List.filter (fun s => match userId with Some u => bool_decide (ss_user s = Some u) | None => true end
                                    && (negb live_only || live s)) (sessions db) in
  if negb live_only then rows
  else List.filter (fun s => negb (is_Some_b (sessionEndReason (Some s) now idleMs))) rows.

(** [pruneSessions], for a positive number of days. *)
Definition pruneSessions (db : AuthDb) (days now : Z) : AuthDb :=
  with_sessions db
    (delete_rows (fun s => match ss_ended s with Some t => t | None => ss_expires s end <? sqlTime now - days * 86400) (sessions db)).

(** ** Accounts *)

Definition set_user (db : AuthDb) (id : Z) (f : User -> User) : AuthDb := with_users db (update_rows (fun u => us_id u =? id) f (users db)).

Definition createUser (db : AuthDb) (username passwordHash role : string) (kind : Kind) (mustChangePassword : bool) : result SqlError (AuthDb * User) :=
  if is_Some_b (find_username db username) then Err UniqueViolation
  else
    let u := mkUser (next_user db) username passwordHash role kind mustChangePassword None false None in
    Ok (mkAuthDb (users db ++ [u]) (next_user db + 1) (sessions db) (tokens db) (next_token db) (codes db), u).

Definition updateRole (db : AuthDb) (userId : Z) (role : string) : AuthDb :=
  set_user db userId (fun u => mkUser (us_id u) (us_name u) (us_hash u) role (us_kind u) (us_must_change u) (us_secret u) (us_enabled u) (us_last_step u)).

(** [deleteUser], with what the foreign keys do. *)
Definition deleteUser (db : AuthDb) (userId : Z) : AuthDb :=
  mkAuthDb (delete_rows (fun u => us_id u =? userId) (users db)) (next_user db)
    (update_rows (fun s => bool_decide (ss_user s = Some userId))
       (fun s => mkSession (ss_id s) None (ss_username s) (ss_created s) (ss_activity s) (ss_expires s) (ss_ended s) (ss_reason s)) (sessions db))
    (delete_rows (fun t => tk_user t =? userId) (tokens db)) (next_token db)
    (delete_rows (fun c => bc_user c =? userId) (codes db)).

Definition set_hash (h : string) (must : bool) (u : User) : User :=
  mkUser (us_id u) (us_name u) h (us_role u) (us_kind u) must (us_secret u) (us_enabled u) (us_last_step u).

Definition resetPassword (db : AuthDb) (userId : Z) (passwordHash : string) : AuthDb := set_user db userId (set_hash passwordHash true).

(** The row is read back; it is gone when the account is. *)
Definition changePassword (db : AuthDb) (userId : Z) (passwordHash : string) : AuthDb * option User :=
  let db' := set_user db userId (set_hash passwordHash false) in (db', find_user db' userId).

Definition set_totp (secret : option string) (enabled : bool) (step : option Z) (u : User) : User :=
  mkUser (us_id u) (us_name u) (us_hash u) (us_role u) (us_kind u) (us_must_change u) secret enabled step.

Definition setPendingTotpSecret (db : AuthDb) (userId : Z) (secret : string) : AuthDb := set_user db userId (set_totp (Some secret) false None).
Definition enableTotp (db : AuthDb) (userId lastStep : Z) : AuthDb := set_user db userId (fun u => set_totp (us_secret u) true (Some lastStep) u).
Definition disableTotp (db : AuthDb) (userId : Z) : AuthDb := set_user db userId (set_totp None false None).
Definition recordTotpStep (db : AuthDb) (userId step : Z) : AuthDb := set_user db userId (fun u => set_totp (us_secret u) (us_enabled u) (Some step) u).

(** [restoreTotp]: only on an account without an enrolment. *)
Definition restoreTotp (db : AuthDb) (userId : Z) (secret : string) (lastStep : option Z) : AuthDb :=
  with_users db (update_rows (fun u => (us_id u =? userId) && negb (us_enabled u)) (set_totp (Some secret) true lastStep) (users db)).

(** ** Backup codes *)

Definition deleteBackupCodes (db : AuthDb) (userId : Z) : AuthDb := with_codes db (delete_rows (fun c => bc_user c =? userId) (codes db)).

(** [replaceBackupCodes]: a hash is unique in the table and the account must
    exist; a transaction that throws changes nothing. *)
Fixpoint insert_codes (userId : Z) (hashes : list string) (l : list BackupCode) : result SqlError (list BackupCode) :=
  match hashes with
  | [] => Ok l
  | h :: rest =>
      if existsb (fun c => String.eqb (bc_hash c) h) l then Err UniqueViolation
      else insert_codes userId rest (l ++ [mkCode userId h None])
  end.

Definition replaceBackupCodes (db : AuthDb) (userId : Z) (hashes : list string) : result SqlError AuthDb :=
  if negb (is_Some_b (find_user db userId)) && negb (bool_decide (hashes = [])) then Err ForeignKey
  else
    l ← insert_codes userId hashes (codes (deleteBackupCodes db userId));
    mret (with_codes db l).

Definition unused (userId : Z) (hash : string) (c : BackupCode) : bool :=
  (bc_user c =? userId) && String.eqb (bc_hash c) hash && negb (is_Some_b (bc_used c)).

(** [result.changes === 1]: exactly one row was spent. *)
Definition consumeBackupCode (db : AuthDb) (userId : Z) (hash : string) (now : Z) : AuthDb * bool :=
  (with_codes db (update_rows (unused userId hash) (fun c => mkCode (bc_user c) (bc_hash c) (Some (sqlTime now))) (codes db)),
   (length (List.filter (unused userId hash) (codes db)) =? 1)%nat).

Definition countUnusedBackupCodes (db : AuthDb) (userId : Z) : Z :=
  Z.of_nat (length (List.filter (fun c => (bc_user c =? userId) && negb (is_Some_b (bc_used c))) (codes db))).

(** ** API tokens *)

Definition TOKEN_PREFIX : string := "cidr_pat_".
Definition LAST_USED_THROTTLE_MS : Z := 60000.

Definition looksLikeApiToken (value : string) : bool := starts_with TOKEN_PREFIX value.

(** [generateToken], on the secret drawn. *)
Definition generateToken (secret : string) : string := TOKEN_PREFIX +:+ secret.

(** [expires_in_days] of a request: absent or null, a number as a fraction, a
    string, or anything [Number] makes [NaN] of. *)
Inductive Days := NoDays | DaysNumber (n d : Z) | DaysText (s : string) | DaysOther.

(** The largest time the language has. *)
Definition MAX_TIME_MS : Z := 8640000000000000.

(** [expiryFromDays]: [Err] is a thrown error, [Ok None] never expires. *)
Definition expiryFromDays (days : Days) (now : Z) : result unit (option Z) :=
  let number := fun v => match v with
    | None => Err tt
    | Some (n, d) =>
        if (n <? 0) || negb (n mod d =? 0) then Err tt
        else if n =? 0 then Ok None
        else let at_ms := now + n / d * 86400000 in
             if MAX_TIME_MS <? at_ms then Err tt else Ok (Some (sqlTime at_ms))
    end in
  match days with
  | NoDays => Ok None
  | DaysNumber n d => number (Some (n, d))
  | DaysText s => if String.eqb (trim s) "" then Ok None else number (js_number (trim s))
  | DaysOther => Err tt
  end.

Definition token_expired (t : ApiToken) (now : Z) : bool :=
  match tk_expires t with Some e => parseSqlTime e <=? now | None => false end.

Inductive TokenError := InvalidToken | TokenRevoked | TokenExpired.

Section Tokens.
Context (sha256 : string -> string).

Definition stamp_used (now : Z) (t : ApiToken) : ApiToken :=
  mkToken (tk_id t) (tk_user t) (tk_hash t) (Some (sqlTime now)) (tk_expires t) (tk_revoked t).

(** [last_used_at] is written at most once a minute. *)
Definition used_lately (t : ApiToken) (now : Z) : bool :=
  match tk_last_used t with Some u => now - parseSqlTime u <=? LAST_USED_THROTTLE_MS | None => false end.

(** [resolveApiToken]: the token and the account it belongs to. *)
Definition resolveApiToken (db : AuthDb) (token : string) (now : Z) : AuthDb * result TokenError (ApiToken * User) :=
  match List.find (fun t => String.eqb (tk_hash t) (sha256 token)) (tokens db) with
  | None => (db, Err InvalidToken)
  | Some t =>
      match find_user db (tk_user t) with
      | None => (db, Err InvalidToken)
      | Some u =>
          if is_Some_b (tk_revoked t) then (db, Err TokenRevoked)
          else if token_expired t now then (db, Err TokenExpired)
          else ((if used_lately t now then db
                 else with_tokens db (update_rows (fun r => tk_id r =? tk_id t) (stamp_used now) (tokens db))), Ok (t, u))
      end
  end.

(** [INSERT INTO api_tokens] *)
Definition insertToken (db : AuthDb) (userId : Z) (hash : string) (expires : option Z) : result SqlError AuthDb :=
  if existsb (fun t => String.eqb (tk_hash t) hash) (tokens db) then Err UniqueViolation
  else Ok (mkAuthDb (users db) (next_user db) (sessions db)
             (tokens db ++ [mkToken (next_token db) userId hash None expires None]) (next_token db + 1) (codes db)).

Definition revokeToken (db : AuthDb) (id now : Z) : AuthDb :=
  with_tokens db (update_rows (fun t => tk_id t =? id)
    (fun t => mkToken (tk_id t) (tk_user t) (tk_hash t) (tk_last_used t) (tk_expires t) (Some (sqlTime now))) (tokens db)).
End Tokens.
