(* ===== verification/SignIn.v ===== *)
(** * Signing in: [server/src/auth/middleware.js], [auth/routes.js],
    [routes/users.js], [reset-password.js]

    The gate in front of every route, the routes that sign in, change a
    password, enrol a second factor and manage accounts, as one machine. A
    request runs from the gate to its first [await]; what follows an [await] is
    a pending continuation with the values it captured, resumed by a later
    event. The library calls ([jsonwebtoken], [bcryptjs], [node:crypto]) are
    parameters; what is drawn at random comes with the event. *)

From S2P Require Import Prelude JsString Bytes Totp Accounts Sessions.

(** ** The gate *)

(** What a JWT carries that the server reads. *)
Record Claims := mkClaims { cl_id : Z; cl_sid : option string; cl_purpose : option string }.

Inductive JwtResult := Verified (c : Claims) | JwtExpired | JwtInvalid.

(** [req.user] *)
Record Principal := mkPrincipal { p_id : Z; p_role : string; p_must : bool; p_session : option string; p_token : option Z }.

Inductive Denial :=
| NoToken | BadToken (e : TokenError) | InvalidJwt | ServerConfig
| SessionEnded (reason : option EndReason) | UserGone | MustChangePassword.

Inductive GateAnswer := Next (user : option Principal) | Deny (d : Denial).

Definition PUBLIC_PATHS : list string :=
  ["/api/auth/login"; "/api/auth/login/totp"; "/api/health"; "/api/health/deep"; "/api/logs/stream"].

Definition PASSWORD_CHANGE_PATHS : list string :=
  ["/api/auth/change-password"; "/api/auth/me"; "/api/auth/logout"; "/api/auth/activity"; "/api/auth/session"; "/api/setup/state"].

(** [path.replace(/\/+$/, '') || '/'] *)
Definition normalizedPath (path : string) : string :=
  let p := drop_while_end (Ascii.eqb "/") path in if String.eqb p "" then "/" else p.

(** A claim that is there and not the empty string. *)
Definition truthy (o : option string) : option string :=
  match o with Some s => if String.eqb s "" then None else Some s | None => None end.

Record World := mkWorld { db : AuthDb; settings : Settings }.

Definition with_db (w : World) (d : AuthDb) : World := mkWorld d (settings w).

Definition jwt_secret (w : World) : option string := truthy (settings w !! "jwt_secret").

(** ** Calls, continuations and replies *)

(** The body fields of a request; [None] is a value that is not a string. *)
Inductive Call :=
| Login (username password : option string)
| LoginTotp (challenge code : option string)
| TotpSetup
| TotpEnable (code : option string)
| TotpBackupCodes (password : option string)
| TotpDisable (password : option string)
| ChangePassword (current new : option string)
| Logout
| Activity
| CreateUser (username role : option string) (kind : Kind)
| UpdateUser (id : Z) (role : option string)
| DeleteUser (id : Z)
| ResetPassword (id : Z)
| CreateToken (id : Z) (name : option string) (days : Days)
| RevokeToken (id token : Z)
| Other (path : string).

Definition path_of (c : Call) : string :=
  match c with
  | Login _ _ => "/api/auth/login"
  | LoginTotp _ _ => "/api/auth/login/totp"
  | TotpSetup => "/api/auth/totp/setup"
  | TotpEnable _ => "/api/auth/totp/enable"
  | TotpBackupCodes _ => "/api/auth/totp/backup-codes"
  | TotpDisable _ => "/api/auth/totp/disable"
  | ChangePassword _ _ => "/api/auth/change-password"
  | Logout => "/api/auth/logout"
  | Activity => "/api/auth/activity"
  | CreateUser _ _ _ => "/api/users"
  | UpdateUser id _ | DeleteUser id => "/api/users/" +:+ dec id
  | ResetPassword id => "/api/users/" +:+ dec id +:+ "/reset-password"
  | CreateToken id _ _ => "/api/users/" +:+ dec id +:+ "/tokens"
  | RevokeToken id t => "/api/users/" +:+ dec id +:+ "/tokens/" +:+ dec t
  | Other path => path
  end.

(** What a suspended handler holds. *)
Inductive Pending :=
| AwaitLogin (user : option User) (password : string)
| AwaitCodes (user : User) (password : string)
| AwaitDisable (user : User) (password : string)
| AwaitCompare (caller : Principal) (user : User) (current new : string)
| AwaitHash (caller : Principal) (user : User) (new : string)
| AwaitCreate (username role : string) (kind : Kind) (password : string)
| AwaitReset (user : User) (password : string).

Inductive Reply :=
| Refused (status : Z)
| Denied (d : Denial)
| Done
| Waiting (p : Pending)
| SignedIn (c : Claims) (token : string)
| Challenge (c : Claims) (token : string)
| Enrolling (secret : string)
| NewCodes (codes : list string)
| NewPassword (password : string)
| NewToken (token : string).

(** What is drawn at random while a request runs. *)
Record Draws := mkDraws
  { dr_sid : string; dr_secret : bytes; dr_codes : list (bytes * bytes); dr_salt : string; dr_password : string; dr_token : string }.

Definition SESSION_SECONDS : Z := SESSION_LIFETIME_MS / 1000.

(** What the libraries compute. *)
Class Crypto := {
  (** [jwt.verify(token, secret, { algorithms: ['HS256'] })], at a time. *)
  jwt_verify : string -> Z -> string -> JwtResult;
  (** [jwt.sign(claims, secret)], at a time, with a lifetime in seconds. *)
  jwt_sign : string -> Z -> Z -> Claims -> string;
  (** [bcrypt.compare(password, hash)] *)
  bcrypt_compare : string -> string -> bool;
  (** [bcrypt.hash(password, 10)], with the salt it draws. *)
  bcrypt_hash : string -> string -> string;
  (** [crypto.createHash('sha256')], in hex. *)
  sha256 : string -> string;
  (** [crypto.createHmac('sha1', key)] *)
  hmac_sha1 : bytes -> bytes -> bytes;
  (** A hash of no account's password. *)
  DUMMY_HASH : string;
}.

Section SignIn.
Context `{Crypto}.

(** The part of the gate for a verified JWT. *)
Definition session_gate (w : World) (now : Z) (path : string) (decoded : Claims) : AuthDb * GateAnswer :=
  match truthy (cl_purpose decoded) with
  | Some _ => (db w, Deny InvalidJwt)
  | None =>
      let session := match truthy (cl_sid decoded) with Some sid => getSession (db w) sid | None => None end in
      match sessionEndReason session now (idleTimeoutMs (settings w)) with
      | Some reason =>
          match session with
          | None => (db w, Deny (SessionEnded None))
          | Some s => (if live s then fst (endSession (db w) (ss_id s) reason now) else db w, Deny (SessionEnded (Some reason)))
          end
      | None =>
          match session, find_user (db w) (cl_id decoded) with
          | Some s, Some u =>
              if negb (bool_decide (ss_user s = Some (us_id u))) then (db w, Deny UserGone)
              else if us_must_change u && negb (includes PASSWORD_CHANGE_PATHS (normalizedPath path)) then (db w, Deny MustChangePassword)
              else (db w, Next (Some (mkPrincipal (cl_id decoded) (us_role u) (us_must_change u) (Some (ss_id s)) None)))
          | _, _ => (db w, Deny UserGone)
          end
      end
  end.

(** [authMiddleware], for a path and an [Authorization] header. *)
Definition authMiddleware (w : World) (now : Z) (path : string) (header : option string) : AuthDb * GateAnswer :=
  if negb (starts_with "/api/" path) then (db w, Next None)
  else if includes PUBLIC_PATHS (normalizedPath path) then (db w, Next None)
  else
    match header with
    | None => (db w, Deny NoToken)
    | Some h =>
        if negb (starts_with "Bearer " h) then (db w, Deny NoToken)
        else
          let token := drop_string 7 h in
          if looksLikeApiToken token then
            match resolveApiToken sha256 (db w) token now with
            | (d, Ok (t, u)) => (d, Next (Some (mkPrincipal (us_id u) (us_role u) false None (Some (tk_id t)))))
            | (d, Err e) => (d, Deny (BadToken e))
            end
          else
            match jwt_secret w with
            | None => (db w, Deny ServerConfig)
            | Some secret =>
                match jwt_verify secret now token with
                | Verified decoded => session_gate w now path decoded
                | JwtExpired => (db w, Deny (SessionEnded (Some expired)))
                | JwtInvalid => (db w, Deny InvalidJwt)
                end
            end
    end.


(** ** Signing in *)

(** [generateToken] of a session, and the answer that carries it. *)
Definition session_token (w : World) (now : Z) (user : User) (s : Session) : Reply :=
  match jwt_secret w with
  | None => Refused 500
  | Some secret => let c := mkClaims (us_id user) (Some (ss_id s)) None in SignedIn c (jwt_sign secret now SESSION_SECONDS c)
  end.

Definition sessionPayload (w : World) (now : Z) (user : User) (sid : string) : World * Reply :=
  match createSession (db w) user now sid with
  | Err _ => (w, Refused 500)
  | Ok (d, s) => (with_db w d, session_token w now user s)
  end.

(** A body string that is there and not empty. *)
Definition login_start (w : World) (username password : option string) : World * Reply :=
  match username, password with
  | Some u, Some p =>
      if String.eqb u "" || String.eqb p "" then (w, Refused 400)
      else if (255 <? js_length u) || (1024 <? js_length p) then (w, Refused 400)
      else (w, Waiting (AwaitLogin (find_username (db w) u) p))
  | _, _ => (w, Refused 400)
  end.

(** After [await bcrypt.compare]: the account is the row read before it. *)
Definition login_finish (w : World) (now : Z) (user : option User) (password sid : string) : World * Reply :=
  let valid := bcrypt_compare password (match user with Some u => us_hash u | None => DUMMY_HASH end) in
  match user with
  | None => (w, Refused 401)
  | Some u =>
      if negb valid then (w, Refused 401)
      else if is_service (us_kind u) then (w, Refused 401)
      else if us_enabled u then
        match jwt_secret w with
        | None => (w, Refused 500)
        | Some secret => let c := mkClaims (us_id u) None (Some "totp") in (w, Challenge c (jwt_sign secret now 300 c))
        end
      else sessionPayload w now u sid
  end.

(** [/login/totp]: a code, or a backup code, which is spent. *)
Definition login_totp (w : World) (now : Z) (challenge code : option string) (sid : string) : World * Reply :=
  match truthy challenge, truthy code with
  | Some ch, Some c =>
      match match jwt_secret w with Some secret => jwt_verify secret now ch | None => JwtInvalid end with
      | Verified decoded =>
          if negb (bool_decide (cl_purpose decoded = Some "totp")) then (w, Refused 401)
          else
            match find_user (db w) (cl_id decoded) with
            | None => (w, Refused 401)
            | Some u =>
                match us_enabled u, truthy (us_secret u) with
                | true, Some secret =>
                    if looksLikeBackupCode c then
                      let '(d, ok) := consumeBackupCode (db w) (us_id u) (hashBackupCode sha256 c) now in
                      if ok then sessionPayload (with_db w d) now u sid else (w, Refused 401)
                    else
                      match verifyTotp hmac_sha1 secret c now (us_last_step u) with
                      | Err _ => (w, Refused 500)
                      | Ok None => (w, Refused 401)
                      | Ok (Some step) => sessionPayload (with_db w (recordTotpStep (db w) (us_id u) step)) now u sid
                      end
                | _, _ => (w, Refused 401)
                end
            end
      | _ => (w, Refused 401)
      end
  | _, _ => (w, Refused 400)
  end.

(** ** The second factor *)

Definition totp_setup (w : World) (caller : Principal) (random : bytes) : World * Reply :=
  match find_user (db w) (p_id caller) with
  | None => (w, Refused 404)
  | Some u =>
      if us_enabled u then (w, Refused 409)
      else let secret := generateTotpSecret random in (with_db w (setPendingTotpSecret (db w) (us_id u) secret), Enrolling secret)
  end.

Definition totp_enable (w : World) (now : Z) (caller : Principal) (code : option string) (random : list (bytes * bytes)) : World * Reply :=
  match truthy code with
  | None => (w, Refused 400)
  | Some c =>
      match find_user (db w) (p_id caller) with
      | None => (w, Refused 404)
      | Some u =>
          if us_enabled u then (w, Refused 409)
          else
            match truthy (us_secret u) with
            | None => (w, Refused 409)
            | Some secret =>
                match verifyTotp hmac_sha1 secret c now None with
                | Err _ => (w, Refused 500)
                | Ok None => (w, Refused 400)
                | Ok (Some step) =>
                    let codes := generateBackupCodes random in
                    match replaceBackupCodes (enableTotp (db w) (us_id u) step) (us_id u) (map (hashBackupCode sha256) codes) with
                    | Err _ => (w, Refused 500)
                    | Ok d => (with_db w d, NewCodes codes)
                    end
                end
            end
      end
  end.

(** The password is asked for again before the codes are replaced. *)
Definition codes_start (w : World) (caller : Principal) (password : option string) : World * Reply :=
  match truthy password with
  | None => (w, Refused 400)
  | Some p =>
      match find_user (db w) (p_id caller) with
      | None => (w, Refused 404)
      | Some u => if us_enabled u then (w, Waiting (AwaitCodes u p)) else (w, Refused 409)
      end
  end.

Definition codes_finish (w : World) (user : User) (password : string) (random : list (bytes * bytes)) : World * Reply :=
  if negb (bcrypt_compare password (us_hash user)) then (w, Refused 401)
  else
    let codes := generateBackupCodes random in
    match replaceBackupCodes (db w) (us_id user) (map (hashBackupCode sha256) codes) with
    | Err _ => (w, Refused 500)
    | Ok d => (with_db w d, NewCodes codes)
    end.

Definition disable_start (w : World) (caller : Principal) (password : option string) : World * Reply :=
  match truthy password with
  | None => (w, Refused 400)
  | Some p => match find_user (db w) (p_id caller) with None => (w, Refused 404) | Some u => (w, Waiting (AwaitDisable u p)) end
  end.

Definition disable_finish (w : World) (user : User) (password : string) : World * Reply :=
  if negb (bcrypt_compare password (us_hash user)) then (w, Refused 401)
  else (with_db w (deleteBackupCodes (disableTotp (db w) (us_id user)) (us_id user)), Done).

(** ** The caller's own password and session *)

Definition change_start (w : World) (caller : Principal) (current new : option string) : World * Reply :=
  match current, new with
  | Some c, Some n =>
      if String.eqb c "" || String.eqb n "" then (w, Refused 400)
      else if is_Some_b (passwordPolicyError (Some n) (effectivePasswordPolicy (settings w))) then (w, Refused 400)
      else match find_user (db w) (p_id caller) with None => (w, Refused 404) | Some u => (w, Waiting (AwaitCompare caller u c n)) end
  | _, _ => (w, Refused 400)
  end.

Definition change_compared (w : World) (caller : Principal) (user : User) (current new : string) : World * Reply :=
  if negb (bcrypt_compare current (us_hash user)) then (w, Refused 401) else (w, Waiting (AwaitHash caller user new)).

(** After [await bcrypt.hash]: every other session of the account ends, and
    the caller's, or a new one, gets a token. *)
Definition change_finish (w : World) (now : Z) (caller : Principal) (user : User) (new salt sid : string) : World * Reply :=
  let '(d, updated) := changePassword (db w) (us_id user) (bcrypt_hash new salt) in
  let w1 := with_db w (endUserSessions d (us_id user) password_changed (p_session caller) now) in
  match updated with
  | None => (w1, Refused 500)
  | Some u =>
      match match p_session caller with Some own => getSession (db w1) own | None => None end with
      | Some s => if live s then (w1, session_token w1 now u s) else sessionPayload w1 now u sid
      | None => sessionPayload w1 now u sid
      end
  end.

Definition logout_route (w : World) (now : Z) (caller : Principal) : World * Reply :=
  match p_session caller with
  | Some sid => (with_db w (fst (endSession (db w) sid logout now)), Done)
  | None => (w, Done)
  end.

Definition activity_route (w : World) (now : Z) (caller : Principal) : World * Reply :=
  match p_session caller with
  | Some sid => (with_db w (touchSession (db w) sid now), Done)
  | None => (w, Refused 400)
  end.

(** ** Accounts and their tokens: [routes/users.js] *)

(** Run a route behind [requireAdmin]. *)
Definition as_admin (w : World) (caller : Principal) (k : World * Reply) : World * Reply :=
  match requireAdmin (Some (p_role caller)) with Pass => k | Unauthorized => (w, Refused 401) | Forbidden => (w, Refused 403) end.

(** [/^[a-zA-Z0-9._-]+$/] *)
Definition username_char (c : ascii) : bool := is_alnum c || Ascii.eqb c "." || Ascii.eqb c "_" || Ascii.eqb c "-".
Definition USERNAME_RE (s : string) : bool := negb (String.eqb s "") && all_chars username_char s.

(** [/^[A-Za-z0-9 ._-]{1,64}$/] *)
Definition TOKEN_NAME_RE (s : string) : bool :=
  (1 <=? js_length s) && (js_length s <=? 64) && all_chars (fun c => username_char c || Ascii.eqb c " ") s.

Definition valid_role (role : option string) : option string :=
  match truthy role with Some r => if includes VALID_ROLES r then Some r else None | None => None end.

Definition create_start (w : World) (username role : option string) (kind : Kind) (random : string) : World * Reply :=
  match username with
  | None => (w, Refused 400)
  | Some name =>
      if String.eqb (trim name) "" then (w, Refused 400)
      else if 64 <? js_length (trim name) then (w, Refused 400)
      else if negb (USERNAME_RE (trim name)) then (w, Refused 400)
      else
        match valid_role role with
        | None => (w, Refused 400)
        | Some r =>
            if is_Some_b (find_username (db w) (to_lower (trim name))) then (w, Refused 409)
            else (w, Waiting (AwaitCreate (to_lower (trim name)) r kind random))
        end
  end.

(** The password drawn is the one hashed; for a service account it is not
    told to anybody. *)
Definition create_finish (w : World) (username role : string) (kind : Kind) (password salt : string) : World * Reply :=
  match createUser (db w) username (bcrypt_hash password salt) role kind (negb (is_service kind)) with
  | Err _ => (w, Refused 500)
  | Ok (d, _) => (with_db w d, if is_service kind then Done else NewPassword password)
  end.

Definition update_user (w : World) (now : Z) (caller : Principal) (id : Z) (role : option string) : World * Reply :=
  match find_user (db w) id with
  | None => (w, Refused 404)
  | Some u =>
      if us_id u =? p_id caller then (w, Refused 400)
      else
        match valid_role role with
        | None => (w, Refused 400)
        | Some r => (with_db w (endUserSessions (updateRole (db w) (us_id u) r) (us_id u) role_changed None now), Done)
        end
  end.

Definition delete_user (w : World) (now : Z) (caller : Principal) (id : Z) : World * Reply :=
  match find_user (db w) id with
  | None => (w, Refused 404)
  | Some u =>
      if us_id u =? p_id caller then (w, Refused 400)
      else (with_db w (deleteUser (endUserSessions (db w) (us_id u) user_deleted None now) (us_id u)), Done)
  end.

Definition reset_start (w : World) (id : Z) (random : string) : World * Reply :=
  match find_user (db w) id with None => (w, Refused 404) | Some u => (w, Waiting (AwaitReset u random)) end.

Definition reset_finish (w : World) (now : Z) (user : User) (password salt : string) : World * Reply :=
  (with_db w (endUserSessions (resetPassword (db w) (us_id user) (bcrypt_hash password salt)) (us_id user) password_reset None now),
   NewPassword password).

(** [serviceAccountOr404] *)
Definition service_account (w : World) (id : Z) (k : User -> World * Reply) : World * Reply :=
  match find_user (db w) id with
  | None => (w, Refused 404)
  | Some u => if is_service (us_kind u) then k u else (w, Refused 400)
  end.

Definition create_token (w : World) (now : Z) (id : Z) (name : option string) (days : Days) (random : string) : World * Reply :=
  service_account w id (fun u =>
    if negb (TOKEN_NAME_RE (match name with Some n => trim n | None => "" end)) then (w, Refused 400)
    else
      match expiryFromDays days now with
      | Err _ => (w, Refused 400)
      | Ok expires =>
          let token := generateToken random in
          match insertToken (db w) (us_id u) (sha256 token) expires with
          | Err _ => (w, Refused 500)
          | Ok d => (with_db w d, NewToken token)
          end
      end).

Definition revoke_token (w : World) (now : Z) (id token : Z) : World * Reply :=
  service_account w id (fun u =>
    match List.find (fun t => (tk_id t =? token) && (tk_user t =? us_id u)) (tokens (db w)) with
    | None => (w, Refused 404)
    | Some t => if is_Some_b (tk_revoked t) then (w, Refused 409) else (with_db w (revokeToken (db w) (tk_id t) now), Done)
    end).

(** ** The machine *)

(** The routes behind the gate. A handler that reads [req.user] where the gate
    set none throws; only the public paths are let through without one. *)
Definition route (w : World) (now : Z) (user : option Principal) (call : Call) (r : Draws) : World * Reply :=
  match call, user with
  | Login u p, _ => login_start w u p
  | LoginTotp ch c, _ => login_totp w now ch c (dr_sid r)
  | Other _, _ => (w, Done)
  | _, None => (w, Refused 500)
  | TotpSetup, Some me => totp_setup w me (dr_secret r)
  | TotpEnable c, Some me => totp_enable w now me c (dr_codes r)
  | TotpBackupCodes p, Some me => codes_start w me p
  | TotpDisable p, Some me => disable_start w me p
  | ChangePassword c n, Some me => change_start w me c n
  | Logout, Some me => logout_route w now me
  | Activity, Some me => activity_route w now me
  | CreateUser u ro k, Some me => as_admin w me (create_start w u ro k (dr_password r))
  | UpdateUser id ro, Some me => as_admin w me (update_user w now me id ro)
  | DeleteUser id, Some me => as_admin w me (delete_user w now me id)
  | ResetPassword id, Some me => as_admin w me (reset_start w id (dr_password r))
  | CreateToken id n d, Some me => as_admin w me (create_token w now id n d (dr_token r))
  | RevokeToken id t, Some me => as_admin w me (revoke_token w now id t)
  end.

Definition resume (w : World) (now : Z) (p : Pending) (r : Draws) : World * Reply :=
  match p with
  | AwaitLogin u pw => login_finish w now u pw (dr_sid r)
  | AwaitCodes u pw => codes_finish w u pw (dr_codes r)
  | AwaitDisable u pw => disable_finish w u pw
  | AwaitCompare me u c n => change_compared w me u c n
  | AwaitHash me u n => change_finish w now me u n (dr_salt r) (dr_sid r)
  | AwaitCreate n ro k pw => create_finish w n ro k pw (dr_salt r)
  | AwaitReset u pw => reset_finish w now u pw (dr_salt r)
  end.

(** [cidrella-reset-password], on the host. *)
Definition cli_reset (w : World) (now : Z) (username hash : string) : World * Reply :=
  match find_username (db w) username with
  | None => (w, Refused 1)
  | Some u => (with_db w (endUserSessions (resetPassword (db w) (us_id u) hash) (us_id u) password_reset None now), Done)
  end.

Inductive Event :=
| Arrive (now : Z) (header : option string) (call : Call) (r : Draws)
| Resume (now : Z) (i : nat) (r : Draws)
| Reject (i : nat)
| Prune (now days : Z)
| CliReset (now : Z) (username hash : string)
| SetSetting (key value : string).

Record Machine := mkMachine { world : World; pending : list Pending }.

(** A handler that suspends adds its continuation. *)
Definition suspend (r : World * Reply) (rest : list Pending) : Machine * Reply :=
  (mkMachine r.1 (match r.2 with Waiting p => rest ++ [p] | _ => rest end), r.2).

Definition arrive (w : World) (now : Z) (header : option string) (call : Call) (r : Draws) : World * Reply :=
  match authMiddleware w now (path_of call) header with
  | (d, Deny reason) => (with_db w d, Denied reason)
  | (d, Next user) => route (with_db w d) now user call r
  end.

Definition step (m : Machine) (e : Event) : Machine * Reply :=
  let w := world m in
  match e with
  | Arrive now header call r => suspend (arrive w now header call r) (pending m)
  | Resume now i r =>
      match pending m !! i with
      | Some p => suspend (resume w now p r) (delete i (pending m))
      | None => (m, Done)
      end
  | Reject i => (mkMachine w (delete i (pending m)), Refused 500)
  | Prune now days => (mkMachine (with_db w (pruneSessions (db w) days now)) (pending m), Done)
  | CliReset now username hash => suspend (cli_reset w now username hash) (pending m)
  | SetSetting key value => (mkMachine (mkWorld (db w) (<[key := value]> (settings w))) (pending m), Done)
  end.

(** The machine after a list of events, with what each answered. *)
Fixpoint exec (m : Machine) (es : list Event) : Machine * list (Machine * Event * Reply) :=
  match es with
  | [] => (m, [])
  | e :: es' => let '(m1, r) := step m e in let '(m2, log) := exec m1 es' in (m2, (m, e, r) :: log)
  end.

(** A request with this header is let in for a session. *)
Definition admitted (w : World) (now : Z) (path : string) (header : option string) (sid : string) : Prop :=
  exists user, snd (authMiddleware w now path header) = Next (Some user) /\ p_session user = Some sid.
End SignIn.

(** ** A stand-in for the libraries, to run the machine

    A token spells the secret, its expiry and its claims as one number; a hash
    is the password behind a dollar sign. *)
Abbreviation Token_data := (string * Z * (Z * option string * option string))%type.

Definition toy_sign (secret : string) (t lifetime : Z) (c : Claims) : string :=
  "e" +:+ dec (Zpos (encode ((secret, sqlTime t + lifetime, (cl_id c, cl_sid c, cl_purpose c)) : Token_data))).

Definition toy_verify (secret : string) (now : Z) (token : string) : JwtResult :=
  match token with
  | String _ digits =>
      match (decode (Z.to_pos (from_base 10 digits)) : option Token_data) with
      | Some (s, expiry, (id, sid, purpose)) =>
          if String.eqb s secret then if expiry <=? sqlTime now then JwtExpired else Verified (mkClaims id sid purpose) else JwtInvalid
      | None => JwtInvalid
      end
  | EmptyString => JwtInvalid
  end.

#[export] Instance toy_crypto : Crypto := {|
  jwt_verify := toy_verify;
  jwt_sign := toy_sign;
  bcrypt_compare := fun password hash => String.eqb hash ("$" +:+ password);
  bcrypt_hash := fun password _ => "$" +:+ password;
  sha256 := fun s => "#" +:+ s;
  hmac_sha1 := toy_hmac;
  DUMMY_HASH := "";
|}.

(** An appliance with an administrator, a reader and an account with a second
    factor. *)
Definition root_user : User := mkUser 1 "root" "$rootpw" "admin" person false None false None.
Definition amy : User := mkUser 2 "amy" "$amypw" "readonly" person false None false None.
Definition tom : User := mkUser 3 "tom" "$tompw" "dns_admin" person false (Some "JBSWY3DP") true None.

Definition office : Machine :=
  mkMachine (mkWorld (mkAuthDb [root_user; amy; tom] 4 [] [] 1 [mkCode 3 "#abcdefghjk" None]) {["jwt_secret" := "k"]}) [].

Definition draw (sid : string) : Draws := mkDraws sid [] [] "" "fresh1" "".

(** The events of a login, and the header of a session opened for [id] at
    [t]. *)
Definition login_events (t : Z) (name pw sid : string) : list Event :=
  [Arrive t None (Login (Some name) (Some pw)) (draw ""); Resume t 0 (draw sid)].

Definition bearer_of (t id : Z) (sid : string) : option string :=
  Some ("Bearer " +:+ toy_sign "k" t SESSION_SECONDS (mkClaims id (Some sid) None)).

(** Noon of a day. *)
Definition noon : Z := 1700000000000.

Definition answers (es : list Event) : list Reply := map snd (snd (exec office es)).
