(* ===== verification/SignInFacts.v ===== *)
(** * What signing in guarantees

    The theorems of [SignIn]: a session that ended stays ended, a change of an
    account signs it out everywhere, no session without a password, a code is
    good once, the limits of a session, an administrator is always left. *)

From S2P Require Import Prelude JsString Bytes Totp Accounts Sessions SignIn.

(** ** Tables *)

Lemma elem_update {A} (p : A -> bool) (f : A -> A) l x : x ∈ update_rows p f l -> exists y, y ∈ l /\ x = if p y then f y else y.
Proof. intros Hx. apply list_elem_of_In, in_map_iff in Hx as (y & <- & Hy). exists y. by rewrite list_elem_of_In. Qed.

Lemma update_elem {A} (p : A -> bool) (f : A -> A) l x : x ∈ l -> (if p x then f x else x) ∈ update_rows p f l.
Proof. intros Hx. apply list_elem_of_In, in_map_iff. exists x. by rewrite <- list_elem_of_In. Qed.

Lemma elem_delete {A} (p : A -> bool) (l : list A) x : x ∈ delete_rows p l <-> x ∈ l /\ p x = false.
Proof. unfold delete_rows. by rewrite !list_elem_of_In, filter_In, negb_true_iff. Qed.

Lemma find_elem {A} (p : A -> bool) (l : list A) x : List.find p l = Some x -> x ∈ l /\ p x = true.
Proof. intros H. apply find_some in H. by rewrite list_elem_of_In. Qed.

Lemma getSession_some d id s : getSession d id = Some s -> s ∈ sessions d /\ ss_id s = id.
Proof. intros H. apply find_elem in H as [? He]. by apply String.eqb_eq in He. Qed.

Lemma getSession_none d id : getSession d id = None -> forall s, s ∈ sessions d -> ss_id s <> id.
Proof.
  intros H s Hs <-. unfold getSession in H. apply list_elem_of_In in Hs.
  pose proof (find_none _ _ H s Hs) as Hn. cbn in Hn. by rewrite String.eqb_refl in Hn.
Qed.

Lemma find_user_some d id u : find_user d id = Some u -> u ∈ users d /\ us_id u = id.
Proof. intros H. apply find_elem in H as [? He]. by apply Z.eqb_eq in He. Qed.

Lemma find_set_user d id f uid : (forall u, us_id (f u) = us_id u) ->
  find_user (set_user d id f) uid = if uid =? id then f <$> find_user d uid else find_user d uid.
Proof.
  intros Hf. unfold find_user, set_user, update_rows. cbn. induction (users d) as [|u l IH]; cbn; [by destruct (uid =? id)|].
  destruct (Z.eqb_spec (us_id u) id) as [Hi|Hi].
  - rewrite Hf. destruct (Z.eqb_spec (us_id u) uid) as [Hu|Hu]; [|done].
    destruct (Z.eqb_spec uid id); [done|lia].
  - destruct (Z.eqb_spec (us_id u) uid) as [Hu|Hu]; [|done]. destruct (Z.eqb_spec uid id); [lia|done].
Qed.

(** ** How the sessions change *)

(** A later version of a row: who and when stay, an end is for good. *)
Definition derived (s s' : Session) : Prop :=
  ss_id s' = ss_id s /\ ss_created s' = ss_created s /\ ss_expires s' = ss_expires s /\
  (live s = false -> ss_ended s' = ss_ended s /\ ss_reason s' = ss_reason s) /\
  (ss_user s' = ss_user s \/ ss_user s' = None).

Definition ids (d : AuthDb) : list string := map ss_id (sessions d).

(** Every session of the second database comes from one of the first. *)
Definition keeps (d d' : AuthDb) : Prop :=
  ids d' `sublist_of` ids d /\ forall s', s' ∈ sessions d' -> exists s, s ∈ sessions d /\ derived s s'.

Lemma derived_refl s : derived s s.
Proof. repeat split; auto. Qed.

Lemma derived_trans s1 s2 s3 : derived s1 s2 -> derived s2 s3 -> derived s1 s3.
Proof.
  intros (I1 & C1 & X1 & E1 & U1) (I2 & C2 & X2 & E2 & U2). split_and!; try congruence.
  - intros Hl. destruct (E1 Hl) as [E1a E1b]. destruct E2 as [E2a E2b]; [unfold live in *; by rewrite E1a|]. split; congruence.
  - destruct U2 as [-> | ->]; auto.
Qed.

#[export] Instance keeps_preorder : PreOrder keeps.
Proof.
  split.
  - intros d. split; [done|]. intros s Hs. exists s. split; [done|apply derived_refl].
  - intros d1 d2 d3 [L12 H12] [L23 H23]. split; [by etransitivity|]. intros s Hs. destruct (H23 s Hs) as (s2 & H2 & D2). destruct (H12 s2 H2) as (s1 & H1 & D1).
    exists s1. split; [done|]. by eapply derived_trans.
Qed.

Lemma keeps_same d d' : sessions d' = sessions d -> keeps d d'.
Proof. intros Heq. unfold keeps, ids. rewrite Heq. split; [done|]. intros s Hs. exists s. split; [done|apply derived_refl]. Qed.

Lemma ids_update p f (l : list Session) : (forall s, ss_id (f s) = ss_id s) -> map ss_id (update_rows p f l) = map ss_id l.
Proof. intros Hf. unfold update_rows. rewrite map_map. apply map_ext. intros s. by destruct (p s). Qed.

Lemma keeps_update d p f : (forall s, ss_id (f s) = ss_id s) -> (forall s, s ∈ sessions d -> p s = true -> derived s (f s)) ->
  keeps d (with_sessions d (update_rows p f (sessions d))).
Proof.
  intros Hi Hf. split; [unfold ids; cbn; by rewrite ids_update|]. intros s Hs. cbn in Hs. apply elem_update in Hs as (y & Hy & ->). exists y. split; [done|].
  destruct (p y) eqn:Hp; [by apply Hf|apply derived_refl].
Qed.

Lemma derived_finish now reason s : live s = true -> derived s (finish now reason s).
Proof. intros Hl. unfold derived. split_and!; cbn; auto. congruence. Qed.

Lemma keeps_end d id reason now : keeps d (fst (endSession d id reason now)).
Proof.
  unfold endSession. destruct (getSession d id) as [s|]; [|reflexivity]. destruct (live s); [|reflexivity].
  apply keeps_update; [done|]. intros s' _ [_ Hl]%andb_true_iff. by apply derived_finish.
Qed.

Lemma keeps_end_user d id reason except now : keeps d (endUserSessions d id reason except now).
Proof. apply keeps_update; [done|]. intros s _ [[_ Hl]%andb_true_iff _]%andb_true_iff. by apply derived_finish. Qed.

Lemma keeps_touch d id now : keeps d (touchSession d id now).
Proof. apply keeps_update; [done|]. intros s _ [_ Hl]%andb_true_iff. split_and!; try done; by left. Qed.

Lemma keeps_prune d days now : keeps d (pruneSessions d days now).
Proof.
  split.
  - unfold ids. cbn. unfold delete_rows. induction (sessions d) as [|s l IH]; cbn; [done|].
    destruct (negb _); cbn; by constructor.
  - intros s Hs. cbn in Hs. apply elem_delete in Hs as [Hs _]. exists s. split; [done|apply derived_refl].
Qed.

Lemma keeps_delete_user d id : keeps d (deleteUser d id).
Proof.
  split; [unfold ids; cbn; by rewrite ids_update|].
  intros s Hs. cbn in Hs. apply elem_update in Hs as (y & Hy & ->). exists y. split; [done|].
  destruct (bool_decide _); [|apply derived_refl]. split_and!; try done; by right.
Qed.

Lemma keeps_consume d id h now : keeps d (fst (consumeBackupCode d id h now)).
Proof. by apply keeps_same. Qed.

Lemma replace_codes_tables d id hashes d' : replaceBackupCodes d id hashes = Ok d' ->
  users d' = users d /\ sessions d' = sessions d /\ tokens d' = tokens d.
Proof.
  unfold replaceBackupCodes. destruct (_ && _); [done|]. by destruct (insert_codes _ _ _); cbn; intros [= <-].
Qed.

Lemma keeps_resolve sha d token now : keeps d (fst (resolveApiToken sha d token now)).
Proof. unfold resolveApiToken. repeat case_match; apply keeps_same; done. Qed.

Lemma keeps_after d0 d d' : sessions d = sessions d0 -> keeps d d' -> keeps d0 d'.
Proof. intros Hs Hk. etransitivity; [by apply keeps_same|done]. Qed.

#[export] Hint Resolve keeps_end keeps_end_user keeps_touch keeps_prune keeps_delete_user keeps_consume keeps_resolve : cidrella.

Section Facts.
Context `{Crypto}.

(** A handler's effect on the sessions: rows that are kept or ended, and at
    most one new row, for an account that [cause] accepts. *)
Definition effect (w : World) (sid : string) (cause : Z -> Prop) (w' : World) : Prop :=
  settings w' = settings w /\
  (keeps (db w) (db w') \/
   exists d u now s, keeps (db w) d /\ createSession d u now sid = Ok (db w', s) /\ cause (us_id u)).

Lemma effect_keeps w sid cause d : keeps (db w) d -> effect w sid cause (with_db w d).
Proof. intros Hk. split; [done|]. by left. Qed.

Lemma effect_refl w sid cause : effect w sid cause w.
Proof. split; [done|]. left. reflexivity. Qed.

Lemma effect_after w d sid cause w' : keeps (db w) d -> effect (with_db w d) sid cause w' -> effect w sid cause w'.
Proof.
  intros Hk [Hs He]. split; [done|]. destruct He as [He | (d1 & u & now & s & H1 & H2 & H3)].
  - left. by etransitivity.
  - right. exists d1, u, now, s. split_and!; [|done|done]. by etransitivity.
Qed.

Lemma payload_effect w now u sid (cause : Z -> Prop) : cause (us_id u) -> effect w sid cause (fst (sessionPayload w now u sid)).
Proof.
  intros Hc. unfold sessionPayload. destruct (createSession _ _ _ _) as [[d s]|] eqn:Hs; [|apply effect_refl].
  split; [done|]. right. exists (db w), u, now, s. split_and!; [reflexivity|done|done].
Qed.

(** The challenge of a request, verified. *)
Definition challenges (w : World) (now : Z) (ch : option string) (cl : Claims) : Prop :=
  exists secret text, jwt_secret w = Some secret /\ truthy ch = Some text /\ jwt_verify secret now text = Verified cl /\ cl_purpose cl = Some "totp".

Lemma login_totp_effect w now ch c sid :
  effect w sid (fun uid => exists cl, challenges w now ch cl /\ cl_id cl = uid) (fst (login_totp w now ch c sid)).
Proof.
  unfold login_totp. destruct (truthy ch) as [text|] eqn:Ht; [|apply effect_refl]. destruct (truthy c) as [code|]; [|apply effect_refl].
  destruct (jwt_secret w) as [secret|] eqn:Hsec; [|apply effect_refl].
  destruct (jwt_verify secret now text) as [cl| |] eqn:Hv; [|apply effect_refl..].
  destruct (bool_decide_reflect (cl_purpose cl = Some "totp")) as [Hp|]; [|apply effect_refl]. cbn [negb].
  destruct (find_user (db w) (cl_id cl)) as [u|] eqn:Hu; [|apply effect_refl].
  apply find_user_some in Hu as [_ Hu].
  assert (exists cl', challenges w now ch cl' /\ cl_id cl' = us_id u) as Hcause by (exists cl; split; [by exists secret, text|done]).
  destruct (us_enabled u); [|apply effect_refl]. destruct (truthy (us_secret u)) as [key|]; [|apply effect_refl].
  destruct (looksLikeBackupCode code).
  - destruct (consumeBackupCode _ _ _ _) as [d ok] eqn:Hc. destruct ok; [|apply effect_refl].
    injection Hc as <- _. eapply effect_after; [by apply keeps_consume with (h := hashBackupCode sha256 code) (now := now)|]. by apply payload_effect.
  - destruct (verifyTotp _ _ _ _ _) as [[step|]|]; [|apply effect_refl..].
    apply effect_after with (recordTotpStep (db w) (us_id u) step); [by apply keeps_same|]. by apply payload_effect.
Qed.

Ltac unchanged := first [apply effect_refl | apply effect_keeps; auto with cidrella; by apply keeps_same].

Lemma as_admin_effect w sid cause me k : effect w sid cause (fst k) -> effect w sid cause (fst (as_admin w me k)).
Proof. intros He. unfold as_admin. destruct (requireAdmin _); [exact He|apply effect_refl..]. Qed.

Lemma service_effect w sid cause id k : (forall u, effect w sid cause (fst (k u))) -> effect w sid cause (fst (service_account w id k)).
Proof. intros Hk. unfold service_account. repeat case_match; [apply Hk|apply effect_refl..]. Qed.

Lemma route_effect w now user call r :
  effect w (dr_sid r) (fun uid => exists ch c cl, call = LoginTotp ch c /\ challenges w now ch cl /\ cl_id cl = uid) (fst (route w now user call r)).
Proof.
  destruct call as [u p|ch c| |c|p|p|c n| | |u ro k|id ro|id|id|id n d|id t|path], user as [me|]; cbn [route]; try apply effect_refl.
  all: try (unfold login_start, codes_start, disable_start, change_start; repeat case_match; apply effect_refl).
  1, 2: destruct (login_totp_effect w now ch c (dr_sid r)) as [Hs [Hk | (d & u & now' & s & H1 & H2 & cl & H3 & H4)]];
    (split; [done|]); [by left|right; exists d, u, now', s; split_and!; [done|done|by exists ch, c, cl]].
  - unfold totp_setup. repeat case_match; unchanged.
  - unfold totp_enable. repeat case_match; try unchanged. apply effect_keeps, keeps_same.
    match goal with E : replaceBackupCodes _ _ _ = Ok _ |- _ => by apply replace_codes_tables in E as (_ & -> & _) end.
  - unfold logout_route. repeat case_match; unchanged.
  - unfold activity_route. repeat case_match; unchanged.
  - apply as_admin_effect. unfold create_start. repeat case_match; unchanged.
  - apply as_admin_effect. unfold update_user. repeat case_match; try unchanged.
    apply effect_keeps. by eapply keeps_after, keeps_end_user.
  - apply as_admin_effect. unfold delete_user. repeat case_match; try unchanged.
    apply effect_keeps. etransitivity; [apply keeps_end_user|apply keeps_delete_user].
  - apply as_admin_effect. unfold reset_start. repeat case_match; unchanged.
  - apply as_admin_effect, service_effect. intros u. cbv zeta. unfold insertToken. repeat case_match; simplify_eq; unchanged.
  - apply as_admin_effect, service_effect. intros u. repeat case_match; unchanged.
Qed.

(** The three ways to a session: the password of an account without a second
    factor, a challenge with its code, a change of the caller's own password. *)
Inductive opened (m : Machine) : Event -> Z -> Prop :=
| opened_password now i r u pw :
    pending m !! i = Some (AwaitLogin (Some u) pw) -> bcrypt_compare pw (us_hash u) = true ->
    us_enabled u = false -> us_kind u = person -> opened m (Resume now i r) (us_id u)
| opened_code now h ch c r cl : challenges (world m) now ch cl -> opened m (Arrive now h (LoginTotp ch c) r) (cl_id cl)
| opened_change now i r me u new : pending m !! i = Some (AwaitHash me u new) -> opened m (Resume now i r) (us_id u).

Lemma resume_effect m now i p r : pending m !! i = Some p ->
  effect (world m) (dr_sid r) (fun uid => opened m (Resume now i r) uid) (fst (resume (world m) now p r)).
Proof.
  intros Hp. destruct p as [u pw|u pw|u pw|me u c n|me u n|n ro k pw|u pw]; cbn [resume].
  - unfold login_finish. destruct u as [u|]; [|apply effect_refl]. destruct (bcrypt_compare pw (us_hash u)) eqn:Hc; [|apply effect_refl]. cbn [negb].
    destruct (us_kind u) eqn:Hk; [|apply effect_refl]. cbn [is_service].
    destruct (us_enabled u) eqn:He; [case_match; apply effect_refl|]. apply payload_effect. by eapply opened_password.
  - unfold codes_finish. case_match; [apply effect_refl|]. cbv zeta. destruct (replaceBackupCodes _ _ _) eqn:E; [|apply effect_refl].
    apply effect_keeps, keeps_same. by apply replace_codes_tables in E as (_ & -> & _).
  - unfold disable_finish. case_match; unchanged.
  - unfold change_compared. case_match; unchanged.
  - unfold change_finish, changePassword. cbv zeta.
    set (w1 := with_db (world m) (endUserSessions _ _ _ _ _)).
    assert (keeps (db (world m)) (db w1)) as Hk by (by eapply keeps_after, keeps_end_user).
    destruct (find_user _ _) as [v|] eqn:Hv; [|by apply effect_keeps].
    assert (us_id v = us_id u) as Hid by (by apply find_user_some in Hv as [_ Hv]).
    assert (forall sid, effect (world m) sid (fun uid => opened m (Resume now i r) uid) (fst (sessionPayload w1 now v sid))) as Hpay.
    { intros sid. eapply effect_after; [exact Hk|]. apply payload_effect. rewrite Hid. by eapply opened_change. }
    destruct (p_session me) as [own|]; [|apply Hpay]. destruct (getSession _ own) as [s|]; [|apply Hpay].
    destruct (live s); [|apply Hpay]. by apply effect_keeps.
  - unfold create_finish, createUser. repeat case_match; simplify_eq; unchanged.
  - unfold reset_finish. apply effect_keeps. by eapply keeps_after, keeps_end_user.
Qed.

Lemma session_gate_keeps w now path c : keeps (db w) (fst (session_gate w now path c)).
Proof. unfold session_gate. repeat case_match; simplify_eq/=; try reflexivity; auto with cidrella. Qed.

Lemma gate_keeps w now path header : keeps (db w) (fst (authMiddleware w now path header)).
Proof.
  unfold authMiddleware. destruct (negb _); [reflexivity|]. destruct (includes _ _); [reflexivity|].
  destruct header as [h|]; [|reflexivity]. destruct (negb _); [reflexivity|]. cbv zeta.
  destruct (looksLikeApiToken _).
  - pose proof (keeps_resolve sha256 (db w) (drop_string 7 h) now) as Hk.
    by destruct (resolveApiToken _ _ _ _) as [d [[t u]|e]].
  - destruct (jwt_secret w); [|reflexivity]. destruct (jwt_verify _ _ _); [apply session_gate_keeps|reflexivity..].
Qed.

Definition drawn (e : Event) : option string :=
  match e with Arrive _ _ _ r | Resume _ _ r => Some (dr_sid r) | _ => None end.

(** One step: rows are kept or ended, and at most one session opens. *)
Lemma step_sessions m e :
  let m' := fst (step m e) in
  keeps (db (world m)) (db (world m')) \/
  exists d u now s sid, keeps (db (world m)) d /\ drawn e = Some sid /\
    createSession d u now sid = Ok (db (world m'), s) /\ opened m e (us_id u).
Proof.
  destruct e as [now h call r|now i r|i|now days|now name hash|key value]; cbn [step fst world with_db db].
  - unfold arrive. pose proof (gate_keeps (world m) now (path_of call) h) as Hg.
    destruct (authMiddleware _ _ _ _) as [d [user|reason]]; cbn [fst] in Hg; [|by left].
    destruct (route_effect (with_db (world m) d) now user call r) as [_ [Hk | (d1 & u & now' & s & H1 & H2 & ch & c & cl & -> & H3 & H4)]].
    + left. by etransitivity.
    + right. exists d1, u, now', s, (dr_sid r). split_and!; [by etransitivity|done|done|]. rewrite <- H4. by apply opened_code.
  - destruct (pending m !! i) as [p|] eqn:Hp; [|left; reflexivity].
    destruct (resume_effect m now i p r Hp) as [_ [Hk | (d1 & u & now' & s & H1 & H2 & H3)]]; [by left|].
    right. by exists d1, u, now', s, (dr_sid r).
  - left. reflexivity.
  - left. apply keeps_prune.
  - left. unfold cli_reset. destruct (find_username _ _); [|reflexivity]. by eapply keeps_after, keeps_end_user.
  - left. reflexivity.
Qed.

(** ** A session that ended stays ended *)

(** No live row has this id. *)
Definition dead (d : AuthDb) (sid : string) : Prop := forall s, s ∈ sessions d -> ss_id s = sid -> live s = false.

Lemma keeps_dead d d' sid : keeps d d' -> dead d sid -> dead d' sid.
Proof.
  intros [_ Hk] Hd s' Hs' Hid. destruct (Hk s' Hs') as (s & Hs & Hi & _ & _ & He & _).
  assert (live s = false) as Hl by (apply Hd; congruence). unfold live in *. by rewrite (proj1 (He Hl)).
Qed.

Lemma createSession_rows d u now sid d' s : createSession d u now sid = Ok (d', s) ->
  sessions d' = sessions d ++ [s] /\ ss_id s = sid /\ ss_user s = Some (us_id u) /\ ss_created s = sqlTime now /\
  ss_expires s = sqlTime (now + SESSION_LIFETIME_MS) /\ live s = true /\ users d' = users d.
Proof. unfold createSession. destruct (getSession d sid), (find_user d (us_id u)); cbn; intros; by simplify_eq/=. Qed.

Lemma step_dead m e sid : dead (db (world m)) sid -> drawn e <> Some sid -> dead (db (world (fst (step m e)))) sid.
Proof.
  intros Hd Hr. destruct (step_sessions m e) as [Hk | (d & u & now & s & sid' & Hk & Hsid & Hs & _)]; [by eapply keeps_dead|].
  apply createSession_rows in Hs as (Hrows & Hid & _). intros s' Hs'. rewrite Hrows in Hs'. apply elem_of_app in Hs' as [Hs' | Hs'].
  - by apply (keeps_dead _ _ sid Hk Hd).
  - apply list_elem_of_singleton in Hs' as ->. intros Heq. congruence.
Qed.

Lemma exec_cons m e es : exec m (e :: es) =
  (fst (exec (fst (step m e)) es), (m, e, snd (step m e)) :: snd (exec (fst (step m e)) es)).
Proof. cbn. destruct (step m e) as [m1 r]. cbn. by destruct (exec m1 es). Qed.

Lemma exec_dead m es sid : dead (db (world m)) sid -> Forall (fun e => drawn e <> Some sid) es ->
  dead (db (world (fst (exec m es)))) sid.
Proof.
  revert m. induction es as [|e es IH]; intros m Hd Hes; [done|]. inversion Hes as [|?? He Hes']; subst. rewrite exec_cons. cbn [fst].
  apply IH; [|done]. by apply step_dead.
Qed.

(** What the gate needs of the session of a request it lets in. *)
Lemma admitted_session w now path header sid : admitted w now path header sid ->
  exists s u cl, getSession (db w) sid = Some s /\ find_user (db w) (cl_id cl) = Some u /\ ss_user s = Some (us_id u) /\
    sessionEndReason (Some s) now (idleTimeoutMs (settings w)) = None /\
    (us_must_change u = true -> includes PASSWORD_CHANGE_PATHS (normalizedPath path) = true) /\
    snd (authMiddleware w now path header) = Next (Some (mkPrincipal (us_id u) (us_role u) (us_must_change u) (Some sid) None)).
Proof.
  intros (user & Hn & Hp). unfold authMiddleware in *. destruct (negb _); [done|]. destruct (includes PUBLIC_PATHS _); [done|].
  destruct header as [h|]; [|done]. destruct (negb _); [done|]. cbv zeta in *. destruct (looksLikeApiToken _).
  { destruct (resolveApiToken _ _ _ _) as [d [[t u]|e]]; cbn in Hn; [|done]. injection Hn as <-. done. }
  destruct (jwt_secret w) as [secret|]; [|done]. destruct (jwt_verify _ _ _) as [cl| |]; [|done..].
  unfold session_gate in *. destruct (truthy (cl_purpose cl)); [done|]. cbv zeta in *.
  destruct (truthy (cl_sid cl)) as [sid'|]; [|done].
  destruct (getSession (db w) sid') as [s|] eqn:Hs; [|done].
  destruct (sessionEndReason (Some s) now _) eqn:He; [done|].
  destruct (find_user (db w) (cl_id cl)) as [u|] eqn:Hu; [|done].
  destruct (bool_decide_reflect (ss_user s = Some (us_id u))) as [Hown|]; [|done]. cbn [negb] in *.
  destruct (us_must_change u && negb (includes _ (normalizedPath path))) eqn:Hm; [done|].
  cbn in Hn. injection Hn as <-. cbn in Hp. injection Hp as <-.
  destruct (getSession_some _ _ _ Hs) as [_ Hid]. destruct (find_user_some _ _ _ Hu) as [_ Huid].
  exists s, u, cl. rewrite Hid. split_and!; try done.
  - intros Hc. rewrite Hc in Hm. cbn in Hm. by apply negb_false_iff in Hm.
  - cbn. by rewrite Huid.
Qed.

Lemma dead_refused w now path header sid : dead (db w) sid -> ~ admitted w now path header sid.
Proof.
  intros Hd Ha. apply admitted_session in Ha as (s & u & cl & Hs & _ & _ & He & _).
  apply getSession_some in Hs as [Hs Hid]. specialize (Hd s Hs Hid). unfold live in Hd. cbn in He.
  by destruct (ss_ended s).
Qed.

(** ** Reachable machines *)

(** A machine at the first boot of a new database: no session has been opened
    and no handler is suspended. Sessions outlive a restart, so the boots that
    follow are no beginnings: in a run each is the point where every suspended
    handler is dropped ([Reject]). *)
Definition first_boot (m : Machine) : Prop := sessions (db (world m)) = [] /\ pending m = [].

Definition reachable (m : Machine) : Prop := exists m0 es, first_boot m0 /\ m = fst (exec m0 es).

Lemma exec_invariant (I : Machine -> Prop) : (forall m e, I m -> I (fst (step m e))) -> forall es m, I m -> I (fst (exec m es)).
Proof. intros Hstep es. induction es as [|e es IH]; intros m Hm; [done|]. rewrite exec_cons. cbn [fst]. auto. Qed.

Lemma reachable_invariant (I : Machine -> Prop) : (forall m, first_boot m -> I m) -> (forall m e, I m -> I (fst (step m e))) ->
  forall m, reachable m -> I m.
Proof. intros Hboot Hstep m (m0 & es & Hb & ->). apply exec_invariant; auto. Qed.

(** Ids are unique, and the limit of a session is a day after it was opened. *)
Definition sound (d : AuthDb) : Prop := NoDup (ids d) /\ forall s, s ∈ sessions d -> ss_expires s = ss_created s + 86400.

Lemma keeps_sound d d' : keeps d d' -> sound d -> sound d'.
Proof.
  intros [Hl Hk] [Hn He]. split; [by eapply sublist_NoDup|]. intros s' Hs'.
  destruct (Hk s' Hs') as (s & Hs & _ & Hc & Hx & _). rewrite Hc, Hx. by apply He.
Qed.

Lemma create_sound d u now sid d' s : createSession d u now sid = Ok (d', s) -> sound d -> sound d'.
Proof.
  intros Hc [Hn He]. pose proof (createSession_rows _ _ _ _ _ _ Hc) as (Hrows & Hid & _ & Hcr & Hx & _).
  split.
  - unfold ids. rewrite Hrows, map_app. cbn. apply NoDup_app. split_and!; [done| |apply NoDup_singleton].
    intros x Hx1 Hx2%list_elem_of_singleton. subst x. apply list_elem_of_In, in_map_iff in Hx1 as (s1 & Heq & Hs1).
    unfold createSession in Hc. destruct (getSession d sid) eqn:Hg; [done|].
    apply (getSession_none _ _ Hg s1); [by apply list_elem_of_In|congruence].
  - intros s1 Hs1. rewrite Hrows in Hs1. apply elem_of_app in Hs1 as [Hs1 | ->%list_elem_of_singleton]; [by apply He|].
    rewrite Hx, Hcr. unfold sqlTime, SESSION_LIFETIME_MS. change (24 * 60 * 60 * 1000) with (86400 * 1000). rewrite Z.div_add; lia.
Qed.

Lemma sign_step_sound m e : sound (db (world m)) -> sound (db (world (fst (step m e)))).
Proof.
  intros Hs. destruct (step_sessions m e) as [Hk | (d & u & now & s & sid & Hk & _ & Hc & _)]; [by eapply keeps_sound|].
  eapply create_sound; [done|]. by eapply keeps_sound.
Qed.

Lemma reachable_sound m : reachable m -> sound (db (world m)).
Proof.
  apply (reachable_invariant (fun m => sound (db (world m)))); [|apply sign_step_sound].
  intros m0 [Hs _]. split; [unfold ids; rewrite Hs; constructor|]. intros s Hin. rewrite Hs in Hin. by apply elem_of_nil in Hin.
Qed.

Lemma sound_unique d s1 s2 : sound d -> s1 ∈ sessions d -> s2 ∈ sessions d -> ss_id s1 = ss_id s2 -> s1 = s2.
Proof. intros [Hn _] H1 H2 Hid. by apply (nodup_map_inj ss_id (sessions d)). Qed.

(** ** What ends the sessions of an account *)

(** The event changes the account [uid] and succeeds; [own] is the session it
    spares. *)
Inductive account_change (m : Machine) : Event -> Z -> option string -> Prop :=
| change_role now h id role r : snd (step m (Arrive now h (UpdateUser id role) r)) = Done ->
    account_change m (Arrive now h (UpdateUser id role) r) id None
| change_delete now h id r : snd (step m (Arrive now h (DeleteUser id) r)) = Done ->
    account_change m (Arrive now h (DeleteUser id) r) id None
| change_reset now i u pw r : pending m !! i = Some (AwaitReset u pw) ->
    account_change m (Resume now i r) (us_id u) None
| change_password now i me u new r : pending m !! i = Some (AwaitHash me u new) ->
    account_change m (Resume now i r) (us_id u) (p_session me)
| change_cli now name hash u : find_username (db (world m)) name = Some u ->
    account_change m (CliReset now name hash) (us_id u) None.

Lemma end_user_dead d s uid reason own now : sound d -> s ∈ sessions d -> ss_user s = Some uid -> Some (ss_id s) <> own ->
  dead (endUserSessions d uid reason own now) (ss_id s).
Proof.
  intros Hd Hs Hu Hown s' Hs' Hid. cbn in Hs'. apply elem_update in Hs' as (y & Hy & ->).
  assert (ss_id y = ss_id s) as Hiy by (by destruct (_ && _) in Hid). assert (y = s) as -> by (by apply (sound_unique d)).
  rewrite (bool_decide_eq_true_2 _ Hu), (bool_decide_eq_false_2 _ Hown). cbn. destruct (live s) eqn:Hl; [|exact Hl]. done.
Qed.

Lemma tables_sound d d' : sessions d' = sessions d -> sound d -> sound d'.
Proof. intros Hs. unfold sound, ids. by rewrite Hs. Qed.

(** A request let in leaves the accounts and the sessions alone. *)
Lemma gate_next w now path header d user : authMiddleware w now path header = (d, Next user) ->
  users d = users (db w) /\ sessions d = sessions (db w).
Proof.
  unfold authMiddleware. destruct (negb _); [by intros [= <- _]|]. destruct (includes _ _); [by intros [= <- _]|].
  destruct header as [h|]; [|done]. destruct (negb _); [done|]. cbv zeta. destruct (looksLikeApiToken _).
  - unfold resolveApiToken. repeat case_match; intros; by simplify_eq/=.
  - destruct (jwt_secret w); [|done]. destruct (jwt_verify _ _ _); [|done..].
    unfold session_gate. repeat case_match; intros; by simplify_eq/=.
Qed.

(** What a route behind [requireAdmin] saw when it answered. *)
Lemma admin_done m now h call r :
  snd (step m (Arrive now h call r)) = Done ->
  exists d user, authMiddleware (world m) now (path_of call) h = (d, Next user) /\
    snd (route (with_db (world m) d) now user call r) = Done /\
    fst (step m (Arrive now h call r)) = mkMachine (fst (route (with_db (world m) d) now user call r)) (pending m).
Proof.
  cbn [step suspend snd fst]. unfold arrive. destruct (authMiddleware _ _ _ _) as [d [user|reason]] eqn:Hg; [|done].
  intros Hd. exists d, user. split_and!; [done|done|]. by rewrite Hd.
Qed.

Lemma as_admin_done w me k : snd (as_admin w me k) = Done -> as_admin w me k = k /\ isSuperuser (p_role me) = true.
Proof.
  unfold as_admin. destruct (requireAdmin _) eqn:Hr; [|done..]. intros _. split; [done|].
  apply admin_gate in Hr as (role & [= <-] & Hs). done.
Qed.

Lemma account_change_dead m e uid own s :
  sound (db (world m)) -> account_change m e uid own -> s ∈ sessions (db (world m)) -> ss_user s = Some uid ->
  Some (ss_id s) <> own -> drawn e <> Some (ss_id s) -> dead (db (world (fst (step m e)))) (ss_id s).
Proof.
  intros Hsd Hc Hs Hu Hown Hdr. destruct Hc as [now h id role r Hdone|now h id r Hdone|now i u pw r Hp|now i me u new r Hp|now name hash u Hn].
  - destruct (admin_done _ _ _ _ _ Hdone) as (d & user & Hg & Hr & ->). apply gate_next in Hg as [_ Hsess].
    destruct user as [me|]; [|done]. cbn [route] in *. destruct (as_admin_done _ _ _ Hr) as [Heq _]. rewrite Heq in *.
    unfold update_user in *. cbn [db with_db] in *. destruct (find_user d id) as [u|] eqn:Hf; [|done].
    apply find_user_some in Hf as [_ <-]. destruct (us_id u =? p_id me); [done|]. destruct (valid_role role); [|done].
    apply (end_user_dead _ s (us_id u)); cbn; [|by rewrite Hsess|done|done]. by apply (tables_sound (db (world m))).
  - destruct (admin_done _ _ _ _ _ Hdone) as (d & user & Hg & Hr & ->). apply gate_next in Hg as [_ Hsess].
    destruct user as [me|]; [|done]. cbn [route] in *. destruct (as_admin_done _ _ _ Hr) as [Heq _]. rewrite Heq in *.
    unfold delete_user in *. cbn [db with_db] in *. destruct (find_user d id) as [u|] eqn:Hf; [|done].
    apply find_user_some in Hf as [_ <-]. destruct (us_id u =? p_id me); [done|].
    eapply keeps_dead; [apply keeps_delete_user|].
    apply (end_user_dead _ s (us_id u)); cbn; [|by rewrite Hsess|done|done]. by apply (tables_sound (db (world m))).
  - cbn [step]. rewrite Hp. cbn. apply (end_user_dead _ s (us_id u)); cbn; [by apply (tables_sound (db (world m)))|done..].
  - cbn [step]. rewrite Hp. cbn [suspend fst resume world]. unfold change_finish, changePassword. cbv zeta.
    set (w1 := with_db (world m) (endUserSessions _ _ _ _ _)).
    assert (dead (db w1) (ss_id s)) as Hdead.
    { apply (end_user_dead _ s (us_id u)); cbn; [by apply (tables_sound (db (world m)))|done..]. }
    assert (forall v, dead (db (fst (sessionPayload w1 now v (dr_sid r)))) (ss_id s)) as Hpay.
    { intros v. unfold sessionPayload. destruct (createSession _ _ _ _) as [[d s1]|] eqn:Hcr; [|done]. cbn.
      apply createSession_rows in Hcr as (Hrows & Hid & _). intros s2 Hs2. rewrite Hrows in Hs2.
      apply elem_of_app in Hs2 as [Hs2 | ->%list_elem_of_singleton]; [by apply Hdead|]. intros Heq. cbn in Hdr. congruence. }
    destruct (find_user _ _) as [v|]; [|done]. destruct (p_session me) as [o|]; [|apply Hpay].
    destruct (getSession _ o) as [so|]; [|apply Hpay]. by destruct (live so); [|apply Hpay].
  - cbn [step]. unfold cli_reset. rewrite Hn. cbn. apply (end_user_dead _ s (us_id u)); cbn; [by apply (tables_sound (db (world m)))|done..].
Qed.

(** The claims of a bearer token that verifies. *)
Definition bearer (w : World) (now : Z) (header : option string) : option Claims :=
  match header, jwt_secret w with
  | Some h, Some secret =>
      if starts_with "Bearer " h && negb (looksLikeApiToken (drop_string 7 h)) then
        match jwt_verify secret now (drop_string 7 h) with Verified cl => Some cl | _ => None end
      else None
  | _, _ => None
  end.

(** A session ends by signing out, or when the gate finds it past a limit. *)
Inductive session_end (m : Machine) : Event -> string -> Prop :=
| end_logout now h r me sid : snd (authMiddleware (world m) now (path_of Logout) h) = Next (Some me) -> p_session me = Some sid ->
    session_end m (Arrive now h Logout r) sid
| end_limit now h call r cl sid reason : bearer (world m) now h = Some cl -> truthy (cl_sid cl) = Some sid ->
    snd (step m (Arrive now h call r)) = Denied (SessionEnded (Some reason)) ->
    session_end m (Arrive now h call r) sid.

Lemma endSession_dead d sid reason now : sound d -> dead (fst (endSession d sid reason now)) sid.
Proof.
  intros Hd. unfold endSession. destruct (getSession d sid) as [s|] eqn:Hg.
  - apply getSession_some in Hg as [Hs Hid]. destruct (live s) eqn:Hl.
    + intros s' Hs' Hid'. cbn in Hs'. apply elem_update in Hs' as (y & Hy & ->).
      assert (ss_id y = sid) as Hiy by (by destruct (_ && _) in Hid'). rewrite Hiy, String.eqb_refl. cbn. destruct (live y) eqn:Hy'; [done|exact Hy'].
    + intros s' Hs' Hid'. cbn in Hs'. assert (s' = s) as -> by (apply (sound_unique d); congruence). done.
  - intros s Hs Hid. by destruct (getSession_none _ _ Hg s Hs).
Qed.

Lemma payload_reply w now u sid x : snd (sessionPayload w now u sid) <> Denied x.
Proof. unfold sessionPayload, session_token. by repeat case_match. Qed.

Lemma route_reply w now user call r x : snd (route w now user call r) <> Denied x.
Proof.
  destruct call, user as [me|]; cbn [route]; try done.
  all: try (unfold login_start, codes_start, disable_start, change_start, totp_setup, logout_route, activity_route; by repeat case_match).
  all: try (unfold as_admin, create_start, update_user, delete_user, reset_start, create_token, revoke_token, service_account; by repeat case_match).
  1, 2: unfold login_totp; repeat case_match; simplify_eq/=; try done; apply payload_reply.
  unfold totp_enable. cbv zeta. by repeat case_match.
Qed.

Lemma gate_ended w now path header d cl sid reason : sound (db w) -> bearer w now header = Some cl -> truthy (cl_sid cl) = Some sid ->
  authMiddleware w now path header = (d, Deny (SessionEnded (Some reason))) -> dead d sid.
Proof.
  intros Hsd Hb Hsid. unfold authMiddleware, bearer in *. destruct (negb (starts_with "/api/" _)); [done|]. destruct (includes PUBLIC_PATHS _); [done|].
  destruct header as [h|]; [|done]. destruct (jwt_secret w) as [secret|]; [|done].
  destruct (starts_with "Bearer " h); [|done]. cbv zeta in *. destruct (looksLikeApiToken _); [done|]. cbn [negb andb] in *.
  destruct (jwt_verify _ _ _) as [cl'| |]; [|done..]. injection Hb as ->.
  unfold session_gate. destruct (truthy (cl_purpose cl)); [done|]. rewrite Hsid. cbv zeta.
  destruct (getSession (db w) sid) as [s|] eqn:Hg; [|by repeat case_match].
  apply getSession_some in Hg as Hg'. destruct Hg' as [Hs Hid].
  destruct (sessionEndReason (Some s) now _); [|by repeat case_match].
  intros [= <- _]. destruct (live s) eqn:Hl; [rewrite Hid; by apply endSession_dead|].
  intros s' Hs' Hid'. assert (s' = s) as -> by (apply (sound_unique (db w)); congruence). done.
Qed.

Lemma session_end_dead m e sid : sound (db (world m)) -> session_end m e sid -> dead (db (world (fst (step m e)))) sid.
Proof.
  intros Hsd [now h r me sid' Hg Hp | now h call r cl sid' reason Hb Hsid Hden].
  - cbn [step suspend fst world]. unfold arrive. destruct (authMiddleware _ _ _ _) as [d a] eqn:Ha. cbn in Hg. subst a.
    cbn [route]. unfold logout_route. rewrite Hp. cbn. apply gate_next in Ha as [_ Hs]. apply endSession_dead. by apply (tables_sound (db (world m))).
  - cbn [step suspend fst snd world] in *. unfold arrive in *. destruct (authMiddleware _ _ _ _) as [d [user|x]] eqn:Ha; [by apply route_reply in Hden|].
    cbn in *. injection Hden as ->. by eapply gate_ended.
Qed.

(** A session that ended stays ended: after a sign-out, or after one refusal
    because the session was idle, expired, ended or revoked, no request that
    carries its token is let in again, on any path, at any time, whatever happens
    in between (a clock set back, a longer idle timeout, clean-up of old rows),
    as long as the same 128 random bits are not drawn again. *)
Theorem ended_for_good (m : Machine) (e : Event) (es : list Event) (sid : string)
    (Hreach : reachable m) (Hend : session_end m e sid) (Hfresh : Forall (fun e' => drawn e' <> Some sid) es) :
  forall now path header, ~ admitted (world (fst (exec m (e :: es)))) now path header sid.
Proof.
  intros now path header. apply dead_refused. rewrite exec_cons. cbn [fst]. apply exec_dead; [|done].
  apply session_end_dead; [by apply reachable_sound|done].
Qed.

(** C29. Changing an account signs it out everywhere: when an administrator
    gives it another role, deletes it or resets its password, when the host's
    command resets it, or when its owner changes the password, no session it
    had before is let in again. The one exception is the session the owner
    changed the password from. Of the random ids of sessions the theorem asks
    that this id is not drawn again. *)
Theorem account_change_signs_out (m : Machine) (e : Event) (es : list Event) (uid : Z) (own : option string) (s : Session)
    (Hreach : reachable m) (Hchange : account_change m e uid own)
    (Hs : s ∈ sessions (db (world m))) (Huser : ss_user s = Some uid) (Hother : Some (ss_id s) <> own)
    (Hfresh : Forall (fun e' => drawn e' <> Some (ss_id s)) (e :: es)) :
  forall now path header, ~ admitted (world (fst (exec m (e :: es)))) now path header (ss_id s).
Proof.
  intros now path header. inversion Hfresh as [|?? He Hes]; subst. apply dead_refused. rewrite exec_cons. cbn [fst].
  apply exec_dead; [|done]. eapply account_change_dead; [by apply reachable_sound|done..].
Qed.

(** The limits of a session hold at the gate: a request let in for a session
    comes less than 24 hours after the sign-in, at every setting, and, when there
    is an idle timeout, before it ran out since the last activity a person made;
    it acts as the account the session was opened for, with the role that account
    has now; and while the account must change its password it reaches only the
    six paths meant for that. *)
Theorem session_limits (m : Machine) (now : Z) (path : string) (header : option string) (sid : string)
    (Hreach : reachable m) (Hin : admitted (world m) now path header sid) :
  exists s u, s ∈ sessions (db (world m)) /\ ss_id s = sid /\ ss_ended s = None /\
    u ∈ users (db (world m)) /\ ss_user s = Some (us_id u) /\
    now < parseSqlTime (ss_created s) + SESSION_LIFETIME_MS /\
    (let idleMs := idleTimeoutMs (settings (world m)) in 0 < idleMs -> now < parseSqlTime (ss_activity s) + idleMs) /\
    snd (authMiddleware (world m) now path header) = Next (Some (mkPrincipal (us_id u) (us_role u) (us_must_change u) (Some sid) None)) /\
    (us_must_change u = true -> normalizedPath path ∈ PASSWORD_CHANGE_PATHS).
Proof.
  apply admitted_session in Hin as (s & u & cl & Hg & Hu & Hown & He & Hm & Hn).
  apply getSession_some in Hg as [Hs Hid]. apply find_user_some in Hu as [Hu _].
  destruct (reachable_sound m Hreach) as [_ Hx]. specialize (Hx s Hs). exists s, u. cbn in He.
  destruct (ss_ended s) eqn:Hend; [done|]. destruct (Z.leb_spec (parseSqlTime (ss_expires s)) now) as [|Hexp]; [done|].
  unfold parseSqlTime, SESSION_LIFETIME_MS in *. split_and!; try done; [lia| |].
  - cbv zeta. intros Hpos. destruct (Z.ltb_spec 0 (idleTimeoutMs (settings (world m)))); [|lia].
    destruct (Z.leb_spec (idleTimeoutMs (settings (world m))) (now - ss_activity s * 1000)); [done|lia].
  - intros Hmust. specialize (Hm Hmust). unfold includes in Hm. apply existsb_exists in Hm as (x & Hx1 & Hx2%String.eqb_eq).
    subst x. by apply list_elem_of_In.
Qed.
End Facts.

(** ** The theorems at work *)

Lemma office_reachable es : reachable (fst (exec office es)).
Proof. exists office, es. split; [split; reflexivity|done]. Qed.

(** The office after amy's sign-in. *)
Definition amy_in : list Event := login_events noon "amy" "amypw" "s1".
Definition amy_header : option string := bearer_of noon 2 "s1".

Lemma ended_for_good_witness :
  snd (authMiddleware (world (fst (exec office amy_in))) (noon + 60000) "/api/auth/me" amy_header) =
    Next (Some (mkPrincipal 2 "readonly" false (Some "s1") None)) /\
  ~ admitted (world (fst (exec (fst (exec office amy_in))
       [Arrive (noon + 60000) amy_header Logout (draw ""); SetSetting "session_idle_timeout_minutes" "0"; CliReset noon "tom" "$x"])))
     (noon + 1000) "/api/auth/me" amy_header "s1".
Proof.
  split; [vm_compute; reflexivity|]. apply ended_for_good; [apply office_reachable| |repeat constructor; discriminate].
  apply end_logout with (me := mkPrincipal 2 "readonly" false (Some "s1") None); [vm_compute; reflexivity|reflexivity].
Defined.

(** Both sign in; the administrator gives amy another role. *)
Definition both_in : list Event := amy_in ++ login_events noon "root" "rootpw" "s2".
Definition promote : Event := Arrive (noon + 1000) (bearer_of noon 1 "s2") (UpdateUser 2 (Some "dns_admin")) (draw "").

Lemma account_change_signs_out_witness :
  snd (step (fst (exec office both_in)) promote) = Done /\
  ~ admitted (world (fst (exec (fst (exec office both_in)) [promote]))) (noon + 2000) "/api/auth/me" amy_header "s1".
Proof.
  assert (snd (step (fst (exec office both_in)) promote) = Done) as Hdone by (vm_compute; reflexivity).
  split; [exact Hdone|].
  pose (s := mkSession "s1" (Some 2) "amy" (noon / 1000) (noon / 1000) (noon / 1000 + 86400) None None).
  apply (account_change_signs_out (fst (exec office both_in)) promote [] 2 None s).
  - apply office_reachable.
  - by apply change_role.
  - apply list_elem_of_In. vm_compute. left. reflexivity.
  - reflexivity.
  - discriminate.
  - repeat constructor; discriminate.
Defined.

Lemma session_limits_witness :
  exists s, s ∈ sessions (db (world (fst (exec office amy_in)))) /\ ss_id s = "s1" /\
    noon + 3500000 < parseSqlTime (ss_created s) + SESSION_LIFETIME_MS.
Proof.
  assert (admitted (world (fst (exec office amy_in))) (noon + 3500000) "/api/auth/me" amy_header "s1") as Hin
    by (exists (mkPrincipal 2 "readonly" false (Some "s1") None); split; vm_compute; reflexivity).
  destruct (session_limits _ _ _ _ _ (office_reachable amy_in) Hin) as (s & u & Hs & Hid & _ & _ & _ & Hlim & _).
  exists s. split; [exact Hs|]. split; [exact Hid|exact Hlim].
Defined.

(** The idle limit of an hour, and a report of activity in time. *)
Example idle_hour :
  answers (amy_in ++ [Arrive (noon + 3599000) amy_header Activity (draw ""); Arrive (noon + 7198000) amy_header Logout (draw "")]) =
    answers amy_in ++ [Done; Done] /\
  answers (amy_in ++ [Arrive (noon + 3600000) amy_header Activity (draw ""); Arrive (noon + 3600001) amy_header Logout (draw "")]) =
    answers amy_in ++ [Denied (SessionEnded (Some idle)); Denied (SessionEnded (Some idle))].
Proof. split; vm_compute; reflexivity. Qed.
