(* ===== verification/SignInTrace.v ===== *)
(** * What a run of sign-ins shows

    The theorems of [SignIn] about a whole run: no session without the password
    of its account, a code of the authenticator is good once, an administrator
    is always left, and a sign-in works. With the machine the witnesses run. *)

From S2P Require Import Prelude JsString Bytes Totp Accounts Sessions SignIn SignInFacts.

Section Trace.
Context `{Crypto}.

(** ** No session without a password *)

(** The account and the password a continuation is about to compare. *)
Definition comparing (p : Pending) : option (User * string) :=
  match p with
  | AwaitLogin (Some u) pw => Some (u, pw)
  | AwaitCompare _ u c _ => Some (u, c)
  | _ => None
  end.

(** The comparison of a password with the hash of an account came out true. *)
Definition password_matched (m : Machine) (e : Event) (uid : Z) : Prop :=
  exists now i r p u pw, e = Resume now i r /\ pending m !! i = Some p /\ comparing p = Some (u, pw) /\
    us_id u = uid /\ bcrypt_compare pw (us_hash u) = true.

Abbreviation Log := (list (Machine * Event * Reply)).

Definition password_seen (log : Log) (uid : Z) : Prop := exists m e r, (m, e, r) ∈ log /\ password_matched m e uid.

(** A challenge presented to [/login/totp]. *)
Definition presents (m : Machine) (e : Event) (cl : Claims) : Prop :=
  exists now h ch c r, e = Arrive now h (LoginTotp ch c) r /\ challenges (world m) now ch cl.

(** Nobody but the server can sign: a challenge that verifies is one it handed
    out earlier in the run. *)
Definition unforged (log : Log) : Prop :=
  forall log1 m e r log2 cl, log = log1 ++ (m, e, r) :: log2 -> presents m e cl ->
  exists m' e' cl' tok, (m', e', Challenge cl' tok) ∈ log1 /\ cl_id cl' = cl_id cl.

Lemma seen_app log log' uid : password_seen log uid -> password_seen (log ++ log') uid.
Proof. intros (m & e & r & Hin & Hp). exists m, e, r. split; [|done]. apply elem_of_app. by left. Qed.

Lemma seen_snoc log m e r uid : password_matched m e uid -> password_seen (log ++ [(m, e, r)]) uid.
Proof. intros Hp. exists m, e, r. split; [|done]. apply elem_of_app. right. by apply list_elem_of_singleton. Qed.

Lemma exec_snoc m es e : exec m (es ++ [e]) =
  (fst (step (fst (exec m es)) e), snd (exec m es) ++ [(fst (exec m es), e, snd (step (fst (exec m es)) e))]).
Proof.
  revert m. induction es as [|e' es IH]; intros m.
  - cbn. by destruct (step m e).
  - cbn [app]. rewrite !exec_cons, IH. done.
Qed.

(** What a run keeps about passwords. *)
Definition accounted (m : Machine) (log : Log) : Prop :=
  (forall me u new, AwaitHash me u new ∈ pending m -> password_seen log (us_id u)) /\
  (forall m' e' cl tok, (m', e', Challenge cl tok) ∈ log -> password_seen log (cl_id cl)) /\
  (forall s uid, s ∈ sessions (db (world m)) -> ss_user s = Some uid -> password_seen log uid).

Lemma payload_waits w now u sid p : snd (sessionPayload w now u sid) <> Waiting p.
Proof. unfold sessionPayload, session_token. by repeat case_match. Qed.

(** A route starts no comparison it has not been given a password for, and
    hands out no challenge. *)
Lemma route_waits w now user call r : forall me u new, snd (route w now user call r) <> Waiting (AwaitHash me u new).
Proof.
  intros me0 u0 new0. destruct call, user as [me|]; cbn [route]; try done.
  all: try (unfold login_start, codes_start, disable_start, change_start, totp_setup, logout_route, activity_route; by repeat case_match).
  all: try (unfold as_admin, create_start, update_user, delete_user, reset_start, create_token, revoke_token, service_account; by repeat case_match).
  1, 2: unfold login_totp; repeat case_match; simplify_eq/=; try done; apply payload_waits.
  unfold totp_enable. cbv zeta. by repeat case_match.
Qed.

Lemma payload_challenge w now u sid cl tok : snd (sessionPayload w now u sid) <> Challenge cl tok.
Proof. unfold sessionPayload, session_token. by repeat case_match. Qed.

Lemma route_challenge w now user call r cl tok : snd (route w now user call r) <> Challenge cl tok.
Proof.
  destruct call, user as [me|]; cbn [route]; try done.
  all: try (unfold login_start, codes_start, disable_start, change_start, totp_setup, logout_route, activity_route; by repeat case_match).
  all: try (unfold as_admin, create_start, update_user, delete_user, reset_start, create_token, revoke_token, service_account; by repeat case_match).
  1, 2: unfold login_totp; repeat case_match; simplify_eq/=; try done; apply payload_challenge.
  unfold totp_enable. cbv zeta. by repeat case_match.
Qed.

Lemma change_finish_reply w now me u new salt sid : forall p, snd (change_finish w now me u new salt sid) <> Waiting p.
Proof.
  intros p. unfold change_finish, changePassword. cbv zeta. unfold session_token.
  repeat case_match; simplify_eq/=; try done; apply payload_waits.
Qed.

Lemma change_finish_challenge w now me u new salt sid cl tok : snd (change_finish w now me u new salt sid) <> Challenge cl tok.
Proof.
  unfold change_finish, changePassword. cbv zeta. unfold session_token.
  repeat case_match; simplify_eq/=; try done; apply payload_challenge.
Qed.

(** A hash is awaited after the caller's password matched. *)
Lemma step_awaits m e me u new : snd (step m e) = Waiting (AwaitHash me u new) -> password_matched m e (us_id u).
Proof.
  destruct e as [now h call r|now i r|i|now days|now name hash|key value]; cbn [step suspend snd]; try done.
  - unfold arrive. destruct (authMiddleware _ _ _ _) as [d [user|x]]; [intros Hr; by apply route_waits in Hr|done].
  - destruct (pending m !! i) as [p|] eqn:Hp; [|done]. intros Hr. cbn in Hr.
    destruct p as [v pw|v pw|v pw|you v c n|you v n|n ro k pw|v pw]; cbn [resume] in Hr.
    + unfold login_finish in Hr. cbv zeta in Hr. repeat case_match; simplify_eq/=; by apply payload_waits in Hr.
    + unfold codes_finish in Hr. cbv zeta in Hr. by repeat case_match.
    + unfold disable_finish in Hr. by repeat case_match.
    + unfold change_compared in Hr. destruct (bcrypt_compare c (us_hash v)) eqn:Hc; [|done]. cbn in Hr. injection Hr as -> -> ->.
      exists now, i, r, (AwaitCompare me u c new), u, c. by split_and!.
    + by apply change_finish_reply in Hr.
    + unfold create_finish in Hr. by repeat case_match.
    + done.
  - unfold cli_reset. by repeat case_match.
Qed.

(** A challenge follows a password that matched. *)
Lemma step_challenges m e cl tok : snd (step m e) = Challenge cl tok -> password_matched m e (cl_id cl).
Proof.
  destruct e as [now h call r|now i r|i|now days|now name hash|key value]; cbn [step suspend snd]; try done.
  - unfold arrive. destruct (authMiddleware _ _ _ _) as [d [user|x]]; [intros Hr; by apply route_challenge in Hr|done].
  - destruct (pending m !! i) as [p|] eqn:Hp; [|done]. intros Hr. cbn in Hr.
    destruct p as [v pw|v pw|v pw|you v c n|you v n|n ro k pw|v pw]; cbn [resume] in Hr.
    + unfold login_finish in Hr. cbv zeta in Hr. destruct v as [v|]; [|done]. destruct (bcrypt_compare pw (us_hash v)) eqn:Hc; [|done]. cbn [negb] in Hr.
      destruct (is_service _); [done|]. destruct (us_enabled v); [|by apply payload_challenge in Hr].
      destruct (jwt_secret _); [|done]. injection Hr as <- <-.
      exists now, i, r, (AwaitLogin (Some v) pw), v, pw. by split_and!.
    + unfold codes_finish in Hr. cbv zeta in Hr. by repeat case_match.
    + unfold disable_finish in Hr. by repeat case_match.
    + unfold change_compared in Hr. by repeat case_match.
    + by apply change_finish_challenge in Hr.
    + unfold create_finish in Hr. by repeat case_match.
    + done.
  - unfold cli_reset. by repeat case_match.
Qed.

Lemma elem_list_delete {A} (l : list A) i x : x ∈ delete i l -> x ∈ l.
Proof.
  revert i. induction l as [|y l IH]; intros [|i]; cbn; try done; [by right|].
  intros [-> | Hx]%elem_of_cons; [by left|right; by eapply IH].
Qed.

(** What is suspended was suspended before, or by this step. *)
Lemma step_pending m e p : p ∈ pending (fst (step m e)) -> p ∈ pending m \/ snd (step m e) = Waiting p.
Proof.
  assert (forall rest (res : World * Reply), (forall q, q ∈ rest -> q ∈ pending m) ->
    p ∈ pending (fst (suspend res rest)) -> p ∈ pending m \/ snd (suspend res rest) = Waiting p) as Hsusp.
  { intros rest [w' rep] Hrest. cbn. destruct rep; try (intros Hp; left; by apply Hrest).
    intros [Hp | ->%list_elem_of_singleton]%elem_of_app; [left; by apply Hrest|by right]. }
  destruct e as [now h call r|now i r|i|now days|now name hash|key value]; cbn [step]; try (intros Hp; by left).
  - by apply Hsusp.
  - destruct (pending m !! i) as [q|] eqn:Hq; [|by left]. apply Hsusp. intros q'. apply elem_list_delete.
  - cbn. intros Hp. left. revert Hp. apply elem_list_delete.
  - by apply Hsusp.
Qed.

Lemma matched_opens m e uid log :
  (forall me u new, AwaitHash me u new ∈ pending m -> password_seen log (us_id u)) ->
  (forall cl, presents m e cl -> password_seen log (cl_id cl)) ->
  opened m e uid -> password_seen (log ++ [(m, e, snd (step m e))]) uid.
Proof.
  intros Hwait Hchal Ho. destruct Ho as [now i r u pw Hp Hc _ _ | now h ch c r cl Hch | now i r me u new Hp].
  - apply seen_snoc. exists now, i, r, (AwaitLogin (Some u) pw), u, pw. by split_and!.
  - apply seen_app, Hchal. by exists now, h, ch, c, r.
  - apply seen_app. apply (Hwait me u new), list_elem_of_lookup. by exists i.
Qed.

Lemma accounted_step m e log : accounted m log -> (forall cl, presents m e cl -> password_seen log (cl_id cl)) ->
  accounted (fst (step m e)) (log ++ [(m, e, snd (step m e))]).
Proof.
  intros (Hw & Hc & Hs) Hp. split_and!.
  - intros me u new Hin. apply step_pending in Hin as [Hin|Hin]; [by apply seen_app, (Hw me u new)|].
    apply seen_snoc. by eapply step_awaits.
  - intros m' e' cl tok [Hin|Hin]%elem_of_app; [by eapply seen_app, Hc|].
    apply list_elem_of_singleton in Hin. injection Hin as -> -> Hr. apply seen_snoc. by eapply step_challenges.
  - intros s uid Hin Hu. destruct (step_sessions m e) as [Hk | (d & v & now & s1 & sid & Hk & _ & Hcr & Ho)].
    + destruct (proj2 Hk s Hin) as (s0 & Hs0 & _ & _ & _ & _ & Hu0). apply seen_app, (Hs s0); [done|]. destruct Hu0; congruence.
    + apply createSession_rows in Hcr as (Hrows & _ & Hu1 & _). rewrite Hrows in Hin.
      apply elem_of_app in Hin as [Hin | ->%list_elem_of_singleton].
      * destruct (proj2 Hk s Hin) as (s0 & Hs0 & _ & _ & _ & _ & Hu0). apply seen_app, (Hs s0); [done|]. destruct Hu0; congruence.
      * assert (uid = us_id v) as -> by congruence. by apply matched_opens.
Qed.

Lemma run_accounted m0 es : first_boot m0 -> unforged (snd (exec m0 es)) -> accounted (fst (exec m0 es)) (snd (exec m0 es)).
Proof.
  intros [Hs Hp]. induction es as [|e es IH] using rev_ind; intros Hu.
  - split_and!; cbn.
    + intros me u new Hin. rewrite Hp in Hin. by apply elem_of_nil in Hin.
    + intros m' e' cl tok Hin. by apply elem_of_nil in Hin.
    + intros s uid Hin. rewrite Hs in Hin. by apply elem_of_nil in Hin.
  - rewrite exec_snoc in *. cbn [fst snd] in *. assert (unforged (snd (exec m0 es))) as Hu'.
    { intros l1 m e' r l2 cl Hl Hpr. apply (Hu l1 m e' r (l2 ++ [(fst (exec m0 es), e, snd (step (fst (exec m0 es)) e))]) cl); [|done].
      rewrite Hl. by rewrite <- app_assoc. }
    specialize (IH Hu'). apply accounted_step; [done|]. intros cl Hpr.
    destruct (Hu (snd (exec m0 es)) _ _ _ [] cl eq_refl Hpr) as (m' & e' & cl' & tok & Hin & Hid).
    destruct IH as (_ & Hc & _). rewrite <- Hid. by eapply Hc.
Qed.

(** C28. There is no session without the password of its account: in every run
    from the first boot of a database, through any interleaving of requests,
    sign-outs, resets and deletions, a session of an account in the table was
    preceded by a step that compared a password with the hash of that account
    and found it right. A second factor, a backup code or a change of password
    never replaces it. The one assumption is that a challenge that verifies
    was issued by the server. *)
Theorem no_session_without_password (m0 : Machine) (es : list Event) (s : Session) (uid : Z)
    (Hboot : first_boot m0) (Hsigned : unforged (snd (exec m0 es)))
    (Hs : s ∈ sessions (db (world (fst (exec m0 es))))) (Huser : ss_user s = Some uid) :
  exists m e r, (m, e, r) ∈ snd (exec m0 es) /\ password_matched m e uid.
Proof. destruct (run_accounted m0 es Hboot Hsigned) as (_ & _ & Hss). exact (Hss s uid Hs Huser). Qed.

(** ** A code is good once *)

(** The authenticator step a sign-in was accepted for, with its account. *)
Definition accepted_step (x : Machine * Event * Reply) : option (Z * Z) :=
  let '(m, e, r) := x in
  match e, r with
  | Arrive now _ (LoginTotp _ (Some code)) _, SignedIn cl _ =>
      if looksLikeBackupCode code then None
      else match find_user (db (world m)) (cl_id cl) with
           | Some u => match us_secret u with
                       | Some secret => match verifyTotp hmac_sha1 secret code now (us_last_step u) with
                                        | Ok (Some step) => Some (cl_id cl, step)
                                        | _ => None
                                        end
                       | None => None
                       end
           | None => None
           end
  | _, _ => None
  end.

(** The steps accepted for one account, in order. *)
Definition accepted_for (uid : Z) (log : Log) : list Z :=
  omap (fun x => match accepted_step x with Some (i, k) => if i =? uid then Some k else None | None => None end) log.

Definition enrolled (uid : Z) (m : Machine) : Prop := exists u, find_user (db (world m)) uid = Some u /\ us_enabled u = true.

(** Another account than [id] is a superuser. *)
Definition other_admin (d : AuthDb) (id : Z) : Prop := exists u, u ∈ users d /\ us_id u <> id /\ isSuperuser (us_role u) = true.

(** How one step can touch the accounts, as far as the second factor and the
    roles go. *)
Inductive factor_change (d d' : AuthDb) : Prop :=
| factor_same : users d' = users d -> factor_change d d'
| factor_kept id f :
    (forall u, us_id (f u) = us_id u /\ us_enabled (f u) = us_enabled u /\ us_last_step (f u) = us_last_step u /\ us_role (f u) = us_role u) ->
    users d' = users (set_user d id f) -> factor_change d d'
| factor_role id role : other_admin d id -> users d' = users (updateRole d id role) -> factor_change d d'
| factor_started id f u : (forall u, us_id (f u) = us_id u /\ us_role (f u) = us_role u) -> find_user d id = Some u -> us_enabled u = false ->
    users d' = users (set_user d id f) -> factor_change d d'
| factor_off id f : (forall u, us_id (f u) = us_id u /\ us_enabled (f u) = false /\ us_role (f u) = us_role u) ->
    users d' = users (set_user d id f) -> factor_change d d'
| factor_code id k u : find_user d id = Some u -> spent (us_last_step u) k = false ->
    users d' = users (recordTotpStep d id k) -> factor_change d d'
| factor_created u : us_enabled u = false -> users d' = users d ++ [u] -> factor_change d d'
| factor_deleted id : other_admin d id -> users d' = delete_rows (fun u => us_id u =? id) (users d) -> factor_change d d'.

Lemma factor_users d d1 d' d2 : users d1 = users d -> users d2 = users d' -> factor_change d1 d' -> factor_change d d2.
Proof.
  intros H1 H2 Hf.
  assert (forall id, find_user d1 id = find_user d id) as Hfind by (intros id; unfold find_user; by rewrite H1).
  assert (forall id, other_admin d1 id -> other_admin d id) as Hadm by (intros id; unfold other_admin; by rewrite H1).
  destruct Hf as [He | id f Hf He | id role Ho He | id f u Hf Hu Hen He | id f Hf He | id k u Hu Hk He | u Hu He | id Ho He];
    rewrite <- H2 in He; cbn in He; rewrite H1 in He.
  - by apply factor_same.
  - by apply (factor_kept _ _ id f).
  - apply (factor_role _ _ id role); [by apply Hadm|done].
  - rewrite Hfind in Hu. by apply (factor_started _ _ id f u).
  - by apply (factor_off _ _ id f).
  - rewrite Hfind in Hu. by apply (factor_code _ _ id k u).
  - by apply (factor_created _ _ u).
  - apply (factor_deleted _ _ id); [by apply Hadm|done].
Qed.

Lemma find_user_users d d' id : users d = users d' -> find_user d id = find_user d' id.
Proof. unfold find_user. by intros ->. Qed.

Lemma find_app_some {A} (p : A -> bool) l r x : List.find p l = Some x -> List.find p (l ++ r) = Some x.
Proof. induction l as [|y l IH]; cbn; [done|]. by destruct (p y). Qed.

(** The last step accepted only moves forward while the factor stays on. *)
Lemma factor_forward d d' uid u u' : factor_change d d' -> find_user d uid = Some u -> us_enabled u = true ->
  find_user d' uid = Some u' -> us_enabled u' = true ->
  us_last_step u' = us_last_step u \/ exists k, spent (us_last_step u) k = false /\ us_last_step u' = Some k.
Proof.
  intros Hf Hu He Hu' He'.
  destruct Hf as [Heq | id f Hf Heq | id role _ Heq | id f v Hf Hv Hen Heq | id f Hf Heq | id k v Hv Hk Heq | v Hv Heq | id _ Heq].
  - rewrite (find_user_users _ _ _ Heq) in Hu'. left. congruence.
  - rewrite (find_user_users _ _ _ Heq), find_set_user in Hu' by (intros; by destruct (Hf u0)).
    rewrite Hu in Hu'. destruct (uid =? id); cbn in Hu'; injection Hu' as <-; left; [by destruct (Hf u) as (_ & _ & -> & _)|done].
  - rewrite (find_user_users _ _ _ Heq) in Hu'. unfold updateRole in Hu'. rewrite find_set_user in Hu' by done. rewrite Hu in Hu'.
    destruct (uid =? id); cbn in Hu'; injection Hu' as <-; by left.
  - rewrite (find_user_users _ _ _ Heq), find_set_user in Hu' by (intros; by destruct (Hf u0)). rewrite Hu in Hu'.
    destruct (Z.eqb_spec uid id) as [-> |]; [congruence|]. left. congruence.
  - rewrite (find_user_users _ _ _ Heq), find_set_user in Hu' by (intros; by destruct (Hf u0)). rewrite Hu in Hu'.
    destruct (uid =? id); cbn in Hu'; injection Hu' as <-; [|by left]. destruct (Hf u) as (_ & Hoff & _). congruence.
  - rewrite (find_user_users _ _ _ Heq) in Hu'. unfold recordTotpStep in Hu'. rewrite find_set_user in Hu' by done. rewrite Hu in Hu'.
    destruct (Z.eqb_spec uid id) as [-> |]; cbn in Hu'; injection Hu' as <-; [|by left].
    right. exists k. split; [congruence|done].
  - left. unfold find_user in Hu', Hu. rewrite Heq, (find_app_some _ _ _ _ Hu) in Hu'. congruence.
  - left. unfold find_user in Hu', Hu. rewrite Heq in Hu'. clear Heq. revert Hu Hu'. unfold delete_rows.
    induction (users d) as [|v l IH]; cbn; [done|]. destruct (Z.eqb_spec (us_id v) id) as [Hid|Hid]; cbn.
    + destruct (Z.eqb_spec (us_id v) uid) as [Hv|Hv]; [|exact IH]. intros [= ->] Hf. apply find_elem in Hf as [Hin Hf].
      apply Z.eqb_eq in Hf. apply elem_delete in Hin as [_ Hin]. apply Z.eqb_neq in Hin. lia.
    + destruct (us_id v =? uid); [congruence|exact IH].
Qed.

Lemma first_step_fresh key digits after steps k : first_step hmac_sha1 key digits after steps = Ok (Some k) -> spent after k = false.
Proof.
  induction steps as [|s steps IH]; cbn [first_step]; [done|]. destruct (spent after s) eqn:Hs; [exact IH|].
  destruct (hotp _ _ _) as [code|]; [|done]. cbn. destruct (String.eqb code digits); [by intros [= <-]|exact IH].
Qed.

Lemma verify_fresh secret code now after k : verifyTotp hmac_sha1 secret code now after = Ok (Some k) -> spent after k = false.
Proof. unfold verifyTotp. destruct (negb _); [done|]. destruct (_ =? 0); [done|]. apply first_step_fresh. Qed.

Lemma payload_users w now u sid : users (db (fst (sessionPayload w now u sid))) = users (db w).
Proof.
  unfold sessionPayload. destruct (createSession _ _ _ _) as [[d s]|] eqn:Hc; [|done].
  by apply createSession_rows in Hc as (_ & _ & _ & _ & _ & _ & Hu).
Qed.

(** The caller the gate put in [req.user] is an account, with its role. *)
Definition known (d : AuthDb) (user : option Principal) : Prop :=
  match user with Some me => exists u, find_user d (p_id me) = Some u /\ us_role u = p_role me | None => True end.

Lemma gate_known w now path header d user : authMiddleware w now path header = (d, Next user) -> known d user.
Proof.
  intros Hg. pose proof (gate_next _ _ _ _ _ _ Hg) as [Hu _].
  assert (forall id, find_user d id = find_user (db w) id) as Hfind by (intros id; unfold find_user; by rewrite Hu).
  unfold known. destruct user as [me|]; [|done]. rewrite Hfind. clear Hfind Hu. unfold authMiddleware in Hg.
  destruct (negb _); [done|]. destruct (includes _ _); [done|]. destruct header as [h|]; [|done]. destruct (negb _); [done|]. cbv zeta in Hg.
  destruct (looksLikeApiToken _).
  - unfold resolveApiToken in Hg. destruct (List.find _ (tokens (db w))) as [t|]; [|done]. destruct (find_user (db w) (tk_user t)) as [u|] eqn:Hf; [|done].
    destruct (is_Some_b _); [done|]. destruct (token_expired t now); [done|]. injection Hg as _ <-. cbn.
    apply find_user_some in Hf as Hid. destruct Hid as [_ ->]. by exists u.
  - destruct (jwt_secret w); [|done]. destruct (jwt_verify _ _ _) as [cl| |]; [|done..]. unfold session_gate in Hg.
    destruct (truthy (cl_purpose cl)); [done|]. cbv zeta in Hg. destruct (sessionEndReason _ _ _); [by repeat case_match|].
    destruct (match truthy (cl_sid cl) with Some _ => _ | None => _ end); [|done].
    destruct (find_user (db w) (cl_id cl)) as [u|] eqn:Hf; [|done].
    destruct (negb _); [done|]. destruct (_ && _); [done|]. injection Hg as _ <-. cbn. by exists u.
Qed.

Lemma as_admin_factor w me k : known (db w) (Some me) ->
  ((forall id, id <> p_id me -> other_admin (db w) id) -> factor_change (db w) (db (fst k))) -> factor_change (db w) (db (fst (as_admin w me k))).
Proof.
  intros (u & Hu & Hr) Hf. unfold as_admin. destruct (requireAdmin _) eqn:Hg; [|by apply factor_same..]. apply Hf. intros id Hid.
  apply admin_gate in Hg as (role & [= <-] & Hs). apply find_user_some in Hu as [Hin Huid]. exists u. split_and!; [done|congruence|congruence].
Qed.

Lemma code_factor w now ch c sid : factor_change (db w) (db (fst (login_totp w now ch c sid))).
Proof.
  unfold login_totp. destruct (truthy ch); [|by apply factor_same]. destruct (truthy c) as [code|]; [|by apply factor_same].
  destruct (match jwt_secret w with Some _ => _ | None => _ end); [|by apply factor_same..].
  destruct (negb _); [by apply factor_same|]. destruct (find_user (db w) _) as [u|] eqn:Hu; [|by apply factor_same].
  destruct (us_enabled u); [|by apply factor_same]. destruct (truthy (us_secret u)); [|by apply factor_same].
  destruct (looksLikeBackupCode code).
  - destruct (consumeBackupCode _ _ _ _) as [d ok] eqn:Hc. injection Hc as <- _.
    destruct ok; [|by apply factor_same]. apply factor_same. by rewrite payload_users.
  - destruct (verifyTotp _ _ _ _ _) as [[k|]|] eqn:Hv; [|by apply factor_same..].
    apply find_user_some in Hu as Hu'. destruct Hu' as [_ Hid].
    apply (factor_code _ _ (us_id u) k u); [by rewrite Hid|by eapply verify_fresh|]. by rewrite payload_users.
Qed.

Ltac same_factor := first [by apply factor_same | by apply factor_same; rewrite payload_users].

Lemma route_factor w now user call r : known (db w) user -> factor_change (db w) (db (fst (route w now user call r))).
Proof.
  intros Hme. destruct call as [u p|ch c| |c|p|p|c n| | |u ro k|id ro|id|id|id n d|id t|path], user as [me|]; cbn [route]; try by apply factor_same.
  all: try (unfold login_start, codes_start, disable_start, change_start; repeat case_match; by apply factor_same).
  1, 2: apply code_factor.
  - unfold totp_setup. destruct (find_user (db w) _) as [u|] eqn:Hu; [|same_factor].
    destruct (us_enabled u) eqn:He; [same_factor|]. apply find_user_some in Hu as Hu'. destruct Hu' as [_ Hid]. cbn.
    eapply (factor_started _ _ (us_id u)); [|by rewrite Hid|done|by unfold setPendingTotpSecret]. done.
  - unfold totp_enable. destruct (truthy c); [|same_factor]. destruct (find_user (db w) _) as [u|] eqn:Hu; [|same_factor].
    destruct (us_enabled u) eqn:He; [same_factor|]. destruct (truthy (us_secret u)); [|same_factor].
    destruct (verifyTotp _ _ _ _ _) as [[k|]|]; [|same_factor..]. cbv zeta.
    destruct (replaceBackupCodes _ _ _) as [d|] eqn:Hr; [|same_factor]. apply replace_codes_tables in Hr as (Hr & _).
    apply find_user_some in Hu as Hu'. destruct Hu' as [_ Hid].
    eapply (factor_started _ _ (us_id u)); [|by rewrite Hid|done|exact Hr]. done.
  - unfold logout_route, endSession. repeat case_match; same_factor.
  - unfold activity_route. repeat case_match; same_factor.
  - apply as_admin_factor; [done|]. intros Hadm. unfold create_start. repeat case_match; same_factor.
  - apply as_admin_factor; [done|]. intros Hadm. unfold update_user. destruct (find_user (db w) id) as [u|]; [|same_factor].
    destruct (Z.eqb_spec (us_id u) (p_id me)) as [|Hne]; [same_factor|]. destruct (valid_role ro) as [role|]; [|same_factor].
    apply (factor_role _ _ (us_id u) role); [by apply Hadm|done].
  - apply as_admin_factor; [done|]. intros Hadm. unfold delete_user. destruct (find_user (db w) id) as [u|]; [|same_factor].
    destruct (Z.eqb_spec (us_id u) (p_id me)) as [|Hne]; [same_factor|]. apply (factor_deleted _ _ (us_id u)); [by apply Hadm|done].
  - apply as_admin_factor; [done|]. intros Hadm. unfold reset_start. repeat case_match; same_factor.
  - apply as_admin_factor; [done|]. intros Hadm. unfold create_token, service_account, insertToken. cbv zeta. repeat case_match; simplify_eq; same_factor.
  - apply as_admin_factor; [done|]. intros Hadm. unfold revoke_token, service_account. repeat case_match; same_factor.
Qed.

Lemma resume_factor w now p r : factor_change (db w) (db (fst (resume w now p r))).
Proof.
  destruct p as [u pw|u pw|u pw|me u c n|me u n|n ro k pw|u pw]; cbn [resume].
  - unfold login_finish. cbv zeta. repeat case_match; same_factor.
  - unfold codes_finish. case_match; [same_factor|]. cbv zeta. destruct (replaceBackupCodes _ _ _) as [d|] eqn:Hr; [|same_factor].
    apply replace_codes_tables in Hr as (Hr & _). by apply factor_same.
  - unfold disable_finish. case_match; [same_factor|]. cbn. eapply (factor_off _ _ (us_id u)); [|by unfold disableTotp]. done.
  - unfold change_compared. case_match; same_factor.
  - unfold change_finish, changePassword. cbv zeta. set (w1 := with_db w _).
    assert (forall w', users (db w') = users (db w1) -> factor_change (db w) (db w')) as Hkept.
    { intros w' Hw'. apply (factor_kept _ _ (us_id u) (set_hash (bcrypt_hash n (dr_salt r)) false)); [done|]. by rewrite Hw'. }
    destruct (find_user _ _) as [v|]; [|by apply Hkept].
    destruct (match p_session me with Some _ => _ | None => _ end) as [s|]; [|by apply Hkept; rewrite payload_users].
    destruct (live s); [by apply Hkept|by apply Hkept; rewrite payload_users].
  - unfold create_finish, createUser. destruct (find_username _ _); [same_factor|]. cbn. eapply factor_created; [|reflexivity]. done.
  - by apply (factor_kept _ _ (us_id u) (set_hash (bcrypt_hash pw (dr_salt r)) true)).
Qed.

Lemma gate_users w now path header : users (fst (authMiddleware w now path header)) = users (db w).
Proof.
  unfold authMiddleware, session_gate, endSession, resolveApiToken. cbv zeta. repeat case_match; simplify_eq/=; done.
Qed.

Lemma step_factor m e : factor_change (db (world m)) (db (world (fst (step m e)))).
Proof.
  destruct e as [now h call r|now i r|i|now days|now name hash|key value]; cbn [step suspend fst world]; try by apply factor_same.
  - unfold arrive. pose proof (gate_users (world m) now (path_of call) h) as Hg. destruct (authMiddleware _ _ _ _) as [d [user|x]] eqn:Ha; cbn in Hg.
    + eapply factor_users; [exact Hg|reflexivity|]. apply (route_factor (with_db (world m) d)). by eapply gate_known.
    + by apply factor_same.
  - destruct (pending m !! i) as [p|]; [apply resume_factor|by apply factor_same].
  - unfold cli_reset. destruct (find_username _ _) as [u|]; [|by apply factor_same].
    by apply (factor_kept _ _ (us_id u) (set_hash hash true)).
Qed.

Lemma payload_signed w now u sid cl tok : snd (sessionPayload w now u sid) = SignedIn cl tok -> cl_id cl = us_id u.
Proof. unfold sessionPayload, session_token. repeat case_match; try done. by intros [= <- _]. Qed.

(** An accepted step is recorded in the row it was checked against. *)
Lemma accepted_recorded m e uid k u : accepted_step (m, e, snd (step m e)) = Some (uid, k) -> find_user (db (world m)) uid = Some u ->
  us_enabled u = true -> spent (us_last_step u) k = false /\
  (forall u', find_user (db (world (fst (step m e)))) uid = Some u' -> us_last_step u' = Some k).
Proof.
  intros Ha Hu He. destruct e as [now h call r| | | | |]; try done. cbn [accepted_step step suspend snd fst world] in *.
  destruct call as [|ch c| | | | | | | | | | | | | |]; try done. unfold arrive in *. cbn [authMiddleware path_of] in *.
  assert (authMiddleware (world m) now "/api/auth/login/totp" h = (db (world m), Next None)) as Hg by done. rewrite Hg in *. clear Hg.
  cbn [route] in *. assert (with_db (world m) (db (world m)) = world m) as Hw by (by destruct (world m)). rewrite Hw in *.
  destruct c as [code|]; [|done]. destruct (snd (login_totp _ _ _ _ _)) as [| | | |cl tok| | | | |] eqn:Hs; try done.
  unfold login_totp in *. destruct (truthy ch); [|done]. destruct (truthy (Some code)) as [code'|] eqn:Ht; [|done].
  assert (code' = code) as -> by (cbn in Ht; destruct (String.eqb code ""); congruence).
  destruct (match jwt_secret (world m) with Some _ => _ | None => _ end) as [dc| |]; [|done..].
  destruct (negb _); [done|]. destruct (find_user (db (world m)) (cl_id dc)) as [v|] eqn:Hv; [|done].
  destruct (us_enabled v); [|done]. destruct (us_secret v) as [secret|] eqn:Hsec; [|done]. cbn [truthy] in *.
  destruct (String.eqb secret ""); [done|]. destruct (looksLikeBackupCode code); [done|].
  apply find_user_some in Hv as Hv'. destruct Hv' as [_ Hvid].
  destruct (verifyTotp _ _ _ _ (us_last_step v)) as [[k1|]|] eqn:Hver; [|done..].
  apply payload_signed in Hs. rewrite Hs, Hvid, Hv, Hsec, Hver in Ha. injection Ha as <- <-.
  rewrite Hv in Hu. injection Hu as ->. split; [by eapply verify_fresh|]. intros u' Hu'.
  rewrite (find_user_users _ (recordTotpStep (db (world m)) (us_id u) k1)) in Hu' by (by rewrite payload_users).
  unfold recordTotpStep in Hu'. rewrite find_set_user in Hu' by done. rewrite Hvid, Z.eqb_refl, Hv in Hu'. by injection Hu' as <-.
Qed.

(** The machines a run goes through, its last one included. *)
Definition stages (m : Machine) (es : list Event) : list Machine := map (fun x => fst (fst x)) (snd (exec m es)) ++ [fst (exec m es)].

Lemma stages_cons m e es : stages m (e :: es) = m :: stages (fst (step m e)) es.
Proof. unfold stages. by rewrite exec_cons. Qed.

Lemma stages_head m es : exists l, stages m es = m :: l.
Proof. destruct es as [|e es]; [by exists []|]. rewrite stages_cons. by eexists. Qed.

Lemma spent_trans after k x : spent after k = false -> spent (Some k) x = false -> spent after x = false.
Proof. destruct after as [a|]; cbn; [|done]. intros H1%Z.leb_gt H2%Z.leb_gt. apply Z.leb_gt. lia. Qed.

(** C30. A code of the authenticator is good once. While an account stays
    enrolled, the time steps its codes were accepted for only go up, from the
    last one recorded, in every run and any interleaving: the same code, or an
    older one still inside the window, never signs in a second time. *)
Theorem codes_accepted_once (m : Machine) (es : list Event) (uid : Z) (u : User)
    (Huser : find_user (db (world m)) uid = Some u) (Henrolled : Forall (enrolled uid) (stages m es)) :
  StronglySorted Z.lt (accepted_for uid (snd (exec m es))) /\
  Forall (fun k => spent (us_last_step u) k = false) (accepted_for uid (snd (exec m es))).
Proof.
  revert m u Huser Henrolled. induction es as [|e es IH]; intros m u Hu Hen; [split; constructor|].
  rewrite stages_cons in Hen. inversion Hen as [|?? (v & Hv & He) Hen']; subst. assert (v = u) as -> by congruence.
  destruct (stages_head (fst (step m e)) es) as [l Hl]. rewrite Hl in Hen'. inversion Hen' as [|?? (u1 & Hu1 & He1) _]; subst.
  rewrite <- Hl in Hen'. destruct (IH _ u1 Hu1 Hen') as [Hsort Hall]. rewrite exec_cons. cbn [snd]. unfold accepted_for in *. cbn [omap list_omap].
  destruct (accepted_step (m, e, snd (step m e))) as [[i k]|] eqn:Ha; [destruct (Z.eqb_spec i uid) as [-> |]|].
  - destruct (accepted_recorded _ _ _ _ _ Ha Hu He) as [Hk Hrec]. rewrite (Hrec u1 Hu1) in Hall. split.
    + constructor; [done|]. eapply Forall_impl; [exact Hall|]. intros x Hx. cbn in Hx. apply Z.leb_gt in Hx. exact Hx.
    + constructor; [done|]. eapply Forall_impl; [exact Hall|]. intros x Hx. by eapply spent_trans.
  - split; [done|]. eapply Forall_impl; [exact Hall|]. intros x Hx.
    destruct (factor_forward _ _ _ _ _ (step_factor m e) Hu He Hu1 He1) as [Heq | (k' & Hk' & Heq)]; [congruence|]. rewrite Heq in Hx. by eapply spent_trans.
  - split; [done|]. eapply Forall_impl; [exact Hall|]. intros x Hx.
    destruct (factor_forward _ _ _ _ _ (step_factor m e) Hu He Hu1 He1) as [Heq | (k' & Hk' & Heq)]; [congruence|]. rewrite Heq in Hx. by eapply spent_trans.
Qed.

(** ** An administrator is always left *)

Definition has_admin (d : AuthDb) : Prop := exists u, u ∈ users d /\ isSuperuser (us_role u) = true.

Lemma admin_set d d' id f : (forall u, us_role (f u) = us_role u) -> users d' = users (set_user d id f) -> has_admin d -> has_admin d'.
Proof.
  intros Hf Heq (u & Hu & Hs). eapply update_elem in Hu. unfold has_admin. rewrite Heq. cbn.
  eexists. split; [exact Hu|]. by destruct (us_id u =? id); rewrite ?Hf.
Qed.

Lemma factor_admin d d' : factor_change d d' -> has_admin d -> has_admin d'.
Proof.
  intros Hf Ha. destruct Hf as [Heq | id f Hf Heq | id role Ho Heq | id f u Hf _ _ Heq | id f Hf Heq | id k u _ _ Heq | u _ Heq | id Ho Heq].
  - unfold has_admin. by rewrite Heq.
  - apply (admin_set d d' id f); [|done|done]. intros u. by destruct (Hf u) as (_ & _ & _ & ?).
  - destruct Ho as (u & Hu & Hne & Hs). exists u. split; [|done]. rewrite Heq. apply Z.eqb_neq in Hne. eapply (update_elem (fun u => us_id u =? id)) in Hu.
    cbn beta in Hu. rewrite Hne in Hu. exact Hu.
  - apply (admin_set d d' id f); [|done|done]. intros v. by destruct (Hf v).
  - apply (admin_set d d' id f); [|done|done]. intros v. by destruct (Hf v) as (_ & _ & ?).
  - by apply (admin_set d d' id (fun u => set_totp (us_secret u) (us_enabled u) (Some k) u)).
  - destruct Ha as (v & Hv & Hs). exists v. split; [|done]. rewrite Heq. apply elem_of_app. by left.
  - destruct Ho as (u & Hu & Hne & Hs). exists u. split; [|done]. rewrite Heq. apply elem_delete. split; [done|]. by apply Z.eqb_neq.
Qed.

(** C31. The accounts always keep an administrator: no list of events, with any
    interleaving and any callers, leaves a database that had a superuser without
    one. Two administrators cannot demote or delete each other. *)
Theorem administrator_remains (m : Machine) (es : list Event) (Hadmin : has_admin (db (world m))) :
  has_admin (db (world (fst (exec m es)))).
Proof.
  apply (exec_invariant (fun m => has_admin (db (world m)))); [|done]. intros m' e. apply factor_admin, step_factor.
Qed.

(** ** A sign-in works *)

(** What the server relies on of its tokens: one it signed verifies until its
    lifetime is over, counted in whole seconds, and does not look like an API
    token. *)
Definition signing : Prop :=
  (forall secret t lifetime c now, t <= now -> sqlTime now < sqlTime t + lifetime ->
     jwt_verify secret now (jwt_sign secret t lifetime c) = Verified c) /\
  (forall secret t lifetime c, looksLikeApiToken (jwt_sign secret t lifetime c) = false).

(** The account and password of a login, accepted without a second factor. *)
Definition good_login (d : AuthDb) (name pw : string) (u : User) : Prop :=
  find_username d name = Some u /\ find_user d (us_id u) = Some u /\ bcrypt_compare pw (us_hash u) = true /\
  us_kind u = person /\ us_enabled u = false /\ name <> "" /\ pw <> "" /\ js_length name <= 255 /\ js_length pw <= 1024.

Lemma public_arrive w now h call r : starts_with "/api/" (path_of call) = true -> includes PUBLIC_PATHS (normalizedPath (path_of call)) = true ->
  arrive w now h call r = route w now None call r.
Proof. intros Ha Hp. unfold arrive, authMiddleware. rewrite Ha, Hp. cbn [negb]. by destruct w. Qed.

Lemma login_waits m t h r name pw u : good_login (db (world m)) name pw u ->
  step m (Arrive t h (Login (Some name) (Some pw)) r) = (mkMachine (world m) (pending m ++ [AwaitLogin (Some u) pw]), Waiting (AwaitLogin (Some u) pw)).
Proof.
  intros (Hn & _ & _ & _ & _ & Hne & Hpe & Hln & Hlp). cbn [step]. rewrite public_arrive by done.
  cbn [route]. unfold login_start. destruct (String.eqb_spec name ""); [done|]. destruct (String.eqb_spec pw ""); [done|]. cbn [orb].
  destruct (Z.ltb_spec 255 (js_length name)); [lia|]. destruct (Z.ltb_spec 1024 (js_length pw)); [lia|]. cbn [orb]. by rewrite Hn.
Qed.

(** The session a sign-in opens. *)
Definition fresh_session (u : User) (t : Z) (sid : string) : Session :=
  mkSession sid (Some (us_id u)) (us_name u) (sqlTime t) (sqlTime t) (sqlTime (t + SESSION_LIFETIME_MS)) None None.

Definition signed_in (w : World) (u : User) (t : Z) (sid : string) : World :=
  with_db w (with_sessions (db w) (sessions (db w) ++ [fresh_session u t sid])).

Lemma getSession_signed_in w u t sid : getSession (db w) sid = None -> getSession (db (signed_in w u t sid)) sid = Some (fresh_session u t sid).
Proof.
  unfold getSession. cbn. induction (sessions (db w)) as [|s l IH]; cbn; [by rewrite String.eqb_refl|]. by destruct (String.eqb _ _).
Qed.

Lemma login_signs w p t r name pw secret u : good_login (db w) name pw u -> jwt_secret w = Some secret -> getSession (db w) (dr_sid r) = None ->
  let c := mkClaims (us_id u) (Some (dr_sid r)) None in
  step (mkMachine w (p ++ [AwaitLogin (Some u) pw])) (Resume t (length p) r) =
    (mkMachine (signed_in w u t (dr_sid r)) p, SignedIn c (jwt_sign secret t SESSION_SECONDS c)).
Proof.
  intros (_ & Hu & Hpw & Hk & Hen & _) Hsec Hf. cbn [step pending world]. rewrite list_lookup_middle by done. cbn [resume].
  unfold login_finish. cbv zeta. rewrite Hpw, Hk, Hen. cbn [negb is_service]. unfold sessionPayload, createSession.
  rewrite Hf. cbn [is_Some_b]. rewrite Hu. cbn [is_Some_b negb]. fold (fresh_session u t (dr_sid r)). fold (signed_in w u t (dr_sid r)).
  unfold session_token. rewrite Hsec. unfold suspend. cbn. by rewrite delete_middle, app_nil_r.
Qed.

Lemma sqlTime_day t : sqlTime (t + SESSION_LIFETIME_MS) = sqlTime t + SESSION_SECONDS.
Proof. unfold sqlTime, SESSION_SECONDS, SESSION_LIFETIME_MS. change (24 * 60 * 60 * 1000) with (86400 * 1000). by rewrite Z.div_add by lia. Qed.

(** A sign-in works: the right password of an account without a second factor
    is answered with a token, and a request that carries it is let in as that
    account, with its role, for 24 hours, on every path the account may use while
    the session is not idle. *)
Theorem sign_in_works (m : Machine) (t1 t2 : Z) (h : option string) (r1 r2 : Draws) (name pw secret : string) (u : User)
    (Hsign : signing) (Hlogin : good_login (db (world m)) name pw u) (Hsecret : jwt_secret (world m) = Some secret)
    (Hfresh : getSession (db (world m)) (dr_sid r2) = None) (Hsid : dr_sid r2 <> "") :
  exists m2 c token,
    exec m [Arrive t1 h (Login (Some name) (Some pw)) r1; Resume t2 (length (pending m)) r2] =
      (m2, [(m, Arrive t1 h (Login (Some name) (Some pw)) r1, Waiting (AwaitLogin (Some u) pw));
            (mkMachine (world m) (pending m ++ [AwaitLogin (Some u) pw]), Resume t2 (length (pending m)) r2, SignedIn c token)]) /\
    forall now path, t2 <= now -> sqlTime now < sqlTime t2 + SESSION_SECONDS ->
      (let idleMs := idleTimeoutMs (settings (world m)) in 0 < idleMs -> now - parseSqlTime (sqlTime t2) < idleMs) ->
      starts_with "/api/" path = true -> includes PUBLIC_PATHS (normalizedPath path) = false ->
      (us_must_change u = true -> includes PASSWORD_CHANGE_PATHS (normalizedPath path) = true) ->
      snd (authMiddleware (world m2) now path (Some ("Bearer " +:+ token))) =
        Next (Some (mkPrincipal (us_id u) (us_role u) (us_must_change u) (Some (dr_sid r2)) None)).
Proof.
  exists (mkMachine (signed_in (world m) u t2 (dr_sid r2)) (pending m)), (mkClaims (us_id u) (Some (dr_sid r2)) None). eexists. split.
  { rewrite exec_cons, (login_waits _ _ _ _ _ _ u Hlogin). cbn [fst snd]. by rewrite exec_cons, (login_signs _ _ _ _ name _ secret). }
  intros now path Hnow Hlim Hidle Hapi Hpub Hmust. destruct Hsign as [Hver Htok]. destruct Hlogin as (_ & Hu & _).
  unfold authMiddleware. rewrite Hapi. cbn [negb]. rewrite Hpub.
  assert (forall s, starts_with "Bearer " ("Bearer " +:+ s) = true) as -> by done. cbn [negb]. cbv zeta.
  assert (forall s, drop_string 7 ("Bearer " +:+ s) = s) as -> by done. rewrite Htok.
  assert (jwt_secret (signed_in (world m) u t2 (dr_sid r2)) = Some secret) as Hs by exact Hsecret. cbn [world]. rewrite Hs, Hver by done.
  unfold session_gate. cbn [cl_purpose cl_sid cl_id truthy]. destruct (String.eqb_spec (dr_sid r2) ""); [done|].
  rewrite getSession_signed_in by done. cbv zeta.
  assert (find_user (db (signed_in (world m) u t2 (dr_sid r2))) (us_id u) = Some u) as -> by exact Hu.
  set (idleMs := idleTimeoutMs _). cbv zeta in Hidle. change (idleTimeoutMs (settings (world m))) with idleMs in Hidle.
  assert (sessionEndReason (Some (fresh_session u t2 (dr_sid r2))) now idleMs = None) as ->.
  { cbn [sessionEndReason fresh_session ss_ended ss_expires ss_activity]. rewrite sqlTime_day. unfold parseSqlTime.
    destruct (Z.leb_spec ((sqlTime t2 + SESSION_SECONDS) * 1000) now) as [Hle|_].
    - unfold sqlTime in *. pose proof (Z.div_le_mono _ _ 1000 ltac:(lia) Hle) as Hd. rewrite Z.div_mul in Hd by lia. lia.
    - destruct (Z.ltb_spec 0 idleMs); [|done]. cbn [andb]. destruct (Z.leb_spec idleMs (now - sqlTime t2 * 1000)); [|done].
      unfold parseSqlTime in Hidle. lia. }
  cbn [fresh_session ss_user ss_id]. rewrite bool_decide_eq_true_2 by done. cbn [negb].
  destruct (us_must_change u) eqn:Hm; [rewrite Hmust by done|]; done.
Qed.

(** ** A backup code is good once *)

(** The hashes of the codes a reply hands out. *)
Definition handed_out (r : Reply) : list string := match r with NewCodes cs => map (hashBackupCode sha256) cs | _ => [] end.

(** Every code of the second database is one of the first, used if it was, or
    one of those handed out. *)
Definition codes_from (fresh : list string) (d d' : AuthDb) : Prop :=
  forall c', c' ∈ codes d' ->
  (exists c, c ∈ codes d /\ bc_user c' = bc_user c /\ bc_hash c' = bc_hash c /\ (is_Some_b (bc_used c) = true -> is_Some_b (bc_used c') = true)) \/
  bc_hash c' ∈ fresh.

Lemma codes_same fresh d d' : codes d' = codes d -> codes_from fresh d d'.
Proof. intros Heq c Hc. rewrite Heq in Hc. left. by exists c. Qed.

Lemma codes_fewer fresh d d' p : codes d' = delete_rows p (codes d) -> codes_from fresh d d'.
Proof. intros Heq c Hc. rewrite Heq in Hc. apply elem_delete in Hc as [Hc _]. left. by exists c. Qed.

Lemma insert_codes_eq uid hashes l l' : insert_codes uid hashes l = Ok l' -> l' = l ++ map (fun h => mkCode uid h None) hashes.
Proof.
  revert l. induction hashes as [|h hs IH]; intros l; cbn; [intros [= <-]; by rewrite app_nil_r|].
  destruct (existsb _ _); [done|]. intros Hl. rewrite (IH _ Hl). by rewrite <- app_assoc.
Qed.

Lemma codes_replaced d d0 uid hashes d' : codes d0 = codes d -> replaceBackupCodes d0 uid hashes = Ok d' -> codes_from hashes d d'.
Proof.
  intros H0. unfold replaceBackupCodes. destruct (_ && _); [done|]. destruct (insert_codes _ _ _) as [l|] eqn:Hl; [|done].
  cbn. intros [= <-] c Hc. cbn in Hc. rewrite (insert_codes_eq _ _ _ _ Hl) in Hc. apply elem_of_app in Hc as [Hc|Hc].
  - cbn in Hc. rewrite H0 in Hc. apply elem_delete in Hc as [Hc _]. left. by exists c.
  - right. apply list_elem_of_In, in_map_iff in Hc as (h & <- & Hh). by apply list_elem_of_In.
Qed.

Lemma payload_codes w now u sid : codes (db (fst (sessionPayload w now u sid))) = codes (db w).
Proof. unfold sessionPayload, createSession. by repeat (case_match; simplify_eq/=). Qed.

Lemma login_totp_codes fresh w now ch c sid : codes_from fresh (db w) (db (fst (login_totp w now ch c sid))).
Proof.
  unfold login_totp. destruct (truthy ch); [|by apply codes_same]. destruct (truthy c) as [code|]; [|by apply codes_same].
  destruct (match jwt_secret w with Some _ => _ | None => _ end); [|by apply codes_same..].
  destruct (negb _); [by apply codes_same|]. destruct (find_user (db w) _) as [u|]; [|by apply codes_same].
  destruct (us_enabled u); [|by apply codes_same]. destruct (truthy (us_secret u)); [|by apply codes_same].
  destruct (looksLikeBackupCode code).
  - destruct (consumeBackupCode _ _ _ _) as [d ok] eqn:Hc. injection Hc as <- _. destruct ok; [|by apply codes_same].
    intros c' Hc'. rewrite payload_codes in Hc'. cbn in Hc'. apply elem_update in Hc' as (y & Hy & ->). left. exists y. by destruct (unused _ _ y).
  - destruct (verifyTotp _ _ _ _ _) as [[k|]|]; [|by apply codes_same..]. apply codes_same. by rewrite payload_codes.
Qed.

Lemma as_admin_codes fresh w me k : codes_from fresh (db w) (db (fst k)) -> codes_from fresh (db w) (db (fst (as_admin w me k))).
Proof. intros Hk. unfold as_admin. destruct (requireAdmin _); [exact Hk|by apply codes_same..]. Qed.

Ltac codes_kept := first [by apply codes_same | by eapply codes_fewer].

Lemma route_codes w now user call r : let res := route w now user call r in codes_from (handed_out (snd res)) (db w) (db (fst res)).
Proof.
  cbv zeta. destruct call as [u p|ch c| |c|p|p|c n| | |u ro k|id ro|id|id|id n d|id t|path], user as [me|]; cbn [route]; try by apply codes_same.
  all: try (unfold login_start, codes_start, disable_start, change_start, totp_setup, logout_route, endSession, activity_route; repeat case_match; by apply codes_same).
  1, 2: apply login_totp_codes.
  - unfold totp_enable. destruct (truthy c); [|codes_kept]. destruct (find_user (db w) _) as [u|]; [|codes_kept].
    destruct (us_enabled u); [codes_kept|]. destruct (truthy (us_secret u)); [|codes_kept].
    destruct (verifyTotp _ _ _ _ _) as [[k|]|]; [|codes_kept..]. cbv zeta. destruct (replaceBackupCodes _ _ _) as [d|] eqn:Hr; [|codes_kept].
    by eapply codes_replaced in Hr.
  - apply as_admin_codes. unfold create_start. repeat case_match; codes_kept.
  - apply as_admin_codes. unfold update_user. repeat case_match; codes_kept.
  - apply as_admin_codes. unfold delete_user. repeat case_match; codes_kept.
  - apply as_admin_codes. unfold reset_start. repeat case_match; codes_kept.
  - apply as_admin_codes. unfold create_token, service_account, insertToken. cbv zeta. repeat case_match; simplify_eq; codes_kept.
  - apply as_admin_codes. unfold revoke_token, service_account. repeat case_match; codes_kept.
Qed.

Lemma resume_codes w now p r : let res := resume w now p r in codes_from (handed_out (snd res)) (db w) (db (fst res)).
Proof.
  cbv zeta. destruct p as [u pw|u pw|u pw|me u c n|me u n|n ro k pw|u pw]; cbn [resume].
  - unfold login_finish. cbv zeta. repeat case_match; try codes_kept; apply codes_same; by rewrite payload_codes.
  - unfold codes_finish. case_match; [codes_kept|]. cbv zeta. destruct (replaceBackupCodes _ _ _) as [d|] eqn:Hr; [|codes_kept].
    by eapply codes_replaced in Hr.
  - unfold disable_finish. case_match; codes_kept.
  - unfold change_compared. case_match; codes_kept.
  - apply codes_same. unfold change_finish, changePassword. cbv zeta. set (w1 := with_db w _).
    destruct (find_user _ _) as [v|]; [|done].
    destruct (match p_session me with Some _ => _ | None => _ end) as [s|]; [destruct (live s); [done|]|]; by rewrite payload_codes.
  - unfold create_finish, createUser. repeat case_match; simplify_eq; codes_kept.
  - by apply codes_same.
Qed.

Lemma gate_codes w now path header : codes (fst (authMiddleware w now path header)) = codes (db w).
Proof. unfold authMiddleware, session_gate, endSession, resolveApiToken. cbv zeta. repeat case_match; simplify_eq/=; done. Qed.

Lemma step_codes m e : codes_from (handed_out (snd (step m e))) (db (world m)) (db (world (fst (step m e)))).
Proof.
  destruct e as [now h call r|now i r|i|now days|now name hash|key value]; cbn [step suspend fst snd world]; try by apply codes_same.
  - unfold arrive. pose proof (gate_codes (world m) now (path_of call) h) as Hg. destruct (authMiddleware _ _ _ _) as [d [user|x]]; cbn in Hg.
    + intros c Hc. destruct (route_codes (with_db (world m) d) now user call r c Hc) as [(c0 & H0 & H1)|]; [|by right].
      left. exists c0. cbn in H0. by rewrite Hg in H0.
    + by apply codes_same.
  - destruct (pending m !! i) as [p|]; [apply resume_codes|by apply codes_same].
  - unfold cli_reset. destruct (find_username _ _); by apply codes_same.
Qed.

(** No unused code of the account has this hash. *)
Definition code_spent (d : AuthDb) (uid : Z) (h : string) : Prop := forall c, c ∈ codes d -> unused uid h c = false.

Lemma codes_spent fresh d d' uid h : codes_from fresh d d' -> h ∉ fresh -> code_spent d uid h -> code_spent d' uid h.
Proof.
  intros Hf Hh Hs c' Hc'. destruct (Hf c' Hc') as [(c & Hc & Hu & Hhash & Hused) | Hin].
  - specialize (Hs c Hc). unfold unused in *. rewrite Hu, Hhash. destruct ((bc_user c =? uid) && String.eqb (bc_hash c) h); [|done]. cbn in *.
    apply negb_false_iff in Hs. by rewrite Hused.
  - unfold unused. destruct (String.eqb_spec (bc_hash c') h) as [<-|]; [done|]. by rewrite andb_false_r.
Qed.

Lemma exec_spent m es uid h : code_spent (db (world m)) uid h -> Forall (fun x => h ∉ handed_out (snd x)) (snd (exec m es)) ->
  code_spent (db (world (fst (exec m es)))) uid h.
Proof.
  revert m. induction es as [|e es IH]; intros m Hs Hf; [done|]. rewrite exec_cons in *. cbn [fst snd] in *.
  inversion Hf as [|?? Hh Hf']; subst. apply IH; [|done]. by eapply codes_spent; [apply step_codes|exact Hh|].
Qed.

(** A sign-in with a backup code: the code was there, unused, and is spent. *)
Lemma backup_accepted m t h ch code r cl tok : looksLikeBackupCode code = true ->
  snd (step m (Arrive t h (LoginTotp ch (Some code)) r)) = SignedIn cl tok ->
  ~ code_spent (db (world m)) (cl_id cl) (hashBackupCode sha256 code) /\
  code_spent (db (world (fst (step m (Arrive t h (LoginTotp ch (Some code)) r))))) (cl_id cl) (hashBackupCode sha256 code).
Proof.
  intros Hlook. cbn [step suspend fst snd world]. rewrite public_arrive by done. cbn [route]. unfold login_totp.
  destruct (truthy ch); [|done]. destruct (truthy (Some code)) as [code'|] eqn:Ht; [|done].
  assert (code' = code) as -> by (cbn in Ht; destruct (String.eqb code ""); congruence). rewrite Hlook.
  destruct (match jwt_secret (world m) with Some _ => _ | None => _ end) as [dc| |]; [|done..].
  destruct (negb _); [done|]. destruct (find_user (db (world m)) (cl_id dc)) as [v|]; [|done].
  destruct (us_enabled v); [|done]. destruct (truthy (us_secret v)); [|done].
  destruct (consumeBackupCode _ _ _ _) as [d ok] eqn:Hc. injection Hc as <- Hok. destruct ok; [|done].
  intros Hs. rewrite (payload_signed _ _ _ _ _ _ Hs). apply Nat.eqb_eq in Hok. split.
  - intros Hspent. assert (List.filter (unused (us_id v) (hashBackupCode sha256 code)) (codes (db (world m))) = []) as He; [|by rewrite He in Hok].
    destruct (List.filter _ _) as [|c l] eqn:Hf; [done|]. assert (In c (List.filter (unused (us_id v) (hashBackupCode sha256 code)) (codes (db (world m))))) as Hin by (rewrite Hf; by left).
    apply filter_In in Hin as [Hin Hu]. apply list_elem_of_In in Hin. by rewrite (Hspent c Hin) in Hu.
  - intros c Hcin. rewrite payload_codes in Hcin. cbn in Hcin. apply elem_update in Hcin as (y & Hy & ->).
    destruct (unused _ _ y) eqn:Hun; [|exact Hun]. unfold unused. cbn. by rewrite andb_false_r.
Qed.

(** A backup code is good once: after a sign-in with it, the same code, in
    any spelling (case, hyphens, white space), does not sign that account in
    again, whatever happens in between, unless a fresh set handed out contains it
    anew. *)
Theorem backup_code_once (m : Machine) (t t' : Z) (h h' ch ch' : option string) (code code' : string) (r r' : Draws) (es : list Event) (cl cl' : Claims) (tok tok' : string)
    (Hlook : looksLikeBackupCode code = true) (Hsame : normalizeBackupCode code' = normalizeBackupCode code)
    (Hfirst : snd (step m (Arrive t h (LoginTotp ch (Some code)) r)) = SignedIn cl tok)
    (Hnew : Forall (fun x => hashBackupCode sha256 code ∉ handed_out (snd x)) (snd (exec (fst (step m (Arrive t h (LoginTotp ch (Some code)) r))) es)))
    (Hagain : snd (step (fst (exec (fst (step m (Arrive t h (LoginTotp ch (Some code)) r))) es)) (Arrive t' h' (LoginTotp ch' (Some code')) r')) = SignedIn cl' tok') :
  cl_id cl' <> cl_id cl.
Proof.
  intros Heq. destruct (backup_accepted _ _ _ _ _ _ _ _ Hlook Hfirst) as [_ Hspent].
  assert (hashBackupCode sha256 code' = hashBackupCode sha256 code) as Hh by (unfold hashBackupCode; by rewrite Hsame).
  assert (looksLikeBackupCode code' = true) as Hlook' by (unfold looksLikeBackupCode in *; by rewrite Hsame).
  destruct (backup_accepted _ _ _ _ _ _ _ _ Hlook' Hagain) as [Hno _]. apply Hno. rewrite Hh, Heq. by apply exec_spent.
Qed.
End Trace.

(** ** The theorems at work *)

(** The challenge tom gets for his password, and a code with it. *)
Definition tom_challenge : string := toy_sign "k" noon 300 (mkClaims 3 None (Some "totp")).
Definition tom_code (t : Z) (code sid : string) : Event := Arrive t None (LoginTotp (Some tom_challenge) (Some code)) (draw sid).
Definition tom_in : list Event := login_events noon "tom" "tompw" "" ++ [tom_code noon "165576" "s3"].

Lemma tom_unforged : unforged (snd (exec office tom_in)).
Proof.
  assert (exists m0 m1 m2 r0 tok r2, snd (exec office tom_in) =
    [(m0, Arrive noon None (Login (Some "tom") (Some "tompw")) (draw ""), r0);
     (m1, Resume noon 0 (draw ""), Challenge (mkClaims 3 None (Some "totp")) tok);
     (m2, tom_code noon "165576" "s3", r2)] /\ jwt_secret (world m2) = Some "k") as (m0 & m1 & m2 & r0 & tok & r2 & -> & Hk).
  { do 6 eexists. split; vm_compute; reflexivity. }
  intros log1 m e r log2 cl Hlog (now & h & ch & c & r' & -> & secret & text & Hsec & Ht & Hv & _).
  destruct log1 as [|x1 [|x2 [|x3 log1]]]; [discriminate Hlog|discriminate Hlog| |by destruct log1].
  injection Hlog as <- <- <- <- <- <- <- <-. exists m1, (Resume noon 0 (draw "")), (mkClaims 3 None (Some "totp")), tok.
  split; [by right; left|]. rewrite Hk in Hsec. injection Hsec as <-.
  assert (Some tom_challenge = Some text) as [= <-] by (rewrite <- Ht; vm_compute; reflexivity).
  vm_compute in Hv. by injection Hv as <-.
Qed.

Lemma no_session_without_password_witness :
  map ss_id (sessions (db (world (fst (exec office tom_in))))) = ["s3"] /\
  exists m e r, (m, e, r) ∈ snd (exec office tom_in) /\ password_matched m e 3.
Proof.
  split; [vm_compute; reflexivity|].
  pose (s := mkSession "s3" (Some 3) "tom" (noon / 1000) (noon / 1000) (noon / 1000 + 86400) None None).
  apply (no_session_without_password office tom_in s 3); [split; reflexivity|exact tom_unforged| |reflexivity].
  apply list_elem_of_In. vm_compute. left. reflexivity.
Defined.

(** The code again, and the next one. *)
Definition tom_again : list Event :=
  tom_in ++ [tom_code (noon + 1000) "165576" "s4"; tom_code (noon + 2000) "008585" "s5"; tom_code (noon + 3000) "165576" "s6"].

Lemma codes_accepted_once_witness :
  accepted_for 3 (snd (exec office tom_again)) = [56666666; 56666667] /\
  StronglySorted Z.lt (accepted_for 3 (snd (exec office tom_again))).
Proof.
  split; [vm_compute; reflexivity|].
  apply (codes_accepted_once office tom_again 3 tom); [vm_compute; reflexivity|].
  set (l := stages office tom_again). vm_compute in l. subst l.
  repeat (constructor; [eexists; split; vm_compute; reflexivity|]). constructor.
Defined.

Lemma administrator_remains_witness :
  has_admin (db (world (fst (exec office (login_events noon "root" "rootpw" "s2" ++
    [Arrive (noon + 1000) (bearer_of noon 1 "s2") (DeleteUser 1) (draw ""); Arrive (noon + 1000) (bearer_of noon 1 "s2") (DeleteUser 3) (draw "")]))))).
Proof.
  apply (administrator_remains office). exists root_user. split; [|reflexivity]. apply list_elem_of_In. left. reflexivity.
Defined.

Lemma toy_signing : signing.
Proof.
  split; [|done]. intros secret t lifetime c now Hle Hlt. cbn [jwt_verify jwt_sign toy_crypto]. unfold toy_sign.
  set (data := (secret, sqlTime t + lifetime, (cl_id c, cl_sid c, cl_purpose c)) : Token_data).
  cbn [append]. unfold toy_verify. rewrite from_dec by lia. cbn [Z.to_pos].
  assert (decode (encode data) = Some data) as -> by apply decode_encode. unfold data.
  rewrite String.eqb_refl. destruct (Z.leb_spec (sqlTime t + lifetime) (sqlTime now)); [lia|]. by destruct c.
Qed.

Lemma sign_in_works_witness :
  exists first c token, answers amy_in = [first; SignedIn c token] /\
    snd (authMiddleware (world (fst (exec office amy_in))) (noon + 3000000) "/api/subnets" (Some ("Bearer " +:+ token))) =
      Next (Some (mkPrincipal 2 "readonly" false (Some "s1") None)).
Proof.
  assert (good_login (db (world office)) "amy" "amypw" amy) as Hlogin by (split_and!; (reflexivity || discriminate || done)).
  destruct (sign_in_works office noon noon None (draw "") (draw "s1") "amy" "amypw" "k" amy toy_signing Hlogin eq_refl eq_refl ltac:(discriminate))
    as (m2 & c & token & Hrun & Hgate).
  change (exec office amy_in = (m2, [(office, Arrive noon None (Login (Some "amy") (Some "amypw")) (draw ""), Waiting (AwaitLogin (Some amy) "amypw"));
    (mkMachine (world office) (pending office ++ [AwaitLogin (Some amy) "amypw"]), Resume noon 0 (draw "s1"), SignedIn c token)])) in Hrun.
  exists (Waiting (AwaitLogin (Some amy) "amypw")), c, token. split; [unfold answers; by rewrite Hrun|]. rewrite Hrun. cbn [fst].
  apply (Hgate (noon + 3000000) "/api/subnets"); [lia|reflexivity|cbv zeta; intros _; vm_compute; reflexivity|reflexivity|reflexivity|discriminate].
Defined.

Lemma backup_code_once_witness :
  let first := Arrive noon None (LoginTotp (Some tom_challenge) (Some "ABCDE-fghjk")) (draw "s3") in
  let m1 := fst (exec office (login_events noon "tom" "tompw" "")) in
  answers (login_events noon "tom" "tompw" "" ++ [first]) =
    answers (login_events noon "tom" "tompw" "") ++ [SignedIn (mkClaims 3 (Some "s3") None) (toy_sign "k" noon SESSION_SECONDS (mkClaims 3 (Some "s3") None))] /\
  forall tok, snd (step (fst (step m1 first)) (Arrive (noon + 1) None (LoginTotp (Some tom_challenge) (Some "abcdefghjk")) (draw "s4"))) <>
    SignedIn (mkClaims 3 (Some "s4") None) tok.
Proof.
  intros first m1. split; [vm_compute; reflexivity|]. intros tok Hagain.
  assert (snd (step m1 first) = SignedIn (mkClaims 3 (Some "s3") None) (toy_sign "k" noon SESSION_SECONDS (mkClaims 3 (Some "s3") None))) as Hfirst by (vm_compute; reflexivity).
  apply (backup_code_once m1 noon (noon + 1) None None (Some tom_challenge) (Some tom_challenge) "ABCDE-fghjk" "abcdefghjk" (draw "s3") (draw "s4") []
    _ _ _ _ eq_refl eq_refl Hfirst ltac:(constructor) Hagain). reflexivity.
Defined.

(** ** What the awaits let through

    A login that is waiting for [bcrypt.compare] while an administrator resets
    the password is answered with a session all the same: the row was read
    before. *)
Definition root_in : list Event := login_events noon "root" "rootpw" "s2".
Definition reset_of (id : Z) (i : nat) : list Event :=
  [Arrive (noon + 1000) (bearer_of noon 1 "s2") (ResetPassword id) (draw ""); Resume (noon + 1000) i (draw "")].

Example login_during_reset :
  let es := root_in ++ [Arrive noon None (Login (Some "amy") (Some "amypw")) (draw "")] ++ reset_of 2 1 ++ [Resume (noon + 2000) 0 (draw "s1")] in
  map us_hash (users (db (world (fst (exec office es))))) = ["$rootpw"; "$fresh1"; "$tompw"] /\
  snd (authMiddleware (world (fst (exec office es))) (noon + 3000) "/api/auth/me" (bearer_of (noon + 2000) 2 "s1")) =
    Next (Some (mkPrincipal 2 "readonly" true (Some "s1") None)).
Proof. split; vm_compute; reflexivity. Qed.

(** A change of password that is waiting for [bcrypt.hash] then overwrites the
    password of the reset and opens a session, with the flag cleared. *)
Example change_during_reset :
  let es := root_in ++ amy_in ++ [Arrive noon amy_header (ChangePassword (Some "amypw") (Some "Evil2024")) (draw ""); Resume noon 0 (draw "")] ++
    reset_of 2 1 ++ [Resume (noon + 2000) 0 (draw "s9")] in
  map us_hash (users (db (world (fst (exec office es))))) = ["$rootpw"; "$Evil2024"; "$tompw"] /\
  snd (authMiddleware (world (fst (exec office es))) (noon + 3000) "/api/subnets" (bearer_of (noon + 2000) 2 "s9")) =
    Next (Some (mkPrincipal 2 "readonly" false (Some "s9") None)).
Proof. split; vm_compute; reflexivity. Qed.

(** A challenge earned with the old password is still good after a reset. *)
Example challenge_after_reset :
  let es := root_in ++ login_events noon "tom" "tompw" "" ++ reset_of 3 0 ++ [tom_code (noon + 2000) "165576" "s3"] in
  last (answers es) = Some (SignedIn (mkClaims 3 (Some "s3") None) (toy_sign "k" (noon + 2000) SESSION_SECONDS (mkClaims 3 (Some "s3") None))) /\
  map us_hash (users (db (world (fst (exec office es))))) = ["$rootpw"; "$amypw"; "$fresh1"].
Proof. split; vm_compute; reflexivity. Qed.
